(* ===== verification/_CoqProject ===== *)
-Q . S2P
Prelude.v
CallbackLoop.v
RangeList.v
ChunkedVector.v
IndexSets.v
IndexSetFacts.v
IndexSetShifts.v
IndexSetInterface.v
Positions.v
IndexSetTheorems.v
ChangeBuilder.v
ChangeBuilderFacts.v
ChangeMerge.v
ChangeTheorems.v
ChangeCalc.v
ApplyChanges.v
LongestMatch.v
MoveDetection.v
CalculateTheorems.v
TransactLog.v
KvoAdapter.v
SchemaTracking.v
KvoFacts.v
TableRows.v
LogRows.v
TransactTheorems.v
DeepChange.v
DeepSearch.v
Notifier.v
NotifierTheorems.v
DerivedTheorems.v
Advance.v
SyncSession.v
SyncSessionFacts.v
SyncNotifiers.v
SyncTheorems.v
SchemaTypes.v
Schemas.v
SchemaValidation.v
SchemaDiff.v
SchemaTheorems.v
CoreTables.v
ObjectStore.v
StoreChanges.v
StoreFacts.v
SchemaReading.v
StoreMetadata.v
StoreTheorems.v
MigrationPlan.v
MigrationSteps.v
MigrationRun.v
MigrationSecond.v
MigrationResult.v
MigrationTheorems.v
Effects.v
SchemaCache.v
Realms.v
RealmAdvance.v
SharedRealm.v
RealmFacts.v
UpdateFacts.v
RealmTransactions.v
UpdateTheorems.v
NotifierWorker.v
WorkerFacts.v
WorkerTheorems.v
WorkerSafety.v
WorkerLogs.v
SyncFiles.v
SyncMetadata.v
SyncUsers.v
SyncUserFacts.v
SyncUserTheorems.v
Results.v
ResultsFacts.v
ResultsTheorems.v
PlainResults.v
Lists.v
Objects.v
ObjectTheorems.v
