(* ===== verification/Prelude.v ===== *)
(** * The Realm object store: a verification library

    The repository is an iOS framework whose own code is small; the program it
    carries is the Realm database's object store, C++ under
    [src/Example/Pods/Realm/Realm/ObjectStore/src] with its headers under
    [src/Example/Pods/Realm/include]. Paths below are relative to these. The
    object store sits between the core database library, which is linked as a
    binary (only its headers are in the repository), and the language binding.
    This library models the object store's own logic and proves what makes it
    correct.

    ** The parts of the program and how they interact

    A [Realm] ([shared_realm.cpp]) is one thread's view of a file: it begins,
    commits and cancels transactions, advances to newer versions, and brings the
    file to the schema the application asks for. The Realms of a file share a
    [RealmCoordinator] ([impl/realm_coordinator.cpp]), which caches the schema
    and runs the collection notifiers. When a Realm advances, the transaction
    logs of the versions in between are parsed by observers
    ([impl/transact_log_handler.cpp]) that record in [CollectionChangeBuilder]s
    ([impl/collection_change_builder.cpp]), over [IndexSet]s ([index_set.cpp]),
    what happened to tables and lists. Notifiers ([impl/collection_notifier.cpp]
    and its subclasses) turn that into the changes of the collection they watch
    and deliver them to callbacks. [ObjectStore] ([object_store.cpp]) maps
    schemas ([schema.cpp], [object_schema.cpp]) to core tables and migrates
    them. A [SyncSession] ([sync/sync_session.cpp]) connects a synchronized file
    to a server. The application reads collections of objects as [Results]
    ([results.cpp]), which stand for tables, lists of links, queries and views, and
    edits lists through [List] ([list.cpp]) and objects through [Object]
    ([object.cpp], [object_accessor.hpp]).

    ** The files

    - Index sets. [RangeList] is the mathematics of sorted, separated ranges;
      [ChunkedVector] models [ChunkedRangeVector] with its iterators, [IndexSets]
      the class [IndexSet]. [IndexSetFacts] and [IndexSetShifts] prove the operations
      correct, [IndexSetTheorems] collects the results for every chunk size.
      [IndexSetInterface] has the builder and the operations of a set on a set,
      and the class [IndexSetOps]/[IndexSetLaws] against which all clients are
      proved, with the chunked implementation as its instance.
      [Positions] has the composition law of index shifts.
    - Change sets. [ChangeBuilder] is [CollectionChangeBuilder]'s recording
      operations, merge and finalize; the specification [tracks] of
      [ChangeBuilderFacts] says which old row every new position holds, and every
      operation refines its composition ([ChangeMerge], [ChangeTheorems]).
      [ChangeCalc] is [calculate]; [ApplyChanges], [LongestMatch],
      [MoveDetection] and [CalculateTheorems] show that it never
      fails its own debug check.
    - Transaction logs. [TransactLog] has the instructions and the handlers of
      the validator and the observer; [SchemaTracking], [TableRows] and [LogRows]
      relate them to abstract tables, columns and rows. [KvoAdapter] and
      [KvoFacts] are the observed rows; [TransactTheorems] collects the results.
    - Notifiers. [Notifier] has the callbacks of a notifier, [CallbackLoop] the
      loop it shares with [SyncNotifiers]; [DeepChange] and [DeepSearch] the
      check of linked rows and its theorems; [DerivedTheorems] the four kinds of
      notifier and what they report; [Advance] the packages of notifiers and the
      delivery around an advance, with its theorems. [NotifierTheorems] is about the
      callbacks.
    - Schemas. [SchemaTypes] and [Schemas] are properties, object schemas,
      schemas, validation and comparison; [SchemaValidation], [SchemaDiff] and
      [SchemaTheorems] what they do. [CoreTables] is the interface of the core library's groups and
      tables ([CoreGroup], [CoreLaws], and an implementation that shows the laws
      can hold); [ObjectStore] and [StoreChanges] are [object_store.cpp], with
      [StoreFacts], [SchemaReading], [StoreMetadata] and [StoreTheorems] about its
      parts. [MigrationPlan], [MigrationSteps], [MigrationRun],
      [MigrationSecond], [MigrationResult] and [MigrationTheorems] follow a
      migration through its two passes.
    - Realms. [Effects] is the monad of programs on an object that throw
      exceptions, fail assertions and clean up, with its proof rules. [Realms]
      has the interface of the core library's transactions, the state of a Realm
      and its configuration, [SchemaCache] the coordinator's cache,
      [RealmAdvance] and [SharedRealm] the operations. [RealmFacts] and [RealmTransactions] prove the refinement of the
      transaction state machine, [UpdateFacts] and [UpdateTheorems] what
      [update_schema] does, and applies the theorems to a concrete Realm.
    - The notifier worker. [NotifierWorker] is the coordinator's queues of
      notifiers, its two helper shared groups and [run_async_notifiers]; objects
      are known by number, since the queues share them. [WorkerFacts] has what
      the worker relies on when it parses logs ([following]) and how the infos of
      several source versions are combined, [WorkerTheorems] a whole run,
      [WorkerSafety] every sequence of operations and the run after a failed
      opening; [WorkerLogs] shows that histories of row instructions are
      followed, and applies the theorems to one.
    - Sync. [SyncSession] is the session's states, handlers and public methods,
      [SyncSessionFacts] its invariant; [SyncNotifiers] the progress and
      connection notifiers; [SyncTheorems] the results. [SyncFiles] is
      [SyncFileManager] over a file system that is a class ([Disk]), with what
      its names and paths guarantee; [SyncMetadata] the
      metadata Realm's tables, with what other processes commit as a parameter;
      [SyncUsers] the users and the manager over a heap of sessions, which are
      the state machines of [SyncSession]; [SyncUserFacts] the manager's invariant
      and the rules for its programs, [SyncUserTheorems] its consequences, logging
      out and in, and the file actions.

    - Collections. [Results] is [results.cpp] over core's tables, queries and views
      ([Core]): the five modes a collection moves through as it is used.
      [ResultsFacts] has the laws of core ([CoreLaws]), the rows a collection
      [denotes] at a version, and what evaluating and reading give;
      [ResultsTheorems] the theorems and the key paths; [PlainResults] a core of one
      table that meets the laws, and the theorems applied to it. [Lists] is
      [list.cpp]: the edits of a list against those of a sequence, and [assign] of
      elements whose unboxing may create objects.
    - Objects. [Objects] is [object_accessor.hpp], [object.cpp] and the accessor context
      of [object_accessor_impl.hpp]: boxed values ([Any]), creating and updating
      objects, primary keys, setting and reading properties, over core's cells
      ([ObjectCore], [ObjectLaws]); nested objects are created by a function that the
      definitions take ([Creator]), and [create] ties the knot with fuel.
      [ObjectTheorems] has the theorems, a core that meets the laws, and examples.

    ** How code is translated

    Members of objects become fields of records with their names; a method is
    one definition over the record, with its guards in the order of the code.
    [None], [Crash] and [crashes] stand for a failed [REALM_ASSERT] or the use of
    an invalid pointer or iterator, so that a theorem which gives a result also
    says that no assertion fails and no such use happens. Assertions that only
    debug builds make depend on [realm_debug]. Exceptions are [Throw] in code
    that computes a result, and [throws] with the state they leave in code that
    updates a Realm. [size_t] values are [Z]: [npos] is [2 ^ 64 - 1], and
    arithmetic that may wrap is written modulo [2 ^ 64]; positions are otherwise
    assumed below [npos], as vectors and tables are. Strings are byte sequences;
    [StringData] orders them as [char]s, whose sign is a parameter
    ([CharSign]). [std::sort] and [std::partition] are any functions with the
    guarantees of the C++ standard ([StdSort], [StdPartition]); only the
    migration theorems, and the one about the order in which a comparison lists the
    tables to add, also ask that the partition keeps the elements in front of the
    first misplaced one ([PartitionKeepsPrefix]), which the code relies on.

    Functions of the application are parameters: a callback is a function of the
    object it may change ([react] of [Realms], the users of [CallbackLoop] and
    [Advance]), and may do anything its type allows unless a theorem restricts
    it ([calm]: it leaves the transaction alone; [quiet]: it does nothing). What
    other processes commit is a function of the file; where a theorem needs them
    to go by the rules, or not to write at all, it says so ([polite],
    [undisturbed], [up_alone]). Code outside the object store may keep any session
    it was handed ([held_outside] of [SyncUsers]) and let it go at any time.

    ** Bounds

    [loop] runs a C++ loop with fuel; [loop_rule] gives a result for any fuel
    above a decreasing measure. Definitions pass a fuel that is enough: the
    number of ranges and chunks of an index set, or the number of rows of the
    first list for [find_longest_matches], which every recursive call shortens.
    Where the fuel is an argument the theorems hold for every fuel above a bound
    that is proved to be enough: the number of callbacks for the callback loops,
    the number of tables for [find_related_tables], the depth of nested dictionaries
    for [Objects.create]. The search along links stops
    at four levels because the code does.

    ** What the theorems show

    Index sets: every operation computes the set its comment promises and keeps
    the class's own [verify], for every chunk size. Change sets: recording,
    merging and calculating follow the rows; merging needs deletions without
    adjacent rows, since [add_shifted_by] can miscount. Logs: the observer follows
    columns and tables, and rows through the row instructions for top-level tables
    that [row_step] has. Notifiers: delivered changes compose to the difference
    since the last delivery, callbacks that register or remove callbacks are each
    called at most once; the worker tells every notifier exactly the changes
    since the version it was at, as long as it can open the file. Schemas: validation and
    comparison against declarative specifications; a migration reaches the target schema or reports duplicate
    keys. Realms: the operations refine a state machine of transactions, an
    update of the schema is all or nothing unless another process updates it too. Sessions: no reachable state uses a
    missing session, every completion callback ends exactly once. Users: the
    manager keeps the sessions that are alive, except those that only code outside
    still keeps; logging out and in gives a user its sessions back, and backing up
    a Realm never loses it.
    Collections: lazy evaluation cannot be observed, what is derived from a
    collection is derived from its rows, and an edit of a list is the edit of a
    sequence or an error that changes nothing. Objects: primary keys stay unique
    whatever is created or set, an object is found by the key it was created with,
    and exactly the properties that are given are written. Where the code
    does not do what it means to, a theorem shows the failing run.

    ** What is not modelled, and why

    - Threads, mutexes and condition variables: an operation runs alone between
      the points where it calls out. A run of the worker is one step
      ([NotifierWorker]); a Realm that waits for it knows it by what it leaves
      behind each time it wakes the Realm ([Worker] in [Advance]), which is assumed
      to get to the version that is waited for.
    - The core library and the sync client: classes of operations whose laws are
      the behaviour their headers document, with instances that satisfy them; an
      operation that the headers call an error in some stage has no law there.
      Failures of allocation and of the file system are left out.
    - Opening files ([Realm::open_with_config] and the translation of file
      exceptions), writing copies, the registry of coordinators, and thread-safe
      references.
    - The text of messages, except where code compares it.
    - When [ObjectStore] throws in the middle of a change to the tables, the
      tables it leaves are a parameter ([partly_applied]).
    - Permissions and partial sync, Objective-C and Swift: see the components of the
      manifest. *)
From Stdlib Require Export ZArith Lia.
From stdpp Require Export base tactics numbers option list sorting.
#[global] Open Scope Z_scope.

(** ** Fuelled loops

    A C++ loop whose bound is not structural is a [body] that either asks for
    another turn ([inl]) or leaves the loop with a result ([inr]); [None] is a
    failed assertion, an invalid dereference, or running out of turns. *)
Section loop.
Context {S R : Type} (body : S -> option (S + R)).

Fixpoint loop (fuel : nat) (s : S) : option R :=
  match fuel with
  | O => None
  | Datatypes.S n =>
    match body s with
    | None => None
    | Some (inl s') => loop n s'
    | Some (inr r) => Some r
    end
  end.

(** The loop rule: an invariant preserved by every turn that also decreases
    a measure gives a result, and more fuel than the measure is enough. *)
Lemma loop_rule (P : S -> Prop) (m : S -> nat) (Q : R -> Prop) :
  (forall s, P s ->
     match body s with
     | None => False
     | Some (inl s') => P s' /\ (m s' < m s)%nat
     | Some (inr r) => Q r
     end) ->
  forall fuel s, P s -> (m s < fuel)%nat ->
  exists r, loop fuel s = Some r /\ Q r.
Proof.
  intros Hstep. induction fuel as [|n IH]; intros s HP Hm; [lia|].
  simpl. specialize (Hstep s HP).
  destruct (body s) as [[s'|r]|]; [|eauto|done].
  destruct Hstep as [HP' Hlt]. apply IH; [done|lia].
Qed.
End loop.

Lemma loop_ext {S R} (f g : S -> option (S + R)) :
  (forall s, f s = g s) -> forall fuel s, loop f fuel s = loop g fuel s.
Proof. intros E. induction fuel as [|fuel IH]; intros s; [done|]. simpl. rewrite E. by destruct (g s) as [[]|]. Qed.

(** ** [std::lower_bound]: binary search for the first element failing [p] *)
Section lower_bound.
Context {A : Type} (p : A -> bool).

Fixpoint lower_bound_aux (fuel : nat) (l : list A) (first len : nat) : nat :=
  match fuel with
  | O => first
  | Datatypes.S n =>
    match len with
    | O => first
    | _ =>
      let half := Nat.div2 len in
      match l !! (first + half)%nat with
      | Some x =>
        if p x then lower_bound_aux n l (first + half + 1)%nat (len - half - 1)%nat
        else lower_bound_aux n l first half
      | None => first
      end
    end
  end.

(** [std::lower_bound(begin + from, end, p)] *)
Definition lower_bound (from : nat) (l : list A) : nat :=
  lower_bound_aux (length l - from + 1)%nat l from (length l - from)%nat.

Definition partitioned (l : list A) : Prop :=
  forall i j x y, l !! i = Some x -> l !! j = Some y -> (i <= j)%nat ->
  p y = true -> p x = true.

Lemma lower_bound_aux_spec l (Hp : partitioned l) k :
  (k <= length l)%nat ->
  (forall i x, l !! i = Some x -> (i < k)%nat -> p x = true) ->
  (forall i x, l !! i = Some x -> (k <= i)%nat -> p x = false) ->
  forall fuel first len, (len < fuel)%nat -> (first + len <= length l)%nat ->
  (first <= k <= first + len)%nat ->
  lower_bound_aux fuel l first len = k.
Proof.
  intros Hk Hlt Hge. induction fuel as [|n IH]; intros first len Hf Hb Hr; [lia|].
  simpl. destruct len as [|len']; [lia|]. remember (Datatypes.S len') as len.
  assert (Hh : (Nat.div2 len <= len')%nat) by (apply Nat.div2_decr; lia).
  remember (Nat.div2 len) as h eqn:Eh. clear Eh.
  destruct (lookup_lt_is_Some_2 l (first + h)%nat) as [x Hx]; [lia|].
  rewrite Hx. destruct (p x) eqn:E.
  - destruct (decide (first + h < k)%nat); [apply IH; lia|].
    rewrite (Hge _ _ Hx) in E; [done|lia].
  - destruct (decide (k <= first + h)%nat); [apply IH; lia|].
    rewrite (Hlt _ _ Hx) in E; [done|lia].
Qed.

(** On a list split at the partition point the search finds the point. *)
Lemma lower_bound_app from l1 l2 :
  (from <= length l1)%nat ->
  Forall (fun x => p x = true) l1 ->
  Forall (fun x => p x = false) l2 ->
  lower_bound from (l1 ++ l2) = length l1.
Proof.
  intros Hfrom H1 H2.
  assert (Hlt : forall i x, (l1 ++ l2) !! i = Some x -> (i < length l1)%nat -> p x = true).
  { intros i x Hx Hi. rewrite lookup_app_l in Hx by lia.
    rewrite Forall_lookup in H1. eauto. }
  assert (Hge : forall i x, (l1 ++ l2) !! i = Some x -> (length l1 <= i)%nat -> p x = false).
  { intros i x Hx Hi. rewrite lookup_app_r in Hx by lia.
    rewrite Forall_lookup in H2. eauto. }
  unfold lower_bound. apply lower_bound_aux_spec; [|rewrite length_app; lia|done|done|lia| |];
    rewrite ?length_app; [|lia|lia].
  intros i j x y Hx Hy Hij Hpy.
  destruct (decide (i < length l1)%nat); [eauto|].
  rewrite (Hge j y) in Hpy; [done|done|lia].
Qed.
End lower_bound.

(** ** Lists *)
Lemma insert_middle {A} (l1 l2 : list A) x y :
  <[length l1 := y]> (l1 ++ x :: l2) = l1 ++ y :: l2.
Proof. induction l1; simpl; by f_equal. Qed.

Lemma delete_at_middle {A} (l1 l2 : list A) x : delete (length l1) (l1 ++ x :: l2) = l1 ++ l2.
Proof. induction l1 as [|z l1 IH]; simpl; [done|]. by rewrite <- IH. Qed.

Lemma take_middle {A} (l1 l2 : list A) x : take (length l1) (l1 ++ x :: l2) = l1.
Proof. induction l1; simpl; by f_equal. Qed.

Lemma drop_middle {A} (l1 l2 : list A) x : drop (S (length l1)) (l1 ++ x :: l2) = l2.
Proof. induction l1; simpl; done. Qed.

Lemma list_snoc_inv {A} (l : list A) : l = [] \/ exists l' x, l = l' ++ [x].
Proof. destruct l using rev_ind; eauto. Qed.

(** A list without two elements of the same key. *)
Lemma NoDup_key_inj {A K} (key : A -> K) ms x y : NoDup (key <$> ms) -> x ∈ ms -> y ∈ ms -> key x = key y -> x = y.
Proof.
  induction ms as [|m ms IH]; [by intros _ ?%elem_of_nil|]. rewrite fmap_cons. intros [Hm Hnd]%NoDup_cons.
  intros [->|Hx]%elem_of_cons [->|Hy]%elem_of_cons E; [done| | |by apply IH];
    destruct Hm; [rewrite E|rewrite <- E]; by apply list_elem_of_fmap_2.
Qed.

(** [std::find_if]: the position of the first element satisfying [p], or the
    length of the list. *)
Fixpoint find_if {A} (p : A -> bool) (l : list A) : nat :=
  match l with
  | [] => O
  | x :: l => if p x then O else S (find_if p l)
  end.

Lemma find_if_split {A} (p : A -> bool) (l : list A) :
  exists l1 l2, l = l1 ++ l2 /\ find_if p l = length l1 /\
    Forall (fun x => p x = false) l1 /\
    match l2 with [] => True | x :: _ => p x = true end.
Proof.
  induction l as [|x l (l1 & l2 & -> & Hf & H1 & H2)]; simpl.
  - by exists [], [].
  - destruct (p x) eqn:E; [by exists [], (x :: l1 ++ l2)|].
    exists (x :: l1), l2. simpl. rewrite Hf. auto.
Qed.

Lemma eq_bool_decide (b : bool) (P : Prop) `{Decision P} : (b = true <-> P) -> b = bool_decide P.
Proof.
  intros H0. destruct b; symmetry.
  - by apply bool_decide_eq_true_2, H0.
  - apply bool_decide_eq_false_2. intros HP%H0. done.
Qed.

(** ** Loops over a vector whose body can fail *)
Section fold_option.
Context {A S : Type} (f : S -> A -> option S).

Fixpoint fold_option (l : list A) (s : S) : option S :=
  match l with
  | [] => Some s
  | x :: l => s ← f s x; fold_option l s
  end.

(** The rule for such loops: an invariant of the elements seen so far. *)
Lemma fold_option_rule (P : list A -> S -> Prop) l s :
  P [] s ->
  (forall pre x post s, l = pre ++ x :: post -> P pre s -> exists s', f s x = Some s' /\ P (pre ++ [x]) s') ->
  exists s', fold_option l s = Some s' /\ P l s'.
Proof.
  intros Hnil Hstep.
  enough (forall post pre s, l = pre ++ post -> P pre s -> exists s', fold_option post s = Some s' /\ P l s') as Hgo
    by exact (Hgo l [] s eq_refl Hnil).
  induction post as [|x post IH]; intros pre s' -> Hs'.
  - exists s'. by rewrite app_nil_r.
  - destruct (Hstep pre x post s' eq_refl Hs') as (s1 & E & H1). simpl. rewrite E. cbn [mbind option_bind].
    apply (IH (pre ++ [x])); [by rewrite <- app_assoc|done].
Qed.

Lemma fold_option_app l k s : fold_option (l ++ k) s = (s ← fold_option l s; fold_option k s).
Proof. revert s. induction l as [|x l IH]; intros s; [done|]. simpl. destruct (f s x); [apply IH|done]. Qed.
End fold_option.

(** ** Assertions, and case analysis on what a condition tests *)

(** [REALM_ASSERT] *)
Definition realm_assert (b : bool) : option unit := if b then Some tt else None.

Declare Scope realm_scope.
Delimit Scope realm_scope with realm.
Notation "'assert!' b ; k" := (realm_assert b ≫= fun _ => k) (at level 10, b at level 100, k at level 200, only parsing) : realm_scope.

Lemma realm_assert_true b : b = true -> realm_assert b = Some tt.
Proof. by intros ->. Qed.

(** Split on the comparisons of integers a goal tests. *)
Ltac compare_cases := repeat match goal with
  | |- context [?a <? ?b] => destruct (Z.ltb_spec a b)
  | |- context [?a <=? ?b] => destruct (Z.leb_spec a b)
  | |- context [?a =? ?b] => destruct (Z.eqb_spec a b)
  end.

(** Split the conjunctions of the context. *)
Ltac split_hyps := repeat match goal with
  | H : _ /\ _ |- _ => destruct H
  | H : exists _, _ |- _ => destruct H
  end.

Create Rewrite HintDb middle.
#[export] Hint Rewrite @insert_middle @delete_at_middle @take_middle @drop_middle : middle.

(** ** [std::sort]: some sorted permutation

    The standard leaves the order of equivalent elements open; what the code
    does may only depend on the laws. *)
Class StdSort := {
  std_sort {A : Type} (R : A -> A -> Prop) `{!RelDecision R} : list A -> list A;
  std_sort_perm {A : Type} (R : A -> A -> Prop) `{!RelDecision R} (l : list A) : std_sort R l ≡ₚ l;
  std_sort_sorted {A : Type} (R : A -> A -> Prop) `{!RelDecision R, !Total R} (l : list A) :
    Sorted.Sorted R (std_sort R l)
}.

#[global] Instance merge_std_sort : StdSort.
Proof.
  refine {| std_sort := fun A R HR => @merge_sort A R HR |}.
  - intros A R HR l. apply merge_sort_Permutation.
  - intros A R HR HT l. apply Sorted_merge_sort, _.
Defined.
