(* ===== verification/CallbackLoop.v ===== *)
(** * Calling a list of callbacks that may change the list

    Two notifiers of the object store keep a vector of callbacks with unique
    tokens, the index of the callback being called and the number of callbacks
    to call; callbacks may register and unregister callbacks while they run.
    Both loops have the same shape, and this file proves once what it does. *)
From S2P Require Import Prelude.

Definition size_max : Z := 2 ^ 64 - 1.
Definition wrap (x : Z) : Z := x mod 2 ^ 64.

Lemma wrap_small x : 0 <= x < 2 ^ 64 -> wrap x = x.
Proof. intros Hx. unfold wrap. by apply Z.mod_small. Qed.
Lemma wrap_minus_one : wrap (-1) = size_max.
Proof. done. Qed.

(** The part of a notifier's state the loop works on. *)
Record Cursor := mkCursor {
  cur_tokens : list Z;
  cur_index : Z;
  cur_count : Z
}.

(** Registering a callback, and unregistering one that need not be there. *)
Definition add_token (c : Cursor) (t : Z) : Cursor := mkCursor (cur_tokens c ++ [t]) (cur_index c) (cur_count c).
Definition remove_token (c : Cursor) (t : Z) : Cursor :=
  let idx := find_if (fun x => x =? t) (cur_tokens c) in
  if (idx =? length (cur_tokens c))%nat then c
  else
    mkCursor (delete idx (cur_tokens c))
      (if negb (cur_index c =? size_max) && (Z.of_nat idx <=? cur_index c)
       then wrap (cur_index c - 1) else cur_index c)
      (wrap (cur_count c - 1)).

(** The specification: the callbacks in order, without the ones an earlier
    callback unregistered. *)
Fixpoint deliver (removes : Z -> list Z) (gone l : list Z) : list Z :=
  match l with
  | [] => []
  | t :: l => if decide (t ∈ gone) then deliver removes gone l else t :: deliver removes (gone ++ removes t) l
  end.

Definition left_by (ts : list Z) (l : list Z) : list Z := filter (fun x => x ∉ ts) l.

(** ** Lists of tokens *)
Lemma elem_of_dropped (x : Z) k l : x ∈ drop k l -> x ∈ l.
Proof. intros Hx. rewrite <- (take_drop k l), elem_of_app. by right. Qed.

Lemma find_token l t :
  NoDup l -> match decide (t ∈ l) with
    | left _ => exists l1 l2, l = l1 ++ t :: l2 /\ find_if (fun x => x =? t) l = length l1
    | right _ => find_if (fun x => x =? t) l = length l
    end.
Proof.
  induction l as [|x l IH]; intros Hnd.
  - by rewrite decide_False by apply not_elem_of_nil.
  - apply NoDup_cons in Hnd as [Hx Hnd]. specialize (IH Hnd). simpl.
    destruct (Z.eqb_spec x t) as [->|Hne].
    { rewrite decide_True by left. by exists [], l. }
    destruct (decide (t ∈ l)) as [Hin|Hin].
    + rewrite decide_True by (by right). destruct IH as (l1 & l2 & -> & ->). by exists (x :: l1), l2.
    + rewrite decide_False by (rewrite not_elem_of_cons; split; [congruence|done]). by rewrite IH.
Qed.

Lemma left_by_nil l : left_by [] l = l.
Proof.
  unfold left_by. induction l as [|x l IH]; [done|]. rewrite filter_cons, decide_True, IH; [done|]. apply not_elem_of_nil.
Qed.

Lemma left_by_app ts us l : left_by us (left_by ts l) = left_by (ts ++ us) l.
Proof.
  unfold left_by. induction l as [|x l IH]; [done|]. rewrite !filter_cons.
  assert (Hx : (x ∉ ts ++ us) <-> (x ∉ ts) /\ (x ∉ us)) by (rewrite elem_of_app; tauto).
  destruct (decide (x ∉ ts)) as [Ht|Ht]; rewrite ?filter_cons, IH.
  - by apply decide_ext; rewrite Hx; tauto.
  - rewrite decide_False; [done|]. tauto.
Qed.

Lemma left_by_absent ts l : (forall t, t ∈ ts -> t ∉ l) -> left_by ts l = l.
Proof.
  unfold left_by. induction l as [|x l IH]; intros Hl; [done|].
  rewrite filter_cons, decide_True by (intros Hx; apply (Hl x Hx); left).
  rewrite IH; [done|]. intros t Ht Hin. apply (Hl t Ht). by right.
Qed.

Lemma left_by_concat ts l1 l2 : left_by ts (l1 ++ l2) = left_by ts l1 ++ left_by ts l2.
Proof. apply filter_app. Qed.

Lemma deliver_ext removes a b l : (forall x, x ∈ a <-> x ∈ b) -> deliver removes a l = deliver removes b l.
Proof.
  revert a b. induction l as [|x l IH]; intros a b Hab; [done|]. cbn [deliver].
  destruct (decide (x ∈ a)) as [Ha|Ha]; [rewrite decide_True by (by apply Hab); by apply IH|].
  rewrite decide_False by (by rewrite <- Hab). f_equal. apply IH. intros y. by rewrite !elem_of_app, Hab.
Qed.

Lemma deliver_gone removes g h l : deliver removes g (left_by h l) = deliver removes (g ++ h) l.
Proof.
  unfold left_by. revert g. induction l as [|t l IH]; intros g; [done|]. rewrite filter_cons. cbn [deliver].
  destruct (decide (t ∉ h)) as [Hh|Hh]; [|rewrite decide_True by (rewrite elem_of_app; right;
    destruct (decide (t ∈ h)); tauto); apply IH].
  cbn [deliver]. destruct (decide (t ∈ g)) as [Hg|Hg].
  - rewrite decide_True by (rewrite elem_of_app; tauto). apply IH.
  - rewrite decide_False by (rewrite elem_of_app; tauto). f_equal. rewrite IH.
    apply deliver_ext. intros x. rewrite !elem_of_app. tauto.
Qed.

Lemma deliver_sublist removes g l : deliver removes g l `sublist_of` l.
Proof.
  revert g. induction l as [|t l IH]; intros g; [constructor|]. cbn [deliver].
  destruct (decide _); [by apply sublist_cons|by apply sublist_skip].
Qed.

(** A callback is delivered unless it, or one that runs before it, unregisters it. *)
Lemma deliver_complete removes g l t :
  t ∈ l -> t ∉ g -> t ∉ deliver removes g l ≫= removes -> t ∈ deliver removes g l.
Proof.
  revert g. induction l as [|x l IH]; intros g Hl Hg Hr; [by apply elem_of_nil in Hl|]. cbn [deliver] in *.
  destruct (decide (x ∈ g)) as [Hx|Hx].
  - apply elem_of_cons in Hl as [->|Hl]; [done|by apply IH].
  - apply elem_of_cons in Hl as [->|Hl]; [left|]. rewrite bind_cons, not_elem_of_app in Hr. destruct Hr as [Hr1 Hr2].
    right. apply IH; [done| |done]. rewrite elem_of_app. tauto.
Qed.

(** ** The position of the loop

    Of the callbacks [counted ++ extra] the first [k] counted ones have been
    called or are being called. *)
Record at_position (c : Cursor) (counted extra : list Z) (k : nat) : Prop := {
  pos_tokens : cur_tokens c = counted ++ extra;
  pos_bound : (k <= length counted)%nat;
  pos_index : cur_index c = wrap (Z.of_nat k - 1);
  pos_count : cur_count c = Z.of_nat (length counted)
}.

Lemma add_at c counted extra k t :
  at_position c counted extra k -> at_position (add_token c t) counted (extra ++ [t]) k.
Proof. intros [Ht Hk Hi Hc]. split; [|done..]. cbn. by rewrite Ht, app_assoc. Qed.

(** Unregistering a counted callback at [length l1] *)
Lemma remove_counted_at c l1 l2 extra k t :
  at_position c (l1 ++ t :: l2) extra k -> find_if (fun x => x =? t) (cur_tokens c) = length l1 ->
  Z.of_nat (length (l1 ++ t :: l2)) < 2 ^ 64 ->
  at_position (remove_token c t) (l1 ++ l2) extra (if decide (length l1 < k)%nat then (k - 1)%nat else k).
Proof.
  intros [Ht Hk Hi Hc] Hf Hlen. unfold remove_token. rewrite Hf, Ht. rewrite !length_app in *. simpl length in *.
  rewrite (proj2 (Nat.eqb_neq _ _)) by lia. rewrite <- app_assoc. cbn [app].
  split; cbn [cur_tokens cur_index cur_count].
  - by rewrite delete_at_middle, app_assoc.
  - rewrite length_app. case_decide; lia.
  - rewrite Hi. case_decide as Hlt.
    + rewrite !wrap_small by lia. rewrite (proj2 (Z.eqb_neq _ _)) by (unfold size_max; lia).
      rewrite (proj2 (Z.leb_le _ _)) by lia. cbn [negb andb]. f_equal. lia.
    + destruct k as [|k]; [done|]. rewrite wrap_small by lia.
      rewrite (proj2 (Z.leb_gt _ _)) by lia. by rewrite andb_false_r.
  - rewrite Hc, wrap_small by lia. rewrite length_app. lia.
Qed.

Lemma drop_left_by l1 l2 k (t : Z) :
  t ∉ l1 -> t ∉ l2 ->
  drop (if decide (length l1 < k)%nat then (k - 1)%nat else k) (l1 ++ l2) = left_by [t] (drop k (l1 ++ t :: l2)).
Proof.
  intros Ht1 Ht2. assert (Hx : forall l, t ∉ l -> left_by [t] l = l).
  { intros l Hl. apply left_by_absent. intros x ->%list_elem_of_singleton. done. }
  case_decide as Hlt.
  - rewrite (drop_app_ge l1 (t :: l2)), (drop_app_ge l1 l2) by lia.
    replace (k - length l1)%nat with (S (k - 1 - length l1))%nat by lia. simpl. symmetry. apply Hx.
    by intros Hin%elem_of_dropped.
  - rewrite !drop_app_le by lia. unfold left_by. rewrite filter_app, filter_cons, decide_False
      by (rewrite list_elem_of_singleton; tauto).
    fold (left_by [t] (drop k l1)) (left_by [t] l2). rewrite !Hx; [done|done|]. by intros Hin%elem_of_dropped.
Qed.

Lemma remove_at c counted extra k t :
  at_position c counted extra k -> NoDup counted -> t ∉ extra -> Z.of_nat (length counted) < 2 ^ 64 ->
  exists k', at_position (remove_token c t) (left_by [t] counted) extra k' /\
    drop k' (left_by [t] counted) = left_by [t] (drop k counted).
Proof.
  intros Hp Hnd Hex Hlen. pose proof (pos_tokens _ _ _ _ Hp) as Ht.
  destruct (decide (t ∈ counted)) as [Hin|Hin].
  - pose proof (find_token counted t Hnd) as Hf. rewrite decide_True in Hf by done.
    destruct Hf as (l1 & l2 & -> & Hf). apply NoDup_app in Hnd as (_ & Hdis & [Ht2 _]%NoDup_cons).
    assert (Ht1 : t ∉ l1) by (intros Hx; apply (Hdis _ Hx); left).
    assert (El : left_by [t] (l1 ++ t :: l2) = l1 ++ l2).
    { unfold left_by. rewrite filter_app, filter_cons, decide_False by (rewrite list_elem_of_singleton; tauto).
      fold (left_by [t] l1) (left_by [t] l2).
      by rewrite !left_by_absent by (intros x ->%list_elem_of_singleton; done). }
    eexists. rewrite El. split; [apply remove_counted_at; [done| |done]|by apply drop_left_by].
    rewrite Ht, <- app_assoc. cbn [app]. clear -Ht1. induction l1 as [|x l1 IH]; simpl; [by rewrite Z.eqb_refl|].
    apply not_elem_of_cons in Ht1 as [? ?]. rewrite (proj2 (Z.eqb_neq _ _)) by congruence. by rewrite IH.
  - assert (Hno : forall x, x ∈ [t] -> x ∉ counted) by (by intros x ->%list_elem_of_singleton).
    exists k. rewrite left_by_absent by done. split.
    + assert (Hall : t ∉ cur_tokens c) by (rewrite Ht, elem_of_app; tauto).
      unfold remove_token. replace (find_if _ _) with (length (cur_tokens c)); [by rewrite Nat.eqb_refl|].
      clear -Hall. induction (cur_tokens c) as [|x l IH]; [done|]. simpl.
      apply not_elem_of_cons in Hall as [? ?]. rewrite (proj2 (Z.eqb_neq _ _)) by congruence. by rewrite <- IH.
    + symmetry. apply left_by_absent. intros x ->%list_elem_of_singleton. by intros ?%elem_of_dropped.
Qed.

(** ** What a callback does

    It unregisters the callbacks [ts] in this order, and registers callbacks
    with tokens from [bound] on in between. *)
Inductive acts (bound : Z) : list Z -> Cursor -> Cursor -> Prop :=
  | acts_done c : acts bound [] c c
  | acts_add t ts c c' : bound <= t -> acts bound ts (add_token c t) c' -> acts bound ts c c'
  | acts_remove t ts c c' : acts bound ts (remove_token c t) c' -> acts bound (t :: ts) c c'.

Lemma acts_at bound ts c c' :
  acts bound ts c c' -> forall counted extra k,
  at_position c counted extra k -> NoDup counted -> Forall (fun t => bound <= t) extra ->
  Forall (fun t => t < bound) ts -> Z.of_nat (length counted) < 2 ^ 64 ->
  exists extra' k', at_position c' (left_by ts counted) extra' k' /\ Forall (fun t => bound <= t) extra' /\
    drop k' (left_by ts counted) = left_by ts (drop k counted).
Proof.
  induction 1 as [c|t ts c c' Ht _ IH|t ts c c' _ IH]; intros counted extra k Hp Hnd Hex Hts Hlen.
  - exists extra, k. by rewrite !left_by_nil.
  - apply (IH counted (extra ++ [t]) k); [by apply add_at|done| |done|done].
    apply Forall_app_2; [done|by apply Forall_singleton].
  - apply Forall_cons in Hts as [Ht Hts].
    destruct (remove_at c counted extra k t Hp Hnd) as (k1 & Hp1 & Hd1); [|done|].
    { intros Hin. rewrite Forall_forall in Hex. specialize (Hex _ Hin). lia. }
    destruct (IH _ _ _ Hp1) as (extra' & k' & Hp' & Hex' & Hd'); [by apply NoDup_filter|done|done| |].
    { pose proof (length_filter (fun x => x ∉ [t]) counted). unfold left_by. lia. }
    exists extra', k'. rewrite Hd1, !left_by_app in *. done.
Qed.

(** ** The loop *)
Section callback_loop.
Context {St : Type} (view : St -> Cursor) (set_index : Z -> St -> St) (fn : St -> option St).

(** [for (...; m_callback_index < m_callback_count; ++m_callback_index) fn();
    m_callback_index = npos;] *)
Definition callback_step (s : St) : option (St + St) :=
  if cur_index (view s) <? cur_count (view s) then
    s ← fn s;
    Some (inl (set_index (wrap (cur_index (view s) + 1)) s))
  else Some (inr (set_index size_max s)).

Context (bound : Z) (removes : Z -> list Z) (all : list Z) (P : list Z -> St -> Prop).
Hypothesis Hview : forall i s, view (set_index i s) = mkCursor (cur_tokens (view s)) i (cur_count (view s)).
Hypothesis HP : forall called i s, P called s -> P called (set_index i s).
Hypothesis Hall : NoDup all.
Hypothesis Hlen : Z.of_nat (length all) < 2 ^ 64 - 1.
Hypothesis Hremoves : forall t, Forall (fun x => x < bound) (removes t).
Hypothesis Hfn : forall called s t extra,
  P called s -> called ++ [t] `sublist_of` all -> t ∉ called ≫= removes ->
  cur_tokens (view s) = left_by (called ≫= removes) all ++ extra -> Forall (fun t => bound <= t) extra ->
  0 <= cur_index (view s) -> cur_tokens (view s) !! Z.to_nat (cur_index (view s)) = Some t ->
  exists s', fn s = Some s' /\ acts bound (removes t) (view s) (view s') /\ P (called ++ [t]) s'.

Lemma callback_loop_from fuel called s extra k :
  let counted := left_by (called ≫= removes) all in
  P called s -> cur_tokens (view s) = counted ++ extra -> Forall (fun t => bound <= t) extra ->
  (k <= length counted)%nat -> cur_index (view s) = Z.of_nat k -> cur_count (view s) = Z.of_nat (length counted) ->
  called ++ drop k counted `sublist_of` all -> (length counted - k < fuel)%nat ->
  exists s' extra', loop callback_step fuel s = Some s' /\
    P (called ++ deliver removes [] (drop k counted)) s' /\
    view s' = mkCursor (left_by ((called ++ deliver removes [] (drop k counted)) ≫= removes) all ++ extra') size_max
      (Z.of_nat (length (left_by ((called ++ deliver removes [] (drop k counted)) ≫= removes) all))) /\
    Forall (fun t => bound <= t) extra'.
Proof.
  revert called s extra k. induction fuel as [|fuel IH]; intros called s extra k counted Hs Ht Hex Hk Hi Hc Hsub Hf; [lia|].
  cbn [loop]. unfold callback_step at 1. rewrite Hi, Hc.
  assert (Hcl : (length counted <= length all)%nat) by apply length_filter.
  destruct (Z.ltb_spec (Z.of_nat k) (Z.of_nat (length counted))) as [Hlt|Hge].
  - destruct (lookup_lt_is_Some_2 counted k) as [t Hkt]; [lia|].
    assert (Hkt' : cur_tokens (view s) !! Z.to_nat (cur_index (view s)) = Some t).
    { rewrite Ht, Hi, Nat2Z.id. by apply lookup_app_l_Some. }
    rewrite (drop_S _ _ _ Hkt) in Hsub. assert (Hsub1 : called ++ [t] `sublist_of` all).
    { etransitivity; [|exact Hsub]. apply sublist_app; [done|]. apply sublist_skip, sublist_nil_l. }
    assert (Hgone : t ∉ called ≫= removes).
    { apply list_elem_of_lookup_2 in Hkt. by apply list_elem_of_filter in Hkt as [? _]. }
    destruct (Hfn called s t extra Hs Hsub1 Hgone Ht Hex) as (s1 & E1 & Hacts & Hs1); [lia|done|].
    rewrite E1. cbn [mbind option_bind].
    destruct (acts_at _ _ _ _ Hacts counted extra (S k)) as (extra1 & k1 & [Ht1 Hk1 Hi1 Hc1] & Hex1 & Hd1);
      [|by apply NoDup_filter|done|apply Hremoves|lia|].
    { split; [done|lia| |done]. rewrite wrap_small by lia. lia. }
    assert (Eleft : left_by (removes t) counted = left_by ((called ++ [t]) ≫= removes) all).
    { unfold counted. rewrite left_by_app, bind_app. cbn. by rewrite app_nil_r. }
    assert (Hshort : (length (left_by (removes t) counted) - k1 <= length counted - S k)%nat).
    { rewrite <- length_drop, Hd1, <- length_drop. apply length_filter. }
    rewrite Eleft in *.
    destruct (IH (called ++ [t]) (set_index (wrap (cur_index (view s1) + 1)) s1) extra1 k1)
      as (s' & extra' & E' & Hs' & Hv' & Hex'); rewrite ?Hview; cbn [cur_tokens cur_index cur_count]; try done.
    + by apply HP.
    + rewrite Hi1. unfold wrap. rewrite Z.add_mod_idemp_l by lia.
      assert (length (left_by ((called ++ [t]) ≫= removes) all) <= length all)%nat by apply length_filter.
      rewrite Z.mod_small by lia. lia.
    + rewrite Hd1, <- app_assoc. etransitivity; [|exact Hsub]. apply sublist_app; [done|]. cbn.
      apply sublist_skip, sublist_filter.
    + lia.
    + assert (Ed : called ++ deliver removes [] (drop k counted) =
        (called ++ [t]) ++ deliver removes [] (drop k1 (left_by ((called ++ [t]) ≫= removes) all))).
      { rewrite Hd1, deliver_gone, (drop_S _ _ _ Hkt). cbn [deliver].
        rewrite decide_False by apply not_elem_of_nil. by rewrite <- app_assoc. }
      rewrite Ed. by exists s', extra'.
  - rewrite drop_ge by lia. cbn [deliver]. rewrite app_nil_r. exists (set_index size_max s), extra.
    split; [done|]. split; [by apply HP|]. rewrite Hview, Ht, Hc. done.
Qed.

(** From the start: every callback no earlier one unregistered is called once,
    in order. *)
Lemma callback_loop fuel s extra :
  P [] s -> view s = mkCursor (all ++ extra) 0 (Z.of_nat (length all)) -> Forall (fun t => bound <= t) extra ->
  (length all < fuel)%nat ->
  exists s' extra', loop callback_step fuel s = Some s' /\ P (deliver removes [] all) s' /\
    view s' = mkCursor (left_by (deliver removes [] all ≫= removes) all ++ extra') size_max
      (Z.of_nat (length (left_by (deliver removes [] all ≫= removes) all))) /\
    Forall (fun t => bound <= t) extra'.
Proof.
  intros Hs Hv Hex Hf.
  assert (E : left_by ([] ≫= removes) all = all) by (cbn; apply left_by_nil).
  pose proof (callback_loop_from fuel [] s extra 0) as Hl. cbv zeta in Hl. rewrite E in Hl. cbn [drop app] in Hl.
  apply Hl; rewrite ?Hv; cbn; try done; lia.
Qed.
End callback_loop.
