(* ===== verification/RangeList.v ===== *)
(** * Sorted, separated lists of half-open ranges

    The mathematical content of an [IndexSet]: a list of ranges [[first,
    second)], each non-empty, strictly increasing and with a gap between
    neighbours (the invariant [ChunkedRangeVector::verify] checks).  This file
    has no code of its own; it states membership, counting and shifting on such
    lists, and that a set of indices has exactly one such list. *)
From S2P Require Import Prelude.

Abbreviation range := (Z * Z)%type.

Definition range_len (r : range) : Z := r.2 - r.1.

(** [sep lo l]: every range is non-empty and starts strictly after the end of
    the one before it, the first one strictly after [lo]. *)
Fixpoint sep (lo : Z) (l : list range) : Prop :=
  match l with
  | [] => True
  | r :: l => lo < r.1 /\ r.1 < r.2 /\ sep r.2 l
  end.

(** Row indices start at zero. *)
Abbreviation ranges_ok := (sep (-1)).

Fixpoint mem (l : list range) (i : Z) : Prop :=
  match l with
  | [] => False
  | r :: l => r.1 <= i < r.2 \/ mem l i
  end.

(** End of the last range. *)
Definition last_end (lo : Z) (l : list range) : Z := foldl (fun _ r => r.2) lo l.

Definition total (l : list range) : Z := foldr (fun r n => range_len r + n) 0 l.

(** How many members are below [x]. *)
Fixpoint count_below (x : Z) (l : list range) : Z :=
  match l with
  | [] => 0
  | r :: l => (Z.min r.2 x - Z.min r.1 x) + count_below x l
  end.

(** The indices of the ranges, in order. *)
Definition range_elems (r : range) : list Z := seqZ r.1 (range_len r).
Fixpoint elems (l : list range) : list Z :=
  match l with
  | [] => []
  | r :: l => range_elems r ++ elems l
  end.

(** [nth_free l i]: the [i]th index (from zero) that is not a member. *)
Fixpoint nth_free (l : list range) (i : Z) : Z :=
  match l with
  | [] => i
  | r :: l => if i <? r.1 then i else nth_free l (i + range_len r)
  end.

(** Move every range by [k]. *)
Definition shift_range (k : Z) (r : range) : range := (r.1 + k, r.2 + k).
Definition shift_all (k : Z) (l : list range) : list range := shift_range k <$> l.

(** ** Structure *)

Lemma last_end_app lo l1 l2 : last_end lo (l1 ++ l2) = last_end (last_end lo l1) l2.
Proof. unfold last_end. by rewrite foldl_app. Qed.

Lemma last_end_snoc lo l r : last_end lo (l ++ [r]) = r.2.
Proof. by rewrite last_end_app. Qed.

Lemma sep_app lo l1 l2 : sep lo (l1 ++ l2) <-> sep lo l1 /\ sep (last_end lo l1) l2.
Proof.
  revert lo. induction l1 as [|r l1 IH]; intros lo; simpl; [tauto|].
  rewrite IH. unfold last_end. simpl. tauto.
Qed.

Lemma sep_weaken lo lo' l : lo' <= lo -> sep lo l -> sep lo' l.
Proof. destruct l as [|r l]; simpl; [done|]. intros; intuition lia. Qed.

Lemma last_end_ge lo l : sep lo l -> lo <= last_end lo l.
Proof.
  revert lo. induction l as [|r l IH]; intros lo; unfold last_end; simpl; [lia|].
  intros (? & ? & H). apply IH in H. unfold last_end in H. lia.
Qed.

Lemma mem_app l1 l2 i : mem (l1 ++ l2) i <-> mem l1 i \/ mem l2 i.
Proof. induction l1 as [|r l1 IH]; simpl; [tauto|]. rewrite IH. tauto. Qed.

Lemma mem_nil i : mem [] i <-> False.
Proof. done. Qed.

Lemma mem_cons r l i : mem (r :: l) i <-> r.1 <= i < r.2 \/ mem l i.
Proof. done. Qed.

Lemma mem_bounds lo l i : sep lo l -> mem l i -> lo < i < last_end lo l.
Proof.
  revert lo. induction l as [|r l IH]; intros lo; simpl; [done|].
  intros (H1 & H2 & H3) [H|H].
  - pose proof (last_end_ge _ _ H3). unfold last_end in *. simpl. lia.
  - pose proof (IH _ H3 H). unfold last_end in *. simpl. lia.
Qed.

Lemma mem_lower lo l i : sep lo l -> mem l i -> lo < i.
Proof. intros H1 H2. by destruct (mem_bounds _ _ _ H1 H2). Qed.

Lemma mem_upper lo l i : sep lo l -> mem l i -> i < last_end lo l.
Proof. intros H1 H2. by destruct (mem_bounds _ _ _ H1 H2). Qed.

#[global] Instance mem_dec l i : Decision (mem l i).
Proof.
  induction l as [|r l IH]; simpl; [right; tauto|].
  destruct IH as [H|H]; [left; tauto|].
  destruct (decide (r.1 <= i < r.2)); [left|right]; tauto.
Defined.

Lemma mem_elems l i : i ∈ elems l <-> mem l i.
Proof.
  induction l as [|r l IH]; simpl.
  - split; [apply not_elem_of_nil|done].
  - rewrite elem_of_app, IH. unfold range_elems, range_len. rewrite elem_of_seqZ.
    split; (intros [?|?]; [left; lia|tauto]).
Qed.

(** ** A set of indices has exactly one separated range list *)
Lemma sep_head_unique lo a b c d l l' :
  sep lo ((a, b) :: l) -> sep lo ((c, d) :: l') ->
  (forall i, mem ((a, b) :: l) i <-> mem ((c, d) :: l') i) -> a = c /\ b = d.
Proof.
  simpl. intros (? & ? & H1) (? & ? & H2) E.
  assert (c <= a).
  { destruct (proj1 (E a)) as [?|Hm]; [left; lia|lia|]. apply (mem_lower _ _ _ H2) in Hm. lia. }
  assert (a <= c).
  { destruct (proj2 (E c)) as [?|Hm]; [left; lia|lia|]. apply (mem_lower _ _ _ H1) in Hm. lia. }
  split; [lia|].
  destruct (Z.lt_trichotomy b d) as [Hl|[?|Hl]]; [exfalso|done|exfalso].
  - destruct (proj2 (E b)) as [?|Hm]; [left; lia|lia|]. apply (mem_lower _ _ _ H1) in Hm. lia.
  - destruct (proj1 (E d)) as [?|Hm]; [left; lia|lia|]. apply (mem_lower _ _ _ H2) in Hm. lia.
Qed.

Lemma sep_unique lo l l' :
  sep lo l -> sep lo l' -> (forall i, mem l i <-> mem l' i) -> l = l'.
Proof.
  revert lo l'. induction l as [|[a b] l IH]; intros lo [|[c d] l'] H1 H2 E; [done| | |].
  - exfalso. apply (proj2 (E c)). left. simpl in *. lia.
  - exfalso. apply (proj1 (E a)). left. simpl in *. lia.
  - destruct (sep_head_unique _ _ _ _ _ _ _ H1 H2 E) as [-> ->].
    destruct H1 as (? & ? & H1), H2 as (? & ? & H2). simpl in *.
    f_equal. apply (IH d); [done|done|]. intros i. specialize (E i). simpl in E.
    split; intros Hi.
    + pose proof (mem_lower _ _ _ H1 Hi). destruct (proj1 E (or_intror Hi)); [lia|done].
    + pose proof (mem_lower _ _ _ H2 Hi). destruct (proj2 E (or_intror Hi)); [lia|done].
Qed.

(** ** Counting *)
Lemma total_app l1 l2 : total (l1 ++ l2) = total l1 + total l2.
Proof. unfold total. induction l1; simpl; lia. Qed.

Lemma count_below_app x l1 l2 :
  count_below x (l1 ++ l2) = count_below x l1 + count_below x l2.
Proof. induction l1; simpl; lia. Qed.

Lemma count_below_all lo l x : sep lo l -> last_end lo l <= x -> count_below x l = total l.
Proof.
  revert lo. induction l as [|r l IH]; intros lo; simpl; [done|].
  intros (? & ? & H) Hx. unfold last_end in *. simpl in Hx.
  rewrite (IH r.2) by done.
  pose proof (last_end_ge _ _ H). unfold last_end in *. unfold range_len. lia.
Qed.

Lemma count_below_none lo l x : sep lo l -> x <= lo + 1 -> count_below x l = 0.
Proof.
  revert lo. induction l as [|r l IH]; intros lo; simpl; [done|].
  intros (? & ? & H) Hx. rewrite (IH r.2) by (done || lia). lia.
Qed.

Lemma count_below_nonneg lo l x : sep lo l -> 0 <= count_below x l.
Proof.
  revert lo. induction l as [|r l IH]; intros lo; simpl; [done|].
  intros (? & ? & H). specialize (IH _ H). lia.
Qed.

Lemma count_below_le lo l x : sep lo l -> lo < x -> count_below x l <= x - lo - 1.
Proof.
  revert lo. induction l as [|r l IH]; intros lo; simpl; [lia|].
  intros (? & ? & H) Hx. destruct (decide (r.2 < x)).
  - specialize (IH _ H ltac:(lia)). lia.
  - rewrite (count_below_none r.2) by (done || lia). lia.
Qed.

Lemma count_below_mono lo l x y : sep lo l -> x <= y -> count_below x l <= count_below y l.
Proof.
  revert lo. induction l as [|r l IH]; intros lo; simpl; [lia|].
  intros (? & ? & H) Hx. specialize (IH _ H Hx). lia.
Qed.

Lemma length_elems lo l : sep lo l -> Z.of_nat (length (elems l)) = total l.
Proof.
  revert lo. induction l as [|r l IH]; intros lo; simpl; [done|].
  intros (? & ? & H). rewrite length_app, Nat2Z.inj_add, (IH _ H).
  unfold range_elems, range_len. rewrite length_seqZ. lia.
Qed.

Lemma count_below_elems lo l x :
  sep lo l -> count_below x l = Z.of_nat (length (filter (fun i => i < x) (elems l))).
Proof.
  revert lo. induction l as [|r l IH]; intros lo; simpl; [done|].
  intros (? & ? & H).   rewrite filter_app, length_app, Nat2Z.inj_add, (IH _ H). f_equal.
  unfold range_elems, range_len.
  assert (forall n a, Z.of_nat (length (filter (fun i => i < x) (seqZ a (Z.of_nat n))))
     = Z.min (a + Z.of_nat n) x - Z.min a x) as Hn.
  { clear. induction n as [|n IHn]; intros a.
    - simpl. replace (a + 0) with a by lia. lia.
    - rewrite seqZ_S, filter_app, length_app, Nat2Z.inj_add, IHn.
      rewrite filter_cons, filter_nil. case_decide; simpl; lia. }
  specialize (Hn (Z.to_nat (r.2 - r.1)) r.1). rewrite Z2Nat.id in Hn by lia.
  rewrite Hn. lia.
Qed.

(** ** Free indices *)
Lemma nth_free_ge lo l i : sep lo l -> i <= nth_free l i.
Proof.
  revert lo i. induction l as [|r l IH]; intros lo i; simpl; [lia|].
  intros (? & ? & H). destruct (Z.ltb_spec i r.1); [lia|].
  specialize (IH _ (i + range_len r) H). unfold range_len in *. lia.
Qed.

Lemma nth_free_not_mem lo l i : sep lo l -> ~ mem l (nth_free l i).
Proof.
  revert lo i. induction l as [|r l IH]; intros lo i; simpl; [tauto|].
  intros (? & ? & H). destruct (Z.ltb_spec i r.1).
  - intros [?|Hm]; [lia|]. eapply mem_lower in Hm; [|done]. lia.
  - intros [?|Hm]; [|by eapply IH].
    pose proof (nth_free_ge _ _ (i + range_len r) H). unfold range_len in *. lia.
Qed.

Lemma nth_free_count lo l i :
  sep lo l -> nth_free l i - count_below (nth_free l i) l = i.
Proof.
  revert lo i. induction l as [|r l IH]; intros lo i; simpl; [lia|].
  intros (? & ? & H). destruct (Z.ltb_spec i r.1).
  - rewrite (count_below_none r.2) by (done || lia). lia.
  - specialize (IH _ (i + range_len r) H).
    pose proof (nth_free_ge _ _ (i + range_len r) H). unfold range_len in *. lia.
Qed.

Lemma nth_free_unshift lo l k :
  sep lo l -> ~ mem l k -> nth_free l (k - count_below k l) = k.
Proof.
  revert lo k. induction l as [|r l IH]; intros lo k; simpl; [lia|].
  intros (? & ? & H) Hk. destruct (decide (k < r.1)).
  - rewrite (count_below_none r.2) by (done || lia).
    destruct (Z.ltb_spec (k - (Z.min r.2 k - Z.min r.1 k + 0)) r.1); lia.
  - assert (r.2 <= k) by lia.
    assert (count_below k l <= k - r.2).
    { destruct (decide (k = r.2)) as [->|].
      - rewrite (count_below_none r.2) by (done || lia). lia.
      - pose proof (count_below_le _ _ k H). lia. }
    destruct (Z.ltb_spec (k - (Z.min r.2 k - Z.min r.1 k + count_below k l)) r.1); [lia|].
    transitivity (nth_free l (k - count_below k l)); [|apply (IH _ _ H); tauto].
    f_equal. unfold range_len. lia.
Qed.

Lemma nth_free_lt lo l i j : sep lo l -> i < j -> nth_free l i < nth_free l j.
Proof.
  revert lo i j. induction l as [|r l IH]; intros lo i j; simpl; [lia|].
  intros (? & ? & H) Hij. destruct (Z.ltb_spec i r.1), (Z.ltb_spec j r.1); [lia| |lia|].
  - pose proof (nth_free_ge _ _ (j + range_len r) H). unfold range_len in *. lia.
  - apply (IH _ _ _ H). lia.
Qed.

Lemma nth_free_inj lo l i j : sep lo l -> nth_free l i = nth_free l j -> i = j.
Proof.
  intros H E. destruct (Z.lt_trichotomy i j) as [Hl|[?|Hl]]; [|done|];
    apply (nth_free_lt _ _ _ _ H) in Hl; lia.
Qed.

(** ** Shifting *)
Lemma shift_all_sep lo k l : sep lo l -> sep (lo + k) (shift_all k l).
Proof.
  revert lo. induction l as [|r l IH]; intros lo; simpl; [done|].
  intros (? & ? & H). split; [lia|]. split; [lia|]. by apply IH.
Qed.

Lemma shift_all_mem k l i : mem (shift_all k l) i <-> mem l (i - k).
Proof. induction l as [|r l IH]; simpl; [done|]. rewrite IH. intuition lia. Qed.

Lemma shift_all_total k l : total (shift_all k l) = total l.
Proof. unfold total. induction l as [|r l IH]; simpl; [done|]. unfold range_len in *. simpl. lia. Qed.

(** ** The place of an index *)
Definition ends_by (x : Z) (l : list range) : Prop := Forall (fun r => r.2 <= x) l.

(** [split_at x l1 l2]: the ranges [l1] end by [x], those of [l2] end after it. *)
Definition splits_at (x : Z) (l1 l2 : list range) : Prop :=
  ends_by x l1 /\ Forall (fun r => x < r.2) l2.

Lemma ends_by_app x l1 l2 : ends_by x (l1 ++ l2) <-> ends_by x l1 /\ ends_by x l2.
Proof. unfold ends_by. by rewrite Forall_app. Qed.

Lemma ends_by_cons x r l : ends_by x (r :: l) <-> r.2 <= x /\ ends_by x l.
Proof. unfold ends_by. by rewrite Forall_cons. Qed.

Lemma ends_by_nil x : ends_by x [].
Proof. constructor. Qed.

Lemma sep_all_after lo l : sep lo l -> Forall (fun r => lo < r.1 /\ lo < r.2) l.
Proof.
  revert lo. induction l as [|r l IH]; intros lo; simpl; [constructor|].
  intros (? & ? & H). constructor; [lia|].
  eapply Forall_impl; [by apply IH|]. simpl. intros; lia.
Qed.

Lemma sep_split lo l x : sep lo l -> exists l1 l2, l = l1 ++ l2 /\ splits_at x l1 l2.
Proof.
  revert lo. induction l as [|r l IH]; intros lo; simpl.
  - exists [], []. repeat constructor.
  - intros (? & ? & H). destruct (decide (r.2 <= x)).
    + destruct (IH _ H) as (l1 & l2 & -> & Hl1 & Hl2).
      exists (r :: l1), l2. split; [done|]. split; [by constructor|done].
    + exists [], (r :: l). split; [done|]. split; [constructor|].
      constructor; [lia|]. eapply Forall_impl; [by eapply sep_all_after|]. simpl. intros; lia.
Qed.

Lemma splits_unique x l1 l2 l1' l2' :
  l1 ++ l2 = l1' ++ l2' -> splits_at x l1 l2 -> splits_at x l1' l2' -> l1 = l1' /\ l2 = l2'.
Proof.
  intros E [H1 H2] [H1' H2'].
  assert (length l1 = length l1').
  { destruct (app_eq_inv _ _ _ _ E) as [(k & -> & ->)|(k & -> & ->)];
      destruct k as [|r k]; rewrite ?app_nil_r; try done; exfalso.
    - apply Forall_app in H1 as [_ [? _]%Forall_cons].
      apply Forall_app in H2' as [[? _]%Forall_cons _]. lia.
    - apply Forall_app in H1' as [_ [? _]%Forall_cons].
      apply Forall_app in H2 as [[? _]%Forall_cons _]. lia. }
  by apply app_inj_1.
Qed.

Lemma ends_by_not_mem x l j : ends_by x l -> mem l j -> j < x.
Proof.
  induction l as [|r l IH]; simpl; [done|].
  intros [? H]%Forall_cons [?|Hm]; [lia|]. by apply IH.
Qed.

Lemma ends_by_last_end lo l x : lo <= x -> ends_by x l -> last_end lo l <= x.
Proof.
  destruct (list_snoc_inv l) as [->|(l' & r & ->)]; [done|].
  intros _ [_ [? _]%Forall_cons]%Forall_app. by rewrite last_end_snoc.
Qed.

Lemma last_end_ends lo l : sep lo l -> ends_by (last_end lo l) l.
Proof.
  revert lo. induction l as [|r l IH]; intros lo; [constructor|].
  intros (? & ? & H). constructor; [|by apply IH].
  pose proof (last_end_ge _ _ H). done.
Qed.

(** ** Increasing lists of indices *)
Fixpoint increasing (lo : Z) (es : list Z) : Prop :=
  match es with
  | [] => True
  | e :: es => lo < e /\ increasing e es
  end.

Lemma increasing_weaken lo lo' es : lo' <= lo -> increasing lo es -> increasing lo' es.
Proof. destruct es; simpl; [done|]. intros ? [??]; split; [lia|done]. Qed.

Lemma increasing_app lo hi es1 es2 :
  increasing lo es1 -> lo <= hi -> Forall (fun e => e <= hi) es1 -> increasing hi es2 ->
  increasing lo (es1 ++ es2).
Proof.
  revert lo. induction es1 as [|e es1 IH]; intros lo; simpl.
  - intros. by eapply increasing_weaken.
  - intros [? H] ? [? Hf]%Forall_cons Hes. split; [done|]. by apply IH.
Qed.

Lemma seqZ_increasing lo a n : lo < a -> increasing lo (seqZ a n).
Proof.
  intros Hlo. destruct (decide (0 <= n)); [|rewrite seqZ_nil; [done|lia]].
  rewrite <- (Z2Nat.id n) by done. generalize (Z.to_nat n) as k. clear n l. intros k.
  revert lo a Hlo. induction k as [|k IH]; intros lo a Hlo.
  - done.
  - rewrite seqZ_cons by lia. simpl. split; [done|].
    replace (Z.pred (Z.of_nat (S k))) with (Z.of_nat k) by lia. apply IH. lia.
Qed.

Lemma increasing_bound lo es : increasing lo es -> Forall (fun e => lo < e) es.
Proof.
  revert lo. induction es as [|e es IH]; intros lo; simpl; [constructor|].
  intros [? H]. constructor; [done|]. eapply Forall_impl; [by apply IH|]. simpl. intros; lia.
Qed.

Lemma elems_increasing lo l : sep lo l -> increasing lo (elems l).
Proof.
  revert lo. induction l as [|r l IH]; intros lo; simpl; [done|].
  intros (? & ? & H). apply (increasing_app _ r.2); [by apply seqZ_increasing|lia| |by apply IH].
  apply Forall_forall. unfold range_elems, range_len. intros e. rewrite elem_of_seqZ. lia.
Qed.

(** How many of the increasing [es] are below [x]. *)
Definition below (es : list Z) (x : Z) : Z := Z.of_nat (length (filter (fun e => e < x) es)).

Lemma below_cons e es x : below (e :: es) x = (if decide (e < x) then 1 else 0) + below es x.
Proof. unfold below. rewrite filter_cons. case_decide; simpl; lia. Qed.

Lemma below_none es x lo : increasing lo es -> x <= lo + 1 -> below es x = 0.
Proof.
  revert lo. induction es as [|e es IH]; intros lo; [done|]. intros [? Hi] Hx.
  rewrite below_cons, (IH _ Hi) by lia. rewrite decide_False by lia. done.
Qed.

Lemma below_succ lo es x :
  increasing lo es -> below es (x + 1) = below es x + (if decide (x ∈ es) then 1 else 0).
Proof.
  revert lo. induction es as [|e es IH]; intros lo; [done|]. intros [He Hes].
  rewrite !below_cons, (IH _ Hes). destruct (decide (e = x)) as [->|Hne].
  - rewrite (decide_True (P := x < x + 1)), (decide_False (P := x < x)), (decide_False (P := x ∈ es)),
      (decide_True (P := x ∈ x :: es)) by (lia || (by left) ||
        (intros Hin; apply increasing_bound in Hes; rewrite Forall_forall in Hes; apply Hes in Hin; lia)). lia.
  - assert (x ∈ e :: es <-> x ∈ es) as Hiff by (rewrite elem_of_cons; intuition congruence).
    repeat case_decide; (lia || tauto).
Qed.

Lemma below_at lo es t e : increasing lo es -> es !! t = Some e -> below es e = Z.of_nat t.
Proof.
  revert lo t. induction es as [|e' es IH]; intros lo t; [done|]. intros [He Hes] Ht.
  rewrite below_cons. destruct t as [|t]; simpl in Ht.
  - injection Ht as ->. rewrite decide_False, (below_none _ _ e) by (done || lia). done.
  - assert (e' < e).
    { apply increasing_bound in Hes. rewrite Forall_forall in Hes. apply Hes. by eapply list_elem_of_lookup_2. }
    rewrite decide_True, (IH _ _ Hes Ht) by done. lia.
Qed.
