(* ===== verification/ChunkedVector.v ===== *)
(** * [_impl::ChunkedRangeVector] and its iterators

    Models the chunked storage of [index_set.hpp] / [index_set.cpp]: a vector
    of chunks of at most [max_size] ranges with cached bounds and counts,
    bidirectional iterators over the ranges, and the mutating operations
    ([set], [adjust], [shift], [push_back], [insert], [ensure_space], [erase]).
    The second half proves that each operation acts on the flattened list of
    ranges as it should while keeping every cached field exact, whatever the
    chunk boundaries are. *)
From S2P Require Import Prelude.
From S2P Require Import RangeList.

(** [ChunkedRangeVector::max_size] is 4 in debug builds and
    [4096 / sizeof(std::pair<size_t, size_t>)] otherwise; the code only relies
    on it being positive and even. *)
Class ChunkSize := {
  max_size : nat;
  max_size_even : exists h, max_size = (h + h)%nat /\ (0 < h)%nat
}.

Definition debug_chunk_size : ChunkSize.
Proof. refine {| max_size := 4 |}. exists 2%nat. lia. Defined.

Definition release_chunk_size : ChunkSize.
Proof. refine {| max_size := 256 |}. exists 128%nat. lia. Defined.

Record Chunk := mkChunk {
  ch_data : list range;
  ch_begin : Z;
  ch_end : Z;
  ch_count : Z
}.

(** [m_data] *)
Abbreviation crv := (list Chunk).

(** [m_outer] and the offset of [m_inner] in the chunk; the end iterator's null
    [m_inner] is offset zero past the last chunk. *)
Record iterator := It { it_outer : nat; it_inner : nat }.

#[global] Instance iterator_eq_dec : EqDecision iterator.
Proof. solve_decision. Defined.

Section chunked_range_vector.
Context {CS : ChunkSize}.
Implicit Types (d : crv) (it pos : iterator).

Definition empty d : bool := match d with [] => true | _ => false end.
Definition end_it d : iterator := It (length d) 0.
Definition begin_it d : iterator := if empty d then end_it d else It 0 0.

(** [operator==] *)
Definition it_eqb (a b : iterator) : bool :=
  (it_outer a =? it_outer b)%nat && (it_inner a =? it_inner b)%nat.

(** [operator*] / [operator->]; [None] is a dereference out of bounds *)
Definition deref d it : option range :=
  c ← d !! it_outer it; ch_data c !! it_inner it.

Definition outer d it : option Chunk := d !! it_outer it.
Definition offset it : nat := it_inner it.

Definition next_chunk it : iterator := It (S (it_outer it)) 0.

(** [operator++] *)
Definition next_it d it : option iterator :=
  c ← d !! it_outer it;
  Some (if (S (it_inner it) =? length (ch_data c))%nat then next_chunk it
        else It (it_outer it) (S (it_inner it))).

(** [operator--] *)
Definition prev_it d it : option iterator :=
  match it_inner it with
  | O =>
    match it_outer it with
    | O => None
    | S o => c ← d !! o; Some (It o (length (ch_data c) - 1))
    end
  | S i => Some (It (it_outer it) i)
  end.

(** [MutableChunkedRangeVectorIterator::set] *)
Definition set_it d it (front back : Z) : option crv :=
  c ← d !! it_outer it;
  r ← ch_data c !! it_inner it;
  Some (<[it_outer it := mkChunk
    (<[it_inner it := (front, back)]> (ch_data c))
    (if (offset it =? 0)%nat then front else ch_begin c)
    (if (it_inner it =? length (ch_data c) - 1)%nat then back else ch_end c)
    (ch_count c - (r.2 - r.1) + (back - front))]> d).

(** [MutableChunkedRangeVectorIterator::adjust] *)
Definition adjust d it (front back : Z) : option crv :=
  c ← d !! it_outer it;
  r ← ch_data c !! it_inner it;
  Some (<[it_outer it := mkChunk
    (<[it_inner it := (r.1 + front, r.2 + back)]> (ch_data c))
    (if (offset it =? 0)%nat then ch_begin c + front else ch_begin c)
    (if (it_inner it =? length (ch_data c) - 1)%nat then ch_end c + back else ch_end c)
    (ch_count c + (- front + back))]> d).

(** [MutableChunkedRangeVectorIterator::shift] *)
Definition shift_it d it (distance : Z) : option crv :=
  c ← d !! it_outer it;
  r ← ch_data c !! it_inner it;
  Some (<[it_outer it := mkChunk
    (<[it_inner it := (r.1 + distance, r.2 + distance)]> (ch_data c))
    (if (offset it =? 0)%nat then ch_begin c + distance else ch_begin c)
    (if (it_inner it =? length (ch_data c) - 1)%nat then ch_end c + distance else ch_end c)
    (ch_count c)]> d).

(** [ChunkedRangeVector::push_back] *)
Definition push_back d (value : range) : option crv :=
  match last d with
  | Some c =>
    if (length (ch_data c) <? max_size)%nat then
      if ch_end c <=? value.1 then
        Some (<[(length d - 1)%nat := mkChunk (ch_data c ++ [value]) (ch_begin c)
                 value.2 (ch_count c + (value.2 - value.1))]> d)
      else None
    else Some (d ++ [mkChunk [value] value.1 value.2 (value.2 - value.1)])
  | None => Some (d ++ [mkChunk [value] value.1 value.2 (value.2 - value.1)])
  end.

(** [ChunkedRangeVector::ensure_space] *)
Definition ensure_space d pos : option (crv * iterator) :=
  c ← d !! it_outer pos;
  if (length (ch_data c) + 1 <=? max_size)%nat then Some (d, pos)
  else
    let off := offset pos in
    let to_move := Nat.div max_size 2 in
    let n := length (ch_data c) in
    let moved := drop (n - to_move) (ch_data c) in
    let kept := take (n - to_move) (ch_data c) in
    let moved_count := foldr (fun r acc => range_len r + acc) 0 moved in
    prev_back ← last kept;
    new_front ← head moved;
    new_back ← last moved;
    let d' := take (it_outer pos) d
      ++ mkChunk kept (ch_begin c) prev_back.2 (ch_count c - moved_count)
      :: mkChunk moved new_front.1 new_back.2 moved_count
      :: drop (S (it_outer pos)) d in
    Some (d', if (to_move <=? off)%nat then It (S (it_outer pos)) (off - to_move)
              else It (it_outer pos) off).

(** [ChunkedRangeVector::insert] *)
Definition insert d pos (value : range) : option (crv * iterator) :=
  if (it_outer pos =? length d)%nat then
    d' ← push_back d value;
    it ← prev_it d' (end_it d');
    Some (d', it)
  else
    '(d', p) ← ensure_space d pos;
    c ← d' !! it_outer p;
    Some (<[it_outer p := mkChunk
      (take (offset p) (ch_data c) ++ value :: drop (offset p) (ch_data c))
      (Z.min (ch_begin c) value.1) (Z.max (ch_end c) value.2)
      (ch_count c + (value.2 - value.1))]> d', p).

(** [ChunkedRangeVector::erase] *)
Definition erase d pos : option (crv * iterator) :=
  let off := offset pos in
  c ← d !! it_outer pos;
  r ← ch_data c !! off;
  let data' := delete off (ch_data c) in
  let count' := ch_count c - (r.2 - r.1) in
  if (length data' =? 0)%nat then
    Some (delete (it_outer pos) d, It (it_outer pos) 0)
  else
    front ← head data';
    back ← last data';
    let d' := <[it_outer pos := mkChunk data' front.1 back.2 count']> d in
    Some (d', if (off <? length data')%nat then It (it_outer pos) off
              else next_chunk pos).

(** All ranges, chunk after chunk. *)
Fixpoint ranges d : list range :=
  match d with
  | [] => []
  | c :: d => ch_data c ++ ranges d
  end.

(** [ChunkedRangeVector::verify] (its body runs in debug builds) *)
Fixpoint verify_ranges (prev_end : option Z) (l : list range) : bool :=
  match l with
  | [] => true
  | r :: l =>
    (r.1 <? r.2)
    && (match prev_end with None => true | Some e => e <? r.1 end)
    && verify_ranges (Some r.2) l
  end.

Definition verify_chunk (c : Chunk) : bool :=
  match head (ch_data c), last (ch_data c) with
  | Some f, Some b =>
    (f.1 =? ch_begin c) && (b.2 =? ch_end c) && (ch_count c <=? ch_end c - ch_begin c)
    && (total (ch_data c) =? ch_count c)
  | _, _ => false
  end.

Definition verify d : bool := verify_ranges None (ranges d) && forallb verify_chunk d.

(** ** The cached fields *)
Definition first_of (l : list range) : Z := match l with [] => 0 | r :: _ => r.1 end.

(** The chunk holding [l] with exact cached fields. *)
Definition chunk_of (l : list range) : Chunk :=
  mkChunk l (first_of l) (last_end 0 l) (total l).

Definition chunk_ok (c : Chunk) : Prop :=
  ch_data c <> [] /\ (length (ch_data c) <= max_size)%nat /\ c = chunk_of (ch_data c).

Definition chunks_ok d : Prop := Forall chunk_ok d.

(** ** Positions in the flattened list *)
Definition shape d : list nat := (fun c => length (ch_data c)) <$> d.

Fixpoint locate (sh : list nat) (n : nat) : iterator :=
  match sh with
  | [] => It 0 0
  | k :: sh =>
    if (n <? k)%nat then It 0 n
    else let it := locate sh (n - k) in It (S (it_outer it)) (it_inner it)
  end.

(** [cut d it l1 l2]: [it] points into [d] between the ranges [l1] and [l2]. *)
Definition cut d it (l1 l2 : list range) : Prop :=
  it = locate (shape d) (length l1) /\ ranges d = l1 ++ l2.
End chunked_range_vector.

(** ** Positions *)
Section positions.
Context {CS : ChunkSize}.
Implicit Types (d : crv) (it : iterator).

Lemma ranges_app d1 d2 : ranges (d1 ++ d2) = ranges d1 ++ ranges d2.
Proof. induction d1 as [|c d1 IH]; simpl; [done|]. by rewrite IH, <- app_assoc. Qed.

Lemma shape_app d1 d2 : shape (d1 ++ d2) = shape d1 ++ shape d2.
Proof. apply fmap_app. Qed.

Lemma locate_app pre sh n :
  (length (ranges pre) <= n)%nat ->
  locate (shape pre ++ sh) n =
    let it := locate sh (n - length (ranges pre)) in
    It (length pre + it_outer it) (it_inner it).
Proof.
  revert n. induction pre as [|c pre IH]; intros n Hn; simpl.
  - rewrite Nat.sub_0_r. by destruct (locate sh n).
  - simpl in Hn. rewrite length_app in *.
    destruct (Nat.ltb_spec n (length (ch_data c))); [lia|].
    rewrite IH by lia. simpl.
    by replace (n - length (ch_data c) - length (ranges pre))%nat
      with (n - (length (ch_data c) + length (ranges pre)))%nat by lia.
Qed.

Lemma cut_zip d it pre c post a r b :
  d = pre ++ c :: post -> ch_data c = a ++ r :: b -> it = It (length pre) (length a) ->
  cut d it (ranges pre ++ a) (r :: b ++ ranges post).
Proof.
  intros -> Hc ->. split.
  - rewrite shape_app, length_app, locate_app by lia. simpl.
    rewrite Hc, length_app. simpl.
    destruct (Nat.ltb_spec (length (ranges pre) + length a - length (ranges pre))
      (length a + S (length b))); [|lia]. simpl. f_equal; lia.
  - rewrite ranges_app. simpl. by rewrite Hc, <- !app_assoc.
Qed.

Lemma cut_unzip d it l1 r l2 :
  cut d it l1 (r :: l2) ->
  exists pre c post a b, d = pre ++ c :: post /\ ch_data c = a ++ r :: b /\
    it = It (length pre) (length a) /\ l1 = ranges pre ++ a /\ l2 = b ++ ranges post.
Proof.
  intros [-> Hr]. revert l1 Hr. induction d as [|c d IH]; intros l1 Hr; simpl in *.
  - by destruct l1.
  - destruct (Nat.ltb_spec (length l1) (length (ch_data c))) as [Hlt|Hge].
    + assert (exists b, ch_data c = l1 ++ r :: b /\ l2 = b ++ ranges d) as (b & Hb & Hl).
      { destruct (app_eq_inv _ _ _ _ Hr) as [(k & H1 & H2)|(k & H1 & H2)].
        - destruct k as [|r' k].
          + rewrite app_nil_r in H1. rewrite H1 in Hlt. lia.
          + simplify_eq/=. eauto.
        - rewrite H1, length_app in Hlt. lia. }
      exists [], c, d, l1, b. done.
    + destruct (app_eq_inv _ _ _ _ Hr) as [(k & H1 & H2)|(k & H1 & H2)].
      * rewrite H1, length_app in Hge. destruct k; simpl in *; [|lia].
        rewrite app_nil_r in H1. subst l1.
        destruct (IH [] (eq_sym H2)) as (pre & c' & post & a & b & -> & Hc & Hit & Hl1 & ->).
        exists (c :: pre), c', post, a, b. rewrite Nat.sub_diag.
        simpl in Hit. rewrite Hit. simpl. rewrite <- app_assoc, <- Hl1, app_nil_r. done.
      * subst l1. destruct (IH k H2) as (pre & c' & post & a & b & -> & Hc & Hit & -> & ->).
        exists (c :: pre), c', post, a, b. rewrite length_app.
        replace (length (ch_data c) + length (ranges pre ++ a) - length (ch_data c))%nat
          with (length (ranges pre ++ a)) by lia.
        rewrite Hit. simpl. by rewrite <- app_assoc.
Qed.

Lemma locate_end d : locate (shape d) (length (ranges d)) = It (length d) 0.
Proof.
  induction d as [|c d IH]; simpl; [done|]. rewrite length_app.
  destruct (Nat.ltb_spec (length (ch_data c) + length (ranges d)) (length (ch_data c))); [lia|].
  replace (length (ch_data c) + length (ranges d) - length (ch_data c))%nat
    with (length (ranges d)) by lia. by rewrite IH.
Qed.

Lemma cut_end d : cut d (end_it d) (ranges d) [].
Proof. split; [by rewrite locate_end|by rewrite app_nil_r]. Qed.

Lemma cut_nil_end d it l1 : cut d it l1 [] -> it = end_it d.
Proof. intros [-> H]. rewrite app_nil_r in H. subst. by rewrite locate_end. Qed.

Lemma cut_cons_outer d it l1 r l2 : cut d it l1 (r :: l2) -> (it_outer it < length d)%nat.
Proof.
  intros (pre & c & post & a & b & -> & _ & -> & _)%cut_unzip. rewrite length_app. simpl. lia.
Qed.

Lemma cut_shape d d' it l1 l2 l1' l2' :
  cut d it l1 l2 -> shape d' = shape d -> ranges d' = l1' ++ l2' ->
  length l1' = length l1 -> cut d' it l1' l2'.
Proof. intros [-> _] Hs Hr Hl. split; [by rewrite Hs, Hl|done]. Qed.

Lemma cut_ranges d it l1 l2 : cut d it l1 l2 -> ranges d = l1 ++ l2.
Proof. by intros [_ ?]. Qed.

(** Two iterators at the same place are the same iterator. *)
Lemma cut_fun d it it' l1 l2 l1' l2' :
  cut d it l1 l2 -> cut d it' l1' l2' -> length l1 = length l1' -> it = it'.
Proof. intros [-> _] [-> _] ->. done. Qed.
End positions.

(** ** Iterator operations at a position *)
Section iterators.
Context {CS : ChunkSize}.
Implicit Types (d : crv) (it : iterator).

Lemma chunks_ok_nonempty pre c post : chunks_ok (pre ++ c :: post) -> ch_data c <> [].
Proof. intros [_ H]%Forall_app. by apply Forall_cons in H as [[? _] _]. Qed.

Lemma ranges_nil d : chunks_ok d -> ranges d = [] -> d = [].
Proof.
  destruct d as [|c d]; [done|]. intros H%(chunks_ok_nonempty []) E. simpl in E.
  by apply app_eq_nil in E as [? _].
Qed.

Lemma cut_begin d : chunks_ok d -> cut d (begin_it d) [] (ranges d).
Proof.
  intros Hd. destruct d as [|c d]; [by split|].
  pose proof (chunks_ok_nonempty [] _ _ Hd) as Hc.
  destruct (ch_data c) as [|r b] eqn:E; [done|].
  replace (ranges (c :: d)) with (r :: b ++ ranges d) by (simpl; by rewrite E).
  by apply (cut_zip _ _ [] c d [] r b).
Qed.

Lemma cut_deref d it l1 r l2 : cut d it l1 (r :: l2) -> deref d it = Some r.
Proof.
  intros (pre & c & post & a & b & -> & Hc & -> & _)%cut_unzip. unfold deref. simpl.
  rewrite list_lookup_middle by done. simpl. rewrite Hc. by apply list_lookup_middle.
Qed.

Lemma cut_next d it l1 r l2 :
  chunks_ok d -> cut d it l1 (r :: l2) ->
  exists it', next_it d it = Some it' /\ cut d it' (l1 ++ [r]) l2.
Proof.
  intros Hd (pre & c & post & a & b & -> & Hc & -> & -> & ->)%cut_unzip.
  unfold next_it. cbn [it_outer]. rewrite list_lookup_middle by done. cbn [mbind option_bind].
  eexists. split; [done|]. rewrite Hc, length_app. cbn [length it_inner it_outer].
  destruct (Nat.eqb_spec (S (length a)) (length a + S (length b))) as [E|E];
    (destruct b as [|r' b]; cbn [length] in E; try lia); cbn [app].
  - unfold next_chunk. cbn [it_outer]. destruct post as [|c' post].
    + rewrite <- app_assoc, <- Hc.
      replace (ranges pre ++ ch_data c) with (ranges (pre ++ [c])).
      * replace (It (S (length pre)) 0) with (end_it (pre ++ [c])).
        { apply cut_end. }
        unfold end_it. rewrite length_app. simpl. f_equal. lia.
      * rewrite ranges_app. simpl. by rewrite app_nil_r.
    + replace (pre ++ c :: c' :: post) with ((pre ++ [c]) ++ c' :: post) in *
        by (by rewrite <- app_assoc).
      pose proof (chunks_ok_nonempty _ _ _ Hd) as Hc'.
      destruct (ch_data c') as [|r' b] eqn:E'; [done|]. cbn [ranges]. rewrite E'.
      replace ((ranges pre ++ a) ++ [r]) with (ranges (pre ++ [c]) ++ []).
      * eapply cut_zip; [done|done|]. rewrite length_app. simpl. f_equal. lia.
      * rewrite ranges_app. simpl. by rewrite Hc, !app_nil_r, app_assoc.
  - rewrite <- app_assoc. eapply (cut_zip _ _ pre c post (a ++ [r]) r' b); [done| |].
    + by rewrite Hc, <- app_assoc.
    + rewrite length_app. simpl. f_equal. lia.
Qed.

Lemma next_prev d it it' l1 r l2 :
  chunks_ok d -> cut d it l1 (r :: l2) -> next_it d it = Some it' -> prev_it d it' = Some it.
Proof.
  intros Hd (pre & c & post & a & b & -> & Hc & -> & -> & ->)%cut_unzip.
  unfold next_it. cbn [it_outer]. rewrite list_lookup_middle by done. cbn [mbind option_bind].
  rewrite Hc, length_app. cbn [length it_inner it_outer].
  destruct (Nat.eqb_spec (S (length a)) (length a + S (length b))); intros [= <-]; [|done].
  unfold prev_it, next_chunk. simpl. rewrite list_lookup_middle by done. simpl.
  rewrite Hc, length_app. simpl. do 2 f_equal. lia.
Qed.

Lemma cut_prev d it l1 r l2 :
  chunks_ok d -> cut d it (l1 ++ [r]) l2 ->
  exists it', prev_it d it = Some it' /\ cut d it' l1 (r :: l2).
Proof.
  intros Hd Hcut.
  set (it0 := locate (shape d) (length l1)).
  assert (H0 : cut d it0 l1 (r :: l2)).
  { split; [done|]. by rewrite (cut_ranges _ _ _ _ Hcut), <- app_assoc. }
  destruct (cut_next _ _ _ _ _ Hd H0) as (it1 & Hn & H1).
  assert (it = it1) as -> by (eapply cut_fun; eauto).
  exists it0. split; [|done]. by eapply next_prev.
Qed.

Lemma it_eqb_eq a b : it_eqb a b = true <-> a = b.
Proof.
  destruct a, b. unfold it_eqb. simpl. rewrite andb_true_iff, !Nat.eqb_eq.
  split; [intros [-> ->]|intros [= -> ->]]; done.
Qed.

Lemma cut_is_end d it l1 l2 :
  cut d it l1 l2 -> it_eqb it (end_it d) = match l2 with [] => true | _ => false end.
Proof.
  intros H. destruct l2 as [|r l2].
  - apply cut_nil_end in H as ->. by apply it_eqb_eq.
  - apply cut_cons_outer in H. unfold it_eqb, end_it. simpl.
    by rewrite (proj2 (Nat.eqb_neq _ _)) by lia.
Qed.

Lemma cut_is_begin d it l1 l2 :
  chunks_ok d -> cut d it l1 l2 ->
  it_eqb it (begin_it d) = match l1 with [] => true | _ => false end.
Proof.
  intros Hd H. pose proof (cut_begin d Hd) as Hb.
  destruct l1 as [|r l1].
  - apply it_eqb_eq. by eapply cut_fun.
  - apply not_true_is_false. rewrite it_eqb_eq. intros ->.
    destruct (exists_last (l := r :: l1)) as (l0 & r0 & E); [done|]. rewrite E in H.
    destruct (cut_prev _ _ _ _ _ Hd H) as (it' & Hp & _).
    unfold begin_it, prev_it in Hp. destruct d; simpl in Hp; [done|done].
Qed.
End iterators.

(** ** Mutation at a position *)
Section mutation.
Context {CS : ChunkSize}.
Implicit Types (d : crv) (it : iterator).

Lemma max_size_pos : (0 < max_size)%nat.
Proof. destruct max_size_even as (h & -> & ?). lia. Qed.

Lemma last_end_indep lo lo' l : l <> [] -> last_end lo l = last_end lo' l.
Proof. by destruct l. Qed.

(** Replacing one range of an exact chunk updates the three cached fields. *)
Lemma chunk_replace c a r b x y :
  chunk_ok c -> ch_data c = a ++ r :: b ->
  chunk_ok (chunk_of (a ++ (x, y) :: b)) /\
  mkChunk (a ++ (x, y) :: b)
    (if (length a =? 0)%nat then x else ch_begin c)
    (if (length a =? length (ch_data c) - 1)%nat then y else ch_end c)
    (ch_count c - (r.2 - r.1) + (y - x)) = chunk_of (a ++ (x, y) :: b).
Proof.
  intros (_ & Hmax & Hc) Hd. split.
  - split; [by destruct a|]. split; [|done]. simpl. rewrite Hd, length_app in Hmax.
    by rewrite length_app.
  - rewrite Hc, Hd. unfold chunk_of. cbn [ch_data ch_begin ch_end ch_count]. f_equal.
    + by destruct a.
    + rewrite length_app. cbn [length]. rewrite !last_end_app.
      destruct (Nat.eqb_spec (length a) (length a + S (length b) - 1)) as [E|E];
        (destruct b as [|r' b]; cbn [length] in E; try lia); done.
    + rewrite !total_app. unfold total. simpl. unfold range_len. simpl. lia.
Qed.

Lemma put_chunk pre c c' post :
  chunks_ok (pre ++ c :: post) -> chunk_ok c' -> chunks_ok (pre ++ c' :: post).
Proof.
  unfold chunks_ok. rewrite !Forall_app, !Forall_cons. tauto.
Qed.

Lemma get_chunk pre c post : chunks_ok (pre ++ c :: post) -> chunk_ok c.
Proof. unfold chunks_ok. rewrite Forall_app, Forall_cons. tauto. Qed.

(** The common effect of [set], [adjust] and [shift]. *)
Definition replaces d d' (l1 : list range) (r' : range) (l2 : list range) : Prop :=
  chunks_ok d' /\ shape d' = shape d /\ ranges d' = l1 ++ r' :: l2.

Lemma set_it_spec d it l1 r l2 x y :
  chunks_ok d -> cut d it l1 (r :: l2) ->
  exists d', set_it d it x y = Some d' /\ replaces d d' l1 (x, y) l2.
Proof.
  intros Hd (pre & c & post & a & b & -> & Hc & -> & -> & ->)%cut_unzip.
  destruct (chunk_replace c a r b x y (get_chunk _ _ _ Hd) Hc) as [Hok Heq].
  unfold set_it. cbn [it_outer it_inner offset].
  rewrite list_lookup_middle by done. cbn [mbind option_bind].
  rewrite Hc in *. rewrite list_lookup_middle by done. cbn [mbind option_bind].
  rewrite insert_middle, insert_middle, Heq. eexists. split; [done|]. split; [|split].
  - by eapply put_chunk.
  - rewrite !shape_app. simpl. by rewrite Hc, !length_app.
  - rewrite ranges_app. simpl. by rewrite <- !app_assoc.
Qed.

Lemma adjust_set d it l1 r l2 front back :
  chunks_ok d -> cut d it l1 (r :: l2) ->
  adjust d it front back = set_it d it (r.1 + front) (r.2 + back).
Proof.
  intros Hd (pre & c & post & a & b & -> & Hc & -> & -> & ->)%cut_unzip.
  destruct (get_chunk _ _ _ Hd) as (_ & _ & Hok).
  unfold adjust, set_it. cbn [it_outer it_inner offset].
  rewrite list_lookup_middle by done. cbn [mbind option_bind].
  rewrite Hc, list_lookup_middle by done. cbn [mbind option_bind].
  do 3 f_equal; [| |lia].
  - rewrite Hok, Hc. by destruct a.
  - rewrite length_app. cbn [length]. rewrite Hok, Hc. cbn [chunk_of ch_end].
    destruct (Nat.eqb_spec (length a) (length a + S (length b) - 1)) as [E|E]; [|done].
    destruct b; cbn [length] in E; [|lia]. by rewrite last_end_snoc.
Qed.

Lemma shift_adjust d it l1 r l2 k :
  chunks_ok d -> cut d it l1 (r :: l2) -> shift_it d it k = adjust d it k k.
Proof.
  intros Hd (pre & c & post & a & b & -> & Hc & -> & -> & ->)%cut_unzip.
  unfold adjust, shift_it. cbn [it_outer it_inner offset].
  rewrite list_lookup_middle by done. cbn [mbind option_bind].
  rewrite Hc, list_lookup_middle by done. cbn [mbind option_bind].
  do 3 f_equal. lia.
Qed.

Lemma adjust_spec d it l1 r l2 front back :
  chunks_ok d -> cut d it l1 (r :: l2) ->
  exists d', adjust d it front back = Some d' /\
    replaces d d' l1 (r.1 + front, r.2 + back) l2.
Proof. intros Hd Hc. erewrite adjust_set by done. by eapply set_it_spec. Qed.

Lemma shift_it_spec d it l1 r l2 k :
  chunks_ok d -> cut d it l1 (r :: l2) ->
  exists d', shift_it d it k = Some d' /\ replaces d d' l1 (shift_range k r) l2.
Proof. intros Hd Hc. erewrite shift_adjust by done. by eapply adjust_spec. Qed.

(** A [replaces] keeps every iterator where it was. *)
Lemma replaces_cut d d' it l1 r r' l2 :
  cut d it l1 (r :: l2) -> replaces d d' l1 r' l2 -> cut d' it l1 (r' :: l2).
Proof. intros Hc (_ & Hs & Hr). by eapply cut_shape. Qed.

Lemma replaces_cut_next d d' it l1 r r' l2 :
  cut d it (l1 ++ [r]) l2 -> replaces d d' l1 r' l2 -> cut d' it (l1 ++ [r']) l2.
Proof.
  intros Hc (_ & Hs & Hr). eapply cut_shape; [done|done| |].
  - by rewrite Hr, <- app_assoc.
  - by rewrite !length_app.
Qed.

Lemma single_chunk_ok r : chunk_ok (mkChunk [r] r.1 r.2 (r.2 - r.1)).
Proof.
  split; [done|]. split; [pose proof max_size_pos; simpl; lia|].
  unfold chunk_of. simpl. f_equal. unfold range_len. lia.
Qed.

Lemma push_back_spec d lo r :
  chunks_ok d -> sep lo (ranges d ++ [r]) ->
  exists d', push_back d r = Some d' /\ chunks_ok d' /\ ranges d' = ranges d ++ [r].
Proof.
  intros Hd Hs. unfold push_back.
  destruct (list_snoc_inv d) as [->|(pre & c & ->)].
  { eexists. split; [done|]. split; [|done]. apply Forall_singleton, single_chunk_ok. }
  rewrite last_snoc.
  pose proof (get_chunk _ _ _ Hd) as (Hne & Hmax & Hc).
  destruct (Nat.ltb_spec (length (ch_data c)) max_size).
  - assert (Hle : ch_end c <= r.1).
    { rewrite ranges_app in Hs. simpl in Hs. rewrite app_nil_r in Hs.
      apply sep_app in Hs as [_ Hs]. rewrite last_end_app in Hs. simpl in Hs.
      rewrite Hc. cbn [chunk_of ch_end]. rewrite (last_end_indep 0 (last_end lo (ranges pre))) by done. lia. }
    rewrite (proj2 (Z.leb_le _ _)) by done.
    eexists. split; [done|].
    replace (length (pre ++ [c]) - 1)%nat with (length pre)
      by (rewrite length_app; simpl; lia).
    rewrite insert_middle. split.
    + eapply put_chunk; [done|]. split; [by destruct (ch_data c)|]. split.
      { cbn [ch_data]. rewrite length_app. simpl. lia. }
      rewrite Hc. unfold chunk_of. cbn [ch_data ch_begin ch_end ch_count]. f_equal.
      * by destruct (ch_data c).
      * by rewrite last_end_snoc.
      * rewrite total_app. unfold total. simpl. unfold range_len. lia.
    + rewrite !ranges_app. simpl. by rewrite !app_nil_r, app_assoc.
  - eexists. split; [done|]. split.
    + apply Forall_app. split; [done|]. apply Forall_singleton, single_chunk_ok.
    + rewrite !ranges_app. simpl. done.
Qed.
End mutation.

(** ** Insertion and removal *)
Section insertion.
Context {CS : ChunkSize}.
Implicit Types (d : crv) (it : iterator).

Lemma foldr_total l : foldr (fun r acc => range_len r + acc) 0 l = total l.
Proof. done. Qed.

(** The two halves of a split chunk are exact chunks again. *)
Lemma split_chunk c kept moved pb nf nb :
  chunk_ok c -> ch_data c = kept ++ moved -> (length kept <= max_size)%nat ->
  last kept = Some pb -> head moved = Some nf -> last moved = Some nb ->
  (length moved <= max_size)%nat ->
  chunk_ok (mkChunk kept (ch_begin c) pb.2 (ch_count c - total moved)) /\
  chunk_ok (mkChunk moved nf.1 nb.2 (total moved)).
Proof.
  intros (_ & _ & Hc) Hd Hk Hpb Hnf Hnb Hm.
  apply last_Some in Hpb as (k & ->). apply last_Some in Hnb as (m & ->).
  split; (split; [cbn [ch_data]; apply not_eq_sym, app_cons_not_nil|split; [done|]]);
    unfold chunk_of; cbn [ch_data ch_begin ch_end ch_count]; f_equal.
  - rewrite Hc, Hd. cbn [ch_begin chunk_of]. by destruct k.
  - by rewrite last_end_snoc.
  - rewrite Hc, Hd. cbn [ch_count chunk_of]. rewrite total_app. lia.
  - by destruct m; simplify_eq/=.
  - by rewrite last_end_snoc.
Qed.

Lemma ensure_space_spec d it l1 r l2 :
  chunks_ok d -> cut d it l1 (r :: l2) ->
  exists d' it' c, ensure_space d it = Some (d', it') /\ chunks_ok d' /\
    cut d' it' l1 (r :: l2) /\ d' !! it_outer it' = Some c /\
    (length (ch_data c) < max_size)%nat.
Proof.
  intros Hd Hcut. pose proof Hcut as (pre & c & post & a & b & -> & Hc & -> & -> & ->)%cut_unzip.
  pose proof (get_chunk _ _ _ Hd) as Hok. pose proof Hok as (_ & Hmax & _).
  unfold ensure_space. cbn [it_outer]. rewrite list_lookup_middle by done.
  cbn [mbind option_bind].
  destruct (Nat.leb_spec (length (ch_data c) + 1) max_size) as [Hle|Hle].
  { do 2 eexists. exists c. split; [done|]. split; [done|]. split; [done|].
    split; [by apply list_lookup_middle|lia]. }
  destruct max_size_even as (h & Hh & Hpos).
  replace (Nat.div max_size 2) with h by (rewrite Hh; apply Nat.div_unique with 0%nat; lia).
  assert (Hlen : length (ch_data c) = (h + h)%nat) by lia.
  rewrite Hlen. replace (h + h - h)%nat with h by lia.
  set (kept := take h (ch_data c)). set (moved := drop h (ch_data c)).
  assert (Hkm : ch_data c = kept ++ moved) by (symmetry; apply take_drop).
  assert (Hlk : length kept = h) by (unfold kept; rewrite length_take; lia).
  assert (Hlm : length moved = h) by (unfold moved; rewrite length_drop; lia).
  destruct (last kept) as [pb|] eqn:Epb;
    [|apply last_None in Epb; rewrite Epb in Hlk; simpl in Hlk; lia].
  destruct (head moved) as [nf|] eqn:Enf;
    [|destruct moved; [simpl in Hlm; lia|done]].
  destruct (last moved) as [nb|] eqn:Enb;
    [|apply last_None in Enb; rewrite Enb in Hlm; simpl in Hlm; lia].
  destruct (split_chunk c kept moved pb nf nb) as [Hk Hm]; [done|done|lia|done|done|done|lia|].
  cbn [mbind option_bind]. rewrite take_middle, drop_middle, foldr_total.
  set (ck := mkChunk kept _ _ _) in *. set (cm := mkChunk moved _ _ _) in *.
  assert (Hd' : chunks_ok (pre ++ ck :: cm :: post)).
  { unfold chunks_ok in *. rewrite Forall_app, !Forall_cons in *. tauto. }
  unfold offset. cbn [it_inner].
  destruct (Nat.leb_spec h (length a)) as [Ho|Ho].
  - exists (pre ++ ck :: cm :: post), (It (S (length pre)) (length a - h)), cm.
    split; [done|]. split; [done|]. split.
    + assert (Hmv : moved = drop h a ++ r :: b).
      { unfold moved. rewrite Hc, drop_app_le by lia. done. }
      assert (Hkp : kept = take h a) by (unfold kept; rewrite Hc, take_app_le by lia; done).
      replace (ranges pre ++ a) with (ranges (pre ++ [ck]) ++ drop h a).
      * apply (cut_zip _ _ (pre ++ [ck]) cm post (drop h a) r b); [by rewrite <- app_assoc|done|].
        rewrite length_app, length_drop. simpl. f_equal. lia.
      * rewrite ranges_app. simpl. rewrite app_nil_r, <- app_assoc, Hkp. by rewrite take_drop.
    + split; [|simpl; lia]. cbn [it_outer]. rewrite lookup_app_r by lia.
      replace (S (length pre) - length pre)%nat with 1%nat by lia. done.
  - exists (pre ++ ck :: cm :: post), (It (length pre) (length a)), ck.
    split; [done|]. split; [done|]. split.
    + assert (Hkp : kept = a ++ r :: take (h - S (length a)) b).
      { unfold kept. rewrite Hc, take_app_ge by lia. f_equal.
        replace (h - length a)%nat with (S (h - S (length a))) by lia. done. }
      assert (Hmv : moved = drop (h - S (length a)) b).
      { unfold moved. rewrite Hc, drop_app_ge by lia.
        replace (h - length a)%nat with (S (h - S (length a))) by lia. done. }
      replace (b ++ ranges post) with (take (h - S (length a)) b ++ ranges (cm :: post)).
      * by apply (cut_zip _ _ pre ck (cm :: post)).
      * simpl. rewrite app_assoc, Hmv. by rewrite take_drop.
    + split; [by apply list_lookup_middle|simpl; lia].
Qed.

Lemma insert_spec d it lo l1 l2 v :
  chunks_ok d -> cut d it l1 l2 -> sep lo (l1 ++ v :: l2) ->
  exists d' it', insert d it v = Some (d', it') /\ chunks_ok d' /\ cut d' it' l1 (v :: l2).
Proof.
  intros Hd Hcut Hs. unfold insert. destruct l2 as [|r l2].
  - pose proof (cut_nil_end _ _ _ Hcut) as ->. cbn [end_it it_outer]. rewrite Nat.eqb_refl.
    pose proof (cut_ranges _ _ _ _ Hcut) as Hr. rewrite app_nil_r in Hr. subst l1.
    destruct (push_back_spec d lo v Hd Hs) as (d' & -> & Hd' & Hr').
    cbn [mbind option_bind]. pose proof (cut_end d') as He. rewrite Hr' in He.
    destruct (cut_prev _ _ _ _ _ Hd' He) as (it' & -> & Hc').
    cbn [mbind option_bind]. eauto.
  - pose proof (cut_cons_outer _ _ _ _ _ Hcut) as Hlt.
    rewrite (proj2 (Nat.eqb_neq _ _)) by lia.
    destruct (ensure_space_spec _ _ _ _ _ Hd Hcut) as (d' & it' & c & -> & Hd' & Hc' & Hlk & Hsz).
    cbn [mbind option_bind]. rewrite Hlk. cbn [mbind option_bind].
    clear Hcut Hd Hlt. destruct (cut_unzip _ _ _ _ _ Hc') as
      (pre & c' & post & a & b & -> & Hc & -> & -> & ->). clear Hc'.
    cbn [it_outer] in Hlk. rewrite list_lookup_middle in Hlk by done. injection Hlk as ->.
    do 2 eexists. split; [done|]. unfold offset. cbn [it_outer it_inner].
    rewrite insert_middle. pose proof (get_chunk _ _ _ Hd') as (_ & _ & Hok).
    rewrite Hc, take_middle. rewrite (skipn_app (length a) a), drop_all, Nat.sub_diag.
    split.
    + eapply put_chunk; [done|]. split; [by destruct a|]. split.
      { cbn [ch_data]. rewrite Hc, length_app in Hsz. rewrite length_app. simpl in *. lia. }
      rewrite Hok, Hc. unfold chunk_of. cbn [ch_data ch_begin ch_end ch_count].
      apply sep_app in Hs as [Hs1 (Hs2 & Hs3 & Hs4 & Hs5 & Hs6)].
      apply sep_app in Hs1 as [_ Hs1]. f_equal.
      * destruct a as [|ra a]; simpl in *; [lia|].
        assert (ra.1 < v.1); [|lia]. destruct Hs1 as (? & ? & Ha).
        pose proof (last_end_ge _ _ Ha). rewrite last_end_app in Hs2.
        unfold last_end in *. simpl in *. lia.
      * rewrite !last_end_app. unfold last_end at 1 3. simpl.
        apply sep_app in Hs6 as [Hb _]. pose proof (last_end_ge _ _ Hb) as Hge.
        unfold last_end in *. lia.
      * rewrite !total_app. unfold total. simpl. unfold range_len. lia.
    + eapply (cut_zip _ _ pre _ post a v (r :: b)); [done|done|done].
Qed.

Lemma erase_spec d it l1 r l2 :
  chunks_ok d -> cut d it l1 (r :: l2) ->
  exists d' it', erase d it = Some (d', it') /\ chunks_ok d' /\ cut d' it' l1 l2.
Proof.
  intros Hd Hcut. destruct (cut_next _ _ _ _ _ Hd Hcut) as (itn & _ & Hn).
  destruct (cut_unzip _ _ _ _ _ Hcut) as (pre & c & post & a & b & -> & Hc & -> & -> & ->).
  unfold erase, offset. cbn [it_outer it_inner]. rewrite list_lookup_middle by done.
  cbn [mbind option_bind]. pose proof (get_chunk _ _ _ Hd) as (_ & Hmax & Hok).
  rewrite Hc, list_lookup_middle by done. cbn [mbind option_bind].
  rewrite delete_at_middle, length_app.
  destruct (Nat.eqb_spec (length a + length b) 0) as [E|E].
  - destruct a, b; simpl in E; [|lia..]. rewrite delete_at_middle. simpl.
    do 2 eexists. split; [done|]. split.
    { unfold chunks_ok in *. rewrite Forall_app, Forall_cons in *. tauto. }
    rewrite app_nil_r. split; [|apply ranges_app].
    rewrite shape_app, locate_app by lia. rewrite Nat.sub_diag.
    unfold chunks_ok in Hd. rewrite Forall_app, Forall_cons in Hd. destruct Hd as (_ & _ & Hp).
    destruct post as [|c' post]; simpl; [f_equal; lia|].
    apply Forall_cons in Hp as [(Hne & _) _].
    destruct (ch_data c') eqn:E'; [done|]. simpl. f_equal. lia.
  - destruct (head (a ++ b)) as [f|] eqn:Ef; [|by destruct a, b].
    destruct (last (a ++ b)) as [k|] eqn:Ek;
      [|apply last_None in Ek; destruct a, b; done].
    cbn [mbind option_bind]. rewrite insert_middle.
    do 2 eexists. split; [done|].
    assert (Hok' : chunk_ok (mkChunk (a ++ b) f.1 k.2 (ch_count c - (r.2 - r.1)))).
    { split; [by destruct a, b|]. rewrite Hc, !length_app in Hmax. simpl in Hmax. split.
      { simpl. rewrite length_app. lia. }
      rewrite Hok, Hc. unfold chunk_of. cbn [ch_data ch_begin ch_end ch_count]. f_equal.
      - destruct a, b; simplify_eq/=; done.
      - apply last_Some in Ek as (m & ->). by rewrite last_end_snoc.
      - rewrite !total_app. unfold total. simpl. unfold range_len. lia. }
    split; [by eapply put_chunk|].
    destruct (Nat.ltb_spec (length a) (length a + length b)).
    + destruct b as [|r' b]; [simpl in *; lia|]. by eapply (cut_zip _ _ pre _ post a r' b).
    + destruct b; [|simpl in *; lia]. rewrite app_nil_r in *. simpl.
      assert (Hne' : a <> []) by (by destruct a).
      replace (ranges pre ++ a) with (ranges (pre ++ [mkChunk a f.1 k.2 (ch_count c - (r.2 - r.1))]))
        by (rewrite ranges_app; simpl; by rewrite app_nil_r).
      split.
      * unfold next_chunk. cbn [it_outer].
        set (c2 := mkChunk a _ _ _) in *.
        replace (pre ++ c2 :: post) with ((pre ++ [c2]) ++ post) by (by rewrite <- app_assoc).
        rewrite shape_app, locate_app by lia. rewrite Nat.sub_diag, length_app.
        unfold chunks_ok in Hd. rewrite Forall_app, Forall_cons in Hd.
        destruct Hd as (_ & _ & Hp). destruct post as [|c' post]; simpl; [f_equal; lia|].
        apply Forall_cons in Hp as [(Hne & _) _].
        destruct (ch_data c') eqn:E'; [done|]. simpl. f_equal. lia.
      * rewrite !ranges_app. simpl. by rewrite app_nil_r, <- app_assoc.
Qed.
End insertion.
