(* ===== verification/IndexSets.v ===== *)
(** * [realm::IndexSet]

    The operations of [index_set.cpp] on a chunked range vector.  Every
    operation returns [None] when a [REALM_ASSERT] of the code would fire or an
    iterator would be dereferenced out of range, so a theorem of the form
    "the result is [Some ...]" also says that the code is memory safe and that
    its assertions hold. *)
From S2P Require Import Prelude.
From S2P Require Import RangeList.
From S2P Require Import ChunkedVector.

(** [IndexSet::npos] (a 64-bit [size_t]) *)
Definition npos : Z := 2 ^ 64 - 1.

Module IndexSet.
Section index_set.
Context {CS : ChunkSize}.
Implicit Types (d : crv) (it : iterator).

(** [it != end && p( *it)] *)
Definition test d it (p : range -> bool) : option bool :=
  if it_eqb it (end_it d) then Some false
  else r ← deref d it; Some (p r).

(** [it != begin && p( *std::prev(it))] *)
Definition test_before d it (p : range -> bool) : option bool :=
  if it_eqb it (begin_it d) then Some false
  else prev ← prev_it d it; r ← deref d prev; Some (p r).

(** Enough turns for any loop over the ranges of [d]. *)
Definition turns d : nat := S (S (length (ranges d))).

(** [for (; it != end && p(it.outer(), acc); it.next_chunk()) acc = f(it.outer(), acc)],
    whose body asserts [chk] *)
Definition for_chunks {A} d (chk : iterator -> bool) (p : Chunk -> A -> bool) (f : Chunk -> A -> A)
    it (acc : A) : option (iterator * A) :=
  loop (fun '(it, acc) =>
    if it_eqb it (end_it d) then Some (inr (it, acc))
    else
      c ← outer d it;
      if p c acc then if chk it then Some (inl (next_chunk it, f c acc)) else None
      else Some (inr (it, acc))) (turns d) (it, acc).

(** [for (; it != end && p(it, *it, acc); ++it) acc = f( *it, acc)] *)
Definition for_ranges {A} d (p : iterator -> range -> A -> bool) (f : range -> A -> A)
    it (acc : A) : option (iterator * A) :=
  loop (fun '(it, acc) =>
    more ← test d it (fun r => p it r acc);
    if more : bool then
      r ← deref d it;
      it' ← next_it d it;
      Some (inl (it', f r acc))
    else Some (inr (it, acc))) (turns d) (it, acc).

(** [IndexSet::find(index, begin)] *)
Definition find d (index : Z) (from : iterator) : option iterator :=
  let o := (it_outer from
    + find_if (fun c => index <? ch_end c)%Z (drop (it_outer from) d))%nat in
  match d !! o with
  | None => Some (end_it d)
  | Some c =>
    if index <? ch_begin c then Some (It o 0)
    else
      let inner_begin := if (o =? it_outer from)%nat then offset from else O in
      let inner := lower_bound (fun lft => lft.2 <=? index) inner_begin (ch_data c) in
      if (inner <? length (ch_data c))%nat then Some (It o inner) else None
  end.

(** [IndexSet::contains] *)
Definition contains d (index : Z) : option bool :=
  it ← find d index (begin_it d);
  test d it (fun r => r.1 <=? index).

(** [IndexSet::count]: the rest of the first, partially covered chunk *)
Definition count_first_chunk d it (ret end_index : Z) : option (iterator * Z) :=
  for_ranges d (fun it r _ => (r.2 <? end_index) && negb (offset it =? 0)%nat)
    (fun r ret => ret + (r.2 - r.1)) it ret.

(** [IndexSet::count]: complete chunks; the loop asserts that it is at the
    start of a chunk *)
Definition count_chunks d it (ret end_index : Z) : option (iterator * Z) :=
  for_chunks d (fun it => offset it =? 0)%nat (fun c _ => ch_end c <=? end_index) (fun c ret => ret + ch_count c) it ret.

(** [IndexSet::count]: complete ranges of the last chunk *)
Definition count_ranges d it (ret end_index : Z) : option (iterator * Z) :=
  for_ranges d (fun _ r _ => r.2 <=? end_index) (fun r ret => ret + (r.2 - r.1)) it ret.

(** [IndexSet::count]: from the first chunk boundary on *)
Definition count_tail d it (ret end_index : Z) : option Z :=
  '(it, ret) ← count_chunks d it ret end_index;
  '(it, ret) ← count_ranges d it ret end_index;
  partial ← test d it (fun r => r.1 <? end_index);
  if partial : bool then r ← deref d it; Some (ret + (end_index - r.1))
  else Some ret.

Definition count d (start_index end_index : Z) : option Z :=
  it ← find d start_index (begin_it d);
  none ← test d it (fun r => end_index <=? r.1);
  if it_eqb it (end_it d) || none then Some 0
  else
    r ← deref d it;
    if end_index <=? r.2 then Some (Z.min r.2 end_index - Z.max r.1 start_index)
    else if (r.1 <? start_index) || negb (offset it =? 0)%nat then
      it ← next_it d it;
      '(it, ret) ← count_first_chunk d it (r.2 - Z.max r.1 start_index) end_index;
      partial ← test d it (fun r => r.1 <? end_index);
      r' ← (if partial && negb (offset it =? 0)%nat
            then r ← deref d it; Some (ret + (end_index - r.1)) else Some ret);
      stop ← test d it (fun r => end_index <=? r.2);
      if it_eqb it (end_it d) || stop then Some r'
      else count_tail d it r' end_index
    else count_tail d it 0 end_index.

(** [IndexSet::do_add] *)
Definition do_add d it (index : Z) : option (crv * iterator) :=
  bad ← test_before d it (fun r => index <? r.2);
  if bad : bool then None
  else
    present ← test d it (fun r => (r.1 <=? index) && (index <? r.2));
    if present : bool then Some (d, it)
    else
      adjacent ← test_before d it (fun r => r.2 =? index);
      if adjacent : bool then
        prev ← prev_it d it;
        d ← adjust d prev 0 1;
        p ← deref d prev;
        joins ← test d it (fun r => p.2 =? r.1);
        if joins : bool then
          r ← deref d it;
          d ← adjust d prev 0 (r.2 - r.1);
          '(d, it) ← erase d it;
          it ← prev_it d it;
          Some (d, it)
        else Some (d, prev)
      else
        precedes ← test d it (fun r => r.1 =? index + 1);
        if precedes : bool then d ← adjust d it (-1) 0; Some (d, it)
        else insert d it (index, index + 1).

(** [IndexSet::add(size_t)] *)
Definition add d (index : Z) : option crv :=
  it ← find d index (begin_it d);
  '(d, _) ← do_add d it index;
  Some d.

(** [IndexSet::add(IndexSet const&)]: the loop over [other.as_indexes()] *)
Fixpoint add_indexes d it (es : list Z) : option crv :=
  match es with
  | [] => Some d
  | index :: es =>
    it ← find d index it;
    '(d, it) ← do_add d it index;
    add_indexes d it es
  end.

Definition add_set d (other : crv) : option crv :=
  add_indexes d (begin_it d) (elems (ranges other)).

(** [IndexSet::IndexSet(std::initializer_list<size_t>)] *)
Fixpoint add_values d (values : list Z) : option crv :=
  match values with
  | [] => Some d
  | v :: values => d ← add d v; add_values d values
  end.
Definition of_list (values : list Z) : option crv := add_values [] values.

(** [IndexSet::add_shifted]: complete chunks before the target, then ranges
    of the last partial chunk *)
Definition add_shifted_chunks d it (index : Z) : option (iterator * Z) :=
  for_chunks d (fun _ => true) (fun c index => ch_end c <=? index) (fun c index => index + ch_count c) it index.

Definition add_shifted_ranges d it (index : Z) : option (iterator * Z) :=
  for_ranges d (fun _ r index => r.1 <=? index) (fun r index => index + (r.2 - r.1)) it index.

Definition add_shifted d (index : Z) : option (crv * Z) :=
  '(it, index) ← add_shifted_chunks d (begin_it d) index;
  '(it, index) ← add_shifted_ranges d it index;
  '(d, _) ← do_add d it index;
  Some (d, index).

(** [IndexSet::clear], [IndexSet::set] *)
Definition clear d : crv := [].
Definition set d (len : Z) : option crv :=
  if len =? 0 then Some (clear d) else push_back (clear d) (0, len).

(** [for (; pos != end; ++pos) pos.shift(distance)] *)
Definition shift_from d pos (distance : Z) : option crv :=
  loop (fun '(d, pos) =>
    if it_eqb pos (end_it d) then Some (inr d)
    else
      d ← shift_it d pos distance;
      pos ← next_it d pos;
      Some (inl (d, pos))) (turns d) (d, pos).

(** [IndexSet::insert_at(size_t, size_t)]: the loop adding the new indices *)
Fixpoint add_run d pos (index : Z) (n : nat) : option crv :=
  match n with
  | O => Some d
  | S n =>
    '(d, it) ← do_add d pos index;
    pos ← next_it d it;
    add_run d pos (index + 1) n
  end.

Definition insert_at d (index count : Z) : option crv :=
  if negb (0 <? count) then None
  else
    pos ← find d index (begin_it d);
    if it_eqb pos (end_it d) then add_run d pos index (Z.to_nat count)
    else
      r ← deref d pos;
      let in_existing := r.1 <=? index in
      d ← (if in_existing then adjust d pos 0 count else shift_it d pos count);
      next ← next_it d pos;
      d ← shift_from d next count;
      if in_existing then Some d else add_run d pos index (Z.to_nat count).

(** [IndexSet::shift_for_insert_at(size_t, size_t)] *)
Definition shift_for_insert_at d (index count : Z) : option crv :=
  if negb (0 <? count) then None
  else
    it ← find d index (begin_it d);
    if it_eqb it (end_it d) then Some d
    else
      d ← shift_from d it count;
      r ← deref d it;
      if r.1 <? index + count then
        d ← set_it d it (r.1 - count) index;
        next ← next_it d it;
        '(d, _) ← insert d next (index + count, r.2);
        Some d
      else Some d.

(** [IndexSet::do_erase] *)
Definition do_erase d it (index : Z) : option crv :=
  r ← deref d it;
  '(d, it) ←
    (if r.1 <=? index then
      if r.1 + 1 =? r.2 then erase d it
      else d ← adjust d it 0 (-1); it ← next_it d it; Some (d, it)
    else
      joins ← test_before d it (fun p => p.2 + 1 =? r.1);
      if joins : bool then
        prev ← prev_it d it;
        d ← adjust d prev 0 (r.2 - r.1);
        erase d it
      else Some (d, it));
  shift_from d it (-1).

(** [IndexSet::erase_at(size_t)] *)
Definition erase_at d (index : Z) : option crv :=
  it ← find d index (begin_it d);
  if it_eqb it (end_it d) then Some d else do_erase d it index.

(** [IndexSet::erase_or_unshift]: the two unshifting loops *)
Definition unshift_chunks d it (index shifted : Z) : option (iterator * Z) :=
  for_chunks d (fun _ => true) (fun c _ => ch_end c <=? index) (fun c shifted => shifted - ch_count c) it shifted.

Definition unshift_ranges d it (index shifted : Z) : option (iterator * Z) :=
  for_ranges d (fun _ r _ => r.2 <=? index) (fun r shifted => shifted - (r.2 - r.1)) it shifted.

Definition erase_or_unshift d (index : Z) : option (crv * Z) :=
  '(it, shifted) ← unshift_chunks d (begin_it d) index index;
  '(it, shifted) ← unshift_ranges d it index shifted;
  if it_eqb it (end_it d) then Some (d, shifted)
  else
    r ← deref d it;
    let shifted := if r.1 <=? index then npos else shifted in
    d ← do_erase d it index;
    Some (d, shifted).

(** [IndexSet::do_remove]: what is removed from the range at the position *)
Definition trim_range d it (r : range) (begin end_ : Z) : option (crv * iterator) :=
  if (r.1 <? begin) && (end_ <? r.2) then
    d ← set_it d it r.1 begin;
    next ← next_it d it;
    '(d, it) ← insert d next (end_, r.2);
    it ← prev_it d it;
    Some (d, it)
  else if (begin =? r.1) && (r.2 <=? end_) then erase d it
  else if begin =? r.1 then d ← set_it d it end_ r.2; Some (d, it)
  else d ← set_it d it r.1 begin; Some (d, it).

Definition do_remove_step (end_ : Z) (s : crv * iterator * Z)
    : option (crv * iterator * Z + crv * iterator) :=
  let '(d, it, begin) := s in
  more ← test d it (fun r => r.1 <? end_);
  if negb more then Some (inr (d, it))
  else
    r ← deref d it;
    '(d, it) ← trim_range d it r (Z.max r.1 begin) end_;
    it ← find d (Z.max r.1 begin) it;
    Some (inl (d, it, Z.max r.1 begin)).

(** [IndexSet::do_remove] *)
Definition do_remove d it (begin end_ : Z) : option (crv * iterator) :=
  it ← find d begin it;
  loop (do_remove_step end_) (turns d) (d, it, begin).

(** [IndexSet::remove(size_t, size_t)] *)
Definition remove d (index count : Z) : option crv :=
  it ← find d index (begin_it d);
  '(d, _) ← do_remove d it index (index + count);
  Some d.

(** [IndexSet::remove(IndexSet const&)] *)
Fixpoint remove_ranges d it (values : list range) : option crv :=
  match values with
  | [] => Some d
  | r :: values =>
    '(d, it) ← do_remove d it r.1 r.2;
    if it_eqb it (end_it d) then Some d else remove_ranges d it values
  end.
Definition remove_set d (values : crv) : option crv :=
  remove_ranges d (begin_it d) (ranges values).

(** [IndexSet::shift] *)
Fixpoint shift_loop (l : list range) (index : Z) : Z :=
  match l with
  | [] => index
  | r :: l => if index <? r.1 then index else shift_loop l (index + (r.2 - r.1))
  end.
Definition shift d (index : Z) : Z := shift_loop (ranges d) index.

(** [IndexSet::unshift] *)
Definition unshift d (index : Z) : option Z := c ← count d 0 index; Some (index - c).
End index_set.
End IndexSet.
