(* ===== verification/IndexSetFacts.v ===== *)
(** * Correctness of [realm::IndexSet]

    Each operation of [IndexSets] computes the set operation its comment in
    [index_set.hpp] promises, never fails, and keeps the representation
    invariant: exact chunk caches and sorted, separated ranges. *)
From S2P Require Import Prelude.
From S2P Require Import RangeList.
From S2P Require Import ChunkedVector.
From S2P Require Import IndexSets.
Import IndexSet.

(** The representation invariant. *)
Definition inv {CS : ChunkSize} (d : crv) : Prop := chunks_ok d /\ ranges_ok (ranges d).

(** The indices an index set stands for. *)
Definition has (d : crv) (i : Z) : Prop := mem (ranges d) i.
#[global] Instance has_dec d i : Decision (has d i).
Proof. unfold has. apply _. Defined.

Section find.
Context {CS : ChunkSize}.
Implicit Types (d : crv) (it : iterator).

Lemma test_spec d it l1 l2 p :
  cut d it l1 l2 ->
  test d it p = Some (match l2 with [] => false | r :: _ => p r end).
Proof.
  intros H. unfold test. rewrite (cut_is_end _ _ _ _ H).
  destruct l2 as [|r l2]; [done|]. by rewrite (cut_deref _ _ _ _ _ H).
Qed.

(** A chunk whose cached end is past [index] has a range ending past it, and
    the other way round. *)
Lemma chunk_end_le lo c index :
  chunk_ok c -> sep lo (ch_data c) ->
  (ch_end c <= index <-> ends_by index (ch_data c)).
Proof.
  intros (Hne & _ & Hc) Hs. rewrite Hc. cbn [ch_end chunk_of ch_data].
  rewrite (last_end_indep 0 lo) by done. split.
  - intros Hle. eapply Forall_impl; [by eapply last_end_ends|]. simpl. intros; lia.
  - destruct (list_snoc_inv (ch_data c)) as [?|(l & r & ->)]; [done|].
    rewrite last_end_snoc. intros [_ [? _]%Forall_cons]%Forall_app. done.
Qed.

Lemma ranges_ends_by lo d index :
  chunks_ok d -> sep lo (ranges d) -> Forall (fun c => ch_end c <= index) d ->
  ends_by index (ranges d).
Proof.
  revert lo. induction d as [|c d IH]; intros lo Hd Hs H; [constructor|].
  apply Forall_cons in Hd as [Hc Hd]. apply Forall_cons in H as [He H].
  simpl in *. apply sep_app in Hs as [Hs1 Hs2]. apply ends_by_app. split.
  - by eapply chunk_end_le.
  - by eapply IH.
Qed.

Lemma lower_bound_split index from a x y :
  splits_at index x y -> (from <= length x)%nat -> a = x ++ y ->
  lower_bound (fun lft => lft.2 <=? index) from a = length x.
Proof.
  intros [Hx Hy] Hf ->. apply lower_bound_app; [done| |].
  - eapply Forall_impl; [done|]. simpl. intros; lia.
  - eapply Forall_impl; [done|]. simpl. intros; lia.
Qed.

(** The chunk the search stops at, and its split at [index]. *)
Lemma find_in_chunk pre c post index from x y :
  chunks_ok (pre ++ c :: post) -> ranges_ok (ranges (pre ++ c :: post)) ->
  ch_data c = x ++ y -> splits_at index x y -> index < ch_end c ->
  ((length pre =? it_outer from)%nat = true -> (it_inner from <= length x)%nat) ->
  (if index <? ch_begin c then Some (It (length pre) 0)
   else
     let inner_begin := if (length pre =? it_outer from)%nat then offset from else O in
     let inner := lower_bound (fun lft => lft.2 <=? index) inner_begin (ch_data c) in
     if (inner <? length (ch_data c))%nat then Some (It (length pre) inner) else None)
  = Some (It (length pre) (length x)).
Proof.
  intros Hd Hs Hc Hxy Hend Hfrom.
  pose proof (get_chunk _ _ _ Hd) as (Hne & _ & Hok).
  rewrite ranges_app in Hs. apply sep_app in Hs as [_ Hs]. simpl in Hs.
  apply sep_app in Hs as [Hs _]. rewrite Hc in Hs.
  destruct (Z.ltb_spec index (ch_begin c)) as [Hlt|Hge].
  - destruct x as [|r x]; [done|]. exfalso.
    rewrite Hok, Hc in Hlt. simpl in *. destruct Hxy as [[? _]%Forall_cons _]. lia.
  - cbv zeta. rewrite (lower_bound_split index _ _ x y Hxy); [|clear -Hfrom|done].
    + assert (y <> []) as Hy.
      { intros ->. rewrite app_nil_r in *. rewrite Hok, Hc in Hend. simpl in Hend.
        destruct Hxy as [Hx _].
        destruct (list_snoc_inv x) as [->|(x' & r & ->)]; [by rewrite Hc in Hne|].
        rewrite last_end_snoc in Hend. apply Forall_app in Hx as [_ [? _]%Forall_cons]. lia. }
      rewrite (proj2 (Nat.ltb_lt _ _)); [done|].
      rewrite Hc, length_app. destruct y; [done|]. simpl. lia.
    + destruct (length pre =? it_outer from)%nat; [by apply Hfrom|lia].
Qed.

(** [find] returns the first range that ends after [index]; the hint may be
    any iterator that has only ranges ending by [index] before it. *)
Lemma find_spec d it index l1 l2 :
  inv d -> cut d it l1 l2 -> ends_by index l1 ->
  exists it' m1 m2, find d index it = Some it' /\ cut d it' (l1 ++ m1) m2 /\
    l2 = m1 ++ m2 /\ splits_at index (l1 ++ m1) m2.
Proof.
  intros [Hd Hs] Hcut Hl1. unfold find.
  (* the unique split of all the ranges *)
  rewrite (cut_ranges _ _ _ _ Hcut) in Hs.
  pose proof Hs as [_ Hs2]%sep_app.
  destruct (sep_split _ _ index Hs2) as (m1 & m2 & -> & Hm1 & Hm2).
  exists (locate (shape d) (length (l1 ++ m1))), m1, m2.
  assert (Hsp : splits_at index (l1 ++ m1) m2) by (split; [by apply ends_by_app|done]).
  assert (Hcut' : cut d (locate (shape d) (length (l1 ++ m1))) (l1 ++ m1) m2).
  { split; [done|]. rewrite (cut_ranges _ _ _ _ Hcut). by rewrite app_assoc. }
  split; [|done].
  (* the chunks that are searched *)
  assert (Hstart : exists pre post, d = pre ++ post /\ it_outer it = length pre /\
    exists a, l1 = ranges pre ++ a /\ it_inner it = length a /\
      exists b, ranges post = a ++ b).
  { destruct (m1 ++ m2) as [|r l2] eqn:E.
    - pose proof (cut_nil_end _ _ _ Hcut) as ->. exists d, []. rewrite app_nil_r.
      split; [done|]. split; [done|]. exists []. rewrite app_nil_r.
      split; [|by split; [|exists []]].
      pose proof (cut_ranges _ _ _ _ Hcut) as Hr. by rewrite app_nil_r in Hr.
    - apply cut_unzip in Hcut as (pre & c & post & a & b & -> & Hc & -> & -> & _).
      exists pre, (c :: post). split; [done|]. split; [done|]. exists a.
      split; [done|]. split; [done|]. exists (r :: b ++ ranges post). simpl.
      by rewrite Hc, <- app_assoc. }
  destruct Hstart as (pre & post & -> & Ho & a & -> & Hi & b & Hpost).
  rewrite Ho, drop_app_length.
  destruct (find_if_split (fun c => index <? ch_end c) post)
    as (skip & rest & -> & Hfi & Hskip & Hrest).
  rewrite Hfi. rewrite app_assoc in *.
  rewrite <- (cut_ranges _ _ _ _ Hcut') in *.
  replace (length pre + length skip)%nat with (length (pre ++ skip)) by apply length_app.
  assert (Hends : ends_by index (ranges (pre ++ skip))).
  { rewrite ranges_app. apply ends_by_app. split; [by apply ends_by_app in Hl1 as [? _]|].
    rewrite !ranges_app in Hs. apply sep_app in Hs as [Hs _]. apply sep_app in Hs as [_ Hs].
    eapply ranges_ends_by; [|done|].
    - unfold chunks_ok in *. rewrite !Forall_app in Hd. tauto.
    - eapply Forall_impl; [done|]. simpl. intros; lia. }
  destruct rest as [|c rest].
  - rewrite app_nil_r in *. rewrite lookup_ge_None_2 by lia.
    pose proof (cut_ranges _ _ _ _ Hcut') as Hr.
    destruct (splits_unique index (ranges (pre ++ skip)) [] _ _
      ltac:(rewrite app_nil_r; exact Hr) (conj Hends (Forall_nil_2 _)) Hsp) as [Hx Hy].
    rewrite <- Hx. by rewrite locate_end.
  - rewrite list_lookup_middle by done.
    assert (Hsc := Hs). rewrite ranges_app in Hsc. apply sep_app in Hsc as [_ Hsc].
    simpl in Hsc. apply sep_app in Hsc as [Hsc Hsr].
    destruct (sep_split _ _ index Hsc) as (x & y & Hxy & Hsxy).
    assert (Hy : exists r y', y = r :: y').
    { destruct y as [|r y']; [|eauto]. rewrite app_nil_r in Hxy. subst x.
      destruct Hsxy as [Hx _]. pose proof (get_chunk _ _ _ Hd) as Hok.
      eapply chunk_end_le in Hx; [lia|done|done]. }
    transitivity (Some (It (length (pre ++ skip)) (length x)));
      [rewrite <- Ho; apply (find_in_chunk (pre ++ skip) c rest index it x y); [done|done|done|done|lia|]|].
    2: { f_equal. pose proof (cut_ranges _ _ _ _ Hcut') as Hr.
      destruct (splits_unique index (ranges (pre ++ skip) ++ x) (y ++ ranges rest) _ _
        ltac:(rewrite <- Hr, (ranges_app _ (c :: rest)); simpl; by rewrite Hxy, <- !app_assoc))
        with (2 := Hsp) as [Hx _].
      { destruct Hsxy as [Hx1 Hy1]. split; [by apply ends_by_app|]. apply Forall_app.
        split; [done|]. destruct Hy as (r & y' & ->). apply Forall_cons in Hy1 as [? _].
        rewrite Hxy, last_end_app in Hsr.
        eapply Forall_impl; [by eapply sep_all_after|]. simpl. intros r' [_ ?].
        rewrite Hxy in Hsc. apply sep_app in Hsc as [_ (_ & _ & Hsy)].
        pose proof (last_end_ge _ _ Hsy). unfold last_end in *. simpl in *. lia. }
      rewrite <- Hx in *. destruct Hy as (r & y' & ->).
      symmetry. eapply cut_fun; [apply Hcut'| |done].
      by eapply (cut_zip _ _ (pre ++ skip) c rest x r y'). }
    intros He%Nat.eqb_eq. rewrite Ho, length_app in He.
      destruct skip as [|? ?]; [|simpl in He; lia]. rewrite Hi. simpl in Hpost.
      rewrite Hxy, <- app_assoc in Hpost.
      destruct (app_eq_inv _ _ _ _ Hpost) as [(k & -> & Hk)|(k & -> & _)];
        [rewrite length_app; lia|]. destruct k as [|r k]; [by rewrite app_nil_r|exfalso].
      destruct Hy as (r' & y' & ->).
      rewrite <- (app_assoc x) in Hpost. apply app_inv_head in Hpost. simplify_eq/=.
      destruct Hsxy as [_ [Hr _]%Forall_cons].
      apply ends_by_app in Hl1 as [_ [_ [? _]%ends_by_cons]%ends_by_app]. simpl in *. lia.
Qed.
End find.

(** Rewrites the head of a monadic sequence with an equation [H : e = Some v]. *)
Ltac step_some H := rewrite H; cbn [mbind option_bind].

Section add.
Context {CS : ChunkSize}.
Implicit Types (d : crv) (it : iterator).

Lemma test_before_spec d it l1 l2 p :
  chunks_ok d -> cut d it l1 l2 ->
  test_before d it p = Some (match last l1 with None => false | Some r => p r end).
Proof.
  intros Hd H. unfold test_before. rewrite (cut_is_begin _ _ _ _ Hd H).
  destruct (list_snoc_inv l1) as [->|(l & r & ->)]; [done|].
  replace (match l ++ [r] with [] => true | _ :: _ => false end) with false by by destruct l.
  rewrite last_snoc. destruct (cut_prev _ _ _ _ _ Hd H) as (it' & -> & H').
  cbn [mbind option_bind]. by rewrite (cut_deref _ _ _ _ _ H').
Qed.

(** What a position looks like around an index that is not yet there. *)
Definition added (index : Z) (l : list range) d' it' : Prop :=
  exists m1 r m2, chunks_ok d' /\ cut d' it' m1 (r :: m2) /\ ranges_ok (m1 ++ r :: m2) /\
    r.1 <= index < r.2 /\ forall j, mem (m1 ++ r :: m2) j <-> j = index \/ mem l j.

Lemma do_add_present d it index l1 r l2 :
  inv d -> cut d it l1 (r :: l2) -> r.1 <= index < r.2 -> added index (l1 ++ r :: l2) d it.
Proof.
  intros [Hd Hs] Hc Hr. exists l1, r, l2.
  rewrite (cut_ranges _ _ _ _ Hc) in Hs. do 4 (split; [done|]).
  intros j. rewrite mem_app. simpl. split; [tauto|]. intros [->|?]; tauto.
Qed.

(** [index] is right after the range before the position. *)
Lemma do_add_extend d prev it index l p l2 :
  inv d -> cut d prev l (p :: l2) -> cut d it (l ++ [p]) l2 -> p.2 = index ->
  match l2 with [] => True | r :: _ => index < r.1 end ->
  exists d' it',
    (d ← adjust d prev 0 1;
     p ← deref d prev;
     joins ← test d it (fun r => p.2 =? r.1);
     if joins : bool then
       r ← deref d it;
       d ← adjust d prev 0 (r.2 - r.1);
       '(d, it) ← erase d it;
       it ← prev_it d it;
       Some (d, it)
     else Some (d, prev)) = Some (d', it') /\ added index (l ++ p :: l2) d' it'.
Proof.
  intros [Hd Hs] Hp Hi <- Hl2. rewrite (cut_ranges _ _ _ _ Hp) in Hs.
  destruct (adjust_spec _ _ _ _ _ 0 1 Hd Hp) as (d1 & Ha & Hr1). step_some Ha.
  pose proof (replaces_cut _ _ _ _ _ _ _ Hp Hr1) as Hp1.
  pose proof (replaces_cut_next _ _ _ _ _ _ _ Hi Hr1) as Hi1. destruct Hr1 as (Hd1 & _ & _).
  step_some (cut_deref _ _ _ _ _ Hp1). step_some (test_spec _ _ _ _ (fun r => (p.1 + 0, p.2 + 1).2 =? r.1) Hi1). cbn [fst snd].
  apply sep_app in Hs as (Hs1 & Hs2 & Hs3 & Hs4). replace (p.1 + 0) with p.1 in * by lia.
  destruct l2 as [|r l2]; [|destruct (Z.eqb_spec (p.2 + 1) r.1) as [E|E]].
  - do 2 eexists. split; [done|]. exists l, (p.1, p.2 + 1), [].
    do 2 (split; [done|]). split; [apply sep_app; simpl; split; [done|lia]|].
    split; [simpl; lia|]. intros j. rewrite !mem_app. simpl. intuition lia.
  - step_some (cut_deref _ _ _ _ _ Hi1).
    destruct (adjust_spec _ _ _ _ _ 0 (r.2 - r.1) Hd1 Hp1) as (d2 & Ha2 & Hr2). step_some Ha2.
    pose proof (replaces_cut_next _ _ _ _ _ _ _ Hi1 Hr2) as Hi2.
    destruct Hr2 as (Hd2 & _ & _). simpl in Hi2.
    destruct (erase_spec _ _ _ _ _ Hd2 Hi2) as (d3 & it3 & He & Hd3 & Hi3). step_some He.
    destruct (cut_prev _ _ _ _ _ Hd3 Hi3) as (it4 & Hpv & Hi4). step_some Hpv.
    do 2 eexists. split; [done|]. exists l, (p.1 + 0, p.2 + 1 + (r.2 - r.1)), l2.
    simpl in Hs4. do 2 (split; [done|]). split.
    { apply sep_app. simpl. split; [done|]. split; [lia|]. split; [lia|].
      replace (p.2 + 1 + (r.2 - r.1)) with r.2 by lia. tauto. }
    split; [simpl; lia|]. intros j. rewrite !mem_app. simpl. intuition lia.
  - do 2 eexists. split; [done|]. exists l, (p.1, p.2 + 1), (r :: l2). simpl in Hs4.
    do 2 (split; [done|]). split; [apply sep_app; simpl; split; [done|intuition lia]|].
    split; [simpl; lia|]. intros j. rewrite !mem_app. simpl. intuition lia.
Qed.

(** [index] touches no range before the position. *)
Lemma do_add_fresh d it index l1 l2 :
  inv d -> cut d it l1 l2 -> last_end (-1) l1 < index ->
  match l2 with [] => True | r :: _ => index < r.1 end ->
  exists d' it',
    (precedes ← test d it (fun r => r.1 =? index + 1);
     if precedes : bool then d ← adjust d it (-1) 0; Some (d, it)
     else insert d it (index, index + 1)) = Some (d', it') /\ added index (l1 ++ l2) d' it'.
Proof.
  intros [Hd Hs] Hc Hl1 Hl2. rewrite (cut_ranges _ _ _ _ Hc) in Hs.
  step_some (test_spec _ _ _ _ (fun r => r.1 =? index + 1) Hc).
  apply sep_app in Hs as (Hs1 & Hs2).
  destruct l2 as [|r l2]; [|destruct (Z.eqb_spec r.1 (index + 1)) as [E|E]].
  - destruct (insert_spec d it (-1) l1 [] (index, index + 1) Hd Hc) as (d' & it' & -> & Hd' & Hc').
    { apply sep_app. simpl. split; [done|lia]. }
    do 2 eexists. split; [done|]. exists l1, (index, index + 1), [].
    do 2 (split; [done|]). split; [apply sep_app; simpl; split; [done|lia]|].
    split; [simpl; lia|]. intros j. rewrite !mem_app. simpl. intuition lia.
  - destruct (adjust_spec _ _ _ _ _ (-1) 0 Hd Hc) as (d1 & Ha & Hr1). step_some Ha.
    pose proof (replaces_cut _ _ _ _ _ _ _ Hc Hr1) as Hc1. destruct Hr1 as (Hd1 & _ & _).
    do 2 eexists. split; [done|]. exists l1, (r.1 + -1, r.2 + 0), l2.
    replace (r.2 + 0) with r.2 in * by lia. simpl in Hs2.
    do 2 (split; [done|]). split; [apply sep_app; simpl; split; [done|intuition lia]|].
    split; [simpl; lia|]. intros j. rewrite !mem_app. simpl. intuition lia.
  - simpl in Hs2.
    destruct (insert_spec d it (-1) l1 (r :: l2) (index, index + 1) Hd Hc)
      as (d' & it' & -> & Hd' & Hc').
    { apply sep_app. simpl. split; [done|intuition lia]. }
    do 2 eexists. split; [done|]. exists l1, (index, index + 1), (r :: l2).
    do 2 (split; [done|]). split; [apply sep_app; simpl; split; [done|intuition lia]|].
    split; [simpl; lia|]. intros j. rewrite !mem_app. simpl. intuition lia.
Qed.

Lemma do_add_spec d it index l1 l2 :
  inv d -> cut d it l1 l2 -> 0 <= index -> splits_at index l1 l2 ->
  exists d' it', do_add d it index = Some (d', it') /\ added index (l1 ++ l2) d' it'.
Proof.
  intros Hinv Hc Hidx [Hl1 Hl2]. pose proof Hinv as [Hd Hs]. unfold do_add.
  step_some (test_before_spec _ _ _ _ (fun r => index <? r.2) Hd Hc).
  step_some (test_spec _ _ _ _ (fun r => (r.1 <=? index) && (index <? r.2)) Hc).
  replace (match last l1 with Some r => index <? r.2 | None => false end) with false.
  2: { destruct (list_snoc_inv l1) as [->|(l & r & ->)]; [done|]. rewrite last_snoc.
       apply ends_by_app in Hl1 as [_ [? _]%ends_by_cons]. lia. }
  assert (Hpres : match l2 with [] => False | r :: _ => r.1 <= index end \/
    match l2 with [] => True | r :: _ => index < r.1 end) by (destruct l2; lia).
  destruct Hpres as [Hp|Hn].
  { destruct l2 as [|r l2]; [done|]. apply Forall_cons in Hl2 as [? _].
    replace ((r.1 <=? index) && (index <? r.2)) with true by lia.
    do 2 eexists. split; [done|]. eapply do_add_present; [done|done|lia]. }
  replace (match l2 with [] => false | r :: _ => (r.1 <=? index) && (index <? r.2) end)
    with false by (destruct l2; lia).
  step_some (test_before_spec _ _ _ _ (fun r => r.2 =? index) Hd Hc).
  destruct (list_snoc_inv l1) as [->|(l & p & ->)].
  - apply do_add_fresh; [done|done|unfold last_end; simpl; lia|done].
  - rewrite last_snoc. apply ends_by_app in Hl1 as [_ [Hp _]%ends_by_cons].
    destruct (Z.eqb_spec p.2 index) as [E|E].
    + destruct (cut_prev _ _ _ _ _ Hd Hc) as (prev & Hpv & Hprev). step_some Hpv.
      rewrite <- app_assoc. simpl. by apply do_add_extend.
    + apply do_add_fresh; [done|done|rewrite last_end_snoc; lia|done].
Qed.
End add.

(** ** Loops over chunks and ranges *)
Section loops.
Context {CS : ChunkSize}.
Implicit Types (d : crv) (it : iterator).

(** [steps q f l acc acc']: a loop guarded by [q] runs through all of [l]. *)
Fixpoint steps {X A} (q : X -> A -> bool) (f : X -> A -> A) (l : list X) (acc acc' : A) : Prop :=
  match l with
  | [] => acc' = acc
  | x :: l => q x acc = true /\ steps q f l (f x acc) acc'
  end.

(** The loop stops in front of [l]. *)
Definition stops {X A} (q : X -> A -> bool) (l : list X) (acc : A) : Prop :=
  match l with [] => True | x :: _ => q x acc = false end.

Lemma for_ranges_spec {A} (q : range -> A -> bool) f d it l1 l2 acc :
  chunks_ok d -> cut d it l1 l2 ->
  exists m1 m2 it' acc', l2 = m1 ++ m2 /\
    for_ranges d (fun _ => q) f it acc = Some (it', acc') /\
    cut d it' (l1 ++ m1) m2 /\ steps q f m1 acc acc' /\ stops q m2 acc'.
Proof.
  intros Hd Hc. unfold for_ranges.
  assert (Hf : (length l2 < turns d)%nat).
  { unfold turns. rewrite (cut_ranges _ _ _ _ Hc), length_app. lia. }
  revert l1 l2 it acc Hc Hf. generalize (turns d) as fuel.
  induction fuel as [|n IH]; intros l1 l2 it acc Hc Hf; [lia|]. cbn [loop].
  step_some (test_spec _ _ _ _ (fun r => q r acc) Hc).
  destruct l2 as [|r l2].
  { exists [], [], it, acc. rewrite !app_nil_r. repeat (split; [done|]). done. }
  destruct (q r acc) eqn:E.
  - step_some (cut_deref _ _ _ _ _ Hc).
    destruct (cut_next _ _ _ _ _ Hd Hc) as (it1 & Hn & Hc1). step_some Hn.
    simpl in Hf. destruct (IH (l1 ++ [r]) l2 it1 (f r acc) Hc1) as
      (m1 & m2 & it' & acc' & -> & -> & Hc' & Hs & Hst); [lia|].
    exists (r :: m1), m2, it', acc'. rewrite <- app_assoc in Hc'.
    repeat (split; [done|]). done.
  - exists [], (r :: l2), it, acc. rewrite !app_nil_r. repeat (split; [done|]). done.
Qed.

Lemma length_chunks d : chunks_ok d -> (length d <= length (ranges d))%nat.
Proof.
  induction d as [|c d IH]; [done|]. intros [(Hne & _) Hd]%Forall_cons. simpl.
  rewrite length_app. specialize (IH Hd). destruct (ch_data c); [done|]. simpl. lia.
Qed.

Lemma for_chunks_spec {A} chk (q : Chunk -> A -> bool) f pre post acc :
  (forall o, chk (It o 0) = true) -> chunks_ok (pre ++ post) ->
  exists p1 p2 acc', post = p1 ++ p2 /\
    for_chunks (pre ++ post) chk q f (It (length pre) 0) acc
      = Some (It (length (pre ++ p1)) 0, acc') /\
    steps q f p1 acc acc' /\ stops q p2 acc'.
Proof.
  intros Hchk Hd. unfold for_chunks, outer.
  assert (Hf : (length post < turns (pre ++ post))%nat).
  { pose proof (length_chunks _ Hd). rewrite length_app in H. unfold turns. lia. }
  revert Hf. generalize (turns (pre ++ post)) as fuel. intros fuel Hf.
  revert fuel pre acc Hd Hf.
  induction post as [|c post IH]; intros [|n] pre acc Hd Hf; simpl in Hf; try lia.
  - cbn [loop]. rewrite app_nil_r. rewrite (proj2 (it_eqb_eq _ _)) by done.
    exists [], [], acc. rewrite !app_nil_r. repeat (split; [done|]). done.
  - cbn [loop]. replace (it_eqb _ _) with false.
    2: { symmetry. apply not_true_iff_false. rewrite it_eqb_eq. unfold end_it.
         rewrite length_app. simpl. intros [= ?]. lia. }
    cbn [it_outer]. rewrite list_lookup_middle by done. cbn [mbind option_bind].
    destruct (q c acc) eqn:E.
    + rewrite Hchk. replace (next_chunk (It (length pre) 0)) with (It (length (pre ++ [c])) 0)
        by (unfold next_chunk; rewrite length_app; simpl; f_equal; lia).
      replace (pre ++ c :: post) with ((pre ++ [c]) ++ post) in * by (by rewrite <- app_assoc).
      destruct (IH n (pre ++ [c]) (f c acc) Hd) as (p1 & p2 & acc' & -> & -> & Hs & Hst); [lia|].
      exists (c :: p1), p2, acc'. rewrite <- app_assoc. repeat (split; [done|]). done.
    + exists [], (c :: post), acc. rewrite !app_nil_r. repeat (split; [done|]). done.
Qed.

Lemma cut_chunk pre post :
  chunks_ok (pre ++ post) -> cut (pre ++ post) (It (length pre) 0) (ranges pre) (ranges post).
Proof.
  intros Hd. split; [|apply ranges_app]. rewrite shape_app, locate_app by lia.
  rewrite Nat.sub_diag. unfold chunks_ok in Hd. rewrite Forall_app in Hd. destruct Hd as [_ Hp].
  destruct post as [|c post]; simpl; [f_equal; lia|].
  apply Forall_cons in Hp as [(Hne & _) _].
  destruct (ch_data c) eqn:E'; [done|]. simpl. f_equal. lia.
Qed.

Lemma chunks_count pre : chunks_ok pre -> foldr (fun c n => ch_count c + n) 0 pre = total (ranges pre).
Proof.
  induction pre as [|c pre IH]; [done|]. intros [(_ & _ & Hc) Hd]%Forall_cons. simpl.
  rewrite total_app, IH by done. rewrite Hc at 1. done.
Qed.
End loops.

(** ** Membership, addition *)
Section membership.
Context {CS : ChunkSize}.
Implicit Types (d : crv) (it : iterator).

Lemma inv_cut d it l1 l2 : inv d -> cut d it l1 l2 -> ranges_ok (l1 ++ l2).
Proof. intros [_ Hs] Hc. by rewrite <- (cut_ranges _ _ _ _ Hc). Qed.

Lemma cut_inv d it l1 l2 : chunks_ok d -> cut d it l1 l2 -> ranges_ok (l1 ++ l2) -> inv d.
Proof. intros Hd Hc Hs. split; [done|]. by rewrite (cut_ranges _ _ _ _ Hc). Qed.

Lemma cut_has d it l1 l2 j : cut d it l1 l2 -> has d j <-> mem (l1 ++ l2) j.
Proof. intros Hc. unfold has. by rewrite (cut_ranges _ _ _ _ Hc). Qed.

Lemma find_begin_spec d index :
  inv d -> exists it m1 m2, find d index (begin_it d) = Some it /\ cut d it m1 m2 /\
    splits_at index m1 m2.
Proof.
  intros Hinv. pose proof (cut_begin d (proj1 Hinv)) as Hb.
  destruct (find_spec d _ index [] _ Hinv Hb (ends_by_nil _)) as (it & m1 & m2 & ? & ? & _ & ?).
  by exists it, m1, m2.
Qed.

Lemma contains_correct d index : inv d -> contains d index = Some (bool_decide (has d index)).
Proof.
  intros Hinv. unfold contains.
  destruct (find_begin_spec d index Hinv) as (it & m1 & m2 & Hf & Hc & Hm1 & Hm2). step_some Hf.
  rewrite (test_spec _ _ _ _ _ Hc). f_equal. apply eq_bool_decide.
  rewrite (cut_has _ _ _ _ _ Hc), mem_app.
  pose proof (inv_cut _ _ _ _ Hinv Hc) as Hs. apply sep_app in Hs as [_ Hs].
  destruct m2 as [|r m2]; simpl.
  - split; [done|]. intros [H|[]]. apply (ends_by_not_mem _ _ _ Hm1) in H. lia.
  - apply Forall_cons in Hm2 as [? _]. destruct Hs as (_ & _ & Hs).
    rewrite Z.leb_le. split; [lia|].
    intros [Hx|[Hx|Hx]]; [apply (ends_by_not_mem _ _ _ Hm1) in Hx; lia|lia|].
    apply (mem_lower _ _ _ Hs) in Hx. lia.
Qed.

Lemma added_inv index l d it : added index l d it ->
  inv d /\ forall j, has d j <-> j = index \/ mem l j.
Proof.
  intros (m1 & r & m2 & Hd & Hc & Hs & _ & Hm). split; [by eapply cut_inv|].
  intros j. rewrite (cut_has _ _ _ _ _ Hc). apply Hm.
Qed.

Lemma add_correct d index :
  inv d -> 0 <= index ->
  exists d', add d index = Some d' /\ inv d' /\ forall j, has d' j <-> j = index \/ has d j.
Proof.
  intros Hinv Hi. unfold add.
  destruct (find_begin_spec d index Hinv) as (it & m1 & m2 & Hf & Hc & Hsp). step_some Hf.
  destruct (do_add_spec d it index m1 m2 Hinv Hc Hi Hsp) as (d' & it' & Ha & Hadd). step_some Ha.
  apply added_inv in Hadd as [Hinv' Hm]. exists d'. split; [done|]. split; [done|].
  intros j. rewrite Hm, (cut_has _ _ _ _ _ Hc). done.
Qed.

Lemma add_indexes_spec d it l1 l2 es lo :
  inv d -> cut d it l1 l2 -> increasing lo es -> -1 <= lo -> ends_by (lo + 1) l1 ->
  exists d', add_indexes d it es = Some d' /\ inv d' /\
    forall j, has d' j <-> j ∈ es \/ has d j.
Proof.
  revert d it l1 l2 lo. induction es as [|e es IH]; intros d it l1 l2 lo Hinv Hc Hes Hlo Hl1; simpl.
  - exists d. split; [done|]. split; [done|]. intros j. rewrite elem_of_nil. tauto.
  - destruct Hes as [He Hes].
    destruct (find_spec d it e l1 l2 Hinv Hc) as (it1 & m1 & m2 & Hf & Hc1 & -> & Hsp).
    { eapply Forall_impl; [done|]. simpl. intros; lia. }
    step_some Hf.
    destruct (do_add_spec d it1 e _ _ Hinv Hc1 ltac:(lia) Hsp) as (d2 & it2 & Ha & Hadd).
    step_some Ha. pose proof (added_inv _ _ _ _ Hadd) as [Hinv2 Hm2].
    destruct Hadd as (k1 & r & k2 & _ & Hc2 & Hs2 & Hr & _).
    destruct (IH d2 it2 k1 (r :: k2) e Hinv2 Hc2 Hes) as (d' & -> & Hinv' & Hm'); [lia| |].
    { apply sep_app in Hs2 as [Hs2 (? & _)]. eapply Forall_impl; [by eapply last_end_ends|].
      simpl. intros; lia. }
    exists d'. split; [done|]. split; [done|]. intros j.
    rewrite Hm', Hm2, elem_of_cons, <- (cut_has _ _ _ _ _ Hc1). tauto.
Qed.

Lemma add_set_correct d other :
  inv d -> inv other ->
  exists d', add_set d other = Some d' /\ inv d' /\
    forall j, has d' j <-> has other j \/ has d j.
Proof.
  intros Hinv [_ Ho]. unfold add_set.
  destruct (add_indexes_spec d _ _ _ (elems (ranges other)) (-1) Hinv
    (cut_begin _ (proj1 Hinv)) (elems_increasing _ _ Ho)) as (d' & -> & Hinv' & Hm);
    [lia|apply ends_by_nil|].
  exists d'. split; [done|]. split; [done|]. intros j. by rewrite Hm, mem_elems.
Qed.

Lemma empty_inv : inv [].
Proof. split; [constructor|done]. Qed.

Lemma of_list_correct values :
  Forall (fun v => 0 <= v) values ->
  exists d, of_list values = Some d /\ inv d /\ forall j, has d j <-> j ∈ values.
Proof.
  unfold of_list. intros Hv.
  assert (H : forall d, inv d -> exists d', add_values d values = Some d' /\ inv d' /\
    forall j, has d' j <-> j ∈ values \/ has d j).
  { induction values as [|v values IH]; intros d Hd; simpl.
    - exists d. split; [done|]. split; [done|]. intros j. rewrite elem_of_nil. tauto.
    - apply Forall_cons in Hv as [Hv0 Hv].
      destruct (add_correct d v Hd Hv0) as (d1 & Ha & Hd1 & Hm1). step_some Ha.
      destruct (IH Hv d1 Hd1) as (d' & -> & Hd' & Hm'). exists d'. split; [done|].
      split; [done|]. intros j. rewrite Hm', Hm1, elem_of_cons. tauto. }
  destruct (H [] empty_inv) as (d & -> & Hd & Hm). exists d. split; [done|]. split; [done|].
  intros j. rewrite Hm. unfold has. simpl. tauto.
Qed.

(** Two index sets with the same indices hold the same ranges. *)
Lemma inv_unique d d' :
  inv d -> inv d' -> (forall j, has d j <-> has d' j) -> ranges d = ranges d'.
Proof. intros [_ H] [_ H']. by apply sep_unique with (-1). Qed.

(** The debug check of the representation never fires. *)
Lemma inv_verify d : inv d -> verify d = true.
Proof.
  intros [Hd Hs]. unfold verify. apply andb_true_iff. split.
  - enough (forall l lo, sep lo l -> verify_ranges (Some lo) l = true) as H.
    { destruct (ranges d) as [|r l]; [done|]. simpl in *. destruct Hs as (_ & ? & Hs).
      rewrite (H _ _ Hs). lia. }
    induction l as [|r l IH]; [done|]. intros lo (? & ? & Hl). simpl.
    rewrite (IH _ Hl). lia.
  - clear -Hd Hs. revert Hs. generalize (-1) as lo. induction d as [|c d IH]; [done|].
    intros lo Hs. apply Forall_cons in Hd as [(Hne & _ & Hc) Hd]. simpl in *.
    apply sep_app in Hs as [Hs1 Hs2]. rewrite (IH Hd _ Hs2), andb_true_r.
    unfold verify_chunk. destruct (list_snoc_inv (ch_data c)) as [?|(l & b & E)]; [done|].
    rewrite E, last_snoc. rewrite E in Hs1. rewrite Hc, E. cbn [ch_begin ch_end ch_count chunk_of].
    rewrite last_end_snoc.
    destruct (head (l ++ [b])) as [f|] eqn:Ef; [|by destruct l].
    assert (first_of (l ++ [b]) = f.1) as -> by (destruct l; simplify_eq/=; done).
    rewrite !Z.eqb_refl. simpl.
    rewrite <- (count_below_all _ _ b.2 Hs1) by (by rewrite last_end_snoc).
    assert (sep (f.1 - 1) (l ++ [b]) /\ f.1 < b.2) as [Hs3 ?].
    { apply head_Some in Ef as (k & Ek). rewrite Ek in Hs1 |- *.
      assert (b.2 = last_end lo (l ++ [b])) as -> by (by rewrite last_end_snoc).
      rewrite Ek. destruct Hs1 as (? & ? & Hk). split; [simpl; split; [lia|done]|].
      pose proof (last_end_ge _ _ Hk). unfold last_end in *. simpl. lia. }
    pose proof (count_below_le _ _ b.2 Hs3). lia.
Qed.
End membership.
