(* ===== verification/IndexSetShifts.v ===== *)
(** * Correctness of the shifting operations of [realm::IndexSet]

    [count] from zero, [shift], [unshift], [add_shifted], [insert_at],
    [shift_for_insert_at], [erase_at], [erase_or_unshift] and [remove]. *)
From S2P Require Import Prelude.
From S2P Require Import RangeList.
From S2P Require Import ChunkedVector.
From S2P Require Import IndexSets.
From S2P Require Import IndexSetFacts.
Import IndexSet.

Section scans.
Context {CS : ChunkSize}.
Implicit Types (d : crv) (it : iterator).

(** The chunk loop from the beginning, seen as a position. *)
Lemma for_chunks_begin {A} chk (q : Chunk -> A -> bool) f d acc :
  (forall o, chk (It o 0) = true) -> inv d ->
  exists p1 p2 it acc', d = p1 ++ p2 /\
    for_chunks d chk q f (begin_it d) acc = Some (it, acc') /\
    cut d it (ranges p1) (ranges p2) /\ chunks_ok p1 /\ ranges_ok (ranges p1) /\
    steps q f p1 acc acc' /\ stops q p2 acc'.
Proof.
  intros Hchk [Hd Hs].
  destruct (for_chunks_spec chk q f [] d acc Hchk Hd) as (p1 & p2 & acc' & -> & Hf & Hst & Hsp).
  exists p1, p2, (It (length p1) 0), acc'. split; [done|].
  assert (begin_it (p1 ++ p2) = It 0 0) as -> by (by destruct p1, p2).
  split; [done|]. split; [by apply cut_chunk|].
  unfold chunks_ok in *. apply Forall_app in Hd as [Hd1 _].
  rewrite ranges_app in Hs. apply sep_app in Hs as [Hs1 _]. done.
Qed.

Lemma nth_free_skip lo l1 l2 i :
  sep lo l1 -> ends_by i l1 -> nth_free (l1 ++ l2) i = nth_free l2 (i + total l1).
Proof.
  revert lo i. induction l1 as [|r l1 IH]; intros lo i; simpl.
  - intros _ _. unfold total. simpl. f_equal. lia.
  - intros (? & ? & H) [? He]%ends_by_cons.
    destruct (Z.ltb_spec i r.1); [lia|].
    rewrite (IH r.2); [unfold total; simpl; f_equal; unfold range_len; lia|done|].
    eapply Forall_impl; [done|]. simpl. unfold range_len. intros; lia.
Qed.

Lemma ends_by_weaken x y l : x <= y -> ends_by x l -> ends_by y l.
Proof. intros ? H. eapply Forall_impl; [done|]. simpl. intros; lia. Qed.

(** Complete chunks before the target. *)
Lemma steps_chunks lo (p1 : crv) l i i' :
  chunks_ok p1 -> sep lo (ranges p1) ->
  steps (fun c i => ch_end c <=? i) (fun c i => i + ch_count c) p1 i i' ->
  nth_free (ranges p1 ++ l) i = nth_free l i' /\ (i <= i' /\ ends_by i' (ranges p1)).
Proof.
  revert lo i. induction p1 as [|c p1 IH]; intros lo i Hd Hs; simpl.
  - intros ->. split; [done|]. split; [lia|apply ends_by_nil].
  - intros [Hq Hst]. apply Forall_cons in Hd as [Hc Hd]. simpl in Hs.
    apply sep_app in Hs as [Hs1 Hs2].
    assert (He : ends_by i (ch_data c)) by (eapply chunk_end_le; [done..|lia]).
    assert (Hcount : ch_count c = total (ch_data c)).
    { destruct Hc as (_ & _ & Hc). rewrite Hc. done. }
    assert (0 <= total (ch_data c)).
    { rewrite <- (count_below_all _ _ _ Hs1 (Z.le_refl _)). by eapply count_below_nonneg. }
    destruct (IH _ _ Hd Hs2 Hst) as (Hn & Hle & Hend).
    split; [|split; [lia|]].
    + rewrite <- app_assoc, (nth_free_skip lo) by done. by rewrite <- Hcount.
    + apply ends_by_app. split; [|done]. eapply ends_by_weaken; [|done]. lia.
Qed.

Lemma steps_ranges lo l1 l i i' :
  sep lo l1 ->
  steps (fun r i => r.1 <=? i) (fun (r : range) i => i + (r.2 - r.1)) l1 i i' ->
  nth_free (l1 ++ l) i = nth_free l i' /\ (i <= i' /\ ends_by i' l1).
Proof.
  revert lo i. induction l1 as [|r l1 IH]; intros lo i; simpl.
  - intros _ ->. split; [done|]. split; [lia|apply ends_by_nil].
  - intros (? & ? & Hs) [Hq Hst]. destruct (IH _ _ Hs Hst) as (Hn & Hle & Hend).
    destruct (Z.ltb_spec i r.1); [lia|]. split; [done|]. split; [lia|].
    apply ends_by_cons. split; [lia|done].
Qed.

Lemma nth_free_stop l i : stops (fun (r : range) i => r.1 <=? i) l i -> nth_free l i = i.
Proof. destruct l as [|r l]; [done|]. simpl. intros. destruct (Z.ltb_spec i r.1); lia. Qed.

Lemma add_shifted_correct d index :
  inv d -> 0 <= index ->
  exists d', add_shifted d index = Some (d', nth_free (ranges d) index) /\ inv d' /\
    forall j, has d' j <-> j = nth_free (ranges d) index \/ has d j.
Proof.
  intros Hinv Hi. unfold add_shifted, add_shifted_chunks, add_shifted_ranges.
  destruct (for_chunks_begin (fun _ => true) (fun c i => ch_end c <=? i) (fun c i => i + ch_count c) d index (fun _ => eq_refl) Hinv)
    as (p1 & p2 & it & i1 & -> & Hl & Hc & Hp1 & Hsp1 & Hst & _). step_some Hl.
  destruct (for_ranges_spec (fun r i => r.1 <=? i) (fun (r : range) i => i + (r.2 - r.1))
    _ _ _ _ i1 (proj1 Hinv) Hc) as (m1 & m2 & it2 & i2 & Hm & Hl2 & Hc2 & Hst2 & Hstop).
  step_some Hl2. pose proof (inv_cut _ _ _ _ Hinv Hc2) as Hs.
  apply sep_app in Hs as [Hs12 Hs3]. pose proof Hs12 as [_ Hs2]%sep_app.
  destruct (steps_chunks _ _ (ranges p2) _ _ Hp1 Hsp1 Hst) as (Hn1 & Hle1 & He1).
  destruct (steps_ranges _ _ m2 _ _ Hs2 Hst2) as (Hn2 & Hle2 & He2).
  assert (Hk : nth_free (ranges (p1 ++ p2)) index = i2).
  { rewrite ranges_app, Hn1, Hm, Hn2. by apply nth_free_stop. }
  destruct (do_add_spec _ it2 i2 _ _ Hinv Hc2) as (d' & it' & Ha & Hadd); [lia| |].
  { split; [apply ends_by_app; split; [by eapply ends_by_weaken|done]|].
    destruct m2 as [|r m2]; [constructor|]. simpl in Hstop.
    eapply Forall_impl; [eapply (sep_all_after (r.1 - 1)); split; [lia|by destruct Hs3]|].
    simpl. intros; lia. }
  step_some Ha. rewrite Hk. apply added_inv in Hadd as [Hinv' Hmem].
  exists d'. split; [done|]. split; [done|]. intros j.
  by rewrite Hmem, (cut_has _ _ _ _ _ Hc2).
Qed.

Lemma shift_correct d index : shift d index = nth_free (ranges d) index.
Proof.
  unfold shift. generalize index. induction (ranges d) as [|r l IH]; intros i; simpl; [done|].
  destruct (Z.ltb_spec i r.1); [done|]. apply IH.
Qed.

Lemma steps_total_chunks q (p1 : crv) a a' :
  chunks_ok p1 -> steps (fun c _ => q c) (fun c a => a - ch_count c) p1 a a' ->
  a' = a - total (ranges p1).
Proof.
  revert a. induction p1 as [|c p1 IH]; intros a Hd; simpl; [intros ->; unfold total; simpl; lia|].
  apply Forall_cons in Hd as [(_ & _ & Hc) Hd]. intros [_ Hst]. apply IH in Hst as ->; [|done].
  rewrite total_app. rewrite Hc at 1. cbn [ch_count chunk_of]. lia.
Qed.

Lemma steps_total_ranges q l1 a a' :
  steps (fun (r : range) _ => q r) (fun (r : range) a => a - (r.2 - r.1)) l1 a a' ->
  a' = a - total l1.
Proof.
  revert a. induction l1 as [|r l1 IH]; intros a; simpl; [intros ->; unfold total; simpl; lia|].
  intros [_ Hst]. apply IH in Hst as ->. unfold total. simpl. unfold range_len. lia.
Qed.

Lemma steps_all_true {X A} (q : X -> bool) (f : X -> A -> A) l a a' :
  steps (fun x _ => q x) f l a a' -> Forall (fun x => q x = true) l.
Proof.
  revert a. induction l as [|x l IH]; intros a; simpl; [constructor|].
  intros [Hq Hs]. constructor; [done|]. by eapply IH.
Qed.

(** The position [index] is searched at with the chunk loop and the range loop. *)
Lemma splits_scan lo (p1 : crv) m1 m2 index :
  chunks_ok p1 -> sep lo (ranges p1 ++ m1 ++ m2) ->
  Forall (fun c => (ch_end c <=? index) = true) p1 ->
  Forall (fun r : range => (r.2 <=? index) = true) m1 ->
  (match m2 with [] => True | r :: _ => (r.2 <=? index) = false end) ->
  splits_at index (ranges p1 ++ m1) m2.
Proof.
  intros Hd Hs H1 H2 H3. apply sep_app in Hs as [Hs1 Hs2]. apply sep_app in Hs2 as [_ Hs3].
  split.
  - apply ends_by_app. split.
    + eapply ranges_ends_by; [done|done|]. eapply Forall_impl; [done|]. simpl. intros; lia.
    + eapply Forall_impl; [done|]. simpl. intros; lia.
  - destruct m2 as [|r m2]; [constructor|]. destruct Hs3 as (_ & _ & Hs3).
    constructor; [lia|]. eapply Forall_impl; [by eapply sep_all_after|]. simpl. intros; lia.
Qed.

Lemma splits_count lo l1 l2 x :
  sep lo (l1 ++ l2) -> splits_at x l1 l2 -> ~ mem (l1 ++ l2) x -> lo < x ->
  count_below x (l1 ++ l2) = total l1.
Proof.
  intros Hs [H1 H2] Hx Hlo. rewrite count_below_app. apply sep_app in Hs as [Hs1 Hs2].
  rewrite (count_below_all lo _ _ Hs1) by (apply ends_by_last_end; [lia|done]).
  destruct l2 as [|r l2]; simpl; [lia|]. destruct Hs2 as (? & ? & Hs2).
  apply Forall_cons in H2 as [? _]. rewrite mem_app, mem_cons in Hx.
  rewrite (count_below_none r.2) by (done || lia). lia.
Qed.
End scans.

(** ** Counting from zero *)
Section counting.
Context {CS : ChunkSize}.
Implicit Types (d : crv) (it : iterator).

Lemma steps_sum_chunks q (p1 : crv) a a' :
  chunks_ok p1 -> steps (fun c _ => q c) (fun c a => a + ch_count c) p1 a a' ->
  a' = a + total (ranges p1).
Proof.
  revert a. induction p1 as [|c p1 IH]; intros a Hd; simpl; [intros ->; unfold total; simpl; lia|].
  apply Forall_cons in Hd as [(_ & _ & Hc) Hd]. intros [_ Hst]. apply IH in Hst as ->; [|done].
  rewrite total_app. rewrite Hc at 1. cbn [ch_count chunk_of]. lia.
Qed.

Lemma steps_sum_ranges q l1 a a' :
  steps (fun (r : range) _ => q r) (fun (r : range) a => a + (r.2 - r.1)) l1 a a' ->
  a' = a + total l1.
Proof.
  revert a. induction l1 as [|r l1 IH]; intros a; simpl; [intros ->; unfold total; simpl; lia|].
  intros [_ Hst]. apply IH in Hst as ->. unfold total. simpl. unfold range_len. lia.
Qed.

Lemma count_tail_spec d e :
  inv d -> 0 <= e -> count_tail d (begin_it d) 0 e = Some (count_below e (ranges d)).
Proof.
  intros Hinv He. unfold count_tail, count_chunks, count_ranges.
  destruct (for_chunks_begin (fun it => offset it =? 0)%nat (fun c _ => ch_end c <=? e) (fun c a => a + ch_count c) d 0
    (fun _ => eq_refl) Hinv)
    as (p1 & p2 & it & i1 & -> & Hl & Hc & Hp1 & Hsp1 & Hst & _). step_some Hl.
  destruct (for_ranges_spec (fun r _ => r.2 <=? e) (fun (r : range) a => a + (r.2 - r.1))
    _ _ _ _ i1 (proj1 Hinv) Hc) as (m1 & m2 & it2 & i2 & Hm & Hl2 & Hc2 & Hst2 & Hstop).
  step_some Hl2. step_some (test_spec _ _ _ _ (fun r => r.1 <? e) Hc2).
  pose proof (inv_cut _ _ _ _ Hinv Hc2) as Hs. rewrite (cut_ranges _ _ _ _ Hc2), count_below_app.
  assert (Hsp : splits_at e (ranges p1 ++ m1) m2).
  { eapply splits_scan; [done|by rewrite app_assoc| | |by destruct m2].
    - exact (steps_all_true _ _ _ _ _ Hst).
    - exact (steps_all_true _ _ _ _ _ Hst2). }
  apply steps_sum_chunks in Hst as ->; [|done]. apply steps_sum_ranges in Hst2 as ->.
  pose proof Hs as [Hs1 Hs2]%sep_app.
  rewrite (count_below_all _ _ _ Hs1) by (apply ends_by_last_end; [lia|by destruct Hsp]).
  rewrite total_app. destruct m2 as [|r m2]; [simpl; f_equal; lia|].
  destruct Hs2 as (? & ? & Hs2). simpl in Hstop. simpl.
  rewrite (count_below_none r.2) by (done || lia).
  destruct (Z.ltb_spec r.1 e); [step_some (cut_deref _ _ _ _ _ Hc2)|]; f_equal; lia.
Qed.

Lemma count_from_zero_correct d e :
  inv d -> 0 <= e -> count d 0 e = Some (count_below e (ranges d)).
Proof.
  intros Hinv He. pose proof Hinv as [Hd Hs]. unfold count.
  destruct (find_begin_spec d 0 Hinv) as (it & m1 & m2 & Hf & Hc & Hsp). step_some Hf.
  assert (m1 = []) as ->.
  { destruct m1 as [|r m1]; [done|]. rewrite (cut_ranges _ _ _ _ Hc) in Hs. simpl in Hs.
    destruct Hsp as [[? _]%ends_by_cons _]. lia. }
  assert (it = begin_it d) as -> by (eapply cut_fun; [done|by apply cut_begin|done]).
  step_some (test_spec _ _ _ _ (fun r => e <=? r.1) Hc). rewrite (cut_is_end _ _ _ _ Hc).
  pose proof (cut_ranges _ _ _ _ Hc) as Hr. simpl in Hr. destruct m2 as [|r m2]; simpl.
  - by rewrite Hr.
  - rewrite Hr in Hs. simpl in Hs. destruct Hs as (? & ? & Hs).
    destruct (Z.leb_spec e r.1).
    + rewrite Hr. simpl. rewrite (count_below_none r.2) by (done || lia). f_equal. lia.
    + step_some (cut_deref _ _ _ _ _ Hc). destruct (Z.leb_spec e r.2).
      * rewrite Hr. simpl. rewrite (count_below_none r.2) by (done || lia). f_equal. lia.
      * replace (r.1 <? 0) with false by lia.
        replace (offset (begin_it d)) with O by (unfold begin_it; by destruct d).
        by apply count_tail_spec.
Qed.

(** The loops terminate from any position, whatever their condition. *)
Lemma for_ranges_any {A} (p : iterator -> range -> A -> bool) f d it l1 l2 acc :
  chunks_ok d -> cut d it l1 l2 ->
  exists m1 m2 it' acc', for_ranges d p f it acc = Some (it', acc') /\ cut d it' m1 m2 /\
    match m2 with [] => True | r :: _ => p it' r acc' = false end.
Proof.
  intros Hd Hc. unfold for_ranges.
  assert (Hf : (length l2 < turns d)%nat).
  { unfold turns. rewrite (cut_ranges _ _ _ _ Hc), length_app. lia. }
  revert l1 l2 it acc Hc Hf. generalize (turns d) as fuel.
  induction fuel as [|n IH]; intros l1 l2 it acc Hc Hf; [lia|]. cbn [loop].
  step_some (test_spec _ _ _ _ (fun r => p it r acc) Hc). destruct l2 as [|r l2].
  { by exists l1, [], it, acc. }
  destruct (p it r acc) eqn:E; [|by exists l1, (r :: l2), it, acc].
  step_some (cut_deref _ _ _ _ _ Hc). destruct (cut_next _ _ _ _ _ Hd Hc) as (it1 & Hn & Hc1).
  step_some Hn. apply (IH _ _ _ _ Hc1). simpl in Hf. lia.
Qed.

Lemma count_tail_total d it l1 l2 ret e :
  inv d -> cut d it l1 l2 -> (l2 <> [] -> offset it = O) -> exists n, count_tail d it ret e = Some n.
Proof.
  intros [Hd _] Hc Ho. unfold count_tail, count_chunks, count_ranges.
  assert (exists pre post, d = pre ++ post /\ it = It (length pre) 0) as (pre & post & -> & ->).
  { destruct l2 as [|r l2]; [exists d, []; by rewrite app_nil_r, (cut_nil_end _ _ _ Hc)|].
    apply cut_unzip in Hc as (pre & c & post & a & b & -> & _ & -> & _).
    exists pre, (c :: post). split; [done|]. unfold offset in Ho. simpl in Ho. by rewrite Ho. }
  destruct (for_chunks_spec (fun it => offset it =? 0)%nat (fun c _ => ch_end c <=? e)
    (fun c a => a + ch_count c) pre post ret (fun _ => eq_refl) Hd) as (p1 & p2 & acc & -> & Hl & _).
  step_some Hl. rewrite app_assoc in Hd |- *.
  destruct (for_ranges_any (fun _ r _ => r.2 <=? e) (fun r ret => ret + (r.2 - r.1)) _ _ _ _ acc Hd (cut_chunk _ _ Hd))
    as (m1 & m2 & it & acc' & Hl2 & Hc2 & _).
  step_some Hl2. step_some (test_spec _ _ _ _ (fun r => r.1 <? e) Hc2).
  destruct m2 as [|r m2]; [by eexists|]. destruct (r.1 <? e); [|by eexists].
  step_some (cut_deref _ _ _ _ _ Hc2). by eexists.
Qed.

(** [count] answers for every interval (though it may miss members when it
    starts inside a chunk). *)
Lemma count_total d s e : inv d -> exists n, count d s e = Some n.
Proof.
  intros Hinv. unfold count.
  destruct (find_begin_spec d s Hinv) as (it & m1 & m2 & Hf & Hc & _). step_some Hf.
  step_some (test_spec _ _ _ _ (fun r => e <=? r.1) Hc). rewrite (cut_is_end _ _ _ _ Hc).
  destruct m2 as [|r m2]; [by eexists|]. simpl. destruct (e <=? r.1); [by eexists|].
  step_some (cut_deref _ _ _ _ _ Hc). destruct (e <=? r.2); [by eexists|].
  destruct (_ || _) eqn:Em.
  - destruct (cut_next _ _ _ _ _ (proj1 Hinv) Hc) as (it1 & Hn & Hc1). step_some Hn.
    destruct (for_ranges_any (fun it r _ => (r.2 <? e) && negb (offset it =? 0)%nat)
      (fun r ret => ret + (r.2 - r.1)) _ _ _ _ (r.2 - Z.max r.1 s) (proj1 Hinv) Hc1)
      as (k1 & k2 & it2 & acc & Hl & Hc2 & Hstop).
    unfold count_first_chunk. step_some Hl. step_some (test_spec _ _ _ _ (fun r => r.1 <? e) Hc2).
    destruct k2 as [|r' k2].
    { cbn [andb mbind option_bind]. step_some (test_spec _ _ _ _ (fun r => e <=? r.2) Hc2).
      rewrite (cut_is_end _ _ _ _ Hc2). by eexists. }
    match goal with |- context [mbind ?f ?o] => assert (exists x, o = Some x) as [x Hx] end.
    { rewrite (cut_deref _ _ _ _ _ Hc2). case_match; by eexists. }
    step_some Hx. step_some (test_spec _ _ _ _ (fun r => e <=? r.2) Hc2). rewrite (cut_is_end _ _ _ _ Hc2).
    destruct (e <=? r'.2) eqn:E2; [by eexists|]. cbn [orb].
    apply (count_tail_total _ _ _ _ _ _ Hinv Hc2). intros _.
    replace (r'.2 <? e) with true in Hstop by lia. cbn [andb] in Hstop.
    apply negb_false_iff, Nat.eqb_eq in Hstop. done.
  - apply orb_false_iff in Em as [_ Em]. apply (count_tail_total _ _ _ _ _ _ Hinv Hc). intros _.
    by apply negb_false_iff, Nat.eqb_eq in Em.
Qed.

Lemma unshift_correct d index :
  inv d -> 0 <= index -> unshift d index = Some (index - count_below index (ranges d)).
Proof. intros Hinv Hi. unfold unshift. by rewrite count_from_zero_correct. Qed.
End counting.

(** ** Shifting the rest of the set *)
Section shifting.
Context {CS : ChunkSize}.
Implicit Types (d : crv) (it : iterator).

Lemma shift_from_spec d it l1 l2 k :
  chunks_ok d -> cut d it l1 l2 ->
  exists d', shift_from d it k = Some d' /\ chunks_ok d' /\ shape d' = shape d /\
    ranges d' = l1 ++ shift_all k l2.
Proof.
  intros Hd Hc. unfold shift_from.
  assert (Hf : (length l2 < turns d)%nat).
  { unfold turns. rewrite (cut_ranges _ _ _ _ Hc), length_app. lia. }
  revert Hf. generalize (turns d) as fuel. intros fuel. revert d it l1 l2 Hd Hc.
  induction fuel as [|n IH]; intros d it l1 l2 Hd Hc Hf; [lia|]. cbn [loop].
  rewrite (cut_is_end _ _ _ _ Hc). destruct l2 as [|r l2].
  - exists d. split; [done|]. split; [done|]. split; [done|].
    apply (cut_ranges _ _ _ _ Hc).
  - destruct (shift_it_spec _ _ _ _ _ k Hd Hc) as (d1 & Hs & Hr1). step_some Hs.
    pose proof (replaces_cut _ _ _ _ _ _ _ Hc Hr1) as Hc1. destruct Hr1 as (Hd1 & Hsh & _).
    destruct (cut_next _ _ _ _ _ Hd1 Hc1) as (it1 & Hn & Hc2). step_some Hn.
    simpl in Hf. destruct (IH d1 it1 _ _ Hd1 Hc2) as (d' & -> & Hd' & Hsh' & Hr'); [lia|].
    exists d'. split; [done|]. split; [done|]. split; [congruence|].
    rewrite Hr', <- app_assoc. done.
Qed.

(** [x] is inserted or removed at [index]: what stays in front of it and what
    moves behind it, seen from the ranges. *)
Lemma around index lo l1 r l2 j :
  sep lo (l1 ++ r :: l2) -> ends_by index l1 ->
  (mem l1 j -> j < index) /\ (mem l2 j -> r.2 < j) /\ (mem l1 j -> j < r.1).
Proof.
  intros Hs H1. apply sep_app in Hs as (Hs1 & Hr & ? & Hs2). split; [|split]; intros Hm.
  - by eapply ends_by_not_mem.
  - by eapply mem_lower.
  - apply (mem_upper lo) in Hm; [lia|done].
Qed.

Definition erased (index : Z) (P : Z -> Prop) (j : Z) : Prop :=
  (j < index /\ P j) \/ (index <= j /\ P (j + 1)).

Lemma shift_from_inv d it l1 l2 k :
  chunks_ok d -> cut d it l1 l2 -> ranges_ok (l1 ++ shift_all k l2) ->
  exists d', shift_from d it k = Some d' /\ inv d' /\
    forall j, has d' j <-> mem l1 j \/ mem l2 (j - k).
Proof.
  intros Hd Hc Hs. destruct (shift_from_spec d it l1 l2 k Hd Hc) as (d' & -> & Hd' & _ & Hr).
  exists d'. split; [done|]. split; [split; [done|by rewrite Hr]|].
  intros j. unfold has. by rewrite Hr, mem_app, shift_all_mem.
Qed.

Lemma do_erase_member d it index l1 r l2 :
  inv d -> cut d it l1 (r :: l2) -> ends_by index l1 -> r.1 <= index < r.2 ->
  exists d', do_erase d it index = Some d' /\ inv d' /\
    forall j, has d' j <-> erased index (has d) j.
Proof.
  intros Hinv Hc Hl1 Hr. pose proof Hinv as [Hd _]. pose proof (inv_cut _ _ _ _ Hinv Hc) as Hs.
  unfold do_erase. step_some (cut_deref _ _ _ _ _ Hc).
  replace (r.1 <=? index) with true by lia.
  pose proof (fun j => around index _ _ _ _ j Hs Hl1) as Haround.
  apply sep_app in Hs as (Hs1 & Hs2 & Hs3 & Hs4).
  destruct (Z.eqb_spec (r.1 + 1) r.2) as [E|E].
  - destruct (erase_spec _ _ _ _ _ Hd Hc) as (d1 & it1 & He & Hd1 & Hc1). step_some He.
    destruct (shift_from_inv d1 it1 l1 l2 (-1) Hd1 Hc1) as (d' & -> & Hinv' & Hm).
    { apply sep_app. split; [done|]. eapply sep_weaken; [|by apply shift_all_sep]. lia. }
    exists d'. split; [done|]. split; [done|]. intros j. unfold erased.
    rewrite Hm, !(cut_has _ _ _ _ _ Hc), !mem_app, !mem_cons.
    pose proof (Haround j). pose proof (Haround (j + 1)).
    replace (j - -1) with (j + 1) by lia. intuition lia.
  - destruct (adjust_spec _ _ _ _ _ 0 (-1) Hd Hc) as (d1 & Ha & Hr1). step_some Ha.
    pose proof (replaces_cut _ _ _ _ _ _ _ Hc Hr1) as Hc1. destruct Hr1 as (Hd1 & _ & _).
    destruct (cut_next _ _ _ _ _ Hd1 Hc1) as (it2 & Hn & Hc2). step_some Hn.
    destruct (shift_from_inv d1 it2 _ l2 (-1) Hd1 Hc2) as (d' & -> & Hinv' & Hm).
    { rewrite <- app_assoc. apply sep_app. simpl. split; [done|]. split; [lia|].
      split; [lia|]. eapply sep_weaken; [|by apply shift_all_sep]. lia. }
    exists d'. split; [done|]. split; [done|]. intros j. unfold erased.
    rewrite Hm, !(cut_has _ _ _ _ _ Hc), !mem_app, !mem_cons, mem_nil. cbn [fst snd].
    pose proof (Haround j). pose proof (Haround (j + 1)).
    replace (j - -1) with (j + 1) by lia. intuition lia.
Qed.

Lemma do_erase_between d it index l1 r l2 :
  inv d -> cut d it l1 (r :: l2) -> ends_by index l1 -> 0 <= index < r.1 ->
  exists d', do_erase d it index = Some d' /\ inv d' /\
    forall j, has d' j <-> erased index (has d) j.
Proof.
  intros Hinv Hc Hl1 Hr. pose proof Hinv as [Hd _]. pose proof (inv_cut _ _ _ _ Hinv Hc) as Hs.
  unfold do_erase. step_some (cut_deref _ _ _ _ _ Hc).
  replace (r.1 <=? index) with false by lia.
  step_some (test_before_spec _ _ _ _ (fun p => p.2 + 1 =? r.1) Hd Hc).
  pose proof (fun j => around index _ _ _ _ j Hs Hl1) as Haround.
  apply sep_app in Hs as (Hs1 & Hs2 & Hs3 & Hs4).
  assert (Hno : last_end (-1) l1 < r.1 - 1 ->
    exists d', shift_from d it (-1) = Some d' /\ inv d' /\
      forall j, has d' j <-> erased index (has d) j).
  { intros Hgap. destruct (shift_from_inv d it l1 (r :: l2) (-1) Hd Hc) as (d' & -> & Hinv' & Hm).
    { apply sep_app. split; [done|]. simpl. split; [lia|]. split; [lia|]. by apply shift_all_sep. }
    exists d'. split; [done|]. split; [done|]. intros j. unfold erased.
    rewrite Hm, !(cut_has _ _ _ _ _ Hc), !mem_app, !mem_cons.
    pose proof (Haround j). pose proof (Haround (j + 1)).
    replace (j - -1) with (j + 1) by lia. intuition lia. }
  destruct (list_snoc_inv l1) as [->|(l & p & ->)].
  { apply Hno. unfold last_end. simpl. lia. }
  rewrite last_snoc. rewrite last_end_snoc in *.
  destruct (Z.eqb_spec (p.2 + 1) r.1) as [E|E]; [|apply Hno; lia]. clear Hno.
  apply ends_by_app in Hl1 as [_ [? _]%ends_by_cons].
  destruct (cut_prev _ _ _ _ _ Hd Hc) as (prev & Hpv & Hcp). step_some Hpv.
  destruct (adjust_spec _ _ _ _ _ 0 (r.2 - r.1) Hd Hcp) as (d1 & Ha & Hr1). step_some Ha.
  pose proof (replaces_cut_next _ _ _ _ _ _ _ Hc Hr1) as Hc1. destruct Hr1 as (Hd1 & _ & _).
  destruct (erase_spec _ _ _ _ _ Hd1 Hc1) as (d2 & it2 & He & Hd2 & Hc2). step_some He.
  apply sep_app in Hs1 as (Hs1 & Hp1 & Hp2 & _).
  destruct (shift_from_inv d2 it2 _ l2 (-1) Hd2 Hc2) as (d' & -> & Hinv' & Hm).
  { rewrite <- app_assoc. apply sep_app. simpl. split; [done|]. split; [lia|].
    split; [lia|]. eapply sep_weaken; [|by apply shift_all_sep]. lia. }
  exists d'. split; [done|]. split; [done|]. intros j. unfold erased.
  rewrite Hm, !(cut_has _ _ _ _ _ Hc), !mem_app, !mem_cons, !mem_nil. cbn [fst snd].
  pose proof (Haround j) as A1. pose proof (Haround (j + 1)) as A2.
  rewrite mem_app, mem_cons, mem_nil in A1. rewrite mem_app, mem_cons, mem_nil in A2.
  replace (j - -1) with (j + 1) by lia.
  pose proof (mem_upper _ _ j Hs1). pose proof (mem_upper _ _ (j + 1) Hs1). intuition lia.
Qed.

Lemma do_erase_spec d it index l1 r l2 :
  inv d -> cut d it l1 (r :: l2) -> splits_at index l1 (r :: l2) -> 0 <= index ->
  exists d', do_erase d it index = Some d' /\ inv d' /\
    forall j, has d' j <-> erased index (has d) j.
Proof.
  intros Hinv Hc [H1 [H2 _]%Forall_cons] Hi. destruct (decide (r.1 <= index)).
  - eapply do_erase_member; [done..|lia].
  - eapply do_erase_between; [done..|lia].
Qed.

Lemma erased_none index d l1 :
  ranges d = l1 -> ends_by index l1 -> forall j, has d j <-> erased index (has d) j.
Proof.
  intros <- He j. unfold erased, has.
  pose proof (ends_by_not_mem _ _ j He). pose proof (ends_by_not_mem _ _ (j + 1) He).
  destruct (decide (j < index)); intuition lia.
Qed.

Lemma erase_at_correct d index :
  inv d -> 0 <= index ->
  exists d', erase_at d index = Some d' /\ inv d' /\
    forall j, has d' j <-> erased index (has d) j.
Proof.
  intros Hinv Hi. unfold erase_at.
  destruct (find_begin_spec d index Hinv) as (it & m1 & m2 & Hf & Hc & Hsp). step_some Hf.
  rewrite (cut_is_end _ _ _ _ Hc). destruct m2 as [|r m2]; [|by eapply do_erase_spec].
  exists d. split; [done|]. split; [done|]. pose proof (cut_ranges _ _ _ _ Hc) as Hr.
  rewrite app_nil_r in Hr. apply (erased_none _ _ _ Hr). by destruct Hsp.
Qed.

Lemma erase_or_unshift_correct d index :
  inv d -> 0 <= index ->
  exists d', erase_or_unshift d index =
      Some (d', if bool_decide (has d index) then npos else index - count_below index (ranges d))
    /\ inv d' /\ forall j, has d' j <-> erased index (has d) j.
Proof.
  intros Hinv Hi. unfold erase_or_unshift, unshift_chunks, unshift_ranges.
  destruct (for_chunks_begin (fun _ => true) (fun c _ => ch_end c <=? index) (fun c a => a - ch_count c) d index (fun _ => eq_refl) Hinv)
    as (p1 & p2 & it & i1 & Hdd & Hl & Hc & Hp1 & Hsp1 & Hst & _). step_some Hl.
  destruct (for_ranges_spec (fun r _ => r.2 <=? index) (fun (r : range) a => a - (r.2 - r.1))
    _ _ _ _ i1 (proj1 Hinv) Hc) as (m1 & m2 & it2 & i2 & Hm & Hl2 & Hc2 & Hst2 & Hstop).
  step_some Hl2. pose proof (inv_cut _ _ _ _ Hinv Hc2) as Hs.
  assert (Hsp : splits_at index (ranges p1 ++ m1) m2).
  { eapply splits_scan; [done|by rewrite app_assoc| | |by destruct m2].
    - exact (steps_all_true _ _ _ _ _ Hst).
    - exact (steps_all_true _ _ _ _ _ Hst2). }
  apply steps_total_chunks in Hst as ->; [|done]. apply steps_total_ranges in Hst2 as ->.
  assert (Hcount : ~ has d index ->
    index - total (ranges p1) - total m1 = index - count_below index (ranges d)).
  { intros Hn. rewrite (cut_has _ _ _ _ _ Hc2) in Hn. rewrite (cut_ranges _ _ _ _ Hc2).
    rewrite (splits_count _ _ _ _ Hs Hsp Hn) by lia. rewrite total_app. lia. }
  rewrite (cut_is_end _ _ _ _ Hc2). destruct m2 as [|r m2].
  - exists d. pose proof (cut_ranges _ _ _ _ Hc2) as Hr. rewrite app_nil_r in Hr.
    assert (Hn : ~ has d index).
    { unfold has. rewrite Hr. intros Hx%(ends_by_not_mem index); [lia|by destruct Hsp]. }
    rewrite bool_decide_eq_false_2 by done. rewrite Hcount by done. split; [done|].
    split; [done|]. apply (erased_none _ _ _ Hr). by destruct Hsp.
  - step_some (cut_deref _ _ _ _ _ Hc2).
    destruct (do_erase_spec _ _ _ _ _ _ Hinv Hc2 Hsp Hi) as (d' & He & Hinv' & Hmem).
    step_some He. exists d'. split; [|done]. do 2 f_equal.
    assert (Hiff : has d index <-> r.1 <= index).
    { rewrite (cut_has _ _ _ _ _ Hc2), mem_app, mem_cons.
      destruct Hsp as [Hl1 [? _]%Forall_cons].
      pose proof (around index _ _ _ _ index Hs Hl1). intuition lia. }
    destruct (Z.leb_spec r.1 index).
    + rewrite bool_decide_eq_true_2; [done|]. by apply Hiff.
    + assert (~ has d index) by (rewrite Hiff; lia).
      rewrite bool_decide_eq_false_2 by done. by apply Hcount.
Qed.
End shifting.

(** ** Insertion *)
Section inserting.
Context {CS : ChunkSize}.
Implicit Types (d : crv) (it : iterator).

(** Moving the indices from [index] on back by [count]. *)
Definition moved_back (index count : Z) (P : Z -> Prop) (j : Z) : Prop :=
  (j < index /\ P j) \/ (index + count <= j /\ P (j - count)).

Lemma shift_for_insert_at_correct d index count :
  inv d -> 0 <= index -> 0 < count ->
  exists d', shift_for_insert_at d index count = Some d' /\ inv d' /\
    forall j, has d' j <-> moved_back index count (has d) j.
Proof.
  intros Hinv Hi Hpos. unfold shift_for_insert_at. replace (0 <? count) with true by lia. simpl.
  destruct (find_begin_spec d index Hinv) as (it & m1 & m2 & Hf & Hc & Hsp). step_some Hf.
  rewrite (cut_is_end _ _ _ _ Hc). destruct m2 as [|r m2].
  { exists d. split; [done|]. split; [done|]. intros j. unfold moved_back.
    rewrite !(cut_has _ _ _ _ _ Hc), app_nil_r. destruct Hsp as [He _].
    pose proof (ends_by_not_mem _ _ j He). pose proof (ends_by_not_mem _ _ (j - count) He).
    destruct (decide (j < index)); intuition lia. }
  destruct Hsp as [Hm1 [Hr2 _]%Forall_cons].
  pose proof (inv_cut _ _ _ _ Hinv Hc) as Hs.
  pose proof (fun j => around index _ _ _ _ j Hs Hm1) as Haround.
  apply sep_app in Hs as (Hs1 & Hs2 & Hs3 & Hs4).
  destruct (shift_from_spec _ _ _ _ count (proj1 Hinv) Hc) as (d1 & Hsh & Hd1 & Hshape & Hr).
  step_some Hsh. simpl in Hr.
  assert (Hc1 : cut d1 it m1 (shift_range count r :: shift_all count m2)) by (by eapply cut_shape).
  step_some (cut_deref _ _ _ _ _ Hc1). cbn [shift_range fst snd].
  assert (Hs4' : sep (r.2 + count) (shift_all count m2)) by by apply shift_all_sep.
  destruct (Z.ltb_spec (r.1 + count) (index + count)) as [Hlt|Hge].
  - destruct (set_it_spec _ _ _ _ _ (r.1 + count - count) index Hd1 Hc1) as (d2 & Ha & Hr2').
    step_some Ha. pose proof (replaces_cut _ _ _ _ _ _ _ Hc1 Hr2') as Hc2.
    destruct Hr2' as (Hd2 & _ & _). replace (r.1 + count - count) with r.1 in * by lia.
    destruct (cut_next _ _ _ _ _ Hd2 Hc2) as (it3 & Hn & Hc3). step_some Hn.
    assert (Hs3' : ranges_ok ((m1 ++ [(r.1, index)]) ++
      (index + count, r.2 + count) :: shift_all count m2)).
    { rewrite <- app_assoc. apply sep_app. simpl. intuition lia. }
    destruct (insert_spec d2 it3 _ _ _ _ Hd2 Hc3 Hs3') as (d3 & it4 & Hins & Hd3 & Hc4).
    step_some Hins. exists d3. split; [done|]. split; [by eapply cut_inv|].
    intros j. unfold moved_back. rewrite (cut_has _ _ _ _ _ Hc4), !(cut_has _ _ _ _ _ Hc).
    rewrite !mem_app, !mem_cons, mem_nil, shift_all_mem. cbn [fst snd].
    pose proof (Haround j). pose proof (Haround (j - count)). intuition lia.
  - exists d1. split; [done|]. split.
    { eapply cut_inv; [done|done|]. apply sep_app. simpl. intuition lia. }
    intros j. unfold moved_back. rewrite (cut_has _ _ _ _ _ Hc1), !(cut_has _ _ _ _ _ Hc).
    rewrite !mem_app, !mem_cons, shift_all_mem. cbn [shift_range fst snd].
    pose proof (Haround j). pose proof (Haround (j - count)). intuition lia.
Qed.

Lemma add_run_spec d pos index l1 l2 n :
  inv d -> cut d pos l1 l2 -> splits_at index l1 l2 -> 0 <= index ->
  (forall j, index <= j <= index + Z.of_nat n -> ~ has d j) ->
  exists d', add_run d pos index n = Some d' /\ inv d' /\
    forall j, has d' j <-> index <= j < index + Z.of_nat n \/ has d j.
Proof.
  revert d pos index l1 l2. induction n as [|n IH]; intros d pos index l1 l2 Hinv Hc Hsp Hi Hfree.
  - exists d. split; [done|]. split; [done|]. intros j. intuition lia.
  - cbn [add_run]. destruct (do_add_spec d pos index l1 l2 Hinv Hc Hi Hsp) as (d1 & it1 & Ha & Hadd).
    step_some Ha. pose proof (added_inv _ _ _ _ Hadd) as [Hinv1 Hm1].
    destruct Hadd as (k1 & r & k2 & Hd1 & Hc1 & Hs1 & Hr & _).
    assert (Hm1' : forall j, has d1 j <-> j = index \/ has d j).
    { intros j. by rewrite Hm1, (cut_has _ _ _ _ _ Hc). }
    destruct (cut_next _ _ _ _ _ Hd1 Hc1) as (it2 & Hn & Hc2). step_some Hn.
    assert (Hr2 : r.2 = index + 1).
    { destruct (decide (r.2 = index + 1)); [done|]. exfalso.
      assert (Hin : has d1 (index + 1)).
      { rewrite (cut_has _ _ _ _ _ Hc1), mem_app, mem_cons. lia. }
      apply Hm1' in Hin as [?|Hin]; [lia|]. revert Hin. apply Hfree. lia. }
    destruct (IH d1 it2 (index + 1) _ _ Hinv1 Hc2) as (d' & -> & Hinv' & Hm').
    + apply sep_app in Hs1 as (Hk1 & ? & ? & Hk2). split.
      * apply ends_by_app. split; [|apply ends_by_cons; split; [lia|apply ends_by_nil]].
        apply (ends_by_weaken r.1); [lia|].
        eapply ends_by_weaken; [|by eapply last_end_ends]. lia.
      * eapply Forall_impl; [by eapply sep_all_after|]. simpl. intros; lia.
    + lia.
    + intros j Hj [?|Hin]%Hm1'; [lia|]. revert Hin. apply Hfree. lia.
    + exists d'. split; [done|]. split; [done|]. intros j. rewrite Hm', Hm1'. intuition lia.
Qed.

Lemma moved_back_id index count d m1 :
  0 < count -> ranges d = m1 -> ends_by index m1 ->
  forall j, has d j <-> moved_back index count (has d) j.
Proof.
  intros Hpos <- He j. unfold moved_back, has.
  pose proof (ends_by_not_mem _ _ j He). pose proof (ends_by_not_mem _ _ (j - count) He).
  destruct (decide (j < index)); intuition lia.
Qed.

(** The new run goes in front of the range that was shifted. *)
Lemma insert_run d pos index count P m1 m2 :
  inv d -> cut d pos m1 m2 -> splits_at index m1 m2 -> 0 <= index -> 0 < count ->
  (forall j, has d j <-> moved_back index count P j) -> ~ P index ->
  exists d', add_run d pos index (Z.to_nat count) = Some d' /\ inv d' /\
    forall j, has d' j <-> index <= j < index + count \/ moved_back index count P j.
Proof.
  intros Hinv Hc Hsp Hi Hpos Hm Hn.
  destruct (add_run_spec d pos index m1 m2 (Z.to_nat count) Hinv Hc Hsp Hi)
    as (d' & -> & Hinv' & Hm').
  - intros j Hj Hin%Hm. unfold moved_back in Hin.
    destruct (decide (j = index + count)) as [->|]; [|intuition lia].
    replace (index + count - count) with index in Hin by lia. intuition lia.
  - exists d'. split; [done|]. split; [done|]. intros j. rewrite Hm', Hm. intuition lia.
Qed.

Lemma insert_at_correct d index count :
  inv d -> 0 <= index -> 0 < count ->
  exists d', insert_at d index count = Some d' /\ inv d' /\
    forall j, has d' j <-> index <= j < index + count \/ moved_back index count (has d) j.
Proof.
  intros Hinv Hi Hpos. unfold insert_at. replace (0 <? count) with true by lia. simpl.
  destruct (find_begin_spec d index Hinv) as (it & m1 & m2 & Hf & Hc & Hsp). step_some Hf.
  rewrite (cut_is_end _ _ _ _ Hc). pose proof Hsp as [Hm1 Hm2]. destruct m2 as [|r m2].
  { pose proof (cut_ranges _ _ _ _ Hc) as Hr. rewrite app_nil_r in Hr.
    apply (insert_run d it index count (has d) m1 []); [done..|by eapply moved_back_id|].
    intros Hin. unfold has in Hin. rewrite Hr in Hin.
    apply (ends_by_not_mem index) in Hin; [lia|done]. }
  pose proof (inv_cut _ _ _ _ Hinv Hc) as Hs. apply Forall_cons in Hm2 as [Hr2 _].
  pose proof (fun j => around index _ _ _ _ j Hs Hm1) as Haround.
  apply sep_app in Hs as (Hs1 & Hs2 & Hs3 & Hs4).
  assert (Hs4' : sep (r.2 + count) (shift_all count m2)) by by apply shift_all_sep.
  step_some (cut_deref _ _ _ _ _ Hc). destruct (Z.leb_spec r.1 index) as [Hle|Hgt].
  - destruct (adjust_spec _ _ _ _ _ 0 count (proj1 Hinv) Hc) as (d1 & Ha & Hr1). step_some Ha.
    pose proof (replaces_cut _ _ _ _ _ _ _ Hc Hr1) as Hc1. destruct Hr1 as (Hd1 & _ & _).
    destruct (cut_next _ _ _ _ _ Hd1 Hc1) as (it2 & Hn & Hc2). step_some Hn.
    destruct (shift_from_inv d1 it2 _ m2 count Hd1 Hc2) as (d' & Hsh & Hinv' & Hm).
    { rewrite <- app_assoc. apply sep_app. simpl. intuition lia. }
    step_some Hsh. exists d'. split; [done|]. split; [done|]. intros j. unfold moved_back.
    rewrite Hm, !(cut_has _ _ _ _ _ Hc), !mem_app, !mem_cons, mem_nil. cbn [fst snd].
    pose proof (Haround j). pose proof (Haround (j - count)). intuition lia.
  - destruct (shift_it_spec _ _ _ _ _ count (proj1 Hinv) Hc) as (d1 & Ha & Hr1). step_some Ha.
    pose proof (replaces_cut _ _ _ _ _ _ _ Hc Hr1) as Hc1. destruct Hr1 as (Hd1 & _ & _).
    destruct (cut_next _ _ _ _ _ Hd1 Hc1) as (it2 & Hn & Hc2). step_some Hn.
    destruct (shift_from_spec d1 it2 _ m2 count Hd1 Hc2) as (d2 & Hsh & Hd2 & Hshape & Hr).
    step_some Hsh. rewrite <- app_assoc in Hr. simpl in Hr.
    assert (Hc3 : cut d2 it m1 (shift_range count r :: shift_all count m2))
      by (eapply cut_shape; [exact Hc1|done|done|done]).
    assert (Hinv2 : inv d2).
    { split; [done|]. rewrite Hr. apply sep_app. simpl. intuition lia. }
    apply (insert_run d2 it index count (has d) _ _ Hinv2 Hc3); [|done|done| |].
    + split; [done|]. simpl. constructor; [simpl; lia|].
      eapply Forall_impl; [by eapply sep_all_after|]. simpl. intros; lia.
    + intros j. unfold moved_back.
      rewrite (cut_has _ _ _ _ _ Hc3), !(cut_has _ _ _ _ _ Hc), !mem_app, !mem_cons, shift_all_mem.
      cbn [shift_range fst snd].
      pose proof (Haround j). pose proof (Haround (j - count)). intuition lia.
    + rewrite (cut_has _ _ _ _ _ Hc), mem_app, mem_cons. pose proof (Haround index). intuition lia.
Qed.
End inserting.

(** ** Removal without shifting *)
Section removing.
Context {CS : ChunkSize}.
Implicit Types (d : crv) (it : iterator).

(** [find] from a hint, when the split it will find is known. *)
Lemma find_at d it index l1 m1 m2 :
  inv d -> cut d it l1 (m1 ++ m2) -> splits_at index (l1 ++ m1) m2 ->
  exists it', find d index it = Some it' /\ cut d it' (l1 ++ m1) m2.
Proof.
  intros Hinv Hc Hsp. pose proof Hsp as [[Hl1 _]%ends_by_app _].
  destruct (find_spec d it index l1 _ Hinv Hc Hl1) as (it' & k1 & k2 & Hf & Hc' & He & Hsp').
  exists it'. split; [done|].
  destruct (splits_unique index (l1 ++ m1) m2 (l1 ++ k1) k2) as [-> ->]; [|done..].
  by rewrite <- !app_assoc, He.
Qed.

(** One turn of [do_remove] on the range [r]. *)
Definition trimmed (r : range) (b e : Z) : list range * list range :=
  ((if r.1 <? b then [(r.1, b)] else []), (if e <? r.2 then [(e, r.2)] else [])).

Lemma trim_spec d it l1 r l2 b e :
  inv d -> cut d it l1 (r :: l2) -> r.1 <= b < r.2 -> b < e ->
  exists d' it' it'',
    trim_range d it r b e = Some (d', it') /\
    find d' b it' = Some it'' /\ inv d' /\
    cut d' it'' (l1 ++ (trimmed r b e).1) ((trimmed r b e).2 ++ l2).
Proof.
  intros Hinv Hc Hb He. unfold trim_range. pose proof Hinv as [Hd _]. pose proof (inv_cut _ _ _ _ Hinv Hc) as Hs.
  apply sep_app in Hs as (Hs1 & Hs2 & Hs3 & Hs4).
  assert (Hsp : forall m1 m2, splits_at b m1 m2 -> splits_at b (l1 ++ m1) (m2 ++ l2)).
  { intros m1 m2 [H1 H2]. split.
    - apply ends_by_app. split; [|done]. apply (ends_by_weaken r.1); [lia|].
      eapply ends_by_weaken; [|by eapply last_end_ends]. lia.
    - apply Forall_app. split; [done|].
      eapply Forall_impl; [by eapply sep_all_after|]. simpl. intros; lia. }
  unfold trimmed. destruct (Z.ltb_spec r.1 b) as [Hlt|Hge], (Z.ltb_spec e r.2) as [Hlt'|Hge'];
    cbn [andb fst snd].
  - destruct (set_it_spec _ _ _ _ _ r.1 b Hd Hc) as (d1 & Ha & Hr1). step_some Ha.
    pose proof (replaces_cut _ _ _ _ _ _ _ Hc Hr1) as Hc1. destruct Hr1 as (Hd1 & _ & _).
    destruct (cut_next _ _ _ _ _ Hd1 Hc1) as (it2 & Hn & Hc2). step_some Hn.
    assert (Hs' : ranges_ok ((l1 ++ [(r.1, b)]) ++ (e, r.2) :: l2)).
    { rewrite <- app_assoc. apply sep_app. simpl. intuition lia. }
    destruct (insert_spec d1 it2 _ _ _ _ Hd1 Hc2 Hs') as (d2 & it3 & Hi & Hd2 & Hc3). step_some Hi.
    destruct (cut_prev _ _ _ _ _ Hd2 Hc3) as (it4 & Hp & Hc4). step_some Hp.
    pose proof (cut_inv _ _ _ _ Hd2 Hc3 Hs') as Hinv2.
    destruct (find_at d2 it4 b l1 [(r.1, b)] ((e, r.2) :: l2) Hinv2 Hc4) as (it5 & Hf & Hc5).
    { apply (Hsp [(r.1, b)] [(e, r.2)]). split; repeat (apply Forall_cons; split); try apply Forall_nil_2; simpl; lia. }
    by exists d2, it4, it5.
  - replace (b =? r.1) with false by lia. cbn [andb].
    destruct (set_it_spec _ _ _ _ _ r.1 b Hd Hc) as (d1 & Ha & Hr1). step_some Ha.
    pose proof (replaces_cut _ _ _ _ _ _ _ Hc Hr1) as Hc1. destruct Hr1 as (Hd1 & _ & _).
    assert (Hinv1 : inv d1).
    { eapply cut_inv; [done|done|]. apply sep_app. simpl. split; [done|]. split; [lia|].
      split; [lia|]. eapply sep_weaken; [|done]. lia. }
    destruct (find_at d1 it b l1 [(r.1, b)] l2 Hinv1 Hc1) as (it5 & Hf & Hc5).
    { apply (Hsp [(r.1, b)] []). split; repeat (apply Forall_cons; split); try apply Forall_nil_2; simpl; lia. }
    by exists d1, it, it5.
  - replace (b =? r.1) with true by lia. replace (r.2 <=? e) with false by lia. cbn [andb].
    destruct (set_it_spec _ _ _ _ _ e r.2 Hd Hc) as (d1 & Ha & Hr1). step_some Ha.
    pose proof (replaces_cut _ _ _ _ _ _ _ Hc Hr1) as Hc1. destruct Hr1 as (Hd1 & _ & _).
    assert (Hinv1 : inv d1).
    { eapply cut_inv; [done|done|]. apply sep_app. simpl. intuition lia. }
    destruct (find_at d1 it b l1 [] ((e, r.2) :: l2) Hinv1 Hc1) as (it5 & Hf & Hc5).
    { apply (Hsp [] [(e, r.2)]). split; repeat (apply Forall_cons; split); try apply Forall_nil_2; simpl; lia. }
    by exists d1, it, it5.
  - replace (b =? r.1) with true by lia. replace (r.2 <=? e) with true by lia. cbn [andb].
    destruct (erase_spec _ _ _ _ _ Hd Hc) as (d1 & it1 & Ha & Hd1 & Hc1).
    assert (Hinv1 : inv d1).
    { eapply cut_inv; [done|done|]. apply sep_app. simpl. split; [done|].
      eapply sep_weaken; [|done]. lia. }
    destruct (find_at d1 it1 b l1 [] l2 Hinv1 Hc1) as (it5 & Hf & Hc5).
    { apply (Hsp [] []). split; apply Forall_nil_2. }
    by exists d1, it1, it5.
Qed.
End removing.

Section remove_correct.
Context {CS : ChunkSize}.
Implicit Types (d : crv) (it : iterator).

Lemma trimmed_mem r b e j :
  r.1 <= b < r.2 -> b < e ->
  mem ((trimmed r b e).1 ++ (trimmed r b e).2) j <-> r.1 <= j < r.2 /\ ~ (b <= j < e).
Proof.
  intros. unfold trimmed.
  destruct (Z.ltb_spec r.1 b), (Z.ltb_spec e r.2); simpl; intuition lia.
Qed.

(** The indices of [d] outside [[b, e)]. *)
Definition without (b e : Z) (P : Z -> Prop) (j : Z) : Prop := P j /\ ~ (b <= j < e).

Lemma do_remove_loop d it l1 l2 b e fuel :
  inv d -> cut d it l1 l2 -> splits_at b l1 l2 -> b < e ->
  (length (filter (fun r : range => (r.1 < e)%Z) l2) < fuel)%nat ->
  exists d' it' m1 m2,
    loop (do_remove_step e) fuel (d, it, b) = Some (d', it') /\
    inv d' /\ cut d' it' m1 m2 /\ ends_by e m1 /\
    forall j, has d' j <-> without b e (has d) j.
Proof.
  revert d it l1 l2 b. induction fuel as [|n IH]; intros d it l1 l2 b Hinv Hc Hsp Hbe Hf; [lia|].
  cbn [loop]. unfold do_remove_step at 1. step_some (test_spec _ _ _ _ (fun r => r.1 <? e) Hc).
  pose proof (inv_cut _ _ _ _ Hinv Hc) as Hs. destruct Hsp as [Hl1 Hl2].
  assert (Hstop : match l2 with [] => True | r :: _ => e <= r.1 end ->
    inv d /\ cut d it l1 l2 /\ ends_by e l1 /\ forall j, has d j <-> without b e (has d) j).
  { intros Hst. split; [done|]. split; [done|].
    split; [eapply ends_by_weaken; [|done]; lia|]. intros j. unfold without.
    rewrite (cut_has _ _ _ _ _ Hc), mem_app.
    pose proof (ends_by_not_mem _ _ j Hl1).
    assert (mem l2 j -> e <= j).
    { destruct l2 as [|r l2]; [done|]. rewrite mem_cons.
      pose proof (around b _ _ _ _ j Hs Hl1). apply sep_app in Hs as (_ & ? & ? & _).
      intuition lia. }
    intuition lia. }
  destruct l2 as [|r l2]; [by exists d, it, l1, []; split; [|apply Hstop]|].
  destruct (Z.ltb_spec r.1 e) as [Hre|Hre]; simpl negb; cbv iota;
    [|by exists d, it, l1, (r :: l2); split; [|apply Hstop]].
  clear Hstop. step_some (cut_deref _ _ _ _ _ Hc).
  apply Forall_cons in Hl2 as [Hr2 _].
  pose proof (fun j => around b _ _ _ _ j Hs Hl1) as Haround.
  apply sep_app in Hs as (_ & _ & Hr & Hl2).
  destruct (trim_spec d it l1 r l2 (Z.max r.1 b) e Hinv Hc) as
    (d1 & it1 & it2 & Hb & Hfind & Hinv1 & Hc1); [lia|lia|].
  step_some Hb. step_some Hfind.
  destruct (IH d1 it2 _ _ (Z.max r.1 b) Hinv1 Hc1) as (d' & it' & m1 & m2 & -> & Hinv' & Hc' & He & Hm).
  - split.
    + apply ends_by_app. split; [eapply ends_by_weaken; [|done]; lia|].
      unfold trimmed. destruct (Z.ltb_spec r.1 (Z.max r.1 b)); [|apply ends_by_nil].
      apply ends_by_cons. split; [done|apply ends_by_nil].
    + apply Forall_app. split.
      * unfold trimmed. destruct (Z.ltb_spec e r.2); [|constructor].
        repeat constructor. simpl. lia.
      * eapply Forall_impl; [by eapply sep_all_after|]. simpl. intros; lia.
  - lia.
  - rewrite filter_cons, decide_True in Hf by done. simpl in Hf.
    rewrite filter_app, length_app.
    unfold trimmed. destruct (Z.ltb_spec e r.2); [|simpl; lia].
    simpl. rewrite filter_cons, decide_False by (simpl; lia). rewrite filter_nil. simpl. lia.
  - exists d', it', m1, m2. split; [done|]. split; [done|]. split; [done|]. split; [done|].
    intros j. rewrite Hm. unfold without.
    rewrite (cut_has _ _ _ _ _ Hc1), (cut_has _ _ _ _ _ Hc).
    pose proof (trimmed_mem r (Z.max r.1 b) e j ltac:(lia) ltac:(lia)) as Ht.
    rewrite mem_app in Ht. rewrite !mem_app, mem_cons. pose proof (Haround j).
    intuition lia.
Qed.

Lemma do_remove_spec d it l1 l2 b e :
  inv d -> cut d it l1 l2 -> ends_by b l1 -> b < e ->
  exists d' it' m1 m2, do_remove d it b e = Some (d', it') /\
    inv d' /\ cut d' it' m1 m2 /\ ends_by e m1 /\
    forall j, has d' j <-> without b e (has d) j.
Proof.
  intros Hinv Hc Hl1 Hbe. unfold do_remove.
  destruct (find_spec d it b l1 l2 Hinv Hc Hl1) as (it1 & k1 & k2 & Hf & Hc1 & -> & Hsp).
  step_some Hf. apply (do_remove_loop d it1 _ _ b e _ Hinv Hc1 Hsp Hbe).
  unfold turns. rewrite (cut_ranges _ _ _ _ Hc1), length_app.
  pose proof (length_filter (fun r : range => r.1 < e) k2). lia.
Qed.

Lemma remove_correct d index count :
  inv d -> 0 < count ->
  exists d', remove d index count = Some d' /\ inv d' /\
    forall j, has d' j <-> without index (index + count) (has d) j.
Proof.
  intros Hinv Hpos. unfold remove.
  destruct (find_begin_spec d index Hinv) as (it & m1 & m2 & Hf & Hc & [Hm1 _]). step_some Hf.
  destruct (do_remove_spec d it m1 m2 index (index + count) Hinv Hc Hm1) as
    (d' & it' & k1 & k2 & Hr & Hinv' & _ & _ & Hm); [lia|]. step_some Hr. eauto.
Qed.

Lemma remove_ranges_spec d it l1 l2 lo values :
  inv d -> cut d it l1 l2 -> sep lo values -> ends_by (lo + 1) l1 ->
  exists d', remove_ranges d it values = Some d' /\ inv d' /\
    forall j, has d' j <-> has d j /\ ~ mem values j.
Proof.
  revert d it l1 l2 lo. induction values as [|r values IH]; intros d it l1 l2 lo Hinv Hc Hs Hl1.
  - exists d. split; [done|]. split; [done|]. simpl. tauto.
  - destruct Hs as (? & ? & Hs). cbn [remove_ranges].
    destruct (do_remove_spec d it l1 l2 r.1 r.2 Hinv Hc) as
      (d1 & it1 & k1 & k2 & Hr & Hinv1 & Hc1 & Hk1 & Hm); [|lia|].
    { eapply ends_by_weaken; [|done]. lia. }
    step_some Hr. rewrite (cut_is_end _ _ _ _ Hc1). destruct k2 as [|r' k2].
    + exists d1. split; [done|]. split; [done|]. intros j. rewrite Hm. unfold without.
      rewrite mem_cons. pose proof (mem_lower _ _ j Hs).
      assert (without r.1 r.2 (has d) j -> j < r.2).
      { rewrite <- Hm, (cut_has _ _ _ _ _ Hc1), app_nil_r. by apply ends_by_not_mem. }
      unfold without in *. intuition lia.
    + destruct (IH d1 it1 _ _ r.2 Hinv1 Hc1 Hs) as (d' & -> & Hinv' & Hm').
      { eapply ends_by_weaken; [|done]. lia. }
      exists d'. split; [done|]. split; [done|]. intros j. rewrite Hm', Hm, mem_cons.
      unfold without. tauto.
Qed.

Lemma remove_set_correct d values :
  inv d -> inv values ->
  exists d', remove_set d values = Some d' /\ inv d' /\
    forall j, has d' j <-> has d j /\ ~ has values j.
Proof.
  intros Hinv [_ Hv]. unfold remove_set.
  apply (remove_ranges_spec d _ [] _ (-1) _ Hinv (cut_begin _ (proj1 Hinv)) Hv). apply ends_by_nil.
Qed.
End remove_correct.
