(* ===== verification/IndexSetInterface.v ===== *)
(** * What [IndexSet] promises to its clients

    [CollectionChangeBuilder], the transaction log observers and the notifiers
    only use an index set through its public methods.  [IndexSetOps] lists
    them, [IndexSetLaws] states what they do in terms of the sorted, separated
    ranges the set iterates over, and the chunked implementation of
    [index_set.cpp] is shown to satisfy the laws for every chunk size. *)
From S2P Require Import Prelude.
From S2P Require Import RangeList.
From S2P Require Import ChunkedVector.
From S2P Require Import IndexSets.
From S2P Require Import IndexSetFacts.
From S2P Require Import IndexSetShifts.

(** ** [ChunkedRangeVectorBuilder] and the set-by-set operations of [IndexSet]

    [index_set.cpp] rebuilds the chunk vector when one index set is applied to
    another ([add_shifted_by], [insert_at], [shift_for_insert_at] and
    [erase_at] on an [IndexSet]).  The builder preallocates its chunks from the
    number of ranges it expects, and pushes ranges in order, joining adjacent
    ones.  The indices of a set are walked with [IndexIterator]. *)
(** [IndexSet::IndexIterator] *)
Record IndexIterator := mkIndexIterator { m_iterator : iterator; m_offset : Z }.

(** [m_data] and [m_outer_pos] of [ChunkedRangeVectorBuilder] *)
Record Builder := mkBuilder { b_data : crv; b_outer_pos : nat }.

(** A chunk of [std::vector::resize]. *)
Definition empty_chunk : Chunk := mkChunk [] 0 0 0.

Module IndexSetBuild.
Section builder.
Context {CS : ChunkSize}.
Implicit Types (d : crv) (b : Builder).

(** [IndexIterator::IndexIterator], [operator*], [operator++] *)
Definition index_begin d : IndexIterator := mkIndexIterator (begin_it d) 0.
Definition index_deref d (i : IndexIterator) : option Z :=
  r ← deref d (m_iterator i); Some (r.1 + m_offset i).
Definition index_next d (i : IndexIterator) : option IndexIterator :=
  r ← deref d (m_iterator i);
  if r.1 + (m_offset i + 1) =? r.2 then
    it ← next_it d (m_iterator i); Some (mkIndexIterator it 0)
  else Some (mkIndexIterator (m_iterator i) (m_offset i + 1)).

(** [for (auto index : as_indexes()) acc = f(acc, index)] *)
Definition index_loop {A} d (f : A -> Z -> A) (i : IndexIterator) (acc : A) (fuel : nat) : option A :=
  loop (fun '(i, acc) =>
    if it_eqb (m_iterator i) (end_it d) then Some (inr acc)
    else
      v ← index_deref d i;
      i ← index_next d i;
      Some (inl (i, f acc v))) fuel (i, acc).

(** [ChunkedRangeVectorBuilder::ChunkedRangeVectorBuilder(expected)] *)
Definition builder expected : Builder :=
  let size := foldr (fun c n => (length (ch_data c) + n)%nat) O expected in
  mkBuilder (replicate (Nat.div size max_size + 1) empty_chunk) 0.

(** [ChunkedRangeVectorBuilder::push_back(std::pair<size_t, size_t>)] *)
Definition push_range b (r : range) : option Builder :=
  c ← b_data b !! b_outer_pos b;
  match last (ch_data c) with
  | None =>
    Some (mkBuilder (<[b_outer_pos b := mkChunk [r] r.1 (ch_end c) (r.2 - r.1)]> (b_data b))
            (b_outer_pos b))
  | Some k =>
    if r.1 =? k.2 then
      Some (mkBuilder (<[b_outer_pos b := mkChunk
        (<[(length (ch_data c) - 1)%nat := (k.1, r.2)]> (ch_data c))
        (ch_begin c) (ch_end c) (ch_count c + (r.2 - r.1))]> (b_data b)) (b_outer_pos b))
    else if (length (ch_data c) <? max_size)%nat then
      Some (mkBuilder (<[b_outer_pos b := mkChunk (ch_data c ++ [r])
        (ch_begin c) (ch_end c) (ch_count c + (r.2 - r.1))]> (b_data b)) (b_outer_pos b))
    else
      let data := <[b_outer_pos b := mkChunk (ch_data c) (ch_begin c) k.2 (ch_count c)]> (b_data b) in
      let pos := S (b_outer_pos b) in
      if (length data <=? pos)%nat then Some (mkBuilder (data ++ [mkChunk [r] r.1 0 1]) pos)
      else
        n ← data !! pos;
        Some (mkBuilder (<[pos := mkChunk (ch_data n ++ [r]) r.1 (ch_end n) (r.2 - r.1)]> data) pos)
  end.

(** [ChunkedRangeVectorBuilder::push_back(size_t)] *)
Definition push b (index : Z) : option Builder := push_range b (index, index + 1).

Fixpoint push_all b (es : list Z) : option Builder :=
  match es with
  | [] => Some b
  | e :: es => b ← push b e; push_all b es
  end.

(** [std::copy(.., .., std::back_inserter(builder))] *)
Fixpoint copy_ranges b (l : list range) : option Builder :=
  match l with
  | [] => Some b
  | r :: l => b ← push_range b r; copy_ranges b l
  end.

(** [ChunkedRangeVectorBuilder::finalize] *)
Definition finalize b : option crv :=
  if empty (b_data b) then Some []
  else
    let data := take (S (b_outer_pos b)) (b_data b) in
    c ← last data;
    match last (ch_data c) with
    | None => Some (take (length data - 1) data)
    | Some k => Some (<[(length data - 1)%nat :=
                       mkChunk (ch_data c) (ch_begin c) k.2 (ch_count c)]> data)
    end.

(** The three merging loops keep the indices that are left of both sets, the
    shift so far and the builder. *)
Definition merge_state : Type := list Z * list Z * Z * Builder.

(** [IndexSet::insert_at(IndexSet const&)] *)
Definition insert_at_step (s : merge_state) : option (merge_state + merge_state) :=
  let '(es1, es2, shift, b) := s in
  match es1, es2 with
  | e1 :: t1, e2 :: t2 =>
    if e1 + shift <? e2 then b ← push b (e1 + shift); Some (inl (t1, es2, shift, b))
    else b ← push b e2; Some (inl (es1, t2, shift + 1, b))
  | _, _ => Some (inr s)
  end.

Definition merge_turns (es1 es2 : list Z) : nat := S (length es1 + length es2).

Definition insert_at_set d (positions : crv) : option crv :=
  if empty positions then Some d
  else if empty d then Some positions
  else
    let es1 := elems (ranges d) in
    let es2 := elems (ranges positions) in
    '(es1, es2, shift, b) ← loop insert_at_step (merge_turns es1 es2) (es1, es2, 0, builder d);
    b ← push_all b ((fun e => e + shift) <$> es1);
    b ← push_all b es2;
    finalize b.

(** [IndexSet::shift_for_insert_at(IndexSet const&)] *)
Definition shift_for_insert_step (s : merge_state) : option (merge_state + merge_state) :=
  let '(es1, es2, shift, b) := s in
  match es1, es2 with
  | e1 :: t1, e2 :: t2 =>
    if e1 + shift <? e2 then b ← push b (e1 + shift); Some (inl (t1, es2, shift, b))
    else Some (inl (es1, t2, shift + 1, b))
  | _, _ => Some (inr s)
  end.

Definition shift_for_insert_at_set d (values : crv) : option crv :=
  if empty d || empty values then Some d
  else
    front ← head values;
    back ← last d;
    if ch_end back <=? ch_begin front then Some d
    else
      let es1 := elems (ranges d) in
      let es2 := elems (ranges values) in
      '(es1, _, shift, b) ←
        loop shift_for_insert_step (merge_turns es1 es2) (es1, es2, 0, builder d);
      b ← push_all b ((fun e => e + shift) <$> es1);
      finalize b.

(** [IndexSet::erase_at(IndexSet const&)] *)
Definition erase_at_step (s : merge_state) : option (merge_state + merge_state) :=
  let '(es1, es2, shift, b) := s in
  match es1, es2 with
  | e1 :: t1, e2 :: t2 =>
    if e1 <? e2 then b ← push b (e1 - shift); Some (inl (t1, es2, shift, b))
    else if e1 =? e2 then Some (inl (t1, t2, shift + 1, b))
    else Some (inl (es1, t2, shift + 1, b))
  | _, _ => Some (inr s)
  end.

Definition erase_at_set d (positions : crv) : option crv :=
  if empty d || empty positions then Some d
  else
    let es1 := elems (ranges d) in
    let es2 := elems (ranges positions) in
    '(es1, _, shift, b) ← loop erase_at_step (merge_turns es1 es2) (es1, es2, 0, builder d);
    b ← push_all b ((fun e => e - shift) <$> es1);
    finalize b.

(** [IndexSet::add_shifted_by]: the ranges of [shifted_by] up to [index] *)
Fixpoint skip_shifted (l : list range) (index new_shift skip_until : Z) : list range * Z * Z :=
  match l with
  | r :: l' =>
    if r.1 <=? index then skip_shifted l' index (new_shift + (r.2 - r.1)) r.2
    else (l, new_shift, skip_until)
  | [] => ([], new_shift, skip_until)
  end.

(** [IndexSet::add_shifted_by]: the old ranges up to the target, [index -
    new_shift] plus the old indices before it *)
Fixpoint copy_old (l : list range) (target old_shift : Z) b : option (list range * Z * Builder) :=
  match l with
  | r :: l' =>
    if r.1 <=? target + old_shift then
      b ← push_all b (range_elems r);
      copy_old l' target (old_shift + (r.2 - r.1)) b
    else Some (l, old_shift, b)
  | [] => Some ([], old_shift, b)
  end.

(** The loop over [values.as_indexes()] *)
Fixpoint add_shifted_loop (es : list Z) (old : list range) (shifted : list range)
    (skip_until old_shift new_shift : Z) b : option (list range * Builder) :=
  match es with
  | [] => Some (old, b)
  | index :: es =>
    let '(shifted, new_shift, skip_until) := skip_shifted shifted index new_shift skip_until in
    if index <? skip_until then add_shifted_loop es old shifted skip_until old_shift new_shift b
    else
      '(old, old_shift, b) ← copy_old old (index - new_shift) old_shift b;
      if negb (new_shift <=? index) then None
      else
        b ← push b (index - new_shift + old_shift);
        add_shifted_loop es old shifted skip_until old_shift new_shift b
  end.

Definition add_shifted_by d (shifted_by values : crv) : option crv :=
  if empty values then Some d
  else
    '(old, b) ← add_shifted_loop (elems (ranges values)) (ranges d) (ranges shifted_by) 0 0 0 (builder d);
    b ← copy_ranges b old;
    finalize b.
End builder.
End IndexSetBuild.
Import IndexSetBuild.

Section builder_facts.
Context {CS : ChunkSize}.
Implicit Types (d : crv) (b : Builder).

(** A finished chunk; its count is exact where [ex] holds. *)
Definition chunk_fits (ex : Prop) (c : Chunk) : Prop :=
  ch_data c <> [] /\ (length (ch_data c) <= max_size)%nat /\
  ch_begin c = first_of (ch_data c) /\ ch_end c = last_end 0 (ch_data c) /\
  (ex -> ch_count c = total (ch_data c)).

(** The ranges pushed into [b] so far are [l]: full chunks, the one being
    filled, and the preallocated ones. *)
Definition builds (ex : Prop) b (l : list range) : Prop :=
  exists pre c post, b_data b = pre ++ c :: post /\ b_outer_pos b = length pre /\
    l = ranges pre ++ ch_data c /\ Forall (chunk_fits ex) pre /\
    (ch_data c = [] -> pre = []) /\ (length (ch_data c) <= max_size)%nat /\
    (ch_data c <> [] -> ch_begin c = first_of (ch_data c)) /\
    (ex -> ch_data c <> [] -> ch_count c = total (ch_data c)) /\
    Forall (fun c => ch_data c = []) post.

Lemma builder_builds ex d : builds ex (builder d) [].
Proof.
  unfold builder. rewrite Nat.add_comm. simpl. exists [], empty_chunk. eexists.
  split; [reflexivity|]. simpl. repeat (split; [done|]). split; [lia|]. split; [done|].
  split; [done|]. apply Forall_replicate. done.
Qed.

(** The chunk of the last range is the one being filled. *)
Lemma chunk_of_last (pre : crv) a (k : range) l :
  l ++ [k] = ranges pre ++ a -> (a = [] -> pre = []) -> exists a', a = a' ++ [k] /\ l = ranges pre ++ a'.
Proof.
  intros H He. destruct (list_snoc_inv a) as [->|(a' & k' & ->)].
  - rewrite (He eq_refl) in H. by destruct l.
  - rewrite app_assoc in H. apply app_inj_tail in H as [-> ->]. eauto.
Qed.

(** Pushing a range that starts at the end of the last one extends it. *)
Lemma push_range_join ex b l k r :
  builds ex b (l ++ [k]) -> r.1 = k.2 ->
  exists b', push_range b r = Some b' /\ builds ex b' (l ++ [(k.1, r.2)]).
Proof.
  intros (pre & c & post & Hb & Hp & Hl & Hpre & Hne & Hmax & Hbeg & Hcnt & Hpost) Hr.
  destruct (chunk_of_last _ _ _ _ Hl Hne) as (a & Ha & ->). unfold push_range.
  rewrite Hb, Hp, list_lookup_middle by done. cbn [mbind option_bind].
  rewrite Ha, last_snoc, Hr, Z.eqb_refl. eexists. split; [done|].
  rewrite length_app, Nat.add_sub, insert_middle, insert_middle.
  do 3 eexists. split; [reflexivity|]. cbn [ch_data ch_begin ch_count]. split; [done|].
  rewrite Ha in *. split; [by rewrite app_assoc|]. split; [done|]. split; [by destruct a|].
  split; [rewrite length_app in *; simpl in *; lia|].
  specialize (Hbeg ltac:(by destruct a)). split; [intros _; rewrite Hbeg; by destruct a|].
  split; [|done]. intros Hex _. rewrite (Hcnt Hex) by (by destruct a).
  rewrite !total_app. unfold total, range_len. simpl. lia.
Qed.

(** Any other range becomes a new one; a fresh chunk appended past the
    preallocated ones has the count of a single index. *)
Lemma push_range_new ex b l r :
  builds ex b l -> match last l with None => True | Some k => r.1 <> k.2 end ->
  (ex -> range_len r = 1) ->
  exists b', push_range b r = Some b' /\ builds ex b' (l ++ [r]).
Proof.
  intros (pre & c & post & Hb & Hp & Hl & Hpre & Hne & Hmax & Hbeg & Hcnt & Hpost) Hr Hex.
  unfold push_range. rewrite Hb, Hp, list_lookup_middle by done. cbn [mbind option_bind].
  destruct (list_snoc_inv (ch_data c)) as [Hc|(a & k & Hc)]; rewrite Hc.
  - eexists. split; [done|]. rewrite insert_middle.
    do 3 eexists. split; [reflexivity|]. cbn [ch_data ch_begin ch_count]. split; [done|].
    rewrite Hl, Hc, (Hne Hc). split; [done|]. split; [constructor|]. split; [done|].
    split; [pose proof max_size_pos; simpl; lia|]. split; [done|]. split; [|done].
    intros _ _. unfold total, range_len. simpl. lia.
  - rewrite Hl, Hc, app_assoc, last_snoc in Hr. rewrite last_snoc.
    rewrite (proj2 (Z.eqb_neq _ _) Hr). rewrite <- Hc. specialize (Hbeg ltac:(by rewrite Hc; destruct a)).
    assert (Hcne : ch_data c <> []) by (rewrite Hc; by destruct a).
    destruct (Nat.ltb_spec (length (ch_data c)) max_size).
    + eexists. split; [done|]. rewrite insert_middle.
      do 3 eexists. split; [reflexivity|]. cbn [ch_data ch_begin ch_count]. split; [done|].
      rewrite Hl, app_assoc. split; [done|]. split; [done|]. split; [by destruct (ch_data c)|].
      split; [rewrite length_app; simpl; lia|].
      split; [intros _; rewrite Hbeg; by destruct (ch_data c)|]. split; [|done].
      intros He _. rewrite (Hcnt He Hcne), total_app. unfold total, range_len. simpl. lia.
    + rewrite insert_middle. cbv zeta.
      set (c' := mkChunk (ch_data c) (ch_begin c) k.2 (ch_count c)).
      assert (Hfit : chunk_fits ex c').
      { split; [done|]. split; [done|]. split; [done|]. split; [|intros He; by apply Hcnt].
        cbn [c' ch_end ch_data]. by rewrite Hc, last_end_snoc. }
      assert (Hpre' : Forall (chunk_fits ex) (pre ++ [c'])) by (by apply Forall_app; split; [|constructor]).
      assert (Hrs : l ++ [r] = ranges (pre ++ [c']) ++ [r]).
      { rewrite Hl, ranges_app. simpl. by rewrite app_nil_r. }
      rewrite length_app. destruct post as [|n post]; cbn [length].
      * rewrite (proj2 (Nat.leb_le _ _)) by lia. eexists. split; [done|].
        exists (pre ++ [c']), (mkChunk [r] r.1 0 1), []. split; [done|].
        cbn [ch_data ch_begin ch_count b_outer_pos]. rewrite length_app. split; [simpl; lia|].
        split; [done|]. split; [done|]. split; [done|].
        split; [pose proof max_size_pos; simpl; lia|]. split; [done|]. split; [|constructor].
        intros He _. specialize (Hex He). unfold total. simpl. lia.
      * rewrite (proj2 (Nat.leb_gt _ _)) by lia.
        apply Forall_cons in Hpost as [Hn Hpost].
        replace (pre ++ c' :: n :: post) with ((pre ++ [c']) ++ n :: post) by (by rewrite <- app_assoc).
        replace (S (length pre)) with (length (pre ++ [c'])) by (rewrite length_app; simpl; lia).
        rewrite list_lookup_middle by done. cbn [mbind option_bind].
        eexists. split; [done|]. rewrite insert_middle, Hn.
        do 3 eexists. split; [reflexivity|]. cbn [ch_data ch_begin ch_count b_outer_pos app].
        split; [done|]. split; [done|]. split; [done|]. split; [done|].
        split; [pose proof max_size_pos; simpl; lia|]. split; [done|]. split; [|done].
        intros _ _. unfold total, range_len. simpl. lia.
Qed.

(** [built ex b l top]: [b] holds the valid ranges [l], all of them ending by
    [top]. *)
Definition built (ex : Prop) b (l : list range) (top : Z) : Prop :=
  builds ex b l /\ ranges_ok l /\ last_end 0 l <= top /\ 0 <= top.

Lemma built_weaken ex b l x y : x <= y -> built ex b l x -> built ex b l y.
Proof. intros H (? & ? & ? & ?). repeat (split; [done|]). lia. Qed.

Lemma push_range_spec ex b l top r :
  built ex b l top -> top <= r.1 -> r.1 < r.2 -> (ex -> range_len r = 1) ->
  exists b' l', push_range b r = Some b' /\ built ex b' l' r.2 /\
    forall j, mem l' j <-> mem l j \/ r.1 <= j < r.2.
Proof.
  intros (Hb & Hs & Htop & Hz) Hr Hlen Hex.
  destruct (list_snoc_inv l) as [->|(m & k & ->)].
  - destruct (push_range_new _ _ _ r Hb) as (b' & -> & Hb'); [done|done|].
    exists b', [r]. split; [done|]. split; [|intros j; simpl; tauto].
    split; [done|]. split; [simpl; lia|]. unfold last_end. simpl. lia.
  - rewrite last_end_snoc in Htop. apply sep_app in Hs as (Hm & Hk1 & Hk2 & _).
    destruct (decide (r.1 = k.2)) as [E|E].
    + destruct (push_range_join _ _ _ _ r Hb E) as (b' & -> & Hb').
      do 2 eexists. split; [done|]. split.
      * split; [done|]. rewrite last_end_snoc. split; [|simpl; lia].
        apply sep_app. simpl. split; [done|lia].
      * intros j. rewrite !mem_app. simpl. intuition lia.
    + destruct (push_range_new _ _ _ r Hb) as (b' & -> & Hb'); [by rewrite last_snoc|done|].
      do 2 eexists. split; [done|]. split.
      * split; [done|]. rewrite last_end_snoc. split; [|lia].
        rewrite <- app_assoc. apply sep_app. simpl. split; [done|lia].
      * intros j. rewrite !mem_app. simpl. intuition lia.
Qed.

Lemma push_spec ex b l top i :
  built ex b l top -> top <= i ->
  exists b' l', push b i = Some b' /\ built ex b' l' (i + 1) /\
    forall j, mem l' j <-> mem l j \/ j = i.
Proof.
  intros Hb Hi. destruct (push_range_spec _ _ _ _ (i, i + 1) Hb) as (b' & l' & H & Hb' & Hm);
    [done|simpl; lia|unfold range_len; simpl; lia|].
  exists b', l'. split; [done|]. split; [done|]. intros j. rewrite Hm. simpl. intuition lia.
Qed.

Lemma push_all_spec ex b l top es :
  built ex b l top -> increasing (top - 1) es ->
  exists b' l' top', push_all b es = Some b' /\ built ex b' l' top' /\ top <= top' /\
    (forall y, top <= y -> Forall (fun e => e < y) es -> top' <= y) /\
    forall j, mem l' j <-> mem l j \/ j ∈ es.
Proof.
  revert b l top. induction es as [|e es IH]; intros b l top Hb Hes.
  - exists b, l, top. split; [done|]. split; [done|]. split; [lia|]. split; [auto|].
    intros j. rewrite elem_of_nil. tauto.
  - destruct Hes as [He Hes]. destruct (push_spec _ _ _ _ e Hb) as (b1 & l1 & Hp & Hb1 & Hm1); [lia|].
    simpl. step_some Hp. destruct (IH b1 l1 (e + 1) Hb1) as (b' & l' & top' & Hp' & Hb' & Ht & Hy & Hm').
    { eapply increasing_weaken; [|done]. lia. }
    exists b', l', top'. split; [done|]. split; [done|]. split; [lia|]. split.
    + intros y Hle [? ?]%Forall_cons. apply Hy; [lia|done].
    + intros j. rewrite Hm', Hm1, elem_of_cons. tauto.
Qed.

Lemma copy_ranges_spec ex b l top rs :
  built ex b l top -> sep (top - 1) rs -> Forall (fun r => ex -> range_len r = 1) rs ->
  exists b' l' top', copy_ranges b rs = Some b' /\ built ex b' l' top' /\
    forall j, mem l' j <-> mem l j \/ mem rs j.
Proof.
  revert b l top. induction rs as [|r rs IH]; intros b l top Hb Hs Hex.
  - exists b, l, top. split; [done|]. split; [done|]. intros j. simpl. tauto.
  - destruct Hs as (? & ? & Hs). apply Forall_cons in Hex as [Hr Hex].
    destruct (push_range_spec _ _ _ _ r Hb) as (b1 & l1 & Hp & Hb1 & Hm1); [lia|done|done|].
    simpl. step_some Hp. destruct (IH b1 l1 r.2 Hb1) as (b' & l' & top' & Hp' & Hb' & Hm'); [|done|].
    { eapply sep_weaken; [|done]. lia. }
    exists b', l', top'. split; [done|]. split; [done|].
    intros j. rewrite Hm', Hm1. tauto.
Qed.

Lemma finalize_spec ex b l top :
  built ex b l top ->
  exists d, finalize b = Some d /\ Forall (chunk_fits ex) d /\ ranges d = l.
Proof.
  intros [(pre & c & post & Hb & Hp & Hl & Hpre & Hne & Hmax & Hbeg & Hcnt & Hpost) _].
  unfold finalize. rewrite Hb, Hp.
  replace (empty (pre ++ c :: post)) with false by (by destruct pre).
  replace (pre ++ c :: post) with ((pre ++ [c]) ++ post) by (by rewrite <- app_assoc).
  rewrite take_app_length' by (rewrite length_app; simpl; lia).
  rewrite last_snoc. cbn [mbind option_bind]. rewrite length_app, Nat.add_sub.
  destruct (list_snoc_inv (ch_data c)) as [Hc|(a & k & Hc)]; rewrite Hc.
  - rewrite (Hne Hc). exists []. split; [done|]. split; [constructor|].
    by rewrite Hl, Hc, (Hne Hc).
  - rewrite last_snoc, insert_middle. eexists. split; [done|].
    assert (Hcne : ch_data c <> []) by (rewrite Hc; by destruct a).
    rewrite <- Hc. split.
    + apply Forall_app. split; [done|]. apply Forall_singleton.
      do 2 (split; [done|]). split; [by apply Hbeg|]. split; [|intros; by apply Hcnt].
      cbn [ch_end ch_data]. by rewrite Hc, last_end_snoc.
    + rewrite ranges_app. simpl. by rewrite app_nil_r.
Qed.

Lemma chunk_fits_ok ex c : ex -> chunk_fits ex c -> chunk_ok c.
Proof.
  intros Hex (Hne & Hmax & Hb & He & Hc). split; [done|]. split; [done|].
  destruct c as [l b e n]. simpl in *. unfold chunk_of. by rewrite Hb, He, (Hc Hex).
Qed.

Lemma finalize_inv b l top :
  built True b l top ->
  exists d, finalize b = Some d /\ inv d /\ forall j, has d j <-> mem l j.
Proof.
  intros Hb. destruct (finalize_spec _ _ _ _ Hb) as (d & Hf & Hd & Hr).
  exists d. split; [done|]. split; [|unfold has; by rewrite Hr]. split.
  - eapply Forall_impl; [done|]. simpl. intros c. by apply chunk_fits_ok.
  - rewrite Hr. apply Hb.
Qed.

Lemma builder_built ex d : built ex (builder d) [] 0.
Proof. split; [apply builder_builds|]. unfold last_end. simpl. split; [done|lia]. Qed.
End builder_facts.

(** ** Free indices, index by index *)
Fixpoint free_of (es : list Z) (i : Z) : Z :=
  match es with
  | [] => i
  | e :: es => if i <? e then i else free_of es (i + 1)
  end.

Lemma free_of_below es i lo : increasing lo es -> i <= lo -> free_of es i = i.
Proof. destruct es as [|e es]; simpl; [done|]. intros [? _] ?. destruct (Z.ltb_spec i e); lia. Qed.

Lemma free_of_run n a es i lo :
  increasing lo es -> a + Z.of_nat n <= lo + 1 ->
  free_of (seqZ a (Z.of_nat n) ++ es) i = if i <? a then i else free_of es (i + Z.of_nat n).
Proof.
  intros Hes. revert a i. induction n as [|n IH]; intros a i Ha.
  - simpl. destruct (Z.ltb_spec i a).
    + rewrite (free_of_below _ _ lo); [done|done|lia].
    + f_equal. lia.
  - rewrite seqZ_cons by lia. replace (Z.pred (Z.of_nat (S n))) with (Z.of_nat n) by lia.
    simpl. destruct (Z.ltb_spec i a); [done|]. rewrite IH by lia.
    destruct (Z.ltb_spec (i + 1) (Z.succ a)); [lia|]. f_equal. lia.
Qed.

Lemma free_of_elems lo l i : sep lo l -> free_of (elems l) i = nth_free l i.
Proof.
  revert lo i. induction l as [|r l IH]; intros lo i; [done|]. intros (? & ? & Hs).
  simpl. unfold range_elems. rewrite <- (Z2Nat.id (range_len r)) at 1 by (unfold range_len; lia).
  rewrite (free_of_run _ _ _ _ r.2) by
    (by apply elems_increasing) || (unfold range_len; lia).
  destruct (Z.ltb_spec i r.1); [done|].
  rewrite (IH _ _ Hs), Z2Nat.id by (unfold range_len; lia). done.
Qed.

(** The new places of [es1] after inserting [es2]; [shift] of them are already
    counted. *)
Definition free_image (es1 es2 : list Z) (shift j : Z) : Prop :=
  exists x, x ∈ es1 /\ j = free_of es2 (x + shift).

Lemma free_image_nil es2 shift j : free_image [] es2 shift j <-> False.
Proof. split; [|done]. intros (x & Hx & _). by apply elem_of_nil in Hx. Qed.

Lemma free_image_done es1 shift j : free_image es1 [] shift j <-> j ∈ (fun e => e + shift) <$> es1.
Proof. rewrite list_elem_of_fmap. unfold free_image. split; intros (x & H1 & H2); eauto. Qed.

Lemma free_image_lt e1 t1 e2 t2 shift j :
  e1 + shift < e2 ->
  free_image (e1 :: t1) (e2 :: t2) shift j <-> j = e1 + shift \/ free_image t1 (e2 :: t2) shift j.
Proof.
  intros H. unfold free_image. setoid_rewrite elem_of_cons.
  assert (E : free_of (e2 :: t2) (e1 + shift) = e1 + shift) by (simpl; destruct (Z.ltb_spec (e1 + shift) e2); lia).
  split.
  - intros (x & [->|Hx] & ->); [left; done|right; eauto].
  - intros [->|(x & Hx & ->)]; eauto.
Qed.

Lemma free_image_ge lo e1 t1 e2 t2 shift j :
  e2 <= e1 + shift -> increasing lo (e1 :: t1) ->
  free_image (e1 :: t1) (e2 :: t2) shift j <-> free_image (e1 :: t1) t2 (shift + 1) j.
Proof.
  intros H [_ Hi]. apply increasing_bound in Hi. rewrite Forall_forall in Hi.
  assert (Hall : forall x, x ∈ e1 :: t1 -> free_of (e2 :: t2) (x + shift) = free_of t2 (x + (shift + 1))).
  { intros x [->|Hx%Hi]%elem_of_cons; simpl.
    - destruct (Z.ltb_spec (e1 + shift) e2); [lia|f_equal; lia].
    - destruct (Z.ltb_spec (x + shift) e2); [lia|f_equal; lia]. }
  unfold free_image. split; intros (x & Hx & ->); exists x; rewrite Hall by done; done.
Qed.

(** Where the indices of [es1] that are not in [es2] go when [es2] is erased. *)

Definition erase_image (es1 es2 : list Z) (shift j : Z) : Prop :=
  exists x, x ∈ es1 /\ (x ∉ es2) /\ j = x - shift - below es2 x.

Lemma erase_image_nil es2 shift j : erase_image [] es2 shift j <-> False.
Proof. split; [|done]. intros (x & Hx & _). by apply elem_of_nil in Hx. Qed.

Lemma erase_image_done es1 shift j : erase_image es1 [] shift j <-> j ∈ (fun e => e - shift) <$> es1.
Proof.
  rewrite list_elem_of_fmap. unfold erase_image, below. simpl.
  setoid_rewrite elem_of_nil. split.
  - intros (x & Hx & _ & ->). exists x. split; [lia|done].
  - intros (x & -> & Hx). exists x. split; [done|]. split; [tauto|lia].
Qed.

Lemma erase_image_lt lo e1 t1 e2 t2 shift j :
  e1 < e2 -> increasing lo (e2 :: t2) ->
  erase_image (e1 :: t1) (e2 :: t2) shift j <-> j = e1 - shift \/ erase_image t1 (e2 :: t2) shift j.
Proof.
  intros H [_ Hi]. assert (Hb := increasing_bound _ _ Hi). rewrite Forall_forall in Hb.
  assert (E : below (e2 :: t2) e1 = 0) by (eapply (below_none _ _ e1); [split; [lia|done]|lia]).
  assert (Hn : e1 ∉ e2 :: t2) by (intros [?|Hx%Hb]%elem_of_cons; lia).
  unfold erase_image. split.
  - intros (x & [->|Hx]%elem_of_cons & Hx2 & ->); [left; lia|right; eauto].
  - intros [->|(x & Hx & ? & ->)].
    + exists e1. rewrite elem_of_cons. split; [auto|]. split; [done|lia].
    + exists x. rewrite elem_of_cons. auto.
Qed.

(** The first erased index is before (or at) everything left in [es1]. *)
Lemma erase_image_ge es1 e2 t2 shift j :
  Forall (fun x => e2 <= x) es1 ->
  erase_image es1 (e2 :: t2) shift j <-> erase_image (filter (fun x => x <> e2) es1) t2 (shift + 1) j.
Proof.
  rewrite Forall_forall. intros Hge. unfold erase_image.
  split; intros (x & Hx & Hn & ->); exists x.
  - rewrite not_elem_of_cons in Hn. rewrite list_elem_of_filter, below_cons.
    specialize (Hge _ Hx). rewrite decide_True by (destruct Hn; lia).
    split; [tauto|]. split; [tauto|lia].
  - rewrite list_elem_of_filter in Hx. destruct Hx as [Hne Hx]. specialize (Hge _ Hx).
    rewrite not_elem_of_cons, below_cons, decide_True by lia. split; [done|]. split; [done|lia].
Qed.

Lemma filter_ne_above lo e es : increasing lo es -> e <= lo -> filter (fun x => x <> e) es = es.
Proof.
  revert lo. induction es as [|x es IH]; intros lo; [done|]. intros [? Hi] He.
  rewrite filter_cons, decide_True by lia. f_equal. apply (IH x); [done|lia].
Qed.

Lemma increasing_fmap k lo es : increasing lo es -> increasing (lo + k) ((fun e => e + k) <$> es).
Proof.
  revert lo. induction es as [|e es IH]; intros lo; [done|]. intros [? Hi]. simpl.
  split; [lia|]. by apply IH.
Qed.

Section merging.
Context {CS : ChunkSize}.
Implicit Types (d : crv) (b : Builder).

(** What is pushed and what is left always make up the same indices. *)
Lemma insert_at_loop fuel es1 es2 shift b l top :
  built True b l top -> increasing (top - 1) es2 -> increasing (top - 1 - shift) es1 ->
  (length es1 + length es2 < fuel)%nat ->
  exists es1' es2' shift' b' l' top',
    loop insert_at_step fuel (es1, es2, shift, b) = Some (es1', es2', shift', b') /\
    built True b' l' top' /\ increasing (top' - 1) es2' /\ increasing (top' - 1 - shift') es1' /\
    (es1' = [] \/ es2' = []) /\
    forall j, mem l j \/ j ∈ es2 \/ free_image es1 es2 shift j <->
      mem l' j \/ j ∈ es2' \/ free_image es1' es2' shift' j.
Proof.
  revert es1 es2 shift b l top.
  induction fuel as [|n IH]; intros es1 es2 shift b l top Hb H2 H1 Hf; [lia|].
  cbn [loop]. unfold insert_at_step at 1.
  destruct es1 as [|e1 t1]; [do 6 eexists; split; [done|]; do 3 (split; [done|]); split; [by left|done]|].
  destruct es2 as [|e2 t2]; [do 6 eexists; split; [done|]; do 3 (split; [done|]); split; [by right|done]|].
  destruct H1 as [H1 Hi1]. destruct H2 as [H2 Hi2]. simpl length in Hf.
  destruct (Z.ltb_spec (e1 + shift) e2) as [Hlt|Hge].
  - destruct (push_spec _ _ _ _ (e1 + shift) Hb) as (b1 & l1 & Hp & Hb1 & Hm); [lia|]. step_some Hp.
    destruct (IH t1 (e2 :: t2) shift b1 l1 (e1 + shift + 1) Hb1) as
      (es1' & es2' & shift' & b' & l' & top' & -> & Hb' & ? & ? & ? & Hj); [split; [lia|done]| |simpl; lia|].
    { eapply increasing_weaken; [|done]. lia. }
    do 6 eexists. split; [done|]. do 4 (split; [done|]). intros j.
    rewrite <- Hj, Hm, free_image_lt by done. tauto.
  - destruct (push_spec _ _ _ _ e2 Hb) as (b1 & l1 & Hp & Hb1 & Hm); [lia|]. step_some Hp.
    destruct (IH (e1 :: t1) t2 (shift + 1) b1 l1 (e2 + 1) Hb1) as
      (es1' & es2' & shift' & b' & l' & top' & -> & Hb' & ? & ? & ? & Hj); [| |simpl; lia|].
    { eapply increasing_weaken; [|done]. lia. }
    { split; [lia|done]. }
    do 6 eexists. split; [done|]. do 4 (split; [done|]). intros j.
    rewrite <- Hj, Hm, (free_image_ge (e1 - 1)) by (done || (split; [lia|done])).
    rewrite elem_of_cons. tauto.
Qed.

Lemma empty_elems d : inv d -> empty d = match elems (ranges d) with [] => true | _ => false end.
Proof.
  intros [Hd Hs]. destruct d as [|c d]; [done|]. apply Forall_cons in Hd as [(Hne & _) _].
  simpl in *. destruct (ch_data c) as [|r l]; [done|]. destruct Hs as (_ & ? & _).
  simpl. unfold range_elems, range_len. by rewrite seqZ_cons by lia.
Qed.

Lemma empty_has d j : inv d -> empty d = true -> ~ has d j.
Proof. destruct d; [|done]. intros _ _ []. Qed.

Lemma has_elems d j : has d j <-> j ∈ elems (ranges d).
Proof. unfold has. by rewrite mem_elems. Qed.

Lemma merge_turns_enough (es1 es2 : list Z) : (length es1 + length es2 < merge_turns es1 es2)%nat.
Proof. unfold merge_turns. lia. Qed.

Lemma elems_from_zero d : inv d -> increasing (-1) (elems (ranges d)).
Proof. intros [_ Hs]. by apply elems_increasing. Qed.

(** Inserting a set of positions: they become members, and every old member
    moves to the free position with its rank. *)
Lemma insert_at_set_correct d positions :
  inv d -> inv positions ->
  exists d', insert_at_set d positions = Some d' /\ inv d' /\
    forall j, has d' j <-> has positions j \/ exists x, has d x /\ j = nth_free (ranges positions) x.
Proof.
  intros Hd Hp. unfold insert_at_set.
  destruct (empty positions) eqn:Ep.
  { exists d. split; [done|]. split; [done|]. intros j. destruct positions; [|done]. simpl.
    split; [eauto|]. by intros [[]|(x & ? & ->)]. }
  destruct (empty d) eqn:Ed.
  { exists positions. split; [done|]. split; [done|]. intros j.
    split; [by left|]. intros [?|(x & Hx & _)]; [done|]. by apply empty_has in Hx. }
  destruct (insert_at_loop _ (elems (ranges d)) (elems (ranges positions)) 0 _ _ 0
    (builder_built True d) (elems_from_zero _ Hp) (elems_from_zero _ Hd) (merge_turns_enough _ _))
    as (es1 & es2 & shift & b & l & top & Hl & Hb & H2 & H1 & Hend & Hj). step_some Hl.
  destruct (push_all_spec _ _ _ _ ((fun e => e + shift) <$> es1) Hb) as
    (b1 & l1 & t1 & Hp1 & Hb1 & _ & Ht & Hm1).
  { replace (top - 1) with (top - 1 - shift + shift) by lia. by apply increasing_fmap. }
  step_some Hp1.
  destruct (push_all_spec _ _ _ _ es2 Hb1) as (b2 & l2 & t2 & Hp2 & Hb2 & _ & _ & Hm2).
  { destruct Hend as [-> | ->]; [|done]. eapply increasing_weaken; [|done].
    specialize (Ht top). simpl in Ht. rewrite Forall_nil in Ht. lia. }
  step_some Hp2. destruct (finalize_inv _ _ _ Hb2) as (d' & Hf & Hd' & Hm).
  exists d'. split; [done|]. split; [done|]. intros j. rewrite Hm, Hm2, Hm1.
  transitivity (mem l j \/ j ∈ es2 \/ free_image es1 es2 shift j).
  { destruct Hend as [-> | ->].
    - rewrite free_image_nil. setoid_rewrite elem_of_nil. tauto.
    - rewrite free_image_done, elem_of_nil. tauto. }
  rewrite <- Hj, <- has_elems. simpl. unfold free_image.
  setoid_rewrite <- has_elems. destruct Hp as [_ Hps].
  setoid_rewrite (fun x => free_of_elems (-1) (ranges positions) (x + 0) Hps).
  setoid_rewrite Z.add_0_r. tauto.
Qed.

Lemma shift_for_insert_loop fuel es1 es2 shift b l top :
  built True b l top -> increasing (top - 1 - shift) es1 ->
  (length es1 + length es2 < fuel)%nat ->
  exists es1' es2' shift' b' l' top',
    loop shift_for_insert_step fuel (es1, es2, shift, b) = Some (es1', es2', shift', b') /\
    built True b' l' top' /\ increasing (top' - 1 - shift') es1' /\
    (es1' = [] \/ es2' = []) /\
    forall j, mem l j \/ free_image es1 es2 shift j <-> mem l' j \/ free_image es1' es2' shift' j.
Proof.
  revert es1 es2 shift b l top.
  induction fuel as [|n IH]; intros es1 es2 shift b l top Hb H1 Hf; [lia|].
  cbn [loop]. unfold shift_for_insert_step at 1.
  destruct es1 as [|e1 t1]; [do 6 eexists; split; [done|]; do 2 (split; [done|]); split; [by left|done]|].
  destruct es2 as [|e2 t2]; [do 6 eexists; split; [done|]; do 2 (split; [done|]); split; [by right|done]|].
  destruct H1 as [H1 Hi1]. simpl length in Hf.
  destruct (Z.ltb_spec (e1 + shift) e2) as [Hlt|Hge].
  - destruct (push_spec _ _ _ _ (e1 + shift) Hb) as (b1 & l1 & Hp & Hb1 & Hm); [lia|]. step_some Hp.
    destruct (IH t1 (e2 :: t2) shift b1 l1 (e1 + shift + 1) Hb1) as
      (es1' & es2' & shift' & b' & l' & top' & -> & Hb' & ? & ? & Hj); [|simpl; lia|].
    { eapply increasing_weaken; [|done]. lia. }
    do 6 eexists. split; [done|]. do 3 (split; [done|]). intros j.
    rewrite <- Hj, Hm, free_image_lt by done. tauto.
  - destruct (IH (e1 :: t1) t2 (shift + 1) b l top Hb) as
      (es1' & es2' & shift' & b' & l' & top' & -> & Hb' & ? & ? & Hj); [split; [lia|done]|simpl; lia|].
    do 6 eexists. split; [done|]. do 3 (split; [done|]). intros j.
    rewrite <- Hj, (free_image_ge (e1 - 1)) by (done || (split; [lia|done])). done.
Qed.

(** [shift_for_insert_at] moves the members like [insert_at] without adding
    the positions. *)
Lemma shift_for_insert_at_set_correct d values :
  inv d -> inv values ->
  exists d', shift_for_insert_at_set d values = Some d' /\ inv d' /\
    forall j, has d' j <-> exists x, has d x /\ j = nth_free (ranges values) x.
Proof.
  intros Hd Hv. unfold shift_for_insert_at_set.
  assert (Hsame : (forall x, has d x -> nth_free (ranges values) x = x) ->
    exists d', Some d = Some d' /\ inv d' /\
      forall j, has d' j <-> exists x, has d x /\ j = nth_free (ranges values) x).
  { intros H. exists d. split; [done|]. split; [done|]. intros j. split.
    - intros Hj. exists j. by rewrite H.
    - intros (x & Hx & ->). by rewrite H. }
  destruct (empty d) eqn:Ed; [by apply Hsame; intros x Hx%empty_has|].
  destruct (empty values) eqn:Ev; [by apply Hsame; destruct values|]. cbn [orb].
  destruct values as [|front values']; [done|].
  destruct (list_snoc_inv d) as [->|(pre & back & Ed')]; [done|].
  replace (last d) with (Some back) by (by rewrite Ed', last_snoc). cbn [head mbind option_bind].
  destruct (Z.leb_spec (ch_end back) (ch_begin front)) as [Hle|Hgt].
  { apply Hsame. intros x Hx. destruct Hv as [Hv _]. apply Forall_cons in Hv as [(Hne & _ & Hf) _].
    rewrite Hf in Hle. cbn [ranges]. destruct (ch_data front) as [|r l]; [done|]. simpl in *.
    assert (x < ch_end back).
    { destruct Hd as [Hd Hs]. unfold has in Hx. subst d. rewrite ranges_app in Hs, Hx.
      apply (mem_upper _ _ _ Hs) in Hx. rewrite last_end_app in Hx. simpl in Hx.
      rewrite app_nil_r in Hx. pose proof (get_chunk _ _ _ Hd) as (Hb & _ & ->). simpl.
      by rewrite (last_end_indep _ (last_end (-1) (ranges pre))). }
    destruct (Z.ltb_spec x r.1); [done|lia]. }
  set (values := front :: values') in *.
  destruct (shift_for_insert_loop _ (elems (ranges d)) (elems (ranges values)) 0 _ _ 0
    (builder_built True d) (elems_from_zero _ Hd) (merge_turns_enough _ _))
    as (es1 & es2 & shift & b & l & top & Hl & Hb & H1 & Hend & Hj). step_some Hl.
  destruct (push_all_spec _ _ _ _ ((fun e => e + shift) <$> es1) Hb) as
    (b1 & l1 & t1 & Hp1 & Hb1 & _ & _ & Hm1).
  { replace (top - 1) with (top - 1 - shift + shift) by lia. by apply increasing_fmap. }
  step_some Hp1. destruct (finalize_inv _ _ _ Hb1) as (d' & Hf & Hd' & Hm).
  exists d'. split; [done|]. split; [done|]. intros j. rewrite Hm, Hm1.
  transitivity (mem l j \/ free_image es1 es2 shift j).
  { destruct Hend as [-> | ->].
    - rewrite free_image_nil. simpl. rewrite elem_of_nil. tauto.
    - by rewrite free_image_done. }
  rewrite <- Hj. simpl mem. unfold free_image. setoid_rewrite <- has_elems. destruct Hv as [_ Hvs].
  setoid_rewrite (fun x => free_of_elems (-1) (ranges values) (x + 0) Hvs).
  setoid_rewrite Z.add_0_r. tauto.
Qed.

Lemma erase_at_loop fuel es1 es2 shift b l top :
  built True b l top -> increasing (top - 1 + shift) es1 -> increasing (top - 1 + shift) es2 ->
  (length es1 + length es2 < fuel)%nat ->
  exists es1' es2' shift' b' l' top',
    loop erase_at_step fuel (es1, es2, shift, b) = Some (es1', es2', shift', b') /\
    built True b' l' top' /\ increasing (top' - 1 + shift') es1' /\
    (es1' = [] \/ es2' = []) /\
    forall j, mem l j \/ erase_image es1 es2 shift j <-> mem l' j \/ erase_image es1' es2' shift' j.
Proof.
  revert es1 es2 shift b l top.
  induction fuel as [|n IH]; intros es1 es2 shift b l top Hb H1 H2 Hf; [lia|].
  cbn [loop]. unfold erase_at_step at 1.
  destruct es1 as [|e1 t1]; [do 6 eexists; split; [done|]; do 2 (split; [done|]); split; [by left|done]|].
  destruct es2 as [|e2 t2]; [do 6 eexists; split; [done|]; do 2 (split; [done|]); split; [by right|done]|].
  destruct H1 as [H1 Hi1]. destruct H2 as [H2 Hi2]. simpl length in Hf.
  pose proof (increasing_bound _ _ Hi1) as Hgt.
  destruct (Z.ltb_spec e1 e2) as [Hlt|Hge]; [|destruct (Z.eqb_spec e1 e2) as [->|Hne]].
  - destruct (push_spec _ _ _ _ (e1 - shift) Hb) as (b1 & l1 & Hp & Hb1 & Hm); [lia|]. step_some Hp.
    destruct (IH t1 (e2 :: t2) shift b1 l1 (e1 - shift + 1) Hb1) as
      (es1' & es2' & shift' & b' & l' & top' & -> & Hb' & ? & ? & Hj); [|split; [lia|done]|simpl; lia|].
    { eapply increasing_weaken; [|done]. lia. }
    do 6 eexists. split; [done|]. do 3 (split; [done|]). intros j.
    rewrite <- Hj, Hm, (erase_image_lt (e2 - 1)) by (done || (split; [lia|done])). tauto.
  - destruct (IH t1 t2 (shift + 1) b l top Hb) as
      (es1' & es2' & shift' & b' & l' & top' & -> & Hb' & ? & ? & Hj);
      [eapply increasing_weaken; [|done]; lia..|simpl; lia|].
    do 6 eexists. split; [done|]. do 3 (split; [done|]). intros j.
    rewrite <- Hj, erase_image_ge, filter_cons, decide_False, (filter_ne_above e2) by
      (done || lia || (constructor; [lia|]; eapply Forall_impl; [done|]; simpl; lia) || tauto).
    done.
  - destruct (IH (e1 :: t1) t2 (shift + 1) b l top Hb) as
      (es1' & es2' & shift' & b' & l' & top' & -> & Hb' & ? & ? & Hj);
      [split; [lia|done]|eapply increasing_weaken; [|done]; lia|simpl; lia|].
    do 6 eexists. split; [done|]. do 3 (split; [done|]). intros j.
    rewrite <- Hj, erase_image_ge, (filter_ne_above (e1 - 1)) by
      (lia || (split; [lia|done]) || (constructor; [lia|]; eapply Forall_impl; [done|]; simpl; lia)).
    done.
Qed.

Lemma below_count lo l x : sep lo l -> below (elems l) x = count_below x l.
Proof. intros Hs. symmetry. by eapply count_below_elems. Qed.

(** Erasing a set of positions: the members at them go, and every other
    member moves down by the number of positions before it. *)
Lemma erase_at_set_correct d positions :
  inv d -> inv positions ->
  exists d', erase_at_set d positions = Some d' /\ inv d' /\
    forall j, has d' j <->
      exists x, has d x /\ ~ has positions x /\ j = x - count_below x (ranges positions).
Proof.
  intros Hd Hp. unfold erase_at_set.
  destruct (empty d) eqn:Ed.
  { exists d. split; [done|]. split; [done|]. intros j. destruct d; [|done].
    split; [intros []|by intros (x & [] & _)]. }
  destruct (empty positions) eqn:Ep.
  { exists d. split; [done|]. split; [done|]. intros j. destruct positions; [|done]. split.
    - intros Hj. exists j. split; [done|]. split; [intros []|]. simpl. lia.
    - intros (x & Hx & _ & ->). simpl. by replace (x - 0) with x by lia. }
  cbn [orb].
  destruct (erase_at_loop _ (elems (ranges d)) (elems (ranges positions)) 0 _ _ 0
    (builder_built True d) (elems_from_zero _ Hd) (elems_from_zero _ Hp) (merge_turns_enough _ _))
    as (es1 & es2 & shift & b & l & top & Hl & Hb & H1 & Hend & Hj). step_some Hl.
  destruct (push_all_spec _ _ _ _ ((fun e => e - shift) <$> es1) Hb) as
    (b1 & l1 & t1 & Hp1 & Hb1 & _ & _ & Hm1).
  { replace (top - 1) with (top - 1 + shift + - shift) by lia. by apply increasing_fmap. }
  step_some Hp1. destruct (finalize_inv _ _ _ Hb1) as (d' & Hf & Hd' & Hm).
  exists d'. split; [done|]. split; [done|]. intros j. rewrite Hm, Hm1.
  transitivity (mem l j \/ erase_image es1 es2 shift j).
  { destruct Hend as [-> | ->].
    - rewrite erase_image_nil. simpl. rewrite elem_of_nil. tauto.
    - by rewrite erase_image_done. }
  rewrite <- Hj. simpl mem. unfold erase_image. setoid_rewrite <- has_elems. destruct Hp as [_ Hps].
  setoid_rewrite (fun x => below_count _ _ x Hps). setoid_rewrite Z.sub_0_r. tauto.
Qed.
End merging.

Section shifted_by.
Context {CS : ChunkSize}.
Implicit Types (d : crv) (b : Builder).

Lemma skip_shifted_spec s i n u :
  exists k s', s = k ++ s' /\ skip_shifted s i n u = (s', n + total k, last_end u k) /\
    Forall (fun r => r.1 <= i) k /\ match s' with [] => True | r :: _ => i < r.1 end.
Proof.
  revert n u. induction s as [|r s IH]; intros n u; simpl.
  - exists [], []. unfold total, last_end. simpl. rewrite Z.add_0_r. by repeat split.
  - destruct (Z.leb_spec r.1 i).
    + destruct (IH (n + (r.2 - r.1)) r.2) as (k & s' & -> & -> & Hk & Hs').
      exists (r :: k), s'. replace (total (r :: k)) with (r.2 - r.1 + total k) by done.
      rewrite Z.add_assoc. split; [done|]. split; [done|]. split; [by constructor|done].
    + exists [], (r :: s). unfold total, last_end. simpl. rewrite Z.add_0_r.
      split; [done|]. split; [done|]. split; [constructor|lia].
Qed.

Lemma started_mem lo k x u :
  sep lo k -> Forall (fun r => r.1 <= x) k ->
  last_end u k <= x <-> (k = [] -> u <= x) /\ ~ mem k x.
Proof.
  revert lo u. induction k as [|r k IH]; intros lo u.
  - unfold last_end. simpl. tauto.
  - intros (? & ? & Hs) [Hr Hk]%Forall_cons. cbn [mem last_end foldl].
    change (foldl _ r.2 k) with (last_end r.2 k). rewrite (IH _ r.2 Hs Hk). split.
    + intros [H1 H2]. split; [done|]. intros [?|?]; [|done].
      destruct k as [|r' k]; [specialize (H1 eq_refl); lia|].
      apply Forall_cons in Hk as [? _]. destruct Hs as (? & _). lia.
    + intros [_ H2]. split; [|tauto]. intros _. destruct (decide (r.2 <= x)); [done|]. destruct H2. left. lia.
Qed.

(** A value counts as new when no range of [s] has it; [u] is the end of the
    ranges already passed. *)
Definition fresh (s : list range) (u x : Z) : Prop := u <= x /\ ~ mem s x.

Lemma skip_fresh lo k s i x u :
  sep lo (k ++ s) -> u <= lo + 1 -> Forall (fun r => r.1 <= i) k -> i <= x ->
  (fresh (k ++ s) u x <-> fresh s (last_end u k) x) /\
  (fresh (k ++ s) u x -> count_below x (k ++ s) = total k + count_below x s).
Proof.
  intros [Hk Hs]%sep_app Hu Hki Hx.
  assert (Hkx : Forall (fun r => r.1 <= x) k) by (eapply Forall_impl; [done|]; simpl; intros; lia).
  assert (E : fresh (k ++ s) u x <-> fresh s (last_end u k) x).
  { unfold fresh. rewrite mem_app, (started_mem _ _ _ _ Hk Hkx). split; [tauto|].
    intros [[H1 H2] H3]. split; [|tauto]. destruct k as [|r k]; [auto|].
    destruct Hk as (? & _). apply Forall_cons in Hkx as [? _]. lia. }
  split; [done|]. intros Hf%E. destruct Hf as [Hle _].
  rewrite count_below_app. f_equal. destruct k as [|r k]; [done|].
  apply (count_below_all lo); [done|]. by rewrite (last_end_indep _ u).
Qed.

Lemma total_span lo k : sep lo k -> k <> [] -> total k <= last_end lo k - lo - 1.
Proof.
  intros Hs Hne. rewrite <- (count_below_all _ _ (last_end lo k) Hs) by lia.
  apply count_below_le; [done|]. destruct k as [|r k]; [done|].
  destruct Hs as (? & ? & Hs). pose proof (last_end_ge _ _ Hs). unfold last_end in *. simpl. lia.
Qed.

Lemma copy_old_spec ex rest t o b l top :
  built ex b l top -> sep (top - 1) rest -> top <= t + o ->
  exists k rest' b' l' top', rest = k ++ rest' /\
    copy_old rest t o b = Some (rest', o + total k, b') /\ built ex b' l' top' /\
    top' <= t + (o + total k) /\ sep (t + (o + total k)) rest' /\
    (forall y, t + o <= y -> nth_free rest y = nth_free rest' (y + total k)) /\
    (forall j, mem l' j <-> mem l j \/ mem k j).
Proof.
  revert o b l top. induction rest as [|r rest IH]; intros o b l top Hb Hs Hto; simpl.
  - exists [], [], b, l, top. unfold total. simpl. rewrite Z.add_0_r.
    split; [done|]. split; [done|]. split; [done|]. split; [done|]. split; [done|].
    split; [intros; lia|tauto].
  - destruct Hs as (? & ? & Hs). destruct (Z.leb_spec r.1 (t + o)) as [Hle|Hgt].
    + destruct (push_all_spec ex b l top (range_elems r) Hb) as
        (b1 & l1 & t1 & Hp & Hb1 & _ & Ht1 & Hm1).
      { apply seqZ_increasing. lia. }
      step_some Hp. assert (t1 <= r.2).
      { apply Ht1; [lia|]. apply Forall_forall. intros e. unfold range_elems, range_len.
        rewrite elem_of_seqZ. lia. }
      destruct (IH (o + (r.2 - r.1)) b1 l1 r.2) as
        (k & rest' & b' & l' & top' & -> & -> & Hb' & Ht' & Hs' & Hn & Hm').
      { by eapply built_weaken. }
      { eapply sep_weaken; [|done]. lia. }
      { lia. }
      exists (r :: k), rest', b', l', top'.
      replace (total (r :: k)) with (r.2 - r.1 + total k) by done.
      rewrite !Z.add_assoc in *. do 2 (split; [done|]). split; [done|]. split; [done|].
      split; [done|]. split.
      * intros y Hy. destruct (Z.ltb_spec y r.1); [lia|]. rewrite Hn by (unfold range_len; lia).
        f_equal. unfold range_len. lia.
      * intros j. rewrite Hm', Hm1. simpl. unfold range_elems, range_len.
        rewrite elem_of_seqZ. intuition lia.
    + exists [], (r :: rest), b, l, top. unfold total. simpl. rewrite !Z.add_0_r.
      do 4 (split; [done|]). split; [by repeat split|]. split; [|tauto]. intros y _. by rewrite Z.add_0_r.
Qed.

(** The places of the new values of [es]. *)
Definition shifted_image (es : list Z) (rest s : list range) (u o n j : Z) : Prop :=
  exists x, x ∈ es /\ fresh s u x /\ j = nth_free rest (x - n - count_below x s + o).

Lemma shifted_image_skip lo es rest k s i u o n j :
  sep lo (k ++ s) -> u <= lo + 1 -> Forall (fun r => r.1 <= i) k -> Forall (fun x => i <= x) es ->
  shifted_image es rest (k ++ s) u o n j <->
  shifted_image es rest s (last_end u k) o (n + total k) j.
Proof.
  rewrite (Forall_forall _ es). intros Hs Hu Hk Hes. unfold shifted_image.
  split; intros (x & Hx & Hf & ->); exists x;
    destruct (skip_fresh lo k s i x u Hs Hu Hk (Hes _ Hx)) as [E1 E2];
    apply E1 in Hf as Hf'; (split; [done|]); (split; [done|]);
    rewrite E2 by (done || by apply E1); f_equal; lia.
Qed.

Lemma shifted_image_cons i es rest s u o n j :
  shifted_image (i :: es) rest s u o n j <->
  (fresh s u i /\ j = nth_free rest (i - n - count_below i s + o)) \/
  shifted_image es rest s u o n j.
Proof.
  unfold shifted_image. split.
  - intros (x & [->|Hx]%elem_of_cons & ?); [by left|right; eauto].
  - intros [?|(x & Hx & ?)]; [exists i|exists x]; rewrite elem_of_cons; auto.
Qed.

(** The position after index [v], with the ranges up to [u] passed. *)
Lemma add_shifted_loop_spec ex es rest s u o n b l top v :
  built ex b l top -> sep (top - 1) rest ->
  increasing v es -> sep (Z.max u (v + 1) - 1) s ->
  top <= Z.max u (v + 1) - n + o -> 0 <= Z.max u (v + 1) - n ->
  exists rest' b' l' top', add_shifted_loop es rest s u o n b = Some (rest', b') /\
    built ex b' l' top' /\ sep (top' - 1) rest' /\
    (exists k, rest = k ++ rest') /\
    forall j, mem l' j \/ mem rest' j <->
      mem l j \/ mem rest j \/ shifted_image es rest s u o n j.
Proof.
  revert rest s u o n b l top v.
  induction es as [|i es IH]; intros rest s u o n b l top v Hb Hrest Hes Hs Htop Hn; simpl.
  - exists rest, b, l, top. do 3 (split; [done|]). split; [by exists []|]. intros j.
    unfold shifted_image. split; [tauto|]. intros [?|[?|(x & Hx & _)]]; [tauto..|].
    by apply elem_of_nil in Hx.
  - destruct Hes as [Hi Hes].
    assert (Hall : Forall (fun x => i <= x) (i :: es)).
    { constructor; [lia|]. eapply Forall_impl; [by apply increasing_bound|]. simpl. lia. }
    destruct (skip_shifted_spec s i n u) as (k & s' & -> & -> & Hk & Hs').
    set (u' := last_end u k).
    assert (Hmono : Z.max u (v + 1) - n <= Z.max u' (i + 1) - (n + total k) /\ u <= u' /\
      sep (Z.max u' (i + 1) - 1) s').
    { apply sep_app in Hs as [Hks Hss]. destruct k as [|r k].
      - unfold u', last_end, total in *. simpl in *. split; [lia|]. split; [lia|].
        destruct s' as [|r s']; [done|]. destruct Hss as (? & ? & ?).
        split; [lia|]. done.
      - pose proof (total_span _ _ Hks ltac:(done)) as Ht.
        rewrite (last_end_indep _ u) in Ht, Hss by done. fold u' in Ht, Hss.
        assert (0 <= total (r :: k)).
        { rewrite <- (count_below_all _ _ _ Hks) with (1 := Z.le_refl _).
          by eapply count_below_nonneg. }
        split; [lia|]. split; [lia|].
        destruct s' as [|r' s']; [done|]. destruct Hss as (? & ? & ?). split; [lia|done]. }
    destruct Hmono as (Hmono & Huu & Hs2).
    pose proof (fun j => shifted_image_skip _ _ rest k s' i u o n j Hs ltac:(lia) Hk Hall) as Himg.
    fold u' in Himg.
    destruct (Z.ltb_spec i u') as [Hlt|Hge].
    + destruct (IH rest s' u' o (n + total k) b l top i Hb Hrest Hes Hs2) as
        (rest' & b' & l' & top' & -> & Hb' & Hr' & Hk' & Hj); [lia|lia|].
      do 4 eexists. split; [done|]. do 3 (split; [done|]). intros j.
      rewrite Hj, Himg, shifted_image_cons. split; [tauto|].
      intros [?|[?|[[[? _] _]|?]]]; [tauto..|lia|tauto].
    + rewrite (Z.max_r u') in Hmono by lia.
      assert (Hti : Z.max u (v + 1) - n <= i - (n + total k)).
      { destruct k as [|r k]; [unfold total, u', last_end in *; simpl in *; lia|].
        apply sep_app in Hs as [Hks _].
        pose proof (total_span _ _ Hks ltac:(done)) as Ht.
        rewrite (last_end_indep _ u) in Ht by done. fold u' in Ht. lia. }
      destruct (copy_old_spec ex rest (i - (n + total k)) o b l top Hb Hrest) as
        (k2 & rest2 & b2 & l2 & top2 & -> & Hc & Hb2 & Ht2 & Hs3 & Hfree & Hm2); [lia|].
      step_some Hc. rewrite (proj2 (Z.leb_le _ _)) by lia. cbn [negb].
      replace (i - (n + total k) + (o + total k2)) with (i - (n + total k) + (o + total k2)) by lia.
      destruct (push_spec _ _ _ _ (i - (n + total k) + (o + total k2)) Hb2) as
        (b3 & l3 & Hp & Hb3 & Hm3); [lia|]. step_some Hp.
      destruct (IH rest2 s' u' (o + total k2) (n + total k) b3 l3 _ i Hb3) as
        (rest' & b' & l' & top' & -> & Hb' & Hr' & (k3 & Hk3) & Hj); [|done|done|lia|lia|].
      { eapply sep_weaken; [|done]. lia. }
      do 4 eexists. split; [done|]. do 2 (split; [done|]).
      split; [exists (k2 ++ k3); by rewrite Hk3, app_assoc|]. intros j.
      rewrite Hj, Himg, shifted_image_cons, Hm3, Hm2, mem_app.
      assert (Hsi : sep i s') by (eapply sep_weaken; [|done]; lia).
      assert (Hi0 : fresh s' u' i).
      { split; [done|]. intros Hm. apply (mem_lower _ _ _ Hsi) in Hm. lia. }
      rewrite (count_below_none i) by (done || lia).
      assert (Htail : shifted_image es rest2 s' u' (o + total k2) (n + total k) j <->
        shifted_image es (k2 ++ rest2) s' u' o (n + total k) j).
      { unfold shifted_image. apply Forall_cons in Hall as [_ _].
        pose proof (increasing_bound _ _ Hes) as Hb4. rewrite Forall_forall in Hb4.
        split; intros (x & Hx & Hf & ->); exists x; (split; [done|]); (split; [done|]);
          specialize (Hb4 _ Hx); pose proof (count_below_le _ _ x Hsi Hb4);
          (rewrite Hfree by lia); f_equal; lia. }
      rewrite Htail.
      assert (Hj0 : nth_free (k2 ++ rest2) (i - (n + total k) - 0 + o) =
        i - (n + total k) + (o + total k2)).
      { rewrite Hfree by lia. destruct rest2 as [|r2 rest2]; simpl; [lia|].
        destruct Hs3 as (? & _). destruct (Z.ltb_spec (i - (n + total k) - 0 + o + total k2) r2.1); lia. }
      rewrite Hj0. intuition.
Qed.

Lemma chunk_ok_fits ex c : chunk_ok c -> chunk_fits ex c.
Proof. intros (? & ? & Hc). rewrite Hc. cbn. by repeat split. Qed.

(** [add_shifted_by] adds, for every index of [values] that [shifted_by] does
    not have, the index unshifted by [shifted_by] and shifted by the old set.
    The chunk bounds come out right; the counts do when no old range that is
    copied is longer than one index. *)
Lemma add_shifted_by_correct (ex : Prop) d shifted_by values :
  inv d -> inv shifted_by -> inv values ->
  (ex -> Forall (fun r => range_len r = 1) (ranges d)) ->
  exists d', add_shifted_by d shifted_by values = Some d' /\
    Forall (chunk_fits ex) d' /\ ranges_ok (ranges d') /\
    forall j, has d' j <-> has d j \/
      exists v, has values v /\ ~ has shifted_by v /\
        j = nth_free (ranges d) (v - count_below v (ranges shifted_by)).
Proof.
  intros [Hd Hds] [_ Hs] Hv Hex. unfold add_shifted_by.
  destruct (empty values) eqn:Ev.
  { exists d. split; [done|]. split; [eapply Forall_impl; [done|]; intros c; by apply chunk_ok_fits|].
    split; [done|]. intros j. split; [by left|]. intros [?|(v & Hvv & _)]; [done|].
    by apply empty_has in Hvv. }
  destruct (add_shifted_loop_spec ex (elems (ranges values)) (ranges d) (ranges shifted_by) 0 0 0
    _ [] 0 (-1) (builder_built ex d)) as
    (rest & b & l & top & Hl & Hb & Hrest & (k & Hk) & Hj); [done| |done|simpl; lia|simpl; lia|].
  { by apply elems_from_zero. }
  step_some Hl.
  destruct (copy_ranges_spec ex b l top rest Hb Hrest) as (b' & l' & top' & Hc & Hb' & Hm).
  { apply Forall_forall. intros r Hr He. specialize (Hex He). rewrite Hk in Hex.
    apply Forall_app in Hex as [_ Hex]. rewrite Forall_forall in Hex. by apply Hex. }
  step_some Hc. destruct (finalize_spec _ _ _ _ Hb') as (d' & Hf & Hd' & Hr').
  exists d'. split; [done|]. split; [done|]. rewrite Hr'. split; [apply Hb'|].
  intros j. unfold has at 1. rewrite Hr', Hm, Hj. simpl mem.
  assert (E : shifted_image (elems (ranges values)) (ranges d) (ranges shifted_by) 0 0 0 j <->
    exists v, has values v /\ ~ has shifted_by v /\
      j = nth_free (ranges d) (v - count_below v (ranges shifted_by))).
  { unfold shifted_image, fresh. setoid_rewrite <- has_elems. destruct Hv as [_ Hv].
    split; intros (v & Hvv & H1 & ->); exists v; (split; [done|]).
    - split; [apply H1|]. f_equal. lia.
    - pose proof (mem_lower _ _ _ Hv Hvv). split; [split; [lia|done]|]. f_equal. lia. }
  rewrite E. unfold has. tauto.
Qed.

Lemma fits_inv d : Forall (chunk_fits True) d -> ranges_ok (ranges d) -> inv d.
Proof.
  intros Hd Hs. split; [|done]. eapply Forall_impl; [done|]. simpl. intros c. by apply chunk_fits_ok.
Qed.
End shifted_by.

(** ** Walking the indices *)
Section index_iterator.
Context {CS : ChunkSize}.
Implicit Types (d : crv).

(** The iterator is [n] indices into the range it points at. *)
Definition walked d (i : IndexIterator) (l1 l2 : list range) (n : nat) : Prop :=
  cut d (m_iterator i) l1 l2 /\ m_offset i = Z.of_nat n /\
  match l2 with [] => n = O | r :: _ => Z.of_nat n < range_len r end.

Lemma index_loop_spec {A} d (f : A -> Z -> A) i l1 l2 n acc fuel :
  inv d -> walked d i l1 l2 n ->
  (length (elems l2) - n < fuel)%nat ->
  index_loop d f i acc fuel = Some (foldl f acc (drop n (elems l2))).
Proof.
  unfold index_loop. revert i l1 l2 n acc. induction fuel as [|m IH]; intros i l1 l2 n acc Hd Hi Hf; [lia|].
  destruct Hi as (Hc & Ho & Hn). cbn [loop]. rewrite (cut_is_end _ _ _ _ Hc).
  destruct l2 as [|r l2]; [by subst n|].
  pose proof (inv_cut _ _ _ _ Hd Hc) as Hs. apply sep_app in Hs as (_ & _ & Hr & Hs).
  unfold index_deref, index_next. rewrite (cut_deref _ _ _ _ _ Hc). cbn [mbind option_bind].
  rewrite Ho. unfold range_len in Hn.
  set (len := Z.to_nat (r.2 - r.1)).
  assert (Helems : elems (r :: l2) = seqZ r.1 (Z.of_nat len) ++ elems l2).
  { simpl. unfold range_elems, range_len, len. by rewrite Z2Nat.id by lia. }
  assert (Hdrop : drop n (elems (r :: l2)) = (r.1 + Z.of_nat n) :: drop (S n) (elems (r :: l2))).
  { apply drop_S. rewrite Helems, lookup_app_l by (rewrite length_seqZ; lia).
    apply lookup_seqZ. lia. }
  rewrite Hdrop. cbn [foldl].
  destruct (Z.eqb_spec (r.1 + (Z.of_nat n + 1)) r.2) as [E|E].
  - destruct (cut_next _ _ _ _ _ (proj1 Hd) Hc) as (it' & Hnx & Hc'). step_some Hnx.
    rewrite (IH _ (l1 ++ [r]) l2 0%nat) by
      (done || (split; [done|]; split; [done|]; destruct l2 as [|r' l2]; [done|];
         destruct Hs as (_ & ? & _); unfold range_len; simpl; lia) ||
       (rewrite Helems, length_app, length_seqZ in Hf; lia)).
    rewrite drop_0, Helems, (drop_app_ge _ _ (S n)) by (rewrite length_seqZ; lia).
    rewrite length_seqZ. replace (S n - Z.to_nat (Z.of_nat len))%nat with O by lia. done.
  - apply (IH _ l1 (r :: l2) (S n)); [done| |].
    + split; [done|]. split; [simpl; lia|]. unfold range_len. lia.
    + assert (n < length (elems (r :: l2)))%nat; [|lia].
      rewrite Helems, length_app, length_seqZ. lia.
Qed.

(** [for (auto index : set.as_indexes())] visits the indices in order. *)
Lemma index_loop_correct {A} d (f : A -> Z -> A) acc :
  inv d ->
  index_loop d f (index_begin d) acc (S (length (elems (ranges d)))) =
    Some (foldl f acc (elems (ranges d))).
Proof.
  intros Hd. rewrite (index_loop_spec d f _ [] (ranges d) 0%nat) by
    (done || lia || (split; [by apply cut_begin, Hd|]; split; [done|];
      destruct Hd as [_ Hd]; destruct (ranges d) as [|r l]; [done|]; destruct Hd as (_ & ? & _);
      unfold range_len; simpl; lia)).
  by rewrite drop_0.
Qed.
End index_iterator.

(** ** What [IndexSet] promises to its clients *)
(** The operations; [None] is a failed assertion. *)
Class IndexSetOps (IS : Type) := {
  ix_nil : IS;
  ix_ranges : IS -> list range;
  ix_empty : IS -> bool;
  ix_contains : IS -> Z -> option bool;
  ix_count : IS -> Z -> Z -> option Z;
  ix_add : IS -> Z -> option IS;
  ix_add_set : IS -> IS -> option IS;
  ix_add_shifted : IS -> Z -> option (IS * Z);
  ix_add_shifted_by : IS -> IS -> IS -> option IS;
  ix_set : IS -> Z -> option IS;
  ix_clear : IS -> IS;
  ix_insert_at : IS -> Z -> Z -> option IS;
  ix_insert_at_set : IS -> IS -> option IS;
  ix_shift_for_insert_at : IS -> Z -> Z -> option IS;
  ix_shift_for_insert_at_set : IS -> IS -> option IS;
  ix_erase_at : IS -> Z -> option IS;
  ix_erase_at_set : IS -> IS -> option IS;
  ix_erase_or_unshift : IS -> Z -> option (IS * Z);
  ix_remove : IS -> Z -> Z -> option IS;
  ix_remove_set : IS -> IS -> option IS;
  ix_shift : IS -> Z -> Z;
  ix_unshift : IS -> Z -> option Z
}.

(** Membership. *)
Definition ix_has `{IndexSetOps IS} (s : IS) (j : Z) : Prop := mem (ix_ranges s) j.
#[global] Instance ix_has_dec `{IndexSetOps IS} (s : IS) j : Decision (ix_has s j).
Proof. unfold ix_has. apply _. Defined.

(** The position of the [i]th index that is not a member, and the number of
    members before [i]. *)
Definition ix_free `{IndexSetOps IS} (s : IS) (i : Z) : Z := nth_free (ix_ranges s) i.
Definition ix_below `{IndexSetOps IS} (s : IS) (i : Z) : Z := count_below i (ix_ranges s).

(** [gives o P]: the operation succeeds with a result satisfying [P]. *)
Definition gives {A} (o : option A) (P : A -> Prop) : Prop := exists a, o = Some a /\ P a.

Class IndexSetLaws (IS : Type) `{IndexSetOps IS} := {
  (** The representation invariant and the sets [add_shifted_by] handles with
      exact counts. *)
  ix_valid : IS -> Prop;
  ix_short : IS -> Prop;
  ix_valid_sep s : ix_valid s -> ranges_ok (ix_ranges s);
  ix_nil_valid : ix_valid ix_nil;
  ix_nil_ranges : ix_ranges ix_nil = [];
  ix_empty_ranges s : ix_valid s -> ix_empty s = match ix_ranges s with [] => true | _ => false end;
  ix_contains_has s i : ix_valid s -> ix_contains s i = Some (bool_decide (ix_has s i));
  ix_count_below s i : ix_valid s -> 0 <= i -> ix_count s 0 i = Some (ix_below s i);
  ix_count_total s i j : ix_valid s -> exists n, ix_count s i j = Some n;
  ix_add_has s i : ix_valid s -> 0 <= i ->
    gives (ix_add s i) (fun s' => ix_valid s' /\ forall j, ix_has s' j <-> j = i \/ ix_has s j);
  ix_add_set_has s t : ix_valid s -> ix_valid t ->
    gives (ix_add_set s t) (fun s' => ix_valid s' /\ forall j, ix_has s' j <-> ix_has t j \/ ix_has s j);
  ix_add_shifted_has s i : ix_valid s -> 0 <= i ->
    gives (ix_add_shifted s i) (fun '(s', k) => k = ix_free s i /\ ix_valid s' /\
      forall j, ix_has s' j <-> j = k \/ ix_has s j);
  ix_add_shifted_by_has s t v : ix_valid s -> ix_valid t -> ix_valid v -> ix_short s ->
    gives (ix_add_shifted_by s t v) (fun s' => ix_valid s' /\
      forall j, ix_has s' j <-> ix_has s j \/
        exists x, ix_has v x /\ ~ ix_has t x /\ j = ix_free s (x - ix_below t x));
  ix_set_has s n : 0 <= n ->
    gives (ix_set s n) (fun s' => ix_valid s' /\ forall j, ix_has s' j <-> 0 <= j < n);
  ix_clear_nil s : ix_clear s = ix_nil;
  ix_insert_at_has s i n : ix_valid s -> 0 <= i -> 0 < n ->
    gives (ix_insert_at s i n) (fun s' => ix_valid s' /\
      forall j, ix_has s' j <-> i <= j < i + n \/ moved_back i n (ix_has s) j);
  ix_insert_at_set_has s t : ix_valid s -> ix_valid t ->
    gives (ix_insert_at_set s t) (fun s' => ix_valid s' /\
      forall j, ix_has s' j <-> ix_has t j \/ exists x, ix_has s x /\ j = ix_free t x);
  ix_shift_for_insert_at_has s i n : ix_valid s -> 0 <= i -> 0 < n ->
    gives (ix_shift_for_insert_at s i n) (fun s' => ix_valid s' /\
      forall j, ix_has s' j <-> moved_back i n (ix_has s) j);
  ix_shift_for_insert_at_set_has s t : ix_valid s -> ix_valid t ->
    gives (ix_shift_for_insert_at_set s t) (fun s' => ix_valid s' /\
      forall j, ix_has s' j <-> exists x, ix_has s x /\ j = ix_free t x);
  ix_erase_at_has s i : ix_valid s -> 0 <= i ->
    gives (ix_erase_at s i) (fun s' => ix_valid s' /\ forall j, ix_has s' j <-> erased i (ix_has s) j);
  ix_erase_at_set_has s t : ix_valid s -> ix_valid t ->
    gives (ix_erase_at_set s t) (fun s' => ix_valid s' /\
      forall j, ix_has s' j <-> exists x, ix_has s x /\ ~ ix_has t x /\ j = x - ix_below t x);
  ix_erase_or_unshift_has s i : ix_valid s -> 0 <= i ->
    gives (ix_erase_or_unshift s i) (fun '(s', k) =>
      k = (if bool_decide (ix_has s i) then npos else i - ix_below s i) /\ ix_valid s' /\
      forall j, ix_has s' j <-> erased i (ix_has s) j);
  ix_remove_has s i n : ix_valid s -> 0 < n ->
    gives (ix_remove s i n) (fun s' => ix_valid s' /\
      forall j, ix_has s' j <-> ix_has s j /\ ~ (i <= j < i + n));
  ix_remove_set_has s t : ix_valid s -> ix_valid t ->
    gives (ix_remove_set s t) (fun s' => ix_valid s' /\
      forall j, ix_has s' j <-> ix_has s j /\ ~ ix_has t j);
  ix_shift_free s i : ix_shift s i = ix_free s i;
  ix_unshift_below s i : ix_valid s -> 0 <= i -> ix_unshift s i = Some (i - ix_below s i)
}.

(** ** The chunked implementation *)
#[global] Instance chunked_ops `{ChunkSize} : IndexSetOps crv := {|
  ix_nil := [];
  ix_ranges := ranges;
  ix_empty := empty;
  ix_contains := IndexSet.contains;
  ix_count := IndexSet.count;
  ix_add := IndexSet.add;
  ix_add_set := IndexSet.add_set;
  ix_add_shifted := IndexSet.add_shifted;
  ix_add_shifted_by := IndexSetBuild.add_shifted_by;
  ix_set := IndexSet.set;
  ix_clear := IndexSet.clear;
  ix_insert_at := IndexSet.insert_at;
  ix_insert_at_set := IndexSetBuild.insert_at_set;
  ix_shift_for_insert_at := IndexSet.shift_for_insert_at;
  ix_shift_for_insert_at_set := IndexSetBuild.shift_for_insert_at_set;
  ix_erase_at := IndexSet.erase_at;
  ix_erase_at_set := IndexSetBuild.erase_at_set;
  ix_erase_or_unshift := IndexSet.erase_or_unshift;
  ix_remove := IndexSet.remove;
  ix_remove_set := IndexSet.remove_set;
  ix_shift := IndexSet.shift;
  ix_unshift := IndexSet.unshift
|}.

Section chunked_laws.
Context {CS : ChunkSize}.

Lemma set_correct (d : crv) len : 0 <= len ->
  gives (IndexSet.set d len) (fun d' => inv d' /\ forall j, has d' j <-> 0 <= j < len).
Proof.
  intros Hlen. unfold IndexSet.set. destruct (Z.eqb_spec len 0) as [->|Hne].
  - exists []. split; [done|]. split; [apply empty_inv|]. unfold has. simpl. lia.
  - unfold IndexSet.clear. destruct (push_back_spec [] (-1) (0, len)) as (d' & -> & Hd' & Hr); [constructor|simpl; lia|].
    exists d'. split; [done|]. unfold inv, has. rewrite Hr. simpl. split; [split; [done|lia]|].
    intros j. lia.
Qed.

#[global] Instance chunked_laws : IndexSetLaws crv.
Proof.
  refine {| ix_valid := inv; ix_short := fun d => Forall (fun r => range_len r = 1) (ranges d) |}.
  - intros s []. done.
  - apply empty_inv.
  - done.
  - intros s [Hs _]. destruct s as [|c s]; [done|]. apply Forall_cons in Hs as [(Hne & _) _].
    simpl. by destruct (ch_data c).
  - apply contains_correct.
  - apply count_from_zero_correct.
  - apply count_total.
  - apply add_correct.
  - apply add_set_correct.
  - intros s i Hs Hi. destruct (add_shifted_correct s i Hs Hi) as (d' & H & ?). exists (d', nth_free (ranges s) i).
    split; [done|]. by split.
  - intros s t v Hs Ht Hv Hsh.
    destruct (add_shifted_by_correct True s t v Hs Ht Hv (fun _ => Hsh)) as (d' & H & Hf & Hr & Hm).
    exists d'. split; [done|]. split; [by apply fits_inv|done].
  - apply set_correct.
  - done.
  - apply insert_at_correct.
  - apply insert_at_set_correct.
  - apply shift_for_insert_at_correct.
  - apply shift_for_insert_at_set_correct.
  - apply erase_at_correct.
  - apply erase_at_set_correct.
  - intros s i Hs Hi. destruct (erase_or_unshift_correct s i Hs Hi) as (d' & H & ?).
    eexists (d', _). split; [done|]. by split.
  - apply remove_correct.
  - apply remove_set_correct.
  - apply shift_correct.
  - apply unshift_correct.
Defined.
End chunked_laws.

(** ** Consequences of the laws *)
Section consequences.
Context `{IndexSetLaws IS}.
Implicit Types (s t : IS).

Lemma ix_has_nonneg s j : ix_valid s -> ix_has s j -> 0 <= j.
Proof. intros Hs Hj. pose proof (mem_lower _ _ _ (ix_valid_sep _ Hs) Hj). lia. Qed.

Lemma ix_below_nonneg s i : ix_valid s -> 0 <= ix_below s i.
Proof. intros Hs. by eapply count_below_nonneg, ix_valid_sep. Qed.

Lemma ix_below_le s i : ix_valid s -> 0 <= i -> ix_below s i <= i.
Proof. intros Hs Hi. pose proof (count_below_le _ _ i (ix_valid_sep _ Hs)). unfold ix_below. lia. Qed.

Lemma ix_free_ge s i : ix_valid s -> i <= ix_free s i.
Proof. intros Hs. by eapply nth_free_ge, ix_valid_sep. Qed.

Lemma ix_free_not_has s i : ix_valid s -> ~ ix_has s (ix_free s i).
Proof. intros Hs. by eapply nth_free_not_mem, ix_valid_sep. Qed.

(** [shift] and [unshift] are inverse to each other. *)
Lemma ix_unshift_shift s i : ix_valid s -> ix_free s i - ix_below s (ix_free s i) = i.
Proof. intros Hs. by eapply nth_free_count, ix_valid_sep. Qed.

Lemma ix_shift_unshift s i : ix_valid s -> ~ ix_has s i -> ix_free s (i - ix_below s i) = i.
Proof. intros Hs. by eapply nth_free_unshift, ix_valid_sep. Qed.

Lemma ix_free_lt s i j : ix_valid s -> i < j <-> ix_free s i < ix_free s j.
Proof.
  intros Hs. split; [by eapply nth_free_lt, ix_valid_sep|]. intros Hlt.
  destruct (Z.lt_trichotomy i j) as [?|[->|Hji]]; [done|lia|].
  apply (nth_free_lt _ _ _ _ (ix_valid_sep _ Hs)) in Hji. unfold ix_free in *. lia.
Qed.

Lemma ix_free_inj s i j : ix_valid s -> ix_free s i = ix_free s j -> i = j.
Proof. intros Hs. by eapply nth_free_inj, ix_valid_sep. Qed.

(** The free index of rank [i] is the one that is not a member and has [i]
    free indices before it. *)
Lemma ix_free_unique s i k : ix_valid s -> ~ ix_has s k -> k - ix_below s k = i -> ix_free s i = k.
Proof. intros Hs Hk <-. by apply ix_shift_unshift. Qed.
End consequences.
