(* ===== verification/Positions.v ===== *)
(** * How index sets move positions

    A set of indices inserted into or erased from a collection moves the other
    positions.  This file has no code of its own: it relates [nth_free] (the
    position of the [i]th index outside a set) and the rank of a position, and
    proves the composition law that merging change sets relies on. *)
From S2P Require Import Prelude.
From S2P Require Import RangeList.

(** The number of indices before [x] that are not members. *)
Definition rank (l : list range) (x : Z) : Z := x - count_below x l.

Section positions.
Implicit Types (l d i : list range).

Lemma count_below_succ l x :
  ranges_ok l -> count_below (x + 1) l = count_below x l + (if decide (mem l x) then 1 else 0).
Proof.
  assert (forall lo, sep lo l -> count_below (x + 1) l = count_below x l + (if decide (mem l x) then 1 else 0)); [|eauto].
  induction l as [|r l IH]; intros lo; [done|]. intros (? & ? & Hs). specialize (IH _ Hs).
  cbn [count_below]. rewrite IH. pose proof (mem_lower _ _ x Hs).
  destruct (decide (mem l x)) as [Hm|Hm], (decide (mem (r :: l) x)) as [Hm'|Hm'];
    rewrite mem_cons in Hm'; try (specialize (H1 Hm)); try lia;
    try (exfalso; tauto); try (destruct (decide (r.1 <= x < r.2)); [|tauto]; lia).
Qed.

Lemma count_below_zero l x : ranges_ok l -> x <= 0 -> count_below x l = 0.
Proof. intros Hl Hx. apply (count_below_none (-1)); [done|lia]. Qed.

Lemma rank_succ l x :
  ranges_ok l -> rank l (x + 1) = rank l x + (if decide (mem l x) then 0 else 1).
Proof. intros Hl. unfold rank. rewrite count_below_succ by done. case_decide; lia. Qed.

Lemma rank_zero l : ranges_ok l -> rank l 0 = 0.
Proof. intros Hl. unfold rank. rewrite count_below_zero; [done|done|lia]. Qed.

(** Induction on a distance. *)
Lemma upto_ind (P : Z -> Prop) a : P a -> (forall x, a <= x -> P x -> P (x + 1)) -> forall b, a <= b -> P b.
Proof.
  intros Ha Hs b Hb. replace b with (a + Z.of_nat (Z.to_nat (b - a))) by lia.
  induction (Z.to_nat (b - a)) as [|n IH]; [by rewrite Z.add_0_r|].
  replace (a + Z.of_nat (S n)) with (a + Z.of_nat n + 1) by lia. apply Hs; [lia|done].
Qed.

(** Two sets that agree, up to an offset, on an interval count the same there. *)
Lemma count_below_agree l l' k a b :
  ranges_ok l -> ranges_ok l' -> a <= b ->
  (forall y, a <= y < b -> mem l' y <-> mem l (y - k)) ->
  count_below b l' - count_below a l' = count_below (b - k) l - count_below (a - k) l.
Proof.
  intros Hl Hl' Hab. revert b Hab. apply (upto_ind (fun b => _ -> _)); [intros; lia|].
  intros b Hab IH Heq. rewrite count_below_succ by done.
  replace (b + 1 - k) with (b - k + 1) by lia. rewrite (count_below_succ l) by done.
  specialize (IH ltac:(intros; apply Heq; lia)). specialize (Heq b ltac:(lia)).
  destruct (decide (mem l' b)), (decide (mem l (b - k))); (lia || tauto).
Qed.

Lemma count_below_full l a b :
  ranges_ok l -> a <= b -> (forall y, a <= y < b -> mem l y) ->
  count_below b l - count_below a l = b - a.
Proof.
  intros Hl Hab. revert b Hab. apply (upto_ind (fun b => _ -> _)); [intros; lia|].
  intros b Hab IH Hall. rewrite count_below_succ, decide_True by (done || apply Hall; lia).
  specialize (IH ltac:(intros; apply Hall; lia)). lia.
Qed.

Lemma rank_mono l x y : ranges_ok l -> x <= y -> rank l x <= rank l y.
Proof.
  intros Hl Hxy. revert y Hxy. apply (upto_ind (fun y => _)); [lia|].
  intros y _ IH. rewrite rank_succ by done. case_decide; lia.
Qed.

Lemma rank_lt l x y : ranges_ok l -> ~ mem l x -> x < y -> rank l x < rank l y.
Proof.
  intros Hl Hx Hxy. pose proof (rank_mono l (x + 1) y Hl ltac:(lia)).
  rewrite rank_succ, decide_False in H by done. lia.
Qed.

Lemma rank_nonneg l x : ranges_ok l -> 0 <= x -> 0 <= rank l x.
Proof. intros Hl Hx. rewrite <- (rank_zero l Hl). by apply rank_mono. Qed.

Lemma rank_free l q : ranges_ok l -> rank l (nth_free l q) = q.
Proof. intros Hl. by eapply nth_free_count. Qed.

Lemma free_rank l x : ranges_ok l -> ~ mem l x -> nth_free l (rank l x) = x.
Proof. intros Hl Hx. by eapply nth_free_unshift. Qed.

Lemma free_not_mem l q : ranges_ok l -> ~ mem l (nth_free l q).
Proof. intros Hl. by eapply nth_free_not_mem. Qed.

Lemma free_nonneg l q : ranges_ok l -> 0 <= q -> 0 <= nth_free l q.
Proof. intros Hl Hq. pose proof (nth_free_ge _ _ q Hl). lia. Qed.

(** Everything between two consecutive free positions is a member. *)
Lemma free_gap l q y : ranges_ok l -> nth_free l q < y < nth_free l (q + 1) -> mem l y.
Proof.
  intros Hl Hy. destruct (decide (mem l y)) as [|Hn]; [done|exfalso].
  pose proof (rank_lt l (nth_free l q) y Hl ltac:(by apply free_not_mem)).
  pose proof (rank_lt l y (nth_free l (q + 1)) Hl Hn).
  rewrite !rank_free in * by done. lia.
Qed.

Lemma free_first l y : ranges_ok l -> 0 <= y < nth_free l 0 -> mem l y.
Proof.
  intros Hl Hy. destruct (decide (mem l y)) as [|Hn]; [done|exfalso].
  pose proof (rank_lt l y (nth_free l 0) Hl Hn ltac:(lia)).
  pose proof (rank_nonneg l y Hl ltac:(lia)). rewrite rank_free in * by done. lia.
Qed.

(** *** Adding and removing one index *)
Lemma count_below_add l l' x k :
  ranges_ok l -> ranges_ok l' -> ~ mem l x -> (forall y, mem l' y <-> y = x \/ mem l y) -> 0 <= x ->
  count_below k l' = count_below k l + (if decide (x < k) then 1 else 0).
Proof.
  intros Hl Hl' Hx Heq Hx0. destruct (decide (x < k)) as [Hlt|Hge].
  - pose proof (count_below_agree l l' 0 0 x Hl Hl' ltac:(lia)) as H1.
    pose proof (count_below_agree l l' 0 (x + 1) k Hl Hl' ltac:(lia)) as H2.
    rewrite !Z.sub_0_r in *. rewrite (count_below_zero l' 0), (count_below_zero l 0) in H1 by (done || lia).
    rewrite !count_below_succ in H2 by done.
    rewrite (decide_True (P := mem l' x)), (decide_False (P := mem l x)) in H2 by (done || (apply Heq; by left)).
    assert (count_below x l' = count_below x l).
    { apply H1 || (enough (count_below x l' - 0 = count_below x l - 0) by lia; apply H1).
      intros y Hy. rewrite Z.sub_0_r, Heq. split; [intros [?|?]; [lia|done]|tauto]. }
    enough (count_below k l' - (count_below x l' + 1) = count_below k l - (count_below x l + 0)) by lia.
    apply H2. intros y Hy. rewrite Z.sub_0_r, Heq. split; [intros [?|?]; [lia|done]|tauto].
  - destruct (decide (k <= 0)); [rewrite !count_below_zero by (done || lia); done|].
    pose proof (count_below_agree l l' 0 0 k Hl Hl' ltac:(lia)) as H1.
    rewrite !Z.sub_0_r in *. rewrite (count_below_zero l' 0), (count_below_zero l 0) in H1 by (done || lia).
    enough (count_below k l' - 0 = count_below k l - 0) by lia. apply H1.
    intros y Hy. rewrite Z.sub_0_r, Heq. split; [intros [?|?]; [lia|done]|tauto].
Qed.

(** Adding the free position of rank [r] closes the gap it leaves. *)
Lemma free_add l l' r q :
  ranges_ok l -> ranges_ok l' -> 0 <= r ->
  (forall y, mem l' y <-> y = nth_free l r \/ mem l y) ->
  nth_free l' q = if decide (q < r) then nth_free l q else nth_free l (q + 1).
Proof.
  intros Hl Hl' Hr Heq.
  assert (Hk : forall p, p <> r -> ~ mem l' (nth_free l p)).
  { intros p Hp [Hm|Hm]%Heq; [by apply Hp, (nth_free_inj _ _ _ _ Hl)|by apply (free_not_mem _ _ Hl) in Hm]. }
  assert (Hc : forall p, rank l' (nth_free l p) = p - (if decide (r < p) then 1 else 0)).
  { intros p. unfold rank. rewrite (count_below_add l l' (nth_free l r)) by
      (done || by apply free_not_mem || by apply free_nonneg).
    pose proof (rank_free l p Hl). unfold rank in *.
    destruct (decide (r < p)) as [H1|H1], (decide (nth_free l r < nth_free l p)) as [H2|H2]; [lia| | |lia].
    - by pose proof (nth_free_lt _ _ _ _ Hl H1).
    - destruct (decide (p = r)) as [->|]; [lia|].
      pose proof (nth_free_lt _ _ p r Hl). lia. }
  case_decide.
  - rewrite <- (free_rank l' (nth_free l q)) by (done || apply Hk; lia).
    rewrite Hc, decide_False by lia. f_equal. lia.
  - rewrite <- (free_rank l' (nth_free l (q + 1))) by (done || apply Hk; lia).
    rewrite Hc, decide_True by lia. f_equal. lia.
Qed.

(** *** Composition
    [i'] is [i] together with where the members of [a] go when [d] is erased
    and [i] is inserted.  Then the rank in [i'] of the new place of [k] counts
    the positions before [k] that are in neither [d] nor [a]. *)
Fixpoint outside (d a : list range) (n : nat) : Z :=
  match n with
  | O => 0
  | S n => outside d a n +
      (if decide (mem d (Z.of_nat n) \/ mem a (Z.of_nat n)) then 0 else 1)
  end.

Lemma outside_comm d a n : outside d a n = outside a d n.
Proof. induction n as [|n IH]; [done|]. simpl. rewrite IH. do 2 case_decide; (lia || tauto). Qed.

Lemma rank_image d i a i' k :
  ranges_ok d -> ranges_ok i -> ranges_ok i' ->
  (forall j, mem i' j <-> mem i j \/ exists x, mem a x /\ ~ mem d x /\ j = nth_free i (rank d x)) ->
  rank i' (nth_free i (rank d (Z.of_nat k))) = outside d a k.
Proof.
  intros Hd Hi Hi' Heq. induction k as [|k IH].
  - simpl Z.of_nat. rewrite rank_zero by done. simpl. unfold rank.
    pose proof (count_below_full i' 0 (nth_free i 0) Hi') as H.
    rewrite (count_below_zero i' 0) in H by (done || lia).
    assert (count_below (nth_free i 0) i' - 0 = nth_free i 0 - 0); [|lia].
    apply H; [by apply free_nonneg|]. intros y Hy. apply Heq. left. by apply free_first.
  - replace (Z.of_nat (S k)) with (Z.of_nat k + 1) by lia. simpl outside.
    rewrite rank_succ by done. destruct (decide (mem d (Z.of_nat k))) as [Hkd|Hkd].
    { rewrite Z.add_0_r, IH, decide_True by tauto. lia. }
    set (q := rank d (Z.of_nat k)) in *.
    pose proof (nth_free_lt _ _ q (q + 1) Hi ltac:(lia)) as Hlt.
    pose proof (count_below_full i' (nth_free i q + 1) (nth_free i (q + 1)) Hi' ltac:(lia)) as Hf.
    pose proof (rank_succ i' (nth_free i q) Hi') as Hs. unfold rank at 1 2 in Hs.
    unfold rank in IH |- *.
    assert (Hmid : count_below (nth_free i (q + 1)) i' - count_below (nth_free i q + 1) i' =
      nth_free i (q + 1) - (nth_free i q + 1)).
    { apply Hf. intros y Hy. apply Heq. left. apply (free_gap i q); [done|lia]. }
    assert (Hm : mem i' (nth_free i q) <-> mem a (Z.of_nat k)).
    { rewrite Heq. split.
      - intros [Hm|(x & Ha & Hx & E)]; [by apply (free_not_mem _ _ Hi) in Hm|].
        apply (nth_free_inj _ _ _ _ Hi) in E. rewrite <- (free_rank d (Z.of_nat k)) by done.
        fold q. rewrite E. by rewrite free_rank.
      - intros Ha. right. by exists (Z.of_nat k). }
    destruct (decide (mem i' (nth_free i q))), (decide (mem d (Z.of_nat k) \/ mem a (Z.of_nat k)));
      (lia || tauto).
Qed.
End positions.
