(* ===== verification/IndexSetTheorems.v ===== *)
(** * Theorems about [realm::IndexSet]

    What each operation of [index_set.cpp] does, for every chunk size, with a
    concrete run of the code for every theorem that has hypotheses. *)
From S2P Require Import Prelude.
From S2P Require Import RangeList.
From S2P Require Import ChunkedVector.
From S2P Require Import IndexSets.
From S2P Require Import IndexSetFacts.
From S2P Require Import IndexSetShifts.
From S2P Require Import IndexSetInterface.
From S2P Require Import Positions.
Import IndexSet IndexSetBuild.

(** The index sets a program can build with the operations of the class, where
    [add_shifted_by] is only called on a set without adjacent indices: on others it
    can leave a chunk with a wrong count
    ([index_set_add_shifted_by_wrong_count]). *)
Inductive reachable {CS : ChunkSize} : crv -> Prop :=
| reach_empty : reachable []
| reach_add d i d' : reachable d -> 0 <= i -> add d i = Some d' -> reachable d'
| reach_add_set d e d' : reachable d -> reachable e -> add_set d e = Some d' -> reachable d'
| reach_add_shifted d i d' k : reachable d -> 0 <= i -> add_shifted d i = Some (d', k) -> reachable d'
| reach_add_shifted_by d t v d' : reachable d -> reachable t -> reachable v -> Forall (fun r => range_len r = 1) (ranges d) ->
    add_shifted_by d t v = Some d' -> reachable d'
| reach_set d n d' : reachable d -> 0 <= n -> set d n = Some d' -> reachable d'
| reach_insert_at d i n d' : reachable d -> 0 <= i -> 0 < n -> insert_at d i n = Some d' -> reachable d'
| reach_insert_at_set d e d' : reachable d -> reachable e -> insert_at_set d e = Some d' -> reachable d'
| reach_shift_for_insert_at d i n d' :
    reachable d -> 0 <= i -> 0 < n -> shift_for_insert_at d i n = Some d' -> reachable d'
| reach_shift_for_insert_at_set d e d' :
    reachable d -> reachable e -> shift_for_insert_at_set d e = Some d' -> reachable d'
| reach_erase_at d i d' : reachable d -> 0 <= i -> erase_at d i = Some d' -> reachable d'
| reach_erase_at_set d e d' : reachable d -> reachable e -> erase_at_set d e = Some d' -> reachable d'
| reach_erase_or_unshift d i d' k : reachable d -> 0 <= i -> erase_or_unshift d i = Some (d', k) -> reachable d'
| reach_remove d i n d' : reachable d -> 0 < n -> remove d i n = Some d' -> reachable d'
| reach_remove_set d e d' : reachable d -> reachable e -> remove_set d e = Some d' -> reachable d'.

(** A result of a total operation is the one its specification describes. *)
Ltac use_spec H :=
  let x := fresh in destruct H as (x & ? & ? & _); simplify_eq; assumption.

Section reachable.
Context {CS : ChunkSize}.

Lemma reachable_inv d : reachable d -> inv d.
Proof.
  induction 1.
  - apply empty_inv.
  - use_spec (add_correct d i).
  - use_spec (add_set_correct d e).
  - use_spec (add_shifted_correct d i).
  - match goal with Hd : inv d, Ht : inv t, Hv : inv v, Hl : Forall _ _ |- _ =>
      destruct (add_shifted_by_correct True d t v Hd Ht Hv (fun _ => Hl)) as (x & Ex & Hf & Hr & _) end.
    simplify_eq. by apply fits_inv.
  - use_spec (set_correct d n).
  - use_spec (insert_at_correct d i n).
  - use_spec (insert_at_set_correct d e).
  - use_spec (shift_for_insert_at_correct d i n).
  - use_spec (shift_for_insert_at_set_correct d e).
  - use_spec (erase_at_correct d i).
  - use_spec (erase_at_set_correct d e).
  - use_spec (erase_or_unshift_correct d i).
  - use_spec (remove_correct d i n).
  - use_spec (remove_set_correct d e).
Qed.
End reachable.

(** ** The claims *)
Section theorems.
Context {CS : ChunkSize}.
Implicit Types (d : crv).

(** C40: every index set built with the operations of the class passes the
    check of [ChunkedRangeVector::verify]: ranges sorted and separated, chunk
    bounds and counts exact, whatever splits and merges of chunks happened.
    [add_shifted_by] counts only when it is called on a set without adjacent
    indices; otherwise it can leave a chunk with a wrong count. *)
Theorem index_set_verified d : reachable d -> verify d = true.
Proof. intros Hd. by apply inv_verify, reachable_inv. Qed.

(** [contains] never fails and decides membership. *)
Theorem index_set_contains d index :
  reachable d -> contains d index = Some (bool_decide (has d index)).
Proof. intros Hd. by apply contains_correct, reachable_inv. Qed.

(** [add] never fails and adds exactly the index. *)
Theorem index_set_add d index :
  reachable d -> 0 <= index ->
  exists d', add d index = Some d' /\ verify d' = true /\
    forall j, has d' j <-> j = index \/ has d j.
Proof.
  intros Hd Hi. destruct (add_correct d index) as (d' & H & Hinv & Hm); [by apply reachable_inv|done|].
  exists d'. split; [done|]. split; [by apply inv_verify|done].
Qed.

(** [add_shifted] adds the index that has [index] non-members before it
    and is not a member itself, and returns it. *)
Theorem index_set_add_shifted d index :
  reachable d -> 0 <= index ->
  exists d' k, add_shifted d index = Some (d', k) /\ verify d' = true /\
    ~ has d k /\ k - count_below k (ranges d) = index /\
    forall j, has d' j <-> j = k \/ has d j.
Proof.
  intros Hd%reachable_inv Hi. destruct (add_shifted_correct d index Hd Hi) as (d' & Ha & Hinv & Hm).
  exists d', (nth_free (ranges d) index). split; [done|]. split; [by apply inv_verify|].
  destruct Hd as [_ Hs]. split; [by eapply nth_free_not_mem|]. split; [by eapply nth_free_count|done].
Qed.

(** [insert_at(index, count)] moves the members at or after [index] up by
    [count] and adds the [count] new indices. *)
Theorem index_set_insert_at d index count :
  reachable d -> 0 <= index -> 0 < count ->
  exists d', insert_at d index count = Some d' /\ verify d' = true /\
    forall j, has d' j <-> index <= j < index + count \/
      (j < index /\ has d j) \/ (index + count <= j /\ has d (j - count)).
Proof.
  intros Hd%reachable_inv Hi Hn. destruct (insert_at_correct d index count Hd Hi Hn) as (d' & Ha & Hinv & Hm).
  exists d'. split; [done|]. split; [by apply inv_verify|done].
Qed.

(** [erase_or_unshift] removes the index and moves later members down by
    one; it returns [npos] for a member and otherwise the index less the
    members before it. *)
Theorem index_set_erase_or_unshift d index :
  reachable d -> 0 <= index ->
  exists d', erase_or_unshift d index =
      Some (d', if bool_decide (has d index) then npos else index - count_below index (ranges d)) /\
    verify d' = true /\
    forall j, has d' j <-> (j < index /\ has d j) \/ (index <= j /\ has d (j + 1)).
Proof.
  intros Hd%reachable_inv Hi. destruct (erase_or_unshift_correct d index Hd Hi) as (d' & Ha & Hinv & Hm).
  exists d'. split; [done|]. split; [by apply inv_verify|done].
Qed.

(** [remove] of a set is set difference. *)
Theorem index_set_remove_set d values :
  reachable d -> reachable values ->
  exists d', remove_set d values = Some d' /\ verify d' = true /\
    forall j, has d' j <-> has d j /\ ~ has values j.
Proof.
  intros Hd%reachable_inv Hv%reachable_inv.
  destruct (remove_set_correct d values Hd Hv) as (d' & Ha & Hinv & Hm).
  exists d'. split; [done|]. split; [by apply inv_verify|done].
Qed.

(** [count(0, index)] is the number of members below [index], computed
    from the cached chunk counts. *)
Theorem index_set_count_from_zero d index :
  reachable d -> 0 <= index ->
  count d 0 index = Some (Z.of_nat (length (filter (fun i => i < index) (elems (ranges d))))).
Proof.
  intros Hd%reachable_inv Hi. rewrite count_from_zero_correct by done. f_equal.
  destruct Hd as [_ Hs]. by eapply count_below_elems.
Qed.

(** [unshift] undoes [shift], and [shift] undoes [unshift] on the indices
    that are not members. *)
Theorem index_set_shift_unshift d index :
  reachable d -> 0 <= index ->
  unshift d (shift d index) = Some index /\
  (~ has d index -> exists k, unshift d index = Some k /\ shift d k = index).
Proof.
  intros Hd%reachable_inv Hi. pose proof Hd as [_ Hs]. rewrite shift_correct.
  pose proof (nth_free_ge _ _ index Hs). split.
  - rewrite unshift_correct by (done || lia). f_equal. by eapply nth_free_count.
  - intros Hn. rewrite unshift_correct by done. eexists. split; [done|].
    rewrite shift_correct. by eapply nth_free_unshift.
Qed.

(** inserting a set of positions and erasing the same positions again
    gives back a set with the same ranges. *)
Theorem index_set_insert_erase d positions :
  reachable d -> reachable positions ->
  exists d1 d2, insert_at_set d positions = Some d1 /\ erase_at_set d1 positions = Some d2 /\
    ranges d2 = ranges d.
Proof.
  intros Hd%reachable_inv Hp%reachable_inv.
  destruct (insert_at_set_correct d positions Hd Hp) as (d1 & H1 & Hd1 & Hm1).
  destruct (erase_at_set_correct d1 positions Hd1 Hp) as (d2 & H2 & Hd2 & Hm2).
  exists d1, d2. split; [done|]. split; [done|]. apply inv_unique; [done|done|].
  destruct Hp as [_ Hp]. intros j. rewrite Hm2. split.
  - intros (x & Hx & Hn & ->). apply Hm1 in Hx as [?|(y & Hy & ->)]; [done|].
    by rewrite (nth_free_count (-1)).
  - intros Hj. exists (nth_free (ranges positions) j). split; [apply Hm1; right; by exists j|].
    split; [by eapply nth_free_not_mem|]. symmetry. by eapply nth_free_count.
Qed.

(** [add_shifted_by] adds, for every index of [values] that is not in
    [shifted_by], that index unshifted by [shifted_by] and shifted by the old
    set; the ranges and the chunk bounds of the result are right. *)
Theorem index_set_add_shifted_by d shifted_by values :
  reachable d -> reachable shifted_by -> reachable values ->
  exists d', add_shifted_by d shifted_by values = Some d' /\
    ranges_ok (ranges d') /\
    Forall (fun c => ch_data c <> [] /\ ch_begin c = first_of (ch_data c) /\
      ch_end c = last_end 0 (ch_data c)) d' /\
    forall j, has d' j <-> has d j \/
      exists v, has values v /\ ~ has shifted_by v /\
        j = nth_free (ranges d) (v - count_below v (ranges shifted_by)).
Proof.
  intros Hd%reachable_inv Hs%reachable_inv Hv%reachable_inv.
  destruct (add_shifted_by_correct False d shifted_by values Hd Hs Hv) as (d' & Ha & Hf & Hr & Hm); [done|].
  exists d'. split; [done|]. split; [done|]. split; [|done].
  eapply Forall_impl; [exact Hf|]. intros c (? & _ & ? & ? & _). done.
Qed.

(** iterating [as_indexes()] visits exactly the members, in increasing
    order. *)
Theorem index_set_as_indexes d :
  reachable d ->
  exists es, index_loop d (fun acc i => acc ++ [i]) (index_begin d) [] (S (length (elems (ranges d)))) = Some es /\
    increasing (-1) es /\ forall j, j ∈ es <-> has d j.
Proof.
  intros Hd%reachable_inv. rewrite index_loop_correct by done. eexists. split; [done|].
  assert (E : forall es acc, foldl (fun acc (i : Z) => acc ++ [i]) acc es = acc ++ es).
  { induction es as [|e es IH]; intros acc; simpl; [by rewrite app_nil_r|].
    by rewrite IH, <- app_assoc. }
  rewrite E. simpl. split; [apply elems_increasing, Hd|]. intros j. apply mem_elems.
Qed.
End theorems.

(** ** Concrete runs *)
Section witnesses.
#[local] Existing Instance debug_chunk_size.

(** Six separate ranges: two chunks of the debug size. *)
Definition evens : crv := default [] (of_list [0; 2; 4; 6; 8; 10]).
Definition odd_run : crv := default [] (of_list [1; 3; 4; 5]).

Lemma of_list_reachable values d :
  Forall (fun v => 0 <= v) values -> of_list values = Some d -> reachable d.
Proof.
  unfold of_list. intros Hv. assert (H0 := reach_empty). revert H0. generalize (@nil Chunk) as e.
  induction Hv as [|v values Hv _ IH]; intros e He E; [by simplify_eq/=|].
  simpl in E. destruct (add e v) as [e1|] eqn:Ea; [|done]. by eapply IH, E; eapply reach_add.
Qed.

Lemma evens_reachable : reachable evens.
Proof. apply (of_list_reachable [0; 2; 4; 6; 8; 10]); [repeat constructor; lia|reflexivity]. Defined.

Lemma odd_run_reachable : reachable odd_run.
Proof. apply (of_list_reachable [1; 3; 4; 5]); [repeat constructor; lia|reflexivity]. Defined.

Lemma index_set_verified_witness : length evens = 2%nat /\ verify evens = true.
Proof. split; [reflexivity|]. apply index_set_verified. exact evens_reachable. Defined.

Lemma index_set_contains_witness : contains evens 8 = Some (bool_decide (has evens 8)).
Proof. apply index_set_contains. exact evens_reachable. Defined.

Lemma index_set_add_witness :
  exists d', add evens 5 = Some d' /\ verify d' = true /\ forall j, has d' j <-> j = 5 \/ has evens j.
Proof. apply index_set_add; [exact evens_reachable|lia]. Defined.

Lemma index_set_add_shifted_witness :
  exists d' k, add_shifted evens 3 = Some (d', k) /\ verify d' = true /\
    ~ has evens k /\ k - count_below k (ranges evens) = 3 /\ forall j, has d' j <-> j = k \/ has evens j.
Proof. apply index_set_add_shifted; [exact evens_reachable|lia]. Defined.

Lemma index_set_insert_at_witness :
  exists d', insert_at evens 3 2 = Some d' /\ verify d' = true /\
    forall j, has d' j <-> 3 <= j < 3 + 2 \/ (j < 3 /\ has evens j) \/ (3 + 2 <= j /\ has evens (j - 2)).
Proof. apply index_set_insert_at; [exact evens_reachable|lia|lia]. Defined.

Lemma index_set_erase_or_unshift_witness :
  exists d', erase_or_unshift evens 5 =
      Some (d', if bool_decide (has evens 5) then npos else 5 - count_below 5 (ranges evens)) /\
    verify d' = true /\ forall j, has d' j <-> (j < 5 /\ has evens j) \/ (5 <= j /\ has evens (j + 1)).
Proof. apply index_set_erase_or_unshift; [exact evens_reachable|lia]. Defined.

Lemma index_set_remove_set_witness :
  exists d', remove_set evens odd_run = Some d' /\ verify d' = true /\
    forall j, has d' j <-> has evens j /\ ~ has odd_run j.
Proof. apply index_set_remove_set; [exact evens_reachable|exact odd_run_reachable]. Defined.

Lemma index_set_count_from_zero_witness :
  count evens 0 7 = Some (Z.of_nat (length (filter (fun i => i < 7) (elems (ranges evens))))).
Proof. apply index_set_count_from_zero; [exact evens_reachable|lia]. Defined.

Lemma index_set_shift_unshift_witness :
  unshift evens (shift evens 3) = Some 3 /\
  (~ has evens 3 -> exists k, unshift evens 3 = Some k /\ shift evens k = 3).
Proof. apply index_set_shift_unshift; [exact evens_reachable|lia]. Defined.

Lemma index_set_insert_erase_witness :
  exists d1 d2, insert_at_set evens odd_run = Some d1 /\ erase_at_set d1 odd_run = Some d2 /\
    ranges d2 = ranges evens.
Proof. apply index_set_insert_erase; [exact evens_reachable|exact odd_run_reachable]. Defined.

Lemma index_set_add_shifted_by_witness :
  exists d', add_shifted_by evens odd_run evens = Some d' /\
    ranges_ok (ranges d') /\
    Forall (fun c => ch_data c <> [] /\ ch_begin c = first_of (ch_data c) /\
      ch_end c = last_end 0 (ch_data c)) d' /\
    forall j, has d' j <-> has evens j \/
      exists v, has evens v /\ ~ has odd_run v /\
        j = nth_free (ranges evens) (v - count_below v (ranges odd_run)).
Proof.
  apply index_set_add_shifted_by; [exact evens_reachable|exact odd_run_reachable|exact evens_reachable].
Defined.

Lemma index_set_as_indexes_witness :
  exists es, index_loop evens (fun acc i => acc ++ [i]) (index_begin evens) []
      (S (length (elems (ranges evens)))) = Some es /\
    increasing (-1) es /\ forall j, j ∈ es <-> has evens j.
Proof. apply index_set_as_indexes. exact evens_reachable. Defined.

(** [count] with a start inside a chunk can miss members: here eight of
    the ten indices 10 to 19 and 1, 3, 5, 7 lie in the interval from 2 to 15
    and [count] answers three, because it stops at the end of the first chunk
    when the next chunk's first range reaches past the end of the interval. *)
Theorem index_set_count_misses :
  exists d, of_list [1; 3; 5; 7; 10; 11; 12; 13; 14; 15; 16; 17; 18; 19] = Some d /\
    verify d = true /\ count d 2 15 = Some 3 /\
    length (filter (fun i => 2 <= i < 15) (elems (ranges d))) = 8%nat.
Proof.
  exists (default [] (of_list [1; 3; 5; 7; 10; 11; 12; 13; 14; 15; 16; 17; 18; 19])).
  vm_compute. repeat split.
Qed.

(** [add_shifted_by] can leave a chunk with a wrong count: copying the
    old range of ten indices into a chunk that was not preallocated records a
    count of one, and the check of [verify] fails. *)
Theorem index_set_add_shifted_by_wrong_count :
  exists old values d,
    (long ← set [] 10; shift_for_insert_at long 0 100) = Some old /\
    of_list [0; 2; 4; 6] = Some values /\
    add_shifted_by old [] values = Some d /\
    ranges d = [(0, 1); (2, 3); (4, 5); (6, 7); (100, 110)] /\
    ch_count <$> d = [4; 1] /\ verify d = false.
Proof.
  exists (default [] (long ← set [] 10; shift_for_insert_at long 0 100)),
    (default [] (of_list [0; 2; 4; 6])),
    (default [] (old ← (long ← set [] 10; shift_for_insert_at long 0 100);
       values ← of_list [0; 2; 4; 6]; add_shifted_by old [] values)).
  vm_compute. repeat split.
Qed.
End witnesses.
