(* ===== verification/ChangeBuilder.v ===== *)
(** * [CollectionChangeBuilder]: building and merging change sets

    Models [impl/collection_change_builder.cpp] (the change computation between
    two row lists is in [ChangeCalc]) over any implementation of the index set
    interface.  [None] is a failed [REALM_ASSERT]; the assertions of debug
    builds are checked where [realm_debug] is set, so a theorem holds for both
    kinds of build. *)
From stdpp Require Import gmap sorting.
From S2P Require Import Prelude.
From S2P Require Import RangeList.
From S2P Require Import IndexSets.
From S2P Require Import IndexSetInterface.

(** [REALM_DEBUG] *)
Class BuildMode := { realm_debug : bool }.

(** [REALM_ASSERT], [REALM_ASSERT_DEBUG] *)
Definition realm_assert_debug `{BuildMode} (b : option bool) : option unit :=
  if realm_debug then b ← b; realm_assert b else Some tt.

(** [CollectionChangeSet::Move] *)
Record Move := mkMove { from : Z; to : Z }.
#[global] Instance move_eq_dec : EqDecision Move.
Proof. solve_decision. Defined.

(** [CollectionChangeSet] *)
Record CollectionChangeSet {IS : Type} := mkCollectionChangeSet {
  c_deletions : IS;
  c_insertions : IS;
  c_modifications : IS;
  c_modifications_new : IS;
  c_moves : list Move;
  c_columns : list IS
}.
Arguments CollectionChangeSet : clear implicits.
Arguments mkCollectionChangeSet {IS}.

(** [CollectionChangeBuilder]; its [modifications_new] stays empty until
    [finalize].  [m_move_mapping] is new index -> old index. *)
Record CollectionChangeBuilder {IS : Type} := mkBuilder {
  deletions : IS;
  insertions : IS;
  modifications : IS;
  moves : list Move;
  columns : list IS;
  m_move_mapping : gmap Z Z;
  m_track_columns : bool
}.
Arguments CollectionChangeBuilder : clear implicits.
Arguments mkBuilder {IS}.

Module ChangeBuilder.
Section change_builder.
Context `{IndexSetOps IS} `{BuildMode}.
Abbreviation builder := (CollectionChangeBuilder IS).
Implicit Types (b c : builder).

Definition set_deletions (x : IS) b : builder :=
  mkBuilder x (insertions b) (modifications b) (moves b) (columns b) (m_move_mapping b) (m_track_columns b).
Definition set_insertions (x : IS) b : builder :=
  mkBuilder (deletions b) x (modifications b) (moves b) (columns b) (m_move_mapping b) (m_track_columns b).
Definition set_modifications (x : IS) b : builder :=
  mkBuilder (deletions b) (insertions b) x (moves b) (columns b) (m_move_mapping b) (m_track_columns b).
Definition set_moves (x : list Move) b : builder :=
  mkBuilder (deletions b) (insertions b) (modifications b) x (columns b) (m_move_mapping b) (m_track_columns b).
Definition set_columns (x : list IS) b : builder :=
  mkBuilder (deletions b) (insertions b) (modifications b) (moves b) x (m_move_mapping b) (m_track_columns b).
Definition set_mapping (x : gmap Z Z) b : builder :=
  mkBuilder (deletions b) (insertions b) (modifications b) (moves b) (columns b) x (m_track_columns b).

Definition empty_builder : builder := mkBuilder ix_nil ix_nil ix_nil [] [] ∅ true.

(** The constructor from parts: every move is also a deletion and an insertion. *)
Fixpoint add_moves (ms : list Move) (d i : IS) : option (IS * IS) :=
  match ms with
  | [] => Some (d, i)
  | m :: ms => d ← ix_add d (from m); i ← ix_add i (to m); add_moves ms d i
  end.

Definition make (d i m : IS) (ms : list Move) : option builder :=
  '(d, i) ← add_moves ms d i;
  Some (mkBuilder d i m ms [] ∅ true).

(** [CollectionChangeSet::empty] *)
Definition empty b : bool :=
  ix_empty (deletions b) && ix_empty (insertions b) && ix_empty (modifications b)
  && match moves b with [] => true | _ => false end.

(** [verify] *)
Fixpoint all_moves_in (ms : list Move) (d i : IS) : option bool :=
  match ms with
  | [] => Some true
  | m :: ms =>
    f ← ix_contains d (from m);
    t ← ix_contains i (to m);
    rest ← all_moves_in ms d i;
    Some (f && t && rest)
  end.
Definition verify b : option unit :=
  realm_assert_debug (all_moves_in (moves b) (deletions b) (insertions b)).

(** [for_each_col] *)
Definition for_each_col (f : IS -> option IS) b : option builder :=
  m ← f (modifications b);
  cols ← (if m_track_columns b then mapM f (columns b) else Some (columns b));
  Some (set_columns cols (set_modifications m b)).

(** [modify]; the column [npos] is no column *)
Definition resize (n : nat) (cols : list IS) : list IS := cols ++ replicate (n - length cols) ix_nil.

Definition modify b (ndx col : Z) : option builder :=
  m ← ix_add (modifications b) ndx;
  let b := set_modifications m b in
  if negb (m_track_columns b) || (col =? npos) then Some b
  else
    let cols := if Z.of_nat (length (columns b)) <=? col
                then resize (Z.to_nat col + 1) (columns b) else columns b in
    s ← cols !! Z.to_nat col;
    s ← ix_add s ndx;
    Some (set_columns (<[Z.to_nat col := s]> cols) b).

(** [insert] *)
Definition insert_shifted (shifted : list (Z * Z)) (m : gmap Z Z) : gmap Z Z :=
  foldl (fun m p => match m !! p.1 with Some _ => m | None => <[p.1 := p.2]> m end) m shifted.

Definition shift_mapping (index count : Z) (m : gmap Z Z) : gmap Z Z :=
  let shifted := (fun p => (p.1 + count, p.2)) <$> map_to_list (filter (fun p => index <= p.1) m) in
  insert_shifted shifted (filter (fun p => p.1 < index) m).

Definition insert b (index count : Z) (track_moves : bool) : option builder :=
  _ ← realm_assert (negb (count =? 0));
  b ← for_each_col (fun col => ix_shift_for_insert_at col index count) b;
  if negb track_moves then Some b
  else
    i ← ix_insert_at (insertions b) index count;
    let b := set_insertions i b in
    let b := set_moves ((fun m => if index <=? to m then mkMove (from m) (to m + count) else m) <$> moves b) b in
    Some (set_mapping (shift_mapping index count (m_move_mapping b)) b).

(** [erase] *)
Fixpoint erase_moves (ms : list Move) (index : Z) : list Move :=
  match ms with
  | [] => []
  | m :: ms =>
    if to m =? index then erase_moves ms index
    else (if index <? to m then mkMove (from m) (to m - 1) else m) :: erase_moves ms index
  end.

Definition erase b (index : Z) : option builder :=
  b ← for_each_col (fun col => ix_erase_at col index) b;
  '(i, unshifted) ← ix_erase_or_unshift (insertions b) index;
  let b := set_insertions i b in
  b ← (if negb (unshifted =? npos) then
         '(d, _) ← ix_add_shifted (deletions b) unshifted; Some (set_deletions d b)
       else Some b);
  Some (set_moves (erase_moves (moves b) index) b).

(** [clear]; [npos] is the size of a collection that is not known *)
Definition clear b (old_size : Z) : option builder :=
  let size := if old_size =? npos then old_size
              else (old_size + total (ix_ranges (deletions b)) - total (ix_ranges (insertions b))) mod 2 ^ 64 in
  d ← ix_set (deletions b) size;
  Some (mkBuilder d (ix_clear (insertions b)) (ix_clear (modifications b)) [] [] ∅ (m_track_columns b)).

(** [move]: the loop over the recorded moves *)
Fixpoint move_moves (ms : list Move) (from_ to_ : Z) (updated : bool) (i : IS) : option (list Move * bool * IS) :=
  match ms with
  | [] => Some ([], updated, i)
  | m :: ms =>
    if negb (to m =? from_) then
      let m' := if (to_ <=? to m) && (to m <? from_) then mkMove (from m) (to m + 1)
                else if (to m <=? to_) && (from_ <? to m) then mkMove (from m) (to m - 1)
                else m in
      '(ms, updated, i) ← move_moves ms from_ to_ updated i;
      Some (m' :: ms, updated, i)
    else
      _ ← realm_assert (negb updated);
      i ← ix_erase_at i from_;
      i ← ix_insert_at i to_ 1;
      '(ms, updated, i) ← move_moves ms from_ to_ true i;
      Some (mkMove (from m) to_ :: ms, updated, i)
  end.

Definition move_col (from_ to_ : Z) (col : IS) : option IS :=
  modified ← ix_contains col from_;
  col ← ix_erase_at col from_;
  if modified : bool then ix_insert_at col to_ 1 else ix_shift_for_insert_at col to_ 1.

Definition move b (from_ to_ : Z) : option builder :=
  _ ← realm_assert (negb (from_ =? to_));
  '(ms, updated, i) ← move_moves (moves b) from_ to_ false (insertions b);
  let b := set_insertions i (set_moves ms b) in
  b ← (if updated : bool then Some b
       else
         '(i, shifted_from) ← ix_erase_or_unshift (insertions b) from_;
         i ← ix_insert_at i to_ 1;
         let b := set_insertions i b in
         if negb (shifted_from =? npos) then
           '(d, shifted_from) ← ix_add_shifted (deletions b) shifted_from;
           Some (set_moves (moves b ++ [mkMove shifted_from to_]) (set_deletions d b))
         else Some b);
  for_each_col (move_col from_ to_) b.

(** The end of the last range is at most [last_row + 1]. *)
Definition ends_within (s : IS) (last_row : Z) : bool :=
  match last (ix_ranges s) with None => true | Some r => r.2 - 1 <=? last_row end.

Definition move_over_col (row_ndx last_row : Z) (col : IS) : option IS :=
  modified ← ix_contains col last_row;
  if modified : bool then col ← ix_remove col last_row 1; ix_add col row_ndx
  else ix_remove col row_ndx 1.

(** [move_over], the erased row being the last one *)
Definition move_over_last b (row_ndx : Z) (track_moves : bool) : option builder :=
  b ← (if track_moves then
         '(i, shifted_from) ← ix_erase_or_unshift (insertions b) row_ndx;
         let b := set_insertions i b in
         b ← (if negb (shifted_from =? npos) then
                '(d, _) ← ix_add_shifted (deletions b) shifted_from; Some (set_deletions d b)
              else Some b);
         Some (set_mapping (delete row_ndx (m_move_mapping b)) b)
       else Some b);
  for_each_col (fun col => ix_remove col row_ndx 1) b.

(** [move_over] *)
Definition move_over b (row_ndx last_row : Z) (track_moves : bool) : option builder :=
  _ ← realm_assert (row_ndx <=? last_row);
  _ ← realm_assert (ends_within (insertions b) last_row);
  _ ← realm_assert (ends_within (modifications b) last_row);
  if row_ndx =? last_row then move_over_last b row_ndx track_moves
  else
    b ← for_each_col (move_over_col row_ndx last_row) b;
    if negb track_moves then Some b
    else
      row_is_insertion ← ix_contains (insertions b) row_ndx;
      let last_is_insertion :=
        match last (ix_ranges (insertions b)) with None => false | Some r => r.2 =? last_row + 1 end in
      _ ← realm_assert_debug (Some (ends_within (insertions b) last_row));
      let '(b, last_was_already_moved) :=
        match (if last_is_insertion then m_move_mapping b !! last_row else None) with
        | Some original =>
          (set_mapping (delete last_row (<[row_ndx := original]> (m_move_mapping b))) b, true)
        | None => (b, false)
        end in
      let b := if (row_is_insertion : bool) && negb last_was_already_moved
               then set_mapping (delete row_ndx (m_move_mapping b)) b else b in
      b ← (if last_is_insertion then
             i ← ix_remove (insertions b) last_row 1; Some (set_insertions i b)
           else if negb last_was_already_moved then
             shifted ← ix_unshift (insertions b) last_row;
             '(d, shifted) ← ix_add_shifted (deletions b) shifted;
             Some (set_mapping (<[row_ndx := shifted]> (m_move_mapping b)) (set_deletions d b))
           else Some b);
      b ← (if negb row_is_insertion then
             shifted ← ix_unshift (insertions b) row_ndx;
             '(d, _) ← ix_add_shifted (deletions b) shifted;
             i ← ix_add (insertions b) row_ndx;
             Some (set_insertions i (set_deletions d b))
           else Some b);
      _ ← verify b;
      Some b.

Definition swap_col (ndx_1 ndx_2 : Z) (col : IS) : option IS :=
  m1 ← ix_contains col ndx_1;
  m2 ← ix_contains col ndx_2;
  if negb (Bool.eqb m1 m2) then
    if m1 : bool then col ← ix_remove col ndx_1 1; ix_add col ndx_2
    else col ← ix_remove col ndx_2 1; ix_add col ndx_1
  else Some col.

(** [swap]: record the move of [ndx], which is not an insertion, to [dest] *)
Definition record_move b (ndx dest : Z) : option builder :=
  is_ins ← ix_contains (insertions b) ndx;
  if is_ins : bool then Some b
  else
    unshifted ← ix_unshift (insertions b) ndx;
    '(d, shifted) ← ix_add_shifted (deletions b) unshifted;
    i ← ix_add (insertions b) ndx;
    Some (set_mapping (<[dest := shifted]> (m_move_mapping b)) (set_insertions i (set_deletions d b))).

(** [update_move(existing_it, ndx_1, ndx_2)]; the existing move's key is [ndx_2] *)
Definition update_move b (original ndx_1 ndx_2 : Z) : option builder :=
  let b := set_mapping (<[ndx_1 := original]> (delete ndx_2 (m_move_mapping b))) b in
  b ← record_move b ndx_1 ndx_2;
  _ ← realm_assert_debug (ix_contains (insertions b) ndx_2);
  Some b.

(** [swap] *)
Definition swap b (ndx_a ndx_b : Z) (track_moves : bool) : option builder :=
  _ ← realm_assert (negb (ndx_a =? ndx_b));
  let ndx_1 := Z.min ndx_a ndx_b in
  let ndx_2 := Z.max ndx_a ndx_b in
  b ← for_each_col (swap_col ndx_1 ndx_2) b;
  if negb track_moves then Some b
  else
    match m_move_mapping b !! ndx_1, m_move_mapping b !! ndx_2 with
    | Some o1, Some o2 => Some (set_mapping (<[ndx_1 := o2]> (<[ndx_2 := o1]> (m_move_mapping b))) b)
    | Some o1, None => update_move b o1 ndx_2 ndx_1
    | None, Some o2 => update_move b o2 ndx_1 ndx_2
    | None, None => b ← record_move b ndx_2 ndx_1; record_move b ndx_1 ndx_2
    end.

Definition subsume_col (old_ndx new_ndx : Z) (col : IS) : option IS :=
  m ← ix_contains col old_ndx;
  if m : bool then ix_add col new_ndx else Some col.

(** [subsume] *)
Definition subsume b (old_ndx new_ndx : Z) (track_moves : bool) : option builder :=
  _ ← realm_assert (negb (old_ndx =? new_ndx));
  b ← for_each_col (subsume_col old_ndx new_ndx) b;
  if negb track_moves then Some b
  else
    _ ← realm_assert_debug (ix_contains (insertions b) new_ndx);
    _ ← realm_assert_debug (Some (match m_move_mapping b !! new_ndx with None => true | Some _ => false end));
    b ← match m_move_mapping b !! old_ndx with
        | Some original =>
          Some (set_mapping (delete old_ndx (<[new_ndx := original]> (m_move_mapping b))) b)
        | None =>
          is_ins ← ix_contains (insertions b) old_ndx;
          if is_ins : bool then Some b
          else
            unshifted ← ix_unshift (insertions b) old_ndx;
            Some (set_mapping (<[new_ndx := ix_shift (deletions b) unshifted]> (m_move_mapping b)) b)
        end;
    _ ← verify b;
    Some b.

(** [insert_column], [move_column] *)
Definition insert_column b (ndx : nat) : builder :=
  if (ndx <? length (columns b))%nat
  then set_columns (take ndx (columns b) ++ ix_nil :: drop ndx (columns b)) b else b.

(** [std::rotate(first, middle, last)] on the positions of a vector *)
Definition rotate {A} (first middle last : nat) (l : list A) : list A :=
  take first l ++ drop middle (take last l) ++ drop first (take middle l) ++ drop last l.

Definition move_column b (from_ to_ : nat) : builder :=
  let n := length (columns b) in
  if (n <=? from_)%nat && (n <=? to_)%nat then b
  else
    let cols := if (n <=? from_)%nat || (n <=? to_)%nat
                then resize (Nat.max from_ to_ + 1) (columns b) else columns b in
    set_columns (if (from_ <? to_)%nat then rotate from_ (from_ + 1) (to_ + 1) cols
                 else rotate to_ from_ (from_ + 1) cols) b.

(** [clean_up_stale_moves] *)
Fixpoint clean_moves (ms : list Move) (d i : IS) : option (list Move * IS * IS) :=
  match ms with
  | [] => Some ([], d, i)
  | m :: ms =>
    cd ← ix_count d 0 (from m);
    ci ← ix_count i 0 (to m);
    if negb (from m - cd =? to m - ci) then
      '(ms, d, i) ← clean_moves ms d i;
      Some (m :: ms, d, i)
    else
      d ← ix_remove d (from m) 1;
      i ← ix_remove i (to m) 1;
      clean_moves ms d i
  end.

Definition clean_up_stale_moves b : option builder :=
  '(ms, d, i) ← clean_moves (moves b) (deletions b) (insertions b);
  Some (set_insertions i (set_deletions d (set_moves ms b))).

(** [parse_complete] *)
Fixpoint parse_moves (l : list (Z * Z)) b : option builder :=
  match l with
  | [] => Some b
  | (new, old) :: l =>
    _ ← realm_assert_debug (ix_contains (deletions b) old);
    _ ← realm_assert_debug (ix_contains (insertions b) new);
    b ← (if new =? old then
           d ← ix_remove (deletions b) old 1;
           i ← ix_remove (insertions b) new 1;
           Some (set_insertions i (set_deletions d b))
         else Some (set_moves (moves b ++ [mkMove old new]) b));
    parse_moves l b
  end.

Definition from_le (x y : Move) : Prop := from x <= from y.
#[global] Instance from_le_dec (x y : Move) : Decision (from_le x y).
Proof. unfold from_le. apply _. Defined.

Definition parse_complete b : option builder :=
  b ← parse_moves (map_to_list (m_move_mapping b)) b;
  Some (set_moves (merge_sort from_le (moves b)) (set_mapping ∅ b)).

(** [merge]: the [for_each_col] over the columns of both sides *)
Fixpoint zip_cols (f : IS -> IS -> option (IS * IS)) (l k : list IS) : option (list IS * list IS) :=
  match l, k with
  | x :: l, y :: k =>
    '(x, y) ← f x y;
    '(l, k) ← zip_cols f l k;
    Some (x :: l, y :: k)
  | _, _ => Some (l, k)
  end.

Definition for_each_col2 (f : IS -> IS -> option (IS * IS)) b c : option (builder * builder) :=
  '(m, cm) ← f (modifications b) (modifications c);
  let b := set_modifications m b in
  let c := set_modifications cm c in
  if m_track_columns b then
    let n := Nat.max (length (columns b)) (length (columns c)) in
    '(cols, ccols) ← zip_cols f (resize n (columns b)) (resize n (columns c));
    Some (set_columns cols b, set_columns ccols c)
  else Some (b, c).

(** [if (col.contains(from)) other.add(to)] *)
Definition carry_modified (from_ to_ : Z) (col other : IS) : option (IS * IS) :=
  m ← ix_contains col from_;
  if m : bool then other ← ix_add other to_; Some (col, other) else Some (col, other).

(** [*it = v.back(); v.pop_back()] *)
Definition swap_remove (k : nat) (l : list Move) : list Move :=
  match last l with
  | None => l
  | Some m => take (length l - 1) (<[k := m]> l)
  end.

(** The old moves: chain them with new moves, drop the ones whose destination
    was deleted, and shift the others. *)
Fixpoint merge_old_moves (ms : list Move) b c : option (list Move * builder * builder) :=
  match ms with
  | [] => Some ([], b, c)
  | old :: ms =>
    let k := find_if (fun m => to old =? from m) (moves c) in
    match moves c !! k with
    | Some it =>
      '(b, c) ← for_each_col2 (carry_modified (from it) (to it)) b c;
      '(ms, b, c) ← merge_old_moves ms b (set_moves (swap_remove k (moves c)) c);
      Some (mkMove (from old) (to it) :: ms, b, c)
    | None =>
      deleted ← ix_contains (deletions c) (to old);
      if deleted : bool then merge_old_moves ms b c
      else
        unshifted ← ix_unshift (deletions c) (to old);
        let shifted := ix_shift (insertions c) unshifted in
        '(ms, b, c) ← merge_old_moves ms b c;
        Some (mkMove (from old) shifted :: ms, b, c)
    end
  end.

(** The new moves whose source was inserted by the old change set *)
Fixpoint drop_inserted_moves (ms : list Move) (i : IS) : option (list Move) :=
  match ms with
  | [] => Some []
  | m :: ms =>
    inserted ← ix_contains i (from m);
    ms ← drop_inserted_moves ms i;
    Some (if inserted : bool then ms else m :: ms)
  end.

Fixpoint carry_moves (ms : list Move) b c : option (builder * builder) :=
  match ms with
  | [] => Some (b, c)
  | m :: ms => '(b, c) ← for_each_col2 (carry_modified (from m) (to m)) b c; carry_moves ms b c
  end.

Fixpoint unshift_sources (ms : list Move) (d i : IS) : option (list Move) :=
  match ms with
  | [] => Some []
  | m :: ms =>
    u ← ix_unshift i (from m);
    ms ← unshift_sources ms d i;
    Some (mkMove (ix_shift d u) (to m) :: ms)
  end.

(** The per-column update at the end of [merge] *)
Definition merge_col (d i : IS) (col other : IS) : option (IS * IS) :=
  col ← ix_erase_at_set col d;
  col ← ix_shift_for_insert_at_set col i;
  col ← ix_add_set col other;
  Some (col, other).

(** The part of [merge] that brings the moves of both sides together *)
Definition merge_moves b c : option (builder * builder) :=
  '(b, c) ← (if negb (match moves c with [] => true | _ => false end) || negb (ix_empty (deletions c))
                || negb (ix_empty (insertions c)) then
               '(ms, b, c) ← merge_old_moves (moves b) b c; Some (set_moves ms b, c)
             else Some (b, c));
  c ← (if negb (ix_empty (insertions b)) && negb (match moves c with [] => true | _ => false end) then
         ms ← drop_inserted_moves (moves c) (insertions b); Some (set_moves ms c)
       else Some c);
  '(b, c) ← (if negb (ix_empty (modifications b)) && negb (match moves c with [] => true | _ => false end)
             then carry_moves (moves c) b c else Some (b, c));
  c ← (if negb (ix_empty (deletions b)) || negb (ix_empty (insertions b)) then
         ms ← unshift_sources (moves c) (deletions b) (insertions b); Some (set_moves ms c)
       else Some c);
  Some (set_moves (moves b ++ moves c) b, c).

(** [merge] *)
Definition merge b c : option builder :=
  if empty c then Some b
  else if empty b then Some c
  else
    _ ← verify b;
    _ ← verify c;
    '(b, c) ← merge_moves b c;
    d ← ix_add_shifted_by (deletions b) (insertions b) (deletions c);
    i ← ix_erase_at_set (insertions b) (deletions c);
    i ← ix_insert_at_set i (insertions c);
    b ← clean_up_stale_moves (set_insertions i (set_deletions d b));
    '(b, _) ← for_each_col2 (merge_col (deletions c) (insertions c)) b c;
    _ ← verify b;
    Some b.

(** [finalize] *)
Definition finalize b : option (CollectionChangeSet IS) :=
  m ← ix_erase_at_set (modifications b) (insertions b);
  m ← ix_shift_for_insert_at_set m (deletions b);
  mn ← ix_remove_set (modifications b) (insertions b);
  Some (mkCollectionChangeSet (deletions b) (insertions b) m mn (moves b) (columns b)).
End change_builder.
End ChangeBuilder.
