(* ===== verification/ChangeBuilderFacts.v ===== *)
(** * Correctness of [CollectionChangeBuilder]

    A change set says where every row of the new collection comes from: a row
    at a position that is not an insertion was at the free position of the same
    rank in the old collection, and a recorded move overrides that for its
    destination.  [tracks] is this abstract specification; each operation of
    the builder is shown to compose it with the position change it reports,
    to keep the builder's invariant and never to fail an assertion. *)
From stdpp Require Import gmap sorting.
From S2P Require Import Prelude.
From S2P Require Import RangeList.
From S2P Require Import IndexSets.
From S2P Require Import IndexSetShifts.
From S2P Require Import IndexSetInterface.
From S2P Require Import Positions.
From S2P Require Import ChangeBuilder.
Import ChangeBuilder.

(** ** Ranks after a single insertion or erasure *)
Section ranks.
Implicit Types (l : list range).

(** The old position of [j] when [n] rows are inserted at [i], and when the
    row at [i] is erased. *)
Definition before_insert (i n j : Z) : Z := if j <? i then j else j - n.
Definition before_erase (i j : Z) : Z := if j <? i then j else j + 1.

Lemma rank_insert l l' i n j :
  ranges_ok l -> ranges_ok l' -> 0 <= i -> 0 < n ->
  (forall k, mem l' k <-> i <= k < i + n \/ moved_back i n (mem l) k) ->
  0 <= j -> j < i \/ i + n <= j -> rank l' j = rank l (before_insert i n j).
Proof.
  intros Hl Hl' Hi Hn Heq Hj Hout. unfold rank, before_insert.
  assert (Hlow : forall k, 0 <= k <= i -> count_below k l' = count_below k l).
  { intros k Hk. pose proof (count_below_agree l l' 0 0 k Hl Hl' ltac:(lia)) as H1.
    rewrite !Z.sub_0_r, !(count_below_zero _ 0) in H1 by (done || lia).
    enough (count_below k l' - 0 = count_below k l - 0) by lia. apply H1.
    intros y Hy. rewrite Z.sub_0_r, Heq. unfold moved_back.
    split; [intros [?|[?|?]]; [lia|tauto|lia]|intros ?; right; left; split; [lia|done]]. }
  destruct (Z.ltb_spec j i); [rewrite Hlow; lia|].
  pose proof (count_below_full l' i (i + n) Hl' ltac:(lia)) as H1.
  pose proof (count_below_agree l l' n (i + n) j Hl Hl' ltac:(lia)) as H2.
  rewrite (Hlow i) in H1 by lia. replace (i + n - n) with i in H2 by lia.
  assert (count_below (i + n) l' - count_below i l = i + n - i) by (apply H1; intros; apply Heq; lia).
  assert (count_below j l' - count_below (i + n) l' = count_below (j - n) l - count_below i l); [|lia].
  apply H2. intros y Hy. rewrite Heq. unfold moved_back.
  split; [intros [?|[?|?]]; [lia|lia|tauto]|intros ?; right; right; split; [lia|done]].
Qed.

Lemma rank_erase l l' i j :
  ranges_ok l -> ranges_ok l' -> 0 <= i ->
  (forall k, mem l' k <-> erased i (mem l) k) -> 0 <= j ->
  rank l' j = rank l (before_erase i j) - (if decide (i <= j /\ ~ mem l i) then 1 else 0).
Proof.
  intros Hl Hl' Hi Heq Hj. unfold rank, before_erase.
  assert (Hlow : forall k, 0 <= k <= i -> count_below k l' = count_below k l).
  { intros k Hk. pose proof (count_below_agree l l' 0 0 k Hl Hl' ltac:(lia)) as H1.
    rewrite !Z.sub_0_r, !(count_below_zero _ 0) in H1 by (done || lia).
    enough (count_below k l' - 0 = count_below k l - 0) by lia. apply H1.
    intros y Hy. rewrite Z.sub_0_r, Heq. unfold erased.
    split; [intros [?|?]; [tauto|lia]|intros ?; left; split; [lia|done]]. }
  destruct (Z.ltb_spec j i).
  { rewrite Hlow, decide_False by lia. lia. }
  pose proof (count_below_agree l l' (-1) i j Hl Hl' ltac:(lia)) as H2.
  replace (j - -1) with (j + 1) in H2 by lia. replace (i - -1) with (i + 1) in H2 by lia.
  rewrite (Hlow i), (count_below_succ l i) in H2 by (done || lia).
  assert (count_below j l' - count_below i l =
    count_below (j + 1) l - (count_below i l + (if decide (mem l i) then 1 else 0))).
  { apply H2. intros y Hy. rewrite Heq. unfold erased. replace (y - -1) with (y + 1) by lia.
    split; [intros [?|?]; [lia|tauto]|intros ?; right; split; [lia|done]]. }
  destruct (decide (mem l i)), (decide (i <= j /\ ~ mem l i)); (lia || tauto).
Qed.
End ranks.

(** ** The invariant and the abstract specification *)
Section specification.
Context `{IndexSetLaws IS} `{BuildMode}.
Implicit Types (b c : CollectionChangeBuilder IS) (s : IS).

(** The source of the move to [j]. *)
Fixpoint move_source (ms : list Move) (j : Z) : option Z :=
  match ms with
  | [] => None
  | m :: ms => if to m =? j then Some (from m) else move_source ms j
  end.

(** Where the row at [j] was, from the deletions and insertions alone. *)
Definition origin (d i : IS) (j : Z) : option Z :=
  if decide (ix_has i j) then None else Some (ix_free d (rank (ix_ranges i) j)).

Definition tracks b (j : Z) : option Z :=
  match move_source (moves b) j with
  | Some f => Some f
  | None => origin (deletions b) (insertions b) j
  end.

Definition moves_in (ms : list Move) (d i : IS) : Prop :=
  Forall (fun m => ix_has d (from m) /\ ix_has i (to m)) ms.

Record ok b : Prop := {
  ok_deletions : ix_valid (deletions b);
  ok_insertions : ix_valid (insertions b);
  ok_modifications : ix_valid (modifications b);
  ok_columns : Forall ix_valid (columns b);
  ok_moves : moves_in (moves b) (deletions b) (insertions b);
  ok_moves_nodup : NoDup (to <$> moves b);
  ok_sources_nodup : NoDup (from <$> moves b)
}.

Lemma empty_builder_ok : ok empty_builder.
Proof. split; simpl; try apply ix_nil_valid; constructor. Qed.

Lemma all_moves_in_spec ms d i :
  ix_valid d -> ix_valid i -> moves_in ms d i -> all_moves_in ms d i = Some true.
Proof.
  intros Hd Hi. induction ms as [|m ms IH]; [done|]. intros [[Hmf Hmt] Hms]%Forall_cons. simpl.
  rewrite !ix_contains_has, (IH Hms) by done. simpl. by rewrite !bool_decide_eq_true_2.
Qed.

(** The debug check never fires. *)
Lemma verify_ok b : ok b -> verify b = Some tt.
Proof.
  intros Hb. unfold verify, realm_assert_debug. destruct realm_debug; [|done].
  by rewrite all_moves_in_spec by apply Hb.
Qed.

(** What [for_each_col] does to the modifications and to every column. *)
Definition cols_changed (P : IS -> IS -> Prop) b b' : Prop :=
  P (modifications b) (modifications b') /\
  (if m_track_columns b then Forall2 P (columns b) (columns b') else columns b' = columns b).

Definition same_rows b b' : Prop :=
  deletions b' = deletions b /\ insertions b' = insertions b /\ moves b' = moves b /\
  m_move_mapping b' = m_move_mapping b /\ m_track_columns b' = m_track_columns b.

Lemma mapM_spec (f : IS -> option IS) (P : IS -> IS -> Prop) l :
  (forall s, ix_valid s -> gives (f s) (fun s' => ix_valid s' /\ P s s')) ->
  Forall ix_valid l -> gives (mapM f l) (fun l' => Forall ix_valid l' /\ Forall2 P l l').
Proof.
  intros Hf. induction 1 as [|s l Hs _ IH].
  - by exists [].
  - destruct (Hf s Hs) as (s' & E & Hs' & HP). destruct IH as (l' & E' & Hl' & HPl).
    exists (s' :: l'). simpl. rewrite E. cbn [mbind option_bind]. rewrite E'.
    split; [done|]. by split; constructor.
Qed.

Lemma for_each_col_spec (f : IS -> option IS) (P : IS -> IS -> Prop) b :
  (forall s, ix_valid s -> gives (f s) (fun s' => ix_valid s' /\ P s s')) ->
  ok b -> gives (for_each_col f b) (fun b' => ok b' /\ same_rows b b' /\ cols_changed P b b').
Proof.
  intros Hf Hb. unfold for_each_col.
  destruct (Hf (modifications b) (ok_modifications _ Hb)) as (m & -> & Hm & HP). cbn [mbind option_bind].
  unfold cols_changed. destruct (m_track_columns b) eqn:Et.
  - destruct (mapM_spec f P _ Hf (ok_columns _ Hb)) as (cols & -> & Hcols & HPc).
    cbn [mbind option_bind]. eexists. split; [done|]. split; [|by repeat split].
    destruct Hb. by split.
  - cbn [mbind option_bind]. eexists. split; [done|]. split; [|by repeat split].
    destruct Hb. by split.
Qed.

Lemma moves_in_weaken ms d i d' i' :
  (forall j, ix_has d j -> ix_has d' j) -> (forall j, ix_has i j -> ix_has i' j) ->
  moves_in ms d i -> moves_in ms d' i'.
Proof. intros Hd Hi Hms. eapply Forall_impl; [exact Hms|]. intros m [? ?]. auto. Qed.

Lemma move_source_none ms j : move_source ms j = None <-> j ∉ to <$> ms.
Proof.
  induction ms as [|m ms IH]; simpl; [split; [intros _ []%not_elem_of_nil|done]|].
  rewrite not_elem_of_cons. destruct (Z.eqb_spec (to m) j) as [->|E]; [split; [done|tauto]|].
  rewrite IH. split; [by split|tauto].
Qed.

(** *** [insert] *)
Lemma insert_moves_source ms i n j :
  0 < n ->
  move_source ((fun m => if i <=? to m then mkMove (from m) (to m + n) else m) <$> ms) j =
  (if (i <=? j) && (j <? i + n) then None else move_source ms (before_insert i n j)).
Proof.
  intros Hn. unfold before_insert. induction ms as [|m ms IH]; [simpl; by destruct (_ && _)|].
  rewrite fmap_cons. cbn [move_source]. rewrite IH. destruct (Z.leb_spec i (to m)); simpl to; simpl from;
    destruct (Z.leb_spec i j), (Z.ltb_spec j (i + n)), (Z.ltb_spec j i); simpl; try lia;
    repeat match goal with |- context [?a =? ?b] => destruct (Z.eqb_spec a b) end; try lia; done.
Qed.

Lemma insert_moves_nodup ms i n :
  0 < n -> NoDup (to <$> ms) ->
  NoDup (to <$> ((fun m => if i <=? to m then mkMove (from m) (to m + n) else m) <$> ms)).
Proof.
  intros Hn Hnd. rewrite <- list_fmap_compose.
  rewrite (list_fmap_ext _ ((fun x => if i <=? x then x + n else x) ∘ to)).
  - rewrite list_fmap_compose. apply NoDup_fmap_2; [|done].
    intros x y. destruct (Z.leb_spec i x), (Z.leb_spec i y); lia.
  - intros _ m _. simpl. by destruct (i <=? to m).
Qed.

Lemma insert_moves_in ms i n d s s' :
  (forall j, ix_has s' j <-> i <= j < i + n \/ moved_back i n (ix_has s) j) ->
  moves_in ms d s ->
  moves_in ((fun m => if i <=? to m then mkMove (from m) (to m + n) else m) <$> ms) d s'.
Proof.
  intros Hs. unfold moves_in. rewrite Forall_fmap. intros Hms. eapply Forall_impl; [exact Hms|]. intros m [? ?]. simpl.
  destruct (Z.leb_spec i (to m)); simpl; (split; [done|]); apply Hs; right; unfold moved_back.
  - right. split; [lia|]. by replace (to m + n - n) with (to m) by lia.
  - left. by split.
Qed.

Lemma record_insert_spec b index count :
  ok b -> 0 <= index -> 0 < count ->
  gives (insert b index count true) (fun b' => ok b' /\
    (forall j, 0 <= j -> tracks b' j =
       if (index <=? j) && (j <? index + count) then None
       else tracks b (before_insert index count j)) /\
    cols_changed (fun s s' => forall j, ix_has s' j <-> moved_back index count (ix_has s) j) b b' /\
    deletions b' = deletions b /\
    (forall j, ix_has (insertions b') j <-> index <= j < index + count \/ moved_back index count (ix_has (insertions b)) j) /\
    m_move_mapping b' = shift_mapping index count (m_move_mapping b) /\
    (moves b = [] -> moves b' = [])).
Proof.
  intros Hb Hi Hn. unfold insert. replace (negb (count =? 0)) with true by lia. simpl realm_assert.
  cbn [mbind option_bind].
  destruct (for_each_col_spec (fun col => ix_shift_for_insert_at col index count) _ b
    (fun s Hs => ix_shift_for_insert_at_has s index count Hs Hi Hn) Hb)
    as (b1 & -> & Hb1 & (Ed & Ei & Em & Ep & Et) & Hc). cbn [mbind option_bind negb].
  destruct (ix_insert_at_has (insertions b1) index count (ok_insertions _ Hb1) Hi Hn) as (i & -> & Hiv & Hm).
  cbn [mbind option_bind]. eexists. split; [done|]. split; [|split; [|split; [exact Hc|split; [exact Ed|]]]].
  - destruct Hb1. split; simpl; [done..| | |].
    + by eapply insert_moves_in.
    + by apply insert_moves_nodup.
    + rewrite <- list_fmap_compose, (list_fmap_ext _ from); [done|].
      intros _ m _. simpl. by destruct (index <=? to m).
  - intros j Hj. unfold tracks. cbn -[before_insert]. rewrite insert_moves_source, Em, Ed by done.
    assert (Hs' : ranges_ok (ix_ranges i)) by (by apply ix_valid_sep).
    assert (Hs : ranges_ok (ix_ranges (insertions b))) by (apply ix_valid_sep, Hb).
    rewrite Ei in Hm. unfold origin.
    destruct (Z.leb_spec index j), (Z.ltb_spec j (index + count)); cbn [andb].
    + rewrite decide_True; [done|]. apply Hm. by left.
    + destruct (move_source _ _); [done|].
      rewrite (rank_insert (ix_ranges (insertions b)) _ index count) by (done || lia).
      unfold before_insert. destruct (Z.ltb_spec j index); [lia|].
      apply decide_ext. rewrite Hm. unfold moved_back. intuition lia.
    + destruct (move_source _ _); [done|].
      rewrite (rank_insert (ix_ranges (insertions b)) _ index count) by (done || lia).
      unfold before_insert. destruct (Z.ltb_spec j index); [|lia].
      apply decide_ext. rewrite Hm. unfold moved_back. intuition lia.
    + lia.
  - rewrite <- Ei. split; [exact Hm|]. cbn. rewrite Ep, Em. split; [done|]. by intros ->.
Qed.
End specification.

Section erase.
Context `{IndexSetLaws IS} `{BuildMode}.
Implicit Types (b c : CollectionChangeBuilder IS) (s : IS).

Lemma erase_moves_source ms i j :
  move_source (erase_moves ms i) j = move_source ms (before_erase i j).
Proof.
  unfold before_erase. induction ms as [|m ms IH]; [done|]. cbn [erase_moves move_source].
  destruct (Z.eqb_spec (to m) i), (Z.ltb_spec i (to m)), (Z.ltb_spec j i);
    cbn [move_source to from]; rewrite ?IH;
    repeat match goal with |- context [?a =? ?b] => destruct (Z.eqb_spec a b) end; try lia; done.
Qed.

Lemma erase_moves_elem ms i m :
  m ∈ erase_moves ms i -> exists m0, m0 ∈ ms /\ from m = from m0 /\ to m0 = before_erase i (to m) /\
    to m0 <> i.
Proof.
  unfold before_erase. induction ms as [|m1 ms IH]; simpl; [by intros ?%elem_of_nil|].
  destruct (Z.eqb_spec (to m1) i) as [E|E].
  { intros Hm. destruct (IH Hm) as (m0 & Hin & ?). exists m0. split; [by right|done]. }
  intros [->|Hm]%elem_of_cons.
  - exists m1. split; [by left|]. destruct (Z.ltb_spec i (to m1)); simpl; (split; [done|]).
    + destruct (Z.ltb_spec (to m1 - 1) i); lia.
    + destruct (Z.ltb_spec (to m1) i); lia.
  - destruct (IH Hm) as (m0 & Hin & ?). exists m0. split; [by right|done].
Qed.

Lemma erase_moves_nodup ms i : NoDup (to <$> ms) -> NoDup (to <$> erase_moves ms i).
Proof.
  induction ms as [|m ms IH]; [done|]. rewrite fmap_cons. intros [Hm Hnd]%NoDup_cons.
  cbn [erase_moves]. destruct (Z.eqb_spec (to m) i) as [E|E]; [by apply IH|].
  rewrite fmap_cons. apply NoDup_cons. split; [|by apply IH].
  intros (m1 & E1 & Hm1)%list_elem_of_fmap.
  apply erase_moves_elem in Hm1 as (m0 & Hin & _ & Hto & _). apply Hm, list_elem_of_fmap.
  exists m0. split; [|done]. revert Hto E1. unfold before_erase.
  destruct (Z.ltb_spec i (to m)); simpl; destruct (Z.ltb_spec (to m1) i); lia.
Qed.

Lemma erase_moves_sources ms i : NoDup (from <$> ms) -> NoDup (from <$> erase_moves ms i).
Proof.
  intros Hnd. assert (Hsub : (from <$> erase_moves ms i) `sublist_of` (from <$> ms)).
  { clear Hnd. induction ms as [|m ms IH]; [done|]. cbn [erase_moves].
    destruct (to m =? i); [by apply sublist_cons|].
    rewrite !fmap_cons. destruct (i <? to m); by apply sublist_skip. }
  by eapply sublist_NoDup.
Qed.

Lemma erase_moves_in ms i d d' s s' :
  (forall j, ix_has d j -> ix_has d' j) -> (forall j, ix_has s' j <-> erased i (ix_has s) j) ->
  moves_in ms d s -> moves_in (erase_moves ms i) d' s'.
Proof.
  unfold moves_in. rewrite !Forall_forall. intros Hd Hs Hms m Hm.
  apply erase_moves_elem in Hm as (m0 & Hin & Hf & Ht & Hne). destruct (Hms _ Hin) as [Hf' Ht'].
  rewrite Hf. split; [auto|]. apply Hs. unfold erased. unfold before_erase in Ht. revert Ht.
  destruct (Z.ltb_spec (to m) i); intros Ht; [left|right]; (split; [lia|by rewrite <- Ht]).
Qed.

(** The deletions after the row at [i] went: unchanged when it was an
    insertion, with its old position otherwise. *)
Definition deletes d d' s i : Prop :=
  if decide (ix_has s i) then d' = d
  else forall j, ix_has d' j <-> j = ix_free d (rank (ix_ranges s) i) \/ ix_has d j.

Lemma deletes_mono d d' s i j : deletes d d' s i -> ix_has d j -> ix_has d' j.
Proof. unfold deletes. case_decide; [by intros ->|]. intros Heq ?. apply Heq. by right. Qed.

Lemma origin_erase d d' s s' i j :
  ix_valid d -> ix_valid d' -> ix_valid s -> ix_valid s' -> 0 <= i -> 0 <= j ->
  deletes d d' s i -> (forall k, ix_has s' k <-> erased i (ix_has s) k) ->
  origin d' s' j = origin d s (before_erase i j).
Proof.
  intros Hd Hd' Hs Hs' Hi Hj Hdel Heq. unfold origin.
  rewrite (rank_erase (ix_ranges s) (ix_ranges s') i j (ix_valid_sep _ Hs) (ix_valid_sep _ Hs') Hi Heq Hj).
  assert (E : ix_has s' j <-> ix_has s (before_erase i j)).
  { rewrite Heq. unfold erased, before_erase. destruct (Z.ltb_spec j i); intuition lia. }
  destruct (decide (ix_has s' j)) as [Hh|Hh]; 
    [by rewrite (decide_True (P := ix_has s (before_erase i j))) by tauto|].
  rewrite (decide_False (P := ix_has s (before_erase i j))) by tauto. f_equal. unfold deletes in Hdel.
  destruct (decide (ix_has s i)) as [Hsi|Hsi].
  { subst d'. rewrite decide_False by (unfold ix_has in *; tauto). by rewrite Z.sub_0_r. }
  pose proof (ix_valid_sep _ Hs) as Hss. unfold ix_free.
  rewrite (free_add (ix_ranges d) (ix_ranges d') (rank (ix_ranges s) i)) by
    (by apply ix_valid_sep || by apply rank_nonneg || done).
  unfold before_erase. destruct (Z.ltb_spec j i) as [Hlt|Hge].
  - rewrite (decide_False (P := i <= j /\ _)) by lia. rewrite Z.sub_0_r, decide_True; [done|].
    apply rank_lt; [done| |lia].
    unfold ix_has in E. rewrite E in Hh. unfold before_erase in Hh.
    destruct (Z.ltb_spec j i); [done|lia].
  - rewrite (decide_True (P := i <= j /\ _)) by done. rewrite decide_False; [f_equal; lia|].
    pose proof (rank_lt _ i (j + 1) Hss Hsi ltac:(lia)). lia.
Qed.

(** Erasing a row from the insertions or else adding it to the deletions;
    [erase], [move] and [move_over] share this step. *)
Lemma take_row d s i :
  ix_valid d -> ix_valid s -> 0 <= i < npos ->
  exists s' u, ix_erase_or_unshift s i = Some (s', u) /\ ix_valid s' /\
    (forall j, ix_has s' j <-> erased i (ix_has s) j) /\
    (u =? npos) = bool_decide (ix_has s i) /\
    (~ ix_has s i -> u = rank (ix_ranges s) i /\
       exists d', ix_add_shifted d u = Some (d', ix_free d u) /\ ix_valid d' /\ deletes d d' s i).
Proof.
  intros Hd Hs Hi. destruct (ix_erase_or_unshift_has s i Hs ltac:(lia)) as ([s' u] & -> & Hu & Hs' & Heq).
  exists s', u. split; [done|]. split; [done|]. split; [done|].
  change (i - ix_below s i) with (rank (ix_ranges s) i) in Hu.
  pose proof (rank_nonneg (ix_ranges s) i (ix_valid_sep _ Hs) ltac:(lia)) as Hr.
  assert (rank (ix_ranges s) i <= i).
  { pose proof (ix_below_nonneg s i Hs). unfold rank. unfold ix_below in *. lia. }
  subst u. case_bool_decide as Hh.
  - split; [by rewrite Z.eqb_refl|done].
  - split; [lia|]. intros _. split; [done|].
    destruct (ix_add_shifted_has d (rank (ix_ranges s) i) Hd Hr) as ([d' k] & -> & -> & Hd' & Hm).
    exists d'. split; [done|]. split; [done|]. unfold deletes. by rewrite decide_False.
Qed.

Lemma record_erase_spec b index :
  ok b -> 0 <= index < npos ->
  gives (erase b index) (fun b' => ok b' /\
    (forall j, 0 <= j -> tracks b' j = tracks b (before_erase index j)) /\
    cols_changed (fun s s' => forall j, ix_has s' j <-> erased index (ix_has s) j) b b').
Proof.
  intros Hb Hi. unfold erase.
  destruct (for_each_col_spec (fun col => ix_erase_at col index) _ b
    (fun s Hs => ix_erase_at_has s index Hs ltac:(lia)) Hb)
    as (b1 & -> & Hb1 & (Ed & Ei & Em & Ep & Et) & Hc). cbn [mbind option_bind].
  rewrite Ei. destruct (take_row (deletions b) (insertions b) index
    (ok_deletions _ Hb) (ok_insertions _ Hb) Hi) as (s' & u & -> & Hs' & Heq & Hnpos & Hadd).
  cbn [mbind option_bind]. rewrite Hnpos.
  assert (Hdone : forall d', ix_valid d' -> deletes (deletions b) d' (insertions b) index ->
    let b' := set_moves (erase_moves (moves b1) index) (set_deletions d' (set_insertions s' b1)) in
    ok b' /\ (forall j, 0 <= j -> tracks b' j = tracks b (before_erase index j)) /\
    cols_changed (fun s s' => forall j, ix_has s' j <-> erased index (ix_has s) j) b b').
  { intros d' Hd' Hdel. split; [|split; [|exact Hc]].
    - destruct Hb1. split; simpl; [done..| |by apply erase_moves_nodup|by apply erase_moves_sources].
      eapply (erase_moves_in _ _ (deletions b1) _ (insertions b1)); [|by rewrite Ei|done].
      rewrite Ed. intros j. by eapply deletes_mono.
    - intros j Hj. unfold tracks. simpl. rewrite erase_moves_source, Em.
      destruct (move_source _ _); [done|]. apply origin_erase; try done; try lia; apply Hb. }
  case_bool_decide as Hh; cbn [negb mbind option_bind].
  - eexists. split; [done|].
    specialize (Hdone (deletions b) (ok_deletions _ Hb)). unfold deletes in Hdone.
    rewrite decide_True in Hdone by done. specialize (Hdone eq_refl). rewrite <- Ed in Hdone.
    by destruct b1.
  - destruct (Hadd Hh) as (Hu & d' & Ha & Hd' & Hdel). simpl deletions. rewrite Ed, Ha.
    cbn [mbind option_bind]. eexists. split; [done|]. by apply Hdone.
Qed.
End erase.

Section move.
Context `{IndexSetLaws IS} `{BuildMode}.
Implicit Types (b c : CollectionChangeBuilder IS) (s : IS).

Lemma origin_insert d s s' i n j :
  ix_valid s -> ix_valid s' -> 0 <= i -> 0 < n -> 0 <= j -> j < i \/ i + n <= j ->
  (forall k, ix_has s' k <-> i <= k < i + n \/ moved_back i n (ix_has s) k) ->
  origin d s' j = origin d s (before_insert i n j).
Proof.
  intros Hs Hs' Hi Hn Hj Hout Heq. unfold origin.
  rewrite (rank_insert (ix_ranges s) (ix_ranges s') i n j) by (by apply ix_valid_sep || done).
  apply decide_ext. rewrite Heq. unfold moved_back, before_insert.
  destruct (Z.ltb_spec j i); intuition lia.
Qed.

(** Where a row goes, and where it was, when the row at [f] moves to [t]. *)
Definition move_to (f t x : Z) : Z :=
  if x =? f then t
  else if (t <=? x) && (x <? f) then x + 1
  else if (x <=? t) && (f <? x) then x - 1
  else x.
Definition before_move (f t j : Z) : Z :=
  if j =? t then f else before_erase f (before_insert t 1 j).

Lemma move_to_before f t x j : f <> t -> move_to f t x = j <-> x = before_move f t j.
Proof.
  intros Hne. unfold move_to, before_move, before_erase, before_insert.
  destruct (Z.eqb_spec x f), (Z.leb_spec t x), (Z.ltb_spec x f), (Z.leb_spec x t), (Z.ltb_spec f x),
    (Z.eqb_spec j t), (Z.ltb_spec j t); cbn [andb];
    repeat match goal with |- context [?a <? ?b] => destruct (Z.ltb_spec a b) end; lia.
Qed.

Definition relocate (f t : Z) (m : Move) : Move := mkMove (from m) (move_to f t (to m)).

Lemma relocate_source f t ms j :
  f <> t -> move_source (relocate f t <$> ms) j = move_source ms (before_move f t j).
Proof.
  intros Hne. induction ms as [|m ms IH]; [done|]. rewrite fmap_cons. cbn [move_source relocate to from].
  rewrite IH. pose proof (move_to_before f t (to m) j Hne).
  destruct (Z.eqb_spec (move_to f t (to m)) j), (Z.eqb_spec (to m) (before_move f t j)); tauto.
Qed.

Lemma relocate_nodup f t ms : f <> t -> NoDup (to <$> ms) -> NoDup (to <$> (relocate f t <$> ms)).
Proof.
  intros Hne Hnd. rewrite <- list_fmap_compose.
  rewrite (list_fmap_ext _ (move_to f t ∘ to)) by done. rewrite list_fmap_compose.
  apply NoDup_fmap_2; [|done]. intros x y E.
  rewrite (proj1 (move_to_before f t x _ Hne) eq_refl), E. symmetry. by apply move_to_before.
Qed.

Lemma relocate_sources f t (ms : list Move) : from <$> (relocate f t <$> ms) = from <$> ms.
Proof. by rewrite <- list_fmap_compose. Qed.

(** [s'] is [s] with the row at [f] moved to [t], which becomes a member. *)
Definition relocated f t s s' : Prop :=
  forall j, ix_has s' j <-> j = t \/ (j <> t /\ ix_has s (before_move f t j)).

Lemma relocated_steps f t s s1 s2 :
  f <> t -> (forall k, ix_has s1 k <-> erased f (ix_has s) k) ->
  (forall k, ix_has s2 k <-> t <= k < t + 1 \/ moved_back t 1 (ix_has s1) k) -> relocated f t s s2.
Proof.
  intros Hne H2 H3 j. rewrite H3. unfold moved_back. rewrite !H2.
  unfold erased, before_move, before_erase, before_insert.
  replace (j - 1 + 1) with j by lia.
  destruct (Z.eqb_spec j t), (Z.ltb_spec j t);
    repeat match goal with |- context [?a <? ?b] => destruct (Z.ltb_spec a b) end;
    replace (j - 1 + 1) with j by lia; intuition (lia || done).
Qed.

Lemma origin_move d d' s s1 s2 f t j :
  ix_valid d -> ix_valid d' -> ix_valid s -> ix_valid s1 -> ix_valid s2 ->
  0 <= f -> 0 <= t -> f <> t -> 0 <= j -> j <> t ->
  deletes d d' s f -> (forall k, ix_has s1 k <-> erased f (ix_has s) k) ->
  (forall k, ix_has s2 k <-> t <= k < t + 1 \/ moved_back t 1 (ix_has s1) k) ->
  origin d' s2 j = origin d s (before_move f t j).
Proof.
  intros Hd Hd' Hs Hs1 Hs2 Hf Ht Hne Hj Hjt Hdel H2 H3.
  rewrite (origin_insert d' s1 s2 t 1 j) by (done || lia).
  unfold before_move. rewrite (proj2 (Z.eqb_neq _ _) Hjt).
  apply origin_erase; try done. unfold before_insert. destruct (Z.ltb_spec j t); lia.
Qed.

Lemma move_moves_spec ms f t updated s :
  f <> t -> 0 <= f -> 0 <= t -> NoDup (to <$> ms) -> (updated = true -> f ∉ to <$> ms) ->
  ix_valid s ->
  exists s2, move_moves ms f t updated s =
    Some (relocate f t <$> ms, updated || bool_decide (f ∈ to <$> ms), s2) /\ ix_valid s2 /\
    (f ∉ to <$> ms -> s2 = s) /\
    (f ∈ to <$> ms -> exists s1, ix_valid s1 /\ (forall k, ix_has s1 k <-> erased f (ix_has s) k) /\
      forall k, ix_has s2 k <-> t <= k < t + 1 \/ moved_back t 1 (ix_has s1) k).
Proof.
  intros Hne Hf Ht. revert updated s. induction ms as [|m ms IH]; intros updated s Hnd Hupd Hs.
  - exists s. cbn [move_moves fmap list_fmap]. rewrite bool_decide_eq_false_2, orb_false_r by apply not_elem_of_nil.
    split; [done|]. split; [done|]. split; [done|]. by intros ?%elem_of_nil.
  - rewrite fmap_cons in Hnd. rewrite fmap_cons in Hupd. rewrite !(fmap_cons to), (fmap_cons (relocate f t)). apply NoDup_cons in Hnd as [Hm Hnd].
    cbn [move_moves]. destruct (Z.eqb_spec (to m) f) as [E|E]; cbn [negb].
    + assert (Hfn : f ∉ to <$> ms) by (by rewrite <- E).
      assert (updated = false) as ->.
      { destruct updated; [|done]. destruct (Hupd eq_refl). rewrite E. by left. }
      cbn [negb realm_assert mbind option_bind].
      destruct (ix_erase_at_has s f Hs Hf) as (s1 & -> & Hs1 & H2). cbn [mbind option_bind].
      destruct (ix_insert_at_has s1 t 1 Hs1 Ht ltac:(lia)) as (s2 & -> & Hs2 & H3). cbn [mbind option_bind].
      destruct (IH true s2 Hnd (fun _ => Hfn) Hs2) as (s3 & -> & Hs3 & E3 & _). specialize (E3 Hfn). subst s3.
      cbn [mbind option_bind]. exists s2. rewrite E, (bool_decide_eq_true_2 (f ∈ f :: _)) by constructor.
      split.
      { cbn [orb].
        change (relocate f t m) with (mkMove (from m) (move_to f t (to m))).
        unfold move_to at 1. by rewrite E, Z.eqb_refl. }
      split; [done|]. split; [intros Hn; destruct Hn; by left|]. intros _. by exists s1.
    + destruct (IH updated s Hnd) as (s2 & -> & Hs2 & E1 & E2); [|done|].
      { intros Hu Hin. apply (Hupd Hu). by right. }
      cbn [mbind option_bind]. exists s2.
      assert (Hiff : f ∈ to m :: (to <$> ms) <-> f ∈ to <$> ms).
      { rewrite elem_of_cons. split; [intros [?|?]; [congruence|done]|by right]. }
      rewrite (bool_decide_ext _ _ Hiff), Hiff. split; [|done].
      change (relocate f t m) with (mkMove (from m) (move_to f t (to m))).
      unfold move_to at 1. rewrite (proj2 (Z.eqb_neq _ _) E).
      destruct ((t <=? to m) && (to m <? f)); [done|].
      destruct ((to m <=? t) && (f <? to m)); [done|]. by destruct m.
Qed.

Lemma relocate_in f t ms d d' s s' :
  f <> t -> (forall j, ix_has d j -> ix_has d' j) -> relocated f t s s' ->
  moves_in ms d s -> moves_in (relocate f t <$> ms) d' s'.
Proof.
  intros Hne Hd Hs. unfold moves_in. rewrite Forall_fmap. intros Hms. eapply Forall_impl; [exact Hms|].
  intros m [? ?]. split; [by apply Hd|]. simpl. apply Hs.
  pose proof (proj1 (move_to_before f t (to m) _ Hne) eq_refl) as E.
  destruct (decide (move_to f t (to m) = t)); [by left|right]. rewrite <- E. by split.
Qed.

Lemma move_source_app ms ms' j :
  move_source (ms ++ ms') j = match move_source ms j with Some f => Some f | None => move_source ms' j end.
Proof. induction ms as [|m ms IH]; [done|]. simpl. by destruct (to m =? j). Qed.

(** The columns follow the row. *)
Lemma move_col_spec f t s :
  f <> t -> 0 <= f -> 0 <= t -> ix_valid s ->
  gives (move_col f t s) (fun s' => ix_valid s' /\ forall j, ix_has s' j <-> ix_has s (before_move f t j)).
Proof.
  intros Hne Hf Ht Hs. unfold move_col. rewrite ix_contains_has by done. cbn [mbind option_bind].
  destruct (ix_erase_at_has s f Hs Hf) as (s1 & -> & Hs1 & H2). cbn [mbind option_bind].
  assert (Hcase : forall s2, (bool_decide (ix_has s f) = true ->
      forall k, ix_has s2 k <-> t <= k < t + 1 \/ moved_back t 1 (ix_has s1) k) ->
    (bool_decide (ix_has s f) = false -> forall k, ix_has s2 k <-> moved_back t 1 (ix_has s1) k) ->
    forall j, ix_has s2 j <-> ix_has s (before_move f t j)).
  { intros s2 H3 H4 j.
    assert (E : moved_back t 1 (ix_has s1) j <-> j <> t /\ ix_has s (before_move f t j)).
    { unfold moved_back. rewrite !H2. unfold erased, before_move, before_erase, before_insert.
      replace (j - 1 + 1) with j by lia.
      destruct (Z.eqb_spec j t), (Z.ltb_spec j t);
        repeat match goal with |- context [?a <? ?b] => destruct (Z.ltb_spec a b) end;
        replace (j - 1 + 1) with j by lia; intuition (lia || done). }
    assert (Et : j = t -> before_move f t j = f).
    { intros ->. unfold before_move. by rewrite Z.eqb_refl. }
    case_bool_decide as Hh; [rewrite H3 by done|rewrite H4 by done]; rewrite E.
    - destruct (decide (j = t)) as [Ej|Ej]; [rewrite (Et Ej); intuition lia|intuition lia].
    - destruct (decide (j = t)) as [Ej|Ej]; [rewrite (Et Ej); intuition lia|intuition lia]. }
  case_bool_decide as Hh.
  - destruct (ix_insert_at_has s1 t 1 Hs1 Ht ltac:(lia)) as (s2 & -> & Hs2 & H3).
    exists s2. split; [done|]. split; [done|]. by apply Hcase.
  - destruct (ix_shift_for_insert_at_has s1 t 1 Hs1 Ht ltac:(lia)) as (s2 & -> & Hs2 & H3).
    exists s2. split; [done|]. split; [done|]. by apply Hcase.
Qed.
End move.

Section move_spec.
Context `{IndexSetLaws IS} `{BuildMode}.
Implicit Types (b c : CollectionChangeBuilder IS) (s : IS).

Lemma not_in_moves ms d s f : moves_in ms d s -> ~ ix_has s f -> f ∉ to <$> ms.
Proof.
  unfold moves_in. rewrite Forall_forall. intros Hms Hf (m & -> & Hm)%list_elem_of_fmap.
  by apply Hf, Hms.
Qed.

(** Moving a row that is the destination of a recorded move. *)
Lemma move_chained b f t s1 s2 :
  ok b -> 0 <= f -> 0 <= t -> f <> t -> f ∈ to <$> moves b ->
  ix_valid s1 -> ix_valid s2 -> (forall k, ix_has s1 k <-> erased f (ix_has (insertions b)) k) ->
  (forall k, ix_has s2 k <-> t <= k < t + 1 \/ moved_back t 1 (ix_has s1) k) ->
  let b' := set_insertions s2 (set_moves (relocate f t <$> moves b) b) in
  ok b' /\ forall j, 0 <= j -> tracks b' j = tracks b (before_move f t j).
Proof.
  intros Hb Hf Ht Hne Hin Hs1 Hs2 Hm1 Hm2. pose proof (relocated_steps _ _ _ _ _ Hne Hm1 Hm2) as Hrel.
  assert (Hhas : ix_has (insertions b) f).
  { apply list_elem_of_fmap in Hin as (m & -> & Hm). destruct Hb as [_ _ _ _ Hms _].
    unfold moves_in in Hms. rewrite Forall_forall in Hms. by apply Hms. }
  split.
  - destruct Hb. split; simpl; [done..| |by apply relocate_nodup|by rewrite relocate_sources].
    by eapply relocate_in.
  - intros j Hj. unfold tracks. simpl. rewrite relocate_source by done.
    destruct (decide (j = t)) as [->|Hjt].
    + unfold before_move. rewrite Z.eqb_refl. destruct (move_source (moves b) f) eqn:E; [done|].
      by apply move_source_none in E.
    + destruct (move_source _ _); [done|].
      apply (origin_move _ _ (insertions b) s1); try done; try apply Hb.
      unfold deletes. by rewrite decide_True.
Qed.

(** Moving any other row. *)
Lemma move_fresh b f t s1 s2 d' :
  ok b -> 0 <= f -> 0 <= t -> f <> t -> f ∉ to <$> moves b -> ix_valid d' ->
  deletes (deletions b) d' (insertions b) f ->
  ix_valid s1 -> ix_valid s2 -> (forall k, ix_has s1 k <-> erased f (ix_has (insertions b)) k) ->
  (forall k, ix_has s2 k <-> t <= k < t + 1 \/ moved_back t 1 (ix_has s1) k) ->
  let new := if decide (ix_has (insertions b) f) then []
             else [mkMove (ix_free (deletions b) (rank (ix_ranges (insertions b)) f)) t] in
  let b' := set_moves ((relocate f t <$> moves b) ++ new) (set_deletions d' (set_insertions s2 b)) in
  ok b' /\ forall j, 0 <= j -> tracks b' j = tracks b (before_move f t j).
Proof.
  intros Hb Hf Ht Hne Hnin Hd' Hdel Hs1 Hs2 Hm1 Hm2 new b'.
  pose proof (relocated_steps _ _ _ _ _ Hne Hm1 Hm2) as Hrel. split.
  - destruct Hb. split; simpl; [done..| | |].
    + apply Forall_app. split; [eapply relocate_in; [done| |done|done]|].
      { intros j. by eapply deletes_mono. }
      unfold new. unfold deletes in Hdel. case_decide; constructor; [|constructor]. simpl. split.
      * apply Hdel. by left.
      * apply Hrel. by left.
    + rewrite fmap_app. apply NoDup_app. split; [by apply relocate_nodup|]. split.
      * intros x Hx Hn. unfold new in Hn. case_decide; simpl in Hn; [by apply elem_of_nil in Hn|].
        apply list_elem_of_singleton in Hn as ->.
        rewrite <- list_fmap_compose in Hx. apply list_elem_of_fmap in Hx as (m & E & Hm).
        simpl in E. symmetry in E. apply move_to_before in E; [|done].
        unfold before_move in E. rewrite Z.eqb_refl in E.
        apply Hnin, list_elem_of_fmap. by exists m.
      * unfold new. case_decide; simpl; [constructor|apply NoDup_singleton].
    + rewrite fmap_app, relocate_sources. apply NoDup_app. split; [done|]. split.
      * intros x (m & -> & Hm)%list_elem_of_fmap Hn. unfold new in Hn.
        case_decide; simpl in Hn; [by apply elem_of_nil in Hn|].
        apply list_elem_of_singleton in Hn. unfold moves_in in ok_moves0.
        rewrite Forall_forall in ok_moves0. destruct (ok_moves0 _ Hm) as [Hd _].
        rewrite Hn in Hd. by apply ix_free_not_has in Hd.
      * unfold new. case_decide; simpl; [constructor|apply NoDup_singleton].
  - intros j Hj. unfold tracks, b'. simpl. rewrite move_source_app, relocate_source by done.
    destruct (decide (j = t)) as [->|Hjt].
    + unfold before_move. rewrite Z.eqb_refl, (proj2 (move_source_none _ _) Hnin).
      unfold new, origin. rewrite (decide_True (P := ix_has s2 t)) by (apply Hrel; by left).
      case_decide; simpl; [done|]. by rewrite Z.eqb_refl.
    + destruct (move_source (moves b) _); [done|].
      replace (move_source new j) with (@None Z).
      2: { unfold new. case_decide; simpl; [done|]. by rewrite (proj2 (Z.eqb_neq _ _)) by done. }
      apply (origin_move _ _ (insertions b) s1); try done; apply Hb.
Qed.

Lemma move_spec b f t :
  ok b -> 0 <= f < npos -> 0 <= t -> f <> t ->
  gives (move b f t) (fun b' => ok b' /\
    (forall j, 0 <= j -> tracks b' j = tracks b (before_move f t j)) /\
    cols_changed (fun s s' => forall j, ix_has s' j <-> ix_has s (before_move f t j)) b b').
Proof.
  intros Hb Hf Ht Hne. unfold move. rewrite (proj2 (Z.eqb_neq _ _) Hne).
  cbn [negb realm_assert mbind option_bind].
  destruct (move_moves_spec (moves b) f t false (insertions b) Hne ltac:(lia) Ht (ok_moves_nodup _ Hb)
    ltac:(done) (ok_insertions _ Hb)) as (s2 & -> & Hs2 & Hsame & Hmoved).
  cbn [mbind option_bind orb].
  assert (Hfinish : forall b1, ok b1 -> modifications b1 = modifications b -> columns b1 = columns b ->
    m_track_columns b1 = m_track_columns b ->
    (forall j, 0 <= j -> tracks b1 j = tracks b (before_move f t j)) ->
    gives (for_each_col (move_col f t) b1) (fun b' => ok b' /\
      (forall j, 0 <= j -> tracks b' j = tracks b (before_move f t j)) /\
      cols_changed (fun s s' => forall j, ix_has s' j <-> ix_has s (before_move f t j)) b b')).
  { intros b1 Hb1 Em Ec Et Htr.
    destruct (for_each_col_spec (move_col f t) _ b1
      (fun s Hs => move_col_spec f t s Hne ltac:(lia) Ht Hs) Hb1)
      as (b' & -> & Hb' & (Ed & Ei & Emv & _ & Et') & Hc).
    exists b'. split; [done|]. split; [done|]. split.
    - intros j Hj. rewrite <- Htr by done. unfold tracks. by rewrite Ed, Ei, Emv.
    - unfold cols_changed in *. by rewrite Em, Ec, Et in Hc. }
  case_bool_decide as Hin.
  - destruct (Hmoved Hin) as (s1 & Hs1 & Hm1 & Hm2). cbn [mbind option_bind].
    destruct (move_chained b f t s1 s2 Hb ltac:(lia) Ht Hne Hin Hs1 Hs2 Hm1 Hm2) as [Hok Htr].
    by apply Hfinish.
  - rewrite (Hsame Hin). cbn [insertions deletions set_insertions set_moves].
    destruct (take_row (deletions b) (insertions b) f (ok_deletions _ Hb) (ok_insertions _ Hb) Hf)
      as (s1 & u & -> & Hs1 & Hm1 & Hnpos & Hadd). cbn [mbind option_bind].
    destruct (ix_insert_at_has s1 t 1 Hs1 Ht ltac:(lia)) as (s3 & -> & Hs3 & Hm3).
    cbn [mbind option_bind]. rewrite Hnpos.
    pose proof (fun d' Hd' Hdel => move_fresh b f t s1 s3 d' Hb ltac:(lia) Ht Hne Hin Hd' Hdel
      Hs1 Hs3 Hm1 Hm3) as Hfresh.
    case_bool_decide as Hh; cbn [negb mbind option_bind].
    + rewrite decide_True in Hfresh by done.
      destruct (Hfresh (deletions b)) as [Hok Htr]; [apply Hb|unfold deletes; by rewrite decide_True|].
      rewrite app_nil_r in Hok, Htr. by apply Hfinish.
    + rewrite decide_False in Hfresh by done. destruct (Hadd Hh) as (-> & d' & Ha & Hd' & Hdel).
      cbn [deletions set_insertions set_moves]. rewrite Ha. cbn [mbind option_bind].
      destruct (Hfresh d' Hd' Hdel) as [Hok Htr]. by apply Hfinish.
Qed.
End move_spec.

(** ** Clearing, finishing and merging *)
Section whole_collection.
Context `{IndexSetLaws IS} `{BuildMode}.
Implicit Types (b c : CollectionChangeBuilder IS) (s : IS).

Lemma clear_spec b old_size :
  0 <= old_size -> 
  gives (clear b old_size) (fun b' => ok b' /\ moves b' = [] /\ columns b' = [] /\
    (forall j, ~ ix_has (insertions b') j) /\ (forall j, ~ ix_has (modifications b') j) /\
    forall j, ix_has (deletions b') j <->
      0 <= j < (if old_size =? npos then npos
                else (old_size + total (ix_ranges (deletions b)) - total (ix_ranges (insertions b))) mod 2 ^ 64)).
Proof.
  intros Hn. unfold clear.
  set (size := if old_size =? npos then old_size else _).
  assert (0 <= size).
  { unfold size. destruct (old_size =? npos); [done|]. by apply Z.mod_pos_bound. }
  destruct (ix_set_has (deletions b) size) as (d & -> & Hd & Hm); [done|]. cbn [mbind option_bind].
  eexists. split; [done|]. rewrite !ix_clear_nil. split.
  { split; simpl; try apply ix_nil_valid; try constructor; done. }
  assert (Hnil : forall j, ~ ix_has ix_nil j).
  { intros j. unfold ix_has. rewrite ix_nil_ranges. intros []. }
  do 2 (split; [done|]). do 2 (split; [apply Hnil|]). intros j. simpl. rewrite Hm. unfold size.
  destruct (Z.eqb_spec old_size npos) as [->|]; done.
Qed.

(** [finalize] reports the modified rows that are not insertions, once by
    their new and once by their old position. *)
Lemma record_finalize_spec b :
  ok b -> gives (finalize b) (fun r =>
    c_deletions r = deletions b /\ c_insertions r = insertions b /\ c_moves r = moves b /\
    c_columns r = columns b /\
    (forall j, ix_has (c_modifications_new r) j <-> ix_has (modifications b) j /\ ~ ix_has (insertions b) j) /\
    (forall k, ix_has (c_modifications r) k <->
       exists j, ix_has (c_modifications_new r) j /\ origin (deletions b) (insertions b) j = Some k)).
Proof.
  intros Hb. unfold finalize.
  destruct (ix_erase_at_set_has (modifications b) (insertions b)) as (m1 & -> & Hv1 & Hm1); [apply Hb..|].
  cbn [mbind option_bind].
  destruct (ix_shift_for_insert_at_set_has m1 (deletions b)) as (m2 & -> & Hv2 & Hm2); [done|apply Hb|].
  cbn [mbind option_bind].
  destruct (ix_remove_set_has (modifications b) (insertions b)) as (m3 & -> & Hv3 & Hm3); [apply Hb..|].
  cbn [mbind option_bind]. eexists. split; [done|]. do 4 (split; [done|]). split; [apply Hm3|].
  intros k. simpl. rewrite Hm2. unfold origin. split.
  - intros (x & (j & Hj & Hn & ->)%Hm1 & ->). exists j. rewrite Hm3. split; [done|].
    by rewrite decide_False.
  - intros (j & [Hj Hn]%Hm3 & E). rewrite decide_False in E by done. injection E as <-.
    exists (j - ix_below (insertions b) j). split; [|done]. apply Hm1. by exists j.
Qed.
End whole_collection.
