(* ===== verification/ChangeMerge.v ===== *)
(** * Merging change sets

    [CollectionChangeBuilder::merge] is shown to compose the row movements of
    the two change sets, and [clean_up_stale_moves] to keep them. *)
From stdpp Require Import gmap sorting.
From S2P Require Import Prelude.
From S2P Require Import RangeList.
From S2P Require Import IndexSets.
From S2P Require Import IndexSetShifts.
From S2P Require Import IndexSetInterface.
From S2P Require Import Positions.
From S2P Require Import ChangeBuilder.
From S2P Require Import ChangeBuilderFacts.
Import ChangeBuilder.

Section sources.
Context `{IndexSetLaws IS} `{BuildMode}.
Implicit Types (b c : CollectionChangeBuilder IS) (s d i : IS) (ms : list Move).

Definition track ms d i (j : Z) : option Z :=
  match move_source ms j with Some f => Some f | None => origin d i j end.

Lemma move_source_elem ms j f :
  NoDup (to <$> ms) -> move_source ms j = Some f <-> exists m, m ∈ ms /\ from m = f /\ to m = j.
Proof.
  induction ms as [|m ms IH]; simpl.
  - intros _. split; [done|]. by intros (m & Hm%elem_of_nil & _).
  - intros [Hm Hnd]%NoDup_cons. destruct (Z.eqb_spec (to m) j) as [E|E].
    + split; [intros [=]; exists m; split; [by left|done]|].
      intros (m' & [->|Hm']%elem_of_cons & <- & Ej); [done|]. destruct Hm.
      apply list_elem_of_fmap. exists m'. split; [congruence|done].
    + rewrite IH by done. split; intros (m' & Hm' & ? & ?); exists m'.
      * split; [by right|done].
      * apply elem_of_cons in Hm' as [->|Hm']; [congruence|done].
Qed.

Lemma same_to ms m1 m2 : NoDup (to <$> ms) -> m1 ∈ ms -> m2 ∈ ms -> to m1 = to m2 -> m1 = m2.
Proof.
  intros Hnd H2 H3 E. assert (E1 := proj2 (move_source_elem ms (to m1) (from m1) Hnd) (ex_intro _ m1 (conj H2 (conj eq_refl eq_refl)))).
  assert (E2 := proj2 (move_source_elem ms (to m1) (from m2) Hnd) (ex_intro _ m2 (conj H3 (conj eq_refl (eq_sym E))))).
  destruct m1, m2. simpl in *. congruence.
Qed.

(** ** [clean_up_stale_moves] *)

(** Dropping one move whose source and destination have the same rank,
    together with its deletion and insertion. *)
Lemma origin_unmoved d i d' i' f t j :
  ix_valid d -> ix_valid i -> ix_valid d' -> ix_valid i' ->
  ix_has d f -> ix_has i t -> rank (ix_ranges d) f = rank (ix_ranges i) t ->
  (forall k, ix_has d' k <-> ix_has d k /\ ~ (f <= k < f + 1)) ->
  (forall k, ix_has i' k <-> ix_has i k /\ ~ (t <= k < t + 1)) -> 0 <= j ->
  origin d' i' j = if j =? t then Some f else origin d i j.
Proof.
  intros Hd Hi Hd' Hi' Hf Ht Hr Hmd Hmi Hj.
  pose proof (ix_has_nonneg _ _ Hd Hf). pose proof (ix_has_nonneg _ _ Hi Ht).
  pose proof (ix_valid_sep _ Hd) as Sd. pose proof (ix_valid_sep _ Hi) as Si.
  pose proof (ix_valid_sep _ Hd') as Sd'. pose proof (ix_valid_sep _ Hi') as Si'.
  assert (Hnf : ~ ix_has d' f) by (rewrite Hmd; lia).
  assert (Hnt : ~ ix_has i' t) by (rewrite Hmi; lia).
  assert (Hmi' : forall k, mem (ix_ranges i) k <-> k = t \/ mem (ix_ranges i') k).
  { intros k. change (ix_has i k <-> k = t \/ ix_has i' k). rewrite Hmi.
    destruct (decide (k = t)) as [->|]; [tauto|]. split; [intros; right; split; [done|lia]|tauto]. }
  assert (Hmd' : forall k, mem (ix_ranges d) k <-> k = f \/ mem (ix_ranges d') k).
  { intros k. change (ix_has d k <-> k = f \/ ix_has d' k). rewrite Hmd.
    destruct (decide (k = f)) as [->|]; [tauto|]. split; [intros; right; split; [done|lia]|tauto]. }
  pose proof (count_below_add _ _ t j Si' Si Hnt Hmi' ltac:(done)) as Hci.
  pose proof (count_below_add _ _ t t Si' Si Hnt Hmi' ltac:(done)) as Hct.
  pose proof (count_below_add _ _ f f Sd' Sd Hnf Hmd' ltac:(done)) as Hcf.
  rewrite (decide_False (P := t < t)) in Hct by lia. rewrite (decide_False (P := f < f)) in Hcf by lia.
  unfold origin. destruct (Z.eqb_spec j t) as [->|Hne].
  - rewrite decide_False by done. f_equal. unfold ix_free.
    replace (rank (ix_ranges i') t) with (rank (ix_ranges d') f) by (unfold rank in *; lia).
    by apply free_rank.
  - assert (E : ix_has i' j <-> ix_has i j).
    { rewrite Hmi. split; [tauto|]. intros; split; [done|lia]. }
    destruct (decide (ix_has i' j)) as [Hh'|Hh'];
      [by rewrite (decide_True (P := ix_has i j)) by tauto|].
    assert (Hh : ~ ix_has i j) by tauto.
    rewrite (decide_False (P := ix_has i j)) by done. f_equal. unfold ix_free.
    rewrite (free_add (ix_ranges d') (ix_ranges d) (rank (ix_ranges d') f)).
    + destruct (decide (t < j)) as [Hlt|Hge].
      * pose proof (rank_mono (ix_ranges i) t j Si ltac:(lia)).
        rewrite decide_False by (unfold rank in *; lia). f_equal. unfold rank in *. lia.
      * pose proof (rank_lt (ix_ranges i) j t Si Hh ltac:(lia)).
        rewrite decide_True by (unfold rank in *; lia). f_equal. unfold rank in *. lia.
    + done.
    + done.
    + by apply rank_nonneg.
    + intros y. rewrite Hmd', free_rank by done. done.
Qed.

(** [pre] are the moves that are kept so far. *)
Lemma clean_moves_spec ms d i pre :
  ix_valid d -> ix_valid i -> moves_in (pre ++ ms) d i ->
  NoDup (to <$> (pre ++ ms)) -> NoDup (from <$> (pre ++ ms)) ->
  exists ms' d' i', clean_moves ms d i = Some (ms', d', i') /\ ix_valid d' /\ ix_valid i' /\
    moves_in (pre ++ ms') d' i' /\ NoDup (to <$> (pre ++ ms')) /\ NoDup (from <$> (pre ++ ms')) /\
    forall j, 0 <= j -> track (pre ++ ms') d' i' j = track (pre ++ ms) d i j.
Proof.
  revert d i pre. induction ms as [|m ms IH]; intros d i pre Hd Hi Hin Ht Hf.
  - by exists [], d, i.
  - assert (Hm : ix_has d (from m) /\ ix_has i (to m)).
    { unfold moves_in in Hin. rewrite Forall_app, Forall_cons in Hin. tauto. }
    destruct Hm as [Hmf Hmt]. pose proof (ix_has_nonneg _ _ Hd Hmf). pose proof (ix_has_nonneg _ _ Hi Hmt).
    cbn [clean_moves]. rewrite !ix_count_below by done. cbn [mbind option_bind].
    destruct (Z.eqb_spec (from m - ix_below d (from m)) (to m - ix_below i (to m))) as [E|E]; cbn [negb].
    + destruct (ix_remove_has d (from m) 1 Hd ltac:(lia)) as (d1 & -> & Hd1 & Hmd). cbn [mbind option_bind].
      destruct (ix_remove_has i (to m) 1 Hi ltac:(lia)) as (i1 & -> & Hi1 & Hmi). cbn [mbind option_bind].
      rewrite !fmap_app, !fmap_cons in Ht, Hf.
      apply NoDup_app in Ht as (Ht1 & Ht2 & [Ht3 Ht4]%NoDup_cons).
      apply NoDup_app in Hf as (Hf1 & Hf2 & [Hf3 Hf4]%NoDup_cons).
      assert (Htn : to m ∉ to <$> (pre ++ ms)).
      { rewrite fmap_app, elem_of_app. intros [Hx|Hx]; [|done]. apply (Ht2 _ Hx). by left. }
      assert (Hfn : from m ∉ from <$> (pre ++ ms)).
      { rewrite fmap_app, elem_of_app. intros [Hx|Hx]; [|done]. apply (Hf2 _ Hx). by left. }
      destruct (IH d1 i1 pre Hd1 Hi1) as (ms' & d' & i' & -> & Hd' & Hi' & Hin' & Ht' & Hf' & Htr).
      { unfold moves_in in *. rewrite Forall_forall in *. intros x Hx.
        assert (Hxin : x ∈ pre ++ m :: ms) by (rewrite elem_of_app, elem_of_cons in *; tauto).
        destruct (Hin x Hxin) as [Hxf Hxt]. rewrite Hmd, Hmi.
        assert (from x <> from m) by (intros Ex; apply Hfn; rewrite <- Ex; by apply list_elem_of_fmap_2).
        assert (to x <> to m) by (intros Ex; apply Htn; rewrite <- Ex; by apply list_elem_of_fmap_2).
        split; (split; [done|lia]). }
      { rewrite fmap_app. apply NoDup_app. split; [done|]. split; [|done].
        intros x Hx Hx'. apply (Ht2 x Hx). by right. }
      { rewrite fmap_app. apply NoDup_app. split; [done|]. split; [|done].
        intros x Hx Hx'. apply (Hf2 x Hx). by right. }
      exists ms', d', i'. split; [done|]. do 5 (split; [done|]). intros j Hj.
      rewrite Htr by done. unfold track. rewrite !move_source_app. cbn [move_source].
      rewrite (origin_unmoved d i d1 i1 (from m) (to m)) by done.
      rewrite Z.eqb_sym. destruct (Z.eqb_spec (to m) j) as [<-|Hne]; [|done].
      apply move_source_none in Htn. rewrite move_source_app in Htn.
      destruct (move_source pre (to m)); [done|]. by rewrite Htn.
    + destruct (IH d i (pre ++ [m]) Hd Hi) as (ms' & d' & i' & -> & Hrest);
        [by rewrite <- app_assoc..|].
      cbn [mbind option_bind]. exists (m :: ms'), d', i'. split; [done|].
      by rewrite <- !app_assoc in Hrest.
Qed.
End sources.

Section carry.
Context `{IndexSetLaws IS} `{BuildMode}.
Implicit Types (b c : CollectionChangeBuilder IS) (s d i : IS) (ms cm : list Move).

Lemma clean_up_spec b :
  ok b ->
  exists b', clean_up_stale_moves b = Some b' /\ ok b' /\ forall j, 0 <= j -> tracks b' j = tracks b j.
Proof.
  intros Hb. unfold clean_up_stale_moves.
  destruct (clean_moves_spec (moves b) (deletions b) (insertions b) []) as
    (ms & d & i & E & Hd & Hi & Hin & Ht & Hf & Htr); [apply Hb..|].
  rewrite E. cbn [mbind option_bind]. eexists. split; [done|]. split.
  - destruct Hb. by split.
  - intros j Hj. apply (Htr j Hj).
Qed.

Definition cols_valid b : Prop := ix_valid (modifications b) /\ Forall ix_valid (columns b).

(** Everything but the modifications and columns is kept. *)
Lemma same_rows_refl b : same_rows b b.
Proof. by repeat split. Qed.

Lemma same_rows_trans b b1 b2 : same_rows b b1 -> same_rows b1 b2 -> same_rows b b2.
Proof. unfold same_rows. intros (E1 & E2 & E3 & E4 & E5) (F1 & F2 & F3 & F4 & F5). by repeat split; congruence. Qed.

Lemma resize_valid n cols : Forall ix_valid cols -> Forall ix_valid (resize n cols).
Proof. intros Hc. apply Forall_app. split; [done|]. apply Forall_replicate, ix_nil_valid. Qed.

Lemma zip_cols_spec (f : IS -> IS -> option (IS * IS)) l k :
  (forall x y, ix_valid x -> ix_valid y -> gives (f x y) (fun '(x', y') => ix_valid x' /\ ix_valid y')) ->
  Forall ix_valid l -> Forall ix_valid k ->
  gives (zip_cols f l k) (fun '(l', k') => Forall ix_valid l' /\ Forall ix_valid k').
Proof.
  intros Hf Hl. revert k. induction Hl as [|x l Hx Hl IH]; intros k Hk; [by exists ([], k)|].
  destruct Hk as [|y k Hy Hk]; [exists (x :: l, []); split; [done|by split; constructor]|].
  cbn [zip_cols]. destruct (Hf x y Hx Hy) as ([x' y'] & -> & Hx' & Hy'). cbn [mbind option_bind].
  destruct (IH k Hk) as ([l' k'] & -> & Hl' & Hk'). cbn [mbind option_bind].
  exists (x' :: l', y' :: k'). split; [done|]. by split; constructor.
Qed.

(** One pass over the modifications and columns of both sides. *)
Lemma for_each_col2_spec (f : IS -> IS -> option (IS * IS)) (R : IS -> IS -> IS -> IS -> Prop) b c :
  (forall x y, ix_valid x -> ix_valid y ->
     gives (f x y) (fun '(x', y') => ix_valid x' /\ ix_valid y' /\ R x y x' y')) ->
  cols_valid b -> cols_valid c ->
  gives (for_each_col2 f b c) (fun '(b', c') =>
    cols_valid b' /\ cols_valid c' /\ same_rows b b' /\ same_rows c c' /\
    R (modifications b) (modifications c) (modifications b') (modifications c')).
Proof.
  intros Hf [Hbm Hbc] [Hcm Hcc]. unfold for_each_col2.
  destruct (Hf _ _ Hbm Hcm) as ([m cm] & -> & Hm & Hcm' & HR). cbn [mbind option_bind].
  cbn [m_track_columns columns set_modifications]. destruct (m_track_columns b) eqn:Et; 
    [|eexists (_, _); split; [done|]; cbn; split; [by split|]; split; [by split|]; split; [by repeat split|]; split; [by repeat split|exact HR]].
  set (n := Nat.max (length (columns b)) (length (columns c))).
  destruct (zip_cols_spec f (resize n (columns b)) (resize n (columns c))) as ([l k] & E & Hl & Hk).
  - intros x y Hx Hy. destruct (Hf x y Hx Hy) as ([x' y'] & -> & ? & ? & _). by exists (x', y').
  - by apply resize_valid.
  - by apply resize_valid.
  - simpl in *. rewrite E. cbn [mbind option_bind]. eexists (_, _). split; [done|].
    cbn. split; [by split|]. split; [by split|]. split; [by repeat split|]. split; [by repeat split|exact HR].
Qed.

Lemma carry_spec f t b c :
  0 <= t -> cols_valid b -> cols_valid c ->
  gives (for_each_col2 (carry_modified f t) b c) (fun '(b', c') =>
    cols_valid b' /\ cols_valid c' /\ same_rows b b' /\ same_rows c c' /\
    modifications b' = modifications b /\
    forall j, ix_has (modifications c') j <-> ix_has (modifications c) j \/ (j = t /\ ix_has (modifications b) f)).
Proof.
  intros Ht. apply (for_each_col2_spec (carry_modified f t)
    (fun x y x' y' => x' = x /\ forall j, ix_has y' j <-> ix_has y j \/ (j = t /\ ix_has x f))).
  intros x y Hx Hy. unfold carry_modified. rewrite ix_contains_has by done. cbn [mbind option_bind].
  case_bool_decide as Hxf; [|exists (x, y); do 4 (split; [done|]); tauto].
  destruct (ix_add_has y t Hy Ht) as (y' & -> & Hy' & Hm). cbn [mbind option_bind].
  exists (x, y'). split; [done|]. do 3 (split; [done|]). intros j. rewrite Hm. tauto.
Qed.

(** Modifications that go with some of the moves *)
Definition carried (m m' : IS) (moved : Move -> Prop) (from_mods : IS) : Prop := forall j,
  ix_has m' j <-> ix_has m j \/ exists it, moved it /\ to it = j /\ ix_has from_mods (from it).

Lemma carried_none m x : carried m m (fun _ => False) x.
Proof. intros j. split; [by left|]. by intros [?|(it & [] & _)]. Qed.
Lemma carried_trans m m' m'' P Q x : carried m m' P x -> carried m' m'' Q x -> carried m m'' (fun it => P it \/ Q it) x.
Proof.
  intros Hc1 Hc2 j. rewrite (Hc2 j), (Hc1 j). split.
  - intros [[?|(it & ? & ?)]|(it & ? & ?)]; [by left|right; exists it; tauto..].
  - intros [?|(it & [?|?] & ?)]; [by do 2 left|left; right; by exists it|right; by exists it].
Qed.
Lemma carried_iff m m' P Q x : (forall it, P it <-> Q it) -> carried m m' P x -> carried m m' Q x.
Proof. intros Hiff Hc j. rewrite (Hc j). by setoid_rewrite Hiff. Qed.

Lemma swap_remove_perm k l (m : Move) : l !! k = Some m -> m :: swap_remove k l ≡ₚ l.
Proof.
  intros Hk. unfold swap_remove. destruct (list_snoc_inv l) as [->|(l' & x & ->)]; [done|].
  rewrite last_snoc, length_app, Nat.add_sub.
  destruct (decide (k < length l')%nat) as [Hlt|Hge].
  - rewrite insert_app_l, take_app_length' by (by rewrite ?length_insert).
    rewrite lookup_app_l in Hk by done.
    rewrite <- (take_drop_middle _ _ _ Hk) at 2. rewrite insert_take_drop by done.
    rewrite <- app_assoc. simpl. solve_Permutation.
  - assert (k = length l') as ->.
    { apply lookup_lt_Some in Hk. rewrite length_app in Hk. simpl in Hk. lia. }
    rewrite list_lookup_middle in Hk by done. injection Hk as ->.
    rewrite insert_middle, take_app_length. solve_Permutation.
Qed.

(** The destination of the move from [k]. *)
Fixpoint move_dest ms (k : Z) : option Z :=
  match ms with
  | [] => None
  | m :: ms => if k =? from m then Some (to m) else move_dest ms k
  end.

Lemma move_dest_find ms k :
  move_dest ms k = to <$> (ms !! find_if (fun m => k =? from m) ms).
Proof. induction ms as [|m ms IH]; [done|]. simpl. by destruct (k =? from m). Qed.

Lemma move_dest_elem ms k t :
  NoDup (from <$> ms) -> move_dest ms k = Some t <-> exists m, m ∈ ms /\ from m = k /\ to m = t.
Proof.
  induction ms as [|m ms IH]; simpl.
  - intros _. split; [done|]. by intros (m & Hm%elem_of_nil & _).
  - intros [Hm Hnd]%NoDup_cons. destruct (Z.eqb_spec k (from m)) as [E|E].
    + split; [intros [=]; exists m; split; [by left|done]|].
      intros (m' & [->|Hm']%elem_of_cons & Ej & <-); [done|]. destruct Hm.
      apply list_elem_of_fmap. exists m'. split; [congruence|done].
    + rewrite IH by done. split; intros (m' & Hm' & ? & ?); exists m'.
      * split; [by right|done].
      * apply elem_of_cons in Hm' as [->|Hm']; [congruence|done].
Qed.

Lemma move_dest_perm ms ms' k :
  NoDup (from <$> ms) -> ms ≡ₚ ms' -> move_dest ms k = move_dest ms' k.
Proof.
  intros Hnd Hp. assert (Hnd' : NoDup (from <$> ms')) by (by rewrite <- Hp).
  apply option_eq. intros t. rewrite !move_dest_elem by done. by setoid_rewrite Hp.
Qed.

Lemma move_dest_none ms k : move_dest ms k = None <-> k ∉ from <$> ms.
Proof.
  induction ms as [|m ms IH]; simpl; [split; [intros _ []%not_elem_of_nil|done]|].
  rewrite not_elem_of_cons. destruct (Z.eqb_spec k (from m)) as [->|E]; [split; [done|tauto]|].
  rewrite IH. split; [by split|tauto].
Qed.
End carry.

Section old_moves.
Context `{IndexSetLaws IS} `{BuildMode}.
Implicit Types (b c : CollectionChangeBuilder IS) (s d i : IS) (ms cm : list Move).

(** What becomes of an old move: chained with a new one, dropped with its
    destination, or shifted. *)
Definition chain cm d i (old : Move) : option Move :=
  match move_dest cm (to old) with
  | Some t => Some (mkMove (from old) t)
  | None =>
    if decide (ix_has d (to old)) then None
    else Some (mkMove (from old) (ix_free i (rank (ix_ranges d) (to old))))
  end.

Lemma omap_step (g : Move -> option Move) m ms :
  omap g (m :: ms) = match g m with Some x => x :: omap g ms | None => omap g ms end.
Proof. done. Qed.

Lemma chain_removed cm cm' it d i ms :
  it :: cm' ≡ₚ cm -> NoDup (from <$> cm) -> from it ∉ to <$> ms ->
  omap (chain cm' d i) ms = omap (chain cm d i) ms.
Proof.
  intros Hp Hnd Hn. induction ms as [|m ms IH]; [done|].
  rewrite fmap_cons, not_elem_of_cons in Hn. destruct Hn as [Hne Hn]. rewrite !omap_step.
  assert (E : move_dest cm' (to m) = move_dest cm (to m)).
  { symmetry. assert (Hnd' : NoDup (from <$> it :: cm')) by (by rewrite Hp).
    rewrite <- (move_dest_perm _ _ _ Hnd' Hp). simpl. by rewrite (proj2 (Z.eqb_neq _ _)). }
  assert (chain cm' d i m = chain cm d i m) as -> by (unfold chain; by rewrite E).
  by rewrite (IH Hn).
Qed.

Definition kept (ms : list Move) (m : Move) : Prop := from m ∉ to <$> ms.
#[global] Instance kept_dec ms m : Decision (kept ms m).
Proof. unfold kept. apply _. Defined.

(** The new moves that start where no old move ends. *)
Lemma kept_removed cm cm' it old ms :
  it :: cm' ≡ₚ cm -> NoDup (from <$> cm) -> from it = to old ->
  filter (kept ms) cm' ≡ₚ filter (kept (old :: ms)) cm.
Proof.
  intros Hp Hnd E. rewrite <- Hp, filter_cons.
  rewrite decide_False by (unfold kept; rewrite fmap_cons, E, not_elem_of_cons; tauto).
  assert (Hn : from it ∉ from <$> cm').
  { rewrite <- Hp in Hnd. by apply NoDup_cons in Hnd as [? _]. }
  clear Hp Hnd. induction cm' as [|m cm' IH]; [done|].
  rewrite fmap_cons, not_elem_of_cons in Hn. destruct Hn as [Hne Hn]. rewrite !filter_cons.
  destruct (decide (kept ms m)) as [Hk|Hk].
  - rewrite decide_True; [by rewrite (IH Hn)|]. unfold kept in *.
    rewrite fmap_cons, not_elem_of_cons, <- E. split; [congruence|done].
  - rewrite decide_False; [by apply IH|]. unfold kept in *.
    rewrite fmap_cons, not_elem_of_cons. tauto.
Qed.

Lemma kept_none cm old ms :
  to old ∉ from <$> cm -> filter (kept ms) cm = filter (kept (old :: ms)) cm.
Proof.
  intros Hn. induction cm as [|m cm IH]; [done|].
  rewrite fmap_cons, not_elem_of_cons in Hn. destruct Hn as [Hne Hn]. rewrite !filter_cons.
  destruct (decide (kept ms m)) as [Hk|Hk]; [rewrite decide_True|rewrite decide_False];
    rewrite ?(IH Hn); try done; unfold kept in *; rewrite fmap_cons, not_elem_of_cons;
    [split; [congruence|done]|tauto].
Qed.

Definition merged_old ms b c (r : list Move * CollectionChangeBuilder IS * CollectionChangeBuilder IS) : Prop :=
  let '(ms', b', c') := r in
  ms' = omap (chain (moves c) (deletions c) (insertions c)) ms /\
  cols_valid b' /\ cols_valid c' /\ same_rows b b' /\
  deletions c' = deletions c /\ insertions c' = insertions c /\
  moves c' ≡ₚ filter (kept ms) (moves c) /\
  modifications b' = modifications b /\
  carried (modifications c) (modifications c') (fun it => it ∈ moves c /\ from it ∈ to <$> ms) (modifications b).

Lemma merge_old_moves_spec ms b c :
  cols_valid b -> cols_valid c -> ix_valid (deletions c) -> ix_valid (insertions c) ->
  NoDup (to <$> ms) -> NoDup (from <$> moves c) ->
  Forall (fun m => 0 <= to m) ms -> Forall (fun m => 0 <= to m) (moves c) ->
  gives (merge_old_moves ms b c) (merged_old ms b c).
Proof.
  revert b c. induction ms as [|old ms IH]; intros b c Hb Hc Hd Hi Ht Hf Hpos Hcpos.
  { exists ([], b, c). split; [done|]. split; [done|]. do 2 (split; [done|]). split; [apply same_rows_refl|].
    do 2 (split; [done|]). split; [|split; [done|]].
    - induction (moves c) as [|m l IHl]; [done|].
      rewrite filter_cons, decide_True by (apply not_elem_of_nil). f_equiv.
      apply IHl; [by inversion Hf|by inversion Hcpos].
    - eapply carried_iff; [|apply carried_none]. intros it. split; [done|]. by intros [_ ?%elem_of_nil]. }
  rewrite fmap_cons in Ht. apply NoDup_cons in Ht as [Hold Ht]. apply Forall_cons in Hpos as [Hp0 Hpos].
  cbn [merge_old_moves]. pose proof (move_dest_find (moves c) (to old)) as Hdest.
  destruct (moves c !! _) as [it|] eqn:Hit; simpl in Hdest.
  - assert (Hitp : 0 <= to it) by (rewrite Forall_lookup in Hcpos; eauto).
    assert (Hfrom : from it = to old).
    { destruct (find_if_split (fun m => to old =? from m) (moves c)) as (l1 & l2 & E & E2 & _ & Hl2).
      rewrite E2, E in Hit. rewrite lookup_app_r, Nat.sub_diag in Hit by done.
      destruct l2 as [|x l2]; [done|]. injection Hit as ->. by apply Z.eqb_eq in Hl2. }
    pose proof (swap_remove_perm _ _ _ Hit) as Hperm.
    destruct (carry_spec (from it) (to it) b c Hitp Hb Hc) as ([b1 c1] & -> & Hb1 & Hc1 & Sb1 & Sc1 & Em1 & Hm1).
    cbn [mbind option_bind]. pose proof Sc1 as (Ed & Ei & Em & _).
    rewrite Em in *. set (k := find_if _ _) in *.
    destruct (IH b1 (set_moves (swap_remove k (moves c)) c1)) as ([[ms' b'] c'] & -> & Hr).
    + done.
    + exact Hc1.
    + by rewrite <- Ed in Hd.
    + by rewrite <- Ei in Hi.
    + done.
    + simpl. rewrite <- Hperm in Hf. by apply NoDup_cons in Hf as [_ ?].
    + done.
    + simpl. rewrite <- Hperm in Hcpos. by apply Forall_cons in Hcpos as [_ ?].
    + destruct Hr as (-> & Hb' & Hc' & Sb' & Ed' & Ei' & Hp' & Em' & Hm'). simpl in *.
      cbn [mbind option_bind]. eexists (_, _, _). split; [done|].
      rewrite Ed, Ei in *. split.
      { rewrite omap_step. unfold chain at 2. rewrite Hdest. f_equal.
        apply (chain_removed _ _ it); [done|done|by rewrite Hfrom]. }
      do 2 (split; [done|]). split; [by eapply same_rows_trans|]. do 2 (split; [done|]).
      split; [rewrite Hp'; by eapply kept_removed|]. split; [congruence|]. rewrite Em1 in Hm'.
      eapply carried_iff; [|eapply (carried_trans _ _ _ (fun it' => it' = it)); [|exact Hm']].
      2: { intros j. rewrite Hm1. split; [intros [?|[-> ?]]; [by left|right; by exists it]|].
           intros [?|(it' & -> & <- & ?)]; [by left|by right]. }
      assert (forall x, x ∈ moves c <-> x = it \/ x ∈ swap_remove k (moves c)) as Hmem.
      { intros x. rewrite <- elem_of_cons. by rewrite Hperm. }
      intros it'. rewrite fmap_cons, elem_of_cons, <- Hfrom, Hmem. split.
      * intros [->|[? ?]]; [split; by left|]. split; by right.
      * intros [[->|Hin] Hto]; [by left|]. right. split; [done|]. destruct Hto as [Hto|?]; [|done].
        rewrite <- Hperm in Hf. apply NoDup_cons in Hf as [Hf _]. destruct Hf. rewrite <- Hto. by apply list_elem_of_fmap_2.
  - rewrite ix_contains_has by done. cbn [mbind option_bind].
    assert (Hn : to old ∉ from <$> moves c) by (by apply move_dest_none).
    destruct (IH b c Hb Hc Hd Hi Ht Hf Hpos Hcpos) as ([[ms' b'] c'] & E & Hr).
    pose proof Hr as (Ems & Hb' & Hc' & Sb' & Ed' & Ei' & Hp' & Em' & Hm').
    assert (forall it, it ∈ moves c /\ from it ∈ to <$> ms <-> it ∈ moves c /\ from it ∈ to <$> old :: ms) as Hsame.
    { intros it. rewrite fmap_cons, elem_of_cons. split; [tauto|]. intros [Hit' [E'|?]]; [|done].
      destruct Hn. rewrite <- E'. by apply list_elem_of_fmap_2. }
    case_bool_decide as Hdel.
    + rewrite E. eexists. split; [done|]. split.
      { rewrite omap_step. unfold chain at 1. rewrite Hdest. rewrite decide_True by exact Hdel. exact Ems. }
      do 5 (split; [done|]). split; [by rewrite <- kept_none|]. split; [done|]. by eapply carried_iff, Hm'.
    + rewrite ix_unshift_below by done. cbn [mbind option_bind]. rewrite E. cbn [mbind option_bind].
      eexists (_, _, _). split; [done|]. split.
      { rewrite omap_step. unfold chain at 1. rewrite Hdest, decide_False by done.
        by rewrite ix_shift_free, Ems. }
      do 5 (split; [done|]). split; [by rewrite <- kept_none|]. split; [done|]. by eapply carried_iff, Hm'.
Qed.

Lemma drop_inserted_spec cm i :
  ix_valid i -> drop_inserted_moves cm i = Some (filter (fun m => ~ ix_has i (from m)) cm).
Proof.
  intros Hi. induction cm as [|m cm IH]; [done|]. simpl. rewrite ix_contains_has, IH by done.
  cbn [mbind option_bind]. rewrite filter_cons.
  case_bool_decide; [by rewrite decide_False by tauto|by rewrite decide_True].
Qed.

Definition unshift_source d i (m : Move) : Move := mkMove (ix_free d (rank (ix_ranges i) (from m))) (to m).

Lemma unshift_sources_spec cm d i :
  ix_valid i -> Forall (fun m => 0 <= from m) cm ->
  unshift_sources cm d i = Some (unshift_source d i <$> cm).
Proof.
  intros Hi. induction 1 as [|m cm Hm _ IH]; [done|]. simpl.
  rewrite ix_unshift_below, IH by done. cbn [mbind option_bind]. by rewrite ix_shift_free.
Qed.

Lemma carry_moves_spec cm b c :
  Forall (fun m => 0 <= to m) cm -> cols_valid b -> cols_valid c ->
  gives (carry_moves cm b c) (fun '(b', c') =>
    cols_valid b' /\ cols_valid c' /\ same_rows b b' /\ same_rows c c' /\
    modifications b' = modifications b /\
    carried (modifications c) (modifications c') (fun it => it ∈ cm) (modifications b)).
Proof.
  intros Hcm. revert b c. induction Hcm as [|m cm Hm _ IH]; intros b c Hb Hc.
  { exists (b, c). split; [done|]. do 2 (split; [done|]). do 2 (split; [apply same_rows_refl|]). split; [done|].
    eapply carried_iff; [|apply carried_none]. intros it. by rewrite elem_of_nil. }
  cbn [carry_moves].
  destruct (carry_spec (from m) (to m) b c Hm Hb Hc) as ([b1 c1] & -> & Hb1 & Hc1 & Sb1 & Sc1 & Em1 & Hm1).
  cbn [mbind option_bind].
  destruct (IH b1 c1 Hb1 Hc1) as ([b2 c2] & -> & Hb2 & Hc2 & Sb2 & Sc2 & Em2 & Hm2).
  exists (b2, c2). split; [done|]. do 2 (split; [done|]).
  split; [by eapply same_rows_trans|]. split; [by eapply same_rows_trans|]. split; [congruence|].
  rewrite Em1 in Hm2. eapply carried_iff; [|eapply (carried_trans _ _ _ (fun it => it = m)); [|exact Hm2]].
  - intros it. by rewrite elem_of_cons.
  - intros j. rewrite Hm1. split; [intros [?|[-> ?]]; [by left|right; by exists m]|].
    intros [?|(it' & -> & <- & ?)]; [by left|by right].
Qed.
End old_moves.

Section merge_moves.
Context `{IndexSetLaws IS} `{BuildMode}.
Implicit Types (b c : CollectionChangeBuilder IS) (s d i : IS) (ms cm : list Move).

Lemma Forall_filtered (P Q : Move -> Prop) `{!forall m, Decision (Q m)} ms :
  Forall P ms -> Forall P (filter Q ms).
Proof. rewrite !Forall_forall. intros Hp m [_ ?]%list_elem_of_filter. auto. Qed.

Definition uninserted i cm : list Move := filter (fun m => ~ ix_has i (from m)) cm.

(** The moves after both sides are brought together; [cm] are the new moves
    that do not continue an old one. *)
Definition merged_moves b c cm : list Move :=
  omap (chain (moves c) (deletions c) (insertions c)) (moves b) ++
  (unshift_source (deletions b) (insertions b) <$> uninserted (insertions b) cm).

Lemma ok_cols b : ok b -> cols_valid b.
Proof. intros Hb. split; apply Hb. Qed.

Lemma ok_moves_nonneg b : ok b -> Forall (fun m => 0 <= from m /\ 0 <= to m) (moves b).
Proof.
  intros Hb. eapply Forall_impl; [apply Hb|]. simpl. intros m [? ?].
  split; eapply ix_has_nonneg; try done; apply Hb.
Qed.

Lemma empty_set_no_ranges s : ix_valid s -> ix_empty s = true -> ix_ranges s = [].
Proof. intros Hs. rewrite ix_empty_ranges by done. by destruct (ix_ranges s). Qed.

Lemma no_ranges_free s q : ix_ranges s = [] -> ix_free s (rank (ix_ranges s) q) = q.
Proof. intros E. unfold ix_free, rank. rewrite E. simpl. lia. Qed.

Lemma chain_unchanged d i ms :
  ix_ranges d = [] -> ix_ranges i = [] -> omap (chain [] d i) ms = ms.
Proof.
  intros Ed Ei. induction ms as [|m ms IH]; [done|]. rewrite omap_step. unfold chain at 1. simpl.
  rewrite decide_False by (unfold ix_has; rewrite Ed; by intros []).
  rewrite IH. unfold ix_free, rank. rewrite Ed, Ei. simpl. rewrite Z.sub_0_r. by destruct m.
Qed.

Lemma uninserted_all i cm : ix_ranges i = [] -> uninserted i cm = cm.
Proof.
  intros Ei. unfold uninserted. induction cm as [|m cm IH]; [done|]. rewrite filter_cons, decide_True, IH; [done|].
  unfold ix_has. rewrite Ei. intros [].
Qed.

Lemma unshift_source_id d i cm :
  ix_ranges d = [] -> ix_ranges i = [] -> unshift_source d i <$> cm = cm.
Proof.
  intros Ed Ei. induction cm as [|m cm IH]; [done|]. rewrite fmap_cons, IH. f_equal.
  unfold unshift_source, ix_free, rank. rewrite Ed, Ei. simpl. rewrite Z.sub_0_r. by destruct m.
Qed.

Lemma merge_moves_spec b c :
  ok b -> ok c ->
  exists b' c' cm, merge_moves b c = Some (b', c') /\ cm ≡ₚ filter (kept (moves b)) (moves c) /\
    moves b' = merged_moves b c cm /\ cols_valid b' /\ cols_valid c' /\
    deletions b' = deletions b /\ insertions b' = insertions b /\
    deletions c' = deletions c /\ insertions c' = insertions c /\
    modifications b' = modifications b /\
    carried (modifications c) (modifications c')
      (fun it => it ∈ moves c /\ (from it ∈ to <$> moves b \/ ~ ix_has (insertions b) (from it))) (modifications b).
Proof.
  intros Hb Hc. unfold merge_moves.
  pose proof (ok_moves_nonneg _ Hb) as Hpb. pose proof (ok_moves_nonneg _ Hc) as Hpc.
  assert (Hold : gives (if negb (match moves c with [] => true | _ => false end) || negb (ix_empty (deletions c))
                || negb (ix_empty (insertions c)) then
               '(ms, b, c) ← merge_old_moves (moves b) b c; Some (set_moves ms b, c)
             else Some (b, c)) (fun '(b1, c1) =>
      moves b1 = omap (chain (moves c) (deletions c) (insertions c)) (moves b) /\
      cols_valid b1 /\ cols_valid c1 /\ deletions b1 = deletions b /\ insertions b1 = insertions b /\
      deletions c1 = deletions c /\ insertions c1 = insertions c /\
      moves c1 ≡ₚ filter (kept (moves b)) (moves c) /\
      modifications b1 = modifications b /\
      carried (modifications c) (modifications c1) (fun it => it ∈ moves c /\ from it ∈ to <$> moves b) (modifications b))).
  { destruct (negb _ || _ || _) eqn:E.
    - destruct (merge_old_moves_spec (moves b) b c) as ([[ms b1] c1] & -> & Hr);
        [by apply ok_cols|by apply ok_cols|apply Hc..|apply Hb|apply Hc| | |].
      { eapply Forall_impl; [exact Hpb|]. simpl. tauto. }
      { eapply Forall_impl; [exact Hpc|]. simpl. tauto. }
      destruct Hr as (Ems & Hb1 & Hc1 & (Ed & Ei & _) & Hrest). cbn [mbind option_bind].
      eexists (_, _). split; [done|]. simpl. split; [done|]. by repeat (split; [done|]).
    - rewrite !orb_false_iff, !negb_false_iff in E. destruct E as [[Em Ed] Ei].
      destruct (moves c) as [|] eqn:Emc; [|done].
      exists (b, c). split; [done|]. rewrite chain_unchanged by (apply empty_set_no_ranges; [apply Hc|done]).
      split; [done|]. split; [by apply ok_cols|]. split; [by apply ok_cols|].
      do 4 (split; [done|]). split; [by rewrite Emc|]. split; [done|].
      eapply carried_iff; [|apply carried_none]. intros it. rewrite elem_of_nil. tauto. }
  destruct Hold as ([b1 c1] & -> & Em1 & Hb1 & Hc1 & Ed1 & Ei1 & Edc1 & Eic1 & Hp1 & Emod1 & Hmod1).
  cbn [mbind option_bind]. rewrite Ei1.
  assert (Hsub : Forall (fun m => 0 <= from m /\ 0 <= to m) (moves c1)).
  { rewrite Hp1. by apply Forall_filtered. }
  assert (Hdrop : (if negb (ix_empty (insertions b)) && negb (match moves c1 with [] => true | _ => false end)
      then ms ← drop_inserted_moves (moves c1) (insertions b); Some (set_moves ms c1) else Some c1) =
    Some (set_moves (uninserted (insertions b) (moves c1)) c1)).
  { destruct (ix_empty (insertions b)) eqn:Ee; cbn [negb andb].
    - rewrite uninserted_all by (apply empty_set_no_ranges; [apply Hb|done]). by destruct c1.
    - destruct (moves c1) as [|m l] eqn:Em; cbn [negb]; [destruct c1; simpl in Em; by subst|].
      rewrite drop_inserted_spec by apply Hb. done. }
  rewrite Hdrop. clear Hdrop. cbn [mbind option_bind].
  set (cm := uninserted (insertions b) (moves c1)) in *.
  assert (Hcm : Forall (fun m => 0 <= from m /\ 0 <= to m) cm) by (by apply Forall_filtered).
  assert (Hcarry : gives (if negb (ix_empty (modifications b1)) && negb (match moves (set_moves cm c1) with [] => true | _ => false end)
      then carry_moves (moves (set_moves cm c1)) b1 (set_moves cm c1) else Some (b1, set_moves cm c1)) (fun '(b2, c2) =>
      cols_valid b2 /\ cols_valid c2 /\ same_rows b1 b2 /\ same_rows (set_moves cm c1) c2 /\
      modifications b2 = modifications b1 /\
      carried (modifications c1) (modifications c2) (fun it => it ∈ cm) (modifications b1))).
  { destruct (negb _ && _) eqn:Eany.
    2: { exists (b1, set_moves cm c1); do 3 (split; [done|]); do 3 (split; [by repeat split|]).
         intros j. split; [by left|]. intros [?|(it & Hit & _ & Hhas)]; [done|]. exfalso.
         apply andb_false_iff in Eany as [Eany|Eany]; apply negb_false_iff in Eany.
         - apply empty_set_no_ranges in Eany; [|apply Hb1]. unfold ix_has in Hhas. rewrite Eany in Hhas. by destruct Hhas.
         - simpl in Eany. destruct cm; [by apply elem_of_nil in Hit|done]. }
    refine (carry_moves_spec cm b1 (set_moves cm c1) _ Hb1 Hc1). eapply Forall_impl; [exact Hcm|]. simpl. tauto. }
  destruct Hcarry as ([b2 c2] & -> & Hb2 & Hc2 & (Ed2 & Ei2 & Em2 & _) & (Edc2 & Eic2 & Emc2 & _) & Emod2 & Hmod2).
  cbn [mbind option_bind]. rewrite Emc2, Ed2, Ei2, Ed1, Ei1. cbn [moves set_moves].
  assert (Huns : (if negb (ix_empty (deletions b)) || negb (ix_empty (insertions b))
      then ms ← unshift_sources cm (deletions b) (insertions b); Some (set_moves ms c2) else Some c2) =
    Some (set_moves (unshift_source (deletions b) (insertions b) <$> cm) c2)).
  { destruct (negb _ || _) eqn:E.
    - rewrite unshift_sources_spec; [done|apply Hb|]. eapply Forall_impl; [exact Hcm|]. simpl. tauto.
    - rewrite orb_false_iff, !negb_false_iff in E. destruct E as [Ed Ei].
      rewrite unshift_source_id by (apply empty_set_no_ranges; [apply Hb|done]).
      simpl in Emc2. rewrite <- Emc2. by destruct c2. }
  rewrite Huns. cbn [mbind option_bind]. eexists _, _, (moves c1). split; [done|]. simpl.
  simpl in Edc2, Eic2, Hmod2. rewrite Em2, Em1. repeat (split; [done || congruence|]). rewrite Emod1 in Hmod2.
  eapply carried_iff; [|by eapply carried_trans]. intros it. unfold cm, uninserted. rewrite list_elem_of_filter, Hp1, list_elem_of_filter.
  unfold kept. destruct (decide (from it ∈ to <$> moves b)); tauto.
Qed.

Lemma merged_moves_elem b c cm m :
  ok b -> ok c -> cm ≡ₚ filter (kept (moves b)) (moves c) ->
  m ∈ merged_moves b c cm <->
  (exists old, old ∈ moves b /\ from m = from old /\
     ((exists it, it ∈ moves c /\ from it = to old /\ to m = to it) \/
      (~ ix_has (deletions c) (to old) /\
       to m = ix_free (insertions c) (rank (ix_ranges (deletions c)) (to old))))) \/
  (exists it, it ∈ moves c /\ ~ ix_has (insertions b) (from it) /\
     from m = ix_free (deletions b) (rank (ix_ranges (insertions b)) (from it)) /\ to m = to it).
Proof.
  intros Hb Hc Hcm. unfold merged_moves. rewrite elem_of_app, list_elem_of_omap, list_elem_of_fmap.
  pose proof (move_dest_elem (moves c)) as Hde. assert (Hnf := ok_sources_nodup _ Hc).
  assert (Hdel : forall it, it ∈ moves c -> ix_has (deletions c) (from it)).
  { intros it Hit. pose proof (ok_moves _ Hc) as Hm. unfold moves_in in Hm.
    rewrite Forall_forall in Hm. by apply Hm. }
  assert (Hins : forall old, old ∈ moves b -> ix_has (insertions b) (to old)).
  { intros old Hold. pose proof (ok_moves _ Hb) as Hm. unfold moves_in in Hm.
    rewrite Forall_forall in Hm. by apply Hm. }
  apply Morphisms_Prop.or_iff_morphism.
  - split.
    + intros (old & Hold & Hch). exists old. split; [done|]. unfold chain in Hch.
      destruct (move_dest (moves c) (to old)) as [t|] eqn:E.
      * injection Hch as <-. split; [done|]. left. apply Hde in E as (it & ? & ? & ?); [|done]. by exists it.
      * case_decide; [done|]. injection Hch as <-. split; [done|]. by right.
    + intros (old & Hold & Ef & Hcase). exists old. split; [done|]. unfold chain.
      destruct Hcase as [(it & Hit & Efi & Et)|[Hn Et]].
      * rewrite (proj2 (Hde (to old) (to it) Hnf)) by (by exists it). destruct m. simpl in *. by subst.
      * destruct (move_dest (moves c) (to old)) as [t|] eqn:E.
        { apply Hde in E as (it & Hit & E & _); [|done]. destruct Hn. rewrite <- E. by apply Hdel. }
        rewrite decide_False by done. destruct m. simpl in *. by subst.
  - split.
    + intros (it & -> & Hit). unfold uninserted in Hit. rewrite list_elem_of_filter, Hcm, list_elem_of_filter in Hit.
      destruct Hit as (Hn & _ & Hit). by exists it.
    + intros (it & Hit & Hn & Ef & Et). exists it. split; [destruct m; simpl in *; by subst|].
      unfold uninserted. rewrite list_elem_of_filter, Hcm, list_elem_of_filter. split; [done|]. split; [|done].
      intros (old & E & Hold)%list_elem_of_fmap. apply Hn. rewrite E. by apply Hins.
Qed.
End merge_moves.

Section merge.
Context `{IndexSetLaws IS} `{BuildMode}.
Implicit Types (b c : CollectionChangeBuilder IS) (s d i : IS) (ms cm : list Move).

(** The merged deletions and insertions, as sets. *)
Definition merged_deletions b c d : Prop := forall j,
  ix_has d j <-> ix_has (deletions b) j \/
    exists x, ix_has (deletions c) x /\ ~ ix_has (insertions b) x /\
      j = ix_free (deletions b) (rank (ix_ranges (insertions b)) x).
Definition merged_insertions b c i : Prop := forall j,
  ix_has i j <-> ix_has (insertions c) j \/
    exists x, ix_has (insertions b) x /\ ~ ix_has (deletions c) x /\
      j = ix_free (insertions c) (rank (ix_ranges (deletions c)) x).

(** The position between the two change sets of a row that the second one
    does not insert. *)
Definition middle c (j : Z) : Z := ix_free (deletions c) (rank (ix_ranges (insertions c)) j).

Lemma middle_spec c j :
  ok c -> 0 <= j -> ~ ix_has (insertions c) j ->
  0 <= middle c j /\ ~ ix_has (deletions c) (middle c j) /\
  j = ix_free (insertions c) (rank (ix_ranges (deletions c)) (middle c j)).
Proof.
  intros Hc Hj Hn. pose proof (ix_valid_sep _ (ok_deletions _ Hc)) as Sd.
  pose proof (ix_valid_sep _ (ok_insertions _ Hc)) as Si. unfold middle, ix_free.
  split; [apply free_nonneg; [done|by apply rank_nonneg]|]. split; [by apply free_not_mem|].
  rewrite rank_free by done. by rewrite free_rank.
Qed.

Lemma middle_inserted b c i j :
  ok b -> ok c -> merged_insertions b c i -> 0 <= j -> ~ ix_has (insertions c) j ->
  ix_has i j <-> ix_has (insertions b) (middle c j).
Proof.
  intros Hb Hc Hi Hj Hn. destruct (middle_spec c j Hc Hj Hn) as (Hm & Hmd & Ej).
  rewrite (Hi j). split.
  - intros [?|(x & Hx & Hxd & E)]; [done|].
    assert (middle c j = x) as ->; [|done]. unfold middle, ix_free in *. rewrite E.
    rewrite rank_free by (apply ix_valid_sep, Hc). by rewrite free_rank by (apply ix_valid_sep, Hc || done).
  - intros Hx. right. exists (middle c j). auto.
Qed.

(** Rows that neither change set inserts: the merged deletions and insertions
    compose the two position changes. *)
Lemma origin_merged b c d i j :
  ok b -> ok c -> ix_valid d -> ix_valid i -> merged_deletions b c d -> merged_insertions b c i ->
  0 <= j -> ~ ix_has (insertions c) j ->
  origin d i j = origin (deletions b) (insertions b) (middle c j).
Proof.
  intros Hb Hc Hd Hi Hmd Hmi Hj Hn. destruct (middle_spec c j Hc Hj Hn) as (Hm & Hmdel & Ej).
  pose proof (middle_inserted b c i j Hb Hc Hmi Hj Hn) as Hiff.
  unfold origin. destruct (decide (ix_has i j)) as [Hh|Hh].
  { by rewrite (decide_True (P := ix_has (insertions b) _)) by tauto. }
  assert (Hk : ~ ix_has (insertions b) (middle c j)) by tauto.
  rewrite (decide_False (P := ix_has (insertions b) _)) by done. f_equal.
  set (k := middle c j) in *. unfold ix_free in *.
  pose proof (ix_valid_sep _ Hd) as Sd. pose proof (ix_valid_sep _ Hi) as Si.
  pose proof (ix_valid_sep _ (ok_deletions _ Hb)) as Sbd.
  pose proof (ix_valid_sep _ (ok_insertions _ Hb)) as Sbi.
  pose proof (ix_valid_sep _ (ok_deletions _ Hc)) as Scd.
  pose proof (ix_valid_sep _ (ok_insertions _ Hc)) as Sci.
  pose proof (rank_image (ix_ranges (deletions c)) (ix_ranges (insertions c)) (ix_ranges (insertions b))
    (ix_ranges i) (Z.to_nat k) Scd Sci Si Hmi) as R1.
  pose proof (rank_image (ix_ranges (insertions b)) (ix_ranges (deletions b)) (ix_ranges (deletions c))
    (ix_ranges d) (Z.to_nat k) Sbi Sbd Sd Hmd) as R2.
  rewrite Z2Nat.id in R1, R2 by done. rewrite <- Ej in R1.
  rewrite R1, outside_comm, <- R2. apply free_rank; [done|].
  intros [Hbad|(x & Hx & Hxi & E)]%(proj1 (Hmd _)); [by apply (free_not_mem _ _ Sbd) in Hbad|].
  apply (nth_free_inj _ _ _ _ Sbd) in E.
  assert (k = x) as ->; [|done]. rewrite <- (free_rank _ k Sbi Hk), E. by apply free_rank.
Qed.

Lemma merged_moves_in b c cm d i :
  ok b -> ok c -> cm ≡ₚ filter (kept (moves b)) (moves c) ->
  merged_deletions b c d -> merged_insertions b c i -> moves_in (merged_moves b c cm) d i.
Proof.
  intros Hb Hc Hcm Hd Hi. unfold moves_in. apply Forall_forall. intros m Hm.
  pose proof (ok_moves _ Hb) as Mb. pose proof (ok_moves _ Hc) as Mc. unfold moves_in in Mb, Mc.
  rewrite Forall_forall in Mb, Mc. rewrite (Hd (from m)), (Hi (to m)).
  apply merged_moves_elem in Hm as [(old & Hold & -> & Hcase)|(it & Hit & Hn & -> & ->)]; [| |done..].
  - destruct (Mb _ Hold) as [H2 H3]. split; [by left|].
    destruct Hcase as [(it & Hit & _ & ->)|[Hn ->]]; [left; by apply Mc|right; eauto].
  - destruct (Mc _ Hit) as [H2 H3]. split; [|by left]. right. eauto.
Qed.

Lemma merged_track b c cm d i j :
  ok b -> ok c -> cm ≡ₚ filter (kept (moves b)) (moves c) -> ix_valid d -> ix_valid i ->
  merged_deletions b c d -> merged_insertions b c i -> NoDup (to <$> merged_moves b c cm) ->
  0 <= j -> track (merged_moves b c cm) d i j = (tracks c j ≫= tracks b).
Proof.
  intros Hb Hc Hcm Hd Hi Hmd Hmi Hnd Hj.
  pose proof (ok_moves _ Hb) as Mb. pose proof (ok_moves _ Hc) as Mc. unfold moves_in in Mb, Mc.
  rewrite Forall_forall in Mb, Mc.
  pose proof (merged_moves_in b c cm d i Hb Hc Hcm Hmd Hmi) as Min. unfold moves_in in Min.
  rewrite Forall_forall in Min.
  assert (Elem := fun m => merged_moves_elem b c cm m Hb Hc Hcm).
  assert (Hsrc := fun f => move_source_elem (merged_moves b c cm) j f Hnd).
  pose proof (fun f => move_source_elem (moves b) f) as Sb.
  assert (Hcase : forall o, (forall f, o = Some f <-> exists m, m ∈ merged_moves b c cm /\ from m = f /\ to m = j) ->
    move_source (merged_moves b c cm) j = o).
  { intros o Ho. apply option_eq. intros f. by rewrite Hsrc, Ho. }
  change (tracks c j) with (match move_source (moves c) j with
    Some f => Some f | None => origin (deletions c) (insertions c) j end).
  unfold track.
  destruct (decide (ix_has (insertions c) j)) as [Hic|Hic].
  - (* inserted by the second change set *)
    assert (Hout : origin d i j = None) by (unfold origin; rewrite decide_True; [done|apply (Hmi j); by left]).
    assert (Houtc : origin (deletions c) (insertions c) j = None) by (unfold origin; by rewrite decide_True).
    assert (Hno_shift : forall old, ~ j = ix_free (insertions c) (rank (ix_ranges (deletions c)) old)).
    { intros old ->. by apply ix_free_not_has in Hic; [|apply Hc]. }
    rewrite Hout, Houtc. destruct (move_source (moves c) j) as [k|] eqn:Ek.
    + apply move_source_elem in Ek as (it & Hit & <- & <-); [|apply Hc].
      assert (Huniq : forall it', it' ∈ moves c -> to it = to it' -> it' = it).
      { intros it' Hit' E. symmetry. eapply (same_to (moves c)); [apply Hc|done..]. }
      cbn [mbind option_bind].
      assert (Hfull : forall f, tracks b (from it) = Some f <->
          exists m, m ∈ merged_moves b c cm /\ from m = f /\ to m = to it).
      { intros f. unfold tracks. setoid_rewrite Elem. split.
        - destruct (move_source (moves b) (from it)) as [f'|] eqn:Ef.
          + intros [=]; subst f'. apply Sb in Ef as (old & Hold & <- & E); [|apply Hb].
            exists (mkMove (from old) (to it)). split; [|done]. left. exists old.
            split; [done|]. split; [done|]. left. by exists it.
          + unfold origin. case_decide as Hins; [done|]. intros [=]. exists (mkMove f (to it)).
            split; [|done]. right. exists it. by subst.
        - intros (m & [(old & Hold & Ef & [(it' & Hit' & E & Et)|[_ Et]])|(it' & Hit' & Hn & Ef & Et)] & <- & Emt).
          + rewrite Emt in Et. apply Huniq in Et as ->; [|done]. rewrite E.
            rewrite (proj2 (Sb (to old) (from old) (ok_moves_nodup _ Hb))) by (by exists old). by rewrite Ef.
          + rewrite Emt in Et. by apply Hno_shift in Et.
          + rewrite Emt in Et. apply Huniq in Et as ->; [|done].
            rewrite (proj2 (move_source_none (moves b) (from it))).
            * unfold origin. rewrite decide_False by done. by rewrite Ef.
            * intros (old & E & Hold)%list_elem_of_fmap. apply Hn. rewrite E. by apply Mb. }
      rewrite (Hcase _ Hfull). by destruct (tracks b (from it)).
    + rewrite (Hcase None); [done|]. intros f. split; [done|].
      apply move_source_none in Ek.
      assert (Hnoc : forall it, it ∈ moves c -> to it <> j).
      { intros it Hit E. apply Ek, list_elem_of_fmap. by exists it. }
      intros (m & Hm & _ & Emt). apply Elem in Hm as
        [(old & Hold & Ef & [(it' & Hit' & E & Et)|[_ Et]])|(it' & Hit' & Hn & Ef & Et)].
      * rewrite Emt in Et. symmetry in Et. by apply Hnoc in Et.
      * rewrite Emt in Et. by apply Hno_shift in Et.
      * rewrite Emt in Et. symmetry in Et. by apply Hnoc in Et.
  - (* not inserted by the second change set *)
    assert (Hnoc : forall it, it ∈ moves c -> to it <> j).
    { intros it Hit <-. by apply Hic, Mc. }
    rewrite (proj2 (move_source_none (moves c) j)).
    2: { intros (it & E & Hit)%list_elem_of_fmap. by apply (Hnoc it). }
    unfold origin at 2. rewrite decide_False by done. cbn [mbind option_bind].
    fold (middle c j). destruct (middle_spec c j Hc Hj Hic) as (Hm & Hmdel & Ej).
    rewrite (origin_merged b c d i j) by done. unfold tracks.
    replace (move_source (merged_moves b c cm) j) with (move_source (moves b) (middle c j)); [done|].
    symmetry. apply Hcase. intros f. rewrite Sb by apply Hb. setoid_rewrite Elem. split.
    + intros (old & Hold & <- & Eo). exists (mkMove (from old) j). split; [|done]. left.
      exists old. split; [done|]. split; [done|]. right. rewrite Eo. by split.
    + intros (m & [(old & Hold & Ef & [(it' & Hit' & E & Et)|[Hn Et]])|(it' & Hit' & Hn & Ef & Et)] & <- & Emt).
      * rewrite Emt in Et. symmetry in Et. by apply Hnoc in Et.
      * exists old. split; [done|]. split; [done|]. rewrite Emt in Et. unfold middle, ix_free in *. rewrite Et.
        rewrite rank_free by (apply ix_valid_sep, Hc). rewrite free_rank; [done|apply ix_valid_sep, Hc|done].
      * rewrite Emt in Et. symmetry in Et. by apply Hnoc in Et.
Qed.
End merge.

Section merged_distinct.
Context `{IndexSetLaws IS} `{BuildMode}.
Implicit Types (b c : CollectionChangeBuilder IS) (s d i : IS) (ms cm : list Move).

Lemma NoDup_key_omap (key : Move -> Z) (g : Move -> option Move) ms :
  NoDup ms ->
  (forall x y x' y', x ∈ ms -> y ∈ ms -> g x = Some x' -> g y = Some y' -> key x' = key y' -> x = y) ->
  NoDup (key <$> omap g ms).
Proof.
  induction 1 as [|m ms Hm Hnd IH]; intros Hinj; [constructor|]. rewrite omap_step.
  assert (IH' : NoDup (key <$> omap g ms)).
  { apply IH. intros x y x' y' Hx Hy. apply Hinj; by right. }
  destruct (g m) as [m'|] eqn:E; [|done]. rewrite fmap_cons. apply NoDup_cons. split; [|done].
  intros (y' & Ek & (y & Hy & Ey)%list_elem_of_omap)%list_elem_of_fmap. apply Hm.
  by rewrite (Hinj m y m' y') by (done || (by left) || by right).
Qed.

Lemma NoDup_key_filter (key : Move -> Z) (Q : Move -> Prop) `{!forall m, Decision (Q m)} ms :
  NoDup (key <$> ms) -> NoDup (key <$> filter Q ms).
Proof.
  induction ms as [|m ms IH]; [done|]. rewrite fmap_cons. intros [Hm Hnd]%NoDup_cons.
  rewrite filter_cons. case_decide; [|by apply IH]. rewrite fmap_cons. apply NoDup_cons.
  split; [|by apply IH]. intros (y & E & [_ Hy]%list_elem_of_filter)%list_elem_of_fmap.
  apply Hm. rewrite E. by apply list_elem_of_fmap_2.
Qed.

Lemma chain_cases b c old m :
  chain (moves c) (deletions c) (insertions c) old = Some m -> ok c ->
  from m = from old /\
  ((exists it, it ∈ moves c /\ from it = to old /\ to m = to it) \/
   (~ ix_has (deletions c) (to old) /\ to m = ix_free (insertions c) (rank (ix_ranges (deletions c)) (to old)))).
Proof.
  unfold chain. intros E Hc. destruct (move_dest (moves c) (to old)) as [t|] eqn:Ed.
  - injection E as <-. split; [done|]. left. apply move_dest_elem in Ed as (it & ? & ? & ?); [|apply Hc].
    by exists it.
  - case_decide; [done|]. injection E as <-. split; [done|]. by right.
Qed.

Lemma merged_moves_nodup b c cm :
  ok b -> ok c -> cm ≡ₚ filter (kept (moves b)) (moves c) ->
  NoDup (to <$> merged_moves b c cm) /\ NoDup (from <$> merged_moves b c cm).
Proof.
  intros Hb Hc Hcm.
  pose proof (ok_moves _ Hb) as Mb. pose proof (ok_moves _ Hc) as Mc. unfold moves_in in Mb, Mc.
  rewrite Forall_forall in Mb, Mc.
  pose proof (NoDup_fmap_1 _ _ (ok_moves_nodup _ Hb)) as Hndb.
  assert (Hcm_in : forall m, m ∈ uninserted (insertions b) cm -> m ∈ moves c /\ ~ ix_has (insertions b) (from m)).
  { intros m. unfold uninserted. rewrite list_elem_of_filter, Hcm, list_elem_of_filter. tauto. }
  assert (Hshift : forall it x, it ∈ moves c -> to it <> ix_free (insertions c) x).
  { intros it x Hit E. destruct (Mc _ Hit) as [_ Hh]. rewrite E in Hh. by apply ix_free_not_has in Hh; [|apply Hc]. }
  assert (Hu : forall key : Move -> Z, NoDup (key <$> moves c) -> NoDup (key <$> uninserted (insertions b) cm)).
  { intros key Hk. apply NoDup_key_filter. rewrite Hcm. by apply NoDup_key_filter. }
  unfold merged_moves. rewrite !fmap_app, !NoDup_app. split; (split; [|split]).
  - apply NoDup_key_omap; [done|]. intros x y x' y' Hx Hy Ex Ey E.
    apply (NoDup_key_inj to (moves b)); [apply Hb|done..|].
    apply (chain_cases b) in Ex as [_ [(ix & Hix & Fx & Tx)|[Nx Tx]]]; [| |done];
      apply (chain_cases b) in Ey as [_ [(iy & Hiy & Fy & Ty)|[Ny Ty]]]; try done; rewrite Tx, Ty in E.
    + rewrite <- Fx, <- Fy. f_equal. by apply (NoDup_key_inj to (moves c)); [apply Hc|..].
    + by apply Hshift in E.
    + symmetry in E. by apply Hshift in E.
    + apply ix_free_inj in E; [|apply Hc]. pose proof (ix_valid_sep _ (ok_deletions _ Hc)) as Sd.
      rewrite <- (free_rank _ (to x) Sd Nx), E. by apply free_rank.
  - intros t (m & -> & (old & Hold & E)%list_elem_of_omap)%list_elem_of_fmap Hin.
    rewrite <- list_fmap_compose in Hin. apply list_elem_of_fmap in Hin as (it & E2 & Hit). simpl in E2.
    destruct (Hcm_in _ Hit) as [Hitc Hn].
    apply (chain_cases b) in E as [_ [(ix & Hix & Fx & Tx)|[Nx Tx]]]; [| |done].
    + rewrite Tx in E2. apply Hn.
      assert (ix = it) as <- by (by apply (NoDup_key_inj to (moves c)); [apply Hc|..]).
      rewrite Fx. by apply Mb.
    + rewrite E2 in Tx. by apply Hshift in Tx.
  - rewrite <- list_fmap_compose. apply (Hu to), Hc.
  - apply NoDup_key_omap; [done|]. intros x y x' y' Hx Hy Ex Ey E.
    apply (NoDup_key_inj from (moves b)); [apply Hb|done..|].
    apply (chain_cases b) in Ex as [Ex _]; [|done]. apply (chain_cases b) in Ey as [Ey _]; [|done].
    congruence.
  - intros f (m & -> & (old & Hold & E)%list_elem_of_omap)%list_elem_of_fmap Hin.
    rewrite <- list_fmap_compose in Hin. apply list_elem_of_fmap in Hin as (it & E2 & Hit). simpl in E2.
    apply (chain_cases b) in E as [E _]; [|done]. destruct (Mb _ Hold) as [Hd _].
    rewrite <- E, E2 in Hd. by apply ix_free_not_has in Hd; [|apply Hb].
  - assert (Hu' := Hu from (ok_sources_nodup _ Hc)). revert Hu' Hcm_in.
    generalize (uninserted (insertions b) cm) as l. induction l as [|m l IH]; [done|].
    rewrite !fmap_cons. intros [Hm Hnd]%NoDup_cons Hin. apply NoDup_cons. split.
    + rewrite <- list_fmap_compose. intros (m' & E & Hm')%list_elem_of_fmap. simpl in E. apply Hm.
      apply ix_free_inj in E; [|apply Hb]. pose proof (ix_valid_sep _ (ok_insertions _ Hb)) as Si.
      destruct (Hin m) as [_ Hn]; [by left|]. destruct (Hin m') as [_ Hn']; [by right|].
      rewrite <- (free_rank _ (from m) Si Hn), E, (free_rank _ (from m') Si Hn'). by apply list_elem_of_fmap_2.
    + apply IH; [done|]. intros x Hx. apply Hin. by right.
Qed.
End merged_distinct.

(** ** The theorem *)
Section merge_theorem.
Context `{IndexSetLaws IS} `{BuildMode}.
Implicit Types (b c : CollectionChangeBuilder IS) (s d i : IS).

Lemma no_changes b :
  ok b -> empty b = true ->
  (forall j, tracks b j = Some j) /\ (forall j, ~ ix_has (modifications b) j) /\
  ix_ranges (deletions b) = [] /\ ix_ranges (insertions b) = [].
Proof.
  intros Hb. unfold empty. rewrite !andb_true_iff. intros [[[Ed Ei] Em] Ems].
  apply empty_set_no_ranges in Ed; [|apply Hb]. apply empty_set_no_ranges in Ei; [|apply Hb].
  apply empty_set_no_ranges in Em; [|apply Hb]. split; [|split].
  - intros j. unfold tracks. destruct (moves b); [|done]. unfold origin, ix_has. simpl.
    rewrite decide_False by (rewrite Ei; by intros []). f_equal. unfold ix_free, rank.
    rewrite Ed, Ei. simpl. lia.
  - intros j. unfold ix_has. rewrite Em. by intros [].
  - done.
Qed.

(** The rows that are modified are the new change set's own and those the old one
    modified, at the position they have now. A row that the old one inserted and
    the new one moves does not count: it is reported as an insertion. *)
Definition modifications_merged b c b' : Prop := forall j, 0 <= j ->
  ix_has (modifications b') j <->
  ix_has (modifications c) j \/
  exists k, tracks c j = Some k /\ ix_has (modifications b) k /\ (ix_has (insertions c) j -> is_Some (tracks b k)).

Lemma merge_col_spec d i x y :
  ix_valid d -> ix_valid i -> ix_valid x -> ix_valid y ->
  gives (merge_col d i x y) (fun '(x', y') => ix_valid x' /\ ix_valid y' /\
    forall j, ix_has x' j <-> ix_has y j \/
      exists k, ix_has x k /\ ~ ix_has d k /\ j = ix_free i (rank (ix_ranges d) k)).
Proof.
  intros Hd Hi Hx Hy. unfold merge_col.
  destruct (ix_erase_at_set_has x d Hx Hd) as (x1 & -> & Hx1 & H2). cbn [mbind option_bind].
  destruct (ix_shift_for_insert_at_set_has x1 i Hx1 Hi) as (x2 & -> & Hx2 & H3). cbn [mbind option_bind].
  destruct (ix_add_set_has x2 y Hx2 Hy) as (x3 & -> & Hx3 & H4). cbn [mbind option_bind].
  exists (x3, y). split; [done|]. split; [done|]. split; [done|]. intros j. rewrite H4.
  apply Morphisms_Prop.or_iff_morphism; [done|]. rewrite H3. split.
  - intros (y' & (k & Hk & Hn & ->)%H2 & ->). by exists k.
  - intros (k & Hk & Hn & ->). exists (k - ix_below d k). split; [|done]. apply H2. by exists k.
Qed.

(** The rows that an insertion's place was moved from, and those that have an old
    position *)
Lemma tracks_inserted c j k : ok c -> ix_has (insertions c) j ->
  tracks c j = Some k <-> exists it, it ∈ moves c /\ from it = k /\ to it = j.
Proof.
  intros Hc Hj. rewrite <- (move_source_elem (moves c) j k) by apply Hc. unfold tracks.
  destruct (move_source (moves c) j); [done|]. unfold origin. by rewrite decide_True.
Qed.
Lemma tracks_some b k : is_Some (tracks b k) <-> k ∈ to <$> moves b \/ ~ ix_has (insertions b) k.
Proof.
  unfold tracks. destruct (move_source (moves b) k) as [f|] eqn:E.
  - split; [|by eexists]. intros _. left. destruct (decide (k ∈ to <$> moves b)) as [|Hn]; [done|].
    apply move_source_none in Hn. congruence.
  - apply move_source_none in E. unfold origin. case_decide; split; [by intros []|tauto|tauto|by eexists].
Qed.

Lemma no_changes_merged b c : ok b -> ok c -> empty c = true \/ empty b = true ->
  modifications_merged b c (if empty c then b else c).
Proof.
  intros Hb Hc He j Hj. destruct (empty c) eqn:Ec.
  - destruct (no_changes c Hc Ec) as (Hid & Hmod & Ed & Ei). rewrite Hid. split.
    + intros Hm. right. exists j. split; [done|]. split; [done|]. unfold ix_has at 1. rewrite Ei. by intros [].
    + intros [?|(k & [= <-] & ? & _)]; [by destruct (Hmod j)|done].
  - destruct He as [|Eb]; [done|]. destruct (no_changes b Hb Eb) as (_ & Hmod & _).
    split; [by left|]. intros [?|(k & _ & Hk & _)]; [done|by destruct (Hmod k)].
Qed.

(** The modifications carried along with moves, and those that are shifted *)
Lemma modifications_spec b c m m' : ok b -> ok c ->
  carried (modifications c) m (fun it => it ∈ moves c /\ (from it ∈ to <$> moves b \/ ~ ix_has (insertions b) (from it))) (modifications b) ->
  (forall j, ix_has m' j <-> ix_has m j \/ exists k, ix_has (modifications b) k /\ ~ ix_has (deletions c) k /\
     j = ix_free (insertions c) (rank (ix_ranges (deletions c)) k)) ->
  forall j, 0 <= j -> ix_has m' j <-> ix_has (modifications c) j \/
    exists k, tracks c j = Some k /\ ix_has (modifications b) k /\ (ix_has (insertions c) j -> is_Some (tracks b k)).
Proof.
  intros Hb Hc Hm Hm' j Hj. rewrite (Hm' j), (Hm j). setoid_rewrite tracks_some. destruct (decide (ix_has (insertions c) j)) as [Hi|Hi].
  - setoid_rewrite (tracks_inserted c j _ Hc Hi). split.
    + intros [[?|(it & [Hit Hcase] & <- & Hk)]|(k & _ & _ & ->)]; [by left| |by apply ix_free_not_has in Hi; [|apply Hc]].
      right. exists (from it). split; [by exists it|]. by split.
    + intros [?|(k & (it & Hit & <- & <-) & Hk & Hcase)]; [by do 2 left|]. left. right. exists it. auto.
  - destruct (middle_spec c j Hc Hj Hi) as (Hmid & Hmdel & Ej).
    assert (tracks c j = Some (middle c j)) as ->.
    { unfold tracks. rewrite (proj2 (move_source_none (moves c) j)); [unfold origin; by rewrite decide_False|].
      intros (it & -> & Hit)%list_elem_of_fmap. apply Hi. pose proof (ok_moves _ Hc) as Mc. unfold moves_in in Mc.
      rewrite Forall_forall in Mc. by apply Mc. }
    split.
    + intros [[?|(it & [Hit _] & <- & _)]|(k & Hk & Hn & Ek)]; [by left| |].
      * destruct Hi. pose proof (ok_moves _ Hc) as Mc. unfold moves_in in Mc. rewrite Forall_forall in Mc. by apply Mc.
      * right. exists (middle c j). split; [done|]. split; [|done]. unfold middle, ix_free in *. rewrite Ek.
        rewrite rank_free by (apply ix_valid_sep, Hc). by rewrite free_rank by (apply ix_valid_sep, Hc || done).
    + intros [?|(k & [= <-] & Hk & _)]; [by do 2 left|]. right. exists (middle c j). auto.
Qed.

Lemma merge_spec b c :
  ok b -> ok c -> ix_short (deletions b) ->
  gives (merge b c) (fun b' => ok b' /\
    (forall j, 0 <= j -> tracks b' j = (tracks c j ≫= tracks b)) /\ modifications_merged b c b').
Proof.
  intros Hb Hc Hshort. unfold merge.
  destruct (empty c) eqn:Ec.
  { destruct (no_changes c Hc Ec) as (Hid & Hmod & Ed & Ei). exists b. split; [done|]. split; [done|].
    split; [intros j _; by rewrite Hid|]. pose proof (no_changes_merged b c Hb Hc (or_introl Ec)) as Hm. by rewrite Ec in Hm. }
  destruct (empty b) eqn:Eb.
  { destruct (no_changes b Hb Eb) as (Hid & Hmod & _). exists c. split; [done|]. split; [done|].
    split; [intros j _; destruct (tracks c j); simpl; by rewrite ?Hid|].
    pose proof (no_changes_merged b c Hb Hc (or_intror Eb)) as Hm. by rewrite Ec in Hm. }
  rewrite !verify_ok by done. cbn [mbind option_bind].
  destruct (merge_moves_spec b c Hb Hc)
    as (b1 & c1 & cm & -> & Hcm & Em & Hb1 & Hc1 & Ed1 & Ei1 & Edc & Eic & Emod & Hmod).
  cbn [mbind option_bind]. rewrite Ed1, Ei1, Edc, Eic.
  destruct (ix_add_shifted_by_has (deletions b) (insertions b) (deletions c)) as (d & -> & Hd & Hmd);
    [apply Hb..|apply Hc|done|]. cbn [mbind option_bind].
  destruct (ix_erase_at_set_has (insertions b) (deletions c)) as (i1 & -> & Hi1 & Hmi1); [apply Hb|apply Hc|].
  cbn [mbind option_bind].
  destruct (ix_insert_at_set_has i1 (insertions c)) as (i & -> & Hi & Hmi); [done|apply Hc|].
  cbn [mbind option_bind].
  assert (Hmerged : merged_insertions b c i).
  { intros j. rewrite Hmi. apply Morphisms_Prop.or_iff_morphism; [done|]. split.
    - intros (y & (k & Hk & Hn & ->)%Hmi1 & ->). by exists k.
    - intros (k & Hk & Hn & ->). exists (k - ix_below (deletions c) k). split; [|done]. apply Hmi1. by exists k. }
  destruct (merged_moves_nodup b c cm Hb Hc Hcm) as [Hndt Hndf].
  pose proof (merged_moves_in b c cm d i Hb Hc Hcm Hmd Hmerged) as Hin.
  unfold clean_up_stale_moves. cbn [moves set_insertions set_deletions insertions deletions]. rewrite Em.
  destruct (clean_moves_spec (merged_moves b c cm) d i [] Hd Hi Hin Hndt Hndf)
    as (ms & d' & i' & -> & Hd' & Hi' & Hin' & Hndt' & Hndf' & Htr).
  cbn [mbind option_bind].
  destruct (for_each_col2_spec (merge_col (deletions c) (insertions c))
    (fun x y x' _ => forall j, ix_has x' j <-> ix_has y j \/
      exists k, ix_has x k /\ ~ ix_has (deletions c) k /\
        j = ix_free (insertions c) (rank (ix_ranges (deletions c)) k))
    (set_insertions i' (set_deletions d' (set_moves ms (set_insertions i (set_deletions d b1))))) c1)
    as ([b2 c2] & -> & Hb2 & Hc2 & (Ed2 & Ei2 & Em2 & _) & _ & HR); [|exact Hb1|exact Hc1|].
  { intros x y Hx Hy. apply merge_col_spec; try done; apply Hc. }
  cbn [mbind option_bind]. simpl in Ed2, Ei2, Em2, HR.
  assert (Hok : ok b2).
  { split; rewrite ?Ed2, ?Ei2, ?Em2; try done; apply Hb2. }
  rewrite verify_ok by done. cbn [mbind option_bind]. exists b2. split; [done|]. split; [done|]. split.
  - intros j Hj. unfold tracks at 1. rewrite Ed2, Ei2, Em2.
    change (track ms d' i' j = (tracks c j ≫= tracks b)). simpl in Htr. rewrite Htr by done.
    by apply merged_track.
  - unfold modifications_merged. apply (modifications_spec b c (modifications c1)); [done|done|done|]. intros j. rewrite HR. by rewrite Emod.
Qed.
End merge_theorem.

(** ** Sequences of change sets *)
Section sequences.
Context `{IndexSetLaws IS} `{BuildMode}.
Implicit Types (b : CollectionChangeBuilder IS).

(** A builder without changes *)
Definition blank (b : CollectionChangeBuilder IS) : Prop :=
  deletions b = ix_nil /\ insertions b = ix_nil /\ modifications b = ix_nil /\ moves b = [] /\ columns b = [].

(** The old position of a row through change sets, the earliest first. *)
Fixpoint origin_through (cs : list (CollectionChangeBuilder IS)) (j : Z) : option Z :=
  match cs with
  | [] => Some j
  | c :: cs => k ← origin_through cs j; tracks c k
  end.

Lemma blank_ok b : blank b -> ok b.
Proof.
  intros (Ed & Ei & Em & Ev & Ec). split; rewrite ?Ed, ?Ei, ?Em, ?Ev, ?Ec; try apply ix_nil_valid; constructor.
Qed.

Lemma blank_tracks b j : blank b -> 0 <= j -> tracks b j = Some j.
Proof.
  intros Hb Hj. assert (He : ChangeBuilder.empty b = true).
  { destruct Hb as (Ed & Ei & Em & Ev & _). unfold ChangeBuilder.empty. rewrite Ed, Ei, Em, Ev.
    by rewrite (ix_empty_ranges ix_nil ix_nil_valid), ix_nil_ranges. }
  by destruct (no_changes b (blank_ok b Hb) He) as (Hid & _).
Qed.

Lemma tracks_nonneg b j k : ok b -> 0 <= j -> tracks b j = Some k -> 0 <= k.
Proof.
  intros Hb Hj. unfold tracks. destruct (move_source (moves b) j) as [f|] eqn:E.
  - intros [= <-]. apply move_source_elem in E as (m & Hm & <- & _); [|by apply ok_moves_nodup].
    pose proof (ok_moves_nonneg b Hb) as Hall. rewrite Forall_forall in Hall. by apply Hall.
  - unfold origin, ix_free. destruct (decide _); [done|]. intros [= <-].
    apply free_nonneg; [apply ix_valid_sep, Hb|]. apply rank_nonneg; [apply ix_valid_sep, Hb|done].
Qed.

Lemma origin_through_snoc cs c j : origin_through (cs ++ [c]) j = tracks c j ≫= origin_through cs.
Proof.
  induction cs as [|c' cs IH]; [cbn; by destruct (tracks c j)|]. cbn [origin_through app]. rewrite IH.
  by destruct (tracks c j).
Qed.
End sequences.
