(* ===== verification/ChangeTheorems.v ===== *)
(** * Theorems about [CollectionChangeBuilder]

    Stated for every implementation of the index set interface and both kinds
    of build, and run on the chunked implementation with debug assertions on. *)
From stdpp Require Import gmap.
From S2P Require Import Prelude.
From S2P Require Import RangeList.
From S2P Require Import ChunkedVector.
From S2P Require Import IndexSets.
From S2P Require Import IndexSetFacts.
From S2P Require Import IndexSetShifts.
From S2P Require Import IndexSetInterface.
From S2P Require Import Positions.
From S2P Require Import ChangeBuilder.
From S2P Require Import ChangeBuilderFacts.
From S2P Require Import ChangeMerge.
Import ChangeBuilder.

Section theorems.
Context `{IndexSetLaws IS} `{BuildMode}.
Implicit Types (b c : CollectionChangeBuilder IS).

(** Recording an insertion of [count] rows at [index] never fails, keeps
    the builder's invariant, gives the new rows no old position, and every
    other row the one it had before it was pushed up. *)
Theorem builder_insert b index count :
  ok b -> 0 <= index -> 0 < count ->
  exists b', insert b index count true = Some b' /\ ok b' /\
    (forall j, 0 <= j -> tracks b' j =
       if j <? index then tracks b j else if j <? index + count then None else tracks b (j - count)) /\
    forall j, ix_has (modifications b') j <->
      (j < index /\ ix_has (modifications b) j) \/ (index + count <= j /\ ix_has (modifications b) (j - count)).
Proof.
  intros Hb Hi Hn. destruct (record_insert_spec b index count Hb Hi Hn) as (b' & E & Hb' & Htr & [Hm _] & _).
  exists b'. split; [done|]. split; [done|]. split; [|done]. intros j Hj. rewrite (Htr j Hj).
  unfold before_insert. destruct (Z.ltb_spec j index), (Z.leb_spec index j), (Z.ltb_spec j (index + count));
    (done || lia).
Qed.

(** Recording the erasure of the row at [index] never fails, keeps the
    invariant, and every remaining row keeps its old position. *)
Theorem builder_erase b index :
  ok b -> 0 <= index < npos ->
  exists b', erase b index = Some b' /\ ok b' /\
    (forall j, 0 <= j -> tracks b' j = tracks b (if j <? index then j else j + 1)) /\
    forall j, ix_has (modifications b') j <->
      (j < index /\ ix_has (modifications b) j) \/ (index <= j /\ ix_has (modifications b) (j + 1)).
Proof.
  intros Hb Hi. destruct (record_erase_spec b index Hb Hi) as (b' & E & Hb' & Htr & [Hm _]).
  exists b'. by repeat (split; [done|]).
Qed.

(** C15: recording a move never fails, keeps the invariant, and the moved row
    and all the rows it passes keep their old positions; the row stays
    modified if it was. *)
Theorem builder_move b f t :
  ok b -> 0 <= f < npos -> 0 <= t -> f <> t ->
  exists b', move b f t = Some b' /\ ok b' /\
    (forall j, 0 <= j -> tracks b' j = tracks b (before_move f t j)) /\
    (forall j, ix_has (modifications b') j <-> ix_has (modifications b) (before_move f t j)) /\
    before_move f t t = f /\ tracks b' t = tracks b f.
Proof.
  intros Hb Hf Ht Hne. destruct (move_spec b f t Hb Hf Ht Hne) as (b' & E & Hb' & Htr & [Hm _]).
  assert (before_move f t t = f) by (unfold before_move; by rewrite Z.eqb_refl).
  exists b'. split; [done|]. split; [done|]. split; [done|]. split; [done|]. split; [done|].
  rewrite Htr by done. congruence.
Qed.

(** C1: merging two change sets composes them: the merged set sends a row to
    the position the first one gives to the position the second one gives it,
    whatever moves either of them recorded; the invariant and the assertions
    hold; and a row is modified exactly if the second change set modified it, or the
    first one did at the position it had between the two (a row that the first one
    inserted and the second one moved is reported as an insertion instead). The
    first set deletes no two adjacent rows ([ix_short]): otherwise
    [add_shifted_by] can leave a chunk with a wrong count. *)
Theorem builder_merge b c :
  ok b -> ok c -> ix_short (deletions b) ->
  exists b', merge b c = Some b' /\ ok b' /\
    (forall j, 0 <= j -> tracks b' j = match tracks c j with Some k => tracks b k | None => None end) /\
    modifications_merged b c b'.
Proof.
  intros Hb Hc Hs. destruct (merge_spec b c Hb Hc Hs) as (b' & E & Hb' & Htr & Hm).
  exists b'. by repeat (split; [done|]).
Qed.

(** [finalize] reports as modified, by new position, the modified rows
    that are not insertions, and by old position exactly the old positions of
    those rows. *)
Theorem builder_finalize b :
  ok b ->
  exists r, finalize b = Some r /\ c_deletions r = deletions b /\ c_insertions r = insertions b /\
    c_moves r = moves b /\
    (forall j, ix_has (c_modifications_new r) j <-> ix_has (modifications b) j /\ ~ ix_has (insertions b) j) /\
    forall k, ix_has (c_modifications r) k <->
      exists j, ix_has (c_modifications_new r) j /\ origin (deletions b) (insertions b) j = Some k.
Proof.
  intros Hb. destruct (record_finalize_spec b Hb) as (r & E & Ed & Ei & Em & _ & Hm & Ho).
  exists r. by repeat (split; [done|]).
Qed.

(** [clear] forgets everything but the deletion of the whole old
    collection. *)
Theorem builder_clear b old_size :
  ok b -> 0 <= old_size < npos ->
  0 <= old_size + total (ix_ranges (deletions b)) - total (ix_ranges (insertions b)) < 2 ^ 64 ->
  exists b', clear b old_size = Some b' /\ ok b' /\ moves b' = [] /\
    (forall j, ~ ix_has (insertions b') j) /\ (forall j, ~ ix_has (modifications b') j) /\
    forall j, ix_has (deletions b') j <->
      0 <= j < old_size + total (ix_ranges (deletions b)) - total (ix_ranges (insertions b)).
Proof.
  intros Hb Hn Hsz. destruct (clear_spec b old_size) as (b' & E & Hb' & Hms & _ & Hi & Hm & Hd); [lia|].
  exists b'. do 5 (split; [done|]). intros j. rewrite Hd.
  rewrite (proj2 (Z.eqb_neq _ _)) by lia. by rewrite Z.mod_small.
Qed.

(** dropping stale moves never fails and changes no row's old position. *)
Theorem builder_clean_up b :
  ok b ->
  exists b', clean_up_stale_moves b = Some b' /\ ok b' /\
    forall j, 0 <= j -> tracks b' j = tracks b j.
Proof.
  apply clean_up_spec.
Qed.
End theorems.

(** ** Concrete runs *)
Section witnesses.
#[local] Existing Instance debug_chunk_size.
#[local] Instance debug_build : BuildMode := {| realm_debug := true |}.

Definition sample_op (o : option (CollectionChangeBuilder crv)) : CollectionChangeBuilder crv :=
  default empty_builder o.

(** Rows 2 and 3 inserted, then row 5 moved to the front. *)
Definition sample : CollectionChangeBuilder crv :=
  sample_op (b ← insert empty_builder 2 2 true; move b 5 0).
(** Row 3 erased. *)
Definition sample2 : CollectionChangeBuilder crv := sample_op (erase empty_builder 3).

Lemma sample_ok : ok sample.
Proof.
  unfold sample, sample_op.
  destruct (record_insert_spec (IS := crv) empty_builder 2 2 empty_builder_ok) as (b & -> & Hb & _); [lia|lia|].
  cbn [mbind option_bind].
  destruct (move_spec b 5 0 Hb) as (b' & -> & Hb' & _); [unfold npos; lia|lia|lia|]. exact Hb'.
Defined.

Lemma sample2_ok : ok sample2.
Proof.
  unfold sample2, sample_op.
  destruct (record_erase_spec (IS := crv) empty_builder 3 empty_builder_ok) as (b & -> & Hb & _); [unfold npos; lia|].
  exact Hb.
Defined.

Lemma builder_insert_witness :
  exists b', insert sample 1 3 true = Some b' /\ ok b' /\
    (forall j, 0 <= j -> tracks b' j =
       if j <? 1 then tracks sample j else if j <? 1 + 3 then None else tracks sample (j - 3)) /\
    forall j, ix_has (modifications b') j <->
      (j < 1 /\ ix_has (modifications sample) j) \/ (1 + 3 <= j /\ ix_has (modifications sample) (j - 3)).
Proof. apply builder_insert; [exact sample_ok|lia|lia]. Defined.

Lemma builder_erase_witness :
  exists b', erase sample 4 = Some b' /\ ok b' /\
    (forall j, 0 <= j -> tracks b' j = tracks sample (if j <? 4 then j else j + 1)) /\
    forall j, ix_has (modifications b') j <->
      (j < 4 /\ ix_has (modifications sample) j) \/ (4 <= j /\ ix_has (modifications sample) (j + 1)).
Proof. apply builder_erase; [exact sample_ok|unfold npos; lia]. Defined.

Lemma builder_move_witness :
  exists b', move sample 0 6 = Some b' /\ ok b' /\
    (forall j, 0 <= j -> tracks b' j = tracks sample (before_move 0 6 j)) /\
    (forall j, ix_has (modifications b') j <-> ix_has (modifications sample) (before_move 0 6 j)) /\
    before_move 0 6 6 = 0 /\ tracks b' 6 = tracks sample 0.
Proof. apply builder_move; [exact sample_ok|unfold npos; lia|lia|lia]. Defined.

Lemma builder_merge_witness :
  exists b', merge sample sample2 = Some b' /\ ok b' /\
    (forall j, 0 <= j -> tracks b' j = match tracks sample2 j with Some k => tracks sample k | None => None end) /\
    modifications_merged sample sample2 b'.
Proof. apply builder_merge; [exact sample_ok|exact sample2_ok|repeat constructor]. Defined.

Lemma builder_finalize_witness :
  exists r, finalize sample = Some r /\ c_deletions r = deletions sample /\ c_insertions r = insertions sample /\
    c_moves r = moves sample /\
    (forall j, ix_has (c_modifications_new r) j <->
       ix_has (modifications sample) j /\ ~ ix_has (insertions sample) j) /\
    forall k, ix_has (c_modifications r) k <->
      exists j, ix_has (c_modifications_new r) j /\ origin (deletions sample) (insertions sample) j = Some k.
Proof. apply builder_finalize. exact sample_ok. Defined.

Lemma builder_clear_witness :
  exists b', clear sample 9 = Some b' /\ ok b' /\ moves b' = [] /\
    (forall j, ~ ix_has (insertions b') j) /\ (forall j, ~ ix_has (modifications b') j) /\
    forall j, ix_has (deletions b') j <->
      0 <= j < 9 + total (ix_ranges (deletions sample)) - total (ix_ranges (insertions sample)).
Proof.
  apply builder_clear; [exact sample_ok|unfold npos; lia|].
  replace (total (ix_ranges (deletions sample))) with 1 by reflexivity.
  replace (total (ix_ranges (insertions sample))) with 3 by reflexivity. lia.
Defined.

Lemma builder_clean_up_witness :
  exists b', clean_up_stale_moves sample = Some b' /\ ok b' /\
    forall j, 0 <= j -> tracks b' j = tracks sample j.
Proof. apply builder_clean_up. exact sample_ok. Defined.
End witnesses.
