(* ===== verification/ChangeCalc.v ===== *)
(** * Computing a change set from two lists of rows

    Models the second half of [impl/collection_change_builder.cpp]:
    [CollectionChangeBuilder::calculate], the move detection for tables in
    table order, and the longest common subsequence search for sorted ones.
    Sorting is [std_sort], of which only the guarantees of the C++ standard are
    known, so the order of rows with equal keys is open. *)
From stdpp Require Import gmap sorting.
From S2P Require Import Prelude.
From S2P Require Import RangeList.
From S2P Require Import IndexSets.
From S2P Require Import IndexSetInterface.
From S2P Require Import ChangeBuilder.
Import ChangeBuilder.

(** [RowInfo] *)
Record RowInfo := mkRowInfo {
  row_index : Z;
  prev_tv_index : Z;
  tv_index : Z;
  shifted_tv_index : Z
}.

(** [LongestCommonSubsequenceCalculator::Row] and [Match] *)
Record Row := mkRow { r_row_index : Z; r_tv_index : Z }.
Record Match := mkMatch { m_i : Z; m_j : Z; m_size : Z; m_modified : Z }.

(** The orders the rows are sorted by. *)
Definition by_row_index (x y : RowInfo) : Prop := row_index x <= row_index y.
Definition by_tv_index (x y : RowInfo) : Prop := tv_index x <= tv_index y.
Definition by_tv_then_row (x y : Row) : Prop :=
  r_tv_index x < r_tv_index y \/ (r_tv_index x = r_tv_index y /\ r_row_index x <= r_row_index y).
Definition by_row_then_tv (x y : Row) : Prop :=
  r_row_index x < r_row_index y \/ (r_row_index x = r_row_index y /\ r_tv_index x <= r_tv_index y).
#[global] Instance by_row_index_dec : RelDecision by_row_index.
Proof. intros x y. unfold by_row_index. apply _. Defined.
#[global] Instance by_tv_index_dec : RelDecision by_tv_index.
Proof. intros x y. unfold by_tv_index. apply _. Defined.
#[global] Instance by_tv_then_row_dec : RelDecision by_tv_then_row.
Proof. intros x y. unfold by_tv_then_row. apply _. Defined.
#[global] Instance by_row_then_tv_dec : RelDecision by_row_then_tv.
Proof. intros x y. unfold by_row_then_tv. apply _. Defined.

Module Calc.
Section calculate.
Context `{IndexSetOps IS} `{BuildMode} `{StdSort}.
Abbreviation builder := (CollectionChangeBuilder IS).

(** *** [calculate_moves_unsorted] *)

(** One row: the state is [expected], [removed], and the insertions and moves
    of the change set. *)
Definition unsorted_step (move_candidates : IS) (s : Z * IS * IS * list Move) (row : RowInfo)
    : option (Z * IS * IS * list Move) :=
  let '(expected, removed, ins, ms) := s in
  if shifted_tv_index row =? expected then Some (expected + 1, removed, ins, ms)
  else
    candidate ← ix_contains move_candidates (row_index row);
    if negb candidate then Some (shifted_tv_index row + 1, removed, ins, ms)
    else
      inserted_before ← ix_count ins 0 (tv_index row);
      removed_before ← ix_count removed 0 (prev_tv_index row);
      let calc_expected := tv_index row - inserted_before + removed_before in
      if shifted_tv_index row =? calc_expected then Some (calc_expected + 1, removed, ins, ms)
      else
        ins ← ix_add ins (tv_index row);
        removed ← ix_add removed (prev_tv_index row);
        Some (expected, removed, ins, ms ++ [mkMove (prev_tv_index row) (tv_index row)]).

Definition calculate_moves_unsorted (new_rows : list RowInfo) (removed move_candidates ins : IS)
    : option (IS * IS * list Move) :=
  '(_, removed, ins, ms) ← fold_option (unsorted_step move_candidates) new_rows (0, removed, ins, []);
  Some (removed, ins, ms).

(** *** [LongestCommonSubsequenceCalculator] *)

(** Arithmetic on [size_t] *)
Definition size_wrap (x : Z) : Z := x mod 2 ^ 64.

(** [length]: the length of the matching block that ends at [b[j]] *)
Definition block_length (prev : list (Z * Z)) (j : Z) : Z :=
  match list_find (fun p : Z * Z => p.1 + 1 = j) prev with
  | Some (_, p) => p.2 + 1
  | None => 1
  end.

(** [for_each_b_match]: the positions in [b] of the row, from the first one on,
    within the bounds *)
Fixpoint matches_from (b : list Row) (ai begin2 end2 : Z) : list Z :=
  match b with
  | [] => []
  | r :: b =>
    if r_row_index r =? ai then
      let j := r_tv_index r in
      if j <? begin2 then matches_from b ai begin2 end2
      else if end2 <=? j then []
      else j :: matches_from b ai begin2 end2
    else []
  end.

Definition b_matches (b : list Row) (ai begin2 end2 : Z) : option (list Z) :=
  let rest := drop (lower_bound (fun lft => r_row_index lft <? ai) 0 b) b in
  match rest with
  | r :: _ => if r_row_index r =? ai then Some (matches_from rest ai begin2 end2) else None
  | [] => None
  end.

(** The body of [for_each_b_match]: the state is [cur] and [best]. *)
Definition match_step (modified : IS) (prev : list (Z * Z)) (begin1 end1 begin2 end2 i : Z)
    (s : list (Z * Z) * Match) (j : Z) : option (list (Z * Z) * Match) :=
  let '(cur, best) := s in
  let size := block_length prev j in
  let cur := cur ++ [(j, size)] in
  best ← (if m_size best <? size then Some (mkMatch (i - size + 1) (j - size + 1) size npos)
    else if size =? m_size best then
      best_modified ← (if m_modified best =? npos
        then ix_count modified (size_wrap (m_j best - size + 1)) (m_j best + 1)
        else Some (m_modified best));
      count ← ix_count modified (size_wrap (j - size + 1)) (j + 1);
      if count <? best_modified then Some (mkMatch (i - size + 1) (j - size + 1) size count)
      else Some (mkMatch (m_i best) (m_j best) (m_size best) best_modified)
    else Some best);
  _ ← realm_assert ((begin1 <=? m_i best) && (m_i best + m_size best <=? end1));
  _ ← realm_assert ((begin2 <=? m_j best) && (m_j best + m_size best <=? end2));
  Some (cur, best).

Definition row_step (modified : IS) (a b : list Row) (begin1 end1 begin2 end2 : Z)
    (s : list (Z * Z) * Match) (i : Z) : option (list (Z * Z) * Match) :=
  let '(prev, best) := s in
  ai ← a !! Z.to_nat i;
  js ← b_matches b (r_row_index ai) begin2 end2;
  fold_option (match_step modified prev begin1 end1 begin2 end2 i) js ([], best).

Definition find_longest_match (modified : IS) (a b : list Row) (begin1 end1 begin2 end2 : Z) : option Match :=
  '(_, best) ← fold_option (row_step modified a b begin1 end1 begin2 end2) (seqZ begin1 (end1 - begin1))
    ([], mkMatch begin1 begin2 0 0);
  Some best.

(** [find_longest_matches]: every call works on fewer rows of [a]. *)
Fixpoint find_longest_matches (modified : IS) (a b : list Row) (fuel : nat) (begin1 end1 begin2 end2 : Z)
    : option (list Match) :=
  match fuel with
  | O => None
  | S fuel =>
    m ← find_longest_match modified a b begin1 end1 begin2 end2;
    if m_size m =? 0 then Some []
    else
      left ← (if (begin1 <? m_i m) && (begin2 <? m_j m)
        then find_longest_matches modified a b fuel begin1 (m_i m) begin2 (m_j m) else Some []);
      right ← (if (m_i m + m_size m <? end2) && (m_j m + m_size m <? end2)
        then find_longest_matches modified a b fuel (m_i m + m_size m) end1 (m_j m + m_size m) end2
        else Some []);
      Some (left ++ m :: right)
  end.

(** The constructor; more rows than [a] has are never needed as fuel. *)
Definition longest_matches (modified : IS) (a b : list Row) (start_index : Z) : option (list Match) :=
  let n := Z.of_nat (length a) in
  let k := Z.of_nat (length b) in
  ms ← find_longest_matches modified a b (S (length a)) start_index n start_index k;
  Some (ms ++ [mkMatch n k 0 0]).

(** *** [calculate_moves_sorted] *)

(** [for (; i < stop; ++i) set.add(v[i])] *)
Definition add_between (s : IS) (v : list Z) (i stop : Z) : option IS :=
  fold_option (fun s i => x ← v !! Z.to_nat i; ix_add s x) (seqZ i (stop - i)) s.

Definition align_step (a rows : list Z) (s : Z * Z * IS * IS) (m : Match) : option (Z * Z * IS * IS) :=
  let '(i, j, del, ins) := s in
  del ← add_between del a i (m_i m);
  ins ← add_between ins rows j (m_j m);
  Some (Z.max i (m_i m) + m_size m, Z.max j (m_j m) + m_size m, del, ins).

(** [b]: the rows with their positions, and [a]: the rows with their old
    positions *)
Definition old_order (rows : list RowInfo) : list Row :=
  std_sort by_tv_then_row ((fun row => mkRow (row_index row) (prev_tv_index row)) <$> rows).
Definition new_order (rows : list RowInfo) : list Row :=
  std_sort by_row_then_tv (imap (fun i row => mkRow (row_index row) (Z.of_nat i)) rows).

Definition first_difference (a : list Row) (rows : list RowInfo) : nat :=
  find_if (fun p => negb (r_row_index p.1 =? row_index p.2)) (zip a rows).

Definition calculate_moves_sorted (rows : list RowInfo) (modified del ins : IS) : option (IS * IS) :=
  let a := old_order rows in
  let first := first_difference a rows in
  if (first =? length (zip a rows))%nat then Some (del, ins)
  else
    matches ← longest_matches modified a (new_order rows) (Z.of_nat first);
    '(_, _, del, ins) ← fold_option (align_step (r_tv_index <$> a) (tv_index <$> rows)) matches
      (Z.of_nat first, Z.of_nat first, del, ins);
    Some (del, ins).

(** *** [calculate] *)

(** The old rows that still exist, and the deletion of the others *)
Fixpoint collect_old (prev_rows : list Z) (i deleted : Z) (del : IS) : option (list RowInfo * IS) :=
  match prev_rows with
  | [] => Some ([], del)
  | row :: prev_rows =>
    if row =? npos then del ← ix_add del i; collect_old prev_rows (i + 1) (deleted + 1) del
    else
      '(rows, del) ← collect_old prev_rows (i + 1) deleted del;
      Some (mkRowInfo row npos i (i - deleted) :: rows, del)
  end.

Definition collect_new (next_rows : list Z) : list RowInfo :=
  imap (fun i row => mkRowInfo row npos (Z.of_nat i) 0) next_rows.

(** The walk over both sorted lists: the new rows with their old positions,
    the rows only in the old list, and the rows only in the new one *)
Fixpoint pair_rows (old : list RowInfo) : list RowInfo -> IS -> IS -> option (list RowInfo * IS * IS) :=
  fix inner (new : list RowInfo) (removed ins : IS) : option (list RowInfo * IS * IS) :=
  match old, new with
  | [], [] => Some ([], removed, ins)
  | o :: old', [] => removed ← ix_add removed (tv_index o); pair_rows old' [] removed ins
  | [], n :: new' =>
    ins ← ix_add ins (tv_index n);
    '(rows, removed, ins) ← inner new' removed ins;
    Some (n :: rows, removed, ins)
  | o :: old', n :: new' =>
    if row_index o =? row_index n then
      '(rows, removed, ins) ← pair_rows old' new' removed ins;
      Some (mkRowInfo (row_index n) (tv_index o) (tv_index n) (shifted_tv_index o) :: rows, removed, ins)
    else if row_index o <? row_index n then
      removed ← ix_add removed (tv_index o); pair_rows old' new removed ins
    else
      ins ← ix_add ins (tv_index n);
      '(rows, removed, ins) ← inner new' removed ins;
      Some (n :: rows, removed, ins)
  end.

(** The rows in both lists, in the order of the new one *)
Definition kept_rows (rows : list RowInfo) : list RowInfo :=
  std_sort by_tv_index (filter (fun row => prev_tv_index row <> npos) rows).

Definition modified_rows (row_did_change : Z -> bool) (rows : list RowInfo) (s : IS) : option IS :=
  fold_option (fun s row => if row_did_change (row_index row) then ix_add s (tv_index row) else Some s) rows s.

(** The check of debug builds: the deletions and insertions turn the old list
    into the new one *)
Definition erase_range (r : range) (rows : list Z) : option (list Z) :=
  if r.2 <=? Z.of_nat (length rows) then Some (take (Z.to_nat r.1) rows ++ drop (Z.to_nat r.2) rows) else None.
Definition insert_row (next_rows rows : list Z) (i : Z) : option (list Z) :=
  x ← next_rows !! Z.to_nat i;
  if i <=? Z.of_nat (length rows) then Some (take (Z.to_nat i) rows ++ x :: drop (Z.to_nat i) rows) else None.
Definition apply_changes (prev_rows next_rows : list Z) (del ins : IS) : option (list Z) :=
  rows ← fold_option (fun rows r => erase_range r rows) (rev (ix_ranges del)) prev_rows;
  fold_option (insert_row next_rows) (elems (ix_ranges ins)) rows.

Definition check_calculated (prev_rows next_rows : list Z) (del ins : IS) : option unit :=
  if realm_debug then
    rows ← apply_changes prev_rows next_rows del ins;
    realm_assert (bool_decide (rows = next_rows))
  else Some tt.

Definition calculate (prev_rows next_rows : list Z) (row_did_change : Z -> bool)
    (move_candidates : option IS) : option builder :=
  _ ← realm_assert_debug (Some (match move_candidates with
      | Some _ => bool_decide (Sorted.Sorted Z.le next_rows) | None => true end));
  '(old_rows, del) ← collect_old prev_rows 0 0 ix_nil;
  '(new_rows, removed, ins) ← pair_rows (std_sort by_row_index old_rows)
    (std_sort by_row_index (collect_new next_rows)) ix_nil ix_nil;
  let rows := kept_rows new_rows in
  modified ← modified_rows row_did_change rows ix_nil;
  '(removed, del, ins, ms) ← match move_candidates with
    | Some c =>
      '(removed, ins, ms) ← calculate_moves_unsorted rows removed c ins;
      Some (removed, del, ins, ms)
    | None =>
      '(del, ins) ← calculate_moves_sorted rows modified del ins;
      Some (removed, del, ins, [])
    end;
  del ← ix_add_set del removed;
  let ret := mkBuilder del ins modified ms [] ∅ true in
  _ ← verify ret;
  _ ← check_calculated prev_rows next_rows del ins;
  Some ret.
End calculate.
End Calc.
