(* ===== verification/ApplyChanges.v ===== *)
(** * Applying deletions and insertions to a list of rows

    The check that [calculate] makes in debug builds is executed on lists here:
    what is left of a list when ranges are erased from the back, what inserting
    the new rows one by one gives, and when both together turn one list into
    another. *)
From stdpp Require Import gmap sorting.
From S2P Require Import Prelude.
From S2P Require Import RangeList.
From S2P Require Import Positions.
From S2P Require Import IndexSets.
From S2P Require Import IndexSetInterface.
From S2P Require Import ChangeBuilder.
From S2P Require Import ChangeCalc.
Import Calc.

(** The elements of [l], whose first one has index [k], at indices outside [P]. *)
Fixpoint without (P : Z -> Prop) `{!forall j, Decision (P j)} (k : Z) (l : list Z) : list Z :=
  match l with
  | [] => []
  | x :: l => if decide (P k) then without P (k + 1) l else x :: without P (k + 1) l
  end.

(** The elements at the given indices, again with [k] the index of the head. *)
Definition pick (k : Z) (l ps : list Z) : list Z := omap (fun p => l !! Z.to_nat (p - k)) ps.

Section without.
Context (P : Z -> Prop) `{!forall j, Decision (P j)}.

Lemma without_app k l1 l2 : without P k (l1 ++ l2) = without P k l1 ++ without P (k + Z.of_nat (length l1)) l2.
Proof.
  revert k. induction l1 as [|x l1 IH]; intros k; simpl; [by rewrite Z.add_0_r|].
  rewrite IH. replace (k + 1 + Z.of_nat (length l1)) with (k + Z.of_nat (S (length l1))) by lia. by case_decide.
Qed.

Lemma without_none k l : (forall j, k <= j < k + Z.of_nat (length l) -> ~ P j) -> without P k l = l.
Proof.
  revert k. induction l as [|x l IH]; intros k Hl; simpl; [done|]. simpl in Hl.
  rewrite decide_False by (apply Hl; lia). f_equal. apply IH. intros j Hj. apply Hl. lia.
Qed.

Lemma without_all k l : (forall j, k <= j < k + Z.of_nat (length l) -> P j) -> without P k l = [].
Proof.
  revert k. induction l as [|x l IH]; intros k Hl; simpl; [done|]. simpl in Hl.
  rewrite decide_True by (apply Hl; lia). apply IH. intros j Hj. apply Hl. lia.
Qed.

Lemma without_ext Q `{!forall j, Decision (Q j)} k l :
  (forall j, k <= j < k + Z.of_nat (length l) -> P j <-> Q j) -> without P k l = without Q k l.
Proof.
  revert k. induction l as [|x l IH]; intros k Hl; simpl; [done|]. simpl in Hl.
  rewrite (IH (k + 1)) by (intros j Hj; apply Hl; lia).
  pose proof (Hl k ltac:(lia)). do 2 case_decide; (done || tauto).
Qed.

(** What remains is what is picked at the indices that stay. *)
Lemma pick_tail k x l ps : Forall (fun p => k < p) ps -> pick k (x :: l) ps = pick (k + 1) l ps.
Proof.
  unfold pick. induction 1 as [|p ps Hp _ IH]; [done|]. cbn [omap list_omap]. rewrite IH.
  by replace (Z.to_nat (p - k)) with (S (Z.to_nat (p - (k + 1)))) by lia.
Qed.

Lemma without_pick k l ps :
  increasing (k - 1) ps -> Forall (fun p => p < k + Z.of_nat (length l)) ps ->
  (forall j, k <= j < k + Z.of_nat (length l) -> P j <-> j ∉ ps) ->
  without P k l = pick k l ps.
Proof.
  revert k ps. induction l as [|x l IH]; intros k ps Hinc Hb Heq; simpl in *.
  - destruct ps as [|p ps]; [done|]. apply Forall_cons in Hb as [? _]. destruct Hinc. lia.
  - pose proof (Heq k ltac:(lia)) as Hk. case_decide as HP.
    + assert (increasing k ps) as Hps.
      { destruct ps as [|p ps]; [done|]. destruct Hinc as [? Hinc]. split; [|done].
        destruct (decide (p = k)) as [->|]; [|lia]. exfalso. apply Hk; [done|left]. }
      rewrite pick_tail by (by apply increasing_bound).
      apply IH; [by replace (k + 1 - 1) with k by lia| |intros; apply Heq; lia].
      eapply Forall_impl; [exact Hb|]. simpl. lia.
    + destruct ps as [|p ps].
      { exfalso. apply HP, Hk. by intros ?%elem_of_nil. }
      destruct Hinc as [Hp Hinc].
      assert (p = k) as ->.
      { destruct (decide (k ∈ p :: ps)) as [Hin|Hin]; [|by apply Hk in Hin].
        apply elem_of_cons in Hin as [|Hin]; [done|]. apply increasing_bound in Hinc.
        rewrite Forall_forall in Hinc. apply Hinc in Hin. lia. }
      cbn [pick omap]. unfold pick. cbn [omap list_omap]. rewrite Z.sub_diag. cbn [Z.to_nat lookup list_lookup].
      f_equal. fold (pick k (x :: l) ps). rewrite pick_tail by (by apply increasing_bound).
      apply Forall_cons in Hb as [_ Hb].
      apply IH; [by replace (k + 1 - 1) with k by lia| |].
      * eapply Forall_impl; [exact Hb|]. simpl. lia.
      * intros j Hj. rewrite Heq, not_elem_of_cons by lia. split; [tauto|]. split; [lia|done].
Qed.
End without.

(** ** Erasing *)
Lemma erase_all lo rs rows :
  sep lo rs -> -1 <= lo -> Forall (fun r => r.2 <= Z.of_nat (length rows)) rs ->
  fold_option (fun rows r => erase_range r rows) (rev rs) rows = Some (without (mem rs) 0 rows).
Proof.
  revert lo. induction rs as [|r rs IH]; intros lo Hs Hlo Hb.
  - simpl. by rewrite without_none by (simpl; tauto).
  - destruct Hs as (Hr & Hr2 & Hs). apply Forall_cons in Hb as [Hlen Hb]. cbn [rev].
    rewrite fold_option_app, (IH r.2) by (done || lia). cbn [mbind option_bind fold_option].
    set (n1 := Z.to_nat r.1). set (n2 := Z.to_nat r.2).
    assert (Hsplit : forall Q `{!forall j, Decision (Q j)}, without Q 0 rows =
      without Q 0 (take n1 rows) ++ without Q r.1 (take (n2 - n1) (drop n1 rows)) ++ without Q r.2 (drop n2 rows)).
    { intros Q HQ. rewrite <- (take_drop n1 rows) at 1. rewrite without_app, length_take. f_equal.
      rewrite <- (take_drop (n2 - n1) (drop n1 rows)) at 1.
      rewrite without_app, length_take, length_drop, drop_drop. unfold n1, n2.
      f_equal; [f_equal; lia|]. f_equal; [lia|f_equal; lia]. }
    assert (Hbefore : forall j, mem rs j -> r.2 < j) by (intros j Hj; by eapply mem_lower).
    rewrite !Hsplit. rewrite !(without_none (mem rs) 0), (without_none (mem rs) r.1).
    2: { rewrite length_take, length_drop. intros j Hj Hm%Hbefore. unfold n1, n2 in *. lia. }
    2: { rewrite length_take. intros j Hj Hm%Hbefore. unfold n1 in *. lia. }
    rewrite (without_none (mem (r :: rs)) 0), (without_all (mem (r :: rs)) r.1).
    2: { rewrite length_take, length_drop. intros j Hj. left. unfold n1, n2 in *. lia. }
    2: { rewrite length_take. intros j Hj [Hm|Hm%Hbefore]; unfold n1 in *; lia. }
    rewrite (without_ext (mem (r :: rs)) (mem rs) r.2) by (intros j Hj; simpl; intuition lia).
    unfold erase_range. rewrite !length_app, !length_take, !length_drop.
    rewrite (proj2 (Z.leb_le _ _)) by (unfold n1, n2; lia). cbn [mbind option_bind fold_option app]. do 2 f_equal.
    + fold n1. rewrite take_app_le by (rewrite length_take; lia). rewrite take_take. f_equal. lia.
    + fold n2. rewrite app_assoc, drop_app_ge; rewrite !length_app, !length_take, !length_drop; [|lia].
      replace (n2 - _)%nat with O by lia. done.
Qed.

(** ** Inserting *)
Lemma insert_row_at a b c x i :
  i = Z.of_nat (length a) -> insert_row (a ++ x :: b) (a ++ c) i = Some (a ++ x :: c).
Proof.
  intros ->. unfold insert_row. rewrite Nat2Z.id, list_lookup_middle by done. cbn [mbind option_bind].
  rewrite length_app, (proj2 (Z.leb_le _ _)) by lia. by rewrite take_app_length, drop_app_length.
Qed.

Lemma insert_all next pre suf es :
  next = pre ++ suf -> increasing (Z.of_nat (length pre) - 1) es ->
  Forall (fun e => e < Z.of_nat (length next)) es ->
  fold_option (insert_row next) es (pre ++ without (fun j => j ∈ es) (Z.of_nat (length pre)) suf) = Some next.
Proof.
  revert pre suf. induction es as [|e es IH]; intros pre suf -> Hinc Hb.
  - simpl. by rewrite without_none by (intros j _ []%not_elem_of_nil).
  - destruct Hinc as [He Hinc]. apply Forall_cons in Hb as [Hlen Hb]. rewrite length_app in Hlen.
    set (n := (Z.to_nat e - length pre)%nat).
    destruct (lookup_lt_is_Some_2 suf n) as [x Hx]; [unfold n; lia|].
    apply list_elem_of_split_length in Hx as (s1 & s2 & -> & Hn).
    assert (Hes : forall j, j ∈ es -> e < j).
    { intros j Hj. apply increasing_bound in Hinc. rewrite Forall_forall in Hinc. by apply Hinc. }
    assert (Ee : e = Z.of_nat (length (pre ++ s1))) by (rewrite length_app; unfold n in Hn; lia).
    rewrite without_app. cbn [without]. rewrite (without_none _ _ s1).
    2: { intros j Hj [->|Hin%Hes]%elem_of_cons; rewrite length_app in Ee; lia. }
    rewrite decide_True by (rewrite length_app in Ee; apply elem_of_cons; left; lia).
    cbn [fold_option]. rewrite !(app_assoc pre s1), (insert_row_at _ _ _ _ _ Ee). cbn [mbind option_bind].
    replace ((pre ++ s1) ++ x :: without _ _ s2) with
      (((pre ++ s1) ++ [x]) ++ without (fun j => j ∈ es) (Z.of_nat (length ((pre ++ s1) ++ [x]))) s2).
    2: { rewrite <- app_assoc. simpl. do 2 f_equal. rewrite !length_app. simpl.
         replace (Z.of_nat (length pre) + Z.of_nat (length s1) + 1) with
           (Z.of_nat (length pre + length s1 + 1)) by lia.
         apply without_ext. intros j Hj. rewrite elem_of_cons. rewrite length_app in *. intuition lia. }
    rewrite <- (app_assoc pre s1 (x :: s2)). apply IH.
    + by rewrite <- !app_assoc.
    + rewrite length_app. cbn [length]. by replace (Z.of_nat (length (pre ++ s1) + 1) - 1) with e by lia.
    + done.
Qed.

(** ** Change sets that turn one list into another *)

(** [ps] and [ns] list, in order, the rows that stay where they are: their old
    and their new indices. *)
Record aligned `{IndexSetLaws IS} (prev next : list Z) (del ins : IS) (ps ns : list Z) : Prop := {
  al_del : ix_valid del;
  al_ins : ix_valid ins;
  al_old : increasing (-1) ps;
  al_new : increasing (-1) ns;
  al_deleted j : ix_has del j <-> 0 <= j < Z.of_nat (length prev) /\ j ∉ ps;
  al_inserted j : ix_has ins j <-> 0 <= j < Z.of_nat (length next) /\ j ∉ ns;
  al_same : Forall2 (fun p n => exists x, prev !! Z.to_nat p = Some x /\ next !! Z.to_nat n = Some x) ps ns
}.

Section aligned.
Context `{IndexSetLaws IS}.
Implicit Types (s del ins : IS).

Lemma pick_same prev next ps ns :
  Forall2 (fun p n => exists x, prev !! Z.to_nat p = Some x /\ next !! Z.to_nat n = Some x) ps ns ->
  pick 0 prev ps = pick 0 next ns.
Proof.
  unfold pick. induction 1 as [|p n ps ns (x & E1 & E2) _ IH]; [done|]. cbn [omap list_omap].
  by rewrite !Z.sub_0_r, E1, E2, IH.
Qed.

Lemma in_length (l : list Z) p x : l !! Z.to_nat p = Some x -> p < Z.of_nat (length l).
Proof. intros Hl%lookup_lt_Some. lia. Qed.

Lemma aligned_bounds prev next del ins ps ns :
  aligned prev next del ins ps ns ->
  Forall (fun p => p < Z.of_nat (length prev)) ps /\ Forall (fun n => n < Z.of_nat (length next)) ns.
Proof.
  intros Ha. split; apply Forall_forall; intros p [i Hi]%list_elem_of_lookup_1.
  - destruct (Forall2_lookup_l _ _ _ _ _ (al_same _ _ _ _ _ _ Ha) Hi) as (n & _ & x & Hx & _).
    by apply in_length in Hx.
  - destruct (Forall2_lookup_r _ _ _ _ _ (al_same _ _ _ _ _ _ Ha) Hi) as (n & _ & x & _ & Hx).
    by apply in_length in Hx.
Qed.

Lemma ranges_end_below s n :
  ix_valid s -> (forall j, ix_has s j -> j < n) -> Forall (fun r => r.2 <= n) (ix_ranges s).
Proof.
  intros Hs Hn. unfold ix_has in Hn. pose proof (ix_valid_sep _ Hs) as Hsep. revert Hsep Hn.
  generalize (-1). induction (ix_ranges s) as [|r rs IH]; intros lo Hsep Hn; [constructor|].
  destruct Hsep as (_ & ? & Hsep). constructor.
  - pose proof (Hn (r.2 - 1) ltac:(left; lia)). lia.
  - apply (IH _ Hsep). intros j Hj. apply Hn. by right.
Qed.

(** The debug check of [calculate] succeeds. *)
Lemma aligned_apply prev next del ins ps ns :
  aligned prev next del ins ps ns -> apply_changes prev next del ins = Some next.
Proof.
  intros Ha. destruct (aligned_bounds _ _ _ _ _ _ Ha) as [Hbp Hbn]. destruct Ha as [Hd Hi Ho Hn Hdel Hins Hsame].
  unfold apply_changes.
  rewrite (erase_all (-1)); [|by apply ix_valid_sep|done|].
  2: { apply ranges_end_below; [done|]. intros j Hj. apply Hdel in Hj. lia. }
  cbn [mbind option_bind].
  rewrite (without_pick _ 0 prev ps) by (done || (intros j Hj; specialize (Hdel j); unfold ix_has in Hdel; tauto)).
  rewrite (pick_same _ _ _ _ Hsame).
  rewrite <- (without_pick (fun j => j ∈ elems (ix_ranges ins)) 0 next ns); [|done|done|].
  2: { intros j Hj. rewrite mem_elems. specialize (Hins j). unfold ix_has in Hins. tauto. }
  apply (insert_all next [] next); [done| |].
  - apply elems_increasing, ix_valid_sep, Hi.
  - apply Forall_forall. intros j Hj%mem_elems. apply Hins in Hj. lia.
Qed.

(** The rank of an index among those outside a set. *)
Lemma rank_below s n ps x :
  ix_valid s -> increasing (-1) ps -> (forall j, ix_has s j <-> 0 <= j < n /\ j ∉ ps) ->
  0 <= x <= n -> rank (ix_ranges s) x = below ps x.
Proof.
  intros Hs Hps Heq [Hx0 Hxn]. revert x Hx0 Hxn. apply (upto_ind (fun x => _ -> _)).
  - intros _. by rewrite rank_zero, (below_none _ _ (-1)) by (done || lia || by apply ix_valid_sep).
  - intros x Hx IH Hxn. rewrite rank_succ, (below_succ (-1)), IH by (done || lia || by apply ix_valid_sep).
    pose proof (Heq x) as Hx'. unfold ix_has in Hx'. assert (0 <= x < n) by lia. repeat case_decide; (lia || tauto).
Qed.

(** The change set's own account of where a row was is right. *)
Lemma aligned_origin prev next del ins ps ns j :
  aligned prev next del ins ps ns -> 0 <= j < Z.of_nat (length next) -> ~ ix_has ins j ->
  exists x, prev !! Z.to_nat (ix_free del (rank (ix_ranges ins) j)) = Some x /\ next !! Z.to_nat j = Some x.
Proof.
  intros Ha Hj Hnot. destruct (aligned_bounds _ _ _ _ _ _ Ha) as [Hbp _].
  destruct Ha as [Hd Hi Ho Hn Hdel Hins Hsame].
  assert (j ∈ ns) as [t Ht]%list_elem_of_lookup_1.
  { destruct (decide (j ∈ ns)) as [|Hout]; [done|]. exfalso. apply Hnot, Hins. done. }
  rewrite (rank_below ins _ ns), (below_at (-1) ns t) by (done || lia).
  destruct (Forall2_lookup_r _ _ _ _ _ Hsame Ht) as (p & Hp & x & Hpx & Hnx).
  replace (ix_free del (Z.of_nat t)) with p; [by exists x|]. symmetry.
  assert (p ∈ ps) as Hin by (by eapply list_elem_of_lookup_2).
  assert (0 <= p).
  { pose proof (increasing_bound _ _ Ho) as Hb. rewrite Forall_forall in Hb. apply Hb in Hin. lia. }
  rewrite Forall_forall in Hbp. apply Hbp in Hin as Hlen.
  apply ix_free_unique; [done| |].
  - intros Hp'%Hdel. tauto.
  - change (rank (ix_ranges del) p = Z.of_nat t).
    by rewrite (rank_below del _ ps), (below_at (-1) ps t) by (done || lia).
Qed.
End aligned.
