(* ===== verification/LongestMatch.v ===== *)
(** * The longest common subsequence search

    [find_longest_matches] never fails an assertion, ends, and returns blocks
    that match and follow each other in both lists, whatever the modified rows
    are.  (It is a heuristic: nothing is claimed about the length of the common
    subsequence.) *)
From stdpp Require Import gmap sorting.
From S2P Require Import Prelude.
From S2P Require Import RangeList.
From S2P Require Import IndexSets.
From S2P Require Import IndexSetInterface.
From S2P Require Import ChangeBuilder.
From S2P Require Import ChangeCalc.

(** ** Pairing the old and the new rows

    The first half of [calculate]: collecting the rows that still exist,
    walking over both lists in the order of the rows, and keeping the pairs.
    Every old position is paired, removed or deleted, and every new one is
    paired or inserted. *)
Import Calc.

(** The rows that were paired. *)
Definition paired (rows : list RowInfo) : list RowInfo := filter (fun row => prev_tv_index row <> npos) rows.

Section pairing.
Context `{IndexSetLaws IS}.
Implicit Types (s del removed ins : IS) (old new rows : list RowInfo).

(** [s'] is [s] with the elements of [l] added. *)
Definition adds s (l : list Z) s' : Prop := ix_valid s' /\ forall j, ix_has s' j <-> j ∈ l \/ ix_has s j.

Lemma adds_nil s : ix_valid s -> adds s [] s.
Proof. intros Hs. split; [done|]. intros j. rewrite elem_of_nil. tauto. Qed.

Lemma adds_cons s s1 s2 x l :
  (forall j, ix_has s1 j <-> j = x \/ ix_has s j) -> adds s1 l s2 -> adds s (x :: l) s2.
Proof. intros H1 [Hv H2]. split; [done|]. intros j. rewrite H2, H1, elem_of_cons. tauto. Qed.

Lemma adds_app s s1 s2 l1 l2 : adds s l1 s1 -> adds s1 l2 s2 -> adds s (l1 ++ l2) s2.
Proof. intros [_ H1] [Hv H2]. split; [done|]. intros j. rewrite H2, H1, elem_of_app. tauto. Qed.

Lemma add_adds s x : ix_valid s -> 0 <= x -> gives (ix_add s x) (fun s' => adds s [x] s').
Proof.
  intros Hs Hx. destruct (ix_add_has s x Hs Hx) as (s' & E & Hs' & Hm).
  exists s'. split; [done|]. split; [done|]. intros j. by rewrite Hm, list_elem_of_singleton.
Qed.

(** What the walk gives: [gone] are the removed positions, [came] the
    inserted ones. *)
Record pairing old new rows (gone came : list Z) : Prop := {
  pg_tv : tv_index <$> rows = tv_index <$> new;
  pg_row : row_index <$> rows = row_index <$> new;
  pg_old : (prev_tv_index <$> paired rows) ++ gone ≡ₚ tv_index <$> old;
  pg_came : came = tv_index <$> filter (fun row => prev_tv_index row = npos) rows;
  pg_source : Forall (fun row => exists o, o ∈ old /\ prev_tv_index row = tv_index o /\
    row_index row = row_index o /\ shifted_tv_index row = shifted_tv_index o) (paired rows)
}.

Definition unpaired old new : Prop :=
  Forall (fun o => 0 <= tv_index o < npos) old /\
  Forall (fun n => 0 <= tv_index n /\ prev_tv_index n = npos) new.

Lemma pairing_new old n new rows gone came :
  prev_tv_index n = npos -> pairing old new rows gone came ->
  pairing old (n :: new) (n :: rows) gone (tv_index n :: came).
Proof.
  intros Hn [Ht Hr Ho Hc Hs].
  assert (paired (n :: rows) = paired rows) as E.
  { unfold paired. rewrite filter_cons, decide_False; [done|]. tauto. }
  split; rewrite ?E; [by rewrite !fmap_cons, Ht|by rewrite !fmap_cons, Hr|done| |done].
  by rewrite filter_cons, decide_True, fmap_cons, Hc.
Qed.

Lemma pairing_old o old new rows gone came :
  pairing old new rows gone came -> pairing (o :: old) new rows (tv_index o :: gone) came.
Proof.
  intros [Ht Hr Ho Hc Hs]. split; [done|done| |done|].
  - rewrite fmap_cons, <- Ho. by rewrite Permutation_middle.
  - eapply Forall_impl; [exact Hs|]. intros row (o' & Hin & Hrest). exists o'. split; [by right|done].
Qed.

Lemma pairing_both o n old new rows gone came :
  row_index o = row_index n -> tv_index o < npos -> pairing old new rows gone came ->
  pairing (o :: old) (n :: new)
    (mkRowInfo (row_index n) (tv_index o) (tv_index n) (shifted_tv_index o) :: rows) gone came.
Proof.
  intros E Ho' [Ht Hr Ho Hc Hs]. set (row := mkRowInfo _ _ _ _).
  assert (paired (row :: rows) = row :: paired rows) as Ep.
  { unfold paired. rewrite filter_cons, decide_True; [done|]. simpl. lia. }
  split; rewrite ?Ep.
  - by rewrite !fmap_cons, Ht.
  - by rewrite !fmap_cons, Hr.
  - rewrite !fmap_cons, <- Ho. done.
  - rewrite filter_cons, decide_False; [done|]. simpl. lia.
  - constructor; [exists o; by split; [left|]|].
    eapply Forall_impl; [exact Hs|]. intros row' (o' & Hin & Hrest). exists o'. split; [by right|done].
Qed.

Lemma pair_rows_spec old new removed ins :
  ix_valid removed -> ix_valid ins -> unpaired old new ->
  exists rows removed' ins' gone came,
    pair_rows old new removed ins = Some (rows, removed', ins') /\
    adds removed gone removed' /\ adds ins came ins' /\ pairing old new rows gone came.
Proof.
  revert new removed ins. induction old as [|o old IHo]; intros new; induction new as [|n new IHn];
    intros removed ins Hr Hi [Hold Hnew].
  - exists [], removed, ins, [], []. split; [done|]. split; [by apply adds_nil|].
    split; [by apply adds_nil|]. by split.
  - apply Forall_cons in Hnew as [[Hn0 Hn] Hnew].
    destruct (add_adds ins (tv_index n) Hi Hn0) as (ins1 & E & Ha1).
    destruct (IHn removed ins1 Hr (proj1 Ha1)) as (rows & r' & i' & gone & came & Ep & Hga & Hca & Hp); [by split|].
    exists (n :: rows), r', i', gone, (tv_index n :: came). split; [|split; [done|split; [by eapply (adds_app _ _ _ [_])|by apply pairing_new]]].
    simpl. rewrite E. cbn [mbind option_bind]. simpl in Ep. by rewrite Ep.
  - apply Forall_cons in Hold as [[Ho0 Ho] Hold].
    destruct (add_adds removed (tv_index o) Hr Ho0) as (r1 & E & Ha1).
    destruct (IHo [] r1 ins (proj1 Ha1) Hi) as (rows & r' & i' & gone & came & Ep & Hga & Hca & Hp); [by split|].
    exists rows, r', i', (tv_index o :: gone), came. split; [|split; [by eapply (adds_app _ _ _ [_])|split; [done|by apply pairing_old]]].
    simpl. rewrite E. cbn [mbind option_bind]. done.
  - apply Forall_cons in Hold as [[Ho0 Ho] Hold]. apply Forall_cons in Hnew as [[Hn0 Hn] Hnew]. cbn [pair_rows].
    destruct (Z.eqb_spec (row_index o) (row_index n)) as [Eq|Hne].
    { destruct (IHo new removed ins Hr Hi) as (rows & r' & i' & gone & came & Ep & Hga & Hca & Hp); [by split|].
      rewrite Ep. cbn [mbind option_bind]. eexists _, r', i', gone, came. split; [done|].
      split; [done|]. split; [done|]. by apply pairing_both. }
    destruct (row_index o <? row_index n).
    + destruct (add_adds removed (tv_index o) Hr Ho0) as (r1 & E & Ha1). rewrite E. cbn [mbind option_bind].
      destruct (IHo (n :: new) r1 ins (proj1 Ha1) Hi) as (rows & r' & i' & gone & came & Ep & Hga & Hca & Hp).
      { split; [done|]. by constructor. }
      exists rows, r', i', (tv_index o :: gone), came. split; [done|].
      split; [by eapply (adds_app _ _ _ [_])|]. split; [done|]. by apply pairing_old.
    + destruct (add_adds ins (tv_index n) Hi Hn0) as (ins1 & E & Ha1). rewrite E. cbn [mbind option_bind].
      destruct (IHn removed ins1 Hr (proj1 Ha1)) as (rows & r' & i' & gone & came & Ep & Hga & Hca & Hp).
      { split; [by constructor|done]. }
      cbn [pair_rows] in Ep. rewrite Ep. cbn [mbind option_bind].
      exists (n :: rows), r', i', gone, (tv_index n :: came). split; [done|]. split; [done|].
      split; [by eapply (adds_app _ _ _ [_])|by apply pairing_new].
Qed.
(** *** Rows that are in both lists are paired

    when no row appears twice in a list. *)
Definition distinct_rows (l : list RowInfo) : Prop :=
  Sorted.StronglySorted (fun x y => row_index x < row_index y) l.

Lemma distinct_rows_head x l : distinct_rows (x :: l) -> Forall (fun y => row_index x < row_index y) l.
Proof. by intros [_ Hl]%Sorted.StronglySorted_inv. Qed.

Lemma distinct_above x l r : Forall (fun y => x < row_index y) l -> r ∈ row_index <$> l -> x < r.
Proof. intros Hl (y & -> & Hy)%list_elem_of_fmap. rewrite Forall_forall in Hl. by apply Hl. Qed.

Lemma pair_rows_complete old new removed ins rows removed' ins' :
  Forall (fun o => tv_index o <> npos) old -> distinct_rows old -> distinct_rows new ->
  pair_rows old new removed ins = Some (rows, removed', ins') ->
  row_index <$> rows = row_index <$> new /\
  Forall (fun row => row_index row ∈ row_index <$> old -> prev_tv_index row <> npos) rows.
Proof.
  revert new removed ins rows removed' ins'. induction old as [|o old IHo]; intros new; induction new as [|n new IHn];
    intros removed ins rows removed' ins' Hnp Ho Hn.
  - intros [= <- _ _]. by split.
  - simpl. intros (i1 & E & Hp)%bind_Some.
    apply bind_Some in Hp as ([[rows1 r1] i2] & Ep & [= <- _ _]). rewrite !fmap_cons.
    apply Sorted.StronglySorted_inv in Hn as [Hn _].
    destruct (IHn removed i1 rows1 r1 i2 Hnp Ho Hn Ep) as [-> Hall].
    split; [done|]. constructor; [by intros ?%elem_of_nil|done].
  - simpl. intros (r1 & E & Hp)%bind_Some. apply Forall_cons in Hnp as [_ Hnp].
    apply Sorted.StronglySorted_inv in Ho as [Ho _].
    destruct (IHo [] r1 ins rows _ _ Hnp Ho Hn Hp) as [Er Hall]. destruct rows; [by split|done].
  - cbn [pair_rows]. pose proof (distinct_rows_head _ _ Ho) as Hho. pose proof (distinct_rows_head _ _ Hn) as Hhn.
    apply Sorted.StronglySorted_inv in Ho as [Ho Ho']. apply Sorted.StronglySorted_inv in Hn as [Hn Hn'].
    apply Forall_cons in Hnp as [Hnpo Hnp].
    destruct (Z.eqb_spec (row_index o) (row_index n)) as [Eq|Hne].
    { intros ([[rows1 r1] i1] & Ep & [= <- _ _])%bind_Some.
      destruct (IHo new removed ins rows1 _ _ Hnp Ho Hn Ep) as [Er Hall].
      rewrite !fmap_cons, Er. split; [done|]. constructor; [done|].
      apply Forall_forall. intros row Hin [Hio|Hio]%elem_of_cons; rewrite Forall_forall in Hall; [|by apply Hall].
      assert (row_index row ∈ row_index <$> new) as Hx by (rewrite <- Er; by apply list_elem_of_fmap_2).
      apply (distinct_above _ _ _ Hhn) in Hx. lia. }
    destruct (Z.ltb_spec (row_index o) (row_index n)) as [Hlt|Hge].
    + intros (r1 & E & Hp)%bind_Some.
      assert (distinct_rows (n :: new)) as Hnn by (by constructor).
      destruct (IHo (n :: new) r1 ins rows _ _ Hnp Ho Hnn Hp) as [Er Hall]. split; [done|].
      apply Forall_forall. intros row Hin [Hio|Hio]%elem_of_cons; rewrite Forall_forall in Hall; [|by apply Hall].
      assert (row_index row ∈ row_index <$> (n :: new)) as Hx by (rewrite <- Er; by apply list_elem_of_fmap_2).
      apply elem_of_cons in Hx as [?|Hx%(distinct_above _ _ _ Hhn)]; lia.
    + intros (i1 & E & Hp)%bind_Some. apply bind_Some in Hp as ([[rows1 r1] i2] & Ep & [= <- _ _]).
      destruct (IHn removed i1 rows1 r1 i2) as [Er Hall]; [by constructor|by constructor|done|done|].
      rewrite !fmap_cons, Er. split; [done|]. constructor; [|done].
      intros [Hio|Hio]%elem_of_cons; [lia|]. apply (distinct_above _ _ _ Hho) in Hio. lia.
Qed.
End pairing.

(** ** The longest common subsequence search *)
Import Calc.

(** Row [i] of the old order and row [j] of the new one are the same, and so
    are the [n] rows from there on. *)
Definition same_at (ra rb : list Z) (i j : Z) : Prop :=
  0 <= i /\ 0 <= j /\ exists x, ra !! Z.to_nat i = Some x /\ rb !! Z.to_nat j = Some x.
Definition block (ra rb : list Z) (i j n : Z) : Prop := forall t, 0 <= t < n -> same_at ra rb (i + t) (j + t).

Lemma block_snoc ra rb i j n : block ra rb i j n -> same_at ra rb (i + n) (j + n) -> block ra rb i j (n + 1).
Proof. intros Hb Hs t Ht. destruct (decide (t = n)) as [->|]; [done|]. apply Hb. lia. Qed.

(** Blocks that follow each other between two corners. *)
Fixpoint chain (ra rb : list Z) (i j : Z) (ms : list Match) (e1 e2 : Z) : Prop :=
  match ms with
  | [] => i <= e1 /\ j <= e2
  | m :: ms => i <= m_i m /\ j <= m_j m /\ 0 <= m_size m /\ block ra rb (m_i m) (m_j m) (m_size m) /\
      chain ra rb (m_i m + m_size m) (m_j m + m_size m) ms e1 e2
  end.

Lemma chain_app ra rb i j l k e1 e2 f1 f2 :
  chain ra rb i j l e1 e2 -> chain ra rb e1 e2 k f1 f2 -> chain ra rb i j (l ++ k) f1 f2.
Proof.
  revert i j. induction l as [|m l IH]; intros i j; simpl.
  - intros [Hi Hj]. destruct k as [|m k]; simpl; intuition lia.
  - intros (? & ? & ? & ? & Hl) Hk. repeat (split; [done|]). by apply IH.
Qed.

(** The rows of the new order by row index, with their positions. *)
Record indexes (b : list Row) (rb : list Z) : Prop := {
  ix_sorted : Sorted.StronglySorted by_row_then_tv b;
  ix_rows r : r ∈ b <-> 0 <= r_tv_index r /\ rb !! Z.to_nat (r_tv_index r) = Some (r_row_index r)
}.

Lemma matches_from_spec b ai begin2 end2 :
  Forall (fun j => begin2 <= j < end2 /\ mkRow ai j ∈ b) (matches_from b ai begin2 end2).
Proof.
  induction b as [|[x j] b IH]; simpl; [constructor|].
  destruct (Z.eqb_spec x ai) as [->|]; [|constructor].
  assert (Forall (fun j' => begin2 <= j' < end2 /\ mkRow ai j' ∈ mkRow ai j :: b) (matches_from b ai begin2 end2)).
  { eapply Forall_impl; [exact IH|]. intros j' [? ?]. split; [done|by right]. }
  destruct (Z.ltb_spec j begin2); [done|]. destruct (Z.leb_spec end2 j); [constructor|].
  constructor; [|done]. split; [lia|left].
Qed.

Lemma b_matches_spec b rb ai begin2 end2 :
  indexes b rb -> ai ∈ rb ->
  exists js, b_matches b ai begin2 end2 = Some js /\
    Forall (fun j => begin2 <= j < end2 /\ 0 <= j /\ rb !! Z.to_nat j = Some ai) js.
Proof.
  intros [Hs Hrows] [i Hi]%list_elem_of_lookup_1. unfold b_matches.
  assert (exists l1 l2, b = l1 ++ l2 /\ Forall (fun r => (r_row_index r <? ai) = true) l1 /\
    Forall (fun r => (r_row_index r <? ai) = false) l2) as (l1 & l2 & -> & H1 & H2).
  { clear Hrows Hi. induction Hs as [|r b Hs IH Hr]; [by exists [], []|].
    destruct IH as (l1 & l2 & -> & H1 & H2). destruct (r_row_index r <? ai) eqn:E.
    - exists (r :: l1), l2. split; [done|]. by split; [constructor|].
    - exists [], (r :: l1 ++ l2). split; [done|]. split; [constructor|]. constructor; [done|].
      apply Forall_forall. intros r' Hr'. rewrite Forall_forall in Hr. apply Hr in Hr'.
      unfold by_row_then_tv in Hr'. lia. }
  rewrite (lower_bound_app _ 0 l1 l2) by (done || lia). rewrite drop_app_length.
  assert (mkRow ai (Z.of_nat i) ∈ l1 ++ l2) as Hin.
  { apply Hrows. simpl. rewrite Nat2Z.id. split; [lia|done]. }
  apply elem_of_app in Hin as [Hin|Hin].
  { rewrite Forall_forall in H1. apply H1 in Hin. simpl in Hin. lia. }
  destruct l2 as [|r l2]; [by apply not_elem_of_nil in Hin|].
  apply Forall_cons in H2 as [Hr H2].
  assert (r_row_index r = ai) as Er.
  { apply elem_of_cons in Hin as [<-|Hin]; [done|].
    pose proof (StronglySorted_app_1_r _ _ _ Hs) as Hs'.
    apply Sorted.StronglySorted_inv in Hs' as [_ Hs']. rewrite Forall_forall in Hs'. apply Hs' in Hin.
    unfold by_row_then_tv in Hin. simpl in Hin. lia. }
  rewrite (proj2 (Z.eqb_eq _ _)) by done. eexists. split; [done|].
  eapply Forall_impl; [apply matches_from_spec|]. intros j [Hj Hin'].
  split; [done|]. apply (Hrows (mkRow ai j)). apply elem_of_app. by right.
Qed.

Section longest_match.
Context `{IndexSetLaws IS} (modified : IS) (Hmod : ix_valid modified).
Context (a b : list Row) (ra rb : list Z) (Ha : ra = r_row_index <$> a) (Hb : indexes b rb).
Context (Hsub : forall x, x ∈ ra -> x ∈ rb).
Context (begin1 end1 begin2 end2 : Z) (H1 : 0 <= begin1 <= end1) (H2 : 0 <= begin2 <= end2).
Context (Hlen : end1 <= Z.of_nat (length ra)).

(** Every entry of the table is a block that ends just before [i]. *)
Definition ends_before (i : Z) (p : Z * Z) : Prop :=
  1 <= p.2 /\ begin1 <= i - p.2 /\ begin2 <= p.1 - p.2 + 1 /\ p.1 < end2 /\
  block ra rb (i - p.2) (p.1 - p.2 + 1) p.2.

Record good (m : Match) : Prop := {
  gd_size : 0 <= m_size m;
  gd_i : begin1 <= m_i m /\ m_i m + m_size m <= end1;
  gd_j : begin2 <= m_j m /\ m_j m + m_size m <= end2;
  gd_block : block ra rb (m_i m) (m_j m) (m_size m)
}.

Lemma block_length_spec prev i j :
  Forall (ends_before i) prev -> begin1 <= i -> begin2 <= j < end2 -> same_at ra rb i j ->
  ends_before (i + 1) (j, block_length prev j).
Proof.
  intros Hp Hi Hj Hs. unfold block_length. destruct (list_find _ prev) as [[k p]|] eqn:E.
  - apply list_find_Some in E as (Hk & Heq & _). rewrite Forall_lookup in Hp.
    destruct (Hp _ _ Hk) as (Hl & Hb1 & Hb2 & _ & Hbl). unfold ends_before. simpl.
    do 4 (split; [lia|]). replace (i + 1 - (p.2 + 1)) with (i - p.2) by lia.
    replace (j - (p.2 + 1) + 1) with (p.1 - p.2 + 1) by lia. apply block_snoc; [done|].
    by replace (i - p.2 + p.2) with i by lia; replace (p.1 - p.2 + 1 + p.2) with j by lia.
  - unfold ends_before. simpl. do 4 (split; [lia|]). intros t Ht.
    by replace (i + 1 - 1 + t) with i by lia; replace (j - 1 + 1 + t) with j by lia.
Qed.

Lemma good_of_end i j size mo :
  ends_before (i + 1) (j, size) -> i < end1 -> good (mkMatch (i - size + 1) (j - size + 1) size mo).
Proof.
  intros (? & ? & ? & ? & Hbl) Hi. simpl in *. split; simpl; [lia|lia|lia|].
  by replace (i - size + 1) with (i + 1 - size) by lia.
Qed.

Lemma good_asserts m : good m ->
  realm_assert ((begin1 <=? m_i m) && (m_i m + m_size m <=? end1)) = Some tt /\
  realm_assert ((begin2 <=? m_j m) && (m_j m + m_size m <=? end2)) = Some tt.
Proof. intros [_ Hi Hj _]. unfold realm_assert. split; by rewrite !(proj2 (Z.leb_le _ _)) by lia. Qed.

Lemma match_step_spec prev i j cur best :
  Forall (ends_before i) prev -> begin1 <= i < end1 -> begin2 <= j < end2 -> same_at ra rb i j ->
  Forall (ends_before (i + 1)) cur -> good best ->
  exists cur' best', match_step modified prev begin1 end1 begin2 end2 i (cur, best) j = Some (cur', best') /\
    Forall (ends_before (i + 1)) cur' /\ good best'.
Proof.
  intros Hp Hi Hj Hs Hc Hg. pose proof (block_length_spec prev i j Hp ltac:(lia) Hj Hs) as He.
  pose proof (fun mo => good_of_end i j _ mo He ltac:(lia)) as Hnew. unfold match_step.
  set (size := block_length prev j) in *.
  match goal with |- context [mbind _ (if m_size best <? size then ?x else ?y)] =>
    assert (exists best', (if m_size best <? size then x else y) = Some best' /\ good best') as (best' & E & Hg') end.
  { destruct (m_size best <? size); [by eexists|]. destruct (size =? m_size best); [|by eexists].
    assert (exists c, (if m_modified best =? npos
        then ix_count modified (size_wrap (m_j best - size + 1)) (m_j best + 1)
        else Some (m_modified best)) = Some c) as [c Ec].
    { destruct (_ =? _); [by apply ix_count_total|by eexists]. }
    rewrite Ec. cbn [mbind option_bind].
    destruct (ix_count_total modified (size_wrap (j - size + 1)) (j + 1) Hmod) as [n En]. rewrite En.
    cbn [mbind option_bind]. destruct (n <? c); [by eexists|]. eexists. split; [done|]. by destruct Hg. }
  rewrite E. cbn [mbind option_bind]. destruct (good_asserts _ Hg') as [-> ->]. cbn [mbind option_bind].
  exists (cur ++ [(j, size)]), best'. split; [done|]. split; [|done]. apply Forall_app. by split; [|constructor].
Qed.

Lemma row_step_spec prev best i :
  Forall (ends_before i) prev -> good best -> begin1 <= i < end1 ->
  exists cur best', row_step modified a b begin1 end1 begin2 end2 (prev, best) i = Some (cur, best') /\
    Forall (ends_before (i + 1)) cur /\ good best'.
Proof.
  intros Hp Hg Hi. unfold row_step.
  destruct (lookup_lt_is_Some_2 a (Z.to_nat i)) as [r Hr].
  { rewrite Ha, length_fmap in Hlen. lia. }
  rewrite Hr. cbn [mbind option_bind].
  assert (ra !! Z.to_nat i = Some (r_row_index r)) as Hra by (by rewrite Ha, list_lookup_fmap, Hr).
  destruct (b_matches_spec b rb (r_row_index r) begin2 end2 Hb) as (js & E & Hjs).
  { eapply Hsub, list_elem_of_lookup_2, Hra. }
  rewrite E. cbn [mbind option_bind].
  destruct (fold_option_rule (match_step modified prev begin1 end1 begin2 end2 i)
    (fun _ s => Forall (ends_before (i + 1)) s.1 /\ good s.2) js ([], best)) as ([cur best'] & Ef & Hcur & Hbest).
  - by split.
  - intros pre j post [cur best1] -> [Hcur Hbest]. apply Forall_app in Hjs as [_ [(Hj & Hj0 & Hjx) _]%Forall_cons].
    destruct (match_step_spec prev i j cur best1) as (cur' & best' & Es & ? & ?); [done..| |done|done|].
    { split; [lia|]. split; [done|]. by exists (r_row_index r). }
    exists (cur', best'). split; [exact Es|]. by split.
  - exists cur, best'. rewrite Ef. by split.
Qed.

Lemma find_longest_match_spec :
  exists m, find_longest_match modified a b begin1 end1 begin2 end2 = Some m /\ good m.
Proof.
  unfold find_longest_match.
  destruct (fold_option_rule (row_step modified a b begin1 end1 begin2 end2)
    (fun pre s => Forall (ends_before (begin1 + Z.of_nat (length pre))) s.1 /\ good s.2)
    (seqZ begin1 (end1 - begin1)) ([], mkMatch begin1 begin2 0 0)) as ([cur best] & E & _ & Hg).
  - split; [constructor|]. split; simpl; [lia..|]. intros t Ht. lia.
  - intros pre i post [prev best] Hsplit [Hp Hg].
    assert (i = begin1 + Z.of_nat (length pre) /\ Z.of_nat (length pre) < end1 - begin1) as [-> Hl].
    { assert (seqZ begin1 (end1 - begin1) !! length pre = Some i) as Hi by (rewrite Hsplit; by apply list_lookup_middle).
      apply lookup_seqZ in Hi. lia. }
    destruct (row_step_spec prev best _ Hp Hg) as (cur & best' & Es & Hcur & Hbest); [lia|].
    exists (cur, best'). split; [exact Es|]. split; [|done].
    rewrite length_app. simpl in *. by replace (begin1 + Z.of_nat (length pre + 1)) with (begin1 + Z.of_nat (length pre) + 1) by lia.
  - rewrite E. by exists best.
Qed.
End longest_match.

Section longest_matches.
Context `{IndexSetLaws IS} (modified : IS) (Hmod : ix_valid modified).
Context (a b : list Row) (ra rb : list Z) (Ha : ra = r_row_index <$> a) (Hb : indexes b rb).
Context (Hsub : forall x, x ∈ ra -> x ∈ rb).

(** As much fuel as there are rows of [a] to search is enough. *)
Lemma find_longest_matches_spec fuel begin1 end1 begin2 end2 :
  0 <= begin1 <= end1 -> 0 <= begin2 <= end2 -> end1 <= Z.of_nat (length ra) ->
  end1 - begin1 < Z.of_nat fuel ->
  exists ms, find_longest_matches modified a b fuel begin1 end1 begin2 end2 = Some ms /\
    chain ra rb begin1 begin2 ms end1 end2.
Proof.
  revert begin1 end1 begin2 end2.
  induction fuel as [|fuel IH]; intros begin1 end1 begin2 end2 H1 H2 Hlen Hf; [lia|]. cbn [find_longest_matches].
  destruct (find_longest_match_spec modified Hmod a b ra rb Ha Hb Hsub begin1 end1 begin2 end2 H1 H2 Hlen)
    as (m & -> & [Hs Hi Hj Hbl]). cbn [mbind option_bind].
  destruct (Z.eqb_spec (m_size m) 0) as [E0|Hne]; [exists []; split; [done|simpl; lia]|].
  assert (exists left, (if (begin1 <? m_i m) && (begin2 <? m_j m)
    then find_longest_matches modified a b fuel begin1 (m_i m) begin2 (m_j m) else Some []) = Some left /\
    chain ra rb begin1 begin2 left (m_i m) (m_j m)) as (left & -> & Hleft).
  { destruct (_ && _); [apply IH; lia|]. exists []. split; [done|]. simpl. lia. }
  cbn [mbind option_bind].
  assert (exists right, (if (m_i m + m_size m <? end2) && (m_j m + m_size m <? end2)
    then find_longest_matches modified a b fuel (m_i m + m_size m) end1 (m_j m + m_size m) end2
    else Some []) = Some right /\
    chain ra rb (m_i m + m_size m) (m_j m + m_size m) right end1 end2) as (right & -> & Hright).
  { destruct (_ && _); [apply IH; lia|]. exists []. split; [done|]. simpl. lia. }
  cbn [mbind option_bind]. exists (left ++ m :: right). split; [done|].
  eapply chain_app; [exact Hleft|]. simpl. do 3 (split; [lia|]). by split.
Qed.

Lemma longest_matches_spec start :
  0 <= start <= Z.of_nat (length ra) -> length b = length ra ->
  exists ms, longest_matches modified a b start = Some ms /\
    exists ms', ms = ms' ++ [mkMatch (Z.of_nat (length ra)) (Z.of_nat (length ra)) 0 0] /\
      chain ra rb start start ms' (Z.of_nat (length ra)) (Z.of_nat (length ra)).
Proof.
  intros Hst Hl. unfold longest_matches. rewrite Hl.
  assert (length a = length ra) as -> by (by rewrite Ha, length_fmap).
  destruct (find_longest_matches_spec (S (length ra)) start (Z.of_nat (length ra)) start (Z.of_nat (length ra)))
    as (ms & -> & Hc); [lia..|]. cbn [mbind option_bind]. eexists. split; [done|]. by exists ms.
Qed.
End longest_matches.
