(* ===== verification/MoveDetection.v ===== *)
(** * Move detection

    Both ways of deciding which of the paired rows stay where they are: the
    search for common subsequences and the scan for tables in table order.
    [reordered] is the contract they share. *)
From stdpp Require Import gmap sorting.
From S2P Require Import Prelude.
From S2P Require Import RangeList.
From S2P Require Import IndexSets.
From S2P Require Import IndexSetInterface.
From S2P Require Import ChangeBuilder.
From S2P Require Import ChangeCalc.
From S2P Require Import ApplyChanges.
From S2P Require Import LongestMatch.
Import Calc.

(** ** Increasing lists *)
Lemma sorted_increasing lo l :
  Sorted.StronglySorted Z.le l -> NoDup l -> Forall (fun x => lo < x) l -> increasing lo l.
Proof.
  intros Hs. revert lo. induction Hs as [|x l Hs IH Hx]; intros lo Hnd Hlo; [done|].
  apply NoDup_cons in Hnd as [Hnin Hnd]. apply Forall_cons in Hlo as [? _]. split; [done|].
  apply IH; [done|]. apply Forall_forall. intros y Hy. rewrite Forall_forall in Hx.
  specialize (Hx y Hy). destruct (decide (x = y)) as [->|]; [done|lia].
Qed.

Lemma increasing_lookup lo l i j x y :
  increasing lo l -> l !! i = Some x -> l !! j = Some y -> (i < j)%nat -> x < y.
Proof.
  revert lo i j. induction l as [|z l IH]; intros lo i j Hl Hi Hj Hlt; [done|]. destruct Hl as [_ Hl].
  destruct j as [|j]; [lia|]. destruct i as [|i]; simpl in *; [|eapply IH; [exact Hl|done|done|lia]].
  injection Hi as ->. apply increasing_bound in Hl. rewrite Forall_forall in Hl. apply Hl.
  by eapply list_elem_of_lookup_2.
Qed.

Lemma increasing_NoDup lo l : increasing lo l -> NoDup l.
Proof.
  revert lo. induction l as [|x l IH]; intros lo; [constructor|]. intros [_ Hl]. constructor; [|by eapply IH].
  intros Hin. apply increasing_bound in Hl. rewrite Forall_forall in Hl. apply Hl in Hin. lia.
Qed.

Lemma elem_of_pick l ks x : x ∈ pick 0 l ks <-> exists t, t ∈ ks /\ l !! Z.to_nat t = Some x.
Proof.
  unfold pick. rewrite list_elem_of_omap. setoid_rewrite Z.sub_0_r. done.
Qed.

Lemma increasing_pick lo l k ks :
  increasing lo l -> increasing k ks -> -1 <= k ->
  (forall x, 0 <= k -> l !! Z.to_nat k = Some x -> lo <= x) ->
  forall lo', (forall t x, k < t -> l !! Z.to_nat t = Some x -> lo' < x) -> increasing lo' (pick 0 l ks).
Proof.
  intros Hl. revert k. induction ks as [|t ks IH]; intros k Hks Hk Hlo lo' Hlo'; [done|].
  destruct Hks as [Ht Hks]. unfold pick. cbn [omap list_omap]. rewrite Z.sub_0_r. fold (pick 0 l ks).
  destruct (l !! Z.to_nat t) as [x|] eqn:E.
  - split; [by apply (Hlo' t)|]. apply (IH t); [done|lia| |].
    + intros y _ Hy. apply increasing_bound in Hl. rewrite Forall_forall in Hl.
      specialize (Hl y ltac:(by eapply list_elem_of_lookup_2)). lia.
    + intros t' y Ht' Hy. eapply (increasing_lookup _ _ (Z.to_nat t) (Z.to_nat t')); [exact Hl|done|done|lia].
  - apply (IH t); [done|lia| |].
    + intros y _ Hy. congruence.
    + intros t' y Ht' Hy. apply (Hlo' t'); [lia|done].
Qed.

Lemma pick_increasing lo l ks : increasing lo l -> increasing (-1) ks -> increasing lo (pick 0 l ks).
Proof.
  intros Hl Hks. apply (increasing_pick lo l (-1) ks Hl Hks); [lia|lia|].
  intros t x _ Hx. apply increasing_bound in Hl. rewrite Forall_forall in Hl. apply Hl.
  by eapply list_elem_of_lookup_2.
Qed.

(** [ps] and [ns]: the old and new positions of the rows that stay; the other
    rows' positions are added to the deletions and the insertions. *)
Record reordered `{IndexSetLaws IS} (rows : list RowInfo) (del ins del' ins' : IS) (ps ns : list Z) : Prop := {
  re_del : ix_valid del';
  re_ins : ix_valid ins';
  re_old : increasing (-1) ps;
  re_new : increasing (-1) ns;
  re_deleted x : ix_has del' x <-> ix_has del x \/ (x ∈ prev_tv_index <$> rows /\ x ∉ ps);
  re_inserted x : ix_has ins' x <-> ix_has ins x \/ (x ∈ tv_index <$> rows /\ x ∉ ns);
  re_same : Forall2 (fun p n => exists r1 r2, r1 ∈ rows /\ r2 ∈ rows /\ prev_tv_index r1 = p /\ tv_index r2 = n /\
    row_index r1 = row_index r2) ps ns
}.

(** Paired rows as [calculate] passes them on: in the order of the new list. *)
Record paired_rows (rows : list RowInfo) : Prop := {
  pr_new : increasing (-1) (tv_index <$> rows);
  pr_old : NoDup (prev_tv_index <$> rows);
  pr_nonneg : Forall (fun row => 0 <= prev_tv_index row) rows
}.

(** ** The sorted case *)
Section sorted.
Context `{IndexSetLaws IS} {ST : StdSort}.
Implicit Types (s del ins modified : IS) (rows : list RowInfo).

Lemma add_between_spec s v i stop :
  ix_valid s -> Forall (fun x => 0 <= x) v -> 0 <= i -> stop <= Z.of_nat (length v) ->
  exists s', add_between s v i stop = Some s' /\ ix_valid s' /\
    forall x, ix_has s' x <-> ix_has s x \/ exists t, i <= t < stop /\ v !! Z.to_nat t = Some x.
Proof.
  intros Hs Hv Hi Hstop. unfold add_between.
  destruct (fold_option_rule (fun (s : IS) i => x ← v !! Z.to_nat i; ix_add s x)
    (fun pre s' => ix_valid s' /\
      forall x, ix_has s' x <-> ix_has s x \/ exists t, t ∈ pre /\ v !! Z.to_nat t = Some x)
    (seqZ i (stop - i)) s) as (s' & E & Hs' & Hm).
  - split; [done|]. intros x. split; [by left|]. intros [|(t & []%not_elem_of_nil & _)]. done.
  - intros pre t post s1 Hsplit [Hs1 Hm1].
    assert (t ∈ seqZ i (stop - i)) as Ht%elem_of_seqZ by (rewrite Hsplit; apply elem_of_app; right; left).
    destruct (lookup_lt_is_Some_2 v (Z.to_nat t)) as [y Hy]; [lia|]. rewrite Hy. cbn [mbind option_bind].
    assert (0 <= y) by (rewrite Forall_forall in Hv; apply Hv; by eapply list_elem_of_lookup_2).
    destruct (ix_add_has s1 y Hs1 ltac:(done)) as (s2 & E2 & Hs2 & Hm2).
    exists s2. split; [done|]. split; [done|]. intros x. rewrite Hm2, Hm1.
    setoid_rewrite elem_of_app. setoid_rewrite list_elem_of_singleton. split.
    + intros [->|[?|(t' & ? & ?)]]; [right; exists t; auto|by left|right; exists t'; auto].
    + intros [?|(t' & [?| ->] & Ht')]; [auto|right; right; eauto|left; congruence].
  - exists s'. split; [exact E|]. split; [done|]. intros x. rewrite Hm. setoid_rewrite elem_of_seqZ.
    by replace (i + (stop - i)) with stop by lia.
Qed.

(** The two orders of the rows. *)
Lemma old_order_perm rows : old_order rows ≡ₚ (fun row => mkRow (row_index row) (prev_tv_index row)) <$> rows.
Proof. apply std_sort_perm. Qed.

#[local] Instance by_tv_then_row_total : Total by_tv_then_row.
Proof. intros x y. unfold by_tv_then_row. lia. Qed.
#[local] Instance by_tv_then_row_trans : Transitive by_tv_then_row.
Proof. intros x y z. unfold by_tv_then_row. lia. Qed.
#[local] Instance by_row_then_tv_total : Total by_row_then_tv.
Proof. intros x y. unfold by_row_then_tv. lia. Qed.
#[local] Instance by_row_then_tv_trans : Transitive by_row_then_tv.
Proof. intros x y z. unfold by_row_then_tv. lia. Qed.

Lemma sorted_tv l :
  Sorted.StronglySorted by_tv_then_row l -> Sorted.StronglySorted Z.le (r_tv_index <$> l).
Proof.
  induction 1 as [|x l Hs IH Hx]; [constructor|]. simpl. constructor; [done|].
  apply Forall_fmap. eapply Forall_impl; [exact Hx|]. intros y. unfold by_tv_then_row. simpl. lia.
Qed.

Lemma old_order_increasing rows :
  paired_rows rows -> increasing (-1) (r_tv_index <$> old_order rows).
Proof.
  intros [_ Hnd Hnn]. pose proof (old_order_perm rows) as Hp.
  assert (r_tv_index <$> old_order rows ≡ₚ prev_tv_index <$> rows) as Hp'.
  { rewrite Hp, <- list_fmap_compose. done. }
  apply sorted_increasing.
  - apply sorted_tv, (Sorted.Sorted_StronglySorted (R := by_tv_then_row) by_tv_then_row_trans).
    apply std_sort_sorted, _.
  - by rewrite Hp'.
  - rewrite Hp'. apply Forall_fmap. eapply Forall_impl; [exact Hnn|]. simpl. lia.
Qed.

Lemma new_order_indexes rows : indexes (new_order rows) (row_index <$> rows).
Proof.
  split.
  - apply Sorted.Sorted_StronglySorted; [exact by_row_then_tv_trans|]. apply std_sort_sorted, _.
  - intros [x j]. unfold new_order. rewrite std_sort_perm, elem_of_lookup_imap. simpl. split.
    + intros (i & row & [= -> ->] & Hi). split; [lia|]. by rewrite Nat2Z.id, list_lookup_fmap, Hi.
    + intros [Hj Hx]. rewrite list_lookup_fmap in Hx. destruct (rows !! Z.to_nat j) as [row|] eqn:E; [|done].
      injection Hx as <-. exists (Z.to_nat j), row. split; [|done]. f_equal. lia.
Qed.
(** What the alignment loop adds, seen from the positions [K] it keeps: the
    positions from [i] on that are not in [K]. *)
Definition skipped (v : list Z) (i i' : Z) (kept : list Z) s s' : Prop :=
  ix_valid s' /\ forall x, ix_has s' x <-> ix_has s x \/
    exists t, i <= t < i' /\ (t ∉ kept) /\ v !! Z.to_nat t = Some x.

Lemma skipped_step v i k n i' kept s s1 s2 :
  i <= k -> 0 <= n -> k + n <= i' -> increasing (k + n - 1) kept ->
  (forall x, ix_has s1 x <-> ix_has s x \/ exists t, i <= t < k /\ v !! Z.to_nat t = Some x) ->
  skipped v (k + n) i' kept s1 s2 -> skipped v i i' (seqZ k n ++ kept) s s2.
Proof.
  intros Hi Hn Hi' Hinc H1 [Hv H2]. split; [done|]. intros x. rewrite H2, H1.
  assert (Hk : forall t, t ∈ kept -> k + n - 1 < t).
  { intros t Ht. apply increasing_bound in Hinc. rewrite Forall_forall in Hinc. by apply Hinc. }
  setoid_rewrite not_elem_of_app. setoid_rewrite elem_of_seqZ. split.
  - intros [[?|(t & ? & ?)]|(t & ? & ? & ?)]; [by left| |].
    + right. exists t. split; [lia|]. split; [|done]. split; [lia|]. intros Ht%Hk. lia.
    + right. exists t. split; [lia|]. split; [|done]. split; [lia|done].
  - intros [?|(t & Ht & [Hs Hnk] & ?)]; [auto|]. destruct (decide (t < k)).
    + left. right. exists t. split; [lia|done].
    + right. exists t. split; [lia|done].
Qed.

Definition last_i (ms : list Match) (i : Z) : Z := foldl (fun _ m => m_i m + m_size m) i ms.
Definition last_j (ms : list Match) (j : Z) : Z := foldl (fun _ m => m_j m + m_size m) j ms.

Lemma last_bounds ra rb i j ms e1 e2 :
  chain ra rb i j ms e1 e2 -> i <= last_i ms i <= e1 /\ j <= last_j ms j <= e2.
Proof.
  unfold last_i, last_j. revert i j. induction ms as [|m ms IH]; intros i j; simpl; [lia|].
  intros (? & ? & ? & _ & Hc). apply IH in Hc. lia.
Qed.

Lemma seqZ_block ra rb i j n :
  block ra rb i j n -> Forall2 (same_at ra rb) (seqZ i n) (seqZ j n).
Proof.
  intros Hb. apply Forall2_same_length_lookup. split; [by rewrite !length_seqZ|].
  intros k x y [-> Hk]%lookup_seqZ [-> _]%lookup_seqZ. apply Hb. lia.
Qed.

Lemma align_step_eq ta tb i j del ins m d1 i1 :
  i <= m_i m -> j <= m_j m -> add_between del ta i (m_i m) = Some d1 -> add_between ins tb j (m_j m) = Some i1 ->
  align_step ta tb (i, j, del, ins) m = Some (m_i m + m_size m, m_j m + m_size m, d1, i1).
Proof.
  intros Hi Hj E1 E2. unfold align_step. rewrite E1. cbn [mbind option_bind]. rewrite E2.
  cbn [mbind option_bind]. by rewrite !Z.max_r by lia.
Qed.

Lemma align_spec ra rb ta tb ms i j e1 e2 del ins :
  chain ra rb i j ms e1 e2 -> 0 <= i -> 0 <= j ->
  e1 <= Z.of_nat (length ta) -> e2 <= Z.of_nat (length tb) ->
  Forall (fun x => 0 <= x) ta -> Forall (fun x => 0 <= x) tb -> ix_valid del -> ix_valid ins ->
  exists del' ins' ki kj,
    fold_option (align_step ta tb) ms (i, j, del, ins) = Some (last_i ms i, last_j ms j, del', ins') /\
    increasing (i - 1) ki /\ increasing (j - 1) kj /\ Forall2 (same_at ra rb) ki kj /\
    skipped ta i (last_i ms i) ki del del' /\ skipped tb j (last_j ms j) kj ins ins'.
Proof.
  intros Hc Hi Hj He1 He2 Hta Htb. revert i j del ins Hc Hi Hj.
  induction ms as [|m ms IH]; intros i j del ins Hc Hi Hj Hd Hins.
  - exists del, ins, [], []. split; [done|]. split; [done|]. split; [done|]. split; [constructor|].
    split; (split; [done|]); intros x; simpl; (split; [by left|]); intros [|(t & ? & _)]; (done || lia).
  - destruct Hc as (Hmi & Hmj & Hn & Hbl & Hc). pose proof (last_bounds _ _ _ _ _ _ _ Hc) as [Hli Hlj].
    destruct (add_between_spec del ta i (m_i m) Hd Hta Hi ltac:(lia)) as (d1 & E1 & Hd1 & Hm1).
    destruct (add_between_spec ins tb j (m_j m) Hins Htb Hj ltac:(lia)) as (i1 & E2 & Hi1 & Hm2).
    destruct (IH _ _ d1 i1 Hc) as (del' & ins' & ki & kj & E & Hki & Hkj & Hsame & Hsd & Hsi); [lia|lia|done|done|].
    exists del', ins', (seqZ (m_i m) (m_size m) ++ ki), (seqZ (m_j m) (m_size m) ++ kj).
    split; [|split; [|split; [|split; [|split]]]].
    + cbn [fold_option]. rewrite (align_step_eq _ _ _ _ _ _ _ _ _ Hmi Hmj E1 E2). exact E.
    + apply (increasing_app _ (m_i m + m_size m - 1)); [apply seqZ_increasing; lia|lia| |done].
      apply Forall_forall. intros x Hx%elem_of_seqZ. lia.
    + apply (increasing_app _ (m_j m + m_size m - 1)); [apply seqZ_increasing; lia|lia| |done].
      apply Forall_forall. intros x Hx%elem_of_seqZ. lia.
    + apply Forall2_app; [by apply seqZ_block|done].
    + eapply skipped_step; [done|done|apply Hli|done|exact Hm1|exact Hsd].
    + eapply skipped_step; [done|done|apply Hlj|done|exact Hm2|exact Hsi].
Qed.
(** The positions before the first difference match. *)
Lemma first_difference_block a rows :
  let k := first_difference a rows in
  (k <= length (zip a rows))%nat /\ block (r_row_index <$> a) (row_index <$> rows) 0 0 (Z.of_nat k).
Proof.
  intros k. unfold k, first_difference.
  destruct (find_if_split (fun p : Row * RowInfo => negb (r_row_index p.1 =? row_index p.2)) (zip a rows))
    as (l1 & l2 & E & -> & H1 & _).
  split; [rewrite E, length_app; lia|]. intros t Ht. rewrite !Z.add_0_l. split; [lia|]. split; [lia|].
  destruct (lookup_lt_is_Some_2 l1 (Z.to_nat t)) as [[x y] Hxy]; [lia|].
  rewrite Forall_lookup in H1. specialize (H1 _ _ Hxy). simpl in H1.
  assert (zip a rows !! Z.to_nat t = Some (x, y)) as Hz by (rewrite E, lookup_app_l; [done|lia]).
  apply lookup_zip_with_Some in Hz as (x' & y' & [= <- <-] & Hx & Hy).
  exists (r_row_index x). rewrite !list_lookup_fmap, Hx, Hy. split; [done|]. simpl. f_equal.
  apply negb_false_iff, Z.eqb_eq in H1. done.
Qed.

(** Positions in the two orders, as rows. *)
Lemma pick_rows rows ki kj :
  Forall2 (same_at (r_row_index <$> old_order rows) (row_index <$> rows)) ki kj ->
  Forall2 (fun p n => exists r1 r2, r1 ∈ rows /\ r2 ∈ rows /\ prev_tv_index r1 = p /\ tv_index r2 = n /\
    row_index r1 = row_index r2)
    (pick 0 (r_tv_index <$> old_order rows) ki) (pick 0 (tv_index <$> rows) kj).
Proof.
  unfold pick. induction 1 as [|i j ki kj (Hi & Hj & x & Hx & Hy) _ IH]; [constructor|].
  cbn [omap list_omap]. rewrite !Z.sub_0_r, !list_lookup_fmap in *.
  destruct (old_order rows !! Z.to_nat i) as [row|] eqn:Er; [|done].
  destruct (rows !! Z.to_nat j) as [r2|] eqn:E2; [|done]. simpl in Hx, Hy |- *.
  injection Hx as <-. injection Hy as Hy. constructor; [|exact IH].
  assert (row ∈ old_order rows) as Hin by (by eapply list_elem_of_lookup_2).
  rewrite old_order_perm in Hin. apply list_elem_of_fmap in Hin as (r1 & -> & Hr1).
  exists r1, r2. split; [done|]. split; [by eapply list_elem_of_lookup_2|]. done.
Qed.

Lemma skipped_all v w s s' kept :
  w ≡ₚ v -> NoDup v -> skipped v 0 (Z.of_nat (length v)) kept s s' ->
  increasing (-1) kept ->
  forall x, ix_has s' x <-> ix_has s x \/ (x ∈ w /\ x ∉ pick 0 v kept).
Proof.
  intros Hp Hnd [_ Hs] Hk x. rewrite Hs, Hp, elem_of_pick. f_equiv. split.
  - intros (t & Ht & Hn & Hx). split; [by eapply list_elem_of_lookup_2|].
    intros (t' & Ht' & Hx'). assert (Z.to_nat t = Z.to_nat t') by (by eapply NoDup_lookup).
    apply increasing_bound in Hk. rewrite Forall_forall in Hk. specialize (Hk _ Ht').
    assert (t = t') by lia. by subst.
  - intros [[i Hi]%list_elem_of_lookup_1 Hn]. exists (Z.of_nat i). rewrite Nat2Z.id.
    pose proof (lookup_lt_Some _ _ _ Hi). split; [lia|]. split; [|done].
    intros Hin. apply Hn. exists (Z.of_nat i). by rewrite Nat2Z.id.
Qed.

Lemma reorder rows del ins del' ins' ki kj :
  paired_rows rows -> increasing (-1) ki -> increasing (-1) kj ->
  Forall2 (same_at (r_row_index <$> old_order rows) (row_index <$> rows)) ki kj ->
  skipped (r_tv_index <$> old_order rows) 0 (Z.of_nat (length rows)) ki del del' ->
  skipped (tv_index <$> rows) 0 (Z.of_nat (length rows)) kj ins ins' ->
  reordered rows del ins del' ins' (pick 0 (r_tv_index <$> old_order rows) ki) (pick 0 (tv_index <$> rows) kj).
Proof.
  intros Hr Hki Hkj Hsame Hd Hi. pose proof (old_order_increasing rows Hr) as Hinc.
  assert (r_tv_index <$> old_order rows ≡ₚ prev_tv_index <$> rows) as Hp.
  { rewrite old_order_perm, <- list_fmap_compose. done. }
  split.
  - apply Hd.
  - apply Hi.
  - by apply pick_increasing.
  - apply pick_increasing; [apply Hr|done].
  - apply skipped_all; [done|by eapply increasing_NoDup| |done]. by rewrite (Permutation_length Hp), length_fmap.
  - apply skipped_all; [done|eapply increasing_NoDup, Hr| |done]. by rewrite length_fmap.
  - by apply pick_rows.
Qed.

Lemma reorder_after rows (k : nat) del ins del' ins' ki kj :
  paired_rows rows -> (k <= length rows)%nat ->
  block (r_row_index <$> old_order rows) (row_index <$> rows) 0 0 (Z.of_nat k) ->
  increasing (Z.of_nat k - 1) ki -> increasing (Z.of_nat k - 1) kj ->
  Forall2 (same_at (r_row_index <$> old_order rows) (row_index <$> rows)) ki kj ->
  skipped (r_tv_index <$> old_order rows) (Z.of_nat k) (Z.of_nat (length rows)) ki del del' ->
  skipped (tv_index <$> rows) (Z.of_nat k) (Z.of_nat (length rows)) kj ins ins' ->
  exists ps ns, reordered rows del ins del' ins' ps ns.
Proof.
  intros Hr Hk Hbl Hki Hkj Hsame Hd Hi.
  assert (Hinc : forall l, increasing (Z.of_nat k - 1) l -> increasing (-1) (seqZ 0 (Z.of_nat k) ++ l)).
  { intros l Hl. apply (increasing_app _ (Z.of_nat k - 1)); [apply seqZ_increasing; lia|lia| |done].
    apply Forall_forall. intros x Hx%elem_of_seqZ. lia. }
  assert (Hnone : forall (v : list Z) s x, ix_has s x <-> ix_has s x \/ exists t, 0 <= t < 0 /\ v !! Z.to_nat t = Some x).
  { intros v s x. split; [by left|]. intros [|(t & ? & _)]; [done|lia]. }
  eexists _, _. apply (reorder _ _ _ _ _ _ _ Hr (Hinc _ Hki) (Hinc _ Hkj)).
  - apply Forall2_app; [by apply seqZ_block|done].
  - eapply (skipped_step _ 0 0 _ _ _ del del); [lia|lia|lia|done|apply Hnone|exact Hd].
  - eapply (skipped_step _ 0 0 _ _ _ ins ins); [lia|lia|lia|done|apply Hnone|exact Hi].
Qed.

Lemma skipped_nothing v i s : ix_valid s -> skipped v i i [] s s.
Proof. intros Hs. split; [done|]. intros x. split; [by left|]. intros [|(t & ? & _)]; [done|lia]. Qed.

Lemma length_old_order rows : length (old_order rows) = length rows.
Proof. pose proof (Permutation_length (old_order_perm rows)) as E. by rewrite length_fmap in E. Qed.

Lemma positions_nonneg l : increasing (-1) l -> Forall (fun x => 0 <= x) l.
Proof. intros Hl%increasing_bound. eapply Forall_impl; [exact Hl|]. simpl. lia. Qed.

(** The search on the two orders, followed by the alignment *)
Lemma align_orders rows modified (k : nat) del ins :
  paired_rows rows -> (k <= length rows)%nat -> ix_valid modified -> ix_valid del -> ix_valid ins ->
  let a := old_order rows in
  exists ms i j del' ins' ki kj,
    longest_matches modified a (new_order rows) (Z.of_nat k) = Some ms /\
    fold_option (align_step (r_tv_index <$> a) (tv_index <$> rows)) ms (Z.of_nat k, Z.of_nat k, del, ins)
      = Some (i, j, del', ins') /\
    increasing (Z.of_nat k - 1) ki /\ increasing (Z.of_nat k - 1) kj /\
    Forall2 (same_at (r_row_index <$> a) (row_index <$> rows)) ki kj /\
    skipped (r_tv_index <$> a) (Z.of_nat k) (Z.of_nat (length rows)) ki del del' /\
    skipped (tv_index <$> rows) (Z.of_nat k) (Z.of_nat (length rows)) kj ins ins'.
Proof.
  intros Hr Hk Hm Hd Hi a. set (ra := r_row_index <$> a). set (rb := row_index <$> rows).
  assert (length ra = length rows) as Hl by (unfold ra, a; by rewrite length_fmap, length_old_order).
  destruct (longest_matches_spec modified Hm a (new_order rows) ra rb eq_refl (new_order_indexes rows))
    with (start := Z.of_nat k) as (ms & E & ms' & -> & Hc).
  { intros x Hx. unfold ra, a in Hx. rewrite old_order_perm, <- list_fmap_compose in Hx. exact Hx. }
  { lia. }
  { unfold new_order. rewrite (Permutation_length (std_sort_perm _ _)), length_imap. done. }
  set (n := Z.of_nat (length ra)) in *.
  assert (chain ra rb (Z.of_nat k) (Z.of_nat k) (ms' ++ [mkMatch n n 0 0]) n n) as Hc'.
  { eapply chain_app; [exact Hc|]. simpl. do 3 (split; [lia|]). split; [intros t Ht; lia|lia]. }
  destruct (align_spec ra rb (r_tv_index <$> a) (tv_index <$> rows) _ _ _ _ _ del ins Hc')
    as (del' & ins' & ki & kj & Ea & Hki & Hkj & Hsame & Hsd & Hsi); try lia; try done.
  { rewrite length_fmap. unfold a. rewrite length_old_order. lia. }
  { rewrite length_fmap. lia. }
  { apply positions_nonneg, old_order_increasing, Hr. }
  { apply positions_nonneg, Hr. }
  assert (last_i (ms' ++ [mkMatch n n 0 0]) (Z.of_nat k) = Z.of_nat (length rows) /\
    last_j (ms' ++ [mkMatch n n 0 0]) (Z.of_nat k) = Z.of_nat (length rows)) as [Eli Elj].
  { unfold last_i, last_j. rewrite !foldl_app. simpl. unfold n. lia. }
  rewrite Eli in Hsd. rewrite Elj in Hsi. by eexists _, _, _, del', ins', ki, kj.
Qed.

Lemma calculate_moves_sorted_spec rows modified del ins :
  paired_rows rows -> ix_valid modified -> ix_valid del -> ix_valid ins ->
  exists del' ins' ps ns, calculate_moves_sorted rows modified del ins = Some (del', ins') /\
    reordered rows del ins del' ins' ps ns.
Proof.
  intros Hr Hm Hd Hi. unfold calculate_moves_sorted.
  destruct (first_difference_block (old_order rows) rows) as [Hk Hbl].
  assert (length (zip (old_order rows) rows) = length rows) as Hlz
    by (rewrite length_zip_with, length_old_order; lia).
  set (k := first_difference (old_order rows) rows) in *. rewrite Hlz in *.
  destruct (Nat.eqb_spec k (length rows)) as [Ek|_].
  - destruct (reorder_after rows k del ins del ins [] []) as (ps & ns & Hre); [done|done|done|done|done|constructor| | |].
    + rewrite Ek. by apply skipped_nothing.
    + rewrite Ek. by apply skipped_nothing.
    + by exists del, ins, ps, ns.
  - destruct (align_orders rows modified k del ins) as (ms & i & j & del' & ins' & ki & kj & -> & E & ?); [done..|].
    cbn [mbind option_bind]. rewrite E. cbn [mbind option_bind].
    destruct (reorder_after rows k del ins del' ins' ki kj) as (ps & ns & Hre); [tauto..|].
    by exists del', ins', ps, ns.
Qed.
End sorted.
