(* ===== verification/CalculateTheorems.v ===== *)
(** * Theorems about [CollectionChangeBuilder::calculate]

    Stated for every implementation of the index set interface, both kinds of
    build and every sorting function, and run on the chunked implementation
    with debug assertions on. *)
From stdpp Require Import gmap sorting.
From S2P Require Import Prelude.
From S2P Require Import RangeList.
From S2P Require Import ChunkedVector.
From S2P Require Import IndexSets.
From S2P Require Import IndexSetFacts.
From S2P Require Import IndexSetInterface.
From S2P Require Import Positions.
From S2P Require Import ChangeBuilder.
From S2P Require Import ChangeBuilderFacts.
From S2P Require Import ChangeCalc.
From S2P Require Import ApplyChanges.
From S2P Require Import LongestMatch.
From S2P Require Import MoveDetection.

(** ** Move detection in table order

    [calculate_moves_unsorted] keeps a set of rows whose order did not change,
    provided that a row that is no move candidate is only ever overtaken by
    rows that moved forward past it, which is what [move_last_over] does: no
    row that comes later in the new order was before it in the old one. *)
Import Calc.

(** ** Counting *)
Lemma increasing_unique lo l k :
  increasing lo l -> increasing lo k -> (forall x, x ∈ l <-> x ∈ k) -> l = k.
Proof.
  revert lo k. induction l as [|x l IH]; intros lo [|y k] Hl Hk Heq.
  - done.
  - exfalso. apply (not_elem_of_nil y), Heq. left.
  - exfalso. apply (not_elem_of_nil x), Heq. left.
  - destruct Hl as [Hx Hl]. destruct Hk as [Hy Hk].
    pose proof (increasing_bound _ _ Hl) as Bl. pose proof (increasing_bound _ _ Hk) as Bk.
    rewrite Forall_forall in Bl, Bk.
    assert (x = y) as <-.
    { assert (x ∈ y :: k) as [|Hin%Bk]%elem_of_cons by (apply Heq; left); [done|].
      assert (y ∈ x :: l) as [|Hin'%Bl]%elem_of_cons by (apply Heq; left); [done|]. lia. }
    f_equal. apply (IH x); [done|done|]. intros z. split; intros Hz.
    + assert (z ∈ x :: k) as [->|]%elem_of_cons by (apply Heq; by right); [apply Bl in Hz; lia|done].
    + assert (z ∈ x :: l) as [->|]%elem_of_cons by (apply Heq; by right); [apply Bk in Hz; lia|done].
Qed.

Lemma increasing_filter lo (P : Z -> Prop) `{!forall x, Decision (P x)} l : increasing lo l -> increasing lo (filter P l).
Proof.
  revert lo. induction l as [|x l IH]; intros lo; [done|]. intros [Hx Hl]. rewrite filter_cons.
  case_decide; [by split; [|apply IH]|]. apply IH. eapply increasing_weaken; [|exact Hl]. lia.
Qed.

Lemma below_lt lo l x y : increasing lo l -> x ∈ l -> x < y -> below l x < below l y.
Proof.
  intros Hl Hx Hxy. pose proof (below_succ lo l x Hl) as Hs. rewrite decide_True in Hs by done.
  assert (below l (x + 1) <= below l y); [|lia]. assert (x + 1 <= y) as Hy by lia. clear Hxy. revert y Hy.
  apply (upto_ind (fun y => below l (x + 1) <= below l y)); [done|].
  intros y _ IH. rewrite (below_succ lo l y) by done. case_decide; lia.
Qed.

(** The members of a set of positions taken from the list [l]. *)
Lemma count_below_filter rs l x :
  ranges_ok rs -> increasing (-1) l -> (forall j, mem rs j -> j ∈ l) ->
  count_below x rs = Z.of_nat (length (filter (fun j => j < x /\ mem rs j) l)).
Proof.
  intros Hrs Hl Hsub. rewrite (count_below_elems _ _ _ Hrs).
  replace (elems rs) with (filter (mem rs) l).
  - by rewrite list_filter_filter.
  - apply (increasing_unique (-1)); [by apply increasing_filter|by apply elems_increasing|].
    intros j. rewrite list_elem_of_filter, mem_elems. split; [tauto|]. intros Hj. split; [done|by apply Hsub].
Qed.

(** What is below [x] in [l] is in the set or not. *)
Lemma below_split (P : Z -> Prop) `{!forall j, Decision (P j)} l x :
  below l x = Z.of_nat (length (filter (fun j => j < x /\ P j) l)) +
    Z.of_nat (length (filter (fun j => j < x /\ ~ P j) l)).
Proof.
  unfold below. induction l as [|y l IH]; [done|]. rewrite !filter_cons.
  repeat case_decide; simpl; (lia || tauto).
Qed.

Lemma NoDup_sub_length (l k : list Z) : NoDup l -> l ⊆ k -> (length l <= length k)%nat.
Proof. intros Hnd Hsub. by apply submseteq_length, NoDup_submseteq. Qed.

(** ** The scan *)
Section scan.
Context `{IndexSetLaws IS} (cand : IS) (Hcand : ix_valid cand).

(** [surviving]: the old positions of the rows that were not deleted;
    [n]: the length of the new list. *)
Context (surviving : list Z) (n : Z) (Hsurv : increasing (-1) surviving).
Implicit Types (removed ins : IS) (rows pre post kept moved : list RowInfo).

Definition located (row : RowInfo) : Prop :=
  prev_tv_index row ∈ surviving /\ shifted_tv_index row = below surviving (prev_tv_index row) /\
  0 <= tv_index row < n.

(** A row that is no candidate was before every row that comes after it now. *)
Definition overtaken_by_moves rows : Prop :=
  forall pre row post, rows = pre ++ row :: post -> ~ ix_has cand (row_index row) ->
  Forall (fun later => prev_tv_index row < prev_tv_index later) post.

Definition to_move (row : RowInfo) : Move := mkMove (prev_tv_index row) (tv_index row).

(** What is known when [kept] and [moved] have been decided and [post] has not. *)
Record scanned kept moved post (expected : Z) removed ins (ms : list Move) : Prop := {
  sc_removed : ix_valid removed;
  sc_ins : ix_valid ins;
  sc_gone j : ix_has removed j <-> j ∈ surviving /\ j ∉ prev_tv_index <$> (kept ++ post);
  sc_came j : ix_has ins j <-> 0 <= j < n /\ j ∉ tv_index <$> (kept ++ post);
  sc_new : increasing (-1) (tv_index <$> (kept ++ post));
  sc_distinct : NoDup (prev_tv_index <$> (kept ++ post));
  sc_old : increasing (-1) (prev_tv_index <$> kept);
  sc_later : Forall (fun later => Forall (fun row => prev_tv_index row < prev_tv_index later) kept) post;
  sc_expected : expected = match last kept with Some row => shifted_tv_index row + 1 | None => 0 end;
  sc_moves : ms = to_move <$> moved
}.

Lemma located_nonneg row : located row -> 0 <= prev_tv_index row.
Proof.
  intros (Hin & _). apply increasing_bound in Hsurv. rewrite Forall_forall in Hsurv. apply Hsurv in Hin. lia.
Qed.

(** Keeping the next row. *)
Lemma scanned_keep kept moved row post expected removed ins ms :
  scanned kept moved (row :: post) expected removed ins ms ->
  Forall (fun later => prev_tv_index row < prev_tv_index later) post -> 0 <= prev_tv_index row ->
  scanned (kept ++ [row]) moved post (shifted_tv_index row + 1) removed ins ms.
Proof.
  intros [Hr Hi Hg Hc Hn Hd Ho Hl He Hm] Hlater Hnn.
  assert ((kept ++ [row]) ++ post = kept ++ row :: post) as E by (by rewrite <- app_assoc).
  apply Forall_cons in Hl as [Hrow Hl].
  split; rewrite ?E; try done.
  - rewrite fmap_app. destruct (list_snoc_inv kept) as [->|(k & x & ->)]; [simpl; split; [lia|done]|].
    apply (increasing_app _ (prev_tv_index x)); [done| | |].
    + apply increasing_bound in Ho. rewrite Forall_forall in Ho.
      specialize (Ho (prev_tv_index x) ltac:(apply list_elem_of_fmap_2, elem_of_app; right; left)). lia.
    + apply Forall_fmap, Forall_forall. intros y Hy. simpl.
      apply list_elem_of_lookup_1 in Hy as [i Hy].
      assert (i < length k \/ i = length k)%nat as [Hi'| ->].
      { apply lookup_lt_Some in Hy. rewrite length_app in Hy. simpl in Hy. lia. }
      * enough (prev_tv_index y < prev_tv_index x) by lia.
        eapply (increasing_lookup (-1) (prev_tv_index <$> (k ++ [x])) i (length k)); [exact Ho| | |exact Hi'].
        -- by rewrite list_lookup_fmap, Hy.
        -- rewrite list_lookup_fmap, list_lookup_middle by done. done.
      * rewrite list_lookup_middle in Hy by done. injection Hy as ->. lia.
    + simpl. split; [|done]. rewrite Forall_forall in Hrow. apply Hrow, elem_of_app. right. left.
  - apply Forall_forall. intros later Hin. apply Forall_app. rewrite Forall_forall in Hl, Hlater.
    split; [by apply Hl|]. constructor; [by apply Hlater|constructor].
  - by rewrite last_snoc.
Qed.

(** Moving it. *)
Lemma scanned_move kept moved row post expected removed ins ms removed' ins' :
  scanned kept moved (row :: post) expected removed ins ms -> located row ->
  ix_valid removed' -> ix_valid ins' ->
  (forall j, ix_has removed' j <-> j = prev_tv_index row \/ ix_has removed j) ->
  (forall j, ix_has ins' j <-> j = tv_index row \/ ix_has ins j) ->
  scanned kept (moved ++ [row]) post expected removed' ins' (ms ++ [to_move row]).
Proof.
  intros [Hr Hi Hg Hc Hn Hd Ho Hl He Hm] (Hin & _ & Htv) Hr' Hi' Hrm Hinm.
  assert (forall (f : RowInfo -> Z), f <$> (kept ++ row :: post) ≡ₚ f row :: (f <$> (kept ++ post))) as Hperm.
  { intros f. by rewrite !fmap_app, fmap_cons, Permutation_middle. }
  apply Forall_cons in Hl as [Hrow Hl].
  assert (NoDup (tv_index <$> (kept ++ row :: post))) as Hdt by (by eapply increasing_NoDup).
  rewrite Hperm in Hd, Hdt. apply NoDup_cons in Hd as [Hd0 Hd]. apply NoDup_cons in Hdt as [Hdt0 _].
  split; try done.
  - intros j. rewrite Hrm, Hg, Hperm, not_elem_of_cons. split.
    + intros [->|?]; [done|tauto].
    + intros [? ?]. destruct (decide (j = prev_tv_index row)); tauto.
  - intros j. rewrite Hinm, Hc, Hperm, not_elem_of_cons. split.
    + intros [->|?]; [done|tauto].
    + intros [? ?]. destruct (decide (j = tv_index row)); tauto.
  - rewrite fmap_app in Hn |- *. rewrite fmap_cons in Hn. clear -Hn. revert Hn. generalize (-1).
    induction (tv_index <$> kept) as [|x l IH]; intros lo; simpl.
    + intros [? Hl]. eapply increasing_weaken; [|exact Hl]. lia.
    + intros [? Hl]. split; [done|]. by apply IH.
  - by rewrite Hm, fmap_app.
Qed.

(** The expected position is that of the next row of the old list. *)
Lemma expected_next kept moved row post expected removed ins ms :
  scanned kept moved (row :: post) expected removed ins ms -> Forall located (kept ++ row :: post) ->
  shifted_tv_index row = expected ->
  Forall (fun later => prev_tv_index row < prev_tv_index later) post.
Proof.
  intros [Hr Hi Hg Hc Hn Hd Ho Hl He Hm] Hloc Eq. apply Forall_app in Hloc as [Hlk Hloc].
  apply Forall_cons in Hloc as [(Hin & Hsh & _) Hloc]. apply Forall_cons in Hl as [Hrow Hl].
  apply Forall_forall. intros later Hla. rewrite Forall_forall in Hloc. destruct (Hloc _ Hla) as (Hin' & _).
  destruct (Z.lt_trichotomy (prev_tv_index row) (prev_tv_index later)) as [|[E|Hlt]]; [done| |exfalso].
  { exfalso. rewrite fmap_app, fmap_cons in Hd. apply NoDup_app in Hd as (_ & _ & Hd).
    apply NoDup_cons in Hd as [Hd _]. apply Hd. rewrite E. by apply list_elem_of_fmap_2. }
  pose proof (below_lt _ _ _ _ Hsurv Hin' Hlt) as H1. rewrite <- Hsh, Eq, He in H1.
  destruct (list_snoc_inv kept) as [->|(k & x & ->)].
  - simpl in H1. unfold below in H1. lia.
  - rewrite last_snoc in H1. rewrite Forall_forall in Hl. pose proof (Hl _ Hla) as Hx.
    apply Forall_app in Hx as [_ [Hx _]%Forall_cons]. apply Forall_app in Hlk as [_ [(Hxin & Hxsh & _) _]%Forall_cons].
    pose proof (below_lt _ _ _ _ Hsurv Hxin Hx). lia.
Qed.
Lemma below_members removed x :
  ix_valid removed -> (forall j, ix_has removed j -> j ∈ surviving) ->
  ix_below removed x = Z.of_nat (length (filter (fun j => j < x /\ ix_has removed j) surviving)).
Proof. intros Hr Hsub. by apply count_below_filter; [apply ix_valid_sep| |]. Qed.

(** Rows not yet decided: none of them was before a row whose position is
    explained by the rows already kept and the positions already removed. *)
Lemma calculated_next kept moved row post expected removed ins ms :
  scanned kept moved (row :: post) expected removed ins ms -> Forall located (kept ++ row :: post) ->
  shifted_tv_index row = tv_index row - ix_below ins (tv_index row) + ix_below removed (prev_tv_index row) ->
  Forall (fun later => prev_tv_index row < prev_tv_index later) post.
Proof.
  intros [Hr Hi Hg Hc Hn Hd Ho Hl He Hm] Hloc Eq. apply Forall_app in Hloc as [Hlk Hloc].
  apply Forall_cons in Hloc as [(Hin & Hsh & Htv) Hloc]. apply Forall_cons in Hl as [Hrow Hl].
  assert (tv_index row - ix_below ins (tv_index row) = Z.of_nat (length kept)) as E1.
  { change (rank (ix_ranges ins) (tv_index row) = Z.of_nat (length kept)).
    rewrite (rank_below ins n _ _ Hi Hn Hc) by lia. eapply below_at; [exact Hn|].
    rewrite fmap_app, fmap_cons, <- (length_fmap tv_index). by apply list_lookup_middle. }
  rewrite (below_members removed) in Eq by (done || intros j Hj; by apply Hg).
  rewrite Hsh, (below_split (ix_has removed)), E1 in Eq.
  apply Forall_forall. intros later Hla. rewrite Forall_forall in Hloc. destruct (Hloc _ Hla) as (Hin' & _).
  destruct (Z.lt_trichotomy (prev_tv_index row) (prev_tv_index later)) as [|[E|Hlt]]; [done| |exfalso].
  { exfalso. rewrite fmap_app, fmap_cons in Hd. apply NoDup_app in Hd as (_ & _ & Hd).
    apply NoDup_cons in Hd as [Hd _]. apply Hd. rewrite E. by apply list_elem_of_fmap_2. }
  assert (length (prev_tv_index later :: (prev_tv_index <$> kept)) <=
    length (filter (fun j => (j < prev_tv_index row)%Z /\ ~ ix_has removed j) surviving))%nat as Hle; [|simpl in Hle; rewrite length_fmap in Hle; lia].
  apply NoDup_sub_length.
  - constructor; [|by eapply increasing_NoDup].
    rewrite fmap_app, fmap_cons in Hd. apply NoDup_app in Hd as (_ & Hd & _).
    intros Hk. apply (Hd _ Hk). right. by apply list_elem_of_fmap_2.
  - intros j Hj. apply list_elem_of_filter.
    assert (j ∈ surviving /\ j < prev_tv_index row /\ j ∈ prev_tv_index <$> (kept ++ row :: post)) as (H1 & H2 & H3).
    { apply elem_of_cons in Hj as [->|(k & -> & Hk)%list_elem_of_fmap].
      - split; [done|]. split; [done|]. apply list_elem_of_fmap_2, elem_of_app. right. by right.
      - rewrite Forall_forall in Hlk, Hrow. split; [by apply Hlk|]. split; [by apply Hrow|].
        apply list_elem_of_fmap_2, elem_of_app. by left. }
    split; [|done]. split; [done|]. intros Hrem%Hg. tauto.
Qed.

Lemma unsorted_step_spec kept moved row post expected removed ins ms :
  scanned kept moved (row :: post) expected removed ins ms -> Forall located (kept ++ row :: post) ->
  (~ ix_has cand (row_index row) -> Forall (fun later => prev_tv_index row < prev_tv_index later) post) ->
  exists expected' removed' ins' ms',
    unsorted_step cand (expected, removed, ins, ms) row = Some (expected', removed', ins', ms') /\
    (scanned (kept ++ [row]) moved post expected' removed' ins' ms' \/
     scanned kept (moved ++ [row]) post expected' removed' ins' ms').
Proof.
  intros Hs Hloc Hno. pose proof Hloc as Hloc'. apply Forall_app in Hloc' as [_ [Hrow _]%Forall_cons].
  pose proof (located_nonneg row Hrow) as Hnn. unfold unsorted_step.
  destruct (Z.eqb_spec (shifted_tv_index row) expected) as [E|_].
  { eexists _, _, _, _. split; [done|]. left. rewrite <- E. eapply scanned_keep; [exact Hs| |done].
    by eapply expected_next. }
  rewrite ix_contains_has by done. cbn [mbind option_bind].
  destruct (bool_decide_reflect (ix_has cand (row_index row))) as [_|Hc]; cbn [negb].
  2: { eexists _, _, _, _. split; [done|]. left. eapply scanned_keep; [exact Hs|by apply Hno|done]. }
  pose proof (sc_removed _ _ _ _ _ _ _ Hs) as Hr. pose proof (sc_ins _ _ _ _ _ _ _ Hs) as Hi.
  destruct Hrow as (Hin & Hsh & Htv).
  rewrite (ix_count_below ins) by (done || lia). cbn [mbind option_bind].
  rewrite (ix_count_below removed) by done. cbn [mbind option_bind].
  destruct (Z.eqb_spec (shifted_tv_index row)
    (tv_index row - ix_below ins (tv_index row) + ix_below removed (prev_tv_index row))) as [E|_].
  { eexists _, _, _, _. split; [done|]. left. rewrite <- E. eapply scanned_keep; [exact Hs| |done].
    by eapply calculated_next. }
  destruct (ix_add_has ins (tv_index row) Hi ltac:(lia)) as (ins' & -> & Hi' & Hmi). cbn [mbind option_bind].
  destruct (ix_add_has removed (prev_tv_index row) Hr Hnn) as (removed' & -> & Hr' & Hmr). cbn [mbind option_bind].
  eexists _, _, _, _. split; [done|]. right. by eapply scanned_move.
Qed.

(** The whole scan. *)
Lemma scan_spec rows removed ins :
  Forall located rows -> overtaken_by_moves rows -> scanned [] [] rows 0 removed ins [] ->
  exists kept moved expected' removed' ins' ms',
    fold_option (unsorted_step cand) rows (0, removed, ins, []) = Some (expected', removed', ins', ms') /\
    kept ++ moved ≡ₚ rows /\ kept `sublist_of` rows /\ scanned kept moved [] expected' removed' ins' ms'.
Proof.
  intros Hloc Hov Hs0.
  enough (forall post pre kept moved expected removed ins ms, rows = pre ++ post -> kept ++ moved ≡ₚ pre ->
    kept `sublist_of` pre -> scanned kept moved post expected removed ins ms ->
    exists kept' moved' expected' removed' ins' ms',
      fold_option (unsorted_step cand) post (expected, removed, ins, ms) = Some (expected', removed', ins', ms') /\
      kept' ++ moved' ≡ₚ rows /\ kept' `sublist_of` rows /\ scanned kept' moved' [] expected' removed' ins' ms') as Hgo
    by (by apply (Hgo rows [] [] [])).
  induction post as [|row post IH]; intros pre kept moved expected removed1 ins1 ms E Hp Hsub Hs.
  { rewrite app_nil_r in E. subst pre. by eexists kept, moved, _, _, _, _. }
  destruct (unsorted_step_spec kept moved row post _ _ _ _ Hs) as (e' & r' & i' & ms' & Es & Hs').
  { rewrite E in Hloc. apply Forall_app in Hloc as [Hpre Hpost]. apply Forall_app. split; [|done].
    apply Forall_forall. intros x Hx. rewrite Forall_forall in Hpre. apply Hpre.
    apply sublist_submseteq in Hsub. by eapply elem_of_submseteq. }
  { by eapply Hov. }
  cbn [fold_option]. rewrite Es. cbn [mbind option_bind].
  assert (rows = (pre ++ [row]) ++ post) as E' by (by rewrite <- app_assoc).
  destruct Hs' as [Hs'|Hs']; (eapply IH; [exact E'| | |exact Hs']).
  - by rewrite <- Hp, <- app_assoc, (Permutation_app_comm [row] moved), app_assoc.
  - by apply sublist_app.
  - by rewrite app_assoc, Hp.
  - by apply sublist_inserts_r.
Qed.
End scan.

(** ** Theorems about [CollectionChangeBuilder::calculate] *)
(** ** Correctness of [calculate]

    Both kinds of move detection give a change set that turns the old list of
    rows into the new one, whose account of where every row was is right. *)
Import ChangeBuilder Calc.

Section collect.
Context `{IndexSetLaws IS}.
Implicit Types (s del ins removed : IS) (prev next : list Z).

(** The old rows that still exist: [rows] are their positions and values, the
    rest is deleted. *)
Record collected prev (i deleted : Z) (rows : list RowInfo) : Prop := {
  co_tv : increasing (i - 1) (tv_index <$> rows);
  co_row : Forall (fun row => i <= tv_index row /\ row_index row <> npos /\
    prev !! Z.to_nat (tv_index row - i) = Some (row_index row)) rows;
  co_all j x : prev !! j = Some x -> x <> npos -> i + Z.of_nat j ∈ tv_index <$> rows;
  co_shifted k row : rows !! k = Some row -> shifted_tv_index row = i - deleted + Z.of_nat k;
  co_values : row_index <$> rows = filter (fun x => x <> npos) prev
}.

Lemma collect_old_spec prev i deleted del :
  ix_valid del -> 0 <= i ->
  exists rows del', collect_old prev i deleted del = Some (rows, del') /\ ix_valid del' /\
    (forall j, ix_has del' j <-> ix_has del j \/ exists t, prev !! t = Some npos /\ j = i + Z.of_nat t) /\
    collected prev i deleted rows.
Proof.
  revert i deleted del. induction prev as [|x prev IH]; intros i deleted del Hd Hi.
  - exists [], del. split; [done|]. split; [done|]. split; [|split; [done|constructor|done|done|done]].
    intros j. split; [by left|]. by intros [|(t & Ht & _)].
  - cbn [collect_old]. destruct (Z.eqb_spec x npos) as [->|Hx].
    + destruct (ix_add_has del i Hd Hi) as (d1 & -> & Hd1 & Hm1). cbn [mbind option_bind].
      destruct (IH (i + 1) (deleted + 1) d1 Hd1 ltac:(lia)) as (rows & d2 & -> & Hd2 & Hm2 & [Ht Hr Ha Hs Hv]).
      exists rows, d2. split; [done|]. split; [done|]. split.
      * intros j. rewrite Hm2, Hm1. split.
        -- intros [[->|?]|(t & ? & ->)]; [right; exists O; split; [done|lia]|by left|].
           right. exists (S t). split; [done|lia].
        -- intros [?|([|t] & ? & ->)]; [by left; right|left; left; lia|]. right. exists t. split; [done|lia].
      * split.
        -- eapply increasing_weaken; [|exact Ht]. lia.
        -- eapply Forall_impl; [exact Hr|]. intros row (? & ? & E). split; [lia|]. split; [done|].
           by replace (Z.to_nat (tv_index row - i)) with (S (Z.to_nat (tv_index row - (i + 1)))) by lia.
        -- intros [|j] y Hy Hne; [cbn in Hy; congruence|]. replace (i + Z.of_nat (S j)) with (i + 1 + Z.of_nat j) by lia.
           by eapply Ha.
        -- intros k row Hk. rewrite (Hs _ _ Hk). lia.
        -- by rewrite filter_cons, decide_False by tauto.
    + destruct (IH (i + 1) deleted del Hd ltac:(lia)) as (rows & d2 & -> & Hd2 & Hm2 & [Ht Hr Ha Hs Hv]).
      cbn [mbind option_bind]. eexists _, d2. split; [done|]. split; [done|]. split.
      * intros j. rewrite Hm2. f_equiv. split.
        -- intros (t & ? & ->). exists (S t). split; [done|lia].
        -- intros ([|t] & Hn & ->); [cbn in Hn; congruence|]. exists t. split; [done|lia].
      * split.
        -- simpl. split; [lia|]. by replace (i + 1 - 1) with i in Ht by lia.
        -- constructor; [simpl; rewrite Z.sub_diag; split; [lia|done]|].
           eapply Forall_impl; [exact Hr|]. intros row (? & ? & E). split; [lia|]. split; [done|].
           by replace (Z.to_nat (tv_index row - i)) with (S (Z.to_nat (tv_index row - (i + 1)))) by lia.
        -- intros [|j] y Hy Hne; [apply elem_of_cons; left; simpl; lia|]. apply elem_of_cons. right.
           replace (i + Z.of_nat (S j)) with (i + 1 + Z.of_nat j) by lia. by eapply Ha.
        -- intros [|k] row Hk; [injection Hk as <-; simpl; lia|]. rewrite (Hs _ _ Hk). lia.
        -- by rewrite filter_cons, decide_True, fmap_cons, Hv by done.
Qed.

Lemma elem_of_collect_new next row :
  row ∈ collect_new next <-> prev_tv_index row = npos /\ shifted_tv_index row = 0 /\ 0 <= tv_index row /\
    next !! Z.to_nat (tv_index row) = Some (row_index row).
Proof.
  unfold collect_new. rewrite elem_of_lookup_imap. split.
  - intros (i & x & -> & Hi). simpl. rewrite Nat2Z.id. split; [done|]. split; [done|]. split; [lia|done].
  - destruct row as [x p t sh]. simpl. intros (-> & -> & Ht & Hx). exists (Z.to_nat t), x.
    split; [|done]. f_equal. lia.
Qed.

Lemma collect_new_positions next : tv_index <$> collect_new next = seqZ 0 (Z.of_nat (length next)).
Proof.
  apply list_eq. intros i. unfold collect_new. rewrite list_lookup_fmap, list_lookup_imap.
  destruct (next !! i) as [x|] eqn:E; simpl.
  - symmetry. apply lookup_seqZ. apply lookup_lt_Some in E. lia.
  - symmetry. apply lookup_seqZ_ge. apply lookup_ge_None in E. lia.
Qed.

(** [modified_rows] *)
Lemma modified_rows_spec did rows s :
  ix_valid s -> Forall (fun row => 0 <= tv_index row) rows ->
  gives (modified_rows did rows s) (fun s' => ix_valid s' /\
    forall j, ix_has s' j <-> ix_has s j \/ exists row, row ∈ rows /\ did (row_index row) = true /\ tv_index row = j).
Proof.
  intros Hs Hnn. unfold modified_rows.
  destruct (fold_option_rule (fun s row => if did (row_index row) then ix_add s (tv_index row) else Some s)
    (fun pre s' => ix_valid s' /\
      forall j, ix_has s' j <-> ix_has s j \/ exists row, row ∈ pre /\ did (row_index row) = true /\ tv_index row = j)
    rows s) as (s' & E & Hs').
  - split; [done|]. intros j. split; [by left|]. by intros [|(row & []%not_elem_of_nil & _)].
  - intros pre row post s1 -> [Hs1 Hm1]. apply Forall_app in Hnn as [_ [Hrow _]%Forall_cons].
    setoid_rewrite elem_of_app. setoid_rewrite list_elem_of_singleton. destruct (did (row_index row)) eqn:E.
    + destruct (ix_add_has s1 (tv_index row) Hs1 Hrow) as (s2 & E2 & Hs2 & Hm2). exists s2. split; [done|].
      split; [done|]. intros j. rewrite Hm2, Hm1. split.
      * intros [->|[?|(r & ? & ?)]]; [right; exists row; auto|by left|right; exists r; tauto].
      * intros [?|(r & [?| ->] & ? & <-)]; [auto|right; right; eauto|by left].
    + exists s1. split; [done|]. split; [done|]. intros j. rewrite Hm1. split.
      * intros [?|(r & ? & ?)]; [by left|right; exists r; tauto].
      * intros [?|(r & [?| ->] & ? & <-)]; [by left|right; eauto|congruence].
  - exists s'. split; [exact E|done].
Qed.
End collect.

(** ** The rows handed to move detection *)
Section calculate.
Context `{IndexSetLaws IS} {BM : BuildMode} {ST : StdSort}.
Implicit Types (s del ins removed cand : IS) (prev next : list Z).

#[local] Instance by_tv_index_total : Total by_tv_index.
Proof. intros x y. unfold by_tv_index. lia. Qed.
#[local] Instance by_tv_index_trans : Transitive by_tv_index.
Proof. intros x y z. unfold by_tv_index. lia. Qed.

(** Everything known about the rows in both lists and the sets built so far:
    [surviving] are the positions of the rows that still exist. *)
Record matched prev next del removed ins (rows : list RowInfo) (surviving : list Z) : Prop := {
  ma_del : ix_valid del;
  ma_removed : ix_valid removed;
  ma_ins : ix_valid ins;
  ma_surviving : increasing (-1) surviving;
  ma_deleted j : ix_has del j <-> 0 <= j < Z.of_nat (length prev) /\ j ∉ surviving;
  ma_bound : Forall (fun j => j < Z.of_nat (length prev)) surviving;
  ma_gone j : ix_has removed j <-> j ∈ surviving /\ j ∉ prev_tv_index <$> rows;
  ma_came j : ix_has ins j <-> 0 <= j < Z.of_nat (length next) /\ j ∉ tv_index <$> rows;
  ma_new : increasing (-1) (tv_index <$> rows);
  ma_old : NoDup (prev_tv_index <$> rows);
  ma_located : Forall (located surviving (Z.of_nat (length next))) rows;
  ma_row : Forall (fun row => prev !! Z.to_nat (prev_tv_index row) = Some (row_index row) /\
    next !! Z.to_nat (tv_index row) = Some (row_index row)) rows;
  ma_complete j x : NoDup (filter (fun y => y <> npos) prev) -> NoDup next ->
    0 <= j -> next !! Z.to_nat j = Some x -> x ∈ prev -> x <> npos ->
    exists row, row ∈ rows /\ tv_index row = j /\ row_index row = x
}.

Lemma matched_nonneg prev next del removed ins rows surviving row :
  matched prev next del removed ins rows surviving -> row ∈ rows -> 0 <= prev_tv_index row.
Proof.
  intros Hm Hin. pose proof (ma_located _ _ _ _ _ _ _ Hm) as Hl. rewrite Forall_forall in Hl.
  destruct (Hl _ Hin) as (Hs & _). pose proof (increasing_bound _ _ (ma_surviving _ _ _ _ _ _ _ Hm)) as Hb.
  rewrite Forall_forall in Hb. apply Hb in Hs. lia.
Qed.

Lemma matched_paired prev next del removed ins rows surviving :
  matched prev next del removed ins rows surviving -> paired_rows rows.
Proof.
  intros Hm. split; [apply Hm|apply Hm|]. apply Forall_forall. intros row Hin. by eapply matched_nonneg.
Qed.

(** The kept rows in the order of the new list. *)
Lemma kept_rows_increasing rows new :
  tv_index <$> rows ≡ₚ new -> NoDup new -> Forall (fun j => 0 <= j) new ->
  increasing (-1) (tv_index <$> kept_rows rows).
Proof.
  intros Hp Hnd Hnn. unfold kept_rows. set (l := filter _ rows).
  assert (std_sort by_tv_index l ≡ₚ l) as Hs by apply std_sort_perm.
  assert (tv_index <$> l ⊆+ new) as Hsub.
  { rewrite <- Hp. apply fmap_submseteq, sublist_submseteq, sublist_filter. }
  apply sorted_increasing.
  - assert (Sorted.StronglySorted by_tv_index (std_sort by_tv_index l)) as Hss
      by (apply Sorted.Sorted_StronglySorted; [exact by_tv_index_trans|apply std_sort_sorted, _]).
    clear Hs. induction Hss as [|x k Hk IH Hx]; [constructor|]. simpl. constructor; [done|].
    by apply Forall_fmap.
  - rewrite Hs. apply submseteq_Permutation in Hsub as [k Hk]. rewrite Hk in Hnd.
    by apply NoDup_app in Hnd as (? & _).
  - rewrite Hs. apply Forall_forall. intros j Hj. rewrite Forall_forall in Hnn.
    assert (j ∈ new) as Hin by (by eapply elem_of_submseteq). apply Hnn in Hin. lia.
Qed.

Lemma fmap_pointwise (f g : RowInfo -> Z) (l k : list RowInfo) :
  f <$> l = f <$> k -> g <$> l = g <$> k ->
  forall x, x ∈ l -> exists y, y ∈ k /\ f x = f y /\ g x = g y.
Proof.
  intros Ef Eg x [i Hi]%list_elem_of_lookup_1.
  assert ((f <$> k) !! i = Some (f x)) as Hf by (by rewrite <- Ef, list_lookup_fmap, Hi).
  assert ((g <$> k) !! i = Some (g x)) as Hg by (by rewrite <- Eg, list_lookup_fmap, Hi).
  rewrite list_lookup_fmap in Hf, Hg. destruct (k !! i) as [y|] eqn:Ek; [|done].
  exists y. split; [by eapply list_elem_of_lookup_2|]. simpl in Hf, Hg. split; congruence.
Qed.

Lemma elem_of_paired rows row : row ∈ kept_rows rows <-> row ∈ paired rows.
Proof. unfold kept_rows, paired. by rewrite std_sort_perm. Qed.

Lemma kept_rows_perm rows : kept_rows rows ≡ₚ paired rows.
Proof. apply std_sort_perm. Qed.
#[local] Instance by_row_index_total : Total by_row_index.
Proof. intros x y. unfold by_row_index. lia. Qed.
#[local] Instance by_row_index_trans : Transitive by_row_index.
Proof. intros x y z. unfold by_row_index. lia. Qed.

Lemma sorted_distinct l : NoDup (row_index <$> l) -> distinct_rows (std_sort by_row_index l).
Proof.
  intros Hnd. assert (NoDup (row_index <$> std_sort by_row_index l)) as Hnd'.
  { assert (std_sort by_row_index l ≡ₚ l) as -> by apply std_sort_perm. done. }
  assert (Sorted.StronglySorted by_row_index (std_sort by_row_index l)) as Hs
    by (apply Sorted.Sorted_StronglySorted; [exact by_row_index_trans|apply std_sort_sorted, _]).
  revert Hnd' Hs. generalize (std_sort by_row_index l). clear Hnd. intros k Hnd Hs.
  induction Hs as [|x k Hk IH Hx]; [constructor|]. apply NoDup_cons in Hnd as [Hn Hnd]. constructor; [by apply IH|].
  apply Forall_forall. intros y Hy. rewrite Forall_forall in Hx. specialize (Hx y Hy). unfold by_row_index in Hx.
  destruct (decide (row_index x = row_index y)) as [E|]; [|lia]. exfalso. apply Hn. rewrite E. by apply list_elem_of_fmap_2.
Qed.

(** Without duplicates no row that is in both lists is missed. *)
Lemma paired_complete prev next old removed0 ins0 new removed ins j x :
  collected prev 0 0 old -> Forall (fun o => tv_index o <> npos) old ->
  pair_rows (std_sort by_row_index old) (std_sort by_row_index (collect_new next)) removed0 ins0
    = Some (new, removed, ins) ->
  tv_index <$> new = tv_index <$> std_sort by_row_index (collect_new next) ->
  NoDup (filter (fun y => y <> npos) prev) -> NoDup next ->
  0 <= j -> next !! Z.to_nat j = Some x -> x ∈ prev -> x <> npos ->
  exists row, row ∈ kept_rows new /\ tv_index row = j /\ row_index row = x.
Proof.
  intros Hco Hnp Ep Etv Hndp Hndn Hj Hx Hin Hne.
  assert (std_sort by_row_index old ≡ₚ old) as Hpo by apply std_sort_perm.
  assert (std_sort by_row_index (collect_new next) ≡ₚ collect_new next) as Hpn by apply std_sort_perm.
  assert (row_index <$> collect_new next = next) as Evals.
  { apply list_eq. intros i. unfold collect_new. rewrite list_lookup_fmap, list_lookup_imap. by destruct (next !! i). }
  destruct (pair_rows_complete (std_sort by_row_index old) (std_sort by_row_index (collect_new next))
    removed0 ins0 new removed ins) as [Erow Hall]; [by rewrite Hpo| | |done|].
  { apply sorted_distinct. by rewrite (co_values _ _ _ _ Hco). }
  { apply sorted_distinct. by rewrite Evals. }
  destruct (fmap_pointwise tv_index row_index _ new (eq_sym Etv) (eq_sym Erow) (mkRowInfo x npos j 0))
    as (row & Hrow & Et & Er).
  { rewrite Hpn. by apply elem_of_collect_new. }
  exists row. split; [|by split]. rewrite elem_of_paired. unfold paired. apply list_elem_of_filter. split; [|done].
  rewrite Forall_forall in Hall. apply Hall; [done|]. simpl in Er. rewrite <- Er, Hpo, (co_values _ _ _ _ Hco).
  by apply list_elem_of_filter.
Qed.

Lemma collected_bounds prev rows :
  collected prev 0 0 rows -> Forall (fun row => 0 <= tv_index row < Z.of_nat (length prev)) rows.
Proof.
  intros Hc. eapply Forall_impl; [exact (co_row _ _ _ _ Hc)|]. intros row (? & _ & E).
  rewrite Z.sub_0_r in E. apply in_length in E. lia.
Qed.

(** [collect_old], the sorting and the walk together *)
Lemma matching prev next :
  Z.of_nat (length prev) < npos ->
  exists old_rows del new_rows removed ins surviving,
    collect_old prev 0 0 ix_nil = Some (old_rows, del) /\
    pair_rows (std_sort by_row_index old_rows) (std_sort by_row_index (collect_new next)) ix_nil ix_nil
      = Some (new_rows, removed, ins) /\
    matched prev next del removed ins (kept_rows new_rows) surviving.
Proof.
  intros Hlen. pose proof ix_nil_valid as Hnil.
  destruct (collect_old_spec prev 0 0 ix_nil Hnil ltac:(lia)) as (old_rows & del & Eo & Hdel & Hmd & Hco).
  pose proof (collected_bounds _ _ Hco) as Hob.
  assert (std_sort by_row_index old_rows ≡ₚ old_rows) as Hpo by apply std_sort_perm.
  assert (std_sort by_row_index (collect_new next) ≡ₚ collect_new next) as Hpn by apply std_sort_perm.
  destruct (pair_rows_spec (std_sort by_row_index old_rows) (std_sort by_row_index (collect_new next)) ix_nil ix_nil)
    as (new_rows & removed & ins & gone & came & Ep & [Hrem Hmr] & [Hins Hmi] & Hpair); [done|done| |].
  { unfold unpaired. rewrite Hpo, Hpn. split.
    - eapply Forall_impl; [exact Hob|]. simpl. lia.
    - apply Forall_forall. intros row Hin%elem_of_collect_new. tauto. }
  assert (Hnone : forall j, ~ ix_has ix_nil j) by (intros j; unfold ix_has; rewrite ix_nil_ranges; simpl; tauto).
  exists old_rows, del, new_rows, removed, ins, (tv_index <$> old_rows). split; [done|]. split; [done|].
  assert (tv_index <$> new_rows ≡ₚ seqZ 0 (Z.of_nat (length next))) as Hnew.
  { rewrite (pg_tv _ _ _ _ _ Hpair), Hpn. by rewrite collect_new_positions. }
  assert ((prev_tv_index <$> paired new_rows) ++ gone ≡ₚ tv_index <$> old_rows) as Hold.
  { rewrite (pg_old _ _ _ _ _ Hpair). by rewrite Hpo. }
  assert (NoDup ((prev_tv_index <$> paired new_rows) ++ gone)) as Hnd.
  { rewrite Hold. eapply increasing_NoDup, (co_tv _ _ _ _ Hco). }
  apply NoDup_app in Hnd as (Hndp & Hdisj & _).
  split; try done.
  - apply (co_tv _ _ _ _ Hco).
  - intros j. rewrite Hmd. split.
    + intros [?|(t & Ht & ->)]; [by exfalso; eapply Hnone|]. pose proof (lookup_lt_Some _ _ _ Ht).
      split; [lia|]. intros (row & Er & Hin)%list_elem_of_fmap.
      pose proof (co_row _ _ _ _ Hco) as Hr. rewrite Forall_forall in Hr. destruct (Hr _ Hin) as (_ & Hne & E).
      rewrite <- Er, Z.sub_0_r, Z.add_0_l, Nat2Z.id in E. congruence.
    + intros [Hj Hout]. right. exists (Z.to_nat j).
      destruct (lookup_lt_is_Some_2 prev (Z.to_nat j)) as [x Hx]; [lia|].
      destruct (decide (x = npos)) as [->|Hne]; [split; [done|lia]|]. exfalso. apply Hout.
      pose proof (co_all _ _ _ _ Hco _ _ Hx Hne) as Hin. by replace (0 + Z.of_nat (Z.to_nat j)) with j in Hin by lia.
  - apply Forall_fmap. eapply Forall_impl; [exact Hob|]. simpl. lia.
  - intros j. rewrite Hmr, <- Hold, elem_of_app, kept_rows_perm. split.
    + intros [Hj|Hj]; [|by exfalso; eapply Hnone]. split; [by right|]. intros Hp. by eapply Hdisj.
    + intros [[?|?] ?]; [done|by left].
  - intros j. rewrite Hmi, (pg_came _ _ _ _ _ Hpair), kept_rows_perm. unfold paired.
    assert (0 <= j < Z.of_nat (length next) <-> j ∈ tv_index <$> new_rows) as -> by (rewrite Hnew, elem_of_seqZ; lia).
    assert (NoDup (tv_index <$> new_rows)) as Hndt by (rewrite Hnew; apply NoDup_seqZ).
    rewrite !list_elem_of_fmap. setoid_rewrite list_elem_of_filter. split.
    + intros [(row & -> & Hp & Hin)|Hj]; [|by exfalso; eapply Hnone]. split; [by exists row|].
      intros (row' & Et & Hp' & Hin').
      assert (row = row') as -> by (by eapply (NoDup_key_inj tv_index)). done.
    + intros [(row & -> & Hin) Hout]. left. exists row. split; [done|]. split; [|done].
      destruct (decide (prev_tv_index row = npos)); [done|]. exfalso. apply Hout. by exists row.
  - apply (kept_rows_increasing _ _ Hnew); [apply NoDup_seqZ|]. apply Forall_forall. intros j Hj%elem_of_seqZ. lia.
  - by rewrite kept_rows_perm.
  - apply Forall_forall. intros row Hin. rewrite elem_of_paired in Hin.
    pose proof (pg_source _ _ _ _ _ Hpair) as Hsrc. rewrite Forall_forall in Hsrc.
    destruct (Hsrc _ Hin) as (o & Ho & Et & _ & Es). rewrite Hpo in Ho. split; [|split].
    + rewrite Et. by apply list_elem_of_fmap_2.
    + apply list_elem_of_lookup_1 in Ho as [k Hk]. rewrite Es, (co_shifted _ _ _ _ Hco _ _ Hk), Et. symmetry.
      erewrite (below_at _ _ k); [|exact (co_tv _ _ _ _ Hco)|by rewrite list_lookup_fmap, Hk]. lia.
    + assert (tv_index row ∈ tv_index <$> new_rows) as Hj.
      { apply list_elem_of_fmap_2. unfold paired in Hin. by apply list_elem_of_filter in Hin as [_ ?]. }
      rewrite Hnew in Hj. apply elem_of_seqZ in Hj. lia.
  - apply Forall_forall. intros row Hin. rewrite elem_of_paired in Hin.
    pose proof (pg_source _ _ _ _ _ Hpair) as Hsrc. rewrite Forall_forall in Hsrc.
    destruct (Hsrc _ Hin) as (o & Ho & Et & Er & _). rewrite Hpo in Ho. split.
    + pose proof (co_row _ _ _ _ Hco) as Hr. rewrite Forall_forall in Hr. destruct (Hr _ Ho) as (_ & _ & E).
      by rewrite Et, Er, <- (Z.sub_0_r (tv_index o)).
    + unfold paired in Hin. apply list_elem_of_filter in Hin as [_ Hin].
      destruct (fmap_pointwise tv_index row_index new_rows _ (pg_tv _ _ _ _ _ Hpair) (pg_row _ _ _ _ _ Hpair) row Hin)
        as (n & Hn & -> & ->). rewrite Hpn in Hn. apply elem_of_collect_new in Hn. tauto.
  - intros j x. eapply (paired_complete _ _ _ _ _ _ _ _ _ _ Hco); [|exact Ep|apply Hpair].
    eapply Forall_impl; [exact Hob|]. simpl. lia.
Qed.
(** ** The whole function *)

(** The final deletions: the deleted rows, the ones no longer in the list, and
    the old places of the rows that moved. *)
Lemma matched_aligned prev next del removed ins rows surviving del' ins' ps ns final :
  matched prev next del removed ins rows surviving ->
  reordered rows del ins del' ins' ps ns \/ reordered rows removed ins del' ins' ps ns ->
  ix_valid final ->
  (forall j, ix_has final j <-> ix_has del j \/ ix_has removed j \/ (j ∈ prev_tv_index <$> rows /\ j ∉ ps)) ->
  aligned prev next final ins' ps ns.
Proof.
  intros Hm Hre Hv Hfin.
  assert (ix_valid ins' /\ increasing (-1) ps /\ increasing (-1) ns /\
    (forall x, ix_has ins' x <-> ix_has ins x \/ (x ∈ tv_index <$> rows /\ x ∉ ns)) /\
    Forall2 (fun p n => exists r1 r2, r1 ∈ rows /\ r2 ∈ rows /\ prev_tv_index r1 = p /\ tv_index r2 = n /\
      row_index r1 = row_index r2) ps ns) as (Hi & Hps & Hns & Hins & Hsame) by (by destruct Hre as [[]|[]]).
  assert (Hin : Forall2 (fun p n => p ∈ prev_tv_index <$> rows /\ n ∈ tv_index <$> rows) ps ns).
  { eapply Forall2_impl; [exact Hsame|]. intros p n (r1 & r2 & ? & ? & <- & <- & _).
    split; by apply list_elem_of_fmap_2. }
  assert (Hpin : forall p, p ∈ ps -> p ∈ prev_tv_index <$> rows).
  { intros p [i Hp]%list_elem_of_lookup_1. by destruct (Forall2_lookup_l _ _ _ _ _ Hin Hp) as (n & _ & ? & _). }
  assert (Hnin : forall n, n ∈ ns -> n ∈ tv_index <$> rows).
  { intros n [i Hn]%list_elem_of_lookup_1. by destruct (Forall2_lookup_r _ _ _ _ _ Hin Hn) as (p & _ & _ & ?). }
  assert (Hrows : forall j, j ∈ prev_tv_index <$> rows -> j ∈ surviving).
  { intros j (row & -> & Hr)%list_elem_of_fmap. pose proof (ma_located _ _ _ _ _ _ _ Hm) as Hl.
    rewrite Forall_forall in Hl. by apply Hl. }
  assert (Hrange : forall j, j ∈ surviving -> 0 <= j < Z.of_nat (length prev)).
  { intros j Hj. pose proof (ma_bound _ _ _ _ _ _ _ Hm) as Hb. pose proof (increasing_bound _ _ (ma_surviving _ _ _ _ _ _ _ Hm)) as Hb'.
    rewrite Forall_forall in Hb, Hb'. specialize (Hb _ Hj). specialize (Hb' _ Hj). lia. }
  split; try done.
  - intros j. rewrite Hfin, (ma_deleted _ _ _ _ _ _ _ Hm), (ma_gone _ _ _ _ _ _ _ Hm).
    specialize (Hpin j). specialize (Hrows j). specialize (Hrange j).
    destruct (decide (j ∈ surviving)), (decide (j ∈ prev_tv_index <$> rows)), (decide (j ∈ ps)); tauto.
  - intros j. rewrite Hins, (ma_came _ _ _ _ _ _ _ Hm). specialize (Hnin j).
    assert (j ∈ tv_index <$> rows -> 0 <= j < Z.of_nat (length next)) as Hj.
    { intros (row & -> & Hr)%list_elem_of_fmap. pose proof (ma_located _ _ _ _ _ _ _ Hm) as Hl.
      rewrite Forall_forall in Hl. by apply Hl. }
    destruct (decide (j ∈ tv_index <$> rows)), (decide (j ∈ ns)); tauto.
  - eapply Forall2_impl; [exact Hsame|]. intros p n (r1 & r2 & H1 & H2 & <- & <- & E).
    pose proof (ma_row _ _ _ _ _ _ _ Hm) as Hr. rewrite Forall_forall in Hr.
    exists (row_index r1). split; [by apply Hr|]. rewrite E. by apply Hr.
Qed.

(** Rows that are no candidates are only overtaken by rows that moved. *)
Definition moved_forward prev next cand : Prop :=
  forall i j i' j' x y, prev !! i = Some x -> next !! j = Some x -> prev !! i' = Some y -> next !! j' = Some y ->
  (j < j')%nat -> ~ ix_has cand x -> (i < i')%nat.

Lemma moved_forward_rows prev next del removed ins rows surviving cand :
  matched prev next del removed ins rows surviving -> moved_forward prev next cand -> overtaken_by_moves cand rows.
Proof.
  intros Hm Hf pre row post E Hc. apply Forall_forall. intros later Hin.
  pose proof (ma_row _ _ _ _ _ _ _ Hm) as Hr. rewrite Forall_forall in Hr.
  assert (row ∈ rows) as Hrow by (rewrite E; apply elem_of_app; right; left).
  assert (later ∈ rows) as Hlater by (rewrite E; apply elem_of_app; right; by right).
  destruct (Hr _ Hrow) as [Hp Hn]. destruct (Hr _ Hlater) as [Hp' Hn'].
  pose proof (matched_nonneg _ _ _ _ _ _ _ _ Hm Hrow). pose proof (matched_nonneg _ _ _ _ _ _ _ _ Hm Hlater).
  assert (0 <= tv_index row < tv_index later) as Htv.
  { pose proof (ma_new _ _ _ _ _ _ _ Hm) as Hinc. rewrite E, fmap_app, fmap_cons in Hinc.
    pose proof (increasing_bound _ _ Hinc) as Hb. rewrite Forall_forall in Hb. specialize (Hb (tv_index row) ltac:(apply elem_of_app; right; left)).
    split; [lia|]. apply list_elem_of_lookup_1 in Hin as [k Hk].
    apply (increasing_lookup _ _ (length (tv_index <$> pre)) (length (tv_index <$> pre) + S k) _ _ Hinc).
    - by apply list_lookup_middle.
    - rewrite lookup_app_r by lia. replace (_ + S k - _)%nat with (S k) by lia. simpl. by rewrite list_lookup_fmap, Hk.
    - lia. }
  specialize (Hf _ _ _ _ _ _ Hp Hn Hp' Hn' ltac:(lia) Hc). lia.
Qed.

Lemma scan_reordered rows removed ins surviving n kept moved expected removed' ins' ms :
  (forall j, ix_has removed j <-> j ∈ surviving /\ j ∉ prev_tv_index <$> rows) ->
  (forall j, ix_has ins j <-> 0 <= j < n /\ j ∉ tv_index <$> rows) ->
  Forall (located surviving n) rows -> kept `sublist_of` rows ->
  scanned surviving n kept moved [] expected removed' ins' ms ->
  reordered rows removed ins removed' ins' (prev_tv_index <$> kept) (tv_index <$> kept).
Proof.
  intros Hrem Hins Hloc Hsub [Hr Hi Hg Hc Hn Hd Ho _ _ _]. rewrite !app_nil_r in *.
  assert (Hin : forall row, row ∈ kept -> row ∈ rows).
  { intros row Hk. apply sublist_submseteq in Hsub. by eapply elem_of_submseteq. }
  rewrite Forall_forall in Hloc. split; try done.
  - intros x. rewrite Hg, Hrem. assert (x ∈ prev_tv_index <$> rows -> x ∈ surviving) as Hx.
    { intros (row & -> & Hrow)%list_elem_of_fmap. by apply Hloc. }
    assert (x ∈ prev_tv_index <$> kept -> x ∈ prev_tv_index <$> rows) as Hk.
    { intros (row & -> & Hrow)%list_elem_of_fmap. by apply list_elem_of_fmap_2, Hin. }
    destruct (decide (x ∈ prev_tv_index <$> rows)), (decide (x ∈ prev_tv_index <$> kept)); tauto.
  - intros x. rewrite Hc, Hins. assert (x ∈ tv_index <$> rows -> 0 <= x < n) as Hx.
    { intros (row & -> & Hrow)%list_elem_of_fmap. by apply Hloc. }
    assert (x ∈ tv_index <$> kept -> x ∈ tv_index <$> rows) as Hk.
    { intros (row & -> & Hrow)%list_elem_of_fmap. by apply list_elem_of_fmap_2, Hin. }
    destruct (decide (x ∈ tv_index <$> rows)), (decide (x ∈ tv_index <$> kept)); tauto.
  - apply Forall2_fmap, Forall_Forall2_diag, Forall_forall. intros row Hk. exists row, row. by split; [apply Hin|split; [apply Hin|]].
Qed.
(** *** The moves *)
Lemma to_moves_to (l : list RowInfo) : to <$> (to_move <$> l) = tv_index <$> l.
Proof. by rewrite <- list_fmap_compose. Qed.
Lemma to_moves_from (l : list RowInfo) : from <$> (to_move <$> l) = prev_tv_index <$> l.
Proof. by rewrite <- list_fmap_compose. Qed.

Lemma move_source_to_move (l : list RowInfo) j f :
  move_source (to_move <$> l) j = Some f -> exists row, row ∈ l /\ tv_index row = j /\ prev_tv_index row = f.
Proof.
  induction l as [|row l IH]; [done|]. simpl. destruct (Z.eqb_spec (tv_index row) j) as [<-|_].
  - intros [= <-]. exists row. split; [left|done].
  - intros Hf. destruct (IH Hf) as (row' & ? & ?). exists row'. split; [by right|done].
Qed.

(** [ret] is a right answer for the lists. *)
Record calculated prev next (did : Z -> bool) (ret : CollectionChangeBuilder IS) : Prop := {
  ca_ok : ok ret;
  ca_applies : apply_changes prev next (deletions ret) (insertions ret) = Some next;
  ca_tracks j k : 0 <= j < Z.of_nat (length next) -> tracks ret j = Some k ->
    exists x, prev !! Z.to_nat k = Some x /\ next !! Z.to_nat j = Some x;
  ca_modified j : ix_has (modifications ret) j ->
    exists x, next !! Z.to_nat j = Some x /\ x ∈ prev /\ did x = true;
  ca_modified_all j x : NoDup (filter (fun y => y <> npos) prev) -> NoDup next ->
    0 <= j -> next !! Z.to_nat j = Some x -> x ∈ prev -> x <> npos -> did x = true ->
    ix_has (modifications ret) j
}.

(** Finishing: the moved rows are a part of the paired ones, outside the ones
    that stay. *)
Lemma finish prev next did del removed ins rows surviving ps ns final ins' modified moved :
  matched prev next del removed ins rows surviving -> aligned prev next final ins' ps ns -> ix_valid modified ->
  (forall j, ix_has modified j <-> exists row, row ∈ rows /\ did (row_index row) = true /\ tv_index row = j) ->
  moved ⊆ rows -> NoDup (prev_tv_index <$> moved) -> NoDup (tv_index <$> moved) ->
  (forall row, row ∈ moved -> (prev_tv_index row ∉ ps) /\ (tv_index row ∉ ns)) ->
  let ret := mkBuilder final ins' modified (to_move <$> moved) [] ∅ true in
  verify ret = Some tt /\ check_calculated prev next final ins' = Some tt /\ calculated prev next did ret.
Proof.
  intros Hm Ha Hv Hmod Hsub Hnf Hnt Hout ret.
  pose proof (ma_row _ _ _ _ _ _ _ Hm) as Hrow. rewrite Forall_forall in Hrow.
  pose proof (ma_located _ _ _ _ _ _ _ Hm) as Hloc. rewrite Forall_forall in Hloc.
  assert (ok ret) as Hok.
  { split; simpl; try apply Ha; try done; [|by rewrite to_moves_to|by rewrite to_moves_from].
    apply Forall_fmap, Forall_forall. intros row Hin. destruct (Hout _ Hin) as [Hop Hon]. apply Hsub in Hin.
    simpl. split.
    - apply (al_deleted _ _ _ _ _ _ Ha). split; [|done]. destruct (Hrow _ Hin) as [E%in_length _].
      pose proof (matched_nonneg _ _ _ _ _ _ _ _ Hm Hin). lia.
    - apply (al_inserted _ _ _ _ _ _ Ha). split; [|done]. by apply Hloc. }
  pose proof (aligned_apply _ _ _ _ _ _ Ha) as Happ.
  split; [by apply verify_ok|]. split.
  - unfold check_calculated. destruct realm_debug; [|done]. rewrite Happ. cbn [mbind option_bind].
    unfold realm_assert. by rewrite bool_decide_eq_true_2.
  - split; [done|done| | |].
    + intros j k Hj. unfold tracks. simpl. destruct (move_source (to_move <$> moved) j) as [f|] eqn:E.
      * intros [= <-]. apply move_source_to_move in E as (row & Hin%Hsub & <- & <-). exists (row_index row). by apply Hrow.
      * unfold origin. case_decide as Hi; [done|]. intros [= <-]. by eapply aligned_origin.
    + simpl. intros j (row & Hin & Hd & <-)%Hmod. destruct (Hrow _ Hin) as [Hp Hn].
      exists (row_index row). split; [done|]. split; [by eapply list_elem_of_lookup_2|done].
    + simpl. intros j x H1 H2 H3 H4 H5 H6 Hd. apply Hmod.
      destruct (ma_complete _ _ _ _ _ _ _ Hm j x H1 H2 H3 H4 H5 H6) as (row & ? & ? & <-). by exists row.
Qed.

(** The union of the deletions and the removed rows *)
Lemma final_deletions s t : ix_valid s -> ix_valid t ->
  gives (ix_add_set s t) (fun s' => ix_valid s' /\ forall j, ix_has s' j <-> ix_has t j \/ ix_has s j).
Proof. apply ix_add_set_has. Qed.

Lemma calculate_spec prev next did candidates :
  Z.of_nat (length prev) < npos ->
  match candidates with
  | None => True
  | Some cand => ix_valid cand /\ Sorted.Sorted Z.le next /\ moved_forward prev next cand
  end ->
  gives (calculate prev next did candidates) (calculated prev next did).
Proof.
  intros Hlen Hcand. unfold calculate.
  assert (realm_assert_debug (Some match candidates with
      | Some _ => bool_decide (Sorted.Sorted Z.le next) | None => true end) = Some tt) as ->.
  { unfold realm_assert_debug, realm_assert. destruct realm_debug; [|done]. simpl.
    destruct candidates; [|done]. rewrite bool_decide_eq_true_2; [done|apply Hcand]. }
  cbn [mbind option_bind].
  destruct (matching prev next Hlen) as (old & del & new & removed & ins & surviving & -> & Hrest).
  cbn [mbind option_bind]. destruct Hrest as [-> Hm]. cbn [mbind option_bind].
  set (rows := kept_rows new) in *.
  destruct (modified_rows_spec did rows ix_nil ix_nil_valid) as (modified & -> & Hmv & Hmod).
  { eapply Forall_impl; [exact (ma_located _ _ _ _ _ _ _ Hm)|]. intros row (_ & _ & ?). lia. }
  cbn [mbind option_bind].
  assert (Hmod' : forall j, ix_has modified j <-> exists row, row ∈ rows /\ did (row_index row) = true /\ tv_index row = j).
  { intros j. rewrite Hmod. split; [|by right]. intros [Hj|Hj]; [|done]. unfold ix_has in Hj. by rewrite ix_nil_ranges in Hj. }
  pose proof (ma_del _ _ _ _ _ _ _ Hm) as Hd. pose proof (ma_removed _ _ _ _ _ _ _ Hm) as Hr.
  destruct candidates as [cand|].
  - destruct Hcand as (Hcv & _ & Hfw). unfold calculate_moves_unsorted.
    destruct (scan_spec cand Hcv surviving (Z.of_nat (length next)) (ma_surviving _ _ _ _ _ _ _ Hm) rows removed ins)
      as (kept & moved & e' & removed' & ins' & ms & E & Hp & Hsub & Hs).
    { apply Hm. } { by eapply moved_forward_rows. }
    { split; try (by apply Hm); try done. apply Forall_forall. constructor. }
    rewrite E. cbn [mbind option_bind].
    pose proof (scan_reordered rows removed ins surviving _ _ _ _ _ _ _ (ma_gone _ _ _ _ _ _ _ Hm)
      (ma_came _ _ _ _ _ _ _ Hm) (ma_located _ _ _ _ _ _ _ Hm) Hsub Hs) as Hre.
    destruct (ix_add_set_has del removed' Hd (re_del _ _ _ _ _ _ _ Hre)) as (final & -> & Hfv & Hfm).
    cbn [mbind option_bind].
    assert (aligned prev next final ins' (prev_tv_index <$> kept) (tv_index <$> kept)) as Ha.
    { eapply matched_aligned; [exact Hm|by right|done|]. intros j. rewrite Hfm, (re_deleted _ _ _ _ _ _ _ Hre). tauto. }
    pose proof (ma_old _ _ _ _ _ _ _ Hm) as Hno. pose proof (increasing_NoDup _ _ (ma_new _ _ _ _ _ _ _ Hm)) as Hnn.
    rewrite <- Hp, fmap_app in Hno, Hnn. apply NoDup_app in Hno as (_ & Hno' & Hno). apply NoDup_app in Hnn as (_ & Hnn' & Hnn).
    destruct (finish prev next did del removed ins rows surviving _ _ final ins' modified moved Hm Ha Hmv Hmod')
      as (Hver & Hchk & Hcalc); [|done|done| |].
    { intros row Hin. rewrite <- Hp. apply elem_of_app. by right. }
    { intros row Hin. split; intros Hk; [apply (Hno' _ Hk)|apply (Hnn' _ Hk)]; by apply list_elem_of_fmap_2. }
    rewrite (sc_moves _ _ _ _ _ _ _ _ _ Hs). rewrite Hver. cbn [mbind option_bind]. rewrite Hchk. cbn [mbind option_bind].
    eexists. by split.
  - destruct (calculate_moves_sorted_spec rows modified del ins (matched_paired _ _ _ _ _ _ _ Hm) Hmv Hd (ma_ins _ _ _ _ _ _ _ Hm))
      as (del' & ins' & ps & ns & E & Hre).
    rewrite E. cbn [mbind option_bind].
    destruct (ix_add_set_has del' removed (re_del _ _ _ _ _ _ _ Hre) Hr) as (final & -> & Hfv & Hfm).
    cbn [mbind option_bind].
    assert (aligned prev next final ins' ps ns) as Ha.
    { eapply matched_aligned; [exact Hm|by left|done|]. intros j. rewrite Hfm, (re_deleted _ _ _ _ _ _ _ Hre). tauto. }
    destruct (finish prev next did del removed ins rows surviving ps ns final ins' modified [] Hm Ha Hmv Hmod')
      as (Hver & Hchk & Hcalc); [by intros row []%elem_of_nil|constructor|constructor|by intros row []%elem_of_nil|].
    cbn [fmap list_fmap] in Hver. rewrite Hver. cbn [mbind option_bind]. rewrite Hchk. cbn [mbind option_bind].
    eexists. by split.
Qed.
End calculate.

(** ** Theorems about [CollectionChangeBuilder::calculate] *)
Import Calc.

Section theorems.
Context `{IndexSetLaws IS} {BM : BuildMode} {ST : StdSort}.

(** C16: without move candidates the change set computed from two lists of rows
    exists (no assertion fails and the search ends), satisfies the builder's
    invariant, turns the old list into the new one, and says truly of every row
    of the new list where it was; duplicates and deleted rows are allowed. *)
Theorem calculate_sorted (prev next : list Z) did :
  Z.of_nat (length prev) < npos ->
  exists ret, calculate (IS := IS) prev next did None = Some ret /\ ok ret /\
    apply_changes prev next (deletions ret) (insertions ret) = Some next /\
    forall j k, 0 <= j < Z.of_nat (length next) -> tracks ret j = Some k ->
      exists x, prev !! Z.to_nat k = Some x /\ next !! Z.to_nat j = Some x.
Proof.
  intros Hlen. destruct (calculate_spec prev next did None Hlen Logic.I) as (ret & E & [Hok Ha Ht _ _]).
  exists ret. by repeat (split; [done|]).
Qed.

(** the same with move candidates, for a table in table order whose rows
    are only overtaken by candidates that moved forward. *)
Theorem calculate_table_order (prev next : list Z) did (cand : IS) :
  Z.of_nat (length prev) < npos -> ix_valid cand -> Sorted.Sorted Z.le next -> moved_forward prev next cand ->
  exists ret, calculate prev next did (Some cand) = Some ret /\ ok ret /\
    apply_changes prev next (deletions ret) (insertions ret) = Some next /\
    forall j k, 0 <= j < Z.of_nat (length next) -> tracks ret j = Some k ->
      exists x, prev !! Z.to_nat k = Some x /\ next !! Z.to_nat j = Some x.
Proof.
  intros Hlen Hc Hs Hf. destruct (calculate_spec prev next did (Some cand) Hlen) as (ret & E & [Hok Ha Ht _ _]);
    [by split|]. exists ret. by repeat (split; [done|]).
Qed.

(** for lists without duplicates the modified positions are exactly those
    of the changed rows that were in the old list. *)
Theorem calculate_modifications (prev next : list Z) did :
  Z.of_nat (length prev) < npos -> NoDup (filter (fun y => y <> npos) prev) -> NoDup next -> npos ∉ next ->
  exists ret, calculate (IS := IS) prev next did None = Some ret /\
    forall j, 0 <= j -> ix_has (modifications ret) j <->
      exists x, next !! Z.to_nat j = Some x /\ x ∈ prev /\ did x = true.
Proof.
  intros Hlen Hp Hn Hnp. destruct (calculate_spec prev next did None Hlen Logic.I) as (ret & E & [_ _ _ Hm Hall]).
  exists ret. split; [done|]. intros j Hj. split; [apply Hm|]. intros (x & Hx & Hin & Hd).
  apply (Hall j x); try done. intros ->. apply Hnp. by eapply list_elem_of_lookup_2.
Qed.
End theorems.

(** ** Concrete runs *)
Section witnesses.
#[local] Existing Instance debug_chunk_size.
#[local] Instance debug_build : BuildMode := {| realm_debug := true |}.

(** One row deleted, one no longer in the list, one new, the rest reordered. *)
Definition sorted_prev : list Z := [5; 3; npos; 8; 9].
Definition sorted_next : list Z := [9; 5; 3; 7; 8].

Lemma calculate_sorted_witness :
  Z.of_nat (length sorted_prev) < npos /\
  exists ret, calculate (IS := crv) sorted_prev sorted_next (fun row => row =? 8) None = Some ret /\ ok ret /\
    apply_changes sorted_prev sorted_next (deletions ret) (insertions ret) = Some sorted_next /\
    forall j k, 0 <= j < Z.of_nat (length sorted_next) -> tracks ret j = Some k ->
      exists x, sorted_prev !! Z.to_nat k = Some x /\ sorted_next !! Z.to_nat j = Some x.
Proof. split; [done|]. by apply (calculate_sorted sorted_prev sorted_next (fun row => row =? 8)). Defined.

(** The last row of the table was moved over the first one, which is gone. *)
Definition moved_prev : list Z := [npos; 1; 2; 0].
Definition moved_next : list Z := [0; 1; 2].
Definition moved_rows : crv := default [] (IndexSet.of_list [0]).

Lemma moved_rows_valid : ix_valid moved_rows.
Proof.
  destruct (of_list_correct [0]) as (d & E & Hinv & _); [by constructor|].
  unfold moved_rows. rewrite E. exact Hinv.
Qed.

Lemma calculate_table_order_witness :
  Z.of_nat (length moved_prev) < npos /\ moved_forward moved_prev moved_next moved_rows /\
  exists ret, calculate moved_prev moved_next (fun row => row =? 2) (Some moved_rows) = Some ret /\ ok ret /\
    apply_changes moved_prev moved_next (deletions ret) (insertions ret) = Some moved_next /\
    forall j k, 0 <= j < Z.of_nat (length moved_next) -> tracks ret j = Some k ->
      exists x, moved_prev !! Z.to_nat k = Some x /\ moved_next !! Z.to_nat j = Some x.
Proof.
  assert (moved_forward moved_prev moved_next moved_rows) as Hf.
  { intros i j i' j' x y Hi Hj Hi' Hj' Hlt Hc.
    destruct j as [|[|[|j]]]; simpl in Hj; try done; injection Hj as <-;
      destruct j' as [|[|[|j']]]; simpl in Hj'; try done; injection Hj' as <-; try lia;
      destruct i as [|[|[|[|i]]]]; simpl in Hi; try done;
      destruct i' as [|[|[|[|i']]]]; simpl in Hi'; try done; try lia;
      exfalso; apply Hc; left; simpl; lia. }
  split; [done|]. split; [done|].
  apply (calculate_table_order moved_prev moved_next (fun row => row =? 2) moved_rows); [done|apply moved_rows_valid| |exact Hf].
  apply (bool_decide_unpack _). vm_compute. exact Logic.I.
Defined.

Lemma calculate_modifications_witness :
  NoDup (filter (fun y => y <> npos) sorted_prev) /\ NoDup sorted_next /\
  exists ret, calculate (IS := crv) sorted_prev sorted_next (fun row => row =? 8) None = Some ret /\
    forall j, 0 <= j -> ix_has (modifications ret) j <->
      exists x, sorted_next !! Z.to_nat j = Some x /\ x ∈ sorted_prev /\ (x =? 8) = true.
Proof.
  assert (NoDup (filter (fun y => y <> npos) sorted_prev)) as Hp by (apply (bool_decide_unpack _); vm_compute; exact Logic.I).
  assert (NoDup sorted_next) as Hn by (apply (bool_decide_unpack _); vm_compute; exact Logic.I).
  split; [done|]. split; [done|].
  apply (calculate_modifications sorted_prev sorted_next (fun row => row =? 8)); [done|done|done|].
  apply (bool_decide_unpack _). vm_compute. exact Logic.I.
Defined.
End witnesses.

Section counterexample.
#[local] Existing Instance debug_chunk_size.
#[local] Instance debug_build' : BuildMode := {| realm_debug := true |}.

(** the change set need not be the smallest: comparing an index into the
    old list with a bound of the new one makes the search skip the row 5, which
    is then deleted and inserted again although it could have stayed. *)
Theorem calculate_not_minimal :
  exists ret (del ins : crv),
    calculate [1; 3; 4; 5; 6; 10; 11; 12] [3; 5; 10; 11; 12; 1; 4; 6] (fun _ => false) None = Some ret /\
    elems (ix_ranges (deletions ret)) = [0; 2; 3; 4] /\ elems (ix_ranges (insertions ret)) = [1; 5; 6; 7] /\
    apply_changes [1; 3; 4; 5; 6; 10; 11; 12] [3; 5; 10; 11; 12; 1; 4; 6] del ins
      = Some [3; 5; 10; 11; 12; 1; 4; 6] /\
    elems (ix_ranges del) = [0; 2; 4] /\ elems (ix_ranges ins) = [5; 6; 7].
Proof.
  exists (default ChangeBuilder.empty_builder
    (calculate [1; 3; 4; 5; 6; 10; 11; 12] [3; 5; 10; 11; 12; 1; 4; 6] (fun _ => false) None)),
    (default [] (IndexSet.of_list [0; 2; 4])), (default [] (IndexSet.of_list [5; 6; 7])).
  vm_compute. repeat split.
Qed.
End counterexample.
