(* ===== verification/TransactLog.v ===== *)
(** * The transaction log observers

    Models the instruction handlers of [impl/transact_log_handler.cpp]: the
    validator that only rejects unsupported schema changes, and the observer
    that routes every instruction to the change builders of the tables and
    lists that need change information.  The change builders the observer
    points to live in the vector [tables] or, for lists, in a store owned by
    somebody else; a pointer into [tables] that the vector has outgrown cannot
    be used any more.  [None] is a failed assertion or such a pointer. *)
From stdpp Require Import list.
From S2P Require Import Prelude.
From S2P Require Import RangeList.
From S2P Require Import IndexSets.
From S2P Require Import IndexSetInterface.
From S2P Require Import ChangeBuilder.

(** ** The instructions of the log *)

(** The setters of a cell that carry an instruction kind *)
Inductive Setter := set_int | set_bool | set_float | set_double | set_string | set_binary
  | set_olddatetime | set_timestamp | set_table | set_mixed | set_link | set_null.

(** [_impl::Instruction], as far as the handlers tell its values apart *)
Inductive SetKind := instr_Set | instr_SetDefault | instr_SetUnique.
#[global] Instance SetKind_eq_dec : EqDecision SetKind.
Proof. solve_decision. Defined.

(** The other changes of a cell *)
Inductive Updater := add_int | nullify_link | insert_substring | erase_substring.

Inductive Instruction :=
(* cells *)
| set_cell (f : Setter) (col : nat) (row : Z) (instr : SetKind)
| update_cell (f : Updater) (col : nat) (row : Z)
| set_int_unique (col : nat) (row : Z)
| set_string_unique (col : nat) (row : Z)
(* selection *)
| select_table (group_level_ndx : nat) (len : nat) (path : list Z)
| select_descriptor (levels : nat)
| select_link_list (col : nat) (row : Z)
(* rows *)
| insert_empty_rows (row_ndx num_rows_to_insert prior_num_rows : Z) (unordered : bool)
| add_row_with_key (row_ndx prior_num_rows : Z)
| erase_rows (row_ndx num_rows prior_num_rows : Z) (unordered : bool)
| swap_rows (row_ndx_1 row_ndx_2 : Z)
| move_row (from_ndx to_ndx : Z)
| merge_rows (from to : Z)
| clear_table
(* lists *)
| link_list_set (index : Z)
| link_list_insert (index : Z)
| link_list_erase (index prior_size : Z)
| link_list_nullify (index prior_size : Z)
| link_list_swap (index1 index2 : Z)
| link_list_clear (old_size : Z)
| link_list_move (from to : Z)
(* schema changes which are supported *)
| insert_column (ndx : nat)
| insert_link_column (ndx : nat)
| move_column (from to : nat)
| insert_group_level_table (ndx : nat)
| move_group_level_table (from to : nat)
| add_search_index (col : nat)
| remove_search_index (col : nat)
| set_link_type (col : nat)
| optimize_table
(* schema changes which are not *)
| erase_group_level_table (ndx : nat)
| rename_group_level_table (ndx : nat)
| erase_column (ndx : nat)
| erase_link_column (ndx : nat)
| rename_column (ndx : nat).

(** A handler goes on, throws [UnsupportedSchemaChange], or fails. *)
Inductive Outcome (A : Type) := Handled (a : A) | UnsupportedSchemaChange | Failed.
Arguments Handled {A}.
Arguments UnsupportedSchemaChange {A}.
Arguments Failed {A}.

Definition handled {A} (o : option A) : Outcome A :=
  match o with Some a => Handled a | None => Failed end.

Definition outcome_bind {A B} (o : Outcome A) (f : A -> Outcome B) : Outcome B :=
  match o with Handled a => f a | UnsupportedSchemaChange => UnsupportedSchemaChange | Failed => Failed end.

(** A log is handled in order. *)
Fixpoint handle_all {A} (h : A -> Instruction -> Outcome A) (log : list Instruction) (a : A) : Outcome A :=
  match log with
  | [] => Handled a
  | i :: log => outcome_bind (h a i) (handle_all h log)
  end.

(** ** Vector helpers *)

(** [container.resize(n)] with default values *)
Definition vec_resize {A} (d : A) (n : nat) (l : list A) : list A := l ++ replicate (n - length l) d.

(** [rotate]: move a value, shifting everything in between *)
Definition rotate {A} (d : A) (l : list A) (from_ to_ : nat) : option (list A) :=
  _ ← realm_assert (negb (from_ =? to_)%nat);
  let n := length l in
  if (n <=? from_)%nat && (n <=? to_)%nat then Some l
  else
    let l := if (n <=? from_)%nat || (n <=? to_)%nat then vec_resize d (Nat.max from_ to_ + 1) l else l in
    Some (if (from_ <? to_)%nat then ChangeBuilder.rotate from_ (from_ + 1) (to_ + 1) l
          else ChangeBuilder.rotate to_ from_ (from_ + 1) l).

(** [insert_empty_at] *)
Definition insert_empty_at {A} (d : A) (l : list A) (pos : nat) : list A :=
  if (pos <? length l)%nat then take pos l ++ d :: drop pos l else l.

(** [adjust_for_move(size_t&, ...)] *)
Definition adjust_for_move (value from_ to_ : nat) : nat :=
  if (value =? from_)%nat then to_
  else if (from_ <? value)%nat && (value <=? to_)%nat then (value - 1)%nat
  else if (value <? from_)%nat && (to_ <=? value)%nat then (value + 1)%nat
  else value.

(** [adjust_for_move(std::vector<size_t>&, ...)] *)
Definition adjust_all_for_move (values : list nat) (from_ to_ : nat) : list nat :=
  (fun v => adjust_for_move v from_ to_) <$> values.

(** [adjust_ge] *)
Definition adjust_ge (values : list nat) (i : nat) : list nat :=
  (fun v => if (i <=? v)%nat then (v + 1)%nat else v) <$> values.

(** [std::iota] on [size_t] *)
Fixpoint iota (n : nat) (start : Z) : list Z :=
  match n with
  | O => []
  | S n => start :: iota n ((start + 1) mod 2 ^ 64)
  end.

(** [expand_to] *)
Definition expand_to (cols : list Z) (i : nat) : list Z :=
  let old_size := length cols in
  if (i <? old_size)%nat then cols
  else
    cols ++ iota (Nat.max (old_size * 2) (i + 1) - old_size)
      (match last cols with None => 0 | Some c => (c + 1) mod 2 ^ 64 end).

(** ** The state *)

(** [ListChangeInfo]; [changes] is the position of the builder in the store *)
Record ListChangeInfo := mkListChangeInfo {
  table_ndx : nat;
  row_ndx : Z;
  col_ndx : nat;
  changes : nat
}.
#[global] Instance ListChangeInfo_eq_dec : EqDecision ListChangeInfo.
Proof. solve_decision. Defined.

(** [TransactionChangeInfo] *)
Record TransactionChangeInfo {IS : Type} := mkInfo {
  table_modifications_needed : list bool;
  table_moves_needed : list bool;
  lists : list ListChangeInfo;
  tables : list (CollectionChangeBuilder IS);
  column_indices : list (list Z);
  table_indices : list nat;
  track_all : bool;
  schema_changed : bool
}.
Arguments TransactionChangeInfo : clear implicits.
Arguments mkInfo {IS}.

(** A pointer to a builder: an element of [tables] as long as the vector has
    not been reallocated since the time [epoch], or the builder of a list *)
Inductive Target := InTables (epoch ndx : nat) | InList (loc : nat).
#[global] Instance Target_eq_dec : EqDecision Target.
Proof. solve_decision. Defined.

(** [TransactLogObserver], its base classes' fields included, with the builders
    of the lists ([m_builders]) and the number of times the storage of
    [m_info.tables] has been invalidated ([m_epoch]) *)
Record TransactLogObserver {IS : Type} := mkObserver {
  m_info : TransactionChangeInfo IS;
  m_builders : list (CollectionChangeBuilder IS);
  m_epoch : nat;
  m_current_table : nat;
  m_active_list : option nat;
  m_active_table : option Target;
  m_active_descriptor : option Target;
  m_need_move_info : bool;
  m_is_top_level_table : bool
}.
Arguments TransactLogObserver : clear implicits.
Arguments mkObserver {IS}.

(** ** [MarkDirtyMixin] over the [mark_dirty] of the derived class *)
Section mark_dirty_mixin.
Context {St : Type} (mark_dirty : Z -> nat -> St -> option St).

Definition mark_dirty_instr (row : Z) (col : nat) (instr : SetKind) (s : St) : option St :=
  if decide (instr = instr_Set) then mark_dirty row col s else Some s.

(** The handlers of the mixin; [None] for the instructions it does not handle *)
Definition mixin_handle (s : St) (i : Instruction) : option (option St) :=
  match i with
  | set_cell _ col row instr => Some (mark_dirty_instr row col instr s)
  | update_cell _ col row => Some (mark_dirty_instr row col instr_Set s)
  | set_int_unique _ _ | set_string_unique _ _ | add_row_with_key _ _ => Some (Some s)
  | _ => None
  end.
End mark_dirty_mixin.

(** ** [TransactLogValidationMixin]: the state is [m_current_table] *)
Definition validation_handle (current_table : nat) (i : Instruction) : Outcome nat :=
  match i with
  | select_table group_level_ndx _ _ => Handled group_level_ndx
  | erase_group_level_table _ | rename_group_level_table _ | erase_column _
  | erase_link_column _ | rename_column _ => UnsupportedSchemaChange
  | _ => Handled current_table
  end.

(** [TransactLogValidator] *)
Definition validate (current_table : nat) (i : Instruction) : Outcome nat :=
  match mixin_handle (fun _ _ s => Some s) current_table i with
  | Some r => handled r
  | None => validation_handle current_table i
  end.

Module LogObserver.
Section log_observer.
Context `{IndexSetOps IS} `{BuildMode}.
Abbreviation builder := (CollectionChangeBuilder IS).
Abbreviation observer := (TransactLogObserver IS).
Implicit Types (o : observer) (b : builder).

(** *** Assignments to single fields *)
Definition set_lists (x : list ListChangeInfo) (i : TransactionChangeInfo IS) : TransactionChangeInfo IS :=
  mkInfo (table_modifications_needed i) (table_moves_needed i) x (tables i)
    (column_indices i) (table_indices i) (track_all i) (schema_changed i).
Definition set_tables (x : list builder) (i : TransactionChangeInfo IS) : TransactionChangeInfo IS :=
  mkInfo (table_modifications_needed i) (table_moves_needed i) (lists i) x
    (column_indices i) (table_indices i) (track_all i) (schema_changed i).
Definition set_column_indices (x : list (list Z)) (i : TransactionChangeInfo IS) : TransactionChangeInfo IS :=
  mkInfo (table_modifications_needed i) (table_moves_needed i) (lists i) (tables i)
    x (table_indices i) (track_all i) (schema_changed i).
Definition set_table_indices (x : list nat) (i : TransactionChangeInfo IS) : TransactionChangeInfo IS :=
  mkInfo (table_modifications_needed i) (table_moves_needed i) (lists i) (tables i)
    (column_indices i) x (track_all i) (schema_changed i).
Definition set_needed (mods mvs : list bool) (i : TransactionChangeInfo IS) : TransactionChangeInfo IS :=
  mkInfo mods mvs (lists i) (tables i)
    (column_indices i) (table_indices i) (track_all i) (schema_changed i).
Definition set_schema_changed (i : TransactionChangeInfo IS) : TransactionChangeInfo IS :=
  mkInfo (table_modifications_needed i) (table_moves_needed i) (lists i) (tables i)
    (column_indices i) (table_indices i) (track_all i) true.

Definition set_info (x : TransactionChangeInfo IS) o : observer :=
  mkObserver x (m_builders o) (m_epoch o) (m_current_table o) (m_active_list o) (m_active_table o)
    (m_active_descriptor o) (m_need_move_info o) (m_is_top_level_table o).
Definition set_builders (x : list builder) o : observer :=
  mkObserver (m_info o) x (m_epoch o) (m_current_table o) (m_active_list o) (m_active_table o)
    (m_active_descriptor o) (m_need_move_info o) (m_is_top_level_table o).
Definition set_epoch (x : nat) o : observer :=
  mkObserver (m_info o) (m_builders o) x (m_current_table o) (m_active_list o) (m_active_table o)
    (m_active_descriptor o) (m_need_move_info o) (m_is_top_level_table o).
Definition set_active_list (x : option nat) o : observer :=
  mkObserver (m_info o) (m_builders o) (m_epoch o) (m_current_table o) x (m_active_table o)
    (m_active_descriptor o) (m_need_move_info o) (m_is_top_level_table o).
Definition set_active_table (x : option Target) o : observer :=
  mkObserver (m_info o) (m_builders o) (m_epoch o) (m_current_table o) (m_active_list o) x
    (m_active_descriptor o) (m_need_move_info o) (m_is_top_level_table o).
Definition set_active_descriptor (x : option Target) o : observer :=
  mkObserver (m_info o) (m_builders o) (m_epoch o) (m_current_table o) (m_active_list o) (m_active_table o)
    x (m_need_move_info o) (m_is_top_level_table o).
Definition set_need_move_info (x : bool) o : observer :=
  mkObserver (m_info o) (m_builders o) (m_epoch o) (m_current_table o) (m_active_list o) (m_active_table o)
    (m_active_descriptor o) x (m_is_top_level_table o).
Definition set_top_level (x : bool) o : observer :=
  mkObserver (m_info o) (m_builders o) (m_epoch o) (m_current_table o) (m_active_list o) (m_active_table o)
    (m_active_descriptor o) (m_need_move_info o) x.
Definition set_current_table (x : nat) o : observer :=
  mkObserver (m_info o) (m_builders o) (m_epoch o) x (m_active_list o) (m_active_table o)
    (m_active_descriptor o) (m_need_move_info o) (m_is_top_level_table o).

Definition map_lists (f : ListChangeInfo -> ListChangeInfo) o : observer :=
  set_info (set_lists (f <$> lists (m_info o)) (m_info o)) o.

(** The constructor, for a handler object that starts on [info] *)
Definition observe (info : TransactionChangeInfo IS) (builders : list builder) : observer :=
  mkObserver info builders 0 0 None None None false true.

(** *** Calls through the pointers *)

(** A call of [f] on the builder a pointer points to *)
Definition update_list (loc : nat) (f : builder -> option builder) o : option observer :=
  b ← m_builders o !! loc;
  b ← f b;
  Some (set_builders (<[loc := b]> (m_builders o)) o).

Definition update_target (p : Target) (f : builder -> option builder) o : option observer :=
  match p with
  | InTables epoch ndx =>
    _ ← realm_assert (epoch =? m_epoch o)%nat;
    b ← tables (m_info o) !! ndx;
    b ← f b;
    Some (set_info (set_tables (<[ndx := b]> (tables (m_info o))) (m_info o)) o)
  | InList loc => update_list loc f o
  end.

(** [if (p) p->f(...)] *)
Definition if_active (p : option Target) (f : builder -> option builder) o : option observer :=
  match p with Some p => update_target p f o | None => Some o end.

Definition if_active_list (f : builder -> option builder) o : option observer :=
  match m_active_list o with Some loc => update_list loc f o | None => Some o end.

(** [find_list]: the last entry for the list *)
Definition is_list (tbl col : nat) (row : Z) (l : ListChangeInfo) : bool :=
  (table_ndx l =? tbl)%nat && (row_ndx l =? row) && (col_ndx l =? col)%nat.

Definition find_list (tbl col : nat) (row : Z) o : option nat :=
  changes <$> head (filter (fun l => is_list tbl col row l) (reverse (lists (m_info o)))).

(** [mark_dirty] *)
Definition mark_dirty (row : Z) (col : nat) o : option observer :=
  if_active (m_active_table o) (fun b => ChangeBuilder.modify b row (Z.of_nat col)) o.

(** [parse_complete] *)
Fixpoint complete_tables (l : list builder) : option (list builder) :=
  match l with
  | [] => Some []
  | b :: l => b ← ChangeBuilder.parse_complete b; l ← complete_tables l; Some (b :: l)
  end.

Definition parse_complete o : option observer :=
  t ← complete_tables (tables (m_info o));
  let o := set_info (set_tables t (m_info o)) o in
  fold_option (fun o l => update_list (changes l) ChangeBuilder.clean_up_stale_moves o) (lists (m_info o)) o.

(** *** Selection *)

(** [select_descriptor] *)
Definition on_select_descriptor (levels : nat) o : observer :=
  set_active_descriptor (if (levels =? 0)%nat then m_active_table o else None) o.

(** [v[i]] on a vector of flags after the check [i < v.size()] *)
Definition flag (v : list bool) (i : nat) : bool := default false (v !! i).

(** [m_info.tables] is made large enough for the table *)
Definition ensure_table (tbl_ndx : nat) o : observer :=
  let t := tables (m_info o) in
  if (length t <=? tbl_ndx)%nat then
    set_epoch (m_epoch o + 1)
      (set_info (set_tables (vec_resize ChangeBuilder.empty_builder (Nat.max (length t * 2) (tbl_ndx + 1)) t)
                   (m_info o)) o)
  else o.

(** The selected table is a subtable: its cell has changed. *)
Definition select_subtable (path : list Z) o : option observer :=
  col ← path !! 0%nat;
  row ← path !! 1%nat;
  o ← mark_dirty row (Z.to_nat col) o;
  let o := set_top_level false (set_active_table None o) in
  match find_list (m_current_table o) (Z.to_nat col) row o with
  | Some table => Some (set_need_move_info true (set_active_table (Some (InList table)) o))
  | None => Some o
  end.

(** [select_table] *)
Definition on_select_table (group_level_ndx len : nat) (path : list Z) o : option observer :=
  let o := set_top_level true (set_active_table None (set_current_table group_level_ndx o)) in
  if (1 <? len)%nat then Some (set_top_level false o)
  else
    let tbl_ndx := group_level_ndx in
    let i := m_info o in
    if negb (track_all i) && negb (flag (table_modifications_needed i) tbl_ndx) then Some o
    else
      let o := set_need_move_info (track_all i || flag (table_moves_needed i) tbl_ndx) o in
      let o := ensure_table tbl_ndx o in
      let o := set_active_table (Some (InTables (m_epoch o) tbl_ndx)) o in
      if (len =? 1)%nat then select_subtable path o else Some o.

(** [select_link_list] *)
Definition on_select_link_list (col : nat) (row : Z) o : option observer :=
  o ← mark_dirty row col o;
  Some (set_active_list (find_list (m_current_table o) col row o) o).

(** *** Lists *)
Definition on_link_list_set (index : Z) o : option observer :=
  if_active_list (fun b => ChangeBuilder.modify b index npos) o.
Definition on_link_list_insert (index : Z) o : option observer :=
  if_active_list (fun b => ChangeBuilder.insert b index 1 true) o.
Definition on_link_list_erase (index : Z) o : option observer :=
  if_active_list (fun b => ChangeBuilder.erase b index) o.
Definition on_link_list_swap (index1 index2 : Z) o : option observer :=
  o ← on_link_list_set index1 o;
  on_link_list_set index2 o.
Definition on_link_list_clear (old_size : Z) o : option observer :=
  if_active_list (fun b => ChangeBuilder.clear b old_size) o.
Definition on_link_list_move (from_ to_ : Z) o : option observer :=
  if_active_list (fun b => ChangeBuilder.move b from_ to_) o.

(** *** Rows *)

(** The lists of rows of the current table *)
Definition with_row (f : Z -> Z) (l : ListChangeInfo) : ListChangeInfo :=
  mkListChangeInfo (table_ndx l) (f (row_ndx l)) (col_ndx l) (changes l).

Definition map_rows (f : Z -> Z) o : observer :=
  if m_is_top_level_table o then
    map_lists (fun l => if (table_ndx l =? m_current_table o)%nat then with_row f l else l) o
  else o.

(** [insert_empty_rows], [add_row_with_key] *)
Definition on_insert_empty_rows (row_ndx_ num_rows : Z) o : option observer :=
  o ← if_active (m_active_table o)
        (fun b => ChangeBuilder.insert b row_ndx_ num_rows (m_need_move_info o)) o;
  Some (map_rows (fun r => if row_ndx_ <=? r then r + num_rows else r) o).

(** [erase_rows]: the loop over the lists, [n] turns from [i] on *)
Fixpoint erase_lists (tbl : nat) (row last_row : Z) (n i : nat) (l : list ListChangeInfo) : list ListChangeInfo :=
  match n with
  | O => l
  | S n =>
    match l !! i with
    | None => l
    | Some x =>
      if negb (table_ndx x =? tbl)%nat then erase_lists tbl row last_row n (i + 1) l
      else if row_ndx x =? row then
        let l := match (if (i + 1 <? length l)%nat then last l else None) with
                 | Some y => <[i := y]> l
                 | None => l
                 end in
        erase_lists tbl row last_row n (i + 1) (take (length l - 1) l)
      else
        erase_lists tbl row last_row n (i + 1)
          (if row_ndx x =? last_row then <[i := with_row (fun _ => row) x]> l else l)
    end
  end.

Definition on_erase_rows (row prior_num_rows : Z) (unordered : bool) o : option observer :=
  if negb unordered then if_active (m_active_table o) (fun b => ChangeBuilder.erase b row) o
  else
    let last_row := (prior_num_rows - 1) mod 2 ^ 64 in
    o ← if_active (m_active_table o)
          (fun b => ChangeBuilder.move_over b row last_row (m_need_move_info o)) o;
    if negb (m_is_top_level_table o) then Some o
    else
      let l := lists (m_info o) in
      Some (set_info (set_lists (erase_lists (m_current_table o) row last_row (length l) 0 l) (m_info o)) o).

(** [swap_rows] *)
Definition on_swap_rows (row_1 row_2 : Z) o : option observer :=
  _ ← realm_assert (row_1 <? row_2);
  if negb (m_is_top_level_table o) then
    o ← if_active (m_active_table o) (fun b => ChangeBuilder.move b row_1 row_2) o;
    if row_1 + 1 =? row_2 then Some o
    else if_active (m_active_table o) (fun b => ChangeBuilder.move b (row_2 - 1) row_1) o
  else
    o ← if_active (m_active_table o)
          (fun b => ChangeBuilder.swap b row_1 row_2 (m_need_move_info o)) o;
    Some (map_rows (fun r => if r =? row_1 then row_2 else if r =? row_2 then row_1 else r) o).

(** [move_row] *)
Definition on_move_row (from_ to_ : Z) o : option observer :=
  _ ← realm_assert (bool_decide (m_active_table o = None) || negb (m_is_top_level_table o));
  if_active (m_active_table o) (fun b => ChangeBuilder.move b from_ to_) o.

(** [merge_rows] *)
Definition on_merge_rows (from_ to_ : Z) o : option observer :=
  o ← if_active (m_active_table o)
        (fun b => ChangeBuilder.subsume b from_ to_ (m_need_move_info o)) o;
  Some (map_rows (fun r => if r =? from_ then to_ else r) o).

(** [clear_table] *)
Definition on_clear_table o : option observer :=
  o ← if_active (m_active_table o) (fun b => ChangeBuilder.clear b npos) o;
  if negb (m_is_top_level_table o) then Some o
  else
    Some (set_info (set_lists (filter (fun l => (table_ndx l =? m_current_table o)%nat = false) (lists (m_info o)))
                      (m_info o)) o).

(** *** Schema changes *)

(** [m_active_descriptor != m_active_table || !m_is_top_level_table] *)
Definition not_own_schema o : bool :=
  negb (bool_decide (m_active_descriptor o = m_active_table o)) || negb (m_is_top_level_table o).

(** The lists of the current table after a change of its columns *)
Definition map_cols (f : nat -> nat) o : observer :=
  map_lists (fun l => if (table_ndx l =? m_current_table o)%nat
                      then mkListChangeInfo (table_ndx l) (row_ndx l) (f (col_ndx l)) (changes l) else l) o.

(** [column_indices] is made large enough for the current table, whose entry changes *)
Definition alter_columns (f : list Z -> option (list Z)) o : option observer :=
  let t := m_current_table o in
  let cols := column_indices (m_info o) in
  let cols := if (length cols <=? t)%nat then vec_resize [] (t + 1) cols else cols in
  indices ← cols !! t;
  indices ← f indices;
  Some (set_info (set_column_indices (<[t := indices]> cols) (m_info o)) o).

(** [insert_column]: the original indices of the columns *)
Definition insert_index (ndx : nat) (indices : list Z) : list Z :=
  <[ndx := npos]> (insert_empty_at 0 (expand_to indices ndx) ndx).

(** [insert_column], [insert_link_column] *)
Definition on_insert_column (ndx : nat) o : option observer :=
  let o := set_info (set_schema_changed (m_info o)) o in
  o ← if_active (m_active_descriptor o) (fun b => Some (ChangeBuilder.insert_column b ndx)) o;
  if not_own_schema o then Some o
  else
    let o := map_cols (fun c => if (ndx <=? c)%nat then (c + 1)%nat else c) o in
    alter_columns (fun indices => Some (insert_index ndx indices)) o.

(** [move_column]: the original indices of the columns *)
Definition move_index (from_ to_ : nat) (indices : list Z) : option (list Z) :=
  rotate 0 (expand_to indices (Nat.max from_ to_ + 1)) from_ to_.

(** [move_column] *)
Definition on_move_column (from_ to_ : nat) o : option observer :=
  let o := set_info (set_schema_changed (m_info o)) o in
  o ← if_active (m_active_descriptor o) (fun b => Some (ChangeBuilder.move_column b from_ to_)) o;
  if not_own_schema o then Some o
  else
    let o := map_cols (fun c => adjust_for_move c from_ to_) o in
    alter_columns (move_index from_ to_) o.

(** [prepare_table_indices] *)
Definition prepare_table_indices (i : TransactionChangeInfo IS) : TransactionChangeInfo IS :=
  match table_indices i, table_modifications_needed i with
  | [], _ :: _ => set_table_indices (seq 0 (length (table_modifications_needed i))) i
  | _, _ => i
  end.

Definition with_table (f : nat -> nat) (l : ListChangeInfo) : ListChangeInfo :=
  mkListChangeInfo (f (table_ndx l)) (row_ndx l) (col_ndx l) (changes l).

(** [insert_group_level_table] *)
Definition on_insert_group_level_table (ndx : nat) o : observer :=
  let o := set_info (set_schema_changed (m_info o)) o in
  let o := map_lists (with_table (fun t => if (ndx <=? t)%nat then (t + 1)%nat else t)) o in
  let i := prepare_table_indices (m_info o) in
  let i := set_table_indices (adjust_ge (table_indices i) ndx) i in
  let t := tables i in
  let i := set_tables (insert_empty_at ChangeBuilder.empty_builder t ndx) i in
  let i := set_needed (insert_empty_at false (table_modifications_needed i) ndx)
             (insert_empty_at false (table_moves_needed i) ndx) i in
  set_epoch (if (ndx <? length t)%nat then m_epoch o + 1 else m_epoch o)%nat (set_info i o).

(** [move_group_level_table] *)
Definition on_move_group_level_table (from_ to_ : nat) o : option observer :=
  let o := set_info (set_schema_changed (m_info o)) o in
  let o := map_lists (with_table (fun t => adjust_for_move t from_ to_)) o in
  let i := prepare_table_indices (m_info o) in
  let i := set_table_indices (adjust_all_for_move (table_indices i) from_ to_) i in
  let old := tables i in
  t ← rotate ChangeBuilder.empty_builder old from_ to_;
  mods ← rotate false (table_modifications_needed i) from_ to_;
  mvs ← rotate false (table_moves_needed i) from_ to_;
  let i := set_needed mods mvs (set_tables t i) in
  Some (set_epoch (if (length old <? length t)%nat then m_epoch o + 1 else m_epoch o)%nat (set_info i o)).

(** *** The handlers: the observer's own, then the mixins' *)
Definition observer_handle o (i : Instruction) : option (option observer) :=
  match i with
  | select_descriptor levels => Some (Some (on_select_descriptor levels o))
  | select_table ndx len path => Some (on_select_table ndx len path o)
  | select_link_list col row => Some (on_select_link_list col row o)
  | link_list_set index => Some (on_link_list_set index o)
  | link_list_insert index => Some (on_link_list_insert index o)
  | link_list_erase index _ | link_list_nullify index _ => Some (on_link_list_erase index o)
  | link_list_swap index1 index2 => Some (on_link_list_swap index1 index2 o)
  | link_list_clear old_size => Some (on_link_list_clear old_size o)
  | link_list_move from_ to_ => Some (on_link_list_move from_ to_ o)
  | insert_empty_rows row n _ _ => Some (on_insert_empty_rows row n o)
  | add_row_with_key row _ => Some (on_insert_empty_rows row 1 o)
  | erase_rows row _ prior unordered => Some (on_erase_rows row prior unordered o)
  | swap_rows row_1 row_2 => Some (on_swap_rows row_1 row_2 o)
  | move_row from_ to_ => Some (on_move_row from_ to_ o)
  | merge_rows from_ to_ => Some (on_merge_rows from_ to_ o)
  | clear_table => Some (on_clear_table o)
  | insert_column ndx | insert_link_column ndx => Some (on_insert_column ndx o)
  | insert_group_level_table ndx => Some (Some (on_insert_group_level_table ndx o))
  | move_column from_ to_ => Some (on_move_column from_ to_ o)
  | move_group_level_table from_ to_ => Some (on_move_group_level_table from_ to_ o)
  | _ => mixin_handle mark_dirty o i
  end.

Definition handle o (i : Instruction) : Outcome observer :=
  match observer_handle o i with
  | Some r => handled r
  | None =>
    match validation_handle (m_current_table o) i with
    | Handled t => Handled (set_current_table t o)
    | UnsupportedSchemaChange => UnsupportedSchemaChange
    | Failed => Failed
    end
  end.

(** A whole log, ended by [parse_complete] *)
Definition run (log : list Instruction) o : Outcome observer :=
  outcome_bind (handle_all handle log o) (fun o => handled (parse_complete o)).
End log_observer.
End LogObserver.
