(* ===== verification/KvoAdapter.v ===== *)
(** * Key-value observation of rows

    Models [KVOAdapter] of [impl/transact_log_handler.cpp]: which rows and
    lists are observed, and how the change builders collected from a
    transaction log are turned into per-column changes of the observed rows.
    The schema of the group is a parameter; an observer is referred to by its
    position, and the builder of a list by the position of the list. *)
From stdpp Require Import list.
From S2P Require Import Prelude.
From S2P Require Import RangeList.
From S2P Require Import IndexSets.
From S2P Require Import IndexSetInterface.
From S2P Require Import ChangeBuilder.
From S2P Require Import TransactLog.

(** [BindingContext::ColumnInfo::Kind] *)
Inductive Kind := KindNone | KindSet | KindInsert | KindRemove | KindSetAll.
#[global] Instance Kind_eq_dec : EqDecision Kind.
Proof. solve_decision. Defined.

(** [BindingContext::ColumnInfo] *)
Record ColumnInfo {IS : Type} := mkColumnInfo {
  initial_column_index : Z;
  kind : Kind;
  indices : IS
}.
Arguments ColumnInfo : clear implicits.
Arguments mkColumnInfo {IS}.

(** [BindingContext::ObserverState] *)
Record ObserverState {IS : Type} := mkObserverState {
  os_table_ndx : nat;
  os_row_ndx : Z;
  os_info : nat;
  os_changes : list (ColumnInfo IS)
}.
Arguments ObserverState : clear implicits.
Arguments mkObserverState {IS}.

(** [KVOAdapter::ListInfo]; the builder is the one at the same position of the
    observer's builders *)
Record ListInfo := mkListInfo {
  li_observer : nat;
  li_col : nat;
  li_initial_size : Z
}.

(** The column types the constructor looks for *)
Inductive ColumnType := type_LinkList | type_Table | type_Other.

(** The group at the start: the types of a table's columns and the size of
    the subtable in a cell. *)
Class Group := {
  column_types : nat -> list ColumnType;
  get_subtable_size : nat -> nat -> Z -> Z
}.

Module Kvo.
Section kvo.
Context `{IndexSetOps IS} `{BuildMode}.
Abbreviation builder := (CollectionChangeBuilder IS).
Abbreviation observer_state := (ObserverState IS).
Implicit Types (os : observer_state).

(** ** The constructor *)

(** The lists of one observed row *)
Definition row_lists `{Group} (k : nat) os : list ListInfo :=
  concat (imap (fun col t =>
    match t with
    | type_LinkList => [mkListInfo k col npos]
    | type_Table => [mkListInfo k col (get_subtable_size (os_table_ndx os) col (os_row_ndx os))]
    | type_Other => []
    end) (column_types (os_table_ndx os))).

Definition observed_lists `{Group} (observers : list observer_state) : list ListInfo :=
  concat (imap row_lists observers).

(** The flags of the observed tables *)
Definition need_tables (tables : list nat) : list bool :=
  foldl (fun v t => <[t := true]> v) (replicate (list_max tables + 1) false) tables.

Definition list_change (observers : list observer_state) (k : nat) (l : ListInfo) : option ListChangeInfo :=
  os ← observers !! li_observer l;
  Some (mkListChangeInfo (os_table_ndx os) (os_row_ndx os) (li_col l) k).

Definition empty_info : TransactionChangeInfo IS := mkInfo [] [] [] [] [] [] false false.

(** [KVOAdapter::KVOAdapter]: the change information asked for *)
Definition adapter_info `{Group} (observers : list observer_state) : TransactionChangeInfo IS :=
  match observers with
  | [] => empty_info
  | _ =>
    let needed := need_tables (os_table_ndx <$> observers) in
    mkInfo needed needed (omap id (imap (list_change observers) (observed_lists observers))) [] [] [] false false
  end.

(** The builders of the lists, all empty at the start *)
Definition adapter_builders `{Group} (observers : list observer_state) : list builder :=
  replicate (length (observed_lists observers)) ChangeBuilder.empty_builder.

(** ** [before]: the observed rows *)

(** [new_table_ndx] *)
Definition new_table_ndx (info : TransactionChangeInfo IS) (ndx : nat) : nat :=
  default ndx (table_indices info !! ndx).

(** The destination of the row at [idx] if it was moved *)
Definition moved_to (table : builder) (idx : Z) : option Z :=
  m ← moves table !! lower_bound (fun m => from m <? idx) 0 (moves table);
  if from m =? idx then Some (to m) else None.

(** Where the row at [idx] ends up; [inl tt] if it is deleted *)
Definition new_row_ndx (table : builder) (idx : Z) : option (unit + Z) :=
  match moved_to table idx with
  | Some j => Some (inr j)
  | None =>
    deleted ← ix_contains (deletions table) idx;
    if deleted : bool then Some (inl tt)
    else idx ← ix_unshift (deletions table) idx; Some (inr (ix_shift (insertions table) idx))
  end.

(** The original index of the [i]th column of a table *)
Definition original_column (cols : option (list Z)) (i : nat) : Z :=
  match cols with
  | None | Some [] => Z.of_nat i
  | Some (c :: cs) =>
    let cols := c :: cs in
    match cols !! i with
    | Some c => c
    | None => (Z.of_nat i - Z.of_nat (length cols) + default 0 (last cols) + 1) mod 2 ^ 64
    end
  end.

Definition no_change : ColumnInfo IS := mkColumnInfo npos KindNone ix_nil.

(** The changes of the columns, the new vector [changes] being filled in place *)
Fixpoint column_changes (cols : option (list Z)) (idx : Z) (i : nat) (columns : list IS)
    (changes : list (ColumnInfo IS)) : option (list (ColumnInfo IS)) :=
  match columns with
  | [] => Some []
  | c :: columns =>
    let change := default no_change (head changes) in
    let initial := original_column cols i in
    set ← (if initial =? npos then Some false else ix_contains c idx);
    rest ← column_changes cols idx (i + 1) columns (tail changes);
    Some (mkColumnInfo initial (if set : bool then KindSet else kind change) (indices change) :: rest)
  end.

Definition set_changes (x : list (ColumnInfo IS)) os : observer_state :=
  mkObserverState (os_table_ndx os) (os_row_ndx os) (os_info os) x.

(** The loop over the observers; the [info] of a deleted row *)
Definition row_changes (info : TransactionChangeInfo IS) os : option (observer_state * option nat) :=
  let table_ndx := new_table_ndx info (os_table_ndx os) in
  match tables info !! table_ndx with
  | None => Some (os, None)
  | Some table =>
    r ← new_row_ndx table (os_row_ndx os);
    match r with
    | inl _ => Some (os, Some (os_info os))
    | inr idx =>
      modified ← ix_contains (modifications table) idx;
      if modified : bool then
        changes ← column_changes (column_indices info !! table_ndx) idx 0 (columns table) (os_changes os);
        Some (set_changes changes os, None)
      else Some (os, None)
    end
  end.

(** ** [before]: the lists *)

(** [in_range]: advance the iterator at most once *)
Definition in_range (it : list range) (i : Z) : list range * bool :=
  let it := match it with [] => [] | r :: rest => if r.2 <=? i then rest else it end in
  (it, match it with [] => false | r :: _ => (r.1 <=? i) && (i <? r.2) end).

(** The loop over the rows the moves may have shifted *)
Fixpoint add_shifted_rows (n : nat) (i shift : Z) (del ins : list range) (s : IS) : option IS :=
  match n with
  | O => Some s
  | S n =>
    let '(del, deleted) := in_range del i in
    let '(ins, shift) :=
      if deleted : bool then (ins, shift - 1)
      else let '(ins, inserted) := in_range ins ((i + shift) mod 2 ^ 64) in
           (ins, if inserted : bool then shift + 1 else shift) in
    s ← (if shift =? 0 then Some s else ix_add s i);
    add_shifted_rows n (i + 1) shift del ins s
  end.

(** Moves as assignments *)
Definition moves_as_sets (b : builder) : option IS :=
  s ← ix_add_set (modifications b) (deletions b);
  del0 ← head (ix_ranges (deletions b));
  ins0 ← head (ix_ranges (insertions b));
  del1 ← last (ix_ranges (deletions b));
  ins1 ← last (ix_ranges (insertions b));
  let start := Z.min ins0.1 del0.1 in
  let end_ := Z.max ins1.2 del1.2 in
  add_shifted_rows (Z.to_nat (end_ - start)) start 0 (ix_ranges (deletions b)) (ix_ranges (insertions b)) s.

Definition count_true (l : list bool) : nat := length (filter (fun b => b = true) l).

(** The kind and indices of a list's changes, [changes] being the column's
    entry so far; the builder's modifications are already without insertions *)
Definition list_kind (b : builder) (initial_size : Z) (changes : ColumnInfo IS) : option (ColumnInfo IS) :=
  let initial := initial_column_index changes in
  let n := Z.of_nat (length (moves b)) in
  ins_count ← ix_count (insertions b) 0 npos;
  del_count ← ix_count (deletions b) 0 npos;
  if negb (n =? 0) && (ins_count =? n) && (del_count =? n) then
    s ← moves_as_sets b;
    Some (mkColumnInfo initial KindSet s)
  else if (count_true [ix_empty (insertions b); ix_empty (modifications b); ix_empty (deletions b)] <? 2)%nat then
    Some (mkColumnInfo initial KindSetAll (indices changes))
  else if negb (ix_empty (insertions b)) then
    Some (mkColumnInfo initial KindInsert (insertions b))
  else if negb (ix_empty (modifications b)) then
    Some (mkColumnInfo initial KindSet (modifications b))
  else
    _ ← realm_assert (negb (ix_empty (deletions b)));
    r ← last (ix_ranges (deletions b));
    s ← (if initial_size <? r.2 then ix_set (indices changes) initial_size else Some (deletions b));
    Some (mkColumnInfo initial KindRemove s).

(** The entry of a column whose list did not change after all *)
Definition clear_kind (c : ColumnInfo IS) : ColumnInfo IS :=
  mkColumnInfo (initial_column_index c) KindNone (indices c).

(** One list: its builder and its observer after the turn *)
Definition list_changes (info : TransactionChangeInfo IS) (l : ListInfo) (b : builder) os :
    option (builder * observer_state) :=
  if ChangeBuilder.empty b then
    Some (b, match os_changes os !! li_col l with
             | Some c => set_changes (<[li_col l := clear_kind c]> (os_changes os)) os
             | None => os
             end)
  else
    match os_changes os with
    | [] =>
      _ ← realm_assert_debug (table ← tables info !! new_table_ndx info (os_table_ndx os);
                              ix_contains (deletions table) (os_row_ndx os));
      Some (b, os)
    | _ =>
      c ← os_changes os !! li_col l;
      m ← ix_remove_set (modifications b) (insertions b);
      let b := ChangeBuilder.set_modifications m b in
      c ← list_kind b (li_initial_size l) c;
      Some (b, set_changes (<[li_col l := c]> (os_changes os)) os)
    end.

(** ** The adapter *)
Record KVOAdapter := mkAdapter {
  k_info : TransactionChangeInfo IS;
  k_builders : list builder;
  k_observers : list observer_state;
  k_invalidated : list nat;
  k_lists : list ListInfo
}.

Definition adapter_step (a : KVOAdapter) (p : nat * ListInfo) : option KVOAdapter :=
  b ← k_builders a !! p.1;
  os ← k_observers a !! li_observer p.2;
  '(b, os) ← list_changes (k_info a) p.2 b os;
  Some (mkAdapter (k_info a) (<[p.1 := b]> (k_builders a)) (<[li_observer p.2 := os]> (k_observers a))
          (k_invalidated a) (k_lists a)).

(** [before], given that there is a context; [false] if it returns early and
    [will_change] is not called *)
Definition before (a : KVOAdapter) : option (KVOAdapter * bool) :=
  match tables (k_info a) with
  | [] => Some (a, false)
  | _ =>
    rows ← mapM (row_changes (k_info a)) (k_observers a);
    let a := mkAdapter (k_info a) (k_builders a) (fst <$> rows)
               (k_invalidated a ++ omap snd rows) (k_lists a) in
    a ← fold_option adapter_step (imap pair (k_lists a)) a;
    Some (a, true)
  end.

(** A log observed for the rows of [observers]: the changes reported by
    [will_change], if it is called *)
Definition observe_changes `{Group} (observers : list observer_state) (log : list Instruction) :
    Outcome (KVOAdapter * bool) :=
  let start := LogObserver.observe (adapter_info observers) (adapter_builders observers) in
  outcome_bind (LogObserver.run log start) (fun o =>
    handled (before (mkAdapter (m_info o) (m_builders o) observers [] (observed_lists observers)))).
End kvo.
End Kvo.
