(* ===== verification/SchemaTracking.v ===== *)
(** * Columns and tables through schema changes

    The observer keeps, per table, the original index of every column, and,
    per original table, its current index.  This file relates the vectors the
    code keeps -- as long as needed, extended by [expand_to] and [resize] -- to
    sequences of columns and tables that the instructions insert into and move. *)
From stdpp Require Import list.
From S2P Require Import Prelude.
From S2P Require Import RangeList.
From S2P Require Import IndexSets.
From S2P Require Import IndexSetInterface.
From S2P Require Import ChangeBuilder.
From S2P Require Import TransactLog.
From S2P Require Import KvoAdapter.
Import LogObserver.

(** ** Inserting into and moving within a sequence *)

(** The previous position of what is at [i] after a move *)
Definition unmove (f t i : nat) : nat :=
  if (i =? t)%nat then f
  else if (f <=? i)%nat && (i <? t)%nat then (i + 1)%nat
  else if (t <? i)%nat && (i <=? f)%nat then (i - 1)%nat
  else i.

Ltac nat_cases := repeat match goal with
  | |- context [Nat.eqb ?a ?b] => destruct (Nat.eqb_spec a b)
  | |- context [Nat.leb ?a ?b] => destruct (Nat.leb_spec a b)
  | |- context [Nat.ltb ?a ?b] => destruct (Nat.ltb_spec a b)
  end; simpl; try lia.

Lemma unmove_adjust f t i : unmove f t (adjust_for_move i f t) = i.
Proof. unfold adjust_for_move. nat_cases; unfold unmove; nat_cases. Qed.

Lemma adjust_unmove f t i : adjust_for_move (unmove f t i) f t = i.
Proof. unfold unmove. nat_cases; unfold adjust_for_move; nat_cases. Qed.

Lemma adjust_for_move_inj f t i j : adjust_for_move i f t = adjust_for_move j f t -> i = j.
Proof. intros E. rewrite <- (unmove_adjust f t i), E. apply unmove_adjust. Qed.

Lemma insert_empty_at_lookup {A} (d : A) l pos i :
  (pos < length l)%nat ->
  insert_empty_at d l pos !! i =
    if (i <? pos)%nat then l !! i else if (i =? pos)%nat then Some d else l !! (i - 1)%nat.
Proof.
  intros Hp. unfold insert_empty_at. rewrite (proj2 (Nat.ltb_lt _ _)) by done.
  destruct (Nat.ltb_spec i pos).
  - rewrite lookup_app_l by (rewrite length_take; lia). by rewrite lookup_take_lt.
  - rewrite lookup_app_r by (rewrite length_take; lia). rewrite length_take_le by lia.
    destruct (Nat.eqb_spec i pos) as [->|]; [by rewrite Nat.sub_diag|].
    replace (i - pos)%nat with (S (i - 1 - pos)) by lia. simpl. rewrite lookup_drop. f_equal. lia.
Qed.

Lemma insert_empty_at_length {A} (d : A) l pos :
  (pos < length l)%nat -> length (insert_empty_at d l pos) = (length l + 1)%nat.
Proof.
  intros Hp. unfold insert_empty_at. rewrite (proj2 (Nat.ltb_lt _ _)) by done.
  rewrite length_app. simpl. rewrite length_take, length_drop. lia.
Qed.

Lemma std_rotate_lookup {A} (l : list A) (first middle last_ i : nat) :
  (first <= middle <= last_)%nat -> (last_ <= length l)%nat ->
  ChangeBuilder.rotate first middle last_ l !! i =
    l !! (if (i <? first)%nat then i
          else if (i <? first + (last_ - middle))%nat then (i + (middle - first))%nat
          else if (i <? last_)%nat then (i - (last_ - middle))%nat else i).
Proof.
  intros Hm Hl. unfold ChangeBuilder.rotate.
  destruct (Nat.ltb_spec i first).
  { rewrite lookup_app_l by (rewrite length_take; lia). by rewrite lookup_take_lt. }
  rewrite lookup_app_r by (rewrite length_take; lia). rewrite length_take_le by lia.
  destruct (Nat.ltb_spec i (first + (last_ - middle))).
  { rewrite lookup_app_l by (rewrite length_drop, length_take; lia).
    rewrite lookup_drop, lookup_take_lt by lia. f_equal. lia. }
  rewrite lookup_app_r by (rewrite length_drop, length_take; lia).
  rewrite length_drop, length_take_le by lia. destruct (Nat.ltb_spec i last_).
  { rewrite lookup_app_l by (rewrite length_drop, length_take; lia).
    rewrite lookup_drop, lookup_take_lt by lia. f_equal. lia. }
  rewrite lookup_app_r by (rewrite length_drop, length_take; lia).
  rewrite length_drop, length_take_le, lookup_drop by lia. f_equal. lia.
Qed.

Lemma std_rotate_length {A} (l : list A) (first middle last_ : nat) :
  (first <= middle <= last_)%nat -> (last_ <= length l)%nat ->
  length (ChangeBuilder.rotate first middle last_ l) = length l.
Proof.
  intros Hm Hl. unfold ChangeBuilder.rotate. repeat rewrite ?length_app, ?length_take, ?length_drop. lia.
Qed.

Lemma vec_resize_default {A} (d : A) n l i : default d (vec_resize d n l !! i) = default d (l !! i).
Proof.
  unfold vec_resize. destruct (decide (i < length l)%nat); [by rewrite lookup_app_l|].
  rewrite lookup_app_r, (proj2 (lookup_ge_None l _)) by lia.
  destruct (replicate _ d !! _) eqn:E; [|done]. by apply lookup_replicate in E as [-> _].
Qed.

Lemma vec_resize_length {A} (d : A) n l : length (vec_resize d n l) = Nat.max (length l) n.
Proof. unfold vec_resize. rewrite length_app, length_replicate. lia. Qed.

(** A rotation between two positions of the vector *)
Lemma rotate_within {A} (l : list A) f t :
  f <> t -> (f < length l)%nat -> (t < length l)%nat ->
  exists l', (if (f <? t)%nat then ChangeBuilder.rotate f (f + 1) (t + 1) l
              else ChangeBuilder.rotate t f (f + 1) l) = l' /\
    length l' = length l /\ forall i, l' !! i = l !! unmove f t i.
Proof.
  intros Hne Hf Ht. eexists. split; [done|]. destruct (Nat.ltb_spec f t);
    (split; [apply std_rotate_length; lia|]); intros i; rewrite std_rotate_lookup by lia;
    f_equal; unfold unmove; nat_cases.
Qed.

(** [rotate] moves one value; beyond the end of the vector are default values. *)
Lemma rotate_spec {A} (d : A) l f t :
  f <> t -> exists l', rotate d l f t = Some l' /\
    length l' = (if (length l <=? f)%nat && (length l <=? t)%nat then length l
                 else Nat.max (length l) (Nat.max f t + 1)) /\
    forall i, default d (l' !! i) = default d (l !! unmove f t i).
Proof.
  intros Hne. unfold rotate, realm_assert. rewrite (proj2 (Nat.eqb_neq _ _)) by done. cbn [negb mbind option_bind].
  destruct (Nat.leb_spec (length l) f), (Nat.leb_spec (length l) t); cbn [andb orb].
  { exists l. split; [done|]. split; [done|]. intros i. unfold unmove. nat_cases; try done;
      rewrite !(proj2 (lookup_ge_None l _)) by lia; done. }
  1,2: set (l1 := vec_resize d _ l);
    destruct (rotate_within l1 f t Hne) as (l' & E & Hlen & Hl'); [unfold l1; rewrite vec_resize_length; lia..|];
    exists l'; rewrite E; split; [done|]; unfold l1 in *; rewrite vec_resize_length in Hlen;
    (split; [lia|]); intros i; by rewrite Hl', vec_resize_default.
  destruct (rotate_within l f t Hne) as (l' & E & Hlen & Hl'); [lia..|].
  exists l'. rewrite E. split; [done|]. split; [lia|]. intros i. by rewrite Hl'.
Qed.

Lemma rotate_nil {A} (d : A) f t l : rotate d [] f t = Some l -> l = [].
Proof. unfold rotate, realm_assert. destruct (f =? t)%nat; [done|]. by intros [= <-]. Qed.

(** ** The original index of every column *)

(** What the vector says about the [i]th column: the columns after its end
    follow its last entry. *)
Definition original (cols : list Z) (i : nat) : Z := Kvo.original_column (Some cols) i.

(** The original index of the first column after the vector *)
Definition next_column (cols : list Z) : Z := match last cols with None => 0 | Some c => c + 1 end.

(** The vector ends with an old column, which has not moved to the left. *)
Definition sound_end (cols : list Z) : Prop :=
  0 <= next_column cols <= Z.of_nat (length cols) /\ last cols <> Some npos.

Lemma original_in cols i c : cols !! i = Some c -> original cols i = c.
Proof. intros E. unfold original, Kvo.original_column. destruct cols; [done|]. by rewrite E. Qed.

Lemma original_out cols i :
  sound_end cols -> (length cols <= i)%nat -> Z.of_nat i < 2 ^ 64 ->
  original cols i = Z.of_nat i - Z.of_nat (length cols) + next_column cols.
Proof.
  intros [Hn _] Hi Hw. unfold original, Kvo.original_column, next_column in *. destruct cols as [|x cols]; [simpl; lia|].
  rewrite (proj2 (lookup_ge_None _ _)) by done. destruct (last (x :: cols)) as [c|] eqn:El.
  - simpl default. rewrite Z.mod_small; [lia|lia].
  - by apply last_None in El.
Qed.

(** The two cases together determine what a vector says. *)
Lemma original_unique cols i x :
  sound_end cols -> Z.of_nat i < 2 ^ 64 ->
  match cols !! i with
  | Some c => x = c
  | None => x = Z.of_nat i - Z.of_nat (length cols) + next_column cols
  end -> original cols i = x.
Proof.
  intros Hs Hi. destruct (cols !! i) eqn:E; intros ->; [by apply original_in|].
  apply original_out; [done|by apply lookup_ge_None|done].
Qed.

Lemma iota_length n c : length (iota n c) = n.
Proof. revert c. induction n as [|n IH]; intros c; simpl; [done|]. by rewrite IH. Qed.

Lemma iota_lookup n c i :
  0 <= c -> c + Z.of_nat n <= 2 ^ 64 -> (i < n)%nat -> iota n c !! i = Some (c + Z.of_nat i).
Proof.
  revert c i. induction n as [|n IH]; intros c i Hc Hw Hi; [lia|]. destruct i as [|i]; simpl; [f_equal; lia|].
  destruct n as [|n]; [lia|]. rewrite Z.mod_small, IH by lia. f_equal. lia.
Qed.

Lemma expand_to_length cols i :
  length (expand_to cols i) =
    if (i <? length cols)%nat then length cols else Nat.max (length cols * 2) (i + 1).
Proof. unfold expand_to. nat_cases. rewrite length_app, iota_length. lia. Qed.

Lemma last_is_lookup {A} (l : list A) : last l = l !! (length l - 1)%nat.
Proof. rewrite last_lookup. f_equal. lia. Qed.

(** Growing the vector changes nothing it says. *)
Lemma expand_to_original cols i :
  sound_end cols -> Z.of_nat (length (expand_to cols i)) < 2 ^ 63 ->
  sound_end (expand_to cols i) /\ (i < length (expand_to cols i))%nat /\
  forall j, Z.of_nat j < 2 ^ 64 -> original (expand_to cols i) j = original cols j.
Proof.
  intros Hs. rewrite expand_to_length. unfold expand_to. destruct (Nat.ltb_spec i (length cols)) as [|Hi]; [done|].
  set (k := (Nat.max (length cols * 2) (i + 1) - length cols)%nat). intros Hlen.
  assert (Hc : match last cols with None => 0 | Some c => (c + 1) mod 2 ^ 64 end = next_column cols).
  { destruct Hs as [Hn _]. unfold next_column in *. destruct (last cols); [|done]. apply Z.mod_small. lia. }
  rewrite Hc. clear Hc. destruct Hs as [Hn Hs].
  assert (Hk : forall j, (j < k)%nat -> iota k (next_column cols) !! j = Some (next_column cols + Z.of_nat j))
    by (intros; apply iota_lookup; lia).
  set (cols' := cols ++ iota k (next_column cols)).
  assert (Hl' : length cols' = (length cols + k)%nat) by (unfold cols'; rewrite length_app, iota_length; lia).
  assert (El : last cols' = Some (next_column cols + Z.of_nat k - 1)).
  { rewrite last_is_lookup, Hl'. unfold cols'. rewrite lookup_app_r, Hk by lia. f_equal. lia. }
  assert (En : next_column cols' = next_column cols + Z.of_nat k) by (unfold next_column at 1; rewrite El; lia).
  assert (Hs' : sound_end cols') by (split; [lia|rewrite El; unfold npos; intros [= E]; lia]).
  split; [done|]. split; [lia|]. intros j Hj. apply original_unique; [done|done|].
  unfold cols' at 1. destruct (decide (j < length cols)%nat) as [Hjl|Hjl].
  - rewrite lookup_app_l by done. destruct (lookup_lt_is_Some_2 cols j Hjl) as [c E]. rewrite E. by apply original_in.
  - rewrite lookup_app_r by lia. rewrite original_out by (done || lia).
    destruct (decide (j - length cols < k)%nat); [rewrite Hk by lia; lia|].
    rewrite (proj2 (lookup_ge_None _ _)) by (rewrite iota_length; lia). lia.
Qed.

(** A vector that agrees with another one from its last entry on, with [k] more entries *)
Lemma same_end cols cols' k :
  sound_end cols -> last cols' = last cols -> length cols' = (length cols + k)%nat ->
  sound_end cols' /\ next_column cols' = next_column cols.
Proof.
  intros [Hn Hs] El Hlen. unfold sound_end, next_column in *. rewrite El, Hlen. split; [|done]. split; [lia|done].
Qed.

(** Inserting a column shifts the later ones; the new one has no original. *)
Lemma insert_index_spec cols ndx :
  sound_end cols -> Z.of_nat (length (expand_to cols ndx)) < 2 ^ 63 ->
  sound_end (insert_index ndx cols) /\
  length (insert_index ndx cols) = (length (expand_to cols ndx) + 1)%nat /\
  forall j, Z.of_nat j < 2 ^ 64 -> original (insert_index ndx cols) j =
    if (j <? ndx)%nat then original cols j else if (j =? ndx)%nat then npos else original cols (j - 1).
Proof.
  intros Hs Hlen. destruct (expand_to_original cols ndx Hs Hlen) as (Hs1 & Hi & Ho). unfold insert_index.
  set (cols1 := expand_to cols ndx) in *.
  assert (Hl : length (<[ndx:=npos]> (insert_empty_at 0 cols1 ndx)) = (length cols1 + 1)%nat)
    by (rewrite length_insert; by apply insert_empty_at_length).
  assert (Hj : forall j, <[ndx:=npos]> (insert_empty_at 0 cols1 ndx) !! j =
    if (j <? ndx)%nat then cols1 !! j else if (j =? ndx)%nat then Some npos else cols1 !! (j - 1)%nat).
  { intros j. rewrite list_lookup_insert. case_decide as E.
    - destruct E as [<- _]. by rewrite Nat.ltb_irrefl, Nat.eqb_refl.
    - rewrite insert_empty_at_lookup by done. rewrite insert_empty_at_length in E by done. nat_cases; done. }
  assert (El : last (<[ndx:=npos]> (insert_empty_at 0 cols1 ndx)) = last cols1).
  { rewrite !last_is_lookup, Hj, Hl. nat_cases; try done. f_equal. lia. }
  destruct (same_end cols1 _ 1 Hs1 El Hl) as [Hs2 En]. split; [done|]. split; [done|].
  intros j Hw. apply original_unique; [done|done|]. rewrite Hj, En, Hl.
  destruct (Nat.ltb_spec j ndx).
  { destruct (lookup_lt_is_Some_2 cols1 j) as [c E]; [lia|]. rewrite E. rewrite <- Ho by done. by apply original_in. }
  destruct (Nat.eqb_spec j ndx); [done|].
  destruct (cols1 !! (j - 1)%nat) as [c|] eqn:E; rewrite <- Ho by lia; [by apply original_in|].
  apply lookup_ge_None in E. rewrite original_out by (done || lia). lia.
Qed.

(** Moving a column moves its original index. *)
Lemma move_index_spec cols f t :
  f <> t -> sound_end cols -> Z.of_nat (length (expand_to cols (Nat.max f t + 1))) < 2 ^ 63 ->
  exists cols', move_index f t cols = Some cols' /\ sound_end cols' /\
  length cols' = length (expand_to cols (Nat.max f t + 1)) /\
  forall j, Z.of_nat j < 2 ^ 63 -> original cols' j = original cols (unmove f t j).
Proof.
  intros Hne Hs Hlen. destruct (expand_to_original cols _ Hs Hlen) as (Hs1 & Hi & Ho). unfold move_index.
  set (cols1 := expand_to cols (Nat.max f t + 1)) in *.
  destruct (rotate_spec 0 cols1 f t Hne) as (cols' & E & Hl & Hj).
  assert (Hl' : length cols' = length cols1) by (rewrite Hl; nat_cases).
  assert (Hsome : forall j, cols' !! j = cols1 !! unmove f t j).
  { intros j. specialize (Hj j). destruct (decide (j < length cols1)%nat) as [Hlt|Hge].
    - destruct (lookup_lt_is_Some_2 cols' j) as [c Ec]; [lia|].
      destruct (lookup_lt_is_Some_2 cols1 (unmove f t j)) as [c' Ec']; [unfold unmove; nat_cases|].
      rewrite Ec, Ec' in *. simpl in Hj. by f_equal.
    - rewrite !(proj2 (lookup_ge_None _ _)); [done|unfold unmove; nat_cases|lia]. }
  exists cols'. split; [done|].
  assert (El : last cols' = last cols1).
  { rewrite !last_is_lookup, Hsome, Hl'. f_equal. unfold unmove. nat_cases. }
  destruct (same_end cols1 cols' 0 Hs1 El ltac:(lia)) as [Hs2 En]. split; [done|]. split; [done|].
  intros j Hw. apply original_unique; [done|lia|]. rewrite Hsome, En, Hl'.
  destruct (cols1 !! unmove f t j) as [c|] eqn:Ec.
  - rewrite <- Ho by (unfold unmove; nat_cases). by apply original_in.
  - apply lookup_ge_None in Ec. rewrite <- Ho by (unfold unmove; nat_cases).
    rewrite original_out by (done || (unfold unmove; nat_cases)).
    assert (unmove f t j = j) as -> by (unfold unmove in *; revert Ec; nat_cases; intros; lia). lia.
Qed.

(** ** The columns of a table as a sequence *)
Definition list_insert {A} (x : A) (pos : nat) (l : list A) : list A := take pos l ++ x :: drop pos l.

Definition list_move {A} (f t : nat) (l : list A) : list A :=
  match l !! f with Some x => list_insert x t (delete f l) | None => l end.

Lemma list_insert_lookup {A} (x : A) pos l i :
  (pos <= length l)%nat ->
  list_insert x pos l !! i =
    if (i <? pos)%nat then l !! i else if (i =? pos)%nat then Some x else l !! (i - 1)%nat.
Proof.
  intros Hp. unfold list_insert. destruct (Nat.ltb_spec i pos).
  - rewrite lookup_app_l by (rewrite length_take; lia). by rewrite lookup_take_lt.
  - rewrite lookup_app_r by (rewrite length_take; lia). rewrite length_take_le by lia.
    destruct (Nat.eqb_spec i pos) as [->|]; [by rewrite Nat.sub_diag|].
    replace (i - pos)%nat with (S (i - 1 - pos)) by lia. simpl. rewrite lookup_drop. f_equal. lia.
Qed.

Lemma list_insert_length {A} (x : A) pos l : length (list_insert x pos l) = S (length l).
Proof. unfold list_insert. rewrite length_app. simpl. rewrite length_take, length_drop. lia. Qed.

Lemma list_move_lookup {A} f t (l : list A) i :
  (f < length l)%nat -> (t < length l)%nat -> list_move f t l !! i = l !! unmove f t i.
Proof.
  intros Hf Ht. unfold list_move. destruct (lookup_lt_is_Some_2 l f Hf) as [x E]. rewrite E.
  rewrite list_insert_lookup by (rewrite length_delete by eauto; lia).
  assert (Hd : forall j, delete f l !! j = l !! if (j <? f)%nat then j else S j).
  { intros j. destruct (Nat.ltb_spec j f); [by apply list_lookup_delete_lt|by apply list_lookup_delete_ge]. }
  rewrite !Hd. unfold unmove. nat_cases; try done; f_equal; lia.
Qed.

Lemma list_move_length {A} f t (l : list A) : length (list_move f t l) = length l.
Proof.
  unfold list_move. destruct (l !! f) eqn:E; [|done].
  rewrite list_insert_length, length_delete by eauto. apply lookup_lt_Some in E. lia.
Qed.

(** A column is known by its original index; a new one has none. *)
Abbreviation column := (option nat).

(** What a schema change does to the columns; [None] when it is out of range
    or changes no columns *)
Definition column_step (cs : list column) (i : Instruction) : option (list column) :=
  match i with
  | insert_column ndx | insert_link_column ndx =>
    if (ndx <=? length cs)%nat then Some (list_insert None ndx cs) else None
  | move_column f t =>
    if negb (f =? t)%nat && (f <? length cs)%nat && (t <? length cs)%nat then Some (list_move f t cs) else None
  | _ => None
  end.

Definition column_id (c : column) : Z := match c with Some k => Z.of_nat k | None => npos end.

(** The vector says of every column which one it was, and is not longer than
    the doubling of [expand_to] makes it. *)
Definition tells (cols : list Z) (cs : list column) : Prop :=
  sound_end cols /\ (length cols <= 2 * length cs + 4)%nat /\
  forall i c, cs !! i = Some c -> original cols i = column_id c.

Lemma tells_insert cols cs ndx :
  tells cols cs -> (ndx <= length cs)%nat -> Z.of_nat (length cs) < 2 ^ 61 ->
  tells (insert_index ndx cols) (list_insert None ndx cs).
Proof.
  intros (Hs & Hl & Ht) Hn Hw. pose proof (expand_to_length cols ndx) as El.
  assert (length (expand_to cols ndx) <= 2 * length cs + 4)%nat by (rewrite El; nat_cases).
  destruct (insert_index_spec cols ndx Hs ltac:(lia)) as (Hs' & Hl' & Ho).
  split; [done|]. split; [rewrite list_insert_length; lia|]. intros i c E.
  pose proof (lookup_lt_Some _ _ _ E) as Hi. rewrite list_insert_length in Hi.
  rewrite Ho by lia. rewrite list_insert_lookup in E by done.
  destruct (i <? ndx)%nat; [by apply Ht|]. destruct (i =? ndx)%nat; [by injection E as <-|by apply Ht].
Qed.

Lemma tells_move cols cs f t :
  tells cols cs -> f <> t -> (f < length cs)%nat -> (t < length cs)%nat -> Z.of_nat (length cs) < 2 ^ 61 ->
  exists cols', move_index f t cols = Some cols' /\ tells cols' (list_move f t cs).
Proof.
  intros (Hs & Hl & Ht) Hne Hf Htl Hw. pose proof (expand_to_length cols (Nat.max f t + 1)) as El.
  assert (length (expand_to cols (Nat.max f t + 1)) <= 2 * length cs + 4)%nat by (rewrite El; nat_cases).
  destruct (move_index_spec cols f t Hne Hs ltac:(lia)) as (cols' & E & Hs' & Hl' & Ho).
  exists cols'. split; [done|]. split; [done|]. rewrite list_move_length. split; [lia|]. intros i c Ec.
  pose proof (lookup_lt_Some _ _ _ Ec) as Hi. rewrite list_move_length in Hi.
  rewrite Ho by lia. rewrite list_move_lookup in Ec by done. by apply Ht.
Qed.

(** ** The observer *)
Section observer.
Context `{IndexSetOps IS} `{BuildMode}.
Implicit Types (o : TransactLogObserver IS).

(** A pointer that may be used *)
Definition usable o (p : Target) : Prop :=
  match p with
  | InTables epoch ndx => epoch = m_epoch o /\ (ndx < length (tables (m_info o)))%nat
  | InList loc => (loc < length (m_builders o))%nat
  end.

Definition current_columns o : list Z := default [] (column_indices (m_info o) !! m_current_table o).

Lemma original_column_default (x : option (list Z)) i : Kvo.original_column x i = original (default [] x) i.
Proof. by destruct x. Qed.

(** Nothing but the contents of the builders differs. *)
Record same_but_builders o o' : Prop := {
  sb_info : set_tables [] (m_info o') = set_tables [] (m_info o);
  sb_tables : length (tables (m_info o')) = length (tables (m_info o));
  sb_builders : length (m_builders o') = length (m_builders o);
  sb_rest : set_info (m_info o) (set_builders (m_builders o) o') = o
}.

Lemma sb_refl o : same_but_builders o o.
Proof. by destruct o as [[]]. Qed.

Lemma update_target_total o p f :
  usable o p -> (forall b, exists b', f b = Some b') ->
  exists o', update_target p f o = Some o' /\ same_but_builders o o'.
Proof.
  intros Hp Hf. destruct p as [e i|loc]; simpl in *.
  - destruct Hp as [-> Hi]. unfold realm_assert. rewrite Nat.eqb_refl. cbn [mbind option_bind].
    destruct (lookup_lt_is_Some_2 _ _ Hi) as [b E]. rewrite E. destruct (Hf b) as [b' E']. simpl. rewrite E'.
    eexists. split; [done|]. destruct o as [[]]. split; simpl in *; [done|by rewrite length_insert|done|done].
  - unfold update_list. destruct (lookup_lt_is_Some_2 _ _ Hp) as [b E]. rewrite E.
    destruct (Hf b) as [b' E']. simpl. rewrite E'. eexists. split; [done|].
    destruct o as [[]]. split; simpl in *; [done|done|by rewrite length_insert|done].
Qed.

(** The observer is at a top-level table whose schema is being changed, and
    has handled changes that make its [n] columns [cs]; [l0] are the lists at
    the start. *)
Definition same_list (t n : nat) (cs : list column) (x y : ListChangeInfo) : Prop :=
  table_ndx y = table_ndx x /\ row_ndx y = row_ndx x /\ changes y = changes x /\
  if (table_ndx x =? t)%nat then (col_ndx x < n)%nat -> cs !! col_ndx y = Some (Some (col_ndx x))
  else col_ndx y = col_ndx x.

Record at_schema (t n : nat) (l0 : list ListChangeInfo) (cs : list column) o : Prop := {
  as_table : m_current_table o = t;
  as_own : not_own_schema o = false;
  as_usable p : m_active_descriptor o = Some p -> usable o p;
  as_tells : tells (current_columns o) cs;
  as_lists : Forall2 (same_list t n cs) l0 (lists (m_info o))
}.

Lemma at_schema_builders t n l0 cs o o' :
  same_but_builders o o' -> at_schema t n l0 cs o -> at_schema t n l0 cs o'.
Proof.
  intros [Hi Ht Hb Hr] [Hc Ho Hu Htl Hl]. destruct o as [[] ? ? ? ? ? ? ? ?], o' as [[] ? ? ? ? ? ? ? ?].
  unfold set_info, set_builders, set_tables in *. simpl in *. injection Hi as -> -> -> -> -> -> ->.
  injection Hr as -> -> -> -> -> -> ->.
  split; [done|done| |done|done]. intros p Hp. specialize (Hu p Hp).
  destruct p; simpl in *; [by rewrite Ht|by rewrite Hb].
Qed.

Lemma active_descriptor_step t n l0 cs o f :
  at_schema t n l0 cs o ->
  exists o', if_active (m_active_descriptor o) (fun b => Some (f b)) o = Some o' /\ at_schema t n l0 cs o'.
Proof.
  intros Hat. unfold if_active. destruct (m_active_descriptor o) as [p|] eqn:E; [|by exists o].
  destruct (update_target_total o p (fun b => Some (f b))) as (o' & E' & Hsb);
    [by apply (as_usable _ _ _ _ _ Hat)|eauto|].
  exists o'. split; [done|]. by eapply at_schema_builders.
Qed.

(** The vector of the current table after [alter_columns] *)
Lemma alter_columns_spec f o c :
  f (current_columns o) = Some c ->
  exists o', alter_columns f o = Some o' /\ current_columns o' = c /\ m_builders o' = m_builders o /\
    m_info o' = set_column_indices (column_indices (m_info o')) (m_info o) /\
    set_info (m_info o) o' = o.
Proof.
  intros Hf. unfold alter_columns, current_columns in *. set (t := m_current_table o) in *.
  set (ci := column_indices (m_info o)) in *.
  set (cols := if (length ci <=? t)%nat then vec_resize [] (t + 1) ci else ci).
  assert (E : cols !! t = Some (default [] (ci !! t))).
  { unfold cols. destruct (Nat.leb_spec (length ci) t).
    - assert (Hlt : (t < length (vec_resize [] (t + 1) ci))%nat) by (rewrite vec_resize_length; lia).
      destruct (lookup_lt_is_Some_2 _ _ Hlt) as [x E]. rewrite E. f_equal.
      by rewrite <- (vec_resize_default [] (t + 1) ci t), E.
    - by destruct (lookup_lt_is_Some_2 ci t) as [x ->]; [lia|]. }
  rewrite E. cbn [mbind option_bind]. rewrite Hf. cbn [mbind option_bind].
  eexists. split; [done|]. simpl. fold t. rewrite list_lookup_insert_eq by by apply lookup_lt_Some in E.
  split; [done|]. split; [done|]. split; [done|]. by destruct o.
Qed.

(** Both instructions renumber the columns of the lists and alter the vector. *)
Lemma renumber_step t n l0 cs cs' o (g : nat -> nat) f c :
  at_schema t n l0 cs o ->
  f (current_columns o) = Some c -> tells c cs' -> (forall k, cs' !! g k = cs !! k) ->
  exists o', alter_columns f (map_cols g o) = Some o' /\ at_schema t n l0 cs' o'.
Proof.
  intros [Hc Ho Hu Htl Hl] Hf Ht Hg.
  destruct (alter_columns_spec f (map_cols g o) c Hf) as (o' & E & Hcur & Hb & Hi & Hr). exists o'. split; [done|].
  assert (Hrest : m_current_table o' = t /\ m_active_descriptor o' = m_active_descriptor o /\
    m_active_table o' = m_active_table o /\ m_is_top_level_table o' = m_is_top_level_table o /\ m_epoch o' = m_epoch o)
    by (destruct o as [[]], o'; simpl in *; injection Hr as -> -> -> -> -> -> -> ->; done).
  destruct Hrest as (E1 & E2 & E3 & E4 & E5).
  split; [done| | |by rewrite Hcur|].
  - unfold not_own_schema in *. by rewrite E2, E3, E4.
  - intros p Hp. rewrite E2 in Hp. specialize (Hu p Hp). destruct p; simpl in *.
    + rewrite E5, Hi. done.
    + by rewrite Hb.
  - rewrite Hi. simpl. revert Hl. rewrite Hc. generalize (lists (m_info o)). intros l.
    induction 1 as [|x y l0 l (Hxt & Hxr & Hxc & Hxk) _ IH]; simpl; constructor; [|done].
    unfold same_list. rewrite Hxt. destruct (table_ndx x =? t)%nat eqn:Et; simpl; rewrite ?Hxt; repeat (split; [done|]).
    + intros Hk. by rewrite Hg, Hxk.
    + done.
Qed.

Lemma schema_changed_step t n l0 cs o :
  at_schema t n l0 cs o -> at_schema t n l0 cs (set_info (set_schema_changed (m_info o)) o).
Proof. by intros []; split. Qed.

(** Every change of the columns is handled, and followed. *)
Lemma column_step_handled t n l0 cs cs' o i :
  at_schema t n l0 cs o -> column_step cs i = Some cs' -> Z.of_nat (length cs) < 2 ^ 61 ->
  exists o', handle o i = Handled o' /\ at_schema t n l0 cs' o'.
Proof.
  intros Hat%schema_changed_step E Hw. unfold handle.
  assert (Hins : forall ndx, (if (ndx <=? length cs)%nat then Some (list_insert None ndx cs) else None) = Some cs' ->
    exists o', on_insert_column ndx o = Some o' /\ at_schema t n l0 cs' o').
  { intros ndx Hi. destruct (Nat.leb_spec ndx (length cs)) as [Hle|]; [|done]. injection Hi as <-.
    unfold on_insert_column.
    destruct (active_descriptor_step _ _ _ _ _ (fun b => ChangeBuilder.insert_column b ndx) Hat) as (o1 & E1 & Hat1).
    rewrite E1. cbn [mbind option_bind]. rewrite (as_own _ _ _ _ _ Hat1).
    eapply renumber_step; [done|done|by apply tells_insert; [apply Hat1| |]|].
    intros k. rewrite list_insert_lookup by done. nat_cases; try done. f_equal. lia. }
  destruct i; try done.
  - destruct (Hins ndx E) as (o' & E' & Hat'). exists o'. simpl. by rewrite E'.
  - destruct (Hins ndx E) as (o' & E' & Hat'). exists o'. simpl. by rewrite E'.
  - simpl in E. destruct (Nat.eqb_spec from to), (Nat.ltb_spec from (length cs)), (Nat.ltb_spec to (length cs));
      try done. injection E as <-. simpl. unfold on_move_column.
    destruct (active_descriptor_step _ _ _ _ _ (fun b => ChangeBuilder.move_column b from to) Hat) as (o1 & E1 & Hat1).
    rewrite E1. cbn [mbind option_bind]. rewrite (as_own _ _ _ _ _ Hat1).
    destruct (tells_move (current_columns o1) cs from to) as (c & Ec & Htl); [apply Hat1|done..|].
    destruct (renumber_step t n l0 cs (list_move from to cs) o1 (fun c => adjust_for_move c from to)
      (move_index from to) c Hat1 Ec Htl) as (o' & E' & Hat').
    + intros k. rewrite list_move_lookup by done. by rewrite unmove_adjust.
    + exists o'. by rewrite E'.
Qed.

Lemma column_step_length cs i cs' : column_step cs i = Some cs' -> (length cs <= length cs' <= S (length cs))%nat.
Proof.
  destruct i; try done; simpl; try (destruct (_ <=? _)%nat; [|done]); try (destruct (_ && _); [|done]);
    intros [= <-]; rewrite ?list_insert_length, ?list_move_length; lia.
Qed.

(** ... and so are all of them in turn. *)
Lemma column_steps_handled t n l0 log cs cs' o :
  at_schema t n l0 cs o -> fold_option column_step log cs = Some cs' ->
  Z.of_nat (length cs + length log) < 2 ^ 61 ->
  exists o', handle_all handle log o = Handled o' /\ at_schema t n l0 cs' o'.
Proof.
  revert cs o. induction log as [|i log IH]; intros cs o Hat E Hw.
  - injection E as <-. by exists o.
  - simpl in E. destruct (column_step cs i) as [cs1|] eqn:E1; [|done]. cbn [mbind option_bind] in E.
    destruct (column_step_handled _ _ _ _ _ _ _ Hat E1) as (o1 & Eh & Hat1); [lia|].
    apply column_step_length in E1. simpl in Hw. simpl. rewrite Eh. simpl. apply (IH cs1 o1); [done|done|lia].
Qed.

(** The first selection of a table. *)
Lemma at_schema_start t n info bs :
  column_indices info !! t = None -> Z.of_nat n < 2 ^ 61 ->
  exists o, handle_all handle [select_table t 0 []; select_descriptor 0] (observe info bs) = Handled o /\
    at_schema t n (lists info) (Some <$> seq 0 n) o.
Proof.
  intros Hcol Hn. simpl. unfold handle. simpl. unfold on_select_table. simpl.
  assert (Hcs : forall o, column_indices (m_info o) = column_indices info -> m_current_table o = t ->
    tells (current_columns o) (Some <$> seq 0 n)).
  { intros o E1 E2. unfold current_columns. rewrite E1, E2, Hcol. simpl. split.
    - split; [unfold next_column; simpl; lia|done].
    - split; [simpl; lia|]. intros i c. rewrite list_lookup_fmap. intros (k & Ek & ->)%fmap_Some.
      apply lookup_seq in Ek as [-> Hk]. unfold original. simpl. lia. }
  assert (Hls : forall l, Forall2 (same_list t n (Some <$> seq 0 n)) l l).
  { intros l. apply Forall_Forall2_diag, Forall_true. intros x. unfold same_list.
    destruct (_ =? _)%nat; [|done]. repeat (split; [done|]). intros Hk.
    rewrite list_lookup_fmap, lookup_seq_lt by done. done. }
  destruct (negb (track_all info) && negb (flag (table_modifications_needed info) t)) eqn:E; simpl; eexists;
    (split; [done|]); split; simpl; try done; try by apply Hcs.
  - unfold ensure_table. simpl. by destruct (_ <=? _)%nat.
  - unfold not_own_schema. simpl. rewrite bool_decide_eq_true_2 by done. unfold ensure_table. simpl.
    by destruct (_ <=? _)%nat.
  - intros p [= <-]. simpl. split; [done|]. unfold ensure_table. simpl.
    destruct (Nat.leb_spec (length (tables info)) t); simpl; [rewrite vec_resize_length|]; lia.
  - apply Hcs; unfold ensure_table; simpl; by destruct (_ <=? _)%nat.
  - unfold ensure_table. simpl. destruct (_ <=? _)%nat; apply Hls.
Qed.

(** *** Tables *)

(** What a schema change does to the tables of the group *)
Definition table_step (ts : list (option nat)) (i : Instruction) : option (list (option nat)) :=
  match i with
  | insert_group_level_table ndx =>
    if (ndx <=? length ts)%nat then Some (list_insert None ndx ts) else None
  | move_group_level_table f t =>
    if negb (f =? t)%nat && (f <? length ts)%nat && (t <? length ts)%nat then Some (list_move f t ts) else None
  | _ => None
  end.

(** A vector with an entry per table, default values at its end left out,
    holds the entries of the original tables where those are now. *)
Definition follows {A} (d : A) (v0 v : list A) (ts : list (option nat)) : Prop :=
  forall p c, ts !! p = Some c ->
  default d (v !! p) = match c with Some k => default d (v0 !! k) | None => d end.

Lemma follows_start {A} (d : A) v n : follows d v v (Some <$> seq 0 n).
Proof.
  intros p c. rewrite list_lookup_fmap. intros (k & Ek & ->)%fmap_Some. apply lookup_seq in Ek as [-> _]. done.
Qed.

Lemma follows_insert {A} (d : A) v0 v ts ndx :
  follows d v0 v ts -> (ndx <= length ts)%nat -> follows d v0 (insert_empty_at d v ndx) (list_insert None ndx ts).
Proof.
  intros Hf Hn p c. rewrite list_insert_lookup by done. intros E.
  destruct (decide (ndx < length v)%nat) as [Hlt|Hge].
  - rewrite insert_empty_at_lookup by done. revert E. destruct (p <? ndx)%nat; [apply Hf|].
    destruct (p =? ndx)%nat; [by intros [= <-]|apply Hf].
  - unfold insert_empty_at. rewrite (proj2 (Nat.ltb_ge _ _)) by lia. revert E.
    destruct (Nat.ltb_spec p ndx); [apply Hf|]. rewrite (proj2 (lookup_ge_None v p)) by lia.
    destruct (Nat.eqb_spec p ndx); [by intros [= <-]|]. intros E%Hf. rewrite <- E.
    by rewrite (proj2 (lookup_ge_None v _)) by lia.
Qed.

Lemma follows_move {A} (d : A) v0 v ts f t :
  follows d v0 v ts -> f <> t -> (f < length ts)%nat -> (t < length ts)%nat ->
  exists v', rotate d v f t = Some v' /\ follows d v0 v' (list_move f t ts).
Proof.
  intros Hf Hne Hfl Htl. destruct (rotate_spec d v f t Hne) as (v' & E & _ & Hv'). exists v'. split; [done|].
  intros p c Ep. rewrite list_move_lookup in Ep by done. rewrite Hv'. by apply Hf.
Qed.

(** The group has had its [n] original tables rearranged to [ts]. *)
Definition moved_list (n : nat) (ts : list (option nat)) (x y : ListChangeInfo) : Prop :=
  row_ndx y = row_ndx x /\ col_ndx y = col_ndx x /\ changes y = changes x /\
  ((table_ndx x < n)%nat -> ts !! table_ndx y = Some (Some (table_ndx x))).

Record rearranged (n : nat) (start : TransactionChangeInfo IS) (ts : list (option nat)) (i : TransactionChangeInfo IS) : Prop := {
  ra_indices :
    (table_indices i = [] /\ ts = Some <$> seq 0 n /\
     length (table_modifications_needed i) = length (table_modifications_needed start)) \/
    length (table_indices i) = length (table_modifications_needed start);
  ra_none : table_modifications_needed start = [] -> table_modifications_needed i = [];
  ra_index k : (k < n)%nat -> (k < length (table_modifications_needed start))%nat ->
    ts !! Kvo.new_table_ndx i k = Some (Some k);
  ra_tables : follows ChangeBuilder.empty_builder (tables start) (tables i) ts;
  ra_mods : follows false (table_modifications_needed start) (table_modifications_needed i) ts;
  ra_moves : follows false (table_moves_needed start) (table_moves_needed i) ts;
  ra_lists : Forall2 (moved_list n ts) (lists start) (lists i)
}.

Lemma rearranged_start n info : table_indices info = [] -> rearranged n info (Some <$> seq 0 n) info.
Proof.
  intros E. split; try apply follows_start; [by left|done| |].
  - intros k Hk _. unfold Kvo.new_table_ndx. rewrite E. simpl. by rewrite list_lookup_fmap, lookup_seq_lt.
  - apply Forall_Forall2_diag, Forall_true. intros x. repeat (split; [done|]).
    intros Hx. by rewrite list_lookup_fmap, lookup_seq_lt.
Qed.

(** [prepare_table_indices] makes the implicit identity explicit. *)
Lemma prepared n start ts i :
  rearranged n start ts i ->
  let i' := prepare_table_indices i in
  length (table_indices i') = length (table_modifications_needed start) /\
  (forall k, (k < n)%nat -> (k < length (table_modifications_needed start))%nat ->
     exists p, table_indices i' !! k = Some p /\ ts !! p = Some (Some k)) /\
  tables i' = tables i /\ table_modifications_needed i' = table_modifications_needed i /\
  table_moves_needed i' = table_moves_needed i /\ lists i' = lists i.
Proof.
  intros [Hi Hnone Hx _ _ _ _]. unfold prepare_table_indices.
  assert (Hgo : length (table_indices i) = length (table_modifications_needed start) ->
    forall k, (k < n)%nat -> (k < length (table_modifications_needed start))%nat ->
    exists p, table_indices i !! k = Some p /\ ts !! p = Some (Some k)).
  { intros El k Hk Hl. specialize (Hx k Hk Hl). unfold Kvo.new_table_ndx in Hx.
    destruct (lookup_lt_is_Some_2 (table_indices i) k) as [p E]; [lia|]. exists p. rewrite E in *. done. }
  destruct (table_indices i) as [|p0 ps] eqn:Et.
  - destruct Hi as [(_ & -> & El)|El].
    + destruct (table_modifications_needed i) eqn:Em; simpl.
      * rewrite Et, Em. split; [done|]. split; [|done]. intros k _ Hk. simpl in El. lia.
      * rewrite Em. split; [by rewrite <- El; simpl; rewrite length_seq|]. split; [|done].
        intros k Hk Hl. rewrite <- El in Hl. exists k.
        rewrite list_lookup_fmap, lookup_seq_lt by done. split; [|done].
        exact (lookup_seq_lt 0 (length (b :: l)) k Hl).
    + simpl in El. destruct (table_modifications_needed i) eqn:Em; simpl.
      * rewrite Et, Em. split; [done|]. split; [by apply Hgo|done].
      * destruct (table_modifications_needed start); [|done]. by specialize (Hnone eq_refl).
  - rewrite Et. destruct Hi as [[? _]|El]; [done|]. split; [done|]. split; [by apply Hgo|done].
Qed.

Lemma prepare_lists l (i : TransactionChangeInfo IS) :
  prepare_table_indices (set_lists l (set_schema_changed i)) = set_lists l (set_schema_changed (prepare_table_indices i)).
Proof. unfold prepare_table_indices. simpl. destruct (table_indices i), (table_modifications_needed i); done. Qed.

Lemma moved_lists n ts ts' (g : nat -> nat) l0 l :
  (forall p, ts' !! g p = ts !! p) ->
  Forall2 (moved_list n ts) l0 l -> Forall2 (moved_list n ts') l0 (with_table g <$> l).
Proof.
  intros Hg. induction 1 as [|x y l0 l (Hr & Hc & Hch & Ht) _ IH]; simpl; constructor; [|done].
  repeat (split; [done|]). intros Hk. simpl. by rewrite Hg, Ht.
Qed.

(** The new position of every table, given the explicit vector of indices. *)
Lemma renumbered n (start i : TransactionChangeInfo IS) (ts ts' : list (option nat)) (g : nat -> nat) (idx : list nat) :
  length idx = length (table_modifications_needed start) ->
  (forall k, (k < n)%nat -> (k < length (table_modifications_needed start))%nat ->
     exists p, idx !! k = Some p /\ ts !! p = Some (Some k)) ->
  (forall p, ts' !! g p = ts !! p) ->
  table_indices i = g <$> idx ->
  length (table_indices i) = length (table_modifications_needed start) /\
  forall k, (k < n)%nat -> (k < length (table_modifications_needed start))%nat ->
    ts' !! Kvo.new_table_ndx i k = Some (Some k).
Proof.
  intros Hl Hx Hg E. rewrite E, length_fmap. split; [done|]. intros k Hk Hkl. unfold Kvo.new_table_ndx.
  destruct (Hx k Hk Hkl) as (p & Ep & Et). rewrite E, list_lookup_fmap, Ep. simpl. by rewrite Hg.
Qed.

(** Every change of the group's tables is handled, and followed. *)
Lemma table_step_handled n start ts ts' o i :
  rearranged n start ts (m_info o) -> table_step ts i = Some ts' ->
  exists o', handle o i = Handled o' /\ rearranged n start ts' (m_info o').
Proof.
  intros Hra E.
  destruct (prepared n start ts _ Hra) as (Hlen & Hx & Et & Em & Ev & _).
  destruct Hra as [_ Hnone _ Hts Hmods Hmvs Hls]. unfold handle. destruct i; try done; simpl in E.
  - destruct (Nat.leb_spec ndx (length ts)) as [Hle|]; [|done]. injection E as <-. simpl observer_handle.
    unfold on_insert_group_level_table, map_lists. simpl m_info. rewrite prepare_lists. eexists. split; [done|].
    assert (Hg : forall p, list_insert None ndx ts !! (if (ndx <=? p)%nat then (p + 1)%nat else p) = ts !! p)
      by (intros p; rewrite list_insert_lookup by done; nat_cases; try done; f_equal; lia).
    destruct (renumbered n start
      (set_table_indices (adjust_ge (table_indices (prepare_table_indices (m_info o))) ndx) (m_info o)) ts (list_insert None ndx ts) _ _ Hlen Hx Hg eq_refl) as [Hq1 Hq2].
    split; simpl; rewrite ?Et, ?Em, ?Ev; [by right|by intros ->%Hnone|exact Hq2|by apply follows_insert..|by eapply moved_lists].
  - destruct (Nat.eqb_spec from to), (Nat.ltb_spec from (length ts)), (Nat.ltb_spec to (length ts)); try done.
    injection E as <-. simpl observer_handle. unfold on_move_group_level_table, map_lists. simpl m_info.
    rewrite prepare_lists. simpl. rewrite Et, Em, Ev.
    destruct (follows_move _ _ _ _ from to Hts) as (t1 & E1 & Hq1); [done..|].
    destruct (follows_move _ _ _ _ from to Hmods) as (t2 & E2 & Hq2); [done..|].
    destruct (follows_move _ _ _ _ from to Hmvs) as (t3 & E3 & Hq3); [done..|].
    rewrite E1, E2, E3. simpl. eexists. split; [done|].
    assert (Hg : forall p, list_move from to ts !! adjust_for_move p from to = ts !! p)
      by (intros p; rewrite list_move_lookup by done; by rewrite unmove_adjust).
    destruct (renumbered n start
      (set_table_indices (adjust_all_for_move (table_indices (prepare_table_indices (m_info o))) from to) (m_info o))
      ts (list_move from to ts) _ _ Hlen Hx Hg eq_refl) as [Hq4 Hq5].
    split; simpl; [by right| |exact Hq5|done..|by eapply moved_lists].
    intros Hm%Hnone. rewrite Hm in E2. by apply rotate_nil in E2.
Qed.

Lemma table_steps_handled n start log ts ts' o :
  rearranged n start ts (m_info o) -> fold_option table_step log ts = Some ts' ->
  exists o', handle_all handle log o = Handled o' /\ rearranged n start ts' (m_info o').
Proof.
  revert ts o. induction log as [|i log IH]; intros ts o Hra E.
  - injection E as <-. by exists o.
  - simpl in E. destruct (table_step ts i) as [ts1|] eqn:E1; [|done]. cbn [mbind option_bind] in E.
    destruct (table_step_handled _ _ _ _ _ _ Hra E1) as (o1 & Eh & Hra1). simpl. rewrite Eh. simpl. by apply (IH ts1).
Qed.
End observer.
