(* ===== verification/KvoFacts.v ===== *)
(** * Correctness of [KVOAdapter]

    Looking up the new position of an observed row inverts the position
    tracking of the change builder, and the assignments reported for a list
    whose rows were only moved cover exactly the positions that changed. *)
From stdpp Require Import list sorting.
From S2P Require Import Prelude.
From S2P Require Import RangeList.
From S2P Require Import IndexSets.
From S2P Require Import IndexSetShifts.
From S2P Require Import IndexSetInterface.
From S2P Require Import Positions.
From S2P Require Import ChangeBuilder.
From S2P Require Import ChangeBuilderFacts.
From S2P Require Import ChangeMerge.
From S2P Require Import TransactLog.
From S2P Require Import KvoAdapter.
Import ChangeBuilder.

Section rows.
Context `{IndexSetLaws IS} `{BuildMode}.
Implicit Types (b : CollectionChangeBuilder IS).

(** The binary search of [before] *)
Lemma moved_to_elem b idx j :
  StronglySorted from_le (moves b) -> NoDup (from <$> moves b) ->
  Kvo.moved_to b idx = Some j <-> mkMove idx j ∈ moves b.
Proof.
  intros Hs Hnd. unfold Kvo.moved_to.
  destruct (find_if_split (fun m => idx <=? from m) (moves b)) as (l1 & l2 & E & _ & Hl1 & Hhd).
  assert (Hl2 : Forall (fun m => idx <= from m) l2).
  { destruct l2 as [|m l2]; [done|]. rewrite E in Hs. apply StronglySorted_app_1_r in Hs.
    apply StronglySorted_inv in Hs as [_ Hm]. constructor; [lia|].
    eapply Forall_impl; [exact Hm|]. unfold from_le. intros x ?. simpl in *. lia. }
  assert (Hb : lower_bound (fun m => from m <? idx) 0 (moves b) = length l1).
  { rewrite E. apply lower_bound_app; [lia|eapply Forall_impl; [exact Hl1|]; simpl; lia|
      eapply Forall_impl; [exact Hl2|]; simpl; lia]. }
  rewrite Hb, E, lookup_app_r, Nat.sub_diag by lia. split.
  - destruct l2 as [|m l2]; [done|]. simpl. destruct (Z.eqb_spec (from m) idx) as [<-|]; [|done]. intros [= <-].
    apply elem_of_app. right. destruct m. left.
  - intros [Hin|Hin]%elem_of_app.
    { rewrite Forall_forall in Hl1. apply Hl1 in Hin. simpl in Hin. lia. }
    destruct l2 as [|m l2]; [by apply elem_of_nil in Hin|]. simpl.
    assert (Em : from m = idx).
    { apply elem_of_cons in Hin as [<-|Hin]; [done|].
      rewrite E in Hs. apply StronglySorted_app_1_r, StronglySorted_inv in Hs as [_ Hm].
      rewrite Forall_forall in Hm. apply Hm in Hin. unfold from_le in Hin. simpl in *. lia. }
    rewrite (proj2 (Z.eqb_eq _ _)) by done. f_equal.
    enough (m = mkMove idx j) as -> by done.
    apply (NoDup_key_inj from (moves b)); [done| |by rewrite E, elem_of_app; right|done].
    rewrite E. apply elem_of_app. right. left.
Qed.

Lemma ok_move_in b m :
  ok b -> m ∈ moves b -> ix_has (deletions b) (from m) /\ ix_has (insertions b) (to m).
Proof. intros Hok. apply (proj1 (Forall_forall _ _) (ok_moves _ Hok)). Qed.

Lemma new_row_ndx_spec b idx :
  ok b -> StronglySorted from_le (moves b) -> 0 <= idx ->
  exists r, Kvo.new_row_ndx b idx = Some r /\
    match r with
    | inr j => 0 <= j /\ tracks b j = Some idx
    | inl _ => forall j, 0 <= j -> tracks b j <> Some idx
    end.
Proof.
  intros Hok Hs Hi. unfold Kvo.new_row_ndx.
  pose proof (ix_valid_sep _ (ok_deletions _ Hok)) as Hd. pose proof (ix_valid_sep _ (ok_insertions _ Hok)) as Hins.
  pose proof (fun j => moved_to_elem b idx j Hs (ok_sources_nodup _ Hok)) as Hmv.
  destruct (Kvo.moved_to b idx) as [j|] eqn:E.
  - exists (inr j). split; [done|]. clear E. assert (E : mkMove idx j ∈ moves b) by by apply Hmv.
    destruct (ok_move_in _ _ Hok E) as [_ Hj].
    split; [apply (ix_has_nonneg _ _ (ok_insertions _ Hok) Hj)|]. unfold tracks.
    destruct (move_source (moves b) j) as [f|] eqn:Ef.
    + apply move_source_elem in Ef as (m & Hm & <- & Em); [|apply Hok].
      by rewrite (same_to _ _ _ (ok_moves_nodup _ Hok) Hm E Em).
    + apply move_source_none in Ef. destruct Ef. by apply (list_elem_of_fmap_2 to _ (mkMove idx j)).
  - assert (Hno : forall j, move_source (moves b) j <> Some idx).
    { intros j (m & Hm & Ef & Em)%move_source_elem; [|apply Hok].
      enough (None = Some j) by done. apply Hmv. destruct m. simpl in *. by subst. }
    rewrite ix_contains_has by apply Hok. cbn [mbind option_bind]. case_bool_decide as Hdel.
    + exists (inl tt). split; [done|]. intros j Hj. unfold tracks.
      destruct (move_source (moves b) j) as [f|] eqn:Ef; [intros [= ->]; by apply (Hno j)|].
      unfold origin. case_decide; [done|]. intros [= Eq]. rewrite <- Eq in Hdel.
      by apply ix_free_not_has in Hdel; [|apply Hok].
    + rewrite ix_unshift_below by (apply Hok || done). cbn [mbind option_bind]. rewrite ix_shift_free.
      set (j := ix_free (insertions b) (idx - ix_below (deletions b) idx)).
      exists (inr j). split; [done|].
      assert (Hj0 : 0 <= j) by (apply free_nonneg; [done|]; by apply (rank_nonneg _ idx Hd)).
      split; [done|]. unfold tracks. destruct (move_source (moves b) j) as [f|] eqn:Ef.
      * exfalso. apply move_source_elem in Ef as (m & Ef & _ & Em); [|apply Hok].
        destruct (ok_move_in _ _ Hok Ef) as [_ Hj].
        rewrite Em in Hj. by apply ix_free_not_has in Hj; [|apply Hok].
      * unfold origin. rewrite decide_False by (apply ix_free_not_has, Hok). f_equal.
        unfold j, ix_free. rewrite rank_free by done. by apply free_rank.
Qed.
End rows.

(** ** Moves as assignments *)

(** An iterator over the ranges of [l] which a call of [in_range] with [p]
    may be asked about next *)
Record iterates (l : list range) (p : Z) (it : list range) : Prop := {
  it_sep : exists lo, sep lo it;
  it_mem y : p <= y -> mem it y <-> mem l y;
  it_head : match it with [] => True | r :: _ => p - 1 <= r.2 end;
  it_from r : r ∈ it -> r ∈ l
}.

Lemma iterates_start l : ranges_ok l -> forall p, match l with [] => True | r :: _ => p <= r.2 end -> iterates l p l.
Proof. intros Hl p Hp. split; [eauto|done|destruct l; [done|lia]|done]. Qed.

Lemma in_range_spec l p it :
  iterates l p it ->
  exists it', Kvo.in_range it p = (it', bool_decide (mem l p)) /\
    iterates l (p + 1) it' /\ iterates l (p + 2) it'.
Proof.
  intros [[lo Hs] Hm Hh Hf]. unfold Kvo.in_range.
  set (it' := match it with [] => [] | r :: rest => if r.2 <=? p then rest else it end).
  assert (Hit' : (exists lo', sep lo' it') /\ (forall y, p <= y -> mem it' y <-> mem l y) /\
    match it' with [] => True | r :: _ => p < r.2 end /\ (forall r, r ∈ it' -> r ∈ l)).
  { subst it'. destruct it as [|r rest]; [split_and!; [by exists 0|done..]|]. destruct Hs as (Hs1 & Hs2 & Hs3).
    destruct (Z.leb_spec r.2 p).
    - split_and!; [eauto| | |intros x Hx; apply Hf; by right].
      + intros y Hy. rewrite <- Hm by done. simpl. split; [tauto|intros [?|?]; [lia|done]].
      + destruct rest as [|r' rest]; [done|]. simpl in Hs3. lia.
    - split_and!; [exists lo; done|done|lia|done]. }
  clearbody it'. destruct Hit' as ((lo' & Hs') & Hm' & Hh' & Hf').
  exists it'. split.
  { f_equal. apply eq_bool_decide. rewrite <- Hm' by lia. destruct it' as [|r rest]; [done|]. simpl.
    rewrite andb_true_iff, Z.leb_le, Z.ltb_lt. split; [tauto|]. intros [?|Hr]; [done|].
    destruct Hs' as (_ & _ & Hs'). pose proof (mem_lower _ _ _ Hs' Hr). lia. }
  split.
  - split; [eauto|intros y Hy; apply Hm'; lia|destruct it'; [done|lia]|done].
  - split; [eauto|intros y Hy; apply Hm'; lia| |done].
    destruct it' as [|r rest]; [done|]. lia.
Qed.

Lemma count_below_total lo l x : sep lo l -> count_below x l <= total l.
Proof.
  revert lo. induction l as [|r l IH]; intros lo; simpl; [lia|]. intros (_ & ? & Hs). apply IH in Hs.
  unfold range_len. lia.
Qed.

(** The rows a set of single insertions has between them *)
Lemma single_gap lo l p : sep lo l -> Forall (fun r => range_len r = 1) l -> mem l p -> ~ mem l (p + 1).
Proof.
  revert lo. induction l as [|r l IH]; intros lo; [done|]. intros (_ & _ & Hs) [Hr Hl]%Forall_cons.
  unfold range_len in Hr. cbn [mem]. intros [Hp|Hp] [Hq|Hq].
  - lia.
  - pose proof (mem_lower _ _ _ Hs Hq). lia.
  - pose proof (mem_lower _ _ _ Hs Hp). lia.
  - by apply (IH _ Hs Hl Hp).
Qed.

Section moves_as_sets.
Context `{IndexSetLaws IS} `{BuildMode}.
Context (del ins : list range) (Hdel : ranges_ok del) (Hins : ranges_ok ins).
Context (Hsingle : Forall (fun r => range_len r = 1) ins).
Implicit Types (s : IS).

(** Where the row at [j], which is not deleted, ends up *)
Definition new_position (j : Z) : Z := nth_free ins (rank del j).

(** One turn: the running [shift] stays in step with the two ranks, and is
    the distance the row has moved. *)
Lemma shift_step i shift D I :
  0 <= i -> 0 <= i + shift < 2 ^ 64 -> iterates del i D -> iterates ins (i + shift) I ->
  rank ins (i + shift) = rank del i ->
  exists D' I' shift', 
    (let '(D', deleted) := Kvo.in_range D i in
     (D', if deleted : bool then (I, shift - 1)
          else let '(I', inserted) := Kvo.in_range I ((i + shift) mod 2 ^ 64) in
               (I', if inserted : bool then shift + 1 else shift))) = (D', (I', shift')) /\
    iterates del (i + 1) D' /\ iterates ins (i + 1 + shift') I' /\ 0 <= i + 1 + shift' /\
    rank ins (i + 1 + shift') = rank del (i + 1) /\
    (~ mem del i -> new_position i = i + shift').
Proof.
  intros Hi Hp HD HI Hr. destruct (in_range_spec _ _ _ HD) as (D' & -> & HD' & _).
  rewrite (Z.mod_small (i + shift)) by done.
  destruct (in_range_spec _ _ _ HI) as (I' & E & HI1 & HI2).
  pose proof (rank_succ del i Hdel) as Hrd. pose proof (rank_succ ins (i + shift) Hins) as Hri.
  assert (Hdec := decide (mem del i)). destruct Hdec as [Hd|Hd]; [rewrite (bool_decide_eq_true_2 _ Hd)|rewrite (bool_decide_eq_false_2 _ Hd)].
  - exists D', I, (shift - 1). split; [done|]. rewrite decide_True in Hrd by done.
    replace (i + 1 + (shift - 1)) with (i + shift) by lia. split_and!; [done..|lia|lia|by intros ?].
  - rewrite decide_False in Hrd by done. rewrite E. case_bool_decide as Hin.
    + exists D', I', (shift + 1). split; [done|]. rewrite decide_True in Hri by done.
      replace (i + 1 + (shift + 1)) with (i + shift + 2) by lia.
      pose proof (single_gap _ _ _ Hins Hsingle Hin) as Hgap.
      pose proof (rank_succ ins (i + shift + 1) Hins) as Hri2. rewrite decide_False in Hri2 by done.
      replace (i + shift + 1 + 1) with (i + shift + 2) in Hri2 by lia.
      split_and!; [done|done|lia|lia|]. intros _. unfold new_position.
      replace (rank del i) with (rank ins (i + shift + 1)) by lia. rewrite free_rank by done. lia.
    + exists D', I', shift. split; [done|]. rewrite decide_False in Hri by done.
      replace (i + 1 + shift) with (i + shift + 1) by lia. split_and!; [done|done|lia|lia|].
      intros _. unfold new_position. rewrite <- Hr. by apply free_rank.
Qed.

Lemma add_shifted_rows_spec n i shift D I s :
  ix_valid s -> (forall j, mem del j -> ix_has s j) ->
  0 <= i -> 0 <= i + shift -> iterates del i D -> iterates ins (i + shift) I ->
  rank ins (i + shift) = rank del i -> i + Z.of_nat n + total ins <= 2 ^ 64 ->
  exists s', Kvo.add_shifted_rows n i shift D I s = Some s' /\ ix_valid s' /\
    forall j, ix_has s' j <-> ix_has s j \/ (i <= j < i + Z.of_nat n /\ ~ mem del j /\ new_position j <> j).
Proof.
  revert i shift D I s. induction n as [|n IH]; intros i shift D I s Hs Hds Hi Hp HD HI Hr Hw.
  { exists s. split; [done|]. split; [done|]. intros j. split; [tauto|intros [?|?]; [done|lia]]. }
  assert (Hp' : i + shift < 2 ^ 64).
  { pose proof (count_below_total _ _ (i + shift) Hins). pose proof (count_below_nonneg _ _ i Hdel).
    unfold rank in Hr. lia. }
  destruct (shift_step i shift D I Hi (conj Hp Hp') HD HI Hr) as (D' & I' & shift' & E & HD' & HI' & Hp1 & Hr' & Hnew).
  cbn [Kvo.add_shifted_rows]. destruct (Kvo.in_range D i) as [D1 deleted] eqn:E1.
  destruct (if deleted : bool then _ else _) as [I1 sh1] eqn:E2 in |- *. rewrite E2 in E.
  injection E as -> -> ->. 
  assert (Hstep : exists s1, (if shift' =? 0 then Some s else ix_add s i) = Some s1 /\ ix_valid s1 /\
    forall j, ix_has s1 j <-> ix_has s j \/ (j = i /\ shift' <> 0)).
  { destruct (Z.eqb_spec shift' 0).
    - exists s. split; [done|]. split; [done|]. intros j. split; [tauto|intros [?|[_ ?]]; done].
    - destruct (ix_add_has s i Hs Hi) as (s1 & Es & Hs1 & Hh). exists s1. split; [done|]. split; [done|].
      intros j. rewrite Hh. tauto. }
  destruct Hstep as (s1 & -> & Hs1 & Hh1). cbn [mbind option_bind].
  destruct (IH (i + 1) shift' D' I' s1) as (s' & Es & Hs' & Hh); [done|intros j Hj; rewrite Hh1; auto|lia|done..|lia|].
  exists s'. split; [done|]. split; [done|]. intros j. rewrite Hh, Hh1.
  destruct (decide (j = i)) as [->|Hne].
  - destruct (decide (mem del i)) as [Hd|Hd]; [pose proof (Hds _ Hd); tauto|]. specialize (Hnew Hd).
    split; [intros [[?|[_ ?]]|?]; [tauto|right; split_and!; [lia|lia|done|lia]|lia]|].
    intros [?|(_ & _ & ?)]; [tauto|]. left. right. split; [done|lia].
  - split; [intros [[?|[? _]]|(? & ? & ?)]; [tauto|done|right; split_and!; [lia|lia|done|done]]|].
    intros [?|(? & ? & ?)]; [tauto|]. right. split_and!; [lia|lia|done|done].
Qed.
End moves_as_sets.

Section list_moves.
Context `{IndexSetLaws IS} `{BuildMode}.
Implicit Types (b : CollectionChangeBuilder IS).

(** A row that is kept in place is at its own old position. *)
Lemma origin_fixed (d i : IS) j :
  ix_valid d -> ix_valid i -> ~ ix_has d j ->
  origin d i j = Some j <-> new_position (ix_ranges d) (ix_ranges i) j = j.
Proof.
  intros Hd%ix_valid_sep Hi%ix_valid_sep Hj. unfold origin, new_position, ix_free. split.
  - case_decide as Hin; [done|]. intros [= E].
    assert (rank (ix_ranges d) j = rank (ix_ranges i) j) as -> by (rewrite <- E at 1; by apply rank_free).
    by apply free_rank.
  - intros E. rewrite decide_False by (unfold ix_has; rewrite <- E; by apply free_not_mem). f_equal.
    assert (rank (ix_ranges i) j = rank (ix_ranges d) j) as -> by (rewrite <- E at 1; by apply rank_free).
    by apply free_rank.
Qed.

(** Outside the span of both sets nothing moves. *)
Lemma rank_before l r j : ranges_ok l -> head l = Some r -> j <= r.1 -> rank l j = j.
Proof.
  intros Hl E Hj. destruct l as [|x l]; [done|]. injection E as ->. destruct Hl as (_ & Hr & Hs).
  unfold rank. rewrite (count_below_none (r.1 - 1)); [lia| |lia]. split; [lia|done].
Qed.

Lemma not_mem_before l r j : ranges_ok l -> head l = Some r -> j < r.1 -> ~ mem l j.
Proof.
  intros Hl E Hj Hm. destruct l as [|x l]; [done|]. injection E as ->. destruct Hl as (_ & Hr & Hs).
  destruct Hm as [?|Hm]; [lia|]. pose proof (mem_lower _ _ _ Hs Hm). lia.
Qed.

Lemma rank_after l r j : ranges_ok l -> last l = Some r -> r.2 <= j -> rank l j = j - total l /\ ~ mem l j.
Proof.
  intros Hl (l' & ->)%last_Some Hj. unfold rank. rewrite (count_below_all (-1)); [|done|by rewrite last_end_snoc].
  split; [done|]. intros Hm. pose proof (mem_upper _ _ _ Hl Hm) as Hu. rewrite last_end_snoc in Hu. lia.
Qed.

Lemma fixed_outside del ins d0 d1 i0 i1 j :
  ranges_ok del -> ranges_ok ins -> total del = total ins ->
  head del = Some d0 -> last del = Some d1 -> head ins = Some i0 -> last ins = Some i1 ->
  j < Z.min i0.1 d0.1 \/ Z.max i1.2 d1.2 <= j -> new_position del ins j = j.
Proof.
  intros Hd Hi Ht Ed0 Ed1 Ei0 Ei1 Hj.
  assert (rank del j = rank ins j /\ ~ mem ins j) as [E Hm].
  { destruct Hj.
    - rewrite (rank_before del d0 j), (rank_before ins i0 j) by (done || lia). split; [done|].
      eapply not_mem_before; [done..|lia].
    - pose proof (rank_after del d1 j Hd Ed1 ltac:(lia)) as [Erd _].
      pose proof (rank_after ins i1 j Hi Ei1 ltac:(lia)) as [Eri ?]. split; [lia|done]. }
  unfold new_position. rewrite E. by apply free_rank.
Qed.

Lemma moves_as_sets_spec b d0 d1 i0 i1 :
  ok b -> Forall (fun r => range_len r = 1) (ix_ranges (insertions b)) ->
  head (ix_ranges (deletions b)) = Some d0 -> last (ix_ranges (deletions b)) = Some d1 ->
  head (ix_ranges (insertions b)) = Some i0 -> last (ix_ranges (insertions b)) = Some i1 ->
  total (ix_ranges (deletions b)) = total (ix_ranges (insertions b)) ->
  Z.max i1.2 d1.2 + total (ix_ranges (insertions b)) <= 2 ^ 64 ->
  exists s, Kvo.moves_as_sets b = Some s /\ ix_valid s /\
    forall j, ix_has s j <->
      ix_has (modifications b) j \/ ix_has (deletions b) j \/ origin (deletions b) (insertions b) j <> Some j.
Proof.
  intros Hok Hsingle Ed0 Ed1 Ei0 Ei1 Htot Hw. unfold Kvo.moves_as_sets.
  destruct (ix_add_set_has (modifications b) (deletions b)) as (s & -> & Hs & Hsh); [apply Hok..|].
  rewrite Ed0, Ed1, Ei0, Ei1. cbn [mbind option_bind].
  pose proof (ix_valid_sep _ (ok_deletions _ Hok)) as Hd. pose proof (ix_valid_sep _ (ok_insertions _ Hok)) as Hi.
  set (start := Z.min i0.1 d0.1) in *. set (end_ := Z.max i1.2 d1.2) in *.
  pose proof (fun j => fixed_outside _ _ _ _ _ _ j Hd Hi Htot Ed0 Ed1 Ei0 Ei1) as Hout.
  fold start end_ in Hout.
  assert (Hbounds : 0 <= start < end_ /\ start <= d0.1 < d0.2 /\ start <= i0.1 < i0.2).
  { pose proof Hd as Hd'. pose proof Hi as Hi'. apply last_Some in Ed1 as (l & El).
    pose proof (last_end_ge _ _ Hi) as Hge. apply last_Some in Ei1 as (l' & El').
    destruct (ix_ranges (deletions b)) as [|? ld]; [done|]. injection Ed0 as ->.
    destruct (ix_ranges (insertions b)) as [|? li] eqn:Eli; [done|]. injection Ei0 as ->.
    destruct Hd' as (? & ? & _), Hi' as (? & ? & Hs2). apply last_end_ge in Hs2.
    unfold last_end in Hs2. change (i0.2 <= last_end (-1) (i0 :: li)) in Hs2. rewrite El', last_end_snoc in Hs2. lia. }
  destruct (add_shifted_rows_spec _ _ Hd Hi Hsingle (Z.to_nat (end_ - start)) start 0
    (ix_ranges (deletions b)) (ix_ranges (insertions b)) s Hs) as (s' & E & Hs' & Hh).
  - intros j Hj. apply Hsh. by left.
  - lia.
  - lia.
  - apply iterates_start; [done|]. destruct (ix_ranges (deletions b)); [done|]. injection Ed0 as ->. lia.
  - apply iterates_start; [done|]. destruct (ix_ranges (insertions b)); [done|]. injection Ei0 as ->. lia.
  - rewrite Z.add_0_r, (rank_before (ix_ranges (insertions b)) i0), (rank_before _ d0) by (done || lia). done.
  - lia.
  - exists s'. split; [done|]. split; [done|]. intros j. rewrite Hh, Hsh.
    destruct (decide (ix_has (deletions b) j)) as [Hj|Hj]; [tauto|].
    rewrite origin_fixed by (done || apply Hok). replace (start + Z.of_nat (Z.to_nat (end_ - start))) with end_ by lia.
    specialize (Hout j). destruct (decide (start <= j < end_)) as [?|Hn]; [tauto|].
    rewrite (Hout ltac:(lia)). tauto.
Qed.

(** The members of a bounded set, counted *)
Lemma bounded_count (s : IS) n :
  ix_valid s -> 0 <= n -> (forall j, ix_has s j -> j < n) -> ix_count s 0 n = Some (total (ix_ranges s)) /\
  match last (ix_ranges s) with Some r => r.2 <= n | None => True end.
Proof.
  intros Hs Hn Hb. rewrite ix_count_below by done. pose proof (ix_valid_sep _ Hs) as Hr.
  assert (Hl : last_end (-1) (ix_ranges s) <= n /\ match last (ix_ranges s) with Some r => r.2 <= n | None => True end).
  { destruct (list_snoc_inv (ix_ranges s)) as [E|(l & r & E)]; rewrite E; [unfold last_end; simpl; lia|].
    rewrite last_end_snoc, last_snoc. rewrite E in Hr. apply sep_app in Hr as [_ (_ & Hr & _)].
    specialize (Hb (r.2 - 1)). unfold ix_has in Hb. rewrite E, mem_app in Hb. simpl in Hb. lia. }
  split; [|apply Hl]. f_equal. unfold ix_below. apply (count_below_all (-1)); [done|apply Hl].
Qed.

Lemma nonzero_total (l : list range) : total l <> 0 -> exists r0 r1, head l = Some r0 /\ last l = Some r1.
Proof.
  destruct l as [|r0 l]; [done|]. intros _. destruct (last (r0 :: l)) as [r1|] eqn:E; [by exists r0, r1|].
  by apply last_None in E.
Qed.

(** A list whose rows were moved, each alone, and nothing else *)
Record only_moves b : Prop := {
  om_ok : ok b;
  om_some : moves b <> [];
  om_single : Forall (fun r => range_len r = 1) (ix_ranges (insertions b));
  om_deletions : total (ix_ranges (deletions b)) = Z.of_nat (length (moves b));
  om_insertions : total (ix_ranges (insertions b)) = Z.of_nat (length (moves b));
  om_small j : ix_has (deletions b) j \/ ix_has (insertions b) j -> j < 2 ^ 62;
  om_few : Z.of_nat (length (moves b)) < 2 ^ 62
}.

Lemma list_kind_moves b size c :
  only_moves b ->
  exists s, Kvo.list_kind b size c = Some (mkColumnInfo (initial_column_index c) KindSet s) /\
    forall j, ix_has s j <->
      ix_has (modifications b) j \/ ix_has (deletions b) j \/ origin (deletions b) (insertions b) j <> Some j.
Proof.
  intros [Hok Hne Hsingle Htd Hti Hsm Hfew].
  assert (Hn : Z.of_nat (length (moves b)) <> 0) by (destruct (moves b); [done|simpl; lia]).
  destruct (bounded_count (deletions b) npos) as [Ecd _]; [apply Hok|unfold npos; lia| |].
  { intros j Hj. unfold npos. specialize (Hsm j (or_introl Hj)). lia. }
  destruct (bounded_count (insertions b) npos) as [Eci _]; [apply Hok|unfold npos; lia| |].
  { intros j Hj. unfold npos. specialize (Hsm j (or_intror Hj)). lia. }
  destruct (bounded_count (deletions b) (2 ^ 62)) as [_ Hwd]; [apply Hok|lia|by intros j Hj; apply Hsm; left|].
  destruct (bounded_count (insertions b) (2 ^ 62)) as [_ Hwi]; [apply Hok|lia|by intros j Hj; apply Hsm; right|].
  destruct (nonzero_total (ix_ranges (deletions b))) as (d0 & d1 & Ed0 & Ed1); [lia|].
  destruct (nonzero_total (ix_ranges (insertions b))) as (i0 & i1 & Ei0 & Ei1); [lia|].
  rewrite Ed1 in Hwd. rewrite Ei1 in Hwi.
  destruct (moves_as_sets_spec b d0 d1 i0 i1 Hok Hsingle Ed0 Ed1 Ei0 Ei1) as (s & Es & _ & Hs); [lia|lia|].
  unfold Kvo.list_kind. rewrite Eci, Ecd, Htd, Hti. cbn [mbind option_bind].
  rewrite (proj2 (Z.eqb_neq _ _) Hn), Z.eqb_refl. cbn [negb andb]. rewrite Es. cbn [mbind option_bind].
  exists s. split; [done|exact Hs].
Qed.
End list_moves.
