(* ===== verification/TableRows.v ===== *)
(** * Change builders of top-level tables

    The rows of a top-level table are inserted at the end, erased by moving
    the last row over them, and swapped; the builder then keeps its moves in
    [m_move_mapping] until [parse_complete].  The abstract state is the
    sequence of rows, each with its old position, if it has one, and whether
    it was modified; every recording operation is shown to refine it. *)
From stdpp Require Import gmap sorting.
From S2P Require Import Prelude.
From S2P Require Import RangeList.
From S2P Require Import IndexSets.
From S2P Require Import IndexSetShifts.
From S2P Require Import IndexSetInterface.
From S2P Require Import Positions.
From S2P Require Import ChangeBuilder.
From S2P Require Import ChangeBuilderFacts.
From S2P Require Import ChangeMerge.
Import ChangeBuilder.

(** ** The abstract table *)
Record row := mkRow { row_old : option Z; row_modified : bool }.

Definition new_row : row := mkRow None false.
Definition touch (r : row) : row := mkRow (row_old r) true.

(** Moving the last row over the one at [i] *)
Definition rows_move_over (i : nat) (rows : list row) : list row :=
  match last rows with
  | Some r => take (length rows - 1) (<[i := r]> rows)
  | None => rows
  end.

Definition rows_swap (i j : nat) (rows : list row) : list row :=
  match rows !! i, rows !! j with
  | Some x, Some y => <[i := y]> (<[j := x]> rows)
  | _, _ => rows
  end.

Lemma rows_swap_length i j rows : length (rows_swap i j rows) = length rows.
Proof. unfold rows_swap. destruct (rows !! i), (rows !! j); by rewrite ?length_insert. Qed.

(** The table before the transaction *)
Definition old_rows (n : nat) : list row := (fun k => mkRow (Some (Z.of_nat k)) false) <$> seq 0 n.

Section table.
Context `{IndexSetLaws IS} `{BuildMode}.
(** The size of the table before the transaction *)
Context (N : Z).
Implicit Types (b : CollectionChangeBuilder IS).

(** What the builder says about the row at [j] *)
Definition says b (j : Z) : option Z :=
  match m_move_mapping b !! j with
  | Some o => Some o
  | None => if decide (ix_has (insertions b) j) then None else Some j
  end.

(** The old rows that are gone or have moved are those before [D], the size of
    the old table, whose position now holds another row or none. *)
Definition displaced (del ins : Z -> Prop) (n D : Z) : Prop :=
  (forall k, del k <-> 0 <= k < D /\ (ins k \/ n <= k)) /\ (forall j, 0 <= j < n -> ~ ins j -> j < D).

Record table_ok (rows : list row) b : Prop := {
  to_ok : ok b;
  to_moves : moves b = [];
  to_bound j : ix_has (insertions b) j \/ ix_has (modifications b) j -> j < Z.of_nat (length rows);
  to_displaced : exists D, (0 <= D <= npos /\ N <= D) /\
    displaced (ix_has (deletions b)) (ix_has (insertions b)) (Z.of_nat (length rows)) D;
  to_mapped j o : m_move_mapping b !! j = Some o -> ix_has (insertions b) j /\ ix_has (deletions b) o;
  to_inj j j' o : m_move_mapping b !! j = Some o -> m_move_mapping b !! j' = Some o -> j = j';
  to_rows i r : rows !! i = Some r ->
    row_old r = says b (Z.of_nat i) /\ (row_modified r = true <-> ix_has (modifications b) (Z.of_nat i))
}.

Lemma nil_has j : ~ ix_has (IS := IS) ix_nil j.
Proof. unfold ix_has. rewrite ix_nil_ranges. intros []. Qed.

Lemma empty_table_ok n : N = Z.of_nat n -> Z.of_nat n <= npos -> table_ok (old_rows n) empty_builder.
Proof.
  intros EN Hn. assert (El : length (old_rows n) = n) by (unfold old_rows; by rewrite length_fmap, length_seq).
  split; try rewrite El; unfold old_rows.
  - apply empty_builder_ok.
  - done.
  - unfold ix_has. simpl. rewrite ix_nil_ranges. by intros j [[]|[]].
  - exists (Z.of_nat n). split; [lia|]. unfold displaced, ix_has; simpl; rewrite ix_nil_ranges; simpl.
    split; [intros k; lia|lia].
  - intros j o. simpl. by rewrite lookup_empty.
  - intros j j' o. simpl. by rewrite lookup_empty.
  - intros i r. rewrite list_lookup_fmap. intros (k & Ek & ->)%fmap_Some. apply lookup_seq in Ek as [-> _].
    unfold says. simpl. rewrite lookup_empty, decide_False by apply nil_has. split; [done|].
    split; [done|]. intros Hm. by apply nil_has in Hm.
Qed.

(** ** Ends of a bounded set *)
Lemma ends_within_ok (s : IS) n : ix_valid s -> (forall j, ix_has s j -> j < n) -> ends_within s (n - 1) = true.
Proof.
  intros Hs Hb. unfold ends_within. destruct (last (ix_ranges s)) as [r|] eqn:E; [|done]. apply Z.leb_le.
  apply last_Some in E as (l & E). pose proof (ix_valid_sep _ Hs) as Hr. rewrite E in Hr.
  apply sep_app in Hr as [_ (_ & Hr & _)].
  specialize (Hb (r.2 - 1)). unfold ix_has in Hb. rewrite E, mem_app in Hb. simpl in Hb. lia.
Qed.

Lemma last_is_member (s : IS) n :
  ix_valid s -> (forall j, ix_has s j -> j < n) ->
  match last (ix_ranges s) with None => false | Some r => r.2 =? n end = bool_decide (ix_has s (n - 1)).
Proof.
  intros Hs Hb. apply eq_bool_decide. pose proof (ix_valid_sep _ Hs) as Hr. unfold ix_has in *.
  destruct (last (ix_ranges s)) as [r|] eqn:E.
  - apply last_Some in E as (l & E). rewrite E in *. pose proof (Hb (r.2 - 1)) as Hb'.
    rewrite mem_app in Hb'. simpl in Hb'. pose proof Hr as (_ & _ & Hr2 & _)%sep_app. rewrite Z.eqb_eq. split.
    + intros <-. apply mem_app. right. simpl. lia.
    + intros Hm. apply (mem_upper _ _ _ Hr) in Hm. rewrite last_end_snoc in Hm.
      assert (r.2 - 1 < n); [|lia]. apply Hb'. right. lia.
  - apply last_None in E. rewrite E. split; [done|intros []].
Qed.

(** ** Rows that are where they were *)
Lemma displaced_rank d i n D j :
  ix_valid d -> ix_valid i -> displaced (ix_has d) (ix_has i) n D -> 0 <= j < n -> ~ ix_has i j ->
  rank (ix_ranges i) j = rank (ix_ranges d) j /\ ~ ix_has d j.
Proof.
  intros Hd Hi [Hk HD] Hj Hn. split; [|by intros [_ [?|?]]%Hk; [|lia]]. unfold rank. f_equal.
  pose proof (count_below_agree (ix_ranges d) (ix_ranges i) 0 0 j (ix_valid_sep _ Hd) (ix_valid_sep _ Hi) ltac:(lia)) as Hc.
  rewrite !Z.sub_0_r, !(count_below_zero _ 0) in Hc by (done || by apply ix_valid_sep).
  rewrite !Z.sub_0_r in Hc. apply Hc. intros y Hy. rewrite Z.sub_0_r. specialize (HD j Hj Hn).
  specialize (Hk y). unfold ix_has in Hk. rewrite Hk. split; [intros ?|intros [_ [?|?]]]; [|done|lia].
  split; [lia|by left].
Qed.

Lemma displaced_origin d i n D j :
  ix_valid d -> ix_valid i -> displaced (ix_has d) (ix_has i) n D -> 0 <= j < n -> ~ ix_has i j ->
  origin d i j = Some j.
Proof.
  intros Hd Hi Hdis Hj Hn. destruct (displaced_rank d i n D j Hd Hi Hdis Hj Hn) as [E Hdj].
  unfold origin. rewrite decide_False by done. f_equal. rewrite E. apply free_rank; [by apply ix_valid_sep|done].
Qed.
(** ** Recording operations *)

Lemma table_row rows b j :
  table_ok rows b -> 0 <= j < Z.of_nat (length rows) ->
  exists r, rows !! Z.to_nat j = Some r /\ row_old r = says b j /\ (row_modified r = true <-> ix_has (modifications b) j).
Proof.
  intros Hb Hj. destruct (lookup_lt_is_Some_2 rows (Z.to_nat j)) as [r E]; [lia|]. exists r. split; [done|].
  pose proof (to_rows _ _ Hb _ _ E) as Hr. by rewrite Z2Nat.id in Hr by lia.
Qed.

Lemma displaced_insertions (del ins ins' : Z -> Prop) n n' D :
  displaced del ins n D -> n <= n' -> 
  (forall j, ins' j <-> n <= j < n' \/ ins j) -> displaced del ins' n' D.
Proof.
  intros [Hk HD] Hn Hi. split.
  - intros k. rewrite Hk, Hi. destruct (Z.lt_ge_cases k n), (Z.lt_ge_cases k n'); intuition lia.
  - intros j Hj Hnj. rewrite Hi in Hnj. apply HD; [lia|tauto].
Qed.

Lemma shift_mapping_end n count (m : gmap Z Z) :
  (forall j o, m !! j = Some o -> j < n) -> shift_mapping n count m = m.
Proof.
  intros Hm. unfold shift_mapping.
  assert (filter (fun p : Z * Z => n <= p.1) m = ∅) as ->.
  { apply map_empty. intros j. apply map_lookup_filter_None. right. intros o E%Hm. simpl. lia. }
  rewrite map_to_list_empty. simpl. apply map_filter_id. intros j o E. simpl. by eapply Hm.
Qed.

(** Rows are inserted at the end. *)
Lemma table_insert rows b count :
  table_ok rows b -> 0 < count ->
  exists b', insert b (Z.of_nat (length rows)) count true = Some b' /\
    table_ok (rows ++ replicate (Z.to_nat count) new_row) b'.
Proof.
  intros Hb Hc. set (n := Z.of_nat (length rows)).
  destruct (record_insert_spec b n count (to_ok _ _ Hb) ltac:(lia) Hc) as
    (b' & E & Hb' & _ & [Hm _] & Ed & Hi & Emap & Ems).
  exists b'. split; [done|].
  assert (Hmod : forall j, ix_has (modifications b') j <-> ix_has (modifications b) j).
  { intros j. rewrite Hm. unfold moved_back. split.
    - intros [[_ ?]|[? Hj]]; [done|]. pose proof (to_bound _ _ Hb _ (or_intror Hj)). lia.
    - intros Hj. pose proof (to_bound _ _ Hb _ (or_intror Hj)). left. split; [lia|done]. }
  assert (Hins : forall j, ix_has (insertions b') j <-> n <= j < n + count \/ ix_has (insertions b) j).
  { intros j. rewrite Hi. unfold moved_back. split.
    - intros [?|[[_ ?]|[? Hj]]]; [by left|by right|]. pose proof (to_bound _ _ Hb _ (or_introl Hj)). lia.
    - intros [?|Hj]; [by left|]. pose proof (to_bound _ _ Hb _ (or_introl Hj)). right. left. split; [lia|done]. }
  assert (Hmap : m_move_mapping b' = m_move_mapping b).
  { rewrite Emap. apply shift_mapping_end. intros j o Ej%(to_mapped _ _ Hb).
    apply (to_bound _ _ Hb). left. apply Ej. }
  assert (Hl : Z.of_nat (length (rows ++ replicate (Z.to_nat count) new_row)) = n + count)
    by (rewrite length_app, length_replicate; lia).
  split; try rewrite Hl.
  - done.
  - apply Ems, Hb.
  - intros j [Hj|Hj]; [apply Hins in Hj as [?|Hj]; [lia|]|apply Hmod in Hj];
      [pose proof (to_bound _ _ Hb _ (or_introl Hj))|pose proof (to_bound _ _ Hb _ (or_intror Hj))]; lia.
  - destruct (to_displaced _ _ Hb) as (D & HD & Hdis). exists D. split; [done|]. rewrite Ed.
    eapply displaced_insertions; [exact Hdis|lia|done].
  - intros j o. rewrite Hmap, Ed, Hins. intros Ej%(to_mapped _ _ Hb). tauto.
  - rewrite Hmap. apply Hb.
  - intros i r [Er|[Hge Er]]%lookup_app_Some.
    + destruct (to_rows _ _ Hb _ _ Er) as [Ho Hmr]. rewrite Hmod. split; [|done]. rewrite Ho. unfold says.
      rewrite Hmap. destruct (m_move_mapping b !! Z.of_nat i); [done|]. apply decide_ext. rewrite Hins.
      apply lookup_lt_Some in Er. split; [by right|intros [?|?]; [lia|done]].
    + apply lookup_replicate in Er as [-> Hlt]. simpl. unfold says. rewrite Hmap.
      assert (Hno : m_move_mapping b !! Z.of_nat i = None).
      { destruct (m_move_mapping b !! Z.of_nat i) eqn:Ei; [|done]. apply (to_mapped _ _ Hb) in Ei as [Hj _].
        pose proof (to_bound _ _ Hb _ (or_introl Hj)). lia. }
      rewrite Hno, decide_True by (apply Hins; left; lia). split; [done|]. rewrite Hmod. split; [done|].
      intros Hj. pose proof (to_bound _ _ Hb _ (or_intror Hj)). lia.
Qed.

(** *** Modifications *)
Lemma modify_spec b ndx col :
  ok b -> 0 <= ndx -> 0 <= col ->
  exists b', modify b ndx col = Some b' /\ ok b' /\ same_rows b b' /\
    forall j, ix_has (modifications b') j <-> j = ndx \/ ix_has (modifications b) j.
Proof.
  intros Hb Hn Hc. unfold modify.
  destruct (ix_add_has (modifications b) ndx (ok_modifications _ Hb) Hn) as (m & -> & Hm & Hh).
  cbn [mbind option_bind m_track_columns set_modifications].
  destruct (negb (m_track_columns b) || (col =? npos)) eqn:E.
  { eexists. split; [done|]. split; [destruct Hb; by split|]. by split. }
  set (cols := if Z.of_nat (length (columns (set_modifications m b))) <=? col then _ else _).
  assert (Hcols : Forall ix_valid cols /\ (Z.to_nat col < length cols)%nat).
  { unfold cols. destruct (Z.leb_spec (Z.of_nat (length (columns (set_modifications m b)))) col).
    - split; [apply resize_valid, Hb|]. unfold resize. rewrite length_app, length_replicate. lia.
    - split; [apply Hb|lia]. }
  destruct Hcols as [Hv Hlt]. destruct (lookup_lt_is_Some_2 _ _ Hlt) as [s Es]. rewrite Es. cbn [mbind option_bind].
  destruct (ix_add_has s ndx) as (s' & -> & Hs' & _); [|done|].
  { rewrite Forall_lookup in Hv. by eapply Hv. }
  cbn [mbind option_bind]. eexists. split; [done|]. split; [|by split].
  destruct Hb. split; simpl; try done. by apply Forall_insert.
Qed.

Lemma table_remark rows rows' b b' :
  table_ok rows b -> ok b' -> same_rows b b' -> length rows' = length rows ->
  (forall j, ix_has (modifications b') j -> j < Z.of_nat (length rows)) ->
  (forall i r', rows' !! i = Some r' -> exists r, rows !! i = Some r /\ row_old r' = row_old r /\
     (row_modified r' = true <-> ix_has (modifications b') (Z.of_nat i))) ->
  table_ok rows' b'.
Proof.
  intros Hb Hb' (Ed & Ei & Em & Ep & _) Hl Hm Hr. destruct Hb as [_ Hmv Hbd Hdis Hmap Hinj Hrows].
  split; rewrite ?Ed, ?Ei, ?Ep, ?Em, ?Hl; try done.
  - intros j [Hj|Hj]; [apply Hbd; by left|by apply Hm].
  - intros i r' Er'. destruct (Hr i r' Er') as (r & Er & Eo & Hmr). split; [|done].
    rewrite Eo. destruct (Hrows i r Er) as [-> _]. unfold says. by rewrite Ep, Ei.
Qed.

Lemma table_modify rows b ndx col :
  table_ok rows b -> (ndx < length rows)%nat -> 0 <= col ->
  exists b', modify b (Z.of_nat ndx) col = Some b' /\ table_ok (alter touch ndx rows) b'.
Proof.
  intros Hb Hn Hc. destruct (modify_spec b (Z.of_nat ndx) col (to_ok _ _ Hb)) as (b' & E & Hb' & Hs & Hm); [lia|done|].
  exists b'. split; [done|]. eapply table_remark; [done..|apply length_alter| |].
  - intros j [->|Hj]%Hm; [lia|]. apply (to_bound _ _ Hb). by right.
  - intros i r'. destruct (decide (i = ndx)) as [->|Hne].
    + rewrite list_lookup_alter, decide_True by done. intros (r & Er & ->)%fmap_Some. exists r. simpl. rewrite Hm. tauto.
    + rewrite list_lookup_alter_ne by congruence. intros Er. exists r'. destruct (to_rows _ _ Hb _ _ Er) as [_ Hmr].
      split; [done|]. split; [done|]. rewrite Hmr, Hm. split; [by right|intros [?|?]; [lia|done]].
Qed.

(** *** Rows that move *)
Lemma displaced_add (del del' ins ins' : Z -> Prop) n D i :
  displaced del ins n D -> 0 <= i < n ->
  (forall k, ins' k <-> k = i \/ ins k) -> (forall k, del' k <-> del k \/ (k = i /\ ~ ins i)) ->
  (ins i \/ ~ ins i) -> displaced del' ins' n D.
Proof.
  intros [Hk HD] Hi Hins Hdel Hem. split.
  - intros k. rewrite Hdel, Hins, Hk. specialize (HD i Hi). split.
    + intros [?|[-> Hn]]; [tauto|]. specialize (HD Hn). split; [lia|tauto].
    + intros (? & [[->|?]|?]); [|tauto..]. destruct Hem; [left|right]; tauto.
  - intros j Hj Hn. apply HD; [done|]. intros ?. apply Hn, Hins. by right.
Qed.

Lemma displaced_shrink (del del' ins ins' : Z -> Prop) n D :
  displaced del ins n D -> 0 < n ->
  (forall k, ins' k <-> ins k /\ k <> n - 1) -> (forall k, del' k <-> del k \/ (k = n - 1 /\ ~ ins (n - 1))) ->
  (ins (n - 1) \/ ~ ins (n - 1)) -> displaced del' ins' (n - 1) D.
Proof.
  intros [Hk HD] Hn Hins Hdel Hem. split.
  - intros k. rewrite Hdel, Hins, Hk. specialize (HD (n - 1) ltac:(lia)). split.
    + intros [(? & [?|?])|[-> Hl]]; [split; [done|]; destruct (decide (k = n - 1)); [right; lia|by left]|split; [done|lia]|].
      specialize (HD Hl). split; lia.
    + intros (? & [[? ?]|?]); [tauto|]. destruct (decide (k = n - 1)) as [->|]; [|left; split; [done|lia]].
      destruct Hem; [left; tauto|by right].
  - intros j Hj Hni. apply HD; [lia|]. intros ?. apply Hni, Hins. split; [done|lia].
Qed.

(** Recording that the row at [i], which has not moved, does so *)
Lemma displace_row (d s : IS) n D i :
  ix_valid d -> ix_valid s -> displaced (ix_has d) (ix_has s) n D -> 0 <= i < n -> ~ ix_has s i ->
  exists d', ix_add_shifted d (i - ix_below s i) = Some (d', i) /\ ix_valid d' /\
    forall k, ix_has d' k <-> k = i \/ ix_has d k.
Proof.
  intros Hd Hs Hdis Hi Hn. destruct (displaced_rank d s n D i Hd Hs Hdis Hi Hn) as [E Hdi].
  destruct (ix_add_shifted_has d (i - ix_below s i) Hd) as ((d' & k) & Ea & Ek & Hd' & Hh).
  { pose proof (ix_below_le s i Hs). lia. }
  assert (k = i) as ->.
  { rewrite Ek. unfold ix_free, ix_below. change (i - count_below i (ix_ranges s)) with (rank (ix_ranges s) i).
    rewrite E. apply free_rank; [by apply ix_valid_sep|done]. }
  by exists d'.
Qed.

Lemma table_ok_add (rows : list row) b i :
  table_ok rows b -> ix_has (insertions b) i -> 0 <= i < Z.of_nat (length rows).
Proof.
  intros Hb Hi. split; [exact (ix_has_nonneg _ _ (ok_insertions _ (to_ok _ _ Hb)) Hi)|]. apply (to_bound _ _ Hb). by left.
Qed.

Lemma not_mapped rows b j : table_ok rows b -> ~ ix_has (insertions b) j -> m_move_mapping b !! j = None.
Proof.
  intros Hb Hn. destruct (m_move_mapping b !! j) eqn:E; [|done]. by apply (to_mapped _ _ Hb) in E as [? _].
Qed.

(** What [move_over] leaves behind, the row at [i] being erased *)
Record moved_over b b' (i last_ : Z) : Prop := {
  mo_ok : ok b';
  mo_moves : moves b' = [];
  mo_ins k : ix_has (insertions b') k <-> k <> last_ /\ (k = i \/ ix_has (insertions b) k);
  mo_del k : ix_has (deletions b') k <-> ix_has (deletions b) k \/ ((k = i \/ k = last_) /\ ~ ix_has (insertions b) k);
  mo_map k : m_move_mapping b' !! k =
    if decide (k = last_) then None else if decide (k = i) then says b last_ else m_move_mapping b !! k;
  mo_mods k : k <= last_ -> ix_has (modifications b') k <->
    k <> last_ /\ ix_has (modifications b) (if decide (k = i) then last_ else k);
  mo_mods_bound k : ix_has (modifications b') k -> k < last_
}.

(** The row at [i] leaves the table, the last row is wherever [i] was. *)
Lemma table_moved_over rows b b' i :
  table_ok rows b -> (i < length rows)%nat ->
  moved_over b b' (Z.of_nat i) (Z.of_nat (length rows) - 1) ->
  table_ok (rows_move_over i rows) b'.
Proof.
  intros Hb Hi [Hok Hmv Hins Hdel Hmap Hmod Hmb].
  set (n := Z.of_nat (length rows)) in *. set (l := n - 1) in *.
  destruct (last rows) as [rl|] eqn:El; [|apply last_None in El; subst; simpl in Hi; lia].
  assert (Hl : Z.of_nat (length (rows_move_over i rows)) = l).
  { unfold rows_move_over. rewrite El, length_take, length_insert. lia. }
  assert (Hrow : forall k, (k < length rows - 1)%nat ->
    rows_move_over i rows !! k = if decide (k = i) then Some rl else rows !! k).
  { intros k Hk. unfold rows_move_over. rewrite El, lookup_take_lt by lia.
    rewrite list_lookup_insert. do 2 case_decide; (done || lia). }
  assert (Hdec : forall k, ix_has (insertions b) k \/ ~ ix_has (insertions b) k)
    by (intros k; destruct (decide (ix_has (insertions b) k)); auto).
  split; try rewrite Hl.
  - done.
  - done.
  - intros j [[Hj [->|Hin]]%Hins|Hj%Hmb]; [lia| |done]. apply (table_ok_add rows) in Hin; [lia|done].
  - destruct (to_displaced _ _ Hb) as (D & HD & Hdis). exists D. split; [done|]. fold n in Hdis.
    destruct (decide (Z.of_nat i = l)) as [Eil|Hne].
    + eapply displaced_shrink; [exact Hdis|lia| | |apply Hdec]; intros k; rewrite ?Hins, ?Hdel, Eil; fold l.
      * tauto.
      * split; [intros [?|[[-> | ->] ?]]; tauto|intros [?|[-> ?]]; tauto].
    + eapply (displaced_add (fun k => ix_has (deletions b) k \/ (k = l /\ ~ ix_has (insertions b) l)) _
        (fun k => ix_has (insertions b) k /\ k <> l) _ l D (Z.of_nat i)).
      * eapply displaced_shrink; [exact Hdis|lia|done|done|apply Hdec].
      * lia.
      * intros k. rewrite Hins. split; [tauto|intros [->|?]; tauto].
      * intros k. rewrite Hdel. split; [intros [?|[[-> | ->] ?]]; tauto|intros [[?|[-> ?]]|[-> ?]]; [tauto..|]].
        right. split; [by left|tauto].
      * destruct (Hdec (Z.of_nat i)); tauto.
  - intros j o. rewrite Hmap, Hins, Hdel. case_decide as H2; [done|]. case_decide as H3.
    + subst j. intros Hs. split; [tauto|]. unfold says in Hs.
      destruct (m_move_mapping b !! l) as [o'|] eqn:Eo; [injection Hs as ->; left; by apply (to_mapped _ _ Hb) in Eo as [_ ?]|].
      case_decide; [done|]. injection Hs as <-. tauto.
    + intros Eo%(to_mapped _ _ Hb). tauto.
  - intros j j' o. rewrite !Hmap.
    assert (Hsay : forall k, k <> l -> m_move_mapping b !! k = Some o -> says b l <> Some o).
    { intros k Hk Ek. unfold says. destruct (m_move_mapping b !! l) as [o'|] eqn:Eo.
      - intros [= ->]. apply Hk. by eapply (to_inj _ _ Hb).
      - case_decide as Hnl; [done|]. intros [= <-]. apply (to_mapped _ _ Hb) in Ek as [_ Ek].
        destruct (to_displaced _ _ Hb) as (D & _ & [Hk' _]). apply Hk' in Ek as (_ & [?|?]); [done|]. fold n in H2. lia. }
    destruct (decide (j = l)); [done|]. destruct (decide (j' = l)); [done|].
    destruct (decide (j = Z.of_nat i)) as [->|]; intros E1; destruct (decide (j' = Z.of_nat i)) as [->|]; intros E2.
    + done.
    + exfalso. by apply (Hsay j').
    + exfalso. by apply (Hsay j).
    + by eapply (to_inj _ _ Hb).
  - intros k r Er. pose proof (lookup_lt_Some _ _ _ Er) as Hk.
    assert (Hk' : (k < length rows - 1)%nat) by lia. rewrite Hrow in Er by done.
    rewrite Hmod by lia. unfold says. rewrite Hmap. rewrite (decide_False (P := Z.of_nat k = l)) by lia.
    case_decide as Hki.
    + subst k. injection Er as ->. rewrite !(decide_True (P := Z.of_nat i = Z.of_nat i)) by done.
      rewrite last_lookup in El. destruct (to_rows _ _ Hb _ _ El) as [Ho Hm].
      replace (Z.of_nat (pred (length rows))) with l in * by lia. rewrite Ho, Hm. split; [|split; [intros ?; split; [lia|done]|by intros [_ ?]]].
      destruct (says b l) eqn:Es; [done|]. rewrite decide_True; [done|]. apply Hins. split; [lia|by left].
    + rewrite !(decide_False (P := Z.of_nat k = Z.of_nat i)) by lia. destruct (to_rows _ _ Hb _ _ Er) as [Ho Hm]. rewrite Ho, Hm.
      split; [|split; [intros ?; split; [lia|done]|by intros [_ ?]]]. unfold says. destruct (m_move_mapping b !! Z.of_nat k); [done|].
      apply decide_ext. rewrite Hins. split; [intros ?; split; [lia|by right]|intros [_ [?|?]]; [lia|done]].
Qed.

Lemma remove_one_spec i (s : IS) :
  ix_valid s -> gives (ix_remove s i 1) (fun s' => ix_valid s' /\ forall k, ix_has s' k <-> ix_has s k /\ k <> i).
Proof.
  intros Hs. destruct (ix_remove_has s i 1 Hs) as (s' & E & Hs' & Hh); [lia|]. exists s'. split; [done|].
  split; [done|]. intros k. rewrite Hh. split; intros [? ?]; (split; [done|lia]).
Qed.

Lemma move_over_col_spec i l (s : IS) :
  0 <= i -> ix_valid s ->
  gives (move_over_col i l s) (fun s' => ix_valid s' /\
    forall k, ix_has s' k <-> if decide (k = i) then ix_has s l else ix_has s k /\ k <> l).
Proof.
  intros Hi Hs. unfold move_over_col. rewrite ix_contains_has by done. cbn [mbind option_bind].
  case_bool_decide as Hl.
  - destruct (remove_one_spec l s Hs) as (s1 & -> & Hs1 & Hh1). cbn [mbind option_bind].
    destruct (ix_add_has s1 i Hs1 Hi) as (s2 & E & Hs2 & Hh2). exists s2. split; [done|]. split; [done|].
    intros k. rewrite Hh2, Hh1. case_decide; tauto.
  - destruct (remove_one_spec i s Hs) as (s1 & E & Hs1 & Hh1). exists s1. split; [done|]. split; [done|].
    intros k. rewrite Hh1. case_decide; subst; [tauto|]. split; [|tauto]. intros [? _]. split; [done|by intros ->].
Qed.

(** The steps that only concern the deletions and insertions *)
Lemma erase_end rows b :
  table_ok rows b -> (0 < length rows)%nat -> Z.of_nat (length rows) <= npos ->
  let l := Z.of_nat (length rows) - 1 in
  exists i k d, ix_erase_or_unshift (insertions b) l = Some (i, k) /\
    (if negb (k =? npos) then '(d, _) ← ix_add_shifted (deletions b) k; Some (set_deletions d (set_insertions i b))
     else Some (set_insertions i b)) = Some (set_deletions d (set_insertions i b)) /\
    ix_valid i /\ ix_valid d /\
    (forall j, ix_has i j <-> ix_has (insertions b) j /\ j <> l) /\
    (forall j, ix_has d j <-> ix_has (deletions b) j \/ (j = l /\ ~ ix_has (insertions b) l)).
Proof.
  intros Hb Hn Hw l. pose proof (to_ok _ _ Hb) as Hok.
  destruct (to_displaced _ _ Hb) as (D & HD & Hdis).
  destruct (ix_erase_or_unshift_has (insertions b) l (ok_insertions _ Hok)) as ((i & k) & -> & Ek & Hi & Hh); [lia|].
  assert (Hins : forall j, ix_has i j <-> ix_has (insertions b) j /\ j <> l).
  { intros j. rewrite Hh. unfold erased. split.
    - intros [[? ?]|[? Hj]]; [split; [done|lia]|]. apply (table_ok_add rows) in Hj; [lia|done].
    - intros [Hj ?]. left. split; [|done]. apply (table_ok_add rows) in Hj; [lia|done]. }
  case_bool_decide as Hl.
  - exists i, k, (deletions b). subst k. rewrite Z.eqb_refl. cbn [negb]. split; [done|].
    split; [by destruct b|]. split; [done|]. split; [apply Hok|]. split; [done|]. tauto.
  - destruct (displace_row (deletions b) (insertions b) _ D l (ok_deletions _ Hok) (ok_insertions _ Hok) Hdis
      ltac:(lia) Hl) as (d & Ed & Hd & Hdh).
    exists i, k, d. subst k. rewrite (proj2 (Z.eqb_neq _ _)).
    2: { pose proof (ix_below_nonneg (insertions b) l (ok_insertions _ Hok)). lia. }
    cbn [negb]. rewrite Ed. split; [done|]. split; [done|]. split; [done|]. split; [done|]. split; [done|].
    intros j. rewrite Hdh. tauto.
Qed.

Lemma move_over_last_spec rows b :
  table_ok rows b -> (0 < length rows)%nat -> Z.of_nat (length rows) <= npos ->
  let l := Z.of_nat (length rows) - 1 in
  exists b', move_over_last b l true = Some b' /\ moved_over b b' l l.
Proof.
  intros Hb Hn Hw l. destruct (erase_end rows b Hb Hn Hw) as (i & k & d & E1 & E2 & Hi & Hd & Hins & Hdel). fold l in E1, E2, Hins, Hdel.
  unfold move_over_last. rewrite E1. cbn [mbind option_bind].
  set (b1 := set_insertions i b) in *.
  assert (E2' : (if negb (k =? npos) then '(d, _) ← ix_add_shifted (deletions b1) k; Some (set_deletions d b1)
    else Some b1) = Some (set_deletions d b1)) by exact E2.
  rewrite E2'. cbn [mbind option_bind].
  set (b2 := set_mapping _ _). pose proof (to_ok _ _ Hb) as Hok.
  assert (Hok2 : ok b2).
  { destruct Hok. split; try done; simpl; rewrite (to_moves _ _ Hb); constructor. }
  destruct (for_each_col_spec (fun col => ix_remove col l 1) _ b2 (fun s => remove_one_spec l s) Hok2) as
    (b' & Eb & Hb' & (Ed & Ei & Em & Ep & _) & [Hm _]).
  exists b'. split; [exact Eb|]. split.
  - done.
  - rewrite Em. apply (to_moves _ _ Hb).
  - intros j. rewrite Ei. change (ix_has i j <-> j <> l /\ (j = l \/ ix_has (insertions b) j)). rewrite Hins. tauto.
  - intros j. rewrite Ed. change (ix_has d j <-> ix_has (deletions b) j \/ (j = l \/ j = l) /\ ~ ix_has (insertions b) j).
    rewrite Hdel. split; [intros [?|[-> ?]]; tauto|intros [?|[[-> | ->] ?]]; tauto].
  - intros j. rewrite Ep. change (delete l (m_move_mapping b) !! j = if decide (j = l) then None else if decide (j = l) then says b l else m_move_mapping b !! j).
    case_decide; [subst; by rewrite lookup_delete_eq|by rewrite lookup_delete_ne].
  - intros j Hj. rewrite Hm. change (modifications b2) with (modifications b).
    split; [intros [? ?]; split; [done|by rewrite decide_False]|intros [? Hx]; by rewrite decide_False in Hx].
  - intros j [Hj Hjl]%Hm. pose proof (to_bound _ _ Hb _ (or_intror Hj)). lia.
Qed.

Lemma ok_no_moves b :
  cols_valid b -> ix_valid (deletions b) -> ix_valid (insertions b) -> moves b = [] -> ok b.
Proof. intros [? ?] ? ? E. split; try done; rewrite E; constructor. Qed.

(** The last row is accounted for in [b3]. *)
Record took_last b b3 (i l : Z) : Prop := {
  tl_ok : ok b3;
  tl_moves : moves b3 = [];
  tl_ins k : ix_has (insertions b3) k <-> ix_has (insertions b) k /\ k <> l;
  tl_del k : ix_has (deletions b3) k <-> ix_has (deletions b) k \/ (k = l /\ ~ ix_has (insertions b) l);
  tl_map k : m_move_mapping b3 !! k =
    if decide (k = l) then None else if decide (k = i) then says b l else m_move_mapping b !! k;
  tl_mods k : ix_has (modifications b3) k <->
    if decide (k = i) then ix_has (modifications b) l else ix_has (modifications b) k /\ k <> l
}.

(** The erased row makes room for it. *)
Lemma move_over_row rows b b3 i :
  table_ok rows b -> 0 <= i -> let l := Z.of_nat (length rows) - 1 in i < l ->
  took_last b b3 i l ->
  forall row_is_insertion : bool, row_is_insertion = bool_decide (ix_has (insertions b) i) ->
  exists b', (b ← (if negb row_is_insertion then
             shifted ← ix_unshift (insertions b3) i;
             '(d, _) ← ix_add_shifted (deletions b3) shifted;
             j ← ix_add (insertions b3) i;
             Some (set_insertions j (set_deletions d b3))
           else Some b3);
      _ ← verify b;
      Some b) = Some b' /\ moved_over b b' i l.
Proof.
  intros Hb Hi l Hil [Hok Hmv Hins Hdel Hmap Hmod] ri ->.
  destruct (to_displaced _ _ Hb) as (D & HD & Hdis).
  assert (Hdec : forall k, ix_has (insertions b) k \/ ~ ix_has (insertions b) k)
    by (intros k; destruct (decide (ix_has (insertions b) k)); auto).
  assert (Hfin : forall b', ok b' -> moves b' = [] -> m_move_mapping b' = m_move_mapping b3 ->
    modifications b' = modifications b3 ->
    (forall k, ix_has (insertions b') k <-> k = i \/ ix_has (insertions b3) k) ->
    (forall k, ix_has (deletions b') k <-> ix_has (deletions b3) k \/ (k = i /\ ~ ix_has (insertions b) i)) ->
    moved_over b b' i l).
  { intros b' Hok' Hmv' Em Eo Hins' Hdel'. split; [done|done| | | | |].
    - intros k. rewrite Hins', Hins. split; [intros [->|[? ?]]; split; (tauto || lia)|tauto].
    - intros k. rewrite Hdel', Hdel. split; [intros [[?|[-> ?]]|[-> ?]]; tauto|intros [?|[[-> | ->] ?]]; tauto].
    - intros k. rewrite Em. apply Hmap.
    - intros k Hk. rewrite Eo, Hmod. case_decide; [subst; split; [intros ?; split; [lia|done]|tauto]|tauto].
    - intros k. rewrite Eo, Hmod. case_decide; [lia|]. intros [Hm ?].
      pose proof (to_bound _ _ Hb _ (or_intror Hm)). lia. }
  destruct (decide (ix_has (insertions b) i)) as [Hii|Hii].
  - rewrite bool_decide_eq_true_2 by done. cbn [negb mbind option_bind]. rewrite verify_ok by done.
    cbn [mbind option_bind]. exists b3. split; [done|]. apply Hfin; try done.
    + intros k. rewrite Hins. split; [tauto|intros [->|?]; [split; [done|lia]|done]].
    + tauto.
  - rewrite bool_decide_eq_false_2 by done. cbn [negb]. rewrite ix_unshift_below by (done || apply Hok).
    cbn [mbind option_bind].
    destruct (displace_row (deletions b3) (insertions b3) l D i) as (d & -> & Hd & Hdh);
      [apply Hok|apply Hok| |lia|rewrite Hins; tauto|].
    { eapply displaced_shrink; [exact Hdis|lia|exact Hins|exact Hdel|apply Hdec]. }
    cbn [mbind option_bind].
    destruct (ix_add_has (insertions b3) i (ok_insertions _ Hok) Hi) as (j & -> & Hj & Hjh).
    cbn [mbind option_bind].
    assert (Hok' : ok (set_insertions j (set_deletions d b3))).
    { apply ok_no_moves; [split; apply Hok|done..]. }
    rewrite verify_ok by done. cbn [mbind option_bind]. eexists. split; [done|]. apply Hfin; try done.
    intros k. simpl. rewrite Hdh. tauto.
Qed.

(** The three ways the last row can be accounted for: it was moved before,
    inserted, or is at its old position. *)
Lemma take_last rows b b1 i :
  table_ok rows b -> 0 <= i -> let l := Z.of_nat (length rows) - 1 in i < l ->
  ok b1 -> same_rows b b1 ->
  (forall k, ix_has (modifications b1) k <->
     if decide (k = i) then ix_has (modifications b) l else ix_has (modifications b) k /\ k <> l) ->
  forall last_is_insertion row_is_insertion : bool,
  last_is_insertion = bool_decide (ix_has (insertions b) l) ->
  row_is_insertion = bool_decide (ix_has (insertions b) i) ->
  exists b3,
    (let '(b2, last_was_already_moved) :=
       match (if last_is_insertion then m_move_mapping b1 !! l else None) with
       | Some original => (set_mapping (delete l (<[i := original]> (m_move_mapping b1))) b1, true)
       | None => (b1, false)
       end in
     let b2 := if row_is_insertion && negb last_was_already_moved
               then set_mapping (delete i (m_move_mapping b2)) b2 else b2 in
     if last_is_insertion then
       i ← ix_remove (insertions b2) l 1; Some (set_insertions i b2)
     else if negb last_was_already_moved then
       shifted ← ix_unshift (insertions b2) l;
       '(d, shifted) ← ix_add_shifted (deletions b2) shifted;
       Some (set_mapping (<[i := shifted]> (m_move_mapping b2)) (set_deletions d b2))
     else Some b2) = Some b3 /\ took_last b b3 i l.
Proof.
  intros Hb Hi l Hil Hok (Ed & Ei & Em & Ep & _) Hmod li ri -> ->. cbv zeta. rewrite Ep.
  pose proof (to_moves _ _ Hb) as Hmv. rewrite <- Em in Hmv.
  destruct (decide (ix_has (insertions b) l)) as [Hl|Hl].
  - rewrite (bool_decide_eq_true_2 _ Hl).
    destruct (remove_one_spec l (insertions b1) (ok_insertions _ Hok)) as (s & Es & Hs & Hh). rewrite Ei in Hh.
    assert (Hfin : forall m, (forall k, m !! k =
        if decide (k = l) then None else if decide (k = i) then says b l else m_move_mapping b !! k) ->
      took_last b (set_insertions s (set_mapping m b1)) i l).
    { intros m Hm. split; [apply ok_no_moves; [split; apply Hok|apply Hok|done|done]|done|exact Hh| |exact Hm|exact Hmod].
      intros k. simpl. rewrite Ed. tauto. }
    unfold says in Hfin. destruct (m_move_mapping b !! l) as [o|] eqn:Eo.
    + rewrite andb_false_r. cbn [insertions set_mapping]. rewrite Es. eexists. split; [done|]. apply Hfin. intros k.
      destruct (decide (k = l)) as [->|]; [by rewrite lookup_delete_eq|]. rewrite lookup_delete_ne by done.
      destruct (decide (k = i)) as [->|]; [by rewrite lookup_insert_eq|by rewrite lookup_insert_ne].
    + rewrite andb_true_r. rewrite decide_True in Hfin by done. case_bool_decide as Hri; cbn [insertions set_mapping];
        rewrite Es; eexists; (split; [done|]).
      * apply Hfin. intros k. rewrite ?Ep, lookup_delete. destruct (decide (k = l)) as [->|].
        { case_decide; done. }
        destruct (decide (i = k)) as [<-|]; [by rewrite decide_True|by rewrite decide_False].
      * replace (set_insertions s b1) with (set_insertions s (set_mapping (m_move_mapping b) b1))
          by (rewrite <- Ep; by destruct b1). apply Hfin. intros k.
        destruct (decide (k = l)) as [->|]; [done|]. case_decide; [subst; by apply (not_mapped _ _ _ Hb)|done].
  - rewrite (bool_decide_eq_false_2 _ Hl). rewrite andb_true_r.
    destruct (to_displaced _ _ Hb) as (D & HD & Hdis).
    set (b2 := if bool_decide (ix_has (insertions b) i) then _ else b1).
    assert (E2 : insertions b2 = insertions b /\ deletions b2 = deletions b /\ ok b2 /\ modifications b2 = modifications b1 /\
      moves b2 = moves b1 /\ forall k, k <> i -> m_move_mapping b2 !! k = m_move_mapping b !! k).
    { unfold b2. case_bool_decide; simpl; rewrite ?Ei, ?Ed, ?Ep; split_and!; try done.
      - apply ok_no_moves; [split; apply Hok|apply Hok|apply Hok|done].
      - intros k Hk. by rewrite lookup_delete_ne. }
    clearbody b2. destruct E2 as (Ei2 & Ed2 & Hok2 & Em2 & Emv2 & Emap2).
    rewrite ix_unshift_below by (apply Hok2 || lia). cbn [mbind option_bind]. rewrite Ei2, Ed2.
    destruct (displace_row (deletions b) (insertions b) _ D l (ok_deletions _ (to_ok _ _ Hb))
      (ok_insertions _ (to_ok _ _ Hb)) Hdis ltac:(lia) Hl) as (d & -> & Hd & Hdh).
    cbn [mbind option_bind negb]. eexists. split; [done|]. split; simpl.
    + apply ok_no_moves; [split; apply Hok2|done|apply Hok2|simpl; by rewrite Emv2].
    + by rewrite Emv2.
    + intros k. rewrite Ei2. split; [|tauto]. intros Hk. split; [done|by intros ->].
    + intros k. rewrite Hdh. tauto.
    + intros k. rewrite lookup_insert. destruct (decide (k = l)) as [->|Hkl].
      * rewrite decide_False by lia. rewrite Emap2 by lia. by apply (not_mapped _ _ _ Hb).
      * destruct (decide (i = k)) as [<-|].
        -- rewrite decide_True by done. unfold says. rewrite (not_mapped _ _ _ Hb Hl). by rewrite decide_False.
        -- rewrite decide_False by done. by apply Emap2.
    + intros k. rewrite Em2. apply Hmod.
Qed.

(** [move_over] never fails, debug assertions included. *)
Lemma move_over_spec rows b i :
  table_ok rows b -> (i < length rows)%nat -> Z.of_nat (length rows) <= npos ->
  exists b', move_over b (Z.of_nat i) (Z.of_nat (length rows) - 1) true = Some b' /\
    table_ok (rows_move_over i rows) b'.
Proof.
  intros Hb Hi Hw. set (l := Z.of_nat (length rows) - 1). pose proof (to_ok _ _ Hb) as Hok.
  assert (He1 : ends_within (insertions b) l = true).
  { apply ends_within_ok; [apply Hok|]. intros j Hj. apply (to_bound _ _ Hb). by left. }
  assert (He2 : ends_within (modifications b) l = true).
  { apply ends_within_ok; [apply Hok|]. intros j Hj. apply (to_bound _ _ Hb). by right. }
  unfold move_over, realm_assert. rewrite (proj2 (Z.leb_le _ _)) by lia. rewrite He1, He2. cbn [mbind option_bind].
  destruct (Z.eqb_spec (Z.of_nat i) l) as [Eil|Hne].
  - destruct (move_over_last_spec rows b Hb) as (b' & E & Hmo); [lia|done|]. fold l in E, Hmo.
    exists b'. rewrite Eil. split; [done|]. apply (table_moved_over rows b); [done|done|]. by rewrite Eil.
  - destruct (for_each_col_spec (move_over_col (Z.of_nat i) l) _ b
      (fun s => move_over_col_spec (Z.of_nat i) l s ltac:(lia)) Hok) as (b1 & -> & Hok1 & Hsame & [Hmod _]).
    cbn [mbind option_bind negb]. rewrite (proj1 (proj2 Hsame)).
    rewrite ix_contains_has by apply Hok. cbn [mbind option_bind].
    remember (bool_decide (ix_has (insertions b) (Z.of_nat i))) as ri eqn:Eri.
    assert (Hdbg : realm_assert_debug (Some (ends_within (insertions b) l)) = Some tt).
    { unfold realm_assert_debug. rewrite He1. by destruct realm_debug. }
    rewrite Hdbg. cbn [mbind option_bind].
    replace (l + 1) with (Z.of_nat (length rows)) by lia.
    remember (match last (ix_ranges (insertions b)) with None => false | Some r => r.2 =? Z.of_nat (length rows) end)
      as li eqn:Eli.
    rewrite last_is_member in Eli; [|apply Hok|intros j Hj; apply (to_bound _ _ Hb); by left].
    destruct (take_last rows b b1 (Z.of_nat i) Hb ltac:(lia) ltac:(lia) Hok1 Hsame Hmod li ri Eli Eri) as (b3 & E3 & Ht).
    destruct (move_over_row rows b b3 (Z.of_nat i) Hb ltac:(lia) ltac:(lia) Ht ri Eri) as (b' & E' & Hmo).
    exists b'. split; [|by apply (table_moved_over rows b)].
    rewrite <- E'. clear E'. fold l in E3. revert E3. cbv zeta.
    destruct (if li then m_move_mapping b1 !! l else None) as [o|];
      cbv beta iota zeta; intros E3; by rewrite E3.
Qed.

(** *** Rows that are swapped *)

(** What [record_move] does when the sets follow the displaced rows *)
Lemma record_move_spec b n D ndx dest :
  ok b -> moves b = [] -> displaced (ix_has (deletions b)) (ix_has (insertions b)) n D -> 0 <= ndx < n ->
  exists b', record_move b ndx dest = Some b' /\ ok b' /\ moves b' = [] /\ modifications b' = modifications b /\
    displaced (ix_has (deletions b')) (ix_has (insertions b')) n D /\
    (forall k, ix_has (insertions b') k <-> k = ndx \/ ix_has (insertions b) k) /\
    (forall k, ix_has (deletions b') k <-> ix_has (deletions b) k \/ (k = ndx /\ ~ ix_has (insertions b) ndx)) /\
    m_move_mapping b' = if decide (ix_has (insertions b) ndx) then m_move_mapping b
                        else <[dest := ndx]> (m_move_mapping b).
Proof.
  intros Hok Hmv Hdis Hn. unfold record_move. rewrite ix_contains_has by apply Hok. cbn [mbind option_bind].
  destruct (decide (ix_has (insertions b) ndx)) as [Hi|Hi].
  - rewrite (bool_decide_eq_true_2 _ Hi). exists b. split_and!; try done; intros k; [|tauto].
    split; [by right|by intros [->|?]].
  - rewrite (bool_decide_eq_false_2 _ Hi), ix_unshift_below by (apply Hok || lia). cbn [mbind option_bind].
    destruct (displace_row (deletions b) (insertions b) n D ndx) as (d & -> & Hd & Hdh);
      [apply Hok|apply Hok|done..|]. cbn [mbind option_bind].
    destruct (ix_add_has (insertions b) ndx (ok_insertions _ Hok)) as (i & -> & Hiv & Hih); [lia|].
    cbn [mbind option_bind]. eexists. split; [done|]. split_and!; simpl; try done.
    + apply ok_no_moves; [split; apply Hok|done..].
    + eapply displaced_add; [exact Hdis|exact Hn|exact Hih| |by right]. intros k. rewrite Hdh. tauto.
    + intros k. rewrite Hdh. tauto.
Qed.

Lemma swap_col_spec i j (s : IS) :
  0 <= i -> 0 <= j -> ix_valid s ->
  gives (swap_col i j s) (fun s' => ix_valid s' /\
    forall k, ix_has s' k <-> if decide (k = i) then ix_has s j else if decide (k = j) then ix_has s i else ix_has s k).
Proof.
  intros Hi Hj Hs. unfold swap_col. rewrite !ix_contains_has by done. cbn [mbind option_bind].
  assert (Hmv : forall f t, 0 <= t -> ix_has s f -> ~ ix_has s t ->
    gives (col ← ix_remove s f 1; ix_add col t) (fun s' => ix_valid s' /\
      forall k, ix_has s' k <-> k = t \/ (ix_has s k /\ k <> f))).
  { intros f t Ht Hf Hnt. destruct (remove_one_spec f s Hs) as (s1 & -> & Hs1 & Hh1). cbn [mbind option_bind].
    destruct (ix_add_has s1 t Hs1 Ht) as (s2 & E & Hs2 & Hh2). exists s2. split; [done|]. split; [done|].
    intros k. by rewrite Hh2, Hh1. }
  destruct (decide (ix_has s i)) as [Hsi|Hsi], (decide (ix_has s j)) as [Hsj|Hsj];
    rewrite ?(bool_decide_eq_true_2 _ Hsi), ?(bool_decide_eq_false_2 _ Hsi),
      ?(bool_decide_eq_true_2 _ Hsj), ?(bool_decide_eq_false_2 _ Hsj); cbn [Bool.eqb negb].
  - exists s. split; [done|]. split; [done|]. intros k. repeat case_decide; subst; tauto.
  - destruct (Hmv i j) as (s' & E & Hs' & Hh); [done..|]. exists s'. split; [done|]. split; [done|].
    intros k. rewrite Hh. repeat case_decide; subst; try tauto. split; [intros [->|[_ ?]]; done|done].
  - destruct (Hmv j i) as (s' & E & Hs' & Hh); [done..|]. exists s'. split; [done|]. split; [done|].
    intros k. rewrite Hh. repeat case_decide; subst; tauto.
  - exists s. split; [done|]. split; [done|]. intros k. repeat case_decide; subst; tauto.
Qed.

(** What [swap] leaves behind *)
Record swapped b b' (i j : Z) : Prop := {
  sw_ok : ok b';
  sw_moves : moves b' = [];
  sw_ins k : ix_has (insertions b') k <-> k = i \/ k = j \/ ix_has (insertions b) k;
  sw_del k : ix_has (deletions b') k <-> ix_has (deletions b) k \/ ((k = i \/ k = j) /\ ~ ix_has (insertions b) k);
  sw_map k : m_move_mapping b' !! k =
    if decide (k = i) then says b j else if decide (k = j) then says b i else m_move_mapping b !! k;
  sw_mods k : ix_has (modifications b') k <->
    if decide (k = i) then ix_has (modifications b) j else if decide (k = j) then ix_has (modifications b) i
    else ix_has (modifications b) k
}.

Lemma swapped_sym b b' i j : i <> j -> swapped b b' i j -> swapped b b' j i.
Proof.
  intros Hne [H2 H3 H4 H5 H6 H7]. split; [done|done| | | |]; intros k; rewrite ?H4, ?H5, ?H6, ?H7; [tauto|tauto| |];
    do 2 (case_decide; subst; try done).
Qed.

(** No old row is in two places. *)
Lemma says_inj rows b k k' o :
  table_ok rows b -> k < Z.of_nat (length rows) -> k' < Z.of_nat (length rows) ->
  says b k = Some o -> says b k' = Some o -> k = k'.
Proof.
  intros Hb Hk Hk'.
  assert (Hmix : forall j j', j' < Z.of_nat (length rows) ->
    m_move_mapping b !! j = Some o -> ~ ix_has (insertions b) j' -> j' <> o).
  { intros j j' Hj' Ej Hn ->. apply (to_mapped _ _ Hb) in Ej as [_ Hd].
    destruct (to_displaced _ _ Hb) as (D & _ & [Hdk _]). apply Hdk in Hd as (_ & [?|?]); [done|lia]. }
  unfold says. destruct (m_move_mapping b !! k) as [x|] eqn:E, (m_move_mapping b !! k') as [y|] eqn:E'.
  - intros [= ->] [= ->]. by eapply (to_inj _ _ Hb).
  - intros [= ->]. case_decide as Hn; [done|]. intros [= E2]. by destruct (Hmix k k' Hk' E Hn).
  - case_decide as Hn; [done|]. intros [= E2] [= ->]. by destruct (Hmix k' k Hk E' Hn).
  - do 2 case_decide; try done. congruence.
Qed.

Lemma mapped_says rows b k o : table_ok rows b -> m_move_mapping b !! k = Some o -> says b k = Some o /\ k < Z.of_nat (length rows).
Proof.
  intros Hb E. unfold says. rewrite E. split; [done|]. apply (to_bound _ _ Hb). left. by apply (to_mapped _ _ Hb) in E as [? _].
Qed.

Lemma table_swapped rows b b' i j :
  table_ok rows b -> (i < length rows)%nat -> (j < length rows)%nat -> i <> j ->
  swapped b b' (Z.of_nat i) (Z.of_nat j) -> table_ok (rows_swap i j rows) b'.
Proof.
  intros Hb Hi Hj Hne [Hok Hmv Hins Hdel Hmap Hmod].
  destruct (lookup_lt_is_Some_2 rows i Hi) as [x Ex], (lookup_lt_is_Some_2 rows j Hj) as [y Ey].
  destruct (to_rows _ _ Hb _ _ Ex) as [Hxo Hxm], (to_rows _ _ Hb _ _ Ey) as [Hyo Hym].
  assert (Hrow : forall k, rows_swap i j rows !! k = if decide (k = i) then Some y else if decide (k = j) then Some x else rows !! k).
  { intros k. unfold rows_swap. rewrite Ex, Ey, list_lookup_insert, length_insert, list_lookup_insert.
    repeat case_decide; (done || lia). }
  assert (Hl : length (rows_swap i j rows) = length rows) by (unfold rows_swap; by rewrite Ex, Ey, !length_insert).
  assert (Hdec : forall k, ix_has (insertions b) k \/ ~ ix_has (insertions b) k)
    by (intros k; destruct (decide (ix_has (insertions b) k)); auto).
  split; rewrite ?Hl; try done.
  - intros k [[->|[->|Hk]]%Hins|Hk%Hmod]; [lia|lia|apply (to_bound _ _ Hb); by left|].
    do 2 (case_decide; [lia|]). apply (to_bound _ _ Hb). by right.
  - destruct (to_displaced _ _ Hb) as (D & HD & Hdis). exists D. split; [done|].
    eapply (displaced_add (fun k => ix_has (deletions b) k \/ (k = Z.of_nat i /\ ~ ix_has (insertions b) (Z.of_nat i))) _
      (fun k => k = Z.of_nat i \/ ix_has (insertions b) k) _ _ D (Z.of_nat j)).
    + eapply (displaced_add _ _ _ _ _ _ (Z.of_nat i)); [exact Hdis|lia|done|done|apply Hdec].
    + lia.
    + intros k. rewrite Hins. tauto.
    + intros k. rewrite Hdel. split; [intros [?|[[-> | ->] ?]]; try tauto; right; split; [done|]; intros [?|?]; [lia|done]|].
      intros [[?|[-> ?]]|[-> ?]]; tauto.
    + destruct (Hdec (Z.of_nat j)); [left; by right|]. right. intros [?|?]; [lia|done].
  - intros k o. rewrite Hmap, Hins, Hdel.
    assert (Hs : forall p q, (p = Z.of_nat i /\ q = Z.of_nat j \/ p = Z.of_nat j /\ q = Z.of_nat i) -> says b p = Some o ->
      ix_has (deletions b) o \/ ((o = Z.of_nat i \/ o = Z.of_nat j) /\ ~ ix_has (insertions b) o)).
    { intros p q Hp. unfold says. destruct (m_move_mapping b !! p) eqn:Ep.
      - intros [= ->]. apply (to_mapped _ _ Hb) in Ep as [_ ?]. by left.
      - case_decide; [done|]. intros [= <-]. right. split; [tauto|done]. }
    case_decide; [subst; intros Eo; split; [tauto|by eapply Hs; [right|]]|].
    case_decide; [subst; intros Eo; split; [tauto|by eapply Hs; [left|]]|].
    intros [? ?]%(to_mapped _ _ Hb). tauto.
  - assert (Hsay : forall k o, m_move_mapping b' !! k = Some o ->
      says b (if decide (k = Z.of_nat i) then Z.of_nat j else if decide (k = Z.of_nat j) then Z.of_nat i else k) = Some o /\
      (if decide (k = Z.of_nat i) then Z.of_nat j else if decide (k = Z.of_nat j) then Z.of_nat i else k) < Z.of_nat (length rows)).
    { intros k o. rewrite Hmap. repeat case_decide; intros Eo; [split; [done|lia]..|]. by apply mapped_says. }
    intros k k' o [E1 L1]%Hsay [E2 L2]%Hsay. pose proof (says_inj _ _ _ _ _ Hb L1 L2 E1 E2) as E.
    revert E. repeat case_decide; intros ?; lia.
  - intros k r. rewrite Hrow, Hmod. unfold says. rewrite Hmap. intros Er.
    destruct (decide (k = i)) as [->|Hki].
    + injection Er as <-. rewrite !(decide_True (P := Z.of_nat i = Z.of_nat i)) by done. split; [|done]. rewrite Hyo.
      destruct (says b (Z.of_nat j)) eqn:Es; [done|]. rewrite decide_True; [done|]. apply Hins. by left.
    + rewrite !(decide_False (P := Z.of_nat k = Z.of_nat i)) by lia. destruct (decide (k = j)) as [->|Hkj].
      * injection Er as <-. rewrite !(decide_True (P := Z.of_nat j = Z.of_nat j)) by done. split; [|done]. rewrite Hxo.
        destruct (says b (Z.of_nat i)) eqn:Es; [done|]. rewrite decide_True; [done|]. apply Hins. right. by left.
      * rewrite !(decide_False (P := Z.of_nat k = Z.of_nat j)) by lia.
        destruct (to_rows _ _ Hb _ _ Er) as [Ho Hm]. rewrite Ho. split; [|exact Hm]. unfold says.
        destruct (m_move_mapping b !! Z.of_nat k); [done|]. apply decide_ext. rewrite Hins.
        split; [by right; right|intros [?|[?|?]]; [lia|lia|done]].
Qed.

Lemma set_mapping_ok m b : ok b -> ok (set_mapping m b).
Proof. by intros []; split. Qed.

Lemma says_not_inserted rows b k : table_ok rows b -> ~ ix_has (insertions b) k -> says b k = Some k.
Proof. intros Hb Hn. unfold says. rewrite (not_mapped _ _ _ Hb Hn). by rewrite decide_False. Qed.

Lemma says_inserted b k : ix_has (insertions b) k -> m_move_mapping b !! k = None -> says b k = None.
Proof. intros Hi E. unfold says. rewrite E. by rewrite decide_True. Qed.

(** Swapping a row that was moved to [q] with one at [p] that was not *)
Lemma update_move_spec rows b b1 o p q :
  table_ok rows b -> 0 <= p < Z.of_nat (length rows) -> p <> q ->
  ok b1 -> same_rows b b1 -> m_move_mapping b !! q = Some o -> m_move_mapping b !! p = None ->
  (forall k, ix_has (modifications b1) k <->
    if decide (k = p) then ix_has (modifications b) q else if decide (k = q) then ix_has (modifications b) p
    else ix_has (modifications b) k) ->
  exists b', update_move b1 o p q = Some b' /\ swapped b b' p q.
Proof.
  intros Hb Hp Hne Hok (Ed & Ei & Em & Ep & _) Eq Enp Hmod. unfold update_move. rewrite Ep.
  destruct (to_displaced _ _ Hb) as (D & HD & Hdis). pose proof (to_mapped _ _ Hb _ _ Eq) as [Hq _].
  set (b2 := set_mapping _ b1).
  destruct (record_move_spec b2 (Z.of_nat (length rows)) D p q) as
    (b' & -> & Hok' & Hmv' & Emod & _ & Hins & Hdel & Emap);
    [by apply set_mapping_ok|simpl; rewrite Em; apply Hb|simpl; by rewrite Ed, Ei|done|].
  simpl in Hins, Hdel. rewrite Ei in Hins. rewrite Ed, Ei in Hdel.
  assert (Hdbg : realm_assert_debug (ix_contains (insertions b') q) = Some tt).
  { unfold realm_assert_debug. rewrite ix_contains_has by apply Hok'. rewrite bool_decide_eq_true_2 by (apply Hins; by right).
    by destruct realm_debug. }
  cbn [mbind option_bind]. rewrite Hdbg. cbn [mbind option_bind]. exists b'. split; [done|]. split; [done|done| | | |].
  - intros k. rewrite Hins. split; [tauto|intros [?|[->|?]]; tauto].
  - intros k. rewrite Hdel. split; [intros [?|[-> ?]]; tauto|intros [?|[[-> | ->] ?]]; tauto].
  - intros k. rewrite Emap. change (insertions b2) with (insertions b1). rewrite Ei.
    assert (Esq : says b q = Some o) by (unfold says; by rewrite Eq). rewrite Esq.
    change (m_move_mapping b2) with (<[p := o]> (delete q (m_move_mapping b))).
    destruct (decide (ix_has (insertions b) p)) as [Hpi|Hpi].
    + rewrite (says_inserted b p Hpi Enp), lookup_insert, lookup_delete. repeat case_decide; congruence.
    + rewrite (says_not_inserted rows b p Hb Hpi), !lookup_insert, lookup_delete. repeat case_decide; congruence.
  - intros k. rewrite Emod. apply Hmod.
Qed.

Lemma swap_spec rows b i j :
  table_ok rows b -> (i < j)%nat -> (j < length rows)%nat ->
  exists b', swap b (Z.of_nat i) (Z.of_nat j) true = Some b' /\ table_ok (rows_swap i j rows) b'.
Proof.
  intros Hb Hij Hj.
  enough (exists b', swap b (Z.of_nat i) (Z.of_nat j) true = Some b' /\ swapped b b' (Z.of_nat i) (Z.of_nat j))
    as (b' & E & Hs) by (exists b'; split; [done|apply (table_swapped rows b); (done || lia)]).
  unfold swap, realm_assert. rewrite (proj2 (Z.eqb_neq _ _)) by lia. cbn [negb mbind option_bind].
  rewrite Z.min_l, Z.max_r by lia. set (n1 := Z.of_nat i). set (n2 := Z.of_nat j).
  destruct (for_each_col_spec (swap_col n1 n2) _ b (fun s => swap_col_spec n1 n2 s ltac:(lia) ltac:(lia)) (to_ok _ _ Hb))
    as (b1 & -> & Hok & Hsame & [Hmod _]). cbn [mbind option_bind].
  pose proof Hsame as (Ed & Ei & Em & Ep & _). rewrite Ep.
  destruct (m_move_mapping b !! n1) as [o1|] eqn:E1, (m_move_mapping b !! n2) as [o2|] eqn:E2.
  - eexists. split; [done|]. pose proof (to_mapped _ _ Hb _ _ E1) as [Hi1 _]. pose proof (to_mapped _ _ Hb _ _ E2) as [Hi2 _].
    split; simpl; rewrite ?Ed, ?Ei.
    + by apply set_mapping_ok.
    + rewrite Em. apply Hb.
    + intros k. split; [tauto|intros [->|[->|?]]; done].
    + intros k. split; [tauto|intros [?|[[-> | ->] ?]]; done].
    + intros k. unfold says. rewrite E1, E2, !lookup_insert. repeat case_decide; congruence.
    + exact Hmod.
  - destruct (update_move_spec rows b b1 o1 n2 n1 Hb) as (b' & E & Hs); [lia|lia|done|done|done|done| |].
    { intros k. rewrite Hmod. do 2 (case_decide; subst; try done). lia. }
    exists b'. split; [done|]. apply swapped_sym; [lia|done].
  - apply (update_move_spec rows b b1 o2 n1 n2 Hb); (done || lia).
  - destruct (to_displaced _ _ Hb) as (D & HD & Hdis).
    destruct (record_move_spec b1 (Z.of_nat (length rows)) D n2 n1) as
      (b2 & -> & Hok2 & Hmv2 & Emod2 & Hdis2 & Hins2 & Hdel2 & Emap2);
      [done|rewrite Em; apply Hb|by rewrite Ed, Ei|lia|]. cbn [mbind option_bind].
    destruct (record_move_spec b2 (Z.of_nat (length rows)) D n1 n2) as
      (b3 & -> & Hok3 & Hmv3 & Emod3 & _ & Hins3 & Hdel3 & Emap3); [done|done|done|lia|].
    exists b3. split; [done|]. rewrite Ei in Hins2. rewrite Ed, Ei in Hdel2. split; [done|done| | | |].
    + intros k. rewrite Hins3, Hins2. tauto.
    + intros k. rewrite Hdel3, Hdel2, Hins2. split.
      * intros [[?|[-> ?]]|[-> ?]]; tauto.
      * intros [?|[[-> | ->] ?]]; [tauto| |tauto]. right. split; [done|]. intros [?|?]; [lia|done].
    + intros k. rewrite Emap3, Emap2, Ei, Ep.
      assert (Hcases : forall p, m_move_mapping b !! p = None ->
        says b p = if decide (ix_has (insertions b) p) then None else Some p) by (intros p E; unfold says; by rewrite E).
      rewrite (Hcases n1 E1), (Hcases n2 E2).
      assert (H21 : ix_has (insertions b2) n1 <-> ix_has (insertions b) n1) by (rewrite Hins2; split; [intros [?|?]; [lia|done]|tauto]).
      destruct (decide (ix_has (insertions b) n2)) as [H2|H2]; destruct (decide (ix_has (insertions b) n1)) as [H1'|H1'];
        destruct (decide (ix_has (insertions b2) n1)) as [H21'|H21']; try tauto;
        rewrite ?lookup_insert; repeat case_decide; subst; try done; try lia; try (by rewrite E1); try (by rewrite E2).
    + intros k. rewrite Emod3, Emod2. apply Hmod.
Qed.

(** *** Clearing *)
Lemma clear_mapping b old_size b' : clear b old_size = Some b' -> m_move_mapping b' = ∅.
Proof. unfold clear. destruct (ix_set _ _); [|done]. by intros [= <-]. Qed.

Lemma table_clear rows b :
  N <= npos -> table_ok rows b -> exists b', clear b npos = Some b' /\ table_ok [] b'.
Proof.
  intros HN Hb. destruct (clear_spec b npos) as (b' & E & Hok & Hmv & _ & Hi & Hm & Hd); [unfold npos; lia|].
  pose proof (clear_mapping _ _ _ E) as Hmap. rewrite Z.eqb_refl in Hd. exists b'. split; [done|].
  split; rewrite ?Hmap; try done.
  - intros j [Hj|Hj]; [by apply Hi in Hj|by apply Hm in Hj].
  - exists npos. split; [unfold npos in *; lia|]. simpl. split; [intros k; rewrite Hd; lia|lia].
Qed.

(** ** [parse_complete]: the mapping becomes moves *)
Definition to_moves_list (l : list (Z * Z)) : list Move :=
  omap (fun p => if p.1 =? p.2 then None else Some (mkMove p.2 p.1)) l.

Lemma parse_moves_spec l b :
  cols_valid b -> ix_valid (deletions b) -> ix_valid (insertions b) ->
  (forall new old, (new, old) ∈ l -> ix_has (insertions b) new /\ ix_has (deletions b) old) ->
  NoDup l.*1 -> NoDup l.*2 ->
  exists b', parse_moves l b = Some b' /\ cols_valid b' /\ ix_valid (deletions b') /\ ix_valid (insertions b') /\
    modifications b' = modifications b /\
    moves b' = moves b ++ to_moves_list l /\
    (forall j, ix_has (insertions b') j <-> ix_has (insertions b) j /\ (j, j) ∉ l) /\
    (forall j, ix_has (deletions b') j <-> ix_has (deletions b) j /\ (j, j) ∉ l).
Proof.
  revert b. induction l as [|[new old] l IH]; intros b Hc Hd Hi Hl Hk Hv.
  { exists b. split; [done|]. split_and!; try done; [by rewrite app_nil_r|..]; intros j;
      (split; [intros ?; split; [done|apply not_elem_of_nil]|tauto]). }
  apply NoDup_cons in Hk as [Hk Hkl]. apply NoDup_cons in Hv as [Hv Hvl]. simpl in Hk, Hv.
  destruct (Hl new old) as [Hin Hdo]; [left|].
  assert (Hdbg : forall (s : IS) j, ix_valid s -> ix_has s j -> realm_assert_debug (ix_contains s j) = Some tt).
  { intros s j Hs Hj. unfold realm_assert_debug. rewrite ix_contains_has by done. rewrite bool_decide_eq_true_2 by done.
    by destruct realm_debug. }
  cbn [parse_moves]. rewrite !Hdbg by done. cbn [mbind option_bind].
  assert (Hother : forall p, p ∈ l -> p.1 <> new /\ p.2 <> old).
  { intros p Hp. split; intros E; [apply Hk|apply Hv]; rewrite <- E; by apply list_elem_of_fmap_2. }
  destruct (Z.eqb_spec new old) as [->|Hne].
  - destruct (remove_one_spec old _ Hd) as (d & -> & Hd' & Hdh). cbn [mbind option_bind].
    destruct (remove_one_spec old _ Hi) as (i & -> & Hi' & Hih). cbn [mbind option_bind].
    destruct (IH (set_insertions i (set_deletions d b))) as (b' & E & Hc' & Hbd & Hbi & Em & Emv & Hih' & Hdh'); try done.
    { intros x y Hp. simpl. rewrite Hih, Hdh. destruct (Hother _ Hp) as [? ?]. simpl in *.
      destruct (Hl x y) as [? ?]; [by right|]. done. }
    exists b'. split; [done|]. split_and!; try done.
    + rewrite Emv. simpl. by rewrite Z.eqb_refl.
    + intros j. rewrite Hih'. simpl. rewrite Hih, not_elem_of_cons.
      split; [|intros (? & Hn & ?); split; [split; [done|by intros ->]|done]].
      intros [[? ?] ?]. split; [done|]. split; [by intros [= ->]|done].
    + intros j. rewrite Hdh'. simpl. rewrite Hdh, not_elem_of_cons.
      split; [|intros (? & Hn & ?); split; [split; [done|by intros ->]|done]].
      intros [[? ?] ?]. split; [done|]. split; [by intros [= ->]|done].
  - cbn [mbind option_bind].
    destruct (IH (set_moves (moves b ++ [mkMove old new]) b)) as (b' & E & Hc' & Hbd & Hbi & Em & Emv & Hih' & Hdh'); try done.
    { intros x y Hp. apply Hl. by right. }
    exists b'. split; [done|]. split_and!; try done.
    + rewrite Emv. simpl. rewrite (proj2 (Z.eqb_neq _ _)) by done. by rewrite <- app_assoc.
    + intros j. rewrite Hih'. simpl. rewrite not_elem_of_cons. split; [|tauto]. intros [? ?].
      split; [done|]. split; [by intros [= -> ->]|done].
    + intros j. rewrite Hdh'. simpl. rewrite not_elem_of_cons. split; [|tauto]. intros [? ?].
      split; [done|]. split; [by intros [= -> ->]|done].
Qed.

Lemma to_moves_list_elem l m : m ∈ to_moves_list l <-> (to m, from m) ∈ l /\ to m <> from m.
Proof.
  unfold to_moves_list. rewrite list_elem_of_omap. split.
  - intros ([x y] & Hp & E). simpl in E. destruct (Z.eqb_spec x y); [done|]. by injection E as <-.
  - intros [Hp Hne]. exists (to m, from m). split; [done|]. simpl.
    rewrite (proj2 (Z.eqb_neq _ _)) by done. by destruct m.
Qed.

Lemma to_moves_list_nodup {A} (key : Move -> A) (f : Z * Z -> A) l :
  (forall p, key (mkMove p.2 p.1) = f p) -> NoDup (f <$> l) -> NoDup (key <$> to_moves_list l).
Proof.
  intros Hk. induction l as [|p l IH]; [done|]. simpl. intros [Hp Hl]%NoDup_cons.
  destruct (p.1 =? p.2); [by apply IH|]. simpl. apply NoDup_cons. split; [|by apply IH].
  intros (m & Em & Hm)%list_elem_of_fmap. apply to_moves_list_elem in Hm as [Hm _]. apply Hp.
  apply list_elem_of_fmap. exists (to m, from m). split; [|done]. rewrite <- Hk, Em, <- Hk. simpl. by destruct m.
Qed.

(** The finished change set of a table *)
Record completed (rows : list row) b : Prop := {
  co_ok : ok b;
  co_sorted : StronglySorted from_le (moves b);
  co_mapping : m_move_mapping b = ∅;
  co_rows i r : rows !! i = Some r ->
    tracks b (Z.of_nat i) = row_old r /\ (row_modified r = true <-> ix_has (modifications b) (Z.of_nat i));
  co_gone j o : 0 <= j -> tracks b j = Some o -> o < N -> j < Z.of_nat (length rows)
}.

#[local] Instance from_le_total : Total from_le.
Proof. intros x y. unfold from_le. lia. Qed.
#[local] Instance from_le_trans : Transitive from_le.
Proof. intros x y z. unfold from_le. lia. Qed.

(** What the finished builder tracks, from the sets and the moves *)
Lemma completed_intro rows b b' D :
  table_ok rows b -> ok b' -> displaced (ix_has (deletions b')) (ix_has (insertions b')) (Z.of_nat (length rows)) D ->
  N <= D -> StronglySorted from_le (moves b') -> m_move_mapping b' = ∅ ->
  (forall j, ix_has (modifications b') j <-> ix_has (modifications b) j) ->
  (forall m, m ∈ moves b' <-> m_move_mapping b !! to m = Some (from m) /\ to m <> from m) ->
  (forall j, ix_has (insertions b') j <-> ix_has (insertions b) j /\ m_move_mapping b !! j <> Some j) ->
  completed rows b'.
Proof.
  intros Hb Hok Hdis HD Hs Hmap Hmod Hmv Hins.
  assert (Hsrc : forall j, move_source (moves b') j =
    match m_move_mapping b !! j with Some o => if decide (o = j) then None else Some o | None => None end).
  { intros j. destruct (move_source (moves b') j) as [f|] eqn:E.
    - apply move_source_elem in E as (m & Hm & <- & <-); [|apply Hok]. apply Hmv in Hm as [-> Hne].
      by rewrite decide_False.
    - destruct (m_move_mapping b !! j) as [o|] eqn:Eo; [|done]. case_decide as Hoj; [done|].
      apply move_source_none in E. destruct E. apply (list_elem_of_fmap_2 to _ (mkMove o j)). by apply Hmv. }
  split; try done.
  - intros i r Er. destruct (to_rows _ _ Hb _ _ Er) as [-> Hm]. rewrite Hmod. split; [|done].
    pose proof (lookup_lt_Some _ _ _ Er) as Hi. unfold tracks. rewrite Hsrc. unfold says.
    assert (Horig : ~ ix_has (insertions b') (Z.of_nat i) ->
      origin (deletions b') (insertions b') (Z.of_nat i) = Some (Z.of_nat i)).
    { intros Hn. eapply displaced_origin; [apply Hok|apply Hok|exact Hdis|lia|done]. }
    destruct (m_move_mapping b !! Z.of_nat i) as [o|] eqn:Eo.
    + case_decide as Hoi; [|done]. subst o. apply Horig. rewrite Hins. tauto.
    + case_decide as Hi'; [|by apply Horig; rewrite Hins; intros [? ?]].
      unfold origin. rewrite decide_True; [done|]. apply Hins. split; [done|]. by rewrite Eo.
  - intros j o Hj Ho Hlt. destruct (decide (j < Z.of_nat (length rows))) as [|Hge]; [done|exfalso].
    assert (Hni : ~ ix_has (insertions b') j).
    { intros [Hj' _]%Hins. apply Hge, (to_bound _ _ Hb). by left. }
    unfold tracks in Ho. rewrite Hsrc in Ho. destruct (m_move_mapping b !! j) as [x|] eqn:Eo.
    { apply (to_mapped _ _ Hb) in Eo as [Hj' _]. apply Hge, (to_bound _ _ Hb). by left. }
    unfold origin in Ho. rewrite decide_False in Ho by done. injection Ho as Ho.
    pose proof (ix_valid_sep _ (ok_deletions _ Hok)) as Hds. pose proof (ix_valid_sep _ (ok_insertions _ Hok)) as His.
    assert (Hod : ~ ix_has (deletions b') o) by (rewrite <- Ho; by apply ix_free_not_has, Hok).
    assert (Ho0 : 0 <= o) by (rewrite <- Ho; apply free_nonneg; [done|by apply rank_nonneg]).
    assert (Hoi : ~ ix_has (insertions b') o /\ o < Z.of_nat (length rows)).
    { destruct Hdis as [Hdk _]. rewrite Hdk in Hod. split; [intros Hoi; apply Hod; split; [lia|by left]|].
      destruct (decide (o < Z.of_nat (length rows))); [done|]. destruct Hod. split; [lia|right; lia]. }
    pose proof (displaced_origin (deletions b') (insertions b') _ D o (ok_deletions _ Hok) (ok_insertions _ Hok)
      Hdis ltac:(lia) (proj1 Hoi)) as Eoo.
    unfold origin in Eoo. rewrite decide_False in Eoo by apply Hoi. injection Eoo as Eoo.
    rewrite <- Eoo in Ho at 1. apply (ix_free_inj _ _ _ (ok_deletions _ Hok)) in Ho.
    pose proof (rank_lt (ix_ranges (insertions b')) o j His (proj1 Hoi) ltac:(lia)). lia.
Qed.

Lemma table_complete rows b :
  table_ok rows b -> exists b', parse_complete b = Some b' /\ completed rows b'.
Proof.
  intros Hb. unfold parse_complete. set (l := map_to_list (m_move_mapping b)).
  assert (Hl : forall new old, (new, old) ∈ l <-> m_move_mapping b !! new = Some old)
    by (intros; apply elem_of_map_to_list).
  assert (Hv : NoDup l.*2).
  { apply NoDup_fmap_2_strong; [|apply NoDup_map_to_list]. intros [x o] [y o'] Hx%Hl Hy%Hl E. simpl in E. subst o'.
    f_equal. by eapply (to_inj _ _ Hb). }
  destruct (parse_moves_spec l b) as (b1 & -> & Hc & Hd & Hi & Em & Emv & Hih & Hdh);
    [by split; apply Hb|apply (to_ok _ _ Hb)|apply (to_ok _ _ Hb)|by intros new old ?%Hl%(to_mapped _ _ Hb)
    |apply NoDup_fst_map_to_list|done|].
  cbn [mbind option_bind]. eexists. split; [done|]. rewrite (to_moves _ _ Hb) in Emv. simpl in Emv.
  destruct (to_displaced _ _ Hb) as (D & [HD HN] & [Hdk Hdj]).
  assert (Hmem : forall m, m ∈ merge_sort from_le (moves b1) <-> m_move_mapping b !! to m = Some (from m) /\ to m <> from m).
  { intros m. rewrite (merge_sort_Permutation from_le), Emv, to_moves_list_elem. by rewrite Hl. }
  apply (completed_intro rows b _ D Hb); simpl.
  - split; simpl; [done|done|apply Hc|apply Hc| | |].
    + apply Forall_forall. intros m [Hm Hne]%Hmem. pose proof (to_mapped _ _ Hb _ _ Hm) as [Hti Hfd].
      rewrite Hih, Hdh, !Hl. split; (split; [done|]); intros E.
      * apply Hne. by eapply (to_inj _ _ Hb).
      * rewrite Hm in E. injection E as E. done.
    + rewrite (merge_sort_Permutation from_le), Emv. apply (to_moves_list_nodup to fst); [done|apply NoDup_fst_map_to_list].
    + rewrite (merge_sort_Permutation from_le), Emv. by apply (to_moves_list_nodup from snd).
  - split.
    + intros k. rewrite Hdh, Hih, Hdk, Hl. split; [intros [[? [?|?]] ?]; split; tauto|].
      intros (Hk & [[? ?]|Hge]); [tauto|]. split; [tauto|]. intros Hkk%(to_mapped _ _ Hb).
      pose proof (to_bound _ _ Hb k (or_introl (proj1 Hkk))). lia.
    + intros j Hj Hn. destruct (decide (ix_has (insertions b) j)) as [Hji|Hji]; [|by apply Hdj].
      destruct (decide (m_move_mapping b !! j = Some j)) as [E|E].
      * apply (to_mapped _ _ Hb) in E as [_ E]. apply Hdk in E. lia.
      * destruct Hn. apply Hih. by rewrite Hl.
  - done.
  - apply Sorted.Sorted_StronglySorted; [apply from_le_trans|]. apply Sorted_merge_sort, _.
  - done.
  - intros j. by rewrite Em.
  - exact Hmem.
  - intros j. by rewrite Hih, Hl.
Qed.
End table.

(** ** Tables whose moves are not followed

    Without [track_moves] only the modified positions are recorded: of the rows
    they say which were modified, and nothing about where they were. *)
Section modifications.
Context `{IndexSetLaws IS} `{BuildMode}.
Implicit Types (b : CollectionChangeBuilder IS) (rows : list row).

Record table_mods rows b : Prop := {
  tm_ok : ok b;
  tm_moves : moves b = [];
  tm_map : m_move_mapping b = ∅;
  tm_ins j : ~ ix_has (insertions b) j;
  tm_bound j : ix_has (modifications b) j -> j < Z.of_nat (length rows);
  tm_rows i r : rows !! i = Some r -> (row_modified r = true <-> ix_has (modifications b) (Z.of_nat i))
}.

Lemma mods_remark rows rows' b b' : table_mods rows b -> ok b' -> same_rows b b' ->
  (forall j, ix_has (modifications b') j -> j < Z.of_nat (length rows')) ->
  (forall i r, rows' !! i = Some r -> (row_modified r = true <-> ix_has (modifications b') (Z.of_nat i))) ->
  table_mods rows' b'.
Proof. intros [_ Hmv Hmap Hins _ _] Hok (_ & Ei & Em & Ep & _). constructor; rewrite ?Em, ?Ep, ?Ei; done. Qed.

Lemma mods_empty n : table_mods (old_rows n) empty_builder.
Proof.
  constructor; try done; [apply empty_builder_ok|intros j; apply nil_has|intros j Hj; by apply nil_has in Hj|].
  intros i r. unfold old_rows. rewrite list_lookup_fmap. intros (k & _ & ->)%fmap_Some. split; [done|]. intros Hj. by apply nil_has in Hj.
Qed.

Lemma mods_insert rows b count : table_mods rows b -> 0 < count ->
  exists b', insert b (Z.of_nat (length rows)) count false = Some b' /\ table_mods (rows ++ replicate (Z.to_nat count) new_row) b'.
Proof.
  intros Hb Hc. set (n := Z.of_nat (length rows)). unfold insert, realm_assert. rewrite (proj2 (Z.eqb_neq _ _)) by lia. cbn [negb mbind option_bind].
  destruct (for_each_col_spec (fun col => ix_shift_for_insert_at col n count) _ b
    (fun s Hs => ix_shift_for_insert_at_has s n count Hs ltac:(lia) Hc) (tm_ok _ _ Hb)) as (b' & -> & Hok & Hsame & [Hmod _]).
  exists b'. split; [done|].
  assert (forall j, ix_has (modifications b') j <-> ix_has (modifications b) j) as Hm.
  { intros j. rewrite Hmod. unfold moved_back. split; [|intros Hj; pose proof (tm_bound _ _ Hb j Hj); left; split; [lia|done]].
    intros [[_ ?]|[? Hj]]; [done|]. pose proof (tm_bound _ _ Hb _ Hj). lia. }
  eapply mods_remark; [done..| |].
  - intros j Hj%Hm%(tm_bound _ _ Hb). rewrite length_app. lia.
  - intros i r [Er|[Hge Er]]%lookup_app_Some; rewrite Hm; [by apply (tm_rows _ _ Hb)|].
    apply lookup_replicate in Er as [-> _]. split; [done|]. intros Hj%(tm_bound _ _ Hb). lia.
Qed.

Lemma mods_modify rows b ndx col : table_mods rows b -> (ndx < length rows)%nat -> 0 <= col ->
  exists b', modify b (Z.of_nat ndx) col = Some b' /\ table_mods (alter touch ndx rows) b'.
Proof.
  intros Hb Hn Hc. destruct (modify_spec b (Z.of_nat ndx) col (tm_ok _ _ Hb)) as (b' & E & Hb' & Hs & Hm); [lia|done|].
  exists b'. split; [done|]. eapply mods_remark; [done..| |]; rewrite ?length_alter.
  - intros j [->|Hj]%Hm; [lia|]. by apply (tm_bound _ _ Hb).
  - intros i r. rewrite Hm. destruct (decide (i = ndx)) as [->|Hne].
    + rewrite list_lookup_alter, decide_True by done. intros (x & _ & ->)%fmap_Some. split; [by left|done].
    + rewrite list_lookup_alter_ne by congruence. intros Er%(tm_rows _ _ Hb). rewrite Er. split; [by right|intros [?|?]; [lia|done]].
Qed.

(** The rows of the builder's columns after [f], which says what it does to positions *)
Lemma mods_cols rows rows' b (f : IS -> option IS) (P : IS -> IS -> Prop) : table_mods rows b ->
  (forall s, ix_valid s -> gives (f s) (fun s' => ix_valid s' /\ P s s')) ->
  (forall s, P (modifications b) s -> (forall j, ix_has s j -> j < Z.of_nat (length rows')) /\
     forall i r, rows' !! i = Some r -> (row_modified r = true <-> ix_has s (Z.of_nat i))) ->
  exists b', for_each_col f b = Some b' /\ table_mods rows' b'.
Proof.
  intros Hb Hf Hrows. destruct (for_each_col_spec f P b Hf (tm_ok _ _ Hb)) as (b' & E & Hok & Hsame & [Hmod _]).
  exists b'. split; [done|]. destruct (Hrows _ Hmod). by eapply mods_remark.
Qed.

Lemma rows_move_over_lookup i rows rl k : last rows = Some rl -> (i < length rows)%nat -> (k < length rows - 1)%nat ->
  rows_move_over i rows !! k = if decide (k = i) then Some rl else rows !! k.
Proof.
  intros El Hi Hk. unfold rows_move_over. rewrite El, lookup_take_lt by lia. rewrite list_lookup_insert. do 2 case_decide; (done || lia).
Qed.

Lemma mods_move_over rows b i : table_mods rows b -> (i < length rows)%nat ->
  exists b', move_over b (Z.of_nat i) (Z.of_nat (length rows) - 1) false = Some b' /\ table_mods (rows_move_over i rows) b'.
Proof.
  intros Hb Hi. set (l := Z.of_nat (length rows) - 1). pose proof (tm_ok _ _ Hb) as Hok.
  assert (He1 : ends_within (insertions b) l = true) by (apply ends_within_ok; [apply Hok|]; intros j Hj; by apply (tm_ins _ _ Hb) in Hj).
  assert (He2 : ends_within (modifications b) l = true) by (apply ends_within_ok; [apply Hok|apply (tm_bound _ _ Hb)]).
  unfold move_over, realm_assert. rewrite (proj2 (Z.leb_le _ _)) by lia. rewrite He1, He2. cbn [mbind option_bind negb].
  destruct (last rows) as [rl|] eqn:El; [|apply last_None in El; subst; simpl in Hi; lia].
  assert (Hlen : length (rows_move_over i rows) = (length rows - 1)%nat) by (unfold rows_move_over; rewrite El, length_take, length_insert; lia).
  assert (Erl : rows !! (length rows - 1)%nat = Some rl) by (rewrite last_lookup in El; by replace (length rows - 1)%nat with (pred (length rows)) by lia).
  assert (Hlast : row_modified rl = true <-> ix_has (modifications b) l).
  { rewrite (tm_rows _ _ Hb _ _ Erl). by replace (Z.of_nat (length rows - 1)) with l by lia. }
  assert (Hfin : forall f, (forall s, ix_valid s -> gives (f s) (fun s' => ix_valid s' /\
      forall k, k < l -> ix_has s' k <-> (if decide (k = Z.of_nat i) then ix_has s l else ix_has s k))) ->
    (forall s s', f s = Some s' -> ix_valid s -> forall k, ix_has s' k -> k <> l /\ (k <= l \/ ix_has s k)) ->
    exists b', for_each_col f b = Some b' /\ table_mods (rows_move_over i rows) b').
  { intros f Hf Hend. apply (mods_cols rows _ b f (fun s s' => f s = Some s' /\ ix_valid s /\
      forall k, k < l -> ix_has s' k <-> (if decide (k = Z.of_nat i) then ix_has s l else ix_has s k)) Hb).
    - intros s Hs. destruct (Hf s Hs) as (s' & E & Hs' & Hk). by exists s'.
    - intros s (E & Hv & Hs). rewrite Hlen. split.
      + intros j Hj. destruct (Hend _ _ E Hv j Hj) as [Hne [?|Hj']]; [lia|]. pose proof (tm_bound _ _ Hb j Hj'). lia.
      + intros k r Er. pose proof (lookup_lt_Some _ _ _ Er) as Hk. rewrite Hlen in Hk.
        rewrite (rows_move_over_lookup i rows rl k) in Er by (done || lia). rewrite Hs by lia.
        destruct (decide (k = i)) as [->|Hne]; [rewrite decide_True by done; by simplify_eq|].
        rewrite decide_False by lia. by apply (tm_rows _ _ Hb). }
  destruct (Z.eqb_spec (Z.of_nat i) l) as [Eil|Hne].
  - unfold move_over_last. cbn [mbind option_bind]. rewrite Eil. apply Hfin.
    + intros s Hs. destruct (remove_one_spec l s Hs) as (s' & E & Hs' & Hh). exists s'. split; [done|]. split; [done|].
      intros k Hk. rewrite Hh, decide_False by lia. split; [by intros [? _]|intros ?; split; [done|lia]].
    + intros s s' E Hs k. destruct (remove_one_spec l s Hs) as (s2 & E2 & _ & Hh). simplify_eq. rewrite Hh. intros [? ?]. split; [done|by right].
  - destruct (Hfin (move_over_col (Z.of_nat i) l)) as (b' & -> & Hb'); [| |by exists b'].
    + intros s Hs. destruct (move_over_col_spec (Z.of_nat i) l s ltac:(lia) Hs) as (s' & E & Hs' & Hh). exists s'. split; [done|]. split; [done|].
      intros k Hk. rewrite Hh. case_decide; [done|]. split; [by intros [? _]|intros ?; split; [done|lia]].
    + intros s s' E Hs k. destruct (move_over_col_spec (Z.of_nat i) l s ltac:(lia) Hs) as (s2 & E2 & _ & Hh). simplify_eq. rewrite Hh.
      case_decide; [intros _; split; [lia|left; lia]|intros [? ?]; split; [done|by right]].
Qed.

Lemma mods_swap rows b i j : table_mods rows b -> (i < j)%nat -> (j < length rows)%nat ->
  exists b', swap b (Z.of_nat i) (Z.of_nat j) false = Some b' /\ table_mods (rows_swap i j rows) b'.
Proof.
  intros Hb Hij Hj. unfold swap, realm_assert. rewrite (proj2 (Z.eqb_neq _ _)) by lia. cbn [negb mbind option_bind].
  rewrite Z.min_l, Z.max_r by lia.
  destruct (lookup_lt_is_Some_2 rows i ltac:(lia)) as [x Ex], (lookup_lt_is_Some_2 rows j Hj) as [y Ey].
  destruct (mods_cols rows (rows_swap i j rows) b (swap_col (Z.of_nat i) (Z.of_nat j)) _ Hb
    (fun s => swap_col_spec (Z.of_nat i) (Z.of_nat j) s ltac:(lia) ltac:(lia))) as (b' & -> & Hb'); [|by exists b'].
  intros s Hs. rewrite rows_swap_length. split.
  - intros k Hk%Hs. do 2 (case_decide; [lia|]). by apply (tm_bound _ _ Hb).
  - intros k r. unfold rows_swap. rewrite Ex, Ey, list_lookup_insert, length_insert, list_lookup_insert, Hs. intros Er.
    destruct (decide (k = i)) as [->|Hki]; [rewrite decide_True by done|rewrite decide_False by lia].
    + rewrite decide_True in Er by lia. simplify_eq. by apply (tm_rows _ _ Hb).
    + rewrite decide_False in Er by lia. destruct (decide (k = j)) as [->|Hkj]; [rewrite decide_True by done|rewrite decide_False by lia].
      * rewrite decide_True in Er by lia. simplify_eq. by apply (tm_rows _ _ Hb).
      * rewrite decide_False in Er by lia. by apply (tm_rows _ _ Hb).
Qed.

Lemma mods_clear rows b : table_mods rows b -> exists b', clear b npos = Some b' /\ table_mods [] b'.
Proof.
  intros Hb. destruct (clear_spec b npos) as (b' & E & Hok & Hmv & _ & Hi & Hm & _); [unfold npos; lia|].
  pose proof (clear_mapping _ _ _ E) as Hmap. exists b'. split; [done|]. constructor; try done. intros j Hj. by apply Hm in Hj.
Qed.

(** ** What is recorded of a table, with or without its moves *)
Definition recorded (N : Z) (track_moves : bool) rows b : Prop :=
  if track_moves then table_ok N rows b else table_mods rows b.

Lemma recorded_empty N track_moves n : N = Z.of_nat n -> Z.of_nat n <= npos -> recorded N track_moves (old_rows n) empty_builder.
Proof. destruct track_moves; [apply empty_table_ok|intros _ _; apply mods_empty]. Qed.
Lemma recorded_insert N track_moves rows b count : recorded N track_moves rows b -> 0 < count ->
  exists b', insert b (Z.of_nat (length rows)) count track_moves = Some b' /\
    recorded N track_moves (rows ++ replicate (Z.to_nat count) new_row) b'.
Proof. destruct track_moves; [apply table_insert|apply mods_insert]. Qed.
Lemma recorded_modify N track_moves rows b ndx col : recorded N track_moves rows b -> (ndx < length rows)%nat -> 0 <= col ->
  exists b', modify b (Z.of_nat ndx) col = Some b' /\ recorded N track_moves (alter touch ndx rows) b'.
Proof. destruct track_moves; [apply table_modify|apply mods_modify]. Qed.
Lemma recorded_move_over N track_moves rows b i : recorded N track_moves rows b -> (i < length rows)%nat -> Z.of_nat (length rows) <= npos ->
  exists b', move_over b (Z.of_nat i) (Z.of_nat (length rows) - 1) track_moves = Some b' /\ recorded N track_moves (rows_move_over i rows) b'.
Proof. destruct track_moves; [apply move_over_spec|intros Hb Hi _; by apply mods_move_over]. Qed.
Lemma recorded_swap N track_moves rows b i j : recorded N track_moves rows b -> (i < j)%nat -> (j < length rows)%nat ->
  exists b', swap b (Z.of_nat i) (Z.of_nat j) track_moves = Some b' /\ recorded N track_moves (rows_swap i j rows) b'.
Proof. destruct track_moves; [apply swap_spec|apply mods_swap]. Qed.
Lemma recorded_clear N track_moves rows b : N <= npos -> recorded N track_moves rows b ->
  exists b', clear b npos = Some b' /\ recorded N track_moves [] b'.
Proof. destruct track_moves; [apply table_clear|intros _; apply mods_clear]. Qed.

(** The finished change set, as far as it was recorded *)
Lemma recorded_complete N track_moves rows b : recorded N track_moves rows b ->
  exists b', parse_complete b = Some b' /\ ok b' /\ (track_moves = true -> completed N rows b') /\
    forall i r, rows !! i = Some r -> (row_modified r = true <-> ix_has (modifications b') (Z.of_nat i)).
Proof.
  destruct track_moves; intros Hb.
  - destruct (table_complete N rows b Hb) as (b' & E & Hco). exists b'. split; [done|]. split; [apply Hco|]. split; [done|].
    intros i r Er. by apply (co_rows _ _ _ Hco).
  - unfold parse_complete. rewrite (tm_map _ _ Hb), map_to_list_empty. cbn [parse_moves mbind option_bind]. rewrite (tm_moves _ _ Hb).
    eexists. split; [done|]. split; [|split; [done|]]; [|intros i r Er; cbn; by apply (tm_rows _ _ Hb)].
    destruct (tm_ok _ _ Hb). constructor; cbn; try done; constructor.
Qed.
End modifications.
