(* ===== verification/LogRows.v ===== *)
(** * A transaction log followed by the observer

    The abstract state is a group of tables, each a sequence of rows with
    their old positions; the observer's change builders are shown to refine it
    for every log of row instructions the core can emit for top-level tables. *)
From stdpp Require Import gmap sorting.
From stdpp Require Import list.
From S2P Require Import Prelude.
From S2P Require Import RangeList.
From S2P Require Import IndexSets.
From S2P Require Import IndexSetInterface.
From S2P Require Import ChangeBuilder.
From S2P Require Import ChangeBuilderFacts.
From S2P Require Import ChangeMerge.
From S2P Require Import TransactLog.
From S2P Require Import KvoAdapter.
From S2P Require Import SchemaTracking.
From S2P Require Import KvoFacts.
From S2P Require Import TableRows.

Import LogObserver.

(** ** The abstract group *)
Record group := mkGroup { g_current : option nat; g_tables : list (list row) }.

(** An instruction that changes the rows of the selected table; [None] if it
    is out of range, or not about the rows of a top-level table. *)
Definition row_step (rows : list row) (i : Instruction) : option (list row) :=
  let n := Z.of_nat (length rows) in
  let insert row count := if (row =? n) && (0 <? count) && (n + count <=? npos)
                          then Some (rows ++ replicate (Z.to_nat count) new_row) else None in
  let touch_at row := if (0 <=? row) && (row <? n) then Some (alter touch (Z.to_nat row) rows) else None in
  match i with
  | insert_empty_rows row count _ _ => insert row count
  | add_row_with_key row _ => insert row 1
  | erase_rows row _ prior true =>
    if (0 <=? row) && (row <? n) && (prior =? n) then Some (rows_move_over (Z.to_nat row) rows) else None
  | swap_rows a b =>
    if (0 <=? a) && (a <? b) && (b <? n) then Some (rows_swap (Z.to_nat a) (Z.to_nat b) rows) else None
  | clear_table => Some []
  | set_cell _ _ row instr => if decide (instr = instr_Set) then touch_at row else Some rows
  | update_cell _ _ row => touch_at row
  | set_int_unique _ _ | set_string_unique _ _ => Some rows
  | _ => None
  end.

Definition group_step (g : group) (i : Instruction) : option group :=
  match i with
  | select_table t 0 _ => if (t <? length (g_tables g))%nat then Some (mkGroup (Some t) (g_tables g)) else None
  | _ =>
    t ← g_current g;
    rows ← g_tables g !! t;
    rows ← row_step rows i;
    Some (mkGroup (Some t) (<[t := rows]> (g_tables g)))
  end.

(** The group before the transaction, from the sizes of its tables *)
Definition old_group (ns : list nat) : group := mkGroup None (old_rows <$> ns).

Section log_rows.
Context `{IndexSetLaws IS} `{BuildMode}.
Implicit Types (o : TransactLogObserver IS) (b : CollectionChangeBuilder IS).
Context (info : TransactionChangeInfo IS) (ns : list nat).

(** Tables whose changes are wanted, and those whose moves are *)
Definition watched (t : nat) : bool := track_all info || flag (table_modifications_needed info) t.
Definition moves_watched (t : nat) : bool := track_all info || flag (table_moves_needed info) t.

Definition builder_at o (t : nat) : CollectionChangeBuilder IS :=
  default ChangeBuilder.empty_builder (tables (m_info o) !! t).

(** The builders of the lists are in order, whatever their rows. *)
Definition list_builders_ok o : Prop :=
  Forall (fun l => exists b, m_builders o !! changes l = Some b /\ ok b) (lists (m_info o)).

Record refines (g : group) o : Prop := {
  re_flags : track_all (m_info o) = track_all info /\
    table_modifications_needed (m_info o) = table_modifications_needed info /\
    table_moves_needed (m_info o) = table_moves_needed info;
  re_level : m_is_top_level_table o = true;
  re_sizes : length (g_tables g) = length ns;
  re_bounds : Forall (fun rows => Z.of_nat (length rows) <= npos) (g_tables g);
  re_current t : g_current g = Some t -> m_current_table o = t /\ (t < length ns)%nat /\
    m_active_table o = (if watched t then Some (InTables (m_epoch o) t) else None) /\
    (watched t = true -> (t < length (tables (m_info o)))%nat /\ m_need_move_info o = moves_watched t);
  re_tables t n rows : ns !! t = Some n -> g_tables g !! t = Some rows -> watched t = true ->
    recorded (Z.of_nat n) (moves_watched t) rows (builder_at o t);
  re_all : Forall (fun b => exists N track_moves rows, recorded N track_moves rows b) (tables (m_info o));
  re_lists : list_builders_ok o
}.

(** A call through the pointer to the selected table *)
Lemma active_step g o t n rows rows' f :
  refines g o -> g_current g = Some t -> ns !! t = Some n -> g_tables g !! t = Some rows ->
  Z.of_nat (length rows') <= npos ->
  (forall b, recorded (Z.of_nat n) (m_need_move_info o) rows b ->
     exists b', f b = Some b' /\ recorded (Z.of_nat n) (m_need_move_info o) rows' b') ->
  exists o', if_active (m_active_table o) f o = Some o' /\
    refines (mkGroup (Some t) (<[t := rows']> (g_tables g))) o' /\
    lists (m_info o') = lists (m_info o) /\ m_builders o' = m_builders o.
Proof.
  intros Hre Hcur Hn Hrows Hnp Hf. destruct (re_current _ _ Hre t Hcur) as (Ht & Htl & Hact & Hneed).
  pose proof (re_tables _ _ Hre t n rows Hn Hrows) as Hok.
  destruct Hre as [Hfl Hlev Hsz Hbnd _ Htab Hall Hls]. rewrite Hact. destruct (watched t) eqn:Hw; simpl.
  - destruct (Hneed eq_refl) as [Hlt Hmi]. specialize (Hok eq_refl).
    rewrite <- Hmi in Hok. destruct (Hf _ Hok) as (b' & Eb & Hok'). rewrite Hmi in Hok'. unfold builder_at in Hok, Eb.
    destruct (lookup_lt_is_Some_2 _ _ Hlt) as [b E]. rewrite E in Eb, Hok. simpl in Eb.
    unfold realm_assert. rewrite Nat.eqb_refl, E. cbn [mbind option_bind]. rewrite Eb. cbn [mbind option_bind].
    eexists. split; [done|]. split; [|done]. split; simpl; try done.
    + by rewrite length_insert.
    + by apply Forall_insert.
    + intros t' [= <-]. rewrite length_insert, Hw. split; [done|]. split; [done|]. by split.
    + intros t' n' rows2 Hn' Hr' Hw'. unfold builder_at. simpl.
      destruct (decide (t' = t)) as [->|Hne].
      * rewrite list_lookup_insert_eq in Hr' by (by apply lookup_lt_Some in Hrows). injection Hr' as <-.
        rewrite list_lookup_insert_eq by done. simpl. by simplify_eq.
      * rewrite list_lookup_insert_ne in Hr' by done. rewrite list_lookup_insert_ne by done. by apply (Htab t').
    + apply Forall_insert; [done|]. by exists (Z.of_nat n), (moves_watched t), rows'.
  - eexists. split; [done|]. split; [|done]. split; simpl; try done.
    + by rewrite length_insert.
    + by apply Forall_insert.
    + intros t' [= <-]. by rewrite Hw.
    + intros t' n' rows2 Hn' Hr' Hw'. destruct (decide (t' = t)) as [->|Hne]; [congruence|].
      rewrite list_lookup_insert_ne in Hr' by done. by apply (Htab t').
Qed.

(** Only the lists differ, and they keep their builders. *)
Lemma refines_lists g o l :
  refines g o -> Forall (fun x => exists b, m_builders o !! changes x = Some b /\ ok b) l ->
  refines g (set_info (set_lists l (m_info o)) o).
Proof. intros [] Hl. by split. Qed.

Lemma erase_lists_forall (P : ListChangeInfo -> Prop) tbl r last_ n i l :
  (forall x, P x -> P (with_row (fun _ => r) x)) -> Forall P l -> Forall P (erase_lists tbl r last_ n i l).
Proof.
  intros HP. revert i l. induction n as [|n IH]; intros i l Hl; simpl; [done|].
  destruct (l !! i) as [x|] eqn:E; [|done]. destruct (negb _); [by apply IH|].
  assert (Hx : P x) by (rewrite Forall_lookup in Hl; by eapply Hl).
  destruct (row_ndx x =? r).
  - apply IH, Forall_take. destruct (i + 1 <? length l)%nat; [|done]. destruct (last l) as [y|] eqn:Ey; [|done].
    apply Forall_insert; [done|]. apply last_Some_elem_of in Ey. rewrite Forall_forall in Hl. by apply Hl.
  - apply IH. destruct (row_ndx x =? last_); [|done]. apply Forall_insert; [done|by apply HP].
Qed.

(** The lists after a change of their rows *)
Lemma refines_map_rows g o f : refines g o -> refines g (map_rows f o).
Proof.
  intros Hre. unfold map_rows. destruct (m_is_top_level_table o); [|done]. apply refines_lists; [done|].
  apply Forall_fmap. eapply Forall_impl; [apply (re_lists _ _ Hre)|]. intros x Hx. simpl. by destruct (_ =? _)%nat.
Qed.

Lemma refines_select g o t path :
  (forall n, n ∈ ns -> Z.of_nat n <= npos) ->
  refines g o -> (t < length (g_tables g))%nat ->
  exists o', handle o (select_table t 0 path) = Handled o' /\ refines (mkGroup (Some t) (g_tables g)) o'.
Proof.
  intros Hns Hre Ht. unfold handle. simpl. unfold on_select_table. simpl.
  destruct Hre as [(Ef1 & Ef2 & Ef3) Hlev Hsz Hbnd _ Htab Hall Hls]. rewrite Ef1, Ef2, Ef3, Hsz in *.
  rewrite <- negb_orb. change (track_all info || flag (table_modifications_needed info) t) with (watched t).
  destruct (watched t) eqn:Hw; simpl.
  - eexists. split; [done|]. unfold ensure_table. simpl.
    set (grow := (length (tables (m_info o)) <=? t)%nat). set (v := vec_resize _ _ _).
    assert (Hv : forall k, default ChangeBuilder.empty_builder (v !! k) = builder_at o k)
      by (intros k; apply vec_resize_default).
    assert (Hvl : (t < length v)%nat) by (unfold v; rewrite vec_resize_length; lia).
    assert (Hva : Forall (fun b => exists N track_moves rows, recorded N track_moves rows b) v).
    { unfold v, vec_resize. apply Forall_app. split; [done|]. apply Forall_replicate.
      exists 0, true, (old_rows 0). apply (empty_table_ok 0 0); [done|done]. }
    destruct grow eqn:Eg; (split; simpl; [done|done|done|done| |intros t' n rows Hn Hr Hw'|done|done]).
    + intros t' [= <-]. rewrite Hw. split_and!; try done; lia.
    + unfold builder_at. simpl. rewrite Hv. by apply (Htab t').
    + intros t' [= <-]. rewrite Hw. apply Nat.leb_gt in Eg. split_and!; try done; lia.
    + by apply (Htab t').
  - eexists. split; [done|]. split; simpl; try done. intros t' [= <-]. rewrite Hw. split_and!; (done || lia).
Qed.

(** An instruction whose handler calls the builder and then adjusts the lists *)
Lemma row_handled g o t n rows rows' f (adjust : TransactLogObserver IS -> TransactLogObserver IS) :
  refines g o -> g_current g = Some t -> ns !! t = Some n -> g_tables g !! t = Some rows ->
  Z.of_nat (length rows') <= npos ->
  (forall b, recorded (Z.of_nat n) (m_need_move_info o) rows b ->
     exists b', f b = Some b' /\ recorded (Z.of_nat n) (m_need_move_info o) rows' b') ->
  (forall g o, refines g o -> refines g (adjust o)) ->
  exists o', (o ← if_active (m_active_table o) f o; Some (adjust o)) = Some o' /\
    refines (mkGroup (Some t) (<[t := rows']> (g_tables g))) o'.
Proof.
  intros Hre Hcur Hn Hrows Hnp Hf Hadj.
  destruct (active_step g o t n rows rows' f Hre Hcur Hn Hrows Hnp Hf) as (o' & -> & Hre' & _ & _).
  exists (adjust o'). split; [done|]. by apply Hadj.
Qed.

Lemma mark_dirty_handled g o t n rows row col :
  refines g o -> g_current g = Some t -> ns !! t = Some n -> g_tables g !! t = Some rows ->
  0 <= row < Z.of_nat (length rows) -> Z.of_nat (length rows) <= npos ->
  exists o', mark_dirty row col o = Some o' /\
    refines (mkGroup (Some t) (<[t := alter touch (Z.to_nat row) rows]> (g_tables g))) o'.
Proof.
  intros Hre Hcur Hn Hrows Hr Hb. unfold mark_dirty.
  destruct (active_step g o t n rows (alter touch (Z.to_nat row) rows)
    (fun b => ChangeBuilder.modify b row (Z.of_nat col)) Hre Hcur Hn Hrows) as (o' & E & Hre' & _);
    [by rewrite length_alter| |by exists o'].
  intros b Hok. destruct (recorded_modify _ _ rows b (Z.to_nat row) (Z.of_nat col) Hok) as (b' & Eb & Hok');
    [lia|lia|]. rewrite Z2Nat.id in Eb by lia. by exists b'.
Qed.

(** Nothing happens to the rows. *)
Lemma same_rows_handled g o t rows :
  refines g o -> g_current g = Some t -> g_tables g !! t = Some rows ->
  refines (mkGroup (Some t) (<[t := rows]> (g_tables g))) o.
Proof. intros Hre Hcur Hrows. rewrite list_insert_id by done. destruct g. simpl in *. by subst. Qed.

Lemma row_step_handled g o t n rows rows' i :
  (forall n, n ∈ ns -> Z.of_nat n <= npos) ->
  refines g o -> g_current g = Some t -> ns !! t = Some n -> g_tables g !! t = Some rows ->
  row_step rows i = Some rows' ->
  exists o', handle o i = Handled o' /\ refines (mkGroup (Some t) (<[t := rows']> (g_tables g))) o'.
Proof.
  intros Hns Hre Hcur Hn Hrows E.
  assert (Hlen : Z.of_nat (length rows) <= npos).
  { pose proof (re_bounds _ _ Hre) as Hb. rewrite Forall_lookup in Hb. by eapply Hb. }
  assert (Hfin : forall r, (exists o', r = Some o' /\ refines (mkGroup (Some t) (<[t := rows']> (g_tables g))) o') ->
    exists o', handled r = Handled o' /\ refines (mkGroup (Some t) (<[t := rows']> (g_tables g))) o')
    by (intros r (o' & -> & Hre'); by exists o').
  assert (Htouch : forall row col, (if (0 <=? row) && (row <? Z.of_nat (length rows))
      then Some (alter touch (Z.to_nat row) rows) else None) = Some rows' ->
    exists o', mark_dirty row col o = Some o' /\ refines (mkGroup (Some t) (<[t := rows']> (g_tables g))) o').
  { intros row col. destruct (Z.leb_spec 0 row), (Z.ltb_spec row (Z.of_nat (length rows))); try done.
    intros [= <-]. by eapply mark_dirty_handled. }
  assert (Hinsert : forall row count, (if (row =? Z.of_nat (length rows)) && (0 <? count) &&
      (Z.of_nat (length rows) + count <=? npos) then Some (rows ++ replicate (Z.to_nat count) new_row) else None) = Some rows' ->
    exists o', on_insert_empty_rows row count o = Some o' /\ refines (mkGroup (Some t) (<[t := rows']> (g_tables g))) o').
  { intros row count. destruct (Z.eqb_spec row (Z.of_nat (length rows))) as [->|], (Z.ltb_spec 0 count),
      (Z.leb_spec (Z.of_nat (length rows) + count) npos); try done. intros [= <-].
    apply (row_handled g o t n rows); try done; [rewrite length_app, length_replicate; lia| |
      intros; by apply refines_map_rows].
    intros b Hok. by apply recorded_insert. }
  destruct i; try done; unfold handle; simpl observer_handle; cbv beta iota; apply Hfin; simpl in E.
  - unfold mark_dirty_instr. case_decide; [by apply Htouch|]. injection E as <-.
    exists o. split; [done|]. by eapply same_rows_handled.
  - unfold mark_dirty_instr. rewrite decide_True by done. by apply Htouch.
  - injection E as <-. exists o. split; [done|]. by eapply same_rows_handled.
  - injection E as <-. exists o. split; [done|]. by eapply same_rows_handled.
  - by apply Hinsert.
  - by apply Hinsert.
  - destruct unordered; [|done]. unfold on_erase_rows. cbn [negb].
    destruct (Z.leb_spec 0 row_ndx), (Z.ltb_spec row_ndx (Z.of_nat (length rows))),
      (Z.eqb_spec prior_num_rows (Z.of_nat (length rows))) as [->|]; try done. injection E as <-.
    rewrite Z.mod_small by (unfold npos in *; lia).
    destruct (row_handled g o t n rows (rows_move_over (Z.to_nat row_ndx) rows)
      (fun b => ChangeBuilder.move_over b row_ndx (Z.of_nat (length rows) - 1) (m_need_move_info o))
      (fun o => if negb (m_is_top_level_table o) then o
        else set_info (set_lists (erase_lists (m_current_table o) row_ndx (Z.of_nat (length rows) - 1)
               (length (lists (m_info o))) 0 (lists (m_info o))) (m_info o)) o)) as (o' & E' & Hre'); try done.
    + unfold rows_move_over. destruct (last rows); [|done]. rewrite length_take, length_insert. lia.
    + intros b Hok. destruct (recorded_move_over _ _ rows b (Z.to_nat row_ndx) Hok) as (b' & Eb & Hok'); [lia|done|].
      rewrite Z2Nat.id in Eb by lia. by exists b'.
    + intros g2 o2 Hre2. destruct (negb _); [done|]. apply refines_lists; [done|].
      apply erase_lists_forall; [done|apply (re_lists _ _ Hre2)].
    + exists o'. split; [|done]. rewrite <- E'. destruct (if_active _ _ _); [|done]. simpl. by destruct (negb _).
  - unfold on_swap_rows. destruct (Z.leb_spec 0 row_ndx_1), (Z.ltb_spec row_ndx_1 row_ndx_2),
      (Z.ltb_spec row_ndx_2 (Z.of_nat (length rows))); try done. injection E as <-.
    unfold realm_assert. cbn [mbind option_bind]. rewrite (re_level _ _ Hre). cbn [negb].
    apply (row_handled g o t n rows); try done; [| |intros; by apply refines_map_rows].
    + by rewrite rows_swap_length.
    + intros b Hok. destruct (recorded_swap _ _ rows b (Z.to_nat row_ndx_1) (Z.to_nat row_ndx_2) Hok)
        as (b' & Eb & Hok'); [lia|lia|]. rewrite !Z2Nat.id in Eb by lia. by exists b'.
  - injection E as <-. unfold on_clear_table.
    destruct (row_handled g o t n rows [] (fun b => ChangeBuilder.clear b npos)
      (fun o => if negb (m_is_top_level_table o) then o
        else set_info (set_lists (filter (fun l => (table_ndx l =? m_current_table o)%nat = false) (lists (m_info o)))
               (m_info o)) o)) as (o' & E' & Hre'); try done.
    + intros b Hok. apply (recorded_clear _ _ rows); [|done]. apply Hns. by eapply list_elem_of_lookup_2.
    + intros g2 o2 Hre2. destruct (negb _); [done|]. apply refines_lists; [done|].
      apply Forall_forall. intros x [_ Hx]%list_elem_of_filter.
      pose proof (re_lists _ _ Hre2) as Hl. unfold list_builders_ok in Hl. rewrite Forall_forall in Hl. by apply Hl.
    + exists o'. split; [|done]. rewrite <- E'. destruct (if_active _ _ _); [|done]. simpl. by destruct (negb _).
Qed.

Lemma group_step_handled g g' o i :
  (forall n, n ∈ ns -> Z.of_nat n <= npos) ->
  refines g o -> group_step g i = Some g' -> exists o', handle o i = Handled o' /\ refines g' o'.
Proof.
  intros Hns Hre E.
  assert (Hrow : (t ← g_current g; rows ← g_tables g !! t; rows ← row_step rows i;
                  Some (mkGroup (Some t) (<[t := rows]> (g_tables g)))) = Some g' ->
    exists o', handle o i = Handled o' /\ refines g' o').
  { destruct (g_current g) as [t|] eqn:Et; [|done]. simpl. destruct (g_tables g !! t) as [rows|] eqn:Er; [|done]. simpl.
    destruct (row_step rows i) as [rows'|] eqn:Es; [|done]. simpl. intros [= <-].
    destruct (re_current _ _ Hre t Et) as (_ & Htl & _). destruct (lookup_lt_is_Some_2 _ _ Htl) as [n En].
    by eapply row_step_handled. }
  destruct i; try by apply Hrow.
  destruct len; [|by apply Hrow]. simpl in E.
  destruct (Nat.ltb_spec group_level_ndx (length (g_tables g))); [|done]. injection E as <-. by apply refines_select.
Qed.

Lemma log_handled g g' o log :
  (forall n, n ∈ ns -> Z.of_nat n <= npos) ->
  refines g o -> fold_option group_step log g = Some g' ->
  exists o', handle_all handle log o = Handled o' /\ refines g' o'.
Proof.
  intros Hns. revert g o. induction log as [|i log IH]; intros g o Hre E.
  - injection E as <-. by exists o.
  - simpl in E. destruct (group_step g i) as [g1|] eqn:E1; [|done]. cbn [mbind option_bind] in E.
    destruct (group_step_handled g g1 o i Hns Hre E1) as (o1 & Eh & Hre1). simpl. rewrite Eh. simpl. by apply (IH g1).
Qed.

Lemma refines_start bs :
  (forall n, n ∈ ns -> Z.of_nat n <= npos) -> tables info = [] ->
  Forall (fun l => exists b, bs !! changes l = Some b /\ ok b) (lists info) ->
  refines (old_group ns) (observe info bs).
Proof.
  intros Hns Ht Hl. split; simpl; try done.
  - by rewrite length_fmap.
  - apply Forall_fmap, Forall_forall. intros n Hn. simpl. unfold old_rows. rewrite length_fmap, length_seq. by apply Hns.
  - intros t n rows Hn. rewrite list_lookup_fmap, Hn. intros [= <-] _. unfold builder_at. simpl. rewrite Ht. simpl.
    apply recorded_empty; [done|]. apply Hns. by eapply list_elem_of_lookup_2.
  - by rewrite Ht.
Qed.

Lemma complete_tables_spec (l : list (CollectionChangeBuilder IS)) :
  Forall (fun b => exists N track_moves rows, recorded N track_moves rows b) l ->
  exists l', complete_tables l = Some l' /\ Forall2 (fun b b' => ChangeBuilder.parse_complete b = Some b') l l'.
Proof.
  induction 1 as [|b l (N & track_moves & rows & Hb) _ (l' & E & Hl')]; [by exists []|].
  destruct (recorded_complete N track_moves rows b Hb) as (b' & Eb & _). exists (b' :: l'). simpl. rewrite Eb. cbn [mbind option_bind].
  rewrite E. split; [done|]. by constructor.
Qed.

Lemma parse_complete_empty :
  ChangeBuilder.parse_complete (ChangeBuilder.empty_builder (IS := IS)) = Some ChangeBuilder.empty_builder.
Proof. unfold ChangeBuilder.parse_complete. simpl. by rewrite map_to_list_empty. Qed.

(** The stale moves of the lists are cleaned up. *)
Lemma clean_lists_spec o l :
  Forall (fun x => exists b, m_builders o !! changes x = Some b /\ ok b) l ->
  exists o', fold_option (fun o l => update_list (changes l) ChangeBuilder.clean_up_stale_moves o) l o = Some o' /\
    m_info o' = m_info o.
Proof.
  intros Hl.
  destruct (fold_option_rule (fun o l => update_list (changes l) ChangeBuilder.clean_up_stale_moves o)
    (fun _ o' => m_info o' = m_info o /\ Forall (fun x => exists b, m_builders o' !! changes x = Some b /\ ok b) l) l o)
    as (o' & E & Hi & _); [done| |by exists o'].
  intros pre x post o1 -> [Hi Ho1]. pose proof Ho1 as Hx. apply Forall_app in Hx as [_ [(b & Eb & Hb) _]%Forall_cons].
  unfold update_list. rewrite Eb. cbn [mbind option_bind]. destruct (clean_up_spec b Hb) as (b' & -> & Hb' & _).
  cbn [mbind option_bind]. eexists. split; [done|]. split; [done|]. eapply Forall_impl; [exact Ho1|].
  intros y (by_ & Ey & Hy). simpl. destruct (decide (changes y = changes x)) as [E|Hne].
  - rewrite E, list_lookup_insert_eq by by apply lookup_lt_Some in Eb. by exists b'.
  - rewrite list_lookup_insert_ne by done. by exists by_.
Qed.

(** A whole log: every watched table's change set ends up finished, with the
    moves if they are wanted. *)
Lemma run_refines bs log g :
  (forall n, n ∈ ns -> Z.of_nat n <= npos) ->
  tables info = [] -> Forall (fun l => exists b, bs !! changes l = Some b /\ ok b) (lists info) ->
  fold_option group_step log (old_group ns) = Some g ->
  exists o, run log (observe info bs) = Handled o /\
    forall t n rows, ns !! t = Some n -> g_tables g !! t = Some rows -> watched t = true ->
      (moves_watched t = true -> completed (Z.of_nat n) rows (builder_at o t)) /\
      forall i r, rows !! i = Some r -> (row_modified r = true <-> ix_has (modifications (builder_at o t)) (Z.of_nat i)).
Proof.
  intros Hns Ht Hl E.
  destruct (log_handled _ _ _ _ Hns (refines_start bs Hns Ht Hl) E) as (o & Eh & Hre).
  unfold run. rewrite Eh. simpl. unfold parse_complete.
  destruct (complete_tables_spec _ (re_all _ _ Hre)) as (l' & Ec & Hl'). rewrite Ec. cbn [mbind option_bind].
  destruct (clean_lists_spec (set_info (set_tables l' (m_info o)) o) (lists (m_info o))) as (o' & Ef & Hi);
    [apply (re_lists _ _ Hre)|].
  change (lists (m_info (set_info (set_tables l' (m_info o)) o))) with (lists (m_info o)). rewrite Ef.
  exists o'. split; [done|]. intros t n rows Hn Hr Hw. pose proof (re_tables _ _ Hre t n rows Hn Hr Hw) as Hok.
  destruct (recorded_complete _ _ _ _ Hok) as (b' & Eb & _ & Hco). enough (builder_at o' t = b') as -> by done.
  unfold builder_at in *. rewrite Hi. simpl. destruct (tables (m_info o) !! t) as [b|] eqn:Etb.
  - destruct (Forall2_lookup_l _ _ _ _ _ Hl' Etb) as (b2 & -> & E2). simpl in *. congruence.
  - rewrite (proj2 (lookup_ge_None l' t)); [simpl in *; rewrite parse_complete_empty in Eb; congruence|].
    apply lookup_ge_None in Etb. by rewrite <- (Forall2_length _ _ _ Hl').
Qed.
End log_rows.

(** ** Observed rows *)
Lemma completed_lookup `{IndexSetLaws IS} N rows (b : CollectionChangeBuilder IS) idx :
  completed N rows b -> 0 <= idx < N ->
  exists r, Kvo.new_row_ndx b idx = Some r /\
    match r with
    | inr j => exists x, rows !! Z.to_nat j = Some x /\ row_old x = Some idx /\
        (row_modified x = true <-> ix_has (modifications b) j)
    | inl _ => forall x, x ∈ rows -> row_old x <> Some idx
    end.
Proof.
  intros Hb Hi. destruct (new_row_ndx_spec b idx (co_ok _ _ _ Hb) (co_sorted _ _ _ Hb)) as (r & E & Hr); [lia|].
  exists r. split; [done|]. destruct r as [u|j].
  - intros x (k & Ek)%list_elem_of_lookup_1 Ex. destruct (co_rows _ _ _ Hb _ _ Ek) as [Et _].
    apply (Hr (Z.of_nat k)); [lia|congruence].
  - destruct Hr as [Hj Et]. pose proof (co_gone _ _ _ Hb j idx Hj Et ltac:(lia)) as Hlt.
    destruct (lookup_lt_is_Some_2 rows (Z.to_nat j)) as [x Ex]; [lia|]. exists x. split; [done|].
    pose proof (co_rows _ _ _ Hb _ _ Ex) as Hx. rewrite Z2Nat.id in Hx by lia. destruct Hx as [Ho Hm]. split; [congruence|done].
Qed.

(** ** What a log does to the observer's list entries and its selection

    The rows the observed lists belong to move with the instructions, and the
    observer raises a schema error on exactly the logs the validator rejects. *)
Import LogObserver.

Section lists.
Context `{IndexSetOps IS} `{BuildMode}.
Implicit Types (o : TransactLogObserver IS).

(** ** What calls through pointers leave alone *)
Definition same_selection o o' : Prop :=
  m_current_table o' = m_current_table o /\ m_is_top_level_table o' = m_is_top_level_table o /\
  lists (m_info o') = lists (m_info o).

Lemma update_list_selection loc f o o' : update_list loc f o = Some o' -> same_selection o o'.
Proof.
  unfold update_list. destruct (m_builders o !! loc) as [b|]; [|done]. simpl.
  destruct (f b); [|done]. by intros [= <-].
Qed.

Lemma update_target_selection p f o o' : update_target p f o = Some o' -> same_selection o o'.
Proof.
  destruct p as [e i|loc]; simpl; [|apply update_list_selection]. unfold realm_assert.
  destruct (e =? m_epoch o)%nat; [|done]. simpl. destruct (tables (m_info o) !! i) as [b|]; [|done]. simpl.
  destruct (f b); [|done]. by intros [= <-].
Qed.

Lemma if_active_selection p f o o' : if_active p f o = Some o' -> same_selection o o'.
Proof. destruct p; [apply update_target_selection|]. by intros [= <-]. Qed.

Lemma if_active_list_selection f o o' : if_active_list f o = Some o' -> same_selection o o'.
Proof. unfold if_active_list. destruct (m_active_list o); [apply update_list_selection|]. by intros [= <-]. Qed.

Lemma mark_dirty_selection row col o o' : mark_dirty row col o = Some o' -> same_selection o o'.
Proof. apply if_active_selection. Qed.

(** ** The entries of the lists *)

(** What a row instruction does to the entry of a list; [None]: it is dropped *)
Definition list_after (tbl : nat) (i : Instruction) (l : ListChangeInfo) : option ListChangeInfo :=
  if negb (table_ndx l =? tbl)%nat then Some l
  else match i with
  | insert_empty_rows r n _ _ => Some (with_row (fun x => if r <=? x then x + n else x) l)
  | add_row_with_key r _ => Some (with_row (fun x => if r <=? x then x + 1 else x) l)
  | erase_rows r _ prior true =>
    if row_ndx l =? r then None
    else Some (with_row (fun x => if x =? (prior - 1) mod 2 ^ 64 then r else x) l)
  | swap_rows a b => Some (with_row (fun x => if x =? a then b else if x =? b then a else x) l)
  | merge_rows f t => Some (with_row (fun x => if x =? f then t else x) l)
  | clear_table => None
  | _ => Some l
  end.

Definition row_instruction (i : Instruction) : bool :=
  match i with
  | insert_empty_rows _ _ _ _ | add_row_with_key _ _ | erase_rows _ _ _ _ | swap_rows _ _ | merge_rows _ _
  | clear_table | set_cell _ _ _ _ | update_cell _ _ _ | set_int_unique _ _ | set_string_unique _ _
  | link_list_set _ | link_list_insert _ | link_list_erase _ _ | link_list_nullify _ _ | link_list_swap _ _
  | link_list_clear _ | link_list_move _ _ | select_link_list _ _ => true
  | _ => false
  end.

(** No list of the erased row has another entry after it. *)
Definition erased_last (tbl : nat) (r : Z) (l : list ListChangeInfo) : Prop :=
  forall k x, l !! k = Some x -> table_ndx x = tbl -> row_ndx x = r -> S k = length l.

Lemma omap_map {A B} (f : A -> B) (g : A -> option B) (l : list A) : (forall x, g x = Some (f x)) -> omap g l = f <$> l.
Proof. intros E. induction l as [|x l IH]; [done|]. csimpl. by rewrite E, IH. Qed.

Lemma omap_none {A} (P : A -> Prop) `{!forall x, Decision (P x)} (g : A -> option A) (l : list A) :
  (forall x, g x = if decide (P x) then Some x else None) -> omap g l = filter P l.
Proof.
  intros E. induction l as [|x l IH]; [done|]. csimpl. rewrite E, filter_cons. case_decide; by rewrite IH.
Qed.

Lemma erase_lists_spec tbl r last_ pre post :
  (forall k x, post !! k = Some x -> table_ndx x = tbl -> row_ndx x = r -> S k = length post) ->
  erase_lists tbl r last_ (length post) (length pre) (pre ++ post) =
    pre ++ omap (fun l => if negb (table_ndx l =? tbl)%nat then Some l
                          else if row_ndx l =? r then None
                          else Some (with_row (fun x => if x =? last_ then r else x) l)) post.
Proof.
  revert pre. induction post as [|x post IH]; intros pre Hlast; [done|].
  cbn [length erase_lists]. rewrite list_lookup_middle by done.
  assert (Hnext : forall y, erase_lists tbl r last_ (length post) (length pre + 1) (pre ++ y :: post) =
    (pre ++ [y]) ++ omap (fun l => if negb (table_ndx l =? tbl)%nat then Some l
       else if row_ndx l =? r then None else Some (with_row (fun x => if x =? last_ then r else x) l)) post).
  { intros y. rewrite <- IH.
    - rewrite length_app. simpl. by rewrite <- app_assoc.
    - intros k z Ez Et Er. specialize (Hlast (S k) z Ez Et Er). simpl in Hlast. lia. }
  simpl. destruct (Nat.eqb_spec (table_ndx x) tbl) as [Et|]; simpl; [|by rewrite Hnext, <- app_assoc].
  destruct (Z.eqb_spec (row_ndx x) r) as [Er|].
  - specialize (Hlast 0%nat x eq_refl Et Er). destruct post; [|done]. simpl.
    rewrite length_app. simpl. rewrite (proj2 (Nat.ltb_ge _ _)) by lia.
    rewrite length_app. simpl. replace (length pre + 1 - 1)%nat with (length pre) by lia.
    by rewrite take_app_length, app_nil_r.
  - destruct (Z.eqb_spec (row_ndx x) last_) as [El|].
    + rewrite insert_middle, Hnext, <- app_assoc. do 3 f_equal. unfold with_row. by rewrite El, Z.eqb_refl.
    + rewrite Hnext, <- app_assoc. do 3 f_equal. destruct x. unfold with_row. simpl in *.
      by rewrite (proj2 (Z.eqb_neq _ _)).
Qed.

Lemma map_rows_lists f o (g : ListChangeInfo -> option ListChangeInfo) :
  m_is_top_level_table o = true ->
  (forall l, g l = Some (if (table_ndx l =? m_current_table o)%nat then with_row f l else l)) ->
  lists (m_info (map_rows f o)) = omap g (lists (m_info o)).
Proof. intros Ht Hg. unfold map_rows. rewrite Ht. simpl. symmetry. by apply omap_map. Qed.

(** The handlers that call the builder and then adjust the rows of the lists *)
Lemma call_then_map p f h o o' g :
  m_is_top_level_table o = true ->
  (forall l, g l = Some (if (table_ndx l =? m_current_table o)%nat then with_row h l else l)) ->
  (o ← if_active p f o; Some (map_rows h o)) = Some o' ->
  lists (m_info o') = omap g (lists (m_info o)) /\ m_current_table o' = m_current_table o.
Proof.
  intros Ht Hg. destruct (if_active p f o) as [o1|] eqn:E; [|done]. intros [= <-].
  apply if_active_selection in E as (Ec & El & Els). rewrite (map_rows_lists h o1 g); [|congruence|by rewrite Ec].
  rewrite Els. split; [done|]. unfold map_rows. by destruct (m_is_top_level_table o1).
Qed.

Lemma keeps_lists tbl i o o' :
  (forall l, list_after tbl i l = Some l) -> same_selection o o' ->
  lists (m_info o') = omap (list_after tbl i) (lists (m_info o)) /\ m_current_table o' = m_current_table o.
Proof.
  intros Hl (Ec & _ & ->). split; [|done]. rewrite (omap_map id) by done. by rewrite list_fmap_id.
Qed.

Lemma kept tbl i l :
  match i with
  | insert_empty_rows _ _ _ _ | add_row_with_key _ _ | erase_rows _ _ _ true | swap_rows _ _ | merge_rows _ _
  | clear_table => False
  | _ => True
  end -> list_after tbl i l = Some l.
Proof. intros Hi. unfold list_after. destruct (negb _); [done|]. destruct i as [| | | | | | | | |? ? ? []| | | | | | | | | | | | | | | | | | | | | | | | | ]; done. Qed.

Lemma handled_some {A} (r : option A) a : handled r = Handled a -> r = Some a.
Proof. destruct r; [|done]. by intros [= ->]. Qed.

Lemma row_instruction_lists o i o' :
  row_instruction i = true -> m_is_top_level_table o = true ->
  (forall r n prior, i = erase_rows r n prior true -> erased_last (m_current_table o) r (lists (m_info o))) ->
  handle o i = Handled o' ->
  lists (m_info o') = omap (list_after (m_current_table o) i) (lists (m_info o)) /\
  m_current_table o' = m_current_table o.
Proof.
  intros Hi Ht He. unfold handle.
  destruct i; try done; cbn [observer_handle mixin_handle]; intros E%handled_some.
  - apply keeps_lists; [intros; by apply kept|]. unfold mark_dirty_instr in E. case_decide; [by eapply mark_dirty_selection|].
    by injection E as <-.
  - apply keeps_lists; [intros; by apply kept|]. unfold mark_dirty_instr in E. rewrite decide_True in E by done.
    by eapply mark_dirty_selection.
  - apply keeps_lists; [intros; by apply kept|]. by injection E as <-.
  - apply keeps_lists; [intros; by apply kept|]. by injection E as <-.
  - apply keeps_lists; [intros; by apply kept|]. unfold on_select_link_list in E.
    destruct (mark_dirty row col o) as [o1|] eqn:E1; [|done]. injection E as <-. by apply mark_dirty_selection in E1.
  - eapply call_then_map; [done| |exact E]. intros l. unfold list_after. by destruct (_ =? _)%nat.
  - eapply call_then_map; [done| |exact E]. intros l. unfold list_after. by destruct (_ =? _)%nat.
  - unfold on_erase_rows in E. destruct unordered; cbn [negb] in E.
    2: { apply keeps_lists; [intros; by apply kept|]. by apply if_active_selection in E. }
    destruct (if_active _ _ o) as [o1|] eqn:E1; [|done]. cbn [mbind option_bind] in E.
    apply if_active_selection in E1 as (Ec & El & Els). rewrite El, Ht in E. injection E as <-.
    cbn [m_info set_info set_lists lists m_current_table]. split; [|done].
    rewrite Ec, Els. pose proof (He _ _ _ eq_refl) as Hlast.
    rewrite (erase_lists_spec _ _ _ [] _ Hlast). simpl.
    apply list_omap_ext, Forall_Forall2_diag, Forall_true. intros l. unfold list_after.
    destruct (negb _); [done|]. by destruct (_ =? _).
  - unfold on_swap_rows, realm_assert in E. destruct (row_ndx_1 <? row_ndx_2); [|done]. cbn [mbind option_bind] in E.
    rewrite Ht in E. eapply call_then_map; [done| |exact E]. intros l. unfold list_after. by destruct (_ =? _)%nat.
  - eapply call_then_map; [done| |exact E]. intros l. unfold list_after. by destruct (_ =? _)%nat.
  - unfold on_clear_table in E. destruct (if_active _ _ o) as [o1|] eqn:E1; [|done]. cbn [mbind option_bind] in E.
    apply if_active_selection in E1 as (Ec & El & Els). rewrite El, Ht in E. injection E as <-. cbn. split; [|done].
    rewrite Ec, Els. symmetry. apply omap_none. intros l. unfold list_after. by destruct (_ =? _)%nat.
  - apply keeps_lists; [intros; by apply kept|]. by eapply if_active_list_selection.
  - apply keeps_lists; [intros; by apply kept|]. by eapply if_active_list_selection.
  - apply keeps_lists; [intros; by apply kept|]. by eapply if_active_list_selection.
  - apply keeps_lists; [intros; by apply kept|]. by eapply if_active_list_selection.
  - apply keeps_lists; [intros; by apply kept|]. unfold on_link_list_swap in E.
    destruct (on_link_list_set index1 o) as [o1|] eqn:E1; [|done].
    apply if_active_list_selection in E1 as (? & ? & ?), E as (? & ? & ?). split_and!; congruence.
  - apply keeps_lists; [intros; by apply kept|]. by eapply if_active_list_selection.
  - apply keeps_lists; [intros; by apply kept|]. by eapply if_active_list_selection.
Qed.

(** ** The validator *)

(** [keeps f]: a handler that leaves the selected table alone *)
Definition keeps (f : TransactLogObserver IS -> option (TransactLogObserver IS)) : Prop :=
  forall o o', f o = Some o' -> m_current_table o' = m_current_table o.

Lemma keeps_active p f : keeps (if_active p f).
Proof. intros o o' E%if_active_selection. apply E. Qed.

Lemma keeps_active_list f : keeps (if_active_list f).
Proof. intros o o' E%if_active_list_selection. apply E. Qed.

Lemma keeps_alter_columns f : keeps (alter_columns f).
Proof.
  intros o o'. unfold alter_columns. destruct (_ !! m_current_table o) as [c|]; [|done]. simpl.
  destruct (f c); [|done]. by intros [= <-].
Qed.

Lemma keeps_map_rows f o : m_current_table (map_rows f o) = m_current_table o.
Proof. unfold map_rows. by destruct (m_is_top_level_table o). Qed.

Lemma active_keeps_current p f o o' : if_active p f o = Some o' -> m_current_table o' = m_current_table o.
Proof. apply keeps_active. Qed.

Lemma on_select_table_current t len path o o' :
  on_select_table t len path o = Some o' -> m_current_table o' = t.
Proof.
  unfold on_select_table. destruct (1 <? len)%nat; [by intros [= <-]|].
  destruct (negb _ && _); [by intros [= <-]|]. set (o1 := set_active_table _ _).
  assert (E1 : m_current_table o1 = t) by (unfold o1, ensure_table; simpl; by destruct (_ <=? _)%nat).
  destruct (len =? 1)%nat; [|by intros [= <-]]. unfold select_subtable.
  destruct (path !! 0%nat) as [col|]; [|done]. simpl. destruct (path !! 1%nat) as [row|]; [|done]. simpl.
  destruct (mark_dirty row (Z.to_nat col) o1) as [o2|] eqn:E2; [|done]. simpl. apply mark_dirty_selection in E2 as (E2 & _ & _).
  destruct (find_list _ _ _ _); intros [= <-]; simpl; congruence.
Qed.

Ltac by_calls E :=
  repeat match type of E with
  | (match ?x with _ => _ end) = _ => let Ex := fresh "Ex" in destruct x eqn:Ex; cbn [mbind option_bind] in E
  | mbind _ ?x = Some _ => let Ex := fresh "Ex" in destruct x eqn:Ex; [cbn [mbind option_bind] in E|discriminate E]
  end; simplify_eq;
  repeat match goal with
  | Ex : if_active _ _ _ = Some _ |- _ => apply active_keeps_current in Ex
  | Ex : if_active_list _ _ = Some _ |- _ => apply keeps_active_list in Ex
  | Ex : alter_columns _ _ = Some _ |- _ => apply keeps_alter_columns in Ex
  | Ex : mark_dirty _ _ _ = Some _ |- _ => apply mark_dirty_selection in Ex as (Ex & _ & _)
  end; simpl in *; rewrite ?keeps_map_rows; congruence.

(** The observer goes on exactly as the validator does, as long as its own
    work does not fail. *)
Lemma handle_validates o i :
  match handle o i with
  | Handled o' => validate (m_current_table o) i = Handled (m_current_table o')
  | UnsupportedSchemaChange => validate (m_current_table o) i = UnsupportedSchemaChange
  | Failed => True
  end.
Proof.
  assert (Hok : forall r t, (forall o', r = Some o' -> m_current_table o' = t) ->
    match handled r with Handled o' => Handled (A := nat) t = Handled (m_current_table o')
    | UnsupportedSchemaChange => Handled (A := nat) t = UnsupportedSchemaChange | Failed => True end).
  { intros [o'|] t Ht; simpl; [by rewrite (Ht o')|done]. }
  unfold handle, validate.
  destruct i; cbn [observer_handle mixin_handle validation_handle]; try done; unfold mark_dirty_instr;
    repeat case_decide; try (apply Hok; intros o' E); try done; try by_calls E.
  all: try (unfold on_select_link_list, on_link_list_set, on_link_list_insert, on_link_list_erase, on_link_list_swap,
    on_link_list_clear, on_link_list_move, on_insert_empty_rows, on_erase_rows, on_swap_rows, on_move_row, on_merge_rows,
    on_clear_table, on_insert_column, on_move_column, on_link_list_set, realm_assert in E; by_calls E).
  - by eapply on_select_table_current.
  - unfold on_move_group_level_table in E. by_calls E.
Qed.

Lemma run_validates log o :
  match handle_all handle log o with
  | Handled o' => handle_all validate log (m_current_table o) = Handled (m_current_table o')
  | UnsupportedSchemaChange => handle_all validate log (m_current_table o) = UnsupportedSchemaChange
  | Failed => True
  end.
Proof.
  revert o. induction log as [|i log IH]; intros o; [done|]. simpl. pose proof (handle_validates o i) as Hi.
  destruct (handle o i) as [o1| |]; simpl; [|by rewrite Hi|done]. rewrite Hi. simpl. apply IH.
Qed.
End lists.
