(* ===== verification/TransactTheorems.v ===== *)
(** * Theorems about the transaction log observers

    The row, column and table instructions of a log are followed exactly, the
    observed rows are found again, the assignments reported for moved list
    entries are the right ones when no two moved entries are adjacent, and the
    observer accepts the logs the validator accepts. *)
From stdpp Require Import gmap sorting.
From S2P Require Import Prelude.
From S2P Require Import RangeList.
From S2P Require Import ChunkedVector.
From S2P Require Import IndexSets.
From S2P Require Import IndexSetInterface.
From S2P Require Import ChangeBuilder.
From S2P Require Import ChangeBuilderFacts.
From S2P Require Import TransactLog.
From S2P Require Import KvoAdapter.
From S2P Require Import SchemaTracking.
From S2P Require Import KvoFacts.
From S2P Require Import TableRows.
From S2P Require Import LogRows.
Import LogObserver.

Lemma handle_all_app {A} (h : A -> Instruction -> Outcome A) log log' a :
  handle_all h (log ++ log') a = outcome_bind (handle_all h log a) (handle_all h log').
Proof.
  revert a. induction log as [|i log IH]; intros a; [done|]. simpl. destruct (h a i); [apply IH|done|done].
Qed.

Section theorems.
Context `{IndexSetLaws IS} `{BuildMode}.
Implicit Types (o : TransactLogObserver IS) (b : CollectionChangeBuilder IS).

(** C17: a log of the row instructions core writes for top-level tables (rows
    inserted at the end, erased by moving the last one over them, swapped,
    cleared, and cells set; [row_step] has no other) is handled without any
    assertion failing, whichever tables it selects in between. Once it is
    complete, every observed table's change set says which rows were modified,
    and gives each row its old position if the moves of the table are needed
    too. Moving rows, merging them, erasing them in order and inserting them
    before others are not such instructions. *)
Theorem log_refines_rows info (bs : list (CollectionChangeBuilder IS)) ns log g :
  (forall n, n ∈ ns -> Z.of_nat n <= npos) ->
  tables info = [] -> Forall (fun l => exists b, bs !! changes l = Some b /\ ok b) (lists info) ->
  fold_option group_step log (old_group ns) = Some g ->
  exists o, run log (observe info bs) = Handled o /\
    forall t n rows i r, ns !! t = Some n -> g_tables g !! t = Some rows -> watched info t = true ->
      rows !! i = Some r ->
      (moves_watched info t = true -> tracks (builder_at o t) (Z.of_nat i) = row_old r) /\
      (row_modified r = true <-> ix_has (modifications (builder_at o t)) (Z.of_nat i)).
Proof.
  intros Hns Ht Hl E. destruct (run_refines info ns bs log g Hns Ht Hl E) as (o & Er & Hco).
  exists o. split; [done|]. intros t n rows i r Hn Hr Hw Ei. destruct (Hco t n rows Hn Hr Hw) as [Hmv Hmod].
  split; [|by apply Hmod]. intros Hm. by apply (co_rows _ _ _ (Hmv Hm)).
Qed.

(** After a log of row instructions, looking an observed row up in its
    table's finished change set finds the row's new position, and reports the
    row as deleted exactly if it is in the table no more. *)
Theorem observed_row_found info (bs : list (CollectionChangeBuilder IS)) ns log g t n rows idx :
  (forall n, n ∈ ns -> Z.of_nat n <= npos) ->
  tables info = [] -> Forall (fun l => exists b, bs !! changes l = Some b /\ ok b) (lists info) ->
  fold_option group_step log (old_group ns) = Some g ->
  ns !! t = Some n -> g_tables g !! t = Some rows -> watched info t = true -> moves_watched info t = true -> 0 <= idx < Z.of_nat n ->
  exists o r, run log (observe info bs) = Handled o /\ Kvo.new_row_ndx (builder_at o t) idx = Some r /\
    match r with
    | inr j => exists x, rows !! Z.to_nat j = Some x /\ row_old x = Some idx /\
        (row_modified x = true <-> ix_has (modifications (builder_at o t)) j)
    | inl _ => forall x, x ∈ rows -> row_old x <> Some idx
    end.
Proof.
  intros Hns Ht Hl E Hn Hr Hw Hm Hi. destruct (run_refines info ns bs log g Hns Ht Hl E) as (o & Er & Hco).
  destruct (completed_lookup _ _ _ _ (proj1 (Hco t n rows Hn Hr Hw) Hm) Hi) as (r & Ek & Hk). by exists o, r.
Qed.

(** through any insertions and moves of columns, the recorded column
    indices give every column its original index, new columns none, and the
    entries of the table's lists follow their columns. *)
Theorem column_origins t n info (bs : list (CollectionChangeBuilder IS)) log cs :
  column_indices info !! t = None -> Z.of_nat (n + length log) < 2 ^ 61 ->
  fold_option column_step log (Some <$> seq 0 n) = Some cs ->
  exists o, handle_all handle ([select_table t 0 []; select_descriptor 0] ++ log) (observe info bs) = Handled o /\
    (forall i c, cs !! i = Some c -> Kvo.original_column (column_indices (m_info o) !! t) i = column_id c) /\
    Forall2 (same_list t n cs) (lists info) (lists (m_info o)).
Proof.
  intros Hc Hw E. destruct (at_schema_start t n info bs Hc ltac:(lia)) as (o1 & E1 & Hat1).
  destruct (column_steps_handled _ _ _ log _ _ _ Hat1 E) as (o2 & E2 & [Ht _ _ (_ & _ & Htl) Hls]).
  { by rewrite length_fmap, length_seq. }
  exists o2. rewrite handle_all_app, E1. split; [exact E2|]. split; [|exact Hls]. intros i c Ei.
  rewrite original_column_default. rewrite <- Ht. by apply Htl.
Qed.

(** through any insertions and moves of tables, every original table's
    change set, flags and lists are found at its current index. *)
Theorem table_positions n info (bs : list (CollectionChangeBuilder IS)) log ts :
  table_indices info = [] -> fold_option table_step log (Some <$> seq 0 n) = Some ts ->
  exists o, handle_all handle log (observe info bs) = Handled o /\
    (forall k, (k < n)%nat -> (k < length (table_modifications_needed info))%nat ->
       ts !! Kvo.new_table_ndx (m_info o) k = Some (Some k) /\
       builder_at o (Kvo.new_table_ndx (m_info o) k) = default ChangeBuilder.empty_builder (tables info !! k) /\
       flag (table_modifications_needed (m_info o)) (Kvo.new_table_ndx (m_info o) k) =
         flag (table_modifications_needed info) k) /\
    Forall2 (moved_list n ts) (lists info) (lists (m_info o)).
Proof.
  intros Hi E. destruct (table_steps_handled n info log _ _ (observe info bs) (rearranged_start n info Hi) E)
    as (o & Eo & [_ _ Hx Ht Hm _ Hl]).
  exists o. split; [done|]. split; [|done]. intros k Hk Hkl. specialize (Hx k Hk Hkl). split; [done|].
  split; [by rewrite (Ht _ _ Hx : builder_at o _ = _)|by rewrite (Hm _ _ Hx : flag _ _ = _)].
Qed.

(** the entries of the lists follow their rows through every row
    instruction, and those of erased rows are dropped, as long as an erased
    row has at most one entry and that is the last one. *)
Theorem lists_follow_rows o i o' :
  row_instruction i = true -> m_is_top_level_table o = true ->
  (forall r n prior, i = erase_rows r n prior true -> erased_last (m_current_table o) r (lists (m_info o))) ->
  handle o i = Handled o' ->
  lists (m_info o') = omap (list_after (m_current_table o) i) (lists (m_info o)).
Proof. intros Hi Ht He E. by destruct (row_instruction_lists o i o' Hi Ht He E). Qed.

(** for a list whose entries were only moved, no two of them to adjacent
    positions, the reported assignments are exactly the modified and deleted
    positions and those that hold another entry than before. *)
Theorem list_moves_reported b size c :
  only_moves b ->
  exists s, Kvo.list_kind b size c = Some (mkColumnInfo (initial_column_index c) KindSet s) /\
    forall j, ix_has s j <->
      ix_has (modifications b) j \/ ix_has (deletions b) j \/ origin (deletions b) (insertions b) j <> Some j.
Proof. apply list_kind_moves. Qed.

(** as long as its own work does not fail, the observer throws a schema
    error on exactly the logs the validator rejects, and otherwise ends with
    the same table selected. *)
Theorem observer_validates log o :
  match handle_all handle log o with
  | Handled o' => handle_all validate log (m_current_table o) = Handled (m_current_table o')
  | UnsupportedSchemaChange => handle_all validate log (m_current_table o) = UnsupportedSchemaChange
  | Failed => True
  end.
Proof. apply run_validates. Qed.
End theorems.

(** ** Concrete runs *)
Section witnesses.
#[local] Existing Instance debug_chunk_size.
#[local] Instance debug_build_log : BuildMode := {| realm_debug := true |}.

Definition all_tables : TransactionChangeInfo crv := mkInfo [] [] [] [] [] [] true false.

(** Two tables of three and two rows: a row is inserted, two are swapped, one
    is erased, one modified, and the other table loses its first row. *)
Definition sample_log : list Instruction :=
  [select_table 0 0 []; insert_empty_rows 3 1 3 false; swap_rows 0 2; erase_rows 1 1 4 true;
   set_cell set_int 0 2 instr_Set; select_table 1 0 []; erase_rows 0 1 2 true].
Definition sample_group : group :=
  default (old_group []) (fold_option group_step sample_log (old_group [3%nat; 2%nat])).

Lemma small_tables n : n ∈ [3%nat; 2%nat] -> Z.of_nat n <= npos.
Proof. unfold npos. intros [->|[->|Hn%elem_of_nil]%elem_of_cons]%elem_of_cons; [lia|lia|done]. Defined.

(** Both tables are observed, the moves of the first one only. *)
Definition one_moving : TransactionChangeInfo crv := mkInfo [true; true] [true; false] [] [] [] [] false false.

Lemma log_refines_rows_witness :
  exists o, run sample_log (observe one_moving []) = Handled o /\
    forall t n rows i r, [3%nat; 2%nat] !! t = Some n -> g_tables sample_group !! t = Some rows ->
      watched one_moving t = true -> rows !! i = Some r ->
      (moves_watched one_moving t = true -> tracks (builder_at o t) (Z.of_nat i) = row_old r) /\
      (row_modified r = true <-> ix_has (modifications (builder_at o t)) (Z.of_nat i)).
Proof. apply (log_refines_rows one_moving []); [exact small_tables|reflexivity|constructor|vm_compute; reflexivity]. Defined.

Lemma observed_row_found_witness :
  exists o r, run sample_log (observe all_tables []) = Handled o /\
    Kvo.new_row_ndx (builder_at o 0) 0 = Some r /\
    match r with
    | inr j => exists x, default [] (g_tables sample_group !! 0%nat) !! Z.to_nat j = Some x /\ row_old x = Some 0 /\
        (row_modified x = true <-> ix_has (modifications (builder_at o 0)) j)
    | inl _ => forall x, x ∈ default [] (g_tables sample_group !! 0%nat) -> row_old x <> Some 0
    end.
Proof.
  apply (observed_row_found all_tables [] [3%nat; 2%nat] sample_log sample_group 0 3);
    [exact small_tables|reflexivity|constructor|vm_compute; reflexivity
    |reflexivity|vm_compute; reflexivity|reflexivity|reflexivity|lia].
Defined.

(** A column is inserted before the second of three, then the last is moved to the front. *)
Definition column_log : list Instruction := [insert_column 1; move_column 3 0].

Lemma column_origins_witness :
  exists o, handle_all handle ([select_table 0 0 []; select_descriptor 0] ++ column_log)
      (observe all_tables []) = Handled o /\
    (forall i c, [Some 2%nat; Some 0%nat; None; Some 1%nat] !! i = Some c ->
       Kvo.original_column (column_indices (m_info o) !! 0%nat) i = column_id c) /\
    Forall2 (same_list 0 3 [Some 2%nat; Some 0%nat; None; Some 1%nat]) (lists all_tables) (lists (m_info o)).
Proof. apply column_origins; [reflexivity|vm_compute; reflexivity|reflexivity]. Defined.

Definition two_tables : TransactionChangeInfo crv := mkInfo [true; false] [true; false] [] [] [] [] false false.
Definition table_log : list Instruction := [insert_group_level_table 0; move_group_level_table 2 1].

Lemma table_positions_witness :
  exists o, handle_all handle table_log (observe two_tables []) = Handled o /\
    (forall k, (k < 2)%nat -> (k < length (table_modifications_needed two_tables))%nat ->
       [None; Some 1%nat; Some 0%nat] !! Kvo.new_table_ndx (m_info o) k = Some (Some k) /\
       builder_at o (Kvo.new_table_ndx (m_info o) k) = default ChangeBuilder.empty_builder (tables two_tables !! k) /\
       flag (table_modifications_needed (m_info o)) (Kvo.new_table_ndx (m_info o) k) =
         flag (table_modifications_needed two_tables) k) /\
    Forall2 (moved_list 2 [None; Some 1%nat; Some 0%nat]) (lists two_tables) (lists (m_info o)).
Proof. apply table_positions; [reflexivity|reflexivity]. Defined.

(** The lists of rows 4 and 2; row 2 is erased and the last row, 6, moves there. *)
Definition two_lists : TransactLogObserver crv :=
  observe (mkInfo [] [] [mkListChangeInfo 0 6 1 0; mkListChangeInfo 0 2 1 1] [] [] [] false false) [].

Definition two_lists_left : TransactLogObserver crv :=
  match handle two_lists (erase_rows 2 1 7 true) with Handled o => o | _ => two_lists end.

Lemma lists_follow_rows_witness :
  handle two_lists (erase_rows 2 1 7 true) = Handled two_lists_left /\
  lists (m_info two_lists_left) = omap (list_after 0 (erase_rows 2 1 7 true)) (lists (m_info two_lists)).
Proof.
  split; [reflexivity|].
  apply (lists_follow_rows two_lists (erase_rows 2 1 7 true)); [reflexivity|reflexivity| |reflexivity].
  intros r n prior Ei [|[|k]] x Ex Et Er; injection Ei as <- _ _; simpl in *; [|reflexivity|discriminate Ex].
  injection Ex as <-. simpl in Er. discriminate Er.
Defined.

(** Row 5 moved to the front, and row 1 to position 4. *)
Definition moved_list_builder : CollectionChangeBuilder crv :=
  default ChangeBuilder.empty_builder
    (b ← ChangeBuilder.move ChangeBuilder.empty_builder 5 0; ChangeBuilder.move b 2 4).

Lemma moved_list_only_moves : only_moves moved_list_builder.
Proof.
  split.
  - unfold moved_list_builder.
    destruct (move_spec (IS := crv) ChangeBuilder.empty_builder 5 0 empty_builder_ok) as (b & -> & Hb & _);
      [unfold npos; lia|lia|lia|]. cbn [mbind option_bind].
    destruct (move_spec b 2 4 Hb) as (b' & -> & Hb' & _); [unfold npos; lia|lia|lia|]. exact Hb'.
  - vm_compute. discriminate.
  - vm_compute. repeat constructor.
  - reflexivity.
  - reflexivity.
  - assert (Ed : ix_ranges (deletions moved_list_builder) = [(1, 2); (5, 6)]) by reflexivity.
    assert (Ei : ix_ranges (insertions moved_list_builder) = [(0, 1); (4, 5)]) by reflexivity.
    unfold ix_has. rewrite Ed, Ei. intros j Hj. simpl in Hj. lia.
  - vm_compute. reflexivity.
Defined.

Lemma list_moves_reported_witness :
  exists s, Kvo.list_kind moved_list_builder 6 Kvo.no_change = Some (mkColumnInfo npos KindSet s) /\
    forall j, ix_has s j <->
      ix_has (modifications moved_list_builder) j \/ ix_has (deletions moved_list_builder) j \/
      origin (deletions moved_list_builder) (insertions moved_list_builder) j <> Some j.
Proof. apply (list_moves_reported moved_list_builder 6 Kvo.no_change). exact moved_list_only_moves. Defined.

(** *** Where the code falls short *)

(** Two lists of the erased row, the second one last: it is moved into the
    slot of the first and not looked at again. *)
Theorem erased_list_stays :
  erase_lists 0 5 9 2 0 [mkListChangeInfo 0 5 0 0; mkListChangeInfo 0 5 1 1] = [mkListChangeInfo 0 5 1 1].
Proof. reflexivity. Qed.

(** Rows 2 and 5 of six moved to the front, next to each other: position 3
    holds what was at position 1, and is not reported. *)
Definition adjacent_moves : CollectionChangeBuilder crv :=
  default ChangeBuilder.empty_builder
    (b ← ChangeBuilder.move ChangeBuilder.empty_builder 2 0; ChangeBuilder.move b 5 1).

Theorem adjacent_moves_missed :
  tracks adjacent_moves 3 = Some 1 /\
  (ranges ∘ indices) <$> Kvo.list_kind adjacent_moves 6 Kvo.no_change = Some [(0, 3); (5, 6)].
Proof. vm_compute. repeat split. Qed.

(** A column is inserted into the first table, then a table before it: the
    column indices stay with the table's old index. *)
Theorem column_indices_stay :
  match handle_all handle [select_table 0 0 []; select_descriptor 0; insert_column 0; insert_group_level_table 0]
      (observe two_tables []) with
  | Handled o => Kvo.new_table_ndx (m_info o) 0 = 1%nat /\ column_indices (m_info o) !! 1%nat = None /\
      Kvo.original_column (column_indices (m_info o) !! 0%nat) 0 = npos
  | _ => False
  end.
Proof. vm_compute. repeat split. Qed.
End witnesses.
