(* ===== verification/DeepChange.v ===== *)
(** * Which rows changed, links included

    [DeepChangeChecker] of [impl/collection_notifier.cpp]: the tables reachable
    from a table, and the search along links, with its cache and its limit on
    the depth, for a modified row. *)
From S2P Require Import Prelude.
From S2P Require Import IndexSetInterface.
From S2P Require Import ChangeBuilder.
From S2P Require Import TransactLog.

(** ** The tables read, as the core library presents them

    A [Table const&] is a table of the group, known by its index, or the
    subtable of a cell, which has none. *)
Inductive Table := GroupTable (ndx : nat) | Subtable (id : nat).
#[global] Instance Table_eq_dec : EqDecision Table.
Proof. solve_decision. Defined.

Definition get_index_in_group (t : Table) : option nat :=
  match t with GroupTable ndx => Some ndx | Subtable _ => None end.

Inductive LinkType := not_a_link | type_Link | type_LinkList.
#[global] Instance LinkType_eq_dec : EqDecision LinkType.
Proof. solve_decision. Defined.

Class LinkedTables := {
  get_column_count : Table -> nat;
  get_column_type : Table -> nat -> LinkType;
  get_link_target : Table -> nat -> nat;
  is_null_link : Table -> nat -> Z -> bool;
  get_link : Table -> nat -> Z -> Z;
  get_linklist : Table -> nat -> Z -> list Z
}.

(** ** The data *)
Record OutgoingLink := mkOutgoingLink { col_of : nat; is_list_of : bool }.
#[global] Instance OutgoingLink_eq_dec : EqDecision OutgoingLink.
Proof. solve_decision. Defined.

Record RelatedTable := mkRelatedTable { related_ndx : nat; links : list OutgoingLink }.

#[global] Instance RelatedTable_eq_dec : EqDecision RelatedTable.
Proof. solve_decision. Defined.

(** [DeepChangeChecker::Path] *)
Record Path := mkPath { p_table : nat; p_row : Z; p_col : nat; depth_exceeded : bool }.

(** The fields of [DeepChangeChecker] that change; the others are parameters. *)
Record DeepChangeChecker {IS : Type} := mkChecker {
  m_not_modified : list IS;
  m_current_path : list Path
}.
Arguments DeepChangeChecker : clear implicits.
Arguments mkChecker {IS}.

(** [std::any_of] with a predicate that changes a state *)
Fixpoint any_of {A St} (p : A -> St -> option (bool * St)) (l : list A) (s : St) : option (bool * St) :=
  match l with
  | [] => Some (false, s)
  | x :: l => '(found, s) ← p x s; if found : bool then Some (true, s) else any_of p l s
  end.

Module Deep.

(** *** [find_related_tables] *)
Section related.
Context `{LinkedTables}.

Definition is_related (out : list RelatedTable) (ndx : nat) : bool :=
  existsb (fun tbl => related_ndx tbl =? ndx)%nat out.

(** [out[out_index].links.push_back(link)] *)
Definition push_link (out_index : nat) (link : OutgoingLink) (out : list RelatedTable) : option (list RelatedTable) :=
  tbl ← out !! out_index;
  Some (<[out_index := mkRelatedTable (related_ndx tbl) (links tbl ++ [link])]> out).

Fixpoint find_related_tables (fuel : nat) (out : list RelatedTable) (table : Table) : option (list RelatedTable) :=
  match fuel with
  | O => None
  | S fuel =>
    match get_index_in_group table with
    | None => Some out
    | Some table_ndx =>
      if is_related out table_ndx then Some out
      else
        let out_index := length out in
        fold_option (fun out i =>
          match get_column_type table i with
          | not_a_link => Some out
          | type =>
            out ← push_link out_index (mkOutgoingLink i (bool_decide (type = type_LinkList))) out;
            find_related_tables fuel out (GroupTable (get_link_target table i))
          end) (seq 0 (get_column_count table)) (out ++ [mkRelatedTable table_ndx []])
    end
  end.
End related.

(** *** The search *)
Section checker.
Context `{IndexSetOps IS} `{LinkedTables}.
Context (m_info : TransactionChangeInfo IS) (m_root_table : Table) (m_related_tables : list RelatedTable).
Abbreviation checker := (DeepChangeChecker IS).
Implicit Types (s : checker).

(** The constructor: the elements of the array are written before they are read *)
Definition new_checker : checker := mkChecker [] (replicate 4 (mkPath 0 0 0 false)).

Definition set_path (x : list Path) s : checker := mkChecker (m_not_modified s) x.
Definition set_not_modified (x : list IS) s : checker := mkChecker x (m_current_path s).

Definition exceed (p : Path) : Path := mkPath (p_table p) (p_row p) (p_col p) true.

(** [already_checking]: looks for the link among the first [depth] entries;
    marks the entries from there on, or pushes the link *)
Definition on_path (table_ndx : nat) (row_ndx : Z) (col : nat) (p : Path) : bool :=
  (p_table p =? table_ndx)%nat && (p_row p =? row_ndx) && (p_col p =? col)%nat.
Definition already_checking (table_ndx : nat) (row_ndx : Z) (depth : nat) (col : nat) s : bool * checker :=
  let path := m_current_path s in
  let match_ := find_if (on_path table_ndx row_ndx col) (take depth path) in
  if (match_ <? depth)%nat then
    (true, set_path (take match_ path ++ (exceed <$> drop match_ (take depth path)) ++ drop depth path) s)
  else (false, set_path (<[depth := mkPath table_ndx row_ndx col false]> path) s).

(** [check_outgoing_links]; [check] is [check_row] on the next level *)
Definition check_outgoing_links (check : Table -> Z -> checker -> option (bool * checker))
    (table_ndx : nat) (table : Table) (row_ndx : Z) (depth : nat) s : option (bool * checker) :=
  match m_related_tables !! find_if (fun tbl => related_ndx tbl =? table_ndx)%nat m_related_tables with
  | None => Some (false, s)
  | Some it =>
    any_of (fun link s =>
      let '(checking, s) := already_checking table_ndx row_ndx depth (col_of link) s in
      if checking : bool then Some (false, s)
      else
        let target := GroupTable (get_link_target table (col_of link)) in
        if negb (is_list_of link) then
          if is_null_link table (col_of link) row_ndx then Some (false, s)
          else check target (get_link table (col_of link) row_ndx) s
        else any_of (check target) (get_linklist table (col_of link) row_ndx) s) (links it) s
  end.

Definition table_modified (table_ndx : nat) (idx : Z) : option bool :=
  match tables m_info !! table_ndx with
  | Some b => ix_contains (modifications b) idx
  | None => Some false
  end.

(** [check_row]; [fuel] counts the levels that are left *)
Fixpoint check_row (fuel : nat) (depth : nat) (table : Table) (idx : Z) s : option (bool * checker) :=
  if (length (m_current_path s) <=? depth)%nat then Some (false, set_path (exceed <$> m_current_path s) s)
  else
    match fuel with
    | O => None
    | S fuel =>
      table_ndx ← get_index_in_group table;
      modified ← (if (0 <? depth)%nat then table_modified table_ndx idx else Some false);
      if modified : bool then Some (true, s)
      else
        let s := if (length (m_not_modified s) <=? table_ndx)%nat
                 then set_not_modified (vec_resize ix_nil (table_ndx + 1) (m_not_modified s)) s else s in
        known ← m_not_modified s !! table_ndx;
        skip ← ix_contains known idx;
        if skip : bool then Some (false, s)
        else
          '(ret, s) ← check_outgoing_links (check_row fuel (depth + 1)) table_ndx table idx depth s;
          if negb ret && ((depth =? 0)%nat || negb (default false (depth_exceeded <$> m_current_path s !! (depth - 1)%nat)))
          then
            known ← m_not_modified s !! table_ndx;
            known ← ix_add known idx;
            Some (ret, set_not_modified (<[table_ndx := known]> (m_not_modified s)) s)
          else Some (ret, s)
    end.

(** [operator()] *)
Definition check (ndx : Z) s : option (bool * checker) :=
  modified ← match get_index_in_group m_root_table with
             | Some root => table_modified root ndx
             | None => Some false
             end;
  if modified : bool then Some (true, s) else check_row 4 0 m_root_table ndx s.
End checker.

(** *** [CollectionNotifier::get_modification_checker]: the function it returns *)
Inductive ModificationChecker {IS : Type} :=
  | never_modified
  | modified_in (modifications : IS)
  | deep_checker (related : list RelatedTable) (c : DeepChangeChecker IS).
Arguments ModificationChecker : clear implicits.

Section modification_checker.
Context `{IndexSetOps IS} `{LinkedTables}.

(** [set_table]: the new [m_related_tables] *)
Definition set_table (fuel : nat) (table : Table) : option (list RelatedTable) :=
  find_related_tables fuel [] table.

Definition any_modified (info : TransactionChangeInfo IS) (tbl : RelatedTable) : bool :=
  match tables info !! related_ndx tbl with
  | Some b => negb (ix_empty (modifications b))
  | None => false
  end.

(** The notifier's [m_related_tables] after it, and the checker *)
Definition get_modification_checker (fuel : nat) (m_related_tables : list RelatedTable)
    (info : TransactionChangeInfo IS) (root_table : Table)
    : option (list RelatedTable * ModificationChecker IS) :=
  m_related_tables ← (if schema_changed info then set_table fuel root_table else Some m_related_tables);
  if negb (existsb (any_modified info) m_related_tables) then Some (m_related_tables, never_modified)
  else
    match m_related_tables with
    | [tbl] =>
      b ← tables info !! related_ndx tbl;
      Some (m_related_tables, modified_in (modifications b))
    | _ => Some (m_related_tables, deep_checker m_related_tables new_checker)
    end.

(** A call of the checker *)
Definition call_checker (info : TransactionChangeInfo IS) (root_table : Table) (row : Z)
    (c : ModificationChecker IS) : option (bool * ModificationChecker IS) :=
  match c with
  | never_modified => Some (false, c)
  | modified_in set => r ← ix_contains set row; Some (r, c)
  | deep_checker related s =>
    '(r, s) ← check info root_table related row s; Some (r, deep_checker related s)
  end.

Fixpoint call_checker_all (info : TransactionChangeInfo IS) (root_table : Table) (rows : list Z)
    (c : ModificationChecker IS) : option (list bool) :=
  match rows with
  | [] => Some []
  | row :: rows =>
    '(r, c) ← call_checker info root_table row c;
    rs ← call_checker_all info root_table rows c;
    Some (r :: rs)
  end.

(** [add_required_change_info]; [do_add] is the derived class's
    [do_add_required_change_info] *)
Definition add_required_change_info (do_add : TransactionChangeInfo IS -> TransactionChangeInfo IS * bool)
    (m_related_tables : list RelatedTable) (info : TransactionChangeInfo IS) : TransactionChangeInfo IS :=
  let '(info, wanted) := do_add info in
  if negb wanted || bool_decide (m_related_tables = []) then info
  else
    let max := foldr Nat.max 0%nat (related_ndx <$> m_related_tables) in
    let needed := table_modifications_needed info in
    let needed := if (length needed <=? max)%nat then vec_resize false (max + 1) needed else needed in
    LogObserver.set_needed
      (foldl (fun needed tbl => <[related_ndx tbl := true]> needed) needed m_related_tables)
      (table_moves_needed info) info.
End modification_checker.
End Deep.
