(* ===== verification/DeepSearch.v ===== *)
(** * The search along links is exact

    The reference is the set of rows from which a modified row can be reached
    along at most three links; [check_row] decides it although it remembers
    rows between calls, gives up at a fixed depth and cuts cycles. *)
From stdpp Require Import relations.
From S2P Require Import Prelude.
From S2P Require Import RangeList.
From S2P Require Import ChunkedVector.
From S2P Require Import IndexSets.
From S2P Require Import IndexSetInterface.
From S2P Require Import ChangeBuilder.
From S2P Require Import TransactLog.
From S2P Require Import DeepChange.

(** ** The tables reachable from a table

    [find_related_tables] ends, and finds every table reachable along links
    exactly once, each with all of its link columns. *)
Section related_tables.
Import Deep.
Context `{LinkedTables}.

Definition link_of (t : Table) (i : nat) : option OutgoingLink :=
  match get_column_type t i with
  | not_a_link => None
  | type => Some (mkOutgoingLink i (bool_decide (type = type_LinkList)))
  end.

(** The link columns of a table, and the tables they link to. *)
Definition table_links (t : Table) : list OutgoingLink := omap (link_of t) (seq 0 (get_column_count t)).
Definition table_link (a b : nat) : Prop :=
  exists l, l ∈ table_links (GroupTable a) /\ b = get_link_target (GroupTable a) (col_of l).

(** The entry is final: it has all the links, and their targets are listed. *)
Definition complete (out : list RelatedTable) (r : RelatedTable) : Prop :=
  links r = table_links (GroupTable (related_ndx r)) /\
  forall b, table_link (related_ndx r) b -> b ∈ related_ndx <$> out.

Record related_ok (n : nat) (out : list RelatedTable) : Prop := {
  related_once : NoDup (related_ndx <$> out);
  related_bound : Forall (fun r => related_ndx r < n)%nat out
}.

Lemma is_related_spec out ndx : is_related out ndx = true <-> ndx ∈ related_ndx <$> out.
Proof.
  unfold is_related. rewrite existsb_exists, list_elem_of_fmap. split.
  - intros (r & Hr & E%Nat.eqb_eq). exists r. by rewrite list_elem_of_In.
  - intros (r & -> & Hr). exists r. rewrite <- list_elem_of_In. by rewrite Nat.eqb_refl.
Qed.

Lemma related_room n out ndx : related_ok n out -> (ndx < n)%nat -> ndx ∉ related_ndx <$> out -> (length out < n)%nat.
Proof.
  intros [Hnd Hb] Hn Hin.
  assert (Hsub : (ndx :: (related_ndx <$> out)) ⊆ seq 0 n).
  { intros x [-> | (r & -> & Hr)%list_elem_of_fmap]%elem_of_cons; apply elem_of_seq; [lia|].
    rewrite Forall_forall in Hb. specialize (Hb r Hr). lia. }
  apply NoDup_submseteq, submseteq_length in Hsub; [|by apply NoDup_cons].
  rewrite length_seq in Hsub. simpl in Hsub. rewrite length_fmap in Hsub. lia.
Qed.

Lemma complete_more out out' r :
  (forall b, b ∈ related_ndx <$> out -> b ∈ related_ndx <$> out') -> complete out r -> complete out' r.
Proof. intros Hsub [Hl Ht]. split; [done|]. intros b Hb. by apply Hsub, Ht. Qed.

(** What a call does: it adds final entries for tables reachable from [ndx]. *)
Record extended (n ndx : nat) (out new : list RelatedTable) : Prop := {
  extended_ok : related_ok n (out ++ new);
  extended_has : ndx ∈ related_ndx <$> (out ++ new);
  extended_complete : Forall (complete (out ++ new)) new;
  extended_reach : Forall (fun r => rtc table_link ndx (related_ndx r)) new
}.

(** While the columns of the table at [length out] are visited: [pre] are done. *)
Record visiting (n ndx : nat) (out : list RelatedTable) (pre : list nat) (s : list RelatedTable)
    (visit_new : list RelatedTable) : Prop := {
  visit_eq : s = out ++ mkRelatedTable ndx (omap (link_of (GroupTable ndx)) pre) :: visit_new;
  visit_ok : related_ok n s;
  visit_targets : forall l, l ∈ omap (link_of (GroupTable ndx)) pre ->
    get_link_target (GroupTable ndx) (col_of l) ∈ related_ndx <$> s;
  visit_complete : Forall (complete s) visit_new;
  visit_reach : Forall (fun r => rtc table_link ndx (related_ndx r)) visit_new
}.

Lemma related_ok_same n out out' : related_ndx <$> out = related_ndx <$> out' -> related_ok n out -> related_ok n out'.
Proof.
  intros E [Hnd Hb]. split; [by rewrite <- E|].
  apply Forall_forall. intros r Hr. apply (list_elem_of_fmap_2 related_ndx) in Hr. rewrite <- E in Hr.
  apply list_elem_of_fmap in Hr as (r' & -> & Hr'). rewrite Forall_forall in Hb. by apply Hb.
Qed.

Lemma push_link_at out r new link :
  push_link (length out) link (out ++ r :: new) =
  Some (out ++ mkRelatedTable (related_ndx r) (links r ++ [link]) :: new).
Proof.
  unfold push_link. rewrite lookup_app_r, Nat.sub_diag by lia. cbn [lookup list_lookup mbind option_bind].
  by rewrite insert_middle.
Qed.

Lemma visit_start n ndx out :
  related_ok n out -> (ndx < n)%nat -> ndx ∉ related_ndx <$> out ->
  visiting n ndx out [] (out ++ [mkRelatedTable ndx []]) [].
Proof.
  intros [Hnd Hb] Hn Hin. split; [done| | |constructor|constructor].
  - split; [rewrite fmap_app; apply NoDup_app; split; [done|split; [|by apply NoDup_singleton]]|].
    + intros x Hx ->%list_elem_of_singleton. done.
    + by apply Forall_app_2; [|apply Forall_singleton].
  - by intros l Hl%elem_of_nil.
Qed.

(** One more link column, whose target has been searched. *)
Lemma visit_link n ndx out pre i link s s1 mid new :
  (i < get_column_count (GroupTable ndx))%nat ->
  visiting n ndx out pre s mid -> link_of (GroupTable ndx) i = Some link ->
  push_link (length out) link s = Some s1 ->
  extended n (get_link_target (GroupTable ndx) i) s1 new ->
  visiting n ndx out (pre ++ [i]) (s1 ++ new) (mid ++ new).
Proof.
  intros Hi [-> Hok Ht Hc Hr] El Ep [Hok' Hin Hc' Hr']. rewrite push_link_at in Ep. injection Ep as <-.
  assert (Ec : col_of link = i) by (unfold link_of in El; destruct (get_column_type _ _); by simplify_eq).
  assert (Htl : table_link ndx (get_link_target (GroupTable ndx) i)).
  { exists link. rewrite Ec. split; [|done]. apply list_elem_of_omap. exists i.
    split; [apply elem_of_seq; lia|done]. }
  assert (Hmore : forall b, b ∈ related_ndx <$> (out ++ mkRelatedTable ndx (omap (link_of (GroupTable ndx)) pre) :: mid) ->
    b ∈ related_ndx <$> ((out ++ mkRelatedTable ndx (omap (link_of (GroupTable ndx)) pre ++ [link]) :: mid) ++ new)).
  { intros b. rewrite !fmap_app, !fmap_cons, !elem_of_app. cbn. tauto. }
  assert (E : omap (link_of (GroupTable ndx)) (pre ++ [i]) = omap (link_of (GroupTable ndx)) pre ++ [link]).
  { rewrite omap_app. cbn. by rewrite El. }
  split; cbn [related_ndx links] in *.
  - rewrite E, <- app_assoc. done.
  - done.
  - intros l. rewrite E, elem_of_app, list_elem_of_singleton. intros [Hl | ->]; [by apply Hmore, Ht|].
    rewrite Ec. done.
  - apply Forall_app_2; [|done]. eapply Forall_impl; [exact Hc|]. intros r. by apply complete_more.
  - apply Forall_app_2; [done|]. eapply Forall_impl; [exact Hr'|]. intros r Hrr. by eapply rtc_l.
Qed.

Lemma visit_end n ndx out s mid :
  visiting n ndx out (seq 0 (get_column_count (GroupTable ndx))) s mid ->
  exists new, s = out ++ new /\ extended n ndx out new.
Proof.
  intros [E Hok Ht Hc Hr]. eexists. split; [exact E|]. rewrite E in *. split; [done| | |].
  - rewrite fmap_app, fmap_cons, elem_of_app. right. left.
  - apply Forall_cons. split; [|done]. split; [done|]. cbn [related_ndx]. intros b (l & Hl & ->). by apply Ht.
  - apply Forall_cons. split; [apply rtc_refl|done].
Qed.

Lemma find_related_extends n fuel out ndx :
  (forall a b, (a < n)%nat -> table_link a b -> (b < n)%nat) ->
  related_ok n out -> (ndx < n)%nat -> (n - length out < fuel)%nat ->
  exists new, find_related_tables fuel out (GroupTable ndx) = Some (out ++ new) /\ extended n ndx out new.
Proof.
  intros Hn. revert out ndx. induction fuel as [|fuel IH]; intros out ndx Hok Hndx Hf; [lia|].
  cbn [find_related_tables get_index_in_group].
  destruct (is_related out ndx) eqn:Er.
  - apply is_related_spec in Er. exists []. rewrite app_nil_r. split; [done|].
    split; rewrite ?app_nil_r; [done|done|constructor|constructor].
  - assert (Hin : ndx ∉ related_ndx <$> out) by (rewrite <- is_related_spec; congruence).
    pose proof (related_room _ _ _ Hok Hndx Hin) as Hroom.
    destruct (fold_option_rule (fun out0 i => match get_column_type (GroupTable ndx) i with
        | not_a_link => Some out0
        | type => out1 ← push_link (length out) (mkOutgoingLink i (bool_decide (type = type_LinkList))) out0;
            find_related_tables fuel out1 (GroupTable (get_link_target (GroupTable ndx) i))
        end) (fun pre s => exists mid, visiting n ndx out pre s mid) (seq 0 (get_column_count (GroupTable ndx))) (out ++ [mkRelatedTable ndx []]))
      as (s & E & mid & Hv).
    + exists []. by apply visit_start.
    + intros pre i post s Es [mid Hv].
      assert (Hi : (i < get_column_count (GroupTable ndx))%nat).
      { assert (Hi : i ∈ seq 0 (get_column_count (GroupTable ndx))) by (rewrite Es; apply elem_of_app; right; left).
        apply elem_of_seq in Hi. lia. }
      destruct (link_of (GroupTable ndx) i) as [link|] eqn:El.
      * destruct (push_link (length out) link s) as [s1|] eqn:Ep; [|destruct Hv as [-> ? ? ? ?]; by rewrite push_link_at in Ep].
        destruct (IH s1 (get_link_target (GroupTable ndx) i)) as (new & E & Hx).
        { destruct Hv as [-> Hok' _ _ _]. rewrite push_link_at in Ep. injection Ep as <-.
          eapply related_ok_same; [|exact Hok']. by rewrite !fmap_app. }
        { apply (Hn ndx); [done|]. exists link. split.
          - apply list_elem_of_omap. exists i. split; [apply elem_of_seq; lia|done].
          - unfold link_of in El. destruct (get_column_type _ _); by simplify_eq. }
        { destruct Hv as [-> _ _ _ _]. rewrite push_link_at in Ep. injection Ep as <-.
          rewrite length_app. simpl. lia. }
        exists (s1 ++ new). split; [|eexists; by eapply visit_link].
        unfold link_of in El. destruct (get_column_type (GroupTable ndx) i); [done| |];
          apply (inj Some) in El; rewrite <- El in Ep; rewrite Ep; exact E.
      * exists s. unfold link_of in El. destruct (get_column_type (GroupTable ndx) i) eqn:Et; [|done|done].
        split; [done|]. destruct Hv as [Eq Hok' Ht Hc Hr].
        assert (E : omap (link_of (GroupTable ndx)) (pre ++ [i]) = omap (link_of (GroupTable ndx)) pre).
        { rewrite omap_app. cbn. unfold link_of at 2. rewrite Et. apply app_nil_r. }
        exists mid. split; rewrite ?E; done.
    + rewrite E. destruct (visit_end _ _ _ _ _ Hv) as (new & -> & Hx). by exists new.
Qed.

(** From the empty list: exactly the reachable tables. *)
Lemma find_related_spec n fuel ndx :
  (forall a b, (a < n)%nat -> table_link a b -> (b < n)%nat) -> (ndx < n < fuel)%nat ->
  exists out, set_table fuel (GroupTable ndx) = Some out /\ NoDup (related_ndx <$> out) /\
    Forall (complete out) out /\ forall b, b ∈ related_ndx <$> out <-> rtc table_link ndx b.
Proof.
  intros Hn [Hndx Hf]. destruct (find_related_extends n fuel [] ndx) as (out & E & [Hok Hin Hc Hr]);
    [done|by repeat constructor|done|simpl; lia|].
  simpl in *. exists out. split; [exact E|]. split; [by destruct Hok|]. split; [done|]. intros b. split.
  - intros (r & -> & Hb)%list_elem_of_fmap. rewrite Forall_forall in Hr. by apply Hr.
  - intros Hb. clear Hr E Hndx. revert Hin. induction Hb as [a|a b c Hab Hbc IH]; [done|]. intros Ha. apply IH.
    apply list_elem_of_fmap in Ha as (r & -> & Hr'). rewrite Forall_forall in Hc. by apply (Hc r).
Qed.
End related_tables.

(** ** The search along links is exact *)
Section any_of.
Context {A St : Type} (p : A -> St -> option (bool * St)).

Lemma any_of_rule (P : list A -> St -> Prop) (Q : St -> Prop) l s :
  P [] s ->
  (forall pre x post s, l = pre ++ x :: post -> P pre s ->
     exists r s', p x s = Some (r, s') /\ if r : bool then Q s' else P (pre ++ [x]) s') ->
  exists r s', any_of p l s = Some (r, s') /\ if r : bool then Q s' else P l s'.
Proof.
  intros Hnil Hstep.
  enough (forall post pre s, l = pre ++ post -> P pre s ->
    exists r s', any_of p post s = Some (r, s') /\ if r : bool then Q s' else P l s') as Hgo by exact (Hgo l [] s eq_refl Hnil).
  induction post as [|x post IH]; intros pre s' -> Hs'.
  - exists false, s'. by rewrite app_nil_r.
  - destruct (Hstep pre x post s' eq_refl Hs') as (r & s1 & E & H1). simpl. rewrite E. cbn [mbind option_bind].
    destruct r; [by exists true, s1|]. apply (IH (pre ++ [x])); [by rewrite <- app_assoc|done].
Qed.
End any_of.

(** ** The reference *)
Section reference.
Context `{IndexSetOps IS} `{LinkedTables}.
Context (info : TransactionChangeInfo IS).
Implicit Types (v w : nat * Z) (avoid : list (nat * Z)).

Definition linked_rows (t : Table) (l : OutgoingLink) (row : Z) : list Z :=
  if is_list_of l then get_linklist t (col_of l) row
  else if is_null_link t (col_of l) row then [] else [get_link t (col_of l) row].

(** A row links to another one through some column. *)
Definition linked v w : Prop :=
  exists l, l ∈ table_links (GroupTable v.1) /\ w.1 = get_link_target (GroupTable v.1) (col_of l) /\
    w.2 ∈ linked_rows (GroupTable v.1) l v.2.

Definition changed v : Prop :=
  match tables info !! v.1 with Some b => ix_has (modifications b) v.2 | None => False end.

(** The row, or one at most [n] links away, is modified. *)
Fixpoint modified_within (n : nat) v : Prop :=
  changed v \/ (match n with O => False | S n => exists w, linked v w /\ modified_within n w end).

(** The same for a path of fewer than [n] links that stays out of [avoid]. *)
Fixpoint hits avoid (n : nat) v : Prop :=
  match n with
  | O => False
  | S n => (v ∉ avoid) /\ (changed v \/ (exists w, linked v w /\ hits avoid n w))
  end.

Lemma hits_within n v : hits [] (S n) v <-> modified_within n v.
Proof.
  revert v. induction n as [|n IH]; intros v.
  - simpl. split; [intros [_ [?|(w & _ & [])]]; by left|intros [?|[]]]. split; [apply not_elem_of_nil|by left].
  - change (hits [] (S (S n)) v) with ((v ∉ []) /\ (changed v \/ (exists w, linked v w /\ hits [] (S n) w))).
    change (modified_within (S n) v) with (changed v \/ (exists w, linked v w /\ modified_within n w)).
    setoid_rewrite IH. split; [by intros [_ ?]|]. intros ?. split; [apply not_elem_of_nil|done].
Qed.

Lemma hits_mono avoid avoid' n m v :
  (forall x, x ∈ avoid' -> x ∈ avoid) -> (n <= m)%nat -> hits avoid n v -> hits avoid' m v.
Proof.
  intros Ha. revert m v. induction n as [|n IH]; intros m v Hm Hh; [done|]. destruct m as [|m]; [lia|].
  destruct Hh as [Hv Hc]. split; [by intros ?%Ha|]. destruct Hc as [Hc|(w & Hl & Hw)]; [by left|].
  right. exists w. split; [done|]. apply IH; [lia|done].
Qed.

(** A path either passes through [v] or does not. *)
Lemma hits_avoid avoid n v w : hits avoid n w -> hits (v :: avoid) n w \/ hits avoid n v.
Proof.
  revert w. induction n as [|n IH]; intros w Hh; [done|].
  destruct (decide (w = v)) as [->|Hne]; [by right|]. destruct Hh as [Hw Hc].
  assert (Hw' : w ∉ v :: avoid) by (rewrite not_elem_of_cons; done).
  destruct Hc as [Hc|(w' & Hl & Hw1)]; [left; split; [done|by left]|].
  destruct (IH w' Hw1) as [Ht|Ht].
  - left. split; [done|]. right. by exists w'.
  - right. apply (hits_mono avoid avoid n); [done|lia|done].
Qed.

(** The rest of a shortest path does not come back to its first row. *)
Lemma hits_step avoid n v :
  hits avoid n v ->
  exists m, n = S m /\ (v ∉ avoid) /\ (changed v \/ (exists w, linked v w /\ hits (v :: avoid) m w)).
Proof.
  induction n as [|n IH]; intros Hh; [done|]. exists n. split; [done|]. destruct Hh as [Hv Hc]. split; [done|].
  destruct Hc as [Hc|(w & Hl & Hw)]; [by left|].
  destruct (hits_avoid avoid n v w Hw) as [Ht|Ht]; [right; by exists w|].
  destruct (IH Ht) as (m & -> & _ & [Hc|(w' & Hl' & Hw')]); [by left|]. right. exists w'. split; [done|].
  apply (hits_mono (v :: avoid) (v :: avoid) m); [done|lia|done].
Qed.
End reference.

(** ** The state of the search *)
Section search.
Import Deep.
Context `{IndexSetLaws IS} `{LinkedTables}.
Context (info : TransactionChangeInfo IS) (root : Table) (related : list RelatedTable).
Hypothesis Hvalid : Forall (fun b => ix_valid (modifications b)) (tables info).
Hypothesis Hcomplete : Forall (complete related) related.
Hypothesis Hrows : forall t l row j, j ∈ linked_rows t l row -> 0 <= j.
Abbreviation checker := (DeepChangeChecker IS).
Implicit Types (s : checker) (v w : nat * Z).

Definition node_of (p : Path) : nat * Z := (p_table p, p_row p).
Definition nodes (d : nat) s : list (nat * Z) := node_of <$> take d (m_current_path s).
Definition flag_at s (k : nat) : option bool := depth_exceeded <$> m_current_path s !! k.

(** Every remembered row is one the reference rejects. *)
Record search_ok s : Prop := {
  search_path : length (m_current_path s) = 4%nat;
  search_sets : Forall ix_valid (m_not_modified s);
  search_known ndx known i :
    m_not_modified s !! ndx = Some known -> ix_has known i -> ~ hits info [] 4 (ndx, i)
}.

(** The entries below [d] keep their links, their flags are only ever set, and
    no table is forgotten. *)
Definition older (p p' : Path) : Prop :=
  p_table p' = p_table p /\ p_row p' = p_row p /\ p_col p' = p_col p /\
  (depth_exceeded p = true -> depth_exceeded p' = true).
Definition step (d : nat) s s' : Prop :=
  Forall2 older (take d (m_current_path s)) (take d (m_current_path s')) /\
  (length (m_not_modified s) <= length (m_not_modified s'))%nat.

#[local] Instance older_preorder : PreOrder older.
Proof. split; unfold older; [done|]. intros p q r. intuition congruence. Qed.
#[local] Instance step_preorder d : PreOrder (step d).
Proof.
  unfold step. split; [intros s; by split|intros s s1 s2 [Ha La] [Hb Lb]]. split; [by transitivity (take d (m_current_path s1))|lia].
Qed.

Lemma step_less d k s s' : (d <= k)%nat -> step k s s' -> step d s s'.
Proof.
  unfold step. intros Hd [Hs Hn]. split; [|done]. apply (Forall2_take _ _ _ d) in Hs. rewrite !take_take in Hs.
  by replace (d `min` k)%nat with d in Hs by lia.
Qed.

Lemma step_nodes d s s' : step d s s' -> nodes d s' = nodes d s.
Proof.
  unfold step, nodes. intros [Hs _]. symmetry. induction Hs as [|p p' l l' (E1 & E2 & _) _ IH]; [done|].
  rewrite !fmap_cons, IH. unfold node_of. by rewrite E1, E2.
Qed.

Lemma step_flag d s s' k : step d s s' -> (k < d)%nat -> flag_at s' k = Some false -> flag_at s k = Some false.
Proof.
  unfold flag_at. intros [Hs _] Hk. rewrite <- (lookup_take_lt (m_current_path s) d k), <- (lookup_take_lt (m_current_path s') d k) by lia.
  destruct (take d (m_current_path s') !! k) as [p'|] eqn:Ep'; [|done].
  destruct (Forall2_lookup_r _ _ _ _ _ Hs Ep') as (p & -> & _ & _ & _ & Hf). cbn. intros [= Hf'].
  destruct (depth_exceeded p); [rewrite Hf in Hf' by done; congruence|done].
Qed.

(** ** What a failed search establishes *)

(** The paths that count when the flags of [s] are known: short ones, or any
    when no flag says that the search was cut at the entry before [e]. *)
Definition allowed (e k : nat) s (n : nat) : Prop :=
  (e = 0%nat /\ (n <= k)%nat) \/ ((0 < e)%nat /\ flag_at s (e - 1) = Some false /\ (n <= 4)%nat).

(** Nothing modified is reached from [w] without [x] and the path from [e] on. *)
Definition away (d k : nat) s (x : list (nat * Z)) w : Prop :=
  forall e n, (e <= d)%nat -> allowed e k s n -> ~ hits info (x ++ drop e (nodes d s)) n w.

Lemma away_later d k s s' x w : step d s s' -> away d k s x w -> away d k s' x w.
Proof.
  intros Hs Ha e n He Hn. rewrite (step_nodes _ _ _ Hs). apply Ha; [done|].
  destruct Hn as [Hn|(He0 & Hf & Hn)]; [by left|right]. split; [done|]. split; [|done].
  eapply step_flag; [done|lia|done].
Qed.

Lemma away_known d k s w : (k <= 4)%nat -> ~ hits info [] 4 w -> away d k s [] w.
Proof.
  intros Hk Hw e n He Hn Hh. apply Hw. eapply hits_mono; [|..|exact Hh].
  - by intros ? ?%elem_of_nil.
  - destruct Hn as [[_ ?]|(_ & _ & ?)]; lia.
Qed.

Lemma away_parent d s v w :
  nodes (S d) s = nodes d s ++ [v] -> (d < 4)%nat -> length (nodes d s) = d ->
  away (S d) (3 - d) s [] w -> away d (3 - d) s [v] w.
Proof.
  intros E Hd Hl Ha e n He Hn Hh. apply (Ha e n); [lia|done|]. eapply hits_mono; [|done|exact Hh].
  intros y. rewrite E, app_nil_l, drop_app_le by lia. rewrite !elem_of_app. tauto.
Qed.

(** A row is done when all its links are. *)
Lemma away_all d s v :
  (d < 4)%nat -> ~ changed info v -> (forall w, linked v w -> away d (3 - d) s [v] w) -> away d (4 - d) s [] v.
Proof.
  intros Hd Hc Ha e n He Hn Hh. destruct (hits_step _ _ _ _ Hh) as (m & -> & _ & [?|(w & Hl & Hw)]); [done|].
  apply (Ha w Hl e m He); [|exact Hw]. destruct Hn as [[-> ?]|(? & ? & ?)]; [left|right]; (split; [done|]); [lia|split; [done|lia]].
Qed.

(** A row on the path already: nothing that avoids the path goes through it. *)
Lemma away_on_path d s v m :
  (m < d)%nat -> nodes d s !! m = Some v -> (forall k, (m <= k < d)%nat -> flag_at s k <> Some false) ->
  away d (4 - d) s [] v.
Proof.
  intros Hm Hv Hf e n He Hn Hh. destruct n as [|n]; [done|]. destruct Hh as [Hv' _]. apply Hv'.
  rewrite app_nil_l. apply list_elem_of_lookup. exists (m - e)%nat. rewrite lookup_drop.
  destruct (decide (e <= m)%nat); [by replace (e + (m - e))%nat with m by lia|].
  destruct Hn as [[-> _]|(_ & Hf' & _)]; [lia|]. by destruct (Hf (e - 1)%nat); [lia|].
Qed.

(** ** [already_checking] *)
Lemma nodes_length d s : length (m_current_path s) = 4%nat -> (d <= 4)%nat -> length (nodes d s) = d.
Proof. intros Hl Hd. unfold nodes. rewrite length_fmap, length_take. lia. Qed.

Lemma exceed_older l : Forall2 older l (exceed <$> l).
Proof. induction l as [|p l IH]; constructor; [by split|done]. Qed.

(** A link found on the path is cut, and the path from there on marked. *)
Lemma already_checking_cut d s t i col s' :
  length (m_current_path s) = 4%nat -> (d <= 4)%nat -> already_checking t i d col s = (true, s') ->
  step d s s' /\ m_not_modified s' = m_not_modified s /\ length (m_current_path s') = 4%nat /\
  away d (4 - d) s' [] (t, i).
Proof.
  intros Hl Hd. unfold already_checking.
  destruct (find_if_split (on_path t i col) (take d (m_current_path s))) as (l1 & l2 & El & -> & _ & H2).
  destruct (Nat.ltb_spec (length l1) d) as [Hlt|]; [|done]. intros [= <-].
  assert (Hlen : (length l1 + length l2)%nat = d) by (rewrite <- length_app, <- El, length_take; lia).
  assert (E1 : take (length l1) (m_current_path s) = l1).
  { rewrite <- (take_drop d (m_current_path s)), El, <- app_assoc. apply take_app_length. }
  assert (E2 : drop (length l1) (take d (m_current_path s)) = l2) by (rewrite El; apply drop_app_length).
  set (s' := set_path _ s).
  assert (Ep : take d (m_current_path s') = l1 ++ (exceed <$> l2)).
  { unfold s'. cbn. rewrite E1, E2, app_assoc. apply take_app_length'. rewrite length_app, length_fmap. lia. }
  assert (Hs : step d s s') by (split; [rewrite El, Ep; apply Forall2_app; [done|apply exceed_older]|done]).
  split; [done|]. split; [done|]. split.
  { unfold s'. cbn. rewrite E1, E2, !length_app, length_fmap, length_drop. lia. }
  destruct l2 as [|p l2]; [simpl in Hlen; lia|].
  unfold on_path in H2. apply andb_prop in H2 as [[<-%Nat.eqb_eq <-%Z.eqb_eq]%andb_prop _].
  apply (away_on_path d s' _ (length l1) Hlt).
  - unfold nodes. rewrite Ep, list_lookup_fmap, lookup_app_r, Nat.sub_diag by lia. done.
  - intros k Hk. unfold flag_at. rewrite <- (lookup_take_lt _ d k), Ep, lookup_app_r, list_lookup_fmap by lia.
    by destruct ((p :: l2) !! (k - length l1)%nat).
Qed.

(** Otherwise it is pushed. *)
Lemma already_checking_push d s t i col s' :
  length (m_current_path s) = 4%nat -> (d < 4)%nat -> already_checking t i d col s = (false, s') ->
  step d s s' /\ m_not_modified s' = m_not_modified s /\ length (m_current_path s') = 4%nat /\
  nodes (S d) s' = nodes d s ++ [(t, i)].
Proof.
  intros Hl Hd. unfold already_checking. destruct (_ <? _)%nat; [done|]. intros [= <-].
  unfold step, nodes. cbn. rewrite length_insert, take_insert_ge by lia. split; [by split|]. split; [done|]. split; [done|].
  rewrite (take_S_r _ d (mkPath t i col false)) by (apply list_lookup_insert_eq; lia).
  by rewrite take_insert_ge, fmap_app by lia.
Qed.

(** ** The specification of [check_row] at each level *)
Definition checked (d : nat) s v (r : bool) s' : Prop :=
  search_ok s' /\ step d s s' /\ if r then hits info [] (4 - d) v else away d (4 - d) s' [] v.

Definition check_spec (d : nat) (search : Table -> Z -> checker -> option (bool * checker)) : Prop :=
  forall t i s, search_ok s -> 0 <= i -> (d = 0%nat -> ~ changed info (t, i)) -> t ∈ related_ndx <$> related ->
  exists r s', search (GroupTable t) i s = Some (r, s') /\ checked d s (t, i) r s'.

(** The rows of one link, from the level below *)
Lemma check_targets d search t i s1 s2 target rows :
  (d < 4)%nat -> check_spec (S d) search -> search_ok s2 -> step d s1 s2 ->
  nodes (S d) s2 = nodes d s1 ++ [(t, i)] -> target ∈ related_ndx <$> related -> (forall j, j ∈ rows -> 0 <= j) ->
  exists r s3, any_of (search (GroupTable target)) rows s2 = Some (r, s3) /\ search_ok s3 /\ step d s1 s3 /\
    if r : bool then exists j, j ∈ rows /\ hits info [] (3 - d) (target, j)
    else forall j, j ∈ rows -> away d (3 - d) s3 [(t, i)] (target, j).
Proof.
  intros Hd Hspec Hok2 Hs12 En Ht Hj.
  destruct (any_of_rule (search (GroupTable target))
    (fun pre s => search_ok s /\ step (S d) s2 s /\ forall j, j ∈ pre -> away (S d) (3 - d) s [] (target, j))
    (fun s => search_ok s /\ step (S d) s2 s /\ exists j, j ∈ rows /\ hits info [] (3 - d) (target, j)) rows s2)
    as (r & s3 & E & Hr).
  - split; [done|]. split; [done|]. by intros j Hj0%elem_of_nil.
  - intros pre j post s Erows (Hok & Hs & Hpre).
    assert (Hin : j ∈ rows) by (rewrite Erows; apply elem_of_app; right; left).
    destruct (Hspec target j s Hok (Hj j Hin)) as (r & s' & E & Hok' & Hs' & Hr); [lia|done|].
    replace (4 - S d)%nat with (3 - d)%nat in Hr by lia.
    assert (Hs2 : step (S d) s2 s') by (by transitivity s).
    exists r, s'. split; [done|]. destruct r.
    + split; [done|]. split; [done|]. by exists j.
    + split; [done|]. split; [done|]. intros j' [Hj'| ->%list_elem_of_singleton]%elem_of_app; [|done].
      eapply away_later; [exact Hs'|by apply Hpre].
  - exists r, s3. split; [done|].
    assert (Hs : step (S d) s2 s3 /\ search_ok s3) by (destruct r; tauto). destruct Hs as [Hs Hok3].
    assert (Hs13 : step d s1 s3) by (transitivity s2; [done|]; eapply step_less; [|exact Hs]; lia).
    split; [done|]. split; [done|]. destruct r; [by destruct Hr as (_ & _ & ?)|].
    destruct Hr as (_ & _ & Hr). intros j Hjr. apply away_parent; [|done| |by apply Hr].
    + by rewrite (step_nodes _ _ _ Hs), (step_nodes _ _ _ Hs13).
    + apply nodes_length; [by destruct Hok3|lia].
Qed.

Lemma related_lookup t :
  t ∈ related_ndx <$> related ->
  exists r, related !! find_if (fun tbl => related_ndx tbl =? t)%nat related = Some r /\
    links r = table_links (GroupTable t) /\ forall b, table_link t b -> b ∈ related_ndx <$> related.
Proof.
  intros (r & -> & Hr)%list_elem_of_fmap.
  destruct (find_if_split (fun tbl => related_ndx tbl =? related_ndx r)%nat related) as (l1 & l2 & E & -> & Hb & Ha).
  destruct l2 as [|x l2].
  - rewrite app_nil_r in E. rewrite E, Forall_forall in *. apply Hb in Hr. by rewrite Nat.eqb_refl in Hr.
  - apply Nat.eqb_eq in Ha. exists x. split; [by rewrite E, lookup_app_r, Nat.sub_diag by lia|].
    rewrite <- Ha. rewrite Forall_forall in Hcomplete. apply Hcomplete. rewrite E. apply elem_of_app. right. left.
Qed.

(** ** [check_outgoing_links] and [check_row] *)
Lemma linked_cases t i l s (search : Table -> Z -> checker -> option (bool * checker)) :
  (if negb (is_list_of l) then
     if is_null_link (GroupTable t) (col_of l) i then Some (false, s)
     else search (GroupTable (get_link_target (GroupTable t) (col_of l))) (get_link (GroupTable t) (col_of l) i) s
   else any_of (search (GroupTable (get_link_target (GroupTable t) (col_of l)))) (get_linklist (GroupTable t) (col_of l) i) s) =
  any_of (search (GroupTable (get_link_target (GroupTable t) (col_of l)))) (linked_rows (GroupTable t) l i) s.
Proof.
  unfold linked_rows. destruct (is_list_of l); [done|]. cbn [negb].
  destruct (is_null_link _ _ _); [done|]. simpl. by destruct (search _ _ s) as [[[] s']|].
Qed.

Lemma check_links d search t i s :
  (d < 4)%nat -> check_spec (S d) search -> search_ok s -> 0 <= i -> ~ changed info (t, i) ->
  t ∈ related_ndx <$> related ->
  exists r s', check_outgoing_links related search t (GroupTable t) i d s = Some (r, s') /\ checked d s (t, i) r s'.
Proof.
  intros Hd Hspec Hok Hi Hc Ht. unfold check_outgoing_links.
  destruct (related_lookup t Ht) as (it & -> & El & Htargets). rewrite El.
  edestruct (any_of_rule (fun link s =>
      let '(checking, s) := already_checking t i d (col_of link) s in
      if checking : bool then Some (false, s)
      else
        let target := GroupTable (get_link_target (GroupTable t) (col_of link)) in
        if negb (is_list_of link) then
          if is_null_link (GroupTable t) (col_of link) i then Some (false, s)
          else search target (get_link (GroupTable t) (col_of link) i) s
        else any_of (search target) (get_linklist (GroupTable t) (col_of link) i) s)
    (fun pre s1 => search_ok s1 /\ step d s s1 /\ (away d (4 - d) s1 [] (t, i) \/
       forall l j, l ∈ pre -> j ∈ linked_rows (GroupTable t) l i ->
         away d (3 - d) s1 [(t, i)] (get_link_target (GroupTable t) (col_of l), j)))
    (fun s1 => search_ok s1 /\ step d s s1 /\ hits info [] (4 - d) (t, i))
    (table_links (GroupTable t)) s) as (r & s' & E & Hr).
  - split; [done|]. split; [done|]. right. by intros l j Hl%elem_of_nil.
  - intros pre l post s1 Epre (Hok1 & Hs1 & Hpre).
    assert (Hl : l ∈ table_links (GroupTable t)) by (rewrite Epre; apply elem_of_app; right; left).
    destruct (already_checking t i d (col_of l) s1) as [checking s2] eqn:Ea.
    pose proof (search_path _ Hok1) as Hlen. destruct checking.
    + destruct (already_checking_cut d s1 t i (col_of l) s2) as (Hs2 & En & Hlen2 & Hcut); [done|lia|done|].
      exists false, s2. split; [done|].
      assert (Hok2 : search_ok s2) by (split; [done|rewrite En; apply Hok1|rewrite En; apply Hok1]).
      split; [done|]. split; [by transitivity s1|by left].
    + destruct (already_checking_push d s1 t i (col_of l) s2) as (Hs2 & En & Hlen2 & Hnodes); [done|done|done|].
      assert (Hok2 : search_ok s2) by (split; [done|rewrite En; apply Hok1|rewrite En; apply Hok1]).
      cbv zeta. rewrite linked_cases.
      destruct (check_targets d search t i s1 s2 (get_link_target (GroupTable t) (col_of l)) (linked_rows (GroupTable t) l i))
        as (r & s3 & E & Hok3 & Hs3 & Hr); [done..| |by apply Hrows|].
      { apply Htargets. by exists l. }
      assert (Hs13 : step d s s3) by (by transitivity s1).
      exists r, s3. split; [done|]. destruct r; (split; [done|]; split; [done|]).
      * destruct Hr as (j & Hj & Hh). replace (4 - d)%nat with (S (3 - d)) by lia.
        split; [apply not_elem_of_nil|]. right. exists (get_link_target (GroupTable t) (col_of l), j). split; [by exists l|done].
      * destruct Hpre as [Hpre|Hpre]; [left; eapply away_later; [exact Hs3|done]|right].
        intros l' j [Hl'| ->%list_elem_of_singleton]%elem_of_app Hj; [eapply away_later; [exact Hs3|by apply Hpre]|by apply Hr].
  - exists r, s'. split; [exact E|]. destruct r; [done|]. destruct Hr as (Hok' & Hs' & Hr). split; [done|]. split; [done|].
    destruct Hr as [Hr|Hr]; [done|]. apply away_all; [done|done|].
    intros [t' j] (l & Hl & Et & Hj). cbn in Et. subst t'. by apply Hr.
Qed.

Lemma table_modified_changed t i :
  exists b, table_modified info t i = Some b /\ (b = true <-> changed info (t, i)).
Proof.
  unfold table_modified, changed. cbn. destruct (tables info !! t) as [b|] eqn:E; [|by exists false].
  rewrite Forall_lookup in Hvalid. specialize (Hvalid _ _ E). rewrite ix_contains_has by done.
  eexists. split; [done|]. apply bool_decide_eq_true.
Qed.

(** [check_row] grows the vector of remembered rows when it has to. *)
Definition known_of (t : nat) s : checker :=
  if (length (m_not_modified s) <=? t)%nat
  then set_not_modified (vec_resize ix_nil (t + 1) (m_not_modified s)) s else s.

Lemma known_of_spec d t s :
  search_ok s -> search_ok (known_of t s) /\ step d s (known_of t s) /\
  is_Some (m_not_modified (known_of t s) !! t).
Proof.
  intros [Hp Hs Hk]. unfold known_of, step. destruct (Nat.leb_spec (length (m_not_modified s)) t) as [Hle|Hlt]; cbn.
  - unfold vec_resize. rewrite length_app, length_replicate. split; [|split; [split; [done|lia]|]].
    + split; cbn; [done| |].
      * apply Forall_app_2; [done|]. apply Forall_replicate, ix_nil_valid.
      * intros ndx known i. destruct (decide (ndx < length (m_not_modified s))%nat).
        { rewrite lookup_app_l by done. apply Hk. }
        rewrite lookup_app_r by lia. intros [-> _]%lookup_replicate. unfold ix_has. rewrite ix_nil_ranges.
        by intros ?%mem_nil.
    + apply lookup_lt_is_Some_2. rewrite length_app, length_replicate. lia.
  - split; [done|]. split; [done|]. by apply lookup_lt_is_Some_2.
Qed.

(** A row whose search failed without a mark is remembered. *)
Lemma remember d s t i known :
  search_ok s -> 0 <= i -> m_not_modified s !! t = Some known -> away d (4 - d) s [] (t, i) ->
  (d = 0%nat \/ ((d <= 4)%nat /\ flag_at s (d - 1) = Some false)) ->
  exists known', ix_add known i = Some known' /\ search_ok (set_not_modified (<[t := known']> (m_not_modified s)) s).
Proof.
  intros [Hp Hs Hk] Hi Ht Ha Hd.
  pose proof (proj1 (Forall_lookup _ _) Hs _ _ Ht) as Hv.
  destruct (ix_add_has known i Hv Hi) as (known' & E & Hv' & Hadd). exists known'. split; [done|].
  assert (Hno : ~ hits info [] 4 (t, i)).
  { intros Hh. destruct Hd as [->|[Hd Hf]].
    - apply (Ha 0%nat 4%nat); [lia|left; split; lia|exact Hh].
    - destruct d as [|d]; [simpl in Hf; by apply (Ha 0%nat 4%nat); [lia|left; split; lia|]|].
      apply (Ha (S d) 4%nat); [lia|right; split; [lia|by rewrite Hf]|].
      rewrite app_nil_l, drop_ge by (rewrite nodes_length by done; lia). exact Hh. }
  split; cbn; [done|by apply Forall_insert|].
  intros ndx set j. destruct (decide (ndx = t)) as [->|Hne].
  - rewrite list_lookup_insert_eq by (eapply lookup_lt_Some; exact Ht). intros [= <-] [->|Hj]%Hadd; [done|by eapply Hk].
  - rewrite list_lookup_insert_ne by done. apply Hk.
Qed.

Lemma check_row_spec fuel d : (d + fuel = 4)%nat -> check_spec d (check_row info related fuel d).
Proof.
  revert d. induction fuel as [|fuel IH]; intros d Hd t i s Hok Hi Hc Ht; cbn [check_row]; rewrite (search_path _ Hok).
  - replace d with 4%nat by lia. cbn. exists false, (set_path (exceed <$> m_current_path s) s). split; [done|].
    destruct Hok as [Hp Hs Hk]. split; [split; cbn; [by rewrite length_fmap|done|done]|]. split.
    + unfold step. cbn. rewrite <- fmap_take. split; [apply exceed_older|done].
    + intros e n He [[-> Hn]|(He0 & Hf & _)]; [intros Hh; by replace n with 0%nat in Hh by lia|]. revert Hf. unfold flag_at. cbn.
      rewrite list_lookup_fmap. by destruct (m_current_path s !! (e - 1)%nat).
  - rewrite (proj2 (Nat.leb_gt 4 d)) by lia. cbn [get_index_in_group mbind option_bind].
    destruct (table_modified_changed t i) as (b & E & Hb).
    assert (Em : exists m, (if (0 <? d)%nat then table_modified info t i else Some false) = Some m /\
      if m : bool then changed info (t, i) else ~ changed info (t, i)).
    { destruct (Nat.ltb_spec 0 d) as [Hpos|H0d]; [exists b; destruct b; (split; [done|]); [by apply Hb|]|exists false; split; [done|apply Hc; lia]].
      intros ?%Hb. done. }
    destruct Em as (m & -> & Hm). cbn [mbind option_bind]. destruct m.
    { exists true, s. split; [done|]. split; [done|]. split; [reflexivity|]. replace (4 - d)%nat with (S (3 - d)) by lia.
      split; [apply not_elem_of_nil|by left]. }
    fold (known_of t s). destruct (known_of_spec d t s Hok) as (Hok1 & Hs1 & [known Ek]). rewrite Ek. cbn [mbind option_bind].
    pose proof (proj1 (Forall_lookup _ _) (search_sets _ Hok1) _ _ Ek) as Hv.
    rewrite ix_contains_has by done. cbn [mbind option_bind].
    destruct (bool_decide (ix_has known i)) eqn:Ehas.
    { apply bool_decide_eq_true in Ehas. exists false, (known_of t s). split; [done|]. split; [done|]. split; [done|].
      apply away_known; [lia|]. by eapply (search_known _ Hok1). }
    destruct (check_links d (check_row info related fuel (d + 1)) t i (known_of t s)) as (r & s2 & -> & Hok2 & Hs2 & Hr);
      [lia|replace (S d) with (d + 1)%nat by lia; apply IH; lia|done..|].
    cbn [mbind option_bind]. assert (Hs : step d s s2) by (by transitivity (known_of t s)).
    destruct r; cbn [negb andb]; [by exists true, s2|].
    destruct ((d =? 0)%nat || negb (default false (depth_exceeded <$> m_current_path s2 !! (d - 1)%nat))) eqn:Eflag;
      [|by exists false, s2].
    assert (Hl : is_Some (m_not_modified s2 !! t)).
    { apply lookup_lt_is_Some_2. destruct Hs2 as [_ ?]. apply lookup_lt_Some in Ek. lia. }
    destruct Hl as [known2 Ek2]. destruct (remember d s2 t i known2) as (known3 & E3 & Hok3); [done..| |].
    { destruct (Nat.eqb_spec d 0) as [?|Hne]; [by left|right]. split; [lia|]. unfold flag_at.
      destruct (lookup_lt_is_Some_2 (m_current_path s2) (d - 1)) as [p Hp]; [rewrite (search_path _ Hok2); lia|].
      rewrite Hp in Eflag |- *. cbn in Eflag |- *. by destruct (depth_exceeded p). }
    rewrite Ek2. cbn [mbind option_bind]. rewrite E3. cbn [mbind option_bind].
    eexists false, _. split; [done|]. split; [done|]. split; [|done].
    destruct Hs as [Hs Hn]. split; [exact Hs|]. cbn. by rewrite length_insert.
Qed.
End search.

(** ** The checker a collection notifier uses

    [get_modification_checker] answers, for every row it is asked about and in
    any order, whether the row or one at most three links away was modified,
    unless the only table involved links to itself. *)
Import Deep.

Section checker.
Context `{IndexSetLaws IS} `{LinkedTables}.
Context (info : TransactionChangeInfo IS) (root : nat) (related : list RelatedTable).
Hypothesis Hvalid : Forall (fun b => ix_valid (modifications b)) (tables info).
Hypothesis Hrows : forall t l row j, j ∈ linked_rows t l row -> 0 <= j.
Hypothesis Hcomplete : Forall (complete related) related.
Hypothesis Hreach : forall b, b ∈ related_ndx <$> related <-> rtc table_link root b.

Lemma changed_any t i r :
  changed info (t, i) -> r ∈ related -> related_ndx r = t -> any_modified info r = true.
Proof.
  unfold changed, any_modified. cbn. intros Hc Hr ->. destruct (tables info !! t) as [b|] eqn:E; [|done].
  rewrite Forall_lookup in Hvalid. rewrite (ix_empty_ranges _ (Hvalid _ _ E)). unfold ix_has in Hc.
  destruct (ix_ranges (modifications b)); [by apply mem_nil in Hc|done].
Qed.

(** When no related table has modifications nothing reachable is modified. *)
Lemma none_modified n t i :
  existsb (any_modified info) related = false -> rtc table_link root t -> ~ modified_within info n (t, i).
Proof.
  intros Hnone. assert (Hno : forall t i, rtc table_link root t -> ~ changed info (t, i)).
  { intros t' i' Ht Hc. apply Hreach, list_elem_of_fmap in Ht as (r & -> & Hr).
    assert (Ht : existsb (any_modified info) related = true); [|congruence].
    apply existsb_exists. exists r. rewrite <- list_elem_of_In. split; [done|]. by eapply changed_any. }
  revert t i. induction n as [|n IH]; intros t i Ht; (intros [Hc|Hw]; [by eapply Hno|]); [done|].
  destruct Hw as ([t' j] & (l & Hl & Et & _) & Hw). apply (IH t' j); [|done].
  eapply rtc_r; [exact Ht|]. exists l. split; [done|exact Et].
Qed.

(** A root table without links: only the row itself counts. *)
Lemma alone_modified n i :
  table_links (GroupTable root) = [] -> modified_within info n (root, i) <-> changed info (root, i).
Proof.
  intros Hl. split; [|destruct n; by left]. destruct n; intros [Hc|Hw]; try done.
  destruct Hw as (w & (l & Hin & _) & _). cbn in Hin. rewrite Hl in Hin. by apply elem_of_nil in Hin.
Qed.

Lemma check_exact s i :
  search_ok info s -> 0 <= i ->
  exists r s', check info (GroupTable root) related i s = Some (r, s') /\ search_ok info s' /\
    (r = true <-> modified_within info 3 (root, i)).
Proof.
  intros Hok Hi. unfold check. cbn [get_index_in_group].
  destruct (table_modified_changed info Hvalid root i) as (b & -> & Hb). cbn [mbind option_bind].
  destruct b.
  { exists true, s. split; [done|]. split; [done|]. split; [|done]. intros _. left. by apply Hb. }
  destruct (check_row_spec info related Hvalid Hcomplete Hrows 4 0 eq_refl root i s Hok Hi)
    as (r & s' & E & Hok' & _ & Hr).
  - intros _ Hc. by apply Hb in Hc.
  - apply Hreach. constructor.
  - exists r, s'. split; [done|]. split; [done|]. rewrite <- hits_within. destruct r.
    + by split.
    + split; [done|]. intros Hh. exfalso. apply (Hr 0%nat 4%nat); [lia|left; split; lia|done].
Qed.

(** The answers of a checker that is right whenever it is in a good state. *)
Lemma call_all_exact n (ok : ModificationChecker IS -> Prop) rows c :
  (forall c i, ok c -> 0 <= i -> exists r c', call_checker info (GroupTable root) i c = Some (r, c') /\ ok c' /\
     (r = true <-> modified_within info n (root, i))) ->
  ok c -> Forall (fun i => 0 <= i) rows ->
  exists rs, call_checker_all info (GroupTable root) rows c = Some rs /\
    Forall2 (fun i (r : bool) => r = true <-> modified_within info n (root, i)) rows rs.
Proof.
  intros Hcall. revert c. induction rows as [|i rows IH]; intros c Hok Hi; [by exists []|].
  apply Forall_cons in Hi as [Hi Hi']. destruct (Hcall c i Hok Hi) as (r & c' & E & Hok' & Hr).
  destruct (IH c' Hok' Hi') as (rs & E' & Hrs). simpl. rewrite E. cbn [mbind option_bind]. rewrite E'.
  cbn [mbind option_bind]. exists (r :: rs). split; [done|]. by constructor.
Qed.
End checker.

Section theorems.
Context `{IndexSetLaws IS} `{LinkedTables}.

(** A table that reaches only itself, and does not link to itself, has no links. *)
Lemma alone_links root tbl :
  (forall b, b ∈ related_ndx <$> [tbl] <-> rtc table_link root b) ->
  ~ table_link root root \/ (exists b, b <> root /\ rtc table_link root b) -> table_links (GroupTable root) = [].
Proof.
  intros Hreach Hself. assert (Hone : forall b, rtc table_link root b -> b = root).
  { assert (Hr : root = related_ndx tbl) by (apply list_elem_of_singleton, Hreach; constructor).
    intros b Hb. apply Hreach in Hb. rewrite Hr. by apply list_elem_of_singleton in Hb. }
  destruct Hself as [Hself|(b & Hb & Hr)]; [|by apply Hone in Hr].
  destruct (table_links (GroupTable root)) as [|l ls] eqn:El; [done|]. destruct Hself.
  assert (Hl : table_link root (get_link_target (GroupTable root) (col_of l))) by (exists l; split; [rewrite El; left|done]).
  by rewrite (Hone _ (rtc_once _ _ Hl)) in Hl.
Qed.

(** How many links the checker follows: none if no other table is involved *)
Definition links_followed (related : list RelatedTable) : nat := match related with [_] => 0 | _ => 3 end.

(** C22: over any sequence of rows the checker answers exactly whether the row,
    or one that at most three links lead to, was modified, where the rows of a
    table that reaches no other one are only looked at themselves. That is no
    difference for a table without links to itself; links of such a table to its
    own rows are not followed ([self_links_missed]). The tables the checker needs
    are found by the search over link targets, which ends. *)
Theorem modification_checker_exact info root n fuel old rows :
  (forall a b, (a < n)%nat -> table_link a b -> (b < n)%nat) -> (root < n < fuel)%nat ->
  (schema_changed info = false -> set_table fuel (GroupTable root) = Some old) ->
  Forall (fun b => ix_valid (modifications b)) (tables info) ->
  (forall t l row j, j ∈ linked_rows t l row -> 0 <= j) -> Forall (fun i => 0 <= i) rows ->
  exists related c answers,
    get_modification_checker fuel old info (GroupTable root) = Some (related, c) /\
    (forall b, b ∈ related_ndx <$> related <-> rtc table_link root b) /\
    call_checker_all info (GroupTable root) rows c = Some answers /\
    Forall2 (fun i (r : bool) => r = true <-> modified_within info (links_followed related) (root, i)) rows answers /\
    (~ table_link root root \/ (exists b, b <> root /\ rtc table_link root b) ->
     forall i, modified_within info (links_followed related) (root, i) <-> modified_within info 3 (root, i)).
Proof.
  intros Hn Hroot Hold Hvalid Hrows Hi.
  destruct (find_related_spec n fuel root Hn Hroot) as (related & E & Honce & Hcomplete & Hreach).
  assert (Er : (if schema_changed info then set_table fuel (GroupTable root) else Some old) = Some related).
  { destruct (schema_changed info); [done|]. by rewrite Hold in E. }
  assert (Hdepth : ~ table_link root root \/ (exists b, b <> root /\ rtc table_link root b) ->
    forall i, modified_within info (links_followed related) (root, i) <-> modified_within info 3 (root, i)).
  { intros Hself i. destruct related as [|tbl [|tbl2 related']]; [done| |done].
    pose proof (alone_links _ _ Hreach Hself) as Hno. cbn [links_followed]. by rewrite !(alone_modified info root). }
  unfold get_modification_checker. rewrite Er. cbn [mbind option_bind].
  destruct (existsb (any_modified info) related) eqn:Eany; cbn [negb].
  2: { destruct (call_all_exact info root (links_followed related) (fun c => c = never_modified) rows never_modified) as (rs & Ea & Hrs); [|done..|].
    { intros c i -> _. exists false, never_modified. split; [done|]. split; [done|]. split; [done|].
      intros Hm. exfalso. eapply (none_modified info root related); [done..|constructor|exact Hm]. }
    by exists related, never_modified, rs. }
  assert (Hin : root ∈ related_ndx <$> related) by (apply Hreach; constructor).
  destruct related as [|tbl [|tbl2 related']]; [by apply elem_of_nil in Hin| |].
  - apply list_elem_of_singleton in Hin. cbn in Hin. subst root.
    destruct (tables info !! related_ndx tbl) as [b|] eqn:Eb; [|by cbn in Eany; unfold any_modified in Eany; rewrite Eb in Eany].
    cbn [mbind option_bind].
    destruct (call_all_exact info (related_ndx tbl) 0 (fun c => c = modified_in (modifications b)) rows (modified_in (modifications b)))
      as (rs & Ea & Hrs); [|done..|by exists [tbl], (modified_in (modifications b)), rs].
    intros c i -> Hi0. cbn [call_checker]. rewrite Forall_lookup in Hvalid.
    rewrite ix_contains_has by (by eapply Hvalid). cbn [mbind option_bind].
    eexists _, _. split; [done|]. split; [done|]. transitivity (changed info (related_ndx tbl, i)); [|split; [by left|by intros [?|?]]].
    unfold changed. cbn. rewrite Eb. apply bool_decide_eq_true.
  - set (related := tbl :: tbl2 :: related') in *.
    destruct (call_all_exact info root 3 (fun c => exists s, c = deep_checker related s /\ search_ok info s) rows
      (deep_checker related new_checker)) as (rs & Ea & Hrs); [|exists new_checker; split; [done|]|done|].
    + intros c i (s & -> & Hok) Hi0. cbn [call_checker].
      destruct (check_exact info root related Hvalid Hrows Hcomplete Hreach s i Hok Hi0) as (r & s' & -> & Hok' & Hr).
      cbn [mbind option_bind]. exists r, (deep_checker related s'). split; [done|]. split; [by exists s'|done].
    + split; [done|constructor|]. intros ndx known i Hk. by destruct ndx.
    + by exists related, (deep_checker related new_checker), rs.
Qed.
End theorems.

(** ** Concrete runs *)
Section witnesses.
#[local] Existing Instance debug_chunk_size.
#[local] Instance debug_build_deep : BuildMode := {| realm_debug := true |}.

(** Table 0 links to table 1, whose second column is a list of rows of table
    2, which links back to table 0. *)
#[local] Instance three_tables : LinkedTables := {|
  get_column_count t := match t with GroupTable 1 => 2%nat | _ => 1%nat end;
  get_column_type t c := match t, c with
    | GroupTable 0, _ | GroupTable 2, _ => type_Link
    | GroupTable 1, 1%nat => type_LinkList
    | _, _ => not_a_link
    end;
  get_link_target t _ := match t with GroupTable 0 => 1%nat | GroupTable 1 => 2%nat | _ => 0%nat end;
  is_null_link _ _ _ := false;
  get_link _ _ row := Z.abs row;
  get_linklist _ _ row := [Z.abs row; Z.abs row + 1]
|}.

Definition modified_at (i : Z) : CollectionChangeBuilder crv :=
  default ChangeBuilder.empty_builder (ChangeBuilder.modify ChangeBuilder.empty_builder i npos).

Lemma modified_at_valid : ix_valid (modifications (modified_at 1)).
Proof.
  assert (E : ix_add ix_nil 1 = Some (modifications (modified_at 1))) by reflexivity.
  destruct (ix_add_has (ix_nil : crv) 1 ix_nil_valid) as (m & E' & Hm & _); [lia|].
  rewrite E in E'. apply (inj Some) in E'. by rewrite E'.
Qed.

(** Row 1 of table 2 was modified. *)
Definition third_modified : TransactionChangeInfo crv :=
  mkInfo [] [] [] [ChangeBuilder.empty_builder; ChangeBuilder.empty_builder; modified_at 1] [] [] false true.

Lemma three_table_links a b : (a < 3)%nat -> table_link a b -> (b < 3)%nat.
Proof. intros _ (l & _ & ->). cbn. destruct a as [|[|a]]; lia. Defined.

Lemma three_table_rows t l row j : j ∈ linked_rows t l row -> 0 <= j.
Proof.
  unfold linked_rows. cbn. destruct (is_list_of l).
  - intros [-> |[-> |[]%elem_of_nil]%elem_of_cons]%elem_of_cons; lia.
  - intros [-> |[]%elem_of_nil]%elem_of_cons. lia.
Defined.

Lemma modification_checker_exact_witness :
  exists related c answers,
    get_modification_checker 4 [] third_modified (GroupTable 0) = Some (related, c) /\
    (forall b, b ∈ related_ndx <$> related <-> rtc table_link 0%nat b) /\
    call_checker_all third_modified (GroupTable 0) [2; 1; 0; 2] c = Some answers /\
    Forall2 (fun i (r : bool) => r = true <-> modified_within third_modified (links_followed related) (0%nat, i)) [2; 1; 0; 2] answers /\
    (~ table_link 0%nat 0%nat \/ (exists b, b <> 0%nat /\ rtc table_link 0%nat b) ->
     forall i, modified_within third_modified (links_followed related) (0%nat, i) <-> modified_within third_modified 3 (0%nat, i)).
Proof.
  apply (modification_checker_exact third_modified 0 3 4 [] [2; 1; 0; 2]).
  - exact three_table_links.
  - lia.
  - intros Hs. discriminate Hs.
  - apply Forall_cons_2; [apply ix_nil_valid|]. apply Forall_cons_2; [apply ix_nil_valid|].
    apply Forall_cons_2; [exact modified_at_valid|apply Forall_nil_2].
  - exact three_table_rows.
  - repeat constructor; discriminate.
Defined.

End witnesses.

(** *** Where the code falls short *)
Section self_links.
#[local] Existing Instance debug_chunk_size.
#[local] Instance debug_build_self : BuildMode := {| realm_debug := true |}.

(** One table whose rows link to the next row; row 1 was modified. *)
#[local] Instance self_linked : LinkedTables := {|
  get_column_count _ := 1%nat;
  get_column_type _ _ := type_Link;
  get_link_target _ _ := 0%nat;
  is_null_link _ _ row := 1 <=? row;
  get_link _ _ row := row + 1;
  get_linklist _ _ _ := []
|}.
Definition next_modified : TransactionChangeInfo crv := mkInfo [] [] [] [modified_at 1] [] [] false true.

(** The checker looks no further than the row when its table is the only one
    involved, although a row the row links to was modified. *)
Theorem self_links_missed :
  exists related c,
    get_modification_checker 2 [] next_modified (GroupTable 0) = Some (related, c) /\
    call_checker_all next_modified (GroupTable 0) [0] c = Some [false] /\
    modified_within next_modified 3 (0%nat, 0).
Proof.
  eexists _, _. split; [reflexivity|]. split; [reflexivity|]. right. exists (0%nat, 1). split.
  - exists (mkOutgoingLink 0 false). split; [left|]. split; [reflexivity|left].
  - left. vm_compute. left. split; [discriminate|reflexivity].
Qed.
End self_links.
