(* ===== verification/Notifier.v ===== *)
(** * Collection notifiers: the callbacks

    [CollectionNotifier] of [impl/collection_notifier.cpp] and its header: the
    callbacks of one notifier, the changes each has yet to be told, packaging
    and delivering them.  The mutexes are not modelled: each method holds them
    throughout, except while it calls a callback. *)
From stdpp Require Import gmap.
From S2P Require Import Prelude.
From S2P Require Import CallbackLoop.
From S2P Require Import IndexSetInterface.
From S2P Require Import ChangeBuilder.

(** [CollectionNotifier::Callback]; the user's function is known by the token *)
Record Callback {IS : Type} := mkCallback {
  accumulated_changes : CollectionChangeBuilder IS;
  changes_to_deliver : CollectionChangeSet IS;
  token : Z;
  initial_delivered : bool;
  skip_next : bool
}.
Arguments Callback : clear implicits.
Arguments mkCallback {IS}.

(** A call of a user's function. *)
Inductive notification {IS : Type} :=
  | notify_before (token : Z) (changes : CollectionChangeSet IS)
  | notify_after (token : Z) (changes : CollectionChangeSet IS)
  | notify_error (token : Z).
Arguments notification : clear implicits.

(** The fields of [CollectionNotifier] the callbacks' methods use, and the
    calls made so far. *)
Record CollectionNotifier {IS : Type} := mkNotifier {
  m_callbacks : list (Callback IS);
  m_callback_index : Z;
  m_callback_count : Z;
  m_next_token : Z;
  m_have_callbacks : bool;
  m_error : bool;
  m_calls : list (notification IS)
}.
Arguments CollectionNotifier : clear implicits.
Arguments mkNotifier {IS}.

(** What the user's function does to the notifier while it runs. *)
Inductive action := act_add | act_remove (token : Z).

Module Notifier.
Section notifier.
Context `{IndexSetOps IS} `{BuildMode}.
Abbreviation callback := (Callback IS).
Abbreviation notifier := (CollectionNotifier IS).
Implicit Types (cb : callback) (n : notifier).

Definition empty_changes : CollectionChangeSet IS := mkCollectionChangeSet ix_nil ix_nil ix_nil ix_nil [] [].
Definition new_notifier : notifier := mkNotifier [] size_max size_max 0 false false [].

(** [CollectionChangeSet::empty] *)
Definition changes_empty (c : CollectionChangeSet IS) : bool :=
  ix_empty (c_deletions c) && ix_empty (c_insertions c) && ix_empty (c_modifications c)
  && ix_empty (c_modifications_new c) && match c_moves c with [] => true | _ => false end.

Definition set_callbacks (l : list callback) n : notifier :=
  mkNotifier l (m_callback_index n) (m_callback_count n) (m_next_token n) (m_have_callbacks n) (m_error n) (m_calls n).
Definition set_callback_index (i : Z) n : notifier :=
  mkNotifier (m_callbacks n) i (m_callback_count n) (m_next_token n) (m_have_callbacks n) (m_error n) (m_calls n).
Definition set_callback_count (c : Z) n : notifier :=
  mkNotifier (m_callbacks n) (m_callback_index n) c (m_next_token n) (m_have_callbacks n) (m_error n) (m_calls n).
Definition set_error n : notifier :=
  mkNotifier (m_callbacks n) (m_callback_index n) (m_callback_count n) (m_next_token n) (m_have_callbacks n) true (m_calls n).
Definition call (c : notification IS) n : notifier :=
  mkNotifier (m_callbacks n) (m_callback_index n) (m_callback_count n) (m_next_token n) (m_have_callbacks n) (m_error n)
    (m_calls n ++ [c]).

(** [add_callback] *)
Definition add_callback n : notifier * Z :=
  let token := m_next_token n in
  (mkNotifier (m_callbacks n ++ [mkCallback ChangeBuilder.empty_builder empty_changes token false false])
     (m_callback_index n) (m_callback_count n) (token + 1)
     (if m_callback_index n =? size_max then true else m_have_callbacks n) (m_error n) (m_calls n), token).

(** [find_callback]: the position, the length of the vector for the end *)
Definition find_callback n (t : Z) : option nat :=
  _ ← realm_assert (m_error n || (0 <? length (m_callbacks n))%nat);
  let it := find_if (fun cb => token cb =? t) (m_callbacks n) in
  _ ← realm_assert (m_error n || negb (it =? length (m_callbacks n))%nat);
  Some it.

(** [remove_callback] *)
Definition remove_callback n (t : Z) : option notifier :=
  idx ← find_callback n t;
  if (idx =? length (m_callbacks n))%nat then Some n
  else
    let callbacks := delete idx (m_callbacks n) in
    Some (mkNotifier callbacks
      (if negb (m_callback_index n =? size_max) && (Z.of_nat idx <=? m_callback_index n)
       then wrap (m_callback_index n - 1) else m_callback_index n)
      (wrap (m_callback_count n - 1)) (m_next_token n)
      (match callbacks with [] => false | _ => true end) (m_error n) (m_calls n)).

(** [suppress_next_notification] *)
Definition suppress_next_notification n (t : Z) : option notifier :=
  it ← find_callback n t;
  match m_callbacks n !! it with
  | Some cb =>
    Some (set_callbacks (<[it := mkCallback (accumulated_changes cb) (changes_to_deliver cb) (token cb)
                                   (initial_delivered cb) true]> (m_callbacks n)) n)
  | None => Some n
  end.

(** [add_changes]: the last callback takes the change itself, the others copies *)
Definition add_change (change : CollectionChangeBuilder IS) cb : option callback :=
  if skip_next cb then
    _ ← realm_assert_debug (Some (ChangeBuilder.empty (accumulated_changes cb)));
    Some (mkCallback (accumulated_changes cb) (changes_to_deliver cb) (token cb) (initial_delivered cb) false)
  else
    acc ← ChangeBuilder.merge (accumulated_changes cb) change;
    Some (mkCallback acc (changes_to_deliver cb) (token cb) (initial_delivered cb) false).
Definition add_changes n (change : CollectionChangeBuilder IS) : option notifier :=
  l ← mapM (add_change change) (m_callbacks n); Some (set_callbacks l n).

(** [package_for_delivery]; [ready] is what the derived class's
    [prepare_to_deliver] answers.  [finalize] moves every index set out of the
    accumulated changes. *)
Definition moved_from (b : CollectionChangeBuilder IS) : CollectionChangeBuilder IS :=
  mkBuilder ix_nil ix_nil ix_nil [] [] (m_move_mapping b) (m_track_columns b).
Definition package cb : option callback :=
  changes ← ChangeBuilder.finalize (accumulated_changes cb);
  Some (mkCallback (moved_from (accumulated_changes cb)) changes (token cb) (initial_delivered cb) (skip_next cb)).
Definition package_for_delivery (ready : bool) n : option (notifier * bool) :=
  if negb ready then Some (n, false)
  else
    l ← mapM package (m_callbacks n);
    Some (set_callback_count (Z.of_nat (length l)) (set_callbacks l n), true).

(** *** [for_each_callback] *)
Definition cursor n : Cursor := mkCursor (token <$> m_callbacks n) (m_callback_index n) (m_callback_count n).
Definition for_each_callback (fn : notifier -> option notifier) (fuel : nat) n : option notifier :=
  _ ← realm_assert_debug (Some (m_callback_count n <=? Z.of_nat (length (m_callbacks n))));
  loop (callback_step cursor set_callback_index fn) fuel (set_callback_index (wrap (m_callback_index n + 1)) n).

Definition current_callback n : option callback := m_callbacks n !! Z.to_nat (m_callback_index n).

(** The user's function runs with the mutex released. *)
Fixpoint run_actions (l : list action) n : option notifier :=
  match l with
  | [] => Some n
  | act_add :: l => run_actions l (add_callback n).1
  | act_remove t :: l => n ← remove_callback n t; run_actions l n
  end.

Section user.
Context (act : notification IS -> list action).

Definition invoke (c : notification IS) n : option notifier := run_actions (act c) (call c n).

(** [before_advance] *)
Definition before_one n : option notifier :=
  cb ← current_callback n;
  if changes_empty (changes_to_deliver cb) then Some n
  else invoke (notify_before (token cb) (changes_to_deliver cb)) n.
Definition before_advance (fuel : nat) n : option notifier := for_each_callback before_one fuel n.

(** [after_advance] *)
Definition after_one n : option notifier :=
  cb ← current_callback n;
  if initial_delivered cb && changes_empty (changes_to_deliver cb) then Some n
  else
    let delivered := mkCallback (accumulated_changes cb) empty_changes (token cb) true (skip_next cb) in
    invoke (notify_after (token cb) (changes_to_deliver cb))
      (set_callbacks (<[Z.to_nat (m_callback_index n) := delivered]> (m_callbacks n)) n).
Definition after_advance (fuel : nat) n : option notifier := for_each_callback after_one fuel n.

(** [deliver_error] *)
Definition error_one n : option notifier :=
  cb ← current_callback n;
  n ← invoke (notify_error (token cb)) n;
  remove_callback n (token cb).
Definition deliver_error (fuel : nat) n : option notifier :=
  let n := set_error n in
  for_each_callback error_one fuel (set_callback_count (Z.of_nat (length (m_callbacks n))) n).
End user.
End notifier.
End Notifier.
