(* ===== verification/NotifierTheorems.v ===== *)
(** * Theorems about the callbacks of a notifier *)
From stdpp Require Import gmap.
From S2P Require Import Prelude.
From S2P Require Import CallbackLoop.
From S2P Require Import RangeList.
From S2P Require Import ChunkedVector.
From S2P Require Import IndexSets.
From S2P Require Import IndexSetInterface.
From S2P Require Import Positions.
From S2P Require Import ChangeBuilder.
From S2P Require Import ChangeBuilderFacts.
From S2P Require Import ChangeMerge.
From S2P Require Import Notifier.

(** ** Facts about the callbacks of a notifier

    What a user's function may do to the notifier while it runs, the two
    delivery loops, and the changes accumulated between two deliveries. *)
Import Notifier.

Lemma find_if_fmap {A B} (f : A -> B) (p : B -> bool) l : find_if p (f <$> l) = find_if (fun x => p (f x)) l.
Proof. induction l as [|x l IH]; [done|]. rewrite fmap_cons. cbn [find_if]. by rewrite IH. Qed.

Lemma find_if_found {A} (p : A -> bool) l x : x ∈ l -> p x = true -> (find_if p l < length l)%nat.
Proof.
  induction 1 as [x l|x y l _ IH]; intros Hp; simpl; [rewrite Hp; lia|].
  destruct (p y); [lia|]. specialize (IH Hp). lia.
Qed.

Lemma remove_token_other c t x : x ∈ cur_tokens c -> x <> t -> x ∈ cur_tokens (remove_token c t).
Proof.
  unfold remove_token. destruct (find_if_split (fun x => x =? t) (cur_tokens c)) as (l1 & l2 & E & -> & _ & Ht).
  intros Hx Hne. destruct (Nat.eqb_spec (length l1) (length (cur_tokens c))); [done|]. cbn [cur_tokens].
  rewrite E in *. destruct l2 as [|y l2]; [by rewrite app_nil_r in *|]. apply Z.eqb_eq in Ht as ->.
  rewrite delete_at_middle. rewrite elem_of_app, elem_of_cons in *. tauto.
Qed.

Section facts.
Context `{IndexSetLaws IS} `{BuildMode}.
Abbreviation callback := (Callback IS).
Abbreviation notifier := (CollectionNotifier IS).
Implicit Types (cb : callback) (n : notifier).

(** The callbacks a list of actions unregisters. *)
Definition removed (l : list action) : list Z :=
  omap (fun a => match a with act_add => None | act_remove t => Some t end) l.

Lemma remove_callback_spec n t :
  t ∈ cur_tokens (cursor n) ->
  exists n', remove_callback n t = Some n' /\ cursor n' = remove_token (cursor n) t /\
    m_next_token n' = m_next_token n /\ m_calls n' = m_calls n /\ m_error n' = m_error n /\
    forall cb, cb ∈ m_callbacks n' -> cb ∈ m_callbacks n.
Proof.
  cbn [cursor cur_tokens]. intros Ht. apply list_elem_of_fmap in Ht as (cb & -> & Hcb).
  pose proof (find_if_found (fun x => token x =? token cb) _ cb Hcb (Z.eqb_refl _)) as Hf.
  unfold remove_callback, find_callback.
  assert (Hlen : (0 <? length (m_callbacks n))%nat = true) by (apply Nat.ltb_lt; lia).
  rewrite Hlen, orb_true_r. cbn [realm_assert mbind option_bind].
  rewrite (proj2 (Nat.eqb_neq _ _)) by lia. cbn [negb]. rewrite orb_true_r. cbn [realm_assert mbind option_bind].
  rewrite (proj2 (Nat.eqb_neq _ _)) by lia. eexists. split; [done|]. split.
  - unfold remove_token, cursor. cbn. rewrite find_if_fmap, length_fmap, (proj2 (Nat.eqb_neq _ _)) by lia.
    by rewrite list_fmap_delete.
  - cbn. repeat (split; [done|]). intros cb' Hcb'. by apply list_elem_of_delete_inv in Hcb'.
Qed.

(** What a user's function does, when it unregisters only callbacks that are
    registered, each once. *)
Lemma run_actions_spec bound l n :
  bound <= m_next_token n -> Forall (fun t => t < bound) (removed l) -> NoDup (removed l) ->
  (forall t, t ∈ removed l -> t ∈ cur_tokens (cursor n)) ->
  exists n', run_actions l n = Some n' /\ acts bound (removed l) (cursor n) (cursor n') /\
    bound <= m_next_token n' /\ m_calls n' = m_calls n /\ m_error n' = m_error n /\
    forall cb, cb ∈ m_callbacks n' -> cb ∈ m_callbacks n \/ bound <= token cb.
Proof.
  revert n. induction l as [|[|t] l IH]; intros n Hn Hb Hnd Hin; cbn [run_actions].
  - exists n. split; [done|]. split; [constructor|]. split; [done|]. split; [done|]. split; [done|]. by left.
  - assert (E : cursor (add_callback n).1 = add_token (cursor n) (m_next_token n)).
    { unfold cursor, add_token. cbn. by rewrite fmap_app. }
    destruct (IH (add_callback n).1) as (n' & En & Ha & Hn' & Hc & He & Hcbs); [cbn; lia|done|done| |].
    { intros t Ht. rewrite E. cbn. apply elem_of_app. left. by apply Hin. }
    exists n'. split; [done|]. split; [apply (acts_add _ (m_next_token n)); [done|by rewrite <- E]|].
    split; [done|]. split; [done|]. split; [done|].
    intros cb [Hcb|?]%Hcbs; [|by right]. cbn in Hcb. apply elem_of_app in Hcb as [?| ->%list_elem_of_singleton]; [by left|by right].
  - cbn [removed omap list_omap] in *. apply Forall_cons in Hb as [Ht Hb]. apply NoDup_cons in Hnd as [Hnt Hnd].
    destruct (remove_callback_spec n t) as (n1 & -> & E1 & Hn1 & Hc1 & He1 & Hcbs1); [apply Hin; left|].
    cbn [mbind option_bind]. destruct (IH n1) as (n' & En & Ha & Hn' & Hc & He & Hcbs); [by rewrite Hn1|done|done| |].
    { intros x Hx. rewrite E1. apply remove_token_other; [apply Hin; by right|]. by intros ->. }
    exists n'. split; [done|]. split; [apply acts_remove; by rewrite <- E1|]. split; [done|].
    split; [by rewrite Hc|]. split; [by rewrite He|]. intros cb [Hcb|?]%Hcbs; [left; by apply Hcbs1|by right].
Qed.

(** ** A delivery

    [before_advance] and [after_advance] skip the [quiet] callbacks, and
    otherwise change the callback by [finish] and make the call [notify]. *)
Section delivery.
Context (act : notification IS -> list action).
Context (quiet : callback -> bool) (notify : callback -> notification IS) (finish : callback -> callback).
Hypothesis Hfinish : forall cb, token (finish cb) = token cb.

Definition deliver_one n : option notifier :=
  cb ← current_callback n;
  if quiet cb then Some n
  else invoke act (notify cb) (set_callbacks (<[Z.to_nat (m_callback_index n) := finish cb]> (m_callbacks n)) n).

(** The notifier when the delivery starts: [counted] callbacks are to be
    called, the callbacks [extra] were registered after packaging. *)
Context (bound : Z) (counted extra : list callback) (calls : list (notification IS)).
Hypothesis Hcounted : NoDup (token <$> counted).
Hypothesis Hbelow : Forall (fun cb => token cb < bound) counted.
Hypothesis Habove : Forall (fun cb => bound <= token cb) extra.
Hypothesis Hlen : Z.of_nat (length counted) < 2 ^ 64 - 1.

(** The calls a callback gets, and the callbacks it unregisters. *)
Definition told (t : Z) : list (notification IS) :=
  match list_find (fun cb => token cb = t) counted with
  | Some (_, cb) => if quiet cb then [] else [notify cb]
  | None => []
  end.
Definition removes (t : Z) : list Z := told t ≫= (removed ∘ act).

Hypothesis Honce : NoDup ((token <$> counted) ≫= removes).
Hypothesis Hknown : forall t, t ∈ (token <$> counted) ≫= removes -> t ∈ token <$> counted.

Definition finished (called : list Z) cb0 cb : Prop :=
  cb = if decide (token cb0 ∈ called) then (if quiet cb0 then cb0 else finish cb0) else cb0.

Record delivering (called : list Z) n : Prop := {
  delivering_calls : m_calls n = calls ++ (called ≫= told);
  delivering_next : bound <= m_next_token n;
  delivering_callbacks cb : cb ∈ m_callbacks n -> bound <= token cb \/ exists cb0, cb0 ∈ counted /\ finished called cb0 cb
}.

Lemma counted_find cb : cb ∈ counted -> exists i, list_find (fun x => token x = token cb) counted = Some (i, cb).
Proof.
  intros Hcb. destruct (list_find_elem_of (fun x => token x = token cb) counted cb Hcb eq_refl) as [[i x] E].
  exists i. rewrite E. apply list_find_Some in E as (Hx & Et & _). apply list_elem_of_lookup_2 in Hx.
  by rewrite (NoDup_key_inj token counted x cb).
Qed.

Lemma removes_below t : Forall (fun x => x < bound) (removes t).
Proof.
  destruct (decide (t ∈ token <$> counted)) as [Hin|Hin].
  - apply Forall_forall. intros x Hx.
    assert (Hc : x ∈ token <$> counted) by (apply Hknown; apply list_elem_of_bind; by exists t).
    apply list_elem_of_fmap in Hc as (cb & -> & Hcb). rewrite Forall_forall in Hbelow. by apply Hbelow.
  - unfold removes, told. destruct (list_find _ counted) as [[i cb]|] eqn:E; [|constructor].
    apply list_find_Some in E as (Hcb & <- & _). destruct Hin. apply list_elem_of_fmap_2. by eapply list_elem_of_lookup_2.
Qed.

Lemma finished_more called cb0 cb t :
  finished called cb0 cb -> token cb0 <> t -> finished (called ++ [t]) cb0 cb.
Proof.
  unfold finished. intros -> Hne. destruct (decide (token cb0 ∈ called)) as [Hc|Hc].
  - rewrite decide_True by (apply elem_of_app; by left). done.
  - rewrite decide_False by (rewrite elem_of_app, list_elem_of_singleton; intros [?| ?]; congruence). done.
Qed.

(** Removals of different callbacks do not overlap. *)
Lemma removes_apart called t x :
  called ++ [t] `sublist_of` (token <$> counted) -> x ∈ removes t -> x ∉ called ≫= removes.
Proof.
  intros Hsub Hx (u & Hxu & Hu)%list_elem_of_bind.
  assert (Hnd : NoDup ((called ++ [t]) ≫= removes)).
  { eapply sublist_NoDup; [exact Honce|]. clear -Hsub. induction Hsub as [|y l1 l2 _ IH|y l1 l2 _ IH]; simpl; [done| |].
    - by apply sublist_app.
    - by apply sublist_inserts_l. }
  rewrite bind_app in Hnd. apply NoDup_app in Hnd as (_ & Hdis & _).
  apply (Hdis x); [apply list_elem_of_bind; by exists u|]. cbn. by rewrite app_nil_r.
Qed.

(** The callbacks registered before packaging have unique positions. *)
Lemma counted_position (l ex : list Z) i j t :
  NoDup l -> Forall (fun x => bound <= x) ex -> t < bound ->
  (l ++ ex) !! i = Some t -> (l ++ ex) !! j = Some t -> i = j.
Proof.
  intros Hnd Hex Ht. assert (Hl : forall k, (l ++ ex) !! k = Some t -> l !! k = Some t).
  { intros k Hk. apply lookup_app_Some in Hk as [?|[_ Hk]]; [done|].
    rewrite Forall_lookup in Hex. specialize (Hex _ _ Hk). lia. }
  intros Hi%Hl Hj%Hl. by eapply NoDup_lookup.
Qed.

Lemma told_counted cb : cb ∈ counted -> told (token cb) = if quiet cb then [] else [notify cb].
Proof. intros Hcb. unfold told. by destruct (counted_find cb Hcb) as [i ->]. Qed.

Lemma finished_token called cb0 cb : finished called cb0 cb -> token cb = token cb0.
Proof. unfold finished. intros ->. destruct (decide _); [destruct (quiet cb0); [done|apply Hfinish]|done]. Qed.

(** The callback the loop has reached *)
Lemma delivering_current called n t :
  delivering called n -> called ++ [t] `sublist_of` (token <$> counted) -> 0 <= m_callback_index n ->
  (token <$> m_callbacks n) !! Z.to_nat (m_callback_index n) = Some t ->
  exists cb, current_callback n = Some cb /\ cb ∈ counted /\ token cb = t /\ (t ∉ called) /\ t < bound.
Proof.
  intros [_ _ Hcbs] Hsub Hi Ht.
  assert (Hnd : NoDup (called ++ [t])) by (eapply sublist_NoDup; [exact Hcounted|done]).
  apply NoDup_app in Hnd as (_ & Hdis & _).
  assert (Htc : t ∉ called) by (intros Hin; apply (Hdis _ Hin); left).
  assert (Hall : t ∈ token <$> counted) by (apply (sublist_subseteq _ _ Hsub), elem_of_app; right; left).
  apply list_elem_of_fmap in Hall as (cb1 & Et1 & Hcb1).
  assert (Hb : t < bound) by (rewrite Forall_forall in Hbelow; rewrite Et1; by apply Hbelow).
  rewrite list_lookup_fmap in Ht. unfold current_callback.
  destruct (m_callbacks n !! _) as [cb|] eqn:E; [|done]. injection Ht as Et.
  destruct (Hcbs cb) as [Hge|(cb0 & Hcb0 & Hf)]; [by eapply list_elem_of_lookup_2|lia|].
  pose proof (finished_token _ _ _ Hf) as Etok. unfold finished in Hf.
  rewrite decide_False in Hf by (rewrite <- Etok, Et; done). subst cb. by exists cb0.
Qed.

Lemma quiet_step called n cb :
  delivering called n -> cb ∈ counted -> token cb ∉ called -> quiet cb = true ->
  delivering (called ++ [token cb]) n /\ removes (token cb) = [].
Proof.
  intros [Hc Hn Hcbs] Hcb Ht Hq. split; [split|].
  - rewrite bind_app. cbn. by rewrite (told_counted cb Hcb), Hq, !app_nil_r.
  - done.
  - intros cb' Hcb'. destruct (Hcbs cb' Hcb') as [?|(cb0 & Hcb0 & Hf)]; [by left|right]. exists cb0. split; [done|].
    destruct (decide (token cb0 = token cb)) as [E|E]; [|by apply finished_more].
    assert (cb0 = cb) as -> by (by eapply (NoDup_key_inj token counted)).
    unfold finished in *. rewrite decide_False in Hf by done. subst cb'.
    rewrite decide_True by (apply elem_of_app; right; left). by rewrite Hq.
  - unfold removes. by rewrite (told_counted cb Hcb), Hq.
Qed.

Lemma told_step called n cb ex n' :
  delivering called n -> cb ∈ counted -> token cb ∉ called -> token cb < bound -> quiet cb = false ->
  m_callbacks n !! Z.to_nat (m_callback_index n) = Some cb ->
  token <$> m_callbacks n = left_by (called ≫= removes) (token <$> counted) ++ ex -> Forall (fun t => bound <= t) ex ->
  bound <= m_next_token n' -> m_calls n' = m_calls n ++ [notify cb] ->
  (forall cb', cb' ∈ m_callbacks n' ->
     cb' ∈ <[Z.to_nat (m_callback_index n) := finish cb]> (m_callbacks n) \/ bound <= token cb') ->
  delivering (called ++ [token cb]) n'.
Proof.
  intros [Hc Hn Hcbs] Hcb Ht Hlt Hq Hat Htok Hex Hn' Hc' Hcbs'. split.
  - rewrite Hc', Hc, bind_app. cbn. by rewrite (told_counted cb Hcb), Hq, app_nil_r, <- app_assoc.
  - done.
  - intros cb' [Hin|?]%Hcbs'; [|by left]. apply list_elem_of_lookup in Hin as [j Hj].
    destruct (decide (j = Z.to_nat (m_callback_index n))) as [->|Hne].
    { rewrite list_lookup_insert_eq in Hj by (by eapply lookup_lt_Some). injection Hj as <-. right. exists cb. split; [done|].
      unfold finished. rewrite decide_True by (apply elem_of_app; right; left). by rewrite Hq. }
    rewrite list_lookup_insert_ne in Hj by done.
    destruct (Hcbs cb') as [?|(cb0 & Hcb0 & Hf)]; [by eapply list_elem_of_lookup_2|by left|right]. exists cb0. split; [done|].
    apply finished_more; [done|]. intros E. apply Hne.
    apply (counted_position (left_by (called ≫= removes) (token <$> counted)) ex j (Z.to_nat (m_callback_index n)) (token cb));
      [by apply NoDup_filter|done|done| |]; rewrite <- Htok, list_lookup_fmap, ?Hj, ?Hat; cbn; [|done].
    by rewrite (finished_token _ _ _ Hf), E.
Qed.

Lemma deliver_one_spec called n t ex :
  delivering called n -> called ++ [t] `sublist_of` (token <$> counted) -> t ∉ called ≫= removes ->
  cur_tokens (cursor n) = left_by (called ≫= removes) (token <$> counted) ++ ex -> Forall (fun t => bound <= t) ex ->
  0 <= cur_index (cursor n) -> cur_tokens (cursor n) !! Z.to_nat (cur_index (cursor n)) = Some t ->
  exists n', deliver_one n = Some n' /\ acts bound (removes t) (cursor n) (cursor n') /\ delivering (called ++ [t]) n'.
Proof.
  cbn [cursor cur_tokens cur_index]. intros Hd Hsub Hgone Htok Hex Hi Hat.
  destruct (delivering_current called n t Hd Hsub Hi Hat) as (cb & Hcur & Hcb & <- & Htc & Hlt).
  unfold deliver_one. rewrite Hcur. cbn [mbind option_bind]. destruct (quiet cb) eqn:Hq.
  { destruct (quiet_step called n cb Hd Hcb Htc Hq) as [Hd' ->]. exists n. split; [done|]. split; [constructor|done]. }
  unfold invoke. set (n1 := call _ _).
  assert (Hcur1 : cursor n1 = cursor n).
  { unfold n1, cursor. cbn. unfold current_callback in Hcur. rewrite list_fmap_insert, Hfinish.
    by rewrite list_insert_id by (by rewrite list_lookup_fmap, Hcur). }
  assert (Er : removes (token cb) = removed (act (notify cb))).
  { unfold removes. rewrite (told_counted cb Hcb), Hq. cbn. by rewrite app_nil_r. }
  pose proof (removes_below (token cb)) as Hb. rewrite Er in Hb.
  destruct (run_actions_spec bound (act (notify cb)) n1) as (n' & -> & Ha & Hn' & Hc' & _ & Hcbs'); [apply Hd|done| | |].
  - rewrite <- Er. assert (Hin : token cb ∈ token <$> counted) by (by apply list_elem_of_fmap_2).
    apply list_elem_of_split in Hin as (l1 & l2 & E). rewrite E, bind_app, bind_cons in Honce.
    by apply NoDup_app in Honce as (_ & _ & [? _]%NoDup_app).
  - intros x Hx. rewrite <- Er in Hx. rewrite Hcur1. cbn [cursor cur_tokens]. rewrite Htok. apply elem_of_app. left.
    apply list_elem_of_filter. split; [by eapply removes_apart|]. apply Hknown, list_elem_of_bind.
    exists (token cb). split; [done|by apply list_elem_of_fmap_2].
  - exists n'. split; [done|]. rewrite Er, <- Hcur1. split; [done|].
    eapply told_step; [done..|by rewrite Hc'|exact Hcbs'].
Qed.

(** A whole delivery: the callbacks told, in order, and what is left. *)
Lemma delivery_spec fuel n :
  m_callbacks n = counted ++ extra -> m_calls n = calls -> bound <= m_next_token n ->
  m_callback_index n = size_max -> m_callback_count n = Z.of_nat (length counted) -> (length counted < fuel)%nat ->
  let called := deliver removes [] (token <$> counted) in
  exists n', for_each_callback deliver_one fuel n = Some n' /\ m_callback_index n' = size_max /\
    delivering called n' /\
    exists ex, token <$> m_callbacks n' = left_by (called ≫= removes) (token <$> counted) ++ ex /\
      Forall (fun t => bound <= t) ex.
Proof.
  intros Hcbs Hcalls Hnext Hi Hc Hf called.
  unfold for_each_callback. rewrite Hc, Hcbs, length_app, (proj2 (Z.leb_le _ _)) by lia.
  assert (Ea : realm_assert_debug (Some true) = Some tt) by (unfold realm_assert_debug; by destruct realm_debug).
  rewrite Ea, Hi. cbn [mbind option_bind]. change (wrap (size_max + 1)) with 0.
  destruct (callback_loop cursor set_callback_index deliver_one bound removes (token <$> counted) delivering)
    with (fuel := fuel) (s := set_callback_index 0 n) (extra := token <$> extra)
    as (n' & ex & E & Hd & Hv & Hex).
  - done.
  - intros called' i s [? ? ?]. by split.
  - done.
  - by rewrite length_fmap.
  - apply removes_below.
  - apply deliver_one_spec.
  - split; cbn; [by rewrite app_nil_r|done|]. rewrite Hcbs. intros cb [Hcb|Hcb]%elem_of_app.
    + right. exists cb. split; [done|]. unfold finished. by rewrite decide_False by apply not_elem_of_nil.
    + left. rewrite Forall_forall in Habove. by apply Habove.
  - unfold cursor. cbn. by rewrite Hcbs, fmap_app, length_fmap, Hc.
  - by apply Forall_fmap.
  - by rewrite length_fmap.
  - exists n'. unfold cursor in Hv. injection Hv as Ht Hi' _. split; [exact E|]. split; [done|]. split; [done|]. by exists ex.
Qed.
End delivery.
End facts.

(** ** Theorems about the callbacks of a notifier *)
Import Notifier.

Section theorems.
Context `{IndexSetLaws IS} `{BuildMode}.
Abbreviation callback := (Callback IS).
Abbreviation notifier := (CollectionNotifier IS).
Implicit Types (cb : callback) (n : notifier).

(** *** Delivering *)
Definition nothing_new cb : bool := initial_delivered cb && changes_empty (changes_to_deliver cb).
Definition after_notification cb : notification IS := notify_after (token cb) (changes_to_deliver cb).
Definition delivered cb : callback :=
  mkCallback (accumulated_changes cb) empty_changes (token cb) true (skip_next cb).

Lemma delivered_nothing cb : nothing_new (delivered cb) = true.
Proof.
  unfold nothing_new, changes_empty. cbn. rewrite (ix_empty_ranges ix_nil ix_nil_valid), ix_nil_ranges. done.
Qed.

(** The callbacks a callback unregisters when it is told its changes. *)
Definition after_removes (act : notification IS -> list action) (counted : list callback) : Z -> list Z :=
  removes act nothing_new after_notification counted.

(** C25: after the Realm has advanced, every callback that was there when the
    notifier was packaged and that no callback before it unregistered is told
    its changes exactly once, in the order of registration, whatever callbacks
    are registered and unregistered in between; callbacks with nothing new are
    skipped, callbacks registered later are not called, and nothing is left to
    deliver.  Between packaging and the end of the loop only callbacks of the
    package may be unregistered, each once: unregistering one that was registered
    after packaging lets a counted one miss its changes or the loop run past the
    end ([delivery_lost], [callback_count_wraps]). *)
Theorem after_advance_delivers act fuel n counted extra bound :
  m_callbacks n = counted ++ extra -> m_callback_index n = size_max ->
  m_callback_count n = Z.of_nat (length counted) -> bound <= m_next_token n ->
  NoDup (token <$> counted) -> Forall (fun cb => token cb < bound) counted ->
  Forall (fun cb => bound <= token cb) extra -> Z.of_nat (length counted) < 2 ^ 64 - 1 ->
  NoDup ((token <$> counted) ≫= after_removes act counted) ->
  (forall t, t ∈ (token <$> counted) ≫= after_removes act counted -> t ∈ token <$> counted) ->
  (length counted < fuel)%nat ->
  let called := deliver (after_removes act counted) [] (token <$> counted) in
  exists n', after_advance act fuel n = Some n' /\ m_callback_index n' = size_max /\
    m_calls n' = m_calls n ++ (called ≫= told nothing_new after_notification counted) /\
    (forall t, t ∈ token <$> m_callbacks n' -> t < bound ->
       t ∈ token <$> counted /\ t ∉ called ≫= after_removes act counted) /\
    (forall cb, cb ∈ m_callbacks n' -> token cb < bound -> nothing_new cb = true).
Proof.
  intros Hcbs Hi Hc Hnext Hnd Hbelow Habove Hlen Honce Hknown Hf called.
  destruct (delivery_spec act nothing_new after_notification delivered (fun _ => eq_refl) bound counted extra (m_calls n)
    Hnd Hbelow Habove Hlen Honce Hknown fuel n Hcbs eq_refl Hnext Hi Hc Hf) as (n' & E & Hi' & [Hcalls _ Hd] & ex & Ht & Hex).
  exists n'. split; [exact E|]. split; [done|]. split; [done|].
  assert (Hleft : forall t, t ∈ token <$> m_callbacks n' -> t < bound ->
    t ∈ token <$> counted /\ t ∉ called ≫= after_removes act counted).
  { intros t. rewrite Ht. intros [Hin|Hin]%elem_of_app Hlt.
    - by apply list_elem_of_filter in Hin as [? ?].
    - rewrite Forall_forall in Hex. specialize (Hex _ Hin). lia. }
  split; [done|]. intros cb Hcb Hlt. destruct (Hd cb Hcb) as [?|(cb0 & Hcb0 & Hfin)]; [lia|].
  pose proof (finished_token nothing_new delivered (fun _ => eq_refl) _ _ _ Hfin) as Etok.
  unfold finished in Hfin. rewrite decide_True in Hfin.
  - destruct (nothing_new cb0) eqn:Eq; subst cb; [done|apply delivered_nothing].
  - destruct (Hleft (token cb)) as [Hin Hrem]; [by apply list_elem_of_fmap_2|done|]. rewrite <- Etok.
    apply deliver_complete; [done|apply not_elem_of_nil|done].
Qed.

(** *** Accumulating *)

(** The change sets a callback is told of: all but the first one if it asked to
    skip it. *)
Definition heard cb (cs : list (CollectionChangeBuilder IS)) : list (CollectionChangeBuilder IS) :=
  if skip_next cb then tail cs else cs.

(** The merged deletions never have adjacent members, as [add_shifted_by] requires. *)
Definition merges_short cb (cs : list (CollectionChangeBuilder IS)) : Prop :=
  forall pre post acc, heard cb cs = pre ++ post -> fold_option ChangeBuilder.merge pre (accumulated_changes cb) = Some acc ->
  ix_short (deletions acc).

(** A callback [cb'] that was [cb] before the changes [pre] were added. *)
Record accumulating (pre : list (CollectionChangeBuilder IS)) cb cb' : Prop := {
  acc_token : token cb' = token cb;
  acc_initial : initial_delivered cb' = initial_delivered cb;
  acc_skip : skip_next cb' = (skip_next cb && match pre with [] => true | _ => false end);
  acc_merged : fold_option ChangeBuilder.merge (heard cb pre) (accumulated_changes cb) = Some (accumulated_changes cb');
  acc_ok : ok (accumulated_changes cb');
  acc_tracks j : 0 <= j -> tracks (accumulated_changes cb') j = origin_through (heard cb pre) j
}.

Lemma accumulating_start cb : blank (accumulated_changes cb) -> accumulating [] cb cb.
Proof.
  intros Hb. assert (E : heard cb [] = []) by (unfold heard; by destruct (skip_next cb)).
  split; rewrite ?E; try done; [by rewrite andb_true_r|by apply blank_ok|]. intros j Hj. by apply blank_tracks.
Qed.

Lemma accumulating_step pre c post cb cb' :
  blank (accumulated_changes cb) -> ok c -> merges_short cb (pre ++ c :: post) -> accumulating pre cb cb' ->
  exists cb'', add_change c cb' = Some cb'' /\ accumulating (pre ++ [c]) cb cb''.
Proof.
  intros Hblank Hc Hshort [Et Ei Es Em Hok Htr]. unfold add_change. destruct (skip_next cb') eqn:Eskip.
  - symmetry in Es. apply andb_prop in Es as [Es Epre]. destruct pre as [|c0 pre]; [|done].
    assert (Eh : heard cb [] = []) by (unfold heard; by rewrite Es). rewrite Eh in Em. injection Em as Em.
    assert (He : ChangeBuilder.empty (accumulated_changes cb') = true).
    { rewrite <- Em. destruct Hblank as (Ed & Ei' & Emod & Ev & _). unfold ChangeBuilder.empty.
      rewrite Ed, Ei', Emod, Ev. by rewrite (ix_empty_ranges ix_nil ix_nil_valid), ix_nil_ranges. }
    assert (Ea : realm_assert_debug (Some true) = Some tt) by (unfold realm_assert_debug; by destruct realm_debug).
    rewrite He, Ea. cbn [mbind option_bind]. eexists. split; [done|].
    assert (Eh1 : heard cb ([] ++ [c]) = []) by (unfold heard; by rewrite Es).
    split; rewrite ?Eh1; cbn [token initial_delivered skip_next accumulated_changes]; try done.
    + by rewrite andb_false_r.
    + by rewrite Em.
    + intros j Hj. rewrite Htr by done. by rewrite Eh.
  - assert (Eh : heard cb (pre ++ [c]) = heard cb pre ++ [c] /\ heard cb (pre ++ c :: post) = heard cb pre ++ c :: post).
    { unfold heard. destruct (skip_next cb); [|done]. destruct pre; [done|done]. }
    destruct Eh as [Eh1 Eh2].
    destruct (merge_spec (accumulated_changes cb') c Hok Hc) as (acc & E & Hacc & Htracks & _).
    { by eapply (Hshort (heard cb pre) (c :: post)). }
    rewrite E. cbn [mbind option_bind]. eexists. split; [done|]. split; cbn; try done.
    + destruct pre; cbn; by rewrite andb_false_r.
    + by rewrite Eh1, fold_option_app, Em; cbn; rewrite E.
    + intros j Hj. rewrite Htracks, Eh1, origin_through_snoc by done. destruct (tracks c j) as [k|] eqn:Ek; [|done].
      cbn. apply Htr. by apply (tracks_nonneg c j).
Qed.

Lemma add_changes_all cs pre n0 n :
  Forall (fun cb => blank (accumulated_changes cb) /\ merges_short cb (pre ++ cs)) (m_callbacks n0) -> Forall ok cs ->
  Forall2 (accumulating pre) (m_callbacks n0) (m_callbacks n) ->
  exists n', fold_option add_changes cs n = Some n' /\ Forall2 (accumulating (pre ++ cs)) (m_callbacks n0) (m_callbacks n') /\
    m_calls n' = m_calls n.
Proof.
  revert pre n. induction cs as [|c cs IH]; intros pre n Hcbs Hcs Hacc; [exists n; by rewrite app_nil_r|].
  apply Forall_cons in Hcs as [Hc Hcs].
  assert (Hstep : exists l, mapM (add_change c) (m_callbacks n) = Some l /\ Forall2 (accumulating (pre ++ [c])) (m_callbacks n0) l).
  { clear IH. induction Hacc as [|cb cb' l l' Hcb _ IH]; [by exists []|]. apply Forall_cons in Hcbs as [[Hb Hs] Hcbs].
    destruct (accumulating_step pre c cs cb cb' Hb Hc Hs Hcb) as (cb'' & E & Hcb'').
    destruct (IH Hcbs) as (l'' & E' & Hl''). exists (cb'' :: l''). cbn. rewrite E. cbn. rewrite E'. split; [done|by constructor]. }
  destruct Hstep as (l & E & Hl). assert (Ec : add_changes n c = Some (set_callbacks l n)) by (unfold add_changes; by rewrite E).
  cbn [fold_option]. rewrite Ec. cbn [mbind option_bind].
  destruct (IH (pre ++ [c]) (set_callbacks l n)) as (n' & E' & Hn' & Hcalls); [by rewrite <- app_assoc|done|done|].
  exists n'. by rewrite <- app_assoc in Hn'.
Qed.

Lemma package_all pre l l' :
  Forall2 (accumulating pre) l l' -> exists l'', mapM package l' = Some l'' /\
    Forall2 (fun cb cb'' => exists acc, fold_option ChangeBuilder.merge (heard cb pre) (accumulated_changes cb) = Some acc /\
      (forall j, 0 <= j -> tracks acc j = origin_through (heard cb pre) j) /\
      ChangeBuilder.finalize acc = Some (changes_to_deliver cb'') /\ token cb'' = token cb /\
      blank (accumulated_changes cb'') /\ skip_next cb'' = (skip_next cb && match pre with [] => true | _ => false end)) l l''.
Proof.
  induction 1 as [|cb cb' l l' [Et Ei Es Em Hok Htr] _ (l'' & E & Hl)]; [by exists []|].
  destruct (record_finalize_spec (accumulated_changes cb') Hok) as (r & Er & _).
  set (cb'' := mkCallback (moved_from (accumulated_changes cb')) r (token cb') (initial_delivered cb') (skip_next cb')).
  assert (Ep : package cb' = Some cb'') by (unfold package; by rewrite Er).
  exists (cb'' :: l''). cbn. rewrite Ep. cbn. rewrite E. split; [done|]. constructor; [|done].
  exists (accumulated_changes cb'). cbn. repeat (split; [done|]). done.
Qed.

(** C24: as long as the change sets merged for a callback never delete two adjacent
    rows ([merges_short]; what merging needs), the changes it is told are the
    composition of all change sets added since the last delivery, without the
    first one if it asked to skip the next notification; nothing stays
    accumulated. *)
Theorem packaged_changes_compose n cs :
  Forall (fun cb => blank (accumulated_changes cb) /\ merges_short cb cs) (m_callbacks n) -> Forall ok cs ->
  exists n1 n2, fold_option add_changes cs n = Some n1 /\ package_for_delivery true n1 = Some (n2, true) /\
    m_callback_count n2 = Z.of_nat (length (m_callbacks n2)) /\ m_calls n2 = m_calls n /\
    Forall2 (fun cb cb2 => exists acc,
      fold_option ChangeBuilder.merge (heard cb cs) (accumulated_changes cb) = Some acc /\
      (forall j, 0 <= j -> tracks acc j = origin_through (heard cb cs) j) /\
      ChangeBuilder.finalize acc = Some (changes_to_deliver cb2) /\ token cb2 = token cb /\
      blank (accumulated_changes cb2) /\ skip_next cb2 = (skip_next cb && match cs with [] => true | _ => false end))
      (m_callbacks n) (m_callbacks n2).
Proof.
  intros Hcbs Hcs. destruct (add_changes_all cs [] n n) as (n1 & E1 & Hn1 & Hcalls); [done|done| |].
  { apply Forall_Forall2_diag. eapply Forall_impl; [exact Hcbs|]. intros cb [? _]. by apply accumulating_start. }
  destruct (package_all _ _ _ Hn1) as (l & E & Hl). exists n1.
  eexists. split; [done|]. unfold package_for_delivery. cbn [negb]. rewrite E. cbn [mbind option_bind].
  split; [done|]. cbn. by repeat (split; [done|]).
Qed.
End theorems.

(** ** Concrete runs *)
Section witnesses.
#[local] Existing Instance debug_chunk_size.
#[local] Instance debug_build_notifier : BuildMode := {| realm_debug := true |}.

Definition erased_row (i : Z) : CollectionChangeBuilder crv :=
  default ChangeBuilder.empty_builder (ChangeBuilder.erase ChangeBuilder.empty_builder i).

Lemma erased_row_ok i : 0 <= i < npos -> ok (erased_row i).
Proof.
  intros Hi. unfold erased_row. destruct (record_erase_spec (IS := crv) _ i empty_builder_ok Hi) as (b & -> & Hb & _).
  exact Hb.
Qed.

(** Two callbacks, the second of which skips the next notification. *)
Definition two_callbacks : CollectionNotifier crv :=
  default new_notifier (suppress_next_notification (add_callback (add_callback new_notifier).1).1 1).

Lemma two_callbacks_short cb :
  cb ∈ m_callbacks two_callbacks -> blank (accumulated_changes cb) /\ merges_short cb [erased_row 3; erased_row 1].
Proof.
  intros [-> | [-> | []%elem_of_nil]%elem_of_cons]%elem_of_cons; (split; [by vm_compute|]); intros pre post acc E Em.
  - destruct pre as [|c1 [|c2 [|c3 pre]]]; [|injection E as <- _|injection E as <- <- _|discriminate E];
      vm_compute in Em; injection Em as <-; repeat constructor.
  - destruct pre as [|c1 [|c2 pre]]; [|injection E as <- _|discriminate E];
      vm_compute in Em; injection Em as <-; repeat constructor.
Qed.

Lemma packaged_changes_compose_witness :
  exists n1 n2, fold_option add_changes [erased_row 3; erased_row 1] two_callbacks = Some n1 /\
    package_for_delivery true n1 = Some (n2, true) /\
    m_callback_count n2 = Z.of_nat (length (m_callbacks n2)) /\ m_calls n2 = m_calls two_callbacks /\
    Forall2 (fun cb cb2 => exists acc,
      fold_option ChangeBuilder.merge (heard cb [erased_row 3; erased_row 1]) (accumulated_changes cb) = Some acc /\
      (forall j, 0 <= j -> tracks acc j = origin_through (heard cb [erased_row 3; erased_row 1]) j) /\
      ChangeBuilder.finalize acc = Some (changes_to_deliver cb2) /\ token cb2 = token cb /\
      blank (accumulated_changes cb2) /\ skip_next cb2 = (skip_next cb && false))
      (m_callbacks two_callbacks) (m_callbacks n2).
Proof.
  apply (packaged_changes_compose two_callbacks [erased_row 3; erased_row 1]).
  - apply Forall_forall. exact two_callbacks_short.
  - apply Forall_cons_2; [apply erased_row_ok; unfold npos; lia|].
    apply Forall_cons_2; [apply erased_row_ok; unfold npos; lia|apply Forall_nil_2].
Defined.

(** Three callbacks are to be told; the first one unregisters itself and the
    second, and registers another. *)
Definition three_told : CollectionNotifier crv :=
  match package_for_delivery true (add_callback (add_callback (add_callback new_notifier).1).1).1 with
  | Some (n, _) => n
  | None => new_notifier
  end.
Definition first_leaves (c : notification crv) : list action :=
  match c with notify_after 0 _ => [act_remove 0; act_add; act_remove 1] | _ => [] end.

Lemma after_advance_delivers_witness :
  let counted := m_callbacks three_told in
  let called := deliver (after_removes first_leaves counted) [] (token <$> counted) in
  called = [0; 2] /\
  exists n', after_advance first_leaves 4 three_told = Some n' /\ m_callback_index n' = size_max /\
    m_calls n' = m_calls three_told ++ (called ≫= told nothing_new after_notification counted) /\
    (forall t, t ∈ token <$> m_callbacks n' -> t < 3 ->
       t ∈ token <$> counted /\ t ∉ called ≫= after_removes first_leaves counted) /\
    (forall cb, cb ∈ m_callbacks n' -> token cb < 3 -> nothing_new cb = true).
Proof.
  intros counted called. split; [vm_compute; reflexivity|].
  apply (after_advance_delivers first_leaves 4 three_told counted [] 3).
  - reflexivity.
  - reflexivity.
  - reflexivity.
  - vm_compute. discriminate.
  - apply (bool_decide_unpack _). vm_compute. exact Logic.I.
  - apply (bool_decide_unpack _). vm_compute. exact Logic.I.
  - apply Forall_nil_2.
  - vm_compute. reflexivity.
  - apply (bool_decide_unpack _). vm_compute. exact Logic.I.
  - intros t Ht. assert (E : (token <$> counted) ≫= after_removes first_leaves counted = [0; 1]) by (vm_compute; reflexivity).
    rewrite E in Ht. change (t ∈ [0; 1; 2]). rewrite !elem_of_cons in *. tauto.
  - simpl. lia.
Defined.

(** *** Where the code falls short *)

(** A notifier with one callback, with a change to deliver; a second callback
    is registered and unregistered again before the delivery. *)
Definition one_pending : CollectionNotifier crv :=
  default new_notifier (n ← add_changes (add_callback new_notifier).1 (erased_row 0);
    '(n, _) ← package_for_delivery true n; remove_callback (add_callback n).1 1).

(** The callback is not told, and the next package overwrites its changes. *)
Theorem delivery_lost :
  length (m_callbacks one_pending) = 1%nat /\
  (fun cb => ix_ranges (c_deletions (changes_to_deliver cb))) <$> m_callbacks one_pending = [[(0, 1)]] /\
  (m_calls <$> after_advance (fun _ => []) 3 one_pending) = Some [] /\
  (fun '(n, _) => (fun cb => ix_ranges (c_deletions (changes_to_deliver cb))) <$> m_callbacks n) <$>
    (n ← after_advance (fun _ => []) 3 one_pending; package_for_delivery true n) = Some [[]].
Proof. vm_compute. repeat split. Qed.

(** A callback that unregisters itself while it runs, then registers another
    one and unregisters it: the count of callbacks wraps around, and the loop
    reads past the end of the vector. *)
Definition passing_callback (c : notification crv) : list action :=
  match c with notify_after 0 _ => [act_remove 0; act_add; act_remove 1] | _ => [] end.

Theorem callback_count_wraps :
  (n ← package_for_delivery true (add_callback new_notifier).1; after_advance passing_callback 3 n.1) = None /\
  (fun n => (length (m_callbacks n), m_callback_count n)) <$>
    (n ← package_for_delivery true (add_callback new_notifier).1; run_actions [act_remove 0; act_add; act_remove 1] n.1)
    = Some (0%nat, size_max).
Proof. vm_compute. split; reflexivity. Qed.
End witnesses.
