(* ===== verification/DerivedTheorems.v ===== *)
(** * Theorems about the four kinds of collection notifier *)
From stdpp Require Import sorting.
From S2P Require Import Prelude.
From S2P Require Import RangeList.
From S2P Require Import ChunkedVector.
From S2P Require Import IndexSets.
From S2P Require Import IndexSetInterface.
From S2P Require Import ChangeBuilder.
From S2P Require Import ChangeBuilderFacts.
From S2P Require Import ChangeCalc.
From S2P Require Import CalculateTheorems.
From S2P Require Import TransactLog.
From S2P Require Import KvoAdapter.
From S2P Require Import KvoFacts.
From S2P Require Import TableRows.
From S2P Require Import Notifier.

(** ** The four kinds of collection notifier

    What [ResultsNotifier], [ListNotifier], [PrimitiveListNotifier] and
    [ObjectNotifier] compute from a transaction's change information.  The
    core library's queries, views, lists and rows are known by what the
    notifiers ask them. *)
Import LogObserver.

(** [find_container_column]: the first of [count] columns that has the type and
    holds the container; a failure is [REALM_UNREACHABLE] *)
Fixpoint find_container_column (has_type holds : nat -> bool) (i count : nat) : option nat :=
  match count with
  | O => None
  | S count => if has_type i && holds i then Some i else find_container_column has_type holds (i + 1) count
  end.

(** The fields of [ResultsNotifier]: [m_tv] is the rows of the view while it is
    attached, [m_tv_handover] and [m_tv_to_deliver] the rows handed over. *)
Record ResultsNotifier {IS : Type} := mkResultsNotifier {
  m_target_is_in_table_order : bool;
  m_tv : option (list Z);
  m_tv_handover : option (list Z);
  m_tv_to_deliver : option (list Z);
  m_last_seen_version : Z;
  m_previous_rows : list Z;
  m_changes : CollectionChangeBuilder IS
}.
Arguments ResultsNotifier : clear implicits.
Arguments mkResultsNotifier {IS}.

(** What the notifier is told by the query, the view it finds, and its base
    class. *)
Record QueryState := mkQuery {
  table_is_attached : bool;
  query_table_ndx : option nat;
  sync_view_if_needed : Z;
  found_rows : list Z;
  will_apply_sort : bool;
  is_alive : bool;
  has_run : bool;
  have_callbacks : bool;
  wants_background_updates : bool
}.

Module Results.
Section results.
Context `{IndexSetOps IS} `{BuildMode} `{StdSort}.
Abbreviation builder := (CollectionChangeBuilder IS).
Abbreviation notifier := (ResultsNotifier IS).
Implicit Types (r : notifier) (q : QueryState).

Definition set_calculated (rows : list Z) (changes : builder) r : notifier :=
  mkResultsNotifier (m_target_is_in_table_order r) (m_tv r) (m_tv_handover r) (m_tv_to_deliver r)
    (m_last_seen_version r) rows changes.
Definition set_view (tv handover to_deliver : option (list Z)) (version : Z) r : notifier :=
  mkResultsNotifier (m_target_is_in_table_order r) tv handover to_deliver version (m_previous_rows r) (m_changes r).
Definition set_changes (changes : builder) r : notifier := set_calculated (m_previous_rows r) changes r.

(** [do_add_required_change_info]: where to look for the changes of the table *)
Definition do_add_required_change_info_results q (parent : nat * Z * nat) (m_changes_loc : nat)
    (info : TransactionChangeInfo IS) : TransactionChangeInfo IS * bool :=
  if negb (table_is_attached q) then (info, false)
  else
    let info := match query_table_ndx q with
      | None => set_lists (lists info ++ [mkListChangeInfo parent.1.1 parent.1.2 parent.2 m_changes_loc]) info
      | Some table_ndx =>
        let needed := table_moves_needed info in
        let needed := if (length needed <=? table_ndx)%nat then vec_resize false (table_ndx + 1) needed else needed in
        set_needed (table_modifications_needed info) (<[table_ndx := true]> needed) info
      end in
    (info, has_run q && have_callbacks q).

(** [need_to_run] *)
Definition need_to_run q r : option bool :=
  _ ← realm_assert (match m_tv r with None => true | Some _ => false end);
  if negb (is_alive q) || (negb (have_callbacks q) && negb (wants_background_updates q)) then Some false
  else Some (negb (has_run q && (sync_view_if_needed q =? m_last_seen_version r))).

(** The new position of a row of the previous run, [npos] if it is deleted *)
Definition follow_row (changes : builder) (idx : Z) : option Z :=
  deleted ← ix_contains (deletions changes) idx;
  if deleted : bool then
    Some (match moves changes !! lower_bound (fun a => from a <? idx) 0 (moves changes) with
          | Some it => if from it =? idx then to it else npos
          | None => npos
          end)
  else
    idx ← ix_unshift (deletions changes) idx; Some (ix_shift (insertions changes) idx).

(** [calculate_changes]; [row_did_change] is the checker of the base class *)
Definition table_changes q (info : TransactionChangeInfo IS) r : option builder :=
  match query_table_ndx q with
  | None => Some (m_changes r)
  | Some table_ndx => tables info !! table_ndx
  end.
Definition calculate_changes q (info : TransactionChangeInfo IS) (row_did_change : Z -> bool) (tv : list Z) r
    : option notifier :=
  if has_run q && have_callbacks q then
    '(previous_rows, move_candidates) ← match table_changes q info r with
      | Some changes =>
        rows ← mapM (follow_row changes) (m_previous_rows r);
        Some (rows, if m_target_is_in_table_order r && negb (will_apply_sort q)
                    then Some (insertions changes) else None)
      | None => Some (m_previous_rows r, None)
      end;
    changes ← Calc.calculate previous_rows tv row_did_change move_candidates;
    Some (set_calculated tv changes r)
  else Some (set_calculated tv (m_changes r) r).

(** [run] *)
Definition run_results q (info : TransactionChangeInfo IS) (row_did_change : Z -> bool) r : option notifier :=
  if negb (table_is_attached q) then
    d ← ix_set ix_nil (Z.of_nat (length (m_previous_rows r)));
    Some (set_calculated [] (ChangeBuilder.set_deletions d ChangeBuilder.empty_builder) r)
  else
    needed ← need_to_run q r;
    if negb needed then Some r
    else calculate_changes q info row_did_change (found_rows q)
           (set_view (Some (found_rows q)) (m_tv_handover r) (m_tv_to_deliver r) (sync_view_if_needed q) r).

(** [do_prepare_handover]: the notifier and the change it adds *)
Definition do_prepare_handover_results r : option (notifier * builder) :=
  let change := m_changes r in
  let r := set_changes (Notifier.moved_from change) r in
  match m_tv r with
  | None => Some (r, change)
  | Some tv =>
    _ ← realm_assert (ChangeBuilder.empty (m_changes r));
    Some (set_view None (Some tv) (m_tv_to_deliver r) (m_last_seen_version r) r, change)
  end.

(** [prepare_to_deliver] and [deliver]: the rows the target is given *)
Definition prepare_to_deliver q r : notifier * bool :=
  if negb (is_alive q) then (r, false)
  else (set_view (m_tv r) None (m_tv_handover r) (m_last_seen_version r) r, true).
Definition deliver q r : notifier * option (list Z) :=
  if negb (is_alive q) then (r, None)
  else (set_view (m_tv r) (m_tv_handover r) None (m_last_seen_version r) r, m_tv_to_deliver r).
End results.
End Results.

(** ** [ListNotifier] and [PrimitiveListNotifier]: [m_prev_size] and [m_change] *)
Record ListNotifier {IS : Type} := mkListNotifier {
  m_prev_size : Z;
  m_change : CollectionChangeBuilder IS
}.
Arguments ListNotifier : clear implicits.
Arguments mkListNotifier {IS}.

Module Lists.
Section lists.
Context `{IndexSetOps IS} `{BuildMode}.
Abbreviation builder := (CollectionChangeBuilder IS).
Implicit Types (l : ListNotifier IS) (change : builder).

(** The list is gone: all entries are reported as deleted, once. *)
Definition list_deleted l : option (ListNotifier IS) :=
  if negb (m_prev_size l =? 0) then
    d ← ix_set (deletions (m_change l)) (m_prev_size l);
    Some (mkListNotifier 0 (ChangeBuilder.set_deletions d (m_change l)))
  else Some (mkListNotifier (m_prev_size l) ChangeBuilder.empty_builder).

(** One turn of the loops of [ListNotifier::run] *)
Definition mark_changed (lv : list Z) (row_did_change : Z -> bool) change (i : Z) : option builder :=
  already ← ix_contains (modifications change) i;
  if already : bool then Some change
  else
    row ← lv !! Z.to_nat i;
    if row_did_change row then
      m ← ix_add (modifications change) i; Some (ChangeBuilder.set_modifications m change)
    else Some change.

(** [ListNotifier::run]; [lv] is the rows of the list, [None] when it is gone *)
Definition run_list (lv : option (list Z)) (row_did_change : Z -> bool) l : option (ListNotifier IS) :=
  match lv with
  | None => list_deleted l
  | Some lv =>
    change ← fold_option (mark_changed lv row_did_change) (Z.of_nat <$> seq 0 (length lv)) (m_change l);
    change ← fold_option (mark_changed lv row_did_change) (to <$> moves change) change;
    Some (mkListNotifier (Z.of_nat (length lv)) change)
  end.

(** [PrimitiveListNotifier::run]; [size] is the size of the table *)
Definition primitive_run (size : option Z) l : option (ListNotifier IS) :=
  match size with
  | None => list_deleted l
  | Some size =>
    change ← match ix_ranges (deletions (m_change l)) with
      | (_, last) :: _ =>
        if last =? npos then
          d ← ix_set (deletions (m_change l)) (m_prev_size l);
          Some (ChangeBuilder.set_deletions d (m_change l))
        else Some (m_change l)
      | [] => Some (m_change l)
      end;
    Some (mkListNotifier size change)
  end.

(** [do_add_required_change_info] of both; [origin] is the table and row of the
    list while it is attached, [has_type] and [holds] describe the row's cells *)
Definition do_add_required_change_info_list (origin : option (nat * Z)) (has_type holds : nat -> bool) (count : nat)
    (m_change_loc : nat) (info : TransactionChangeInfo IS) : option (TransactionChangeInfo IS * bool) :=
  match origin with
  | None => Some (info, false)
  | Some (table_ndx, row_ndx) =>
    col_ndx ← find_container_column has_type holds 0 count;
    Some (set_lists (lists info ++ [mkListChangeInfo table_ndx row_ndx col_ndx m_change_loc]) info, true)
  end.

(** [do_prepare_handover] of both *)
Definition do_prepare_handover_list l : ListNotifier IS * builder :=
  (mkListNotifier (m_prev_size l) (Notifier.moved_from (m_change l)), m_change l).
End lists.
End Lists.

(** ** [ObjectNotifier] *)
Record ObjectNotifier {IS : Type} := mkObjectNotifier {
  m_row : bool;
  m_object_change : CollectionChangeBuilder IS
}.
Arguments ObjectNotifier : clear implicits.
Arguments mkObjectNotifier {IS}.

Module Object.
Section object.
Context `{IndexSetOps IS} `{BuildMode}.
Implicit Types (o : ObjectNotifier IS).

(** [do_add_required_change_info]; [row] is the table and index of the row
    while it is attached *)
Definition do_add_required_change_info_object (row : option (nat * Z)) o (info : TransactionChangeInfo IS)
    : TransactionChangeInfo IS * bool :=
  match row with
  | Some (table_ndx, _) =>
    if m_row o then
      let needed := table_modifications_needed info in
      let needed := if (length needed <=? table_ndx)%nat then vec_resize false (table_ndx + 1) needed else needed in
      (set_needed (<[table_ndx := true]> needed) (table_moves_needed info) info, false)
    else (info, false)
  | None => (info, false)
  end.

(** The change of each column: the object is index 0 *)
Fixpoint object_columns (cols : list IS) (row : Z) : option (list IS) :=
  match cols with
  | [] => Some []
  | col :: cols =>
    c ← ix_contains col row;
    s ← (if c : bool then ix_add ix_nil 0 else Some ix_nil);
    rest ← object_columns cols row;
    Some (s :: rest)
  end.

(** [run] *)
Definition run_object (row : option (nat * Z)) (info : TransactionChangeInfo IS) o : option (ObjectNotifier IS) :=
  if negb (m_row o) then Some o
  else
    match row with
    | None =>
      d ← ix_add (deletions (m_object_change o)) 0;
      Some (mkObjectNotifier false (ChangeBuilder.set_deletions d (m_object_change o)))
    | Some (table_ndx, ndx) =>
      match tables info !! table_ndx with
      | None => Some o
      | Some change =>
        modified ← ix_contains (modifications change) ndx;
        if negb modified then Some o
        else
          m ← ix_add (modifications (m_object_change o)) 0;
          cols ← object_columns (columns change) ndx;
          Some (mkObjectNotifier true
            (ChangeBuilder.set_columns (columns (m_object_change o) ++ cols)
               (ChangeBuilder.set_modifications m (m_object_change o))))
      end
    end.
End object.
End Object.

(** ** Theorems about the four kinds of collection notifier *)
Import ChangeBuilder.

Section theorems.
Context `{IndexSetLaws IS} `{BuildMode} `{StdSort}.
Abbreviation builder := (CollectionChangeBuilder IS).
Implicit Types (b : builder) (r : ResultsNotifier IS) (l : ListNotifier IS).

(** [ResultsNotifier] and [KVOAdapter] follow a row through a change set in the
    same way, although they look at moves and deletions in a different order. *)
Lemma follow_row_new b idx :
  ok b -> StronglySorted from_le (moves b) ->
  Results.follow_row b idx = (fun found => match found with inr j => j | inl _ => npos end) <$> Kvo.new_row_ndx b idx.
Proof.
  intros Hok Hs. unfold Results.follow_row, Kvo.new_row_ndx.
  pose proof (fun j => moved_to_elem b idx j Hs (ok_sources_nodup _ Hok)) as Hmv.
  rewrite ix_contains_has by apply Hok. cbn [mbind option_bind].
  unfold Kvo.moved_to in *. destruct (moves b !! _) as [m|] eqn:E; cbn [mbind option_bind] in *.
  - destruct (from m =? idx) eqn:Em.
    + pose proof (proj1 (Hmv (to m)) eq_refl) as Hin. apply (ok_move_in b _ Hok) in Hin as [Hd _]. cbn in Hd.
      by rewrite bool_decide_eq_true_2.
    + destruct (bool_decide _); [done|]. by destruct (ix_unshift (deletions b) idx).
  - destruct (bool_decide _); [done|]. by destruct (ix_unshift (deletions b) idx).
Qed.

Lemma follow_row_spec b idx :
  ok b -> StronglySorted from_le (moves b) -> 0 <= idx ->
  exists x, Results.follow_row b idx = Some x /\ (x <> npos -> 0 <= x /\ tracks b x = Some idx).
Proof.
  intros Hok Hs Hi. rewrite follow_row_new by done. destruct (new_row_ndx_spec b idx Hok Hs Hi) as (found & -> & Hr).
  destruct found as [[]|j]; cbn; eexists; (split; [done|]); done.
Qed.

(** The rows of the previous run, followed through the change set. *)
Definition followed b (idx x : Z) : Prop := x <> npos -> 0 <= x /\ tracks b x = Some idx.

Lemma follow_rows b prev :
  ok b -> StronglySorted from_le (moves b) -> Forall (fun i => 0 <= i) prev ->
  exists rows, mapM (Results.follow_row b) prev = Some rows /\ Forall2 (followed b) prev rows.
Proof.
  intros Hok Hs. induction 1 as [|i prev Hi _ (rows & E & Hrows)]; [by exists []|].
  destruct (follow_row_spec b i Hok Hs Hi) as (x & Ex & Hx). exists (x :: rows). cbn. rewrite Ex. cbn. rewrite E.
  split; [done|by constructor].
Qed.

Lemma followed_lookup b prev rows k x :
  Forall2 (followed b) prev rows -> rows !! k = Some x -> x <> npos ->
  exists old, prev !! k = Some old /\ tracks b x = Some old.
Proof.
  intros Hf Hx Hne. destruct (Forall2_lookup_r _ _ _ _ _ Hf Hx) as (old & Ho & Hold). exists old. split; [done|].
  by apply Hold.
Qed.

(** C23: the change set of a query's results tells the truth through the
    transaction: if it says that the row now at position [j] was at position
    [k], then the row the view holds at [j] is the row it held at [k] before
    the transaction, followed through the table's change set; rows reported as
    modified were there and did change; and the rows found are kept for the
    next run. *)
Theorem results_rows_followed q info b did tv r :
  has_run q = true -> have_callbacks q = true -> Results.table_changes q info r = Some b ->
  ok b -> StronglySorted from_le (moves b) -> Forall (fun i => 0 <= i) (m_previous_rows r) ->
  Forall (fun i => i <> npos) tv -> Z.of_nat (length (m_previous_rows r)) < npos ->
  (m_target_is_in_table_order r = true -> will_apply_sort q = false ->
     Sorted.Sorted Z.le tv /\
     forall rows, mapM (Results.follow_row b) (m_previous_rows r) = Some rows -> moved_forward rows tv (insertions b)) ->
  exists r', Results.calculate_changes q info did tv r = Some r' /\ m_previous_rows r' = tv /\ ok (m_changes r') /\
    (forall j k, 0 <= j < Z.of_nat (length tv) -> tracks (m_changes r') j = Some k ->
       exists row old, tv !! Z.to_nat j = Some row /\ m_previous_rows r !! Z.to_nat k = Some old /\ tracks b row = Some old) /\
    (forall j, ix_has (modifications (m_changes r')) j ->
       exists row old, tv !! Z.to_nat j = Some row /\ did row = true /\ old ∈ m_previous_rows r /\ tracks b row = Some old).
Proof.
  intros Hrun Hhave Etable Hok Hs Hprev Htv Hlen Horder. unfold Results.calculate_changes.
  rewrite Hrun, Hhave, Etable. cbn [andb mbind option_bind].
  destruct (follow_rows b (m_previous_rows r) Hok Hs Hprev) as (rows & E & Hf). rewrite E. cbn [mbind option_bind].
  pose proof (Forall2_length _ _ _ Hf) as Hl.
  set (cand := if m_target_is_in_table_order r && negb (will_apply_sort q) then Some (insertions b) else None).
  destruct (calculate_spec rows tv did cand) as (ret & Er & [Hret _ Htr Hmod _]); [lia| |].
  { unfold cand. destruct (m_target_is_in_table_order r); [|done]. destruct (will_apply_sort q); [done|].
    destruct (Horder eq_refl eq_refl) as [Hsorted Hfwd]. split; [apply Hok|]. split; [done|by apply Hfwd]. }
  rewrite Er. cbn [mbind option_bind]. eexists. split; [done|]. split; [done|]. split; [done|].
  rewrite Forall_forall in Htv. split; cbn.
  - intros j k Hj Hjk. destruct (Htr j k Hj Hjk) as (x & Hk & Hx).
    destruct (followed_lookup b _ _ _ _ Hf Hk) as (old & Ho & Ht); [apply Htv; by eapply list_elem_of_lookup_2|].
    by exists x, old.
  - intros j Hj. destruct (Hmod j Hj) as (x & Hx & Hin & Hd). apply list_elem_of_lookup in Hin as [k Hk].
    destruct (followed_lookup b _ _ _ _ Hf Hk) as (old & Ho & Ht); [apply Htv; by eapply list_elem_of_lookup_2|].
    exists x, old. split; [done|]. split; [done|]. split; [by eapply list_elem_of_lookup_2|done].
Qed.

(** *** Lists *)
Lemma mark_changed_spec lv did b i :
  ok b -> 0 <= i < Z.of_nat (length lv) ->
  exists b', Lists.mark_changed lv did b i = Some b' /\ ok b' /\ deletions b' = deletions b /\
    insertions b' = insertions b /\ moves b' = moves b /\
    forall j, ix_has (modifications b') j <->
      ix_has (modifications b) j \/ (j = i /\ exists row, lv !! Z.to_nat i = Some row /\ did row = true).
Proof.
  intros Hok Hi. unfold Lists.mark_changed. rewrite ix_contains_has by apply Hok. cbn [mbind option_bind].
  destruct (bool_decide (ix_has (modifications b) i)) eqn:Eh.
  { apply bool_decide_eq_true in Eh. exists b. repeat (split; [done|]). intros j. split; [by left|]. by intros [?|[-> _]]. }
  destruct (lookup_lt_is_Some_2 lv (Z.to_nat i)) as [row Hrow]; [lia|]. rewrite Hrow. cbn [mbind option_bind].
  destruct (did row) eqn:Ed.
  - destruct (ix_add_has (modifications b) i) as (m & -> & Hm & Hadd); [apply Hok|lia|]. cbn [mbind option_bind].
    eexists. split; [done|]. split; [by destruct Hok; split|]. repeat (split; [done|]). intros j. cbn. rewrite Hadd. split.
    + intros [->|?]; [right; split; [done|by exists row]|by left].
    + intros [?|[-> _]]; [by right|by left].
  - exists b. repeat (split; [done|]). intros j. split; [by left|]. intros [?|[_ (row' & [= <-] & ?)]]; [done|congruence].
Qed.

Lemma mark_all lv did b ks :
  ok b -> Forall (fun i => 0 <= i < Z.of_nat (length lv)) ks ->
  exists b', fold_option (Lists.mark_changed lv did) ks b = Some b' /\ ok b' /\ deletions b' = deletions b /\
    insertions b' = insertions b /\ moves b' = moves b /\
    forall j, ix_has (modifications b') j <->
      ix_has (modifications b) j \/ (j ∈ ks /\ exists row, lv !! Z.to_nat j = Some row /\ did row = true).
Proof.
  intros Hok Hi. revert b Hok. induction Hi as [|i ks Hi _ IH]; intros b Hok.
  - exists b. repeat (split; [done|]). intros j. split; [by left|]. by intros [?|[?%elem_of_nil _]].
  - destruct (mark_changed_spec lv did b i Hok Hi) as (b1 & E1 & Hok1 & Ed1 & Ei1 & Em1 & Hm1).
    destruct (IH b1 Hok1) as (b2 & E2 & Hok2 & Ed2 & Ei2 & Em2 & Hm2). exists b2. cbn [fold_option]. rewrite E1. cbn [mbind option_bind].
    split; [done|]. split; [done|]. split; [congruence|]. split; [congruence|]. split; [congruence|].
    intros j. rewrite Hm2, Hm1, elem_of_cons. split.
    + intros [[?|[-> ?]]|[? ?]]; [by left|right; split; [by left|done]|right; split; [by right|done]].
    + intros [?|[[->|?] ?]]; [by left; left|left; by right|by right].
Qed.

(** running a list's notifier marks as modified, besides what the
    transaction log did, exactly the positions whose row changed, and leaves the
    rest of the change set alone. *)
Theorem list_run_marks lv did l :
  ok (m_change l) -> Forall (fun m => to m < Z.of_nat (length lv)) (moves (m_change l)) ->
  exists l', Lists.run_list (Some lv) did l = Some l' /\ m_prev_size l' = Z.of_nat (length lv) /\ ok (m_change l') /\
    (forall j, tracks (m_change l') j = tracks (m_change l) j) /\
    forall j, ix_has (modifications (m_change l')) j <->
      ix_has (modifications (m_change l)) j \/ (0 <= j /\ exists row, lv !! Z.to_nat j = Some row /\ did row = true).
Proof.
  intros Hok Hmoves. unfold Lists.run_list.
  destruct (mark_all lv did (m_change l) (Z.of_nat <$> seq 0 (length lv)) Hok) as (b1 & -> & Hok1 & Ed1 & Ei1 & Em1 & Hm1).
  { apply Forall_forall. intros i (k & -> & Hk%elem_of_seq)%list_elem_of_fmap. lia. }
  cbn [mbind option_bind].
  destruct (mark_all lv did b1 (to <$> moves b1) Hok1) as (b2 & -> & Hok2 & Ed2 & Ei2 & Em2 & Hm2).
  { apply Forall_forall. intros i (m & -> & Hm)%list_elem_of_fmap. rewrite Em1 in Hm.
    rewrite Forall_forall in Hmoves. split; [|by apply Hmoves].
    destruct (ok_move_in _ m Hok Hm) as [_ Hin]. apply (mem_lower (-1)) in Hin; [lia|apply ix_valid_sep, Hok]. }
  cbn [mbind option_bind]. eexists. split; [done|]. split; [done|]. split; [done|]. cbn. split.
  - intros j. unfold tracks. by rewrite Em2, Em1, Ed2, Ed1, Ei2, Ei1.
  - assert (Hr : forall j row, lv !! Z.to_nat j = Some row -> 0 <= j -> j ∈ Z.of_nat <$> seq 0 (length lv)).
    { intros j row Hj%lookup_lt_Some H0j. apply list_elem_of_fmap. exists (Z.to_nat j). split; [lia|]. apply elem_of_seq. lia. }
    intros j. rewrite Hm2, Hm1. split.
    + intros [[?|[(k & -> & _)%list_elem_of_fmap ?]]|[(m & -> & Hm)%list_elem_of_fmap ?]]; [by left|right; split; [lia|done]|right].
      rewrite Em1 in Hm. destruct (ok_move_in _ m Hok Hm) as [_ Hin].
      apply (mem_lower (-1)) in Hin; [split; [lia|done]|apply ix_valid_sep, Hok].
    + intros [?|[Hj (row & Hrow & Hd)]]; [by left; left|]. left. right. split; [by eapply Hr|by exists row].
Qed.
End theorems.

(** ** Concrete runs *)
Section witnesses.
#[local] Existing Instance debug_chunk_size.
#[local] Instance debug_build_derived : BuildMode := {| realm_debug := true |}.

(** Row 1 of the table was erased; the query had found the rows 0, 1, 2 and 5,
    and now finds 4, 0, 1 and 3, sorted by some column. *)
Definition second_erased : CollectionChangeBuilder crv :=
  default empty_builder (erase empty_builder 1).
Definition sorted_query : QueryState := mkQuery true (Some 0%nat) 7 [4; 0; 1; 3] true true true true false.
Definition erased_info : TransactionChangeInfo crv := mkInfo [] [] [] [second_erased] [] [] false false.
Definition previous_results : ResultsNotifier crv :=
  mkResultsNotifier true None None None 6 [0; 1; 2; 5] empty_builder.

Lemma second_erased_ok : ok second_erased.
Proof.
  unfold second_erased. destruct (record_erase_spec (IS := crv) empty_builder 1 empty_builder_ok) as (b & -> & Hb & _);
    [unfold npos; lia|exact Hb].
Qed.

Lemma results_rows_followed_witness :
  exists r', Results.calculate_changes sorted_query erased_info (fun row => row =? 1) [4; 0; 1; 3] previous_results = Some r' /\
    m_previous_rows r' = [4; 0; 1; 3] /\ ok (m_changes r') /\
    (forall j k, 0 <= j < 4 -> tracks (m_changes r') j = Some k ->
       exists row old, [4; 0; 1; 3] !! Z.to_nat j = Some row /\ [0; 1; 2; 5] !! Z.to_nat k = Some old /\
         tracks second_erased row = Some old) /\
    (forall j, ix_has (modifications (m_changes r')) j ->
       exists row old, [4; 0; 1; 3] !! Z.to_nat j = Some row /\ (row =? 1) = true /\ old ∈ [0; 1; 2; 5] /\
         tracks second_erased row = Some old).
Proof.
  apply (results_rows_followed sorted_query erased_info second_erased (fun row => row =? 1) [4; 0; 1; 3] previous_results).
  - reflexivity.
  - reflexivity.
  - reflexivity.
  - exact second_erased_ok.
  - vm_compute. constructor.
  - apply (bool_decide_unpack _). vm_compute. exact Logic.I.
  - apply (bool_decide_unpack _). vm_compute. exact Logic.I.
  - vm_compute. reflexivity.
  - intros _ Hs. discriminate Hs.
Defined.

Lemma list_run_marks_witness :
  exists l', Lists.run_list (Some [7; 3; 9]) (fun row => row =? 9) (mkListNotifier 4 second_erased) = Some l' /\
    m_prev_size l' = 3 /\ ok (m_change l') /\
    (forall j, tracks (m_change l') j = tracks second_erased j) /\
    forall j, ix_has (modifications (m_change l')) j <->
      ix_has (modifications second_erased) j \/
      (0 <= j /\ exists row, [7; 3; 9] !! Z.to_nat j = Some row /\ (row =? 9) = true).
Proof.
  apply (list_run_marks [7; 3; 9] (fun row => row =? 9) (mkListNotifier 4 second_erased)).
  - exact second_erased_ok.
  - vm_compute. constructor.
Defined.

(** *** Where the code falls short *)

(** An entry is inserted into a list of two and then the row that holds the
    list is deleted: the insertion is still reported. *)
Theorem deleted_list_keeps_insertions :
  (fun l => (ix_ranges (deletions (m_change l)), ix_ranges (insertions (m_change l)))) <$>
    (b ← insert (IS := crv) empty_builder 0 1 true; Lists.run_list None (fun _ => false) (mkListNotifier 2 b)) =
    Some ([(0, 2)], [(0, 1)]).
Proof. vm_compute. reflexivity. Qed.
End witnesses.
