(* ===== verification/Advance.v ===== *)
(** * Advancing a Realm with notifications

    [NotifierPackage] of [impl/collection_notifier.cpp] and
    [advance_with_notifications] of [impl/transact_log_handler.cpp]: in which
    order the transaction is advanced, the binding is told and the notifiers
    are run, while the functions of the user that are called on the way may
    close the Realm or change its version. *)
From S2P Require Import Prelude.
From S2P Require Import ChangeBuilder.

(** ** [NotifierPackage]

    A notifier is known by what the package asks it: whether it has callbacks,
    whether it has run, the version it ran at and whether
    [package_for_delivery] finds something to deliver. *)
Record PackagedNotifier := mkPackaged {
  notifier_id : nat;
  has_callbacks : bool;
  notifier_has_run : bool;
  notifier_version : Z;
  has_something : bool
}.

Record NotifierPackage := mkPackage {
  m_version : option Z;
  m_notifiers : list PackagedNotifier;
  m_coordinator : bool;
  m_package_error : bool
}.

(** The condition [package_and_wait] waits for *)
Definition is_ready (target : option Z) (l : list PackagedNotifier) : bool :=
  match target with
  | None => true
  | Some version =>
    forallb (fun n => negb (has_callbacks n) || (notifier_has_run n && (version <=? notifier_version n))) l
  end.

(** The notifier worker: what it makes of the notifiers until it notifies the
    condition variable again. It is the same notifiers, and once it is woken it
    runs them at versions that get to the one waited for: how often it has to
    notify is [worker_rounds]. *)
Class Worker := {
  worker_step : list PackagedNotifier -> list PackagedNotifier;
  worker_rounds : option Z -> list PackagedNotifier -> nat;
  worker_same l : notifier_id <$> worker_step l = notifier_id <$> l;
  worker_gets_there target l : is_ready target (Nat.iter (worker_rounds target l) worker_step l) = true
}.

(** [RealmCoordinator::wait_for_notifiers]: the wait with a predicate of the
    condition variable tests it before it waits and whenever it is notified *)
Fixpoint wait_until `{Worker} (target : option Z) (rounds : nat) (l : list PackagedNotifier) : list PackagedNotifier :=
  if is_ready target l then l
  else match rounds with
  | O => l
  | S rounds => wait_until target rounds (worker_step l)
  end.
Definition wait_for_notifiers `{Worker} (target : option Z) (l : list PackagedNotifier) : list PackagedNotifier :=
  wait_until target (worker_rounds target l) l.

Module Package.
Section package.
Context `{Worker}.
Implicit Types (p : NotifierPackage) (n : PackagedNotifier).

Definition empty_package : NotifierPackage := mkPackage None [] false false.

(** The predicate of [std::remove_if]: notifiers packaged are kept, and set the
    version *)
Definition delivers n : bool := notifier_has_run n && has_something n.
Definition last_version (version : option Z) (l : list PackagedNotifier) : option Z :=
  foldl (fun v n => if delivers n then Some (notifier_version n) else v) version l.

(** [package_and_wait] *)
Definition package_and_wait (target : option Z) p : option NotifierPackage :=
  if negb (m_coordinator p) || m_package_error p || bool_decide (m_notifiers p = []) then Some p
  else
    let l := wait_for_notifiers target (m_notifiers p) in
    let notifiers := filter (fun n => delivers n = true) l in
    let version := last_version (m_version p) l in
    let '(version, notifiers) := match version, target with
      | Some v, Some t => if v <? t then (None, []) else (version, notifiers)
      | _, _ => (version, notifiers)
      end in
    _ ← realm_assert (match version with Some _ => true | None => bool_decide (notifiers = []) end);
    Some (mkPackage version notifiers false (m_package_error p)).
End package.
End Package.

(** ** The world of one Realm: the shared group while it is open, with its
    version and whether it is in a read transaction, and the calls made *)
Inductive call_made :=
  | called_did_change
  | called_will_change
  | called_will_send_notifications
  | called_did_send_notifications
  | called_advance (with_observer : bool)
  | called_before_advance (notifier : nat)
  | called_deliver (notifier : nat)
  | called_deliver_error (notifier : nat)
  | called_after_advance (notifier : nat).
#[global] Instance call_made_eq_dec : EqDecision call_made.
Proof. solve_decision. Defined.

Record SharedGroup := mkGroup { group_version : Z; is_reading : bool }.
Record World := mkWorld { sg : option SharedGroup; calls : list call_made }.

(** What the user's functions do when they are called: they may close the
    Realm or change its version. *)
Class User := { react : call_made -> option SharedGroup -> option SharedGroup }.

Definition M (A : Type) : Type := World -> option (A * World).
#[global] Instance M_ret : MRet M := fun _ a w => Some (a, w).
#[global] Instance M_bind : MBind M := fun _ _ f m w =>
  match m w with Some (a, w) => f a w | None => None end.

Module Transaction.
Section transaction.
Context `{Worker} `{User}.

(** A use of [*sg] *)
Definition deref : M SharedGroup := fun w => match sg w with Some g => Some (g, w) | None => None end.
Definition is_open : M bool := fun w => Some (match sg w with Some _ => true | None => false end, w).
Definition tell (c : call_made) : M unit := fun w => Some (tt, mkWorld (react c (sg w)) (calls w ++ [c])).
Definition when (b : bool) (m : M unit) : M unit := if b then m else mret tt.
Fixpoint tell_all (f : nat -> call_made) (l : list PackagedNotifier) : M unit :=
  match l with [] => mret tt | n :: l => _ ← tell (f (notifier_id n)); tell_all f l end.
Definition lift {A} (o : option A) : M A := fun w => a ← o; Some (a, w).

(** [NotifierPackage::before_advance], [deliver] and [after_advance] *)
Definition before_advance (p : NotifierPackage) : M unit :=
  when (negb (m_package_error p)) (tell_all called_before_advance (m_notifiers p)).
Definition deliver (p : NotifierPackage) : M unit :=
  group ← deref;
  if m_package_error p then tell_all called_deliver_error (m_notifiers p)
  else when (is_reading group) (tell_all called_deliver (m_notifiers p)).
Definition after_advance (p : NotifierPackage) : M unit :=
  when (negb (m_package_error p)) (tell_all called_after_advance (m_notifiers p)).

(** [func]: [LangBindHelper] advances to the newest or the package's version,
    and has no observer to call when it has only to validate *)
Context (newest : Z -> Z).
Definition advance_version (p : NotifierPackage) (version : Z) : Z :=
  match m_version p with Some v => v | None => newest version end.
Definition set_version (with_observer : bool) (version : Z) : M unit :=
  fun w => Some (tt, mkWorld ((fun g => mkGroup version (is_reading g)) <$> sg w) (calls w ++ [called_advance with_observer])).

(** [KVOTransactLogObserver]: when there is a log to parse, [parse_complete]
    tells the binding if an observed table changed, packages the notifiers for
    the version parsed and calls them before the version changes; the
    destructor asks for the version and tells the binding again *)
Definition observed_advance (context changed tables_changed : bool) (p : NotifierPackage) : M NotifierPackage :=
  group ← deref;
  let version := advance_version p (group_version group) in
  p' ← (if changed then
          _ ← when (context && tables_changed) (tell called_will_change);
          p' ← lift (Package.package_and_wait (Some version) p);
          _ ← before_advance p';
          mret p'
        else mret p);
  _ ← deref;
  _ ← set_version true version;
  _ ← when context (_ ← when changed (_ ← deref; mret tt); tell called_did_change);
  mret p'.

(** The condition of the fast path: nothing is observed, and there is nothing to
    deliver or it has been packaged already *)
Definition fast_path (context observed : bool) (p : NotifierPackage) : bool :=
  negb (context && observed) &&
  (bool_decide (m_notifiers p = []) || match m_version p with Some _ => true | None => false end).

(** [advance_with_notifications]; [observed] says whether the binding observes
    rows, [changed] whether there is a log to parse and [tables_changed] whether
    it changed an observed table *)
Definition advance_with_notifications (context observed changed tables_changed : bool) (p : NotifierPackage) : M unit :=
  group ← deref;
  let old_version := group_version group in
  if fast_path context observed p then
    _ ← before_advance p;
    group ← deref;
    _ ← set_version false (advance_version p (group_version group));
    group ← deref;
    let new_version := group_version group in
    _ ← when (context && negb (old_version =? new_version)) (tell called_did_change);
    o ← is_open;
    if negb o then mret tt
    else
      _ ← when context (tell called_will_send_notifications);
      o ← is_open;
      if negb o then mret tt
      else
        group ← deref;
        _ ← when (new_version =? group_version group) (deliver p);
        _ ← after_advance p;
        o ← is_open;
        when (o && context) (tell called_did_send_notifications)
  else
    _ ← when context (tell called_will_send_notifications);
    p ← observed_advance context changed tables_changed p;
    group ← deref;
    p ← lift (Package.package_and_wait (Some (group_version group)) p);
    _ ← deliver p;
    _ ← after_advance p;
    when context (tell called_did_send_notifications).

(** [transaction::cancel]: rolling back returns to the version of the read
    transaction, with an observer of the reverted changes if rows are observed *)
Definition cancel (context observed tables_changed : bool) : M unit :=
  if negb (context && observed) then _ ← deref; mret tt
  else _ ← observed_advance context true tables_changed Package.empty_package; mret tt.
End transaction.
End Transaction.

(** ** Theorems about advancing a Realm with notifications *)
Import Transaction.

Section theorems.
Context `{Worker} `{User}.
Context (newest : Z -> Z).
Implicit Types (w : World) (p : NotifierPackage).

Lemma tell_all_runs f l w : exists w', tell_all f l w = Some (tt, w').
Proof.
  revert w. induction l as [|n l IH]; intros w; [by exists w|]. cbn [tell_all].
  destruct (IH (mkWorld (react (f (notifier_id n)) (sg w)) (calls w ++ [f (notifier_id n)]))) as [w' E]. by exists w'.
Qed.

Lemma after_runs p w : exists w', after_advance p w = Some (tt, w').
Proof. unfold after_advance, when. destruct (negb _); [apply tell_all_runs|by exists w]. Qed.

(** Calls of functions that do not close the Realm leave it open. *)
Lemma tell_all_open f l w g :
  (forall n g, is_Some (react (f n) (Some g))) -> sg w = Some g ->
  exists w' g', tell_all f l w = Some (tt, w') /\ sg w' = Some g'.
Proof.
  intros Hf. revert w g. induction l as [|n l IH]; intros w g Hg; [by exists w, g|]. cbn [tell_all].
  destruct (Hf (notifier_id n) g) as [g1 Hg1].
  destruct (IH (mkWorld (react (f (notifier_id n)) (sg w)) (calls w ++ [f (notifier_id n)])) g1) as (w' & g' & E & Hg');
    [cbn; by rewrite Hg|]. by exists w', g'.
Qed.

Lemma before_open p w g :
  (forall n g, is_Some (react (called_before_advance n) (Some g))) -> sg w = Some g ->
  exists w' g', before_advance p w = Some (tt, w') /\ sg w' = Some g'.
Proof.
  intros Hf Hg. unfold before_advance, when. destruct (negb _); [by eapply tell_all_open|by exists w, g].
Qed.

Lemma deliver_runs p w g : sg w = Some g -> exists w', deliver p w = Some (tt, w').
Proof.
  intros Hg. unfold deliver, deref, mbind, M_bind. rewrite Hg. destruct (m_package_error p); [apply tell_all_runs|].
  unfold when. destruct (is_reading g); [apply tell_all_runs|by exists w].
Qed.

(** The steps after the notifiers have been run, when the Realm may be closed *)
Lemma delivering_runs context new_version p w g :
  sg w = Some g ->
  exists w', (_ ← when (new_version =? group_version g) (deliver p);
              _ ← after_advance p;
              o ← is_open;
              when (o && context) (tell called_did_send_notifications)) w = Some (tt, w').
Proof.
  intros Hg. unfold mbind, M_bind.
  assert (Hd : exists w1, when (new_version =? group_version g) (deliver p) w = Some (tt, w1)).
  { unfold when. destruct (_ =? _); [by eapply deliver_runs|by exists w]. }
  destruct Hd as [w1 ->]. destruct (after_runs p w1) as [w2 ->]. unfold is_open, when.
  destruct (_ && context); by eexists.
Qed.

(** C26: on the fast path no use of the shared group follows its end: whatever
    the binding's functions and the notifiers' callbacks after the change do,
    closing the Realm included, every [*sg] finds an open group, provided no
    callback closes the Realm before it has advanced. *)
Theorem advance_survives_closing context observed changed tables_changed p w g :
  fast_path context observed p = true -> sg w = Some g ->
  (forall n g, is_Some (react (called_before_advance n) (Some g))) ->
  exists w', advance_with_notifications newest context observed changed tables_changed p w = Some (tt, w').
Proof.
  intros Hfast Hg Hbefore. unfold advance_with_notifications. rewrite Hfast.
  destruct (before_open p w g Hbefore Hg) as (w1 & g1 & E1 & Hg1).
  unfold mbind, M_bind. unfold deref at 1. rewrite Hg, E1. unfold deref at 1. rewrite Hg1.
  unfold set_version. unfold deref at 1. cbn [sg]. rewrite Hg1. cbn [fmap option_fmap option_map].
  set (w2 := mkWorld _ _). cbn [group_version].
  assert (Hw : exists w3, when (context && negb (group_version g =? advance_version newest p (group_version g1)))
    (tell called_did_change) w2 = Some (tt, w3)) by (unfold when; destruct (_ && _); by eexists).
  destruct Hw as [w3 ->]. unfold is_open at 1. destruct (sg w3) as [g3|] eqn:Hg3; cbn [negb]; [|by exists w3].
  assert (Hw : exists w4, when context (tell called_will_send_notifications) w3 = Some (tt, w4))
    by (unfold when; destruct context; by eexists).
  destruct Hw as [w4 ->]. unfold is_open at 1. destruct (sg w4) as [g4|] eqn:Hg4; cbn [negb]; [|by exists w4].
  unfold deref at 1. rewrite Hg4. apply (delivering_runs context _ p w4 g4 Hg4).
Qed.

(** Whether the last notifier ran at a version older than the one asked for *)
Definition outdated (target : option Z) (n : option PackagedNotifier) : bool :=
  match n, target with
  | Some n, Some version => notifier_version n <? version
  | _, _ => false
  end.

(** The wait ends with the first notifiers that are ready. *)
Lemma iter_step k l : Nat.iter k worker_step (worker_step l) = worker_step (Nat.iter k worker_step l).
Proof. by rewrite Nat.iter_swap. Qed.

Lemma wait_until_first target rounds l :
  is_ready target (Nat.iter rounds worker_step l) = true ->
  exists k, wait_until target rounds l = Nat.iter k worker_step l /\ is_ready target (Nat.iter k worker_step l) = true /\
    forall j, (j < k)%nat -> is_ready target (Nat.iter j worker_step l) = false.
Proof.
  revert l. induction rounds as [|rounds IH]; intros l Hr; cbn [wait_until]; destruct (is_ready target l) eqn:E.
  1, 3: exists 0%nat; split_and!; [done..|lia].
  - cbn in Hr. congruence.
  - destruct (IH (worker_step l)) as (k & -> & Hk & Hfirst); [by rewrite iter_step|]. rewrite iter_step in Hk |- *.
    exists (S k). split_and!; [done..|]. intros [|j] Hj; [done|]. rewrite Nat.iter_succ_r. apply Hfirst. lia.
Qed.

Lemma iter_same k l : notifier_id <$> Nat.iter k worker_step l = notifier_id <$> l.
Proof. induction k as [|k IH]; [done|]. cbn. by rewrite worker_same. Qed.

Lemma last_version_last v l :
  Package.last_version v l = match last (filter (fun n => Package.delivers n = true) l) with
    | Some n => Some (notifier_version n) | None => v end.
Proof.
  revert v. induction l as [|n l IH]; intros v; [done|]. cbn [Package.last_version foldl].
  fold (Package.last_version (if Package.delivers n then Some (notifier_version n) else v) l).
  rewrite IH, filter_cons. destruct (Package.delivers n) eqn:E.
  - rewrite decide_True, last_cons by done. by destruct (last _).
  - by rewrite decide_False by done.
Qed.

(** C27: packaging never fails its assertion and waits exactly until the worker
    has run every notifier with callbacks at the version asked for; it asks the
    worker to run until then, and the worker is assumed to get there. Of the
    notifiers as they are then those stay that have run and have something to
    deliver, unless the last of them ran at an older version, when all are
    dropped. The package's version is the one the last of them ran at, and it
    does not wait again. Notifiers without callbacks are not waited for. *)
Theorem package_and_wait_ready target p :
  m_version p = None -> m_coordinator p = true -> m_package_error p = false -> m_notifiers p <> [] ->
  exists p' k, Package.package_and_wait target p = Some p' /\
    let l := Nat.iter k worker_step (m_notifiers p) in
    let kept := filter (fun n => notifier_has_run n = true /\ has_something n = true) l in
    (* the first notifiers that need not be waited for *)
    is_ready target l = true /\ (forall j, (j < k)%nat -> is_ready target (Nat.iter j worker_step (m_notifiers p)) = false) /\
    (forall n version, target = Some version -> n ∈ l -> has_callbacks n = true ->
       notifier_has_run n = true /\ version <= notifier_version n) /\
    (* what is packaged *)
    m_notifiers p' = (if outdated target (last kept) then [] else kept) /\
    m_version p' = notifier_version <$> last (m_notifiers p') /\
    notifier_id <$> m_notifiers p' `sublist_of` notifier_id <$> m_notifiers p /\
    (* and nothing is waited for again *)
    forall target', Package.package_and_wait target' p' = Some p'.
Proof.
  intros Hv Hc He Hn. unfold Package.package_and_wait at 1. rewrite Hc, He, bool_decide_eq_false_2, Hv by done. cbn [negb orb].
  destruct (wait_until_first target (worker_rounds target (m_notifiers p)) (m_notifiers p) (worker_gets_there _ _))
    as (k & El & Hready & Hfirst).
  unfold wait_for_notifiers. rewrite El, last_version_last. set (l := Nat.iter k worker_step (m_notifiers p)) in *.
  assert (filter (fun n => Package.delivers n = true) l = filter (fun n => notifier_has_run n = true /\ has_something n = true) l) as ->.
  { apply list_filter_iff. intros n. unfold Package.delivers. by rewrite andb_true_iff. }
  set (kept := filter _ l).
  assert (Hwait : forall n version, target = Some version -> n ∈ l -> has_callbacks n = true ->
    notifier_has_run n = true /\ version <= notifier_version n).
  { intros n version -> Hin Hcb. cbn [is_ready] in Hready. rewrite forallb_forall in Hready.
    specialize (Hready n (proj1 (list_elem_of_In _ _) Hin)). rewrite Hcb in Hready. cbn in Hready.
    apply andb_prop in Hready as [Hr Hle]. split; [done|lia]. }
  assert (Hids : notifier_id <$> kept `sublist_of` notifier_id <$> m_notifiers p).
  { rewrite <- (iter_same k (m_notifiers p)). apply fmap_sublist, sublist_filter. }
  assert (Hagain : forall v notifiers target', Package.package_and_wait target' (mkPackage v notifiers false false) =
    Some (mkPackage v notifiers false false)) by done.
  unfold outdated. destruct (last kept) as [n|] eqn:El'; [destruct target as [t|]; [destruct (notifier_version n <? t) eqn:Hlate|]|].
  - eexists _, k. split; [done|]. cbn zeta. fold l. fold kept. rewrite El', Hlate. split_and!; try done. apply sublist_nil_l.
  - eexists _, k. split; [done|]. cbn zeta. fold l. fold kept. rewrite El', Hlate. split_and!; try done. cbn. by rewrite El'.
  - eexists _, k. split; [done|]. cbn zeta. fold l. fold kept. rewrite El'. split_and!; try done. cbn. by rewrite El'.
  - pose proof El' as Enil. apply last_None in Enil. rewrite Enil. exists (mkPackage None [] false false), k.
    split; [by destruct target|]. cbn zeta. fold l. fold kept. rewrite El', Enil. split_and!; try done. apply sublist_nil_l.
Qed.
End theorems.

(** ** Concrete runs *)
Section witnesses.
(** A worker that is stopped: no notifier has callbacks or has run. *)
Definition stop_notifier (n : PackagedNotifier) : PackagedNotifier :=
  mkPackaged (notifier_id n) false false (notifier_version n) (has_something n).
#[local] Instance idle_worker : Worker.
Proof.
  refine {| worker_step := fmap stop_notifier; worker_rounds := fun _ _ => 1%nat |}.
  - intros l. by induction l as [|n l IH]; [|rewrite !fmap_cons, IH].
  - intros [version|] l; [|done]. by induction l.
Defined.

(** A binding that closes the Realm when it is told that notifications follow. *)
#[local] Instance closing_user : User :=
  {| react c g := match c with called_will_send_notifications => None | _ => g end |}.

Definition open_world : World := mkWorld (Some (mkGroup 3 true)) [].
Definition packaged_before : NotifierPackage := mkPackage (Some 4) [mkPackaged 0 true true 4 true] false false.

Lemma advance_survives_closing_witness :
  fast_path true false packaged_before = true /\
  exists w', advance_with_notifications (fun v => v) true false true true packaged_before open_world = Some (tt, w').
Proof.
  split; [reflexivity|]. apply (advance_survives_closing (fun v => v) true false true true packaged_before open_world (mkGroup 3 true)).
  - reflexivity.
  - reflexivity.
  - intros n g. exists g. reflexivity.
Defined.

(** A worker that runs the notifiers, at one version after the other *)
Definition run_notifier (n : PackagedNotifier) : PackagedNotifier :=
  mkPackaged (notifier_id n) (has_callbacks n) true (notifier_version n + 1) (has_something n).
Definition rounds_for (version : Z) (l : list PackagedNotifier) : nat :=
  S (foldr (fun n k => Nat.max (Z.to_nat (version - notifier_version n)) k) 0%nat l).

Lemma run_notifiers k (l : list PackagedNotifier) : Nat.iter (S k) (fmap run_notifier) l =
  (fun n => mkPackaged (notifier_id n) (has_callbacks n) true (notifier_version n + Z.of_nat (S k)) (has_something n)) <$> l.
Proof.
  induction k as [|k IH]; cbn [Nat.iter]; cbn in *; [by apply list_fmap_ext|]. rewrite IH, <- list_fmap_compose.
  apply list_fmap_ext. intros i n _. unfold run_notifier. cbn. f_equal. lia.
Qed.

#[local] Instance diligent_worker : Worker.
Proof.
  refine {| worker_step := fmap run_notifier;
    worker_rounds target l := match target with Some version => rounds_for version l | None => 0%nat end |}.
  - intros l. by induction l as [|n l IH]; [|rewrite !fmap_cons, IH].
  - intros [version|] l; [|done]. unfold rounds_for. rewrite run_notifiers. cbn [is_ready]. apply forallb_forall.
    intros n' (n & -> & Hn)%list_elem_of_In%list_elem_of_fmap. cbn. apply orb_true_intro. right. apply Z.leb_le.
    induction l as [|n' l IH]; [by apply elem_of_nil in Hn|]. apply elem_of_cons in Hn as [->|Hn]; cbn in *; [lia|].
    specialize (IH Hn). lia.
Defined.

Definition waiting_package : NotifierPackage :=
  mkPackage None [mkPackaged 0 true true 2 true; mkPackaged 1 true false 0 false; mkPackaged 2 false false 0 true] true false.

Lemma package_and_wait_ready_witness :
  exists p' k, Package.package_and_wait (Some 4) waiting_package = Some p' /\
    let l := Nat.iter k worker_step (m_notifiers waiting_package) in
    let kept := filter (fun n => notifier_has_run n = true /\ has_something n = true) l in
    is_ready (Some 4) l = true /\
    (forall j, (j < k)%nat -> is_ready (Some 4) (Nat.iter j worker_step (m_notifiers waiting_package)) = false) /\
    (forall n version, Some 4 = Some version -> n ∈ l -> has_callbacks n = true ->
       notifier_has_run n = true /\ version <= notifier_version n) /\
    m_notifiers p' = (if outdated (Some 4) (last kept) then [] else kept) /\
    m_version p' = notifier_version <$> last (m_notifiers p') /\
    notifier_id <$> m_notifiers p' `sublist_of` notifier_id <$> m_notifiers waiting_package /\
    forall target', Package.package_and_wait target' p' = Some p'.
Proof. apply (package_and_wait_ready (Some 4) waiting_package); [reflexivity|reflexivity|reflexivity|discriminate]. Defined.

(** It waits for the second notifier, which has nothing to deliver then. *)
Example waiting_packaged : Package.package_and_wait (Some 4) waiting_package =
  Some (mkPackage (Some 4) [mkPackaged 0 true true 6 true; mkPackaged 2 false true 4 true] false false).
Proof. reflexivity. Qed.

(** The calls of that run. *)
Example closed_run :
  (calls ∘ snd) <$> advance_with_notifications (fun v => v) true false true true packaged_before open_world =
  Some [called_before_advance 0; called_advance false; called_did_change; called_will_send_notifications].
Proof. reflexivity. Qed.

(** *** Where the code falls short *)

(** When rows are observed the same binding makes the code use the shared
    group of the closed Realm. *)
Theorem observed_advance_uses_closed_realm :
  advance_with_notifications (fun v => v) true true true true packaged_before open_world = None.
Proof. reflexivity. Qed.
End witnesses.
