(* ===== verification/SyncSession.v ===== *)
(** * [SyncSession]: the session state machine

    Models [sync/sync_session.cpp] up to the notifiers, which are in
    [SyncNotifiers].  The session owns a [sync::Session] of the sync client and
    talks to it, to the binding and to the session manager; those calls are the
    events of [m_trace], in the order they are made.  Every public method and
    every callback the session hands out is one operation; the operations run
    under the state mutex, so the interleavings are sequences of operations.
    [None] is a failed [REALM_ASSERT] or the use of a null [m_session] or of an
    absent server URL. *)
From stdpp Require Import strings.
From S2P Require Import Prelude.

(** ** The data *)
Inductive SyncSessionStopPolicy := Immediately | LiveIndefinitely | AfterChangesUploaded.

Inductive State := waiting_for_access_token | active | dying | inactive.
#[global] Instance State_eq_dec : EqDecision State.
Proof. solve_decision. Defined.

(** [sync::Session::ConnectionState] and [SyncSession::ConnectionState] *)
Inductive ConnectionState := disconnected | connecting | connected.
#[global] Instance ConnectionState_eq_dec : EqDecision ConnectionState.
Proof. solve_decision. Defined.

(** [SyncSession::PublicState] *)
Inductive PublicState := WaitingForAccessToken | Active | Dying | Inactive.

(** The codes of [sync::ProtocolError] and [sync::Client::Error] that
    [handle_error] tells apart. *)
Inductive ProtocolError :=
| connection_closed | other_error
| unknown_message | bad_syntax | limits_exceeded | wrong_protocol_version | bad_session_ident
| reuse_of_session_ident | bound_in_other_session | bad_message_order | bad_client_version
| illegal_realm_path | no_such_realm | bad_changeset | bad_changeset_header_syntax
| bad_changeset_size | bad_changesets | bad_decompression | partial_sync_disabled
| unsupported_session_feature
| session_closed | other_session_error | disabled_session
| token_expired | bad_authentication | permission_denied
| bad_origin_file_ident | bad_server_file_ident | bad_client_file_ident | bad_server_version
| diverging_histories.

Inductive ClientError :=
| client_connection_closed | client_pong_timeout
| client_bad_timestamp | client_connect_timeout | client_unknown_message | client_bad_syntax
| client_limits_exceeded | client_bad_session_ident | client_bad_message_order | client_bad_progress
| client_bad_changeset_header_syntax | client_bad_changeset_size | client_bad_origin_file_ident
| client_bad_server_version | client_bad_changeset | client_bad_request_ident | client_bad_error_code
| client_bad_compression | client_bad_client_version | client_ssl_server_cert_rejected
| client_bad_file_ident | client_bad_client_file_ident | client_bad_client_file_ident_salt.

(** [SyncError]: the category and code, and whether it is fatal *)
Inductive ErrorCode :=
| protocol_error (e : ProtocolError)
| client_error (e : ClientError)
| unrecognized (value : Z).
Record SyncError := mkSyncError { error_code : ErrorCode; is_fatal : bool }.

Inductive ShouldBackup := backup_yes | backup_no.

(** The two waiters of [sync::Session] *)
Inductive Waiter := async_wait_for_upload_completion | async_wait_for_download_completion.

(** [CompletionWaitPackage]; a callback is named by a number. *)
Definition CompletionWaitPackage : Type := Waiter * nat.

(** What the session does to the world. *)
Inductive event :=
| ev_make_session
| ev_bind (url token : string)
| ev_refresh (token : string)
| ev_cancel_reconnect_delay
| ev_override_server (address : string) (port : Z)
| ev_wait (w : Waiter) (callback : nat)
| ev_wait_for_upload_before_death (death_count : nat)
| ev_nonsync_transact_notify (version : Z)
| ev_bind_session_handler
| ev_unregister_session
| ev_connection_change (old_state new_state : ConnectionState)
| ev_aborted (callback : nat)
| ev_invalidate_user
| ev_file_action (backup : ShouldBackup)
| ev_error_handler (e : SyncError).

(** [SyncSession]'s members.  [m_session] says whether there is an underlying
    session.  [m_lock] is the state of the lock on [m_state_mutex].
    [m_external_reference] counts the live copies of the external reference. *)
Record SyncSession := mkSession {
  m_stop_policy : SyncSessionStopPolicy;
  m_has_error_handler : bool;
  m_has_user : bool;
  m_state : State;
  m_lock : bool;
  m_connection_state : ConnectionState;
  m_death_count : nat;
  m_completion_wait_packages : list CompletionWaitPackage;
  m_server_override : option (string * Z);
  m_session : bool;
  m_session_has_been_bound : bool;
  m_deferred_commit_notification : option Z;
  m_deferred_close : bool;
  m_server_url : option string;
  m_external_reference : nat;
  m_trace : list event
}.

(** ** State and failure *)
Definition M (A : Type) : Type := SyncSession -> option (A * SyncSession).
#[global] Instance M_ret : MRet M := fun _ a s => Some (a, s).
#[global] Instance M_bind : MBind M := fun _ _ f m s =>
  match m s with Some (a, s) => f a s | None => None end.

Definition get : M SyncSession := fun s => Some (s, s).
Definition put (f : SyncSession -> SyncSession) : M unit := fun s => Some (tt, f s).
Definition fail {A} : M A := fun _ => None.
Definition realm_assert (b : bool) : M unit := if b then mret tt else fail.

Module Session.

Definition set_state (x : State) s := mkSession (m_stop_policy s) (m_has_error_handler s) (m_has_user s) x (m_lock s) (m_connection_state s) (m_death_count s) (m_completion_wait_packages s) (m_server_override s) (m_session s) (m_session_has_been_bound s) (m_deferred_commit_notification s) (m_deferred_close s) (m_server_url s) (m_external_reference s) (m_trace s).
Definition set_lock (x : bool) s := mkSession (m_stop_policy s) (m_has_error_handler s) (m_has_user s) (m_state s) x (m_connection_state s) (m_death_count s) (m_completion_wait_packages s) (m_server_override s) (m_session s) (m_session_has_been_bound s) (m_deferred_commit_notification s) (m_deferred_close s) (m_server_url s) (m_external_reference s) (m_trace s).
Definition set_connection (x : ConnectionState) s := mkSession (m_stop_policy s) (m_has_error_handler s) (m_has_user s) (m_state s) (m_lock s) x (m_death_count s) (m_completion_wait_packages s) (m_server_override s) (m_session s) (m_session_has_been_bound s) (m_deferred_commit_notification s) (m_deferred_close s) (m_server_url s) (m_external_reference s) (m_trace s).
Definition set_death_count (x : nat) s := mkSession (m_stop_policy s) (m_has_error_handler s) (m_has_user s) (m_state s) (m_lock s) (m_connection_state s) x (m_completion_wait_packages s) (m_server_override s) (m_session s) (m_session_has_been_bound s) (m_deferred_commit_notification s) (m_deferred_close s) (m_server_url s) (m_external_reference s) (m_trace s).
Definition set_packages (x : list CompletionWaitPackage) s := mkSession (m_stop_policy s) (m_has_error_handler s) (m_has_user s) (m_state s) (m_lock s) (m_connection_state s) (m_death_count s) x (m_server_override s) (m_session s) (m_session_has_been_bound s) (m_deferred_commit_notification s) (m_deferred_close s) (m_server_url s) (m_external_reference s) (m_trace s).
Definition set_override (x : option (string * Z)) s := mkSession (m_stop_policy s) (m_has_error_handler s) (m_has_user s) (m_state s) (m_lock s) (m_connection_state s) (m_death_count s) (m_completion_wait_packages s) x (m_session s) (m_session_has_been_bound s) (m_deferred_commit_notification s) (m_deferred_close s) (m_server_url s) (m_external_reference s) (m_trace s).
Definition set_session (x bound : bool) s := mkSession (m_stop_policy s) (m_has_error_handler s) (m_has_user s) (m_state s) (m_lock s) (m_connection_state s) (m_death_count s) (m_completion_wait_packages s) (m_server_override s) x bound (m_deferred_commit_notification s) (m_deferred_close s) (m_server_url s) (m_external_reference s) (m_trace s).
Definition set_deferred_commit (x : option Z) s := mkSession (m_stop_policy s) (m_has_error_handler s) (m_has_user s) (m_state s) (m_lock s) (m_connection_state s) (m_death_count s) (m_completion_wait_packages s) (m_server_override s) (m_session s) (m_session_has_been_bound s) x (m_deferred_close s) (m_server_url s) (m_external_reference s) (m_trace s).
Definition set_deferred_close (x : bool) s := mkSession (m_stop_policy s) (m_has_error_handler s) (m_has_user s) (m_state s) (m_lock s) (m_connection_state s) (m_death_count s) (m_completion_wait_packages s) (m_server_override s) (m_session s) (m_session_has_been_bound s) (m_deferred_commit_notification s) x (m_server_url s) (m_external_reference s) (m_trace s).
Definition set_server_url (x : option string) s := mkSession (m_stop_policy s) (m_has_error_handler s) (m_has_user s) (m_state s) (m_lock s) (m_connection_state s) (m_death_count s) (m_completion_wait_packages s) (m_server_override s) (m_session s) (m_session_has_been_bound s) (m_deferred_commit_notification s) (m_deferred_close s) x (m_external_reference s) (m_trace s).
Definition set_external (x : nat) s := mkSession (m_stop_policy s) (m_has_error_handler s) (m_has_user s) (m_state s) (m_lock s) (m_connection_state s) (m_death_count s) (m_completion_wait_packages s) (m_server_override s) (m_session s) (m_session_has_been_bound s) (m_deferred_commit_notification s) (m_deferred_close s) (m_server_url s) x (m_trace s).
Definition set_trace (x : list event) s := mkSession (m_stop_policy s) (m_has_error_handler s) (m_has_user s) (m_state s) (m_lock s) (m_connection_state s) (m_death_count s) (m_completion_wait_packages s) (m_server_override s) (m_session s) (m_session_has_been_bound s) (m_deferred_commit_notification s) (m_deferred_close s) (m_server_url s) (m_external_reference s) x.

Definition emit (e : event) : M unit := put (fun s => set_trace (m_trace s ++ [e]) s).

(** A call on [*m_session]. *)
Definition on_session (e : event) : M unit := s ← get; _ ← realm_assert (m_session s); emit e.

Fixpoint emit_all (es : list event) : M unit :=
  match es with [] => mret tt | e :: es => _ ← emit e; emit_all es end.

(** [SyncSession::SyncSession] *)
Definition create (stop_policy : SyncSessionStopPolicy) (has_error_handler has_user : bool) : SyncSession :=
  mkSession stop_policy has_error_handler has_user inactive false disconnected 0 [] None false false
    None false None 0 [].

(** [unregister]: releases the lock *)
Definition unregister : M unit :=
  s ← get;
  _ ← realm_assert (m_lock s);
  _ ← realm_assert (bool_decide (m_state s = inactive));
  _ ← put (set_lock false);
  emit ev_unregister_session.

(** [Inactive::enter_state] *)
Definition inactive_enter_state : M unit :=
  s ← get;
  let completion_wait_packages := m_completion_wait_packages s in
  _ ← put (set_packages []);
  _ ← put (set_session false (m_session_has_been_bound s));
  _ ← unregister;
  s ← get;
  let old_state := m_connection_state s in
  _ ← put (set_connection disconnected);
  _ ← (if bool_decide (old_state <> disconnected)
       then emit (ev_connection_change old_state disconnected) else mret tt);
  emit_all ((fun p => ev_aborted p.2) <$> completion_wait_packages).

(** The check and the assignment of [advance_state] *)
Definition assign_state (st : State) : M unit :=
  s ← get;
  _ ← realm_assert (m_lock s);
  _ ← realm_assert (bool_decide (st <> m_state s));
  put (set_state st).

(** [advance_state(lock, inactive)] *)
Definition advance_inactive : M unit := _ ← assign_state inactive; inactive_enter_state.

(** [Dying::enter_state] *)
Definition dying_enter_state : M unit :=
  s ← get;
  if negb (m_session s) then advance_inactive
  else
    _ ← put (set_death_count (S (m_death_count s)));
    on_session (ev_wait_for_upload_before_death (S (m_death_count s))).

(** [WaitingForAccessToken::enter_state] *)
Definition waiting_enter_state : M unit := put (set_deferred_close false).

(** [advance_state] *)
Definition advance_state (st : State) : M unit :=
  _ ← assign_state st;
  match st with
  | waiting_for_access_token => waiting_enter_state
  | active => mret tt
  | dying => dying_enter_state
  | inactive => inactive_enter_state
  end.

(** The callback of [Dying::enter_state] *)
Definition with_lock {A} (m : M A) : M A :=
  _ ← put (set_lock true); a ← m; _ ← put (set_lock false); mret a.

Definition upload_completed (current_death_count : nat) : M unit :=
  with_lock (
    s ← get;
    if bool_decide (m_state s = dying) && (m_death_count s =? current_death_count)%nat
    then advance_state inactive else mret tt).

(** [create_sync_session] *)
Definition create_sync_session : M unit :=
  s ← get;
  if m_session s then mret tt
  else _ ← emit ev_make_session; put (set_session true false).

(** [State::close] of each state *)
Definition waiting_close : M unit :=
  s ← get;
  match m_stop_policy s with
  | Immediately => advance_state inactive
  | LiveIndefinitely | AfterChangesUploaded => put (set_deferred_close true)
  end.

Definition active_close : M unit :=
  s ← get;
  match m_stop_policy s with
  | Immediately => advance_state inactive
  | LiveIndefinitely => mret tt
  | AfterChangesUploaded => advance_state dying
  end.

Definition state_close : M unit :=
  s ← get;
  match m_state s with
  | waiting_for_access_token => waiting_close
  | active => active_close
  | dying | inactive => mret tt
  end.

(** [WaitingForAccessToken::refresh_access_token]: bind or refresh *)
Definition bind_or_refresh (access_token : string) (server_url : option string) : M unit :=
  s ← get;
  _ ← (match m_server_url s with None => put (set_server_url server_url) | Some _ => mret tt end);
  s ← get;
  if m_session_has_been_bound s then
    _ ← on_session (ev_refresh access_token);
    on_session ev_cancel_reconnect_delay
  else
    match m_server_url s with
    | None => fail
    | Some url =>
      _ ← on_session (ev_bind url access_token);
      put (set_session (m_session s) true)
    end.

(** Registering the pending waits and the deferred commit *)
Definition register_pending : M unit :=
  s ← get;
  _ ← (match m_server_override s with
       | Some (address, port) => on_session (ev_override_server address port)
       | None => mret tt
       end);
  _ ← emit_all ((fun p => ev_wait p.1 p.2) <$> m_completion_wait_packages s);
  _ ← put (set_packages []);
  match m_deferred_commit_notification s with
  | Some v => _ ← on_session (ev_nonsync_transact_notify v); put (set_deferred_commit None)
  | None => mret tt
  end.

Definition waiting_refresh_access_token (access_token : string) (server_url : option string) : M unit :=
  _ ← create_sync_session;
  _ ← bind_or_refresh access_token server_url;
  _ ← register_pending;
  _ ← advance_state active;
  s ← get;
  if m_deferred_close s then state_close else mret tt.

(** [refresh_access_token] of each state *)
Definition state_refresh_access_token (access_token : string) (server_url : option string) : M unit :=
  s ← get;
  match m_state s with
  | waiting_for_access_token => waiting_refresh_access_token access_token server_url
  | active => _ ← on_session (ev_refresh access_token); on_session ev_cancel_reconnect_delay
  | dying | inactive => mret tt
  end.

(** [access_token_expired] of each state *)
Definition state_access_token_expired : M unit :=
  s ← get;
  match m_state s with
  | active =>
    _ ← advance_state waiting_for_access_token;
    _ ← put (set_lock false);
    emit ev_bind_session_handler
  | _ => mret tt
  end.

(** [log_out] of each state *)
Definition state_log_out : M unit :=
  s ← get;
  match m_state s with
  | inactive => mret tt
  | _ => advance_state inactive
  end.

(** [revive_if_needed] of each state; whether to ask the binding for a token *)
Definition state_revive_if_needed : M bool :=
  s ← get;
  match m_state s with
  | waiting_for_access_token => _ ← put (set_deferred_close false); mret false
  | active => mret false
  | dying => _ ← advance_state active; mret false
  | inactive => _ ← advance_state waiting_for_access_token; mret true
  end.

(** [handle_reconnect] of each state *)
Definition state_handle_reconnect : M unit :=
  s ← get;
  match m_state s with
  | waiting_for_access_token => _ ← put (set_lock false); emit ev_bind_session_handler
  | active => on_session ev_cancel_reconnect_delay
  | dying | inactive => mret tt
  end.

(** [nonsync_transact_notify] of each state *)
Definition state_nonsync_transact_notify (version : Z) : M unit :=
  s ← get;
  match m_state s with
  | waiting_for_access_token => put (set_deferred_commit (Some version))
  | active => on_session (ev_nonsync_transact_notify version)
  | dying | inactive => mret tt
  end.

(** [handle_error] of each state; whether the error is fully handled *)
Definition state_handle_error (e : SyncError) : M bool :=
  s ← get;
  match m_state s with
  | dying => _ ← (if is_fatal e then advance_state inactive else mret tt); mret true
  | _ => mret false
  end.

(** [wait_for_completion] of each state *)
Definition state_wait_for_completion (callback : nat) (waiter : Waiter) : M bool :=
  s ← get;
  match m_state s with
  | waiting_for_access_token | inactive =>
    _ ← put (set_packages (m_completion_wait_packages s ++ [(waiter, callback)])); mret true
  | active | dying => _ ← on_session (ev_wait waiter callback); mret true
  end.

(** [override_server] of each state *)
Definition state_override_server (address : string) (port : Z) : M unit :=
  s ← get;
  _ ← put (set_override (Some (address, port)));
  match m_state s with
  | waiting_for_access_token | inactive => mret tt
  | active | dying => on_session (ev_override_server address port)
  end.

(** [update_error_and_mark_file_for_deletion] *)
Definition update_error_and_mark_file_for_deletion (b : ShouldBackup) : M unit := emit (ev_file_action b).

(** [cancel_pending_waits]: releases the lock *)
Definition cancel_pending_waits : M unit :=
  s ← get;
  let packages := m_completion_wait_packages s in
  _ ← put (set_packages []);
  _ ← put (set_lock false);
  emit_all ((fun p => ev_aborted p.2) <$> packages).

(** The local enumeration of [handle_error], and what becomes of the error *)
Inductive NextStateAfterError := next_none | next_inactive | next_error.
Inductive Disposition :=
| ignored
| refresh_token
| invalidate_user
| delete_file (b : ShouldBackup)
| reported.

(** The switch over the protocol errors *)
Definition protocol_disposition (e : ProtocolError) : Disposition :=
  match e with
  | connection_closed | other_error => ignored
  | unknown_message | bad_syntax | limits_exceeded | wrong_protocol_version | bad_session_ident
  | reuse_of_session_ident | bound_in_other_session | bad_message_order | bad_client_version
  | illegal_realm_path | no_such_realm | bad_changeset | bad_changeset_header_syntax
  | bad_changeset_size | bad_changesets | bad_decompression | partial_sync_disabled
  | unsupported_session_feature => reported
  | session_closed | other_session_error | disabled_session => ignored
  | token_expired => refresh_token
  | bad_authentication => invalidate_user
  | permission_denied => delete_file backup_no
  | bad_origin_file_ident | bad_server_file_ident | bad_client_file_ident | bad_server_version
  | diverging_histories => delete_file backup_yes
  end.

(** The switch over the client errors *)
Definition client_disposition (e : ClientError) : Disposition :=
  match e with
  | client_connection_closed | client_pong_timeout => ignored
  | _ => reported
  end.

Definition disposition (c : ErrorCode) : Disposition :=
  match c with
  | protocol_error e => protocol_disposition e
  | client_error e => client_disposition e
  | unrecognized _ => reported
  end.

(** The tail of [handle_error] *)
Definition finish_error (next_state : NextStateAfterError) (e : SyncError) : M unit :=
  _ ← (match next_state with
       | next_none => mret tt
       | next_inactive => with_lock (advance_state inactive)
       | next_error => with_lock cancel_pending_waits
       end);
  s ← get;
  if m_has_error_handler s then emit (ev_error_handler e) else mret tt.

(** [handle_error] *)
Definition handle_error (e : SyncError) : M unit :=
  let next_state := if is_fatal e then next_error else next_none in
  handled ← with_lock (state_handle_error e);
  if handled : bool then mret tt
  else
    match disposition (error_code e) with
    | ignored => mret tt
    | refresh_token => with_lock state_access_token_expired
    | invalidate_user =>
      _ ← with_lock cancel_pending_waits;
      s ← get;
      _ ← (if m_has_user s then emit ev_invalidate_user else mret tt);
      finish_error next_none e
    | delete_file b =>
      _ ← update_error_and_mark_file_for_deletion b;
      finish_error next_inactive e
    | reported => finish_error next_state e
    end.

(** The connection state listener of [create_sync_session] *)
Definition connection_state_changed (state : ConnectionState) (error : option SyncError) : M unit :=
  s ← get;
  let last_state := m_connection_state s in
  _ ← put (set_connection state);
  _ ← emit (ev_connection_change last_state state);
  match error with
  | Some e => handle_error e
  | None => mret tt
  end.

(** The public methods *)
Definition nonsync_transact_notify (version : Z) : M unit :=
  with_lock (state_nonsync_transact_notify version).

Definition revive_if_needed : M unit :=
  ask ← with_lock state_revive_if_needed;
  if ask : bool then emit ev_bind_session_handler else mret tt.

Definition handle_reconnect : M unit := with_lock state_handle_reconnect.
Definition log_out : M unit := with_lock state_log_out.
Definition close : M unit := with_lock state_close.
Definition wait_for_upload_completion (callback : nat) : M bool :=
  with_lock (state_wait_for_completion callback async_wait_for_upload_completion).
Definition wait_for_download_completion (callback : nat) : M bool :=
  with_lock (state_wait_for_completion callback async_wait_for_download_completion).

Definition refresh_access_token (access_token : string) (server_url : option string) : M unit :=
  with_lock (
    s ← get;
    match m_server_url s, server_url with
    | None, None => mret tt
    | _, _ => state_refresh_access_token access_token server_url
    end).

Definition override_server (address : string) (port : Z) : M unit :=
  with_lock (state_override_server address port).

(** [get_public_state] *)
Definition get_public_state s : PublicState :=
  match m_state s with
  | waiting_for_access_token => WaitingForAccessToken
  | active => Active
  | dying => Dying
  | inactive => Inactive
  end.

(** [external_reference], [existing_external_reference] *)
Definition external_reference : M unit :=
  with_lock (s ← get; put (set_external (S (m_external_reference s)))).
Definition existing_external_reference : M bool :=
  with_lock (
    s ← get;
    if (0 <? m_external_reference s)%nat
    then _ ← put (set_external (S (m_external_reference s))); mret true else mret false).

(** One copy of the reference goes; the last one runs the destructor of
    [ExternalReference], which is a step of its own. *)
Definition drop_external_reference : M unit :=
  s ← get; put (set_external (m_external_reference s - 1)).

(** [did_drop_external_reference] *)
Definition did_drop_external_reference : M unit :=
  with_lock (
    s ← get;
    if (0 <? m_external_reference s)%nat then mret tt else state_close).
End Session.
