(* ===== verification/SyncSessionFacts.v ===== *)
(** * Correctness of [SyncSession]

    The operations as steps, the invariant of the reachable sessions, and what
    a step may do to the state and to the pending callbacks. *)
From stdpp Require Import strings.
From S2P Require Import Prelude.
From S2P Require Import SyncSession.
Import Session.

(** Everything that can happen to a session: the public methods, the callbacks
    it registered with the sync client, and the end of an external reference. *)
Inductive call :=
| call_refresh_access_token (token : string) (url : option string)
| call_nonsync_transact_notify (version : Z)
| call_revive_if_needed
| call_handle_reconnect
| call_log_out
| call_close
| call_wait_for_upload_completion (callback : nat)
| call_wait_for_download_completion (callback : nat)
| call_override_server (address : string) (port : Z)
| call_connection_state_changed (state : ConnectionState) (error : option SyncError)
| call_handle_error (error : SyncError)
| call_upload_completed (death_count : nat)
| call_external_reference
| call_existing_external_reference
| call_drop_external_reference
| call_did_drop_external_reference.

Definition ignore {A} (m : M A) : M unit := _ ← m; mret tt.

Definition perform (c : call) : M unit :=
  match c with
  | call_refresh_access_token token url => refresh_access_token token url
  | call_nonsync_transact_notify v => nonsync_transact_notify v
  | call_revive_if_needed => revive_if_needed
  | call_handle_reconnect => handle_reconnect
  | call_log_out => log_out
  | call_close => close
  | call_wait_for_upload_completion k => ignore (wait_for_upload_completion k)
  | call_wait_for_download_completion k => ignore (wait_for_download_completion k)
  | call_override_server a p => override_server a p
  | call_connection_state_changed st e => connection_state_changed st e
  | call_handle_error e => handle_error e
  | call_upload_completed n => upload_completed n
  | call_external_reference => external_reference
  | call_existing_external_reference => ignore existing_external_reference
  | call_drop_external_reference => drop_external_reference
  | call_did_drop_external_reference => did_drop_external_reference
  end.

Fixpoint run (cs : list call) (s : SyncSession) : option SyncSession :=
  match cs with
  | [] => Some s
  | c :: cs => match perform c s with Some (_, s) => run cs s | None => None end
  end.

(** Runs the monadic code on an explicit session. *)
Ltac ev :=
  cbv beta iota zeta delta [
    mbind M_bind mret M_ret get put fail realm_assert emit on_session with_lock ignore
    assign_state advance_inactive unregister inactive_enter_state dying_enter_state
    waiting_enter_state waiting_close active_close state_close create_sync_session
    bind_or_refresh register_pending waiting_refresh_access_token state_refresh_access_token
    state_access_token_expired state_log_out state_revive_if_needed state_handle_reconnect
    state_nonsync_transact_notify state_handle_error state_wait_for_completion
    state_override_server update_error_and_mark_file_for_deletion cancel_pending_waits
    set_state set_lock set_connection set_death_count set_packages set_override set_session
    set_deferred_commit set_deferred_close set_server_url set_external set_trace
    m_stop_policy m_has_error_handler m_has_user m_state m_lock m_connection_state m_death_count
    m_completion_wait_packages m_server_override m_session m_session_has_been_bound
    m_deferred_commit_notification m_deferred_close m_server_url m_external_reference m_trace
    negb andb orb Nat.ltb Nat.leb].

(** ** Equations for the parts that loop *)
Lemma emit_all_eq es s : emit_all es s = Some (tt, set_trace (m_trace s ++ es) s).
Proof.
  revert s. induction es as [|e es IH]; intros s; simpl.
  - rewrite app_nil_r. by destruct s.
  - change (emit_all es (set_trace (m_trace s ++ [e]) s) = Some (tt, set_trace (m_trace s ++ e :: es) s)).
    rewrite IH. simpl. by rewrite <- app_assoc.
Qed.

(** The session after entering [inactive]. *)
Definition deactivation s : list event :=
  ev_unregister_session ::
  (if bool_decide (m_connection_state s <> disconnected)
   then [ev_connection_change (m_connection_state s) disconnected] else []) ++
  ((fun p => ev_aborted p.2) <$> m_completion_wait_packages s).

Definition deactivated s : SyncSession :=
  set_trace (m_trace s ++ deactivation s) (set_connection disconnected (set_lock false
    (set_session false (m_session_has_been_bound s) (set_packages [] (set_state inactive s))))).

Lemma advance_inactive_eq s :
  m_lock s = true -> m_state s <> inactive -> advance_state inactive s = Some (tt, deactivated s).
Proof.
  destruct s as [pol eh us st lk conn dc pk ov se bd dcom dcl url ext tr]. simpl. intros -> Hne.
  unfold advance_state, deactivated, deactivation. ev.
  rewrite (bool_decide_eq_true_2 (inactive <> st)) by congruence. ev.
  rewrite (bool_decide_eq_true_2 (inactive = inactive)) by done. ev.
  destruct (bool_decide (conn <> disconnected)); ev; rewrite emit_all_eq; ev; by rewrite <- !app_assoc.
Qed.

(** ** The invariant *)
Record ok s : Prop := {
  ok_unlocked : m_lock s = false;
  ok_connected : m_state s = active \/ m_state s = dying ->
    m_session s = true /\ m_session_has_been_bound s = true /\
    m_completion_wait_packages s = [] /\ m_deferred_commit_notification s = None;
  ok_disconnected : m_state s = inactive -> m_session s = false;
  ok_bound : m_session s = true -> m_session_has_been_bound s = true
}.

(** The state changes the comment on [SyncSession::State] documents, and the
    one of an access token that arrives with a close already pending, which
    passes through [active]. *)
Definition documented (st st' : State) : bool :=
  match st, st' with
  | waiting_for_access_token, (active | inactive) => true
  | active, (waiting_for_access_token | inactive | dying) => true
  | dying, (inactive | active) => true
  | inactive, waiting_for_access_token => true
  | _, _ => false
  end.

Definition allowed (s s' : SyncSession) : Prop :=
  m_state s' = m_state s \/ documented (m_state s) (m_state s') = true \/
  (m_state s = waiting_for_access_token /\ m_state s' = dying /\ m_deferred_close s = true /\
   m_stop_policy s = AfterChangesUploaded).

(** The callbacks that are waiting, and the ones that were handed to the sync
    client or aborted. *)
Definition settled_by (e : event) : list nat :=
  match e with ev_wait _ k => [k] | ev_aborted k => [k] | _ => [] end.
Definition settled (tr : list event) : list nat := mjoin (settled_by <$> tr).
Definition callbacks s : list nat := settled (m_trace s) ++ (snd <$> m_completion_wait_packages s).

Definition registers (c : call) : list nat :=
  match c with
  | call_wait_for_upload_completion k | call_wait_for_download_completion k => [k]
  | _ => []
  end.

(** The death counts whose completion the sync client was asked for. *)
Definition death_waits (tr : list event) : list nat :=
  mjoin ((fun e => match e with ev_wait_for_upload_before_death n => [n] | _ => [] end) <$> tr).

(** What a step from [s] to [s'] by [c] guarantees. *)
Record stepped c s s' : Prop := {
  st_ok : ok s';
  st_allowed : allowed s s';
  st_callbacks : callbacks s' ≡ₚ callbacks s ++ registers c;
  st_deaths : death_waits (m_trace s') =
    death_waits (m_trace s) ++ seq (S (m_death_count s)) (m_death_count s' - m_death_count s);
  st_policy : m_stop_policy s' = m_stop_policy s;
  st_death_count : (m_death_count s <= m_death_count s')%nat
}.

(** The one way to fail: an error that makes the session inactive and marks the
    file for deletion reaches a session that is inactive already. *)
Definition deletes_file (e : SyncError) : bool :=
  match disposition (error_code e) with delete_file _ => true | _ => false end.
Definition error_of (c : call) : option SyncError :=
  match c with
  | call_handle_error e => Some e
  | call_connection_state_changed _ e => e
  | _ => None
  end.
Definition fails c s : Prop :=
  m_state s = inactive /\ exists e, error_of c = Some e /\ deletes_file e = true.

#[local] Arguments settled : simpl never.
#[local] Arguments death_waits : simpl never.

Lemma settled_one e : settled [e] = settled_by e.
Proof. unfold settled. simpl. by rewrite app_nil_r. Qed.
Lemma death_waits_one e :
  death_waits [e] = match e with ev_wait_for_upload_before_death n => [n] | _ => [] end.
Proof. unfold death_waits. simpl. by rewrite app_nil_r. Qed.

Lemma settled_app l k : settled (l ++ k) = settled l ++ settled k.
Proof. unfold settled. by rewrite fmap_app, join_app. Qed.
Lemma death_waits_app l k : death_waits (l ++ k) = death_waits l ++ death_waits k.
Proof. unfold death_waits. by rewrite fmap_app, join_app. Qed.

Lemma settled_aborted (pk : list CompletionWaitPackage) : settled ((fun p => ev_aborted p.2) <$> pk) = snd <$> pk.
Proof. induction pk as [|p pk IH]; [done|]. unfold settled in *. simpl. f_equal. exact IH. Qed.
Lemma settled_waits (pk : list CompletionWaitPackage) : settled ((fun p => ev_wait p.1 p.2) <$> pk) = snd <$> pk.
Proof. induction pk as [|p pk IH]; [done|]. unfold settled in *. simpl. f_equal. exact IH. Qed.
Lemma deaths_aborted (pk : list CompletionWaitPackage) : death_waits ((fun p => ev_aborted p.2) <$> pk) = [].
Proof. induction pk as [|p pk IH]; [done|]. unfold death_waits in *. simpl. exact IH. Qed.
Lemma deaths_waits (pk : list CompletionWaitPackage) : death_waits ((fun p => ev_wait p.1 p.2) <$> pk) = [].
Proof. induction pk as [|p pk IH]; [done|]. unfold death_waits in *. simpl. exact IH. Qed.

Lemma settled_deactivation s : settled (deactivation s) = snd <$> m_completion_wait_packages s.
Proof.
  unfold deactivation. rewrite <- settled_aborted.
  destruct (bool_decide _); done.
Qed.
Lemma deaths_deactivation s : death_waits (deactivation s) = [].
Proof.
  unfold deactivation. rewrite <- (deaths_aborted (m_completion_wait_packages s)).
  destruct (bool_decide _); done.
Qed.

(** ** Every step keeps the invariant
    The trace and the callbacks are computed symbolically; [close_step] ends a
    branch whose final session is explicit. *)
Ltac close_step :=
  split; cbn;
  [ split; cbn; try done; try (intros [?|?]; done); by intros
  | unfold allowed; cbn; auto; tauto
  | unfold callbacks; cbn;
    rewrite ?settled_app, ?settled_aborted, ?settled_waits, ?settled_one, ?fmap_app; cbn;
    rewrite ?app_nil_r, <- ?app_assoc; cbn; rewrite ?app_nil_r; (reflexivity || solve_Permutation)
  | rewrite ?death_waits_app, ?deaths_aborted, ?deaths_waits, ?death_waits_one; cbn;
    first [ rewrite Nat.sub_diag | rewrite (Nat.sub_succ_l _ _ (Nat.le_refl _)), Nat.sub_diag ];
    cbn; rewrite ?app_nil_r; reflexivity
  | reflexivity
  | cbn; lia ].

(** Splits a session into its fields. *)
Ltac open_session s Hs :=
  destruct s as [pol eh us st lk conn dc pk ov se bd dcom dcl url ext tr];
  destruct Hs as [Hlk Hcon Hdis Hbd]; cbn in Hlk, Hcon, Hdis, Hbd; subst lk.

Section steps.
Implicit Types (s : SyncSession).

(** Entering [inactive] under the lock and leaving. *)
Lemma deactivated_step c s s0 :
  m_stop_policy s = m_stop_policy s0 -> m_death_count s = m_death_count s0 ->
  m_state s0 <> inactive -> registers c = [] ->
  death_waits (m_trace s) = death_waits (m_trace s0) -> callbacks s ≡ₚ callbacks s0 ->
  stepped c s0 (deactivated s).
Proof.
  intros Hp Hd Hst Hr Ht Hpk. split.
  - split; cbn; try done. by intros [|].
  - right. left. cbn. by destruct (m_state s0).
  - unfold callbacks at 1. change (m_trace (deactivated s)) with (m_trace s ++ deactivation s).
    change (m_completion_wait_packages (deactivated s)) with (@nil CompletionWaitPackage).
    rewrite Hr, settled_app, settled_deactivation. simpl. rewrite !app_nil_r. exact Hpk.
  - change (m_trace (deactivated s)) with (m_trace s ++ deactivation s).
    change (m_death_count (deactivated s)) with (m_death_count s).
    rewrite death_waits_app, deaths_deactivation, Ht, Hd, Nat.sub_diag. cbn. by rewrite app_nil_r.
  - done.
  - cbn. lia.
Qed.

Lemma advance_active_eq s :
  m_lock s = true -> m_state s <> active -> advance_state active s = Some (tt, set_state active s).
Proof.
  destruct s. simpl. intros -> Hne. unfold advance_state. ev. by rewrite bool_decide_eq_true_2 by congruence.
Qed.

(** The assertion of [advance_state]. *)
Lemma advance_inactive_fails s : m_state s = inactive -> advance_state inactive s = None.
Proof.
  destruct s as [pol eh us st lk conn dc pk ov se bd dcom dcl url ext tr]. simpl. intros ->.
  unfold advance_state. ev. by destruct lk.
Qed.

Lemma advance_waiting_eq s :
  m_lock s = true -> m_state s <> waiting_for_access_token ->
  advance_state waiting_for_access_token s =
    Some (tt, set_deferred_close false (set_state waiting_for_access_token s)).
Proof.
  destruct s. simpl. intros -> Hne. unfold advance_state. ev. by rewrite bool_decide_eq_true_2 by congruence.
Qed.

Lemma advance_dying_eq s :
  m_lock s = true -> m_state s <> dying -> m_session s = true ->
  advance_state dying s = Some (tt,
    set_trace (m_trace s ++ [ev_wait_for_upload_before_death (S (m_death_count s))])
      (set_death_count (S (m_death_count s)) (set_state dying s))).
Proof.
  destruct s. simpl. intros -> Hne ->. unfold advance_state. ev. rewrite bool_decide_eq_true_2 by congruence. done.
Qed.
End steps.

#[local] Opaque advance_state emit_all deactivated.

(** Runs a call on an explicit session, using the equations for the state changes. *)
Ltac drive :=
  repeat (ev;
    first [ rewrite advance_inactive_eq by done
          | rewrite advance_active_eq by done
          | rewrite advance_waiting_eq by done
          | rewrite advance_dying_eq by done
          | rewrite emit_all_eq ]); ev.

Ltac finish_deactivated :=
  match goal with
  | |- stepped ?c ?s0 ?s' =>
    match s' with context [deactivated ?x] =>
      refine (deactivated_step c x s0 _ _ _ _ _ _); [done|done|done|done| |];
      [ cbn; rewrite ?death_waits_app, ?deaths_waits, ?death_waits_one; cbn; by rewrite ?app_nil_r
      | unfold callbacks; cbn; rewrite ?settled_app, ?settled_waits, ?settled_one; cbn;
        by rewrite ?app_nil_r ]
    end
  end.

(** The outcome of a call from an [ok] session. *)
Definition outcome c s : Prop :=
  match perform c s with
  | Some (_, s') => ~ fails c s /\ stepped c s s'
  | None => fails c s
  end.

Lemma no_error_cannot_fail c s : error_of c = None -> ~ fails c s.
Proof. intros E (_ & e & E' & _). congruence. Qed.

Section calls.
Implicit Types (s : SyncSession).

Lemma log_out_outcome s : ok s -> outcome call_log_out s.
Proof.
  intros Hs. unfold outcome. cbn [perform]. unfold log_out. open_session s Hs.
  destruct st; drive; (split; [by apply no_error_cannot_fail|]);
    first [finish_deactivated | close_step].
Qed.

Ltac easy_call := drive; (split; [by apply no_error_cannot_fail|]);
  first [finish_deactivated | close_step].

Lemma close_outcome s : ok s -> outcome call_close s.
Proof.
  intros Hs. unfold outcome. cbn [perform]. unfold close. open_session s Hs.
  destruct st, pol; try (destruct (Hcon (or_introl eq_refl)) as (-> & -> & -> & ->)); easy_call.
Qed.

Lemma nonsync_outcome v s : ok s -> outcome (call_nonsync_transact_notify v) s.
Proof.
  intros Hs. unfold outcome. cbn [perform]. unfold nonsync_transact_notify. open_session s Hs.
  destruct st; try (destruct (Hcon (or_introl eq_refl)) as (-> & -> & -> & ->)); easy_call.
Qed.

Lemma revive_outcome s : ok s -> outcome call_revive_if_needed s.
Proof.
  intros Hs. unfold outcome. cbn [perform]. unfold revive_if_needed. open_session s Hs.
  destruct st; try (destruct (Hcon (or_intror eq_refl)) as (-> & -> & -> & ->)); easy_call.
Qed.

Lemma reconnect_outcome s : ok s -> outcome call_handle_reconnect s.
Proof.
  intros Hs. unfold outcome. cbn [perform]. unfold handle_reconnect. open_session s Hs.
  destruct st; try (destruct (Hcon (or_introl eq_refl)) as (-> & -> & -> & ->)); easy_call.
Qed.

Lemma wait_upload_outcome k s : ok s -> outcome (call_wait_for_upload_completion k) s.
Proof.
  intros Hs. unfold outcome. cbn [perform]. unfold wait_for_upload_completion. open_session s Hs.
  destruct st; try (destruct (Hcon (or_introl eq_refl)) as (-> & -> & -> & ->));
    try (destruct (Hcon (or_intror eq_refl)) as (-> & -> & -> & ->)); easy_call.
Qed.

Lemma wait_download_outcome k s : ok s -> outcome (call_wait_for_download_completion k) s.
Proof.
  intros Hs. unfold outcome. cbn [perform]. unfold wait_for_download_completion. open_session s Hs.
  destruct st; try (destruct (Hcon (or_introl eq_refl)) as (-> & -> & -> & ->));
    try (destruct (Hcon (or_intror eq_refl)) as (-> & -> & -> & ->)); easy_call.
Qed.

Lemma override_outcome a p s : ok s -> outcome (call_override_server a p) s.
Proof.
  intros Hs. unfold outcome. cbn [perform]. unfold override_server. open_session s Hs.
  destruct st; try (destruct (Hcon (or_introl eq_refl)) as (-> & -> & -> & ->));
    try (destruct (Hcon (or_intror eq_refl)) as (-> & -> & -> & ->)); easy_call.
Qed.

Lemma upload_completed_outcome n s : ok s -> outcome (call_upload_completed n) s.
Proof.
  intros Hs. unfold outcome. cbn [perform]. unfold upload_completed. open_session s Hs.
  ev. destruct (bool_decide (st = dying)) eqn:Est, (dc =? n)%nat; cbn [andb];
    try apply bool_decide_eq_true_1 in Est as ->; easy_call.
Qed.

Lemma refresh_outcome token u s : ok s -> outcome (call_refresh_access_token token u) s.
Proof.
  intros Hs. unfold outcome. cbn [perform]. unfold refresh_access_token. open_session s Hs.
  destruct url as [url|], u as [u|]; [| | |by easy_call];
    (destruct st; [|destruct (Hcon (or_introl eq_refl)) as (-> & -> & -> & ->)
      |destruct (Hcon (or_intror eq_refl)) as (-> & -> & -> & ->)|]; try by easy_call);
    (destruct se; [rewrite (Hbd eq_refl) in *|]); destruct ov as [[a p]|], dcom as [v|], dcl, pol; try by easy_call.
Qed.

Lemma external_outcome s c :
  ok s -> c = call_external_reference \/ c = call_existing_external_reference \/
    c = call_drop_external_reference -> outcome c s.
Proof.
  intros Hs Hc. unfold outcome. open_session s Hs.
  destruct Hc as [->|[->| ->]]; cbn [perform];
    unfold external_reference, existing_external_reference, drop_external_reference;
    [|destruct ext|]; easy_call.
Qed.

Lemma did_drop_outcome s : ok s -> outcome call_did_drop_external_reference s.
Proof.
  intros Hs. unfold outcome. cbn [perform]. unfold did_drop_external_reference. open_session s Hs.
  destruct ext; [|by easy_call].
  destruct st, pol; try (destruct (Hcon (or_introl eq_refl)) as (-> & -> & -> & ->)); easy_call.
Qed.
End calls.

Section errors.
Implicit Types (s : SyncSession).

Lemma emit_step c s0 s e :
  stepped c s0 s -> settled_by e = [] -> death_waits [e] = [] ->
  stepped c s0 (set_trace (m_trace s ++ [e]) s).
Proof.
  intros [Hok Hal Hcb Hd Hp Hdc] He Hde. split; try done.
  - destruct Hok. by split.
  - unfold callbacks at 1. cbn. rewrite settled_app, settled_one, He, app_nil_r. exact Hcb.
  - cbn. rewrite death_waits_app, Hde, app_nil_r. exact Hd.
Qed.

(** Connection changes are reported before the error is handled. *)
Lemma connection_step c st s s' :
  let s1 := set_trace (m_trace s ++ [ev_connection_change (m_connection_state s) st]) (set_connection st s) in
  stepped c s1 s' -> stepped c s s'.
Proof.
  intros s1 [Hok Hal Hcb Hd Hp Hdc]. split; try done.
  - rewrite Hcb. unfold callbacks, s1. cbn. rewrite settled_app, settled_one. cbn. by rewrite app_nil_r.
  - rewrite Hd. unfold s1. cbn. rewrite death_waits_app, death_waits_one. by rewrite app_nil_r.
Qed.

Definition error_outcome e s (r : option (unit * SyncSession)) : Prop :=
  match r with
  | Some (_, s') => ~ (m_state s = inactive /\ deletes_file e = true) /\
      forall c, registers c = [] -> stepped c s s'
  | None => m_state s = inactive /\ deletes_file e = true
  end.

Lemma stepped_refl c s : ok s -> registers c = [] -> stepped c s s.
Proof.
  intros Hs Hc. split; [done|by left| | |done|done].
  - by rewrite Hc, app_nil_r.
  - rewrite Nat.sub_diag. cbn. by rewrite app_nil_r.
Qed.

(** Only [dying] takes responsibility for an error. *)
Lemma state_handle_error_eq e s :
  ok s -> m_state s <> dying -> with_lock (state_handle_error e) s = Some (false, s).
Proof. intros Hs Hne. open_session s Hs. cbn in Hne. destruct st; ev; done. Qed.

Lemma state_handle_error_dying e s c :
  ok s -> m_state s = dying -> registers c = [] ->
  exists s', with_lock (state_handle_error e) s = Some (true, s') /\ stepped c s s'.
Proof.
  intros Hs Hst Hc. pose proof (stepped_refl c s Hs Hc) as Hrefl. open_session s Hs. cbn in Hst. subst st.
  destruct e as [code fatal]. destruct fatal; drive.
  - eexists. split; [done|]. finish_deactivated.
  - eexists. by split.
Qed.

(** Calling the error handler, if there is one. *)
Definition call_error_handler (e : SyncError) : M unit :=
  s ← get; if m_has_error_handler s then emit (ev_error_handler e) else mret tt.

Lemma error_handler_step c s0 s e :
  stepped c s0 s -> exists s', call_error_handler e s = Some (tt, s') /\ stepped c s0 s'.
Proof.
  intros Hs. unfold call_error_handler, mbind, M_bind, get.
  destruct (m_has_error_handler s); [|by exists s]. eexists. split; [done|]. by apply (emit_step c s0 s (ev_error_handler e)).
Qed.

Lemma cancel_step c s :
  ok s -> registers c = [] ->
  exists s', with_lock cancel_pending_waits s = Some (tt, s') /\ stepped c s s' /\
    m_has_user s' = m_has_user s.
Proof.
  intros Hs Hc. open_session s Hs. drive. eexists. split; [done|]. split; [|done].
  split; cbn; [split; cbn; try done|by left| | |done|done].
  - intros Hst. by destruct (Hcon Hst) as (? & ? & _ & ?).
  - unfold callbacks. cbn. rewrite Hc, settled_app, settled_aborted. cbn. by rewrite !app_nil_r.
  - rewrite death_waits_app, deaths_aborted, Nat.sub_diag. done.
Qed.

Lemma trans_same c s s1 s2 :
  stepped c s s1 -> m_state s1 = m_state s -> m_deferred_close s1 = m_deferred_close s ->
  m_death_count s1 = m_death_count s -> death_waits (m_trace s1) = death_waits (m_trace s) ->
  registers c = [] -> stepped c s1 s2 -> stepped c s s2.
Proof.
  intros [Hok1 Hal1 Hcb1 Hd1 Hp1 Hdc1] Est Edcl Edc Etr Hc [Hok2 Hal2 Hcb2 Hd2 Hp2 Hdc2].
  split; try done; rewrite ?Hc, ?app_nil_r in *.
  - unfold allowed in *. by rewrite Est, Edcl, Hp1 in Hal2.
  - by rewrite Hcb2.
  - by rewrite Hd2, Edc, Etr.
  - congruence.
  - lia.
Qed.

Lemma delete_file_step c s bk :
  ok s -> m_state s <> inactive -> registers c = [] ->
  exists s', (_ ← update_error_and_mark_file_for_deletion bk; with_lock (advance_state inactive)) s = Some (tt, s') /\
    stepped c s s'.
Proof.
  intros Hs Hst Hc. open_session s Hs. cbn in Hst. drive. eexists. split; [done|]. finish_deactivated.
Qed.

Lemma delete_file_fails s bk :
  ok s -> m_state s = inactive ->
  (_ ← update_error_and_mark_file_for_deletion bk; with_lock (advance_state inactive)) s = None.
Proof. intros Hs Hst. open_session s Hs. cbn in Hst. subst st. ev.
  by rewrite advance_inactive_fails. Qed.

(** Sequencing a step that succeeds. *)
Lemma bind_some {A B} (m : M A) (f : A -> M B) s a s' : m s = Some (a, s') -> (m ≫= f) s = f a s'.
Proof. intros E. unfold mbind, M_bind. by rewrite E. Qed.

Lemma invalidate_step c s e :
  ok s -> registers c = [] ->
  exists s', (_ ← with_lock cancel_pending_waits;
     s ← get;
     _ ← (if m_has_user s then emit ev_invalidate_user else mret tt);
     finish_error next_none e) s = Some (tt, s') /\ stepped c s s'.
Proof.
  intros Hs Hc. destruct (cancel_step c s Hs Hc) as (s1 & E1 & Hs1 & Eu).
  rewrite (bind_some _ _ _ _ _ E1). unfold mbind at 1, M_bind at 1, get. rewrite Eu.
  assert (exists s2, (if m_has_user s then emit ev_invalidate_user else mret tt) s1 = Some (tt, s2) /\ stepped c s s2)
    as (s2 & E2 & Hs2).
  { destruct (m_has_user s); [|by exists s1]. eexists. split; [done|]. by apply (emit_step c s s1 ev_invalidate_user). }
  rewrite (bind_some _ _ _ _ _ E2). unfold finish_error. apply (error_handler_step c s s2 e Hs2).
Qed.

Lemma report_step c s next_state e :
  ok s -> registers c = [] -> next_state <> next_inactive ->
  exists s', finish_error next_state e s = Some (tt, s') /\ stepped c s s'.
Proof.
  intros Hs Hc Hn. unfold finish_error. destruct next_state; [| done |].
  - apply (error_handler_step c s s e). by apply stepped_refl.
  - destruct (cancel_step c s Hs Hc) as (s1 & E1 & Hs1 & _). rewrite (bind_some _ _ _ _ _ E1).
    by apply (error_handler_step c s s1 e).
Qed.

Lemma delete_step c s bk e :
  ok s -> m_state s <> inactive -> registers c = [] ->
  exists s', (_ ← update_error_and_mark_file_for_deletion bk; finish_error next_inactive e) s = Some (tt, s') /\
    stepped c s s'.
Proof.
  intros Hs Hst Hc. destruct (delete_file_step c s bk Hs Hst Hc) as (s1 & E1 & Hs1).
  destruct (error_handler_step c s s1 e Hs1) as (s2 & E2 & Hs2). exists s2. split; [|done].
  rewrite <- E2. unfold finish_error.
  unfold mbind, M_bind in E1 |- *. cbv beta in E1 |- *.
  destruct (update_error_and_mark_file_for_deletion bk s) as [[[] s0]|]; [|done]. by rewrite E1.
Qed.

Lemma handle_error_outcome e s : ok s -> error_outcome e s (handle_error e s).
Proof.
  intros Hs. unfold handle_error. destruct (decide (m_state s = dying)) as [Hd|Hd].
  { destruct (state_handle_error_dying e s call_log_out Hs Hd eq_refl) as (s1 & E1 & _).
    rewrite (bind_some _ _ _ _ _ E1). unfold error_outcome. cbn. split; [rewrite Hd; by intros [? _]|].
    intros c Hc. destruct (state_handle_error_dying e s c Hs Hd Hc) as (s2 & E2 & Hs2).
    rewrite E1 in E2. by injection E2 as <-. }
  rewrite (bind_some _ _ _ _ _ (state_handle_error_eq e s Hs Hd)). cbv beta iota.
  assert (Hgood : forall m : M unit, deletes_file e = false \/ m_state s <> inactive ->
    (forall c, registers c = [] -> exists s', m s = Some (tt, s') /\ stepped c s s') -> error_outcome e s (m s)).
  { intros m Hn Hm. unfold error_outcome. destruct (Hm call_log_out eq_refl) as (s1 & E1 & _). rewrite E1.
    split; [intros [? ?]; destruct Hn; congruence|]. intros c Hc.
    destruct (Hm c Hc) as (s2 & E2 & Hs2). rewrite E1 in E2. by injection E2 as <-. }
  unfold deletes_file in *. destruct (disposition (error_code e)) as [| | |bk|] eqn:Edis.
  - apply Hgood; [by left|]. intros c Hc. exists s. split; [done|by apply stepped_refl].
  - apply Hgood; [by left|]. intros c Hc. pose proof (stepped_refl c s Hs Hc) as Hrefl.
    clear Hgood. open_session s Hs. cbn in Hd.
    destruct st; drive; (eexists; split; [done|]); try exact Hrefl.
    destruct (Hcon (or_introl eq_refl)) as (-> & -> & -> & ->).
    split; cbn; [split; cbn; done || (by intros [?|?])|right; by left| | |done|done].
    + unfold callbacks. cbn. rewrite Hc, settled_app, settled_one. cbn. by rewrite !app_nil_r.
    + rewrite death_waits_app, death_waits_one, Nat.sub_diag. cbn. by rewrite app_nil_r.
  - apply Hgood; [by left|]. intros c Hc. by apply invalidate_step.
  - destruct (decide (m_state s = inactive)) as [Hi|Hi].
    + pose proof (delete_file_fails s bk Hs Hi) as E. unfold finish_error, error_outcome.
      unfold mbind, M_bind in E |- *. cbv beta in E |- *.
      destruct (update_error_and_mark_file_for_deletion bk s) as [[[] s0]|]; [rewrite E|];
        (split; [done|]); unfold deletes_file; by rewrite Edis.
    + apply Hgood; [by right|]. intros c Hc. by apply delete_step.
  - apply Hgood; [by left|]. intros c Hc. apply report_step; [done|done|]. by destruct (is_fatal e).
Qed.

Lemma call_error_outcome e s : ok s -> outcome (call_handle_error e) s.
Proof.
  intros Hs. pose proof (handle_error_outcome e s Hs) as H. unfold outcome, error_outcome in *. cbn [perform].
  destruct (handle_error e s) as [[[] s']|].
  - destruct H as [Hn Hst]. split; [|by apply Hst].
    intros (Hi & e' & [= <-] & Hd). by apply Hn.
  - destruct H as [Hi Hd]. split; [done|]. by exists e.
Qed.

Lemma connection_outcome st e s : ok s -> outcome (call_connection_state_changed st e) s.
Proof.
  intros Hs. unfold outcome. cbn [perform]. unfold connection_state_changed.
  set (s1 := set_trace (m_trace s ++ [ev_connection_change (m_connection_state s) st]) (set_connection st s)).
  assert (Hs1 : ok s1) by (destruct Hs; by split).
  destruct e as [e|].
  - change ((s ← get; _ ← put (set_connection st); _ ← emit (ev_connection_change (m_connection_state s) st);
      handle_error e) s) with (handle_error e s1).
    pose proof (handle_error_outcome e s1 Hs1) as H. unfold error_outcome in H.
    destruct (handle_error e s1) as [[[] s']|].
    + destruct H as [Hn Hst]. split; [|eapply connection_step; by apply Hst].
      intros (Hi & e' & [= <-] & Hd). by apply Hn.
    + destruct H as [Hi Hd]. split; [done|]. by exists e.
  - change ((s ← get; _ ← put (set_connection st); _ ← emit (ev_connection_change (m_connection_state s) st);
      mret tt) s) with (Some (tt, s1)).
    split; [by apply no_error_cannot_fail|]. eapply connection_step. fold s1.
    by apply stepped_refl.
Qed.

(** Every call from an [ok] session. *)
Lemma perform_outcome c s : ok s -> outcome c s.
Proof.
  intros Hs. destruct c.
  - by apply refresh_outcome.
  - by apply nonsync_outcome.
  - by apply revive_outcome.
  - by apply reconnect_outcome.
  - by apply log_out_outcome.
  - by apply close_outcome.
  - by apply wait_upload_outcome.
  - by apply wait_download_outcome.
  - by apply override_outcome.
  - by apply connection_outcome.
  - by apply call_error_outcome.
  - by apply upload_completed_outcome.
  - apply external_outcome; auto.
  - apply external_outcome; auto.
  - apply external_outcome; auto.
  - by apply did_drop_outcome.
Qed.
End errors.

(** ** Whole runs *)
Section runs.
Implicit Types (s : SyncSession).

Lemma create_ok pol eh us : ok (create pol eh us).
Proof. split; cbn; try done. by intros [|]. Qed.

Record run_facts (cs : list call) s s' : Prop := {
  rf_ok : ok s';
  rf_callbacks : callbacks s' ≡ₚ callbacks s ++ (cs ≫= registers);
  rf_deaths : death_waits (m_trace s') =
    death_waits (m_trace s) ++ seq (S (m_death_count s)) (m_death_count s' - m_death_count s);
  rf_policy : m_stop_policy s' = m_stop_policy s;
  rf_death_count : (m_death_count s <= m_death_count s')%nat
}.

Lemma run_spec cs s s' : ok s -> run cs s = Some s' -> run_facts cs s s'.
Proof.
  revert s. induction cs as [|c cs IH]; intros s Hs; simpl.
  - intros [= <-]. split; [done|by rewrite app_nil_r| |done|done].
    rewrite Nat.sub_diag. cbn. by rewrite app_nil_r.
  - pose proof (perform_outcome c s Hs) as H. unfold outcome in H.
    destruct (perform c s) as [[[] s1]|]; [|done]. destruct H as [_ [Hs1 _ Hcb Hd Hp Hdc]].
    intros Hr. destruct (IH s1 Hs1 Hr) as [Hs' Hcb' Hd' Hp' Hdc'].
    split; [done| | |congruence|lia].
    + rewrite Hcb', Hcb, <- app_assoc. done.
    + rewrite Hd', Hd, <- app_assoc. f_equal.
      replace (m_death_count s' - m_death_count s)%nat with
        ((m_death_count s1 - m_death_count s) + (m_death_count s' - m_death_count s1))%nat by lia.
      rewrite seq_app. do 2 f_equal. lia.
Qed.
End runs.
