(* ===== verification/SyncNotifiers.v ===== *)
(** * The notifiers of a sync session

    [SyncProgressNotifier] decides when a progress callback is called and when
    it expires; [SyncSession::ConnectionChangeNotifier] calls callbacks that
    may register and unregister callbacks while they run. *)
From stdpp Require Import gmap.
From S2P Require Import Prelude.
From S2P Require Import CallbackLoop.

(** ** [SyncProgressNotifier] *)
Record Progress := mkProgress {
  uploadable : Z; downloadable : Z; uploaded : Z; downloaded : Z; snapshot_version : Z
}.

(** [NotifierPackage]; the callback is named by the token of its package. *)
Record NotifierPackage := mkPackage {
  captured_transferrable : option Z;
  package_version : Z;
  is_streaming : bool;
  is_download : bool
}.

Record SyncProgressNotifier := mkProgressNotifier {
  m_progress_notifier_token : Z;
  m_local_transaction_version : Z;
  m_current_progress : option Progress;
  m_packages : gmap Z NotifierPackage
}.

(** A call [notifier(transferred, transferrable)]. *)
Definition invocation : Type := option (Z * Z).

Module ProgressNotifier.

Definition empty_notifier : SyncProgressNotifier := mkProgressNotifier 1 0 None ∅.

Definition set_captured (t : Z) (p : NotifierPackage) : NotifierPackage :=
  mkPackage (Some t) (package_version p) (is_streaming p) (is_download p).

(** [create_invocation]: the package after it, the call to make, and whether it
    is expired. *)
Definition transferred_of (p : NotifierPackage) (c : Progress) : Z :=
  if is_download p then downloaded c else uploaded c.
Definition transferrable_of (p : NotifierPackage) (c : Progress) : Z :=
  if is_download p then downloadable c else uploadable c.

Definition create_invocation (p : NotifierPackage) (c : Progress) : NotifierPackage * invocation * bool :=
  let call p t := (p, Some (transferred_of p c, t), negb (is_streaming p) && (t <=? transferred_of p c)) in
  if is_streaming p then call p (transferrable_of p c)
  else
    match captured_transferrable p with
    | Some t => call p t
    | None =>
      if is_download p then call (set_captured (downloadable c) p) (downloadable c)
      else if snapshot_version c <? package_version p then (p, None, false)
      else call (set_captured (uploadable c) p) (uploadable c)
    end.

(** [register_callback]: the token (zero when nothing stays registered) and
    the call that is made at once *)
Definition register_callback (n : SyncProgressNotifier) (download streaming : bool)
    : SyncProgressNotifier * Z * invocation :=
  let token := m_progress_notifier_token n in
  let package := mkPackage None (m_local_transaction_version n) streaming download in
  let next packages := mkProgressNotifier (token + 1) (m_local_transaction_version n) (m_current_progress n) packages in
  match m_current_progress n with
  | None => (next (<[token := package]> (m_packages n)), token, None)
  | Some c =>
    let '(package, call, skip_registration) := create_invocation package c in
    if skip_registration then (next (m_packages n), 0, call)
    else (next (<[token := package]> (m_packages n)), token, call)
  end.

(** [unregister_callback] *)
Definition unregister_callback (n : SyncProgressNotifier) (token : Z) : SyncProgressNotifier :=
  mkProgressNotifier (m_progress_notifier_token n) (m_local_transaction_version n) (m_current_progress n)
    (delete token (m_packages n)).

(** [update]; the calls come in the order of the hash map *)
Definition update_packages (packages : list (Z * NotifierPackage)) (c : Progress)
    : list (Z * NotifierPackage) * list (Z * invocation) :=
  foldr (fun kp acc =>
    let '(p, call, should_delete) := create_invocation kp.2 c in
    (if should_delete then acc.1 else (kp.1, p) :: acc.1, (kp.1, call) :: acc.2)) ([], []) packages.

Definition update (n : SyncProgressNotifier) (downloaded downloadable uploaded uploadable
    download_version snapshot_version : Z) : SyncProgressNotifier * list (Z * invocation) :=
  if download_version =? 0 then (n, [])
  else
    let c := mkProgress uploadable downloadable uploaded downloaded snapshot_version in
    let '(packages, calls) := update_packages (map_to_list (m_packages n)) c in
    (mkProgressNotifier (m_progress_notifier_token n) (m_local_transaction_version n) (Some c)
       (list_to_map packages), calls).

(** [set_local_version] *)
Definition set_local_version (n : SyncProgressNotifier) (version : Z) : SyncProgressNotifier :=
  mkProgressNotifier (m_progress_notifier_token n) version (m_current_progress n) (m_packages n).
End ProgressNotifier.

(** ** [SyncSession::ConnectionChangeNotifier] *)
Record ConnectionChangeNotifier := mkChangeNotifier {
  m_callbacks : list Z;
  m_callback_index : Z;
  m_callback_count : Z;
  m_next_token : Z
}.

(** What a callback does to the notifier while it runs. *)
Inductive action := act_add | act_remove (token : Z).

Module ChangeNotifier.

Definition empty_notifier : ConnectionChangeNotifier := mkChangeNotifier [] size_max size_max 0.

(** [add_callback] *)
Definition add_callback (n : ConnectionChangeNotifier) : ConnectionChangeNotifier * Z :=
  let token := m_next_token n in
  (mkChangeNotifier (m_callbacks n ++ [token]) (m_callback_index n) (m_callback_count n) (token + 1), token).

(** [remove_callback] *)
Definition remove_callback (n : ConnectionChangeNotifier) (token : Z) : ConnectionChangeNotifier :=
  let idx := find_if (fun t => t =? token) (m_callbacks n) in
  if (idx =? length (m_callbacks n))%nat then n
  else
    mkChangeNotifier (delete idx (m_callbacks n))
      (if negb (m_callback_index n =? size_max) && (Z.of_nat idx <=? m_callback_index n)
       then wrap (m_callback_index n - 1) else m_callback_index n)
      (wrap (m_callback_count n - 1)) (m_next_token n).

Fixpoint run_actions (l : list action) (n : ConnectionChangeNotifier) : ConnectionChangeNotifier :=
  match l with
  | [] => n
  | act_add :: l => run_actions l (add_callback n).1
  | act_remove t :: l => run_actions l (remove_callback n t)
  end.

(** [invoke_callbacks]; [act] is what each callback does, and the result lists
    the callbacks that were called.  [None] is an index out of range. *)
Definition invoke_step (act : Z -> list action) (s : ConnectionChangeNotifier * list Z)
    : option (ConnectionChangeNotifier * list Z + ConnectionChangeNotifier * list Z) :=
  let '(n, called) := s in
  if m_callback_index n <? m_callback_count n then
    t ← m_callbacks n !! Z.to_nat (m_callback_index n);
    let n := run_actions (act t) n in
    Some (inl (mkChangeNotifier (m_callbacks n) (wrap (m_callback_index n + 1)) (m_callback_count n) (m_next_token n),
               called ++ [t]))
  else Some (inr (mkChangeNotifier (m_callbacks n) size_max (m_callback_count n) (m_next_token n), called)).

Definition invoke_callbacks (act : Z -> list action) (n : ConnectionChangeNotifier) (fuel : nat)
    : option (ConnectionChangeNotifier * list Z) :=
  loop (invoke_step act) fuel
    (mkChangeNotifier (m_callbacks n) (wrap (m_callback_index n + 1)) (Z.of_nat (length (m_callbacks n)))
       (m_next_token n), []).
End ChangeNotifier.

(** ** Facts *)
Section progress_facts.
Import ProgressNotifier.

Lemma update_packages_calls l c :
  (update_packages l c).2 = (fun kp => (kp.1, (create_invocation kp.2 c).1.2)) <$> l.
Proof.
  induction l as [|[k p] l IH]; [done|]. rewrite fmap_cons, <- IH. unfold update_packages. simpl.
  by destruct (create_invocation p c) as [[p' call] del].
Qed.

Lemma update_packages_kept l c :
  (update_packages l c).1 =
    omap (fun kp => if (create_invocation kp.2 c).2 then None else Some (kp.1, (create_invocation kp.2 c).1.1)) l.
Proof.
  induction l as [|[k p] l IH]; [done|].
  transitivity (if (create_invocation p c).2 then (update_packages l c).1
    else (k, (create_invocation p c).1.1) :: (update_packages l c).1).
  { unfold update_packages. simpl. by destruct (create_invocation p c) as [[p' call] []]. }
  rewrite IH. simpl. by destruct (create_invocation p c).2.
Qed.

Lemma update_packages_keys l c :
  NoDup (l.*1) -> NoDup ((update_packages l c).1.*1) /\
  forall k, k ∈ (update_packages l c).1.*1 -> k ∈ l.*1.
Proof.
  rewrite update_packages_kept. induction l as [|[k p] l IH]; [intros _; split; [constructor|done]|].
  rewrite fmap_cons. intros [Hk Hnd]%NoDup_cons. destruct (IH Hnd) as [Hnd' Hsub]. simpl.
  destruct (create_invocation p c).2; simpl.
  - split; [done|]. intros k' Hk'. right. by apply Hsub.
  - split; [apply NoDup_cons; split; [|done]; intros Hin; by apply Hk, Hsub|].
    intros k' [->|Hk']%elem_of_cons; [left|right; by apply Hsub].
Qed.

(** A package stays registered after an update unless it expires. *)
Lemma update_lookup n d1 d2 u1 u2 v s k :
  v <> 0 ->
  let c := mkProgress u2 d2 u1 d1 s in
  m_packages (update n d1 d2 u1 u2 v s).1 !! k =
    match m_packages n !! k with
    | Some p => if (create_invocation p c).2 then None else Some (create_invocation p c).1.1
    | None => None
    end.
Proof.
  intros Hv c. unfold update. rewrite (proj2 (Z.eqb_neq _ _) Hv). fold c.
  destruct (update_packages (map_to_list (m_packages n)) c) as [ps calls] eqn:E. simpl.
  assert (Eps : ps = (update_packages (map_to_list (m_packages n)) c).1) by (by rewrite E).
  pose proof (NoDup_fst_map_to_list (m_packages n)) as Hnd.
  destruct (update_packages_keys _ c Hnd) as [Hnd' _]. rewrite <- Eps in Hnd'.
  apply option_eq. intros p'. rewrite <- elem_of_list_to_map by done.
  rewrite Eps, update_packages_kept, list_elem_of_omap. split.
  - intros ([k' p] & Hin & Hp). apply elem_of_map_to_list in Hin. simpl in Hp.
    destruct (create_invocation p c).2 eqn:Ed; [done|]. injection Hp as -> <-. by rewrite Hin, Ed.
  - destruct (m_packages n !! k) as [p|] eqn:Ek; [|done].
    destruct (create_invocation p c).2 eqn:Ed; [done|]. intros [= <-].
    exists (k, p). split; [by apply elem_of_map_to_list|]. simpl. by rewrite Ed.
Qed.
End progress_facts.

Section change_facts.
Import ChangeNotifier.

Definition view (n : ConnectionChangeNotifier) : Cursor :=
  mkCursor (m_callbacks n) (m_callback_index n) (m_callback_count n).

(** The callbacks a list of actions unregisters. *)
Definition removed (l : list action) : list Z :=
  omap (fun a => match a with act_add => None | act_remove t => Some t end) l.

Lemma view_remove n t : view (remove_callback n t) = remove_token (view n) t.
Proof. unfold remove_callback, remove_token. cbn. by destruct (_ =? _)%nat. Qed.

Lemma remove_next n t : m_next_token (remove_callback n t) = m_next_token n.
Proof. unfold remove_callback. by destruct (_ =? _)%nat. Qed.

Lemma run_actions_acts bound l n :
  bound <= m_next_token n ->
  acts bound (removed l) (view n) (view (run_actions l n)) /\ bound <= m_next_token (run_actions l n).
Proof.
  revert n. induction l as [|[|t] l IH]; intros n Hn; cbn [run_actions removed omap list_omap].
  - split; [constructor|done].
  - destruct (IH (add_callback n).1) as [Ha Hb]; [cbn; lia|]. split; [|done].
    by apply (acts_add _ (m_next_token n)).
  - destruct (IH (remove_callback n t)) as [Ha Hb]; [by rewrite remove_next|]. split; [|done].
    apply acts_remove. by rewrite <- view_remove.
Qed.

(** The loop of [invoke_callbacks] is the common loop. *)
Definition invoke_view (s : ConnectionChangeNotifier * list Z) : Cursor := view s.1.
Definition invoke_index (i : Z) (s : ConnectionChangeNotifier * list Z) : ConnectionChangeNotifier * list Z :=
  (mkChangeNotifier (m_callbacks s.1) i (m_callback_count s.1) (m_next_token s.1), s.2).
Definition invoke_one (act : Z -> list action) (s : ConnectionChangeNotifier * list Z)
    : option (ConnectionChangeNotifier * list Z) :=
  t ← m_callbacks s.1 !! Z.to_nat (m_callback_index s.1); Some (run_actions (act t) s.1, s.2 ++ [t]).

Lemma invoke_step_common act s :
  invoke_step act s = callback_step invoke_view invoke_index (invoke_one act) s.
Proof.
  destruct s as [n called]. unfold invoke_step, callback_step, invoke_one, invoke_view, invoke_index. cbn.
  destruct (_ <? _); [|done]. by destruct (m_callbacks n !! _).
Qed.

Lemma invoke_spec act fuel callbacks index count next :
  NoDup callbacks ->
  (forall t, Forall (fun x => x < next) (removed (act t))) ->
  Z.of_nat (length callbacks) < 2 ^ 64 - 1 -> wrap (index + 1) = 0 -> (length callbacks < fuel)%nat ->
  exists n', invoke_callbacks act (mkChangeNotifier callbacks index count next) fuel =
      Some (n', deliver (removed ∘ act) [] callbacks) /\ m_callback_index n' = size_max.
Proof.
  intros Hnd Hr Hlen Hi Hf. unfold invoke_callbacks. cbn [m_callbacks m_callback_index m_next_token]. rewrite Hi.
  rewrite (loop_ext _ _ (invoke_step_common act)).
  destruct (callback_loop invoke_view invoke_index (invoke_one act) next (removed ∘ act) callbacks
    (fun (called : list Z) (s : ConnectionChangeNotifier * list Z) => s.2 = called /\ next <= m_next_token s.1)) with (fuel := fuel)
    (s := (mkChangeNotifier callbacks 0 (Z.of_nat (length callbacks)) next, @nil Z))
    (extra := @nil Z) as (s' & extra' & E & (Ecalls & _) & Hv & _); try done.
  - intros called [n c] t extra [Ec Hn] _ _ _ _ _ Ht. cbn in *. unfold invoke_one. cbn. rewrite Ht.
    cbn [mbind option_bind]. eexists. split; [done|]. cbn.
    destruct (run_actions_acts next (act t) n Hn) as [Ha Hb]. rewrite Ec. done.
  - unfold invoke_view, view. cbn. by rewrite app_nil_r.
  - destruct s' as [n' calls]. cbn in Ecalls. subst calls. exists n'. split; [exact E|].
    unfold invoke_view, view in Hv. cbn in Hv. by injection Hv.
Qed.
End change_facts.
