(* ===== verification/SyncTheorems.v ===== *)
(** * Theorems about sync sessions and their notifiers *)
From stdpp Require Import strings gmap.
From S2P Require Import Prelude.
From S2P Require Import SyncSession.
From S2P Require Import SyncSessionFacts.
From S2P Require Import CallbackLoop.
From S2P Require Import SyncNotifiers.
Import Session.

Section session.
Implicit Types (s : SyncSession).

(** C38: whatever is done to a session, in whatever order, a call fails an
    assertion or uses a missing underlying session in one case only: an error
    that deletes the file reaches a session that is inactive already, and
    [advance_state] asserts that the state changes. *)
Theorem session_safe policy handler user cs s c :
  run cs (create policy handler user) = Some s ->
  perform c s = None <-> m_state s = inactive /\ exists e, error_of c = Some e /\ deletes_file e = true.
Proof.
  intros Hr. destruct (run_spec cs _ s (create_ok policy handler user) Hr) as [Hok _ _ _ _].
  pose proof (perform_outcome c s Hok) as H. unfold outcome in H.
  destruct (perform c s) as [[[] s']|]; [|done]. split; [done|]. intros Hf. by apply H in Hf.
Qed.

(** Every change of state is one that the comment on [State] documents,
    or the one of a token that arrives after a close was deferred, which goes
    from waiting through active to dying. *)
Theorem session_transitions policy handler user cs s c s' :
  run cs (create policy handler user) = Some s -> perform c s = Some (tt, s') ->
  m_state s' = m_state s \/ documented (m_state s) (m_state s') = true \/
  (m_state s = waiting_for_access_token /\ m_state s' = dying /\ m_deferred_close s = true /\
   m_stop_policy s = AfterChangesUploaded).
Proof.
  intros Hr Hp. destruct (run_spec cs _ s (create_ok policy handler user) Hr) as [Hok _ _ _ _].
  pose proof (perform_outcome c s Hok) as H. unfold outcome in H. rewrite Hp in H. apply H.
Qed.

(** C39: every completion callback ever passed to the session is, exactly
    once, still queued, handed to the sync client, or told it was aborted. *)
Theorem session_callbacks policy handler user cs s :
  run cs (create policy handler user) = Some s ->
  settled (m_trace s) ++ (snd <$> m_completion_wait_packages s) ≡ₚ (cs ≫= registers).
Proof. intros Hr. by destruct (run_spec cs _ s (create_ok policy handler user) Hr) as [_ Hcb _ _ _]. Qed.

(** the upload completion a dying session asked for ends it only if it is
    the latest one asked for: a completion from before the session was
    revived changes nothing. *)
Theorem session_stale_completion policy handler user cs s n s' :
  run cs (create policy handler user) = Some s -> perform (call_upload_completed n) s = Some (tt, s') ->
  death_waits (m_trace s) = seq 1 (m_death_count s) /\
  (m_state s = dying /\ n = m_death_count s -> m_state s' = inactive) /\
  (~ (m_state s = dying /\ n = m_death_count s) -> s' = s).
Proof.
  intros Hr Hp. destruct (run_spec cs _ s (create_ok policy handler user) Hr) as [Hok _ Hd _ _].
  split; [simpl in Hd; by rewrite Nat.sub_0_r in Hd|].
  revert Hp. cbn [perform]. unfold upload_completed. open_session s Hok. cbn in Hd. ev.
  destruct (bool_decide_reflect (st = dying)) as [->|Hst]; cbn [andb].
  - destruct (Nat.eqb_spec dc n) as [->|Hne].
    + rewrite advance_inactive_eq by done. ev. intros [= <-]. split; [done|]. intros []. done.
    + ev. intros [= <-]. split; [|done]. intros [_ ?]. congruence.
  - ev. intros [= <-]. split; [|done]. intros [? _]. done.
Qed.

(** An active or dying session has a bound underlying session, no queued
    completion and no deferred commit, and an inactive one has no underlying
    session. *)
Theorem session_connected policy handler user cs s :
  run cs (create policy handler user) = Some s ->
  (m_state s = active \/ m_state s = dying -> m_session s = true /\ m_session_has_been_bound s = true /\
     m_completion_wait_packages s = [] /\ m_deferred_commit_notification s = None) /\
  (m_state s = inactive -> m_session s = false) /\ m_lock s = false.
Proof.
  intros Hr. destruct (run_spec cs _ s (create_ok policy handler user) Hr) as [[Hlk Hc Hd Hb] _ _ _ _]. done.
Qed.

(** a token for a waiting session with no pending close makes it active,
    hands every queued waiter to the sync client in order, and then the last
    commit that was deferred. *)
Theorem session_activated policy handler user cs s token new_url :
  run cs (create policy handler user) = Some s -> m_state s = waiting_for_access_token ->
  m_deferred_close s = false -> m_server_url s = None ->
  exists s' bind_events override_events,
    perform (call_refresh_access_token token (Some new_url)) s = Some (tt, s') /\
    m_state s' = active /\ m_server_url s' = Some new_url /\ m_completion_wait_packages s' = [] /\
    m_deferred_commit_notification s' = None /\
    m_trace s' = m_trace s ++ bind_events ++ override_events ++
      ((fun p => ev_wait p.1 p.2) <$> m_completion_wait_packages s) ++
      match m_deferred_commit_notification s with Some v => [ev_nonsync_transact_notify v] | None => [] end /\
    bind_events = (if m_session s then [ev_refresh token; ev_cancel_reconnect_delay]
                   else [ev_make_session; ev_bind new_url token]) /\
    override_events = match m_server_override s with Some (a, p) => [ev_override_server a p] | None => [] end.
Proof.
  intros Hr Hst Hdcl Hurl. destruct (run_spec cs _ s (create_ok policy handler user) Hr) as [Hok _ _ _ _].
  open_session s Hok. cbn in Hst, Hdcl, Hurl. subst st dcl url. cbn [perform]. unfold refresh_access_token.
  destruct se; [rewrite (Hbd eq_refl) in *|]; destruct ov as [[a p]|], dcom as [v|];
    (eexists _, _, _; split; [drive; reflexivity|]); cbn; repeat split; rewrite <- ?app_assoc; cbn;
    rewrite <- ?app_assoc, ?app_nil_r; reflexivity.
Qed.

(** an expired token is not an error for the binding: an active session
    goes back to waiting and asks for a new token, and the error handler is
    not called. *)
Theorem session_token_expired policy handler user cs s fatal :
  run cs (create policy handler user) = Some s -> m_state s = active ->
  exists s', perform (call_handle_error (mkSyncError (protocol_error token_expired) fatal)) s = Some (tt, s') /\
    m_state s' = waiting_for_access_token /\ m_session s' = true /\
    m_trace s' = m_trace s ++ [ev_bind_session_handler].
Proof.
  intros Hr Hst. destruct (run_spec cs _ s (create_ok policy handler user) Hr) as [Hok _ _ _ _].
  open_session s Hok. cbn in Hst. subst st. destruct (Hcon (or_introl eq_refl)) as (-> & -> & -> & ->).
  eexists. split; [cbn [perform]; unfold handle_error; drive; reflexivity|]. done.
Qed.
End session.

Section connection_notifier.
Import ChangeNotifier.

(** While callbacks register callbacks and unregister ones that were
    there before, a connection change calls every callback that no earlier one
    unregistered, exactly once and in the order of registration, none of the
    new ones, and the loop ends. *)
Theorem connection_change_delivered (act : Z -> list action) (callbacks : list Z) next :
  NoDup callbacks ->
  (forall t, Forall (fun x => x < next) (removed (act t))) -> Z.of_nat (length callbacks) < 2 ^ 64 - 1 ->
  exists n', invoke_callbacks act (mkChangeNotifier callbacks size_max size_max next) (S (length callbacks)) =
      Some (n', deliver (removed ∘ act) [] callbacks) /\ m_callback_index n' = size_max.
Proof. intros Hnd Hr Hlen. apply invoke_spec; [done..|lia]. Qed.

(** a callback that registers another one and unregisters it again while
    it runs makes the notifier skip the last callback: removing lowers the
    count although the new callback was never counted. *)
Theorem connection_change_skips :
  exists n, invoke_callbacks
      (fun t => if t =? 0 then [act_add; act_remove 3] else [])
      (mkChangeNotifier [0; 1; 2] size_max size_max 3) 4 = Some (n, [0; 1]) /\
    m_callbacks n = [0; 1; 2].
Proof. eexists. vm_compute. by split. Qed.
End connection_notifier.

Section progress_notifier.
Import ProgressNotifier.

(** an update drops exactly the packages whose transfer is complete: a
    streaming one never, another one when the bytes transferred reach the
    amount captured at its first report. *)
Theorem progress_expiry n d1 d2 u1 u2 version snapshot k p :
  version <> 0 -> m_packages n !! k = Some p ->
  let c := mkProgress u2 d2 u1 d1 snapshot in
  let n' := (update n d1 d2 u1 u2 version snapshot).1 in
  (m_packages n' !! k = None <->
     is_streaming p = false /\
     exists t, captured_transferrable (create_invocation p c).1.1 = Some t /\ t <= transferred_of p c) /\
  (forall t, captured_transferrable p = Some t ->
     forall p', m_packages n' !! k = Some p' -> captured_transferrable p' = Some t).
Proof.
  intros Hv Hk c n'. pose proof (update_lookup n d1 d2 u1 u2 version snapshot k Hv) as Hl.
  cbv zeta in Hl. fold c n' in Hl. rewrite Hk in Hl. rewrite Hl. clear Hl n'. clearbody c.
  destruct p as [cap ver st dl]. unfold create_invocation. cbn [is_streaming captured_transferrable is_download].
  destruct st; cbn [negb andb].
  { split; [split; [done|by intros [? _]]|]. by intros t -> p' [= <-]. }
  cbn. destruct cap as [t|]; cbn; [|destruct dl; cbn; [|destruct (snapshot_version c <? ver); cbn]].
  - split.
    + destruct (Z.leb_spec t (transferred_of (mkPackage (Some t) ver false dl) c)) as [H|H]; split; try done.
      * intros _. split; [done|]. by exists t.
      * intros (_ & t' & [= <-] & ?). unfold transferred_of in *. simpl in *. lia.
    + intros t' [= <-] p'. destruct (_ <=? _); [done|]. by intros [= <-].
  - split; [|done]. unfold transferred_of. cbn.
    destruct (Z.leb_spec (downloadable c) (downloaded c)); split; try done.
    + intros _. split; [done|]. by eexists.
    + intros (_ & t' & [= <-] & ?). lia.
  - split; [|done]. split; [done|]. by intros (_ & t' & Ht & _).
  - split; [|done]. unfold transferred_of. cbn.
    destruct (Z.leb_spec (uploadable c) (uploaded c)); split; try done.
    + intros _. split; [done|]. by eexists.
    + intros (_ & t' & [= <-] & ?). lia.
Qed.

(** an upload notifier that is not streaming is not called, and stays
    registered with nothing captured, until the client has processed the last
    local transaction there was when it was registered. *)
Theorem progress_upload_waits n c :
  m_current_progress n = Some c -> snapshot_version c < m_local_transaction_version n ->
  let '(n', token, call) := register_callback n false false in
  call = None /\ token = m_progress_notifier_token n /\
  m_packages n' !! token = Some (mkPackage None (m_local_transaction_version n) false false).
Proof.
  intros Hc Hv. unfold register_callback. rewrite Hc. unfold create_invocation. cbn.
  rewrite (proj2 (Z.ltb_lt _ _) Hv). cbn. split; [done|]. split; [done|]. by rewrite lookup_insert_eq.
Qed.
End progress_notifier.

(** ** Concrete runs *)
Section witnesses.
Definition first_url : string := "realms://server/~/data"%string.

(** Revived, two waits queued and a commit deferred. *)
Definition waiting_calls : list call :=
  [call_revive_if_needed; call_wait_for_upload_completion 1; call_wait_for_download_completion 2;
   call_nonsync_transact_notify 7].
Definition active_calls : list call := waiting_calls ++ [call_refresh_access_token "t" (Some first_url)].

Definition session_after (cs : list call) : SyncSession :=
  default (create AfterChangesUploaded true true) (run cs (create AfterChangesUploaded true true)).

Lemma session_safe_witness :
  run active_calls (create AfterChangesUploaded true true) = Some (session_after active_calls) /\
  (perform call_close (session_after active_calls) = None <->
     m_state (session_after active_calls) = inactive /\
     exists e, error_of call_close = Some e /\ deletes_file e = true).
Proof.
  split; [vm_compute; reflexivity|]. apply (session_safe AfterChangesUploaded true true active_calls). vm_compute; reflexivity.
Defined.

Lemma session_transitions_witness :
  let s := session_after active_calls in
  let s' := session_after (active_calls ++ [call_close]) in
  m_state s' = dying /\
  (m_state s' = m_state s \/ documented (m_state s) (m_state s') = true \/
   (m_state s = waiting_for_access_token /\ m_state s' = dying /\ m_deferred_close s = true /\
    m_stop_policy s = AfterChangesUploaded)).
Proof.
  split; [vm_compute; reflexivity|].
  apply (session_transitions AfterChangesUploaded true true active_calls _ call_close); vm_compute; reflexivity.
Defined.

Lemma session_callbacks_witness :
  settled (m_trace (session_after active_calls)) ++
    (snd <$> m_completion_wait_packages (session_after active_calls)) ≡ₚ (active_calls ≫= registers) /\
  (active_calls ≫= registers) = [1%nat; 2%nat].
Proof. split; [|vm_compute; reflexivity]. apply (session_callbacks AfterChangesUploaded true true). vm_compute; reflexivity. Defined.

(** Closed, revived, closed again: the first completion is stale. *)
Definition dying_again : list call :=
  active_calls ++ [call_close; call_revive_if_needed; call_close].

Lemma session_stale_completion_witness :
  let s := session_after dying_again in
  death_waits (m_trace s) = seq 1 (m_death_count s) /\
  (m_state s = dying /\ 1%nat = m_death_count s -> m_state s = inactive) /\
  (~ (m_state s = dying /\ 1%nat = m_death_count s) -> s = s).
Proof.
  intros s. apply (session_stale_completion AfterChangesUploaded true true dying_again s 1%nat s);
    unfold s; vm_compute; reflexivity.
Defined.

Lemma session_connected_witness :
  let s := session_after active_calls in
  (m_state s = active \/ m_state s = dying -> m_session s = true /\ m_session_has_been_bound s = true /\
     m_completion_wait_packages s = [] /\ m_deferred_commit_notification s = None) /\
  (m_state s = inactive -> m_session s = false) /\ m_lock s = false.
Proof. apply (session_connected AfterChangesUploaded true true active_calls). vm_compute; reflexivity. Defined.

Lemma session_activated_witness :
  let s := session_after waiting_calls in
  exists s' bind_events override_events,
    perform (call_refresh_access_token "t" (Some first_url)) s = Some (tt, s') /\
    m_state s' = active /\ m_server_url s' = Some first_url /\ m_completion_wait_packages s' = [] /\
    m_deferred_commit_notification s' = None /\
    m_trace s' = m_trace s ++ bind_events ++ override_events ++
      ((fun p => ev_wait p.1 p.2) <$> m_completion_wait_packages s) ++
      match m_deferred_commit_notification s with Some v => [ev_nonsync_transact_notify v] | None => [] end /\
    bind_events = (if m_session s then [ev_refresh "t"; ev_cancel_reconnect_delay]
                   else [ev_make_session; ev_bind first_url "t"]) /\
    override_events = match m_server_override s with Some (a, p) => [ev_override_server a p] | None => [] end.
Proof.
  intros s. apply (session_activated AfterChangesUploaded true true waiting_calls s);
    unfold s; vm_compute; reflexivity.
Defined.

Lemma session_token_expired_witness :
  let s := session_after active_calls in
  exists s', perform (call_handle_error (mkSyncError (protocol_error token_expired) true)) s = Some (tt, s') /\
    m_state s' = waiting_for_access_token /\ m_session s' = true /\
    m_trace s' = m_trace s ++ [ev_bind_session_handler].
Proof.
  intros s. apply (session_token_expired AfterChangesUploaded true true active_calls s true);
    unfold s; vm_compute; reflexivity.
Defined.

(** The first callback removes itself and the second one, and adds another. *)
Definition first_removes (t : Z) : list action :=
  if t =? 0 then [act_remove 0; act_add; act_remove 1] else [].

Lemma connection_change_delivered_witness :
  exists n', ChangeNotifier.invoke_callbacks first_removes (mkChangeNotifier [0; 1; 2] size_max size_max 3) 4 =
      Some (n', deliver (removed ∘ first_removes) [] [0; 1; 2]) /\ m_callback_index n' = size_max.
Proof.
  apply (connection_change_delivered first_removes [0; 1; 2] 3).
  - apply (bool_decide_unpack _). vm_compute. exact Logic.I.
  - intros t. unfold first_removes. destruct (t =? 0); repeat constructor.
  - simpl. lia.
Defined.

Definition sample_packages : SyncProgressNotifier :=
  mkProgressNotifier 2 0 None {[1 := mkPackage (Some 10) 0 false true]}.

Lemma progress_expiry_witness :
  let p := mkPackage (Some 10) 0 false true in
  let c := mkProgress 0 20 0 12 5 in
  let n' := (ProgressNotifier.update sample_packages 12 20 0 0 1 5).1 in
  (m_packages n' !! 1 = None <->
     is_streaming p = false /\
     exists t, captured_transferrable (ProgressNotifier.create_invocation p c).1.1 = Some t /\
       t <= ProgressNotifier.transferred_of p c) /\
  (forall t, captured_transferrable p = Some t ->
     forall p', m_packages n' !! 1 = Some p' -> captured_transferrable p' = Some t).
Proof. apply (progress_expiry sample_packages 12 20 0 0 1 5 1); [lia|vm_compute; reflexivity]. Defined.

Definition registering : SyncProgressNotifier := mkProgressNotifier 1 9 (Some (mkProgress 10 0 0 0 8)) ∅.

Lemma progress_upload_waits_witness :
  let '(n', token, call) := ProgressNotifier.register_callback registering false false in
  call = None /\ token = m_progress_notifier_token registering /\
  m_packages n' !! token = Some (mkPackage None (m_local_transaction_version registering) false false).
Proof. apply (progress_upload_waits registering (mkProgress 10 0 0 0 8)); [vm_compute; reflexivity|simpl; lia]. Defined.
End witnesses.
