(* ===== verification/SchemaTypes.v ===== *)
(** * Property types, properties and object schemas

    [property.hpp] and the parts of [object_schema.cpp] that do not need the
    core library: the [PropertyType] byte with its flags, [Property], the
    strings that describe them, and [ObjectSchema] with its lookups. Strings are
    sequences of bytes; [StringData] compares them as [char]s, whose sign is
    the platform's choice. *)
From S2P Require Import Prelude.
From S2P Require Import IndexSets.
From Stdlib Require Export Ascii.
From stdpp Require Export strings.
#[global] Open Scope Z_scope.

(** ** Strings *)

(** Whether [char] is signed is implementation-defined. *)
Class CharSign := char_is_signed : bool.

Definition char_value (signed : bool) (c : ascii) : Z :=
  let n := Z.of_N (N_of_ascii c) in
  if signed && (128 <=? n) then n - 256 else n.

(** [std::lexicographical_compare] over the characters. *)
Fixpoint lexicographical_compare (signed : bool) (s t : string) : bool :=
  match s, t with
  | _, EmptyString => false
  | EmptyString, String _ _ => true
  | String a s, String b t =>
    if char_value signed a <? char_value signed b then true
    else if char_value signed b <? char_value signed a then false
    else lexicographical_compare signed s t
  end.

(** [std::string] compares characters as unsigned bytes ([char_traits]),
    [StringData] as [char]s. *)
Definition string_lt : string -> string -> bool := lexicographical_compare false.
Definition StringData_lt `{CharSign} : string -> string -> bool := lexicographical_compare char_is_signed.

Definition string_le (s t : string) : Prop := string_lt t s = false.
#[global] Instance string_le_dec : RelDecision string_le.
Proof. intros s t. unfold string_le. apply _. Defined.

Definition string_eqb (s t : string) : bool := bool_decide (s = t).
Definition empty (s : string) : bool := match s with EmptyString => true | _ => false end.

(** ** [PropertyType] *)
Definition PropertyType := Z.

Definition PT_Int : PropertyType := 0.
Definition PT_Bool : PropertyType := 1.
Definition PT_String : PropertyType := 2.
Definition PT_Data : PropertyType := 3.
Definition PT_Date : PropertyType := 4.
Definition PT_Float : PropertyType := 5.
Definition PT_Double : PropertyType := 6.
Definition PT_Object : PropertyType := 7.
Definition PT_LinkingObjects : PropertyType := 8.
Definition PT_Any : PropertyType := 9.
Definition PT_Required : PropertyType := 0.
Definition PT_Nullable : PropertyType := 64.
Definition PT_Array : PropertyType := 128.

Definition pt_and (a b : PropertyType) : PropertyType := Z.land a b.
Definition pt_or (a b : PropertyType) : PropertyType := Z.lor a b.
Definition pt_xor (a b : PropertyType) : PropertyType := Z.lxor a b.
(** [~] promotes to [int]; the cast back keeps the low byte. *)
Definition pt_not (a : PropertyType) : PropertyType := Z.lnot a mod 256.

Definition PT_Flags : PropertyType := pt_or PT_Nullable PT_Array.

Definition pt_base (a : PropertyType) : PropertyType := pt_and a (pt_not PT_Flags).
Definition pt_eqb (a b : PropertyType) : bool := pt_base a =? pt_base b.
Definition is_array (a : PropertyType) : bool := pt_and a PT_Array =? PT_Array.
Definition is_nullable (a : PropertyType) : bool := pt_and a PT_Nullable =? PT_Nullable.

(** The last case is marked unreachable: the base of a [PropertyType] is one of
    the enumerators. *)
Definition base_type_string (base : PropertyType) : string :=
  if base =? PT_String then "string"
  else if base =? PT_Int then "int"
  else if base =? PT_Bool then "bool"
  else if base =? PT_Date then "date"
  else if base =? PT_Data then "data"
  else if base =? PT_Double then "double"
  else if base =? PT_Float then "float"
  else if base =? PT_Object then "object"
  else if base =? PT_Any then "any"
  else if base =? PT_LinkingObjects then "linking objects"
  else EmptyString.

Definition string_for_property_type (t : PropertyType) : string :=
  if is_array t then
    if pt_eqb t PT_LinkingObjects then "linking objects" else "array"
  else base_type_string (pt_base t).

(** ** [Property] *)
Record Property := mkProperty {
  prop_name : string;
  prop_type : PropertyType;
  object_type : string;
  link_origin_property_name : string;
  is_primary : bool;
  is_indexed : bool;
  table_column : Z
}.

Definition set_is_primary (b : bool) (p : Property) : Property :=
  mkProperty (prop_name p) (prop_type p) (object_type p) (link_origin_property_name p) b (is_indexed p) (table_column p).
Definition set_table_column (c : Z) (p : Property) : Property :=
  mkProperty (prop_name p) (prop_type p) (object_type p) (link_origin_property_name p) (is_primary p) (is_indexed p) c.
Definition set_prop_type (t : PropertyType) (p : Property) : Property :=
  mkProperty (prop_name p) t (object_type p) (link_origin_property_name p) (is_primary p) (is_indexed p) (table_column p).

(** The two constructors; [table_column] starts as [size_t(-1)]. *)
Definition Property_value (name : string) (type : PropertyType) (primary indexed : bool) : Property :=
  mkProperty name type EmptyString EmptyString primary indexed npos.
Definition Property_link (name : string) (type : PropertyType) (object_type origin : string) : Property :=
  mkProperty name type object_type origin false false npos.

Definition requires_index (p : Property) : bool := is_primary p || is_indexed p.

Definition type_is_indexable (p : Property) : bool :=
  pt_eqb (prop_type p) PT_Int || pt_eqb (prop_type p) PT_Bool
  || pt_eqb (prop_type p) PT_Date || pt_eqb (prop_type p) PT_String.

Definition type_is_nullable (p : Property) : bool :=
  negb (is_array (prop_type p) && pt_eqb (prop_type p) PT_Object)
  && negb (pt_eqb (prop_type p) PT_LinkingObjects).

Definition type_string (p : Property) : string :=
  let t := prop_type p in
  if is_array t then
    if pt_eqb t PT_Object then ("array<" +:+ object_type p +:+ ">")%string
    else if pt_eqb t PT_LinkingObjects then ("linking objects<" +:+ object_type p +:+ ">")%string
    else ("array<" +:+ string_for_property_type (pt_base t) +:+ ">")%string
  else
    if pt_eqb (pt_base t) PT_Object then ("<" +:+ object_type p +:+ ">")%string
    else if pt_eqb (pt_base t) PT_LinkingObjects then ("linking objects<" +:+ object_type p +:+ ">")%string
    else string_for_property_type (pt_base t).

(** [operator==], which ignores [table_column]. *)
Definition property_eqb (l r : Property) : bool :=
  (prop_type l =? prop_type r)
  && Bool.eqb (is_primary l) (is_primary r)
  && Bool.eqb (requires_index l) (requires_index r)
  && string_eqb (prop_name l) (prop_name r)
  && string_eqb (object_type l) (object_type r)
  && string_eqb (link_origin_property_name l) (link_origin_property_name r).

(** ** [ObjectSchema] *)
Record ObjectSchema := mkObjectSchema {
  os_name : string;
  persisted_properties : list Property;
  computed_properties : list Property;
  primary_key : string
}.

Definition set_persisted (l : list Property) (o : ObjectSchema) : ObjectSchema :=
  mkObjectSchema (os_name o) l (computed_properties o) (primary_key o).
Definition set_computed (l : list Property) (o : ObjectSchema) : ObjectSchema :=
  mkObjectSchema (os_name o) (persisted_properties o) l (primary_key o).

(** The constructor from property lists takes the first primary one as key. *)
Definition ObjectSchema_make (name : string) (persisted computed : list Property) : ObjectSchema :=
  mkObjectSchema name persisted computed
    (match List.find is_primary persisted with Some p => prop_name p | None => EmptyString end).

Definition named (name : string) (p : Property) : bool := string_eqb (prop_name p) name.

Definition property_for_name (o : ObjectSchema) (name : string) : option Property :=
  match List.find (named name) (persisted_properties o) with
  | Some p => Some p
  | None => List.find (named name) (computed_properties o)
  end.

(** A write through the pointer [property_for_name] returns. *)
Fixpoint update_first (name : string) (f : Property -> Property) (l : list Property) : list Property :=
  match l with
  | [] => []
  | p :: l => if named name p then f p :: l else p :: update_first name f l
  end.
Definition update_property (name : string) (f : Property -> Property) (o : ObjectSchema) : ObjectSchema :=
  match List.find (named name) (persisted_properties o) with
  | Some _ => set_persisted (update_first name f (persisted_properties o)) o
  | None => set_computed (update_first name f (computed_properties o)) o
  end.

Definition primary_key_property (o : ObjectSchema) : option Property := property_for_name o (primary_key o).

Definition property_is_computed (o : ObjectSchema) (p : Property) : bool :=
  existsb (fun q => property_eqb q p) (computed_properties o).

Definition set_primary_key_property (o : ObjectSchema) : ObjectSchema :=
  if empty (primary_key o) then o else update_property (primary_key o) (set_is_primary true) o.

Fixpoint list_eqb {A} (eqb : A -> A -> bool) (l k : list A) : bool :=
  match l, k with
  | [], [] => true
  | x :: l, y :: k => eqb x y && list_eqb eqb l k
  | _, _ => false
  end.

Definition object_schema_eqb (a b : ObjectSchema) : bool :=
  string_eqb (os_name a) (os_name b) && string_eqb (primary_key a) (primary_key b)
  && list_eqb property_eqb (persisted_properties a) (persisted_properties b)
  && list_eqb property_eqb (computed_properties a) (computed_properties b).
