(* ===== verification/Schemas.v ===== *)
(** * Schemas: lookup, validation and comparison

    [schema.cpp] and the validation half of [object_schema.cpp]. A [Schema] is a
    vector of object schemas sorted by name. Pointers to object schemas and
    properties held by errors and changes are modelled by what they point to. *)
From S2P Require Import Prelude.
From S2P Require Import SchemaTypes.

(** ** Results *)

(** [ObjectSchemaValidationException]: a format string and its arguments. *)
Record SchemaError := mkSchemaError { error_format : string; error_args : list string }.

Inductive Exception :=
| SchemaValidationException (errors : list SchemaError)
| SchemaMismatchException (errors : list SchemaError)
| InvalidSchemaChangeException (errors : list SchemaError)
| InvalidExternalSchemaChangeException (errors : list SchemaError)
| DuplicatePrimaryKeyValueException (type property : string)
| LogicError (error : SchemaError).

(** A call returns, throws, or fails an assertion. *)
Inductive Result (A : Type) :=
| Ok (a : A)
| Throw (e : Exception)
| Crash.
Arguments Ok {A} a.
Arguments Throw {A} e.
Arguments Crash {A}.

#[global] Instance Result_ret : MRet Result := fun A a => Ok a.
#[global] Instance Result_bind : MBind Result :=
  fun A B f m => match m with Ok a => f a | Throw e => Throw e | Crash => Crash end.

Fixpoint fold_result {A S} (f : S -> A -> Result S) (l : list A) (s : S) : Result S :=
  match l with
  | [] => Ok s
  | x :: l => s ← f s x; fold_result f l s
  end.

(** ** The schema *)
Abbreviation Schema := (list ObjectSchema).

Definition name_le (a b : ObjectSchema) : Prop := string_le (os_name a) (os_name b).
#[global] Instance name_le_dec : RelDecision name_le.
Proof. intros a b. unfold name_le. apply _. Defined.

Definition Schema_make `{StdSort} (types : list ObjectSchema) : Schema := std_sort name_le types.

Definition schema_eqb (a b : Schema) : bool := list_eqb object_schema_eqb a b.

Section schemas.
Context `{CharSign}.

(** An iterator is a position; [end()] is the length. *)
Definition find (s : Schema) (name : string) : nat :=
  let it := lower_bound (fun o => StringData_lt (os_name o) name) 0 s in
  match s !! it with
  | Some o => if string_eqb (os_name o) name then it else length s
  | None => it
  end.

Definition find_object (s : Schema) (name : string) : option ObjectSchema := s !! find s name.

(** ** Validation *)

(** [std::adjacent_find], iterators as suffixes. *)
Fixpoint find_next_duplicate (start : list ObjectSchema) : list ObjectSchema :=
  match start with
  | lft :: ((rgt :: _) as rest) =>
    if string_eqb (os_name lft) (os_name rgt) then start else find_next_duplicate rest
  | _ => []
  end.

Definition duplicate_error (o : ObjectSchema) : SchemaError :=
  mkSchemaError "Type '%1' appears more than once in the schema." [os_name o].

Definition duplicate_step (st : list ObjectSchema * list SchemaError)
    : option ((list ObjectSchema * list SchemaError) + list SchemaError) :=
  match st with
  | ([], exceptions) => Some (inr exceptions)
  | (it :: rest, exceptions) => Some (inl (find_next_duplicate rest, exceptions ++ [duplicate_error it]))
  end.

Definition property_error (fmt object_name : string) (p : Property) (args : list string) : SchemaError :=
  mkSchemaError fmt (object_name :: prop_name p :: args).
Definition typed_error (fmt object_name : string) (p : Property) : SchemaError :=
  property_error fmt object_name p [string_for_property_type (prop_type p)].

Definition validate_kind (object_name : string) (p : Property) : list SchemaError :=
  (if pt_eqb (prop_type p) PT_LinkingObjects && negb (is_array (prop_type p))
   then [property_error "Linking Objects property '%1.%2' must be an array." object_name p []] else [])
  ++ (if is_nullable (prop_type p) && negb (type_is_nullable p)
      then [typed_error "Property '%1.%2' of type '%3' cannot be nullable." object_name p]
      else if pt_eqb (prop_type p) PT_Object && negb (is_nullable (prop_type p)) && negb (is_array (prop_type p))
      then [property_error "Property '%1.%2' of type 'object' must be nullable." object_name p []] else []).

Definition validate_primary (object_name : string) (p : Property) (primary : option Property)
    : option Property * list SchemaError :=
  if is_primary p then
    (Some p,
     (if negb (pt_eqb (prop_type p) PT_Int) && negb (pt_eqb (prop_type p) PT_String)
      then [typed_error "Property '%1.%2' of type '%3' cannot be made the primary key." object_name p] else [])
     ++ (match primary with
         | Some q => [mkSchemaError "Properties '%1' and '%2' are both marked as the primary key of '%3'."
                        [prop_name p; prop_name q; object_name]]
         | None => []
         end))
  else (primary, []).

Definition validate_index_and_origin (object_name : string) (p : Property) : list SchemaError :=
  (if is_indexed p && negb (type_is_indexable p)
   then [typed_error "Property '%1.%2' of type '%3' cannot be indexed." object_name p] else [])
  ++ (if negb (pt_eqb (prop_type p) PT_LinkingObjects) && negb (empty (link_origin_property_name p))
      then [typed_error "Property '%1.%2' of type '%3' cannot have an origin property name." object_name p]
      else if pt_eqb (prop_type p) PT_LinkingObjects && empty (link_origin_property_name p)
      then [typed_error "Property '%1.%2' of type '%3' must have an origin property name." object_name p] else []).

Definition origin_error (fmt object_name : string) (p : Property) (args : list string) : SchemaError :=
  mkSchemaError fmt (object_type p :: link_origin_property_name p :: object_name :: prop_name p :: args).

Definition validate_origin (origin_schema : ObjectSchema) (object_name : string) (p : Property) : list SchemaError :=
  match property_for_name origin_schema (link_origin_property_name p) with
  | None =>
    [origin_error "Property '%1.%2' declared as origin of linking objects property '%3.%4' does not exist"
       object_name p []]
  | Some origin =>
    if negb (pt_eqb (prop_type origin) PT_Object) then
      [origin_error "Property '%1.%2' declared as origin of linking objects property '%3.%4' is not a link"
         object_name p []]
    else if negb (string_eqb (object_type origin) object_name) then
      [origin_error "Property '%1.%2' declared as origin of linking objects property '%3.%4' links to type '%5'"
         object_name p [object_type origin]]
    else []
  end.

Definition validate_link (schema : Schema) (object_name : string) (p : Property) : list SchemaError :=
  if negb (pt_eqb (prop_type p) PT_Object) && negb (pt_eqb (prop_type p) PT_LinkingObjects) then
    if negb (empty (object_type p))
    then [property_error "Property '%1.%2' of type '%3' cannot have an object type." object_name p [type_string p]]
    else []
  else
    match find_object schema (object_type p) with
    | None =>
      [property_error "Property '%1.%2' of type '%3' has unknown object type '%4'" object_name p
         [string_for_property_type (prop_type p); object_type p]]
    | Some it =>
      if negb (pt_eqb (prop_type p) PT_LinkingObjects) then []
      else validate_origin it object_name p
    end.

(** The primary property seen so far and the exceptions collected so far. *)
Definition validate_property (schema : Schema) (object_name : string)
    (st : option Property * list SchemaError) (p : Property) : option Property * list SchemaError :=
  let '(primary, exceptions) := st in
  let '(primary', key_errors) := validate_primary object_name p primary in
  (primary', exceptions ++ validate_kind object_name p ++ key_errors ++ validate_index_and_origin object_name p
     ++ validate_link schema object_name p).

Definition validate_object (schema : Schema) (exceptions : list SchemaError) (o : ObjectSchema) : list SchemaError :=
  let st := fold_left (validate_property schema (os_name o)) (persisted_properties o) (None, exceptions) in
  let '(primary, exceptions) := fold_left (validate_property schema (os_name o)) (computed_properties o) st in
  if negb (empty (primary_key o)) && bool_decide (primary = None) && bool_decide (primary_key_property o = None)
  then exceptions ++ [mkSchemaError "Specified primary key '%1.%2' does not exist." [os_name o; primary_key o]]
  else exceptions.

(** One turn per adjacent pair at most. *)
Definition validation_errors (s : Schema) : option (list SchemaError) :=
  exceptions ← loop duplicate_step (S (length s)) (find_next_duplicate s, []);
  Some (fold_left (validate_object s) s exceptions).

Definition validate (s : Schema) : Result () :=
  match validation_errors s with
  | None => Crash
  | Some [] => Ok tt
  | Some exceptions => Throw (SchemaValidationException exceptions)
  end.
End schemas.

(** ** Schema differences

    [Schema::compare] lists the changes that turn one schema into another,
    [zip_matching] pairs up the object schemas of two sorted schemas, and
    [copy_table_columns_from] transfers column numbers between them. *)
Inductive SchemaChange :=
| AddTable (object : ObjectSchema)
| RemoveTable (object : ObjectSchema)
| AddInitialProperties (object : ObjectSchema)
| AddProperty (object : ObjectSchema) (property : Property)
| RemoveProperty (object : ObjectSchema) (property : Property)
| ChangePropertyType (object : ObjectSchema) (old_property new_property : Property)
| MakePropertyNullable (object : ObjectSchema) (property : Property)
| MakePropertyRequired (object : ObjectSchema) (property : Property)
| AddIndex (object : ObjectSchema) (property : Property)
| RemoveIndex (object : ObjectSchema) (property : Property)
| ChangePrimaryKey (object : ObjectSchema) (property : option Property).

(** ** [std::partition]

    The standard promises a permutation that puts the elements satisfying the
    predicate first, and nothing about the order within the two groups. *)
Class StdPartition := {
  std_partition {A : Type} (p : A -> bool) (l : list A) : list A * list A;
  std_partition_perm {A : Type} (p : A -> bool) (l : list A) :
    (std_partition p l).1 ++ (std_partition p l).2 ≡ₚ l;
  std_partition_first {A : Type} (p : A -> bool) (l : list A) :
    Forall (fun x => p x = true) (std_partition p l).1;
  std_partition_second {A : Type} (p : A -> bool) (l : list A) :
    Forall (fun x => p x = false) (std_partition p l).2
}.

(** The usual implementation for bidirectional iterators: swap the first
    element that does not belong with the last one that does. *)
Fixpoint split_while {A} (p : A -> bool) (l : list A) : list A * list A :=
  match l with
  | [] => ([], [])
  | x :: k => if p x then let '(a, b) := split_while p k in (x :: a, b) else ([], l)
  end.

Fixpoint swap_partition {A} (p : A -> bool) (fuel : nat) (l : list A) : list A * list A :=
  match fuel with
  | O => (List.filter p l, List.filter (fun x => negb (p x)) l)
  | S fuel =>
    let '(front, rest) := split_while p l in
    match rest with
    | [] => (front, [])
    | x :: mid =>
      let '(tail, rest') := split_while (fun x => negb (p x)) (rev mid) in
      match rest' with
      | [] => (front, rest)
      | y :: mid' => let '(a, b) := swap_partition p fuel (rev mid') in (front ++ y :: a, b ++ x :: rev tail)
      end
    end
  end.

(** ** Comparing *)
Definition is_not_remove_property (sc : SchemaChange) : bool :=
  match sc with RemoveProperty _ _ => false | _ => true end.

(** Unreachable for every other change. *)
Definition removed_column (sc : SchemaChange) : Z :=
  match sc with RemoveProperty _ p => table_column p | _ => 0 end.

Definition column_ge (a b : SchemaChange) : Prop := removed_column b <= removed_column a.
#[global] Instance column_ge_dec : RelDecision column_ge.
Proof. intros a b. unfold column_ge. apply _. Defined.
#[global] Instance column_ge_total : Total column_ge.
Proof. intros a b. unfold column_ge. lia. Qed.

(** The changes for one existing property that is still in the target. *)
Definition compare_nullability (existing : ObjectSchema) (current target_prop : Property) : list SchemaChange :=
  if Bool.eqb (is_nullable (prop_type current)) (is_nullable (prop_type target_prop)) then []
  else if is_nullable (prop_type current) then [MakePropertyRequired existing current]
  else [MakePropertyNullable existing current].

Definition compare_index (existing : ObjectSchema) (current target_prop : Property) : list SchemaChange :=
  if requires_index target_prop then
    if negb (is_indexed current) then [AddIndex existing current] else []
  else if requires_index current then [RemoveIndex existing current] else [].

Definition same_type (current target_prop : Property) : bool :=
  pt_eqb (prop_type current) (prop_type target_prop)
  && string_eqb (object_type current) (object_type target_prop)
  && Bool.eqb (is_array (prop_type current)) (is_array (prop_type target_prop)).

Definition compare_property (existing target : ObjectSchema) (current : Property) : list SchemaChange :=
  match property_for_name target (prop_name current) with
  | None => [RemoveProperty existing current]
  | Some target_prop =>
    if property_is_computed target target_prop then [RemoveProperty existing current]
    else if negb (same_type current target_prop) then [ChangePropertyType existing current target_prop]
    else compare_nullability existing current target_prop ++ compare_index existing current target_prop
  end.

Definition compare_key (existing target : ObjectSchema) : list SchemaChange :=
  if string_eqb (primary_key existing) (primary_key target) then []
  else [ChangePrimaryKey existing (primary_key_property target)].

Definition added_property (existing : ObjectSchema) (target_prop : Property) : list SchemaChange :=
  match property_for_name existing (prop_name target_prop) with
  | None => [AddProperty existing target_prop]
  | Some _ => []
  end.

(** Everything the comparison of two object schemas appends. *)
Definition object_changes (existing target : ObjectSchema) : list SchemaChange :=
  flat_map (compare_property existing target) (persisted_properties existing)
  ++ compare_key existing target
  ++ flat_map (added_property existing) (persisted_properties target).

Fixpoint zip_matching (a : list ObjectSchema) : list ObjectSchema -> list (option ObjectSchema * option ObjectSchema) :=
  fix go (b : list ObjectSchema) :=
    match a, b with
    | [], [] => []
    | x :: a', [] => (Some x, None) :: zip_matching a' []
    | [], y :: b' => (None, Some y) :: go b'
    | x :: a', y :: b' =>
      if string_eqb (os_name x) (os_name y) then (Some x, Some y) :: zip_matching a' b'
      else if string_lt (os_name x) (os_name y) then (Some x, None) :: zip_matching a' b
      else (None, Some y) :: go b'
    end.

Section compare.
Context `{StdSort, StdPartition}.

Definition compare_objects (existing target : ObjectSchema) (changes : list SchemaChange) : list SchemaChange :=
  let '(kept, removals) := std_partition is_not_remove_property (changes ++ object_changes existing target) in
  kept ++ std_sort column_ge removals.

Definition table_change (include_removals : bool) (pair : option ObjectSchema * option ObjectSchema)
    : list SchemaChange :=
  match pair with
  | (Some target, None) => [AddTable target]
  | (None, Some existing) => if include_removals then [RemoveTable existing] else []
  | _ => []
  end.

Definition column_changes (changes : list SchemaChange) (pair : option ObjectSchema * option ObjectSchema)
    : list SchemaChange :=
  match pair with
  | (Some target, Some existing) => compare_objects existing target changes
  | (Some target, None) => changes ++ [AddInitialProperties target]
  | _ => changes
  end.

Definition compare (existing target_schema : Schema) (include_table_removals : bool) : list SchemaChange :=
  fold_left column_changes (zip_matching target_schema existing)
    (flat_map (table_change include_table_removals) (zip_matching target_schema existing)).
End compare.

(** ** Column numbers *)
Definition copy_columns (existing other : ObjectSchema) : ObjectSchema :=
  fold_left (fun o p => match property_for_name o (prop_name p) with
                        | Some _ => update_property (prop_name p) (set_table_column (table_column p)) o
                        | None => o
                        end)
    (persisted_properties other) existing.

Definition copy_table_columns_from (s other : Schema) : Schema :=
  flat_map (fun pair => match pair with
                        | (Some existing, Some other) => [copy_columns existing other]
                        | (Some existing, None) => [existing]
                        | (None, _) => []
                        end)
    (zip_matching s other).

(** ** The usual partition satisfies the contract *)
Lemma split_while_spec {A} (p : A -> bool) l :
  let '(a, b) := split_while p l in
  l = a ++ b /\ Forall (fun x => p x = true) a /\ match b with [] => True | x :: _ => p x = false end.
Proof.
  induction l as [|x l IH]; [by simpl|]. simpl. destruct (p x) eqn:E; [|by simpl; rewrite E].
  destruct (split_while p l) as [a b]. destruct IH as (-> & Ha & Hb). simpl. auto.
Qed.

Lemma filter_partition {A} (p : A -> bool) l : List.filter p l ++ List.filter (fun x => negb (p x)) l ≡ₚ l.
Proof.
  induction l as [|x l IH]; [done|]. simpl. destruct (p x); simpl; [by rewrite IH|].
  by rewrite <- Permutation_middle, IH.
Qed.

Lemma filter_Forall {A} (p : A -> bool) l : Forall (fun x => p x = true) (List.filter p l).
Proof. apply List.Forall_forall. by intros x [_ Hx]%List.filter_In. Qed.

Lemma negb_Forall {A} (p : A -> bool) l :
  Forall (fun x => negb (p x) = true) l -> Forall (fun x => p x = false) l.
Proof. intros Hl. eapply Forall_impl; [exact Hl|]. intros x E. by apply negb_true_iff. Qed.

Lemma swap_partition_spec {A} (p : A -> bool) fuel l :
  (swap_partition p fuel l).1 ++ (swap_partition p fuel l).2 ≡ₚ l /\
  Forall (fun x => p x = true) (swap_partition p fuel l).1 /\
  Forall (fun x => p x = false) (swap_partition p fuel l).2.
Proof.
  revert l. induction fuel as [|fuel IH]; intros l; simpl.
  - split; [apply filter_partition|]. split; [apply filter_Forall|]. apply negb_Forall, filter_Forall.
  - pose proof (split_while_spec p l) as Hs. destruct (split_while p l) as [front rest].
    destruct Hs as (-> & Hf & Hr). destruct rest as [|x mid]; [by rewrite !app_nil_r|].
    pose proof (split_while_spec (fun x => negb (p x)) (rev mid)) as Hs.
    destruct (split_while _ (rev mid)) as [tail rest']. destruct Hs as (Em & Ht & Hy).
    apply negb_Forall in Ht. destruct rest' as [|y mid'].
    + simpl. split; [done|]. split; [done|]. constructor; [done|]. rewrite app_nil_r in Em.
      rewrite <- (rev_involutive mid), Em. by apply Forall_rev.
    + specialize (IH (rev mid')). destruct (swap_partition p fuel (rev mid')) as [a b].
      destruct IH as (Ep & Ha & Hb). cbn [fst snd] in *. split; [|split].
      * rewrite <- (rev_involutive mid), Em, rev_app_distr. cbn [rev].
        rewrite <- !app_assoc. apply Permutation_app_head. simpl.
        rewrite <- Ep, <- !app_assoc. simpl. by rewrite <- !Permutation_middle, Permutation_swap.
      * apply Forall_app. split; [done|]. constructor; [|done]. by apply negb_false_iff.
      * apply Forall_app. split; [done|]. constructor; [done|]. by apply Forall_rev.
Qed.

#[global] Instance swap_std_partition : StdPartition.
Proof.
  refine {| std_partition := fun A p l => swap_partition p (length l) l |}; intros; apply swap_partition_spec.
Defined.

(** The usual implementation moves nothing in front of the first element that
    does not belong. The standard does not promise it, but the order in which
    the changes are applied depends on it. *)
Class PartitionKeepsPrefix `{StdPartition} := {
  std_partition_prefix {A : Type} (p : A -> bool) (l k : list A) : Forall (fun x => p x = true) l ->
    exists rest, (std_partition p (l ++ k)).1 = l ++ rest
}.

Lemma split_while_app {A} (p : A -> bool) l k : Forall (fun x => p x = true) l ->
  split_while p (l ++ k) = (l ++ (split_while p k).1, (split_while p k).2).
Proof.
  induction 1 as [|x l Hx Hl IH]; simpl; [by destruct (split_while p k)|]. by rewrite Hx, IH.
Qed.

#[global] Instance swap_partition_prefix : @PartitionKeepsPrefix swap_std_partition.
Proof.
  constructor. intros A p l k Hl. simpl. destruct (length (l ++ k)) as [|n] eqn:E.
  - destruct l; [|done]. by eexists.
  - cbn [swap_partition]. rewrite split_while_app by done. destruct (split_while p k) as [front rest]. cbn [fst snd].
    destruct rest as [|x mid]; [by eexists|]. destruct (split_while _ (rev mid)) as [tail rest'].
    destruct rest' as [|y mid']; [by eexists|]. destruct (swap_partition p n (rev mid')) as [a b]. cbn [fst].
    rewrite <- app_assoc. by eexists.
Defined.
