(* ===== verification/SchemaValidation.v ===== *)
(** * What a valid schema is

    The flag arithmetic of [PropertyType] on bytes, and the declarative
    description of the schemas [Schema::validate] accepts. *)
From S2P Require Import Prelude.
From S2P Require Import SchemaTypes.
From S2P Require Import Schemas.

(** ** Facts about names, property types and schema lookup

    The two string orders, the flag arithmetic of [PropertyType], and
    [Schema::find] on sorted schemas. *)
(** ** The string orders *)
Lemma char_value_inj sg a b : char_value sg a = char_value sg b -> a = b.
Proof.
  intros E. pose proof (N_ascii_bounded a). pose proof (N_ascii_bounded b).
  rewrite <- (ascii_N_embedding a), <- (ascii_N_embedding b). f_equal.
  unfold char_value in E. destruct sg; cbn [andb] in E; [|lia].
  destruct (Z.leb_spec 128 (Z.of_N (N_of_ascii a))), (Z.leb_spec 128 (Z.of_N (N_of_ascii b))); lia.
Qed.

Lemma compare_irrefl sg s : lexicographical_compare sg s s = false.
Proof. induction s as [|a s IH]; [done|]. simpl. by rewrite Z.ltb_irrefl. Qed.

Lemma compare_trans sg s t u :
  lexicographical_compare sg s t = true -> lexicographical_compare sg t u = true ->
  lexicographical_compare sg s u = true.
Proof.
  revert t u. induction s as [|a s IH]; intros [|b t] [|c u]; simpl; try done.
  destruct (Z.ltb_spec (char_value sg a) (char_value sg b)), (Z.ltb_spec (char_value sg b) (char_value sg a)),
    (Z.ltb_spec (char_value sg b) (char_value sg c)), (Z.ltb_spec (char_value sg c) (char_value sg b)),
    (Z.ltb_spec (char_value sg a) (char_value sg c)), (Z.ltb_spec (char_value sg c) (char_value sg a));
    try done; try lia. apply IH.
Qed.

Lemma compare_total sg s t :
  s = t \/ lexicographical_compare sg s t = true \/ lexicographical_compare sg t s = true.
Proof.
  revert t. induction s as [|a s IH]; intros [|b t]; simpl; auto.
  destruct (Z.ltb_spec (char_value sg a) (char_value sg b)), (Z.ltb_spec (char_value sg b) (char_value sg a));
    auto; try lia.
  assert (a = b) as -> by (apply (char_value_inj sg); lia).
  destruct (IH t) as [->|[E|E]]; auto.
Qed.

Lemma compare_asym sg s t :
  lexicographical_compare sg s t = true -> lexicographical_compare sg t s = false.
Proof.
  intros E. destruct (lexicographical_compare sg t s) eqn:E'; [|done].
  pose proof (compare_trans _ _ _ _ E E') as E2. by rewrite compare_irrefl in E2.
Qed.

(** A name all of whose bytes are below 128. *)
Fixpoint ascii_name (s : string) : bool :=
  match s with
  | EmptyString => true
  | String a s => (N_of_ascii a <? 128)%N && ascii_name s
  end.

Lemma compare_ascii sg s t : ascii_name s = true -> ascii_name t = true ->
  lexicographical_compare sg s t = lexicographical_compare false s t.
Proof.
  revert t. induction s as [|a s IH]; intros [|b t]; [done..|]. cbn [ascii_name].
  intros [Ha Hs]%andb_true_iff [Hb Ht]%andb_true_iff. simpl. rewrite (IH t) by done.
  apply N.ltb_lt in Ha, Hb. enough (forall c, (N_of_ascii c < 128)%N -> char_value sg c = char_value false c) as Hc
    by by rewrite !Hc.
  intros c Hc. unfold char_value. destruct sg; [|done]. cbn [andb].
  destruct (Z.leb_spec 128 (Z.of_N (N_of_ascii c))); [lia|done].
Qed.

#[global] Instance string_le_total : Total string_le.
Proof.
  intros s t. unfold string_le, string_lt. destruct (compare_total false s t) as [->|[E|E]].
  - left. apply compare_irrefl.
  - left. by apply compare_asym.
  - right. by apply compare_asym.
Qed.
#[global] Instance name_le_total : Total name_le.
Proof. intros a b. apply string_le_total. Qed.

Lemma string_le_trans s t u : string_le s t -> string_le t u -> string_le s u.
Proof.
  unfold string_le, string_lt. intros E1 E2. destruct (lexicographical_compare false u s) eqn:E; [|done].
  destruct (compare_total false s t) as [->|[Et|Et]]; [congruence| |congruence].
  pose proof (compare_trans _ _ _ _ E Et). congruence.
Qed.

Lemma string_le_antisym s t : string_le s t -> string_le t s -> s = t.
Proof.
  unfold string_le, string_lt. intros E1 E2. destruct (compare_total false s t) as [->|[E|E]]; congruence.
Qed.

Lemma string_eqb_eq s t : string_eqb s t = true <-> s = t.
Proof. unfold string_eqb. by rewrite bool_decide_eq_true. Qed.
Lemma string_eqb_refl s : string_eqb s s = true.
Proof. by apply string_eqb_eq. Qed.
Lemma string_eqb_neq s t : string_eqb s t = false <-> s <> t.
Proof. unfold string_eqb. by rewrite bool_decide_eq_false. Qed.
Lemma empty_true s : empty s = true <-> s = EmptyString.
Proof. by destruct s. Qed.

(** ** Sorted schemas *)
Definition sorted_schema (s : Schema) : Prop := Sorted.StronglySorted name_le s.

Lemma make_sorted `{StdSort} types : sorted_schema (Schema_make types).
Proof.
  apply Sorted.Sorted_StronglySorted; [|apply std_sort_sorted, _].
  intros a b c. unfold name_le. apply string_le_trans.
Qed.
Lemma make_perm `{StdSort} types : Schema_make types ≡ₚ types.
Proof. apply std_sort_perm. Qed.

(** Strictly increasing names. *)
Definition name_lt (a b : ObjectSchema) : Prop := string_lt (os_name a) (os_name b) = true.

Lemma sorted_distinct_lt s : sorted_schema s -> NoDup (os_name <$> s) -> Sorted.StronglySorted name_lt s.
Proof.
  induction 1 as [|o s Hs IH Ho]; [constructor|]. rewrite fmap_cons. intros [Hn Hnd]%NoDup_cons.
  constructor; [by apply IH|]. apply Forall_forall. intros x Hx.
  assert (name_le o x) as Hle by (by apply (proj1 (Forall_forall _ _) Ho)). unfold name_lt, name_le, string_le in *.
  destruct (compare_total false (os_name o) (os_name x)) as [E|[E|E]]; [|done|unfold string_lt in Hle; congruence].
  destruct Hn. rewrite E. by apply list_elem_of_fmap_2.
Qed.

Lemma sorted_app_right l1 l2 : sorted_schema (l1 ++ l2) -> sorted_schema l2.
Proof. induction l1 as [|o l1 IH]; [done|]. intros Hs. inversion Hs. by apply IH. Qed.

(** ** Looking a class up *)
Section find.
Context {CS : CharSign}.

(** The comparison [find] searches with agrees with the one the schema is
    sorted by. *)
Definition comparable (s : Schema) (name : string) : Prop :=
  char_is_signed = false \/ (ascii_name name = true /\ Forall (fun o => ascii_name (os_name o) = true) s).

Lemma comparable_lt s name o : comparable s name -> o ∈ s ->
  StringData_lt (os_name o) name = string_lt (os_name o) name.
Proof.
  unfold StringData_lt, string_lt. intros [->|[Hn Hs]] Ho; [done|].
  apply compare_ascii; [|done]. by apply (proj1 (Forall_forall _ _) Hs).
Qed.

Lemma sorted_split s name : sorted_schema s -> exists l1 l2, s = l1 ++ l2 /\
  Forall (fun o => string_lt (os_name o) name = true) l1 /\ Forall (fun o => string_lt (os_name o) name = false) l2.
Proof.
  induction 1 as [|o s Hs (l1 & l2 & -> & H1 & H2) Ho]; [by exists [], []|].
  destruct (string_lt (os_name o) name) eqn:E.
  - exists (o :: l1), l2. auto.
  - exists [], (o :: l1 ++ l2). split; [done|]. split; [done|]. constructor; [done|].
    eapply Forall_impl; [exact Ho|]. intros x Hx. unfold name_le, string_le in Hx.
    destruct (string_lt (os_name x) name) eqn:Ex; [|done]. exfalso.
    destruct (compare_total false (os_name o) (os_name x)) as [E'|[E'|E']]; unfold string_lt in *; [congruence| |congruence].
    pose proof (compare_trans _ _ _ _ E' Ex). congruence.
Qed.

(** [find] stops at the class with the name, or at the end when there is
    none. *)
Lemma schema_find_spec s name : sorted_schema s -> comparable s name ->
  match s !! find s name with
  | Some o => os_name o = name
  | None => find s name = length s /\ Forall (fun o => os_name o <> name) s
  end.
Proof.
  intros Hs Hc. destruct (sorted_split s name Hs) as (l1 & l2 & -> & H1 & H2).
  assert (lower_bound (fun o => StringData_lt (os_name o) name) 0 (l1 ++ l2) = length l1) as El.
  { apply lower_bound_app; [lia| |]; apply Forall_forall; intros o Ho; rewrite (comparable_lt (l1 ++ l2) name o Hc).
    - by apply (proj1 (Forall_forall _ _) H1).
    - apply elem_of_app. by left.
    - by apply (proj1 (Forall_forall _ _) H2).
    - apply elem_of_app. by right. }
  assert (Forall (fun o => os_name o <> name) l1) as Hl1.
  { eapply Forall_impl; [exact H1|]. intros o Ho Eo. cbv beta in Ho. rewrite Eo in Ho. unfold string_lt in Ho. by rewrite compare_irrefl in Ho. }
  assert ((l1 ++ l2) !! length l1 = l2 !! O) as Ek by (by rewrite lookup_app_r, Nat.sub_diag by lia).
  unfold find. cbv zeta. rewrite El, Ek. destruct l2 as [|o l2]; cbn [lookup list_lookup] in *.
  - rewrite Ek, app_nil_r. done.
  - destruct (string_eqb (os_name o) name) eqn:Eo.
    + rewrite Ek. by apply string_eqb_eq.
    + rewrite lookup_ge_None_2 by done. split; [done|]. apply Forall_app. split; [done|].
      apply string_eqb_neq in Eo. constructor; [done|]. apply Forall_cons in H2 as [Hlt _].
      apply sorted_app_right in Hs. inversion Hs as [|? ? _ Hle]; subst.
      eapply Forall_impl; [exact Hle|]. intros x Hx Ex. unfold name_le, string_le in Hx. rewrite Ex in Hx.
      destruct (compare_total false (os_name o) name) as [E|[E|E]]; unfold string_lt in *; congruence.
Qed.

Lemma find_object_spec s name : sorted_schema s -> comparable s name ->
  match find_object s name with
  | Some o => o ∈ s /\ os_name o = name
  | None => Forall (fun o => os_name o <> name) s
  end.
Proof.
  intros Hs Hc. pose proof (schema_find_spec s name Hs Hc) as Hf. unfold find_object.
  destruct (s !! find s name) as [o|] eqn:E; [|by destruct Hf]. split; [by eapply list_elem_of_lookup_2|done].
Qed.
End find.

(** ** What a valid schema is *)
(** ** Property types are bytes *)
Definition byte (a : Z) : Prop := 0 <= a < 256.

Definition bytes : list Z := Z.of_nat <$> seq 0 256.

Lemma byte_check (f : Z -> bool) : forallb f bytes = true -> forall a, byte a -> f a = true.
Proof.
  intros Hf a Ha. rewrite List.forallb_forall in Hf. apply Hf. apply list_elem_of_In.
  apply list_elem_of_fmap. exists (Z.to_nat a). split; [unfold byte in Ha; lia|]. apply elem_of_seq. unfold byte in Ha. lia.
Qed.

Definition flag (b : bool) (v : Z) : Z := if b then v else 0.

Lemma pt_split a : byte a ->
  a = pt_base a + flag (is_nullable a) PT_Nullable + flag (is_array a) PT_Array /\ 0 <= pt_base a < 64.
Proof.
  intros Ha.
  assert ((a =? pt_base a + flag (is_nullable a) PT_Nullable + flag (is_array a) PT_Array)
          && (0 <=? pt_base a) && (pt_base a <? 64) = true) as E.
  { apply (byte_check (fun a => (a =? pt_base a + flag (is_nullable a) PT_Nullable + flag (is_array a) PT_Array)
                                && (0 <=? pt_base a) && (pt_base a <? 64))); [by vm_compute|done]. }
  apply andb_true_iff in E as [[E1 E2]%andb_true_iff E3]. lia.
Qed.

(** The type with base [b] and the given flags. *)
Definition pt_make (b : Z) (nullable array : bool) : PropertyType := b + flag nullable PT_Nullable + flag array PT_Array.

Definition reads_back (b : Z) (n r : bool) : bool :=
  let a := pt_make b n r in
  (pt_base a =? b) && Bool.eqb (is_nullable a) n && Bool.eqb (is_array a) r && (0 <=? a) && (a <? 256).

Lemma pt_make_spec b n r : 0 <= b < 64 ->
  pt_base (pt_make b n r) = b /\ is_nullable (pt_make b n r) = n /\ is_array (pt_make b n r) = r /\ byte (pt_make b n r).
Proof.
  intros Hb.
  assert (reads_back b n r = true) as E.
  { enough (forallb (fun b => (64 <=? b) || reads_back b n r) bytes = true) as Hf.
    { assert (byte b) as Hbyte by (unfold byte; lia).
      pose proof (byte_check _ Hf b Hbyte) as E. apply orb_true_iff in E as [E|E]; [lia|done]. }
    destruct n, r; by vm_compute. }
  unfold reads_back in E. apply andb_true_iff in E as [[[[E1 E2]%andb_true_iff E3]%andb_true_iff E4]%andb_true_iff E5].
  apply Bool.eqb_prop in E2, E3. unfold byte. repeat split; try done; lia.
Qed.

Lemma pt_make_eta a : byte a -> a = pt_make (pt_base a) (is_nullable a) (is_array a).
Proof. intros Ha. by apply pt_split. Qed.

Lemma pt_operations a : byte a ->
  pt_or a PT_Nullable = pt_make (pt_base a) true (is_array a) /\
  pt_and a (pt_not PT_Nullable) = pt_make (pt_base a) false (is_array a) /\
  pt_or a PT_Array = pt_make (pt_base a) (is_nullable a) true /\
  pt_and a (pt_not PT_Flags) = pt_make (pt_base a) false false.
Proof.
  intros Ha.
  assert ((pt_or a PT_Nullable =? pt_make (pt_base a) true (is_array a))
          && (pt_and a (pt_not PT_Nullable) =? pt_make (pt_base a) false (is_array a))
          && (pt_or a PT_Array =? pt_make (pt_base a) (is_nullable a) true)
          && (pt_and a (pt_not PT_Flags) =? pt_make (pt_base a) false false) = true) as E.
  { apply (byte_check (fun a => (pt_or a PT_Nullable =? pt_make (pt_base a) true (is_array a))
          && (pt_and a (pt_not PT_Nullable) =? pt_make (pt_base a) false (is_array a))
          && (pt_or a PT_Array =? pt_make (pt_base a) (is_nullable a) true)
          && (pt_and a (pt_not PT_Flags) =? pt_make (pt_base a) false false))); [by vm_compute|done]. }
  apply andb_true_iff in E as [[[E1 E2]%andb_true_iff E3]%andb_true_iff E4]. lia.
Qed.

Lemma pt_eqb_base a b : pt_eqb a b = true <-> pt_base a = pt_base b.
Proof. unfold pt_eqb. apply Z.eqb_eq. Qed.
Lemma pt_eqb_false a b : pt_eqb a b = false <-> pt_base a <> pt_base b.
Proof. unfold pt_eqb. apply Z.eqb_neq. Qed.

(** ** Valid schemas *)
Section valid.
Context {CS : CharSign}.

Record valid_property (s : Schema) (object_name : string) (p : Property) : Prop := {
  vp_linking : pt_base (prop_type p) = PT_LinkingObjects ->
    is_array (prop_type p) = true /\ is_nullable (prop_type p) = false /\
    link_origin_property_name p <> EmptyString /\
    exists o origin, o ∈ s /\ os_name o = object_type p /\
      property_for_name o (link_origin_property_name p) = Some origin /\
      pt_base (prop_type origin) = PT_Object /\ object_type origin = object_name;
  vp_object : pt_base (prop_type p) = PT_Object ->
    is_array (prop_type p) = negb (is_nullable (prop_type p)) /\ exists o, o ∈ s /\ os_name o = object_type p;
  vp_value : pt_base (prop_type p) <> PT_Object -> pt_base (prop_type p) <> PT_LinkingObjects ->
    object_type p = EmptyString;
  vp_origin : pt_base (prop_type p) <> PT_LinkingObjects -> link_origin_property_name p = EmptyString;
  vp_indexed : is_indexed p = true -> pt_base (prop_type p) ∈ [PT_Int; PT_Bool; PT_Date; PT_String];
  vp_primary : is_primary p = true -> pt_base (prop_type p) ∈ [PT_Int; PT_String]
}.

Definition primaries (l : list Property) : nat := length (List.filter is_primary l).

Definition all_properties (o : ObjectSchema) : list Property := persisted_properties o ++ computed_properties o.

Record valid_object (s : Schema) (o : ObjectSchema) : Prop := {
  vo_properties : Forall (valid_property s (os_name o)) (all_properties o);
  vo_primaries : (primaries (all_properties o) <= 1)%nat;
  vo_key : primary_key o <> EmptyString ->
    (exists p, p ∈ all_properties o /\ is_primary p = true) \/ (exists p, primary_key_property o = Some p)
}.

Definition valid_schema (s : Schema) : Prop := NoDup (os_name <$> s) /\ Forall (valid_object s) s.
End valid.

(** ** The checks one by one *)
Lemma if_nil {A} (b : bool) (x : A) : (if b then [x] else []) = [] <-> b = false.
Proof. by destruct b. Qed.
Lemma if2_nil {A} (b c : bool) (x y : A) :
  (if b then [x] else if c then [y] else []) = [] <-> b = false /\ c = false.
Proof. destruct b, c; split; try done; by intros []. Qed.
Lemma app_nil_iff {A} (l k : list A) : l ++ k = [] <-> l = [] /\ k = [].
Proof. split; [apply app_eq_nil|by intros [-> ->]]. Qed.

Section checks.
Context {CS : CharSign}.

Lemma find_object_Some s name o : sorted_schema s -> NoDup (os_name <$> s) -> comparable s name ->
  find_object s name = Some o <-> o ∈ s /\ os_name o = name.
Proof.
  intros Hs Hnd Hc. pose proof (find_object_spec s name Hs Hc) as Hf. split.
  - intros E. by rewrite E in Hf.
  - intros [Ho En]. destruct (find_object s name) as [o'|].
    + destruct Hf as [Ho' En']. f_equal. apply (NoDup_key_inj os_name s); [done..|congruence].
    + by destruct (proj1 (Forall_forall _ _) Hf o Ho).
Qed.

Lemma validate_kind_nil n p : validate_kind n p = [] <->
  (pt_base (prop_type p) = PT_LinkingObjects -> is_array (prop_type p) = true /\ is_nullable (prop_type p) = false) /\
  (pt_base (prop_type p) = PT_Object -> is_array (prop_type p) = negb (is_nullable (prop_type p))).
Proof.
  unfold validate_kind. rewrite app_nil_iff, if_nil, if2_nil. unfold type_is_nullable, pt_eqb.
  change (pt_base PT_LinkingObjects) with PT_LinkingObjects. change (pt_base PT_Object) with PT_Object.
  destruct (is_array (prop_type p)), (is_nullable (prop_type p)),
    (Z.eqb_spec (pt_base (prop_type p)) PT_LinkingObjects) as [El|], (Z.eqb_spec (pt_base (prop_type p)) PT_Object) as [Eo|];
    try (rewrite El in Eo; discriminate Eo); simpl; intuition congruence.
Qed.

Lemma validate_primary_nil n p prim : (validate_primary n p prim).2 = [] <->
  (is_primary p = true -> pt_base (prop_type p) ∈ [PT_Int; PT_String] /\ prim = None).
Proof.
  unfold validate_primary. destruct (is_primary p); [|done]. cbn [snd]. rewrite app_nil_iff, if_nil.
  rewrite !elem_of_cons, elem_of_nil, andb_false_iff, !negb_false_iff, !pt_eqb_base.
  change (pt_base PT_Int) with PT_Int. change (pt_base PT_String) with PT_String.
  destruct prim; split; [intros []; done|intros H0; by destruct (H0 eq_refl)|intros []; intuition|intros H0; by intuition].
Qed.

Lemma validate_index_nil n p : validate_index_and_origin n p = [] <->
  (is_indexed p = true -> pt_base (prop_type p) ∈ [PT_Int; PT_Bool; PT_Date; PT_String]) /\
  (pt_base (prop_type p) <> PT_LinkingObjects -> link_origin_property_name p = EmptyString) /\
  (pt_base (prop_type p) = PT_LinkingObjects -> link_origin_property_name p <> EmptyString).
Proof.
  unfold validate_index_and_origin. rewrite app_nil_iff, if_nil, if2_nil. unfold type_is_indexable.
  rewrite !elem_of_cons, elem_of_nil, !andb_false_iff, !negb_false_iff, !orb_true_iff, !pt_eqb_base, pt_eqb_false.
  change (pt_base PT_Int) with PT_Int. change (pt_base PT_String) with PT_String.
  change (pt_base PT_Bool) with PT_Bool. change (pt_base PT_Date) with PT_Date.
  change (pt_base PT_LinkingObjects) with PT_LinkingObjects.
  assert (empty (link_origin_property_name p) = false <-> link_origin_property_name p <> EmptyString) as He
    by (by destruct (link_origin_property_name p)).
  rewrite empty_true, He. destruct (is_indexed p), (Z.eq_dec (pt_base (prop_type p)) PT_LinkingObjects),
    (decide (link_origin_property_name p = EmptyString)); intuition congruence.
Qed.

Lemma validate_origin_nil it n p : validate_origin it n p = [] <->
  exists origin, property_for_name it (link_origin_property_name p) = Some origin /\
    pt_base (prop_type origin) = PT_Object /\ object_type origin = n.
Proof.
  unfold validate_origin. destruct (property_for_name it _) as [origin|].
  - destruct (pt_eqb (prop_type origin) PT_Object) eqn:E1; cbn [negb].
    + apply pt_eqb_base in E1. destruct (string_eqb (object_type origin) n) eqn:E2; cbn [negb].
      * apply string_eqb_eq in E2. split; [by eauto|done].
      * apply string_eqb_neq in E2. split; [done|]. by intros (? & [= <-] & _ & ?).
    + apply pt_eqb_false in E1. split; [done|]. by intros (? & [= <-] & ? & _).
  - split; [done|]. by intros (? & ? & _).
Qed.

Lemma validate_link_nil s n p : sorted_schema s -> NoDup (os_name <$> s) -> comparable s (object_type p) ->
  validate_link s n p = [] <->
  (pt_base (prop_type p) = PT_LinkingObjects ->
     exists o origin, o ∈ s /\ os_name o = object_type p /\
      property_for_name o (link_origin_property_name p) = Some origin /\
      pt_base (prop_type origin) = PT_Object /\ object_type origin = n) /\
  (pt_base (prop_type p) = PT_Object -> exists o, o ∈ s /\ os_name o = object_type p) /\
  (pt_base (prop_type p) <> PT_Object -> pt_base (prop_type p) <> PT_LinkingObjects -> object_type p = EmptyString).
Proof.
  intros Hs Hnd Hc. unfold validate_link, pt_eqb.
  change (pt_base PT_LinkingObjects) with PT_LinkingObjects. change (pt_base PT_Object) with PT_Object.
  pose proof (fun o => find_object_Some s (object_type p) o Hs Hnd Hc) as Hf.
  destruct (Z.eqb_spec (pt_base (prop_type p)) PT_Object) as [Eo|Eo].
  - assert (pt_base (prop_type p) <> PT_LinkingObjects) as El by (by rewrite Eo).
    destruct (Z.eqb_spec (pt_base (prop_type p)) PT_LinkingObjects) as [?|_]; [done|]. cbn [negb andb].
    destruct (find_object s (object_type p)) as [o|] eqn:E.
    + pose proof (proj1 (Hf o) eq_refl). split; [|done]. intros _. split; [done|]. split; [by eauto|done].
    + split; [done|]. intros (_ & (o & Ho)%(fun f => f Eo) & _). apply Hf in Ho. done.
  - destruct (Z.eqb_spec (pt_base (prop_type p)) PT_LinkingObjects) as [El|El]; cbn [negb andb].
    + destruct (find_object s (object_type p)) as [o|] eqn:E.
      * pose proof (proj1 (Hf o) eq_refl) as [Ho En]. rewrite validate_origin_nil. split.
        -- intros (origin & Hor). split; [|done]. intros _. exists o, origin. tauto.
        -- intros [(o' & origin & Ho' & En' & Hor)%(fun f => f El) _]. exists origin.
           assert (Some o = Some o') as [= ->] by (apply Hf; auto). done.
      * split; [done|]. intros ((o & origin & Ho & En & _)%(fun f => f El) & _). assert (None = Some o) by (apply Hf; auto). done.
    + rewrite if_nil, negb_false_iff, empty_true. intuition.
Qed.
End checks.

(** ** All the checks of a schema *)
Section validate.
Context {CS : CharSign}.
Variable s : Schema.
Hypothesis Hs : sorted_schema s.

Lemma valid_property_iff n p : NoDup (os_name <$> s) -> comparable s (object_type p) ->
  valid_property s n p <->
  validate_kind n p = [] /\ (is_primary p = true -> pt_base (prop_type p) ∈ [PT_Int; PT_String]) /\
  validate_index_and_origin n p = [] /\ validate_link s n p = [].
Proof.
  intros Hnd Hc. rewrite validate_kind_nil, validate_index_nil, (validate_link_nil s n p) by done. split.
  - intros [Hl Ho Hv Hor Hi Hp]. split; [|split; [done|split]].
    + split; [intros E; by destruct (Hl E) as (? & ? & _)|intros E; by destruct (Ho E)].
    + split; [done|]. split; [done|]. intros E. by destruct (Hl E) as (_ & _ & ? & _).
    + split; [intros E; by destruct (Hl E) as (_ & _ & _ & ?)|]. split; [|done]. intros E. by destruct (Ho E).
  - intros ([Hk1 Hk2] & Hp & (Hi & Ho1 & Ho2) & Hl1 & Hl2 & Hl3). constructor; auto.
    intros E. destruct (Hk1 E). auto.
Qed.

Definition seen (prim : option Property) : nat := match prim with Some _ => 1 | None => 0 end.

(** One pass of [validate_property] over some properties. *)
Lemma fold_validate n l prim exceptions : NoDup (os_name <$> s) ->
  Forall (fun p => comparable s (object_type p)) l ->
  let r := fold_left (validate_property s n) l (prim, exceptions) in
  (r.2 = [] <-> exceptions = [] /\ Forall (valid_property s n) l /\ (l = [] \/ seen prim + primaries l <= 1)%nat) /\
  (r.1 = None <-> prim = None /\ primaries l = O).
Proof.
  intros Hnd Hc. revert prim exceptions. induction Hc as [|p l Hp Hl IH]; intros prim exceptions; simpl.
  { split; [|by intuition]. split; [by auto|]. by intros (? & _). }
  pose proof (valid_property_iff n p Hnd Hp) as Hv. pose proof (validate_primary_nil n p prim) as Hk.
  destruct (validate_primary n p prim) as [prim' ks] eqn:Ep.
  destruct (IH prim' (exceptions ++ validate_kind n p ++ ks ++ validate_index_and_origin n p ++ validate_link s n p))
    as [IH2 IH1]. clear IH. cbn [snd fst] in *. rewrite IH2, IH1, !app_nil_iff, Forall_cons, Hv, Hk.
  unfold validate_primary in Ep. unfold primaries in *. cbn [List.filter].
  destruct (is_primary p) eqn:Epr; inversion Ep; subst prim'; cbn [seen length].
  - split; [|split; [by intros []|by intros [_ ?]]]. split.
    + intros ((-> & K1 & K2 & K3 & K4) & Hf & Hle). destruct (K2 eq_refl) as [? ->]. split; [done|]. split; [tauto|].
      right. cbn [seen]. destruct Hle as [-> |?]; simpl; lia.
    + intros (-> & ((? & ? & ? & ?) & ?) & [|Hle]); [done|]. assert (prim = None) as -> by (destruct prim; simpl in Hle; [lia|done]).
      cbn [seen] in Hle. repeat split; auto.
  - split; [|done]. split.
    + intros ((-> & ? & ? & ? & ?) & ? & Hle). split; [done|]. split; [by intuition|]. right.
      destruct Hle as [-> |?]; [|done]. simpl. destruct prim; simpl; lia.
    + intros (-> & ((? & ? & ? & ?) & ?) & [|Hle]); [done|]. split_and!; by auto.
Qed.

Definition links_comparable (o : ObjectSchema) : Prop :=
  Forall (fun p => comparable s (object_type p)) (all_properties o).

Lemma primaries_app l k : primaries (l ++ k) = (primaries l + primaries k)%nat.
Proof. unfold primaries. by rewrite List.filter_app, length_app. Qed.

Lemma primaries_pos l : primaries l <> O <-> exists p, p ∈ l /\ is_primary p = true.
Proof.
  unfold primaries. induction l as [|p l IH]; simpl.
  - split; [done|]. by intros (p & ?%elem_of_nil & _).
  - destruct (is_primary p) eqn:E; simpl.
    + split; [|done]. intros _. exists p. split; [by left|done].
    + rewrite IH. split; intros (q & Hq & Eq); exists q; (split; [|done]); [by right|].
      apply elem_of_cons in Hq as [->|?]; [congruence|done].
Qed.

Lemma validate_object_nil exceptions o : NoDup (os_name <$> s) -> links_comparable o ->
  validate_object s exceptions o = [] <-> exceptions = [] /\ valid_object s o.
Proof.
  intros Hnd Hc. unfold links_comparable, all_properties in Hc.
  unfold validate_object.
  pose proof (fold_validate (os_name o) (all_properties o) None exceptions Hnd Hc) as [E2 E1].
  unfold all_properties in E1, E2. rewrite fold_left_app in E1, E2.
  destruct (fold_left _ (computed_properties o) _) as [prim ex]. cbn [fst snd seen] in E1, E2.
  assert (primaries (all_properties o) = O <-> ~ exists p, p ∈ all_properties o /\ is_primary p = true) as Hpos
    by (rewrite <- primaries_pos; lia).
  assert (all_properties o = [] \/ (primaries (all_properties o) <= 1)%nat <-> (primaries (all_properties o) <= 1)%nat)
    as Hone by (split; [intros [->|?]; [by apply le_S|done]|by right]).
  unfold all_properties in Hone. cbn [Nat.add] in E2. rewrite Hone in E2. fold (all_properties o) in *.
  destruct (empty (primary_key o)) eqn:Ek; cbn [negb andb].
  - apply empty_true in Ek. rewrite E2. split.
    + intros (-> & Hv & Hle). split; [done|]. constructor; [done..|by rewrite Ek].
    + intros (-> & [Hv Hle _]). done.
  - assert (primary_key o <> EmptyString) as Hk by (intros E; by rewrite E in Ek).
    destruct (decide (prim = None)) as [En|En], (decide (primary_key_property o = None)) as [Ep|Ep];
      rewrite ?bool_decide_eq_true_2, ?bool_decide_eq_false_2 by done; cbn [andb].
    + split; [intros [_ ?]%app_nil_iff; done|]. intros (_ & [_ _ [?|[p Hp]]%(fun f => f Hk)]); [|congruence].
      apply E1 in En as [_ En]. by apply Hpos in En.
    + rewrite E2. split.
      * intros (-> & Hv & Hle). split; [done|]. constructor; [done..|]. intros _. right.
        destruct (primary_key_property o); [by eauto|done].
      * intros (-> & [Hv Hle _]). done.
    + rewrite E2. split.
      * intros (-> & Hv & Hle). split; [done|]. constructor; [done..|]. intros _. left. apply primaries_pos.
        intros E. by apply En, E1.
      * intros (-> & [Hv Hle _]). done.
    + rewrite E2. split.
      * intros (-> & Hv & Hle). split; [done|]. constructor; [done..|]. intros _. left. apply primaries_pos.
        intros E. by apply En, E1.
      * intros (-> & [Hv Hle _]). done.
Qed.
End validate.
