(* ===== verification/SchemaDiff.v ===== *)
(** * What comparing two schemas produces

    [zip_matching] pairs classes by name, and [Schema::compare] lists, in an
    order the standard library partly chooses, exactly the differences class by
    class. *)
From S2P Require Import Prelude.
From S2P Require Import SchemaTypes.
From S2P Require Import Schemas.
From S2P Require Import SchemaValidation.

Abbreviation by_name := (Sorted.StronglySorted name_lt).

(** The class with a name, without searching by order. *)
Definition class_named (s : Schema) (name : string) : option ObjectSchema :=
  List.find (fun o => string_eqb (os_name o) name) s.

Lemma class_named_Some s name o : class_named s name = Some o -> o ∈ s /\ os_name o = name.
Proof.
  intros E. apply List.find_some in E as [Ho En]. apply string_eqb_eq in En. by apply list_elem_of_In in Ho.
Qed.

Lemma class_named_None s name : class_named s name = None <-> forall o, o ∈ s -> os_name o <> name.
Proof.
  unfold class_named. split.
  - intros E o Ho. apply list_elem_of_In in Ho. pose proof (List.find_none _ _ E o Ho) as Hn. by apply string_eqb_neq.
  - intros Hn. destruct (List.find _ s) as [o|] eqn:E; [|done]. by apply class_named_Some in E as [Ho ?]; destruct (Hn o Ho).
Qed.

Lemma name_lt_irrefl o : ~ name_lt o o.
Proof. unfold name_lt, string_lt. by rewrite compare_irrefl. Qed.
Lemma name_lt_neq a b : name_lt a b -> os_name a <> os_name b.
Proof. unfold name_lt, string_lt. intros Hlt E. rewrite E in Hlt. by rewrite compare_irrefl in Hlt. Qed.
Lemma name_lt_trans a b c : name_lt a b -> name_lt b c -> name_lt a c.
Proof. unfold name_lt. apply compare_trans. Qed.

Lemma by_name_NoDup s : by_name s -> NoDup (os_name <$> s).
Proof.
  induction 1 as [|o s Hs IH Ho]; [constructor|]. rewrite fmap_cons. constructor; [|done].
  intros (x & Ex & Hx)%list_elem_of_fmap. apply (proj1 (Forall_forall _ _) Ho), name_lt_neq in Hx. done.
Qed.

Lemma class_named_in s o : by_name s -> o ∈ s -> class_named s (os_name o) = Some o.
Proof.
  intros Hs Ho. destruct (class_named s (os_name o)) as [o'|] eqn:E.
  - apply class_named_Some in E as [Ho' En]. f_equal. apply (NoDup_key_inj os_name s); [by apply by_name_NoDup|done..].
  - by destruct (proj1 (class_named_None _ _) E o Ho).
Qed.

(** ** Pairing the classes *)
Definition unmatched (a : Schema) (y : ObjectSchema) : bool :=
  match class_named a (os_name y) with None => true | Some _ => false end.

Definition pairs_by_name (a b : Schema) : list (option ObjectSchema * option ObjectSchema) :=
  ((fun x => (Some x, class_named b (os_name x))) <$> a)
  ++ ((fun y => (None, Some y)) <$> List.filter (unmatched a) b).

Lemma pairs_ext (a b b' : Schema) : (forall x, x ∈ a -> class_named b (os_name x) = class_named b' (os_name x)) ->
  ((fun x => (Some x, class_named b (os_name x))) <$> a) = ((fun x => (Some x, class_named b' (os_name x))) <$> a).
Proof. intros E. apply list_fmap_ext. intros i x Hx. f_equal. apply E. by eapply list_elem_of_lookup_2. Qed.

Lemma filter_ext_elem {A} (f g : A -> bool) l : (forall x, x ∈ l -> f x = g x) -> List.filter f l = List.filter g l.
Proof.
  intros E. induction l as [|x l IH]; [done|]. simpl. rewrite (E x) by by left.
  rewrite IH; [done|]. intros y Hy. apply E. by right.
Qed.

Lemma class_named_above s y name : Forall (name_lt y) s -> name = os_name y \/ string_lt name (os_name y) = true ->
  class_named s name = None.
Proof.
  intros Hs Hy. apply class_named_None. intros o Ho E. pose proof (proj1 (Forall_forall _ _) Hs o Ho) as Hlt.
  unfold name_lt, string_lt in *. rewrite E in Hlt. destruct Hy as [->|Hy]; [by rewrite compare_irrefl in Hlt|].
  pose proof (compare_trans _ _ _ _ Hlt Hy) as Hc. by rewrite compare_irrefl in Hc.
Qed.

Lemma class_named_cons y s name : os_name y <> name -> class_named (y :: s) name = class_named s name.
Proof. intros Hy. unfold class_named. cbn [List.find]. apply string_eqb_neq in Hy. by rewrite Hy. Qed.

Lemma zip_matching_pairs a b : by_name a -> by_name b -> zip_matching a b ≡ₚ pairs_by_name a b.
Proof.
  intros Ha. revert b. induction Ha as [|x a Ha IHa Hx]; intros b Hb.
  { unfold pairs_by_name. rewrite fmap_nil. cbn [app].
    induction Hb as [|y b Hb IHb Hy]; [done|]. cbn [zip_matching List.filter]. by rewrite IHb. }
  induction Hb as [|y b Hb IHb Hy].
  { cbn [zip_matching]. rewrite (IHa []) by constructor. unfold pairs_by_name. by rewrite fmap_cons. }
  assert (forall x', x' ∈ a -> name_lt x x') as Hx' by (by apply Forall_forall).
  assert (forall y', y' ∈ b -> name_lt y y') as Hy' by (by apply Forall_forall).
  cbn [zip_matching]. destruct (string_eqb (os_name x) (os_name y)) eqn:Exy.
  - apply string_eqb_eq in Exy. rewrite (IHa b) by done. unfold pairs_by_name. rewrite fmap_cons. cbn [List.filter].
    assert (unmatched (x :: a) y = false) as -> by (unfold unmatched, class_named; cbn [List.find]; by rewrite Exy, string_eqb_refl).
    assert (class_named (y :: b) (os_name x) = Some y) as -> by (unfold class_named; cbn [List.find]; by rewrite Exy, string_eqb_refl).
    cbn [app]. apply perm_skip. apply reflexive_eq. f_equal.
    + apply pairs_ext. intros x' Hin. symmetry. apply class_named_cons. rewrite <- Exy. by apply name_lt_neq, Hx'.
    + f_equal. apply filter_ext_elem. intros y' Hin. unfold unmatched. symmetry.
      rewrite class_named_cons; [done|]. rewrite Exy. by apply name_lt_neq, Hy'.
  - apply string_eqb_neq in Exy. destruct (string_lt (os_name x) (os_name y)) eqn:Elt.
    + rewrite (IHa (y :: b)) by (by constructor). unfold pairs_by_name. rewrite fmap_cons.
      rewrite (class_named_cons y b (os_name x)) by congruence. rewrite (class_named_above b y) by auto.
      cbn [app]. apply perm_skip. apply reflexive_eq. f_equal. f_equal. apply filter_ext_elem. intros y' Hin.
      unfold unmatched. symmetry. rewrite class_named_cons; [done|]. 
      apply elem_of_cons in Hin as [->|Hin]; [done|]. apply name_lt_neq. eapply name_lt_trans; [exact Elt|by apply Hy'].
    + assert (name_lt y x) as Hyx.
      { unfold name_lt, string_lt in *. destruct (compare_total false (os_name y) (os_name x)) as [E|[E|E]]; congruence. }
      rewrite IHb. unfold pairs_by_name. cbn [List.filter].
      assert (unmatched (x :: a) y = true) as ->.
      { unfold unmatched. rewrite class_named_cons by done. rewrite (class_named_above a x); [done..|]. by right. }
      rewrite (fmap_cons _ y). rewrite Permutation_middle. apply Permutation_app; [|done]. apply reflexive_eq.
      apply pairs_ext. intros x' Hin. symmetry. apply class_named_cons.
      apply elem_of_cons in Hin as [->|Hin]; [congruence|]. apply name_lt_neq. eapply name_lt_trans; [exact Hyx|by apply Hx'].
Qed.

(** ** The shape of the list of changes *)
Definition is_initial (sc : SchemaChange) : bool := match sc with AddInitialProperties _ => true | _ => false end.

(** The differences, class by class. *)
Definition class_differences (existing : Schema) (target : ObjectSchema) : list SchemaChange :=
  match class_named existing (os_name target) with
  | Some e => object_changes e target
  | None => [AddTable target; AddInitialProperties target]
  end.

Definition table_removals (existing target_schema : Schema) : list SchemaChange :=
  RemoveTable <$> List.filter (unmatched target_schema) existing.

Definition differences (existing target_schema : Schema) (include_table_removals : bool) : list SchemaChange :=
  flat_map (class_differences existing) target_schema
  ++ (if include_table_removals then table_removals existing target_schema else []).

(** Changes that touch no column go first, then the removals from the last
    column to the first, then columns of new tables. *)
Record ordered (changes : list SchemaChange) (kept removals initial : list SchemaChange) : Prop := {
  o_split : changes = kept ++ removals ++ initial;
  o_kept : Forall (fun sc => is_not_remove_property sc = true) kept;
  o_removals : Forall (fun sc => is_not_remove_property sc = false) removals;
  o_sorted : Sorted.Sorted column_ge removals;
  o_initial : Forall (fun sc => is_initial sc = true) initial
}.

Definition pair_changes (pair : option ObjectSchema * option ObjectSchema) : list SchemaChange :=
  match pair with
  | (Some t, Some e) => object_changes e t
  | (Some t, None) => [AddInitialProperties t]
  | _ => []
  end.

Section shape.
Context {HSort : StdSort} {HPart : StdPartition}.

Lemma fold_column_changes pairs changes kept removals initial :
  ordered changes kept removals initial ->
  exists kept' removals' initial', ordered (fold_left column_changes pairs changes) kept' removals' initial' /\
    fold_left column_changes pairs changes ≡ₚ changes ++ flat_map pair_changes pairs.
Proof.
  revert changes kept removals initial. induction pairs as [|[[t|] [e|]] pairs IH]; intros changes kept removals initial Ho.
  - exists kept, removals, initial. split; [done|]. by rewrite app_nil_r.
  - simpl. set (all := changes ++ object_changes e t).
    assert (compare_objects e t changes =
      (std_partition is_not_remove_property all).1 ++ std_sort column_ge (std_partition is_not_remove_property all).2) as Ec
      by (unfold compare_objects, all; by destruct (std_partition _ _)).
    destruct (IH (compare_objects e t changes) (std_partition is_not_remove_property all).1
      (std_sort column_ge (std_partition is_not_remove_property all).2) []) as (k & r & i & Ho' & Ep).
    { constructor.
      - by rewrite Ec, app_nil_r.
      - apply std_partition_first.
      - rewrite std_sort_perm. apply std_partition_second.
      - apply std_sort_sorted, _.
      - constructor. }
    exists k, r, i. split; [done|]. rewrite Ep, Ec, std_sort_perm, std_partition_perm. unfold all. by rewrite <- app_assoc.
  - simpl. destruct Ho as [-> Hk Hr Hs Hi].
    destruct (IH ((kept ++ removals ++ initial) ++ [AddInitialProperties t]) kept removals (initial ++ [AddInitialProperties t]))
      as (k & r & i & Ho' & Ep).
    { constructor; [by rewrite <- !app_assoc|done..|]. apply Forall_app. split; [done|]. by repeat constructor. }
    exists k, r, i. split; [done|]. by rewrite Ep, <- !app_assoc.
  - simpl. by apply (IH _ kept removals initial).
  - simpl. by apply (IH _ kept removals initial).
Qed.

Lemma table_changes_kept inc pairs : Forall (fun sc => is_not_remove_property sc = true) (flat_map (table_change inc) pairs).
Proof.
  induction pairs as [|[[t|] [e|]] pairs IH]; simpl; [done..| | |done]; [by constructor|].
  destruct inc; simpl; [by constructor|done].
Qed.

Lemma flat_map_perm {A B} (f : A -> list B) l k : l ≡ₚ k -> flat_map f l ≡ₚ flat_map f k.
Proof.
  induction 1 as [|x l k _ IH|x y l|? ? ? _ IH1 _ IH2]; simpl.
  - done.
  - by rewrite IH.
  - by rewrite !app_assoc, (Permutation_app_comm (f y)).
  - by rewrite IH1.
Qed.

Lemma flat_map_app_fun {A B} (f g : A -> list B) l : flat_map f l ++ flat_map g l ≡ₚ flat_map (fun x => f x ++ g x) l.
Proof.
  induction l as [|x l IH]; [done|]. simpl. rewrite <- IH, <- !app_assoc. apply Permutation_app_head.
  rewrite !app_assoc. apply Permutation_app_tail, Permutation_app_comm.
Qed.

Lemma differences_pairs (existing target_schema : Schema) inc :
  flat_map (table_change inc) (pairs_by_name target_schema existing)
  ++ flat_map pair_changes (pairs_by_name target_schema existing) ≡ₚ differences existing target_schema inc.
Proof.
  rewrite flat_map_app_fun. unfold pairs_by_name, differences, table_removals. rewrite flat_map_app.
  apply Permutation_app; apply reflexive_eq.
  - induction target_schema as [|t l IH]; [done|]. cbn [fmap list_fmap flat_map]. rewrite <- IH. f_equal.
    unfold class_differences. by destruct (class_named existing (os_name t)).
  - induction (List.filter (unmatched target_schema) existing) as [|e l IH]; [by destruct inc|].
    cbn [fmap list_fmap flat_map]. rewrite IH. by destruct inc.
Qed.

Lemma compare_shape existing target_schema inc : by_name existing -> by_name target_schema ->
  exists kept removals initial, ordered (compare existing target_schema inc) kept removals initial /\
    compare existing target_schema inc ≡ₚ differences existing target_schema inc.
Proof.
  intros He Ht. unfold compare.
  destruct (fold_column_changes (zip_matching target_schema existing)
    (flat_map (table_change inc) (zip_matching target_schema existing))
    (flat_map (table_change inc) (zip_matching target_schema existing)) [] []) as (k & r & i & Ho & Ep).
  { constructor; [by rewrite !app_nil_r|apply table_changes_kept|constructor..]. }
  exists k, r, i. split; [done|]. rewrite Ep, <- differences_pairs.
  by apply Permutation_app; apply flat_map_perm, zip_matching_pairs.
Qed.

(** The tables to add stay in front. *)
Lemma compare_prefix `{!PartitionKeepsPrefix} existing target_schema inc :
  exists rest, compare existing target_schema inc = flat_map (table_change inc) (zip_matching target_schema existing) ++ rest.
Proof.
  unfold compare. generalize (table_changes_kept inc (zip_matching target_schema existing)).
  generalize (flat_map (table_change inc) (zip_matching target_schema existing)) as adds. intros adds Hadds.
  enough (forall rest, exists rest', fold_left column_changes (zip_matching target_schema existing) (adds ++ rest) = adds ++ rest') as Hgo.
  { destruct (Hgo []) as [rest Er]. rewrite app_nil_r in Er. by eexists. }
  induction (zip_matching target_schema existing) as [|[[t|] [e|]] pairs IH]; intros rest; simpl; [by eexists|..].
  - unfold compare_objects. rewrite <- app_assoc.
    destruct (std_partition_prefix is_not_remove_property adds (rest ++ object_changes e t) Hadds) as [rest' Er].
    destruct (std_partition _ _) as [a b]. cbn [fst] in Er. subst a. rewrite <- app_assoc. apply IH.
  - rewrite <- app_assoc. apply IH.
  - apply IH.
  - apply IH.
Qed.
End shape.
