(* ===== verification/SchemaTheorems.v ===== *)
(** * Schemas: the theorems

    [Schema::find] and [Schema::validate] against their declarative
    descriptions. *)
From S2P Require Import Prelude.
From S2P Require Import SchemaTypes.
From S2P Require Import Schemas.
From S2P Require Import SchemaValidation.
From S2P Require Import SchemaDiff.

(** ** The loop over duplicate names *)
Fixpoint duplicates (l : list ObjectSchema) : list SchemaError :=
  match l with
  | lft :: ((rgt :: _) as rest) =>
    (if string_eqb (os_name lft) (os_name rgt) then [duplicate_error lft] else []) ++ duplicates rest
  | _ => []
  end.

Lemma find_next_duplicates l :
  match find_next_duplicate l with
  | [] => duplicates l = []
  | o :: rest => duplicates l = duplicate_error o :: duplicates rest /\ (length rest < length l)%nat
  end.
Proof.
  induction l as [|a l IH]; [done|]. destruct l as [|b l]; [done|].
  change (find_next_duplicate (a :: b :: l))
    with (if string_eqb (os_name a) (os_name b) then a :: b :: l else find_next_duplicate (b :: l)).
  change (duplicates (a :: b :: l))
    with ((if string_eqb (os_name a) (os_name b) then [duplicate_error a] else []) ++ duplicates (b :: l)).
  destruct (string_eqb (os_name a) (os_name b)); [by split; [|simpl; lia]|]. cbn [app].
  destruct (find_next_duplicate (b :: l)) as [|o rest]; [done|]. destruct IH as [-> Hl].
  split; [done|]. cbn [length] in *. lia.
Qed.

Lemma duplicate_loop fuel l exceptions : (length l < fuel)%nat ->
  loop duplicate_step fuel (find_next_duplicate l, exceptions) = Some (exceptions ++ duplicates l).
Proof.
  revert l exceptions. induction fuel as [|fuel IH]; intros l exceptions Hl; [lia|].
  pose proof (find_next_duplicates l) as Hd. simpl. destruct (find_next_duplicate l) as [|o rest]; simpl.
  - by rewrite Hd, app_nil_r.
  - destruct Hd as [-> Hr]. rewrite IH by lia. by rewrite <- app_assoc.
Qed.

Lemma duplicates_nil s : sorted_schema s -> duplicates s = [] <-> NoDup (os_name <$> s).
Proof.
  induction 1 as [|a s Hs IH Ha]; [by split; [constructor|]|]. rewrite fmap_cons, NoDup_cons, <- IH.
  destruct s as [|b s].
  - split; [|done]. intros _. by split; [intros ?%elem_of_nil|].
  - change (duplicates (a :: b :: s))
      with ((if string_eqb (os_name a) (os_name b) then [duplicate_error a] else []) ++ duplicates (b :: s)).
    rewrite app_nil_iff, if_nil, string_eqb_neq. apply and_iff_compat_r. split.
    + intros Hab (x & Ex & Hx)%list_elem_of_fmap. assert (os_name a = os_name b) as ?; [|done].
      apply string_le_antisym.
      * by apply (proj1 (Forall_forall _ _) Ha), elem_of_cons; left.
      * rewrite Ex. apply elem_of_cons in Hx as [->|Hx]; [unfold string_le, string_lt; apply compare_irrefl|].
        inversion Hs as [|? ? _ Hb]. by apply (proj1 (Forall_forall _ _) Hb).
    + intros Hn E. destruct Hn. rewrite E. apply list_elem_of_fmap_2. by left.
Qed.

Lemma validate_objects_nil {CS : CharSign} s l exceptions : sorted_schema s -> NoDup (os_name <$> s) ->
  Forall (links_comparable s) l ->
  fold_left (validate_object s) l exceptions = [] <-> exceptions = [] /\ Forall (valid_object s) l.
Proof.
  intros Hs Hnd Hl. revert exceptions. induction Hl as [|o l Ho Hl IH]; intros exceptions; simpl; [by intuition|].
  rewrite IH, validate_object_nil, Forall_cons by done. tauto.
Qed.

(** Exceptions are only ever added. *)
Lemma fold_exceptions {CS : CharSign} s n l st :
  exists more, (fold_left (validate_property s n) l st).2 = st.2 ++ more.
Proof.
  revert st. induction l as [|p l IH]; intros st; simpl; [exists []; by rewrite app_nil_r|].
  destruct (IH (validate_property s n st p)) as [more ->]. destruct st as [prim ex]. unfold validate_property.
  destruct (validate_primary n p prim) as [prim' ks]. cbn [snd]. rewrite <- app_assoc. by eexists.
Qed.

Lemma object_exceptions {CS : CharSign} s ex o : exists more, validate_object s ex o = ex ++ more.
Proof.
  unfold validate_object.
  destruct (fold_exceptions s (os_name o) (persisted_properties o) (None, ex)) as [m1 E1].
  destruct (fold_exceptions s (os_name o) (computed_properties o)
    (fold_left (validate_property s (os_name o)) (persisted_properties o) (None, ex))) as [m2 E2].
  rewrite E1 in E2. destruct (fold_left _ (computed_properties o) _) as [prim ex']. cbn [snd] in E2. subst ex'.
  destruct (_ && _); rewrite <- ?app_assoc; by eexists.
Qed.

Lemma objects_exceptions {CS : CharSign} s l ex : exists more, fold_left (validate_object s) l ex = ex ++ more.
Proof.
  revert ex. induction l as [|o l IH]; intros ex; simpl; [exists []; by rewrite app_nil_r|].
  destruct (object_exceptions s ex o) as [m1 ->]. destruct (IH (ex ++ m1)) as [m2 ->]. rewrite <- app_assoc. by eexists.
Qed.

Section theorems.
Context {CS : CharSign}.

(** On a sorted schema, [Schema::find] returns the position of the class
    with the name, and [end()] exactly when no class has it - provided [char]
    is unsigned or the names are ASCII, because the schema is sorted by
    unsigned bytes and searched by [char]s. *)
Theorem schema_find (s : Schema) (name : string) :
  sorted_schema s -> comparable s name ->
  (find s name = length s <-> forall o, o ∈ s -> os_name o <> name) /\
  (forall o, find_object s name = Some o -> o ∈ s /\ os_name o = name) /\
  (NoDup (os_name <$> s) -> forall i o, s !! i = Some o -> os_name o = name -> find s name = i).
Proof.
  intros Hs Hc. pose proof (schema_find_spec s name Hs Hc) as Hf. pose proof (find_object_spec s name Hs Hc) as Hg.
  split; [|split].
  - destruct (s !! find s name) as [o|] eqn:E.
    + split; [intros El; by rewrite El, lookup_ge_None_2 in E|]. intros Hn. apply list_elem_of_lookup_2 in E. by apply Hn in E.
    + destruct Hf as [-> Hn]. split; [|done]. by intros _ o Ho; apply (proj1 (Forall_forall _ _) Hn).
  - intros o E. by rewrite E in Hg.
  - intros Hnd i o Hi En. destruct (s !! find s name) as [o'|] eqn:E.
    + apply (NoDup_lookup (os_name <$> s) _ _ name Hnd); rewrite list_lookup_fmap, ?E, ?Hi; cbn; congruence.
    + destruct Hf as [_ Hn]. apply list_elem_of_lookup_2 in Hi. by destruct (proj1 (Forall_forall _ _) Hn o Hi).
Qed.

(** C19: [Schema::validate] always terminates, accepts exactly the schemas
    whose class names are distinct and whose classes are valid - the kind,
    nullability, index, link target and origin of every property, at most one
    primary property, and a primary key that exists - and otherwise throws a
    [SchemaValidationException] with at least one error. The names have to be such
    that looking them up works ([links_comparable]): [char] is unsigned, or the
    class names and link targets are ASCII. Elsewhere the binary search of [find]
    may miss a link's target, so that a well-formed schema is rejected. *)
Theorem schema_validate (s : Schema) :
  sorted_schema s -> Forall (links_comparable s) s ->
  (validate s = Ok tt <-> valid_schema s) /\
  (validate s = Ok tt \/ exists e errors, validate s = Throw (SchemaValidationException (e :: errors))).
Proof.
  intros Hs Hl. unfold validate, validation_errors. rewrite duplicate_loop by lia. cbn [mbind option_bind app].
  destruct (objects_exceptions s s (duplicates s)) as [more Em].
  destruct (decide (duplicates s = [])) as [Ed|Ed].
  - rewrite Ed in *. apply duplicates_nil in Ed; [|done].
    pose proof (validate_objects_nil s s [] Hs Ed Hl) as Hv. unfold valid_schema.
    destruct (fold_left _ s []) as [|e es].
    + split; [|by left]. split; [|done]. intros _. split; [done|]. by apply Hv.
    + split; [|right; by eauto]. split; [done|]. intros [_ Ho]. by assert (e :: es = []) by (by apply Hv).
  - rewrite Em. destruct (duplicates s) as [|d ds] eqn:Ed'; [done|]. cbn [app].
    split; [|right; by eauto]. split; [done|]. intros [Hnd _]. apply duplicates_nil in Hnd; [|done]. congruence.
Qed.
End theorems.

(** ** Two classes *)
#[local] Instance plain_char : CharSign := true.

Definition int_property (name : string) : Property := mkProperty name PT_Int EmptyString EmptyString false false 0.
Definition two_classes : Schema :=
  [mkObjectSchema "cat" [int_property "age"] [] EmptyString; mkObjectSchema "dog" [int_property "age"] [] EmptyString].

Lemma two_classes_sorted : sorted_schema two_classes.
Proof. repeat constructor. Qed.

Lemma schema_find_witness :
  (find two_classes "dog" = length two_classes <-> forall o, o ∈ two_classes -> os_name o <> "dog"%string) /\
  (forall o, find_object two_classes "dog" = Some o -> o ∈ two_classes /\ os_name o = "dog"%string) /\
  (NoDup (os_name <$> two_classes) -> forall i o, two_classes !! i = Some o -> os_name o = "dog"%string -> find two_classes "dog" = i).
Proof. apply (schema_find two_classes "dog" two_classes_sorted). by right; repeat constructor. Defined.

Lemma schema_validate_witness :
  (validate two_classes = Ok tt <-> valid_schema two_classes) /\
  (validate two_classes = Ok tt \/ exists e errors, validate two_classes = Throw (SchemaValidationException (e :: errors))).
Proof. apply (schema_validate two_classes two_classes_sorted). do 2 (constructor; [constructor; [by right; repeat constructor|constructor]|]). constructor. Defined.

(** ** Comparing schemas: the theorems *)
(** ** When a class needs no change *)
Definition index_agrees (current target_prop : Property) : Prop :=
  if requires_index target_prop then is_indexed current = true else requires_index current = false.

Record property_agrees (target : ObjectSchema) (p : Property) (q : Property) : Prop := {
  pa_found : property_for_name target (prop_name p) = Some q;
  pa_computed : property_is_computed target q = false;
  pa_base : pt_base (prop_type p) = pt_base (prop_type q);
  pa_array : is_array (prop_type p) = is_array (prop_type q);
  pa_nullable : is_nullable (prop_type p) = is_nullable (prop_type q);
  pa_object : object_type p = object_type q;
  pa_index : index_agrees p q
}.

Record agrees (existing target : ObjectSchema) : Prop := {
  ag_key : primary_key existing = primary_key target;
  ag_kept : forall p, p ∈ persisted_properties existing -> exists q, property_agrees target p q;
  ag_added : forall q, q ∈ persisted_properties target -> is_Some (property_for_name existing (prop_name q))
}.

Lemma same_type_true p q : same_type p q = true <->
  pt_base (prop_type p) = pt_base (prop_type q) /\ object_type p = object_type q /\
  is_array (prop_type p) = is_array (prop_type q).
Proof.
  unfold same_type. rewrite !andb_true_iff, pt_eqb_base, string_eqb_eq, eqb_true_iff. tauto.
Qed.

Lemma compare_nullability_nil e p q : compare_nullability e p q = [] <-> is_nullable (prop_type p) = is_nullable (prop_type q).
Proof. unfold compare_nullability. by destruct (is_nullable (prop_type p)), (is_nullable (prop_type q)). Qed.

Lemma compare_index_nil e p q : compare_index e p q = [] <-> index_agrees p q.
Proof. unfold compare_index, index_agrees. destruct (requires_index q), (is_indexed p), (requires_index p); done. Qed.

Lemma compare_property_nil e t p : compare_property e t p = [] <-> exists q, property_agrees t p q.
Proof.
  unfold compare_property. destruct (property_for_name t (prop_name p)) as [q|] eqn:Eq.
  - destruct (property_is_computed t q) eqn:Ec.
    { split; [done|]. intros [q' Hq']. destruct Hq' as [E Ec' _ _ _ _ _]. congruence. }
    destruct (same_type p q) eqn:Es; cbn [negb].
    + apply same_type_true in Es as (Eb & Eo & Ea).
      rewrite app_nil_iff, compare_nullability_nil, compare_index_nil. split.
      * intros [En Ei]. by exists q.
      * intros [q' [E _ _ _ En _ Ei]]. assert (q' = q) as -> by congruence. done.
    + split; [done|]. intros [q' [E _ Eb Ea _ Eo _]]. assert (q' = q) as -> by congruence.
      assert (same_type p q = true) by (by apply same_type_true). congruence.
  - split; [done|]. intros [q [E _ _ _ _ _ _]]. congruence.
Qed.

Lemma flat_map_nil {A B} (f : A -> list B) l : flat_map f l = [] <-> forall x, x ∈ l -> f x = [].
Proof.
  induction l as [|x l IH]; simpl; [split; [by intros _ x ?%elem_of_nil|done]|].
  rewrite app_nil_iff, IH. split.
  - intros [Hx Hl] y [->|Hy]%elem_of_cons; auto.
  - intros Hl. split; [apply Hl; by left|]. intros y Hy. apply Hl. by right.
Qed.

Lemma object_changes_nil e t : object_changes e t = [] <-> agrees e t.
Proof.
  unfold object_changes. rewrite !app_nil_iff, !flat_map_nil. split.
  - intros (Hp & Hk & Ha). constructor.
    + unfold compare_key in Hk. destruct (string_eqb _ _) eqn:E; [by apply string_eqb_eq in E|done].
    + intros p Hin. by apply (compare_property_nil e), Hp.
    + intros q Hin. specialize (Ha q Hin). unfold added_property in Ha. by destruct (property_for_name _ _).
  - intros [Hk Hp Ha]. split; [|split].
    + intros p Hin. by apply compare_property_nil, Hp.
    + unfold compare_key. by rewrite Hk, string_eqb_refl.
    + intros q Hin. destruct (Ha q Hin) as [p Ep]. unfold added_property. by rewrite Ep.
Qed.

Definition is_table_change (sc : SchemaChange) : bool :=
  match sc with AddTable _ | RemoveTable _ => true | _ => false end.

Lemma pair_changes_columns pair : Forall (fun sc => is_table_change sc = false) (pair_changes pair).
Proof.
  destruct pair as [[t|] [e|]]; simpl; [|by repeat constructor|constructor..]. unfold object_changes.
  apply Forall_app. split; [|apply Forall_app; split].
  - apply Forall_forall. intros sc Hsc. apply list_elem_of_In, in_flat_map in Hsc as (p & _ & Hp). revert Hp.
    unfold compare_property, compare_nullability, compare_index.
    destruct (property_for_name t (prop_name p)) as [q|]; [|by intros [<-|[]]].
    destruct (property_is_computed t q), (same_type p q), (Bool.eqb (is_nullable (prop_type p)) (is_nullable (prop_type q))),
      (is_nullable (prop_type p)), (requires_index q), (is_indexed p), (requires_index p); simpl; by intuition subst.
  - unfold compare_key. destruct (string_eqb _ _); by repeat constructor.
  - apply Forall_forall. intros sc Hsc. apply list_elem_of_In, in_flat_map in Hsc as (p & _ & Hp). revert Hp.
    unfold added_property. destruct (property_for_name _ _); [done|by intros [<-|[]]].
Qed.

Lemma pairs_columns pairs : Forall (fun sc => is_table_change sc = false) (flat_map pair_changes pairs).
Proof.
  induction pairs as [|pair pairs IH]; simpl; [done|]. apply Forall_app. split; [apply pair_changes_columns|done].
Qed.

Lemma table_changes_tables inc pairs : Forall (fun sc => is_table_change sc = true) (flat_map (table_change inc) pairs).
Proof.
  induction pairs as [|[[t|] [e|]] pairs IH]; simpl; [done..|by constructor| |done].
  destruct inc; simpl; [by constructor|done].
Qed.

(** ** What a difference is, without the comparison *)

(** The property of the target that a stored one is kept as *)
Definition kept_as (target : ObjectSchema) (p q : Property) : Prop :=
  property_for_name target (prop_name p) = Some q /\ property_is_computed target q = false.
(** Optional or not, a column of the same kind *)
Definition same_kind (p q : Property) : Prop :=
  pt_base (prop_type p) = pt_base (prop_type q) /\ object_type p = object_type q /\
  is_array (prop_type p) = is_array (prop_type q).

Inductive class_differs (e t : ObjectSchema) : SchemaChange -> Prop :=
| differs_removed p : p ∈ persisted_properties e -> (forall q, ~ kept_as t p q) -> class_differs e t (RemoveProperty e p)
| differs_type p q : p ∈ persisted_properties e -> kept_as t p q -> ~ same_kind p q -> class_differs e t (ChangePropertyType e p q)
| differs_nullable p q : p ∈ persisted_properties e -> kept_as t p q -> same_kind p q ->
    is_nullable (prop_type p) = false -> is_nullable (prop_type q) = true -> class_differs e t (MakePropertyNullable e p)
| differs_required p q : p ∈ persisted_properties e -> kept_as t p q -> same_kind p q ->
    is_nullable (prop_type p) = true -> is_nullable (prop_type q) = false -> class_differs e t (MakePropertyRequired e p)
| differs_index p q : p ∈ persisted_properties e -> kept_as t p q -> same_kind p q ->
    requires_index q = true -> is_indexed p = false -> class_differs e t (AddIndex e p)
| differs_no_index p q : p ∈ persisted_properties e -> kept_as t p q -> same_kind p q ->
    requires_index q = false -> requires_index p = true -> class_differs e t (RemoveIndex e p)
| differs_key : primary_key e <> primary_key t -> class_differs e t (ChangePrimaryKey e (primary_key_property t))
| differs_added q : q ∈ persisted_properties t ->
    (forall p, p ∈ persisted_properties e ++ computed_properties e -> prop_name p <> prop_name q) -> class_differs e t (AddProperty e q).

Inductive differs (existing target_schema : Schema) (include_table_removals : bool) : SchemaChange -> Prop :=
| differs_class e t sc : e ∈ existing -> t ∈ target_schema -> os_name e = os_name t -> class_differs e t sc ->
    differs existing target_schema include_table_removals sc
| differs_table t : t ∈ target_schema -> (forall e, e ∈ existing -> os_name e <> os_name t) ->
    differs existing target_schema include_table_removals (AddTable t)
| differs_initial t : t ∈ target_schema -> (forall e, e ∈ existing -> os_name e <> os_name t) ->
    differs existing target_schema include_table_removals (AddInitialProperties t)
| differs_no_table e : include_table_removals = true -> e ∈ existing -> (forall t, t ∈ target_schema -> os_name t <> os_name e) ->
    differs existing target_schema include_table_removals (RemoveTable e).

Lemma elem_of_flat_map {A B} (f : A -> list B) l y : y ∈ flat_map f l <-> exists x, x ∈ l /\ y ∈ f x.
Proof.
  rewrite list_elem_of_In, in_flat_map. split; intros (x & Hx & Hy); exists x;
    (split; [by apply list_elem_of_In|by apply list_elem_of_In]).
Qed.

Lemma property_for_name_None o name : property_for_name o name = None <->
  forall p, p ∈ persisted_properties o ++ computed_properties o -> prop_name p <> name.
Proof.
  assert (forall l, List.find (named name) l = None <-> forall p, p ∈ l -> prop_name p <> name) as Hfind.
  { intros l. split.
    - intros E p Hp%list_elem_of_In. pose proof (List.find_none _ _ E p Hp) as Hn. by apply string_eqb_neq.
    - intros Hn. destruct (List.find _ l) as [p|] eqn:E; [|done]. apply List.find_some in E as [Hp%list_elem_of_In En].
      apply string_eqb_eq in En. by destruct (Hn p Hp). }
  unfold property_for_name. destruct (List.find (named name) (persisted_properties o)) as [p|] eqn:E.
  - split; [done|]. intros Hn. apply List.find_some in E as [Hp%list_elem_of_In En]. apply string_eqb_eq in En.
    destruct (Hn p); [apply elem_of_app; by left|done].
  - rewrite Hfind. pose proof (proj1 (Hfind _) E) as Hp. setoid_rewrite elem_of_app. split.
    + intros Hc p [?|?]; [by apply Hp|by apply Hc].
    + intros Hn p Hc. apply Hn. by right.
Qed.

Lemma compare_property_differs e t p sc : p ∈ persisted_properties e -> sc ∈ compare_property e t p -> class_differs e t sc.
Proof.
  intros Hp. unfold compare_property. destruct (property_for_name t (prop_name p)) as [q|] eqn:Eq.
  2: { intros ->%list_elem_of_singleton. apply differs_removed; [done|]. intros q [E _]. congruence. }
  destruct (property_is_computed t q) eqn:Ec.
  { intros ->%list_elem_of_singleton. apply differs_removed; [done|]. intros q' [E E']. congruence. }
  assert (kept_as t p q) as Hk by done. destruct (same_type p q) eqn:Es; cbn [negb].
  2: { intros ->%list_elem_of_singleton. apply differs_type; [done..|]. intros Hs. apply same_type_true in Hs. congruence. }
  apply same_type_true in Es. intros [Hsc|Hsc]%elem_of_app; revert Hsc.
  - unfold compare_nullability. destruct (is_nullable (prop_type p)) eqn:En, (is_nullable (prop_type q)) eqn:En'; cbn [Bool.eqb];
      [by intros ?%elem_of_nil| | |by intros ?%elem_of_nil]; intros ->%list_elem_of_singleton; by econstructor.
  - unfold compare_index. destruct (requires_index q) eqn:Eq', (is_indexed p) eqn:Ei, (requires_index p) eqn:Er; cbn [negb];
      try (by intros ?%elem_of_nil); intros ->%list_elem_of_singleton; by econstructor.
Qed.

Lemma differs_compare_property e t p q sc : kept_as t p q -> same_kind p q ->
  sc ∈ compare_nullability e p q ++ compare_index e p q -> sc ∈ compare_property e t p.
Proof. intros [Ef Ec] Hs Hsc. unfold compare_property. rewrite Ef, Ec. apply same_type_true in Hs. by rewrite Hs. Qed.

Lemma class_differs_spec e t sc : sc ∈ object_changes e t <-> class_differs e t sc.
Proof.
  unfold object_changes. rewrite !elem_of_app, !elem_of_flat_map. split.
  - intros [(p & Hp & Hsc)|[Hsc|(q & Hq & Hsc)]].
    + by eapply compare_property_differs.
    + unfold compare_key in Hsc. destruct (string_eqb _ _) eqn:E; [by apply elem_of_nil in Hsc|].
      apply list_elem_of_singleton in Hsc as ->. apply differs_key. by apply string_eqb_neq.
    + unfold added_property in Hsc. destruct (property_for_name e (prop_name q)) eqn:E; [by apply elem_of_nil in Hsc|].
      apply list_elem_of_singleton in Hsc as ->. apply differs_added; [done|]. by apply property_for_name_None.
  - intros [p Hp Hn|p q Hp Hk Hs|p q Hp Hk Hs E1 E2|p q Hp Hk Hs E1 E2|p q Hp Hk Hs E1 E2|p q Hp Hk Hs E1 E2|Hk|q Hq Hn].
    + left. exists p. split; [done|]. unfold compare_property. destruct (property_for_name t (prop_name p)) as [q|] eqn:E; [|by left].
      destruct (property_is_computed t q) eqn:Ec; [by left|]. by destruct (Hn q).
    + left. exists p. split; [done|]. unfold compare_property. destruct Hk as [-> ->].
      destruct (same_type p q) eqn:E; [by apply same_type_true in E|by left].
    + left. exists p. split; [done|]. apply (differs_compare_property e t p q); [done..|].
      unfold compare_nullability. rewrite E1, E2. by left.
    + left. exists p. split; [done|]. apply (differs_compare_property e t p q); [done..|].
      unfold compare_nullability. rewrite E1, E2. by left.
    + left. exists p. split; [done|]. apply (differs_compare_property e t p q); [done..|].
      apply elem_of_app. right. unfold compare_index. rewrite E1, E2. by left.
    + left. exists p. split; [done|]. apply (differs_compare_property e t p q); [done..|].
      apply elem_of_app. right. unfold compare_index. rewrite E1, E2. by left.
    + right; left. unfold compare_key. apply string_eqb_neq in Hk. rewrite Hk. by left.
    + right; right. exists q. split; [done|]. unfold added_property. apply property_for_name_None in Hn. rewrite Hn. by left.
Qed.

Lemma differs_spec existing target_schema include_table_removals sc : by_name existing ->
  sc ∈ differences existing target_schema include_table_removals <-> differs existing target_schema include_table_removals sc.
Proof.
  intros He. unfold differences. rewrite elem_of_app, elem_of_flat_map. unfold class_differences. split.
  - intros [(t & Ht & Hsc)|Hsc].
    + destruct (class_named existing (os_name t)) as [e|] eqn:E.
      * apply class_named_Some in E as [Hin En]. by eapply differs_class, class_differs_spec.
      * assert (forall e, e ∈ existing -> os_name e <> os_name t) as Hn by (by apply class_named_None).
        apply elem_of_cons in Hsc as [->|Hsc]; [by constructor|]. apply list_elem_of_singleton in Hsc as ->. by constructor.
    + destruct include_table_removals; [|by apply elem_of_nil in Hsc]. unfold table_removals in Hsc.
      apply list_elem_of_fmap in Hsc as (e & -> & Hin). apply list_elem_of_In, filter_In in Hin as [Hin%list_elem_of_In Hu].
      unfold unmatched in Hu. destruct (class_named target_schema (os_name e)) eqn:E; [done|].
      apply differs_no_table; [done..|]. by apply class_named_None.
  - intros [e t sc' Hin Ht En Hd|t Ht Hn|t Ht Hn|e -> Hin Hn].
    + left. exists t. split; [done|]. rewrite <- En, (class_named_in existing e) by done. by apply class_differs_spec.
    + left. exists t. split; [done|]. apply class_named_None in Hn. rewrite Hn. by left.
    + left. exists t. split; [done|]. apply class_named_None in Hn. rewrite Hn. by right; left.
    + right. unfold table_removals. apply list_elem_of_fmap_2, list_elem_of_In, filter_In. split; [by apply list_elem_of_In|].
      unfold unmatched. apply class_named_None in Hn. by rewrite Hn.
Qed.

Section theorems.
Context {HSort : StdSort} {HPart : StdPartition}.

(** C18: Comparing two schemas sorted by distinct names lists exactly the
    differences between them: tables that are missing, with their properties,
    stored properties that are gone or only computed, of another kind, of another
    nullability, or whose index is to be added or dropped, properties no old one
    has the name of, and another primary key. It lists them once for every class
    and property, whatever order the standard library's sort and partition
    choose, with the removals of properties in one block from the last column to
    the first, followed by nothing but initial properties of new tables. If the
    partition also keeps the elements in front of the first misplaced one, which
    the standard does not promise, the tables to add come before everything
    else. *)
Theorem schema_compare (existing target_schema : Schema) (include_table_removals : bool) :
  by_name existing -> by_name target_schema ->
  let changes := compare existing target_schema include_table_removals in
  (forall sc, sc ∈ changes <-> differs existing target_schema include_table_removals sc) /\
  changes ≡ₚ differences existing target_schema include_table_removals /\
  (exists kept removals initial, ordered changes kept removals initial) /\
  (PartitionKeepsPrefix -> exists tables rest, changes = tables ++ rest /\
    Forall (fun sc => is_table_change sc = true) tables /\ Forall (fun sc => is_table_change sc = false) rest).
Proof.
  intros He Ht changes. destruct (compare_shape existing target_schema include_table_removals He Ht)
    as (k & r & i & Ho & Ep). split; [intros sc; unfold changes; rewrite Ep; by apply differs_spec|].
  split; [done|]. split; [by eauto|]. intros Hprefix.
  destruct (compare_prefix existing target_schema include_table_removals) as [rest Er].
  exists (flat_map (table_change include_table_removals) (zip_matching target_schema existing)), rest. split; [done|]. split.
  - apply table_changes_tables.
  - assert (rest ≡ₚ flat_map pair_changes (pairs_by_name target_schema existing)) as ->.
    { apply (Permutation_app_inv_l (flat_map (table_change include_table_removals) (zip_matching target_schema existing))).
      unfold changes in *. rewrite <- Er, Ep, <- differences_pairs. apply Permutation_app_tail.
      by apply flat_map_perm; symmetry; apply zip_matching_pairs. }
    apply pairs_columns.
Qed.

Lemma compare_nil existing target_schema : by_name existing -> by_name target_schema ->
  compare existing target_schema false = [] <->
  forall t, t ∈ target_schema -> exists e, class_named existing (os_name t) = Some e /\ agrees e t.
Proof.
  intros He Ht. destruct (compare_shape existing target_schema false He Ht) as (_ & _ & _ & _ & Ep).
  unfold differences in Ep. rewrite app_nil_r in Ep.
  assert (compare existing target_schema false = [] <-> flat_map (class_differences existing) target_schema = []) as ->
    by (split; intros E; rewrite E in Ep; [by apply Permutation_nil_l in Ep|by apply Permutation_nil_r in Ep]).
  rewrite flat_map_nil. split; intros Hall t Hin; specialize (Hall t Hin); unfold class_differences in *.
  - destruct (class_named existing (os_name t)) as [e|]; [|done]. exists e. split; [done|]. by apply object_changes_nil.
  - destruct Hall as (e & -> & Ha). by apply object_changes_nil.
Qed.

(** The comparison is empty exactly when every class of the target schema
    exists and agrees with it: the same primary key, every stored column a
    stored property of the target with the same type, flags and target, its
    index as required, and no property missing. *)
Theorem compare_empty (existing target_schema : Schema) :
  by_name existing -> by_name target_schema ->
  compare existing target_schema false = [] <->
  forall t, t ∈ target_schema -> exists e, class_named existing (os_name t) = Some e /\ agrees e t.
Proof. apply compare_nil. Qed.
End theorems.

(** ** A property added, one removed, and one made optional *)
Definition plain_property (name : string) (type : PropertyType) (column : Z) : Property :=
  mkProperty name type EmptyString EmptyString false false column.
Definition dog_before : Schema :=
  [mkObjectSchema "dog" [plain_property "name" PT_String 0; plain_property "age" PT_Int 1] [] EmptyString].
Definition dog_after : Schema :=
  [mkObjectSchema "dog" [plain_property "name" (pt_or PT_String PT_Nullable) 0; plain_property "chip" PT_Int 1] [] EmptyString].

Lemma schema_compare_witness :
  let changes := compare dog_before dog_after false in
  (forall sc, sc ∈ changes <-> differs dog_before dog_after false sc) /\
  changes ≡ₚ differences dog_before dog_after false /\
  (exists kept removals initial, ordered changes kept removals initial) /\
  (PartitionKeepsPrefix -> exists tables rest, changes = tables ++ rest /\
    Forall (fun sc => is_table_change sc = true) tables /\ Forall (fun sc => is_table_change sc = false) rest).
Proof. apply (schema_compare dog_before dog_after false); by repeat constructor. Defined.

Lemma compare_empty_witness :
  compare dog_before dog_before false = [] <->
  forall t, t ∈ dog_before -> exists e, class_named dog_before (os_name t) = Some e /\ agrees e t.
Proof. apply (compare_empty dog_before dog_before); by repeat constructor. Defined.
