(* ===== verification/CoreTables.v ===== *)
(** * The core library's tables

    Groups and tables belong to the core library, whose implementation is not
    part of the repository. [CoreGroup] collects the operations the object
    store calls, with the behaviour that [group.hpp], [table.hpp],
    [descriptor.hpp] and [sync/object.hpp] document, stated on what the reading
    operations report: a table's columns with their types, indexes and cells.
    [PlainGroup] is a group that satisfies the laws. *)
From S2P Require Import Prelude.
From S2P Require Import SchemaTypes.
From stdpp Require Import gmap.
#[global] Open Scope Z_scope.

(** [data_type.hpp] *)
Inductive DataType :=
| type_Int | type_Bool | type_Float | type_Double | type_String | type_Binary
| type_OldDateTime | type_Timestamp | type_Table | type_Mixed | type_Link | type_LinkList.

#[global] Instance DataType_eq_dec : EqDecision DataType.
Proof. solve_decision. Defined.

(** What a descriptor says about one column; subtable columns have descriptors
    of their own. *)
#[warnings="-register-all"]
Inductive ColumnSpec := mkColumnSpec (name : string) (type : DataType) (nullable : bool) (sub : list ColumnSpec).

Definition spec_name (c : ColumnSpec) : string := let '(mkColumnSpec n _ _ _) := c in n.
Definition spec_type (c : ColumnSpec) : DataType := let '(mkColumnSpec _ t _ _) := c in t.
Definition spec_nullable (c : ColumnSpec) : bool := let '(mkColumnSpec _ _ b _) := c in b.
Definition spec_sub (c : ColumnSpec) : list ColumnSpec := let '(mkColumnSpec _ _ _ l) := c in l.

(** The contents of a cell; links, link lists and subtables are opaque. *)
Inductive Value :=
| v_null | v_int (z : Z) | v_bool (b : bool) | v_float (bits : Z) | v_double (bits : Z)
| v_string (s : string) | v_binary (s : string) | v_timestamp (seconds nanoseconds : Z) | v_other (n : Z).

#[global] Instance Value_eq_dec : EqDecision Value.
Proof. solve_decision. Defined.

Record Column := mkColumn {
  col_spec : ColumnSpec;
  col_target : string;
  col_index : bool;
  col_cells : list Value
}.

Record Table := mkTable { columns : list Column; row_count : nat }.

Definition col_name (c : Column) : string := spec_name (col_spec c).
Definition col_type (c : Column) : DataType := spec_type (col_spec c).
Definition col_nullable (c : Column) : bool := spec_nullable (col_spec c).

(** [get_column_index], with [None] for [not_found]. *)
Fixpoint index_of {A} (p : A -> bool) (l : list A) : option nat :=
  match l with
  | [] => None
  | x :: l => if p x then Some O else S <$> index_of p l
  end.
Definition get_column_index (t : Table) (name : string) : option nat :=
  index_of (fun c => string_eqb (col_name c) name) (columns t).

(** [find_first_string] *)
Definition find_first (t : Table) (c : nat) (v : Value) : option nat :=
  col ← columns t !! c; index_of (fun x => bool_decide (x = v)) (col_cells col).

Definition get_cell (t : Table) (c r : nat) : option Value := col ← columns t !! c; col_cells col !! r.

(** The documented effect of the writing operations on one table. *)
Definition insert_at {A} (c : nat) (x : A) (l : list A) : list A := take c l ++ x :: drop c l.

Definition with_columns (t : Table) (l : list Column) : Table := mkTable l (row_count t).
Definition map_column (c : nat) (f : Column -> Column) (t : Table) : Table := with_columns t (alter f c (columns t)).
Definition set_spec (s : ColumnSpec) (c : Column) : Column := mkColumn s (col_target c) (col_index c) (col_cells c).
Definition set_index (b : bool) (c : Column) : Column := mkColumn (col_spec c) (col_target c) b (col_cells c).
Definition set_cells (l : list Value) (c : Column) : Column := mkColumn (col_spec c) (col_target c) (col_index c) l.
Definition rename_spec (name : string) (s : ColumnSpec) : ColumnSpec :=
  mkColumnSpec name (spec_type s) (spec_nullable s) (spec_sub s).
Definition add_sub (sub : ColumnSpec) (s : ColumnSpec) : ColumnSpec :=
  mkColumnSpec (spec_name s) (spec_type s) (spec_nullable s) (spec_sub s ++ [sub]).

(** Removing the only column empties the table. *)
Definition table_remove_column (c : nat) (t : Table) : Table :=
  let l := delete c (columns t) in mkTable l (if decide (l = []) then O else row_count t).

Definition swap_last {A} (r : nat) (l : list A) : list A :=
  match last l with Some x => <[r := x]> l | None => l end.
Definition cells_move_last_over (r : nat) (l : list Value) : list Value := removelast (swap_last r l).
Definition table_move_last_over (r : nat) (t : Table) : Table :=
  mkTable ((fun c => set_cells (cells_move_last_over r (col_cells c)) c) <$> columns t) (row_count t - 1).

(** A row of given cells at the end. *)
Definition append_row (cells : list Value) (t : Table) : Table :=
  mkTable (zip_with (fun c v => set_cells (col_cells c ++ [v]) c) (columns t) cells) (S (row_count t)).

Definition is_link_type (t : DataType) : bool := match t with type_Link | type_LinkList => true | _ => false end.
Definition indexable_type (t : DataType) : bool :=
  match t with type_Int | type_Bool | type_String | type_Timestamp => true | _ => false end.

Fixpoint string_drop (n : nat) (s : string) : string :=
  match n, s with
  | O, _ => s
  | S n, String _ s => string_drop n s
  | S _, EmptyString => EmptyString
  end.

Definition pk_table_name : string := "pk".
Definition object_id_column_name : string := "!OID".

(** ** The operations *)
Class CoreGroup (G : Type) := {
  table_names : G -> list string;
  get_table : G -> string -> option Table;
  has_object_ids : G -> bool;
  default_value : DataType -> bool -> Value;
  get_or_add_table : G -> string -> G;
  remove_table : G -> string -> G;
  insert_column : G -> string -> Z -> DataType -> string -> bool -> G;
  add_subcolumn : G -> string -> Z -> DataType -> string -> bool -> G;
  insert_column_link : G -> string -> Z -> DataType -> string -> string -> G;
  remove_column : G -> string -> Z -> G;
  rename_column : G -> string -> Z -> string -> G;
  add_search_index : G -> string -> Z -> G;
  remove_search_index : G -> string -> Z -> G;
  add_empty_row : G -> string -> G;
  set_value : G -> string -> Z -> nat -> Value -> G;
  set_string_unique : G -> string -> Z -> nat -> string -> G;
  move_last_over : G -> string -> nat -> G;
  sync_create_table : G -> string -> G;
  sync_create_table_with_primary_key : G -> string -> DataType -> string -> bool -> G
}.

(** Only the named table changes. *)
Definition changes_to `{CoreGroup G} (g g' : G) (n : string) (t : Table) : Prop :=
  get_table g' n = Some t /\ (forall m, m <> n -> get_table g' m = get_table g m) /\
  has_object_ids g' = has_object_ids g.

Definition new_column `{CoreGroup G} (t : Table) (s : ColumnSpec) (target : string) (index : bool) : Column :=
  mkColumn s target index (replicate (row_count t) (default_value (spec_type s) (spec_nullable s))).

(** A column number in range. *)
Definition in_columns (c : Z) (t : Table) : Prop := 0 <= c < Z.of_nat (length (columns t)).

Class CoreLaws (G : Type) `{CoreGroup G} := {
  names_NoDup g : NoDup (table_names g);
  names_tables g n : n ∈ table_names g <-> is_Some (get_table g n);

  add_table_old g n t : get_table g n = Some t -> get_or_add_table g n = g;
  add_table_new g n : get_table g n = None -> changes_to g (get_or_add_table g n) n (mkTable [] 0);

  insert_column_law g n t c type name nullable :
    get_table g n = Some t -> 0 <= c <= Z.of_nat (length (columns t)) -> is_link_type type = false ->
    changes_to g (insert_column g n c type name nullable) n
      (with_columns t (insert_at (Z.to_nat c) (new_column t (mkColumnSpec name type nullable []) EmptyString false) (columns t)));
  add_subcolumn_law g n t c col type name nullable :
    get_table g n = Some t -> 0 <= c -> columns t !! Z.to_nat c = Some col -> col_type col = type_Table ->
    changes_to g (add_subcolumn g n c type name nullable) n
      (map_column (Z.to_nat c) (fun x => set_spec (add_sub (mkColumnSpec name type nullable []) (col_spec x)) x) t);
  insert_column_link_law g n t c type name target :
    get_table g n = Some t -> 0 <= c <= Z.of_nat (length (columns t)) -> is_link_type type = true ->
    is_Some (get_table g target) ->
    changes_to g (insert_column_link g n c type name target) n
      (with_columns t (insert_at (Z.to_nat c) (new_column t (mkColumnSpec name type false []) target false) (columns t)));
  remove_column_law g n t c : get_table g n = Some t -> in_columns c t ->
    changes_to g (remove_column g n c) n (table_remove_column (Z.to_nat c) t);
  rename_column_law g n t c name : get_table g n = Some t -> in_columns c t ->
    changes_to g (rename_column g n c name) n
      (map_column (Z.to_nat c) (fun x => set_spec (rename_spec name (col_spec x)) x) t);
  add_search_index_law g n t c col : get_table g n = Some t -> 0 <= c -> columns t !! Z.to_nat c = Some col ->
    indexable_type (col_type col) = true ->
    changes_to g (add_search_index g n c) n (map_column (Z.to_nat c) (set_index true) t);
  remove_search_index_law g n t c : get_table g n = Some t -> in_columns c t ->
    changes_to g (remove_search_index g n c) n (map_column (Z.to_nat c) (set_index false) t);

  add_empty_row_law g n t : get_table g n = Some t -> columns t <> [] ->
    changes_to g (add_empty_row g n) n
      (mkTable ((fun x => set_cells (col_cells x ++ [default_value (col_type x) (col_nullable x)]) x) <$> columns t)
         (S (row_count t)));
  set_value_law g n t c r v : get_table g n = Some t -> in_columns c t -> (r < row_count t)%nat ->
    changes_to g (set_value g n c r v) n
      (map_column (Z.to_nat c) (fun x => set_cells (<[r := v]> (col_cells x)) x) t);
  set_string_unique_law g n t c r v : get_table g n = Some t -> in_columns c t -> (r < row_count t)%nat ->
    (forall r', get_cell t (Z.to_nat c) r' = Some (v_string v) -> r' = r) ->
    changes_to g (set_string_unique g n c r v) n
      (map_column (Z.to_nat c) (fun x => set_cells (<[r := v_string v]> (col_cells x)) x) t);
  move_last_over_law g n t r : get_table g n = Some t -> (r < row_count t)%nat ->
    changes_to g (move_last_over g n r) n (table_move_last_over r t);

  remove_table_law g n : get_table (remove_table g n) n = None /\
    (forall m, m <> n -> get_table (remove_table g n) m = get_table g m) /\
    has_object_ids (remove_table g n) = has_object_ids g;

  (** Object identifiers live in a column of a reserved name. A key column is
      created with the search index the [set_*_unique] functions that fill it
      need, and the key is recorded in the [pk] table. *)
  create_table_old g n t : get_table g n = Some t -> sync_create_table g n = g;
  create_table_new g n : get_table g n = None -> exists ids,
    changes_to g (sync_create_table g n) n (mkTable ids 0) /\
    Forall (fun c => col_name c = object_id_column_name /\ col_cells c = []) ids;
  create_table_key_old g n t type name nullable : get_table g n = Some t ->
    sync_create_table_with_primary_key g n type name nullable = g;
  create_table_key_new g n pk type name nullable :
    get_table g n = None -> n <> pk_table_name -> get_table g pk_table_name = Some pk -> length (columns pk) = 2%nat ->
    find_first pk 0 (v_string (string_drop 6 n)) = None -> type = type_Int \/ type = type_String ->
    exists ids g1,
      Forall (fun c => col_name c = object_id_column_name /\ col_cells c = []) ids /\
      changes_to g g1 n (mkTable (ids ++ [mkColumn (mkColumnSpec name type nullable []) EmptyString true []]) 0) /\
      changes_to g1 (sync_create_table_with_primary_key g n type name nullable) pk_table_name
        (append_row [v_string (string_drop 6 n); v_string name] pk)
}.

(** ** A group that satisfies the laws *)
Record PlainGroup := mkPlainGroup { pg_tables : gmap string Table; pg_ids : bool }.

Definition plain_default (t : DataType) (nullable : bool) : Value :=
  if nullable then v_null
  else match t with
       | type_Int => v_int 0
       | type_Bool => v_bool false
       | type_Float => v_float 0
       | type_Double => v_double 0
       | type_String => v_string EmptyString
       | type_Binary => v_binary EmptyString
       | type_Timestamp => v_timestamp 0 0
       | _ => v_other 0
       end.

Definition plain_alter (f : Table -> Table) (g : PlainGroup) (n : string) : PlainGroup :=
  mkPlainGroup (alter f n (pg_tables g)) (pg_ids g).
Definition plain_add (g : PlainGroup) (n : string) (t : Table) : PlainGroup :=
  match pg_tables g !! n with Some _ => g | None => mkPlainGroup (<[n := t]> (pg_tables g)) (pg_ids g) end.
Definition plain_ids (g : PlainGroup) : list Column :=
  if pg_ids g then [mkColumn (mkColumnSpec object_id_column_name type_Int false []) EmptyString false []] else [].
Definition plain_column (t : Table) (s : ColumnSpec) (target : string) : Column :=
  mkColumn s target false (replicate (row_count t) (plain_default (spec_type s) (spec_nullable s))).
Definition plain_insert (c : Z) (s : ColumnSpec) (target : string) (t : Table) : Table :=
  with_columns t (insert_at (Z.to_nat c) (plain_column t s target) (columns t)).

#[global] Instance plain_core : CoreGroup PlainGroup := {|
  table_names g := (map_to_list (pg_tables g)).*1;
  get_table g n := pg_tables g !! n;
  has_object_ids := pg_ids;
  default_value := plain_default;
  get_or_add_table g n := plain_add g n (mkTable [] 0);
  remove_table g n := mkPlainGroup (delete n (pg_tables g)) (pg_ids g);
  insert_column g n c type name nullable := plain_alter (plain_insert c (mkColumnSpec name type nullable []) EmptyString) g n;
  add_subcolumn g n c type name nullable :=
    plain_alter (map_column (Z.to_nat c) (fun x => set_spec (add_sub (mkColumnSpec name type nullable []) (col_spec x)) x)) g n;
  insert_column_link g n c type name target := plain_alter (plain_insert c (mkColumnSpec name type false []) target) g n;
  remove_column g n c := plain_alter (table_remove_column (Z.to_nat c)) g n;
  rename_column g n c name := plain_alter (map_column (Z.to_nat c) (fun x => set_spec (rename_spec name (col_spec x)) x)) g n;
  add_search_index g n c := plain_alter (map_column (Z.to_nat c) (set_index true)) g n;
  remove_search_index g n c := plain_alter (map_column (Z.to_nat c) (set_index false)) g n;
  add_empty_row g n := plain_alter (fun t =>
    mkTable ((fun x => set_cells (col_cells x ++ [plain_default (col_type x) (col_nullable x)]) x) <$> columns t)
      (S (row_count t))) g n;
  set_value g n c r v := plain_alter (map_column (Z.to_nat c) (fun x => set_cells (<[r := v]> (col_cells x)) x)) g n;
  set_string_unique g n c r v :=
    plain_alter (map_column (Z.to_nat c) (fun x => set_cells (<[r := v_string v]> (col_cells x)) x)) g n;
  move_last_over g n r := plain_alter (table_move_last_over r) g n;
  sync_create_table g n := plain_add g n (mkTable (plain_ids g) 0);
  sync_create_table_with_primary_key g n type name nullable :=
    match pg_tables g !! n with
    | Some _ => g
    | None =>
      plain_alter (append_row [v_string (string_drop 6 n); v_string name])
        (plain_add g n (mkTable (plain_ids g ++ [mkColumn (mkColumnSpec name type nullable []) EmptyString true []]) 0))
        pk_table_name
    end
|}.

Lemma plain_alter_changes f g n t : get_table g n = Some t -> changes_to g (plain_alter f g n) n (f t).
Proof.
  intros E. simpl in E. split; [|split; [|done]]; cbn.
  - by rewrite lookup_alter_eq, E.
  - intros m Hm. by rewrite lookup_alter_ne.
Qed.

Lemma plain_add_new g n t : get_table g n = None -> changes_to g (plain_add g n t) n t.
Proof.
  intros E. simpl in E. unfold plain_add. rewrite E. split; [|split; [|done]]; cbn.
  - by rewrite lookup_insert_eq.
  - intros m Hm. by rewrite lookup_insert_ne.
Qed.

Lemma plain_ids_hidden g : Forall (fun c => col_name c = object_id_column_name /\ col_cells c = []) (plain_ids g).
Proof. unfold plain_ids. destruct (pg_ids g); by repeat constructor. Qed.

#[global] Instance plain_laws : CoreLaws PlainGroup.
Proof.
  constructor; try (intros; match goal with
    | H0 : get_table ?g ?n = Some ?t |- changes_to _ ?x _ _ =>
      let y := eval cbv [insert_column add_subcolumn insert_column_link remove_column rename_column add_search_index
        remove_search_index add_empty_row set_value set_string_unique move_last_over plain_core] in x in
      match y with plain_alter ?f _ _ => exact (plain_alter_changes f g n t H0) end
    end).
  - intros g. apply NoDup_fst_map_to_list.
  - intros g n. cbn. rewrite list_elem_of_fmap. split.
    + intros ([m t] & -> & Hm%elem_of_map_to_list). cbn. by rewrite Hm.
    + intros [t Ht]. exists (n, t). split; [done|]. by apply elem_of_map_to_list.
  - intros g n t E. cbn in *. unfold plain_add. by rewrite E.
  - intros g n E. by apply plain_add_new.
  - intros g n. split; [apply lookup_delete_eq|]. split; [|done]. intros m Hm. by apply lookup_delete_ne.
  - intros g n t E. cbn in *. unfold plain_add. by rewrite E.
  - intros g n E. exists (plain_ids g). split; [by apply plain_add_new|apply plain_ids_hidden].
  - intros g n t type name nullable E. cbn in *. by rewrite E.
  - intros g n pk type name nullable E Hn Epk _ _ _. cbn in E. exists (plain_ids g), (plain_add g n
      (mkTable (plain_ids g ++ [mkColumn (mkColumnSpec name type nullable []) EmptyString true []]) 0)).
    split; [apply plain_ids_hidden|]. split; [by apply plain_add_new|]. cbn. rewrite E.
    apply plain_alter_changes. unfold plain_add. rewrite E. cbn in *. by rewrite lookup_insert_ne.
Qed.
