(* ===== verification/ObjectStore.v ===== *)
(** * The object store

    [object_store.cpp] and the parts of [object_schema.cpp] that read tables:
    mapping classes to tables and properties to columns, the metadata tables,
    checking lists of schema changes, and reading the schema back. *)
From S2P Require Import Prelude.
From S2P Require Import IndexSets.
From S2P Require Import SchemaTypes.
From S2P Require Import Schemas.
From S2P Require Import CoreTables.

(** ** Names *)
Definition c_metadataTableName : string := "metadata".
Definition c_versionColumnName : string := "version".
Definition c_primaryKeyTableName : string := pk_table_name.
Definition c_primaryKeyObjectClassColumnName : string := "pk_table".
Definition c_primaryKeyPropertyNameColumnName : string := "pk_property".
Definition c_object_table_prefix : string := "class_".
Definition ArrayColumnName : string := "!ARRAY_VALUE".
Definition NotVersioned : Z := 2 ^ 64 - 1.

Fixpoint begins_with (s prefix : string) {struct prefix} : bool :=
  match prefix, s with
  | EmptyString, _ => true
  | String a prefix, String b s => bool_decide (a = b) && begins_with s prefix
  | String _ _, EmptyString => false
  end.

(** The null [StringData] of the other case has size 0. *)
Definition object_type_for_table_name (table_name : string) : string :=
  if begins_with table_name c_object_table_prefix then string_drop 6 table_name else EmptyString.

Definition table_name_for_object_type (object_type : string) : string := (c_object_table_prefix +:+ object_type)%string.

(** ** Property types and column types *)
Definition to_core_type (t : PropertyType) : Result DataType :=
  if pt_eqb t PT_Object then Crash
  else if pt_eqb t PT_Any then Crash
  else
    let base := pt_base t in
    if base =? PT_Int then Ok type_Int
    else if base =? PT_Bool then Ok type_Bool
    else if base =? PT_Float then Ok type_Float
    else if base =? PT_Double then Ok type_Double
    else if base =? PT_String then Ok type_String
    else if base =? PT_Date then Ok type_Timestamp
    else if base =? PT_Data then Ok type_Binary
    else Crash.

(** The recursion reads the first column of the subdescriptor. *)
Fixpoint from_core_type (c : ColumnSpec) : Result PropertyType :=
  let '(mkColumnSpec _ type nullable sub) := c in
  let optional := if nullable then PT_Nullable else PT_Required in
  match type with
  | type_Int => Ok (pt_or PT_Int optional)
  | type_Float => Ok (pt_or PT_Float optional)
  | type_Double => Ok (pt_or PT_Double optional)
  | type_Bool => Ok (pt_or PT_Bool optional)
  | type_String => Ok (pt_or PT_String optional)
  | type_Binary => Ok (pt_or PT_Data optional)
  | type_Timestamp => Ok (pt_or PT_Date optional)
  | type_Mixed => Ok (pt_or PT_Any optional)
  | type_Link => Ok (pt_or PT_Object PT_Nullable)
  | type_LinkList => Ok (pt_or PT_Object PT_Array)
  | type_Table =>
    match sub with
    | [] => Crash
    | s :: _ => t ← from_core_type s; Ok (pt_or t PT_Array)
    end
  | type_OldDateTime => Crash
  end.

(** [None] for columns that are not part of the schema. *)
Definition property_for_column (c : Column) (column_index : nat) : Result (option Property) :=
  if string_eqb (col_name c) object_id_column_name then Ok None
  else
    let foreign :=
      match col_type c, spec_sub (col_spec c) with
      | type_Table, [s] => negb (string_eqb (spec_name s) ArrayColumnName)
      | type_Table, _ => true
      | _, _ => false
      end in
    if foreign then Ok None
    else
      type ← from_core_type (col_spec c);
      Ok (Some (mkProperty (col_name c) type
        (if pt_eqb type PT_Object then object_type_for_table_name (col_target c) else EmptyString)
        EmptyString false (col_index c) (Z.of_nat column_index))).

Section store.
Context {G : Type} `{CoreGroup G}.

Definition property_for_column_index (t : Table) (column_index : nat) : Result (option Property) :=
  match columns t !! column_index with
  | Some c => property_for_column c column_index
  | None => Crash
  end.

(** ** Metadata *)

(** [uint64_t] values are stored as [int64_t]. *)
Definition to_int64 (v : Z) : Z := (v + 2 ^ 63) mod 2 ^ 64 - 2 ^ 63.
Definition to_uint64 (v : Z) : Z := v mod 2 ^ 64.

Definition column_count (g : G) (n : string) : nat :=
  match get_table g n with Some t => length (columns t) | None => O end.

Definition create_metadata_tables (g : G) : G :=
  let g := get_or_add_table (get_or_add_table g c_primaryKeyTableName) c_metadataTableName in
  let g :=
    if (column_count g c_metadataTableName =? 0)%nat then
      set_value (add_empty_row (insert_column g c_metadataTableName 0 type_Int c_versionColumnName false)
                   c_metadataTableName)
        c_metadataTableName 0 0 (v_int (to_int64 NotVersioned))
    else g in
  let g :=
    if (column_count g c_primaryKeyTableName =? 0)%nat then
      insert_column (insert_column g c_primaryKeyTableName 0 type_String c_primaryKeyObjectClassColumnName false)
        c_primaryKeyTableName 1 type_String c_primaryKeyPropertyNameColumnName false
    else g in
  add_search_index g c_primaryKeyTableName 0.

Definition write_schema_version (g : G) (version : Z) : G :=
  set_value g c_metadataTableName 0 0 (v_int (to_int64 version)).

Definition set_schema_version (g : G) (version : Z) : G := write_schema_version (create_metadata_tables g) version.

Definition get_schema_version (g : G) : Z :=
  match get_table g c_metadataTableName with
  | None => NotVersioned
  | Some t =>
    if (length (columns t) =? 0)%nat then NotVersioned
    else match get_cell t 0 0 with Some (v_int v) => to_uint64 v | _ => 0 end
  end.

Definition get_string (t : Table) (c r : nat) : string :=
  match get_cell t c r with Some (v_string s) => s | _ => EmptyString end.

Definition get_primary_key_for_object (g : G) (object_type : string) : string :=
  match get_table g c_primaryKeyTableName with
  | None => EmptyString
  | Some t =>
    match find_first t 0 (v_string object_type) with
    | None => EmptyString
    | Some row => get_string t 1 row
    end
  end.

(** [table->] on the null table is undefined. *)
Definition set_primary_key_for_object (g : G) (object_type primary_key : string) : Result G :=
  match get_table g c_primaryKeyTableName with
  | None => Crash
  | Some t =>
    let row := find_first t 0 (v_string object_type) in
    if has_object_ids g then
      match row with
      | None => if empty primary_key then Ok g else Crash
      | Some row =>
        if empty primary_key then Crash
        else if string_eqb (get_string t 1 row) primary_key then Ok g else Crash
      end
    else
      match row with
      | None =>
        if empty primary_key then Ok g
        else
          let row := row_count t in
          let g := set_string_unique (add_empty_row g c_primaryKeyTableName) c_primaryKeyTableName 0 row object_type in
          Ok (set_value g c_primaryKeyTableName 1 row (v_string primary_key))
      | Some row =>
        if empty primary_key then Ok (move_last_over g c_primaryKeyTableName row)
        else Ok (set_value g c_primaryKeyTableName 1 row (v_string primary_key))
      end
  end.

(** ** Tables and columns *)
Definition table_for_object_type (g : G) (object_type : string) : option Table :=
  get_table g (table_name_for_object_type object_type).

Definition insert_property_column (g : G) (n : string) (p : Property) (col_ndx : Z) : Result G :=
  if pt_eqb (prop_type p) PT_LinkingObjects then Crash
  else if pt_eqb (prop_type p) PT_Object then
    let target_name := table_name_for_object_type (object_type p) in
    match get_table g target_name with
    | None => Crash
    | Some _ =>
      Ok (insert_column_link g n col_ndx (if is_array (prop_type p) then type_LinkList else type_Link)
            (prop_name p) target_name)
    end
  else if is_array (prop_type p) then
    type ← to_core_type (pt_base (prop_type p));
    Ok (add_subcolumn (insert_column g n col_ndx type_Table (prop_name p) false) n col_ndx type ArrayColumnName
          (is_nullable (prop_type p)))
  else
    type ← to_core_type (prop_type p);
    let g := insert_column g n col_ndx type (prop_name p) (is_nullable (prop_type p)) in
    Ok (if requires_index p then add_search_index g n col_ndx else g).

Definition add_column (g : G) (n : string) (p : Property) : Result G :=
  insert_property_column g n p (Z.of_nat (column_count g n)).

Definition replace_column (g : G) (n : string) (old_property new_property : Property) : Result G :=
  g ← insert_property_column g n new_property (table_column old_property);
  Ok (remove_column g n (table_column old_property + 1)).

Definition create_table (g : G) (o : ObjectSchema) : Result G :=
  let name := table_name_for_object_type (os_name o) in
  match primary_key_property o with
  | Some p =>
    type ← to_core_type (prop_type p);
    Ok (sync_create_table_with_primary_key g name type (prop_name p) (is_nullable (prop_type p)))
  | None => Ok (sync_create_table g name)
  end.

(** The key column was created with the table. *)
Definition add_initial_column (n : string) (g : G) (p : Property) : Result G :=
  if is_primary p then Ok g
  else match get_table g n with None => Crash | Some _ => add_column g n p end.

Definition add_initial_columns (g : G) (o : ObjectSchema) : Result G :=
  fold_result (add_initial_column (table_name_for_object_type (os_name o))) (persisted_properties o) g.

(** The getters and setters check the column's type. *)
Definition value_type (base : PropertyType) : option DataType :=
  if base =? PT_Int then Some type_Int
  else if base =? PT_Bool then Some type_Bool
  else if base =? PT_Float then Some type_Float
  else if base =? PT_Double then Some type_Double
  else if base =? PT_String then Some type_String
  else if base =? PT_Data then Some type_Binary
  else if base =? PT_Date then Some type_Timestamp
  else None.

Definition column_has_type (t : Table) (c : Z) (type : DataType) : bool :=
  match columns t !! Z.to_nat c with Some col => bool_decide (col_type col = type) | None => false end.

Definition copy_value (n : string) (c : Z) (type : DataType) (g : G) (i : nat) : Result G :=
  match get_table g n with
  | None => Crash
  | Some t =>
    if column_has_type t c type && column_has_type t (c + 1) type then
      match get_cell t (Z.to_nat (c + 1)) i with
      | Some v => Ok (set_value g n c i v)
      | None => Crash
      end
    else Crash
  end.

Definition copy_property_values (g : G) (n : string) (p : Property) : Result G :=
  match value_type (pt_base (prop_type p)), get_table g n with
  | _, None => Crash
  | None, _ => Ok g
  | Some type, Some t => fold_result (copy_value n (table_column p) type) (seq 0 (row_count t)) g
  end.

Definition make_property_optional (g : G) (n : string) (property : Property) : Result G :=
  let property := set_prop_type (pt_or (prop_type property) PT_Nullable) property in
  g ← insert_property_column g n property (table_column property);
  g ← copy_property_values g n property;
  Ok (remove_column g n (table_column property + 1)).

Definition make_property_required (g : G) (n : string) (property : Property) : Result G :=
  let property := set_prop_type (pt_and (prop_type property) (pt_not PT_Nullable)) property in
  g ← insert_property_column g n property (table_column property);
  Ok (remove_column g n (table_column property + 1)).

(** [get_distinct_view(column).size()]: the number of different values. *)
Definition distinct_count (c : Column) : nat := length (remove_dups (col_cells c)).

Definition validate_primary_column_uniqueness (g : G) (object_type primary_property : string) : Result () :=
  match table_for_object_type g object_type with
  | None => Crash
  | Some t =>
    match col ← get_column_index t primary_property; columns t !! col with
    | None => Crash
    | Some col =>
      if (distinct_count col =? row_count t)%nat then Ok tt
      else Throw (DuplicatePrimaryKeyValueException object_type primary_property)
    end
  end.

Definition validate_all_primary_columns (g : G) : Result () :=
  match get_table g c_primaryKeyTableName with
  | None => Crash
  | Some t =>
    fold_result (fun _ i => validate_primary_column_uniqueness g (get_string t 0 i) (get_string t 1 i))
      (seq 0 (row_count t)) tt
  end.

(** ** Reading the schema *)
Fixpoint table_properties (cols : list Column) (i : nat) : Result (list Property) :=
  match cols with
  | [] => Ok []
  | c :: cols =>
    p ← property_for_column c i;
    rest ← table_properties cols (S i);
    Ok (match p with Some p => p :: rest | None => rest end)
  end.

Definition ObjectSchema_from_table (g : G) (name : string) (table : option Table) : Result ObjectSchema :=
  match table with
  | None => Crash
  | Some t =>
    props ← table_properties (columns t) 0;
    Ok (set_primary_key_property (mkObjectSchema name props [] (get_primary_key_for_object g name)))
  end.

Fixpoint class_schemas (g : G) (names : list string) : Result (list ObjectSchema) :=
  match names with
  | [] => Ok []
  | n :: names =>
    if empty (object_type_for_table_name n) then class_schemas g names
    else
      o ← ObjectSchema_from_table g (object_type_for_table_name n) (get_table g n);
      rest ← class_schemas g names;
      Ok (o :: rest)
  end.

Definition schema_from_group `{StdSort} (g : G) : Result Schema :=
  types ← class_schemas g (table_names g); Ok (Schema_make types).

Definition set_object_columns (g : G) (o : ObjectSchema) : ObjectSchema :=
  match table_for_object_type g (os_name o) with
  | None => o
  | Some t =>
    set_persisted
      ((fun p => set_table_column (match get_column_index t (prop_name p) with Some c => Z.of_nat c | None => npos end) p)
         <$> persisted_properties o) o
  end.

Definition set_schema_columns (g : G) (schema : Schema) : Schema := set_object_columns g <$> schema.

Definition delete_data_for_object (g : G) (object_type : string) : Result G :=
  match table_for_object_type g object_type with
  | None => Ok g
  | Some _ => set_primary_key_for_object (remove_table g (table_name_for_object_type object_type)) object_type EmptyString
  end.

Definition is_empty_class (g : G) (n : string) : bool :=
  let object_type := object_type_for_table_name n in
  if empty object_type || begins_with object_type "__" then true
  else match get_table g n with Some t => (row_count t =? 0)%nat | None => true end.

Definition is_empty (g : G) : bool := forallb (is_empty_class g) (table_names g).
End store.
