(* ===== verification/StoreChanges.v ===== *)
(** * Checking and applying schema changes

    The visitors of [object_store.cpp] over lists of schema changes: which
    changes each schema mode accepts, how they are applied to the tables, and
    [apply_schema_changes], which puts them together. An accessor the code
    caches between changes ([TableHelper]) is looked up again each time. *)
From S2P Require Import Prelude.
From S2P Require Import IndexSets.
From S2P Require Import SchemaTypes.
From S2P Require Import Schemas.
From S2P Require Import CoreTables.
From S2P Require Import ObjectStore.

(** ** Checking *)
Definition change_error (fmt : string) (o : ObjectSchema) (p : Property) : SchemaError :=
  mkSchemaError fmt [os_name o; prop_name p].

(** [SchemaDifferenceExplainer]: the errors a change adds. *)
Definition explain (sc : SchemaChange) : list SchemaError :=
  match sc with
  | AddTable o => [mkSchemaError "Class '%1' has been added." [os_name o]]
  | RemoveTable _ => []
  | AddInitialProperties _ => []
  | AddProperty o p => [change_error "Property '%1.%2' has been added." o p]
  | RemoveProperty o p => [change_error "Property '%1.%2' has been removed." o p]
  | ChangePropertyType o old new =>
    [mkSchemaError "Property '%1.%2' has been changed from '%3' to '%4'."
       [os_name o; prop_name new; type_string old; type_string new]]
  | MakePropertyNullable o p => [change_error "Property '%1.%2' has been made optional." o p]
  | MakePropertyRequired o p => [change_error "Property '%1.%2' has been made required." o p]
  | ChangePrimaryKey o (Some p) =>
    if negb (empty (primary_key o))
    then [mkSchemaError "Primary Key for class '%1' has changed from '%2' to '%3'." [os_name o; primary_key o; prop_name p]]
    else [mkSchemaError "Primary Key for class '%1' has been added." [os_name o]]
  | ChangePrimaryKey o None => [mkSchemaError "Primary Key for class '%1' has been removed." [os_name o]]
  | AddIndex o p => [change_error "Property '%1.%2' has been made indexed." o p]
  | RemoveIndex o p => [change_error "Property '%1.%2' has been made unindexed." o p]
  end.

Definition verify_no_errors (error_type : list SchemaError -> Exception) (verifier : SchemaChange -> list SchemaError)
    (changes : list SchemaChange) : Result () :=
  match flat_map verifier changes with
  | [] => Ok tt
  | errors => Throw (error_type errors)
  end.

Definition change_needs_migration (sc : SchemaChange) : bool :=
  match sc with
  | AddIndex _ _ => false
  | AddInitialProperties _ => false
  | AddProperty _ _ => true
  | AddTable _ => false
  | RemoveTable _ => false
  | ChangePrimaryKey _ _ => true
  | ChangePropertyType _ _ _ => true
  | MakePropertyNullable _ _ => true
  | MakePropertyRequired _ _ => true
  | RemoveIndex _ _ => false
  | RemoveProperty _ _ => true
  end.
Definition needs_migration (changes : list SchemaChange) : bool := existsb change_needs_migration changes.

Definition verify_no_changes_required (changes : list SchemaChange) : Result () :=
  verify_no_errors SchemaMismatchException explain changes.

Definition no_migration_verifier (sc : SchemaChange) : list SchemaError :=
  match sc with
  | AddTable _ | AddInitialProperties _ | AddIndex _ _ | RemoveIndex _ _ => []
  | _ => explain sc
  end.
Definition verify_no_migration_required (changes : list SchemaChange) : Result () :=
  verify_no_errors SchemaMismatchException no_migration_verifier changes.

Definition additive_verifier (sc : SchemaChange) : list SchemaError :=
  match sc with
  | AddTable _ | AddInitialProperties _ | AddProperty _ _ | RemoveProperty _ _ | AddIndex _ _ | RemoveIndex _ _ => []
  | _ => explain sc
  end.
Definition is_index_change (sc : SchemaChange) : bool :=
  match sc with AddIndex _ _ | RemoveIndex _ _ => true | _ => false end.
Definition is_other_change (sc : SchemaChange) : bool :=
  match sc with AddTable _ | AddInitialProperties _ | AddProperty _ _ => true | _ => false end.
Definition verify_valid_additive_changes (changes : list SchemaChange) (update_indexes : bool) : Result bool :=
  _ ← verify_no_errors InvalidSchemaChangeException additive_verifier changes;
  Ok (existsb is_other_change changes || (existsb is_index_change changes && update_indexes)).

Definition external_verifier (sc : SchemaChange) : list SchemaError :=
  match sc with
  | AddTable _ | AddInitialProperties _ | AddProperty _ _ | AddIndex _ _ | RemoveIndex _ _ => []
  | RemoveTable o => [mkSchemaError "Class '%1' has been removed." [os_name o]]
  | _ => explain sc
  end.
Definition verify_valid_external_changes (changes : list SchemaChange) : Result () :=
  verify_no_errors InvalidExternalSchemaChangeException external_verifier changes.

Definition immutable_verifier (sc : SchemaChange) : list SchemaError :=
  match sc with
  | AddTable _ | AddInitialProperties _ | RemoveProperty _ _ | AddIndex _ _ | RemoveIndex _ _ => []
  | _ => explain sc
  end.
Definition verify_compatible_for_immutable_and_readonly (changes : list SchemaChange) : Result () :=
  verify_no_errors InvalidSchemaChangeException immutable_verifier changes.

(** ** Applying *)
Inductive SchemaMode := Automatic | Immutable | ReadOnlyAlternative | ResetFile | Additive | Manual.

Section apply.
Context {G : Type} `{CoreGroup G} `{CharSign, StdSort, StdPartition}.

(** [TableHelper]: the table of an object schema, which must exist. *)
Definition table_helper (g : G) (o : ObjectSchema) : Result string :=
  match table_for_object_type g (os_name o) with
  | Some _ => Ok (table_name_for_object_type (os_name o))
  | None => Crash
  end.

Definition new_primary_key (p : option Property) : string :=
  match p with Some p => prop_name p | None => EmptyString end.

Definition apply_index (g : G) (sc : SchemaChange) : Result G :=
  match sc with
  | AddIndex o p => n ← table_helper g o; Ok (add_search_index g n (table_column p))
  | RemoveIndex o p => n ← table_helper g o; Ok (remove_search_index g n (table_column p))
  | _ => Ok g
  end.

(** The changes are applied as they are visited; the errors of the others are
    reported at the end. *)
Definition non_migration_applier (st : G * list SchemaError) (sc : SchemaChange) : Result (G * list SchemaError) :=
  let '(g, errors) := st in
  match sc with
  | AddTable o => g ← create_table g o; Ok (g, errors)
  | AddInitialProperties o => g ← add_initial_columns g o; Ok (g, errors)
  | AddIndex _ _ | RemoveIndex _ _ => g ← apply_index g sc; Ok (g, errors)
  | _ => Ok (g, errors ++ explain sc)
  end.
Definition apply_non_migration_changes (g : G) (changes : list SchemaChange) : Result G :=
  st ← fold_result non_migration_applier changes (g, []);
  match st.2 with
  | [] => Ok st.1
  | errors => Throw (SchemaMismatchException errors)
  end.

Definition initial_applier (g : G) (sc : SchemaChange) : Result G :=
  match sc with
  | AddTable o => create_table g o
  | RemoveTable _ => Ok g
  | AddInitialProperties o => add_initial_columns g o
  | AddProperty o p => n ← table_helper g o; add_column g n p
  | RemoveProperty o p => n ← table_helper g o; Ok (remove_column g n (table_column p))
  | MakePropertyNullable o p => n ← table_helper g o; make_property_optional g n p
  | MakePropertyRequired o p => n ← table_helper g o; make_property_required g n p
  | ChangePrimaryKey o p => set_primary_key_for_object g (os_name o) (new_primary_key p)
  | AddIndex _ _ | RemoveIndex _ _ => apply_index g sc
  | ChangePropertyType o old new => n ← table_helper g o; replace_column g n old new
  end.
Definition create_initial_tables (g : G) (changes : list SchemaChange) : Result G := fold_result initial_applier changes g.

Definition additive_applier (update_indexes : bool) (g : G) (sc : SchemaChange) : Result G :=
  match sc with
  | AddTable o => create_table g o
  | AddInitialProperties o => add_initial_columns g o
  | AddProperty o p => n ← table_helper g o; add_column g n p
  | AddIndex _ _ | RemoveIndex _ _ => if update_indexes then apply_index g sc else Ok g
  | RemoveTable _ | RemoveProperty _ _ | ChangePrimaryKey _ _ | ChangePropertyType _ _ _
  | MakePropertyNullable _ _ | MakePropertyRequired _ _ => Ok g
  end.
Definition apply_additive_changes (g : G) (changes : list SchemaChange) (update_indexes : bool) : Result G :=
  fold_result (additive_applier update_indexes) changes g.

Definition pre_migration_applier (g : G) (sc : SchemaChange) : Result G :=
  match sc with
  | AddTable o => create_table g o
  | RemoveTable _ => Ok g
  | AddInitialProperties o => add_initial_columns g o
  | AddProperty o p => n ← table_helper g o; add_column g n p
  | RemoveProperty _ _ => Ok g
  | ChangePropertyType o old new => n ← table_helper g o; replace_column g n old new
  | MakePropertyNullable o p => n ← table_helper g o; make_property_optional g n p
  | MakePropertyRequired o p => n ← table_helper g o; make_property_required g n p
  | ChangePrimaryKey o p => set_primary_key_for_object g (os_name o) (new_primary_key p)
  | AddIndex _ _ | RemoveIndex _ _ => apply_index g sc
  end.
Definition apply_pre_migration_changes (g : G) (changes : list SchemaChange) : Result G :=
  fold_result pre_migration_applier changes g.

(** [initial_schema.find(...)->] at the end of the schema is undefined. *)
Definition renamed_away (initial_schema : Schema) (o : ObjectSchema) (p : Property) : Result () :=
  match initial_schema with
  | [] => Ok tt
  | _ =>
    match find_object initial_schema (os_name o) with
    | None => Crash
    | Some i =>
      match property_for_name i (prop_name p) with
      | Some _ => Ok tt
      | None => Throw (LogicError (change_error "Renamed property '%1.%2' does not exist." o p))
      end
    end
  end.

Definition post_migration_applier (initial_schema : Schema) (did_reread_schema : bool) (g : G) (sc : SchemaChange) : Result G :=
  match sc with
  | RemoveProperty o p =>
    _ ← renamed_away initial_schema o p;
    n ← table_helper g o;
    Ok (remove_column g n (table_column p))
  | ChangePrimaryKey o (Some p) => _ ← validate_primary_column_uniqueness g (os_name o) (prop_name p); Ok g
  | ChangePrimaryKey _ None => Ok g
  | AddTable o => create_table g o
  | AddInitialProperties o => if did_reread_schema then add_initial_columns g o else Ok g
  | AddIndex _ _ | RemoveIndex _ _ => apply_index g sc
  | RemoveTable _ | ChangePropertyType _ _ _ | MakePropertyNullable _ _ | MakePropertyRequired _ _ | AddProperty _ _ => Ok g
  end.
Definition apply_post_migration_changes (g : G) (changes : list SchemaChange) (initial_schema : Schema)
    (did_reread_schema : bool) : Result G :=
  fold_result (post_migration_applier initial_schema did_reread_schema) changes g.

(** ** Putting it together

    The result is the group and the target schema, whose column numbers are
    updated. [create_default_permissions] belongs to partial synchronization and
    is a parameter; a migration function may change the group and the target
    schema. *)
Variable create_default_permissions : G -> list SchemaChange -> string -> Result G.

Definition apply_manual (g : G) (target_schema : Schema) (target_schema_version : Z)
    (migration_function : option (G * Schema -> Result (G * Schema))) : Result (G * Schema) :=
  let target_schema := set_schema_columns g target_schema in
  st ← match migration_function with Some f => f (g, target_schema) | None => Ok (g, target_schema) end;
  let '(g, target_schema) := st in
  existing ← schema_from_group g;
  _ ← verify_no_changes_required (compare existing target_schema false);
  _ ← validate_all_primary_columns g;
  let target_schema := set_schema_columns g target_schema in
  Ok (write_schema_version g target_schema_version, target_schema).

Definition apply_migration (g : G) (target_schema : Schema) (target_schema_version : Z) (changes : list SchemaChange)
    (migration_function : option (G * Schema -> Result (G * Schema))) : Result (G * Schema) :=
  old_schema ← schema_from_group g;
  g ← apply_pre_migration_changes g changes;
  st ← match migration_function with
       | Some f =>
         st ← f (g, set_schema_columns g target_schema);
         let '(g, target_schema) := st in
         schema ← schema_from_group g;
         g ← apply_post_migration_changes g (compare schema target_schema false) old_schema true;
         _ ← validate_all_primary_columns g;
         Ok (g, target_schema)
       | None => g ← apply_post_migration_changes g changes [] false; Ok (g, target_schema)
       end;
  let '(g, target_schema) := st in
  let g := write_schema_version g target_schema_version in
  Ok (g, set_schema_columns g target_schema).

Definition apply_schema_changes (g : G) (schema_version : Z) (target_schema : Schema) (target_schema_version : Z)
    (mode : SchemaMode) (changes : list SchemaChange) (sync_user_id : option string)
    (migration_function : option (G * Schema -> Result (G * Schema))) : Result (G * Schema) :=
  let g := create_metadata_tables g in
  match mode with
  | Additive =>
    let target_schema_is_newer := (schema_version <? target_schema_version) || (schema_version =? NotVersioned) in
    g ← apply_additive_changes g changes true;
    let g := if target_schema_is_newer then write_schema_version g target_schema_version else g in
    g ← match sync_user_id with Some user => create_default_permissions g changes user | None => Ok g end;
    Ok (g, set_schema_columns g target_schema)
  | _ =>
    if schema_version =? NotVersioned then
      g ← create_initial_tables g changes;
      let g := write_schema_version g target_schema_version in
      Ok (g, set_schema_columns g target_schema)
    else
      match mode with
      | Manual => apply_manual g target_schema target_schema_version migration_function
      | _ =>
        if schema_version =? target_schema_version then
          g ← apply_non_migration_changes g changes;
          Ok (g, set_schema_columns g target_schema)
        else apply_migration g target_schema target_schema_version changes migration_function
      end
  end.

(** ** Renaming a property in a migration *)
Definition found {A} (o : option A) : bool := match o with Some _ => true | None => false end.

Definition shift_column (column_to_remove old_column : Z) (p : Property) : Property :=
  if table_column p =? column_to_remove then set_table_column old_column p
  else if column_to_remove <? table_column p then set_table_column (table_column p - 1) p
  else p.

Definition rename_error (fmt : string) (args : list string) : Exception := LogicError (mkSchemaError fmt args).

(** Merge the old column into the column of the same new name. *)
Definition merge_columns (g : G) (n : string) (target_schema : Schema) (i : nat) (target : ObjectSchema)
    (old_property new_property : Property) (new_name : string) : Result (G * Schema) :=
  let column_to_remove := table_column new_property in
  let g := rename_column g n (table_column old_property) new_name in
  let g := remove_column g n column_to_remove in
  let target_schema :=
    <[i := set_persisted (shift_column column_to_remove (table_column old_property) <$> persisted_properties target) target]>
      target_schema in
  if is_nullable (prop_type new_property) && negb (is_nullable (prop_type old_property)) then
    g ← make_property_optional g n (set_table_column (table_column old_property) new_property);
    Ok (g, target_schema)
  else Ok (g, target_schema).

Definition rename_property (g : G) (target_schema : Schema) (object_type old_name new_name : string) : Result (G * Schema) :=
  match table_for_object_type g object_type with
  | None =>
    Throw (rename_error "Cannot rename properties for type '%1' because it does not exist." [object_type])
  | Some t =>
    let n := table_name_for_object_type object_type in
    let i := find target_schema object_type in
    match target_schema !! i with
    | None =>
      Throw (rename_error "Cannot rename properties for type '%1' because it has been removed from the Realm." [object_type])
    | Some target =>
      if found (property_for_name target old_name) then
        Throw (rename_error "Cannot rename property '%1.%2' to '%3' because the source property still exists."
                 [object_type; old_name; new_name])
      else
        table_object_schema ← ObjectSchema_from_table g object_type (Some t);
        match property_for_name table_object_schema old_name with
        | None =>
          Throw (rename_error "Cannot rename property '%1.%2' because it does not exist." [object_type; old_name])
        | Some old_property =>
          match property_for_name table_object_schema new_name with
          | None => Ok (rename_column g n (table_column old_property) new_name, target_schema)
          | Some new_property =>
            if negb (pt_eqb (prop_type old_property) (prop_type new_property))
               || negb (string_eqb (SchemaTypes.object_type old_property) (SchemaTypes.object_type new_property)) then
              Throw (rename_error "Cannot rename property '%1.%2' to '%3' because it would change from type '%4' to '%5'."
                       [object_type; old_name; new_name; type_string old_property; type_string new_property])
            else if is_nullable (prop_type old_property) && negb (is_nullable (prop_type new_property)) then
              Throw (rename_error "Cannot rename property '%1.%2' to '%3' because it would change from optional to required."
                       [object_type; old_name; new_name])
            else merge_columns g n target_schema i target old_property new_property new_name
          end
        end
    end
  end.
End apply.
