(* ===== verification/StoreFacts.v ===== *)
(** * Columns of properties

    The names of class tables, how operations on one table compose, and what
    inserting, replacing and converting the column of a property does to the
    table. *)
From S2P Require Import Prelude.
From S2P Require Import SchemaTypes.
From S2P Require Import Schemas.
From S2P Require Import SchemaValidation.
From S2P Require Import CoreTables.
From S2P Require Import ObjectStore.

(** ** Names *)
Lemma begins_with_app s prefix : begins_with s prefix = true <-> exists rest, s = (prefix +:+ rest)%string.
Proof.
  revert s. induction prefix as [|a prefix IH]; intros s; simpl.
  - split; [by exists s|done].
  - destruct s as [|b s]; simpl.
    + split; [done|]. by intros [rest ?].
    + rewrite andb_true_iff, bool_decide_eq_true, IH. split.
      * intros [-> [rest ->]]. by exists rest.
      * intros [rest [= -> ->]]. eauto.
Qed.

Lemma object_type_of_table_name x : object_type_for_table_name (table_name_for_object_type x) = x.
Proof. done. Qed.

Lemma table_name_of_object_type n : object_type_for_table_name n <> EmptyString ->
  n = table_name_for_object_type (object_type_for_table_name n).
Proof.
  unfold object_type_for_table_name. destruct (begins_with n c_object_table_prefix) eqn:E; [|done].
  apply begins_with_app in E as [rest ->]. done.
Qed.

#[global] Instance table_name_inj : Inj (=) (=) table_name_for_object_type.
Proof. intros x y E. rewrite <- (object_type_of_table_name x), E. apply object_type_of_table_name. Qed.

Lemma table_name_pk x : table_name_for_object_type x <> c_primaryKeyTableName.
Proof. done. Qed.
Lemma table_name_metadata x : table_name_for_object_type x <> c_metadataTableName.
Proof. done. Qed.

(** ** Lists of columns *)
Lemma insert_at_length {A} c (x : A) l : (c <= length l)%nat -> length (insert_at c x l) = S (length l).
Proof. intros Hc. unfold insert_at. rewrite length_app, length_take, length_cons, length_drop. lia. Qed.

Lemma insert_at_end {A} (x : A) l : insert_at (length l) x l = l ++ [x].
Proof. unfold insert_at. by rewrite take_ge, drop_ge. Qed.

Lemma insert_at_split {A} (x : A) l k : insert_at (length l) x (l ++ k) = l ++ x :: k.
Proof. unfold insert_at. by rewrite take_app_length, drop_app_length. Qed.

Lemma fmap_insert_at {A B} (f : A -> B) c x l : f <$> insert_at c x l = insert_at c (f x) (f <$> l).
Proof. unfold insert_at. by rewrite fmap_app, fmap_take, fmap_cons, fmap_drop. Qed.

Lemma insert_at_lookup {A} c (x : A) l : (c <= length l)%nat -> insert_at c x l !! c = Some x.
Proof.
  intros Hc. unfold insert_at. rewrite lookup_app_r by (rewrite length_take; lia).
  by rewrite length_take, Nat.min_l, Nat.sub_diag.
Qed.

Lemma insert_at_next {A} c (x : A) l : (c <= length l)%nat -> insert_at c x l !! S c = l !! c.
Proof.
  intros Hc. unfold insert_at. rewrite lookup_app_r by (rewrite length_take; lia). rewrite length_take, Nat.min_l by done.
  replace (S c - c)%nat with 1%nat by lia. change (drop c l !! 0%nat = l !! c).
  by rewrite lookup_drop, Nat.add_0_r.
Qed.

(** Inserting a column and removing the one after it replaces the column. *)
Lemma delete_insert_at {A} c (x : A) l : (c < length l)%nat -> delete (S c) (insert_at c x l) = <[c := x]> l.
Proof.
  intros Hc. destruct (lookup_lt_is_Some_2 l c Hc) as [y Hy].
  rewrite <- (take_drop_middle l c y Hy) at 1. unfold insert_at.
  assert (length (take c l) = c) as El by (rewrite length_take; lia).
  rewrite take_app_length', drop_app_length' by done.
  rewrite insert_take_drop by done.
  transitivity (delete (length (take c l ++ [x])) ((take c l ++ [x]) ++ y :: drop (S c) l)).
  - rewrite length_app, El. cbn [length]. rewrite Nat.add_1_r, <- app_assoc. done.
  - rewrite delete_middle. by rewrite <- app_assoc.
Qed.

(** ** Operations on one table *)
Section one_table.
Context {G : Type} `{CoreLaws G}.

Lemma changes_to_refl (g : G) n t : get_table g n = Some t -> changes_to g g n t.
Proof. by intros E. Qed.

Lemma changes_to_trans (g g1 g2 : G) n t1 t2 : changes_to g g1 n t1 -> changes_to g1 g2 n t2 -> changes_to g g2 n t2.
Proof.
  intros (E1 & F1 & I1) (E2 & F2 & I2). split; [done|]. split; [|by rewrite I2].
  intros m Hm. by rewrite F2, F1.
Qed.

Lemma changes_to_get (g g' : G) n t : changes_to g g' n t -> get_table g' n = Some t.
Proof. by intros (E & _ & _). Qed.
Lemma changes_to_other (g g' : G) n t m : changes_to g g' n t -> m <> n -> get_table g' m = get_table g m.
Proof. intros (_ & F & _). apply F. Qed.
Lemma changes_to_ids (g g' : G) n t : changes_to g g' n t -> has_object_ids g' = has_object_ids g.
Proof. by intros (_ & _ & I). Qed.
Lemma changes_to_keeps (g g' : G) n t m : changes_to g g' n t -> is_Some (get_table g m) -> is_Some (get_table g' m).
Proof.
  intros (E & F & _) Hm. destruct (decide (m = n)) as [->|Hn]; [by rewrite E|]. by rewrite F.
Qed.
End one_table.

(** ** The column of a property *)
Definition is_link (p : Property) : bool := pt_eqb (prop_type p) PT_Object.

Definition core_type (p : Property) : DataType := default type_Mixed (value_type (pt_base (prop_type p))).

Definition column_spec (p : Property) : ColumnSpec :=
  if is_link p then mkColumnSpec (prop_name p) (if is_array (prop_type p) then type_LinkList else type_Link) false []
  else if is_array (prop_type p) then
    mkColumnSpec (prop_name p) type_Table false
      [mkColumnSpec ArrayColumnName (core_type p) (is_nullable (prop_type p)) []]
  else mkColumnSpec (prop_name p) (core_type p) (is_nullable (prop_type p)) [].

Definition column_target (p : Property) : string :=
  if is_link p then table_name_for_object_type (object_type p) else EmptyString.

Definition column_index (p : Property) : bool := negb (is_link p) && negb (is_array (prop_type p)) && requires_index p.

(** A property that can be stored: a link that is nullable or a list but not
    both, or a value of a type core has; only values of an indexable type need
    an index. *)
Record storable (p : Property) : Prop := {
  st_byte : byte (prop_type p);
  st_link : is_link p = true -> is_array (prop_type p) = negb (is_nullable (prop_type p));
  st_value : is_link p = false -> is_Some (value_type (pt_base (prop_type p))) /\ object_type p = EmptyString;
  st_index : requires_index p = true -> is_link p = false /\ is_array (prop_type p) = false /\
    indexable_type (core_type p) = true;
  st_name : prop_name p <> object_id_column_name
}.

Lemma value_type_core b t : value_type b = Some t ->
  is_link_type t = false /\ t <> type_Table /\
  from_core_type (mkColumnSpec EmptyString t false []) = Ok b /\
  (b = PT_Int \/ b = PT_Bool \/ b = PT_Float \/ b = PT_Double \/ b = PT_String \/ b = PT_Data \/ b = PT_Date).
Proof.
  unfold value_type.
  destruct (Z.eqb_spec b PT_Int) as [->|_]; [intros [= <-]; by auto 10|].
  destruct (Z.eqb_spec b PT_Bool) as [->|_]; [intros [= <-]; by auto 10|].
  destruct (Z.eqb_spec b PT_Float) as [->|_]; [intros [= <-]; by auto 10|].
  destruct (Z.eqb_spec b PT_Double) as [->|_]; [intros [= <-]; by auto 10|].
  destruct (Z.eqb_spec b PT_String) as [->|_]; [intros [= <-]; by auto 10|].
  destruct (Z.eqb_spec b PT_Data) as [->|_]; [intros [= <-]; by auto 10|].
  destruct (Z.eqb_spec b PT_Date) as [->|_]; [intros [= <-]; by auto 10|]. done.
Qed.

Lemma to_core_type_value a t : value_type (pt_base a) = Some t -> to_core_type a = Ok t.
Proof.
  intros E. unfold to_core_type, pt_eqb.
  destruct (value_type_core _ _ E) as (_ & _ & _ & Hb).
  change (pt_base PT_Object) with PT_Object. change (pt_base PT_Any) with PT_Any.
  revert E. destruct Hb as [->|[->|[->|[->|[->|[->| ->]]]]]]; cbn; by intros [= <-].
Qed.

Lemma pt_base_base a : byte a -> pt_base (pt_base a) = pt_base a.
Proof.
  intros Ha. pose proof (pt_split a Ha) as [_ Hb].
  pose proof (pt_make_spec (pt_base a) false false Hb) as (E & _ & _ & _).
  unfold pt_make in E. cbn [flag] in E. by rewrite !Z.add_0_r in E.
Qed.

Lemma from_value_type b t nm nullable : value_type b = Some t ->
  from_core_type (mkColumnSpec nm t nullable []) = Ok (pt_make b nullable false) /\
  pt_or (pt_make b nullable false) PT_Array = pt_make b nullable true.
Proof.
  intros E. destruct (value_type_core _ _ E) as (_ & _ & _ & Hb).
  revert E. by destruct Hb as [->|[->|[->|[->|[->|[->| ->]]]]]], nullable; intros [= <-].
Qed.

Lemma is_link_base p : is_link p = true <-> pt_base (prop_type p) = PT_Object.
Proof. apply pt_eqb_base. Qed.

Lemma from_column_spec p : storable p -> from_core_type (column_spec p) = Ok (prop_type p).
Proof.
  intros [Hb Hl Hv _ _]. rewrite (pt_make_eta (prop_type p)) at 1 by done. unfold column_spec.
  destruct (is_link p) eqn:E.
  - specialize (Hl eq_refl). apply is_link_base in E. rewrite E, Hl. by destruct (is_nullable (prop_type p)).
  - destruct (Hv eq_refl) as [[t Et] _]. unfold core_type. rewrite Et. cbn [default].
    destruct (from_value_type _ _ ArrayColumnName (is_nullable (prop_type p)) Et) as [E1 E2].
    destruct (from_value_type _ _ (prop_name p) (is_nullable (prop_type p)) Et) as [E3 _].
    destruct (is_array (prop_type p)).
    + transitivity (t' ← from_core_type (mkColumnSpec ArrayColumnName t (is_nullable (prop_type p)) []);
                    Ok (pt_or t' PT_Array)); [done|].
      rewrite E1. cbn [mbind Result_bind]. by rewrite E2.
    + exact E3.
Qed.

Lemma column_spec_name p : spec_name (column_spec p) = prop_name p.
Proof. unfold column_spec. by destruct (is_link p), (is_array (prop_type p)). Qed.

(** What reading the column back gives. *)
Definition read_back_property (p : Property) (indexed : bool) (i : nat) : Property :=
  mkProperty (prop_name p) (prop_type p) (object_type p) EmptyString false indexed (Z.of_nat i).

Lemma read_column p c i : storable p -> col_spec c = column_spec p -> col_target c = column_target p ->
  property_for_column c i = Ok (Some (read_back_property p (col_index c) i)).
Proof.
  intros Hp Es Et. pose proof (from_column_spec p Hp) as Ef. destruct Hp as [Hb Hl Hv _ Hn].
  unfold property_for_column, col_name, col_type. rewrite Es, column_spec_name.
  assert (string_eqb (prop_name p) object_id_column_name = false) as -> by (by apply string_eqb_neq).
  assert ((match spec_type (column_spec p) with
           | type_Table => match spec_sub (column_spec p) with
                           | [s] => negb (string_eqb (spec_name s) ArrayColumnName)
                           | _ => true
                           end
           | _ => false
           end) = false) as Efor.
  { unfold column_spec. destruct (is_link p) eqn:El; [by destruct (is_array (prop_type p))|].
    destruct (is_array (prop_type p)); cbn; [by rewrite string_eqb_refl|].
    destruct (Hv eq_refl) as [[t Ev] _]. unfold core_type. rewrite Ev. cbn.
    destruct (value_type_core _ _ Ev) as (_ & Ht & _). by destruct t. }
  destruct (spec_type (column_spec p)) eqn:Est.
  all: cbv beta iota zeta in Efor |- *; rewrite ?Efor; rewrite Ef; cbn [mbind Result_bind].
  all: unfold read_back_property; do 3 f_equal.
  all: rewrite Et; unfold column_target; change (pt_eqb (prop_type p) PT_Object) with (is_link p).
  all: destruct (is_link p); [apply object_type_of_table_name|symmetry; by apply Hv].
Qed.

Section columns.
Context {G : Type} `{CoreLaws G}.

Definition property_column (t : Table) (p : Property) : Column :=
  new_column t (column_spec p) (column_target p) (column_index p).

Lemma column_spec_default p : storable p -> is_link p = false ->
  is_link_type (spec_type (column_spec p)) = false.
Proof.
  intros [_ _ Hv _ _] El. destruct (Hv El) as [[t Et] _]. unfold column_spec. rewrite El.
  destruct (is_array (prop_type p)); [done|]. cbn. unfold core_type. rewrite Et. by destruct (value_type_core _ _ Et).
Qed.

Lemma alter_insert_at {A} (f : A -> A) c x (l : list A) : (c <= length l)%nat ->
  alter f c (insert_at c x l) = insert_at c (f x) l.
Proof.
  intros Hc. unfold insert_at. assert (length (take c l) = c) as El by (rewrite length_take; lia).
  rewrite <- El at 1. rewrite alter_app_r_alt by lia. by rewrite Nat.sub_diag.
Qed.

(** Inserting the column of a storable property. *)
Lemma insert_property_column_spec (g : G) n t p c :
  get_table g n = Some t -> storable p -> 0 <= c <= Z.of_nat (length (columns t)) ->
  (is_link p = true -> is_Some (get_table g (column_target p))) ->
  exists g', insert_property_column g n p c = Ok g' /\
    changes_to g g' n (with_columns t (insert_at (Z.to_nat c) (property_column t p) (columns t))).
Proof.
  intros Et Hp Hc Htarget. pose proof Hp as [Hb Hl Hv Hi _].
  assert (Z.to_nat c <= length (columns t))%nat as Hc' by lia.
  unfold insert_property_column. change (pt_eqb (prop_type p) PT_Object) with (is_link p).
  assert (pt_eqb (prop_type p) PT_LinkingObjects = false) as ->.
  { apply pt_eqb_false. change (pt_base PT_LinkingObjects) with PT_LinkingObjects. intros E.
    destruct (is_link p) eqn:El; [apply is_link_base in El; rewrite E in El; discriminate El|].
    destruct (Hv eq_refl) as [[u Ev] _]. rewrite E in Ev. discriminate Ev. }
  unfold property_column, column_spec, column_target, column_index in *. destruct (is_link p) eqn:El.
  - destruct (Htarget eq_refl) as [u Eu]. rewrite Eu. eexists. split; [done|].
    destruct (is_array (prop_type p)); by apply insert_column_link_law.
  - destruct (Hv eq_refl) as [[u Ev] _]. pose proof (value_type_core _ _ Ev) as (Hlu & Hnt & _).
    unfold core_type. rewrite Ev. cbn [default negb andb]. destruct (is_array (prop_type p)) eqn:Ea.
    + assert (to_core_type (pt_base (prop_type p)) = Ok u) as -> by (apply to_core_type_value; by rewrite pt_base_base).
      cbn [mbind Result_bind]. eexists. split; [done|].
      pose proof (insert_column_law g n t c type_Table (prop_name p) false Et Hc eq_refl) as Hins.
      eapply changes_to_trans; [exact Hins|].
      eapply (eq_ind _ (fun t' => changes_to _ _ n t')).
      { eapply add_subcolumn_law; [by apply (changes_to_get _ _ _ _ Hins)|lia| |].
        - cbn [columns with_columns]. by apply insert_at_lookup.
        - done. }
      unfold map_column, with_columns. cbn [columns row_count]. f_equal. by rewrite alter_insert_at.
    + rewrite (to_core_type_value _ _ Ev). cbn [mbind Result_bind]. eexists. split; [done|].
      pose proof (insert_column_law g n t c u (prop_name p) (is_nullable (prop_type p)) Et Hc Hlu) as Hins.
      destruct (requires_index p) eqn:Er; [|exact Hins].
      eapply changes_to_trans; [exact Hins|]. eapply (eq_ind _ (fun t' => changes_to _ _ n t')).
      { eapply add_search_index_law; [by apply (changes_to_get _ _ _ _ Hins)|lia| |].
        - cbn [columns with_columns]. by apply insert_at_lookup.
        - destruct (Hi eq_refl) as (_ & _ & Hx). unfold core_type in Hx. by rewrite Ev in Hx. }
      unfold map_column, with_columns. cbn [columns row_count]. f_equal. by rewrite alter_insert_at.
Qed.

Lemma add_column_spec (g : G) n t p :
  get_table g n = Some t -> storable p -> (is_link p = true -> is_Some (get_table g (column_target p))) ->
  exists g', add_column g n p = Ok g' /\ changes_to g g' n (with_columns t (columns t ++ [property_column t p])).
Proof.
  intros Et Hp Ht. unfold add_column, column_count. rewrite Et.
  destruct (insert_property_column_spec g n t p (Z.of_nat (length (columns t))) Et Hp) as (g' & E & Hc); [lia|done|].
  exists g'. split; [done|]. by rewrite Nat2Z.id, insert_at_end in Hc.
Qed.

Lemma remove_after_insert (g g1 : G) n t c x :
  changes_to g g1 n (with_columns t (insert_at (Z.to_nat c) x (columns t))) -> in_columns c t ->
  changes_to g (remove_column g1 n (c + 1)) n (with_columns t (<[Z.to_nat c := x]> (columns t))).
Proof.
  intros Hc [Hc0 Hc1]. eapply changes_to_trans; [exact Hc|].
  eapply (eq_ind _ (fun t' => changes_to _ _ n t')).
  - apply remove_column_law; [by apply (changes_to_get _ _ _ _ Hc)|]. unfold in_columns. cbn [columns with_columns].
    rewrite insert_at_length by lia. lia.
  - unfold table_remove_column. cbn [columns with_columns row_count]. replace (Z.to_nat (c + 1)) with (S (Z.to_nat c)) by lia.
    rewrite delete_insert_at by lia. rewrite decide_False; [done|]. intros E. apply (f_equal length) in E.
    rewrite length_insert in E. cbn in E. lia.
Qed.

(** [replace_column] and [make_property_required] put a fresh column in the
    old one's place. *)
Lemma replace_column_spec (g : G) n t old_property new_property :
  get_table g n = Some t -> in_columns (table_column old_property) t -> storable new_property ->
  (is_link new_property = true -> is_Some (get_table g (column_target new_property))) ->
  exists g', replace_column g n old_property new_property = Ok g' /\
    changes_to g g' n (with_columns t (<[Z.to_nat (table_column old_property) := property_column t new_property]> (columns t))).
Proof.
  intros Et Hc Hp Htarget. unfold replace_column.
  destruct (insert_property_column_spec g n t new_property (table_column old_property) Et Hp) as (g1 & -> & H1);
    [unfold in_columns in Hc; lia|done|].
  eexists. split; [done|]. by apply remove_after_insert.
Qed.
End columns.

(** ** Converting a column between required and optional

    [make_property_optional] replaces a column by a nullable one holding the
    same values, [make_property_required] by one holding default values. *)
Definition well_formed (t : Table) : Prop := Forall (fun c => length (col_cells c) = row_count t) (columns t).

Lemma fold_result_app {A S} (f : S -> A -> Result S) l k s :
  fold_result f (l ++ k) s = (s ← fold_result f l s; fold_result f k s).
Proof. revert s. induction l as [|x l IH]; intros s; [done|]. simpl. destruct (f s x); [apply IH|done..]. Qed.

(** ** The flags of a converted property *)
Definition optional (p : Property) : Property := set_prop_type (pt_or (prop_type p) PT_Nullable) p.
Definition required (p : Property) : Property := set_prop_type (pt_and (prop_type p) (pt_not PT_Nullable)) p.

Lemma optional_type p : byte (prop_type p) ->
  pt_base (prop_type (optional p)) = pt_base (prop_type p) /\ is_array (prop_type (optional p)) = is_array (prop_type p) /\
  is_nullable (prop_type (optional p)) = true /\ byte (prop_type (optional p)).
Proof.
  intros Hb. destruct (pt_operations _ Hb) as (E & _). pose proof (pt_split _ Hb) as [_ Hs].
  destruct (pt_make_spec (pt_base (prop_type p)) true (is_array (prop_type p)) Hs) as (? & ? & ? & ?).
  unfold optional. cbn [prop_type set_prop_type]. by rewrite E.
Qed.

Lemma required_type p : byte (prop_type p) ->
  pt_base (prop_type (required p)) = pt_base (prop_type p) /\ is_array (prop_type (required p)) = is_array (prop_type p) /\
  is_nullable (prop_type (required p)) = false /\ byte (prop_type (required p)).
Proof.
  intros Hb. destruct (pt_operations _ Hb) as (_ & E & _). pose proof (pt_split _ Hb) as [_ Hs].
  destruct (pt_make_spec (pt_base (prop_type p)) false (is_array (prop_type p)) Hs) as (? & ? & ? & ?).
  unfold required. cbn [prop_type set_prop_type]. by rewrite E.
Qed.

(** Converting keeps a value property storable. *)
Lemma storable_retyped p a : storable p -> is_link p = false -> byte a -> pt_base a = pt_base (prop_type p) ->
  is_array a = is_array (prop_type p) -> storable (set_prop_type a p) /\ is_link (set_prop_type a p) = false.
Proof.
  intros [Hb Hl Hv Hi Hn] El Ha Eb Er.
  assert (is_link (set_prop_type a p) = false) as El'.
  { unfold is_link, pt_eqb in *. cbn [prop_type set_prop_type]. by rewrite Eb. }
  split; [|done]. constructor.
  - done.
  - by rewrite El'.
  - intros _. cbn [prop_type set_prop_type]. rewrite Eb. by apply Hv.
  - intros Er'. destruct (Hi Er') as (_ & Ea & Ex). split; [done|].
    unfold core_type in *. cbn [prop_type set_prop_type] in *. rewrite Er, Eb. done.
  - done.
Qed.

Lemma optional_storable p : storable p -> is_link p = false -> storable (optional p) /\ is_link (optional p) = false.
Proof. intros Hp El. destruct (optional_type p (st_byte p Hp)) as (? & ? & ? & ?). by apply storable_retyped. Qed.
Lemma required_storable p : storable p -> is_link p = false -> storable (required p) /\ is_link (required p) = false.
Proof. intros Hp El. destruct (required_type p (st_byte p Hp)) as (? & ? & ? & ?). by apply storable_retyped. Qed.

Section conversion.
Context {G : Type} `{CoreLaws G}.

(** ** Required *)
Lemma make_property_required_spec (g : G) n t p : get_table g n = Some t -> in_columns (table_column p) t ->
  storable p -> is_link p = false ->
  exists g', make_property_required g n p = Ok g' /\
    changes_to g g' n (with_columns t (<[Z.to_nat (table_column p) := property_column t (required p)]> (columns t))).
Proof.
  intros Et Hc Hp El. destruct (required_storable p Hp El) as [Hr Elr].
  apply (replace_column_spec g n t p (required p)); [done..|]. by rewrite Elr.
Qed.

(** ** Optional *)
Lemma take_insert_drop {A} (l k : list A) i v : l !! i = Some v -> (i < length k)%nat ->
  <[i := v]> (take i l ++ drop i k) = take (S i) l ++ drop (S i) k.
Proof.
  intros Hv Hk. pose proof (lookup_lt_Some _ _ _ Hv) as Hl.
  assert (length (take i l) = i) as El by (rewrite length_take; lia).
  rewrite insert_app_r_alt by lia. rewrite El, Nat.sub_diag.
  destruct (drop i k) as [|y k'] eqn:Ek; [apply (f_equal length) in Ek; rewrite length_drop in Ek; cbn in Ek; lia|].
  cbn. rewrite (take_S_r _ _ v) by done. rewrite <- app_assoc. cbn. do 2 f_equal.
  change k' with (drop 1 (y :: k')). rewrite <- Ek, drop_drop. f_equal. lia.
Qed.

Section copy.
Variables (n : string) (t : Table) (c : nat) (x y : Column) (type : DataType).
Hypothesis Hc : (c < length (columns t))%nat.
Hypothesis Hy : columns t !! c = Some y.
Hypothesis Ty : col_type y = type.
Hypothesis Tx : col_type x = type.
Hypothesis Ly : length (col_cells y) = row_count t.
Hypothesis Lx : length (col_cells x) = row_count t.

(** The table when the first [i] values have been copied. *)
Definition copied (i : nat) : Table :=
  with_columns t (insert_at c (set_cells (take i (col_cells y) ++ drop i (col_cells x)) x) (columns t)).

Lemma copied_lookup i : columns (copied i) !! c = Some (set_cells (take i (col_cells y) ++ drop i (col_cells x)) x) /\
  columns (copied i) !! S c = Some y.
Proof. cbn [columns copied with_columns]. split; [apply insert_at_lookup; lia|]. rewrite insert_at_next by lia. done. Qed.

Lemma copy_value_step (g : G) i : get_table g n = Some (copied i) -> (i < row_count t)%nat ->
  exists g', copy_value n (Z.of_nat c) type g i = Ok g' /\ changes_to g g' n (copied (S i)).
Proof.
  intros Eg Hi. destruct (copied_lookup i) as [E1 E2]. unfold copy_value. rewrite Eg. unfold column_has_type, get_cell.
  replace (Z.to_nat (Z.of_nat c + 1)) with (S c) by lia. rewrite Nat2Z.id, E1, E2.
  rewrite !bool_decide_eq_true_2 by done. cbn [andb mbind option_bind].
  destruct (lookup_lt_is_Some_2 (col_cells y) i) as [v Hv]; [lia|]. rewrite Hv. eexists. split; [done|].
  eapply (eq_ind _ (fun t' => changes_to _ _ n t')).
  - apply (set_value_law g n (copied i)); [done| |done]. unfold in_columns. cbn [columns copied with_columns].
    rewrite insert_at_length by lia. lia.
  - unfold map_column, copied. cbn [columns with_columns row_count]. unfold with_columns. cbn [row_count]. f_equal.
    rewrite Nat2Z.id, alter_insert_at by lia. f_equal. unfold set_cells. cbn. f_equal.
    apply take_insert_drop; [done|lia].
Qed.

Lemma copy_values_spec (g : G) i k : get_table g n = Some (copied i) -> (i + k = row_count t)%nat ->
  exists g', fold_result (copy_value n (Z.of_nat c) type) (seq i k) g = Ok g' /\ changes_to g g' n (copied (row_count t)).
Proof.
  revert g i. induction k as [|k IH]; intros g i Eg Hk.
  - exists g. split; [done|]. replace (row_count t) with i by lia. by apply changes_to_refl.
  - destruct (copy_value_step g i Eg) as (g1 & E1 & H1); [lia|].
    destruct (IH g1 (S i) (changes_to_get _ _ _ _ H1)) as (g2 & E2 & H2); [lia|].
    exists g2. cbn [seq fold_result]. rewrite E1. cbn [mbind Result_bind]. split; [done|]. by eapply changes_to_trans.
Qed.
End copy.

(** The column after the conversion: nullable, with the old values. *)
Definition optional_column (p : Property) (y : Column) : Column :=
  mkColumn (column_spec (optional p)) (column_target (optional p)) (column_index (optional p)) (col_cells y).

Lemma make_property_optional_spec (g : G) n t p y : get_table g n = Some t ->
  0 <= table_column p -> columns t !! Z.to_nat (table_column p) = Some y ->
  storable p -> is_link p = false -> well_formed t ->
  (is_array (prop_type p) = true -> row_count t = O) -> (is_array (prop_type p) = false -> col_type y = core_type p) ->
  exists g', make_property_optional g n p = Ok g' /\
    changes_to g g' n (with_columns t (<[Z.to_nat (table_column p) := optional_column p y]> (columns t))).
Proof.
  intros Et Hc0 Hy Hp El Hwf Harr Hval. pose proof (lookup_lt_Some _ _ _ Hy) as Hlt.
  assert (in_columns (table_column p) t) as Hc by (unfold in_columns; lia).
  assert (length (col_cells y) = row_count t) as Ly by (by apply (proj1 (Forall_lookup _ _) Hwf _ _ Hy)).
  destruct (optional_storable p Hp El) as [Ho Elo]. destruct (optional_type p (st_byte p Hp)) as (Eb & Ea & En & _).
  unfold make_property_optional. fold (optional p). change (table_column (optional p)) with (table_column p).
  destruct (insert_property_column_spec g n t (optional p) (table_column p) Et Ho) as (g1 & -> & H1);
    [unfold in_columns in Hc; lia|by rewrite Elo|]. cbn [mbind Result_bind].
  destruct (st_value p Hp El) as [[u Eu] _].
  assert (exists g2, copy_property_values g1 n (optional p) = Ok g2 /\ changes_to g1 g2 n
    (with_columns t (insert_at (Z.to_nat (table_column p)) (optional_column p y) (columns t)))) as (g2 & -> & H2).
  { unfold copy_property_values. rewrite Eb, Eu, (changes_to_get _ _ _ _ H1). cbn [row_count with_columns].
    change (table_column (optional p)) with (table_column p).
    destruct (is_array (prop_type p)) eqn:Earr.
    - specialize (Harr eq_refl). rewrite Harr. cbn [seq fold_result]. eexists. split; [done|].
      replace (optional_column p y) with (property_column t (optional p)); [by apply changes_to_refl, (changes_to_get _ _ _ _ H1)|].
      unfold property_column, new_column, optional_column. rewrite Harr in *. destruct (col_cells y); [done|discriminate Ly].
    - destruct (copy_values_spec n t (Z.to_nat (table_column p)) (property_column t (optional p)) y u) with (g := g1) (i := O)
        (k := row_count t) as (g2 & E2 & H2).
      + done.
      + done.
      + rewrite Hval by done. unfold core_type. by rewrite Eu.
      + unfold col_type, property_column, new_column, column_spec. cbn [col_spec]. rewrite Elo, Ea. cbn.
        unfold core_type. by rewrite Eb, Eu.
      + done.
      + unfold property_column, new_column. cbn [col_cells]. by rewrite length_replicate.
      + rewrite (changes_to_get _ _ _ _ H1). done.
      + done.
      + rewrite Z2Nat.id in E2 by done. rewrite E2. eexists. split; [done|]. unfold copied in H2. rewrite take_ge, drop_ge, app_nil_r in H2; [exact H2| |by rewrite Ly].
        unfold property_column, new_column. cbn [col_cells]. by rewrite length_replicate. }
  cbn [mbind Result_bind]. eexists. split; [done|]. apply remove_after_insert; [|done]. by eapply changes_to_trans.
Qed.
End conversion.
