(* ===== verification/SchemaReading.v ===== *)
(** * Reading the schema of a group

    [schema_from_group] yields one class per class table, sorted by name, and
    the properties of a class are its visible columns, in order. *)
From S2P Require Import Prelude.
From S2P Require Import SchemaTypes.
From S2P Require Import Schemas.
From S2P Require Import SchemaValidation.
From S2P Require Import SchemaDiff.
From S2P Require Import CoreTables.
From S2P Require Import ObjectStore.
From S2P Require Import StoreFacts.

(** ** Columns and properties *)
Definition readable (c : Column) (i : nat) : Prop := exists o, property_for_column c i = Ok o.

Lemma table_properties_Ok cols i : (forall k c, cols !! k = Some c -> readable c (i + k)) ->
  exists props, table_properties cols i = Ok props.
Proof.
  revert i. induction cols as [|c cols IH]; intros i Hall; [by eexists|]. simpl.
  destruct (Hall O c eq_refl) as [o Eo]. rewrite Nat.add_0_r in Eo. rewrite Eo. cbn [mbind Result_bind].
  destruct (IH (S i)) as [props ->]; [|by eexists].
  intros k c' Hk. rewrite Nat.add_succ_comm. by apply Hall.
Qed.

Lemma table_properties_readable cols i props k c : table_properties cols i = Ok props -> cols !! k = Some c ->
  readable c (i + k).
Proof.
  revert i props k. induction cols as [|c' cols IH]; intros i props k; [done|]. simpl.
  destruct (property_for_column c' i) as [o| |] eqn:Eo; [|done..]. cbn [mbind Result_bind].
  destruct (table_properties cols (S i)) as [rest| |] eqn:Er; [|done..]. intros _. destruct k as [|k]; simpl.
  - intros [= ->]. rewrite Nat.add_0_r. by eexists.
  - intros Hk. rewrite <- Nat.add_succ_comm. by eapply IH.
Qed.

Lemma table_properties_elem cols i props p : table_properties cols i = Ok props ->
  p ∈ props <-> exists k c, cols !! k = Some c /\ property_for_column c (i + k) = Ok (Some p).
Proof.
  revert i props. induction cols as [|c cols IH]; intros i props; simpl.
  - intros [= <-]. split; [by intros ?%elem_of_nil|]. by intros (k & c & ? & _).
  - destruct (property_for_column c i) as [o| |] eqn:Eo; [|done..]. cbn [mbind Result_bind].
    destruct (table_properties cols (S i)) as [rest| |] eqn:Er; [|done..]. cbn [mbind Result_bind].
    intros [= <-]. specialize (IH _ _ Er).
    assert (p ∈ match o with Some q => q :: rest | None => rest end <-> o = Some p \/ p ∈ rest) as ->.
    { destruct o as [q|]; [|by intuition]. rewrite elem_of_cons. by intuition congruence. }
    rewrite IH. split.
    + intros [->|(k & c' & Hk & Hp)].
      * exists O, c. by rewrite Nat.add_0_r.
      * exists (S k), c'. by rewrite <- Nat.add_succ_comm.
    + intros ([|k] & c' & Hk & Hp).
      * injection Hk as <-. rewrite Nat.add_0_r in Hp. left. congruence.
      * right. exists k, c'. by rewrite Nat.add_succ_comm.
Qed.

Lemma property_for_column_props c i p : property_for_column c i = Ok (Some p) ->
  prop_name p = col_name c /\ table_column p = Z.of_nat i /\ is_primary p = false /\ is_indexed p = col_index c.
Proof.
  unfold property_for_column. destruct (string_eqb _ _); [done|].
  destruct (match col_type c with type_Table => _ | _ => _ end); [done|].
  destruct (from_core_type (col_spec c)) as [t| |]; [|done..]. cbn [mbind Result_bind]. by intros [= <-].
Qed.

Lemma property_for_column_shape c c' i : col_spec c = col_spec c' -> col_target c = col_target c' -> col_index c = col_index c' ->
  property_for_column c i = property_for_column c' i.
Proof. intros E1 E2 E3. unfold property_for_column, col_name, col_type. by rewrite E1, E2, E3. Qed.

(** ** The primary flag *)

(** A property of the class, with the flag of the key when it has its name. *)
Definition keyed_as (key : string) (p p' : Property) : Prop :=
  p' = p \/ (p' = set_is_primary true p /\ prop_name p = key /\ key <> EmptyString).

Lemma update_first_keyed key l : key <> EmptyString -> Forall2 (keyed_as key) l (update_first key (set_is_primary true) l).
Proof.
  intros Hk. induction l as [|p l IH]; simpl; [constructor|]. destruct (named key p) eqn:E.
  - apply string_eqb_eq in E. constructor; [by right|]. clear IH. induction l; constructor; [by left|done].
  - constructor; [by left|done].
Qed.

Lemma keyed_as_refl key l : Forall2 (keyed_as key) l l.
Proof. induction l; constructor; [by left|done]. Qed.

Lemma primary_flags name props key :
  let o := set_primary_key_property (mkObjectSchema name props [] key) in
  os_name o = name /\ primary_key o = key /\ computed_properties o = [] /\ Forall2 (keyed_as key) props (persisted_properties o).
Proof.
  unfold set_primary_key_property. cbn [primary_key]. destruct (empty key) eqn:E; cbn.
  - split; [done|]. split; [done|]. split; [done|]. apply keyed_as_refl.
  - unfold update_property. cbn. assert (key <> EmptyString) as Hk by (intros ->; done).
    destruct (List.find (named key) props); cbn; (split; [done|]; split; [done|]; split; [done|]);
      [by apply update_first_keyed|apply keyed_as_refl].
Qed.

Lemma keyed_as_props key p p' : keyed_as key p p' ->
  prop_name p' = prop_name p /\ prop_type p' = prop_type p /\ object_type p' = object_type p /\
  is_indexed p' = is_indexed p /\ table_column p' = table_column p /\
  link_origin_property_name p' = link_origin_property_name p.
Proof. by intros [->|(-> & _)]. Qed.

(** ** Looking names up *)
Lemma find_named_Some (l : list Property) name p : List.find (named name) l = Some p -> p ∈ l /\ prop_name p = name.
Proof. intros E. apply List.find_some in E as [Hp En]. apply string_eqb_eq in En. by apply list_elem_of_In in Hp. Qed.

Lemma find_named_is_Some (l : list Property) name : is_Some (List.find (named name) l) <-> name ∈ (prop_name <$> l).
Proof.
  rewrite list_elem_of_fmap. split.
  - intros [p E]. apply find_named_Some in E as [Hp <-]. by exists p.
  - intros (p & -> & Hp). destruct (List.find _ l) as [q|] eqn:E; [done|].
    apply list_elem_of_In in Hp. pose proof (List.find_none _ _ E p Hp) as Hn. unfold named in Hn.
    by rewrite string_eqb_refl in Hn.
Qed.

Lemma property_for_name_is_Some o name :
  is_Some (property_for_name o name) <-> name ∈ (prop_name <$> persisted_properties o) \/ name ∈ (prop_name <$> computed_properties o).
Proof.
  unfold property_for_name. rewrite <- !find_named_is_Some.
  destruct (List.find (named name) (persisted_properties o)); [|by intuition].
  split; [by left; eexists|by eexists].
Qed.

Lemma property_for_name_Some o name p : property_for_name o name = Some p ->
  p ∈ (persisted_properties o ++ computed_properties o) /\ prop_name p = name.
Proof.
  unfold property_for_name. intros E. rewrite elem_of_app. destruct (List.find _ (persisted_properties o)) as [q|] eqn:Ep.
  - injection E as ->. apply find_named_Some in Ep as [? ?]. auto.
  - apply find_named_Some in E as [? ?]. auto.
Qed.

Lemma property_for_name_persisted o p : NoDup (prop_name <$> persisted_properties o) -> p ∈ persisted_properties o ->
  property_for_name o (prop_name p) = Some p.
Proof.
  intros Hnd Hp. unfold property_for_name.
  assert (is_Some (List.find (named (prop_name p)) (persisted_properties o))) as [q Eq]
    by (apply find_named_is_Some; by apply list_elem_of_fmap_2).
  rewrite Eq. f_equal. apply find_named_Some in Eq as [Hq En]. by apply (NoDup_key_inj prop_name (persisted_properties o)).
Qed.

(** ** The classes of a group *)
Section reading.
Context {G : Type} `{CoreLaws G} {HSort : StdSort}.

Lemma from_table_name (g : G) x t o : ObjectSchema_from_table g x t = Ok o ->
  os_name o = x /\ primary_key o = get_primary_key_for_object g x /\ computed_properties o = [].
Proof.
  unfold ObjectSchema_from_table. destruct t as [t|]; [|done].
  destruct (table_properties (columns t) 0) as [props| |]; [|done..]. cbn [mbind Result_bind]. intros [= <-].
  pose proof (primary_flags x props (get_primary_key_for_object g x)) as (-> & -> & -> & _). done.
Qed.

Lemma class_schemas_spec (g : G) names types : class_schemas g names = Ok types ->
  (forall o, o ∈ types -> exists n, n ∈ names /\ os_name o = object_type_for_table_name n /\ os_name o <> EmptyString /\
     ObjectSchema_from_table g (os_name o) (get_table g n) = Ok o) /\
  (forall n, n ∈ names -> object_type_for_table_name n <> EmptyString ->
     exists o, o ∈ types /\ ObjectSchema_from_table g (object_type_for_table_name n) (get_table g n) = Ok o) /\
  os_name <$> types = filter (fun x => x <> EmptyString) (object_type_for_table_name <$> names).
Proof.
  revert types. induction names as [|n names IH]; intros types; cbn [class_schemas].
  - intros [= <-]. split; [by intros o ?%elem_of_nil|]. split; [by intros n ?%elem_of_nil|done].
  - destruct (empty (object_type_for_table_name n)) eqn:E.
    + apply empty_true in E. intros Hc. destruct (IH _ Hc) as (I1 & I2 & I3). split; [|split].
      * intros o Ho. destruct (I1 o Ho) as (m & Hm & ?). exists m. split; [by right|done].
      * intros m [->|Hm]%elem_of_cons Hne; [done|]. by apply I2.
      * rewrite fmap_cons, E. by rewrite filter_cons_False by (intros Hx; by apply Hx).
    + assert (object_type_for_table_name n <> EmptyString) as Hne by (intros Ex; by rewrite Ex in E).
      destruct (ObjectSchema_from_table g _ (get_table g n)) as [o| |] eqn:Eo; [|done..]. cbn [mbind Result_bind].
      destruct (class_schemas g names) as [rest| |] eqn:Ec; [|done..]. cbn [mbind Result_bind]. intros [= <-].
      destruct (IH _ eq_refl) as (I1 & I2 & I3). destruct (from_table_name _ _ _ _ Eo) as [En _].
      split; [|split].
      * intros o' [->|Ho']%elem_of_cons.
        -- exists n. split; [by left|]. by rewrite En.
        -- destruct (I1 o' Ho') as (m & Hm & ?). exists m. split; [by right|done].
      * intros m [->|Hm]%elem_of_cons Hm'.
        -- exists o. split; [by left|done].
        -- destruct (I2 m Hm Hm') as (o' & ? & ?). exists o'. split; [by right|done].
      * rewrite !fmap_cons, En, I3. by rewrite filter_cons_True.
Qed.

Lemma object_types_NoDup names : NoDup names ->
  NoDup (filter (fun x => x <> EmptyString) (object_type_for_table_name <$> names)).
Proof.
  induction 1 as [|n names Hn Hnd IH]; [constructor|]. rewrite fmap_cons.
  destruct (decide (object_type_for_table_name n <> EmptyString)) as [E|E].
  - rewrite filter_cons_True by done. constructor; [|done]. intros [_ (m & Em & Hm)%list_elem_of_fmap]%list_elem_of_filter.
    apply Hn. rewrite (table_name_of_object_type n E), Em, <- table_name_of_object_type; [done|congruence].
  - by rewrite filter_cons_False.
Qed.

Lemma schema_from_group_by_name (g : G) s : schema_from_group g = Ok s -> by_name s.
Proof.
  unfold schema_from_group. destruct (class_schemas g (table_names g)) as [types| |] eqn:E; [|done..].
  cbn [mbind Result_bind]. intros [= <-]. apply class_schemas_spec in E as (_ & _ & E).
  apply sorted_distinct_lt; [apply make_sorted|]. assert (os_name <$> Schema_make types ≡ₚ os_name <$> types) as ->
    by (by rewrite make_perm). rewrite E. apply object_types_NoDup, names_NoDup.
Qed.

(** The class of a name is read from its table. *)
Lemma schema_from_group_class (g : G) s x : schema_from_group g = Ok s -> x <> EmptyString ->
  match table_for_object_type g x with
  | Some t => exists o, ObjectSchema_from_table g x (Some t) = Ok o /\ class_named s x = Some o
  | None => class_named s x = None
  end.
Proof.
  intros Es Hx. pose proof (schema_from_group_by_name g s Es) as Hs. revert Es.
  unfold schema_from_group. destruct (class_schemas g (table_names g)) as [types| |] eqn:E; [|done..].
  cbn [mbind Result_bind]. intros [= Et]. apply class_schemas_spec in E as (E1 & E2 & _).
  assert (forall o, o ∈ s <-> o ∈ types) as Hin by (intros o; rewrite <- Et; by rewrite make_perm).
  unfold table_for_object_type. destruct (get_table g (table_name_for_object_type x)) as [t|] eqn:Eg.
  - destruct (E2 (table_name_for_object_type x)) as (o & Ho & Eo).
    { apply names_tables. by eexists. }
    { by rewrite object_type_of_table_name. }
    rewrite object_type_of_table_name, Eg in Eo. exists o. split; [done|].
    destruct (from_table_name _ _ _ _ Eo) as [<- _]. apply class_named_in; [done|]. by apply Hin.
  - apply class_named_None. intros o Ho En. apply Hin in Ho. destruct (E1 o Ho) as (n & Hn & Eo & Hne & _).
    apply names_tables in Hn as [t Et']. rewrite (table_name_of_object_type n) in Et' by congruence.
    rewrite <- Eo, En in Et'. congruence.
Qed.

Lemma class_schemas_Ok (g : G) names :
  (forall n, n ∈ names -> object_type_for_table_name n <> EmptyString ->
     exists o, ObjectSchema_from_table g (object_type_for_table_name n) (get_table g n) = Ok o) ->
  exists types, class_schemas g names = Ok types.
Proof.
  induction names as [|n names IH]; intros Hall; [by eexists|]. simpl.
  destruct IH as [types Et]; [intros m Hm; by apply Hall; right|].
  destruct (empty (object_type_for_table_name n)) eqn:E; [by eexists|].
  destruct (Hall n) as [o ->]; [by left|intros Ex; by rewrite Ex in E|]. cbn [mbind Result_bind]. rewrite Et. by eexists.
Qed.

(** Reading succeeds when every class table can be read. *)
Lemma schema_from_group_Ok (g : G) :
  (forall x t, x <> EmptyString -> table_for_object_type g x = Some t -> exists o, ObjectSchema_from_table g x (Some t) = Ok o) ->
  exists s, schema_from_group g = Ok s.
Proof.
  intros Hall. unfold schema_from_group. destruct (class_schemas_Ok g (table_names g)) as [types ->]; [|by eexists].
  intros n Hn Hne. apply names_tables in Hn as [t Et]. rewrite Et. apply Hall; [done|].
  unfold table_for_object_type. by rewrite <- table_name_of_object_type.
Qed.
End reading.
