(* ===== verification/StoreMetadata.v ===== *)
(** * The metadata tables

    The [pk] table as a map from classes to their primary keys, and the schema
    version, which is stored as a signed integer. *)
From S2P Require Import Prelude.
From S2P Require Import SchemaTypes.
From S2P Require Import Schemas.
From S2P Require Import SchemaValidation.
From S2P Require Import CoreTables.
From S2P Require Import ObjectStore.
From S2P Require Import StoreFacts.

(** ** Lists of values as keys *)
Lemma index_of_Some {A} (p : A -> bool) l r : index_of p l = Some r -> exists x, l !! r = Some x /\ p x = true.
Proof.
  revert r. induction l as [|x l IH]; intros r; simpl; [done|]. destruct (p x) eqn:E.
  - intros [= <-]. by exists x.
  - destruct (index_of p l) as [r'|]; [|done]. intros [= <-]. by apply IH.
Qed.

Lemma index_of_None {A} (p : A -> bool) l : index_of p l = None <-> forall x, x ∈ l -> p x = false.
Proof.
  induction l as [|x l IH]; simpl; [by split; [intros _ x ?%elem_of_nil|]|]. destruct (p x) eqn:E.
  - split; [done|]. intros Hl. rewrite (Hl x) in E; [done|by left].
  - destruct (index_of p l) as [r|]; simpl.
    + split; [done|]. intros Hl. assert (Some r = None) as Hn; [|done]. apply IH. intros y Hy. apply Hl. by right.
    + split; [|done]. intros _ y [->|Hy]%elem_of_cons; [done|]. by apply IH.
Qed.

(** [move_last_over] puts the last element in the place of the removed one. *)
Lemma move_last_over_lookup (l : list Value) r j : (r < length l)%nat ->
  cells_move_last_over r l !! j =
  if decide (j < length l - 1)%nat then (if decide (j = r) then l !! (length l - 1)%nat else l !! j) else None.
Proof.
  intros Hr. destruct (list_snoc_inv l) as [->|(k & z & ->)]; [simpl in Hr; lia|].
  unfold cells_move_last_over, swap_last. rewrite last_snoc, length_app in *. cbn [length] in *.
  replace (length k + 1 - 1)%nat with (length k) by lia.
  assert ((k ++ [z]) !! length k = Some z) as Ez by (by rewrite lookup_app_r, Nat.sub_diag by lia).
  destruct (decide (r = length k)) as [->|Hne].
  - rewrite insert_app_r_alt, Nat.sub_diag by lia. cbn [insert list_insert]. rewrite removelast_last.
    destruct (decide (j < length k)%nat); [|by apply lookup_ge_None_2; lia].
    rewrite decide_False by lia. by rewrite lookup_app_l by lia.
  - rewrite insert_app_l by lia. rewrite removelast_last.
    destruct (decide (j < length k)%nat); [|apply lookup_ge_None_2; rewrite length_insert; lia].
    destruct (decide (j = r)) as [->|Hj].
    + by rewrite list_lookup_insert_eq by lia.
    + rewrite list_lookup_insert_ne by done. by rewrite lookup_app_l by lia.
Qed.

Lemma move_last_over_length (l : list Value) r : (r < length l)%nat ->
  length (cells_move_last_over r l) = (length l - 1)%nat.
Proof.
  intros Hr. destruct (list_snoc_inv l) as [->|(k & z & ->)]; [simpl in Hr; lia|].
  unfold cells_move_last_over, swap_last. rewrite last_snoc. rewrite length_app in Hr |- *. cbn [length] in *.
  destruct (decide (r = length k)) as [->|Hne].
  - rewrite insert_app_r_alt, Nat.sub_diag by lia. cbn [insert list_insert]. rewrite removelast_last. lia.
  - rewrite insert_app_l by lia. rewrite removelast_last, length_insert. lia.
Qed.

(** ** The [pk] table *)

(** Two columns of strings, one row per class. *)
Record pk_table (t : Table) (keys props : Column) : Prop := {
  pkt_columns : columns t = [keys; props];
  pkt_type : col_type keys = type_String;
  pkt_keys : length (col_cells keys) = row_count t;
  pkt_props : length (col_cells props) = row_count t;
  pkt_distinct : NoDup (col_cells keys)
}.

(** The row of a class with its key. *)
Definition entry (keys props : list Value) (x : string) (v : Value) : Prop :=
  exists i, keys !! i = Some (v_string x) /\ props !! i = Some v.

Definition value_string (v : Value) : string := match v with v_string s => s | _ => EmptyString end.

Section metadata.
Context {G : Type} `{CoreLaws G}.

Definition has_pk (g : G) (t : Table) (keys props : Column) : Prop :=
  get_table g c_primaryKeyTableName = Some t /\ pk_table t keys props.

Lemma find_first_keys t keys props v : pk_table t keys props ->
  find_first t 0 v = index_of (fun x => bool_decide (x = v)) (col_cells keys).
Proof. intros [E _ _ _ _]. unfold find_first. by rewrite E. Qed.

(** Reading the key of a class. *)
Lemma get_primary_key_entry (g : G) t keys props x : has_pk g t keys props ->
  match index_of (fun v => bool_decide (v = v_string x)) (col_cells keys) with
  | Some r => (r < row_count t)%nat /\ exists v, entry (col_cells keys) (col_cells props) x v /\
      col_cells keys !! r = Some (v_string x) /\ get_primary_key_for_object g x = value_string v
  | None => get_primary_key_for_object g x = EmptyString /\ forall v, ~ entry (col_cells keys) (col_cells props) x v
  end.
Proof.
  intros [Eg Ht]. unfold get_primary_key_for_object. rewrite Eg, (find_first_keys t keys props) by done.
  destruct (index_of _ (col_cells keys)) as [r|] eqn:Er.
  - apply index_of_Some in Er as (k & Hk & E%bool_decide_eq_true). subst k.
    pose proof (lookup_lt_Some _ _ _ Hk) as Hr. rewrite (pkt_keys t keys props) in Hr by done. split; [done|].
    destruct (lookup_lt_is_Some_2 (col_cells props) r) as [v Hv]; [by rewrite (pkt_props t keys props)|].
    exists v. split; [by exists r|]. split; [done|]. unfold get_string, get_cell. rewrite (pkt_columns t keys props) by done.
    cbn. by rewrite Hv.
  - split; [done|]. intros v (i & Hi & _). apply list_elem_of_lookup_2 in Hi.
    pose proof (proj1 (index_of_None _ _) Er _ Hi) as E. cbv beta in E. by rewrite bool_decide_eq_true_2 in E.
Qed.

Lemma entry_unique keys props x v w : NoDup keys -> entry keys props x v -> entry keys props x w -> v = w.
Proof.
  intros Hnd (i & Hi & Hv) (j & Hj & Hw). assert (i = j) as -> by (by eapply (NoDup_lookup keys)). congruence.
Qed.

Lemma get_primary_key_Some (g : G) t keys props x v : has_pk g t keys props ->
  entry (col_cells keys) (col_cells props) x v -> get_primary_key_for_object g x = value_string v.
Proof.
  intros Hg He. pose proof (get_primary_key_entry g t keys props x Hg) as Hx.
  destruct (index_of _ _) as [r|].
  - destruct Hx as (_ & w & Hw & _ & ->). f_equal. apply (entry_unique (col_cells keys) (col_cells props) x); [|done..].
    by apply (pkt_distinct t keys props), Hg.
  - by destruct Hx as [_ Hn]; destruct (Hn v).
Qed.

Lemma get_primary_key_None (g : G) t keys props x : has_pk g t keys props ->
  (forall v, ~ entry (col_cells keys) (col_cells props) x v) -> get_primary_key_for_object g x = EmptyString.
Proof.
  intros Hg Hn. pose proof (get_primary_key_entry g t keys props x Hg) as Hx.
  destruct (index_of _ _) as [r|]; [|by destruct Hx]. destruct Hx as (_ & w & Hw & _). by destruct (Hn w).
Qed.

(** Two [pk] tables with the same rows for a class give it the same key. *)
Lemma get_primary_key_same (g g' : G) t keys props t' keys' props' x :
  has_pk g t keys props -> has_pk g' t' keys' props' ->
  (forall v, entry (col_cells keys) (col_cells props) x v <-> entry (col_cells keys') (col_cells props') x v) ->
  get_primary_key_for_object g' x = get_primary_key_for_object g x.
Proof.
  intros Hg Hg' Hs. pose proof (get_primary_key_entry g t keys props x Hg) as Hx.
  destruct (index_of _ (col_cells keys)) as [r|].
  - destruct Hx as (_ & v & Hv & _ & ->). apply (get_primary_key_Some g' t' keys' props'); [done|]. by apply Hs.
  - destruct Hx as [-> Hn]. apply (get_primary_key_None g' t' keys' props'); [done|]. intros v Hv. by apply (Hn v), Hs.
Qed.

(** ** Setting a key *)
Definition pk_ok (g : G) : Prop := exists t keys props, has_pk g t keys props.

Lemma pk_ok_intro (g g' : G) t keys props : changes_to g g' c_primaryKeyTableName t -> pk_table t keys props ->
  has_pk g' t keys props.
Proof. by intros (E & _) Ht. Qed.

(** Other tables do not matter. *)
Lemma has_pk_frame (g g' : G) n t' t keys props : changes_to g g' n t' -> n <> c_primaryKeyTableName ->
  has_pk g t keys props -> has_pk g' t keys props.
Proof. intros Hc Hn [Eg Ht]. split; [|done]. by rewrite (changes_to_other g g' n t'). Qed.

Lemma get_primary_key_frame (g g' : G) n t' x : changes_to g g' n t' -> n <> c_primaryKeyTableName ->
  get_primary_key_for_object g' x = get_primary_key_for_object g x.
Proof. intros Hc Hn. unfold get_primary_key_for_object. by rewrite (changes_to_other g g' n t'). Qed.

Lemma pk_in_columns t keys props : pk_table t keys props -> in_columns 0 t /\ in_columns 1 t.
Proof. intros [E _ _ _ _]. unfold in_columns. rewrite E. cbn. lia. Qed.

(** A row added for a class that has none. *)
Lemma entry_snoc keys props x a b : length keys = length props -> (forall v, ~ entry keys props x v) ->
  forall y v, entry (keys ++ [a]) (props ++ [b]) y v <-> entry keys props y v \/ (a = v_string y /\ v = b).
Proof.
  intros El _ y v. unfold entry. split.
  - intros (i & Hi & Hv). apply lookup_snoc_Some in Hi as [[Hlt Hi]|[-> ->]].
    + left. exists i. split; [done|]. by rewrite lookup_app_l in Hv by lia.
    + right. split; [done|]. rewrite El, lookup_app_r, Nat.sub_diag in Hv by lia. by injection Hv.
  - intros [(i & Hi & Hv)|[-> ->]].
    + exists i. rewrite !lookup_app_l by (by eapply lookup_lt_Some). done.
    + exists (length keys). split; [by rewrite lookup_app_r, Nat.sub_diag by lia|].
      by rewrite El, lookup_app_r, Nat.sub_diag by lia.
Qed.

Lemma NoDup_snoc_entry keys props x : length keys = length props -> NoDup keys ->
  (forall v, ~ entry keys props x v) -> NoDup (keys ++ [v_string x]).
Proof.
  intros El Hnd Hx. apply NoDup_app. split; [done|]. split; [|by apply NoDup_singleton].
  intros k Hk ->%list_elem_of_singleton. apply list_elem_of_lookup in Hk as [i Hi].
  destruct (lookup_lt_is_Some_2 props i) as [v Hv]; [rewrite <- El; by eapply lookup_lt_Some|].
  apply (Hx v). by exists i.
Qed.

Lemma entry_same_length (keys props keys' props' : list Value) y : (forall i, keys' !! i = keys !! i) ->
  (forall i, keys !! i = Some (v_string y) -> props' !! i = props !! i) ->
  forall v, entry keys props y v <-> entry keys' props' y v.
Proof.
  intros Ek Ep v. unfold entry. split; intros (i & Hi & Hv); exists i.
  - rewrite Ek. split; [done|]. by rewrite Ep.
  - rewrite Ek in Hi. split; [done|]. by rewrite Ep in Hv.
Qed.

(** A class has a row of its own. *)
Definition has_entry (g : G) (x : string) : Prop :=
  exists t keys props v, has_pk g t keys props /\ entry (col_cells keys) (col_cells props) x v.

Lemma has_pk_unique (g : G) t keys props t' keys' props' : has_pk g t keys props -> has_pk g t' keys' props' ->
  t = t' /\ keys = keys' /\ props = props'.
Proof.
  intros [E [Ec _ _ _ _]] [E' [Ec' _ _ _ _]]. assert (t = t') as -> by congruence. rewrite Ec in Ec'. by injection Ec' as -> ->.
Qed.

Lemma has_entry_pk (g : G) t keys props x : has_pk g t keys props ->
  has_entry g x <-> exists v, entry (col_cells keys) (col_cells props) x v.
Proof.
  intros Hg. split.
  - intros (t' & keys' & props' & v & Hg' & He). destruct (has_pk_unique _ _ _ _ _ _ _ Hg Hg') as (-> & -> & ->). by exists v.
  - intros [v He]. by exists t, keys, props, v.
Qed.

Lemma has_entry_frame (g g' : G) x : get_table g' c_primaryKeyTableName = get_table g c_primaryKeyTableName ->
  has_entry g' x <-> has_entry g x.
Proof.
  intros E. unfold has_entry, has_pk. by rewrite E.
Qed.

(** The effect of setting the key of class [x] to [k]. *)
Record key_set (g g' : G) (x k : string) : Prop := {
  ks_pk : pk_ok g';
  ks_table : exists t', changes_to g g' c_primaryKeyTableName t';
  ks_key y : get_primary_key_for_object g' y = if decide (y = x) then k else get_primary_key_for_object g y;
  ks_entry y : y <> x -> has_entry g' y <-> has_entry g y
}.

Lemma key_set_intro (g g' : G) t keys props t' keys' props' x k : has_pk g t keys props ->
  changes_to g g' c_primaryKeyTableName t' -> pk_table t' keys' props' ->
  (forall y v, y <> x -> entry (col_cells keys) (col_cells props) y v <-> entry (col_cells keys') (col_cells props') y v) ->
  get_primary_key_for_object g' x = k -> key_set g g' x k.
Proof.
  intros Hg Hc Ht' He Hx. pose proof (pk_ok_intro _ _ _ _ _ Hc Ht') as Hg'.
  constructor; [by exists t', keys', props'|by exists t'| |].
  - intros y. destruct (decide (y = x)) as [->|Hy]; [done|].
    apply (get_primary_key_same g g' t keys props t' keys' props'); [done..|]. intros v. by apply He.
  - intros y Hy. rewrite (has_entry_pk g t keys props), (has_entry_pk g' t' keys' props') by done.
    split; intros [v Hv]; exists v; by apply (He y v).
Qed.

(** Adding a row. *)
Lemma key_set_append (g g' : G) t keys props x k : has_pk g t keys props ->
  (forall v, ~ entry (col_cells keys) (col_cells props) x v) ->
  changes_to g g' c_primaryKeyTableName (append_row [v_string x; v_string k] t) -> key_set g g' x k.
Proof.
  intros Hg Hx Hc. pose proof Hg as [Eg [Ec Et Ek Ep Ed]].
  assert (length (col_cells keys) = length (col_cells props)) as El by lia.
  assert (pk_table (append_row [v_string x; v_string k] t) (set_cells (col_cells keys ++ [v_string x]) keys)
    (set_cells (col_cells props ++ [v_string k]) props)) as Ht'.
  { unfold append_row. rewrite Ec. constructor; cbn; [done..|rewrite length_app, Ek; cbn; lia|rewrite length_app, Ep; cbn; lia|].
    by apply (NoDup_snoc_entry _ (col_cells props)). }
  pose proof (entry_snoc _ _ x (v_string x) (v_string k) El Hx) as Hs.
  eapply key_set_intro; [exact Hg|exact Hc|exact Ht'| |].
  - intros y v Hy. cbn. rewrite Hs. split; [by left|]. intros [?|[[= ->] _]]; [done|]. done.
  - pose proof (pk_ok_intro _ _ _ _ _ Hc Ht') as Hg'.
    rewrite (get_primary_key_Some g' _ _ _ x (v_string k) Hg'); [done|]. cbn. apply Hs. by right.
Qed.

Lemma insert_last {A} (l : list A) n x y : length l = n -> <[n := y]> (l ++ [x]) = l ++ [y].
Proof. intros <-. by rewrite insert_app_r_alt, Nat.sub_diag by lia. Qed.

(** Adding an empty row and filling it in. *)
Lemma fill_new_row (g : G) t keys props x k : has_pk g t keys props ->
  (forall v, ~ entry (col_cells keys) (col_cells props) x v) ->
  changes_to g
    (set_value (set_string_unique (add_empty_row g c_primaryKeyTableName) c_primaryKeyTableName 0 (row_count t) x)
       c_primaryKeyTableName 1 (row_count t) (v_string k))
    c_primaryKeyTableName (append_row [v_string x; v_string k] t).
Proof.
  intros Hg Hx. pose proof Hg as [Eg [Ec Et Ek Ep Ed]].
  assert (columns t <> []) as Hne by (by rewrite Ec). pose proof (add_empty_row_law g _ t Eg Hne) as H1. rewrite Ec in H1.
  cbn [fmap list_fmap] in H1. set (t1 := mkTable _ _) in H1.
  assert (in_columns 0 t1 /\ in_columns 1 t1) as [Hc0 Hc1] by (unfold in_columns; cbn; lia).
  assert (changes_to g (set_string_unique (add_empty_row g c_primaryKeyTableName) c_primaryKeyTableName 0 (row_count t) x)
    c_primaryKeyTableName (map_column 0 (fun c => set_cells (<[row_count t := v_string x]> (col_cells c)) c) t1)) as H2.
  { eapply changes_to_trans; [exact H1|]. eapply (set_string_unique_law _ _ t1); [by apply H1|done|cbn; lia|].
    intros r' Hr'. unfold get_cell in Hr'. cbn in Hr'. apply lookup_snoc_Some in Hr' as [[Hlt Hr']|[-> _]]; [|by rewrite Ek].
    exfalso. destruct (lookup_lt_is_Some_2 (col_cells props) r') as [v Hv]; [lia|]. apply (Hx v). by exists r'. }
  eapply changes_to_trans; [exact H2|]. eapply (eq_ind _ (fun t' => changes_to _ _ _ t')).
  { eapply set_value_law; [by apply H2|unfold in_columns; cbn; lia|cbn; lia]. }
  unfold append_row, map_column, with_columns. rewrite Ec. cbn. unfold set_cells. cbn.
  rewrite insert_last by done. change (Z.to_nat 1) with 1%nat. cbn. by rewrite insert_last.
Qed.

(** Removing a row. *)
Lemma entry_move_last_over keys props r y v : length keys = length props -> (r < length keys)%nat ->
  entry (cells_move_last_over r keys) (cells_move_last_over r props) y v <->
  exists i, i <> r /\ keys !! i = Some (v_string y) /\ props !! i = Some v.
Proof.
  intros El Hr. unfold entry. setoid_rewrite (move_last_over_lookup keys r); [|done].
  setoid_rewrite (move_last_over_lookup props r); [|lia]. rewrite <- El. split.
  - intros (j & Hj & Hv). destruct (decide (j < length keys - 1)%nat); [|done]. destruct (decide (j = r)) as [->|Hn].
    + exists (length keys - 1)%nat. split; [lia|done].
    + by exists j.
  - intros (i & Hn & Hi & Hv). pose proof (lookup_lt_Some _ _ _ Hi).
    destruct (decide (i = length keys - 1)%nat) as [->|Hl].
    + exists r. rewrite !decide_True by lia. by split.
    + exists i. by split; rewrite decide_True, decide_False by (done || lia).
Qed.

Lemma move_last_over_NoDup keys r : NoDup keys -> (r < length keys)%nat -> NoDup (cells_move_last_over r keys).
Proof.
  intros Hnd Hr. apply NoDup_alt. intros i j x. rewrite !move_last_over_lookup by done.
  destruct (decide (i < length keys - 1)%nat), (decide (j < length keys - 1)%nat); [|done..].
  intros Hi Hj. destruct (decide (i = r)) as [->|Hi'], (decide (j = r)) as [->|Hj']; [done|..];
    assert (Hij := proj1 (NoDup_alt _) Hnd _ _ _ Hi Hj); lia.
Qed.

Lemma remove_row (g : G) t keys props x r : has_pk g t keys props -> (r < row_count t)%nat ->
  col_cells keys !! r = Some (v_string x) -> key_set g (move_last_over g c_primaryKeyTableName r) x EmptyString.
Proof.
  intros Hg Hr Hkr. pose proof Hg as [Eg [Ec Et Ek Ep Ed]].
  pose proof (move_last_over_law g _ t r Eg Hr) as Hc.
  assert (pk_table (table_move_last_over r t) (set_cells (cells_move_last_over r (col_cells keys)) keys)
    (set_cells (cells_move_last_over r (col_cells props)) props)) as Ht'.
  { unfold table_move_last_over. rewrite Ec. constructor; cbn; [done..| | |].
    - rewrite move_last_over_length by lia. lia.
    - rewrite move_last_over_length by lia. lia.
    - apply move_last_over_NoDup; [done|lia]. }
  eapply key_set_intro; [exact Hg|exact Hc|exact Ht'| |].
  - intros y v Hy. cbn. rewrite entry_move_last_over by lia. unfold entry. split.
    + intros (i & Hi & Hv). exists i. split; [|done]. intros ->. rewrite Hkr in Hi. congruence.
    + intros (i & _ & Hi & Hv). by exists i.
  - apply (get_primary_key_None _ _ _ _ x (pk_ok_intro _ _ _ _ _ Hc Ht')). cbn. intros v.
    rewrite entry_move_last_over by lia. intros (i & Hi & Hk & _). apply Hi. by eapply (NoDup_lookup (col_cells keys)).
Qed.

Lemma change_row (g : G) t keys props x r k : has_pk g t keys props -> (r < row_count t)%nat ->
  col_cells keys !! r = Some (v_string x) -> key_set g (set_value g c_primaryKeyTableName 1 r (v_string k)) x k.
Proof.
  intros Hg Hr Hkr. pose proof Hg as [Eg Ht]. pose proof Ht as [Ec Et Ek Ep Ed].
  pose proof (set_value_law g _ t 1 r (v_string k) Eg (proj2 (pk_in_columns _ _ _ Ht)) Hr) as Hc.
  assert (pk_table (map_column (Z.to_nat 1) (fun c => set_cells (<[r := v_string k]> (col_cells c)) c) t) keys
    (set_cells (<[r := v_string k]> (col_cells props)) props)) as Ht'.
  { unfold map_column. rewrite Ec. constructor; cbn; try done. by rewrite length_insert. }
  assert (forall y v, y <> x -> entry (col_cells keys) (col_cells props) y v <->
    entry (col_cells keys) (<[r := v_string k]> (col_cells props)) y v) as He.
  { intros y v Hy. apply entry_same_length; [done|]. intros i Hi. rewrite list_lookup_insert_ne; [done|].
    intros ->. rewrite Hkr in Hi. congruence. }
  eapply key_set_intro; [exact Hg|exact Hc|exact Ht'|exact He|].
  rewrite (get_primary_key_Some _ _ _ _ x (v_string k) (pk_ok_intro _ _ _ _ _ Hc Ht')); [done|].
  exists r. split; [done|]. cbn. apply list_lookup_insert_eq. lia.
Qed.

(** [set_primary_key_for_object] is a map update on files without object
    identifiers. *)
Lemma set_primary_key_spec (g : G) x k : has_object_ids g = false -> pk_ok g ->
  exists g', set_primary_key_for_object g x k = Ok g' /\ key_set g g' x k.
Proof.
  intros Hids (t & keys & props & Hg). pose proof Hg as [Eg Ht].
  pose proof (get_primary_key_entry g t keys props x Hg) as Hx.
  unfold set_primary_key_for_object. rewrite Eg, Hids, (find_first_keys t keys props) by done.
  destruct (index_of _ (col_cells keys)) as [r|]; destruct (empty k) eqn:Ekk; rewrite ?empty_true in Ekk.
  - destruct Hx as (Hr & v & Hv & Hkr & _). eexists. split; [done|]. subst k. by eapply remove_row.
  - destruct Hx as (Hr & v & Hv & Hkr & _). eexists. split; [done|]. by eapply change_row.
  - destruct Hx as [Hn _]. eexists. split; [done|]. constructor; [by exists t, keys, props| | |done].
    + exists t. by apply changes_to_refl.
    + intros y. destruct (decide (y = x)) as [->|]; [congruence|done].
  - destruct Hx as [_ Hn]. eexists. split; [done|]. eapply key_set_append; [exact Hg|done|by eapply fill_new_row].
Qed.

(** ** The schema version *)
Definition metadata_table (t : Table) : Prop :=
  exists c cs, columns t = c :: cs /\ length (col_cells c) = row_count t /\ (0 < row_count t)%nat.

Definition metadata_ok (g : G) : Prop := exists t, get_table g c_metadataTableName = Some t /\ metadata_table t.

Lemma int64_round_trip v : 0 <= v < 2 ^ 64 -> to_uint64 (to_int64 v) = v.
Proof.
  intros Hv. unfold to_uint64, to_int64. rewrite Zminus_mod_idemp_l.
  replace (v + 2 ^ 63 - 2 ^ 63) with v by lia. by apply Z.mod_small.
Qed.

Lemma write_version_spec (g : G) v : metadata_ok g -> 0 <= v < 2 ^ 64 ->
  get_schema_version (write_schema_version g v) = v /\ metadata_ok (write_schema_version g v) /\
  exists t', changes_to g (write_schema_version g v) c_metadataTableName t'.
Proof.
  intros (t & Eg & c & cs & Ec & Ek & Hr) Hv.
  assert (in_columns 0 t) as Hc by (unfold in_columns; rewrite Ec; cbn; lia).
  pose proof (set_value_law g _ t 0 0 (v_int (to_int64 v)) Eg Hc Hr) as Hset.
  fold (write_schema_version g v) in Hset. unfold map_column in Hset. rewrite Ec in Hset.
  change (Z.to_nat 0) with O in Hset. cbn [alter list_alter] in Hset.
  split; [|split; [|by eexists]].
  - unfold get_schema_version. rewrite (changes_to_get _ _ _ _ Hset). cbn. rewrite list_lookup_insert_eq by lia.
    by apply int64_round_trip.
  - exists (with_columns t (set_cells (<[O := v_int (to_int64 v)]> (col_cells c)) c :: cs)). split; [by apply Hset|].
    eexists _, cs. split; [done|]. cbn. rewrite length_insert. lia.
Qed.

(** What a file may look like before: the two tables missing, without columns,
    or complete. *)
Record store_ok (g : G) : Prop := {
  sok_pk : forall t, get_table g c_primaryKeyTableName = Some t ->
    (columns t = [] /\ row_count t = O) \/ exists keys props, pk_table t keys props;
  sok_metadata : forall t, get_table g c_metadataTableName = Some t ->
    (columns t = [] /\ row_count t = O) \/ metadata_table t
}.

(** The group after adding a table that may exist. *)
Lemma get_or_add_table_spec (g : G) n :
  exists t, changes_to g (get_or_add_table g n) n t /\ (get_table g n = Some t \/ get_table g n = None /\ t = mkTable [] 0).
Proof.
  destruct (get_table g n) as [t|] eqn:E.
  - exists t. rewrite (add_table_old g n t E). split; [by apply changes_to_refl|by left].
  - exists (mkTable [] 0). split; [by apply add_table_new|by right].
Qed.

Lemma new_metadata_spec (g : G) t : get_table g c_metadataTableName = Some t -> columns t = [] -> row_count t = O ->
  exists t', changes_to g (set_value (add_empty_row (insert_column g c_metadataTableName 0 type_Int c_versionColumnName false)
      c_metadataTableName) c_metadataTableName 0 0 (v_int (to_int64 NotVersioned))) c_metadataTableName t' /\
    metadata_table t' /\ exists c, columns t' = [c] /\ col_cells c = [v_int (to_int64 NotVersioned)].
Proof.
  intros Eg Ec Er.
  assert (0 <= 0 <= Z.of_nat (length (columns t))) as Hin by (rewrite Ec; cbn; lia).
  pose proof (insert_column_law g _ t 0 type_Int c_versionColumnName false Eg Hin eq_refl) as H1.
  unfold insert_at, new_column in H1. rewrite Ec, Er in H1. change (Z.to_nat 0) with O in H1. cbn in H1.
  pose proof (add_empty_row_law _ _ _ (changes_to_get _ _ _ _ H1)) as H2. specialize (H2 ltac:(done)).
  cbn in H2. rewrite Er in H2.
  eexists. split; [|split].
  - eapply changes_to_trans; [exact H1|]. eapply changes_to_trans; [exact H2|].
    apply (set_value_law _ _ _ 0 0 _ (changes_to_get _ _ _ _ H2)); [unfold in_columns; cbn; lia|cbn; lia].
  - eexists _, []. split; [done|]. cbn. lia.
  - by eexists.
Qed.

Lemma new_pk_spec (g : G) t : get_table g c_primaryKeyTableName = Some t -> columns t = [] -> row_count t = O ->
  exists t' keys props, changes_to g (insert_column (insert_column g c_primaryKeyTableName 0 type_String
      c_primaryKeyObjectClassColumnName false) c_primaryKeyTableName 1 type_String c_primaryKeyPropertyNameColumnName false)
      c_primaryKeyTableName t' /\ pk_table t' keys props /\ row_count t' = O.
Proof.
  intros Eg Ec Er.
  assert (0 <= 0 <= Z.of_nat (length (columns t))) as Hin by (rewrite Ec; cbn; lia).
  pose proof (insert_column_law g _ t 0 type_String c_primaryKeyObjectClassColumnName false Eg Hin eq_refl) as H1.
  unfold insert_at in H1. rewrite Ec in H1. change (Z.to_nat 0) with O in H1. cbn in H1. set (c1 := new_column _ _ _ _) in H1.
  assert (0 <= 1 <= Z.of_nat (length (columns (with_columns t [c1])))) as Hin1 by (cbn; lia).
  pose proof (insert_column_law _ _ _ 1 type_String c_primaryKeyPropertyNameColumnName false
    (changes_to_get _ _ _ _ H1) Hin1 eq_refl) as H2.
  unfold insert_at in H2. change (Z.to_nat 1) with 1%nat in H2. cbn in H2.
  eexists _, c1, _. split; [eapply changes_to_trans; [exact H1|exact H2]|]. split; [|done].
  constructor; unfold c1, new_column; cbn; rewrite ?Er; try done. constructor.
Qed.

Lemma index_pk_spec (g : G) t keys props : has_pk g t keys props ->
  exists t' keys', changes_to g (add_search_index g c_primaryKeyTableName 0) c_primaryKeyTableName t' /\
    pk_table t' keys' props /\ col_cells keys' = col_cells keys.
Proof.
  intros [Eg Ht]. pose proof Ht as [Ec Et Ek Ep Ed].
  assert (changes_to g (add_search_index g c_primaryKeyTableName 0) c_primaryKeyTableName
    (map_column (Z.to_nat 0) (set_index true) t)) as Hc.
  { apply (add_search_index_law g _ t 0 keys); [done|lia|by rewrite Ec|by rewrite Et]. }
  exists (map_column (Z.to_nat 0) (set_index true) t), (set_index true keys). split; [done|]. split; [|done].
  unfold map_column. rewrite Ec. constructor; cbn; done.
Qed.

Lemma column_count_get (g : G) n t : get_table g n = Some t -> column_count g n = length (columns t).
Proof. intros E. unfold column_count. by rewrite E. Qed.

(** The metadata tables are complete afterwards; classes and their keys are as
    before. *)
Lemma create_metadata_spec (g : G) : store_ok g -> let g' := create_metadata_tables g in
  pk_ok g' /\ metadata_ok g' /\ has_object_ids g' = has_object_ids g /\
  (forall n, n <> c_primaryKeyTableName -> n <> c_metadataTableName -> get_table g' n = get_table g n) /\
  (forall x, get_primary_key_for_object g' x = get_primary_key_for_object g x) /\
  (forall x, has_entry g' x <-> has_entry g x) /\
  get_schema_version g' = get_schema_version g.
Proof.
  intros [Hpk Hmeta]. cbv zeta. unfold create_metadata_tables.
  destruct (get_or_add_table_spec g c_primaryKeyTableName) as (tp & Hc1 & Ep).
  set (g1 := get_or_add_table g c_primaryKeyTableName) in *.
  destruct (get_or_add_table_spec g1 c_metadataTableName) as (tm & Hc2 & Em).
  set (g2 := get_or_add_table g1 c_metadataTableName) in *.
  rewrite (changes_to_other _ _ _ _ c_metadataTableName Hc1) in Em by done.
  assert ((columns tm = [] /\ row_count tm = O) \/ metadata_table tm) as Htm
    by (destruct Em as [Em|[_ ->]]; [by apply Hmeta|by left]).
  assert ((columns tp = [] /\ row_count tp = O) \/ exists keys props, pk_table tp keys props) as Htp
    by (destruct Ep as [Ep|[_ ->]]; [by apply Hpk|by left]).
  assert (exists g3 tm', (if (column_count g2 c_metadataTableName =? 0)%nat then
      set_value (add_empty_row (insert_column g2 c_metadataTableName 0 type_Int c_versionColumnName false)
                   c_metadataTableName) c_metadataTableName 0 0 (v_int (to_int64 NotVersioned)) else g2) = g3 /\
    changes_to g2 g3 c_metadataTableName tm' /\ metadata_table tm' /\ get_schema_version g3 = get_schema_version g)
    as (g3 & tm' & -> & Hc3 & Htm' & Ev).
  { rewrite (column_count_get _ _ _ (changes_to_get _ _ _ _ Hc2)). destruct Htm as [[Ec Er]|Htm].
    - rewrite Ec. cbn [length Nat.eqb].
      destruct (new_metadata_spec g2 tm) as (tm' & Hc3 & Htm' & c & Ecs & Ecell); [by apply Hc2|done..|].
      eexists _, tm'. split; [done|]. split; [done|]. split; [done|].
      unfold get_schema_version. rewrite (changes_to_get _ _ _ _ Hc3), Ecs. cbn [length Nat.eqb].
      unfold get_cell. rewrite Ecs. cbn. rewrite Ecell. cbn. destruct Em as [->|[-> _]]; [by rewrite Ec|done].
    - pose proof Htm as (c & cs & Ec & Ek & Hr). rewrite Ec. cbn [length Nat.eqb].
      exists g2, tm. split; [done|]. split; [by apply changes_to_refl, Hc2|]. split; [done|].
      unfold get_schema_version. rewrite (changes_to_get _ _ _ _ Hc2).
      destruct Em as [->|[_ ->]]; [done|discriminate Ec]. }
  assert (get_table g3 c_primaryKeyTableName = Some tp) as Eg3.
  { rewrite (changes_to_other _ _ _ _ _ Hc3), (changes_to_other _ _ _ _ _ Hc2) by done. apply Hc1. }
  assert (exists g4 tp' keys props, (if (column_count g3 c_primaryKeyTableName =? 0)%nat then
      insert_column (insert_column g3 c_primaryKeyTableName 0 type_String c_primaryKeyObjectClassColumnName false)
        c_primaryKeyTableName 1 type_String c_primaryKeyPropertyNameColumnName false else g3) = g4 /\
    changes_to g3 g4 c_primaryKeyTableName tp' /\ pk_table tp' keys props /\
    forall x, get_primary_key_for_object g4 x = get_primary_key_for_object g x /\ (has_entry g4 x <-> has_entry g x))
    as (g4 & tp' & keys & props & -> & Hc4 & Htp' & Ekey).
  { rewrite (column_count_get _ _ _ Eg3). destruct Htp as [[Ec Er]|(keys & props & Htp)].
    - rewrite Ec. cbn [length Nat.eqb]. destruct (new_pk_spec g3 tp Eg3 Ec Er) as (tp' & keys & props & Hc4 & Htp' & Er').
      eexists _, tp', keys, props. split; [done|]. split; [done|]. split; [done|]. intros x.
      assert (forall v, ~ entry (col_cells keys) (col_cells props) x v) as Hno.
      { intros v (i & Hi & _). apply lookup_lt_Some in Hi. destruct Htp' as [_ _ Ek _ _]. lia. }
      assert (has_pk (insert_column (insert_column g3 c_primaryKeyTableName 0 type_String
        c_primaryKeyObjectClassColumnName false) c_primaryKeyTableName 1 type_String c_primaryKeyPropertyNameColumnName
        false) tp' keys props) as Hg4 by (split; [apply Hc4|done]).
      split; [transitivity EmptyString|].
      + by apply (get_primary_key_None _ tp' keys props).
      + unfold get_primary_key_for_object. destruct Ep as [->|[-> _]]; [|done]. unfold find_first. by rewrite Ec.
      + rewrite (has_entry_pk _ _ _ _ x Hg4). split; [intros [v Hv]; by destruct (Hno v)|].
        intros (t' & keys' & props' & v & [Eg' [Ec' _ _ _ _]] & _). destruct Ep as [Ep|[Ep _]]; congruence.
    - pose proof Htp as [Ec _ _ _ _]. rewrite Ec. cbn [length Nat.eqb].
      exists g3, tp, keys, props. split; [done|]. split; [by apply changes_to_refl|]. split; [done|]. intros x.
      assert (get_table g3 c_primaryKeyTableName = get_table g c_primaryKeyTableName) as Esame
        by (rewrite Eg3; destruct Ep as [->|[_ ->]]; [done|discriminate Ec]).
      unfold get_primary_key_for_object. rewrite Esame. split; [done|]. by apply has_entry_frame. }
  destruct (index_pk_spec g4 tp' keys props) as (tp'' & keys' & Hc5 & Htp'' & Ecells); [by split; [apply Hc4|]|].
  assert (has_pk g4 tp' keys props) as Hg4 by (split; [apply Hc4|done]).
  assert (has_pk (add_search_index g4 c_primaryKeyTableName 0) tp'' keys' props) as Hg5 by (split; [apply Hc5|done]).
  split; [|split; [|split; [|split; [|split; [|split]]]]].
  - exists tp'', keys', props. by split; [apply Hc5|].
  - exists tm'. split; [|done]. rewrite (changes_to_other _ _ _ _ _ Hc5), (changes_to_other _ _ _ _ _ Hc4) by done. apply Hc3.
  - by rewrite (changes_to_ids _ _ _ _ Hc5), (changes_to_ids _ _ _ _ Hc4), (changes_to_ids _ _ _ _ Hc3),
      (changes_to_ids _ _ _ _ Hc2), (changes_to_ids _ _ _ _ Hc1).
  - intros n Hn1 Hn2. by rewrite (changes_to_other _ _ _ _ _ Hc5), (changes_to_other _ _ _ _ _ Hc4),
      (changes_to_other _ _ _ _ _ Hc3), (changes_to_other _ _ _ _ _ Hc2), (changes_to_other _ _ _ _ _ Hc1) by done.
  - intros x. rewrite <- (proj1 (Ekey x)). apply (get_primary_key_same _ _ tp' keys props tp'' keys' props); [done..|].
    intros v. by rewrite Ecells.
  - intros x. rewrite <- (proj2 (Ekey x)), (has_entry_pk _ _ _ _ x Hg4), (has_entry_pk _ _ _ _ x Hg5). by rewrite Ecells.
  - rewrite <- Ev. unfold get_schema_version.
    by rewrite (changes_to_other _ _ _ _ _ Hc5), (changes_to_other _ _ _ _ _ Hc4) by done.
Qed.
End metadata.
