(* ===== verification/StoreTheorems.v ===== *)
(** * The object store: theorems on its parts

    Property types, columns, the schema version, the checks a schema mode makes
    and the check for duplicate primary keys. *)
From stdpp Require Import gmap.
From S2P Require Import Prelude.
From S2P Require Import IndexSets.
From S2P Require Import SchemaTypes.
From S2P Require Import Schemas.
From S2P Require Import SchemaValidation.
From S2P Require Import SchemaTheorems.
From S2P Require Import CoreTables.
From S2P Require Import ObjectStore.
From S2P Require Import StoreChanges.
From S2P Require Import StoreFacts.
From S2P Require Import StoreMetadata.

(** ** The checks of the schema modes *)
Lemma verify_no_errors_spec error_type verifier changes :
  match verify_no_errors error_type verifier changes with
  | Ok _ => Forall (fun sc => verifier sc = []) changes
  | Throw e => exists errors, e = error_type errors /\ errors <> [] /\ errors = flat_map verifier changes
  | Crash => False
  end.
Proof.
  unfold verify_no_errors. destruct (flat_map verifier changes) as [|err errors] eqn:E.
  - apply Forall_forall. by apply flat_map_nil.
  - by exists (err :: errors).
Qed.

(** What a mode does with a change. *)
Definition accepts (verifier : SchemaChange -> list SchemaError) (kinds : SchemaChange -> bool) : Prop :=
  forall sc, verifier sc = (if kinds sc then [] else explain sc) /\ (kinds sc = false -> explain sc <> []).

Definition unremarkable (sc : SchemaChange) : bool :=
  match sc with RemoveTable _ | AddInitialProperties _ => true | _ => false end.
Definition tables_and_indexes (sc : SchemaChange) : bool :=
  match sc with AddTable _ | RemoveTable _ | AddInitialProperties _ | AddIndex _ _ | RemoveIndex _ _ => true | _ => false end.
Definition adds_or_removes (sc : SchemaChange) : bool :=
  tables_and_indexes sc || match sc with AddProperty _ _ | RemoveProperty _ _ => true | _ => false end.
Definition removes_columns (sc : SchemaChange) : bool :=
  tables_and_indexes sc || match sc with RemoveProperty _ _ => true | _ => false end.

Lemma key_explained o p : explain (ChangePrimaryKey o p) <> [].
Proof. destruct p; simpl; [by destruct (negb _)|done]. Qed.

Ltac accepts_kinds := intros []; split; try done; intros _; apply key_explained.

Lemma accepts_explain : accepts explain unremarkable.
Proof. accepts_kinds. Qed.
Lemma accepts_no_migration : accepts no_migration_verifier tables_and_indexes.
Proof. accepts_kinds. Qed.
Lemma accepts_additive : accepts additive_verifier adds_or_removes.
Proof. accepts_kinds. Qed.
Lemma accepts_immutable : accepts immutable_verifier removes_columns.
Proof. accepts_kinds. Qed.

(** A check with such a verifier, run over a list of changes. *)
Definition checks (error_type : list SchemaError -> Exception) (kinds : SchemaChange -> bool) (changes : list SchemaChange)
    (r : Result ()) : Prop :=
  r = if forallb kinds changes then Ok tt
      else Throw (error_type (flat_map explain (List.filter (fun sc => negb (kinds sc)) changes))).

Lemma accepts_checks error_type verifier kinds changes : accepts verifier kinds ->
  checks error_type kinds changes (verify_no_errors error_type verifier changes).
Proof.
  intros Hv. unfold checks, verify_no_errors.
  assert (flat_map verifier changes = flat_map explain (List.filter (fun sc => negb (kinds sc)) changes)) as E.
  { induction changes as [|sc l IH]; [done|]. simpl. destruct (Hv sc) as [-> _]. rewrite IH. by destruct (kinds sc). }
  rewrite E. clear E. induction changes as [|sc l IH]; [done|]. simpl. destruct (kinds sc) eqn:Ek; simpl; [done|].
  destruct (Hv sc) as [_ Hn]. specialize (Hn Ek). by destruct (explain sc).
Qed.

Lemma needs_migration_kinds changes : needs_migration changes = negb (forallb tables_and_indexes changes).
Proof.
  induction changes as [|sc l IH]; [done|]. unfold needs_migration in *. simpl. rewrite IH. by destruct sc.
Qed.

(** C20: The checks of the schema modes accept exactly these kinds of changes and
    otherwise throw the explanations of the refused changes, in their order: no
    change at all for Manual, tables and indexes without a migration (precisely
    when [needs_migration] is false), also added and removed properties for
    Additive, removed but not added properties, missing tables and indexes for
    Immutable and ReadOnlyAlternative. This is what the code accepts, which is
    more than [shared_realm.hpp] says: Immutable is to require that the tables in
    the file match exactly, and ReadOnlyAlternative that none is missing. *)
Theorem modes_check_changes (changes : list SchemaChange) (update_indexes : bool) :
  checks SchemaMismatchException unremarkable changes (verify_no_changes_required changes) /\
  checks SchemaMismatchException tables_and_indexes changes (verify_no_migration_required changes) /\
  (needs_migration changes = false <-> verify_no_migration_required changes = Ok tt) /\
  checks InvalidSchemaChangeException adds_or_removes changes
    (_ ← verify_valid_additive_changes changes update_indexes; Ok tt) /\
  checks InvalidSchemaChangeException removes_columns changes (verify_compatible_for_immutable_and_readonly changes).
Proof.
  pose proof (accepts_checks SchemaMismatchException _ _ changes accepts_no_migration) as Hm.
  split; [apply accepts_checks, accepts_explain|]. split; [done|]. split; [|split].
  - rewrite needs_migration_kinds. unfold verify_no_migration_required. rewrite Hm.
    by destruct (forallb tables_and_indexes changes).
  - pose proof (accepts_checks InvalidSchemaChangeException _ _ changes accepts_additive) as Ha.
    unfold checks, verify_valid_additive_changes in *. rewrite Ha. by destruct (forallb adds_or_removes changes).
  - apply accepts_checks, accepts_immutable.
Qed.

(** C21: The flags of a property type live in one byte: reading them splits the
    byte, and setting or clearing the optional flag or setting the array flag
    stays within the byte and changes nothing else. *)
Theorem property_type_flags (a : PropertyType) : byte a ->
  (a = pt_base a + (if is_nullable a then 64 else 0) + (if is_array a then 128 else 0) /\ 0 <= pt_base a < 64) /\
  (forall b nullable array,
     (b = pt_or a PT_Nullable /\ nullable = true /\ array = is_array a) \/
     (b = pt_and a (pt_not PT_Nullable) /\ nullable = false /\ array = is_array a) \/
     (b = pt_or a PT_Array /\ nullable = is_nullable a /\ array = true) \/
     (b = pt_and a (pt_not PT_Flags) /\ nullable = false /\ array = false) ->
     byte b /\ pt_base b = pt_base a /\ is_nullable b = nullable /\ is_array b = array).
Proof.
  intros Ha. pose proof (pt_split a Ha) as [Es Hb]. split; [done|].
  destruct (pt_operations a Ha) as (E1 & E2 & E3 & E4). intros b n r Hop.
  assert (b = pt_make (pt_base a) n r) as -> by (destruct Hop as [(-> & -> & ->)|[(-> & -> & ->)|[(-> & -> & ->)|(-> & -> & ->)]]]; done).
  destruct (pt_make_spec (pt_base a) n r Hb) as (? & ? & ? & ?). done.
Qed.

Lemma property_type_flags_witness : byte (pt_or PT_Int PT_Nullable) /\ byte PT_Int /\ pt_base (pt_or PT_Int PT_Nullable) = pt_base PT_Int /\
  is_nullable (pt_or PT_Int PT_Nullable) = true /\ is_array (pt_or PT_Int PT_Nullable) = is_array PT_Int.
Proof.
  assert (byte PT_Int) as Hb by (by split).
  destruct (proj2 (property_type_flags PT_Int Hb) (pt_or PT_Int PT_Nullable) true (is_array PT_Int)) as (? & ? & ? & ?);
    [by left|by split_and!].
Defined.

Lemma remove_dups_length {A} `{EqDecision A} (l : list A) : (length (remove_dups l) <= length l)%nat.
Proof. induction l as [|x l IH]; simpl; [done|]. destruct (decide_rel _ x l); simpl; lia. Qed.

Lemma remove_dups_full {A} `{EqDecision A} (l : list A) : length (remove_dups l) = length l <-> NoDup l.
Proof.
  induction l as [|x l IH]; simpl; [by split; [constructor|]|]. pose proof (remove_dups_length l).
  destruct (decide_rel _ x l) as [Hx|Hx]; simpl.
  - split; [lia|]. by intros [? _]%NoDup_cons.
  - rewrite NoDup_cons, <- IH. split; [split; [done|lia]|intros [_ ->]; done].
Qed.

Section theorems.
Context {G : Type} `{CoreLaws G}.

(** A property stored in a new column at any position reads back from that
    column with its name, type, flags and target, and the index the object store
    put on it; the table's other columns are the old ones. *)
Theorem property_column_round_trip (g : G) (n : string) (t : Table) (p : Property) (c : nat) :
  get_table g n = Some t -> storable p -> (c <= length (columns t))%nat ->
  (is_link p = true -> is_Some (get_table g (column_target p))) ->
  exists g' t', insert_property_column g n p (Z.of_nat c) = Ok g' /\ get_table g' n = Some t' /\
    property_for_column_index t' c =
      Ok (Some (mkProperty (prop_name p) (prop_type p) (object_type p) EmptyString false (requires_index p) (Z.of_nat c))) /\
    delete c (columns t') = columns t /\ row_count t' = row_count t.
Proof.
  intros Et Hp Hc Hl. destruct (insert_property_column_spec g n t p (Z.of_nat c) Et Hp) as (g' & E & Hch); [lia|done|].
  rewrite Nat2Z.id in Hch. exists g', (with_columns t (insert_at c (property_column t p) (columns t))).
  split; [done|]. split; [by apply Hch|]. split; [|split; [|done]].
  - unfold property_for_column_index. cbn [columns with_columns]. rewrite insert_at_lookup by done.
    rewrite (read_column p) by done. unfold read_back_property. unfold property_column, new_column. cbn [col_index].
    assert (column_index p = requires_index p) as ->; [|done].
    unfold column_index. destruct (requires_index p) eqn:Er; [|by rewrite andb_false_r].
    destruct (st_index p Hp Er) as (-> & -> & _). done.
  - cbn [columns with_columns]. unfold insert_at. rewrite delete_take_drop.
    assert (length (take c (columns t)) = c) as El by (rewrite length_take; lia).
    rewrite take_app_length' by done. rewrite drop_app_ge by lia. rewrite El. replace (S c - c)%nat with 1%nat by lia. cbn.
    by rewrite drop_0, take_drop.
Qed.

(** The schema version is a 64 bit unsigned number that survives being
    stored as a signed one; creating the metadata tables changes neither the
    version nor any class table nor any primary key. *)
Theorem schema_version_round_trip (g : G) (version : Z) : store_ok g -> 0 <= version < 2 ^ 64 ->
  get_schema_version (set_schema_version g version) = version /\
  get_schema_version (create_metadata_tables g) = get_schema_version g /\
  (forall x, table_for_object_type (set_schema_version g version) x = table_for_object_type g x) /\
  (forall x, get_primary_key_for_object (set_schema_version g version) x = get_primary_key_for_object g x).
Proof.
  intros Hg Hv. destruct (create_metadata_spec g Hg) as (_ & Hmeta & _ & Htab & Hkey & _ & Ev).
  destruct (write_version_spec _ version Hmeta Hv) as (E & _ & t' & Hc). split; [done|]. split; [done|]. split; intros x.
  - unfold set_schema_version, table_for_object_type. rewrite (changes_to_other _ _ _ _ _ Hc) by done. by apply Htab.
  - unfold set_schema_version. rewrite (get_primary_key_frame _ _ _ _ x Hc) by done. apply Hkey.
Qed.

(** The check of a primary key column reports a duplicate exactly when two
    rows hold the same value. *)
Theorem primary_key_uniqueness (g : G) (object_type primary_property : string) (t : Table) (i : nat) (c : Column) :
  table_for_object_type g object_type = Some t -> get_column_index t primary_property = Some i -> columns t !! i = Some c ->
  well_formed t ->
  validate_primary_column_uniqueness g object_type primary_property =
    if decide (NoDup (col_cells c)) then Ok tt else Throw (DuplicatePrimaryKeyValueException object_type primary_property).
Proof.
  intros Et Ei Ec Hwf. unfold validate_primary_column_uniqueness. rewrite Et, Ei. cbn [mbind option_bind]. rewrite Ec.
  assert (length (col_cells c) = row_count t) as <- by (by apply (proj1 (Forall_lookup _ _) Hwf i)). unfold distinct_count.
  pose proof (remove_dups_full (col_cells c)) as Hd. destruct (decide (NoDup (col_cells c))) as [Hn|Hn].
  - by rewrite (proj2 Hd Hn), Nat.eqb_refl.
  - destruct (Nat.eqb_spec (length (remove_dups (col_cells c))) (length (col_cells c))) as [E|]; [|done]. tauto.
Qed.

(** Making a stored value property optional keeps every row's value and
    every other column: only the column's nullability changes. *)
Theorem optional_keeps_values (g : G) (n : string) (t : Table) (p : Property) (y : Column) :
  get_table g n = Some t -> 0 <= table_column p -> columns t !! Z.to_nat (table_column p) = Some y ->
  storable p -> is_link p = false -> is_array (prop_type p) = false -> well_formed t -> col_type y = core_type p ->
  exists g' t' y', make_property_optional g n p = Ok g' /\ get_table g' n = Some t' /\
    columns t' = <[Z.to_nat (table_column p) := y']> (columns t) /\ row_count t' = row_count t /\
    col_cells y' = col_cells y /\ col_spec y' = mkColumnSpec (prop_name p) (core_type p) true [] /\
    (forall m, m <> n -> get_table g' m = get_table g m).
Proof.
  intros Et Hc Hy Hp El Ea Hwf Hty.
  destruct (make_property_optional_spec g n t p y Et Hc Hy Hp El Hwf) as (g' & E & Hch); [by rewrite Ea|done|].
  eexists g', _, (optional_column p y). split; [done|]. split; [by apply Hch|]. split; [done|]. split; [done|].
  split; [|split; [|by apply Hch]]; [done|]. cbn [col_spec optional_column].
  destruct (optional_storable p Hp El) as [_ Elo]. destruct (optional_type p (st_byte p Hp)) as (Eb & Ear & En & _).
  unfold column_spec, core_type. by rewrite Elo, Ear, Ea, En, Eb.
Qed.
End theorems.

(** ** A file with one class *)
Definition age_column : Column := mkColumn (mkColumnSpec "age" type_Int false []) EmptyString false [v_int 3; v_int 4].
Definition dogs : Table := mkTable [age_column] 2.
Definition kennel : PlainGroup := mkPlainGroup (<["class_dog" := dogs]> ∅) false.
Definition age_property : Property := mkProperty "age" PT_Int EmptyString EmptyString false false 0.
Definition chip_property : Property := mkProperty "chip" PT_String EmptyString EmptyString false true 0.

Lemma value_storable (name : string) (b : PropertyType) (indexed : bool) : b = PT_Int \/ b = PT_String ->
  name <> object_id_column_name -> storable (mkProperty name b EmptyString EmptyString false indexed 0).
Proof. by intros [->| ->] Hn; constructor; cbn; try done; split; try done; eexists. Qed.

Lemma property_column_round_trip_witness : exists g' t',
  insert_property_column kennel "class_dog" chip_property 1 = Ok g' /\ get_table g' "class_dog" = Some t' /\
  property_for_column_index t' 1 = Ok (Some (mkProperty "chip" PT_String EmptyString EmptyString false true 1)) /\
  delete 1%nat (columns t') = columns dogs /\ row_count t' = 2%nat.
Proof.
  apply (property_column_round_trip kennel "class_dog" dogs chip_property 1); [done|by apply value_storable; [right|]|cbn; lia|done].
Defined.

Lemma schema_version_round_trip_witness :
  get_schema_version (set_schema_version kennel (2 ^ 64 - 2)) = 2 ^ 64 - 2 /\
  get_schema_version (create_metadata_tables kennel) = get_schema_version kennel /\
  (forall x, table_for_object_type (set_schema_version kennel (2 ^ 64 - 2)) x = table_for_object_type kennel x) /\
  (forall x, get_primary_key_for_object (set_schema_version kennel (2 ^ 64 - 2)) x = get_primary_key_for_object kennel x).
Proof. apply (schema_version_round_trip kennel (2 ^ 64 - 2)); [by constructor|lia]. Defined.

Lemma primary_key_uniqueness_witness : validate_primary_column_uniqueness kennel "dog" "age" = Ok tt.
Proof.
  rewrite (primary_key_uniqueness kennel "dog" "age" dogs 0 age_column) by (done || by repeat constructor). by vm_compute.
Defined.

Lemma optional_keeps_values_witness : exists g' t' y', make_property_optional kennel "class_dog" age_property = Ok g' /\
  get_table g' "class_dog" = Some t' /\ columns t' = <[O := y']> [age_column] /\ row_count t' = 2%nat /\
  col_cells y' = [v_int 3; v_int 4] /\ col_spec y' = mkColumnSpec "age" type_Int true [] /\
  (forall m, m <> "class_dog"%string -> get_table g' m = get_table kennel m).
Proof.
  apply (optional_keeps_values kennel "class_dog" dogs age_property age_column); try done;
    (by apply value_storable; [left|]) || by repeat constructor.
Defined.
