(* ===== verification/MigrationPlan.v ===== *)
(** * The plan of a migration

    For every column of every class, which of the changes listed by the
    comparison concern it, and what they make of it. *)
From S2P Require Import Prelude.
From S2P Require Import SchemaTypes.
From S2P Require Import Schemas.
From S2P Require Import SchemaValidation.
From S2P Require Import SchemaDiff.
From S2P Require Import SchemaTheorems.
From S2P Require Import CoreTables.
From S2P Require Import ObjectStore.
From S2P Require Import StoreFacts.
From S2P Require Import SchemaReading.

(** ** The classes of the two schemas *)

(** A class read from a file: distinct columns and names, and columns the
    object store could have created. *)
Record file_class (e : ObjectSchema) : Prop := {
  fc_columns : NoDup (table_column <$> persisted_properties e);
  fc_names : NoDup (prop_name <$> persisted_properties e);
  fc_computed : computed_properties e = [];
  fc_stored : Forall storable (persisted_properties e)
}.

(** A class the application asks for: distinct non-empty names, stored
    properties that columns exist for, links to classes of the schema, and at
    most the named primary key marked as such. *)
Record target_class (target_schema : Schema) (t : ObjectSchema) : Prop := {
  tc_name : os_name t <> EmptyString;
  tc_names : NoDup (prop_name <$> all_properties t);
  tc_nonempty : EmptyString ∉ (prop_name <$> all_properties t);
  tc_stored : Forall storable (persisted_properties t);
  tc_links : forall p, p ∈ persisted_properties t -> is_link p = true ->
    exists o, o ∈ target_schema /\ os_name o = object_type p;
  tc_primary : forall p, p ∈ persisted_properties t -> is_primary p = true <-> prop_name p = primary_key t;
  tc_key : primary_key t <> EmptyString -> exists p, p ∈ persisted_properties t /\ prop_name p = primary_key t /\
    (core_type p = type_Int \/ core_type p = type_String)
}.

Lemma target_property_unique target_schema t p : target_class target_schema t -> p ∈ persisted_properties t ->
  property_for_name t (prop_name p) = Some p /\ property_is_computed t p = false.
Proof.
  intros Ht Hp. pose proof (tc_names _ _ Ht) as Hn. unfold all_properties in Hn. rewrite fmap_app in Hn.
  apply NoDup_app in Hn as (Hnp & Hdis & _). split.
  - unfold property_for_name. destruct (List.find (named (prop_name p)) (persisted_properties t)) as [q|] eqn:E.
    + f_equal. apply List.find_some in E as [Hq En%string_eqb_eq]. apply list_elem_of_In in Hq.
      by apply (NoDup_key_inj prop_name (persisted_properties t)).
    + apply list_elem_of_In in Hp. pose proof (List.find_none _ _ E p Hp) as En. unfold named in En.
      by rewrite string_eqb_refl in En.
  - unfold property_is_computed. apply not_true_is_false. intros (q & Hq & Eq)%List.existsb_exists.
    apply list_elem_of_In in Hq. unfold property_eqb in Eq. rewrite !andb_true_iff in Eq.
    destruct Eq as [[[[[_ _] _] En%string_eqb_eq] _] _].
    apply (Hdis (prop_name p)); [by apply list_elem_of_fmap_2|]. rewrite <- En. by apply list_elem_of_fmap_2.
Qed.

(** A class that stores a property of the name, or none. *)
Lemma target_property_found target_schema t q name : target_class target_schema t ->
  property_for_name t name = Some q -> property_is_computed t q = false -> q ∈ persisted_properties t /\ prop_name q = name.
Proof.
  intros Ht E Ec. unfold property_for_name in E.
  destruct (List.find (named name) (persisted_properties t)) as [q'|] eqn:Ef.
  - injection E as ->. apply List.find_some in Ef as [Hq En%string_eqb_eq]. by apply list_elem_of_In in Hq.
  - apply List.find_some in E as [Hq En%string_eqb_eq]. exfalso. unfold property_is_computed in Ec.
    assert (existsb (fun q' => property_eqb q' q) (computed_properties t) = true) as Ex; [|congruence].
    apply List.existsb_exists. exists q. split; [done|]. unfold property_eqb.
    by rewrite Z.eqb_refl, !eqb_reflx, !string_eqb_refl.
Qed.

(** ** The changes that concern one column *)
Definition concerns (x : string) (i : Z) (sc : SchemaChange) : bool :=
  match sc with
  | RemoveProperty o p | MakePropertyNullable o p | MakePropertyRequired o p | AddIndex o p | RemoveIndex o p
  | ChangePropertyType o p _ => string_eqb (os_name o) x && (table_column p =? i)
  | _ => false
  end.

Lemma filter_flat_map {A B} (f : B -> bool) (g : A -> list B) l :
  List.filter f (flat_map g l) = flat_map (fun x => List.filter f (g x)) l.
Proof. induction l as [|x l IH]; [done|]. simpl. by rewrite List.filter_app, IH. Qed.

(** A list of which at most one element contributes. *)
Lemma flat_map_one {A B} (g : A -> list B) l x : NoDup l -> x ∈ l -> (forall y, y ∈ l -> y <> x -> g y = []) ->
  flat_map g l = g x.
Proof.
  intros Hnd Hx Hg. apply list_elem_of_split in Hx as (l1 & l2 & ->).
  apply NoDup_app in Hnd as (_ & Hd1 & Hd2). apply NoDup_cons in Hd2 as [Hd2 _].
  rewrite flat_map_app. cbn [flat_map].
  assert (flat_map g l1 = []) as ->.
  { apply flat_map_nil. intros y Hy. apply Hg; [by apply elem_of_app; left|]. intros ->. apply (Hd1 x Hy). by left. }
  assert (flat_map g l2 = []) as ->.
  { apply flat_map_nil. intros y Hy. apply Hg; [by apply elem_of_app; right; right|]. by intros ->. }
  by rewrite app_nil_r.
Qed.

Lemma concerns_property e t p x i : List.filter (concerns x i) (compare_property e t p) =
  if string_eqb (os_name e) x && (table_column p =? i) then compare_property e t p else [].
Proof.
  unfold compare_property, compare_nullability, compare_index.
  destruct (property_for_name t (prop_name p)) as [q|]; [destruct (property_is_computed t q)|];
    [| |cbn; by destruct (string_eqb _ _ && _)]; [cbn; by destruct (string_eqb _ _ && _)|].
  destruct (negb (same_type p q)); [cbn; by destruct (string_eqb _ _ && _)|].
  destruct (Bool.eqb _ _), (is_nullable (prop_type p)), (requires_index q), (negb (is_indexed p)), (requires_index p);
    cbn; by destruct (string_eqb _ _ && _).
Qed.

Lemma concerns_rest e t x i :
  List.filter (concerns x i) (compare_key e t) = [] /\
  List.filter (concerns x i) (flat_map (added_property e) (persisted_properties t)) = [].
Proof.
  split.
  - unfold compare_key. by destruct (string_eqb _ _).
  - rewrite filter_flat_map. apply flat_map_nil. intros q _. unfold added_property. by destruct (property_for_name _ _).
Qed.

Lemma concerns_object e t x i : List.filter (concerns x i) (object_changes e t) =
  flat_map (fun p => if string_eqb (os_name e) x && (table_column p =? i) then compare_property e t p else [])
    (persisted_properties e).
Proof.
  unfold object_changes. rewrite !List.filter_app, filter_flat_map. destruct (concerns_rest e t x i) as [-> ->].
  rewrite !app_nil_r. induction (persisted_properties e) as [|p l IH]; [done|]. simpl. by rewrite IH, concerns_property.
Qed.

Section plan.
Variables existing target_schema : Schema.
Hypothesis Hexisting : by_name existing.
Hypothesis Htarget : by_name target_schema.
Hypothesis Hfile : forall e, e ∈ existing -> file_class e.
Hypothesis Hclass : forall t, t ∈ target_schema -> target_class target_schema t.

Lemma existing_unique e e' : e ∈ existing -> e' ∈ existing -> os_name e = os_name e' -> e = e'.
Proof. apply NoDup_key_inj. by apply by_name_NoDup. Qed.
Lemma target_unique t t' : t ∈ target_schema -> t' ∈ target_schema -> os_name t = os_name t' -> t = t'.
Proof. apply NoDup_key_inj. by apply by_name_NoDup. Qed.

Lemma target_NoDup : NoDup target_schema.
Proof. eapply NoDup_fmap_1. by apply by_name_NoDup. Qed.

(** What the comparison lists for one class. *)
Definition changed_class (sc : SchemaChange) : ObjectSchema :=
  match sc with
  | AddTable o | RemoveTable o | AddInitialProperties o | AddProperty o _ | RemoveProperty o _
  | ChangePropertyType o _ _ | MakePropertyNullable o _ | MakePropertyRequired o _ | AddIndex o _ | RemoveIndex o _
  | ChangePrimaryKey o _ => o
  end.
Definition about (x : string) (sc : SchemaChange) : bool := string_eqb (os_name (changed_class sc)) x.

Lemma filter_all {A} (f : A -> bool) l : (forall x, x ∈ l -> f x = true) -> List.filter f l = l.
Proof.
  induction l as [|x l IH]; [done|]. intros Hl. simpl. rewrite (Hl x) by by left. f_equal. apply IH.
  intros y Hy. apply Hl. by right.
Qed.
Lemma filter_none {A} (f : A -> bool) l : (forall x, x ∈ l -> f x = false) -> List.filter f l = [].
Proof.
  induction l as [|x l IH]; [done|]. intros Hl. simpl. rewrite (Hl x) by by left. apply IH.
  intros y Hy. apply Hl. by right.
Qed.

Lemma compare_property_class e t p sc : sc ∈ compare_property e t p -> changed_class sc = e.
Proof.
  unfold compare_property, compare_nullability, compare_index.
  destruct (property_for_name t (prop_name p)) as [q|]; [|by intros ->%list_elem_of_singleton].
  destruct (property_is_computed t q); [by intros ->%list_elem_of_singleton|].
  destruct (negb (same_type p q)); [by intros ->%list_elem_of_singleton|].
  destruct (Bool.eqb _ _), (is_nullable (prop_type p)), (requires_index q), (negb (is_indexed p)), (requires_index p);
    cbn [app]; rewrite ?elem_of_cons, ?elem_of_nil; intuition (subst; done).
Qed.

Lemma object_changes_class e t sc : sc ∈ object_changes e t -> changed_class sc = e.
Proof.
  unfold object_changes. rewrite !elem_of_app. intros [Hsc|[Hsc|Hsc]].
  - apply list_elem_of_In, in_flat_map in Hsc as (p & _ & Hp). apply list_elem_of_In in Hp. by eapply compare_property_class.
  - unfold compare_key in Hsc. destruct (string_eqb _ _); [by apply elem_of_nil in Hsc|].
    by apply list_elem_of_singleton in Hsc as ->.
  - apply list_elem_of_In, in_flat_map in Hsc as (p & _ & Hp). unfold added_property in Hp.
    destruct (property_for_name _ _); [done|]. by destruct Hp as [<-|[]].
Qed.

Lemma class_differences_name t sc : sc ∈ class_differences existing t -> os_name (changed_class sc) = os_name t.
Proof.
  unfold class_differences. destruct (class_named existing (os_name t)) as [e|] eqn:E.
  - intros Hsc%object_changes_class. rewrite Hsc. by destruct (class_named_Some _ _ _ E).
  - by intros [->|[->|?%elem_of_nil]%elem_of_cons]%elem_of_cons.
Qed.

Lemma about_differences x :
  List.filter (about x) (differences existing target_schema false) =
  match class_named target_schema x with Some t => class_differences existing t | None => [] end.
Proof.
  unfold differences. rewrite app_nil_r, filter_flat_map.
  assert (forall t, List.filter (about x) (class_differences existing t) =
    if string_eqb (os_name t) x then class_differences existing t else []) as Ef.
  { intros t. destruct (string_eqb (os_name t) x) eqn:E.
    - apply filter_all. intros sc Hsc. unfold about. by rewrite (class_differences_name t).
    - apply filter_none. intros sc Hsc. unfold about. by rewrite (class_differences_name t). }
  destruct (class_named target_schema x) as [t|] eqn:Et.
  - apply class_named_Some in Et as [Ht <-]. rewrite (flat_map_one _ _ t target_NoDup Ht).
    + by rewrite Ef, string_eqb_refl.
    + intros t' Ht' Hne. rewrite Ef. destruct (string_eqb _ _) eqn:E; [|done]. apply string_eqb_eq in E.
      by destruct Hne; apply target_unique.
  - apply flat_map_nil. intros t Ht. rewrite Ef. destruct (string_eqb _ _) eqn:E; [|done]. apply string_eqb_eq in E.
    by destruct (proj1 (class_named_None _ _) Et t Ht).
Qed.

(** The changes that concern one column of a class. *)
Definition column_property (e : ObjectSchema) (i : Z) : option Property :=
  List.find (fun p => table_column p =? i) (persisted_properties e).

Definition plan (x : string) (i : Z) : list SchemaChange :=
  match class_named existing x, class_named target_schema x with
  | Some e, Some t => match column_property e i with Some p => compare_property e t p | None => [] end
  | _, _ => []
  end.

Lemma column_property_Some e i p : column_property e i = Some p -> p ∈ persisted_properties e /\ table_column p = i.
Proof. intros E. apply List.find_some in E as [Hp Ei%Z.eqb_eq]. by apply list_elem_of_In in Hp. Qed.

Lemma column_property_in e p : e ∈ existing -> p ∈ persisted_properties e -> column_property e (table_column p) = Some p.
Proof.
  intros He Hp. unfold column_property. destruct (List.find _ _) as [q|] eqn:E.
  - apply List.find_some in E as [Hq Ei%Z.eqb_eq]. apply list_elem_of_In in Hq. f_equal.
    apply (NoDup_key_inj table_column (persisted_properties e)); [by apply Hfile|done..].
  - apply list_elem_of_In in Hp. pose proof (List.find_none _ _ E p Hp) as En. cbv beta in En. by rewrite Z.eqb_refl in En.
Qed.

Lemma concerns_about x i sc : concerns x i sc = true -> about x sc = true.
Proof. unfold about. destruct sc; simpl; try done; by intros [? _]%andb_true_iff. Qed.

Lemma filter_filter_sub {A} (f g : A -> bool) l : (forall x, f x = true -> g x = true) ->
  List.filter f (List.filter g l) = List.filter f l.
Proof.
  intros Hfg. induction l as [|x l IH]; [done|]. simpl. destruct (g x) eqn:Eg; simpl; [by rewrite IH|].
  destruct (f x) eqn:Ef; [by rewrite (Hfg _ Ef) in Eg|done].
Qed.

Lemma concerns_plan x i : List.filter (concerns x i) (differences existing target_schema false) = plan x i.
Proof.
  rewrite <- (filter_filter_sub (concerns x i) (about x)) by (intros sc; apply concerns_about).
  rewrite about_differences. unfold plan.
  destruct (class_named target_schema x) as [t|] eqn:Et; [|by destruct (class_named existing x)].
  apply class_named_Some in Et as [Ht <-]. unfold class_differences.
  destruct (class_named existing (os_name t)) as [e|] eqn:Ee; [|done].
  apply class_named_Some in Ee as [He En]. rewrite concerns_object, En, string_eqb_refl. cbn [andb].
  destruct (column_property e i) as [p|] eqn:Ep.
  - pose proof (column_property_Some _ _ _ Ep) as [Hp <-].
    rewrite (flat_map_one _ _ p); [by rewrite Z.eqb_refl| |done|].
    + eapply NoDup_fmap_1. by apply (fc_columns e), Hfile.
    + intros q Hq Hne. destruct (Z.eqb_spec (table_column q) (table_column p)) as [E|]; [|done].
      destruct Hne. apply (NoDup_key_inj table_column (persisted_properties e)); [by apply Hfile|done..].
  - apply flat_map_nil. intros q Hq. destruct (Z.eqb_spec (table_column q) i) as [E|]; [|done].
    rewrite <- E, column_property_in in Ep; done.
Qed.
End plan.

(** ** What a migration makes of a column

    The shape of a column - its type, link target and index - after the changes
    that concern it, and that it agrees with the target schema at the end. *)
(** ** Shapes *)
Definition Shape : Type := ColumnSpec * string * bool.
Definition shape (c : Column) : Shape := (col_spec c, col_target c, col_index c).
Definition property_shape (p : Property) : Shape := (column_spec p, column_target p, column_index p).
Definition shape_type (s : Shape) : DataType := spec_type s.1.1.
Definition shape_column (s : Shape) : Column := mkColumn s.1.1 s.1.2 s.2 [].

Definition read_shape (s : Shape) (i : nat) : Result (option Property) := property_for_column (shape_column s) i.

Lemma read_shape_column c i : property_for_column c i = read_shape (shape c) i.
Proof. by apply property_for_column_shape. Qed.

Lemma read_property_shape p i b : storable p ->
  read_shape (column_spec p, column_target p, b) i = Ok (Some (read_back_property p b i)).
Proof. intros Hp. by apply (read_column p). Qed.

(** The index flag does not matter for the rest. *)
Definition with_index (b : bool) (s : Shape) : Shape := (s.1, b).

Lemma read_with_index s b i p : read_shape s i = Ok (Some p) ->
  read_shape (with_index b s) i = Ok (Some (mkProperty (prop_name p) (prop_type p) (object_type p)
    (link_origin_property_name p) (is_primary p) b (table_column p))).
Proof.
  unfold read_shape, property_for_column, shape_column, with_index, col_name, col_type. cbn.
  destruct (string_eqb _ _); [done|]. destruct (match spec_type s.1.1 with type_Table => _ | _ => _ end); [done|].
  destruct (from_core_type s.1.1) as [ty| |]; [|done..]. cbn [mbind Result_bind]. by intros [= <-].
Qed.

(** A column read as a value has the type of the value. *)
Lemma value_column_type spec ty : from_core_type spec = Ok ty -> is_array ty = false -> is_Some (value_type (pt_base ty)) ->
  spec_type spec = default type_Mixed (value_type (pt_base ty)).
Proof.
  destruct spec as [nm ct nu sub]. cbn. intros E Ea [u Eu]. destruct ct; try done; try (injection E as <-; by destruct nu).
  destruct sub as [|s' sub]; [done|]. destruct (from_core_type s') as [ty'| |]; [|done..]. cbn in E. injection E as <-.
  exfalso. unfold is_array, pt_and, pt_or, PT_Array in Ea. apply Z.eqb_neq in Ea. apply Ea.
  change 128 with (2 ^ 7). apply Z.bits_inj'. intros n Hn. rewrite Z.land_spec, Z.lor_spec, Z.pow2_bits_eqb by done.
  destruct (Z.eqb_spec 7 n); [by rewrite orb_true_r|by rewrite andb_false_r].
Qed.

(** ** The effect of a change on one column *)
Definition at_column (x : string) (i : nat) (o : ObjectSchema) (p : Property) : bool :=
  string_eqb (os_name o) x && (table_column p =? Z.of_nat i).

Definition post_step (x : string) (i : nat) (s : Shape) (sc : SchemaChange) : Shape :=
  match sc with
  | AddIndex o p => if at_column x i o p then with_index true s else s
  | RemoveIndex o p => if at_column x i o p then with_index false s else s
  | _ => s
  end.

Definition pre_step (x : string) (i : nat) (s : Shape) (sc : SchemaChange) : Shape :=
  match sc with
  | ChangePropertyType o old new => if at_column x i o old then property_shape new else s
  | MakePropertyNullable o p => if at_column x i o p then property_shape (optional p) else s
  | MakePropertyRequired o p => if at_column x i o p then property_shape (required p) else s
  | _ => post_step x i s sc
  end.

Lemma pre_step_other x i s sc : concerns x (Z.of_nat i) sc = false -> pre_step x i s sc = s.
Proof. destruct sc; try done; simpl; unfold at_column; by intros ->. Qed.
Lemma post_step_other x i s sc : concerns x (Z.of_nat i) sc = false -> post_step x i s sc = s.
Proof. destruct sc; try done; simpl; unfold at_column; by intros ->. Qed.

Lemma fold_filter {A S} (f : S -> A -> S) (p : A -> bool) l s : (forall s x, p x = false -> f s x = s) ->
  fold_left f l s = fold_left f (List.filter p l) s.
Proof.
  intros Hf. revert s. induction l as [|x l IH]; intros s; [done|]. simpl. destruct (p x) eqn:E; simpl; [apply IH|].
  by rewrite Hf.
Qed.

(** ** The column at the end *)

(** What a property asks of its column. *)
Record column_agrees (t : ObjectSchema) (s : Shape) (i : nat) (q : Property) : Prop := {
  ca_found : property_for_name t (prop_name q) = Some q;
  ca_computed : property_is_computed t q = false;
  ca_read : exists p, read_shape s i = Ok (Some p) /\ prop_name p = prop_name q /\
    pt_base (prop_type p) = pt_base (prop_type q) /\ is_array (prop_type p) = is_array (prop_type q) /\
    is_nullable (prop_type p) = is_nullable (prop_type q) /\ object_type p = object_type q /\
    is_indexed p = requires_index q
}.

Lemma column_index_requires q : storable q -> column_index q = requires_index q.
Proof.
  intros Hq. unfold column_index. destruct (requires_index q) eqn:E; [|by rewrite andb_false_r].
  destruct (st_index q Hq E) as (-> & -> & _). done.
Qed.

Lemma index_shape_agrees target_schema t q i b : target_class target_schema t -> q ∈ persisted_properties t ->
  b = requires_index q -> column_agrees t (column_spec q, column_target q, b) i q.
Proof.
  intros Ht Hq ->. destruct (target_property_unique _ _ _ Ht Hq) as [Ef Ec]. constructor; [done..|].
  assert (storable q) as Hs by (by apply (proj1 (Forall_forall _ _) (tc_stored _ _ Ht))).
  eexists. split; [by apply read_property_shape|]. done.
Qed.

(** The shape after the plan's changes, in any order, in both passes. *)
Definition after_plan (x : string) (i : nat) (changes : list SchemaChange) (s : Shape) : Shape :=
  fold_left (post_step x i) changes (fold_left (pre_step x i) changes s).

Section column.
Variables (target_schema : Schema) (e t : ObjectSchema) (p : Property) (i : nat) (s : Shape).
Hypothesis Ht : target_class target_schema t.
Hypothesis Hp : storable p.
Hypothesis Hi : table_column p = Z.of_nat i.
Hypothesis Hs : exists p0 key, read_shape s i = Ok (Some p0) /\ keyed_as key p0 p.

Let here : at_column (os_name e) i e p = true.
Proof. unfold at_column. by rewrite string_eqb_refl, Hi, Z.eqb_refl. Qed.

Lemma read_original : exists p0, read_shape s i = Ok (Some p0) /\ prop_name p0 = prop_name p /\ prop_type p0 = prop_type p /\
  object_type p0 = object_type p /\ is_indexed p0 = is_indexed p /\ s.2 = is_indexed p.
Proof.
  destruct Hs as (p0 & key & Er & Hk). exists p0. destruct (keyed_as_props _ _ _ Hk) as (? & ? & ? & ? & _).
  repeat split; try done. unfold read_shape in Er. apply property_for_column_props in Er as (_ & _ & _ & E). cbn in E. congruence.
Qed.

(** A property whose type changes gets a fresh column. *)
Lemma type_change_agrees q changes : property_for_name t (prop_name p) = Some q -> property_is_computed t q = false ->
  changes = [ChangePropertyType e p q] -> column_agrees t (after_plan (os_name e) i changes s) i q.
Proof.
  intros Eq Ec ->. destruct (target_property_found _ _ _ _ Ht Eq Ec) as [Hq _].
  unfold after_plan. cbn. rewrite here. apply (index_shape_agrees target_schema); [done..|].
  apply column_index_requires. by apply (proj1 (Forall_forall _ _) (tc_stored _ _ Ht)).
Qed.

(** Reading the column after its nullability was adapted. *)
Definition adapted (q : Property) : Shape :=
  if Bool.eqb (is_nullable (prop_type p)) (is_nullable (prop_type q)) then s
  else if is_nullable (prop_type p) then property_shape (required p) else property_shape (optional p).

Lemma link_nullable q : storable q -> same_type p q = true -> is_link p = true ->
  is_nullable (prop_type p) = is_nullable (prop_type q).
Proof.
  intros Hq (Eb & _ & Ea)%same_type_true El. assert (is_link q = true) as Elq.
  { apply is_link_base. rewrite <- Eb. by apply is_link_base. }
  pose proof (st_link p Hp El) as E1. pose proof (st_link q Hq Elq) as E2. rewrite E1, E2 in Ea.
  by destruct (is_nullable (prop_type p)), (is_nullable (prop_type q)).
Qed.

Lemma read_adapted q b : storable q -> prop_name q = prop_name p -> same_type p q = true ->
  exists p', read_shape (with_index b (adapted q)) i = Ok (Some p') /\ prop_name p' = prop_name q /\
    pt_base (prop_type p') = pt_base (prop_type q) /\ is_array (prop_type p') = is_array (prop_type q) /\
    is_nullable (prop_type p') = is_nullable (prop_type q) /\ object_type p' = object_type q /\ is_indexed p' = b.
Proof.
  intros Hq En Est. pose proof Est as (Eb & Eo & Ea)%same_type_true. unfold adapted.
  destruct (Bool.eqb _ _) eqn:E.
  - apply eqb_prop in E. destruct read_original as (p0 & Er & E1 & E2 & E3 & _).
    eexists. split; [by apply read_with_index|]. cbn. rewrite E2. split_and!; congruence.
  - assert (is_link p = false) as El.
    { destruct (is_link p) eqn:El; [|done]. rewrite (link_nullable q) in E by done. by rewrite eqb_reflx in E. }
    destruct (is_nullable (prop_type p)) eqn:Enp; destruct (is_nullable (prop_type q)) eqn:Enq; try done.
    + destruct (required_storable p Hp El) as [Hr _]. destruct (required_type p (st_byte p Hp)) as (? & ? & ? & _).
      eexists. split; [by apply read_property_shape|]. cbn [read_back_property prop_name prop_type object_type is_indexed].
      split_and!; try congruence; done.
    + destruct (optional_storable p Hp El) as [Hr _]. destruct (optional_type p (st_byte p Hp)) as (? & ? & ? & _).
      eexists. split; [by apply read_property_shape|]. cbn [read_back_property prop_name prop_type object_type is_indexed].
      split_and!; try congruence; done.
Qed.

Lemma adapted_index q : storable q -> same_type p q = true ->
  (requires_index q = true -> is_indexed p = true) -> (requires_index q = false -> requires_index p = false) ->
  (adapted q).2 = requires_index q.
Proof.
  intros Hq Est H1 H2. unfold adapted. destruct (Bool.eqb _ _) eqn:E.
  - destruct read_original as (p0 & _ & _ & _ & _ & _ & ->). destruct (requires_index q); [by apply H1|].
    specialize (H2 eq_refl). unfold requires_index in H2. by apply orb_false_iff in H2 as [_ ?].
  - assert (is_link p = false) as El.
    { destruct (is_link p) eqn:El; [|done]. rewrite (link_nullable q) in E by done. by rewrite eqb_reflx in E. }
    assert (requires_index p = requires_index q) as Er.
    { destruct (requires_index q); [|by apply H2]. unfold requires_index. by rewrite (H1 eq_refl), orb_true_r. }
    destruct (is_nullable (prop_type p)); cbn [property_shape snd]; rewrite column_index_requires.
    + exact Er.
    + by apply required_storable.
    + exact Er.
    + by apply optional_storable.
Qed.

Lemma with_index_same (sh : Shape) : with_index sh.2 sh = sh.
Proof. by destruct sh. Qed.

Lemma nullability_steps q :
  (compare_nullability e p q = [] /\ adapted q = s) \/
  exists m, compare_nullability e p q = [m] /\ (forall sh, pre_step (os_name e) i sh m = adapted q) /\
    (forall sh, post_step (os_name e) i sh m = sh).
Proof.
  unfold compare_nullability, adapted. destruct (Bool.eqb _ _); [by left|right].
  destruct (is_nullable (prop_type p)); eexists; (split; [done|]); (split; [|done]); intros sh; cbn; by rewrite here.
Qed.

Lemma index_steps q : storable q -> same_type p q = true ->
  (compare_index e p q = [] /\ (adapted q).2 = requires_index q) \/
  exists m, compare_index e p q = [m] /\
    (forall sh, pre_step (os_name e) i sh m = with_index (requires_index q) sh) /\
    (forall sh, post_step (os_name e) i sh m = with_index (requires_index q) sh).
Proof.
  intros Hq Est. pose proof (adapted_index q Hq Est) as Hx. unfold compare_index.
  destruct (requires_index q) eqn:Er; [destruct (is_indexed p) eqn:Ei|destruct (requires_index p) eqn:Ep]; cbn [negb].
  - left. split; [done|]. by apply Hx.
  - right. eexists. split; [done|]. split; intros sh; cbn; by rewrite here.
  - right. eexists. split; [done|]. split; intros sh; cbn; by rewrite here.
  - left. split; [done|]. by apply Hx.
Qed.

(** A property that stays gets its nullability and its index adapted, in
    whichever order the two changes come. *)
Lemma kept_shape q changes : storable q -> same_type p q = true ->
  changes ≡ₚ compare_nullability e p q ++ compare_index e p q ->
  after_plan (os_name e) i changes s = with_index (requires_index q) (adapted q).
Proof.
  intros Hq Est Hperm. unfold after_plan.
  destruct (nullability_steps q) as [[En Ea]|(m & En & Hm1 & Hm2)];
    destruct (index_steps q Hq Est) as [[Ei Ex]|(m' & Ei & Hi1 & Hi2)]; rewrite En, Ei in Hperm; cbn [app] in Hperm.
  - apply Permutation_nil_r in Hperm as ->. cbn. rewrite <- Ea at 1. by rewrite <- Ex, with_index_same.
  - apply Permutation_sym, Permutation_length_1_inv in Hperm as ->. cbn. by rewrite Hi1, Hi2, Ea.
  - apply Permutation_sym, Permutation_length_1_inv in Hperm as ->. cbn. rewrite Hm1, Hm2. by rewrite <- Ex, with_index_same.
  - apply Permutation_sym, Permutation_length_2_inv in Hperm as [-> | ->]; cbn.
    + by rewrite Hm1, Hi1, Hm2, Hi2.
    + by rewrite Hi1, Hm1, Hi2, Hm2.
Qed.

Lemma kept_agrees q changes : property_for_name t (prop_name p) = Some q -> property_is_computed t q = false ->
  same_type p q = true -> changes ≡ₚ compare_nullability e p q ++ compare_index e p q ->
  column_agrees t (after_plan (os_name e) i changes s) i q.
Proof.
  intros Eq Ec Est Hperm. destruct (target_property_found _ _ _ _ Ht Eq Ec) as [Hq En].
  assert (storable q) as Hsq by (by apply (proj1 (Forall_forall _ _) (tc_stored _ _ Ht))).
  rewrite (kept_shape q) by done.
  destruct (read_adapted q (requires_index q) Hsq En Est) as (p' & Hr). constructor; [by rewrite En|done|]. by exists p'.
Qed.

(** Either the property is removed or its column agrees with the target. *)
Lemma planned_column changes : changes ≡ₚ compare_property e t p ->
  changes = [RemoveProperty e p] \/ exists q, column_agrees t (after_plan (os_name e) i changes s) i q /\ prop_name q = prop_name p.
Proof.
  unfold compare_property. intros Hperm. destruct (property_for_name t (prop_name p)) as [q|] eqn:Eq.
  - destruct (property_is_computed t q) eqn:Ec.
    { left. by apply Permutation_sym, Permutation_length_1_inv in Hperm. }
    right. exists q. split; [|by destruct (target_property_found _ _ _ _ Ht Eq Ec)].
    destruct (same_type p q) eqn:Est; cbn [negb] in Hperm.
    + by apply kept_agrees.
    + apply type_change_agrees; [done..|]. by apply Permutation_sym, Permutation_length_1_inv in Hperm.
  - left. by apply Permutation_sym, Permutation_length_1_inv in Hperm.
Qed.

(** Adapting a value column does not change its type. *)
Lemma value_shape_type r : storable r -> is_link r = false -> is_array (prop_type r) = false ->
  shape_type (property_shape r) = core_type r.
Proof. intros Hr El Ea. unfold shape_type, property_shape, column_spec. cbn. by rewrite El, Ea. Qed.

Lemma adapting_type q sc sh : is_link p = false -> is_array (prop_type p) = false ->
  sc ∈ compare_nullability e p q ++ compare_index e p q -> shape_type sh = core_type p ->
  shape_type (pre_step (os_name e) i sh sc) = core_type p.
Proof.
  intros El Ea Hsc Hsh. apply elem_of_app in Hsc as [Hsc|Hsc].
  - unfold compare_nullability in Hsc. destruct (Bool.eqb _ _); [by apply elem_of_nil in Hsc|].
    destruct (required_storable p Hp El) as [Hr Elr], (optional_storable p Hp El) as [Ho Elo].
    destruct (required_type p (st_byte p Hp)) as (Br & Ar & _), (optional_type p (st_byte p Hp)) as (Bo & Ao & _).
    destruct (is_nullable (prop_type p)); apply list_elem_of_singleton in Hsc as ->; cbn; rewrite here.
    + rewrite value_shape_type by congruence. unfold core_type. by rewrite Br.
    + rewrite value_shape_type by congruence. unfold core_type. by rewrite Bo.
  - unfold compare_index in Hsc. destruct (requires_index q), (negb (is_indexed p)), (requires_index p);
      try (by apply elem_of_nil in Hsc); apply list_elem_of_singleton in Hsc as ->; cbn; by rewrite here.
Qed.

Lemma adapting_types q l sh : is_link p = false -> is_array (prop_type p) = false ->
  (forall sc, sc ∈ l -> sc ∈ compare_nullability e p q ++ compare_index e p q) -> shape_type sh = core_type p ->
  shape_type (fold_left (pre_step (os_name e) i) l sh) = core_type p.
Proof.
  intros El Ea. revert sh. induction l as [|sc l IH]; intros sh Hl Hsh; [done|]. cbn. apply IH.
  - intros sc' Hsc'. apply Hl. by right.
  - apply (adapting_type q); [done|done|apply Hl; by left|done].
Qed.

Lemma original_type : is_link p = false -> is_array (prop_type p) = false -> shape_type s = core_type p.
Proof.
  intros El Ea. destruct read_original as (p0 & Er & _ & Et & Eo & _).
  assert (is_link p0 = is_link p) as E1 by (unfold is_link; by rewrite Et).
  assert (core_type p0 = core_type p) as E2 by (unfold core_type; by rewrite Et).
  rewrite <- E2. unfold read_shape, property_for_column, shape_column, col_name, col_type, shape_type in *. cbn in Er.
  destruct (string_eqb _ _); [done|]. destruct (match spec_type s.1.1 with type_Table => _ | _ => _ end); [done|].
  destruct (from_core_type s.1.1) as [ty| |] eqn:E; [|done..]. cbn [mbind Result_bind] in Er. injection Er as <-.
  cbn [prop_type] in *. subst ty. unfold core_type. cbn [prop_type]. apply value_column_type; [done|done|].
  by apply (st_value p Hp El).
Qed.
End column.
