(* ===== verification/MigrationSteps.v ===== *)
(** * Single schema changes on the tables

    What each change of a migration does to the shapes of the columns of its
    class and to the primary keys, for changes that fit the table. *)
From S2P Require Import Prelude.
From S2P Require Import SchemaTypes.
From S2P Require Import Schemas.
From S2P Require Import SchemaValidation.
From S2P Require Import SchemaDiff.
From S2P Require Import CoreTables.
From S2P Require Import ObjectStore.
From S2P Require Import StoreChanges.
From S2P Require Import StoreFacts.
From S2P Require Import SchemaReading.
From S2P Require Import StoreMetadata.
From S2P Require Import MigrationPlan.

(** ** Tables by their shapes *)
Definition shapes (t : Table) : list Shape := shape <$> columns t.

Lemma shapes_length t : length (shapes t) = length (columns t).
Proof. apply length_fmap. Qed.

Lemma shapes_lookup t i s : shapes t !! i = Some s <-> exists c, columns t !! i = Some c /\ shape c = s.
Proof.
  unfold shapes. rewrite list_lookup_fmap. destruct (columns t !! i) as [c|]; cbn; split.
  - intros [= <-]. by exists c.
  - by intros (c' & [= <-] & <-).
  - done.
  - by intros (c' & ? & _).
Qed.

(** The same rows, and well-formed as before. *)
Definition same_rows (t t' : Table) : Prop := row_count t' = row_count t /\ (well_formed t -> well_formed t').

Lemma table_rows_refl t : same_rows t t.
Proof. done. Qed.
Lemma table_rows_trans t1 t2 t3 : same_rows t1 t2 -> same_rows t2 t3 -> same_rows t1 t3.
Proof. intros [E1 F1] [E2 F2]. split; [by rewrite E2|auto]. Qed.

Lemma same_rows_with_columns t l : Forall (fun c => length (col_cells c) = row_count t) l -> same_rows t (with_columns t l).
Proof. done. Qed.

Section steps.
Context {G : Type} `{CoreLaws G} {CS : CharSign}.

(** The table of class [x] changes to shapes [l], and no other table. *)
Definition class_changes (g g' : G) (x : string) (t : Table) (l : list Shape) : Prop :=
  exists t', changes_to g g' (table_name_for_object_type x) t' /\ same_rows t t' /\ shapes t' = l.

Lemma property_column_shape t p : shape (property_column t p) = property_shape p.
Proof. done. Qed.

Lemma property_column_cells t p : length (col_cells (property_column t p)) = row_count t.
Proof. unfold property_column, new_column. cbn. by rewrite length_replicate. Qed.

Lemma add_column_step (g : G) x t p : table_for_object_type g x = Some t -> storable p ->
  (is_link p = true -> is_Some (get_table g (column_target p))) ->
  exists g', add_column g (table_name_for_object_type x) p = Ok g' /\ class_changes g g' x t (shapes t ++ [property_shape p]).
Proof.
  intros Et Hp Hl. destruct (add_column_spec g _ t p Et Hp Hl) as (g' & E & Hc). exists g'. split; [done|].
  eexists. split; [exact Hc|]. split; [split; [done|]|].
  - unfold well_formed. cbn. intros Hwf. apply Forall_app. split; [done|]. constructor; [apply property_column_cells|done].
  - unfold shapes. cbn. by rewrite fmap_app.
Qed.

Lemma insert_shape t (l : list Column) c x : shape <$> <[c := x]> l = <[c := shape x]> (shape <$> l) /\
  (Forall (fun y => length (col_cells y) = row_count t) l -> length (col_cells x) = row_count t ->
   Forall (fun y => length (col_cells y) = row_count t) (<[c := x]> l)).
Proof.
  split; [by rewrite list_fmap_insert|]. intros Hl Hx. apply Forall_insert; done.
Qed.

Lemma replace_column_step (g : G) x t old new : table_for_object_type g x = Some t -> in_columns (table_column old) t ->
  storable new -> (is_link new = true -> is_Some (get_table g (column_target new))) ->
  exists g', replace_column g (table_name_for_object_type x) old new = Ok g' /\
    class_changes g g' x t (<[Z.to_nat (table_column old) := property_shape new]> (shapes t)).
Proof.
  intros Et Hc Hp Hl. destruct (replace_column_spec g _ t old new Et Hc Hp Hl) as (g' & E & Hg). exists g'. split; [done|].
  eexists. split; [exact Hg|]. pose proof (insert_shape t (columns t) (Z.to_nat (table_column old)) (property_column t new))
    as [Es Hw]. split; [split; [done|]|].
  - intros Hwf. apply Hw; [done|]. apply property_column_cells.
  - unfold shapes. cbn. by rewrite Es.
Qed.

Lemma make_required_step (g : G) x t p : table_for_object_type g x = Some t -> in_columns (table_column p) t ->
  storable p -> is_link p = false ->
  exists g', make_property_required g (table_name_for_object_type x) p = Ok g' /\
    class_changes g g' x t (<[Z.to_nat (table_column p) := property_shape (required p)]> (shapes t)).
Proof.
  intros Et Hc Hp Hl. destruct (make_property_required_spec g _ t p Et Hc Hp Hl) as (g' & E & Hg). exists g'. split; [done|].
  eexists. split; [exact Hg|].
  pose proof (insert_shape t (columns t) (Z.to_nat (table_column p)) (property_column t (required p))) as [Es Hw].
  split; [split; [done|]|].
  - intros Hwf. apply Hw; [done|]. apply property_column_cells.
  - unfold shapes. cbn. by rewrite Es.
Qed.

Lemma make_optional_step (g : G) x t p s : table_for_object_type g x = Some t -> 0 <= table_column p ->
  shapes t !! Z.to_nat (table_column p) = Some s -> storable p -> is_link p = false -> well_formed t ->
  is_array (prop_type p) = false -> shape_type s = core_type p ->
  exists g', make_property_optional g (table_name_for_object_type x) p = Ok g' /\
    class_changes g g' x t (<[Z.to_nat (table_column p) := property_shape (optional p)]> (shapes t)).
Proof.
  intros Et Hc0 Hs Hp Hl Hwf Ha Hty. apply shapes_lookup in Hs as (y & Hy & <-).
  destruct (make_property_optional_spec g _ t p y Et Hc0 Hy Hp Hl Hwf) as (g' & E & Hg); [congruence|done|].
  exists g'. split; [done|]. eexists. split; [exact Hg|].
  pose proof (insert_shape t (columns t) (Z.to_nat (table_column p)) (optional_column p y)) as [Es Hw].
  split; [split; [done|]|].
  - intros _. apply Hw; [done|]. cbn. by apply (proj1 (Forall_lookup _ _) Hwf _ _ Hy).
  - unfold shapes. cbn. by rewrite Es.
Qed.

Lemma alter_shape t l c b : shape <$> alter (set_index b) c l = alter (with_index b) c (shape <$> l) /\
  (Forall (fun y => length (col_cells y) = row_count t) l ->
   Forall (fun y => length (col_cells y) = row_count t) (alter (set_index b) c l)).
Proof.
  split.
  - revert c. induction l as [|y l IH]; intros [|c]; cbn; [done..|]. by rewrite <- IH.
  - intros Hl. apply Forall_alter; [done|]. by intros y _ Hy.
Qed.

Lemma set_index_step (g : G) x t c b s : table_for_object_type g x = Some t -> 0 <= c -> shapes t !! Z.to_nat c = Some s ->
  (b = true -> indexable_type (shape_type s) = true) ->
  class_changes g (if b then add_search_index g (table_name_for_object_type x) c
                   else remove_search_index g (table_name_for_object_type x) c) x t
    (alter (with_index b) (Z.to_nat c) (shapes t)).
Proof.
  intros Et Hc Hs Hb. apply shapes_lookup in Hs as (y & Hy & <-).
  exists (map_column (Z.to_nat c) (set_index b) t). split; [|split; [split; [done|]|]].
  - destruct b; [by eapply add_search_index_law; eauto|]. apply remove_search_index_law; [done|].
    apply lookup_lt_Some in Hy. unfold in_columns. lia.
  - apply (alter_shape t).
  - apply (alter_shape t).
Qed.

Lemma remove_column_step (g : G) x t c : table_for_object_type g x = Some t -> in_columns c t ->
  exists t', changes_to g (remove_column g (table_name_for_object_type x) c) (table_name_for_object_type x) t' /\
    shapes t' = delete (Z.to_nat c) (shapes t).
Proof.
  intros Et Hc. eexists. split; [by apply remove_column_law|]. unfold shapes, table_remove_column. cbn.
  by rewrite !delete_take_drop, fmap_app, fmap_take, fmap_drop.
Qed.

(** ** Creating tables *)
Definition hidden (l : list Shape) : Prop := Forall (fun s => spec_name s.1.1 = object_id_column_name) l.

Definition key_shapes (o : ObjectSchema) : list Shape :=
  match primary_key_property o with Some p => [property_shape p] | None => [] end.

Definition initial_shapes (o : ObjectSchema) : list Shape :=
  property_shape <$> List.filter (fun p => negb (is_primary p)) (persisted_properties o).

(** A new class: its table, its key, and nothing else. *)
Record created (g g' : G) (o : ObjectSchema) : Prop := {
  cr_table : exists t ids, table_for_object_type g' (os_name o) = Some t /\ well_formed t /\ row_count t = O /\
    hidden ids /\ shapes t = ids ++ key_shapes o;
  cr_other : forall n, n <> table_name_for_object_type (os_name o) -> n <> c_primaryKeyTableName -> get_table g' n = get_table g n;
  cr_ids : has_object_ids g' = has_object_ids g;
  cr_pk : pk_ok g';
  cr_key y : get_primary_key_for_object g' y = if decide (y = os_name o) then primary_key o else get_primary_key_for_object g y;
  cr_entry y : y <> os_name o -> has_entry g' y <-> has_entry g y
}.

Lemma hidden_shapes ids : Forall (fun c => col_name c = object_id_column_name /\ col_cells c = []) ids -> hidden (shape <$> ids).
Proof. intros Hi. apply Forall_fmap. eapply Forall_impl; [exact Hi|]. by intros c [E _]. Qed.

Lemma hidden_cells ids : Forall (fun c => col_name c = object_id_column_name /\ col_cells c = []) ids ->
  Forall (fun c => length (col_cells c) = O) ids.
Proof. intros Hi. eapply Forall_impl; [exact Hi|]. by intros c [_ ->]. Qed.

Lemma no_key_property target_schema o : target_class target_schema o -> primary_key o = EmptyString ->
  primary_key_property o = None.
Proof.
  intros Ho Ek. unfold primary_key_property. rewrite Ek. destruct (property_for_name o EmptyString) as [p|] eqn:E; [|done].
  apply property_for_name_Some in E as [Hp En]. destruct (tc_nonempty _ _ Ho). rewrite <- En.
  by apply list_elem_of_fmap_2.
Qed.

Lemma key_property target_schema o : target_class target_schema o -> primary_key o <> EmptyString ->
  exists p, primary_key_property o = Some p /\ p ∈ persisted_properties o /\ prop_name p = primary_key o /\
    is_primary p = true /\ (core_type p = type_Int \/ core_type p = type_String).
Proof.
  intros Ho Hk. destruct (tc_key _ _ Ho Hk) as (p & Hp & En & Hty). exists p. split; [|split; [done|split; [done|split; [|done]]]].
  - unfold primary_key_property. rewrite <- En. by apply (target_property_unique target_schema).
  - by apply (tc_primary _ _ Ho).
Qed.

Lemma pk_no_entry (g : G) t keys props x : has_pk g t keys props -> ~ has_entry g x -> find_first t 0 (v_string x) = None.
Proof.
  intros Hg Hx. rewrite (find_first_keys t keys props) by apply Hg. pose proof (get_primary_key_entry g t keys props x Hg) as He.
  destruct (index_of _ _) as [r|]; [|done]. destruct He as (_ & v & He & _). destruct Hx. by exists t, keys, props, v.
Qed.

Lemma create_table_step target_schema (g : G) o : target_class target_schema o ->
  table_for_object_type g (os_name o) = None -> pk_ok g -> ~ has_entry g (os_name o) ->
  exists g', create_table g o = Ok g' /\ created g g' o.
Proof.
  intros Ho Et Hpk Hno. unfold create_table. destruct (decide (primary_key o = EmptyString)) as [Ek|Ek].
  - rewrite (no_key_property target_schema o Ho Ek). eexists. split; [done|].
    destruct (create_table_new g _ Et) as (ids & Hc & Hids). constructor.
    + exists (mkTable ids 0), (shape <$> ids). split; [by apply Hc|]. split; [by apply hidden_cells|]. split; [done|].
      split; [by apply hidden_shapes|]. unfold key_shapes. by rewrite (no_key_property target_schema o Ho Ek), app_nil_r.
    + intros n Hn _. by apply (changes_to_other _ _ _ _ _ Hc).
    + by apply (changes_to_ids _ _ _ _ Hc).
    + destruct Hpk as (t & keys & props & Hg). exists t, keys, props. by eapply has_pk_frame.
    + intros y. rewrite (get_primary_key_frame g _ _ _ y Hc) by done. destruct (decide (y = os_name o)) as [->|]; [|done].
      rewrite Ek. destruct Hpk as (t & keys & props & Hg). apply (get_primary_key_None g t keys props _ Hg).
      intros v Hv. apply Hno. by exists t, keys, props, v.
    + intros y _. apply has_entry_frame. by apply (changes_to_other _ _ _ _ _ Hc).
  - destruct (key_property target_schema o Ho Ek) as (p & Ep & Hp & En & Hpr & Hty). rewrite Ep.
    assert (storable p) as Hs by (by apply (proj1 (Forall_forall _ _) (tc_stored _ _ Ho))).
    assert (requires_index p = true) as Hri by (unfold requires_index; by rewrite Hpr).
    destruct (st_index p Hs Hri) as (El & Ea & _). destruct (st_value p Hs El) as [[u Eu] _].
    rewrite (to_core_type_value _ _ Eu). cbn [mbind Result_bind]. eexists. split; [done|].
    assert (core_type p = u) as Ecu by (unfold core_type; by rewrite Eu). rewrite Ecu in Hty.
    destruct Hpk as (t & keys & props & Hg). pose proof Hg as [Egp [Ecp _ _ _ _]].
    destruct (create_table_key_new g (table_name_for_object_type (os_name o)) t u (prop_name p) (is_nullable (prop_type p)))
      as (ids & g1 & Hids & Hc1 & Hc2); [done|done|done|by rewrite Ecp|by apply (pk_no_entry g t keys props)|done|].
    change (string_drop 6 (table_name_for_object_type (os_name o))) with (os_name o) in Hc2.
    assert (has_pk g1 t keys props) as Hg1 by (by eapply has_pk_frame).
    assert (forall y, has_entry g1 y <-> has_entry g y) as Hsame
      by (intros y; apply has_entry_frame; by apply (changes_to_other _ _ _ _ _ Hc1)).
    assert (forall v, ~ entry (col_cells keys) (col_cells props) (os_name o) v) as Hnone
      by (intros v Hv; apply Hno, Hsame; by exists t, keys, props, v).
    destruct (key_set_append _ _ _ _ _ _ _ Hg1 Hnone Hc2) as [Kpk _ Kkey Kentry]. constructor.
    + eexists _, (shape <$> ids). split; [|split; [|split; [|split; [by apply hidden_shapes|]]]].
      * unfold table_for_object_type. rewrite (changes_to_other _ _ _ _ _ Hc2) by done. by apply Hc1.
      * apply Forall_app. split; [by apply hidden_cells|]. by repeat constructor.
      * done.
      * unfold shapes, key_shapes. cbn. rewrite Ep, fmap_app. f_equal. cbn. unfold shape, property_shape. cbn.
        unfold column_spec, column_target. rewrite El, Ea, column_index_requires, Hri, Ecu by done. done.
    + intros n Hn Hn2. rewrite (changes_to_other _ _ _ _ _ Hc2) by done. by apply (changes_to_other _ _ _ _ _ Hc1).
    + by rewrite (changes_to_ids _ _ _ _ Hc2), (changes_to_ids _ _ _ _ Hc1).
    + done.
    + intros y. rewrite Kkey, <- En. destruct (decide (y = os_name o)); [done|]. by apply (get_primary_key_frame _ _ _ _ _ Hc1).
    + intros y Hy. rewrite Kentry by done. apply Hsame.
Qed.

(** A table that exists is left alone. *)
Lemma create_table_again target_schema (g : G) o t : target_class target_schema o ->
  table_for_object_type g (os_name o) = Some t -> create_table g o = Ok g.
Proof.
  intros Ho Et. unfold create_table. destruct (decide (primary_key o = EmptyString)) as [Ek|Ek].
  - rewrite (no_key_property target_schema o Ho Ek). f_equal. by eapply create_table_old.
  - destruct (key_property target_schema o Ho Ek) as (p & Ep & Hp & _ & Hpr & _). rewrite Ep.
    assert (storable p) as Hs by (by apply (proj1 (Forall_forall _ _) (tc_stored _ _ Ho))).
    assert (requires_index p = true) as Hri by (unfold requires_index; by rewrite Hpr).
    destruct (st_index p Hs Hri) as (El & _ & _). destruct (st_value p Hs El) as [[u Eu] _].
    rewrite (to_core_type_value _ _ Eu). cbn [mbind Result_bind]. f_equal. by eapply create_table_key_old.
Qed.

(** The remaining columns of a new table. *)
Lemma add_initial_columns_step (g : G) x l t : table_for_object_type g x = Some t -> Forall storable l ->
  (forall p, p ∈ l -> is_link p = true -> is_Some (get_table g (column_target p))) ->
  exists g', fold_result (add_initial_column (table_name_for_object_type x)) l g = Ok g' /\
    class_changes g g' x t (shapes t ++ (property_shape <$> List.filter (fun p => negb (is_primary p)) l)).
Proof.
  intros Et Hl. revert g t Et. induction Hl as [|p l Hp Hl IH]; intros g t Et Hlinks; cbn [fold_result List.filter].
  - exists g. split; [done|]. exists t. split; [by apply changes_to_refl|]. split; [done|]. by rewrite app_nil_r.
  - destruct (is_primary p) eqn:Epr; cbn [negb].
    + assert (add_initial_column (table_name_for_object_type x) g p = Ok g) as ->
        by (unfold add_initial_column; by rewrite Epr).
      cbn [mbind Result_bind]. destruct (IH g t Et) as (g' & E & Hc); [|by exists g']. intros q Hq. apply Hlinks. by right.
    + destruct (add_column_step g x t p Et Hp) as (g1 & E1 & t1 & Hc1 & Hr1 & Es1); [by apply Hlinks; left|].
      assert (add_initial_column (table_name_for_object_type x) g p = Ok g1) as ->
        by (unfold add_initial_column, table_for_object_type in *; by rewrite Epr, Et).
      cbn [mbind Result_bind]. destruct (IH g1 t1 (changes_to_get _ _ _ _ Hc1)) as (g2 & E2 & t2 & Hc2 & Hr2 & Es2).
      { intros q Hq Eq. eapply changes_to_keeps; [exact Hc1|]. apply Hlinks; [by right|done]. }
      exists g2. split; [done|]. exists t2. split; [by eapply changes_to_trans|].
      split; [by eapply table_rows_trans|]. by rewrite Es2, Es1, fmap_cons, <- app_assoc.
Qed.
End steps.
