(* ===== verification/MigrationRun.v ===== *)
(** * Running a migration: the first pass

    [apply_pre_migration_changes] applied to the list the comparison produced:
    an invariant over the changes applied so far says what every class table
    and every primary key has become. *)
From S2P Require Import Prelude.
From S2P Require Import SchemaTypes.
From S2P Require Import Schemas.
From S2P Require Import SchemaValidation.
From S2P Require Import SchemaDiff.
From S2P Require Import SchemaTheorems.
From S2P Require Import CoreTables.
From S2P Require Import ObjectStore.
From S2P Require Import StoreChanges.
From S2P Require Import StoreFacts.
From S2P Require Import SchemaReading.
From S2P Require Import StoreMetadata.
From S2P Require Import MigrationPlan.
From S2P Require Import MigrationSteps.

(** ** Loops that may report a duplicate key *)
Definition yields {A} (r : Result A) (P : A -> Prop) : Prop :=
  match r with
  | Ok a => P a
  | Throw (DuplicatePrimaryKeyValueException _ _) => True
  | _ => False
  end.

Lemma yields_bind {A B} (r : Result A) (f : A -> Result B) (P : A -> Prop) (Q : B -> Prop) :
  yields r P -> (forall a, P a -> yields (f a) Q) -> yields (r ≫= f) Q.
Proof. destruct r as [a|[]|]; simpl; auto. Qed.

Lemma yields_impl {A} (r : Result A) (P Q : A -> Prop) : (forall a, P a -> Q a) -> yields r P -> yields r Q.
Proof. destruct r as [a|[]|]; simpl; auto. Qed.

Lemma fold_yields {A S} (f : S -> A -> Result S) (P : list A -> S -> Prop) l s :
  P [] s ->
  (forall pre x post s, l = pre ++ x :: post -> P pre s -> yields (f s x) (P (pre ++ [x]))) ->
  yields (fold_result f l s) (P l).
Proof.
  intros Hnil Hstep.
  enough (forall post pre s, l = pre ++ post -> P pre s -> yields (fold_result f post s) (P l)) as Hgo
    by exact (Hgo l [] s eq_refl Hnil).
  induction post as [|x post IH]; intros pre s' -> Hs'; [by rewrite app_nil_r|].
  cbn [fold_result]. eapply yields_bind; [by apply (Hstep pre x post)|]. intros s1 Hs1.
  apply (IH (pre ++ [x])); [by rewrite <- app_assoc|done].
Qed.

(** ** Lists changed at one position *)
Lemma alter_as_insert {A} (h : A -> A) k (l : list A) v : l !! k = Some v -> alter h k l = <[k := h v]> l.
Proof. revert k. induction l as [|x l IH]; intros [|k]; cbn; try done; [by intros [= ->]|]. intros Hk. f_equal. by apply IH. Qed.

Lemma imap_changed {A B} (f f' : nat -> A -> B) (l : list A) k v : (k < length l)%nat ->
  (forall i s, l !! i = Some s -> i <> k -> f' i s = f i s) -> (forall s, l !! k = Some s -> f' k s = v) ->
  imap f' l = <[k := v]> (imap f l).
Proof.
  intros Hk Ho Hv. apply list_eq. intros i. rewrite list_lookup_imap. destruct (decide (i = k)) as [->|Hi].
  - rewrite list_lookup_insert_eq by (by rewrite length_imap). destruct (lookup_lt_is_Some_2 l k Hk) as [s Es].
    rewrite Es. cbn. f_equal. by apply Hv.
  - rewrite list_lookup_insert_ne, list_lookup_imap by done. destruct (l !! i) as [s|] eqn:Es; [|done]. cbn. f_equal. by apply Ho.
Qed.

Lemma imap_same {A B} (f f' : nat -> A -> B) (l : list A) : (forall i s, l !! i = Some s -> f' i s = f i s) ->
  imap f' l = imap f l.
Proof.
  intros Hf. apply list_eq. intros i. rewrite !list_lookup_imap. destruct (l !! i) as [s|] eqn:Es; [|done]. cbn. f_equal.
  by apply Hf.
Qed.

Lemma filter_perm {A} (f : A -> bool) (l k : list A) : l ≡ₚ k -> List.filter f l ≡ₚ List.filter f k.
Proof.
  induction 1 as [|y l k _ IH|y z l|? ? ? _ IH1 _ IH2]; simpl; [done| | |by rewrite IH1].
  - destruct (f y); by rewrite IH.
  - destruct (f y), (f z); try done. apply perm_swap.
Qed.

(** A marked prefix lies before the first unmarked element. *)
Lemma marked_prefix {A} (f : A -> bool) (marked rest pre post : list A) x :
  marked ++ rest = pre ++ x :: post -> Forall (fun y => f y = true) marked -> f x = false ->
  exists pre', pre = marked ++ pre'.
Proof.
  intros E Hm Hx. revert pre E. induction Hm as [|y marked Hy Hm IH]; intros pre E; [by exists pre|].
  destruct pre as [|z pre]; cbn in E; [injection E as -> _; congruence|].
  injection E as <- E. destruct (IH pre E) as [pre' ->]. by exists pre'.
Qed.

(** Before a marked element there are only marked ones. *)
Lemma marked_before {A} (f : A -> bool) (marked rest pre post : list A) x :
  marked ++ rest = pre ++ x :: post -> Forall (fun y => f y = true) marked -> Forall (fun y => f y = false) rest ->
  f x = true -> Forall (fun y => f y = true) pre.
Proof.
  intros E Hm Hr Hx. revert pre E. induction Hm as [|y marked Hy Hm IH]; intros pre E.
  - cbn in E. subst rest. apply Forall_app in Hr as [_ Hr]. apply Forall_cons in Hr as [Hf _]. congruence.
  - destruct pre as [|z pre]; [done|]. injection E as <- E. constructor; [done|]. by apply IH.
Qed.

(** ** The changes of a migration *)
Definition added_shape (x : string) (sc : SchemaChange) : list Shape :=
  match sc with AddProperty o p => if string_eqb (os_name o) x then [property_shape p] else [] | _ => [] end.
Definition adds_table (x : string) (sc : SchemaChange) : bool :=
  match sc with AddTable o => string_eqb (os_name o) x | _ => false end.
Definition adds_initial (x : string) (sc : SchemaChange) : bool :=
  match sc with AddInitialProperties o => string_eqb (os_name o) x | _ => false end.
Definition key_step (x : string) (k : string) (sc : SchemaChange) : string :=
  match sc with
  | AddTable o => if string_eqb (os_name o) x then primary_key o else k
  | ChangePrimaryKey o p => if string_eqb (os_name o) x then new_primary_key p else k
  | _ => k
  end.

Lemma steps_elsewhere x sc : about x sc = false ->
  (forall i s, pre_step x i s sc = s) /\ (forall i s, post_step x i s sc = s) /\ added_shape x sc = [] /\
  adds_table x sc = false /\ adds_initial x sc = false /\ forall k, key_step x k sc = k.
Proof.
  unfold about. intros E. split; [|split].
  - intros i s. apply pre_step_other. destruct (concerns x (Z.of_nat i) sc) eqn:Ec; [|done].
    apply concerns_about in Ec. unfold about in Ec. congruence.
  - intros i s. apply post_step_other. destruct (concerns x (Z.of_nat i) sc) eqn:Ec; [|done].
    apply concerns_about in Ec. unfold about in Ec. congruence.
  - destruct sc; simpl in *; rewrite ?E; done.
Qed.

Section run.
Context {G : Type} `{CoreLaws G} {CS : CharSign} {HSort : StdSort} {HPart : StdPartition}.
Variables (g0 : G) (existing target_schema : Schema) (changes : list SchemaChange).

(** The file, its schema, and the list of changes. *)
Record migration : Prop := {
  mg_ids : has_object_ids g0 = false;
  mg_pk : pk_ok g0;
  mg_entries : forall x, table_for_object_type g0 x = None -> ~ has_entry g0 x;
  mg_wf : forall x t, table_for_object_type g0 x = Some t -> well_formed t;
  mg_read : forall x, x <> EmptyString ->
    match table_for_object_type g0 x with
    | Some t => exists e, ObjectSchema_from_table g0 x (Some t) = Ok e /\ class_named existing x = Some e
    | None => class_named existing x = None
    end;
  mg_nonempty : class_named existing EmptyString = None;
  mg_existing : by_name existing;
  mg_target : by_name target_schema;
  mg_file : forall e, e ∈ existing -> file_class e;
  mg_class : forall t, t ∈ target_schema -> target_class target_schema t;
  mg_perm : changes ≡ₚ differences existing target_schema false;
  mg_tables : exists tables rest, changes = tables ++ rest /\ Forall (fun sc => is_table_change sc = true) tables /\
    Forall (fun sc => is_table_change sc = false) rest;
  mg_arrays : forall e p, MakePropertyNullable e p ∈ changes -> is_array (prop_type p) = false
}.

Hypothesis M : migration.

(** Where the changes come from. *)
Definition change_source (sc : SchemaChange) : Prop :=
  match sc with
  | AddTable t | AddInitialProperties t => t ∈ target_schema /\ class_named existing (os_name t) = None
  | RemoveTable _ => False
  | AddProperty e q => exists t, e ∈ existing /\ t ∈ target_schema /\ os_name e = os_name t /\ q ∈ persisted_properties t
  | ChangePrimaryKey e k => exists t, e ∈ existing /\ t ∈ target_schema /\ os_name e = os_name t /\ k = primary_key_property t
  | RemoveProperty e p | ChangePropertyType e p _ | MakePropertyNullable e p | MakePropertyRequired e p | AddIndex e p
  | RemoveIndex e p =>
    exists t, e ∈ existing /\ t ∈ target_schema /\ os_name e = os_name t /\ p ∈ persisted_properties e /\
      sc ∈ compare_property e t p
  end.

Lemma compare_property_shape e t p sc : sc ∈ compare_property e t p ->
  match sc with
  | RemoveProperty e' p' | ChangePropertyType e' p' _ | MakePropertyNullable e' p' | MakePropertyRequired e' p'
  | AddIndex e' p' | RemoveIndex e' p' => e' = e /\ p' = p
  | _ => False
  end.
Proof.
  unfold compare_property, compare_nullability, compare_index.
  destruct (property_for_name t (prop_name p)) as [q|]; [|by intros ->%list_elem_of_singleton].
  destruct (property_is_computed t q); [by intros ->%list_elem_of_singleton|].
  destruct (negb (same_type p q)); [by intros ->%list_elem_of_singleton|].
  destruct (Bool.eqb _ _), (is_nullable (prop_type p)), (requires_index q), (negb (is_indexed p)), (requires_index p);
    cbn [app]; rewrite ?elem_of_cons, ?elem_of_nil; intuition (subst; done).
Qed.

Lemma changes_source sc : sc ∈ changes -> change_source sc.
Proof.
  rewrite (mg_perm M). unfold differences. rewrite app_nil_r. intros Hsc.
  apply list_elem_of_In, in_flat_map in Hsc as (t & Ht & Hsc). apply list_elem_of_In in Ht, Hsc.
  unfold class_differences in Hsc. destruct (class_named existing (os_name t)) as [e|] eqn:Ee.
  - apply class_named_Some in Ee as [He En]. unfold object_changes in Hsc. rewrite !elem_of_app in Hsc.
    destruct Hsc as [Hsc|[Hsc|Hsc]].
    + apply list_elem_of_In, in_flat_map in Hsc as (p & Hp & Hsc). apply list_elem_of_In in Hp, Hsc.
      pose proof (compare_property_shape e t p sc Hsc) as Hsh.
      destruct sc; try done; destruct Hsh as [-> ->]; by exists t.
    + unfold compare_key in Hsc. destruct (string_eqb _ _); [by apply elem_of_nil in Hsc|].
      apply list_elem_of_singleton in Hsc as ->. by exists t.
    + apply list_elem_of_In, in_flat_map in Hsc as (q & Hq & Hsc). apply list_elem_of_In in Hq, Hsc.
      unfold added_property in Hsc. destruct (property_for_name _ _); [by apply elem_of_nil in Hsc|].
      apply list_elem_of_singleton in Hsc as ->. by exists t.
  - apply elem_of_cons in Hsc as [->|Hsc]; [done|]. apply list_elem_of_singleton in Hsc as ->. done.
Qed.

(** The column of a property of an existing class. *)
Lemma existing_column e p : e ∈ existing -> p ∈ persisted_properties e ->
  exists t0 k s, table_for_object_type g0 (os_name e) = Some t0 /\ table_column p = Z.of_nat k /\ shapes t0 !! k = Some s /\
    exists p0 key, read_shape s k = Ok (Some p0) /\ keyed_as key p0 p.
Proof.
  intros He Hp. assert (class_named existing (os_name e) = Some e) as Ee by (apply class_named_in; [apply M|done]).
  assert (os_name e <> EmptyString) as Hne by (intros E; rewrite E, (mg_nonempty M) in Ee; done).
  pose proof (mg_read M _ Hne) as Hr. destruct (table_for_object_type g0 (os_name e)) as [t0|]; [|congruence].
  destruct Hr as (e' & Er & Ee'). assert (e' = e) as -> by congruence.
  unfold ObjectSchema_from_table in Er. destruct (table_properties (columns t0) 0) as [props| |] eqn:Ep; [|done..].
  cbn [mbind Result_bind] in Er. injection Er as Er.
  pose proof (primary_flags (os_name e) props (get_primary_key_for_object g0 (os_name e))) as (_ & _ & _ & Hf).
  rewrite Er in Hf. apply list_elem_of_lookup in Hp as [j Hj].
  destruct (Forall2_lookup_r _ _ _ _ _ Hf Hj) as (p0 & Hp0 & Hk). apply list_elem_of_lookup_2 in Hp0.
  apply (table_properties_elem _ _ _ _ Ep) in Hp0 as (k & c & Hc & Hread). cbn in Hread.
  exists t0, k, (shape c). split; [done|].
  pose proof (property_for_column_props _ _ _ Hread) as (_ & Ecol & _). pose proof (keyed_as_props _ _ _ Hk) as (_ & _ & _ & _ & Ecol' & _).
  split; [congruence|]. split; [apply shapes_lookup; by exists c|]. exists p0, (get_primary_key_for_object g0 (os_name e)).
  by rewrite <- read_shape_column.
Qed.

Lemma about_target x : List.filter (about x) changes ≡ₚ
  match class_named target_schema x with Some t => class_differences existing t | None => [] end.
Proof.
  rewrite <- (about_differences existing target_schema (mg_target M) x). apply filter_perm, M.
Qed.

Lemma concerns_perm x i : List.filter (concerns x i) changes ≡ₚ plan existing target_schema x i.
Proof.
  rewrite <- (concerns_plan existing target_schema); [|apply M..]. apply filter_perm, M.
Qed.

(** ** The invariant of the first pass *)
Record pre_inv (done : list SchemaChange) (g : G) : Prop := {
  pi_ids : has_object_ids g = false;
  pi_pk : pk_ok g;
  pi_metadata : get_table g c_metadataTableName = get_table g0 c_metadataTableName;
  pi_old x t0 : table_for_object_type g0 x = Some t0 ->
    exists t, table_for_object_type g x = Some t /\ same_rows t0 t /\
      shapes t = imap (fun i s => fold_left (pre_step x i) done s) (shapes t0) ++ flat_map (added_shape x) done;
  pi_new x : table_for_object_type g0 x = None ->
    if existsb (adds_table x) done then
      exists o t ids, class_named target_schema x = Some o /\ table_for_object_type g x = Some t /\ well_formed t /\
        hidden ids /\ shapes t = ids ++ key_shapes o ++ (if existsb (adds_initial x) done then initial_shapes o else [])
    else table_for_object_type g x = None /\ ~ has_entry g x;
  pi_key x : get_primary_key_for_object g x = fold_left (key_step x) done (get_primary_key_for_object g0 x)
}.

Lemma pre_inv_init : pre_inv [] g0.
Proof.
  constructor; [apply M|apply M|done| | |done].
  - intros x t0 E. exists t0. split; [done|]. split; [done|]. cbn. rewrite app_nil_r.
    apply list_eq. intros i. rewrite list_lookup_imap. by destruct (shapes t0 !! i).
  - intros x E. cbn. split; [done|]. by apply M.
Qed.

(** ** One change *)
Lemma about_unique x y sc : about x sc = true -> y <> x -> about y sc = false.
Proof. unfold about. intros ->%string_eqb_eq Hy. apply string_eqb_neq. congruence. Qed.

Lemma table_name_neq x y : y <> x -> table_name_for_object_type y <> table_name_for_object_type x.
Proof. by intros Hy E%table_name_inj. Qed.

Lemma other_class (g g' : G) n t y : changes_to g g' n t -> table_name_for_object_type y <> n ->
  table_for_object_type g' y = table_for_object_type g y.
Proof. intros Hc Hn. by apply (changes_to_other _ _ _ _ _ Hc). Qed.

(** A change of the table of an existing class. *)
Lemma pre_inv_class done g sc x t0 t g' l : pre_inv done g -> about x sc = true ->
  table_for_object_type g0 x = Some t0 -> table_for_object_type g x = Some t -> same_rows t0 t ->
  class_changes g g' x t l -> (forall k, key_step x k sc = k) ->
  l = imap (fun i s => fold_left (pre_step x i) (done ++ [sc]) s) (shapes t0) ++ flat_map (added_shape x) (done ++ [sc]) ->
  pre_inv (done ++ [sc]) g'.
Proof.
  intros [Iids Ipk Imeta Iold Inew Ikey] Hab E0 Et Hrows (t' & Hc & Hr & Es) Hkey El. constructor.
  - by rewrite (changes_to_ids _ _ _ _ Hc).
  - destruct Ipk as (tp & keys & props & Hg). exists tp, keys, props. by eapply has_pk_frame.
  - by rewrite (changes_to_other _ _ _ _ _ Hc).
  - intros y t0' Ey. destruct (decide (y = x)) as [->|Hy].
    + assert (t0' = t0) as -> by congruence. exists t'. split; [by apply Hc|]. split; [by eapply table_rows_trans|]. congruence.
    + destruct (Iold y t0' Ey) as (ty & E1 & E2 & E3). exists ty.
      rewrite (other_class _ _ _ _ y Hc) by by apply table_name_neq. split; [done|]. split; [done|]. rewrite E3.
      destruct (steps_elsewhere y sc) as (S1 & _ & S2 & _); [by eapply about_unique|].
      rewrite flat_map_app. cbn. rewrite S2, !app_nil_r. f_equal. apply imap_same. intros i s _. rewrite fold_left_app. cbn. by rewrite S1.
  - intros y Ey. destruct (decide (y = x)) as [->|Hy]; [congruence|].
    destruct (steps_elsewhere y sc) as (_ & _ & _ & S3 & S4 & _); [by eapply about_unique|].
    rewrite !existsb_app. cbn. rewrite S3, S4, !orb_false_r. specialize (Inew y Ey).
    rewrite (other_class _ _ _ _ y Hc) by by apply table_name_neq.
    destruct (existsb (adds_table y) done); [done|]. destruct Inew as [? Hno]. split; [done|].
    rewrite has_entry_frame; [done|]. by apply (changes_to_other _ _ _ _ _ Hc).
  - intros y. rewrite fold_left_app. cbn. rewrite (get_primary_key_frame _ _ _ _ y Hc) by done. rewrite Ikey.
    destruct (decide (y = x)) as [->|Hy]; [by rewrite Hkey|].
    destruct (steps_elsewhere y sc) as (_ & _ & _ & _ & _ & S5); [by eapply about_unique|]. by rewrite S5.
Qed.

(** Only the column the change is about gets a new shape. *)
Lemma changed_column done x sc k v (l0 : list Shape) : (k < length l0)%nat -> concerns x (Z.of_nat k) sc = true ->
  added_shape x sc = [] -> (forall s, l0 !! k = Some s -> pre_step x k (fold_left (pre_step x k) done s) sc = v) ->
  imap (fun i s => fold_left (pre_step x i) (done ++ [sc]) s) l0 ++ flat_map (added_shape x) (done ++ [sc]) =
  <[k := v]> (imap (fun i s => fold_left (pre_step x i) done s) l0 ++ flat_map (added_shape x) done).
Proof.
  intros Hk Hc Ha Hv. rewrite flat_map_app. cbn. rewrite Ha, !app_nil_r.
  rewrite insert_app_l by (by rewrite length_imap). f_equal. apply imap_changed; [done| |].
  - intros i s _ Hi. rewrite fold_left_app. cbn. apply pre_step_other. destruct (concerns x (Z.of_nat i) sc) eqn:E; [|done].
    exfalso. apply Hi. destruct sc; simpl in Hc, E; try done;
      apply andb_true_iff in Hc as [_ E1%Z.eqb_eq], E as [_ E2%Z.eqb_eq]; lia.
  - intros s Hs. rewrite fold_left_app. cbn. by apply Hv.
Qed.

(** ** Changes of a column of an existing class *)

(** What is known when a change of a property of an existing class comes up
    after the changes [done]. *)
Record column_change (done : list SchemaChange) (g : G) (sc : SchemaChange) (e t : ObjectSchema) (p : Property)
    (k : nat) (t0 tb : Table) (s : Shape) : Prop := {
  cc_e : e ∈ existing;
  cc_t : t ∈ target_schema;
  cc_name : os_name e = os_name t;
  cc_p : p ∈ persisted_properties e;
  cc_listed : sc ∈ compare_property e t p;
  cc_column : table_column p = Z.of_nat k;
  cc_t0 : table_for_object_type g0 (os_name e) = Some t0;
  cc_s : shapes t0 !! k = Some s;
  cc_read : exists p0 key, read_shape s k = Ok (Some p0) /\ keyed_as key p0 p;
  cc_tb : table_for_object_type g (os_name e) = Some tb;
  cc_rows : same_rows t0 tb;
  cc_shapes : shapes tb = imap (fun i s => fold_left (pre_step (os_name e) i) done s) (shapes t0)
    ++ flat_map (added_shape (os_name e)) done;
  cc_storable : storable p;
  cc_done : forall sc', sc' ∈ List.filter (concerns (os_name e) (Z.of_nat k)) done -> sc' ∈ compare_property e t p
}.

Lemma column_change_intro done sc post g e t p : changes = done ++ sc :: post -> pre_inv done g ->
  e ∈ existing -> t ∈ target_schema -> os_name e = os_name t -> p ∈ persisted_properties e -> sc ∈ compare_property e t p ->
  exists k t0 tb s, column_change done g sc e t p k t0 tb s.
Proof.
  intros Ech Hinv He Ht En Hp Hsc. destruct (existing_column e p He Hp) as (t0 & k & s & E0 & Ek & Es & Hread).
  destruct (pi_old _ _ Hinv _ _ E0) as (tb & Etb & Hr & Esh). exists k, t0, tb, s. constructor; try done.
  - apply (proj1 (Forall_forall _ _) (fc_stored _ (mg_file M e He)) p Hp).
  - intros sc' Hsc'. assert (plan existing target_schema (os_name e) (Z.of_nat k) = compare_property e t p) as <-.
    { unfold plan. rewrite (class_named_in existing e) by (done || apply M). rewrite En.
      rewrite (class_named_in target_schema t) by (done || apply M). rewrite <- Ek.
      by rewrite (column_property_in existing (mg_file M) e p He Hp). }
    rewrite <- (concerns_perm (os_name e) (Z.of_nat k)). rewrite Ech, List.filter_app. apply elem_of_app. by left.
Qed.

Lemma cc_in_range done g sc e t p k t0 tb s : column_change done g sc e t p k t0 tb s ->
  (k < length (shapes t0))%nat /\ in_columns (table_column p) tb /\ Z.to_nat (table_column p) = k /\
  shapes tb !! k = Some (fold_left (pre_step (os_name e) k) done s).
Proof.
  intros C. pose proof (lookup_lt_Some _ _ _ (cc_s _ _ _ _ _ _ _ _ _ _ C)) as Hk. split; [done|].
  assert (shapes tb !! k = Some (fold_left (pre_step (os_name e) k) done s)) as El.
  { rewrite (cc_shapes _ _ _ _ _ _ _ _ _ _ C), lookup_app_l by (by rewrite length_imap).
    by rewrite list_lookup_imap, (cc_s _ _ _ _ _ _ _ _ _ _ C). }
  pose proof (cc_column _ _ _ _ _ _ _ _ _ _ C) as Ec. split; [|split; [rewrite Ec; lia|done]].
  pose proof (lookup_lt_Some _ _ _ El) as Hk'. rewrite shapes_length in Hk'. unfold in_columns. lia.
Qed.

Lemma class_property_change (sc : SchemaChange) e t p : sc ∈ compare_property e t p ->
  about (os_name e) sc = true /\ concerns (os_name e) (table_column p) sc = true /\ added_shape (os_name e) sc = [] /\
  forall k, key_step (os_name e) k sc = k.
Proof.
  intros Hsc. pose proof (compare_property_class _ _ _ _ Hsc) as Ec. pose proof (compare_property_shape _ _ _ _ Hsc) as Hsh.
  unfold about. rewrite Ec, string_eqb_refl. split; [done|].
  destruct sc; try done; destruct Hsh as [-> ->]; cbn; by rewrite string_eqb_refl, Z.eqb_refl.
Qed.

(** The table after the change satisfies the invariant. *)
Lemma column_change_inv done g sc e t p k t0 tb s g' v : pre_inv done g -> column_change done g sc e t p k t0 tb s ->
  class_changes g g' (os_name e) tb (<[k := v]> (shapes tb)) ->
  pre_step (os_name e) k (fold_left (pre_step (os_name e) k) done s) sc = v ->
  pre_inv (done ++ [sc]) g'.
Proof.
  intros Hinv C Hc Hv. destruct (cc_in_range _ _ _ _ _ _ _ _ _ _ C) as (Hk & _ & _ & _).
  destruct C as [_ _ _ _ Hl Ecol E0 Es _ Etb Hr Esh _ _].
  destruct (class_property_change sc e t p Hl) as (Hab & Hcon & Hadd & Hkey). rewrite Ecol in Hcon.
  eapply (pre_inv_class done g sc (os_name e) t0 tb); [done..|].
  rewrite Esh. symmetry. apply changed_column; [done|done|done|]. intros s' Hs'. congruence.
Qed.

(** Types of the changes still to come for a column that keeps its type. *)
Lemma cc_value_type done g sc e t p k t0 tb s q : column_change done g sc e t p k t0 tb s ->
  compare_property e t p = compare_nullability e p q ++ compare_index e p q ->
  is_link p = false -> is_array (prop_type p) = false ->
  shape_type (fold_left (pre_step (os_name e) k) done s) = core_type p.
Proof.
  intros C Eq El Ea. pose proof C as [_ _ _ _ _ Ecol _ _ Hread _ _ _ Hst Hdone].
  rewrite (fold_filter _ (concerns (os_name e) (Z.of_nat k))) by (intros; by apply pre_step_other).
  apply (adapting_types e p k Hst Ecol q); [done|done| |].
  - intros sc' Hsc'. rewrite <- Eq. by apply Hdone.
  - by apply (original_type p k s Hst Hread).
Qed.

Lemma table_helper_Ok (g : G) o t : table_for_object_type g (os_name o) = Some t ->
  table_helper g o = Ok (table_name_for_object_type (os_name o)).
Proof. intros E. unfold table_helper. by rewrite E. Qed.

(** The property found in the target for a change that keeps the type. *)
Lemma kept_property e t p sc : sc ∈ compare_property e t p ->
  match sc with
  | RemoveProperty _ _ => True
  | ChangePropertyType _ _ q => property_for_name t (prop_name p) = Some q /\ property_is_computed t q = false
  | _ => exists q, property_for_name t (prop_name p) = Some q /\ property_is_computed t q = false /\
      same_type p q = true /\ compare_property e t p = compare_nullability e p q ++ compare_index e p q /\
      sc ∈ compare_nullability e p q ++ compare_index e p q
  end.
Proof.
  unfold compare_property. destruct (property_for_name t (prop_name p)) as [q|] eqn:Eq;
    [|by intros ->%list_elem_of_singleton].
  destruct (property_is_computed t q) eqn:Ec; [by intros ->%list_elem_of_singleton|].
  destruct (same_type p q) eqn:Es; cbn [negb]; [|by intros ->%list_elem_of_singleton].
  intros Hsc. assert (exists q', Some q = Some q' /\ property_is_computed t q' = false /\ same_type p q' = true /\
    compare_nullability e p q ++ compare_index e p q = compare_nullability e p q' ++ compare_index e p q' /\
    sc ∈ compare_nullability e p q' ++ compare_index e p q') as Hex by (by exists q).
  destruct sc; try exact Hex; try done. exfalso. unfold compare_nullability, compare_index in Hsc.
  destruct (Bool.eqb _ _), (is_nullable (prop_type p)), (requires_index q), (negb (is_indexed p)), (requires_index p);
    cbn [app] in Hsc; rewrite ?elem_of_cons, ?elem_of_nil in Hsc; intuition discriminate.
Qed.

(** Changes of nullability are only listed for values. *)
Lemma nullability_value p q : storable p -> storable q -> same_type p q = true ->
  Bool.eqb (is_nullable (prop_type p)) (is_nullable (prop_type q)) = false -> is_link p = false.
Proof.
  intros Hp Hq Es En. destruct (is_link p) eqn:El; [|done]. rewrite (link_nullable p Hp q) in En by done.
  by rewrite eqb_reflx in En.
Qed.

(** ** Tables of the target exist once tables have been added *)
Lemma class_absent x : table_for_object_type g0 x = None -> class_named existing x = None.
Proof.
  intros E. destruct (decide (x = EmptyString)) as [->|Hx]; [apply M|]. pose proof (mg_read M x Hx) as Hr. by rewrite E in Hr.
Qed.

Lemma class_present x : class_named existing x = None -> x <> EmptyString -> table_for_object_type g0 x = None.
Proof.
  intros E Hx. pose proof (mg_read M x Hx) as Hr. destruct (table_for_object_type g0 x); [|done].
  destruct Hr as (e & _ & Ee). congruence.
Qed.

Lemma table_added o : o ∈ target_schema -> class_named existing (os_name o) = None -> AddTable o ∈ changes.
Proof.
  intros Ho En. rewrite (mg_perm M). unfold differences. rewrite app_nil_r. apply list_elem_of_In, in_flat_map. exists o.
  split; [by apply list_elem_of_In|]. apply list_elem_of_In. unfold class_differences. rewrite En. by left.
Qed.

Lemma added_before done sc post o : changes = done ++ sc :: post -> is_table_change sc = false ->
  AddTable o ∈ changes -> AddTable o ∈ done.
Proof.
  intros Ech Hsc Hin. destruct (mg_tables M) as (tables & rest & Et & Hm & Hrest). rewrite Et in Hin.
  apply elem_of_app in Hin as [Hin|Hin]; [|by apply (proj1 (Forall_forall _ _) Hrest) in Hin].
  rewrite Et in Ech. destruct (marked_prefix _ _ _ _ _ _ Ech Hm Hsc) as [pre ->]. apply elem_of_app. by left.
Qed.

Lemma existsb_elem {A} (f : A -> bool) l x : x ∈ l -> f x = true -> existsb f l = true.
Proof. intros Hx Hf. apply List.existsb_exists. exists x. split; [by apply list_elem_of_In|done]. Qed.

Lemma target_table done sc post g o : changes = done ++ sc :: post -> is_table_change sc = false -> pre_inv done g ->
  o ∈ target_schema -> is_Some (table_for_object_type g (os_name o)).
Proof.
  intros Ech Hsc Hinv Ho. destruct (table_for_object_type g0 (os_name o)) as [t0|] eqn:E0.
  - destruct (pi_old _ _ Hinv _ _ E0) as (t & -> & _). done.
  - pose proof (pi_new _ _ Hinv _ E0) as Hn.
    rewrite (existsb_elem (adds_table (os_name o)) done (AddTable o)) in Hn.
    + destruct Hn as (o' & t & ids & _ & -> & _). done.
    + apply (added_before done sc post); [done|done|]. apply table_added; [done|]. by apply class_absent.
    + cbn. by rewrite string_eqb_refl.
Qed.

Lemma link_target done sc post g t q : changes = done ++ sc :: post -> is_table_change sc = false -> pre_inv done g ->
  t ∈ target_schema -> q ∈ persisted_properties t -> is_link q = true -> is_Some (get_table g (column_target q)).
Proof.
  intros Ech Hsc Hinv Ht Hq El. destruct (tc_links _ _ (mg_class M t Ht) q Hq El) as (o & Ho & En).
  unfold column_target. rewrite El, <- En. by eapply target_table.
Qed.

(** ** The cases of the first pass *)
Definition pre_step_holds (done : list SchemaChange) (sc : SchemaChange) (post : list SchemaChange) : Prop :=
  forall g, changes = done ++ sc :: post -> pre_inv done g ->
  exists g', pre_migration_applier g sc = Ok g' /\ pre_inv (done ++ [sc]) g'.

Lemma in_changes done sc post : changes = done ++ sc :: post -> sc ∈ changes.
Proof. intros ->. apply elem_of_app. right. by left. Qed.

Lemma storable_target t q : t ∈ target_schema -> q ∈ persisted_properties t -> storable q.
Proof. intros Ht Hq. apply (proj1 (Forall_forall _ _) (tc_stored _ _ (mg_class M t Ht)) q Hq). Qed.

Lemma pre_type_change done e old new post : pre_step_holds done (ChangePropertyType e old new) post.
Proof.
  intros g Ech Hinv. destruct (changes_source _ (in_changes _ _ _ Ech)) as (t & He & Ht & En & Hp & Hsc).
  destruct (column_change_intro _ _ _ _ _ _ _ Ech Hinv He Ht En Hp Hsc) as (k & t0 & tb & s & C).
  destruct (kept_property _ _ _ _ Hsc) as [Eq Ec].
  destruct (target_property_found _ _ _ _ (mg_class M t Ht) Eq Ec) as [Hq _].
  destruct (cc_in_range _ _ _ _ _ _ _ _ _ _ C) as (Hk & Hin & Ek & _).
  destruct (replace_column_step g (os_name e) tb old new (cc_tb _ _ _ _ _ _ _ _ _ _ C) Hin) as (g' & E & Hc).
  { by eapply storable_target. }
  { intros El. by eapply (link_target done _ post g t). }
  exists g'. split; [|eapply column_change_inv; [done|exact C|by rewrite <- Ek|]].
  - cbn [pre_migration_applier]. rewrite (table_helper_Ok g e tb (cc_tb _ _ _ _ _ _ _ _ _ _ C)). exact E.
  - cbn. unfold at_column. by rewrite string_eqb_refl, (cc_column _ _ _ _ _ _ _ _ _ _ C), Z.eqb_refl.
Qed.

Lemma pre_required done e p post : pre_step_holds done (MakePropertyRequired e p) post.
Proof.
  intros g Ech Hinv. destruct (changes_source _ (in_changes _ _ _ Ech)) as (t & He & Ht & En & Hp & Hsc).
  destruct (column_change_intro _ _ _ _ _ _ _ Ech Hinv He Ht En Hp Hsc) as (k & t0 & tb & s & C).
  destruct (kept_property _ _ _ _ Hsc) as (q & Eq & Ec & Est & Ecp & Hin').
  destruct (target_property_found _ _ _ _ (mg_class M t Ht) Eq Ec) as [Hq _].
  destruct (cc_in_range _ _ _ _ _ _ _ _ _ _ C) as (Hk & Hin & Ek & _).
  assert (is_link p = false) as El.
  { apply (nullability_value p q); [apply C|by eapply storable_target|done|].
    unfold compare_nullability in Hin'. destruct (Bool.eqb _ _); [|done]. exfalso. cbn [app] in Hin'.
    unfold compare_index in Hin'. destruct (requires_index q), (negb (is_indexed p)), (requires_index p);
      rewrite ?elem_of_cons, ?elem_of_nil in Hin'; intuition discriminate. }
  destruct (make_required_step g (os_name e) tb p (cc_tb _ _ _ _ _ _ _ _ _ _ C) Hin) as (g' & E & Hc); [apply C|done|].
  exists g'. split; [|eapply column_change_inv; [done|exact C|by rewrite <- Ek|]].
  - cbn [pre_migration_applier]. rewrite (table_helper_Ok g e tb (cc_tb _ _ _ _ _ _ _ _ _ _ C)). exact E.
  - cbn. unfold at_column. by rewrite string_eqb_refl, (cc_column _ _ _ _ _ _ _ _ _ _ C), Z.eqb_refl.
Qed.

Lemma pre_nullable done e p post : pre_step_holds done (MakePropertyNullable e p) post.
Proof.
  intros g Ech Hinv. destruct (changes_source _ (in_changes _ _ _ Ech)) as (t & He & Ht & En & Hp & Hsc).
  destruct (column_change_intro _ _ _ _ _ _ _ Ech Hinv He Ht En Hp Hsc) as (k & t0 & tb & s & C).
  destruct (kept_property _ _ _ _ Hsc) as (q & Eq & Ec & Est & Ecp & Hin').
  destruct (target_property_found _ _ _ _ (mg_class M t Ht) Eq Ec) as [Hq _].
  destruct (cc_in_range _ _ _ _ _ _ _ _ _ _ C) as (Hk & Hin & Ek & Esh).
  assert (is_link p = false) as El.
  { apply (nullability_value p q); [apply C|by eapply storable_target|done|].
    unfold compare_nullability in Hin'. destruct (Bool.eqb _ _); [|done]. exfalso. cbn [app] in Hin'.
    unfold compare_index in Hin'. destruct (requires_index q), (negb (is_indexed p)), (requires_index p);
      rewrite ?elem_of_cons, ?elem_of_nil in Hin'; intuition discriminate. }
  assert (is_array (prop_type p) = false) as Ea by (by apply (mg_arrays M e), (in_changes _ _ _ Ech)).
  assert (well_formed tb) as Hwf by (apply (cc_rows _ _ _ _ _ _ _ _ _ _ C), (mg_wf M _ _ (cc_t0 _ _ _ _ _ _ _ _ _ _ C))).
  destruct (make_optional_step g (os_name e) tb p (fold_left (pre_step (os_name e) k) done s)
    (cc_tb _ _ _ _ _ _ _ _ _ _ C)) as (g' & E & Hc); [apply Hin|by rewrite Ek|apply C|done|done|done| |].
  { by eapply cc_value_type. }
  exists g'. split; [|eapply column_change_inv; [done|exact C|by rewrite <- Ek|]].
  - cbn [pre_migration_applier]. rewrite (table_helper_Ok g e tb (cc_tb _ _ _ _ _ _ _ _ _ _ C)). exact E.
  - cbn. unfold at_column. by rewrite string_eqb_refl, (cc_column _ _ _ _ _ _ _ _ _ _ C), Z.eqb_refl.
Qed.

(** An index is only added to values of an indexable type. *)
Lemma index_value e p q t : t ∈ target_schema -> q ∈ persisted_properties t -> same_type p q = true ->
  AddIndex e p ∈ compare_nullability e p q ++ compare_index e p q ->
  is_link p = false /\ is_array (prop_type p) = false /\ indexable_type (core_type p) = true.
Proof.
  intros Ht Hq (Eb & _ & Ea)%same_type_true Hin.
  assert (requires_index q = true) as Er.
  { unfold compare_nullability, compare_index in Hin.
    destruct (requires_index q); [done|]. exfalso. destruct (Bool.eqb _ _), (is_nullable (prop_type p)), (requires_index p);
      cbn [app] in Hin; rewrite ?elem_of_cons, ?elem_of_nil in Hin; intuition discriminate. }
  destruct (st_index q (storable_target t q Ht Hq) Er) as (E1 & E2 & E3).
  split; [|split].
  - destruct (is_link p) eqn:El; [|done]. apply is_link_base in El. rewrite Eb in El. apply is_link_base in El. congruence.
  - congruence.
  - unfold core_type in *. by rewrite Eb.
Qed.

Lemma pre_add_index done e p post : pre_step_holds done (AddIndex e p) post.
Proof.
  intros g Ech Hinv. destruct (changes_source _ (in_changes _ _ _ Ech)) as (t & He & Ht & En & Hp & Hsc).
  destruct (column_change_intro _ _ _ _ _ _ _ Ech Hinv He Ht En Hp Hsc) as (k & t0 & tb & s & C).
  destruct (kept_property _ _ _ _ Hsc) as (q & Eq & Ec & Est & Ecp & Hin').
  destruct (target_property_found _ _ _ _ (mg_class M t Ht) Eq Ec) as [Hq _].
  destruct (cc_in_range _ _ _ _ _ _ _ _ _ _ C) as (Hk & Hin & Ek & Esh).
  destruct (index_value e p q t Ht Hq Est Hin') as (El & Ea & Hix). rewrite <- Ek in Esh.
  pose proof (set_index_step g (os_name e) tb (table_column p) true _ (cc_tb _ _ _ _ _ _ _ _ _ _ C) (proj1 Hin) Esh) as Hc.
  rewrite (alter_as_insert _ _ _ _ Esh) in Hc. rewrite Ek in *.
  eexists. split; [cbn [pre_migration_applier apply_index]; by rewrite (table_helper_Ok g e tb (cc_tb _ _ _ _ _ _ _ _ _ _ C))|].
  eapply column_change_inv; [done|exact C| |].
  - apply Hc. intros _. by rewrite (cc_value_type _ _ _ _ _ _ _ _ _ _ q C Ecp El Ea).
  - cbn. unfold at_column. by rewrite string_eqb_refl, (cc_column _ _ _ _ _ _ _ _ _ _ C), Z.eqb_refl.
Qed.

Lemma pre_remove_index done e p post : pre_step_holds done (RemoveIndex e p) post.
Proof.
  intros g Ech Hinv. destruct (changes_source _ (in_changes _ _ _ Ech)) as (t & He & Ht & En & Hp & Hsc).
  destruct (column_change_intro _ _ _ _ _ _ _ Ech Hinv He Ht En Hp Hsc) as (k & t0 & tb & s & C).
  destruct (cc_in_range _ _ _ _ _ _ _ _ _ _ C) as (Hk & Hin & Ek & Esh). rewrite <- Ek in Esh.
  pose proof (set_index_step g (os_name e) tb (table_column p) false _ (cc_tb _ _ _ _ _ _ _ _ _ _ C) (proj1 Hin) Esh) as Hc.
  rewrite (alter_as_insert _ _ _ _ Esh) in Hc. rewrite Ek in *.
  eexists. split; [cbn [pre_migration_applier apply_index]; by rewrite (table_helper_Ok g e tb (cc_tb _ _ _ _ _ _ _ _ _ _ C))|].
  eapply column_change_inv; [done|exact C|by apply Hc|].
  cbn. unfold at_column. by rewrite string_eqb_refl, (cc_column _ _ _ _ _ _ _ _ _ _ C), Z.eqb_refl.
Qed.

(** Removals wait for the second pass. *)
Lemma pre_remove_property done e p post : pre_step_holds done (RemoveProperty e p) post.
Proof.
  intros g Ech Hinv. destruct (changes_source _ (in_changes _ _ _ Ech)) as (t & He & Ht & En & Hp & Hsc).
  destruct (column_change_intro _ _ _ _ _ _ _ Ech Hinv He Ht En Hp Hsc) as (k & t0 & tb & s & C).
  destruct (cc_in_range _ _ _ _ _ _ _ _ _ _ C) as (Hk & Hin & Ek & Esh).
  exists g. split; [done|]. eapply column_change_inv; [done|exact C| |done].
  exists tb. split; [by apply changes_to_refl, C|]. split; [done|]. symmetry. by apply list_insert_id.
Qed.

Lemma existing_named e : e ∈ existing -> class_named existing (os_name e) = Some e.
Proof. apply class_named_in, M. Qed.

Lemma existing_table e : e ∈ existing -> exists t0, table_for_object_type g0 (os_name e) = Some t0.
Proof.
  intros He. pose proof (existing_named e He) as Ee.
  assert (os_name e <> EmptyString) as Hne by (intros E; rewrite E, (mg_nonempty M) in Ee; done).
  pose proof (mg_read M _ Hne) as Hr. destruct (table_for_object_type g0 (os_name e)); [by eexists|congruence].
Qed.

Lemma pre_add_property done e q post : pre_step_holds done (AddProperty e q) post.
Proof.
  intros g Ech Hinv. destruct (changes_source _ (in_changes _ _ _ Ech)) as (t & He & Ht & En & Hq).
  destruct (existing_table e He) as [t0 E0]. destruct (pi_old _ _ Hinv _ _ E0) as (tb & Etb & Hr & Esh).
  destruct (add_column_step g (os_name e) tb q Etb) as (g' & E & Hc).
  { by eapply storable_target. }
  { intros El. by eapply (link_target done _ post g t). }
  exists g'. split; [cbn [pre_migration_applier]; by rewrite (table_helper_Ok g e tb Etb)|].
  eapply (pre_inv_class done g _ (os_name e) t0 tb); [done|unfold about; by rewrite string_eqb_refl|done..|].
  rewrite Esh, flat_map_app. cbn. rewrite string_eqb_refl, app_nil_r, <- app_assoc. f_equal.
  symmetry. apply imap_same. intros i s' _. by rewrite fold_left_app.
Qed.

(** A step that only sets the key of a class. *)
Lemma pre_inv_key done g sc x k g' : pre_inv done g -> key_set g g' x k -> about x sc = true ->
  (forall i s, pre_step x i s sc = s) -> added_shape x sc = [] -> adds_table x sc = false -> adds_initial x sc = false ->
  (forall k', key_step x k' sc = k) -> is_Some (table_for_object_type g0 x) -> pre_inv (done ++ [sc]) g'.
Proof.
  intros [Iids Ipk Imeta Iold Inew Ikey] [Kpk [t' Kt] Kkey Kentry] Hab Hpre Hadd _ _ Hstep [t0 E0].
  assert (forall y, table_for_object_type g' y = table_for_object_type g y) as Htab
    by (intros y; by apply (changes_to_other _ _ _ _ _ Kt)).
  constructor.
  - by rewrite (changes_to_ids _ _ _ _ Kt).
  - done.
  - by rewrite (changes_to_other _ _ _ _ _ Kt).
  - intros y t0' Ey. destruct (Iold y t0' Ey) as (ty & E1 & E2 & E3). exists ty. rewrite Htab. split; [done|]. split; [done|].
    rewrite E3, flat_map_app. cbn. destruct (decide (y = x)) as [->|Hy].
    + rewrite Hadd, !app_nil_r. f_equal. apply imap_same. intros i s _. rewrite fold_left_app. cbn. by rewrite Hpre.
    + destruct (steps_elsewhere y sc) as (S1 & _ & S2 & _); [by eapply about_unique|]. rewrite S2, !app_nil_r. f_equal.
      apply imap_same. intros i s _. rewrite fold_left_app. cbn. by rewrite S1.
  - intros y Ey. destruct (decide (y = x)) as [->|Hy]; [congruence|].
    destruct (steps_elsewhere y sc) as (_ & _ & _ & S3 & S4 & _); [by eapply about_unique|].
    rewrite !existsb_app. cbn. rewrite S3, S4, !orb_false_r, Htab. specialize (Inew y Ey).
    destruct (existsb (adds_table y) done); [done|]. destruct Inew as [? Hno]. split; [done|]. by rewrite Kentry.
  - intros y. rewrite Kkey, fold_left_app. cbn. rewrite Ikey. destruct (decide (y = x)) as [->|Hy]; [by rewrite Hstep|].
    destruct (steps_elsewhere y sc) as (_ & _ & _ & _ & _ & S5); [by eapply about_unique|]. by rewrite S5.
Qed.

Lemma pre_change_key done e k post : pre_step_holds done (ChangePrimaryKey e k) post.
Proof.
  intros g Ech Hinv. destruct (changes_source _ (in_changes _ _ _ Ech)) as (t & He & Ht & En & Ek).
  destruct (set_primary_key_spec g (os_name e) (new_primary_key k)) as (g' & E & Hks); [apply Hinv..|].
  exists g'. split; [done|]. eapply (pre_inv_key done g _ (os_name e)); try done.
  - unfold about. by rewrite string_eqb_refl.
  - intros k'. cbn. by rewrite string_eqb_refl.
  - destruct (existing_table e He) as [t0 ->]. done.
Qed.

(** Applying a change of a class leaves what it says about others. *)
Lemma fold_elsewhere x sc done : about x sc = false ->
  (forall i s, fold_left (pre_step x i) (done ++ [sc]) s = fold_left (pre_step x i) done s) /\
  flat_map (added_shape x) (done ++ [sc]) = flat_map (added_shape x) done /\
  existsb (adds_table x) (done ++ [sc]) = existsb (adds_table x) done /\
  existsb (adds_initial x) (done ++ [sc]) = existsb (adds_initial x) done /\
  (forall k, fold_left (key_step x) (done ++ [sc]) k = fold_left (key_step x) done k).
Proof.
  intros Hab. destruct (steps_elsewhere x sc Hab) as (S1 & _ & S2 & S3 & S4 & S5).
  split; [intros i s; rewrite fold_left_app; cbn; by rewrite S1|].
  split; [rewrite flat_map_app; cbn; by rewrite S2, !app_nil_r|].
  split; [rewrite existsb_app; cbn; by rewrite S3, !orb_false_r|].
  split; [rewrite existsb_app; cbn; by rewrite S4, !orb_false_r|].
  intros k. rewrite fold_left_app. cbn. by rewrite S5.
Qed.

Lemma target_named t : t ∈ target_schema -> class_named target_schema (os_name t) = Some t.
Proof. apply class_named_in, M. Qed.

(** A class is created by one change, followed by one for its columns. *)
Lemma created_once done sc post x t : changes = done ++ sc :: post -> t ∈ target_schema -> os_name t = x ->
  class_named existing x = None -> sc = AddTable t \/ sc = AddInitialProperties t ->
  existsb (adds_table x) done = (match sc with AddTable _ => false | _ => existsb (adds_table x) done end) /\
  existsb (adds_initial x) done = (match sc with AddInitialProperties _ => false | _ => existsb (adds_initial x) done end).
Proof.
  intros Ech Ht <- En Hsc. pose proof (about_target (os_name t)) as Hp. rewrite (target_named t Ht) in Hp.
  unfold class_differences in Hp. rewrite En in Hp.
  assert (forall sc', sc' ∈ done -> about (os_name t) sc' = true ->
    (sc = AddTable t -> sc' = AddInitialProperties t) /\ (sc = AddInitialProperties t -> sc' = AddTable t)) as Hother.
  { intros sc' Hin Hab. apply list_elem_of_split in Hin as (l1 & l2 & ->).
    rewrite Ech in Hp. rewrite !List.filter_app in Hp. cbn [List.filter] in Hp.
    assert (about (os_name t) sc = true) as Habs by (unfold about; destruct Hsc as [->| ->]; by rewrite string_eqb_refl).
    rewrite Hab, Habs in Hp.
    assert (List.filter (about (os_name t)) l1 ++ List.filter (about (os_name t)) l2 ++
      List.filter (about (os_name t)) post = [] /\ [sc'; sc] ≡ₚ [AddTable t; AddInitialProperties t]) as [_ Hp2].
    { assert ([sc'; sc] ++ (List.filter (about (os_name t)) l1 ++ List.filter (about (os_name t)) l2 ++
        List.filter (about (os_name t)) post) ≡ₚ [AddTable t; AddInitialProperties t]) as Hq.
      { rewrite <- Hp. cbn [app]. rewrite <- !app_assoc. cbn [app]. by rewrite <- !Permutation_middle. }
      pose proof (Permutation_length Hq) as Hlen. rewrite length_app in Hlen. cbn in Hlen.
      assert (List.filter (about (os_name t)) l1 ++ List.filter (about (os_name t)) l2 ++
        List.filter (about (os_name t)) post = []) as E0 by (apply length_zero_iff_nil; lia).
      split; [done|]. by rewrite E0, app_nil_r in Hq. }
    apply Permutation_sym, Permutation_length_2_inv in Hp2 as [[= -> ->]|[= -> ->]]; by split. }
  split.
  - destruct sc; try done. apply not_true_is_false. intros (sc' & Hin & Hf)%List.existsb_exists.
    apply list_elem_of_In in Hin. destruct sc'; try done. cbn in Hf.
    destruct Hsc as [[= ->]|?]; [|done]. by destruct (Hother _ Hin Hf) as [H1 _]; specialize (H1 eq_refl).
  - destruct sc; try done. apply not_true_is_false. intros (sc' & Hin & Hf)%List.existsb_exists.
    apply list_elem_of_In in Hin. destruct sc'; try done. cbn in Hf.
    destruct Hsc as [?|[= ->]]; [done|]. by destruct (Hother _ Hin Hf) as [_ H1]; specialize (H1 eq_refl).
Qed.

Lemma no_initial_yet done sc post x : changes = done ++ sc :: post -> is_table_change sc = true ->
  existsb (adds_initial x) done = false.
Proof.
  intros Ech Hsc. destruct (mg_tables M) as (tables & rest & Et & Hm & Hr). rewrite Et in Ech.
  pose proof (marked_before _ _ _ _ _ _ Ech Hm Hr Hsc) as Hd. apply not_true_is_false.
  intros (sc' & Hin & Hf)%List.existsb_exists. apply list_elem_of_In in Hin.
  pose proof (proj1 (Forall_forall _ _) Hd _ Hin). by destruct sc'.
Qed.

Lemma pre_add_table done o post : pre_step_holds done (AddTable o) post.
Proof.
  intros g Ech Hinv. destruct (changes_source _ (in_changes _ _ _ Ech)) as [Ho En].
  pose proof (class_present _ En (tc_name _ _ (mg_class M o Ho))) as E0.
  destruct (created_once done _ post (os_name o) o Ech Ho eq_refl En) as [Hnot _]; [by left|]. cbn in Hnot.
  pose proof (pi_new _ _ Hinv _ E0) as Hn. rewrite Hnot in Hn. destruct Hn as [Etab Hno].
  destruct (create_table_step target_schema g o (mg_class M o Ho) Etab) as (g' & E & Hcr); [apply Hinv|done|].
  exists g'. split; [done|].
  assert (forall y, about y (AddTable o) = false <-> y <> os_name o) as Hab.
  { intros y. unfold about. cbn. rewrite string_eqb_neq. split; congruence. }
  assert (forall y, y <> os_name o -> table_for_object_type g' y = table_for_object_type g y) as Htab.
  { intros y Hy. apply (cr_other _ _ _ Hcr); [by apply table_name_neq|done]. }
  constructor.
  - rewrite (cr_ids _ _ _ Hcr). apply Hinv.
  - apply Hcr.
  - rewrite (cr_other _ _ _ Hcr) by done. apply Hinv.
  - intros y t0 Ey. assert (y <> os_name o) as Hy by congruence.
    destruct (pi_old _ _ Hinv y t0 Ey) as (ty & E1 & E2 & E3). exists ty. rewrite Htab by done. split; [done|]. split; [done|].
    rewrite E3. destruct (fold_elsewhere y (AddTable o) done) as (S1 & S2 & _); [by apply Hab|]. rewrite S2. f_equal.
    apply imap_same. intros i s _. by rewrite S1.
  - intros y Ey. destruct (decide (y = os_name o)) as [->|Hy].
    + rewrite !existsb_app. cbn. rewrite string_eqb_refl, orb_true_r, (no_initial_yet _ _ _ _ Ech) by done. cbn.
      destruct (cr_table _ _ _ Hcr) as (t & ids & H1 & H2 & _ & H3 & H4). exists o, t, ids.
      rewrite app_nil_r. split; [by apply target_named|done].
    + destruct (fold_elsewhere y (AddTable o) done) as (_ & _ & S3 & S4 & _); [by apply Hab|]. rewrite S3, S4, Htab by done.
      pose proof (pi_new _ _ Hinv y Ey) as Hy'. destruct (existsb (adds_table y) done); [done|].
      destruct Hy' as [? Hno']. split; [done|]. by rewrite (cr_entry _ _ _ Hcr).
  - intros y. rewrite (cr_key _ _ _ Hcr), fold_left_app. cbn. rewrite (pi_key _ _ Hinv).
    destruct (decide (y = os_name o)) as [->|Hy]; [by rewrite string_eqb_refl|].
    assert (string_eqb (os_name o) y = false) as -> by (apply string_eqb_neq; congruence). done.
Qed.

Lemma pre_add_initial done o post : pre_step_holds done (AddInitialProperties o) post.
Proof.
  intros g Ech Hinv. destruct (changes_source _ (in_changes _ _ _ Ech)) as [Ho En].
  pose proof (class_present _ En (tc_name _ _ (mg_class M o Ho))) as E0.
  destruct (created_once done _ post (os_name o) o Ech Ho eq_refl En) as [_ Hnot]; [by right|]. cbn in Hnot.
  assert (existsb (adds_table (os_name o)) done = true) as Hyes.
  { apply (existsb_elem _ _ (AddTable o)); [|cbn; by rewrite string_eqb_refl].
    apply (added_before done (AddInitialProperties o) post); [done|done|]. by apply table_added. }
  pose proof (pi_new _ _ Hinv _ E0) as Hn. rewrite Hyes, Hnot in Hn.
  destruct Hn as (o' & t & ids & Eo & Et & Hwf & Hids & Esh). rewrite app_nil_r in Esh. rewrite (target_named o Ho) in Eo. injection Eo as <-.
  destruct (add_initial_columns_step g (os_name o) (persisted_properties o) t Et) as (g' & E & t' & Hc & Hr & Es').
  { apply (tc_stored _ _ (mg_class M o Ho)). }
  { intros q Hq El. by eapply (link_target done _ post g o). }
  exists g'. split; [done|].
  assert (forall y, about y (AddInitialProperties o) = false <-> y <> os_name o) as Hab.
  { intros y. unfold about. cbn. rewrite string_eqb_neq. split; congruence. }
  assert (forall y, y <> os_name o -> table_for_object_type g' y = table_for_object_type g y) as Htab.
  { intros y Hy. apply (other_class _ _ _ _ y Hc). by apply table_name_neq. }
  constructor.
  - rewrite (changes_to_ids _ _ _ _ Hc). apply Hinv.
  - destruct (pi_pk _ _ Hinv) as (tp & keys & props & Hg). exists tp, keys, props. by eapply has_pk_frame.
  - rewrite (changes_to_other _ _ _ _ _ Hc) by done. apply Hinv.
  - intros y t0 Ey. assert (y <> os_name o) as Hy by congruence.
    destruct (pi_old _ _ Hinv y t0 Ey) as (ty & E1 & E2 & E3). exists ty. rewrite Htab by done. split; [done|]. split; [done|].
    rewrite E3. destruct (fold_elsewhere y (AddInitialProperties o) done) as (S1 & S2 & _); [by apply Hab|]. rewrite S2. f_equal.
    apply imap_same. intros i s _. by rewrite S1.
  - intros y Ey. destruct (decide (y = os_name o)) as [->|Hy].
    + rewrite !existsb_app. cbn. rewrite Hyes, string_eqb_refl, orb_true_r. cbn.
      exists o, t', ids. split; [by apply target_named|]. split; [by apply Hc|]. split; [by apply Hr|]. split; [done|].
      rewrite Es', Esh, <- app_assoc. done.
    + destruct (fold_elsewhere y (AddInitialProperties o) done) as (_ & _ & S3 & S4 & _); [by apply Hab|].
      rewrite S3, S4, Htab by done. pose proof (pi_new _ _ Hinv y Ey) as Hy'.
      destruct (existsb (adds_table y) done); [done|]. destruct Hy' as [? Hno']. split; [done|].
      rewrite has_entry_frame; [done|]. by apply (changes_to_other _ _ _ _ _ Hc).
  - intros y. rewrite fold_left_app. cbn. rewrite (get_primary_key_frame _ _ _ _ y Hc) by done. apply Hinv.
Qed.

(** ** The whole first pass *)
Lemma pre_pass : exists g1, apply_pre_migration_changes g0 changes = Ok g1 /\ pre_inv changes g1.
Proof.
  unfold apply_pre_migration_changes.
  enough (forall post done g, changes = done ++ post -> pre_inv done g ->
    exists g1, fold_result pre_migration_applier post g = Ok g1 /\ pre_inv changes g1) as Hgo
    by exact (Hgo changes [] g0 eq_refl pre_inv_init).
  induction post as [|sc post IH]; intros done g Ech Hinv.
  - exists g. rewrite app_nil_r in Ech. by rewrite Ech.
  - assert (pre_step_holds done sc post) as Hstep.
    { destruct sc; [apply pre_add_table| |apply pre_add_initial|apply pre_add_property|apply pre_remove_property
        |apply pre_type_change|apply pre_nullable|apply pre_required|apply pre_add_index|apply pre_remove_index
        |apply pre_change_key].
      intros g' Ech' _. by pose proof (changes_source _ (in_changes _ _ _ Ech')). }
    destruct (Hstep g Ech Hinv) as (g' & E & Hinv'). cbn [fold_result]. rewrite E. cbn [mbind Result_bind].
    apply (IH (done ++ [sc])); [by rewrite <- app_assoc|done].
Qed.
End run.
