(* ===== verification/MigrationSecond.v ===== *)
(** * Running a migration: the second pass

    [apply_post_migration_changes] for a migration without a migration
    function: indexes are set again, changed keys are checked for duplicates,
    and removed properties lose their columns, from the last to the first. *)
From S2P Require Import Prelude.
From S2P Require Import SchemaTypes.
From S2P Require Import Schemas.
From S2P Require Import SchemaValidation.
From S2P Require Import SchemaDiff.
From S2P Require Import SchemaTheorems.
From S2P Require Import CoreTables.
From S2P Require Import ObjectStore.
From S2P Require Import StoreChanges.
From S2P Require Import StoreFacts.
From S2P Require Import SchemaReading.
From S2P Require Import StoreMetadata.
From S2P Require Import MigrationPlan.
From S2P Require Import MigrationSteps.
From S2P Require Import MigrationRun.

(** ** Removing several positions, the last first *)
Definition deletes {A} (cs : list nat) (l : list A) : list A := fold_left (fun l c => delete c l) cs l.

Lemma deletes_lookup {A} cs (l : list A) i : Forall (fun c => i < c)%nat cs -> deletes cs l !! i = l !! i.
Proof.
  intros Hcs. unfold deletes. revert l. induction Hcs as [|c cs Hc Hcs IH]; intros l; [done|]. cbn.
  rewrite IH. by apply list_lookup_delete_lt.
Qed.

Lemma deletes_elem {A} cs (l : list A) x : Sorted.StronglySorted (fun a b => b < a)%nat cs ->
  x ∈ deletes cs l <-> exists i, l !! i = Some x /\ i ∉ cs.
Proof.
  intros Hcs. revert l. induction Hcs as [|c cs Hcs IH Hc]; intros l.
  - cbn. rewrite list_elem_of_lookup. split; intros (i & Hi).
    + exists i. split; [done|]. apply not_elem_of_nil.
    + exists i. by destruct Hi.
  - change (deletes (c :: cs) l) with (deletes cs (delete c l)). rewrite IH. split.
    + intros (i & Hi & Hn). destruct (decide (i < c)%nat) as [Hlt|Hge].
      * rewrite list_lookup_delete_lt in Hi by done. exists i. split; [done|]. apply not_elem_of_cons. split; [lia|done].
      * rewrite list_lookup_delete_ge in Hi by lia. exists (S i). split; [done|]. apply not_elem_of_cons. split; [lia|].
        intros Hin. pose proof (proj1 (Forall_forall _ _) Hc _ Hin). cbv beta in *. lia.
    + intros (i & Hi & [Hne Hn]%not_elem_of_cons). destruct (decide (i < c)%nat) as [Hlt|Hge].
      * exists i. by rewrite list_lookup_delete_lt.
      * exists (i - 1)%nat. rewrite list_lookup_delete_ge by lia. replace (S (i - 1)) with i by lia. split; [done|].
        intros Hin. pose proof (proj1 (Forall_forall _ _) Hc _ Hin). cbv beta in *. lia.
Qed.

Lemma post_keeps_spec x i l s : (fold_left (post_step x i) l s).1 = s.1.
Proof.
  revert s. induction l as [|sc l IH]; intros s; [done|]. cbn. rewrite IH.
  destruct sc; try done; cbn; by destruct (at_column _ _ _ _).
Qed.

Section second.
Context {G : Type} `{CoreLaws G} {CS : CharSign} {HSort : StdSort} {HPart : StdPartition}.
Variables (g0 : G) (existing target_schema : Schema) (changes : list SchemaChange).
Hypothesis M : migration g0 existing target_schema changes.
Variable g1 : G.
Hypothesis First : pre_inv g0 target_schema changes g1.

(** ** The tables after the first pass *)
Lemma first_old e t0 : table_for_object_type g0 (os_name e) = Some t0 -> exists t1,
  table_for_object_type g1 (os_name e) = Some t1 /\
  shapes t1 = imap (fun i s => fold_left (pre_step (os_name e) i) changes s) (shapes t0)
    ++ flat_map (added_shape (os_name e)) changes.
Proof. intros E0. destruct (pi_old _ _ _ _ First _ _ E0) as (t1 & E1 & _ & Es). by exists t1. Qed.

Lemma first_new t : t ∈ target_schema -> class_named existing (os_name t) = None ->
  exists t1 ids, table_for_object_type g1 (os_name t) = Some t1 /\ hidden ids /\
    shapes t1 = ids ++ key_shapes t ++ initial_shapes t.
Proof.
  intros Ht En. pose proof (class_present g0 existing target_schema changes M _ En (tc_name _ _ (mg_class _ _ _ _ M t Ht))) as E0.
  pose proof (pi_new _ _ _ _ First _ E0) as Hn.
  rewrite (existsb_elem (adds_table (os_name t)) changes (AddTable t)) in Hn;
    [|by eapply (table_added g0 existing target_schema changes M)|cbn; by rewrite string_eqb_refl].
  destruct Hn as (o & t1 & ids & Eo & E1 & _ & Hids & Es).
  assert (o = t) as -> by (rewrite (class_named_in target_schema t) in Eo by (done || apply M); congruence).
  rewrite (existsb_elem (adds_initial (os_name t)) changes (AddInitialProperties t)) in Es.
  - by exists t1, ids.
  - rewrite (mg_perm _ _ _ _ M). unfold differences. rewrite app_nil_r. apply list_elem_of_In, in_flat_map. exists t.
    split; [by apply list_elem_of_In|]. apply list_elem_of_In. unfold class_differences. rewrite En. by right; left.
  - cbn. by rewrite string_eqb_refl.
Qed.

(** ** The invariant of the second pass *)
Definition removed_column_of (x : string) (sc : SchemaChange) : option nat :=
  match sc with
  | RemoveProperty o p => if string_eqb (os_name o) x then Some (Z.to_nat (table_column p)) else None
  | _ => None
  end.
Definition removed (x : string) (l : list SchemaChange) : list nat := omap (removed_column_of x) l.

Record post_inv (done : list SchemaChange) (g : G) : Prop := {
  po_other n : (forall x, n <> table_name_for_object_type x) -> get_table g n = get_table g1 n;
  po_none x : table_for_object_type g1 x = None -> table_for_object_type g x = None;
  po_table x t1 : table_for_object_type g1 x = Some t1 -> exists t, table_for_object_type g x = Some t /\
    shapes t = deletes (removed x done) (imap (fun i s => fold_left (post_step x i) done s) (shapes t1))
}.

Lemma post_inv_init : post_inv [] g1.
Proof.
  constructor; [done|done|]. intros x t1 E. exists t1. split; [done|]. cbn. unfold deletes. cbn.
  apply list_eq. intros i. rewrite list_lookup_imap. by destruct (shapes t1 !! i).
Qed.

Lemma removed_app x l k : removed x (l ++ k) = removed x l ++ removed x k.
Proof. unfold removed. apply omap_app. Qed.

(** A change without effect on the tables. *)
Lemma post_inv_same done g sc : post_inv done g -> (forall x, removed_column_of x sc = None) ->
  (forall x i s, post_step x i s sc = s) -> post_inv (done ++ [sc]) g.
Proof.
  intros [Io In It] Hr Hs. constructor; [done|done|]. intros x t1 E1. destruct (It x t1 E1) as (t & Et & Es). exists t.
  split; [done|]. rewrite Es, removed_app. cbn. rewrite Hr, app_nil_r. f_equal. symmetry. apply imap_same.
  intros i s _. rewrite fold_left_app. cbn. by rewrite Hs.
Qed.

(** A change of one class table. *)
Lemma post_inv_class done g sc x t1 t' g' : post_inv done g -> about x sc = true ->
  table_for_object_type g1 x = Some t1 -> changes_to g g' (table_name_for_object_type x) t' ->
  shapes t' = deletes (removed x (done ++ [sc])) (imap (fun i s => fold_left (post_step x i) (done ++ [sc]) s) (shapes t1)) ->
  post_inv (done ++ [sc]) g'.
Proof.
  intros [Io In It] Hab E1 Hc Es. constructor.
  - intros n Hn. rewrite (changes_to_other _ _ _ _ _ Hc) by apply Hn. by apply Io.
  - intros y Ey. assert (y <> x) as Hy by congruence. rewrite (other_class _ _ _ _ y Hc) by by apply table_name_neq. by apply In.
  - intros y t1' Ey. destruct (decide (y = x)) as [->|Hy].
    + assert (t1' = t1) as -> by congruence. exists t'. split; [by apply Hc|done].
    + destruct (It y t1' Ey) as (t & Et & Es'). exists t. rewrite (other_class _ _ _ _ y Hc) by by apply table_name_neq.
      split; [done|]. rewrite Es', removed_app. pose proof (about_unique _ _ _ Hab Hy) as Hab'.
      destruct (steps_elsewhere y sc Hab') as (_ & S2 & _). cbn.
      assert (removed_column_of y sc = None) as -> by (destruct sc; try done; unfold about in Hab'; cbn in *; by rewrite Hab').
      rewrite app_nil_r. f_equal. symmetry. apply imap_same. intros i s _. rewrite fold_left_app. cbn. by rewrite S2.
Qed.

(** ** Indexes, in the second pass *)
Lemma post_changed_column done x sc k v (l : list Shape) : (k < length l)%nat -> concerns x (Z.of_nat k) sc = true ->
  (forall s, l !! k = Some s -> post_step x k (fold_left (post_step x k) done s) sc = v) ->
  imap (fun i s => fold_left (post_step x i) (done ++ [sc]) s) l =
  <[k := v]> (imap (fun i s => fold_left (post_step x i) done s) l).
Proof.
  intros Hk Hc Hv. apply imap_changed; [done| |].
  - intros i s _ Hi. rewrite fold_left_app. cbn. apply post_step_other. destruct (concerns x (Z.of_nat i) sc) eqn:E; [|done].
    exfalso. apply Hi. destruct sc; simpl in Hc, E; try done;
      apply andb_true_iff in Hc as [_ E1%Z.eqb_eq], E as [_ E2%Z.eqb_eq]; lia.
  - intros s Hs. rewrite fold_left_app. cbn. by apply Hv.
Qed.

(** The column of an index change, after the first pass. *)
Lemma index_column e t p sc : e ∈ existing -> t ∈ target_schema -> os_name e = os_name t -> p ∈ persisted_properties e ->
  sc ∈ compare_property e t p -> exists t1 k s1, table_for_object_type g1 (os_name e) = Some t1 /\
    table_column p = Z.of_nat k /\ shapes t1 !! k = Some s1 /\
    (forall q, compare_property e t p = compare_nullability e p q ++ compare_index e p q ->
      is_link p = false -> is_array (prop_type p) = false -> shape_type s1 = core_type p).
Proof.
  intros He Ht En Hp Hsc. destruct (existing_column g0 existing target_schema changes M e p He Hp) as (t0 & k & s & E0 & Ek & Es & Hread).
  destruct (first_old e t0 E0) as (t1 & E1 & Es1). exists t1, k, (fold_left (pre_step (os_name e) k) changes s).
  split; [done|]. split; [done|]. split.
  - rewrite Es1, lookup_app_l by (rewrite length_imap; by eapply lookup_lt_Some). by rewrite list_lookup_imap, Es.
  - intros q Eq El Ea. assert (storable p) as Hst by (apply (proj1 (Forall_forall _ _) (fc_stored _ (mg_file _ _ _ _ M e He)) p Hp)).
    rewrite (fold_filter _ (concerns (os_name e) (Z.of_nat k))) by (intros; by apply pre_step_other).
    apply (adapting_types e p k Hst Ek q); [done|done| |by apply (original_type p k s Hst Hread)].
    intros sc' Hsc'. rewrite (concerns_perm g0 existing target_schema changes M) in Hsc'. rewrite <- Eq.
    unfold plan in Hsc'. rewrite (class_named_in existing e) in Hsc' by (done || apply M). rewrite En in Hsc'.
    rewrite (class_named_in target_schema t) in Hsc' by (done || apply M). rewrite <- Ek in Hsc'.
    by rewrite (column_property_in existing (mg_file _ _ _ _ M) e p He Hp) in Hsc'.
Qed.

Lemma removed_none x l : Forall (fun sc => is_not_remove_property sc = true) l -> removed x l = [].
Proof. induction 1 as [|sc l Hsc Hl IH]; [done|]. cbn. by destruct sc. Qed.

Lemma post_index (done post : list SchemaChange) (g : G) (sc : SchemaChange) (b : bool) (e : ObjectSchema) (p : Property) :
  changes = done ++ sc :: post -> post_inv done g ->
  sc = (if b then AddIndex e p else RemoveIndex e p) -> Forall (fun sc => is_not_remove_property sc = true) done ->
  exists g', apply_index g sc = Ok g' /\ post_inv (done ++ [sc]) g'.
Proof.
  intros Ech Hinv Esc Hkept.
  assert (exists t, e ∈ existing /\ t ∈ target_schema /\ os_name e = os_name t /\ p ∈ persisted_properties e /\
    sc ∈ compare_property e t p) as (t & He & Ht & En & Hp & Hsc).
  { pose proof (changes_source g0 existing target_schema changes M sc (in_changes changes done sc post Ech)) as Hs.
    destruct b; subst sc; exact Hs. }
  destruct (index_column e t p sc He Ht En Hp Hsc) as (t1 & k & s1 & E1 & Ek & Es1 & Hty).
  destruct (po_table _ _ Hinv _ _ E1) as (tb & Etb & Esb). rewrite removed_none in Esb by done. cbn in Esb.
  assert (shapes tb !! k = Some (fold_left (post_step (os_name e) k) done s1)) as Ek'
    by (rewrite Esb, list_lookup_imap, Es1; done).
  assert (Z.to_nat (table_column p) = k) as Ezk by lia.
  pose proof (set_index_step g (os_name e) tb (table_column p) b (fold_left (post_step (os_name e) k) done s1) Etb) as Hstep.
  rewrite Ezk in Hstep. specialize (Hstep ltac:(lia) Ek').
  rewrite (alter_as_insert _ _ _ _ Ek') in Hstep.
  destruct Hstep as (t' & Hc & _ & Es').
  { intros ->. unfold shape_type. rewrite post_keeps_spec. subst sc. destruct (kept_property _ _ _ _ Hsc) as (q & Eq & Ec & Est & Ecp & Hin).
    destruct (target_property_found _ _ _ _ (mg_class _ _ _ _ M t Ht) Eq Ec) as [Hq _].
    destruct (index_value g0 existing target_schema changes M e p q t Ht Hq Est Hin) as (El & Ea & Hix).
    change (indexable_type (shape_type s1) = true). by rewrite (Hty q Ecp El Ea). }
  exists (if b then add_search_index g (table_name_for_object_type (os_name e)) (table_column p)
          else remove_search_index g (table_name_for_object_type (os_name e)) (table_column p)). split.
  - destruct b; subst sc; cbn [apply_index]; by rewrite (table_helper_Ok g e tb Etb).
  - eapply (post_inv_class done g sc (os_name e) t1 t'); [done| |done| |].
    + unfold about. destruct b; subst sc; cbn; by rewrite string_eqb_refl.
    + destruct b; exact Hc.
    + rewrite Es', removed_app, (removed_none _ done) by done. destruct b; subst sc; cbn; unfold deletes; cbn;
        rewrite Esb; symmetry; apply post_changed_column; try (by eapply lookup_lt_Some);
        try (cbn; by rewrite string_eqb_refl, Ek, Z.eqb_refl);
        intros s Hs; assert (s = s1) as -> by congruence; cbn; unfold at_column; by rewrite string_eqb_refl, Ek, Z.eqb_refl.
Qed.

(** ** Removals *)
Hypothesis Order : exists kept removals initial, ordered changes kept removals initial.

Lemma plan_property e t p : e ∈ existing -> t ∈ target_schema -> os_name e = os_name t -> p ∈ persisted_properties e ->
  plan existing target_schema (os_name e) (table_column p) = compare_property e t p.
Proof.
  intros He Ht En Hp. unfold plan. rewrite (class_named_in existing e) by (done || apply M). rewrite En.
  rewrite (class_named_in target_schema t) by (done || apply M).
  by rewrite (column_property_in existing (mg_file _ _ _ _ M) e p He Hp).
Qed.

Lemma removal_alone e t p : RemoveProperty e p ∈ compare_property e t p -> compare_property e t p = [RemoveProperty e p].
Proof.
  unfold compare_property. destruct (property_for_name t (prop_name p)) as [q|]; [|done].
  destruct (property_is_computed t q); [done|]. destruct (negb (same_type p q)); [by intros ?%list_elem_of_singleton|].
  unfold compare_nullability, compare_index.
  destruct (Bool.eqb _ _), (is_nullable (prop_type p)), (requires_index q), (negb (is_indexed p)), (requires_index p);
    cbn [app]; rewrite ?elem_of_cons, ?elem_of_nil; intuition discriminate.
Qed.

(** A removal is the only change of its column. *)
Lemma removal_plan (done post : list SchemaChange) e p : changes = done ++ RemoveProperty e p :: post ->
  List.filter (concerns (os_name e) (table_column p)) done = [].
Proof.
  intros Ech. destruct (changes_source g0 existing target_schema changes M _ (in_changes changes done _ post Ech))
    as (t & He & Ht & En & Hp & Hsc).
  pose proof (concerns_perm g0 existing target_schema changes M (os_name e) (table_column p)) as Hperm.
  rewrite (plan_property e t p), (removal_alone e t p Hsc), Ech, List.filter_app in Hperm by done.
  cbn in Hperm. rewrite string_eqb_refl, Z.eqb_refl in Hperm. cbn in Hperm.
  apply Permutation_length in Hperm. rewrite length_app in Hperm. cbn in Hperm. apply length_zero_iff_nil. lia.
Qed.

Lemma removals_before (done post : list SchemaChange) e p r : changes = done ++ RemoveProperty e p :: post -> r ∈ done ->
  is_not_remove_property r = false -> table_column p <= removed_column r.
Proof.
  destruct Order as (k & rm & ini & [Es Hk Hr Hs Hi]). intros Ech Hin Hr'.
  pose (f := fun sc => negb (is_not_remove_property sc)).
  assert (rm = List.filter f changes) as Erm.
  { rewrite Es, !List.filter_app. rewrite (filter_none f k), (filter_all f rm), (filter_none f ini), app_nil_r; [done|..]; intros sc Hsc; unfold f.
    - pose proof (proj1 (Forall_forall _ _) Hi _ Hsc) as E. by destruct sc.
    - by rewrite (proj1 (Forall_forall _ _) Hr _ Hsc).
    - by rewrite (proj1 (Forall_forall _ _) Hk _ Hsc). }
  apply Sorted.Sorted_StronglySorted in Hs; [|intros a b c; unfold column_ge; lia].
  rewrite Erm, Ech, List.filter_app in Hs. apply StronglySorted_app in Hs as (Hs & _ & _).
  apply (Hs r (RemoveProperty e p)); [|by left].
  apply list_elem_of_In, List.filter_In. split; [by apply list_elem_of_In|]. unfold f. by rewrite Hr'.
Qed.

Lemma removed_elem x l c : c ∈ removed x l ->
  exists o p, RemoveProperty o p ∈ l /\ os_name o = x /\ c = Z.to_nat (table_column p).
Proof.
  unfold removed. rewrite list_elem_of_omap. intros (sc & Hsc & E). destruct sc as [| | | |o p| | | | | |]; try done.
  cbn in E. destruct (string_eqb _ _) eqn:En; [|done]. apply string_eqb_eq in En. exists o, p. by injection E as <-.
Qed.

Lemma removed_above (done post : list SchemaChange) e p : changes = done ++ RemoveProperty e p :: post ->
  Forall (fun c => Z.to_nat (table_column p) < c)%nat (removed (os_name e) done).
Proof.
  intros Ech. apply Forall_forall. intros c (o & q & Hin & En & ->)%removed_elem.
  pose proof (removals_before done post e p _ Ech Hin eq_refl) as Hge. cbn in Hge.
  assert (table_column q <> table_column p) as Hne.
  { intros Eq. pose proof (removal_plan done post e p Ech) as Hn.
    assert (RemoveProperty o q ∈ List.filter (concerns (os_name e) (table_column p)) done) as Hf; [|rewrite Hn in Hf; by apply elem_of_nil in Hf].
    apply list_elem_of_In, List.filter_In. split; [by apply list_elem_of_In|]. cbn. by rewrite En, string_eqb_refl, Eq, Z.eqb_refl. }
  assert (forall o q, RemoveProperty o q ∈ changes -> 0 <= table_column q) as Hpos.
  { intros o' q' Hin'. destruct (changes_source g0 existing target_schema changes M _ Hin') as (t & He & _ & _ & Hp & _).
    destruct (existing_column g0 existing target_schema changes M o' q' He Hp) as (? & k & ? & _ & -> & _). lia. }
  assert (0 <= table_column p) by (apply (Hpos e); rewrite Ech; apply elem_of_app; right; by left). lia.
Qed.

Lemma removed_sorted x (done post : list SchemaChange) : changes = done ++ post ->
  Sorted.StronglySorted (fun a b => b < a)%nat (removed x done).
Proof.
  revert post. induction done as [|sc done IH] using rev_ind; intros post Ech; [constructor|].
  rewrite <- app_assoc in Ech. cbn in Ech. rewrite removed_app. specialize (IH _ Ech).
  destruct (removed_column_of x sc) as [c|] eqn:E; cbn; rewrite E; [|by rewrite app_nil_r].
  destruct sc as [| | | |e p| | | | | |]; try done. cbn in E. destruct (string_eqb (os_name e) x) eqn:En; [|done].
  apply string_eqb_eq in En as <-. injection E as <-. apply StronglySorted_app. split; [|split; [done|repeat constructor]].
  intros a b Ha ->%list_elem_of_singleton. by apply (proj1 (Forall_forall _ _) (removed_above done post e p Ech)).
Qed.

Lemma post_remove (done post : list SchemaChange) g e p : changes = done ++ RemoveProperty e p :: post -> post_inv done g ->
  exists g', post_migration_applier [] false g (RemoveProperty e p) = Ok g' /\ post_inv (done ++ [RemoveProperty e p]) g'.
Proof.
  intros Ech Hinv. destruct (changes_source g0 existing target_schema changes M _ (in_changes changes done _ post Ech))
    as (t & He & Ht & En & Hp & Hsc).
  destruct (index_column e t p _ He Ht En Hp Hsc) as (t1 & k & s1 & E1 & Ek & Es1 & _).
  destruct (po_table _ _ Hinv _ _ E1) as (tb & Etb & Esb).
  assert (Z.to_nat (table_column p) = k) as Ezk by lia.
  pose proof (removed_above done post e p Ech) as Habove. rewrite Ezk in Habove.
  assert (in_columns (table_column p) tb) as Hin.
  { split; [lia|]. rewrite <- (shapes_length tb), Ek. apply inj_lt, lookup_lt_is_Some_1. rewrite Esb, deletes_lookup by done.
    by rewrite list_lookup_imap, Es1. }
  destruct (remove_column_step g (os_name e) tb _ Etb Hin) as (t' & Hc & Es'). rewrite Ezk in Es'.
  eexists. split; [cbn [post_migration_applier renamed_away]; cbn [mbind Result_bind]; by rewrite (table_helper_Ok g e tb Etb)|].
  eapply (post_inv_class done g _ (os_name e) t1 t'); [done|unfold about; cbn; by rewrite string_eqb_refl|done|exact Hc|].
  rewrite Es', Esb, removed_app. cbn. rewrite string_eqb_refl, Ezk. unfold deletes. rewrite fold_left_app. cbn.
  f_equal. f_equal. apply imap_same. intros i s _. by rewrite fold_left_app.
Qed.
End second.
