(* ===== verification/MigrationResult.v ===== *)
(** * What a migration makes of the tables

    After both passes every column of a class table is hidden or agrees with a
    property of the target class, and every property of the target has a
    column: reading the schema back and comparing it finds no difference. *)
From S2P Require Import Prelude.
From S2P Require Import SchemaTypes.
From S2P Require Import Schemas.
From S2P Require Import SchemaValidation.
From S2P Require Import SchemaDiff.
From S2P Require Import SchemaTheorems.
From S2P Require Import CoreTables.
From S2P Require Import ObjectStore.
From S2P Require Import StoreChanges.
From S2P Require Import StoreFacts.
From S2P Require Import SchemaReading.
From S2P Require Import StoreMetadata.
From S2P Require Import MigrationPlan.
From S2P Require Import MigrationSteps.
From S2P Require Import MigrationRun.
From S2P Require Import MigrationSecond.

(** ** Columns at other positions *)
Lemma read_shape_at s i j o : read_shape s i = Ok o -> read_shape s j = Ok (set_table_column (Z.of_nat j) <$> o).
Proof.
  unfold read_shape, property_for_column. destruct (string_eqb _ _); [by intros [= <-]|].
  destruct (match col_type _ with type_Table => _ | _ => _ end); [by intros [= <-]|].
  destruct (from_core_type _) as [ty| |]; [|done..]. cbn [mbind Result_bind]. by intros [= <-].
Qed.

Lemma column_agrees_at t s i j q : column_agrees t s i q -> column_agrees t s j q.
Proof.
  intros [Ef Ec (p & Er & Hp)]. constructor; [done..|]. exists (set_table_column (Z.of_nat j) p).
  split; [by rewrite (read_shape_at s i j _ Er)|done].
Qed.

(** Hidden, or the column of a property of the target. *)
Definition settled (t : ObjectSchema) (s : Shape) (i : nat) : Prop :=
  read_shape s i = Ok None \/ exists q, column_agrees t s i q.

Lemma settled_at t s i j : settled t s i -> settled t s j.
Proof.
  intros [E|[q Hq]]; [left; by rewrite (read_shape_at s i j _ E)|right]. exists q. by eapply column_agrees_at.
Qed.

Lemma hidden_read s i : spec_name s.1.1 = object_id_column_name -> read_shape s i = Ok None.
Proof. intros E. unfold read_shape, property_for_column, col_name, shape_column. cbn. by rewrite E, string_eqb_refl. Qed.

(** ** Reading a settled table *)
Section reading.
Context {G : Type} `{CoreLaws G}.

Record settled_table (t : ObjectSchema) (l : list Shape) : Prop := {
  se_columns s : s ∈ l -> settled t s 0;
  se_all q : q ∈ persisted_properties t -> exists s, s ∈ l /\ column_agrees t s 0 q
}.

Lemma settled_table_reads target_schema (g : G) t tb : target_class target_schema t ->
  get_primary_key_for_object g (os_name t) = primary_key t -> settled_table t (shapes tb) ->
  exists o, ObjectSchema_from_table g (os_name t) (Some tb) = Ok o /\ agrees o t.
Proof.
  intros Ht Hkey [Hcol Hall].
  destruct (table_properties_Ok (columns tb) 0) as [props Ep].
  { intros k c Hc. unfold readable. rewrite read_shape_column.
    assert (shape c ∈ shapes tb) as Hin by (by apply list_elem_of_fmap_2, list_elem_of_lookup_2 with k).
    destruct (Hcol _ Hin) as [E|(q & [_ _ (p & E & _)])]; rewrite (read_shape_at _ 0 _ _ E); by eexists. }
  unfold ObjectSchema_from_table. rewrite Ep. cbn [mbind Result_bind]. eexists. split; [done|]. rewrite Hkey.
  pose proof (primary_flags (os_name t) props (primary_key t)) as (_ & Ek & _ & Hf). set (o := set_primary_key_property _) in *.
  constructor; [done| |].
  - intros p Hp. apply list_elem_of_lookup in Hp as [j Hj].
    destruct (Forall2_lookup_r _ _ _ _ _ Hf Hj) as (p0 & Hp0 & Hk). apply list_elem_of_lookup_2 in Hp0.
    apply (table_properties_elem _ _ _ _ Ep) in Hp0 as (k & c & Hc & Hread). cbn in Hread. rewrite read_shape_column in Hread.
    assert (shape c ∈ shapes tb) as Hin by (by apply list_elem_of_fmap_2, list_elem_of_lookup_2 with k).
    destruct (Hcol _ Hin) as [E|(q & Hq)]; [by rewrite (read_shape_at _ 0 k _ E) in Hread|].
    apply (column_agrees_at _ _ 0 k) in Hq. destruct Hq as [Ef Ec (p1 & E1 & En & Eb & Ea & Eu & Eo & Ei)].
    assert (p1 = p0) as -> by congruence. destruct (keyed_as_props _ _ _ Hk) as (E2 & E3 & E4 & E5 & _).
    exists q. constructor; try congruence. unfold index_agrees.
    destruct (target_property_found _ _ _ _ Ht Ef Ec) as [Hq _].
    destruct (requires_index q) eqn:Er; [congruence|]. unfold requires_index. rewrite E5, Ei, orb_false_r.
    destruct Hk as [->|(-> & Epk & Hne)].
    + rewrite <- read_shape_column in Hread. by apply property_for_column_props in Hread as (_ & _ & -> & _).
    + assert (is_primary q = true) as Hpr by (apply (tc_primary _ _ Ht); [done|congruence]).
      unfold requires_index in Er. by rewrite Hpr in Er.
  - intros q Hq. destruct (Hall q Hq) as (s & Hs & [_ _ (p & Er & En & _)]). apply property_for_name_is_Some. left.
    apply list_elem_of_lookup in Hs as [j Hj]. apply shapes_lookup in Hj as (c & Hc & <-).
    apply (read_shape_at _ 0 j) in Er. cbn in Er. rewrite <- read_shape_column in Er.
    assert (set_table_column (Z.of_nat j) p ∈ props) as Hin by (apply (table_properties_elem _ _ _ _ Ep); by exists j, c).
    apply list_elem_of_lookup in Hin as [k Hk]. destruct (Forall2_lookup_l _ _ _ _ _ Hf Hk) as (p' & Hp' & Hkey').
    destruct (keyed_as_props _ _ _ Hkey') as (E & _). rewrite <- En. change (prop_name p) with (prop_name (set_table_column (Z.of_nat j) p)).
    rewrite <- E. by eapply list_elem_of_fmap_2, list_elem_of_lookup_2.
Qed.
End reading.

Section result.
Context {G : Type} `{CoreLaws G} {CS : CharSign} {HSort : StdSort} {HPart : StdPartition}.
Variables (g0 : G) (existing target_schema : Schema) (changes : list SchemaChange).
Hypothesis M : migration g0 existing target_schema changes.
Variable g1 : G.
Hypothesis First : pre_inv g0 target_schema changes g1.
Hypothesis Order : exists kept removals initial, ordered changes kept removals initial.

(** ** Both passes on one column *)
Lemma both_passes x i s : fold_left (post_step x i) changes (fold_left (pre_step x i) changes s) =
  after_plan x i (List.filter (concerns x (Z.of_nat i)) changes) s.
Proof.
  unfold after_plan. rewrite (fold_filter (post_step x i) (concerns x (Z.of_nat i))) by (intros; by apply post_step_other).
  by rewrite (fold_filter (pre_step x i) (concerns x (Z.of_nat i))) by (intros; by apply pre_step_other).
Qed.

Lemma no_concern x i : plan existing target_schema x i = [] -> List.filter (concerns x i) changes = [].
Proof.
  intros E. pose proof (concerns_perm g0 existing target_schema changes M x i) as Hp. rewrite E in Hp.
  by apply Permutation_nil_r in Hp.
Qed.

Lemma untouched x i s : plan existing target_schema x (Z.of_nat i) = [] ->
  fold_left (post_step x i) changes s = s /\ fold_left (pre_step x i) changes s = s.
Proof.
  intros E%no_concern. rewrite (fold_filter (post_step x i) (concerns x (Z.of_nat i))) by (intros; by apply post_step_other).
  rewrite (fold_filter (pre_step x i) (concerns x (Z.of_nat i))) by (intros; by apply pre_step_other). by rewrite E.
Qed.

Lemma removed_concerns x i : i ∈ removed x changes -> exists o p, RemoveProperty o p ∈ List.filter (concerns x (Z.of_nat i)) changes.
Proof.
  intros (o & p & Hin & <- & ->)%removed_elem. exists o, p. apply list_elem_of_In, List.filter_In.
  split; [by apply list_elem_of_In|]. cbn. rewrite string_eqb_refl. apply Z.eqb_eq.
  destruct (changes_source g0 existing target_schema changes M _ Hin) as (t & He & _ & _ & Hp & _).
  destruct (existing_column g0 existing target_schema changes M o p He Hp) as (? & k & ? & _ & -> & _). lia.
Qed.

Lemma unplanned_kept x i : plan existing target_schema x (Z.of_nat i) = [] -> i ∉ removed x changes.
Proof.
  intros E%no_concern (o & p & Hin)%removed_concerns. rewrite E in Hin. by apply elem_of_nil in Hin.
Qed.

(** A property the target stores is not removed. *)
Lemma not_removed e t p q o p' : property_for_name t (prop_name p) = Some q -> property_is_computed t q = false ->
  RemoveProperty o p' ∉ compare_property e t p.
Proof.
  unfold compare_property. intros -> -> Hin. destruct (negb (same_type p q)); [by apply list_elem_of_singleton in Hin|].
  unfold compare_nullability, compare_index in Hin.
  destruct (Bool.eqb _ _), (is_nullable (prop_type p)), (requires_index q), (negb (is_indexed p)), (requires_index p);
    cbn [app] in Hin; rewrite ?elem_of_cons, ?elem_of_nil in Hin; intuition discriminate.
Qed.

Section class.
Variables e t : ObjectSchema.
Hypotheses (He : e ∈ existing) (Ht : t ∈ target_schema) (En : os_name e = os_name t).
Let x := os_name e.

Lemma column_of_property p i : column_property e i = Some p -> List.filter (concerns x i) changes ≡ₚ compare_property e t p.
Proof.
  intros E%column_property_Some. destruct E as [Hp <-]. rewrite (concerns_perm g0 existing target_schema changes M).
  unfold x. by rewrite (plan_property g0 existing target_schema changes M e t p).
Qed.

(** The column of a property of the file. *)
Lemma property_column p k s : column_property e (Z.of_nat k) = Some p ->
  (exists p0 key, read_shape s k = Ok (Some p0) /\ keyed_as key p0 p) ->
  (k ∈ removed x changes) \/
  ((k ∉ removed x changes) /\ exists q,
    column_agrees t (fold_left (post_step x k) changes (fold_left (pre_step x k) changes s)) k q /\ prop_name q = prop_name p).
Proof.
  intros Ep Hread. pose proof (column_of_property _ _ Ep) as Hperm. apply column_property_Some in Ep as [Hp Ek].
  assert (storable p) as Hst by (apply (proj1 (Forall_forall _ _) (fc_stored _ (mg_file _ _ _ _ M e He)) p Hp)).
  rewrite both_passes. destruct (planned_column target_schema e t p k s (mg_class _ _ _ _ M t Ht) Hst Ek Hread _ Hperm)
    as [E|(q & Hq & Eq)].
  - left. assert (RemoveProperty e p ∈ List.filter (concerns x (Z.of_nat k)) changes) as Hin by (rewrite E; by left).
    apply list_elem_of_In, List.filter_In in Hin as [Hin _]. apply list_elem_of_In in Hin. unfold removed.
    apply list_elem_of_omap. exists (RemoveProperty e p). split; [done|]. cbn. unfold x. rewrite string_eqb_refl. f_equal. lia.
  - right. split; [|by exists q]. intros (o & p' & Hin)%removed_concerns. rewrite Hperm in Hin.
    destruct Hq as [Ef Ec _]. rewrite Eq in Ef. by apply (not_removed e t p q o p') in Hin.
Qed.

(** What the file says about the columns of the class. *)
Lemma class_table : exists t0 props, table_for_object_type g0 x = Some t0 /\ table_properties (columns t0) 0 = Ok props /\
  Forall2 (keyed_as (get_primary_key_for_object g0 x)) props (persisted_properties e) /\
  get_primary_key_for_object g0 x = primary_key e.
Proof.
  destruct (existing_table g0 existing target_schema changes M e He) as [t0 E0].
  assert (x <> EmptyString) as Hne.
  { intros Ex. pose proof (existing_named g0 existing target_schema changes M e He) as Ee. fold x in Ee.
    by rewrite Ex, (mg_nonempty _ _ _ _ M) in Ee. }
  pose proof (mg_read _ _ _ _ M x Hne) as Hr. fold x in E0. rewrite E0 in Hr. destruct Hr as (e' & Er & Ee').
  pose proof (existing_named g0 existing target_schema changes M e He) as Ee. fold x in Ee.
  assert (e' = e) as -> by congruence. exists t0.
  unfold ObjectSchema_from_table in Er. destruct (table_properties (columns t0) 0) as [props| |]; [|done..].
  exists props. cbn [mbind Result_bind] in Er. injection Er as Er.
  pose proof (primary_flags x props (get_primary_key_for_object g0 x)) as (_ & Ek & _ & Hf). rewrite Er in Hf, Ek. done.
Qed.

Lemma hidden_column t0 k s : table_for_object_type g0 x = Some t0 -> shapes t0 !! k = Some s ->
  match column_property e (Z.of_nat k) with
  | Some p => exists p0 key, read_shape s k = Ok (Some p0) /\ keyed_as key p0 p
  | None => read_shape s k = Ok None
  end.
Proof.
  intros E0 (c & Hc & <-)%shapes_lookup. destruct class_table as (t0' & props & E0' & Ep & Hf & _).
  assert (t0' = t0) as -> by congruence. destruct (table_properties_readable _ _ _ _ _ Ep Hc) as [o Eo]. cbn in Eo.
  destruct (column_property e (Z.of_nat k)) as [p|] eqn:Ec.
  - apply column_property_Some in Ec as [Hp Ek]. apply list_elem_of_lookup in Hp as [j Hj].
    destruct (Forall2_lookup_r _ _ _ _ _ Hf Hj) as (p0 & Hp0 & Hk). apply list_elem_of_lookup_2 in Hp0.
    apply (table_properties_elem _ _ _ _ Ep) in Hp0 as (k' & c' & Hc' & Hread). cbn in Hread.
    pose proof (property_for_column_props _ _ _ Hread) as (_ & Ecol & _). destruct (keyed_as_props _ _ _ Hk) as (_ & _ & _ & _ & Ecol' & _).
    assert (k' = k) as -> by lia. assert (c' = c) as -> by congruence. exists p0, (get_primary_key_for_object g0 x).
    by rewrite <- read_shape_column.
  - rewrite <- read_shape_column, Eo. destruct o as [p0|]; [|done]. exfalso.
    assert (p0 ∈ props) as Hp0 by (apply (table_properties_elem _ _ _ _ Ep); by exists k, c).
    apply list_elem_of_lookup in Hp0 as [j Hj]. destruct (Forall2_lookup_l _ _ _ _ _ Hf Hj) as (p & Hp & Hk).
    apply list_elem_of_lookup_2 in Hp. destruct (keyed_as_props _ _ _ Hk) as (_ & _ & _ & _ & Ecol' & _).
    pose proof (property_for_column_props _ _ _ Eo) as (_ & Ecol & _).
    pose proof (column_property_in existing (mg_file _ _ _ _ M) e p He Hp) as Hin. by rewrite Ecol', Ecol, Ec in Hin.
Qed.

(** The columns added at the end. *)
Lemma added_column s : s ∈ flat_map (added_shape x) changes <->
  exists q, q ∈ persisted_properties t /\ property_for_name e (prop_name q) = None /\ s = property_shape q.
Proof.
  rewrite list_elem_of_In, in_flat_map. split.
  - intros (sc & Hin & Hs). apply list_elem_of_In in Hin. destruct sc as [| | |o q| | | | | | |]; try done. cbn in Hs.
    destruct (string_eqb (os_name o) x) eqn:Eo; [|done]. apply string_eqb_eq in Eo. destruct Hs as [<-|[]].
    rewrite (mg_perm _ _ _ _ M) in Hin. unfold differences in Hin. rewrite app_nil_r in Hin.
    assert (AddProperty o q ∈ List.filter (about x) (differences existing target_schema false)) as Hf.
    { apply list_elem_of_In, List.filter_In. split.
      - apply list_elem_of_In. unfold differences. by rewrite app_nil_r.
      - unfold about. cbn. by apply string_eqb_eq. }
    rewrite (about_differences existing target_schema (mg_target _ _ _ _ M)) in Hf. unfold x in Hf. rewrite En in Hf.
    rewrite (class_named_in target_schema t) in Hf by (done || apply M). unfold class_differences in Hf.
    rewrite <- En, (class_named_in existing e) in Hf by (done || apply M). unfold object_changes in Hf.
    rewrite !elem_of_app in Hf. destruct Hf as [Hf|[Hf|Hf]].
    + apply list_elem_of_In, in_flat_map in Hf as (p & _ & Hp). apply list_elem_of_In in Hp.
      by apply compare_property_shape in Hp.
    + unfold compare_key in Hf. destruct (string_eqb _ _); [by apply elem_of_nil in Hf|by apply list_elem_of_singleton in Hf].
    + apply list_elem_of_In, in_flat_map in Hf as (q' & Hq & Hs). apply list_elem_of_In in Hq. unfold added_property in Hs.
      destruct (property_for_name e (prop_name q')) eqn:Ef; [done|]. destruct Hs as [[= -> ->]|[]]. by exists q.
  - intros (q & Hq & Ef & ->). exists (AddProperty e q). split.
    + apply list_elem_of_In. rewrite (mg_perm _ _ _ _ M). unfold differences. rewrite app_nil_r.
      apply list_elem_of_In, in_flat_map. exists t. split; [by apply list_elem_of_In|]. unfold class_differences.
      rewrite <- En, (class_named_in existing e) by (done || apply M). apply list_elem_of_In. unfold object_changes.
      rewrite !elem_of_app. right. right. apply list_elem_of_In, in_flat_map. exists q. split; [by apply list_elem_of_In|].
      unfold added_property. rewrite Ef. by left.
    + cbn. unfold x. rewrite string_eqb_refl. by left.
Qed.

Lemma property_shape_agrees q i : q ∈ persisted_properties t -> column_agrees t (property_shape q) i q.
Proof.
  intros Hq. apply (index_shape_agrees target_schema); [by apply M|done|]. apply column_index_requires.
  by apply (storable_target g0 existing target_schema changes M t).
Qed.

(** Positions beyond the old columns are not planned. *)
Lemma plan_new t0 i : table_for_object_type g0 x = Some t0 -> (length (shapes t0) <= i)%nat ->
  plan existing target_schema x (Z.of_nat i) = [].
Proof.
  intros E0 Hi. unfold plan. unfold x. rewrite (class_named_in existing e) by (done || apply M).
  destruct (class_named target_schema (os_name e)); [|done]. destruct (column_property e (Z.of_nat i)) as [p|] eqn:Ep; [|done].
  apply column_property_Some in Ep as [Hp Ek].
  destruct (existing_column g0 existing target_schema changes M e p He Hp) as (t0' & k & s & E0' & Ek' & Es & _).
  fold x in E0'. assert (t0' = t0) as -> by congruence. apply lookup_lt_Some in Es. lia.
Qed.

Lemma existing_settled t1 : table_for_object_type g1 x = Some t1 ->
  settled_table t (deletes (removed x changes) (imap (fun i s => fold_left (post_step x i) changes s) (shapes t1))).
Proof.
  intros E1. destruct class_table as (t0 & _ & E0 & _).
  destruct (first_old g0 target_schema changes g1 First e t0 E0) as (t1' & E1' & Es). fold x in E1', Es.
  assert (t1' = t1) as -> by congruence.
  assert (Sorted.StronglySorted (fun a b => b < a)%nat (removed x changes)) as Hsort
    by (apply (removed_sorted g0 existing target_schema changes M Order x changes []); by rewrite app_nil_r).
  constructor.
  - intros s (i & Hi & Hn)%deletes_elem; [|done]. apply (settled_at _ _ i).
    rewrite list_lookup_imap, fmap_Some in Hi. destruct Hi as (s1 & Hs1 & ->). rewrite Es in Hs1.
    apply lookup_app_Some in Hs1 as [Hs1|[Hlen Hs1]].
    + rewrite list_lookup_imap, fmap_Some in Hs1. destruct Hs1 as (s0 & Hs0 & ->).
      pose proof (hidden_column t0 i s0 E0 Hs0) as Hh. destruct (column_property e (Z.of_nat i)) as [p|] eqn:Ep.
      * destruct (property_column p i s0 Ep Hh) as [?|(_ & q & Hq & _)]; [done|]. right. by exists q.
      * left. assert (plan existing target_schema x (Z.of_nat i) = []) as Hplan.
        { unfold plan, x. rewrite (class_named_in existing e) by (done || apply M).
          by destruct (class_named target_schema (os_name e)); rewrite ?Ep. }
        by destruct (untouched x i s0 Hplan) as [H2 H1]; rewrite H1, H2.
    + rewrite length_imap in Hlen. destruct (untouched x i s1 (plan_new t0 i E0 Hlen)) as [-> _].
      apply list_elem_of_lookup_2, added_column in Hs1 as (q & Hq & _ & ->). right. exists q. by apply property_shape_agrees.
  - intros q Hq. destruct (target_property_unique _ _ _ (mg_class _ _ _ _ M t Ht) Hq) as [Ef Ec].
    enough (exists i s, shapes t1 !! i = Some s /\ (i ∉ removed x changes) /\ column_agrees t (fold_left (post_step x i) changes s) i q)
      as (i & s & Hi & Hn & Ha).
    { exists (fold_left (post_step x i) changes s). split; [|by eapply column_agrees_at]. apply deletes_elem; [done|].
      exists i. split; [|done]. by rewrite list_lookup_imap, Hi. }
    rewrite Es. destruct (property_for_name e (prop_name q)) as [p|] eqn:Ep.
    + apply property_for_name_Some in Ep as [Hp En']. rewrite (fc_computed _ (mg_file _ _ _ _ M e He)), app_nil_r in Hp.
      destruct (existing_column g0 existing target_schema changes M e p He Hp) as (t0' & k & s & E0' & Ek & Hs & Hread).
      fold x in E0'. assert (t0' = t0) as -> by congruence.
      pose proof (column_property_in existing (mg_file _ _ _ _ M) e p He Hp) as Hcol. rewrite Ek in Hcol.
      destruct (property_column p k s Hcol Hread) as [(o & p' & Hin)%removed_concerns|(Hn & q' & Ha & Eq)].
      * rewrite (column_of_property p _ Hcol) in Hin. destruct (not_removed e t p q o p'); [by rewrite En'|done..].
      * exists k, (fold_left (pre_step x k) changes s). split; [|split; [done|]].
        -- rewrite lookup_app_l by (rewrite length_imap; by eapply lookup_lt_Some). by rewrite list_lookup_imap, Hs.
        -- assert (q' = q) as -> by (destruct Ha as [Ha _ _]; congruence). done.
    + assert (property_shape q ∈ flat_map (added_shape x) changes) as Hin by (apply added_column; by exists q).
      apply list_elem_of_lookup in Hin as [j Hj]. set (i := (length (shapes t0) + j)%nat).
      assert (plan existing target_schema x (Z.of_nat i) = []) as Hplan by (apply (plan_new t0); [done|lia]).
      exists i, (property_shape q). split; [|split; [by apply unplanned_kept|]].
      * rewrite lookup_app_r, length_imap by (rewrite length_imap; lia). rewrite <- Hj. f_equal. lia.
      * destruct (untouched x i (property_shape q) Hplan) as [-> _]. by apply property_shape_agrees.
Qed.
End class.

(** ** A class that is new *)
Section new_class.
Variable t : ObjectSchema.
Hypotheses (Ht : t ∈ target_schema) (Hnew : class_named existing (os_name t) = None).
Let x := os_name t.

Lemma new_plan i : plan existing target_schema x i = [].
Proof. unfold plan, x. by rewrite Hnew. Qed.

Lemma new_removed : removed x changes = [].
Proof.
  destruct (removed x changes) as [|c l] eqn:E; [done|].
  assert (c ∈ removed x changes) as (o & p & Hin)%removed_concerns by (rewrite E; by left).
  rewrite (no_concern x _ (new_plan _)) in Hin. by apply elem_of_nil in Hin.
Qed.

Lemma key_shapes_elem s : s ∈ key_shapes t -> exists q, q ∈ persisted_properties t /\ s = property_shape q.
Proof.
  pose proof (mg_class _ _ _ _ M t Ht) as Htc. unfold key_shapes. destruct (decide (primary_key t = EmptyString)) as [Ek|Ek].
  - rewrite (no_key_property target_schema t Htc Ek). by intros ?%elem_of_nil.
  - destruct (key_property target_schema t Htc Ek) as (p & -> & Hp & _). intros ->%list_elem_of_singleton. by exists p.
Qed.

Lemma new_settled t1 : table_for_object_type g1 x = Some t1 ->
  settled_table t (deletes (removed x changes) (imap (fun i s => fold_left (post_step x i) changes s) (shapes t1))).
Proof.
  intros E1. destruct (first_new g0 existing target_schema changes M g1 First t Ht Hnew) as (t1' & ids & E1' & Hids & Es).
  fold x in E1'. assert (t1' = t1) as -> by congruence. rewrite new_removed. unfold deletes. cbn [fold_left].
  assert (imap (fun i s => fold_left (post_step x i) changes s) (shapes t1) = shapes t1) as ->.
  { apply list_eq. intros i. rewrite list_lookup_imap. destruct (shapes t1 !! i) as [s|]; [|done]. cbn. f_equal.
    by apply untouched, new_plan. }
  rewrite Es. constructor.
  - intros s [Hs|[Hs|Hs]%elem_of_app]%elem_of_app.
    + left. by apply hidden_read, (proj1 (Forall_forall _ _) Hids).
    + apply key_shapes_elem in Hs as (q & Hq & ->). right. exists q. by apply property_shape_agrees.
    + apply list_elem_of_fmap in Hs as (q & -> & Hq). apply list_elem_of_In, List.filter_In in Hq as [Hq _].
      apply list_elem_of_In in Hq. right. exists q. by apply property_shape_agrees.
  - intros q Hq. exists (property_shape q). split; [|by apply property_shape_agrees].
    pose proof (mg_class _ _ _ _ M t Ht) as Htc. rewrite !elem_of_app. right. destruct (is_primary q) eqn:Epr.
    + left. pose proof (proj1 (tc_primary _ _ Htc q Hq) Epr) as Enq. unfold key_shapes, primary_key_property.
      destruct (target_property_unique _ _ _ Htc Hq) as [Ef _]. rewrite <- Enq, Ef. by left.
    + right. apply list_elem_of_fmap_2, list_elem_of_In, List.filter_In. split; [by apply list_elem_of_In|by rewrite Epr].
Qed.
End new_class.

(** ** Keys *)
Definition sets_key (x : string) (sc : SchemaChange) : bool :=
  match sc with AddTable o | ChangePrimaryKey o _ => string_eqb (os_name o) x | _ => false end.

Lemma sets_key_differences t : List.filter (sets_key (os_name t)) (class_differences existing t) =
  match class_named existing (os_name t) with Some e => compare_key e t | None => [AddTable t] end.
Proof.
  unfold class_differences. destruct (class_named existing (os_name t)) as [e|] eqn:Ee; [|cbn; by rewrite string_eqb_refl].
  apply class_named_Some in Ee as [_ En]. unfold object_changes. rewrite !List.filter_app.
  rewrite (filter_none _ (flat_map (compare_property e t) _)), (filter_none _ (flat_map (added_property e) _)), app_nil_r.
  - unfold compare_key. destruct (string_eqb (primary_key e) _); [done|]. cbn. by rewrite En, string_eqb_refl.
  - intros sc Hsc. apply list_elem_of_In, in_flat_map in Hsc as (q & _ & Hs). unfold added_property in Hs.
    destruct (property_for_name _ _); [done|]. by destruct Hs as [<-|[]].
  - intros sc Hsc. apply list_elem_of_In, in_flat_map in Hsc as (p & _ & Hp). apply list_elem_of_In in Hp.
    apply compare_property_shape in Hp. by destruct sc.
Qed.

Lemma new_key t : t ∈ target_schema -> new_primary_key (primary_key_property t) = primary_key t.
Proof.
  intros Ht. pose proof (mg_class _ _ _ _ M t Ht) as Htc. destruct (decide (primary_key t = EmptyString)) as [Ek|Ek].
  - by rewrite (no_key_property target_schema t Htc Ek), Ek.
  - by destruct (key_property target_schema t Htc Ek) as (p & -> & _ & En & _).
Qed.

Lemma final_key t : t ∈ target_schema ->
  fold_left (key_step (os_name t)) changes (get_primary_key_for_object g0 (os_name t)) = primary_key t.
Proof.
  intros Ht. rewrite (fold_filter _ (sets_key (os_name t))).
  2:{ intros k sc Hsc. destruct sc; try done; cbn in *; by rewrite Hsc. }
  assert (List.filter (sets_key (os_name t)) changes ≡ₚ
    match class_named existing (os_name t) with Some e => compare_key e t | None => [AddTable t] end) as Hperm.
  { rewrite <- sets_key_differences, <- (filter_filter_sub (sets_key (os_name t)) (about (os_name t)));
      [|intros sc; unfold about; by destruct sc].
    apply filter_perm. rewrite (about_target g0 existing target_schema changes M), (class_named_in target_schema t); [done|apply M|done]. }
  destruct (class_named existing (os_name t)) as [e|] eqn:Ee.
  - apply class_named_Some in Ee as [He En]. destruct (class_table e He) as (_ & _ & _ & _ & _ & Ek). rewrite En in Ek.
    unfold compare_key in Hperm. destruct (string_eqb (primary_key e) (primary_key t)) eqn:E.
    + apply string_eqb_eq in E. apply Permutation_nil_r in Hperm. rewrite Hperm. cbn. congruence.
    + apply Permutation_sym, Permutation_length_1_inv in Hperm. rewrite Hperm. cbn. rewrite En, string_eqb_refl. by apply new_key.
  - apply Permutation_sym, Permutation_length_1_inv in Hperm. rewrite Hperm. cbn. by rewrite string_eqb_refl.
Qed.

(** ** The second pass *)
Lemma kept_before (done post : list SchemaChange) sc : changes = done ++ sc :: post ->
  is_not_remove_property sc = true -> is_initial sc = false -> Forall (fun sc => is_not_remove_property sc = true) done.
Proof.
  destruct Order as (k & rm & ini & [Es Hk Hr _ Hi]). intros Ech H1 H2. rewrite Ech in Es.
  apply app_eq_app in Es as [l [[-> El]|[-> El]]].
  - assert (sc ∈ rm ++ ini) as [Hsc|Hsc]%elem_of_app by (rewrite El; apply elem_of_app; right; by left).
    + pose proof (proj1 (Forall_forall _ _) Hr _ Hsc). cbv beta in *. congruence.
    + pose proof (proj1 (Forall_forall _ _) Hi _ Hsc). cbv beta in *. congruence.
  - by apply Forall_app in Hk as [? _].
Qed.

Lemma index_of_elem {A} (f : A -> bool) l y : y ∈ l -> f y = true -> exists r z, index_of f l = Some r /\ l !! r = Some z.
Proof.
  intros Hy Hf. destruct (index_of f l) as [r|] eqn:E.
  - apply index_of_Some in E as (z & Hz & _). by exists r, z.
  - pose proof (proj1 (index_of_None _ _) E y Hy). congruence.
Qed.

Lemma column_agrees_name t s i q : column_agrees t s i q -> spec_name s.1.1 = prop_name q.
Proof.
  intros [_ _ (p & Er & <- & _)]. unfold read_shape in Er. by apply property_for_column_props in Er as (-> & _).
Qed.

Lemma post_change_key (done post : list SchemaChange) e k g : changes = done ++ ChangePrimaryKey e k :: post ->
  post_inv g1 done g ->
  yields (post_migration_applier [] false g (ChangePrimaryKey e k)) (post_inv g1 (done ++ [ChangePrimaryKey e k])).
Proof.
  intros Ech Hinv. pose proof (post_inv_same g1 done g (ChangePrimaryKey e k) Hinv) as Hsame.
  destruct k as [p|]; [|by apply Hsame]. specialize (Hsame ltac:(done) ltac:(done)).
  destruct (changes_source g0 existing target_schema changes M _ (in_changes changes done _ post Ech)) as (t & He & Ht & En & Ek).
  pose proof (mg_class _ _ _ _ M t Ht) as Htc.
  assert (p ∈ persisted_properties t) as Hp.
  { destruct (decide (primary_key t = EmptyString)) as [E|E]; [by rewrite (no_key_property target_schema t Htc E) in Ek|].
    destruct (key_property target_schema t Htc E) as (p' & E' & Hp & _). congruence. }
  destruct (class_table e He) as (t0 & _ & E0 & _).
  destruct (first_old g0 target_schema changes g1 First e t0 E0) as (t1 & E1 & _).
  destruct (se_all _ _ (existing_settled e t He Ht En t1 E1) p Hp) as (s & Hs & Hname%column_agrees_name).
  apply deletes_elem in Hs as (i & Hi & _);
    [|apply (removed_sorted g0 existing target_schema changes M Order _ changes []); by rewrite app_nil_r].
  rewrite list_lookup_imap, fmap_Some in Hi. destruct Hi as (s1 & Hs1 & ->). rewrite post_keeps_spec in Hname.
  destruct (po_table _ _ _ Hinv _ _ E1) as (tb & Etb & Esb).
  rewrite (removed_none _ done) in Esb by by apply (kept_before done post (ChangePrimaryKey e (Some p))). cbn in Esb.
  assert (shapes tb !! i = Some (fold_left (post_step (os_name e) i) done s1)) as Hi by (by rewrite Esb, list_lookup_imap, Hs1).
  apply shapes_lookup in Hi as (c & Hc & Ec).
  cbn [post_migration_applier]. unfold validate_primary_column_uniqueness. rewrite Etb. unfold get_column_index.
  destruct (index_of_elem (fun c => string_eqb (col_name c) (prop_name p)) (columns tb) c) as (r & z & -> & Hz).
  { by eapply list_elem_of_lookup_2. }
  { apply string_eqb_eq. rewrite <- Hname. change (col_name c) with (spec_name (shape c).1.1). by rewrite Ec, post_keeps_spec. }
  cbn [mbind option_bind]. rewrite Hz. by destruct (distinct_count z =? row_count tb)%nat.
Qed.

Lemma post_add_table (done post : list SchemaChange) o g : changes = done ++ AddTable o :: post -> post_inv g1 done g ->
  yields (post_migration_applier [] false g (AddTable o)) (post_inv g1 (done ++ [AddTable o])).
Proof.
  intros Ech Hinv. destruct (changes_source g0 existing target_schema changes M _ (in_changes changes done _ post Ech)) as [Ho En].
  destruct (first_new g0 existing target_schema changes M g1 First o Ho En) as (t1 & _ & E1 & _).
  destruct (po_table _ _ _ Hinv _ _ E1) as (tb & Etb & _). cbn [post_migration_applier].
  rewrite (create_table_again target_schema g o tb) by (done || by apply M). by apply (post_inv_same g1 done g (AddTable o) Hinv).
Qed.

Lemma second_pass : yields (apply_post_migration_changes g1 changes [] false) (post_inv g1 changes).
Proof.
  unfold apply_post_migration_changes. apply (fold_yields _ (post_inv g1)); [apply post_inv_init|].
  intros done sc post g Ech Hinv. pose proof (post_inv_same g1 done g sc Hinv) as Hsame.
  assert (forall b e p, sc = (if b : bool then AddIndex e p else RemoveIndex e p) ->
    yields (apply_index g sc) (post_inv g1 (done ++ [sc]))) as Hindex.
  { intros b e p Esc.
    destruct (post_index g0 existing target_schema changes M g1 First done post g sc b e p Ech Hinv Esc) as (g' & -> & ?); [|done].
    apply (kept_before done post sc Ech); by subst sc; destruct b. }
  destruct sc as [o|o|o|o p|o p|o p q|o p|o p|o p|o p|o k]; try by apply Hsame.
  - by apply (post_add_table done post).
  - destruct (post_remove g0 existing target_schema changes M g1 First Order done post g o p Ech Hinv) as (g' & -> & ?). done.
  - by apply (Hindex true o p).
  - by apply (Hindex false o p).
  - by apply (post_change_key done post).
Qed.

(** ** Reading the schema back *)
Lemma other_class_shapes y t0 : class_named target_schema y = None -> table_for_object_type g0 y = Some t0 ->
  exists t1, table_for_object_type g1 y = Some t1 /\ shapes t1 = shapes t0 /\ removed y changes = [] /\
    imap (fun i s => fold_left (post_step y i) changes s) (shapes t1) = shapes t1.
Proof.
  intros Ey E0. assert (forall i, plan existing target_schema y i = []) as Hplan
    by (intros i; unfold plan; rewrite Ey; by destruct (class_named existing y)).
  assert (forall l, imap (fun i s => fold_left (pre_step y i) changes s) l = l /\
    imap (fun i s => fold_left (post_step y i) changes s) l = l) as Himap.
  { intros l. split; apply list_eq; intros i; rewrite list_lookup_imap; (destruct (l !! i) as [s|]; [|done]); cbn; f_equal;
      by apply untouched, Hplan. }
  destruct (pi_old _ _ _ _ First y t0 E0) as (t1 & E1 & _ & Es). exists t1. split; [done|]. split; [|split; [|apply Himap]].
  - rewrite Es, (proj1 (Himap _)).
    assert (flat_map (added_shape y) changes = []) as ->; [|by rewrite app_nil_r].
    apply flat_map_nil. intros sc Hsc. destruct (about y sc) eqn:Eab; [|by apply steps_elsewhere]. exfalso.
    pose proof (about_target g0 existing target_schema changes M y) as Hp. rewrite Ey in Hp. apply Permutation_nil_r in Hp.
    assert (sc ∈ List.filter (about y) changes) as Hin by (apply list_elem_of_In, List.filter_In; by rewrite <- list_elem_of_In).
    rewrite Hp in Hin. by apply elem_of_nil in Hin.
  - destruct (removed y changes) as [|c l] eqn:E; [done|].
    assert (c ∈ removed y changes) as (o & p & Hin)%removed_concerns by (rewrite E; by left).
    rewrite (no_concern y _ (Hplan _)) in Hin. by apply elem_of_nil in Hin.
Qed.

Lemma reads_back (g2 g : G) : post_inv g1 changes g2 ->
  (forall y, table_for_object_type g y = table_for_object_type g2 y) ->
  (forall y, get_primary_key_for_object g y = get_primary_key_for_object g2 y) ->
  exists s, schema_from_group g = Ok s /\ compare s target_schema false = [].
Proof.
  intros Hinv Htab Hkey.
  assert (forall y, get_primary_key_for_object g2 y = get_primary_key_for_object g1 y) as Hkey2.
  { intros y. unfold get_primary_key_for_object. by rewrite (po_other _ _ _ Hinv). }
  assert (forall t, t ∈ target_schema -> exists tb o, table_for_object_type g (os_name t) = Some tb /\
    ObjectSchema_from_table g (os_name t) (Some tb) = Ok o /\ agrees o t) as Htarget.
  { intros t Ht. assert (exists t1, table_for_object_type g1 (os_name t) = Some t1 /\ settled_table t
      (deletes (removed (os_name t) changes) (imap (fun i s => fold_left (post_step (os_name t) i) changes s) (shapes t1))))
      as (t1 & E1 & Hset).
    { destruct (class_named existing (os_name t)) as [e|] eqn:Ee.
      - apply class_named_Some in Ee as [He En]. destruct (class_table e He) as (t0 & _ & E0 & _).
        destruct (first_old g0 target_schema changes g1 First e t0 E0) as (t1 & E1 & _). exists t1. rewrite <- En.
        split; [done|]. by apply (existing_settled e t).
      - destruct (first_new g0 existing target_schema changes M g1 First t Ht Ee) as (t1 & _ & E1 & _). exists t1.
        split; [done|]. by apply new_settled. }
    destruct (po_table _ _ _ Hinv _ _ E1) as (tb & Etb & Esb). rewrite <- Esb in Hset.
    destruct (settled_table_reads target_schema g t tb) as (o & Eo & Ha); [by apply M| |done|].
    - rewrite Hkey, Hkey2, (pi_key _ _ _ _ First). by apply final_key.
    - exists tb, o. by rewrite Htab. }
  destruct (schema_from_group_Ok g) as [s Es].
  { intros y tb Hne Ey. destruct (class_named target_schema y) as [t|] eqn:Et.
    - apply class_named_Some in Et as [Ht <-]. destruct (Htarget t Ht) as (tb' & o & E & Eo & _).
      assert (tb' = tb) as -> by congruence. by exists o.
    - destruct (table_for_object_type g0 y) as [t0|] eqn:E0.
      + destruct (other_class_shapes y t0 Et E0) as (t1 & E1 & Es1 & Er & Ei).
        destruct (po_table _ _ _ Hinv _ _ E1) as (tb' & Etb & Esb). rewrite Htab in Ey. assert (tb' = tb) as -> by congruence.
        rewrite Er, Ei, Es1 in Esb. cbn in Esb.
        pose proof (mg_read _ _ _ _ M y Hne) as Hr. rewrite E0 in Hr. destruct Hr as (e & Er' & _).
        unfold ObjectSchema_from_table in *. destruct (table_properties (columns t0) 0) as [props| |] eqn:Ep; [|done..].
        destruct (table_properties_Ok (columns tb) 0) as [props' ->]; [|by eexists].
        intros k c Hc. assert (shapes tb !! k = Some (shape c)) as Hk by (apply shapes_lookup; by exists c).
        rewrite Esb in Hk. apply shapes_lookup in Hk as (c0 & Hc0 & Ec).
        destruct (table_properties_readable _ _ _ _ _ Ep Hc0) as [o Eo]. exists o.
        rewrite read_shape_column, <- Ec, <- read_shape_column. done.
      + pose proof (pi_new _ _ _ _ First y E0) as Hn. destruct (existsb (adds_table y) changes).
        * destruct Hn as (o & _ & _ & Eo & _). congruence.
        * destruct Hn as [Hn _]. rewrite Htab, (po_none _ _ _ Hinv y Hn) in Ey. done. }
  exists s. split; [done|]. apply compare_empty; [by eapply schema_from_group_by_name|apply M|].
  intros t Ht. destruct (Htarget t Ht) as (tb & o & E & Eo & Ha).
  pose proof (schema_from_group_class g s (os_name t) Es (tc_name _ _ (mg_class _ _ _ _ M t Ht))) as Hc.
  rewrite E in Hc. destruct Hc as (o' & Eo' & ->). assert (o' = o) as -> by congruence. by exists o.
Qed.
End result.
