(* ===== verification/MigrationTheorems.v ===== *)
(** * Migrations: the theorems

    [ObjectStore::apply_schema_changes] for a file of another schema version,
    without a migration function. *)
From stdpp Require Import gmap.
From S2P Require Import Prelude.
From S2P Require Import IndexSets.
From S2P Require Import SchemaTypes.
From S2P Require Import Schemas.
From S2P Require Import SchemaValidation.
From S2P Require Import SchemaDiff.
From S2P Require Import SchemaTheorems.
From S2P Require Import CoreTables.
From S2P Require Import ObjectStore.
From S2P Require Import StoreChanges.
From S2P Require Import StoreFacts.
From S2P Require Import SchemaReading.
From S2P Require Import StoreMetadata.
From S2P Require Import MigrationPlan.
From S2P Require Import MigrationSteps.
From S2P Require Import MigrationRun.
From S2P Require Import MigrationSecond.
From S2P Require Import MigrationResult.

Section theorems.
Context {G : Type} `{CoreLaws G} {CS : CharSign} {HSort : StdSort} {HPart : StdPartition}.
Variable create_default_permissions : G -> list SchemaChange -> string -> Result G.

(** A file, the schema read from it, and a target schema it can be migrated to:
    no object identifiers (they freeze primary keys), complete or missing
    metadata tables, no primary key recorded for a class without table, tables
    whose columns the object store could have created, and no array that
    becomes optional (copying array values is not supported by the code). *)
Record migratable (g : G) (existing target_schema : Schema) : Prop := {
  mi_ids : has_object_ids g = false;
  mi_store : store_ok g;
  mi_entries : forall x, table_for_object_type g x = None -> ~ has_entry g x;
  mi_wf : forall x t, table_for_object_type g x = Some t -> well_formed t;
  mi_read : schema_from_group g = Ok existing;
  mi_file : forall e, e ∈ existing -> file_class e;
  mi_target : by_name target_schema;
  mi_class : forall t, t ∈ target_schema -> target_class target_schema t;
  mi_arrays : forall e p, MakePropertyNullable e p ∈ compare existing target_schema false -> is_array (prop_type p) = false
}.

(** The file has the schema asked for. *)
Definition reaches (target_schema : Schema) (target_schema_version : Z) (st : G * Schema) : Prop :=
  get_schema_version st.1 = target_schema_version /\ st.2 = set_schema_columns st.1 target_schema /\
  exists s, schema_from_group st.1 = Ok s /\ compare s target_schema false = [].

Lemma no_empty_class (g : G) s : schema_from_group g = Ok s -> class_named s EmptyString = None.
Proof.
  unfold schema_from_group. destruct (class_schemas g (table_names g)) as [types| |] eqn:E; [|done..].
  cbn [mbind Result_bind]. intros [= <-]. apply class_named_None. intros o Ho En. rewrite make_perm in Ho.
  apply class_schemas_spec in E as (E & _). by destruct (E o Ho) as (_ & _ & _ & ? & _).
Qed.

Lemma class_schemas_frame (g g' : G) names : (forall x, get_table g' (table_name_for_object_type x) = get_table g (table_name_for_object_type x)) ->
  (forall x, get_primary_key_for_object g' x = get_primary_key_for_object g x) -> class_schemas g' names = class_schemas g names.
Proof.
  intros Htab Hkey. induction names as [|n names IH]; [done|]. cbn [class_schemas]. rewrite IH.
  destruct (empty (object_type_for_table_name n)) eqn:E; [done|].
  assert (get_table g' n = get_table g n) as ->.
  { rewrite (table_name_of_object_type n); [apply Htab|]. intros Ex. by rewrite Ex in E. }
  unfold ObjectSchema_from_table. by rewrite Hkey.
Qed.

Lemma migratable_migration `{!PartitionKeepsPrefix} (g : G) existing target_schema : migratable g existing target_schema ->
  migration (create_metadata_tables g) existing target_schema (compare existing target_schema false).
Proof.
  intros Hm. destruct (create_metadata_spec g (mi_store _ _ _ Hm)) as (Hpk & _ & Hids & Htab & Hkey & Hentry & _).
  assert (forall x, table_for_object_type (create_metadata_tables g) x = table_for_object_type g x) as Hclass
    by (intros x; by apply Htab).
  pose proof (mi_read _ _ _ Hm) as Hread. pose proof (schema_from_group_by_name g existing Hread) as Hexisting.
  destruct (compare_shape existing target_schema false Hexisting (mi_target _ _ _ Hm)) as (_ & _ & _ & _ & Hperm).
  constructor; try apply Hm; try done.
  - rewrite Hids. apply Hm.
  - intros x E. rewrite Hentry. apply Hm. by rewrite <- Hclass.
  - intros x t E. rewrite Hclass in E. by apply (mi_wf _ _ _ Hm x).
  - intros x Hx. rewrite Hclass. pose proof (schema_from_group_class g existing x Hread Hx) as Hr.
    unfold ObjectSchema_from_table in *. by rewrite Hkey.
  - by apply (no_empty_class g).
  - destruct (compare_prefix existing target_schema false) as [rest Er].
    exists (flat_map (table_change false) (zip_matching target_schema existing)), rest. split; [done|].
    split; [apply table_changes_tables|].
    assert (rest ≡ₚ flat_map pair_changes (pairs_by_name target_schema existing)) as ->; [|apply pairs_columns].
    apply (Permutation_app_inv_l (flat_map (table_change false) (zip_matching target_schema existing))).
    rewrite <- Er, Hperm, <- differences_pairs. apply Permutation_app_tail.
    apply flat_map_perm. symmetry. apply zip_matching_pairs; [apply Hm|done].
Qed.

(** The schema of a migration's file can be read. *)
Lemma migration_readable (g0 : G) existing target_schema changes : migration g0 existing target_schema changes ->
  exists s, schema_from_group g0 = Ok s.
Proof.
  intros M. apply schema_from_group_Ok. intros x t Hx E. pose proof (mg_read _ _ _ _ M x Hx) as Hr. rewrite E in Hr.
  destruct Hr as (o & Eo & _). by exists o.
Qed.

Lemma version_written (g0 g1 g2 : G) target_schema changes target_schema_version : metadata_ok g0 ->
  0 <= target_schema_version < 2 ^ 64 -> pre_inv g0 target_schema changes g1 -> post_inv g1 changes g2 ->
  let g := write_schema_version g2 target_schema_version in
  get_schema_version g = target_schema_version /\
  (forall y, table_for_object_type g y = table_for_object_type g2 y) /\
  (forall y, get_primary_key_for_object g y = get_primary_key_for_object g2 y).
Proof.
  intros (t & Et & Ht) Hv First Second. assert (metadata_ok g2) as Hmeta.
  { exists t. split; [|done]. by rewrite (po_other _ _ _ Second), (pi_metadata _ _ _ _ First). }
  destruct (write_version_spec g2 target_schema_version Hmeta Hv) as (Ev & _ & t' & Hc). split; [done|]. split; intros y.
  - by apply (changes_to_other _ _ _ _ _ Hc).
  - by apply (get_primary_key_frame _ _ _ _ y Hc).
Qed.

Lemma apply_migration_reaches (g0 : G) existing target_schema changes target_schema_version :
  migration g0 existing target_schema changes -> (exists kept removals initial, ordered changes kept removals initial) ->
  metadata_ok g0 -> 0 <= target_schema_version < 2 ^ 64 ->
  yields (apply_migration g0 target_schema target_schema_version changes None) (reaches target_schema target_schema_version).
Proof.
  intros M Order Hmeta Hv. unfold apply_migration. destruct (migration_readable _ _ _ _ M) as [s ->]. cbn [mbind Result_bind].
  destruct (pre_pass g0 existing target_schema changes M) as (g1 & -> & First). cbn [mbind Result_bind].
  pose proof (second_pass g0 existing target_schema changes M g1 First Order) as Hpass.
  destruct (apply_post_migration_changes g1 changes [] false) as [g2|[]|]; try done. cbn [mbind Result_bind yields] in *.
  destruct (version_written g0 g1 g2 target_schema changes _ Hmeta Hv First Hpass) as (Ev & Etab & Ekey).
  split; [done|]. split; [done|]. by apply (reads_back g0 existing target_schema changes M g1 First Order g2).
Qed.

(** C14: Migrating a file without a migration function to a schema it can be
    migrated to either reports a duplicate primary key or produces a file with the
    new schema version whose schema, read back from the tables, compares with the
    target without any change: none of the listed changes crashes or fails. What
    can be migrated to ([migratable]) excludes making the elements of an array
    optional and properties the code cannot store ([storable]: an index on an
    array, the name of the column of object identifiers), where the code fails.
    The partition of the standard library has to keep the elements in front of the
    first misplaced one ([PartitionKeepsPrefix]): the usual one does, but the
    standard does not promise it. *)
Theorem migration_reaches_target `{!PartitionKeepsPrefix} (g : G) (existing target_schema : Schema) (mode : SchemaMode)
    (schema_version target_schema_version : Z) (sync_user_id : option string) :
  migratable g existing target_schema -> mode <> Additive -> mode <> Manual ->
  schema_version <> NotVersioned -> schema_version <> target_schema_version -> 0 <= target_schema_version < 2 ^ 64 ->
  yields (apply_schema_changes create_default_permissions g schema_version target_schema target_schema_version mode
      (compare existing target_schema false) sync_user_id None)
    (reaches target_schema target_schema_version).
Proof.
  intros Hm Ha Hman Hnv Hne Hv. pose proof (migratable_migration g existing target_schema Hm) as M.
  pose proof (create_metadata_spec g (mi_store _ _ _ Hm)) as (_ & Hmeta & _).
  assert (exists kept removals initial, ordered (compare existing target_schema false) kept removals initial) as Order.
  { destruct (compare_shape existing target_schema false (mg_existing _ _ _ _ M) (mg_target _ _ _ _ M)) as (k & r & i & Ho & _). eauto. }
  pose proof (apply_migration_reaches _ _ _ _ _ M Order Hmeta Hv) as Hreach. unfold apply_schema_changes.
  apply Z.eqb_neq in Hnv, Hne. by destruct mode; try done; rewrite Hnv, Hne.
Qed.

(** ** New classes *)
Definition creates_class (sc : SchemaChange) : bool :=
  match sc with AddTable _ | AddInitialProperties _ => true | _ => false end.

Lemma fold_result_same {A S} (f f' : S -> A -> Result S) l s : (forall s x, x ∈ l -> f s x = f' s x) ->
  fold_result f l s = fold_result f' l s.
Proof.
  revert s. induction l as [|x l IH]; intros s Hf; [done|]. cbn [fold_result]. rewrite (Hf s x) by by left.
  destruct (f' s x); [|done..]. cbn [mbind Result_bind]. apply IH. intros s' y Hy. apply Hf. by right.
Qed.

Lemma creates_only existing target_schema sc : (forall t, t ∈ target_schema -> class_named existing (os_name t) = None) ->
  sc ∈ differences existing target_schema false -> creates_class sc = true.
Proof.
  intros Hnew. unfold differences. rewrite app_nil_r. intros Hsc.
  apply list_elem_of_In, in_flat_map in Hsc as (t & Ht%list_elem_of_In & Hsc). unfold class_differences in Hsc.
  rewrite (Hnew t Ht) in Hsc. by destruct Hsc as [<-|[<-|[]]].
Qed.

Lemma creation_passes (g1 : G) changes : (forall sc, sc ∈ changes -> creates_class sc = true) -> post_inv g1 changes g1.
Proof.
  intros Hnew. constructor; [done|done|]. intros x t1 E. exists t1. split; [done|].
  assert (removed x changes = []) as ->.
  { destruct (removed x changes) as [|c l] eqn:Er; [done|].
    assert (c ∈ removed x changes) as (o & p & Hin & _)%removed_elem by (rewrite Er; by left). by apply Hnew in Hin. }
  unfold deletes. cbn [fold_left]. apply list_eq. intros i. rewrite list_lookup_imap.
  destruct (shapes t1 !! i) as [s|]; [|done]. cbn. f_equal. clear E. symmetry. revert Hnew. clear. generalize s.
  induction changes as [|sc l IH]; intros s' Hnew; [done|]. cbn [fold_left]. rewrite IH by (intros sc' Hsc'; apply Hnew; by right).
  pose proof (Hnew sc ltac:(by left)) as Hsc. by destruct sc.
Qed.

(** In a file without a schema version whose tables are not classes of the
    target schema, every mode creates the classes with their columns and keys:
    the operation succeeds, stores the version, and reading the schema back
    finds no difference. *)
Theorem creation_reaches_target `{!PartitionKeepsPrefix} (g : G) (existing target_schema : Schema) (mode : SchemaMode)
    (target_schema_version : Z) (migration_function : option (G * Schema -> Result (G * Schema))) :
  migratable g existing target_schema -> (forall t, t ∈ target_schema -> class_named existing (os_name t) = None) ->
  0 <= target_schema_version < 2 ^ 64 ->
  exists st, apply_schema_changes create_default_permissions g NotVersioned target_schema target_schema_version mode
      (compare existing target_schema false) None migration_function = Ok st /\
    reaches target_schema target_schema_version st.
Proof.
  intros Hm Hnew Hv. pose proof (migratable_migration g existing target_schema Hm) as M.
  set (changes := compare existing target_schema false) in *.
  pose proof (create_metadata_spec g (mi_store _ _ _ Hm)) as (_ & Hmeta & _).
  assert (exists kept removals initial, ordered changes kept removals initial) as Order.
  { destruct (compare_shape existing target_schema false (mg_existing _ _ _ _ M) (mg_target _ _ _ _ M)) as (k & r & i & Ho & _). eauto. }
  assert (forall sc, sc ∈ changes -> creates_class sc = true) as Hcreate.
  { intros sc. rewrite (mg_perm _ _ _ _ M). by apply creates_only. }
  destruct (pre_pass _ _ _ _ M) as (g1 & Epre & First). unfold apply_pre_migration_changes in Epre.
  pose proof (creation_passes g1 changes Hcreate) as Hpass.
  destruct (version_written _ g1 g1 target_schema changes _ Hmeta Hv First Hpass) as (Ev & Etab & Ekey).
  exists (write_schema_version g1 target_schema_version, set_schema_columns (write_schema_version g1 target_schema_version) target_schema).
  split; [|split; [done|split; [done|by apply (reads_back _ existing target_schema changes M g1 First Order g1)]]].
  unfold apply_schema_changes, create_initial_tables, apply_additive_changes.
  rewrite (fold_result_same initial_applier pre_migration_applier), (fold_result_same (additive_applier true) pre_migration_applier), Epre;
    [|intros s sc Hsc%Hcreate; by destruct sc..].
  cbn [mbind Result_bind]. rewrite Z.eqb_refl, orb_true_r. by destruct mode.
Qed.
End theorems.

(** ** A file to migrate *)
Definition value_column (name : string) (type : DataType) (cells : list Value) : Column :=
  mkColumn (mkColumnSpec name type false []) EmptyString false cells.

Definition dog_table : Table :=
  mkTable [value_column "name" type_String [v_string "Rex"]; value_column "age" type_Int [v_int 3]] 1.

Definition dog_file : PlainGroup := mkPlainGroup (<["class_dog" := dog_table]> ∅) false.

Definition stored_property (name : string) (type : PropertyType) (target : string) (primary indexed : bool) (column : Z) : Property :=
  mkProperty name type target EmptyString primary indexed column.

Definition old_dog : ObjectSchema :=
  mkObjectSchema "dog" [stored_property "name" PT_String EmptyString false false 0;
    stored_property "age" PT_Int EmptyString false false 1] [] EmptyString.

(** The name becomes optional, the age goes, a link and a class come. *)
Definition new_dog : ObjectSchema :=
  mkObjectSchema "dog" [stored_property "name" (pt_or PT_String PT_Nullable) EmptyString false true npos;
    stored_property "owner" (pt_or PT_Object PT_Nullable) "person" false false npos] [] EmptyString.
Definition person : ObjectSchema :=
  mkObjectSchema "person" [stored_property "id" PT_Int EmptyString true false npos] [] "id".

Lemma stored_dog : file_class old_dog.
Proof.
  constructor.
  - by apply (bool_decide_eq_true_1 (NoDup _)).
  - by apply (bool_decide_eq_true_1 (NoDup _)).
  - done.
  - repeat constructor; try done; by eexists.
Qed.

Lemma dog_migratable : migratable dog_file [old_dog] [new_dog; person].
Proof.
  constructor.
  - done.
  - by constructor.
  - intros x _ (t & keys & props & v & [E _] & _). done.
  - intros x t E. unfold table_for_object_type in E. cbn in E. apply lookup_insert_Some in E as [[_ <-]|[_ E]]; [by repeat constructor|done].
  - by vm_compute.
  - intros e ->%list_elem_of_singleton. apply stored_dog.
  - repeat constructor.
  - intros t [->|[->|?%elem_of_nil]%elem_of_cons]%elem_of_cons; [| |done].
    + constructor; try done.
      * by apply (bool_decide_eq_true_1 (NoDup _)).
      * by apply (bool_decide_eq_true_1 (_ ∉ _)).
      * repeat constructor; try done; by eexists.
      * intros p [->|[->|?%elem_of_nil]%elem_of_cons]%elem_of_cons; try done. intros _. exists person. split; [|done]. by right; left.
      * intros p [->|[->|?%elem_of_nil]%elem_of_cons]%elem_of_cons; done.
    + constructor; try done.
      * by apply (bool_decide_eq_true_1 (NoDup _)).
      * by apply (bool_decide_eq_true_1 (_ ∉ _)).
      * repeat constructor; try done; by eexists.
      * by intros p ->%list_elem_of_singleton.
      * by intros p ->%list_elem_of_singleton.
      * intros _. eexists. split; [by left|]. split; [done|by left].
  - intros e p Hin.
    assert (compare [old_dog] [new_dog; person] false = ltac:(let x := eval vm_compute in (compare [old_dog] [new_dog; person] false) in exact x)) as E by (by vm_compute).
    rewrite E in Hin. clear E. repeat (apply elem_of_cons in Hin as [Hin|Hin]; [try discriminate Hin; injection Hin; intros -> ->; done|]).
    by apply elem_of_nil in Hin.
Qed.

Lemma person_migratable : migratable dog_file [old_dog] [person].
Proof.
  destruct dog_migratable as [Hids Hstore Hent Hwf Hread Hfile _ Hclass _]. constructor; [assumption..| | |].
  - repeat constructor.
  - intros t ->%list_elem_of_singleton. destruct (Hclass person) as [? ? ? ? _ ? ?]; [by right; left|].
    constructor; [assumption..| |assumption|assumption]. by intros p ->%list_elem_of_singleton.
  - intros e p Hin. assert (compare [old_dog] [person] false = [AddTable person; AddInitialProperties person]) as E by (by vm_compute).
    rewrite E in Hin. apply elem_of_cons in Hin as [?|Hin]; [done|]. by apply list_elem_of_singleton in Hin.
Qed.

#[local] Instance signed_char : CharSign := true.

Lemma migration_reaches_target_witness :
  yields (apply_schema_changes (fun g _ _ => Ok g) dog_file 1 [new_dog; person] 2 Automatic
      (compare [old_dog] [new_dog; person] false) None None) (reaches [new_dog; person] 2).
Proof. apply (migration_reaches_target (fun g _ _ => Ok g) dog_file [old_dog]); try done. apply dog_migratable. Defined.

Lemma creation_reaches_target_witness :
  exists st, apply_schema_changes (fun g _ _ => Ok g) dog_file NotVersioned [person] 2 Additive
      (compare [old_dog] [person] false) None None = Ok st /\ reaches [person] 2 st.
Proof.
  apply (creation_reaches_target (fun g _ _ => Ok g) dog_file [old_dog]); [|by intros t ->%list_elem_of_singleton|done].
  apply person_migratable.
Defined.
