(* ===== verification/Effects.v ===== *)
(** * Programs with a state and exceptions

    Code that updates an object, throws C++ exceptions and fails assertions, as
    functions from the object to an outcome. An exception keeps the state it
    was thrown in, so that what a scope guard restores, and what it leaves
    changed, can be told apart. [wp] gives the states and values a program may
    end with when it does not crash. *)
From S2P Require Import Prelude.

Section programs.
Context {S E : Type}.

Inductive Outcome (A : Type) :=
| returns (a : A) (s : S)
| throws (e : E) (s : S)
| crashes.
Arguments returns {A} a s.
Arguments throws {A} e s.
Arguments crashes {A}.

Definition Prog (A : Type) : Type := S -> Outcome A.

#[global] Instance Prog_ret : MRet Prog := fun A a s => returns a s.
#[global] Instance Prog_bind : MBind Prog :=
  fun A B f m s =>
    match m s with
    | returns a s' => f a s'
    | throws e s' => throws e s'
    | crashes => crashes
    end.

Definition raise {A} (e : E) : Prog A := fun s => throws e s.
Definition fails {A} : Prog A := fun _ => crashes.
Definition get : Prog S := fun s => returns s s.
Definition asks {A} (f : S -> A) : Prog A := fun s => returns (f s) s.
Definition modify (f : S -> S) : Prog () := fun s => returns () (f s).
Definition when (b : bool) (m : Prog ()) : Prog () := if b then m else mret ().
Definition assert (b : bool) : Prog () := if b then mret () else fails.

(** [try { m } catch (handled) { handler }] *)
Definition catch {A} (m : Prog A) (handler : E -> option (Prog A)) : Prog A :=
  fun s =>
    match m s with
    | throws e s' => match handler e with Some h => h s' | None => throws e s' end
    | o => o
    end.

(** [util::make_scope_exit] and destructors: the clean-up runs however the scope
    is left, and an exception that leaves it ends the process. *)
Definition scope_exit {A} (m : Prog A) (cleanup : Prog ()) : Prog A :=
  fun s =>
    match m s with
    | returns a s' => match cleanup s' with returns _ s'' => returns a s'' | _ => crashes end
    | throws e s' => match cleanup s' with returns _ s'' => throws e s'' | _ => crashes end
    | crashes => crashes
    end.

(** How a program ends: it returns in [Q], throws in [R], or crashes and [C]
    allows it. [C] is [False] when crashes are excluded, and [True] when a
    statement is about the runs that no failed assertion stops. *)
Definition ends (C : Prop) {A} (m : Prog A) (s : S) (Q : A -> S -> Prop) (R : E -> S -> Prop) : Prop :=
  match m s with
  | returns a s' => Q a s'
  | throws e s' => R e s'
  | crashes => C
  end.

Lemma ends_mono (C : Prop) {A} (m : Prog A) s (Q Q' : A -> S -> Prop) (R R' : E -> S -> Prop) :
  ends C m s Q R -> (forall a s', Q a s' -> Q' a s') -> (forall e s', R e s' -> R' e s') -> ends C m s Q' R'.
Proof. unfold ends. destruct (m s); eauto. Qed.

Lemma ends_crash (C C' : Prop) {A} (m : Prog A) s (Q : A -> S -> Prop) (R : E -> S -> Prop) :
  ends C m s Q R -> (C -> C') -> ends C' m s Q R.
Proof. unfold ends. destruct (m s); eauto. Qed.

Lemma ends_and (C : Prop) {A} (m : Prog A) s (Q Q' : A -> S -> Prop) (R R' : E -> S -> Prop) :
  ends C m s Q R -> ends C m s Q' R' -> ends C m s (fun a s' => Q a s' /\ Q' a s') (fun e s' => R e s' /\ R' e s').
Proof. unfold ends. destruct (m s); auto. Qed.

Lemma ends_bind (C : Prop) {A B} (m : Prog A) (f : A -> Prog B) s Q R :
  ends C m s (fun a s' => ends C (f a) s' Q R) R -> ends C (m ≫= f) s Q R.
Proof. unfold ends, mbind, Prog_bind. by destruct (m s). Qed.

(** The rule for a program whose specification is a lemma. *)
Lemma ends_then (C : Prop) {A B} (m : Prog A) (f : A -> Prog B) s (Q' : A -> S -> Prop) Q R :
  ends C m s Q' R -> (forall a s', Q' a s' -> ends C (f a) s' Q R) -> ends C (m ≫= f) s Q R.
Proof. intros Hm Hf. apply ends_bind. by eapply ends_mono. Qed.

Lemma ends_ret (C : Prop) {A} (a : A) s (Q : A -> S -> Prop) R : Q a s -> ends C (mret a) s Q R.
Proof. done. Qed.
Lemma ends_raise (C : Prop) {A} e s (Q : A -> S -> Prop) (R : E -> S -> Prop) : R e s -> ends C (raise e) s Q R.
Proof. done. Qed.
Lemma ends_asks (C : Prop) {A} (f : S -> A) s (Q : A -> S -> Prop) R : Q (f s) s -> ends C (asks f) s Q R.
Proof. done. Qed.
Lemma ends_modify (C : Prop) f s (Q : () -> S -> Prop) R : Q () (f s) -> ends C (modify f) s Q R.
Proof. done. Qed.
Lemma ends_when (C : Prop) b m s (Q : () -> S -> Prop) R :
  (b = true -> ends C m s Q R) -> (b = false -> Q () s) -> ends C (when b m) s Q R.
Proof. destruct b; [by intros H _; apply H|by intros _ H; apply H]. Qed.
Lemma ends_if (C : Prop) {A} (b : bool) (m n : Prog A) s Q R :
  (b = true -> ends C m s Q R) -> (b = false -> ends C n s Q R) -> ends C (if b then m else n) s Q R.
Proof. destruct b; auto. Qed.

Lemma ends_scope_exit (C : Prop) {A} (m : Prog A) cleanup s (Q : A -> S -> Prop) R :
  ends C m s (fun a s' => ends C cleanup s' (fun _ => Q a) (fun _ _ => C))
    (fun e s' => ends C cleanup s' (fun _ => R e) (fun _ _ => C)) ->
  ends C (scope_exit m cleanup) s Q R.
Proof. unfold ends, scope_exit. destruct (m s) as [a s'|e s'|]; [| |done]; by destruct (cleanup s'). Qed.

Lemma ends_catch (C : Prop) {A} (m : Prog A) handler s (Q : A -> S -> Prop) R :
  ends C m s Q (fun e s' => match handler e with Some h => ends C h s' Q R | None => R e s' end) ->
  ends C (catch m handler) s Q R.
Proof. unfold ends, catch. destruct (m s) as [| e s' |]; [done| |done]. by destruct (handler e). Qed.

(** A program that keeps [P] when it returns, and ends in [R] when it throws. *)
Definition keeps (P R : S -> Prop) {A} (m : Prog A) : Prop :=
  forall s, P s -> ends True m s (fun _ => P) (fun _ => R).

Section keeps.
Context (P R : S -> Prop).

Lemma keeps_bind {A B} (m : Prog A) (f : A -> Prog B) : keeps P R m -> (forall a, keeps P R (f a)) -> keeps P R (m ≫= f).
Proof. intros Hm Hf s HP. eapply ends_then; [by apply Hm|]. intros a s' HP'. by apply Hf. Qed.
Lemma keeps_ret {A} (a : A) : keeps P R (mret a).
Proof. by intros s. Qed.
Lemma keeps_raise {A} e : (forall s, P s -> R s) -> keeps P R (raise (A:=A) e).
Proof. intros HR s HP. by apply HR. Qed.
Lemma keeps_fails {A} : keeps P R (fails (A:=A)).
Proof. by intros s. Qed.
Lemma keeps_get : keeps P R get.
Proof. by intros s. Qed.
Lemma keeps_asks {A} (f : S -> A) : keeps P R (asks f).
Proof. by intros s. Qed.
Lemma keeps_assert b : keeps P R (assert b).
Proof. by intros s; destruct b. Qed.
Lemma keeps_modify f : (forall s, P s -> P (f s)) -> keeps P R (modify f).
Proof. intros Hf s HP. by apply Hf. Qed.
Lemma keeps_when b m : keeps P R m -> keeps P R (when b m).
Proof. destruct b; [done|]. intros _. apply keeps_ret. Qed.
Lemma keeps_if {A} (b : bool) (m n : Prog A) : keeps P R m -> keeps P R n -> keeps P R (if b then m else n).
Proof. by destruct b. Qed.
Lemma keeps_scope_exit {A} (m : Prog A) cleanup :
  keeps P R m -> keeps P P cleanup -> keeps R R cleanup -> keeps P R (scope_exit m cleanup).
Proof.
  intros Hm Hc Hr s HP. apply ends_scope_exit. eapply ends_mono; [by apply Hm| |]; simpl; intros ? s' HP'.
  - eapply ends_mono; [by apply Hc|done|done].
  - eapply ends_mono; [by apply Hr|done|done].
Qed.
Lemma keeps_catch {A} (m : Prog A) handler : (forall s, P s -> R s) ->
  keeps P P m -> (forall e h, handler e = Some h -> keeps P R h) -> keeps P R (catch m handler).
Proof.
  intros HR Hm Hh s HP. apply ends_catch. eapply ends_mono; [by apply Hm|done|]. simpl. intros e s' HP'.
  destruct (handler e) as [h|] eqn:Eh; [|by apply HR]. by apply (Hh e).
Qed.

(** A part that keeps [P], followed by the rest *)
Lemma ends_keeps_then {A B} (m : Prog A) (f : A -> Prog B) s (Q : B -> S -> Prop) (R' : E -> S -> Prop) :
  keeps P R m -> P s -> (forall e s', R s' -> R' e s') -> (forall a s', P s' -> ends True (f a) s' Q R') ->
  ends True (m ≫= f) s Q R'.
Proof. intros Hm Hs HR Hf. apply ends_bind. eapply ends_mono; [by apply Hm|done|by apply HR]. Qed.
Lemma ends_keeps {A} (m : Prog A) s (Q : A -> S -> Prop) (R' : E -> S -> Prop) :
  keeps P R m -> P s -> (forall a s', P s' -> Q a s') -> (forall e s', R s' -> R' e s') -> ends True m s Q R'.
Proof. intros Hm Hs HQ HR. eapply ends_mono; [by apply Hm|exact HQ|exact HR]. Qed.
End keeps.
End programs.
Arguments Outcome : clear implicits.
Arguments Prog : clear implicits.
Arguments returns {S E A} a s.
Arguments throws {S E A} e s.
Arguments crashes {S E A}.

Abbreviation wp := (ends False).
Abbreviation wlp := (ends True).

Create HintDb keeps.
#[export] Hint Resolve keeps_ret keeps_fails keeps_get keeps_asks keeps_assert keeps_when : keeps.

#[export] Hint Extern 1 (keeps _ _ (raise _)) => apply keeps_raise; auto : keeps.

(** Step through a program whose parts are handled by the rules above. *)
Ltac ends_step :=
  first [ apply ends_bind | apply ends_ret | apply ends_raise | apply ends_asks | apply ends_modify | apply ends_scope_exit ].
Ltac ends_steps := repeat ends_step.

(** Show that a program keeps an invariant by its structure. *)
Ltac keeps_step :=
  match goal with
  | |- keeps _ _ (_ ≫= _) => apply keeps_bind; [|intros ?]
  | |- keeps _ _ (if ?b then _ else _) => destruct b
  | |- keeps _ _ (match ?x with _ => _ end) => destruct x
  | |- keeps _ _ (scope_exit _ _) => apply keeps_scope_exit
  | |- keeps _ _ (catch _ _) => apply keeps_catch
  | |- keeps _ _ (when _ _) => apply keeps_when
  | |- keeps _ _ _ => solve [eauto with keeps]
  | |- forall s, ?P s -> ?P s => intros; assumption
  end.
Ltac keeps_steps := repeat keeps_step.
