(* ===== verification/SchemaCache.v ===== *)
(** * The schema cache of a file's coordinator

    The schema [RealmCoordinator] remembers, with the range of transaction
    versions it applies to ([impl/realm_coordinator.cpp]). *)
From stdpp Require Import relations.
From S2P Require Import Prelude.
From S2P Require Import SchemaTypes.
From S2P Require Import Schemas.
From S2P Require Import ObjectStore.

Record SchemaCache := mkSchemaCache {
  m_cached_schema : option Schema;
  m_schema_version : Z;
  m_schema_transaction_version_min : Z;
  m_schema_transaction_version_max : Z
}.

#[local] Open Scope realm_scope.

Module Cache.
(** The coordinator's initial state *)
Definition init : SchemaCache := mkSchemaCache None NotVersioned 0 0.

Definition get_cached_schema (c : SchemaCache) : option (Schema * Z * Z) :=
  match m_cached_schema c with
  | None => None
  | Some schema => Some (schema, m_schema_version c, m_schema_transaction_version_max c)
  end.

Definition cache_schema (new_schema : Schema) (new_schema_version transaction_version : Z) (c : SchemaCache) : SchemaCache :=
  if transaction_version <? m_schema_transaction_version_max c then c
  else if bool_decide (new_schema = []) || (new_schema_version =? NotVersioned) then c
  else mkSchemaCache (Some new_schema) new_schema_version transaction_version transaction_version.

Definition clear_schema_cache_and_set_schema_version (new_schema_version : Z) (c : SchemaCache) : SchemaCache :=
  mkSchemaCache None new_schema_version (m_schema_transaction_version_min c) (m_schema_transaction_version_max c).

(** [None]: the assertion fails *)
Definition advance_schema_cache (previous next : Z) (c : SchemaCache) : option SchemaCache :=
  match m_cached_schema c with
  | None => Some c
  | Some _ =>
    assert! previous <=? m_schema_transaction_version_max c;
    if next <? m_schema_transaction_version_min c then Some c
    else Some (mkSchemaCache (m_cached_schema c) (m_schema_version c)
      (Z.min previous (m_schema_transaction_version_min c)) (Z.max next (m_schema_transaction_version_max c)))
  end.
End Cache.
Import Cache.

(** The versions a Realm may report as the one it comes from *)
Definition covers (v : Z) (c : SchemaCache) : Prop := m_cached_schema c = None \/ v <= m_schema_transaction_version_max c.

Lemma covers_advance v next c : covers v c -> exists c', advance_schema_cache v next c = Some c' /\ covers v c'.
Proof.
  unfold covers, advance_schema_cache. intros Hv. destruct (m_cached_schema c) as [s|] eqn:E; [|exists c; rewrite E; by auto].
  destruct Hv as [|Hv]; [done|]. rewrite realm_assert_true by (by apply Z.leb_le). cbn [mbind option_bind].
  compare_cases; (eexists; split; [done|]); cbn; right; lia.
Qed.

(** ** Soundness

    [at_version] is the schema and schema version of the file at each version. *)
Section soundness.
Context (at_version : Z -> Schema * Z).

Definition constant_between (v w : Z) : Prop := forall x, v <= x <= w -> at_version x = at_version v.

Record sound (c : SchemaCache) : Prop := {
  sound_range : m_schema_transaction_version_min c <= m_schema_transaction_version_max c;
  sound_schema schema : m_cached_schema c = Some schema ->
    forall x, m_schema_transaction_version_min c <= x <= m_schema_transaction_version_max c ->
    at_version x = (schema, m_schema_version c)
}.

(** What the Realms of the file do to the cache: each reports what it read from
    the file at the version it is at. *)
Inductive cache_step : SchemaCache -> SchemaCache -> Prop :=
| step_cache c v : cache_step c (cache_schema (at_version v).1 (at_version v).2 v c)
| step_advance c c' previous next : previous <= next -> constant_between previous next ->
    advance_schema_cache previous next c = Some c' -> cache_step c c'
| step_clear c version : cache_step c (clear_schema_cache_and_set_schema_version version c).

Lemma cache_sound c v : sound c -> sound (cache_schema (at_version v).1 (at_version v).2 v c).
Proof.
  intros Hc. unfold cache_schema. destruct (_ <? _); [done|]. destruct (_ || _); [done|].
  constructor; cbn; [lia|]. intros schema [= <-] x Hx. replace x with v by lia. by destruct (at_version v).
Qed.

Lemma clear_sound c version : m_schema_transaction_version_min c <= m_schema_transaction_version_max c ->
  sound (clear_schema_cache_and_set_schema_version version c).
Proof. by constructor. Qed.

Lemma advance_sound c c' previous next : sound c -> previous <= next -> constant_between previous next ->
  advance_schema_cache previous next c = Some c' -> sound c'.
Proof.
  intros Hc Hle Hconst. pose proof Hc as [Hr Hs]. unfold advance_schema_cache.
  destruct (m_cached_schema c) as [schema|] eqn:Ec; [|by intros [= <-]].
  unfold realm_assert. compare_cases; cbn [mbind option_bind]; try done; intros [= <-]; [done|].
  constructor; cbn; [lia|]. intros s [= <-] x Hx.
  set (shared := Z.max previous (m_schema_transaction_version_min c)).
  assert (at_version shared = (schema, m_schema_version c)) as Eshared by (apply Hs; [done|lia]).
  destruct (decide (m_schema_transaction_version_min c <= x <= m_schema_transaction_version_max c)); [by apply Hs|].
  rewrite (Hconst x), <- (Hconst shared) by lia. done.
Qed.

(** C7: The schema cache is sound: after any sequence of reports by the Realms of
    a file, the schema and version it gives out are those of the file at the
    transaction version it gives out with them, and at every version of its
    range. *)
Theorem schema_cache_sound c schema version transaction :
  rtc cache_step init c -> get_cached_schema c = Some (schema, version, transaction) ->
  at_version transaction = (schema, version) /\
  forall x, m_schema_transaction_version_min c <= x <= transaction -> at_version x = (schema, version).
Proof.
  intros Hsteps. assert (sound c) as [Hr Hs].
  { assert (sound init) as Hinit by (by constructor). revert Hinit.
    induction Hsteps as [|c1 c2 c3 [c' v|c' c'' p n|c' v] _ IH]; intros Hc; auto; apply IH.
    - by apply cache_sound.
    - by eapply advance_sound.
    - apply clear_sound, Hc. }
  unfold get_cached_schema. destruct (m_cached_schema c) as [s|] eqn:Ec; [|done]. intros [= <- <- <-].
  split; [apply Hs; [done|lia]|by apply Hs].
Qed.
End soundness.

(** A file whose schema was written at version 4, read at version 4 by one Realm
    and reported unchanged up to version 6 by another *)
Definition dog_versions (v : Z) : Schema * Z := if v <? 4 then ([], NotVersioned) else ([mkObjectSchema "dog" [] [] EmptyString], 7).

Lemma schema_cache_sound_witness :
  get_cached_schema (mkSchemaCache (Some [mkObjectSchema "dog" [] [] EmptyString]) 7 4 6) =
    Some ([mkObjectSchema "dog" [] [] EmptyString], 7, 6) /\
  dog_versions 6 = ([mkObjectSchema "dog" [] [] EmptyString], 7) /\
  forall x, 4 <= x <= 6 -> dog_versions x = ([mkObjectSchema "dog" [] [] EmptyString], 7).
Proof.
  split; [reflexivity|].
  apply (schema_cache_sound dog_versions (mkSchemaCache (Some [mkObjectSchema "dog" [] [] EmptyString]) 7 4 6)); [|reflexivity].
  apply rtc_l with (cache_schema (dog_versions 4).1 (dog_versions 4).2 4 init); [constructor|].
  apply rtc_once. apply (step_advance dog_versions _ _ 4 6); [lia| |reflexivity].
  intros x Hx. unfold dog_versions. by replace (x <? 4) with false by (symmetry; apply Z.ltb_ge; lia).
Defined.
