(* ===== verification/Realms.v ===== *)
(** * The state of a Realm

    [Realm] of [shared_realm.hpp] with the part of its file's coordinator it
    uses, and the functions of the application it calls. *)
From S2P Require Import Prelude.
From S2P Require Import TransactLog.
From S2P Require Import Advance.
From S2P Require Import SchemaTypes.
From S2P Require Import Schemas.
From S2P Require Import CoreTables.
From S2P Require Import ObjectStore.
From S2P Require Import StoreChanges.
From S2P Require Import Effects.
From S2P Require Import SchemaCache.

(** ** The core library's shared groups

    [SharedGroup] gives a Realm its transactions on a file that other threads
    and processes write to as well. The steps of [group_shared.hpp] whose
    implementation is not part of the repository are the operations of
    [CoreSharedGroup], with the behaviour its comments document as
    [SharedGroupLaws]; the transitions that file implements are programs of
    [RealmAdvance.v]. Waiting for the write lock is the point where other writers
    may commit: nothing relates the newest version before it to the one after. *)
Inductive TransactStage := transact_Ready | transact_Reading | transact_Writing.
#[global] Instance TransactStage_eq_dec : EqDecision TransactStage.
Proof. solve_decision. Defined.

Class CoreSharedGroup (G SG : Type) := {
  (** A new file at a path where there is none, just opened *)
  new_file : SG;
  get_transact_stage : SG -> TransactStage;
  set_transact_stage : TransactStage -> SG -> SG;
  (** The tables the transaction sees, and the version it is bound to *)
  group_of : SG -> G;
  bound_version : SG -> Z;
  (** What modifies the tables of a write transaction *)
  set_group : G -> SG -> SG;
  (** The newest version of the file, with its tables *)
  latest_version : SG -> Z;
  latest_group : SG -> G;
  (** Bind to another version; what the logs of the versions between say, and
      whether the tables report a schema change while they are brought there *)
  bind_version : Z -> SG -> SG;
  log_between : SG -> Z -> list Instruction;
  reports_schema_change : SG -> Z -> bool;
  has_changed : SG -> bool;
  (** Read transactions, at a version or at the newest one *)
  do_begin_read : option Z -> SG -> SG;
  do_end_read : SG -> SG;
  (** The write lock *)
  do_begin_write : SG -> SG;
  do_end_write : SG -> SG;
  do_commit : SG -> SG;
  (** The changes not committed, reversed, and the tables without them; whether
      these report a schema change *)
  reversed_changes : SG -> list Instruction;
  revert : SG -> SG;
  reports_reversal : SG -> bool;
  do_compact : SG -> SG * bool
}.

Class SharedGroupLaws (G SG : Type) `{CoreSharedGroup G SG} := {
  new_file_stage : get_transact_stage new_file = transact_Ready;
  stage_set stage sg : get_transact_stage (set_transact_stage stage sg) = stage;
  stage_set_writing sg : group_of (set_transact_stage transact_Writing sg) = group_of sg;
  stage_set_reading sg : group_of sg = latest_group sg -> group_of (set_transact_stage transact_Reading sg) = group_of sg;
  stage_set_bound stage sg : bound_version (set_transact_stage stage sg) = bound_version sg;
  stage_set_latest stage sg : latest_group (set_transact_stage stage sg) = latest_group sg;
  stage_set_version stage sg : latest_version (set_transact_stage stage sg) = latest_version sg;

  group_set g sg : get_transact_stage sg = transact_Writing -> group_of (set_group g sg) = g;
  group_set_stage g sg : get_transact_stage (set_group g sg) = get_transact_stage sg;
  group_set_latest g sg : latest_group (set_group g sg) = latest_group sg;
  group_set_bound g sg : bound_version (set_group g sg) = bound_version sg;

  bind_stage v sg : get_transact_stage (bind_version v sg) = get_transact_stage sg;
  bind_bound v sg : bound_version (bind_version v sg) = v;
  bind_group sg : group_of (bind_version (latest_version sg) sg) = latest_group sg;
  bind_latest v sg : latest_group (bind_version v sg) = latest_group sg;
  bind_version_latest v sg : latest_version (bind_version v sg) = latest_version sg;
  bound_latest sg : get_transact_stage sg = transact_Reading -> bound_version sg = latest_version sg ->
    group_of sg = latest_group sg;

  (** Beginning is an error when there is a transaction, and ending when there is
      a write transaction: nothing is said of these. *)
  begin_read_stage v sg : get_transact_stage sg = transact_Ready -> get_transact_stage (do_begin_read v sg) = transact_Reading;
  begin_read_group sg : get_transact_stage sg = transact_Ready -> group_of (do_begin_read None sg) = latest_group sg;
  begin_read_bound sg : get_transact_stage sg = transact_Ready -> bound_version (do_begin_read None sg) = latest_version sg;
  begin_read_latest v sg : latest_group (do_begin_read v sg) = latest_group sg;
  end_read_stage sg : get_transact_stage sg <> transact_Writing -> get_transact_stage (do_end_read sg) = transact_Ready;
  end_read_latest sg : latest_group (do_end_read sg) = latest_group sg;

  begin_write_stage sg : get_transact_stage (do_begin_write sg) = get_transact_stage sg;
  begin_write_group sg : group_of (do_begin_write sg) = group_of sg;
  begin_write_bound sg : bound_version (do_begin_write sg) = bound_version sg;
  end_write_stage sg : get_transact_stage (do_end_write sg) = get_transact_stage sg;
  end_write_group sg : group_of (do_end_write sg) = group_of sg;
  end_write_bound sg : bound_version (do_end_write sg) = bound_version sg;
  end_write_latest sg : latest_group (do_end_write sg) = latest_group sg;

  (** A commit makes the tables of the write transaction the newest ones. *)
  commit_stage sg : get_transact_stage sg = transact_Writing -> get_transact_stage (do_commit sg) = transact_Reading;
  commit_group sg : get_transact_stage sg = transact_Writing -> group_of (do_commit sg) = group_of sg;
  commit_latest sg : get_transact_stage sg = transact_Writing -> latest_group (do_commit sg) = group_of sg;

  (** Nothing else is committed during a write transaction, so that the tables
      without its changes are the newest ones. *)
  revert_stage sg : get_transact_stage (revert sg) = get_transact_stage sg;
  revert_group sg : get_transact_stage sg = transact_Writing -> group_of (revert sg) = latest_group sg;
  revert_latest sg : latest_group (revert sg) = latest_group sg;

  compact_stage sg : get_transact_stage sg = transact_Ready -> get_transact_stage (do_compact sg).1 = transact_Ready;
  compact_latest sg : latest_group (do_compact sg).1 = latest_group sg
}.

(** ** A file that satisfies the laws

    The tables are the committed ones, except in a write transaction and at
    versions that are not the newest. Another writer may be waiting to commit
    its tables before the write lock is taken. *)
Record PlainFile := mkPlainFile {
  pf_stage : TransactStage;
  pf_bound : Z;
  pf_local : PlainGroup;
  pf_committed : PlainGroup;
  pf_version : Z;
  pf_waiting : option PlainGroup
}.

Definition pf_group (f : PlainFile) : PlainGroup :=
  if bool_decide (pf_stage f = transact_Writing) then pf_local f
  else if pf_bound f =? pf_version f then pf_committed f else pf_local f.

(** The file with another stage, version, own and newest tables *)
Definition pf_with (f : PlainFile) (stage : TransactStage) (bound : Z) (local committed : PlainGroup) : PlainFile :=
  mkPlainFile stage bound local committed (pf_version f) (pf_waiting f).

#[global] Instance plain_shared_group : CoreSharedGroup PlainGroup PlainFile := {|
  new_file := mkPlainFile transact_Ready 1 (mkPlainGroup ∅ false) (mkPlainGroup ∅ false) 1 None;
  get_transact_stage := pf_stage;
  set_transact_stage stage f := pf_with f stage (pf_bound f) (pf_group f) (pf_committed f);
  group_of := pf_group;
  bound_version := pf_bound;
  set_group g f := pf_with f (pf_stage f) (pf_bound f) g (pf_committed f);
  latest_version := pf_version;
  latest_group := pf_committed;
  bind_version v f := pf_with f (pf_stage f) v (if v =? pf_version f then pf_committed f else pf_group f) (pf_committed f);
  log_between _ _ := [];
  reports_schema_change _ _ := true;
  has_changed f := negb (pf_bound f =? pf_version f);
  do_begin_read v f :=
    pf_with f transact_Reading (match v with Some v => v | None => pf_version f end) (pf_group f) (pf_committed f);
  do_end_read f := pf_with f transact_Ready (pf_bound f) (pf_group f) (pf_committed f);
  do_begin_write f :=
    match pf_waiting f with
    | None => f
    | Some g => mkPlainFile (pf_stage f) (pf_bound f) (pf_group f) g (Z.max (pf_bound f) (pf_version f) + 1) None
    end;
  do_end_write f := f;
  do_commit f := mkPlainFile transact_Reading (pf_version f + 1) (pf_group f) (pf_group f) (pf_version f + 1) (pf_waiting f);
  reversed_changes _ := [];
  revert f := pf_with f (pf_stage f) (pf_bound f) (pf_committed f) (pf_committed f);
  reports_reversal _ := false;
  do_compact f := (f, true)
|}.

#[global] Instance plain_shared_laws : SharedGroupLaws PlainGroup PlainFile.
Proof.
  assert (bool_decide (transact_Reading = transact_Writing) = false) as Er by done.
  constructor; try done; cbn; unfold pf_group; cbn; rewrite ?Er.
  - intros sg E. rewrite E. by destruct (_ =? _).
  - intros g sg E. by rewrite bool_decide_eq_true_2.
  - intros sg. rewrite Z.eqb_refl. by destruct (bool_decide (pf_stage sg = _)).
  - intros sg Es E. by rewrite Es, E, Er, Z.eqb_refl.
  - intros sg. by rewrite Z.eqb_refl.
  - intros sg. by destruct (pf_waiting sg).
  - intros sg. destruct (pf_waiting sg); [cbn|done]. destruct (bool_decide (pf_stage sg = _)); [done|].
    replace (pf_bound sg =? _) with false by (symmetry; apply Z.eqb_neq; lia). done.
  - intros sg. by destruct (pf_waiting sg).
  - intros sg. by rewrite Z.eqb_refl.
  - intros sg E. by rewrite bool_decide_eq_true_2.
Qed.

(** ** The state of a Realm *)
(** ** Realm configurations

    [Realm::Config] of [shared_realm.hpp], the parts of [SyncConfig] that
    identify a synchronized Realm, and the exceptions of [shared_realm.hpp].
    Functions and shared pointers of a configuration are known by whether they
    are set and by their identity. *)
Inductive RealmException :=
| StoreException (e : Exception)
| InvalidSchemaVersionException (old_version new_version : Z)
| InvalidTransactionException (message : string)
| ClosedRealmException
| IncorrectThreadException
| InvalidEncryptionKeyException
| MismatchedConfigException (message path : string)
| MismatchedRealmException (message : string)
| RealmFileException
| UnsupportedSchemaChange
| wrong_transact_state
| logic_error (message : string).

(** [SyncUser], known by its address, with the identity used for permissions *)
Record UserHandle := mkUser { user_pointer : nat; user_identity : string; user_is_admin : bool }.

Record SyncConfig := mkSyncConfig {
  user : UserHandle;
  realm_url : string;
  transformer : option nat;
  realm_encryption_key : option (list Z);
  is_partial : bool
}.

(** An [execution_context] that is unset stands for the current thread. *)
Inductive AnyExecutionContextID := thread_context (thread : Z) | abstract_context (context : Z).
#[global] Instance context_eq_dec : EqDecision AnyExecutionContextID.
Proof. solve_decision. Defined.

Definition execution_context_of (current_thread : Z) (context : option Z) : AnyExecutionContextID :=
  match context with Some c => abstract_context c | None => thread_context current_thread end.

Record Config := mkConfig {
  path : string;
  realm_data : option string;
  encryption_key : list Z;
  in_memory : bool;
  schema_mode : SchemaMode;
  schema : option Schema;
  schema_version : Z;
  migration_function : bool;
  initialization_function : bool;
  cache : bool;
  automatic_change_notifications : bool;
  execution_context : option Z;
  sync_config : option SyncConfig
}.

#[global] Instance SchemaMode_eq_dec : EqDecision SchemaMode.
Proof. solve_decision. Defined.

Definition is_mode (mode : SchemaMode) (c : Config) : bool := bool_decide (schema_mode c = mode).
Definition immutable (c : Config) : bool := is_mode Immutable c.
Definition read_only_alternative (c : Config) : bool := is_mode ReadOnlyAlternative c.
Definition set_schema_mode (mode : SchemaMode) (c : Config) : Config :=
  mkConfig (path c) (realm_data c) (encryption_key c) (in_memory c) mode (schema c) (schema_version c) (migration_function c)
    (initialization_function c) (cache c) (automatic_change_notifications c) (execution_context c) (sync_config c).
Definition without_schema (c : Config) : Config :=
  mkConfig (path c) (realm_data c) (encryption_key c) (in_memory c) (schema_mode c) None (schema_version c) false
    false (cache c) (automatic_change_notifications c) (execution_context c) (sync_config c).

Definition is_set {A} (o : option A) : bool := match o with Some _ => true | None => false end.

(** ** The state of a Realm *)
(** What a Realm calls: the binding, and the notifiers of its collections. *)
Inductive Callback :=
| binding (c : call_made)
| before_notify
| changes_available
| schema_did_change (schema : Schema)
| sync_session_notified
| others_notified.

Section realms.
Context (G SG : Type).

Record Files := mkFiles {
  m_shared_group : option SG;
  m_read_only_group : option G;
  (** whether [m_group] points to the group of one of them *)
  m_group : bool
}.

Record SchemaState := mkSchemaState {
  m_schema : Schema;
  m_schema_version : Z;
  m_new_schema : option Schema;
  m_schema_transaction_version : Z;
  m_dynamic_schema : bool
}.

Record Coordinator := mkCoordinator {
  schema_cache : SchemaCache;
  m_notifier_skip_version : Z
}.

Record Realm := mkRealm {
  m_config : Config;
  m_execution_context : AnyExecutionContextID;
  files : Files;
  schemas : SchemaState;
  (** the coordinator, and whether [m_coordinator] points to it *)
  coordinator : Coordinator;
  m_coordinator : bool;
  m_is_sending_notifications : bool;
  m_in_migration : bool;
  m_auto_refresh : bool;
  m_binding_context : bool;
  (** [m_permissions_cache]: while it is not cleared, the tables it was filled from *)
  m_permissions_cache : option (option G)
}.
End realms.
Arguments mkFiles {G SG}.
Arguments m_shared_group {G SG}.
Arguments m_read_only_group {G SG}.
Arguments m_group {G SG}.
Arguments mkRealm {G SG}.
Arguments m_config {G SG}.
Arguments m_execution_context {G SG}.
Arguments files {G SG}.
Arguments schemas {G SG}.
Arguments coordinator {G SG}.
Arguments m_coordinator {G SG}.
Arguments m_is_sending_notifications {G SG}.
Arguments m_in_migration {G SG}.
Arguments m_auto_refresh {G SG}.
Arguments m_binding_context {G SG}.
Arguments m_permissions_cache {G SG}.

(** ** Assignments to single members *)
Section assignments.
Context {G SG : Type}.
Implicit Types (r : Realm G SG).

Definition set_files (x : Files G SG) r : Realm G SG :=
  mkRealm (m_config r) (m_execution_context r) x (schemas r) (coordinator r) (m_coordinator r)
    (m_is_sending_notifications r) (m_in_migration r) (m_auto_refresh r) (m_binding_context r) (m_permissions_cache r).
Definition set_schemas (x : SchemaState) r : Realm G SG :=
  mkRealm (m_config r) (m_execution_context r) (files r) x (coordinator r) (m_coordinator r)
    (m_is_sending_notifications r) (m_in_migration r) (m_auto_refresh r) (m_binding_context r) (m_permissions_cache r).
Definition set_coordinator (x : Coordinator) r : Realm G SG :=
  mkRealm (m_config r) (m_execution_context r) (files r) (schemas r) x (m_coordinator r)
    (m_is_sending_notifications r) (m_in_migration r) (m_auto_refresh r) (m_binding_context r) (m_permissions_cache r).
Definition set_sending (x : bool) r : Realm G SG :=
  mkRealm (m_config r) (m_execution_context r) (files r) (schemas r) (coordinator r) (m_coordinator r)
    x (m_in_migration r) (m_auto_refresh r) (m_binding_context r) (m_permissions_cache r).
Definition set_in_migration (x : bool) r : Realm G SG :=
  mkRealm (m_config r) (m_execution_context r) (files r) (schemas r) (coordinator r) (m_coordinator r)
    (m_is_sending_notifications r) x (m_auto_refresh r) (m_binding_context r) (m_permissions_cache r).
Definition set_permissions_cache (x : option (option G)) r : Realm G SG :=
  mkRealm (m_config r) (m_execution_context r) (files r) (schemas r) (coordinator r) (m_coordinator r)
    (m_is_sending_notifications r) (m_in_migration r) (m_auto_refresh r) (m_binding_context r) x.

Definition set_shared_group (x : SG) r : Realm G SG :=
  set_files (mkFiles (Some x) (m_read_only_group (files r)) (m_group (files r))) r.
Definition set_group_pointer (x : bool) r : Realm G SG :=
  set_files (mkFiles (m_shared_group (files r)) (m_read_only_group (files r)) x) r.

Definition set_schema_and_version (schema : Schema) (version : Z) r : Realm G SG :=
  let s := schemas r in
  set_schemas (mkSchemaState schema version (m_new_schema s) (m_schema_transaction_version s) (m_dynamic_schema s)) r.
Definition set_m_schema (schema : Schema) r : Realm G SG := set_schema_and_version schema (m_schema_version (schemas r)) r.
Definition set_new_schema (x : option Schema) r : Realm G SG :=
  let s := schemas r in
  set_schemas (mkSchemaState (m_schema s) (m_schema_version s) x (m_schema_transaction_version s) (m_dynamic_schema s)) r.
Definition set_transaction_version (x : Z) r : Realm G SG :=
  let s := schemas r in
  set_schemas (mkSchemaState (m_schema s) (m_schema_version s) (m_new_schema s) x (m_dynamic_schema s)) r.
Definition set_dynamic_schema (x : bool) r : Realm G SG :=
  let s := schemas r in
  set_schemas (mkSchemaState (m_schema s) (m_schema_version s) (m_new_schema s) (m_schema_transaction_version s) x) r.
Definition set_schema_cache (x : SchemaCache) r : Realm G SG :=
  set_coordinator (mkCoordinator x (m_notifier_skip_version (coordinator r))) r.
End assignments.

(** ** The application: what its functions do to the Realm when they are called,
    whether it observes rows, and the notifiers there are *)
Class Application (G SG : Type) := {
  react : Callback -> Realm G SG -> Realm G SG;
  observes_rows : Realm G SG -> bool;
  observed_table_changed : Realm G SG -> list TransactLog.Instruction -> bool;
  (** The notifiers of a Realm the worker has not run yet, and the others *)
  new_notifiers : Realm G SG -> list PackagedNotifier;
  old_notifiers : Realm G SG -> list PackagedNotifier;
  async_error : Realm G SG -> bool;
  current_thread : Z
}.

Definition notifiers_for_realm `{Application G SG} (r : Realm G SG) : list PackagedNotifier := new_notifiers r ++ old_notifiers r.
