(* ===== verification/RealmAdvance.v ===== *)
(** * Realms: advancing the transaction

    The transitions of [group_shared.hpp] on the Realm's shared group, the
    functions of [transact_log_handler.cpp] that notify the binding and the
    notifiers around them, and what [realm_coordinator.cpp] does with them for
    one Realm. *)
From S2P Require Import Prelude.
From S2P Require Import SchemaTypes.
From S2P Require Import Schemas.
From S2P Require Import CoreTables.
From S2P Require Import ObjectStore.
From S2P Require Import StoreChanges.
From S2P Require Import TransactLog.
From S2P Require Import Effects.
From S2P Require Import Advance.
From S2P Require Import SchemaCache.
From S2P Require Import Realms.

(** ** Realms: conditions, read transactions and the schema read from the file

    The parts of [shared_realm.cpp] that other operations share: the checks
    they begin with, [begin_read] and [read_group], and what keeps [m_schema]
    and [m_schema_version] those of the file. *)
Section reads.
Context {G SG : Type} `{CoreGroup G} `{CharSign, StdSort, StdPartition} `{CoreSharedGroup G SG} `{Application G SG}.
Abbreviation P := (Prog (Realm G SG) RealmException).
Abbreviation realm := (Realm G SG).
Implicit Types (r : realm).

Definition lift {A} (m : Result A) : P A :=
  match m with Ok a => mret a | Throw e => raise (StoreException e) | Crash => fails end.

(** Uses of [*m_shared_group], [*m_group] and [*m_coordinator] *)
Definition the_shared_group : P SG :=
  r ← get; match m_shared_group (files r) with Some sg => mret sg | None => fails end.
Definition update_shared_group (f : SG -> SG) : P () := sg ← the_shared_group; modify (set_shared_group (f sg)).
Definition the_group : P G :=
  r ← get;
  if m_group (files r) then
    match m_read_only_group (files r), m_shared_group (files r) with
    | Some g, _ => mret g
    | None, Some sg => mret (group_of sg)
    | None, None => fails
    end
  else fails.
Definition the_coordinator : P Coordinator := r ← get; if m_coordinator r then mret (coordinator r) else fails.
Definition update_cache (f : SchemaCache -> SchemaCache) : P () :=
  c ← the_coordinator; modify (set_schema_cache (f (schema_cache c))).

(** Call the application; the binding is called if there is one. *)
Definition call (c : Callback) : P () := modify (react c).
Definition tell (c : Callback) : P () := r ← get; when (m_binding_context r) (call c).

(** ** Conditions *)
Definition is_closed r : bool := negb (is_set (m_read_only_group (files r))) && negb (is_set (m_shared_group (files r))).
Definition is_in_transaction r : bool :=
  match m_shared_group (files r) with
  | None => false
  | Some sg => bool_decide (get_transact_stage sg = transact_Writing)
  end.
Definition is_in_read_transaction r : bool := m_group (files r).

Definition throw_when (b : bool) (e : RealmException) : P () := if b then raise e else mret ().

Definition check_read_write : P () :=
  r ← get; throw_when (immutable (m_config r)) (InvalidTransactionException "Can't perform transactions on read-only Realms.").
Definition check_write : P () :=
  r ← get;
  throw_when (immutable (m_config r) || read_only_alternative (m_config r))
    (InvalidTransactionException "Can't perform transactions on read-only Realms.").
Definition verify_thread : P () :=
  r ← get;
  match m_execution_context r with
  | abstract_context _ => mret ()
  | thread_context thread_id => throw_when (negb (thread_id =? current_thread)) IncorrectThreadException
  end.
Definition verify_in_write : P () :=
  r ← get;
  throw_when (negb (is_in_transaction r)) (InvalidTransactionException "Cannot modify managed objects outside of a write transaction.").
Definition verify_open : P () := r ← get; throw_when (is_closed r) ClosedRealmException.

(** ** The schema of the file *)
Definition notify_schema_changed : P () := r ← get; tell (schema_did_change (m_schema (schemas r))).

(** [read_group] where [m_group] is known to be set *)
Definition opened_group : P G := _ ← verify_open; the_group.

(** What the realm's copy of the schema becomes when [schema] was read *)
Definition adopt_schema (schema : Schema) : P () :=
  r ← get;
  let current := m_schema (schemas r) in
  if m_dynamic_schema (schemas r) then
    if schema_eqb current schema then modify (set_m_schema (copy_table_columns_from current schema))
    else modify (set_m_schema schema)
  else
    _ ← lift (verify_valid_external_changes (compare current schema false));
    modify (set_m_schema (copy_table_columns_from current schema)).

Definition read_schema_from_group_if_needed : P () :=
  r ← get;
  _ ← assert (negb (is_set (m_read_only_group (files r))));
  group ← opened_group;
  sg ← the_shared_group;
  let current_version := bound_version sg in
  if m_schema_transaction_version (schemas r) =? current_version then mret ()
  else
    _ ← modify (set_transaction_version current_version);
    _ ← modify (fun r => set_schema_and_version (m_schema (schemas r)) (get_schema_version group) r);
    schema ← lift (schema_from_group group);
    r ← get;
    _ ← when (m_coordinator r) (update_cache (Cache.cache_schema schema (get_schema_version group) current_version));
    _ ← adopt_schema schema;
    notify_schema_changed.

Definition begin_read (version_id : option Z) : P () :=
  r ← get;
  _ ← assert (negb (m_group (files r)));
  _ ← update_shared_group (do_begin_read version_id);
  _ ← modify (set_group_pointer true);
  read_schema_from_group_if_needed.

Definition read_group : P G :=
  _ ← verify_open;
  r ← get;
  _ ← when (negb (m_group (files r))) (begin_read None);
  the_group.

(** The handler [add_schema_change_handler] installs *)
Definition schema_change_handler : P () :=
  group ← read_group;
  schema ← lift (schema_from_group group);
  _ ← modify (set_new_schema (Some schema));
  group ← read_group;
  _ ← modify (fun r => set_schema_and_version (m_schema (schemas r)) (get_schema_version group) r);
  r ← get;
  _ ← (if m_dynamic_schema (schemas r) then modify (set_m_schema schema)
       else modify (set_m_schema (copy_table_columns_from (m_schema (schemas r)) schema)));
  notify_schema_changed.

Definition cache_new_schema : P () :=
  r ← get;
  match m_shared_group (files r) with
  | None => mret ()
  | Some sg =>
    let new_version := bound_version sg in
    _ ← when (m_coordinator r)
      (match m_new_schema (schemas r) with
       | Some schema => update_cache (Cache.cache_schema schema (m_schema_version (schemas r)) new_version)
       | None =>
         match Cache.advance_schema_cache (m_schema_transaction_version (schemas r)) new_version (schema_cache (coordinator r)) with
         | Some c => modify (set_schema_cache c)
         | None => fails
         end
       end);
    _ ← modify (set_transaction_version new_version);
    modify (set_new_schema None)
  end.

Definition set_schema (reference schema : Schema) : P () :=
  _ ← modify (set_dynamic_schema false);
  _ ← modify (set_m_schema (copy_table_columns_from schema reference));
  notify_schema_changed.

Definition invalidate_permission_cache : P () :=
  modify (fun r => match m_permissions_cache r with Some _ => set_permissions_cache (Some None) r | None => r end).
End reads.

(** ** Realms: advancing the transaction *)
Section advance.
Context {G SG : Type} `{CoreGroup G} `{CharSign, StdSort, StdPartition} `{CoreSharedGroup G SG} `{Application G SG, Worker}.
Abbreviation P := (Prog (Realm G SG) RealmException).
Abbreviation realm := (Realm G SG).
Abbreviation package := NotifierPackage.
Implicit Types (r : realm) (p : package).

(** ** The transitions of [SharedGroup]

    An observer parses the log; [x] is its result when there is no log to parse. *)
Section transitions.
Context {X : Type} (observer : list Instruction -> P X) (x : X).

Definition do_advance_read (version_id : option Z) : P X :=
  sg ← the_shared_group;
  let new_version := match version_id with Some v => v | None => latest_version sg end in
  _ ← assert (bound_version sg <=? new_version);
  if new_version =? bound_version sg then mret x
  else
    x ← observer (log_between sg new_version);
    sg ← the_shared_group;
    _ ← modify (set_shared_group (bind_version new_version sg));
    _ ← when (reports_schema_change sg new_version) schema_change_handler;
    mret x.

Definition advance_read (version_id : option Z) : P X :=
  sg ← the_shared_group;
  if negb (bool_decide (get_transact_stage sg = transact_Reading)) then raise wrong_transact_state
  else if match version_id with Some v => v <? bound_version sg | None => false end then raise (logic_error "bad version")
  else do_advance_read version_id.

Definition promote_to_write : P X :=
  sg ← the_shared_group;
  if negb (bool_decide (get_transact_stage sg = transact_Reading)) then raise wrong_transact_state
  else
    _ ← update_shared_group do_begin_write;
    x ← catch (do_advance_read None) (fun e => Some (_ ← update_shared_group do_end_write; raise e));
    _ ← update_shared_group (set_transact_stage transact_Writing);
    mret x.

Definition rollback_and_continue_as_read : P X :=
  sg ← the_shared_group;
  if negb (bool_decide (get_transact_stage sg = transact_Writing)) then raise wrong_transact_state
  else
    let reversed := reversed_changes sg in
    x ← (if bool_decide (reversed = []) then mret x else observer reversed);
    _ ← update_shared_group revert;
    _ ← when (reports_reversal sg) schema_change_handler;
    _ ← update_shared_group do_end_write;
    _ ← update_shared_group (set_transact_stage transact_Reading);
    mret x.
End transitions.

(** An observer that does nothing *)
Definition no_observer (_ : list Instruction) : P () := mret ().

(** ** Observers of the log *)
Fixpoint validate_log (current_table : nat) (log : list Instruction) : P () :=
  match log with
  | [] => mret ()
  | i :: log =>
    match validate current_table i with
    | Handled current_table => validate_log current_table log
    | TransactLog.UnsupportedSchemaChange => raise UnsupportedSchemaChange
    | Failed => fails
    end
  end.

Fixpoint tell_notifiers (f : nat -> call_made) (l : list PackagedNotifier) : P () :=
  match l with [] => mret () | n :: l => _ ← call (binding (f (notifier_id n))); tell_notifiers f l end.

(** [NotifierPackage] *)
Definition before_advance p : P () :=
  when (negb (m_package_error p)) (tell_notifiers called_before_advance (Advance.m_notifiers p)).
Definition deliver p : P () :=
  sg ← the_shared_group;
  if m_package_error p then tell_notifiers called_deliver_error (Advance.m_notifiers p)
  else when (bool_decide (get_transact_stage sg = transact_Reading)) (tell_notifiers called_deliver (Advance.m_notifiers p)).
Definition after_advance p : P () :=
  when (negb (m_package_error p)) (tell_notifiers called_after_advance (Advance.m_notifiers p)).
Definition package_and_wait (target : option Z) p : P package :=
  match Package.package_and_wait target p with Some p => mret p | None => fails end.

(** [TransactLogValidator] *)
Definition log_validator p (log : list Instruction) : P package := _ ← validate_log 0 log; mret p.

(** [KVOTransactLogObserver]: the log is validated and parsed, [parse_complete]
    calls the binding and the notifiers *)
Definition kvo_observer p (log : list Instruction) : P package :=
  _ ← validate_log 0 log;
  r ← get;
  _ ← when (observed_table_changed r log) (tell (binding called_will_change));
  sg ← the_shared_group;
  p ← package_and_wait (Some (latest_version sg)) p;
  _ ← before_advance p;
  mret p.

(** its destructor *)
Definition kvo_after : P () := tell (binding called_did_change).

(** ** [advance_with_notifications]; [func] is a transition given the observer *)
Definition has_notifiers p : bool := negb (bool_decide (Advance.m_notifiers p = [])).

Definition advance_with_notifications (func : (list Instruction -> P package) -> package -> P package) p : P () :=
  sg ← the_shared_group;
  let old_version := bound_version sg in
  r ← get;
  let observers := m_binding_context r && observes_rows r in
  if negb observers && (negb (has_notifiers p) || is_set (Advance.m_version p)) then
    _ ← before_advance p;
    _ ← func (log_validator p) p;
    sg ← the_shared_group;
    let new_version := bound_version sg in
    _ ← when (negb (old_version =? new_version)) (tell (binding called_did_change));
    r ← get;
    if negb (is_set (m_shared_group (files r))) then mret ()
    else
      _ ← tell (binding called_will_send_notifications);
      r ← get;
      if negb (is_set (m_shared_group (files r))) then mret ()
      else
        sg ← the_shared_group;
        _ ← when (new_version =? bound_version sg) (deliver p);
        _ ← after_advance p;
        r ← get;
        when (is_set (m_shared_group (files r))) (tell (binding called_did_send_notifications))
  else
    _ ← tell (binding called_will_send_notifications);
    _ ← the_shared_group;
    p ← scope_exit (func (kvo_observer p) p) kvo_after;
    sg ← the_shared_group;
    p ← package_and_wait (Some (bound_version sg)) p;
    _ ← deliver p;
    _ ← after_advance p;
    tell (binding called_did_send_notifications).


Definition transaction_advance p : P () :=
  advance_with_notifications (fun observer p => advance_read observer p (Advance.m_version p)) p.
Definition transaction_begin_without_validation : P () := promote_to_write no_observer ().
Definition transaction_begin p : P () := advance_with_notifications promote_to_write p.
Definition transaction_commit : P () := update_shared_group do_commit.
Definition transaction_cancel : P () :=
  r ← get;
  if negb (m_binding_context r && observes_rows r) then rollback_and_continue_as_read no_observer ()
  else
    _ ← scope_exit (rollback_and_continue_as_read (kvo_observer Package.empty_package) Package.empty_package) kvo_after;
    mret ().


(** ** [RealmCoordinator], for one Realm *)
Definition package_for r : package := mkPackage None (notifiers_for_realm r) true (async_error r).

Definition coordinator_promote_to_write : P () :=
  _ ← the_coordinator;
  r ← get;
  _ ← assert (negb (is_in_transaction r));
  transaction_begin (package_for r).

Definition commit_write : P () :=
  _ ← the_coordinator;
  r ← get;
  _ ← assert (negb (immutable (m_config r)));
  _ ← assert (is_in_transaction r);
  _ ← transaction_commit;
  sg ← the_shared_group;
  r ← get;
  _ ← when (negb (bool_decide (old_notifiers r = [])))
    (modify (fun r => set_coordinator (mkCoordinator (schema_cache (coordinator r)) (bound_version sg)) r));
  _ ← call sync_session_notified;
  _ ← tell (binding called_did_change);
  call others_notified.

(** Deliver to the notifiers without advancing *)
Definition deliver_at_version p : P () :=
  _ ← tell (binding called_will_send_notifications);
  _ ← deliver p;
  _ ← after_advance p;
  tell (binding called_did_send_notifications).

Definition advance_to_ready : P () :=
  _ ← the_coordinator;
  r ← get;
  p ← package_and_wait None (package_for r);
  sg ← the_shared_group;
  match has_notifiers p, Advance.m_version p with
  | true, Some version =>
    if version <? bound_version sg then mret ()
    else if version =? bound_version sg then deliver_at_version p
    else transaction_advance p
  | _, _ => transaction_advance p
  end.

Definition advance_to_latest : P bool :=
  _ ← the_coordinator;
  r ← get;
  sg ← the_shared_group;
  p ← package_and_wait (Some (latest_version sg)) (package_for r);
  sg ← the_shared_group;
  let version := bound_version sg in
  _ ← transaction_advance p;
  r ← get;
  if is_closed r then mret false
  else sg ← the_shared_group; mret (negb (version =? bound_version sg)).

(** The notifiers [process_available_async] has something to deliver for *)
Definition available (in_read : bool) (version : Z) (l : list PackagedNotifier) : list PackagedNotifier :=
  List.filter (fun n => notifier_has_run n && (negb in_read || (notifier_version n =? version)) && has_something n) l.

Definition process_available_async : P () :=
  _ ← the_coordinator;
  r ← get;
  _ ← assert (negb (is_in_transaction r));
  let notifiers := notifiers_for_realm r in
  if bool_decide (notifiers = []) then mret ()
  else
    _ ← tell (binding called_will_send_notifications);
    r ← get;
    if async_error r then
      _ ← tell_notifiers called_deliver_error notifiers;
      tell (binding called_did_send_notifications)
    else
      let in_read := is_in_read_transaction r in
      match m_shared_group (files r) with
      | None => mret ()
      | Some sg =>
        let notifiers := available in_read (bound_version sg) notifiers in
        _ ← when in_read (_ ← the_shared_group; tell_notifiers called_deliver notifiers);
        _ ← tell_notifiers called_after_advance notifiers;
        tell (binding called_did_send_notifications)
      end.
End advance.
