(* ===== verification/SharedRealm.v ===== *)
(** * Realms: transactions, refreshing and schema updates

    The operations of [Realm] in [shared_realm.cpp]. *)
From S2P Require Import Prelude.
From S2P Require Import ChangeBuilder.
From S2P Require Import SchemaTypes.
From S2P Require Import Schemas.
From S2P Require Import CoreTables.
From S2P Require Import ObjectStore.
From S2P Require Import StoreChanges.
From S2P Require Import Effects.
From S2P Require Import Advance.
From S2P Require Import SchemaCache.
From S2P Require Import Realms.
From S2P Require Import RealmAdvance.

Section shared_realm.
Context {G SG : Type} `{CoreGroup G} `{CharSign, StdSort, StdPartition} `{BuildMode}.
Context `{CoreSharedGroup G SG} `{Application G SG, Worker}.
Abbreviation P := (Prog (Realm G SG) RealmException).
Abbreviation realm := (Realm G SG).
Implicit Types (r : realm).

Definition sending_notifications {A} (m : P A) : P A :=
  _ ← modify (set_sending true);
  scope_exit m (modify (set_sending false)).

(** Opens another Realm of the file to read the schema another process wrote *)
Definition translate_schema_error {A} : P A :=
  r ← get;
  sg ← the_shared_group;
  new_schema ← lift (schema_from_group (latest_group sg));
  _ ← lift (verify_valid_external_changes (compare (m_schema (schemas r)) new_schema true));
  raise UnsupportedSchemaChange.

Definition translating {A} (m : P A) : P A :=
  catch m (fun e => match e with UnsupportedSchemaChange => Some translate_schema_error | _ => None end).

(** ** Write transactions *)
Definition begin_transaction : P () :=
  _ ← check_write;
  _ ← verify_thread;
  r ← get;
  if is_in_transaction r then raise (InvalidTransactionException "The Realm is already in a write transaction")
  else if m_is_sending_notifications r then transaction_begin Package.empty_package
  else
    _ ← read_group;
    sending_notifications (
      _ ← translating coordinator_promote_to_write;
      cache_new_schema).

Definition commit_transaction : P () :=
  _ ← check_write;
  _ ← verify_thread;
  r ← get;
  if negb (is_in_transaction r) then raise (InvalidTransactionException "Can't commit a non-existing write transaction")
  else
    _ ← commit_write;
    _ ← cache_new_schema;
    invalidate_permission_cache.

Definition cancel_transaction : P () :=
  _ ← check_write;
  _ ← verify_thread;
  r ← get;
  if negb (is_in_transaction r) then raise (InvalidTransactionException "Can't cancel a non-existing write transaction")
  else
    _ ← transaction_cancel;
    invalidate_permission_cache.

(** ** Read transactions *)
Definition invalidate : P () :=
  _ ← verify_open;
  _ ← verify_thread;
  _ ← check_read_write;
  r ← get;
  if m_is_sending_notifications r then mret ()
  else
    _ ← when (is_in_transaction r) cancel_transaction;
    r ← get;
    if negb (m_group (files r)) then mret ()
    else
      _ ← modify (set_permissions_cache None);
      _ ← update_shared_group do_end_read;
      modify (set_group_pointer false).

Definition compact : P bool :=
  _ ← verify_thread;
  r ← get;
  if immutable (m_config r) || read_only_alternative (m_config r)
  then raise (InvalidTransactionException "Can't compact a read-only Realm")
  else if is_in_transaction r then raise (InvalidTransactionException "Can't compact a Realm within a write transaction")
  else
    _ ← verify_open;
    _ ← when (m_group (files r)) (update_shared_group do_end_read);
    _ ← modify (set_group_pointer false);
    sg ← the_shared_group;
    _ ← modify (set_shared_group (do_compact sg).1);
    mret (do_compact sg).2.

Definition refresh : P bool :=
  _ ← verify_thread;
  _ ← check_read_write;
  r ← get;
  if is_in_transaction r || m_is_sending_notifications r then mret false
  else
    _ ← invalidate_permission_cache;
    sending_notifications (
      _ ← tell before_notify;
      r ← get;
      if m_group (files r) then
        translating (
          version_changed ← advance_to_latest;
          _ ← cache_new_schema;
          mret version_changed)
      else
        _ ← read_group;
        _ ← process_available_async;
        mret true).

(** The part of [notify] that advances, or tells the binding that it could *)
Definition notify_advance : P () :=
  _ ← modify (set_sending true);
  r ← get;
  if negb (m_auto_refresh r) then mret ()
  else if m_group (files r) then
    _ ← translating advance_to_ready;
    cache_new_schema
  else
    _ ← tell (binding called_did_change);
    r ← get;
    when (negb (is_closed r)) process_available_async.

(** The part of [notify] under its clean-up *)
Definition notify_changes : P () :=
  sg ← the_shared_group;
  if negb (has_changed sg) then _ ← modify (set_sending true); process_available_async
  else
    r ← get;
    still_changed ← (if m_binding_context r then
                       _ ← call changes_available;
                       sg ← the_shared_group;
                       mret (has_changed sg)
                     else mret true);
    if negb still_changed then mret () else notify_advance.

Definition notify : P () :=
  r ← get;
  if is_closed r || is_in_transaction r then mret ()
  else
    _ ← verify_thread;
    _ ← invalidate_permission_cache;
    _ ← tell before_notify;
    scope_exit notify_changes (modify (set_sending false)).

Definition close : P () :=
  modify (fun r => mkRealm (m_config r) (m_execution_context r) (mkFiles None None false) (schemas r) (coordinator r) false
    (m_is_sending_notifications r) (m_in_migration r) (m_auto_refresh r) false None).

(** ** Schema updates *)
Definition reset_file (schema : Schema) : P (list SchemaChange) :=
  _ ← modify (set_files (mkFiles (Some new_file) None false));
  group ← read_group;
  actual ← lift (schema_from_group group);
  _ ← modify (set_m_schema actual);
  group ← read_group;
  _ ← modify (set_schema_and_version actual (get_schema_version group));
  _ ← update_cache (Cache.clear_schema_cache_and_set_schema_version (get_schema_version group));
  mret (compare actual schema false).

Definition older (version current : Z) : bool := (version <? current) && negb (current =? NotVersioned).

(** Returns the changes as well, which resetting the file replaces *)
Definition schema_change_needs_write_transaction (schema : Schema) (changes : list SchemaChange) (version : Z) :
    P (bool * list SchemaChange) :=
  r ← get;
  let current := m_schema_version (schemas r) in
  if (version =? current) && bool_decide (length changes = 0)%nat then mret (false, changes)
  else
    let read_only := _ ← lift (verify_compatible_for_immutable_and_readonly changes); mret (false, changes) in
    match schema_mode (m_config r) with
    | Automatic =>
      if older version current then raise (InvalidSchemaVersionException current version) else mret (true, changes)
    | Immutable =>
      if negb (version =? current) then raise (InvalidSchemaVersionException current version) else read_only
    | ReadOnlyAlternative => read_only
    | ResetFile =>
      if current =? NotVersioned then mret (true, changes)
      else if (current =? version) && negb (needs_migration changes) then mret (true, changes)
      else changes ← reset_file schema; mret (true, changes)
    | Additive =>
      let will_apply_index_changes := current <? version in
      b ← lift (verify_valid_additive_changes changes will_apply_index_changes);
      if b : bool then mret (true, changes) else mret (negb (version =? current), changes)
    | Manual =>
      if older version current then raise (InvalidSchemaVersionException current version)
      else if version =? current then _ ← lift (verify_no_changes_required changes); fails
      else mret (true, changes)
    end.

Definition get_full_schema : P Schema :=
  r ← get;
  _ ← when (negb (is_set (m_read_only_group (files r)))) (_ ← refresh; mret ());
  r ← get;
  if m_dynamic_schema (schemas r) then mret (m_schema (schemas r))
  else if is_set (m_read_only_group (files r)) then group ← read_group; lift (schema_from_group group)
  else
    c ← the_coordinator;
    sg ← the_shared_group;
    match Cache.get_cached_schema (schema_cache c) with
    | Some (schema, _, transaction) =>
      if transaction =? bound_version sg then mret schema
      else group ← read_group; lift (schema_from_group group)
    | None => group ← read_group; lift (schema_from_group group)
    end.

Definition set_schema_subset (schema : Schema) : P () :=
  r ← get;
  _ ← assert (m_dynamic_schema (schemas r));
  _ ← assert (negb (m_schema_version (schemas r) =? NotVersioned));
  let changes := compare (m_schema (schemas r)) schema false in
  _ ← (match schema_mode (m_config r) with
       | Automatic | ResetFile => lift (verify_no_migration_required changes)
       | Immutable | ReadOnlyAlternative => lift (verify_compatible_for_immutable_and_readonly changes)
       | Additive => _ ← lift (verify_valid_additive_changes changes false); mret ()
       | Manual => lift (verify_no_changes_required changes)
       end);
  set_schema (m_schema (schemas r)) schema.

(** The functions an update may be given: the migration function sees the
    tables before and changes the tables and the schema it migrates to, the
    initialization function changes the tables. When [ObjectStore] or one of
    them throws, [partly_applied] says which tables it leaves. The tables cannot
    be changed outside of a write transaction. *)
Variable create_default_permissions : G -> list SchemaChange -> string -> Result G.
Variable partly_applied : G -> G.
Abbreviation MigrationFunction := (G -> G * Schema -> Result (G * Schema)).
Abbreviation DataInitializationFunction := (G -> Result G).

Definition change_group {A} (f : G -> Result (G * A)) : P A :=
  group ← read_group;
  r ← get;
  if negb (is_in_transaction r) then raise wrong_transact_state
  else match f group with
  | Ok (group, a) => _ ← update_shared_group (set_group group); mret a
  | Throw e => _ ← update_shared_group (set_group (partly_applied group)); raise (StoreException e)
  | Crash => fails
  end.

(** Swaps [m_schema] and [m_schema_version] with variables of the caller while
    [m] runs; returns what the variables hold afterwards. *)
Definition with_schema {A} (schema : Schema) (version : Z) (m : P A) : P (A * (Schema * Z)) :=
  r ← get;
  let saved := schemas r in
  _ ← modify (set_schema_and_version schema version);
  scope_exit (a ← m; r ← get; mret (a, (m_schema (schemas r), m_schema_version (schemas r))))
    (modify (set_schema_and_version (m_schema saved) (m_schema_version saved))).

(** The old Realm is opened on the newest version of the file *)
Definition migration_wrapper (sg : SG) (f : MigrationFunction) (st : G * Schema) : Result (G * Schema) :=
  _ ← schema_from_group (latest_group sg);
  f (latest_group sg) st.

Definition run_migration (f : MigrationFunction) (schema : Schema) (version : Z) (required_changes : list SchemaChange) :
    P (Schema * Z) :=
  r ← get;
  let old_version := m_schema_version (schemas r) in
  '(_, st) ← with_schema schema version (
    _ ← modify (set_in_migration true);
    scope_exit (
      sg ← the_shared_group;
      r ← get;
      schema ← change_group (fun group =>
        apply_schema_changes create_default_permissions group old_version (m_schema (schemas r)) (m_schema_version (schemas r))
          (schema_mode (m_config r)) required_changes None (Some (migration_wrapper sg f)));
      modify (set_m_schema schema))
      (modify (set_in_migration false)));
  mret st.

Definition sync_user_id (c : Config) : option string :=
  match sync_config c with
  | Some s => if is_partial s then Some (user_identity (user s)) else None
  | None => None
  end.

Definition run_changes (schema : Schema) (version : Z) (required_changes : list SchemaChange) : P Schema :=
  r ← get;
  let additive := is_mode Additive (m_config r) in
  schema ← change_group (fun group =>
    apply_schema_changes create_default_permissions group (m_schema_version (schemas r)) schema version
      (schema_mode (m_config r)) required_changes (sync_user_id (m_config r)) None);
  _ ← (if realm_debug && negb additive then
         group ← read_group;
         actual ← lift (schema_from_group group);
         assert (bool_decide (length (compare actual schema false) = 0)%nat)
       else mret ());
  mret schema.

Definition run_initialization (f : DataInitializationFunction) (schema : Schema) : P Schema :=
  group ← read_group;
  '(_, (schema, _)) ← with_schema schema (get_schema_version group) (change_group (fun g => g ← f g; Ok (g, ())));
  mret schema.

(** The part of [update_schema] inside the write transaction *)
Definition apply_update (schema : Schema) (version : Z) (migration : option MigrationFunction)
    (initialization : option DataInitializationFunction) (in_transaction : bool) (required_changes : list SchemaChange) : P () :=
  r ← get;
  let old_schema_version := m_schema_version (schemas r) in
  '(schema, version) ← (match migration with
    | Some f =>
      if is_mode Additive (m_config r) then schema ← run_changes schema version required_changes; mret (schema, version)
      else run_migration f schema version required_changes
    | None => schema ← run_changes schema version required_changes; mret (schema, version)
    end);
  schema ← (match initialization with
    | Some f => if old_schema_version =? NotVersioned then run_initialization f schema else mret schema
    | None => mret schema
    end);
  _ ← when (negb in_transaction) commit_transaction;
  _ ← modify (set_m_schema schema);
  group ← read_group;
  _ ← modify (set_schema_and_version schema (get_schema_version group));
  _ ← modify (set_dynamic_schema false);
  _ ← update_cache (Cache.clear_schema_cache_and_set_schema_version version);
  notify_schema_changed.

Definition update_schema (schema : Schema) (version : Z) (migration : option MigrationFunction)
    (initialization : option DataInitializationFunction) (in_transaction : bool) : P () :=
  _ ← lift (validate schema);
  actual_schema ← get_full_schema;
  let required_changes := compare actual_schema schema false in
  '(needed, required_changes) ← schema_change_needs_write_transaction schema required_changes version;
  if negb needed then set_schema actual_schema schema
  else
    let cleanup := r ← get; when (negb in_transaction && is_in_transaction r) cancel_transaction in
    let update required_changes :=
      scope_exit (apply_update schema version migration initialization in_transaction required_changes) cleanup in
    if in_transaction then update required_changes
    else
      _ ← transaction_begin_without_validation;
      r ← get;
      match m_new_schema (schemas r) with
      | None => _ ← cache_new_schema; update required_changes
      | Some actual_schema =>
        let required_changes := compare actual_schema schema false in
        '(needed, required_changes) ← schema_change_needs_write_transaction schema required_changes version;
        if negb needed then
          _ ← cancel_transaction;
          _ ← cache_new_schema;
          set_schema actual_schema schema
        else _ ← cache_new_schema; update required_changes
      end.
End shared_realm.
