(* ===== verification/RealmFacts.v ===== *)
(** * Realms: the state of the transaction

    [state_of] is what the operations of a Realm depend on: whether it is open,
    and its transaction. The lemmas say which parts of the operations leave it
    alone, provided that the functions of the application do. *)
From S2P Require Import Prelude.
From S2P Require Import SchemaTypes.
From S2P Require Import Schemas.
From S2P Require Import CoreTables.
From S2P Require Import ObjectStore.
From S2P Require Import StoreChanges.
From S2P Require Import Effects.
From S2P Require Import Advance.
From S2P Require Import SchemaCache.
From S2P Require Import Realms.
From S2P Require Import RealmAdvance.
From S2P Require Import SharedRealm.

Inductive RealmState := Closed | OpenImmutable | Idle | InRead | InWrite.
#[global] Instance RealmState_eq_dec : EqDecision RealmState.
Proof. solve_decision. Defined.

Section facts.
Context {G SG : Type} `{CoreGroup G} `{CharSign, StdSort, StdPartition}.
Context `{SharedGroupLaws G SG} `{Application G SG, Worker}.
Abbreviation realm := (Realm G SG).
Implicit Types (r : realm) (st : RealmState).

Definition stage_state (stage : TransactStage) : RealmState :=
  match stage with transact_Ready => Idle | transact_Reading => InRead | transact_Writing => InWrite end.

Definition files_state (f : Files G SG) : RealmState :=
  match m_shared_group f, m_read_only_group f with
  | Some sg, _ => stage_state (get_transact_stage sg)
  | None, Some _ => OpenImmutable
  | None, None => Closed
  end.
Definition state_of r : RealmState := files_state (files r).

Definition has_group st : bool := match st with OpenImmutable | InRead | InWrite => true | Closed | Idle => false end.

Record realm_ok r : Prop := {
  ok_group : m_group (files r) = has_group (state_of r);
  ok_one : is_set (m_shared_group (files r)) = true -> m_read_only_group (files r) = None;
  ok_immutable : is_set (m_read_only_group (files r)) = true -> immutable (m_config r) = true;
  ok_shared : is_set (m_shared_group (files r)) = true -> immutable (m_config r) = false
}.

Definition at_state st r : Prop := realm_ok r /\ state_of r = st.

(** The application's functions leave the state of the Realm alone. *)
Definition calm : Prop := forall c r, realm_ok r -> at_state (state_of r) (react c r).

(** Only the files and the configuration matter. *)
Lemma at_state_frame st r r' : files r' = files r -> m_config r' = m_config r -> at_state st r -> at_state st r'.
Proof. intros Ef Ec [[] Hs]. unfold at_state, state_of in *. split; [constructor; unfold state_of in *|]; rewrite ?Ef, ?Ec; auto. Qed.

Lemma keeps_frame st R (f : realm -> realm) : (forall r, files (f r) = files r /\ m_config (f r) = m_config r) ->
  keeps (E:=RealmException) (at_state st) R (modify f).
Proof. intros Hf. apply keeps_modify. intros r. by apply at_state_frame; apply Hf. Qed.

Lemma keeps_lift (I : realm -> Prop) {A} (m : Result A) : keeps I I (lift m).
Proof. intros r Hr. by destruct m. Qed.

Lemma keeps_shared_group (I R : realm -> Prop) : keeps I R the_shared_group.
Proof. intros r Hr. unfold the_shared_group, get, mbind, Prog_bind, ends. by destruct (m_shared_group (files r)). Qed.
Lemma keeps_group (I R : realm -> Prop) : keeps I R the_group.
Proof.
  intros r Hr. unfold the_group, get, mbind, Prog_bind, ends. destruct (m_group (files r)); [|done].
  by destruct (m_read_only_group (files r)), (m_shared_group (files r)).
Qed.
Lemma keeps_coordinator (I R : realm -> Prop) : keeps I R the_coordinator.
Proof. intros r Hr. unfold the_coordinator, get, mbind, Prog_bind, ends. by destruct (m_coordinator r). Qed.
Lemma keeps_throw_when (I : realm -> Prop) b e : keeps I I (throw_when b e).
Proof. intros r Hr. by destruct b. Qed.
#[local] Hint Resolve keeps_lift keeps_shared_group keeps_group keeps_coordinator keeps_throw_when : keeps.

Lemma keeps_guards (I : realm -> Prop) :
  keeps I I check_read_write /\ keeps I I check_write /\ keeps I I verify_thread /\ keeps I I verify_open /\ keeps I I verify_in_write.
Proof.
  unfold check_read_write, check_write, verify_thread, verify_open, verify_in_write. split_and!; keeps_steps.
Qed.

Lemma set_shared_group_state sg r : files_state (files (set_shared_group sg r)) = stage_state (get_transact_stage sg).
Proof. done. Qed.

(** A Realm with another shared group *)
Lemma at_state_shared_group st sg r : at_state st r -> is_set (m_shared_group (files r)) = true ->
  has_group (stage_state (get_transact_stage sg)) = has_group st ->
  at_state (stage_state (get_transact_stage sg)) (set_shared_group sg r).
Proof.
  intros [[Hg Hone _ Hsh] Hs] Hset E. split; [constructor|done]; cbn; try done.
  - rewrite Hg, Hs. symmetry. exact E.
  - intros _. by apply Hone.
  - rewrite (Hone Hset). done.
  - intros _. by apply Hsh.
Qed.

Lemma shared_state r sg : m_shared_group (files r) = Some sg -> state_of r = stage_state (get_transact_stage sg).
Proof. intros E. unfold state_of, files_state. by rewrite E. Qed.

Lemma ends_shared_group (C : Prop) r (Q : SG -> realm -> Prop) (R : RealmException -> realm -> Prop) :
  (forall sg, m_shared_group (files r) = Some sg -> Q sg r) -> (m_shared_group (files r) = None -> C) ->
  ends C the_shared_group r Q R.
Proof.
  intros Hs Hn. unfold the_shared_group, get, mbind, Prog_bind, ends.
  destruct (m_shared_group (files r)); [by apply Hs|by apply Hn].
Qed.

(** Updates of the shared group that keep its stage, or move it to another one
    where [m_group] is as it should be. *)
Lemma ends_update st st' (f : SG -> SG) r (Q : () -> realm -> Prop) (R : RealmException -> realm -> Prop) :
  at_state st r -> (forall sg, stage_state (get_transact_stage sg) = st -> stage_state (get_transact_stage (f sg)) = st') ->
  has_group st' = has_group st ->
  (forall r', at_state st' r' -> Q () r') ->
  wlp (update_shared_group f) r Q R.
Proof.
  intros Hat Hf Hg HQ. unfold update_shared_group. apply ends_bind, ends_shared_group; [|done]. intros sg Esg.
  apply ends_modify, HQ. assert (stage_state (get_transact_stage (f sg)) = st') as E.
  { apply Hf. rewrite <- (shared_state r sg Esg). apply Hat. }
  rewrite <- E in *. apply (at_state_shared_group st); [done|by rewrite Esg|done].
Qed.

Lemma keeps_update st R (f : SG -> SG) : (forall sg, get_transact_stage (f sg) = get_transact_stage sg) ->
  keeps (at_state st) R (update_shared_group f).
Proof. intros Hf r Hr. apply (ends_update st st); try done. intros sg. by rewrite Hf. Qed.

(** ** Programs that leave the state alone *)
Lemma keeps_frame_coordinator st R (f : SchemaCache -> SchemaCache) : keeps (at_state st) R (update_cache f).
Proof. unfold update_cache. keeps_steps. by apply keeps_frame. Qed.

Section calm_application.
Hypothesis Hcalm : calm.

Lemma keeps_call st R c : keeps (at_state st) R (call c).
Proof. apply keeps_modify. intros r [Hok <-]. by apply Hcalm. Qed.
Lemma keeps_tell st R c : keeps (at_state st) R (tell c).
Proof. unfold tell. keeps_steps. apply keeps_call. Qed.
#[local] Hint Resolve keeps_call keeps_tell keeps_frame_coordinator : keeps.
#[local] Hint Extern 2 (keeps (at_state _) _ (modify _)) => apply keeps_frame; done : keeps.

Lemma keeps_notify_schema st R : keeps (at_state st) R notify_schema_changed.
Proof. unfold notify_schema_changed. keeps_steps. Qed.
Lemma keeps_adopt st schema : keeps (at_state st) (at_state st) (adopt_schema schema).
Proof. unfold adopt_schema. keeps_steps. Qed.
#[local] Hint Resolve keeps_notify_schema keeps_adopt : keeps.

Lemma keeps_read_schema st : keeps (at_state st) (at_state st) read_schema_from_group_if_needed.
Proof.
  unfold read_schema_from_group_if_needed, opened_group. pose proof (keeps_guards (at_state st)) as (_ & _ & _ & ? & _).
  keeps_steps.
Qed.
#[local] Hint Resolve keeps_read_schema : keeps.

Lemma begin_read_idle r v : at_state Idle r -> wlp (begin_read v) r (fun _ => at_state InRead) (fun _ => at_state InRead).
Proof.
  intros [[Hg Hone _ Hsh] Hs]. unfold begin_read. rewrite Hs in Hg. cbn in Hg. apply ends_bind. unfold get. cbn [ends].
  rewrite Hg. apply ends_bind. cbn [assert negb ends mret Prog_ret]. apply ends_bind. unfold update_shared_group.
  apply ends_bind, ends_shared_group; [|done]. intros sg Esg. apply ends_modify, ends_bind, ends_modify.
  apply keeps_read_schema. assert (get_transact_stage sg = transact_Ready) as Hready.
  { rewrite (shared_state r sg Esg) in Hs. by destruct (get_transact_stage sg). }
  rewrite Esg in *. cbn in *. split; [|by unfold state_of, files_state; cbn; rewrite begin_read_stage].
  constructor; unfold state_of, files_state; cbn; rewrite ?begin_read_stage, ?Hone; try done; auto.
Qed.

Lemma has_group_pointer st r : at_state st r -> m_group (files r) = has_group st.
Proof. intros [[-> _ _ _] ->]. done. Qed.

Lemma keeps_read_group st : has_group st = true -> keeps (at_state st) (at_state st) read_group.
Proof.
  intros Hg. unfold read_group. apply keeps_bind; [apply keeps_guards|intros _]. intros r Hr.
  apply ends_bind. unfold get. cbn [ends]. rewrite (has_group_pointer st r Hr), Hg. apply ends_bind. cbn [when negb].
  apply ends_ret. by apply keeps_group.
Qed.

Lemma read_group_idle r : at_state Idle r ->
  wlp read_group r (fun _ => at_state InRead) (fun _ r' => at_state Idle r' \/ at_state InRead r').
Proof.
  intros Hr. unfold read_group. apply (ends_keeps_then (at_state Idle) (at_state Idle)); [apply keeps_guards|done|by auto|].
  intros _ r1 Hr1. apply ends_bind. unfold get. cbn [ends]. rewrite (has_group_pointer Idle r1 Hr1). cbn [when has_group negb].
  apply ends_bind. eapply ends_mono; [by apply begin_read_idle| |by auto]. cbn. intros _ r2 Hr2.
  by apply (ends_keeps (at_state InRead) (at_state InRead)); auto with keeps.
Qed.

Lemma keeps_handler st : has_group st = true -> keeps (at_state st) (at_state st) schema_change_handler.
Proof. intros Hg. pose proof (keeps_read_group st Hg). unfold schema_change_handler. keeps_steps. Qed.
#[local] Hint Resolve keeps_read_group keeps_handler : keeps.

Lemma keeps_cache_new_schema st R : keeps (at_state st) R cache_new_schema.
Proof. unfold cache_new_schema. keeps_steps. Qed.
Lemma keeps_set_schema st R reference schema : keeps (at_state st) R (set_schema reference schema).
Proof. unfold set_schema. keeps_steps. Qed.
Lemma keeps_invalidate_cache st R : keeps (at_state st) R invalidate_permission_cache.
Proof. apply keeps_frame. intros r. by destruct (m_permissions_cache r). Qed.
#[local] Hint Resolve keeps_cache_new_schema keeps_set_schema keeps_invalidate_cache : keeps.

(** ** Observers and notifiers *)
Lemma keeps_validate_log (I : realm -> Prop) t log : keeps I I (validate_log t log).
Proof. revert t. induction log as [|i log IH]; intros t; cbn; keeps_steps. Qed.
Lemma keeps_tell_notifiers st R f l : keeps (at_state st) R (tell_notifiers f l).
Proof. induction l; cbn; keeps_steps. Qed.
#[local] Hint Resolve keeps_validate_log keeps_tell_notifiers : keeps.
Lemma keeps_package (I R : realm -> Prop) target p : keeps I R (package_and_wait target p).
Proof. unfold package_and_wait. keeps_steps. Qed.
Lemma keeps_before st R p : keeps (at_state st) R (before_advance p).
Proof. unfold before_advance. keeps_steps. Qed.
Lemma keeps_deliver st R p : keeps (at_state st) R (deliver p).
Proof. unfold deliver. keeps_steps. Qed.
Lemma keeps_after st R p : keeps (at_state st) R (after_advance p).
Proof. unfold after_advance. keeps_steps. Qed.
#[local] Hint Resolve keeps_package keeps_before keeps_deliver keeps_after : keeps.
Lemma keeps_validator st p log : keeps (at_state st) (at_state st) (log_validator p log).
Proof. unfold log_validator. keeps_steps. Qed.
Lemma keeps_kvo st p log : keeps (at_state st) (at_state st) (kvo_observer p log).
Proof. unfold kvo_observer. keeps_steps. Qed.
Lemma keeps_kvo_after st R : keeps (at_state st) R kvo_after.
Proof. unfold kvo_after. keeps_steps. Qed.
#[local] Hint Resolve keeps_validator keeps_kvo keeps_kvo_after : keeps.

(** ** Transitions *)
Section transitions.
Context {X : Type} (observer : list TransactLog.Instruction -> Prog realm RealmException X) (x : X).

Lemma keeps_do_advance st v : has_group st = true -> (forall log, keeps (at_state st) (at_state st) (observer log)) ->
  keeps (at_state st) (at_state st) (do_advance_read observer x v).
Proof.
  intros Hg Hobs. unfold do_advance_read. apply keeps_bind; [auto with keeps|]. intros sg.
  apply keeps_bind; [auto with keeps|]. intros _. apply keeps_if; [auto with keeps|]. apply keeps_bind; [done|]. intros x'.
  intros r Hr. apply ends_bind, ends_shared_group; [|done]. intros sg' Esg. apply ends_bind, ends_modify.
  assert (keeps (at_state st) (at_state st) (_ ← when (reports_schema_change sg' match v with Some v => v | None => latest_version sg end) schema_change_handler; mret x'))
    as Hrest by keeps_steps.
  apply Hrest. pose proof (shared_state r sg' Esg) as Es. pose proof Hr as [_ Est].
  rewrite <- Est, Es, <- (bind_stage (match v with Some v => v | None => latest_version sg end) sg').
  apply (at_state_shared_group st); [done|by rewrite Esg|]. rewrite bind_stage, <- Es. by rewrite Est.
Qed.

Lemma keeps_advance_read st v : has_group st = true -> (forall log, keeps (at_state st) (at_state st) (observer log)) ->
  keeps (at_state st) (at_state st) (advance_read observer x v).
Proof.
  intros Hg Hobs. unfold advance_read. pose proof (keeps_do_advance st v Hg Hobs). keeps_steps.
Qed.

(** A transition to the stage [stage'] from the stage [stage]; it fails from others. *)
Lemma promote_state st r : (forall log, keeps (at_state InRead) (at_state InRead) (observer log)) -> at_state st r ->
  wlp (promote_to_write observer x) r (fun _ => at_state InWrite) (fun _ => at_state st).
Proof.
  intros Hobs Hr. unfold promote_to_write. apply ends_bind, ends_shared_group; [|done]. intros sg Esg.
  destruct (bool_decide_reflect (get_transact_stage sg = transact_Reading)) as [Hstage|_]; [|done].
  assert (st = InRead) as -> by (destruct Hr as [_ <-]; rewrite (shared_state r sg Esg), Hstage; done).
  apply (ends_keeps_then (at_state InRead) (at_state InRead)); [|done|done|].
  { apply keeps_update. apply begin_write_stage. }
  intros _ r1 Hr1. apply (ends_keeps_then (at_state InRead) (at_state InRead)); [|done|done|].
  { apply keeps_catch; [done|by apply keeps_do_advance|]. intros e h [= <-]. apply keeps_bind; [|intros; by apply keeps_raise].
    apply keeps_update. apply end_write_stage. }
  intros x' r2 Hr2. apply ends_bind, (ends_update InRead InWrite); [done| |done|done].
  intros sg' _. by rewrite stage_set.
Qed.

Lemma rollback_state st r : (forall log, keeps (at_state InWrite) (at_state InWrite) (observer log)) -> at_state st r ->
  wlp (rollback_and_continue_as_read observer x) r (fun _ => at_state InRead) (fun _ => at_state st).
Proof.
  intros Hobs Hr. unfold rollback_and_continue_as_read. apply ends_bind, ends_shared_group; [|done]. intros sg Esg.
  destruct (bool_decide_reflect (get_transact_stage sg = transact_Writing)) as [Hstage|_]; [|done].
  assert (st = InWrite) as -> by (destruct Hr as [_ <-]; rewrite (shared_state r sg Esg), Hstage; done).
  apply (ends_keeps_then (at_state InWrite) (at_state InWrite)); [keeps_steps; auto|done|done|]. intros x' r1 Hr1.
  apply (ends_keeps_then (at_state InWrite) (at_state InWrite)); [apply keeps_update, revert_stage|done|done|]. intros _ r2 Hr2.
  apply (ends_keeps_then (at_state InWrite) (at_state InWrite)); [keeps_steps|done|done|]. intros _ r3 Hr3.
  apply (ends_keeps_then (at_state InWrite) (at_state InWrite)); [apply keeps_update, end_write_stage|done|done|]. intros _ r4 Hr4.
  apply ends_bind, (ends_update InWrite InRead); [done| |done|done]. intros sg' _. by rewrite stage_set.
Qed.
End transitions.

(** What [advance_with_notifications] does around a transition; [X] is what
    the transition requires to return. *)
Lemma advance_with_state st st' (X : Prop) func p r :
  (forall observer p', (forall log, keeps (at_state st) (at_state st) (observer log)) -> forall r, at_state st r ->
     wlp (func observer p') r (fun _ r' => at_state st' r' /\ X) (fun _ => at_state st)) ->
  at_state st r ->
  wlp (advance_with_notifications func p) r (fun _ r' => at_state st' r' /\ X) (fun _ => at_state st).
Proof.
  intros Hfunc Hr. unfold advance_with_notifications.
  apply (ends_keeps_then (at_state st) (at_state st)); [auto with keeps|done|done|]. intros sg r1 Hr1.
  apply (ends_keeps_then (at_state st) (at_state st)); [auto with keeps|done|done|]. intros r1' r2 Hr2.
  destruct (_ && _).
  - apply (ends_keeps_then (at_state st) (at_state st)); [auto with keeps|done|done|]. intros _ r3 Hr3. apply ends_bind.
    eapply ends_mono; [apply (Hfunc (log_validator p)); [auto with keeps|done]| |done]. intros _ r4 [Hr4 HX].
    apply (ends_keeps (at_state st') (at_state st)); [keeps_steps|done|done|done].
  - apply (ends_keeps_then (at_state st) (at_state st)); [auto with keeps|done|done|]. intros _ r3 Hr3.
    apply (ends_keeps_then (at_state st) (at_state st)); [auto with keeps|done|done|]. intros _ r4 Hr4. apply ends_bind, ends_scope_exit.
    eapply ends_mono; [apply (Hfunc (kvo_observer p)); [auto with keeps|done]| |].
    + intros p' r5 [Hr5 HX]. apply (ends_keeps (at_state st') (at_state st)); [auto with keeps|done| |done]. intros _ r6 Hr6.
      apply (ends_keeps (at_state st') (at_state st)); [keeps_steps|done|done|done].
    + intros e r5 Hr5. apply (ends_keeps (at_state st) (at_state st)); [auto with keeps|done|done|done].
Qed.

(** ** The coordinator's functions *)
Lemma keeps_transaction_advance st p : has_group st = true -> keeps (at_state st) (at_state st) (transaction_advance p).
Proof.
  intros Hg r Hr. eapply ends_mono; [apply (advance_with_state st st True); [|done]|by intros _ r' [? _]|done].
  intros observer p' Hobs r' Hr'. apply (ends_keeps (at_state st) (at_state st)); [by apply keeps_advance_read|done..].
Qed.

Lemma transaction_begin_state st p r : at_state st r ->
  wlp (transaction_begin p) r (fun _ r' => at_state InWrite r' /\ st = InRead) (fun _ => at_state st).
Proof.
  intros Hr. apply advance_with_state; [|done]. intros observer p' Hobs r' Hr'.
  destruct (decide (st = InRead)) as [->|Hne].
  { eapply ends_mono; [by apply promote_state|by split|done]. }
  unfold promote_to_write. apply ends_bind, ends_shared_group; [|done]. intros sg Esg.
  destruct (bool_decide_reflect (get_transact_stage sg = transact_Reading)) as [Hstage|_]; [|done].
  destruct Hne. destruct Hr' as [_ <-]. by rewrite (shared_state r' sg Esg), Hstage.
Qed.

Lemma coordinator_promote_state st r : at_state st r ->
  wlp coordinator_promote_to_write r (fun _ r' => at_state InWrite r' /\ st = InRead) (fun _ => at_state st).
Proof.
  intros Hr. unfold coordinator_promote_to_write.
  apply (ends_keeps_then (at_state st) (at_state st)); [auto with keeps|done|done|]. intros _ r1 Hr1.
  apply (ends_keeps_then (at_state st) (at_state st)); [auto with keeps|done|done|]. intros r1' r2 Hr2.
  apply (ends_keeps_then (at_state st) (at_state st)); [auto with keeps|done|done|]. intros _ r3 Hr3. by apply transaction_begin_state.
Qed.

Lemma commit_write_state r : at_state InWrite r ->
  wlp commit_write r (fun _ => at_state InRead) (fun _ _ => False).
Proof.
  intros Hr. unfold commit_write, the_coordinator. apply ends_bind, ends_bind. unfold get. cbn [ends].
  destruct (m_coordinator r); [|done]. apply ends_ret, ends_bind. cbn [ends]. apply ends_bind.
  destruct (immutable (m_config r)); [done|]. cbn [negb assert]. apply ends_ret, ends_bind.
  destruct (is_in_transaction r); [|done]. cbn [assert]. apply ends_ret, ends_bind.
  apply (ends_update InWrite InRead); [done| |done|].
  { intros sg Hsg. rewrite commit_stage; [done|]. by destruct (get_transact_stage sg). }
  intros r1 Hr1. apply (ends_keeps (at_state InRead) (fun _ => False)); [keeps_steps|done|done|done].
Qed.

Lemma keeps_deliver_at st R p : keeps (at_state st) R (deliver_at_version p).
Proof. unfold deliver_at_version. keeps_steps. Qed.

Lemma keeps_to_ready st : has_group st = true -> keeps (at_state st) (at_state st) advance_to_ready.
Proof.
  intros Hg. unfold advance_to_ready. pose proof (keeps_transaction_advance st) as Hadv. pose proof (keeps_deliver_at st).
  keeps_steps.
Qed.

Lemma keeps_to_latest st : has_group st = true -> keeps (at_state st) (at_state st) advance_to_latest.
Proof. intros Hg. unfold advance_to_latest. pose proof (keeps_transaction_advance st) as Hadv. keeps_steps. Qed.

Lemma keeps_available st R : keeps (at_state st) R process_available_async.
Proof. unfold process_available_async. keeps_steps. Qed.

Lemma transaction_cancel_state st r : at_state st r ->
  wlp transaction_cancel r (fun _ => at_state InRead) (fun _ => at_state st).
Proof.
  intros Hr. unfold transaction_cancel. apply ends_bind. unfold get. cbn [ends]. apply ends_if; intros _.
  - apply rollback_state; [|done]. intros log. apply keeps_ret.
  - apply ends_bind, ends_scope_exit.
    eapply ends_mono; [apply (rollback_state (kvo_observer Package.empty_package) Package.empty_package st); [auto with keeps|done]| |]; cbn; intros ? r1 Hr1.
    + apply (ends_keeps (at_state InRead) (at_state InRead)); auto with keeps.
    + apply (ends_keeps (at_state st) (at_state st)); auto with keeps.
Qed.
End calm_application.
End facts.

#[export] Hint Resolve keeps_lift keeps_shared_group keeps_group keeps_coordinator keeps_throw_when : keeps.
#[export] Hint Resolve keeps_call keeps_tell keeps_frame_coordinator keeps_notify_schema keeps_adopt keeps_read_schema
  keeps_read_group keeps_handler keeps_cache_new_schema keeps_set_schema keeps_invalidate_cache keeps_available
  keeps_to_ready keeps_to_latest : keeps.
#[export] Hint Extern 2 (keeps (at_state _) _ (modify _)) => apply keeps_frame; done : keeps.
