(* ===== verification/UpdateFacts.v ===== *)
(** * Schema updates without other writers

    How [update_schema] runs when the Realm is up to date, nothing else writes
    to the file and the application does nothing when it is called. *)
From S2P Require Import Prelude.
From S2P Require Import ChangeBuilder.
From S2P Require Import Advance.
From S2P Require Import SchemaTypes.
From S2P Require Import Schemas.
From S2P Require Import SchemaValidation.
From S2P Require Import SchemaDiff.
From S2P Require Import SchemaTheorems.
From S2P Require Import CoreTables.
From S2P Require Import ObjectStore.
From S2P Require Import StoreChanges.
From S2P Require Import SchemaReading.
From S2P Require Import Effects.
From S2P Require Import SchemaCache.
From S2P Require Import Realms.
From S2P Require Import RealmAdvance.
From S2P Require Import SharedRealm.
From S2P Require Import RealmFacts.

(** ** Column numbers do not change what a comparison finds *)
(** The same property, perhaps in another column *)
Definition moved (p q : Property) : Prop := exists c, q = set_table_column c p.

Record same_class (t t' : ObjectSchema) : Prop := {
  sc_name : os_name t' = os_name t;
  sc_key : primary_key t' = primary_key t;
  sc_computed : computed_properties t' = computed_properties t;
  sc_persisted : Forall2 moved (persisted_properties t) (persisted_properties t')
}.

Lemma moved_sym p q : moved p q -> moved q p.
Proof. intros [c ->]. exists (table_column p). by destruct p. Qed.

Lemma same_class_sym t t' : same_class t t' -> same_class t' t.
Proof.
  intros [Hn Hk Hc Hp]. constructor; [done..|]. apply Forall2_flip. eapply Forall2_impl; [exact Hp|].
  intros p q. apply moved_sym.
Qed.

Lemma find_moved l l' name : Forall2 moved l l' ->
  match List.find (named name) l, List.find (named name) l' with
  | Some p, Some q => moved p q
  | None, None => True
  | _, _ => False
  end.
Proof.
  induction 1 as [|p q l l' Hm _ IH]; [done|]. cbn. destruct Hm as [c ->].
  change (named name (set_table_column c p)) with (named name p). destruct (named name p); [by exists c|done].
Qed.

Lemma property_for_name_moved t t' name : same_class t t' ->
  match property_for_name t name, property_for_name t' name with
  | Some p, Some q => moved p q
  | None, None => True
  | _, _ => False
  end.
Proof.
  intros [_ _ Hc Hp]. unfold property_for_name. pose proof (find_moved _ _ name Hp) as Hf. rewrite Hc.
  destruct (List.find (named name) (persisted_properties t)), (List.find (named name) (persisted_properties t')); try done.
  destruct (List.find (named name) (computed_properties t)) as [p|]; [|done]. exists (table_column p). by destruct p.
Qed.

Lemma agrees_moved e t t' : same_class t t' -> agrees e t -> agrees e t'.
Proof.
  intros Hs [Hk Hkept Hadd]. pose proof Hs as [_ Ek Ec Hp]. constructor.
  - by rewrite Ek.
  - intros p Hin. destruct (Hkept p Hin) as [q [Hf Hc Hb Ha Hn Ho Hi]].
    pose proof (property_for_name_moved t t' (prop_name p) Hs) as Hm. rewrite Hf in Hm.
    destruct (property_for_name t' (prop_name p)) as [q'|] eqn:Eq'; [|done]. destruct Hm as [c ->].
    exists (set_table_column c q). constructor; try done. unfold property_is_computed in *. by rewrite Ec.
  - intros q Hq. apply list_elem_of_lookup in Hq as [i Hi]. destruct (Forall2_lookup_r _ _ _ i q Hp Hi) as (p & Hpi & [c ->]).
    change (prop_name (set_table_column c p)) with (prop_name p). by apply Hadd, (list_elem_of_lookup_2 _ i).
Qed.

Lemma set_object_columns_same {G} `{CoreGroup G} (g : G) t : same_class t (set_object_columns g t).
Proof.
  unfold set_object_columns. destruct (table_for_object_type g (os_name t)) as [tab|]; constructor; try done.
  - cbn. apply Forall2_fmap_r, Forall_Forall2_diag, Forall_forall. intros p _. by eexists.
  - apply Forall_Forall2_diag, Forall_forall. intros p _. exists (table_column p). by destruct p.
Qed.

(** ** The comparison *)
Section compare.
Context {HSort : StdSort} {HPart : StdPartition}.

Lemma same_classes_by_name s s' : Forall2 same_class s s' -> by_name s -> by_name s'.
Proof.
  induction 1 as [|t t' s s' Ht Hall IH]; [done|]. intros Hs. inversion Hs as [|? ? Hs' Hlt]; subst. constructor; [by apply IH|].
  apply Forall_forall. intros o' Ho'. apply list_elem_of_lookup in Ho' as [i Hi].
  destruct (Forall2_lookup_r _ _ _ i o' Hall Hi) as (o & Ho & Ec). rewrite Forall_forall in Hlt.
  unfold name_lt. rewrite (sc_name _ _ Ht), (sc_name _ _ Ec). by apply Hlt, (list_elem_of_lookup_2 _ i).
Qed.

Lemma compare_same_classes existing s s' : by_name existing -> by_name s -> Forall2 same_class s s' ->
  compare existing s false = [] -> compare existing s' false = [].
Proof.
  intros He Hs Hall Hc. rewrite compare_nil in Hc by done. apply compare_nil; [done|by eapply same_classes_by_name|].
  intros o' Ho'. apply list_elem_of_lookup in Ho' as [i Hi]. destruct (Forall2_lookup_r _ _ _ i o' Hall Hi) as (o & Ho & Ec).
  destruct (Hc o) as (e & En & Ha); [by apply (list_elem_of_lookup_2 _ i)|]. exists e. rewrite (sc_name _ _ Ec).
  split; [done|]. by eapply agrees_moved.
Qed.

Lemma compare_columns {G} `{CoreGroup G} (g : G) existing s : by_name existing -> by_name s ->
  compare existing s false = [] -> compare existing (set_schema_columns g s) false = [].
Proof.
  intros He Hs. apply compare_same_classes; [done..|]. unfold set_schema_columns.
  apply Forall2_fmap_r, Forall_Forall2_diag, Forall_forall. intros t _. apply set_object_columns_same.
Qed.
End compare.

(** ** Schema updates without other writers *)
Section updates.
Context {G SG : Type} `{CoreGroup G} `{CharSign, StdSort, StdPartition} `{BuildMode}.
Context `{SharedGroupLaws G SG} `{Application G SG, Worker}.
Abbreviation realm := (Realm G SG).
Implicit Types (r : realm).

(** The application does nothing. *)
Record quiet : Prop := {
  quiet_react c r : react c r = r;
  quiet_notifiers r : notifiers_for_realm r = [];
  quiet_rows r : observes_rows r = false
}.

Definition right_thread r : Prop :=
  match m_execution_context r with thread_context t => t = current_thread | abstract_context _ => True end.

(** A Realm in a read transaction at the newest version of the file, which it
    has read the schema of, and nobody else writes to. *)
Record up_to_date r sg existing : Prop := {
  up_files : files r = mkFiles (Some sg) None true;
  up_stage : get_transact_stage sg = transact_Reading;
  up_newest : bound_version sg = latest_version sg;
  up_alone : latest_version (do_begin_write sg) = bound_version sg;
  up_schema : schema_from_group (group_of sg) = Ok existing;
  up_schemas : schemas r = mkSchemaState existing (get_schema_version (group_of sg)) None (bound_version sg) true;
  up_coordinator : m_coordinator r = true;
  up_cache : covers (bound_version sg) (schema_cache (coordinator r));
  up_sending : m_is_sending_notifications r = false;
  up_thread : right_thread r;
  up_mode : immutable (m_config r) = false /\ read_only_alternative (m_config r) = false
}.

Section quiet_application.
Hypothesis Hquiet : quiet.

Lemma quiet_old r : old_notifiers r = [].
Proof. by destruct (app_eq_nil _ _ (quiet_notifiers Hquiet r)). Qed.

Section steps.
Context (C : Prop) r (Q : () -> realm -> Prop) (R : RealmException -> realm -> Prop).

Lemma quiet_call c : Q () r -> ends C (call c) r Q R.
Proof. intros HQ. apply ends_modify. by rewrite (quiet_react Hquiet). Qed.
Lemma quiet_tell c : Q () r -> ends C (tell c) r Q R.
Proof. intros HQ. apply ends_bind. cbn [ends get]. apply ends_when; [|done]. intros _. by apply quiet_call. Qed.
Lemma quiet_thread : right_thread r -> Q () r -> ends C verify_thread r Q R.
Proof.
  intros Ht HQ. apply ends_bind. cbn [ends get]. unfold right_thread in Ht. destruct (m_execution_context r); [|done].
  rewrite Ht, Z.eqb_refl. done.
Qed.
Lemma quiet_tell_notifiers f p : m_notifiers p = [] -> Q () r -> ends C (tell_notifiers f (m_notifiers p)) r Q R.
Proof. by intros ->. Qed.
End steps.

(** A package without notifiers *)
Lemma quiet_package (C : Prop) target r (Q : NotifierPackage -> realm -> Prop) R :
  Q (package_for r) r -> ends C (package_and_wait target (package_for r)) r Q R.
Proof.
  intros HQ. unfold package_and_wait, Package.package_and_wait, package_for in *. cbn.
  rewrite (quiet_notifiers Hquiet) in *. by rewrite orb_true_r.
Qed.

Lemma quiet_notify_schema (C : Prop) r (Q : () -> realm -> Prop) R : Q () r -> ends C notify_schema_changed r Q R.
Proof. intros HQ. apply ends_bind. cbn [ends get]. by apply quiet_tell. Qed.

Lemma ends_the_shared_group (C : Prop) r sg (Q : SG -> realm -> Prop) R :
  m_shared_group (files r) = Some sg -> Q sg r -> ends C the_shared_group r Q R.
Proof. intros Esg HQ. apply ends_shared_group; [|congruence]. intros sg' E. by replace sg' with sg by congruence. Qed.

(** Advancing a Realm that is up to date does nothing. *)
Section advance.
Context (C : Prop) (r : realm) (sg : SG) (p : NotifierPackage) (Q : () -> realm -> Prop) (R : RealmException -> realm -> Prop).
Hypothesis Esg : m_shared_group (files r) = Some sg.
Hypothesis Hp : m_notifiers p = [].
Hypothesis HQ : Q () r.

Lemma quiet_before : ends C (before_advance p) r Q R.
Proof. apply ends_when; [|done]. intros _. by apply quiet_tell_notifiers. Qed.
Lemma quiet_after : ends C (after_advance p) r Q R.
Proof. apply ends_when; [|done]. intros _. by apply quiet_tell_notifiers. Qed.
Lemma quiet_deliver : ends C (deliver p) r Q R.
Proof.
  apply ends_bind, (ends_the_shared_group C r sg); [done|]. apply ends_if; intros _; [by apply quiet_tell_notifiers|].
  apply ends_when; [|done]. intros _. by apply quiet_tell_notifiers.
Qed.
End advance.

Lemma quiet_advance (C : Prop) r sg p (Q : () -> realm -> Prop) R :
  m_shared_group (files r) = Some sg -> get_transact_stage sg = transact_Reading -> bound_version sg = latest_version sg ->
  m_notifiers p = [] -> m_version p = None -> Q () r -> ends C (transaction_advance p) r Q R.
Proof.
  intros Esg Estage Ev Hp Hv HQ. unfold transaction_advance, advance_with_notifications.
  apply ends_bind, (ends_the_shared_group C r sg); [done|]. apply ends_bind. cbn [ends get].
  rewrite (quiet_rows Hquiet), andb_false_r. unfold has_notifiers. rewrite Hp. cbn [negb andb orb].
  apply ends_bind, quiet_before; [done|]. apply ends_bind. unfold advance_read.
  apply ends_bind, (ends_the_shared_group C r sg); [done|]. rewrite bool_decide_eq_true_2, Hv by done. cbn [negb].
  unfold do_advance_read. apply ends_bind, (ends_the_shared_group C r sg); [done|].
  rewrite Ev, Z.leb_refl, Z.eqb_refl. apply ends_bind, ends_ret, ends_ret, ends_bind, (ends_the_shared_group C r sg); [done|].
  rewrite ?Ev, Z.eqb_refl. apply ends_bind, ends_ret, ends_bind. cbn [ends get]. rewrite Esg. cbn [is_set negb].
  apply ends_bind, quiet_tell, ends_bind. cbn [ends get]. rewrite Esg. cbn [is_set negb].
  apply ends_bind, (ends_the_shared_group C r sg); [done|]. rewrite ?Ev, Z.eqb_refl.
  apply ends_bind, (quiet_deliver C r sg); [done..|]. apply ends_bind, quiet_after; [done|]. apply ends_bind. cbn [ends get].
  rewrite Esg. by apply quiet_tell.
Qed.

(** The Realm's schema is read, and the cache knows it at its version. *)
Lemma ends_cache_new_schema (C : Prop) r sg c (Q : () -> realm -> Prop) R :
  m_shared_group (files r) = Some sg -> m_coordinator r = true -> m_new_schema (schemas r) = None ->
  Cache.advance_schema_cache (m_schema_transaction_version (schemas r)) (bound_version sg) (schema_cache (coordinator r)) = Some c ->
  Q () (set_new_schema None (set_transaction_version (bound_version sg) (set_schema_cache c r))) ->
  ends C cache_new_schema r Q R.
Proof.
  intros Esg Hco Hnew Hc HQ. unfold cache_new_schema. apply ends_bind. cbn [ends get]. rewrite Esg, Hco, Hnew, Hc.
  apply ends_bind, ends_modify, ends_bind, ends_modify, ends_modify. exact HQ.
Qed.

Lemma ends_invalidate_cache (C : Prop) r (Q : () -> realm -> Prop) R :
  (forall x, Q () (set_permissions_cache x r)) -> ends C invalidate_permission_cache r Q R.
Proof.
  intros HQ. apply ends_modify. destruct (m_permissions_cache r) eqn:E; [apply HQ|].
  specialize (HQ None). destruct r. cbn in *. by subst.
Qed.

(** Members an up to date Realm does not depend on *)
Lemma up_permissions r sg existing x : up_to_date r sg existing -> up_to_date (set_permissions_cache x r) sg existing.
Proof. intros []. by constructor. Qed.

Lemma up_state r sg existing : up_to_date r sg existing -> at_state InRead r.
Proof.
  intros Hup. pose proof (up_files _ _ _ Hup) as Ef. pose proof (up_stage _ _ _ Hup) as Es.
  assert (state_of r = InRead) as Hs by (unfold state_of, files_state; rewrite Ef; cbn; by rewrite Es).
  split; [|done]. constructor; rewrite ?Hs, Ef; try done. intros _. apply Hup.
Qed.

(** A Realm at the newest version of its file, whatever schema it uses *)
Record at_newest r sg : Prop := {
  an_files : files r = mkFiles (Some sg) None true;
  an_stage : get_transact_stage sg = transact_Reading;
  an_newest : bound_version sg = latest_version sg;
  an_new : m_new_schema (schemas r) = None;
  an_coordinator : m_coordinator r = true;
  an_cache : covers (m_schema_transaction_version (schemas r)) (schema_cache (coordinator r));
  an_sending : m_is_sending_notifications r = false;
  an_thread : right_thread r;
  an_mode : immutable (m_config r) = false
}.

(** What refreshing such a Realm leaves alone *)
Record refreshed r sg r' : Prop := {
  re_files : files r' = files r;
  re_config : m_config r' = m_config r;
  re_schema : m_schema (schemas r') = m_schema (schemas r);
  re_version : m_schema_version (schemas r') = m_schema_version (schemas r);
  re_dynamic : m_dynamic_schema (schemas r') = m_dynamic_schema (schemas r);
  re_new : m_new_schema (schemas r') = None;
  re_transaction : m_schema_transaction_version (schemas r') = bound_version sg;
  re_coordinator : m_coordinator r' = true;
  re_cache : Cache.advance_schema_cache (m_schema_transaction_version (schemas r)) (bound_version sg) (schema_cache (coordinator r)) =
    Some (schema_cache (coordinator r'));
  re_sending : m_is_sending_notifications r' = false;
  re_thread : m_execution_context r' = m_execution_context r
}.

Lemma refresh_newest r sg : at_newest r sg -> wp refresh r (fun _ r' => refreshed r sg r') (fun _ _ => False).
Proof.
  intros Hup. pose proof (an_files _ _ Hup) as Ef.
  destruct (covers_advance _ (bound_version sg) _ (an_cache _ _ Hup)) as (c & Hc & Hc').
  unfold refresh. apply ends_bind, quiet_thread; [apply Hup|]. apply ends_bind. unfold check_read_write. apply ends_bind. cbn [ends get].
  rewrite (an_mode _ _ Hup). apply ends_ret, ends_bind. cbn [ends get].
  assert (is_in_transaction r = false) as -> by (unfold is_in_transaction; rewrite Ef; cbn; by rewrite (an_stage _ _ Hup)).
  rewrite (an_sending _ _ Hup). cbn [orb]. apply ends_bind, ends_invalidate_cache. intros x.
  apply ends_bind, ends_modify, ends_scope_exit, ends_bind, quiet_tell, ends_bind. cbn [ends get].
  set (r1 := set_sending true (set_permissions_cache x r)).
  replace (m_group (files r1)) with true by (cbn; by rewrite Ef). apply ends_catch. unfold advance_to_latest.
  assert (m_shared_group (files r1) = Some sg) as Esg by (cbn; by rewrite Ef).
  apply ends_bind, ends_bind, ends_bind. cbn [ends get]. replace (m_coordinator r1) with true by (cbn; symmetry; apply Hup).
  apply ends_ret, ends_bind. cbn [ends get]. apply ends_bind, (ends_the_shared_group _ r1 sg); [done|].
  apply ends_bind, quiet_package, ends_bind, (ends_the_shared_group _ r1 sg); [done|].
  apply ends_bind, (quiet_advance _ r1 sg); [done|apply Hup|apply Hup|apply Hquiet|done|].
  apply ends_bind. cbn [ends get]. unfold is_closed. rewrite Esg. cbn [is_set negb]. rewrite andb_false_r.
  apply ends_bind, (ends_the_shared_group _ r1 sg); [done|]. apply ends_ret, ends_bind.
  apply (ends_cache_new_schema _ r1 sg c); [done|apply Hup|apply Hup|done|].
  apply ends_ret, ends_modify. constructor; try done. apply Hup.
Qed.

Lemma up_at_newest r sg existing : up_to_date r sg existing -> at_newest r sg.
Proof. intros []. constructor; try done; by rewrite up_schemas0 || apply up_mode0. Qed.

Lemma refreshed_up_to_date r sg existing r' : up_to_date r sg existing -> refreshed r sg r' -> up_to_date r' sg existing.
Proof.
  intros Hup Hre. destruct (covers_advance _ (bound_version sg) _ (up_cache _ _ _ Hup)) as (c & Hc & Hc').
  pose proof (up_schemas _ _ _ Hup) as Es. pose proof (re_cache _ _ _ Hre) as Ec. rewrite Es in Ec. cbn in Ec. rewrite Hc in Ec.
  injection Ec as Ec. destruct Hup, Hre. constructor; try done; try congruence.
  - rewrite Es in *. cbn in *. destruct (schemas r'). cbn in *. congruence.
  - unfold right_thread in *. by rewrite re_thread0.
Qed.

Lemma refresh_up_to_date r sg existing : up_to_date r sg existing ->
  wp refresh r (fun _ r' => up_to_date r' sg existing /\ m_config r' = m_config r) (fun _ _ => False).
Proof.
  intros Hup. eapply ends_mono; [apply refresh_newest; by eapply up_at_newest| |done]. intros b r' Hre.
  split; [by eapply refreshed_up_to_date|apply Hre].
Qed.

Lemma full_schema_up_to_date r sg existing : up_to_date r sg existing ->
  wp get_full_schema r (fun schema r' => schema = existing /\ up_to_date r' sg existing /\ m_config r' = m_config r) (fun _ _ => False).
Proof.
  intros Hup. unfold get_full_schema. apply ends_bind. cbn [ends get]. rewrite (up_files _ _ _ Hup). cbn [m_read_only_group is_set negb when].
  apply ends_bind, ends_bind. eapply ends_mono; [by apply refresh_up_to_date| |done]. intros b r' [Hup' Ec].
  apply ends_ret, ends_bind. cbn [ends get]. rewrite (up_schemas _ _ _ Hup'). by apply ends_ret.
Qed.

(** ** The write transaction *)
Record writing r sg existing : Prop := {
  wr_files : files r = mkFiles (Some sg) None true;
  wr_stage : get_transact_stage sg = transact_Writing;
  wr_unchanged : latest_group sg = group_of sg;
  wr_schema : schema_from_group (group_of sg) = Ok existing;
  wr_schemas : schemas r = mkSchemaState existing (get_schema_version (group_of sg)) None (bound_version sg) true;
  wr_coordinator : m_coordinator r = true;
  wr_cache : covers (bound_version sg) (schema_cache (coordinator r));
  wr_thread : right_thread r;
  wr_mode : immutable (m_config r) = false /\ read_only_alternative (m_config r) = false
}.

Lemma begin_up_to_date r sg existing : up_to_date r sg existing ->
  wp transaction_begin_without_validation r
    (fun _ r' => exists sg', writing r' sg' existing /\ group_of sg' = group_of sg /\ m_config r' = m_config r) (fun _ _ => False).
Proof.
  intros Hup. pose proof (up_files _ _ _ Hup) as Ef. pose proof (up_stage _ _ _ Hup) as Estage.
  unfold transaction_begin_without_validation, promote_to_write.
  apply ends_bind, (ends_the_shared_group _ r sg); [by rewrite Ef|]. rewrite bool_decide_eq_true_2 by done. cbn [negb].
  apply ends_bind. unfold update_shared_group at 1. apply ends_bind, (ends_the_shared_group _ r sg); [by rewrite Ef|]. apply ends_modify.
  set (r1 := set_shared_group (do_begin_write sg) r). apply ends_bind, ends_catch. unfold do_advance_read.
  assert (latest_version (do_begin_write sg) = bound_version (do_begin_write sg)) as Ev by (rewrite begin_write_bound; apply Hup).
  apply ends_bind, (ends_the_shared_group _ r1 (do_begin_write sg)); [done|]. rewrite Ev, Z.leb_refl, Z.eqb_refl.
  apply ends_bind, ends_ret, ends_ret. apply ends_bind. unfold update_shared_group.
  apply ends_bind, (ends_the_shared_group _ r1 (do_begin_write sg)); [done|]. apply ends_modify, ends_ret.
  exists (set_transact_stage transact_Writing (do_begin_write sg)).
  assert (group_of (set_transact_stage transact_Writing (do_begin_write sg)) = group_of sg) as Eg by by rewrite stage_set_writing, begin_write_group.
  split; [|done]. destruct Hup as [_ _ _ _ Hs Hss Hco Hca _ Hth Hm]. constructor; rewrite ?Eg; try done; cbn.
  - by rewrite Ef.
  - by rewrite stage_set.
  - rewrite stage_set_latest, <- (bound_latest (do_begin_write sg)); [apply begin_write_group|by rewrite begin_write_stage|done].
  - by rewrite Hss, stage_set_bound, begin_write_bound.
  - by rewrite stage_set_bound, begin_write_bound.
Qed.

Lemma writing_cache r sg existing : writing r sg existing ->
  wp cache_new_schema r (fun _ r' => writing r' sg existing /\ m_config r' = m_config r) (fun _ _ => False).
Proof.
  intros Hw. destruct (covers_advance _ (bound_version sg) _ (wr_cache _ _ _ Hw)) as (c & Hc & Hc').
  pose proof (wr_schemas _ _ _ Hw) as Es.
  apply (ends_cache_new_schema _ r sg c); [by rewrite (wr_files _ _ _ Hw)|apply Hw|by rewrite Es|by rewrite Es|].
  split; [|done]. destruct Hw. constructor; cbn; rewrite ?Es; done.
Qed.

Lemma writing_in_transaction r sg existing : writing r sg existing -> is_in_transaction r = true.
Proof. intros Hw. unfold is_in_transaction. rewrite (wr_files _ _ _ Hw). cbn. by rewrite (wr_stage _ _ _ Hw). Qed.

(** A write transaction, whatever it has changed *)
Record in_write r sg : Prop := {
  iw_files : files r = mkFiles (Some sg) None true;
  iw_stage : get_transact_stage sg = transact_Writing;
  iw_new : m_new_schema (schemas r) = None;
  iw_coordinator : m_coordinator r = true;
  iw_cache : covers (m_schema_transaction_version (schemas r)) (schema_cache (coordinator r));
  iw_thread : right_thread r;
  iw_mode : immutable (m_config r) = false /\ read_only_alternative (m_config r) = false
}.

Lemma writing_in_write r sg existing : writing r sg existing -> in_write r sg.
Proof. intros []. constructor; try done; by rewrite wr_schemas0. Qed.

Lemma in_write_transaction r sg : in_write r sg -> is_in_transaction r = true.
Proof. intros Hw. unfold is_in_transaction. rewrite (iw_files _ _ Hw). cbn. by rewrite (iw_stage _ _ Hw). Qed.

Lemma ends_read_group (C : Prop) r sg (Q : G -> realm -> Prop) R :
  files r = mkFiles (Some sg) None true -> Q (group_of sg) r -> ends C read_group r Q R.
Proof.
  intros Ef HQ. destruct r. cbn in Ef. subst. exact HQ.
Qed.

Lemma ends_write_checks (C : Prop) r sg (m : Prog realm RealmException ()) (Q : () -> realm -> Prop) R :
  in_write r sg -> ends C m r Q R -> ends C (_ ← check_write; _ ← verify_thread; m) r Q R.
Proof.
  intros Hw Hm. destruct (iw_mode _ _ Hw) as [Him Hro]. apply ends_bind. unfold check_write. apply ends_bind. cbn [ends get].
  rewrite Him, Hro. apply ends_ret, ends_bind, quiet_thread; [apply Hw|done].
Qed.

Lemma commit_in_write r sg : in_write r sg ->
  wp commit_transaction r (fun _ r' => files r' = mkFiles (Some (do_commit sg)) None true /\ m_coordinator r' = true /\
    m_config r' = m_config r) (fun _ _ => False).
Proof.
  intros Hw. pose proof (iw_files _ _ Hw) as Ef. unfold commit_transaction. apply (ends_write_checks _ r sg); [done|].
  apply ends_bind. cbn [ends get]. rewrite (in_write_transaction r sg Hw). cbn [negb].
  apply ends_bind. unfold commit_write, the_coordinator. apply ends_bind, ends_bind. cbn [ends get]. rewrite (iw_coordinator _ _ Hw).
  apply ends_ret, ends_bind. cbn [ends get]. rewrite (proj1 (iw_mode _ _ Hw)), (in_write_transaction r sg Hw).
  apply ends_bind, ends_ret, ends_bind, ends_ret, ends_bind. unfold transaction_commit, update_shared_group.
  apply ends_bind, (ends_the_shared_group _ r sg); [by rewrite Ef|]. apply ends_modify, ends_bind.
  set (r1 := set_shared_group (do_commit sg) r).
  apply (ends_the_shared_group _ r1 (do_commit sg)); [done|]. apply ends_bind. cbn [ends get]. rewrite (quiet_old _). cbn [bool_decide negb when].
  apply ends_bind, ends_ret, ends_bind, quiet_call, ends_bind, quiet_tell, quiet_call, ends_bind.
  destruct (covers_advance _ (bound_version (do_commit sg)) _ (iw_cache _ _ Hw)) as (c & Hc & _).
  apply (ends_cache_new_schema _ r1 (do_commit sg) c); [done|apply Hw|apply Hw|done|].
  apply ends_invalidate_cache. intros x. cbn. rewrite Ef. by split; [|split; [apply Hw|]].
Qed.

(** The schema the Realm has after the handler ran on the tables it was read from *)
Lemma handler_reads (C : Prop) r sg existing (Q : () -> realm -> Prop) R :
  files r = mkFiles (Some sg) None true -> schema_from_group (group_of sg) = Ok existing ->
  m_dynamic_schema (schemas r) = true ->
  (Q () (set_m_schema existing (set_schema_and_version (m_schema (schemas r)) (get_schema_version (group_of sg)) (set_new_schema (Some existing) r)))) ->
  ends C schema_change_handler r Q R.
Proof.
  intros Ef Es Ed HQ. unfold schema_change_handler. apply ends_bind, (ends_read_group C r sg); [done|].
  rewrite Es. apply ends_bind, ends_ret, ends_bind, ends_modify, ends_bind.
  apply (ends_read_group C _ sg); [done|]. apply ends_bind, ends_modify, ends_bind. cbn [ends get]. cbn. rewrite Ed.
  apply ends_bind, ends_modify. by apply quiet_notify_schema.
Qed.

(** A Realm back in a read transaction on unchanged tables *)
Record unchanged r g existing version : Prop := {
  un_files : exists sg, files r = mkFiles (Some sg) None true /\ get_transact_stage sg = transact_Reading /\
    group_of sg = g /\ latest_group sg = g;
  un_schema : m_schema (schemas r) = existing;
  un_version : m_schema_version (schemas r) = version
}.

Lemma cancel_in_write r sg existing : in_write r sg ->
  schema_from_group (latest_group sg) = Ok existing -> m_dynamic_schema (schemas r) = true ->
  m_schema (schemas r) = existing -> m_schema_version (schemas r) = get_schema_version (latest_group sg) ->
  wp cancel_transaction r (fun _ r' => unchanged r' (latest_group sg) existing (get_schema_version (latest_group sg)))
    (fun _ _ => False).
Proof.
  intros Hw Hread Hdyn Hs Hv. pose proof (iw_files _ _ Hw) as Ef. unfold cancel_transaction.
  apply (ends_write_checks _ r sg); [done|]. apply ends_bind. cbn [ends get]. rewrite (in_write_transaction r sg Hw). cbn [negb].
  apply ends_bind. unfold transaction_cancel. apply ends_bind. cbn [ends get]. rewrite (quiet_rows Hquiet), andb_false_r. cbn [negb].
  unfold rollback_and_continue_as_read. apply ends_bind, (ends_the_shared_group _ r sg); [by rewrite Ef|].
  rewrite bool_decide_eq_true_2 by apply Hw. cbn [negb].
  apply ends_bind. assert (forall Q R, Q () r -> wp (if bool_decide (reversed_changes sg = []) then mret () else no_observer (reversed_changes sg)) r Q R) as Hobs
    by (intros Q R HQ; by apply ends_if).
  apply Hobs, ends_bind. unfold update_shared_group at 1. apply ends_bind, (ends_the_shared_group _ r sg); [by rewrite Ef|].
  apply ends_modify. set (r1 := set_shared_group (revert sg) r).
  assert (files r1 = mkFiles (Some (revert sg)) None true) as Ef1 by (cbn; by rewrite Ef).
  pose proof (revert_group sg (iw_stage _ _ Hw)) as Eg.
  assert (forall r2, files r2 = files r1 -> m_schema (schemas r2) = existing -> m_schema_version (schemas r2) = get_schema_version (latest_group sg) ->
    wp (_ ← update_shared_group do_end_write; _ ← update_shared_group (set_transact_stage transact_Reading); mret ()) r2
      (fun _ s' => wp invalidate_permission_cache s'
         (fun _ r' => unchanged r' (latest_group sg) existing (get_schema_version (latest_group sg))) (fun _ _ => False)) (fun _ _ => False)) as Hend.
  { intros r2 Ef2 Es2 Ev2. unfold update_shared_group.
    apply ends_bind, ends_bind, (ends_the_shared_group _ r2 (revert sg)); [by rewrite Ef2, Ef1|]. apply ends_modify.
    apply ends_bind, ends_bind, (ends_the_shared_group _ _ (do_end_write (revert sg))); [done|]. apply ends_modify, ends_ret.
    apply ends_invalidate_cache. intros x. constructor; [|done..]. eexists. cbn. rewrite Ef2, Ef1. split; [done|]. split; [by rewrite stage_set|].
    rewrite stage_set_latest, end_write_latest, revert_latest. split; [|done].
    rewrite stage_set_reading; [by rewrite end_write_group|]. by rewrite end_write_group, end_write_latest, revert_latest. }
  apply ends_bind, ends_when; intros _.
  - apply (handler_reads _ r1 (revert sg) existing); [done|by rewrite Eg|done|]. apply Hend; [done|done|]. cbn. by rewrite Eg.
  - by apply Hend.
Qed.
(** Beginning a write transaction after another writer has changed the schema *)
Lemma begin_moved r sg existing : files r = mkFiles (Some sg) None true -> get_transact_stage sg = transact_Reading ->
  m_dynamic_schema (schemas r) = true ->
  let sg' := do_begin_write sg in
  bound_version sg < latest_version sg' -> reports_schema_change sg' (latest_version sg') = true ->
  schema_from_group (latest_group sg') = Ok existing ->
  wp transaction_begin_without_validation r
    (fun _ r' => is_in_transaction r' = true /\ m_config r' = m_config r /\ m_new_schema (schemas r') = Some existing /\
      m_schema_version (schemas r') = get_schema_version (latest_group sg'))
    (fun _ _ => False).
Proof.
  intros Ef Estage Hdyn sg' Hmoved Hreport Hread. unfold transaction_begin_without_validation, promote_to_write.
  apply ends_bind, (ends_the_shared_group _ r sg); [by rewrite Ef|]. rewrite bool_decide_eq_true_2 by done. cbn [negb].
  apply ends_bind. unfold update_shared_group at 1. apply ends_bind, (ends_the_shared_group _ r sg); [by rewrite Ef|]. apply ends_modify.
  fold sg'. set (r1 := set_shared_group sg' r). apply ends_bind, ends_catch. unfold do_advance_read.
  assert (bound_version sg' = bound_version sg) as Eb by apply begin_write_bound.
  apply ends_bind, (ends_the_shared_group _ r1 sg'); [done|]. rewrite Eb.
  apply ends_bind. replace (bound_version sg <=? latest_version sg') with true by (symmetry; apply Z.leb_le; lia). apply ends_ret.
  replace (latest_version sg' =? bound_version sg) with false by (symmetry; apply Z.eqb_neq; lia).
  apply ends_bind, ends_ret, ends_bind, (ends_the_shared_group _ r1 sg'); [done|]. apply ends_bind, ends_modify, ends_bind.
  rewrite Hreport. set (r2 := set_shared_group (bind_version (latest_version sg') sg') r1).
  apply (handler_reads _ r2 (bind_version (latest_version sg') sg') existing);
    [by cbn; rewrite Ef|by rewrite bind_group|done|].
  apply ends_ret, ends_bind. unfold update_shared_group. apply ends_bind.
  eapply ends_the_shared_group; [done|]. apply ends_modify, ends_ret. cbn. rewrite bind_group.
  split; [|done]. unfold is_in_transaction. cbn. by rewrite stage_set.
Qed.
End quiet_application.
End updates.
