(* ===== verification/RealmTransactions.v ===== *)
(** * Realms: the transaction state machine

    What the operations of a Realm may do to its state, as a state machine, and
    that the operations refine it. *)
From S2P Require Import Prelude.
From S2P Require Import SchemaTypes.
From S2P Require Import Schemas.
From S2P Require Import CoreTables.
From S2P Require Import ObjectStore.
From S2P Require Import Effects.
From S2P Require Import Advance.
From S2P Require Import SchemaCache.
From S2P Require Import Realms.
From S2P Require Import RealmAdvance.
From S2P Require Import SharedRealm.
From S2P Require Import RealmFacts.
From S2P Require Import UpdateFacts.

Inductive Operation :=
| op_begin_transaction | op_commit_transaction | op_cancel_transaction
| op_read_group | op_invalidate | op_refresh | op_notify | op_compact | op_close.

(** [transaction op sending st returned st']: in state [st], [op] returns, or
    throws, and leaves the state [st']; [sending] says whether notifications
    are being sent. *)
Inductive transaction : Operation -> bool -> RealmState -> bool -> RealmState -> Prop :=
(* An exception leaves the state alone, or the read transaction begun on the way. *)
| refused op sending st : op <> op_close -> transaction op sending st false st
| read_begun op sending : op = op_begin_transaction \/ op = op_read_group \/ op = op_refresh ->
    transaction op sending Idle false InRead
| begun_idle : transaction op_begin_transaction false Idle true InWrite
| begun sending : transaction op_begin_transaction sending InRead true InWrite
| committed sending : transaction op_commit_transaction sending InWrite true InRead
| cancelled sending : transaction op_cancel_transaction sending InWrite true InRead
| read_idle sending : transaction op_read_group sending Idle true InRead
| read_open sending st : has_group st = true -> transaction op_read_group sending st true st
| invalidated st : st <> Closed -> st <> OpenImmutable -> transaction op_invalidate false st true Idle
| invalidate_ignored st : st <> Closed -> st <> OpenImmutable -> transaction op_invalidate true st true st
| refreshed_idle : transaction op_refresh false Idle true InRead
| refreshed sending st : st <> OpenImmutable -> sending = true \/ st = InRead \/ st = InWrite ->
    transaction op_refresh sending st true st
| notified sending st : st <> OpenImmutable -> transaction op_notify sending st true st
| compacted sending st : st = Idle \/ st = InRead -> transaction op_compact sending st true Idle
| closed sending st : transaction op_close sending st true Closed.
#[local] Hint Constructors transaction : core.
#[local] Hint Extern 1 (_ <> _) => discriminate : core.

Section refinement.
Context {G SG : Type} `{CoreGroup G} `{CharSign, StdSort, StdPartition}.
Context `{SharedGroupLaws G SG} `{Application G SG, Worker}.
Abbreviation realm := (Realm G SG).
Implicit Types (r : realm) (st : RealmState).

Definition run_operation (op : Operation) : Prog realm RealmException () :=
  match op with
  | op_begin_transaction => begin_transaction
  | op_commit_transaction => commit_transaction
  | op_cancel_transaction => cancel_transaction
  | op_read_group => _ ← read_group; mret ()
  | op_invalidate => invalidate
  | op_refresh => _ ← refresh; mret ()
  | op_notify => notify
  | op_compact => _ ← compact; mret ()
  | op_close => close
  end.

(** ** Conditions, exactly *)
Section conditions.
Context (C : Prop) r (Q : () -> realm -> Prop) (R : RealmException -> realm -> Prop).

Lemma ends_throw_when b e : (b = false -> Q () r) -> (b = true -> R e r) -> ends C (throw_when b e) r Q R.
Proof. intros HQ HR. destruct b; [by apply HR|by apply HQ]. Qed.

Lemma ends_check_read_write : (immutable (m_config r) = false -> Q () r) -> (forall e, R e r) -> ends C check_read_write r Q R.
Proof. intros HQ HR. apply ends_bind. cbn. apply ends_throw_when; auto. Qed.
Lemma ends_check_write : (immutable (m_config r) = false -> read_only_alternative (m_config r) = false -> Q () r) -> (forall e, R e r) ->
  ends C check_write r Q R.
Proof. intros HQ HR. apply ends_bind. cbn. apply ends_throw_when; [|auto]. intros [? ?]%orb_false_iff. auto. Qed.
Lemma ends_verify_thread : Q () r -> (forall e, R e r) -> ends C verify_thread r Q R.
Proof. intros HQ HR. apply ends_bind. cbn. destruct (m_execution_context r); [|done]. by apply ends_throw_when. Qed.
Lemma ends_verify_open : (is_closed r = false -> Q () r) -> (forall e, R e r) -> ends C verify_open r Q R.
Proof. intros HQ HR. apply ends_bind. cbn. apply ends_throw_when; auto. Qed.
End conditions.

Lemma open_state r : realm_ok r -> is_closed r = false -> state_of r <> Closed.
Proof.
  intros [_ Hone _ _]. unfold is_closed, state_of, files_state. destruct (m_shared_group (files r)) as [sg|].
  - by destruct (get_transact_stage sg).
  - by destruct (m_read_only_group (files r)).
Qed.
Lemma mutable_state r : realm_ok r -> immutable (m_config r) = false -> state_of r <> OpenImmutable.
Proof.
  intros [_ _ Him _] Hc. unfold state_of, files_state. destruct (m_shared_group (files r)) as [sg|].
  - by destruct (get_transact_stage sg).
  - destruct (m_read_only_group (files r)); [|done]. by rewrite Him in Hc.
Qed.
Lemma write_state r : is_in_transaction r = bool_decide (state_of r = InWrite).
Proof.
  unfold is_in_transaction, state_of, files_state. destruct (m_shared_group (files r)) as [sg|].
  - by destruct (get_transact_stage sg).
  - by destruct (m_read_only_group (files r)).
Qed.

Lemma at_own_state r : realm_ok r -> at_state (state_of r) r.
Proof. done. Qed.

(** ** The operations *)
Section operations.
Hypothesis Hcalm : calm.

(** What is shown of each: it ends in a state of the state machine. *)
Definition ends_as {A} op r (m : Prog realm RealmException A) : Prop :=
  wlp m r (fun _ r' => realm_ok r' /\ transaction op (m_is_sending_notifications r) (state_of r) true (state_of r'))
    (fun _ r' => realm_ok r' /\ transaction op (m_is_sending_notifications r) (state_of r) false (state_of r')).

Lemma state_ends op sending st b st' r : at_state st' r -> transaction op sending st b st' -> realm_ok r /\ transaction op sending st b (state_of r).
Proof. by intros [Hok ->]. Qed.

(** An exception that leaves the state alone *)
Lemma refused_ends op sending r r' : op <> op_close -> at_state (state_of r) r' -> realm_ok r' /\ transaction op sending (state_of r) false (state_of r').
Proof. intros Hop [Hok ->]. auto. Qed.

Lemma translate_state st {A} (Q : A -> realm -> Prop) r : at_state st r ->
  wlp (translate_schema_error (A:=A)) r Q (fun _ => at_state st).
Proof.
  intros Hr. unfold translate_schema_error.
  apply (ends_keeps_then (at_state st) (at_state st)); [auto with keeps|done|done|]. intros r0 r1 Hr1.
  apply (ends_keeps_then (at_state st) (at_state st)); [auto with keeps|done|done|]. intros sg r2 Hr2.
  apply (ends_keeps_then (at_state st) (at_state st)); [auto with keeps|done|done|]. intros s r3 Hr3.
  by apply (ends_keeps_then (at_state st) (at_state st)); [auto with keeps|done|done|].
Qed.

Lemma translating_state st {A} (m : Prog realm RealmException A) r (Q : A -> realm -> Prop) :
  wlp m r Q (fun _ => at_state st) -> wlp (translating m) r Q (fun _ => at_state st).
Proof.
  intros Hm. apply ends_catch. eapply ends_mono; [exact Hm|done|]. cbn. intros e r' Hr'. destruct e; try done.
  by apply translate_state.
Qed.

Lemma set_sending_state b st r : at_state st r -> at_state st (set_sending b r).
Proof. by apply at_state_frame. Qed.

(** The clean-ups that reset a flag *)
Lemma flag_ends {A} (m : Prog realm RealmException A) r (I : A -> RealmState -> Prop) (J : RealmState -> Prop) :
  wlp m r (fun a r' => realm_ok r' /\ I a (state_of r')) (fun _ r' => realm_ok r' /\ J (state_of r')) ->
  wlp (scope_exit m (modify (set_sending false))) r (fun a r' => realm_ok r' /\ I a (state_of r')) (fun _ r' => realm_ok r' /\ J (state_of r')).
Proof.
  intros Hm. apply ends_scope_exit. eapply ends_mono; [exact Hm| |]; intros ? r' [Hok HI]; apply ends_modify;
    (split; [by apply (set_sending_state false (state_of r') r')|done]).
Qed.

Lemma sending_ends {A} (m : Prog realm RealmException A) r (I : A -> RealmState -> Prop) (J : RealmState -> Prop) :
  wlp m (set_sending true r) (fun a r' => realm_ok r' /\ I a (state_of r')) (fun _ r' => realm_ok r' /\ J (state_of r')) ->
  wlp (sending_notifications m) r (fun a r' => realm_ok r' /\ I a (state_of r')) (fun _ r' => realm_ok r' /\ J (state_of r')).
Proof. intros Hm. apply ends_bind, ends_modify. by apply flag_ends. Qed.

Lemma promoted_ends r : at_state InRead r ->
  wlp (sending_notifications (_ ← translating coordinator_promote_to_write; cache_new_schema)) r
    (fun _ r' => realm_ok r' /\ InWrite = state_of r') (fun _ r' => realm_ok r' /\ InRead = state_of r').
Proof.
  intros Hr. apply (sending_ends _ _ (fun _ => eq InWrite) (eq InRead)), ends_bind.
  eapply ends_mono; [eapply translating_state, coordinator_promote_state, set_sending_state; eassumption| |].
  - intros _ r1 [Hr1 _]. apply (ends_keeps (at_state InWrite) (fun _ => False)); [auto with keeps|done| |done].
    by intros _ r2 [? <-].
  - by intros e r1 [? <-].
Qed.

(** Beginning a read transaction where there is none *)
Definition after_read st : RealmState := match st with Idle => InRead | _ => st end.

Lemma read_group_state r : realm_ok r ->
  wlp read_group r (fun _ r' => at_state (after_read (state_of r)) r' /\ state_of r <> Closed)
    (fun _ r' => at_state (state_of r) r' \/ state_of r = Idle /\ at_state InRead r').
Proof.
  intros Hok. pose proof (at_own_state r Hok) as Hr. destruct (state_of r) eqn:Est.
  - unfold read_group. apply ends_bind, ends_verify_open; [|by auto]. intros Hopen. by destruct (open_state r Hok Hopen).
  - apply (ends_keeps (at_state OpenImmutable) (at_state OpenImmutable)); [by apply keeps_read_group|done|done|by auto].
  - eapply ends_mono; [by apply read_group_idle|done|]. intros e r' [?|?]; auto.
  - apply (ends_keeps (at_state InRead) (at_state InRead)); [by apply keeps_read_group|done|done|by auto].
  - apply (ends_keeps (at_state InWrite) (at_state InWrite)); [by apply keeps_read_group|done|done|by auto].
Qed.

Lemma begin_ends r : realm_ok r -> ends_as op_begin_transaction r begin_transaction.
Proof.
  intros Hok. unfold ends_as, begin_transaction. apply ends_bind, ends_check_write; [|by auto]. intros Hmut _.
  apply ends_bind, ends_verify_thread; [|by auto]. apply ends_bind. cbn [ends get]. rewrite write_state.
  destruct (bool_decide_reflect (state_of r = InWrite)) as [Hw|Hw]; [by apply ends_raise; auto|].
  pose proof (mutable_state r Hok Hmut) as Him. pose proof (at_own_state r Hok) as Hr.
  destruct (m_is_sending_notifications r).
  - eapply ends_mono; [by apply transaction_begin_state| |].
    + intros _ r' [Hr' Est]. rewrite Est. by eapply state_ends.
    + intros e r' Hr'. by apply refused_ends.
  - apply ends_bind. eapply ends_mono; [by apply read_group_state| |].
    + intros _ r1 [Hr1 Hclosed]. assert (at_state InRead r1) as Hread by (destruct (state_of r); done).
      eapply ends_mono; [by apply promoted_ends| |].
      * intros _ r2 [Hok2 <-]. split; [done|]. destruct (state_of r); auto; done.
      * intros e r2 [Hok2 <-]. split; [done|]. destruct (state_of r); auto; done.
    + intros e r1 [Hr1|(Es & Hok1 & Es1)]; [by apply refused_ends|rewrite Es, Es1; auto].
Qed.

Lemma commit_ends r : realm_ok r -> ends_as op_commit_transaction r commit_transaction.
Proof.
  intros Hok. unfold ends_as, commit_transaction. apply ends_bind, ends_check_write; [|by auto]. intros _ _.
  apply ends_bind, ends_verify_thread; [|by auto]. apply ends_bind. cbn [ends get]. rewrite write_state.
  destruct (bool_decide_reflect (state_of r = InWrite)) as [Hw|Hw]; cbn [negb]; [|by apply ends_raise; auto].
  apply ends_bind. eapply ends_mono; [by apply commit_write_state| |done]. intros ? r1 Hr1. rewrite Hw.
  apply (ends_keeps (at_state InRead) (fun _ => False)); [|done| |done].
  - apply keeps_bind; auto with keeps.
  - intros ? r2 Hr2. by eapply state_ends.
Qed.

Lemma cancel_ends r : realm_ok r -> ends_as op_cancel_transaction r cancel_transaction.
Proof.
  intros Hok. unfold ends_as, cancel_transaction. apply ends_bind, ends_check_write; [|by auto]. intros _ _.
  apply ends_bind, ends_verify_thread; [|by auto]. apply ends_bind. cbn [ends get]. rewrite write_state.
  destruct (bool_decide_reflect (state_of r = InWrite)) as [Hw|Hw]; cbn [negb]; [|by apply ends_raise; auto].
  apply ends_bind. eapply ends_mono; [by apply (transaction_cancel_state Hcalm InWrite)| |].
  - intros ? r1 Hr1. rewrite Hw. apply (ends_keeps (at_state InRead) (fun _ => False)); [auto with keeps|done| |done].
    intros ? r2 Hr2. by eapply state_ends.
  - intros e r1 Hr1. apply refused_ends; [done|by rewrite Hw].
Qed.

Lemma read_ends r : realm_ok r -> ends_as op_read_group r (_ ← read_group; mret ()).
Proof.
  intros Hok. unfold ends_as. apply ends_bind. eapply ends_mono; [by apply read_group_state| |].
  - intros _ r1 [[Hok1 Es] Hclosed]. split; [done|]. rewrite Es. destruct (state_of r); auto; done.
  - intros e r1 [Hr1|(Es & Hok1 & Es1)]; [by apply refused_ends|rewrite Es, Es1; auto].
Qed.

(** Ending the read transaction *)
Lemma end_read_state r : at_state InRead r ->
  wlp (_ ← modify (set_permissions_cache None); _ ← update_shared_group do_end_read; modify (set_group_pointer false)) r
    (fun _ => at_state Idle) (fun _ _ => False).
Proof.
  intros Hr. apply ends_bind, ends_modify, ends_bind.
  set (r1 := set_permissions_cache None r). assert (at_state InRead r1) as [[Hg Hone _ Hsh] Hs] by by apply (at_state_frame InRead r).
  unfold update_shared_group. apply ends_bind, ends_shared_group; [|done]. intros sg Esg. apply ends_modify, ends_modify.
  assert (get_transact_stage sg <> transact_Writing) as Hend.
  { rewrite (shared_state r1 sg Esg) in Hs. by destruct (get_transact_stage sg). }
  rewrite Esg in *. cbn in *. split; [constructor|]; unfold state_of, files_state; cbn; rewrite ?end_read_stage, ?Hone; try done; auto.
Qed.

Lemma invalidate_ends r : realm_ok r -> ends_as op_invalidate r invalidate.
Proof.
  intros Hok. unfold ends_as, invalidate. apply ends_bind, ends_verify_open; [|by auto]. intros Hopen.
  apply ends_bind, ends_verify_thread; [|by auto]. apply ends_bind, ends_check_read_write; [|by auto]. intros Hmut.
  pose proof (mutable_state r Hok Hmut) as Him. pose proof (open_state r Hok Hopen) as Hop.
  apply ends_bind. cbn [ends get]. destruct (m_is_sending_notifications r) eqn:Esend; [by apply ends_ret; auto|].
  apply ends_bind. rewrite write_state. destruct (bool_decide_reflect (state_of r = InWrite)) as [Hw|Hw]; cbn [when].
  - eapply ends_mono; [by apply cancel_ends| |].
    + intros ? r1 [Hok1 Htr]. assert (state_of r1 = InRead) as E1 by by inversion Htr.
      apply ends_bind. cbn [ends get]. rewrite (has_group_pointer InRead r1) by by split.
      eapply ends_mono; [by apply end_read_state| |done]. intros ? r2 Hr2. rewrite Hw. by eapply state_ends; auto.
    + intros e r1 [Hok1 Htr]. assert (state_of r1 = InWrite) as -> by (rewrite Hw in Htr; by inversion Htr). rewrite Hw. auto.
  - apply ends_ret. apply ends_bind. cbn [ends get]. destruct (state_of r) eqn:Est; try done.
    + rewrite (has_group_pointer Idle r) by by split. apply ends_ret. split; [done|]. rewrite Est. auto.
    + rewrite (has_group_pointer InRead r) by by split. cbn [negb].
      eapply ends_mono; [by apply end_read_state| |done]. intros ? r2 Hr2. by eapply state_ends; auto.
Qed.

Lemma keeps_latest_cache st : has_group st = true ->
  keeps (at_state st) (at_state st) (version_changed ← advance_to_latest; _ ← cache_new_schema; mret version_changed).
Proof. intros Hg. apply keeps_bind; [auto with keeps|]. intros b. apply keeps_bind; auto with keeps. Qed.

Lemma refresh_ends r : realm_ok r -> ends_as op_refresh r (_ ← refresh; mret ()).
Proof.
  intros Hok. unfold ends_as. apply ends_bind, ends_bind, ends_verify_thread; [|by auto].
  apply ends_bind, ends_check_read_write; [|by auto]. intros Hmut.
  pose proof (mutable_state r Hok Hmut) as Him. pose proof (at_own_state r Hok) as Hr.
  apply ends_bind. cbn [ends get]. rewrite write_state. destruct (bool_decide_reflect (state_of r = InWrite)) as [Hw|Hw]; cbn [orb].
  { apply ends_ret, ends_ret. rewrite Hw. auto. }
  destruct (m_is_sending_notifications r); [apply ends_ret, ends_ret; auto|].
  apply (ends_keeps_then (at_state (state_of r)) (fun _ => False)); [auto with keeps|done|done|]. intros ? r1 Hr1.
  apply (sending_ends _ r1 (fun _ st' => transaction op_refresh false (state_of r) true st')
    (fun st' => transaction op_refresh false (state_of r) false st')).
  apply (ends_keeps_then (at_state (state_of r)) (fun _ => False)); [auto with keeps|by apply set_sending_state|done|]. intros ? r2 Hr2.
  apply ends_bind. cbn [ends get]. rewrite (has_group_pointer (state_of r) r2 Hr2). apply ends_if; intros Hg.
  - eapply ends_mono; [eapply translating_state, (keeps_latest_cache (state_of r)); eassumption| |].
    + intros b r3 Hr3. eapply state_ends; [exact Hr3|]. apply refreshed; [done|]. destruct (state_of r); auto; done.
    + intros e r3 Hr3. eapply state_ends; [exact Hr3|]. auto.
  - apply ends_bind. destruct Hr2 as [Hok2 Es2]. eapply ends_mono; [by apply read_group_state| |].
    + intros ? r3 [Hr3 Hclosed]. rewrite Es2 in *. assert (state_of r = Idle) as Ei by (destruct (state_of r); done).
      rewrite Ei in *. apply (ends_keeps (at_state InRead) (fun _ => False)); [|done| |done].
      * apply keeps_bind; auto with keeps.
      * intros ? r4 Hr4. eapply state_ends; [exact Hr4|]. auto.
    + rewrite Es2. intros e r3 [Hr3|[Ei Hr3]]; (eapply state_ends; [exact Hr3|]); [by auto|]. rewrite Ei. auto.
Qed.

Lemma compact_ready r sg : m_shared_group (files r) = Some sg -> get_transact_stage sg = transact_Ready ->
  m_read_only_group (files r) = None -> immutable (m_config r) = false ->
  wlp (_ ← modify (set_group_pointer false); sg ← the_shared_group; _ ← modify (set_shared_group (do_compact sg).1); mret (do_compact sg).2) r
    (fun _ => at_state Idle) (fun _ _ => False).
Proof.
  intros Esg Hstage Hro Him. apply ends_bind, ends_modify, ends_bind, ends_shared_group; [|done]. cbn. rewrite Esg. intros ? [= <-].
  pose proof (compact_stage sg Hstage) as Hc. apply ends_bind, ends_modify, ends_ret.
  split; [constructor|]; unfold state_of, files_state; cbn; rewrite ?Hc, ?Hro; auto; done.
Qed.

Lemma compact_ends r : realm_ok r -> ends_as op_compact r (_ ← compact; mret ()).
Proof.
  intros Hok. unfold ends_as. apply ends_bind, ends_bind, ends_verify_thread; [|by auto]. apply ends_bind. cbn [ends get].
  destruct (immutable (m_config r)) eqn:Hmut; cbn [orb]; [by apply ends_raise; auto|].
  destruct (read_only_alternative (m_config r)); [by apply ends_raise; auto|].
  rewrite write_state. destruct (bool_decide_reflect (state_of r = InWrite)) as [Hw|Hw]; [by apply ends_raise; auto|].
  apply ends_bind, ends_verify_open; [|by auto]. intros Hopen.
  pose proof (mutable_state r Hok Hmut) as Him. pose proof (open_state r Hok Hopen) as Hop.
  assert (state_of r = Idle \/ state_of r = InRead) as Hst by (destruct (state_of r); auto; done).
  assert (exists sg, m_shared_group (files r) = Some sg /\ m_read_only_group (files r) = None) as (sg & Esg & Hro).
  { destruct Hok as [_ Hone _ _]. unfold state_of, files_state in *. destruct (m_shared_group (files r)) as [sg|]; [by exists sg; auto|].
    destruct (m_read_only_group (files r)); by destruct Hst. }
  assert (Hend : forall r', at_state Idle r' -> realm_ok r' /\ transaction op_compact (m_is_sending_notifications r) (state_of r) true (state_of r'))
    by (intros r' Hr'; eapply state_ends; [exact Hr'|auto]).
  apply ends_bind. rewrite (has_group_pointer (state_of r) r) by done.
  destruct Hst as [Est|Est]; rewrite Est in *; cbn [has_group when].
  - apply ends_ret. eapply ends_mono; [eapply compact_ready; try eassumption| |done].
    + rewrite (shared_state r sg Esg) in Est. by destruct (get_transact_stage sg).
    + intros b r'. by apply Hend.
  - unfold update_shared_group. apply ends_bind, ends_shared_group; [|done]. intros ? Esg'. simplify_eq. apply ends_modify.
    assert (get_transact_stage sg <> transact_Writing) as Hread by (rewrite (shared_state r sg Esg) in Est; by destruct (get_transact_stage sg)).
    eapply ends_mono; [by eapply compact_ready; try done; apply end_read_stage| |done]. intros b r'. by apply Hend.
Qed.

Lemma close_ends r : ends_as op_close r close.
Proof. apply ends_modify. split; [by constructor|apply closed]. Qed.

(** The body of [notify], which keeps the state *)
Lemma keeps_available_after st R : keeps (at_state st) R (_ ← modify (set_sending true); process_available_async).
Proof. apply keeps_bind; auto with keeps. Qed.

Lemma keeps_translating st {A} (m : Prog realm RealmException A) :
  keeps (at_state st) (at_state st) m -> keeps (at_state st) (at_state st) (translating m).
Proof. intros Hm r Hr. by apply translating_state, Hm. Qed.

Lemma keeps_notify_advance st : keeps (at_state st) (at_state st) notify_advance.
Proof.
  apply keeps_bind; [auto with keeps|]. intros _ r Hr. apply ends_bind. cbn [ends get].
  apply ends_if; intros _; [done|]. rewrite (has_group_pointer st r Hr). apply ends_if; intros Hg.
  - apply (ends_keeps (at_state st) (at_state st)); [|done..].
    apply keeps_bind; [apply keeps_translating|]; auto with keeps.
  - apply (ends_keeps (at_state st) (at_state st)); [|done..]. keeps_steps.
Qed.

Lemma keeps_notify_changes st : keeps (at_state st) (at_state st) notify_changes.
Proof.
  unfold notify_changes. apply keeps_bind; [auto with keeps|]. intros sg. apply keeps_if; [apply keeps_available_after|].
  apply keeps_bind; [auto with keeps|]. intros r. apply keeps_bind; [keeps_steps|]. intros b.
  apply keeps_if; [auto with keeps|]. apply keeps_notify_advance.
Qed.

Lemma notify_ends r : realm_ok r -> ends_as op_notify r notify.
Proof.
  intros Hok. unfold ends_as, notify. apply ends_bind. cbn [ends get]. pose proof (at_own_state r Hok) as Hr.
  destruct (is_closed r || is_in_transaction r) eqn:E.
  - apply ends_ret. split; [done|]. apply notified. intros Ei. unfold is_closed in E. rewrite write_state, Ei in E. cbn in E.
    unfold state_of, files_state in Ei. destruct (m_shared_group (files r)) as [sg|]; [by destruct (get_transact_stage sg)|].
    by destruct (m_read_only_group (files r)).
  - apply ends_bind, ends_verify_thread; [|by auto].
    apply (ends_keeps_then (at_state (state_of r)) (fun _ => False)); [auto with keeps|done|done|]. intros ? r1 Hr1.
    apply (ends_keeps_then (at_state (state_of r)) (fun _ => False)); [auto with keeps|done|done|]. intros ? r2 Hr2.
    destruct (decide (state_of r = OpenImmutable)) as [Ei|Hne].
    + apply ends_scope_exit, ends_bind, ends_shared_group; [|done]. intros sg Esg. exfalso. destruct Hr2 as [_ E2].
      rewrite (shared_state r2 sg Esg), Ei in E2. by destruct (get_transact_stage sg).
    + apply (flag_ends _ r2 (fun _ st' => transaction op_notify (m_is_sending_notifications r) (state_of r) true st')
        (fun st' => transaction op_notify (m_is_sending_notifications r) (state_of r) false st')).
      apply (ends_keeps (at_state (state_of r)) (at_state (state_of r))); [apply keeps_notify_changes|done| |].
      * intros _ r3 [Hok3 ->]. auto.
      * intros e r3 [Hok3 ->]. auto.
Qed.
End operations.

(** ** Operations that cannot crash

    With an application that does nothing and without other writers, every
    operation can be called in a read transaction and ends. *)
Record undisturbed r sg : Prop := {
  ud_newest : at_newest r sg;
  ud_alone : latest_version (do_begin_write sg) = bound_version sg;
  ud_mode : read_only_alternative (m_config r) = false
}.

(** The same in a write transaction, whose changes are undone to tables that can
    be read *)
Record undisturbed_write r sg : Prop := {
  uw_write : in_write r sg;
  uw_reads : schema_from_group (latest_group sg) = Ok (m_schema (schemas r));
  uw_dynamic : m_dynamic_schema (schemas r) = true;
  uw_version : m_schema_version (schemas r) = get_schema_version (latest_group sg);
  uw_sending : m_is_sending_notifications r = false
}.

(** What is shown of each: it returns where it is allowed, and throws elsewhere. *)
Definition allowed (op : Operation) (st : RealmState) : bool :=
  match op, st with
  | (op_commit_transaction | op_cancel_transaction), InRead => false
  | (op_begin_transaction | op_compact), InWrite => false
  | _, _ => true
  end.
Definition ends_calmly st {A} op r (m : Prog realm RealmException A) : Prop :=
  wp m r (fun _ _ => allowed op st = true) (fun _ _ => allowed op st = false).

Section quiet_operations.
Hypothesis Hquiet : quiet.
Context (r : realm) (sg : SG).
Hypothesis Hud : undisturbed r sg.

Lemma undisturbed_reading : is_in_transaction r = false.
Proof.
  unfold is_in_transaction. rewrite (an_files _ _ (ud_newest _ _ Hud)). cbn. by rewrite (an_stage _ _ (ud_newest _ _ Hud)).
Qed.

Lemma undisturbed_open : is_closed r = false.
Proof. unfold is_closed. by rewrite (an_files _ _ (ud_newest _ _ Hud)). Qed.

Lemma undisturbed_checks {A} (m : Prog realm RealmException A) Q R : wp m r Q R -> wp (_ ← check_write; _ ← verify_thread; m) r Q R.
Proof.
  intros Hm. apply ends_bind. unfold check_write. apply ends_bind. cbn [ends get].
  rewrite (an_mode _ _ (ud_newest _ _ Hud)), (ud_mode _ _ Hud). apply ends_ret, ends_bind, quiet_thread; [apply Hud|done].
Qed.

(** The cache follows a Realm at the newest version. *)
Lemma quiet_cache r' sg' (Q : () -> realm -> Prop) R :
  m_shared_group (files r') = Some sg' -> schemas r' = schemas r -> coordinator r' = coordinator r -> m_coordinator r' = m_coordinator r ->
  (forall r'', files r'' = files r' -> Q () r'') -> wp cache_new_schema r' Q R.
Proof.
  intros Esg Es Ec Em HQ. destruct (covers_advance _ (bound_version sg') _ (an_cache _ _ (ud_newest _ _ Hud))) as (c & Hc & _).
  apply (ends_cache_new_schema _ r' sg' c); rewrite ?Es, ?Ec, ?Em; try done; try apply Hud. by apply HQ.
Qed.

Lemma quiet_read_group r' (Q : G -> realm -> Prop) R :
  files r' = files r -> Q (group_of sg) r' -> wp read_group r' Q R.
Proof. intros Ef. apply ends_read_group. rewrite Ef. apply Hud. Qed.

Lemma quiet_available r' (Q : () -> realm -> Prop) R :
  files r' = files r -> m_coordinator r' = m_coordinator r -> Q () r' -> wp process_available_async r' Q R.
Proof.
  intros Ef Em HQ. unfold process_available_async, the_coordinator. apply ends_bind, ends_bind. cbn [ends get]. rewrite Em.
  rewrite (an_coordinator _ _ (ud_newest _ _ Hud)). apply ends_ret, ends_bind. cbn [ends get].
  assert (is_in_transaction r' = false) as -> by (unfold is_in_transaction; rewrite Ef; apply undisturbed_reading).
  apply ends_bind, ends_ret. by rewrite (quiet_notifiers Hquiet).
Qed.

Lemma begin_calmly : ends_calmly InRead op_begin_transaction r begin_transaction.
Proof.
  pose proof (ud_newest _ _ Hud) as Hn. unfold ends_calmly, begin_transaction. apply undisturbed_checks, ends_bind. cbn [ends get].
  rewrite undisturbed_reading, (an_sending _ _ Hn). apply ends_bind, quiet_read_group; [done|].
  apply ends_bind, ends_modify, ends_scope_exit. set (r1 := set_sending true r).
  apply ends_bind, ends_catch. unfold coordinator_promote_to_write, the_coordinator. apply ends_bind, ends_bind. cbn [ends get].
  replace (m_coordinator r1) with true by (symmetry; apply Hn). apply ends_ret, ends_bind. cbn [ends get].
  replace (is_in_transaction r1) with false by (symmetry; apply undisturbed_reading). apply ends_bind, ends_ret.
  assert (m_shared_group (files r1) = Some sg) as Esg by (cbn; by rewrite (an_files _ _ Hn)).
  unfold transaction_begin, advance_with_notifications. apply ends_bind, (ends_the_shared_group _ r1 sg); [done|].
  apply ends_bind. cbn [ends get]. rewrite (quiet_rows Hquiet), andb_false_r. unfold has_notifiers, package_for. cbn [m_notifiers].
  rewrite (quiet_notifiers Hquiet). cbn [negb andb orb bool_decide decide decide_rel]. set (p := mkPackage None [] true (async_error r1)).
  apply ends_bind, quiet_before; [done..|]. apply ends_bind. unfold promote_to_write.
  apply ends_bind, (ends_the_shared_group _ r1 sg); [done|]. rewrite bool_decide_eq_true_2 by apply Hn. cbn [negb].
  apply ends_bind. unfold update_shared_group at 1. apply ends_bind, (ends_the_shared_group _ r1 sg); [done|]. apply ends_modify.
  set (r2 := set_shared_group (do_begin_write sg) r1). apply ends_bind, ends_catch. unfold do_advance_read.
  assert (latest_version (do_begin_write sg) = bound_version (do_begin_write sg)) as Ev by (rewrite begin_write_bound; apply Hud).
  apply ends_bind, (ends_the_shared_group _ r2 (do_begin_write sg)); [done|]. rewrite Ev, Z.leb_refl, Z.eqb_refl.
  apply ends_bind, ends_ret, ends_ret, ends_bind. unfold update_shared_group.
  apply ends_bind, (ends_the_shared_group _ r2 (do_begin_write sg)); [done|]. apply ends_modify, ends_ret.
  set (sg2 := set_transact_stage transact_Writing (do_begin_write sg)). set (r3 := set_shared_group sg2 r2).
  apply ends_bind, (ends_the_shared_group _ r3 sg2); [done|]. apply ends_bind, ends_when.
  2: intros _. 1: intros _; apply quiet_tell; [done|].
  all: apply ends_bind; cbn [ends get]; replace (is_set (m_shared_group (files r3))) with true by done; cbn [negb];
    apply ends_bind, quiet_tell, ends_bind; [done|]; cbn [ends get]; replace (is_set (m_shared_group (files r3))) with true by done; cbn [negb];
    apply ends_bind, (ends_the_shared_group _ r3 sg2); [done|]; rewrite Z.eqb_refl; apply ends_bind, (quiet_deliver _ r3 sg2); [done..|];
    apply ends_bind, quiet_after; [done..|]; apply ends_bind; cbn [ends get]; replace (is_set (m_shared_group (files r3))) with true by done;
    cbn [when]; apply quiet_tell; [done|]; by eapply quiet_cache.
Qed.

Lemma commit_calmly : ends_calmly InRead op_commit_transaction r commit_transaction.
Proof. apply undisturbed_checks, ends_bind. cbn [ends get]. by rewrite undisturbed_reading. Qed.
Lemma cancel_calmly : ends_calmly InRead op_cancel_transaction r cancel_transaction.
Proof. apply undisturbed_checks, ends_bind. cbn [ends get]. by rewrite undisturbed_reading. Qed.
Lemma read_calmly : ends_calmly InRead op_read_group r (_ ← read_group; mret ()).
Proof. by apply ends_bind, quiet_read_group. Qed.
Lemma refresh_calmly : ends_calmly InRead op_refresh r (_ ← refresh; mret ()).
Proof. apply ends_bind. eapply ends_mono; [apply (refresh_newest Hquiet r sg); apply Hud|done|done]. Qed.
Lemma close_calmly : ends_calmly InRead op_close r close.
Proof. done. Qed.

Lemma quiet_end_read r' (Q : () -> realm -> Prop) R :
  files r' = files r -> (forall r'', m_shared_group (files r'') = Some (do_end_read sg) -> Q () r'') -> wp (update_shared_group do_end_read) r' Q R.
Proof.
  intros Ef HQ. unfold update_shared_group. apply ends_bind, (ends_the_shared_group _ r' sg); [by rewrite Ef, (an_files _ _ (ud_newest _ _ Hud))|].
  apply ends_modify. by apply HQ.
Qed.

Lemma invalidate_calmly : ends_calmly InRead op_invalidate r invalidate.
Proof.
  pose proof (ud_newest _ _ Hud) as Hn. unfold ends_calmly, invalidate. apply ends_bind. unfold verify_open. apply ends_bind. cbn [ends get].
  rewrite undisturbed_open. apply ends_ret, ends_bind, quiet_thread; [apply Hn|]. apply ends_bind. unfold check_read_write.
  apply ends_bind. cbn [ends get]. rewrite (an_mode _ _ Hn). apply ends_ret, ends_bind. cbn [ends get].
  rewrite (an_sending _ _ Hn), undisturbed_reading. apply ends_bind, ends_ret, ends_bind. cbn [ends get].
  rewrite (an_files _ _ Hn). cbn [m_group negb]. apply ends_bind, ends_modify, ends_bind, quiet_end_read; [done|]. intros r' _. by apply ends_modify.
Qed.

Lemma compact_calmly : ends_calmly InRead op_compact r (_ ← compact; mret ()).
Proof.
  pose proof (ud_newest _ _ Hud) as Hn. unfold ends_calmly, compact. apply ends_bind, ends_bind, quiet_thread; [apply Hn|].
  apply ends_bind. cbn [ends get]. rewrite (an_mode _ _ Hn), (ud_mode _ _ Hud), undisturbed_reading. cbn [orb].
  apply ends_bind. unfold verify_open. apply ends_bind. cbn [ends get]. rewrite undisturbed_open. apply ends_ret, ends_bind, ends_when.
  - intros _. apply quiet_end_read; [done|]. intros r' Esg. apply ends_bind, ends_modify, ends_bind.
    apply (ends_the_shared_group _ _ (do_end_read sg)); [done|]. by apply ends_bind, ends_modify.
  - rewrite (an_files _ _ Hn). done.
Qed.

Lemma advance_to_ready_calmly r' (Q : () -> realm -> Prop) R :
  files r' = files r -> m_coordinator r' = m_coordinator r -> Q () r' -> wp advance_to_ready r' Q R.
Proof.
  pose proof (ud_newest _ _ Hud) as Hn. intros Ef Em HQ. unfold advance_to_ready, the_coordinator. apply ends_bind, ends_bind. cbn [ends get].
  rewrite Em, (an_coordinator _ _ Hn). apply ends_ret, ends_bind. cbn [ends get]. apply ends_bind, quiet_package; [done|].
  apply ends_bind, (ends_the_shared_group _ r' sg); [by rewrite Ef, (an_files _ _ Hn)|].
  unfold has_notifiers, package_for. cbn [m_notifiers]. rewrite (quiet_notifiers Hquiet). cbn [negb bool_decide decide decide_rel].
  apply (quiet_advance Hquiet _ r' sg); [by rewrite Ef, (an_files _ _ Hn)|apply Hn|apply Hn|done..].
Qed.

Lemma notify_advance_calmly r' Q R :
  files r' = files r -> schemas r' = schemas r -> coordinator r' = coordinator r -> m_coordinator r' = m_coordinator r ->
  (forall r'', Q () r'') -> wp notify_advance r' Q R.
Proof.
  pose proof (ud_newest _ _ Hud) as Hn. intros Ef Es Ec Em HQ. unfold notify_advance. apply ends_bind, ends_modify, ends_bind. cbn [ends get].
  apply ends_if; intros _; [by apply ends_ret|]. apply ends_if; intros Hg.
  - apply ends_bind, ends_catch, advance_to_ready_calmly; [done..|].
    apply (quiet_cache _ sg); [cbn; by rewrite Ef, (an_files _ _ Hn)|done..].
  - cbn in Hg. by rewrite Ef, (an_files _ _ Hn) in Hg.
Qed.

Lemma notify_calmly : ends_calmly InRead op_notify r notify.
Proof.
  pose proof (ud_newest _ _ Hud) as Hn. unfold ends_calmly, notify. apply ends_bind. cbn [ends get].
  rewrite undisturbed_open, undisturbed_reading. cbn [orb]. apply ends_bind, quiet_thread; [apply Hn|].
  apply ends_bind, ends_invalidate_cache. intros x. apply ends_bind, quiet_tell; [done|]. apply ends_scope_exit.
  set (r1 := set_permissions_cache x r). unfold notify_changes.
  assert (m_shared_group (files r1) = Some sg) as Esg by (cbn; by rewrite (an_files _ _ Hn)).
  apply ends_bind, (ends_the_shared_group _ r1 sg); [done|]. apply ends_if; intros _.
  - apply ends_bind, ends_modify. by apply quiet_available.
  - apply ends_bind. cbn [ends get]. apply ends_bind, ends_if; intros _.
    + apply ends_bind, quiet_call; [done|]. apply ends_bind, (ends_the_shared_group _ r1 sg); [done|]. apply ends_ret.
      apply ends_if; intros _; [done|]. by apply notify_advance_calmly.
    + apply ends_ret. by apply notify_advance_calmly.
Qed.

Lemma operation_calmly op : ends_calmly InRead op r (run_operation op).
Proof.
  destruct op; cbn [run_operation].
  - apply begin_calmly.
  - apply commit_calmly.
  - apply cancel_calmly.
  - apply read_calmly.
  - apply invalidate_calmly.
  - apply refresh_calmly.
  - apply notify_calmly.
  - apply compact_calmly.
  - apply close_calmly.
Qed.
End quiet_operations.

Section quiet_write.
Hypothesis Hquiet : quiet.
Context (r : realm) (sg : SG).
Hypothesis Huw : undisturbed_write r sg.

Lemma write_open : is_closed r = false.
Proof. unfold is_closed. by rewrite (iw_files _ _ (uw_write _ _ Huw)). Qed.

Lemma operation_in_write op : ends_calmly InWrite op r (run_operation op).
Proof.
  pose proof (uw_write _ _ Huw) as Hw. pose proof (in_write_transaction r sg Hw) as Ht. unfold ends_calmly.
  pose proof (cancel_in_write Hquiet r sg _ Hw (uw_reads _ _ Huw) (uw_dynamic _ _ Huw) eq_refl (uw_version _ _ Huw)) as Hcancel.
  destruct op; cbn [run_operation allowed].
  - apply (ends_write_checks _ r sg); [done..|]. apply ends_bind. cbn [ends get]. by rewrite Ht.
  - eapply ends_mono; [by apply (commit_in_write Hquiet r sg)|done..].
  - eapply ends_mono; [exact Hcancel|done..].
  - apply ends_bind, (ends_read_group _ r sg); [apply Hw|done].
  - unfold invalidate. apply ends_bind. unfold verify_open. apply ends_bind. cbn [ends get].
    rewrite write_open. apply ends_ret, ends_bind, quiet_thread; [apply Hw|]. apply ends_bind. unfold check_read_write.
    apply ends_bind. cbn [ends get]. rewrite (proj1 (iw_mode _ _ Hw)). apply ends_ret, ends_bind. cbn [ends get].
    rewrite (uw_sending _ _ Huw), Ht. apply ends_bind. eapply ends_mono; [exact Hcancel| |done].
    intros _ r1 [(sg1 & Ef1 & _) _ _]. apply ends_bind. cbn [ends get]. rewrite Ef1. cbn [m_group negb].
    apply ends_bind, ends_modify, ends_bind. unfold update_shared_group. apply ends_bind, (ends_the_shared_group _ _ sg1); [cbn; by rewrite Ef1|].
    by apply ends_modify, ends_modify.
  - apply ends_bind. unfold refresh. apply ends_bind, quiet_thread; [apply Hw|]. apply ends_bind. unfold check_read_write.
    apply ends_bind. cbn [ends get]. rewrite (proj1 (iw_mode _ _ Hw)). apply ends_ret, ends_bind. cbn [ends get]. by rewrite Ht.
  - unfold notify. apply ends_bind. cbn [ends get]. by rewrite Ht, orb_true_r.
  - apply ends_bind. unfold compact. apply ends_bind, quiet_thread; [apply Hw|]. apply ends_bind. cbn [ends get].
    rewrite (proj1 (iw_mode _ _ Hw)), (proj2 (iw_mode _ _ Hw)), Ht. done.
  - done.
Qed.
End quiet_write.

Lemma operation_refines op r : calm -> realm_ok r -> ends_as op r (run_operation op).
Proof.
  intros Hcalm Hok. destruct op; cbn [run_operation].
  - by apply begin_ends.
  - by apply commit_ends.
  - by apply cancel_ends.
  - by apply read_ends.
  - by apply invalidate_ends.
  - by apply refresh_ends.
  - by apply notify_ends.
  - by apply compact_ends.
  - by apply close_ends.
Qed.

(** Concluding from two specifications of which one excludes crashes *)
Lemma wp_and {A} (m : Prog realm RealmException A) r Q Q' R R' :
  wp m r Q R -> wlp m r Q' R' -> wp m r (fun a r' => Q a r' /\ Q' a r') (fun e r' => R e r' /\ R' e r').
Proof. unfold ends. by destruct (m r). Qed.

End refinement.
