(* ===== verification/UpdateTheorems.v ===== *)
(** * Schema updates: the theorems *)
From stdpp Require Import gmap.
From stdpp Require Import gmap strings.
From S2P Require Import Prelude.
From S2P Require Import ChangeBuilder.
From S2P Require Import Advance.
From S2P Require Import SchemaTypes.
From S2P Require Import Schemas.
From S2P Require Import SchemaDiff.
From S2P Require Import CoreTables.
From S2P Require Import ObjectStore.
From S2P Require Import StoreChanges.
From S2P Require Import StoreFacts.
From S2P Require Import SchemaReading.
From S2P Require Import StoreMetadata.
From S2P Require Import MigrationPlan.
From S2P Require Import MigrationRun.
From S2P Require Import MigrationTheorems.
From S2P Require Import Effects.
From S2P Require Import SchemaCache.
From S2P Require Import Realms.
From S2P Require Import RealmAdvance.
From S2P Require Import SharedRealm.
From S2P Require Import RealmFacts.
From S2P Require Import RealmTransactions.
From S2P Require Import UpdateFacts.

Section theorems.
Context {G SG : Type} `{CoreLaws G} {CS : CharSign} {HSort : StdSort} {HPart : StdPartition} `{BuildMode}.
Context `{!CoreSharedGroup G SG, !SharedGroupLaws G SG} `{!Application G SG, Worker}.
Variable create_default_permissions : G -> list SchemaChange -> string -> Result G.
Variable partly_applied : G -> G.
Abbreviation realm := (Realm G SG).
Implicit Types (r : realm).
Hypothesis Hquiet : quiet.

Abbreviation apply_changes := (apply_schema_changes create_default_permissions).

(** The tables an update leaves in the transaction *)
Lemma change_group_ends (C : Prop) r sg {A} (f : G -> Result (G * A)) (Q : A -> realm -> Prop) (R : RealmException -> realm -> Prop) :
  files r = mkFiles (Some sg) None true -> is_in_transaction r = true ->
  match f (group_of sg) with
  | Ok (g, a) => Q a (set_shared_group (set_group g sg) r)
  | Throw e => R (StoreException e) (set_shared_group (set_group (partly_applied (group_of sg)) sg) r)
  | Crash => C
  end ->
  ends C (change_group partly_applied f) r Q R.
Proof.
  intros Ef Ht Hf. unfold change_group. apply ends_bind, (ends_read_group C r sg); [done|]. apply ends_bind. cbn [ends get].
  rewrite Ht. cbn [negb]. destruct (f (group_of sg)) as [[g a]|e|]; [| |done]; apply ends_bind; unfold update_shared_group;
    (apply ends_bind, (ends_the_shared_group C r sg); [by rewrite Ef|]); by apply ends_modify.
Qed.

(** What is left to do in [apply_update] when the tables are changed *)
Lemma written_in_write r sg existing g : writing r sg existing -> in_write (set_shared_group (set_group g sg) r) (set_group g sg).
Proof.
  intros Hw. destruct (writing_in_write r sg existing Hw). constructor; cbn; try done.
  - by rewrite (wr_files _ _ _ Hw).
  - by rewrite group_set_stage.
Qed.

Lemma finish_update r sg schema version : in_write r sg ->
  wp (_ ← when (negb false) commit_transaction;
      _ ← modify (set_m_schema schema);
      group ← read_group;
      _ ← modify (set_schema_and_version schema (get_schema_version group));
      _ ← modify (set_dynamic_schema false);
      _ ← update_cache (Cache.clear_schema_cache_and_set_schema_version version);
      notify_schema_changed) r
    (fun _ r' => files r' = mkFiles (Some (do_commit sg)) None true /\ m_schema (schemas r') = schema /\
      m_schema_version (schemas r') = get_schema_version (group_of sg) /\ m_dynamic_schema (schemas r') = false)
    (fun _ _ => False).
Proof.
  intros Hw. apply ends_bind. cbn [when negb]. eapply ends_mono; [by apply commit_in_write| |done]. intros _ r1 (Ef & Hco & _).
  apply ends_bind, ends_modify, ends_bind, (ends_read_group _ _ (do_commit sg)); [done|].
  apply ends_bind, ends_modify, ends_bind, ends_modify, ends_bind. unfold update_cache, the_coordinator.
  apply ends_bind, ends_bind. cbn [ends get]. cbn. rewrite Hco. apply (quiet_notify_schema Hquiet). cbn.
  by rewrite commit_group by apply Hw.
Qed.

Lemma run_changes_ends r sg existing target_schema version changes :
  writing r sg existing -> by_name target_schema ->
  yields (apply_changes (group_of sg) (get_schema_version (group_of sg)) target_schema version (schema_mode (m_config r)) changes
    (sync_user_id (m_config r)) None) (reaches target_schema version) ->
  wp (run_changes create_default_permissions partly_applied target_schema version changes) r
    (fun schema r' => exists g, r' = set_shared_group (set_group g sg) r /\ reaches target_schema version (g, schema))
    (fun e r' => (exists type property, e = StoreException (DuplicatePrimaryKeyValueException type property)) /\
      exists g, r' = set_shared_group (set_group g sg) r).
Proof.
  intros Hw Hname Hy. unfold run_changes. apply ends_bind. cbn [ends get]. rewrite (wr_schemas _ _ _ Hw). cbn [m_schema_version].
  apply ends_bind, (change_group_ends _ r sg); [apply Hw|by eapply writing_in_transaction|].
  destruct (apply_changes _ _ _ _ _ _ _ _) as [[g schema]|[]|]; try done; cbn [yields] in Hy; [|by eauto].
  apply ends_bind. set (r1 := set_shared_group (set_group g sg) r).
  assert (exists g', r1 = set_shared_group (set_group g' sg) r /\ reaches target_schema version (g', schema)) as Hdone by by exists g.
  apply ends_if; intros _; [|by apply ends_ret, ends_ret].
  destruct Hy as (_ & Es & s & Eread & Ecmp). cbn [fst snd] in *.
  apply ends_bind, (ends_read_group _ r1 (set_group g sg)); [cbn; by rewrite (wr_files _ _ _ Hw)|].
  rewrite group_set by apply Hw. rewrite Eread. apply ends_bind, ends_ret.
  assert (compare s schema false = []) as ->.
  { subst schema. apply compare_columns; [by eapply schema_from_group_by_name|done|done]. }
  by apply ends_ret.
Qed.

(** The outcome of a successful update *)
Definition updated target_schema version r : Prop :=
  exists sg, files r = mkFiles (Some sg) None true /\ get_transact_stage sg = transact_Reading /\
    latest_group sg = group_of sg /\ reaches target_schema version (group_of sg, m_schema (schemas r)) /\
    m_schema_version (schemas r) = version /\ m_dynamic_schema (schemas r) = false.

(** An update in its write transaction either is committed, or throws *)
Lemma apply_update_ends r sg existing target_schema version changes :
  writing r sg existing -> by_name target_schema ->
  yields (apply_changes (group_of sg) (get_schema_version (group_of sg)) target_schema version (schema_mode (m_config r)) changes
    (sync_user_id (m_config r)) None) (reaches target_schema version) ->
  wp (apply_update create_default_permissions partly_applied target_schema version None None false changes) r
    (fun _ r' => updated target_schema version r')
    (fun e r' => (exists type property, e = StoreException (DuplicatePrimaryKeyValueException type property)) /\
      exists g, r' = set_shared_group (set_group g sg) r).
Proof.
  intros Hw Hname Hy. unfold apply_update. apply ends_bind. cbn [ends get].
  apply ends_bind, ends_bind. eapply ends_mono; [by apply (run_changes_ends r sg existing)| |done].
  intros schema r1 (g & -> & Hreach). apply ends_ret, ends_bind, ends_ret.
  eapply ends_mono; [apply finish_update; apply (written_in_write r sg existing g Hw)| |done].
  intros _ r2 (Ef & Es & Ev & Ed). exists (do_commit (set_group g sg)).
  assert (get_transact_stage (set_group g sg) = transact_Writing) as Hwrite by (rewrite group_set_stage; apply Hw).
  rewrite commit_stage, commit_latest, commit_group, Es by done. rewrite group_set in Ev |- * by apply Hw.
  split; [done|]. split; [done|]. split; [done|]. split; [done|]. split; [|done]. rewrite Ev. apply Hreach.
Qed.

(** What [ObjectStore] does with the changes of a migration *)
Lemma migration_yields `{!PartitionKeepsPrefix} (g : G) existing target_schema version user :
  migratable g existing target_schema -> (get_schema_version g =? NotVersioned) = false ->
  (version =? get_schema_version g) = false -> 0 <= version < 2 ^ 64 ->
  yields (apply_changes g (get_schema_version g) target_schema version Automatic (compare existing target_schema false) user None)
    (reaches target_schema version).
Proof.
  intros Hm Hnv Hne Hv. pose proof (migratable_migration g existing target_schema Hm) as M.
  pose proof (create_metadata_spec g (mi_store _ _ _ Hm)) as (_ & Hmeta & _).
  destruct (compare_shape existing target_schema false (mg_existing _ _ _ _ M) (mg_target _ _ _ _ M)) as (k & rm & i & Ho & _).
  unfold apply_schema_changes. rewrite Hnv, Z.eqb_sym, Hne. eapply apply_migration_reaches; [done|by eauto|done|done].
Qed.

(** C2: Updating a Realm in the automatic mode, without a migration or an
    initialization function, to a schema its file can be migrated to
    ([migratable]) with a greater schema version, when no other writer commits
    meanwhile ([up_alone]), the Realm has read the newest version, and the
    application and its notifiers do nothing when they are called ([quiet]):
    either the new version and tables are committed whose schema, read back,
    compares with the schema asked for without any change, or a duplicate primary
    key is reported and the file, the Realm's schema and its version are those
    from before, with no write transaction left open. With another writer the
    transaction may be left open ([update_schema_leaves_transaction]). As in
    [migration_reaches_target] the partition is one that keeps its prefix. *)
Theorem update_schema_migrates `{!PartitionKeepsPrefix} r sg existing target_schema version :
  up_to_date r sg existing -> schema_mode (m_config r) = Automatic ->
  validate target_schema = Ok () -> migratable (group_of sg) existing target_schema ->
  get_schema_version (group_of sg) < version < 2 ^ 64 -> 0 <= get_schema_version (group_of sg) ->
  wp (update_schema create_default_permissions partly_applied target_schema version None None false) r
    (fun _ r' => updated target_schema version r')
    (fun e r' => (exists type property, e = StoreException (DuplicatePrimaryKeyValueException type property)) /\
      unchanged r' (group_of sg) existing (get_schema_version (group_of sg))).
Proof.
  intros Hup Hmode Hval Hm Hv Hpos. set (old := get_schema_version (group_of sg)) in *.
  assert ((old =? NotVersioned) = false) as Hnv by (apply Z.eqb_neq; unfold NotVersioned; lia).
  assert ((version =? old) = false) as Hne by (apply Z.eqb_neq; lia).
  assert ((version <? old) = false) as Hge by (apply Z.ltb_ge; lia).
  unfold update_schema. rewrite Hval. apply ends_bind, ends_ret, ends_bind.
  eapply ends_mono; [by eapply full_schema_up_to_date| |done]. intros schema r1 (-> & Hup1 & Ec1).
  set (changes := compare existing target_schema false). apply ends_bind.
  unfold schema_change_needs_write_transaction at 1. apply ends_bind. cbn [ends get].
  rewrite (up_schemas _ _ _ Hup1), Ec1, Hmode. cbn [m_schema_version]. fold old. rewrite Hne. cbn [andb].
  unfold older. rewrite Hge. cbn [andb]. apply ends_ret. cbn [negb].
  apply ends_bind. eapply ends_mono; [by eapply begin_up_to_date| |done]. intros _ r2 (sg2 & Hw2 & Eg2 & Ec2).
  apply ends_bind. cbn [ends get]. rewrite (wr_schemas _ _ _ Hw2). cbn [m_new_schema].
  apply ends_bind. eapply ends_mono; [by eapply writing_cache| |done]. intros _ r3 [Hw3 Ec3].
  assert (schema_mode (m_config r3) = Automatic) as Hmode3 by congruence.
  apply ends_scope_exit. eapply ends_mono; [apply (apply_update_ends r3 sg2 existing); [done|apply Hm|]| |].
  - rewrite Eg2, Hmode3. apply migration_yields; [done..|lia].
  - intros ? r4 Hr4. apply ends_bind. cbn [ends get negb andb].
    assert (is_in_transaction r4 = false) as ->; [|done].
    destruct Hr4 as (sg4 & Ef4 & Es4 & _). unfold is_in_transaction. rewrite Ef4. cbn. by rewrite Es4.
  - intros e r4 [He [g ->]]. apply ends_bind. cbn [ends get negb andb].
    pose proof (written_in_write _ _ _ g Hw3) as Hiw. rewrite (in_write_transaction _ _ Hiw). cbn [when].
    pose proof (wr_unchanged _ _ _ Hw3) as El. pose proof (wr_schemas _ _ _ Hw3) as Es3.
    eapply ends_mono; [apply (cancel_in_write Hquiet _ _ existing Hiw)| |done].
    + rewrite group_set_latest, El. apply Hw3.
    + cbn. by rewrite Es3.
    + cbn. by rewrite Es3.
    + cbn. by rewrite Es3, group_set_latest, El.
    + intros ? r5 Hr5. rewrite group_set_latest, El, Eg2 in Hr5. done.
Qed.

(** ** Updates that change nothing *)
Lemma full_schema_settled r sg s : at_newest r sg -> m_dynamic_schema (schemas r) = false ->
  m_cached_schema (schema_cache (coordinator r)) = None -> schema_from_group (group_of sg) = Ok s ->
  wp get_full_schema r (fun schema r' => schema = s /\ refreshed r sg r') (fun _ _ => False).
Proof.
  intros Hup Hdyn Hcache Hread. pose proof (an_files _ _ Hup) as Ef. unfold get_full_schema. apply ends_bind. cbn [ends get].
  rewrite Ef. cbn [m_read_only_group is_set negb when]. apply ends_bind, ends_bind.
  eapply ends_mono; [by apply refresh_newest| |done]. intros b r1 Hre.
  pose proof (re_files _ _ _ Hre) as Ef1. rewrite Ef in Ef1.
  apply ends_ret, ends_bind. cbn [ends get]. rewrite (re_dynamic _ _ _ Hre), Hdyn, Ef1. cbn [m_read_only_group is_set].
  apply ends_bind. unfold the_coordinator. apply ends_bind. cbn [ends get]. rewrite (re_coordinator _ _ _ Hre). apply ends_ret, ends_bind.
  apply (ends_the_shared_group _ r1 sg); [by rewrite Ef1|].
  assert (m_cached_schema (schema_cache (coordinator r1)) = None) as Hc1.
  { pose proof (re_cache _ _ _ Hre) as Ec. unfold Cache.advance_schema_cache in Ec. rewrite Hcache in Ec. injection Ec as <-. done. }
  unfold Cache.get_cached_schema. rewrite Hc1. apply ends_bind, (ends_read_group _ r1 sg); [done|]. rewrite Hread. by apply ends_ret.
Qed.

(** Updating a Realm again to the schema and version its file already has
    succeeds in every mode without touching the file, whatever functions are
    given. *)
Theorem update_schema_again r sg s target_schema version migration initialization :
  at_newest r sg -> m_dynamic_schema (schemas r) = false -> m_cached_schema (schema_cache (coordinator r)) = None ->
  schema_from_group (group_of sg) = Ok s -> compare s target_schema false = [] ->
  validate target_schema = Ok () -> m_schema_version (schemas r) = version ->
  wp (update_schema create_default_permissions partly_applied target_schema version migration initialization false) r
    (fun _ r' => files r' = files r /\ m_schema_version (schemas r') = version /\
      m_schema (schemas r') = copy_table_columns_from target_schema s)
    (fun _ _ => False).
Proof.
  intros Hup Hdyn Hcache Hread Hcmp Hval Hv. unfold update_schema. rewrite Hval. apply ends_bind, ends_ret, ends_bind.
  eapply ends_mono; [by apply (full_schema_settled r sg s)| |done]. intros schema r1 [-> Hre]. apply ends_bind.
  unfold schema_change_needs_write_transaction. apply ends_bind. cbn [ends get].
  rewrite (re_version _ _ _ Hre), Hv, Hcmp, Z.eqb_refl. cbn [length bool_decide decide decide_rel andb]. apply ends_ret. cbn [negb].
  unfold set_schema. apply ends_bind, ends_modify, ends_bind, ends_modify, (quiet_notify_schema Hquiet).
  cbn. rewrite (re_files _ _ _ Hre), (re_version _ _ _ Hre). done.
Qed.

(** ** Schema versions *)

(** In the automatic and the manual mode a version older than the one of the
    file is refused before anything is written: the exception names both
    versions, and the Realm is as up to date as it was, in no transaction. *)
Theorem update_schema_refuses r sg existing target_schema version migration initialization :
  up_to_date r sg existing -> schema_mode (m_config r) = Automatic \/ schema_mode (m_config r) = Manual ->
  validate target_schema = Ok () -> get_schema_version (group_of sg) <> NotVersioned -> version < get_schema_version (group_of sg) ->
  wp (update_schema create_default_permissions partly_applied target_schema version migration initialization false) r
    (fun _ _ => False)
    (fun e r' => e = InvalidSchemaVersionException (get_schema_version (group_of sg)) version /\ up_to_date r' sg existing).
Proof.
  intros Hup Hmode Hval Hnv Hlt. unfold update_schema. rewrite Hval. apply ends_bind, ends_ret, ends_bind.
  eapply ends_mono; [by eapply full_schema_up_to_date| |done]. intros schema r1 (-> & Hup1 & Ec). apply ends_bind.
  unfold schema_change_needs_write_transaction. apply ends_bind. cbn [ends get]. rewrite (up_schemas _ _ _ Hup1), Ec. cbn [m_schema_version].
  set (current := get_schema_version (group_of sg)) in *.
  assert ((version =? current) = false) as -> by (apply Z.eqb_neq; lia).
  assert (older version current = true) as Hold.
  { unfold older. apply andb_true_intro. split; [by apply Z.ltb_lt|]. by apply negb_true_iff, Z.eqb_neq. }
  cbn [andb]. by destruct Hmode as [-> | ->]; rewrite Hold.
Qed.

(** ** Another writer *)

(** C6: When another process commits a greater schema version while
    [update_schema] waits for the write lock, the version is refused after the
    transaction has begun and before its clean-up is in place: the exception
    leaves the write transaction open. *)
Theorem update_schema_leaves_transaction r sg existing existing' target_schema version :
  at_newest r sg -> m_dynamic_schema (schemas r) = true -> m_schema (schemas r) = existing ->
  schema_mode (m_config r) = Automatic -> validate target_schema = Ok () ->
  m_schema_version (schemas r) < version ->
  let sg' := do_begin_write sg in
  bound_version sg < latest_version sg' -> reports_schema_change sg' (latest_version sg') = true ->
  schema_from_group (latest_group sg') = Ok existing' ->
  version < get_schema_version (latest_group sg') -> get_schema_version (latest_group sg') <> NotVersioned ->
  wp (update_schema create_default_permissions partly_applied target_schema version None None false) r
    (fun _ _ => False)
    (fun e r' => e = InvalidSchemaVersionException (get_schema_version (latest_group sg')) version /\ is_in_transaction r' = true).
Proof.
  intros Hup Hdyn Hs Hmode Hval Hlt sg' Hmoved Hreport Hread Hnewer Hnv. unfold update_schema. rewrite Hval.
  apply ends_bind, ends_ret, ends_bind. unfold get_full_schema. apply ends_bind. cbn [ends get].
  rewrite (an_files _ _ Hup). cbn [m_read_only_group is_set negb when]. apply ends_bind, ends_bind.
  eapply ends_mono; [by apply refresh_newest| |done]. intros b r1 Hre.
  pose proof (re_files _ _ _ Hre) as Ef. rewrite (an_files _ _ Hup) in Ef.
  apply ends_ret, ends_bind. cbn [ends get]. rewrite (re_dynamic _ _ _ Hre), Hdyn. apply ends_ret, ends_bind.
  unfold schema_change_needs_write_transaction at 1. apply ends_bind. cbn [ends get].
  rewrite (re_version _ _ _ Hre), (re_config _ _ _ Hre), Hmode. set (current := m_schema_version (schemas r)) in *.
  assert ((version =? current) = false) as -> by (apply Z.eqb_neq; lia).
  assert (older version current = false) as ->. { unfold older. assert ((version <? current) = false) as -> by (apply Z.ltb_ge; lia). done. }
  cbn [andb]. apply ends_ret. cbn [negb]. apply ends_bind.
  eapply ends_mono; [by eapply (begin_moved Hquiet r1 sg); rewrite ?(re_dynamic _ _ _ Hre); try apply Hup| |done].
  intros _ r2 (Htrans & Ec & Enew & Ev). apply ends_bind. cbn [ends get]. rewrite Enew. apply ends_bind.
  unfold schema_change_needs_write_transaction. apply ends_bind. cbn [ends get].
  rewrite Ev, Ec, (re_config _ _ _ Hre), Hmode. fold sg'. set (newer := get_schema_version (latest_group sg')) in *.
  assert ((version =? newer) = false) as -> by (apply Z.eqb_neq; lia).
  assert (older version newer = true) as ->; [|done].
  unfold older. apply andb_true_intro. split; [by apply Z.ltb_lt|]. by apply negb_true_iff, Z.eqb_neq.
Qed.
End theorems.

(** ** A concrete Realm

    A file with one class in a read transaction, of an application that does
    nothing: what the theorems about Realms are applied to. *)
Definition signed_char_instance : CharSign := true.
#[export] Existing Instance signed_char_instance.

(** No notifier has anything to deliver. *)
#[export] Instance stopped_worker : Worker.
Proof.
  refine {| worker_step := fmap stop_notifier; worker_rounds := fun _ _ => 1%nat |}.
  - intros l. by induction l as [|n l IH]; [|rewrite !fmap_cons, IH].
  - intros [version|] l; [|done]. by induction l.
Defined.

#[export] Instance idle_application : Application PlainGroup PlainFile := {|
  react _ r := r;
  observes_rows _ := false;
  observed_table_changed _ _ := false;
  new_notifiers _ := [];
  old_notifiers _ := [];
  async_error _ := false;
  current_thread := 0
|}.

Lemma idle_quiet : quiet.
Proof. by constructor. Qed.
Lemma idle_calm : calm.
Proof. by intros c r Hr. Qed.

(** The class of [MigrationTheorems], with a schema version *)
Definition dog_group (version : Z) : PlainGroup := set_schema_version dog_file version.
Definition dog_config : Config :=
  mkConfig "dogs.realm" None [] false Automatic None NotVersioned false false true true None None.

(** A Realm in a read transaction of a file, with what it has read *)
Definition realm_at (f : PlainFile) (schema : Schema) (version : Z) (dynamic : bool) : Realm PlainGroup PlainFile :=
  mkRealm dog_config (thread_context 0) (mkFiles (Some f) None true) (mkSchemaState schema version None (pf_bound f) dynamic)
    (mkCoordinator Cache.init 0) true false false true true None.

Definition dog_pages (waiting : option PlainGroup) : PlainFile :=
  mkPlainFile transact_Reading 5 (dog_group 1) (dog_group 1) 5 waiting.
Definition dog_realm : Realm PlainGroup PlainFile := realm_at (dog_pages None) [old_dog] 1 true.

Lemma dog_reads version : version ∈ [1; 3] -> schema_from_group (dog_group version) = Ok [old_dog].
Proof. intros [->|[->|[]%elem_of_nil]%elem_of_cons]%elem_of_cons; by vm_compute. Qed.

Lemma dog_group_migratable : migratable (dog_group 1) [old_dog] [new_dog; person].
Proof.
  destruct dog_migratable as [Hids Hstore Hent Hwf Hread Hfile Hby Hclass Harr].
  destruct (create_metadata_spec dog_file Hstore) as ((t & keys & props & Hpk) & Hmeta & Hids1 & Htab & _ & Hentry & _).
  destruct (write_version_spec (create_metadata_tables dog_file) 1 Hmeta) as (_ & Hmeta' & t' & Hc); [lia|].
  assert (forall n, n <> c_metadataTableName -> get_table (dog_group 1) n = get_table (create_metadata_tables dog_file) n) as Hframe
    by (intros n Hn; by apply (changes_to_other _ _ _ _ _ Hc)).
  assert (forall x, table_for_object_type (dog_group 1) x = table_for_object_type dog_file x) as Hclasses.
  { intros x. unfold table_for_object_type. rewrite Hframe by done. by apply Htab. }
  constructor; [|constructor| | |by apply dog_reads; left|done|done|done|done].
  - by rewrite <- Hids, <- Hids1; apply (changes_to_ids _ _ _ _ Hc).
  - intros tp E. rewrite Hframe in E by done. right. exists keys, props. destruct Hpk as [E' Hpk]. by replace tp with t by congruence.
  - intros tm E. right. destruct Hmeta' as (tm' & E' & Hm). fold (set_schema_version dog_file 1) in E'. fold (dog_group 1) in E'.
    by replace tm with tm' by congruence.
  - intros x E. rewrite has_entry_frame by by apply Hframe. rewrite Hentry. apply Hent. by rewrite <- Hclasses.
  - intros x tx E. apply (Hwf x). by rewrite <- Hclasses.
Qed.

Lemma dog_up_to_date : up_to_date dog_realm (dog_pages None) [old_dog].
Proof.
  constructor; try done. by left.
Qed.

Lemma at_newest_realm f schema version dynamic : pf_stage f = transact_Reading -> pf_bound f = pf_version f ->
  at_newest (realm_at f schema version dynamic) f.
Proof. intros Es Ev. constructor; try done. by left. Qed.

Lemma dog_ok : realm_ok dog_realm.
Proof. by constructor. Qed.

(** ** The theorems applied *)
#[local] Instance debug_realms : BuildMode := {| realm_debug := true |}.

Definition no_permissions (g : PlainGroup) (_ : list SchemaChange) (_ : string) : Result PlainGroup := Ok g.
Definition nothing_left (g : PlainGroup) : PlainGroup := g.


Lemma update_schema_migrates_witness :
  wp (update_schema no_permissions nothing_left [new_dog; person] 2 None None false) dog_realm
    (fun _ r' => updated [new_dog; person] 2 r')
    (fun e r' => (exists type property, e = StoreException (DuplicatePrimaryKeyValueException type property)) /\
      unchanged r' (group_of (dog_pages None)) [old_dog] (get_schema_version (group_of (dog_pages None)))).
Proof.
  apply (update_schema_migrates no_permissions nothing_left idle_quiet dog_realm (dog_pages None) [old_dog]).
  - exact dog_up_to_date.
  - reflexivity.
  - by vm_compute.
  - exact dog_group_migratable.
  - by vm_compute.
  - by vm_compute.
Defined.

Lemma update_schema_again_witness :
  wp (update_schema no_permissions nothing_left [old_dog] 1 None None false)
    (realm_at (dog_pages None) [old_dog] 1 false)
    (fun _ r' => files r' = files (realm_at (dog_pages None) [old_dog] 1 false) /\ Realms.m_schema_version (schemas r') = 1 /\
      m_schema (schemas r') = copy_table_columns_from [old_dog] [old_dog])
    (fun _ _ => False).
Proof.
  apply (update_schema_again no_permissions nothing_left idle_quiet _ (dog_pages None)).
  - by apply at_newest_realm.
  - reflexivity.
  - reflexivity.
  - apply dog_reads. by left.
  - by vm_compute.
  - by vm_compute.
  - reflexivity.
Defined.

Lemma update_schema_refuses_witness :
  wp (update_schema no_permissions nothing_left [new_dog; person] 0 None None false) dog_realm
    (fun _ _ => False)
    (fun e r' => e = InvalidSchemaVersionException (get_schema_version (group_of (dog_pages None))) 0 /\ up_to_date r' (dog_pages None) [old_dog]).
Proof.
  apply (update_schema_refuses no_permissions nothing_left idle_quiet dog_realm (dog_pages None) [old_dog]).
  - exact dog_up_to_date.
  - by left.
  - by vm_compute.
  - by vm_compute.
  - by vm_compute.
Defined.

(** Another writer commits version 3 while the Realm waits to write version 2. *)
Lemma update_schema_leaves_transaction_witness :
  wp (update_schema no_permissions nothing_left [new_dog; person] 2 None None false)
    (realm_at (dog_pages (Some (dog_group 3))) [old_dog] 1 true)
    (fun _ _ => False)
    (fun e r' => e = InvalidSchemaVersionException (get_schema_version (latest_group (do_begin_write (dog_pages (Some (dog_group 3)))))) 2 /\ is_in_transaction r' = true).
Proof.
  apply (update_schema_leaves_transaction no_permissions nothing_left idle_quiet _ (dog_pages (Some (dog_group 3))) [old_dog] [old_dog]).
  - by apply at_newest_realm.
  - reflexivity.
  - reflexivity.
  - reflexivity.
  - by vm_compute.
  - by vm_compute.
  - by vm_compute.
  - reflexivity.
  - apply dog_reads. right. by left.
  - by vm_compute.
  - by vm_compute.
Defined.

Example dog_versions_read :
  get_schema_version (group_of (dog_pages None)) = 1 /\
  get_schema_version (latest_group (do_begin_write (dog_pages (Some (dog_group 3))))) = 3.
Proof. by vm_compute. Qed.
