(* ===== verification/NotifierWorker.v ===== *)
(** * The notifier worker of a coordinator

    The part of [impl/realm_coordinator.cpp] that runs on the background thread:
    the notifiers registered with a file's coordinator, the two shared groups it
    pulls them forward with, and [run_async_notifiers]. It holds the notifier
    mutex except while the notifiers that are not new compute their changes; what
    other threads register meanwhile is not modelled. Notifiers are shared
    between the coordinator's vectors, so they are objects known by number.
    [None] is a failed assertion, an invalid pointer, or an exception on the
    worker thread, which ends the process. *)
From stdpp Require Import gmap.
From S2P Require Import Prelude.
From S2P Require Import IndexSetInterface.
From S2P Require Import ChangeBuilder.
From S2P Require Import TransactLog.
From S2P Require Import Realms.
Import LogObserver.

(** A shared group of the worker: its stage and the version it is bound to *)
Record HelperGroup := mkHelper { h_stage : TransactStage; h_version : Z }.

(** The two of them *)
Inductive Helper := advancer | main.
#[global] Instance Helper_eq_dec : EqDecision Helper.
Proof. solve_decision. Defined.

(** What the worker uses of a [CollectionNotifier]: whether [m_realm] is set,
    [m_sg_version], [m_sg], the version of the query handed over (none while it
    is attached), [m_has_run], and where [m_info] points to. *)
Record AsyncNotifier := mkAsync {
  is_alive : bool;
  n_version : Z;
  n_sg : option Helper;
  n_handover : option Z;
  n_has_run : bool;
  n_info : nat
}.

#[local] Open Scope realm_scope.

(** [clean_up_dead_notifiers]' loop over one vector, with what it removed *)
Section swap_remove.
Context {A : Type} (alive : A -> bool).

Definition swap_remove_step (s : list A * nat * bool) : option (list A * nat * bool + list A * bool) :=
  let '(container, i, did_remove) := s in
  if (i <? length container)%nat then
    x ← container !! i;
    if alive x then Some (inl (container, (i + 1)%nat, did_remove))
    else
      container ← (if (i + 1 <? length container)%nat then
                     back ← last container; Some (<[i := back]> container)
                   else Some container);
      Some (inl (take (length container - 1) container, i, true))
  else Some (inr (container, did_remove)).

Definition swap_remove (container : list A) : option (list A * bool) :=
  loop swap_remove_step (S (length container)) (container, O, false).
End swap_remove.

Section worker.
Context `{IndexSetOps IS} `{BuildMode} `{StdSort}.
Abbreviation info := (TransactionChangeInfo IS).
Abbreviation builder := (CollectionChangeBuilder IS).

(** The transaction logs of the file *)
Context (log_between : Z -> Z -> list Instruction).

(** ** [transaction::advance] on a shared group of the worker *)
Definition in_stage (stage : TransactStage) (sg : HelperGroup) : bool := bool_decide (h_stage sg = stage).

Definition begin_read (version : Z) (sg : HelperGroup) : option HelperGroup :=
  assert! in_stage transact_Ready sg; Some (mkHelper transact_Reading version).
Definition end_read (sg : HelperGroup) : HelperGroup := mkHelper transact_Ready (h_version sg).

Definition advance_read (version : Z) (sg : HelperGroup) : option HelperGroup :=
  assert! in_stage transact_Reading sg;
  assert! h_version sg <=? version;
  Some (mkHelper transact_Reading version).

(** ... with a [TransactionChangeInfo] to fill; the lists' builders are [bs]. *)
Definition advance_info (version : Z) (sg : HelperGroup) (i : info) (bs : list builder) :
    option (HelperGroup * info * list builder) :=
  sg' ← advance_read version sg;
  if negb (track_all i) && bool_decide (table_modifications_needed i = []) && bool_decide (lists i = []) then Some (sg', i, bs)
  else if version =? h_version sg then Some (sg', i, bs)
  else match run (log_between (h_version sg) version) (observe i bs) with
       | Handled o => Some (sg', TransactLog.m_info o, m_builders o)
       | _ => None
       end.

(** ** [IncrementalChangeInfo]: [m_info] with the capacity it has reserved;
    [m_current] points to its last element. *)
Record IncrementalChangeInfo := mkIncremental { inc_info : list info; inc_capacity : nat }.

Definition empty_info : info := mkInfo [] [] [] [] [] [] false false.

(** How many versions the sorted notifiers start from *)
Fixpoint count_versions (versions : list Z) : nat :=
  match versions with
  | v :: (w :: _) as rest => (if v <? w then 1 else 0) + count_versions rest
  | _ => 1
  end.

Definition incremental (versions : list Z) : IncrementalChangeInfo :=
  if bool_decide (versions = []) then mkIncremental [] 0 else mkIncremental [empty_info] (count_versions versions).

Definition set_current (i : info) (inc : IncrementalChangeInfo) : IncrementalChangeInfo :=
  mkIncremental (<[(length (inc_info inc) - 1)%nat := i]> (inc_info inc)) (inc_capacity inc).

(** [current]; the reference is to the last element, so its position is given out too *)
Definition current (inc : IncrementalChangeInfo) : option info := last (inc_info inc).
Definition current_position (inc : IncrementalChangeInfo) : nat := (length (inc_info inc) - 1)%nat.

(** Pushing more elements than reserved invalidates the references given out. *)
Definition push_info (i : info) (inc : IncrementalChangeInfo) : option IncrementalChangeInfo :=
  assert! (length (inc_info inc) <? inc_capacity inc)%nat;
  Some (mkIncremental (inc_info inc ++ [i]) (inc_capacity inc)).

Definition advance_incremental (version : Z) (sg : HelperGroup) (inc : IncrementalChangeInfo) (bs : list builder) :
    option (HelperGroup * IncrementalChangeInfo * list builder) :=
  if version =? h_version sg then Some (sg, inc, bs)
  else
    i ← current inc;
    '(sg, i, bs) ← advance_info version sg i bs;
    let next := mkInfo (table_modifications_needed i) (table_moves_needed i) (lists i) [] [] [] false false in
    inc ← push_info next (set_current (set_lists [] i) inc);
    Some (sg, inc, bs).

(** Combining the changes of every table of two consecutive infos *)
Fixpoint merge_tables (prev cur : list builder) : option (list builder) :=
  match prev, cur with
  | prev, [] => Some prev
  | [], cur => Some cur
  | b :: prev, c :: cur => m ← ChangeBuilder.merge b c; rest ← merge_tables prev cur; Some (m :: rest)
  end.

(** ... from the last one to the first *)
Fixpoint combine (l : list info) : option (list info) :=
  match l with
  | [] => Some []
  | prev :: rest =>
    rest ← combine rest;
    match rest with
    | [] => Some [prev]
    | cur :: _ => t ← merge_tables (tables prev) (tables cur); Some (set_tables t prev :: rest)
    end
  end.

(** The changes of lists that several notifiers watch *)
Definition same_list_id (a b : ListChangeInfo) : bool := is_list (table_ndx b) (col_ndx b) (row_ndx b) a.

Definition merge_list (l : list ListChangeInfo) (bs : list builder) (ij : nat * nat) : option (list builder) :=
  x ← l !! ij.1;
  y ← l !! ij.2;
  if same_list_id x y then
    b ← bs !! changes y;
    c ← bs !! changes x;
    m ← ChangeBuilder.merge b c;
    Some (<[changes y := m]> bs)
  else Some bs.

Definition list_pairs (n : nat) : list (nat * nat) :=
  i ← seq 1 (n - 1); j ← reverse (seq 1 i); mret (i, (j - 1)%nat).

Definition merge_lists (l : list ListChangeInfo) (bs : list builder) : option (list builder) :=
  fold_option (merge_list l) (list_pairs (length l)) bs.

Definition advance_to_final (version : Z) (sg : HelperGroup) (inc : IncrementalChangeInfo) (bs : list builder) :
    option (HelperGroup * IncrementalChangeInfo * list builder) :=
  match current inc with
  | None => sg ← advance_read version sg; Some (sg, inc, bs)
  | Some i =>
    '(sg, i, bs) ← advance_info version sg i bs;
    l ← combine (inc_info (set_current i inc));
    bs ← merge_lists (lists i) bs;
    Some (sg, mkIncremental l (inc_capacity inc), bs)
  end.
End worker.
Arguments IncrementalChangeInfo : clear implicits.
Arguments mkIncremental {IS}.
Arguments inc_info {IS}.
Arguments inc_capacity {IS}.

(** ** The coordinator's members the worker uses, with the objects and the runs
    of notifiers made so far: each with the info its [m_info] pointed to. *)
Record Notifiers {IS : Type} := mkNotifiers {
  objects : gmap nat AsyncNotifier;
  m_new_notifiers : list nat;
  m_notifiers : list nat;
  m_notifier_skip_version : Z;
  m_advancer_sg : option HelperGroup;
  m_notifier_sg : option HelperGroup;
  m_async_error : bool;
  list_builders : list (CollectionChangeBuilder IS);
  runs : list (nat * TransactionChangeInfo IS)
}.
Arguments Notifiers : clear implicits.
Arguments mkNotifiers {IS}.

Section coordinator.
Context `{IndexSetOps IS} `{BuildMode} `{StdSort}.
Abbreviation info := (TransactionChangeInfo IS).
Abbreviation state := (Notifiers IS).
Implicit Types (s : state) (n : AsyncNotifier) (id : nat).

(** The file: its logs, its newest version, and whether it can be opened; and
    what a notifier registers in an info ([add_required_change_info]) *)
Context (log_between : Z -> Z -> list Instruction) (newest : Z) (opens : bool).
Context (add_required_change_info : nat -> info -> info).

(** *** Assignments to single members *)
Definition set_objects (x : gmap nat AsyncNotifier) s : state :=
  mkNotifiers x (m_new_notifiers s) (m_notifiers s) (m_notifier_skip_version s) (m_advancer_sg s) (m_notifier_sg s)
    (m_async_error s) (list_builders s) (runs s).
Definition set_queues (new old : list nat) s : state :=
  mkNotifiers (objects s) new old (m_notifier_skip_version s) (m_advancer_sg s) (m_notifier_sg s)
    (m_async_error s) (list_builders s) (runs s).
Definition set_skip_version (x : Z) s : state :=
  mkNotifiers (objects s) (m_new_notifiers s) (m_notifiers s) x (m_advancer_sg s) (m_notifier_sg s)
    (m_async_error s) (list_builders s) (runs s).
Definition set_advancer (x : option HelperGroup) s : state :=
  mkNotifiers (objects s) (m_new_notifiers s) (m_notifiers s) (m_notifier_skip_version s) x (m_notifier_sg s)
    (m_async_error s) (list_builders s) (runs s).
Definition set_main (x : option HelperGroup) s : state :=
  mkNotifiers (objects s) (m_new_notifiers s) (m_notifiers s) (m_notifier_skip_version s) (m_advancer_sg s) x
    (m_async_error s) (list_builders s) (runs s).
Definition set_async_error s : state :=
  mkNotifiers (objects s) (m_new_notifiers s) (m_notifiers s) (m_notifier_skip_version s) (m_advancer_sg s) (m_notifier_sg s)
    true (list_builders s) (runs s).
Definition set_list_builders (x : list (CollectionChangeBuilder IS)) s : state :=
  mkNotifiers (objects s) (m_new_notifiers s) (m_notifiers s) (m_notifier_skip_version s) (m_advancer_sg s) (m_notifier_sg s)
    (m_async_error s) x (runs s).

Definition update_notifier id (f : AsyncNotifier -> option AsyncNotifier) s : option state :=
  n ← objects s !! id; n ← f n; Some (set_objects (<[id := n]> (objects s)) s).

(** *** The methods of a notifier *)

(** [attach_to]: core refuses a query of another version. *)
Definition attach_to (which : Helper) (sg : HelperGroup) n : option AsyncNotifier :=
  assert! negb (bool_decide (is_Some (n_sg n)));
  version ← n_handover n;
  assert! (version =? h_version sg) && in_stage transact_Reading sg;
  Some (mkAsync (is_alive n) (n_version n) (Some which) None (n_has_run n) (n_info n)).
Definition detach (sg : HelperGroup) n : option AsyncNotifier :=
  assert! bool_decide (is_Some (n_sg n));
  Some (mkAsync (is_alive n) (n_version n) None (Some (h_version sg)) (n_has_run n) (n_info n)).
Definition prepare_handover (sg : HelperGroup) n : option AsyncNotifier :=
  assert! bool_decide (is_Some (n_sg n));
  Some (mkAsync (is_alive n) (h_version sg) (n_sg n) (n_handover n) true (n_info n)).
Definition point_to (position : nat) n : option AsyncNotifier :=
  Some (mkAsync (is_alive n) (n_version n) (n_sg n) (n_handover n) (n_has_run n) position).
(** [unregister] *)
Definition unregister n : option AsyncNotifier :=
  Some (mkAsync false (n_version n) (n_sg n) (n_handover n) (n_has_run n) (n_info n)).

(** A notifier made for a realm at a version, with its query handed over *)
Definition new_notifier (version : Z) : AsyncNotifier := mkAsync true version None (Some version) false 0.

(** [run], seen from the worker *)
Definition run_notifier (infos : list info) s id : option state :=
  n ← objects s !! id;
  i ← infos !! n_info n;
  Some (mkNotifiers (objects s) (m_new_notifiers s) (m_notifiers s) (m_notifier_skip_version s) (m_advancer_sg s)
    (m_notifier_sg s) (m_async_error s) (list_builders s) (runs s ++ [(id, i)])).

(** *** Registering notifiers *)
Definition pin_version (version : Z) s : option state :=
  if m_async_error s then Some s
  else match m_advancer_sg s with
  | None => if opens then Some (set_advancer (Some (mkHelper transact_Reading version)) s) else Some (set_async_error s)
  | Some sg =>
    if bool_decide (m_new_notifiers s = []) then
      sg ← begin_read version sg; Some (set_advancer (Some sg) s)
    else
      assert! in_stage transact_Reading sg;
      if version <? h_version sg then sg ← begin_read version (end_read sg); Some (set_advancer (Some sg) s) else Some s
  end.

Definition register_notifier id s : option state :=
  n ← objects s !! id;
  s ← pin_version (n_version n) s;
  Some (set_queues (m_new_notifiers s ++ [id]) (m_notifiers s) s).

(** What [commit_write] leaves for the worker: a realm is not told of its own
    write, so the commit's version is reported separately. *)
Definition commit_skip (is_for_realm : nat -> bool) (version : Z) s : state :=
  if existsb is_for_realm (m_notifiers s) then set_skip_version version s else s.

Definition alive_in s id : bool := match objects s !! id with Some n => is_alive n | None => false end.

Definition clean_up_dead_notifiers s : option state :=
  '(old, removed) ← swap_remove (alive_in s) (m_notifiers s);
  let s := set_queues (m_new_notifiers s) old s in
  s ← (match m_notifier_sg s with
       | Some sg =>
         if removed && bool_decide (old = []) then
           assert! in_stage transact_Reading sg;
           Some (set_skip_version 0 (set_main (Some (end_read sg)) s))
         else Some s
       | None => Some s
       end);
  '(new, removed) ← swap_remove (alive_in s) (m_new_notifiers s);
  let s := set_queues new (m_notifiers s) s in
  match m_advancer_sg s with
  | Some sg =>
    if (removed : bool) then
      assert! in_stage transact_Reading sg;
      Some (if bool_decide (new = []) then set_advancer (Some (end_read sg)) s else s)
    else Some s
  | None => Some s
  end.

Definition open_helper_shared_group s : option state :=
  match m_notifier_sg s with
  | None => Some (if opens then set_main (Some (mkHelper transact_Reading newest)) s else set_async_error s)
  | Some sg => if bool_decide (m_notifiers s = []) then sg ← begin_read newest sg; Some (set_main (Some sg) s) else Some s
  end.

(** *** [run_async_notifiers] *)
Definition version_of s id : Z := match objects s !! id with Some n => n_version n | None => 0 end.
Definition by_version s (a b : nat) : Prop := version_of s a <= version_of s b.
#[global] Instance by_version_dec s : RelDecision (by_version s) := fun a b => Z.le_dec _ _.
Definition sort_by_version s (ids : list nat) : list nat := std_sort (by_version s) ids.

(** A notifier registers in the current info what it needs. *)
Definition require (inc : IncrementalChangeInfo IS) s id : option (IncrementalChangeInfo IS * state) :=
  i ← current inc;
  s ← update_notifier id (point_to (current_position inc)) s;
  Some (set_current (add_required_change_info id i) inc, s).

Fixpoint require_all (ids : list nat) (inc : IncrementalChangeInfo IS) s : option (IncrementalChangeInfo IS * state) :=
  match ids with
  | [] => Some (inc, s)
  | id :: ids => '(inc, s) ← require inc s id; require_all ids inc s
  end.

(** The new notifiers, each attached at its version *)
Fixpoint pull_forward (ids : list nat) (sg : HelperGroup) (inc : IncrementalChangeInfo IS) s :
    option (HelperGroup * IncrementalChangeInfo IS * state) :=
  match ids with
  | [] => Some (sg, inc, s)
  | id :: ids =>
    '(sg, inc, bs) ← advance_incremental log_between (version_of s id) sg inc (list_builders s);
    s ← update_notifier id (attach_to advancer sg) (set_list_builders bs s);
    '(inc, s) ← require inc s id;
    pull_forward ids sg inc s
  end.

Definition for_all (f : state -> nat -> option state) (ids : list nat) s : option state := fold_option f ids s.

(** The first part: all new notifiers at the newest version *)
Definition advance_new_notifiers (new : list nat) s : option (list info * Z * state) :=
  sg ← m_advancer_sg s;
  match new with
  | [] => sg ← begin_read newest sg; Some ([], h_version sg, set_advancer (Some (end_read sg)) s)
  | first :: _ =>
    let inc := incremental (version_of s <$> new) in
    assert! in_stage transact_Reading sg;
    assert! h_version sg <=? version_of s first;
    sg ← advance_read (version_of s first) sg;
    '(sg, inc, s) ← pull_forward new sg inc s;
    '(sg, inc, bs) ← advance_to_final log_between newest sg inc (list_builders s);
    s ← for_all (fun s id => update_notifier id (detach sg) s) new (set_list_builders bs s);
    Some (inc_info inc, h_version sg, set_advancer (Some (end_read sg)) s)
  end.

(** Advancing the other notifiers to a version *)
Definition advance_notifiers (version : Z) (ids : list nat) s : option (list info * state) :=
  sg ← m_notifier_sg s;
  '(inc, s) ← require_all ids (incremental (version_of s <$> ids)) s;
  '(sg, inc, bs) ← advance_to_final log_between version sg inc (list_builders s);
  Some (inc_info inc, set_main (Some sg) (set_list_builders bs s)).

Definition hand_over (ids : list nat) s : option state :=
  sg ← m_notifier_sg s; for_all (fun s id => update_notifier id (prepare_handover sg) s) ids s.

(** The version a commit of this process asked to skip *)
Definition skip_to (skip_version version : Z) (ids : list nat) s : option (list nat * state) :=
  if skip_version =? 0 then Some (ids, s)
  else
    assert! negb (bool_decide (ids = []));
    assert! skip_version <=? version;
    let ids := sort_by_version s ids in
    '(infos, s) ← advance_notifiers skip_version ids s;
    s ← for_all (run_notifier infos) ids s;
    s ← hand_over ids s;
    Some (ids, s).

(** All notifiers at the newest version: the new ones join the others and are
    run with the changes since they were registered. *)
Definition advance_and_run (new_infos : list info) (version : Z) (new ids : list nat) s : option state :=
  let ids := sort_by_version s ids in
  '(infos, s) ← advance_notifiers version ids s;
  sg ← m_notifier_sg s;
  s ← for_all (fun s id => s ← update_notifier id (attach_to main sg) s; run_notifier new_infos s id) new s;
  s ← for_all (run_notifier infos) ids s;
  s ← hand_over new s;
  hand_over ids s.

(** Once both groups are open: the new notifiers to the newest version, the others
    to the version to skip, then all of them to the newest one. *)
Definition pulled_and_run s : option state :=
  let new := sort_by_version s (m_new_notifiers s) in
  '(new_infos, version, s) ← advance_new_notifiers new (set_queues [] (m_notifiers s) s);
  sg ← m_advancer_sg s;
  assert! in_stage transact_Ready sg;
  let skip_version := m_notifier_skip_version s in
  let ids := m_notifiers s in
  let s := set_queues [] (ids ++ new) (set_skip_version 0 s) in
  '(ids, s) ← skip_to skip_version version ids s;
  advance_and_run new_infos version new ids s.

Definition run_async_notifiers s : option state :=
  s ← clean_up_dead_notifiers s;
  if bool_decide (m_notifiers s = []) && bool_decide (m_new_notifiers s = []) then Some s
  else
    s ← (if m_async_error s then Some s else open_helper_shared_group s);
    if m_async_error s then Some (set_queues [] (m_notifiers s ++ m_new_notifiers s) s)
    else
      s ← pulled_and_run s;
      clean_up_dead_notifiers s.
End coordinator.
