(* ===== verification/WorkerFacts.v ===== *)
(** * Correctness of the notifier worker

    Removing dead notifiers, combining the infos of several source versions, and
    what the infos say about rows when only rows change. *)
From stdpp Require Import gmap.
From S2P Require Import Prelude.
From S2P Require Import IndexSetInterface.
From S2P Require Import ChangeBuilder.
From S2P Require Import ChangeBuilderFacts.
From S2P Require Import ChangeMerge.
From S2P Require Import TransactLog.
From S2P Require Import Realms.
From S2P Require Import NotifierWorker.
Import LogObserver.

#[export] Instance list_filter_Permutation {A} (p : A -> bool) : Proper ((≡ₚ) ==> (≡ₚ)) (List.filter p).
Proof.
  intros l l'. induction 1 as [|x l l' _ IH|x y l|l1 l2 l3 _ IH1 _ IH2]; cbn; [done| | |by etrans].
  - destruct (p x); [by constructor|done].
  - destruct (p x), (p y); try done. by apply Permutation_swap.
Qed.

(** ** Removing the dead notifiers *)
Section swap_remove.
Context {A : Type} (alive : A -> bool).
Implicit Types (container : list A).

Lemma last_middle (l1 l2 : list A) x y : last (l1 ++ x :: l2 ++ [y]) = Some y.
Proof. by rewrite (app_comm_cons l2 [y] x), app_assoc, last_snoc. Qed.

(** Overwriting an element with the last one and dropping that removes it. *)
Lemma swap_out container i x : container !! i = Some x ->
  exists container', (container ← (if (i + 1 <? length container)%nat then
                                     back ← last container; Some (<[i := back]> container)
                                   else Some container);
                      Some (take (length container - 1) container)) = Some container' /\
    container ≡ₚ x :: container' /\ take i container' = take i container /\ length container = S (length container').
Proof.
  intros Hi. pose proof (lookup_lt_Some _ _ _ Hi) as Hlt. pose proof (take_drop_middle _ _ _ Hi) as E.
  set (l1 := take i container) in *. assert (length l1 = i) as Hl1 by (unfold l1; rewrite length_take; lia).
  destruct (list_snoc_inv (drop (S i) container)) as [E2|(l2 & y & E2)]; rewrite E2 in E; clear E2 Hi; clearbody l1; subst container i.
  - replace (length (l1 ++ [x])) with (S (length l1)) by (rewrite length_app; cbn; lia).
    replace (length l1 + 1 <? S (length l1))%nat with false by (symmetry; apply Nat.ltb_ge; lia).
    cbn [mbind option_bind]. replace (length (l1 ++ [x]) - 1)%nat with (length l1) by (rewrite length_app; cbn; lia). exists l1.
    rewrite take_app_length, take_ge by done. split; [done|]. split; [by rewrite Permutation_app_comm|done].
  - assert (length (l1 ++ x :: l2 ++ [y]) = S (length (l1 ++ y :: l2))) as -> by (rewrite !length_app; cbn; rewrite length_app; cbn; lia).
    replace (length l1 + 1 <? S (length (l1 ++ y :: l2)))%nat with true by (symmetry; apply Nat.ltb_lt; rewrite length_app; cbn; lia).
    rewrite last_middle. cbn [mbind option_bind]. rewrite insert_middle. exists (l1 ++ y :: l2).
    replace (length (l1 ++ y :: l2 ++ [y]) - 1)%nat with (length (l1 ++ y :: l2)) by (rewrite !length_app; cbn; rewrite length_app; cbn; lia).
    rewrite (app_comm_cons l2 [y] y), app_assoc, take_app_length. split; [done|]. split; [|by rewrite !take_app_length].
    rewrite <- Permutation_middle. constructor. apply Permutation_app_head. by rewrite Permutation_app_comm.
Qed.

Definition has_dead container : bool := existsb (fun x => negb (alive x)) container.

Lemma has_dead_perm c c' : c ≡ₚ c' -> has_dead c = has_dead c'.
Proof. unfold has_dead. induction 1 as [|x c c' _ IH|x y c|c1 c2 c3 _ IH1 _ IH2]; cbn; [done|by rewrite IH|by destruct (alive x), (alive y)|congruence]. Qed.

(** The loop ends, and keeps exactly the notifiers that are alive. *)
Lemma swap_remove_spec l : exists kept, swap_remove alive l = Some (kept, has_dead l) /\ kept ≡ₚ List.filter alive l.
Proof.
  pose proof (loop_rule (swap_remove_step alive)
    (fun '(c, i, removed) => (i <= length c)%nat /\ forallb alive (take i c) = true /\ List.filter alive c ≡ₚ List.filter alive l /\
       removed || has_dead c = has_dead l)
    (fun '(c, i, _) => (length c - i)%nat)
    (fun '(kept, removed) => kept ≡ₚ List.filter alive l /\ removed = has_dead l)) as Hloop.
  unfold swap_remove. destruct (Hloop) with (s := (l, O, false)) (fuel := S (length l)) as ([kept removed] & -> & Hk & ->);
    [|split; [lia|by split]|lia|by exists kept].
  clear Hloop. intros [[c i] removed] (Hi & Htake & Hperm & Hdead). unfold swap_remove_step.
  destruct (Nat.ltb_spec i (length c)).
  - destruct (lookup_lt_is_Some_2 c i) as [x Ex]; [done|]. rewrite Ex. cbn [mbind option_bind]. destruct (alive x) eqn:Ea.
    + split; [|lia]. split; [lia|]. split; [|done]. replace (i + 1)%nat with (S i) by lia.
      rewrite (take_S_r _ _ _ Ex), forallb_app, Htake. cbn. by rewrite Ea.
    + destruct (swap_out c i x Ex) as (c' & E & Hc & Ht & Hl).
      destruct (if (i + 1 <? length c)%nat then _ else _) as [c1|]; [|done]. cbn [mbind option_bind] in E |- *. injection E as ->.
      split; [|lia]. split; [lia|]. rewrite Ht. split; [done|]. rewrite Hc in Hperm. cbn in Hperm. rewrite Ea in Hperm. split; [done|].
      rewrite <- Hdead, (has_dead_perm _ _ Hc). cbn. rewrite Ea. cbn. by rewrite orb_true_r.
  - rewrite take_ge in Htake by done. rewrite <- Hperm, <- Hdead. split.
    + clear -Htake. induction c as [|x c IH]; [done|]. cbn in *. apply andb_prop in Htake as [-> Hc]. by rewrite <- IH.
    + assert (has_dead c = false) as ->; [|by rewrite orb_false_r]. clear -Htake. unfold has_dead. induction c as [|x c IH]; [done|]. cbn in *.
      apply andb_prop in Htake as [-> Hc]. by apply IH.
Qed.
End swap_remove.

(** ** Combining the infos *)
Section combine.
Context `{IndexSetLaws IS} `{BuildMode}.
Abbreviation info := (TransactionChangeInfo IS).
Abbreviation builder := (CollectionChangeBuilder IS).
Implicit Types (b c : builder) (i : info).

Definition table_at i (j : nat) : builder := default ChangeBuilder.empty_builder (tables i !! j).

(** A builder that can be merged *)
Definition mergeable b : Prop := ok b /\ ix_short (deletions b).

Lemma empty_tracks p : 0 <= p -> tracks (IS:=IS) ChangeBuilder.empty_builder p = Some p.
Proof. by apply blank_tracks. Qed.

Lemma merge_tables_spec prev cur : Forall mergeable prev -> Forall ok cur ->
  exists t, merge_tables prev cur = Some t /\ Forall ok t /\
    forall j p, 0 <= p -> tracks (default ChangeBuilder.empty_builder (t !! j)) p =
      tracks (default ChangeBuilder.empty_builder (cur !! j)) p ≫= tracks (default ChangeBuilder.empty_builder (prev !! j)).
Proof.
  revert cur. induction prev as [|b prev IH]; intros cur Hprev Hcur.
  - exists cur. split; [by destruct cur|]. split; [done|]. intros j p Hp. cbn.
    destruct (tracks _ p) as [q|] eqn:E; cbn; [|done]. rewrite empty_tracks; [done|].
    apply (tracks_nonneg (default ChangeBuilder.empty_builder (cur !! j)) p); [|done|done].
    destruct (cur !! j) eqn:Ej; [|by apply empty_builder_ok]. by eapply Forall_lookup_1.
  - apply Forall_cons in Hprev as [[Hb Hs] Hprev]. destruct cur as [|c cur].
    + exists (b :: prev). split; [done|]. split; [constructor; [done|]; eapply Forall_impl; [done|]; by intros x []|].
      intros j p Hp. cbn. by rewrite empty_tracks.
    + apply Forall_cons in Hcur as [Hc Hcur]. cbn. destruct (merge_spec b c Hb Hc Hs) as (m & -> & Hm & Htr & _). cbn.
      destruct (IH cur Hprev Hcur) as (t & -> & Ht & Htr'). cbn. exists (m :: t). split; [done|]. split; [by constructor|].
      intros [|j] p Hp; cbn; [by apply Htr|by apply Htr'].
Qed.

Lemma combine_spec l : Forall (fun i => Forall mergeable (tables i)) l ->
  exists l', combine l = Some l' /\ length l' = length l /\
    forall k i, l !! k = Some i -> exists i', l' !! k = Some i' /\ i' = set_tables (tables i') i /\ Forall ok (tables i') /\
      forall j p, 0 <= p -> tracks (table_at i' j) p = origin_through ((fun i => table_at i j) <$> drop k l) p.
Proof.
  assert (forall i, Forall mergeable (tables i) -> Forall ok (tables i)) as Hok
    by (intros i Hi; eapply Forall_impl; [exact Hi|]; by intros x []).
  induction l as [|prev l IH]; intros Hl; [by exists []|]. apply Forall_cons in Hl as [Hprev Hl].
  destruct (IH Hl) as (l' & E & Hlen & Hspec). cbn. rewrite E. cbn. clear E.
  destruct l as [|cur l], l' as [|cur' l']; try done.
  - exists [prev]. split; [done|]. split; [done|]. intros [|k] i [= <-]. exists prev. split; [done|].
    split; [by destruct prev|]. split; [by apply Hok|]. by intros j p _.
  - destruct (Hspec O cur eq_refl) as (? & [= <-] & Ecur & Hcur & Htr).
    destruct (merge_tables_spec (tables prev) (tables cur') Hprev Hcur) as (t & -> & Ht & Htr'). cbn.
    exists (set_tables t prev :: cur' :: l'). split; [done|]. split; [cbn in *; lia|]. intros [|k] i E.
    + injection E as <-. exists (set_tables t prev). split; [done|]. split; [done|]. split; [done|]. intros j p Hp.
      unfold table_at at 1. cbn [tables set_tables]. rewrite Htr' by done. fold (table_at cur' j). by rewrite (Htr j p Hp).
    + by apply Hspec.
Qed.
End combine.

Lemma in_stage_true stage sg : h_stage sg = stage -> in_stage stage sg = true.
Proof. intros <-. unfold in_stage. by rewrite bool_decide_eq_true_2. Qed.
Lemma advance_read_spec w sg : h_stage sg = transact_Reading -> h_version sg <= w ->
  advance_read w sg = Some (mkHelper transact_Reading w).
Proof.
  intros Hs Hw. unfold advance_read. rewrite (in_stage_true transact_Reading) by done. cbn.
  by rewrite realm_assert_true by (by apply Z.leb_le).
Qed.

(** ** What the worker relies on when it parses logs

    [moved v w t p]: where the row at position [p] of table [t] at version [w]
    was at version [v]. [good] are the infos the notifiers build, [wants] the
    tables whose rows one of them follows. *)
Class LogView (IS : Type) := {
  good : TransactionChangeInfo IS -> Prop;
  wants : TransactionChangeInfo IS -> nat -> Prop;
  valid : Z -> nat -> Z -> Prop;
  moved : Z -> Z -> nat -> Z -> option Z
}.

Section following.
Context `{IndexSetLaws IS} `{BuildMode} `{StdSort} `{LogView IS}.
Abbreviation info := (TransactionChangeInfo IS).
Abbreviation builder := (CollectionChangeBuilder IS).
Abbreviation state := (Notifiers IS).
Implicit Types (i : info) (t : nat) (v w p : Z).
Context (log_between : Z -> Z -> list Instruction) (newest : Z) (add_required : nat -> info -> info).

(** The info of the next source version starts with the same wishes. *)
Definition next_info i : info := mkInfo (table_modifications_needed i) (table_moves_needed i) (lists i) [] [] [] false false.

Record following : Prop := {
  fo_valid v t p : valid v t p -> 0 <= p;
  fo_same v t p : valid v t p -> moved v v t p = Some p;
  fo_compose u v w t p : u <= v <= w -> w <= newest -> valid w t p ->
    moved u w t p = (moved v w t p ≫= moved u v t) /\ (forall q, moved v w t p = Some q -> valid v t q);
  fo_empty : good empty_info;
  fo_required id i : good i -> good (add_required id i) /\ lists (add_required id i) = lists i /\ tables (add_required id i) = tables i /\
    (forall t, wants i t -> wants (add_required id i) t);
  fo_next i i' : good i -> table_modifications_needed i' = table_modifications_needed i ->
    table_moves_needed i' = table_moves_needed i -> lists i' = lists i ->
    good (next_info i') /\ (forall t, wants i t -> wants (next_info i') t);
  (** Without wishes nothing is parsed. *)
  fo_tracking i t : good i -> wants i t -> negb (track_all i) && bool_decide (table_modifications_needed i = []) && bool_decide (lists i = []) = false;
  fo_parse v w i bs : good i -> tables i = [] -> lists i = [] -> v < w <= newest -> exists o,
    run (log_between v w) (observe i bs) = Handled o /\ m_builders o = bs /\ lists (TransactLog.m_info o) = [] /\
    table_modifications_needed (TransactLog.m_info o) = table_modifications_needed i /\
    table_moves_needed (TransactLog.m_info o) = table_moves_needed i /\
    Forall mergeable (tables (TransactLog.m_info o)) /\
    forall t p, wants i t -> valid w t p -> tracks (table_at (TransactLog.m_info o) t) p = moved v w t p
}.

Hypothesis Hfo : following.

(** An info that follows its tables from one version to another *)
Record follows v w i0 i : Prop := {
  fs_mods : table_modifications_needed i = table_modifications_needed i0;
  fs_moves : table_moves_needed i = table_moves_needed i0;
  fs_lists : lists i = [];
  fs_tables : Forall mergeable (tables i);
  fs_tracks t p : wants i0 t -> valid w t p -> tracks (table_at i t) p = moved v w t p
}.

(** An info that nothing has been recorded in yet *)
Definition fresh i : Prop := good i /\ tables i = [] /\ lists i = [].

Lemma advance_info_spec w sg i bs : h_stage sg = transact_Reading -> h_version sg <= w <= newest -> fresh i ->
  exists i', advance_info log_between w sg i bs = Some (mkHelper transact_Reading w, i', bs) /\ follows (h_version sg) w i i'.
Proof.
  intros Hs Hw (Hg & Ht & Hl). unfold advance_info. rewrite advance_read_spec by (done || lia). cbn [mbind option_bind]. destruct (_ && _ && _) eqn:Ewish.
  - exists i. split; [done|]. constructor; try done; [by rewrite Ht|]. intros t p Hwant. by rewrite (fo_tracking Hfo i t Hg Hwant) in Ewish.
  - destruct (Z.eqb_spec w (h_version sg)) as [->|Hne].
    + exists i. split; [done|]. constructor; try done; [by rewrite Ht|]. intros t p _ Hp. unfold table_at. rewrite Ht, lookup_nil. cbn [default from_option].
      rewrite empty_tracks by (by eapply fo_valid). by rewrite fo_same.
    + destruct (fo_parse Hfo (h_version sg) w i bs Hg Ht Hl) as (o & -> & Eb & El & Em & Ev & Hm & Htr); [lia|].
      rewrite Eb. eexists. split; [done|]. by constructor.
Qed.

(** ** The infos of consecutive source versions

    [segments vs l w]: each info of [l] follows the tables from its source
    version, given in [vs] with what was wished for there, to the next one, the
    last one to [w]. *)
Inductive segments : list (Z * info) -> list info -> Z -> Prop :=
| segments_nil w : segments [] [] w
| segments_snoc vs l v w i0 i : segments vs l v -> v <= w -> follows v w i0 i ->
    (forall u j0, (u, j0) ∈ vs -> u <= v /\ forall t, wants j0 t -> wants i0 t) ->
    segments (vs ++ [(v, i0)]) (l ++ [i]) w.

Lemma segments_length vs l w : segments vs l w -> length vs = length l.
Proof. induction 1; [done|]. rewrite !length_app. cbn. lia. Qed.

Lemma segments_mergeable vs l w : segments vs l w -> Forall (fun i => Forall mergeable (tables i)) l.
Proof. induction 1 as [|? ? ? ? ? ? _ IH _ Hi]; [constructor|]. apply Forall_app. split; [done|]. constructor; [apply Hi|constructor]. Qed.

(** Through all later segments a row comes from where it was at the source version. *)
Lemma segments_through vs l w k v i0 t p : segments vs l w -> w <= newest -> vs !! k = Some (v, i0) -> wants i0 t -> valid w t p ->
  origin_through ((fun i => table_at i t) <$> drop k l) p = moved v w t p.
Proof.
  intros Hs. revert p. induction Hs as [|vs l v1 w i1 i Hs IH Hle Hi Hprev]; intros p Hw E Hwant Hp; [done|].
  pose proof (segments_length _ _ _ Hs) as Hlen. apply lookup_app_Some in E as [E|[Hk E]].
  - pose proof (lookup_lt_Some _ _ _ E) as Hlt. apply list_elem_of_lookup_2 in E as Hin. destruct (Hprev v i0 Hin) as [Huv Hmono].
    rewrite drop_app_le by lia. rewrite fmap_app. cbn [fmap list_fmap]. rewrite origin_through_snoc, (fs_tracks _ _ _ _ Hi) by auto.
    destruct (fo_compose Hfo v v1 w t p) as [-> Hvalid]; [lia|done..|].
    destruct (moved v1 w t p) as [q|] eqn:Eq; [|done]. cbn. apply IH; [lia|done|done|by apply Hvalid].
  - apply list_lookup_singleton_Some in E as [Ek [= <- <-]].
    rewrite drop_app_ge by lia. replace (k - length l)%nat with O by lia. cbn. by apply (fs_tracks _ _ _ _ Hi).
Qed.

(** ** Pulling the new notifiers forward *)

(** The sources of the infos: the versions with what is wished for so far *)
Definition extends (a b : list (Z * info)) : Prop := forall k v i0, a !! k = Some (v, i0) ->
  exists i1, b !! k = Some (v, i1) /\ forall t, wants i0 t -> wants i1 t.

Lemma extends_trans a b c : extends a b -> extends b c -> extends a c.
Proof.
  intros Hab Hbc k v i0 E. destruct (Hab k v i0 E) as (i1 & E1 & Hw1). destruct (Hbc k v i1 E1) as (i2 & E2 & Hw2). eauto.
Qed.
Lemma extends_last vs v i0 i1 : (forall t, wants i0 t -> wants i1 t) -> extends (vs ++ [(v, i0)]) (vs ++ [(v, i1)]).
Proof.
  intros Hw k u j E. apply lookup_app_Some in E as [E|[Hk E]].
  - exists j. split; [by apply lookup_app_l_Some|done].
  - apply list_lookup_singleton_Some in E as [Ek [= <- <-]]. exists i1. split; [|done].
    rewrite lookup_app_r by done. by rewrite Ek.
Qed.
Lemma extends_snoc vs x : extends vs (vs ++ [x]).
Proof. intros k u j E. exists j. split; [by apply lookup_app_l_Some|done]. Qed.

(** What a notifier asks for, whatever others ask for *)
Definition asks id t : Prop := forall i, good i -> wants (add_required id i) t.

Record pulled (vs : list (Z * info)) (l : list info) (cur : info) v (sg : HelperGroup) (inc : IncrementalChangeInfo IS) : Prop := {
  pu_sg : sg = mkHelper transact_Reading v;
  pu_infos : inc_info inc = l ++ [cur];
  pu_segments : segments vs l v;
  pu_fresh : fresh cur;
  pu_grows u j0 : (u, j0) ∈ vs -> u <= v /\ forall t, wants j0 t -> wants cur t
}.

Lemma pulled_current vs l cur v sg inc : pulled vs l cur v sg inc ->
  current inc = Some cur /\ current_position inc = length l /\ (forall i, inc_info (set_current i inc) = l ++ [i]).
Proof.
  intros Hp. unfold current, current_position, set_current. rewrite (pu_infos _ _ _ _ _ _ Hp), last_snoc, length_app. cbn.
  replace (length l + 1 - 1)%nat with (length l) by lia. split; [done|]. split; [done|]. intros i. apply insert_middle.
Qed.

Lemma advance_incremental_spec vs l cur v sg inc bs w : pulled vs l cur v sg inc -> v <= w <= newest ->
  (v < w -> (length (inc_info inc) < inc_capacity inc)%nat) ->
  exists vs' l' cur' sg' inc', advance_incremental log_between w sg inc bs = Some (sg', inc', bs) /\
    pulled vs' l' cur' w sg' inc' /\ extends (vs ++ [(v, cur)]) (vs' ++ [(w, cur')]) /\
    inc_capacity inc' = inc_capacity inc /\ length l' = (length l + (if (v <? w)%Z then 1 else 0))%nat.
Proof.
  intros Hp Hw Hcap. pose proof (pu_sg _ _ _ _ _ _ Hp) as ->. unfold advance_incremental. cbn [h_version].
  destruct (Z.eqb_spec w v) as [->|Hne].
  - exists vs, l, cur, (mkHelper transact_Reading v), inc. rewrite Z.ltb_irrefl. split; [done|]. split; [done|]. split; [by apply extends_last|]. split; [done|lia].
  - destruct (pulled_current _ _ _ _ _ _ Hp) as (-> & _ & Hset). cbn [mbind option_bind].
    destruct (advance_info_spec w (mkHelper transact_Reading v) cur bs eq_refl) as (i & E & Hi); [cbn; lia|by apply Hp|].
    rewrite E. cbn [mbind option_bind]. unfold push_info. rewrite realm_assert_true.
    2: { apply Nat.ltb_lt. rewrite Hset, length_app. cbn. specialize (Hcap ltac:(lia)). rewrite (pu_infos _ _ _ _ _ _ Hp), length_app in Hcap. done. }
    cbn [mbind option_bind h_version] in *. rewrite Hset. destruct (pu_fresh _ _ _ _ _ _ Hp) as (Hg & Ht & Hl).
    destruct Hi as [Hmods Hmoves Hlists Htabs Htr].
    destruct (fo_next Hfo cur i Hg Hmods Hmoves) as [Hgn Hwn]; [by rewrite Hlists, Hl|]. fold (next_info i).
    assert ((v <? w) = true) as -> by (apply Z.ltb_lt; lia).
    exists (vs ++ [(v, cur)]), (l ++ [set_lists [] i]), (next_info i), (mkHelper transact_Reading w). eexists. split; [done|].
    split; [|split; [|split; [done|by rewrite length_app]]].
    + constructor; [done|done| |split; [done|by cbn]|].
      * apply segments_snoc; [apply Hp|lia|by constructor|]. intros u j0 Hin. by apply (pu_grows _ _ _ _ _ _ Hp).
      * intros u j0 Hin. apply elem_of_app in Hin as [Hin|[= -> ->]%list_elem_of_singleton]; [|by split; [lia|]].
        destruct (pu_grows _ _ _ _ _ _ Hp u j0 Hin) as [? Hmono]. split; [lia|]. auto.
    + apply extends_snoc.
Qed.

(** A notifier whose info is the one of its version and has its wishes *)
Definition placed (sources : list (Z * info)) (id : nat) (n : AsyncNotifier) : Prop :=
  exists i0, sources !! n_info n = Some (n_version n, i0) /\ forall t, asks id t -> wants i0 t.

Lemma placed_extends a b id n : extends a b -> placed a id n -> placed b id n.
Proof. intros Hab (i0 & E & Hw). destruct (Hab _ _ _ E) as (i1 & E1 & Hw1). exists i1. eauto. Qed.

(** Waiting to be attached at its version *)
Definition handed_over (n : AsyncNotifier) : Prop := n_sg n = None /\ n_handover n = Some (n_version n).

Definition attached (n : AsyncNotifier) (which : Helper) (position : nat) : AsyncNotifier :=
  mkAsync (is_alive n) (n_version n) (Some which) None (n_has_run n) position.

Lemma update_notifier_spec (s : state) id f n n' : objects s !! id = Some n -> f n = Some n' ->
  update_notifier id f s = Some (set_objects (<[id := n']> (objects s)) s).
Proof. intros E Ef. unfold update_notifier. by rewrite E; cbn; rewrite Ef. Qed.

Lemma attach_spec which sg n : handed_over n -> h_version sg = n_version n -> h_stage sg = transact_Reading ->
  attach_to which sg n = Some (attached n which (n_info n)).
Proof.
  intros [Es Eh] Ev Estage. unfold attach_to. rewrite Es, Eh, Ev. rewrite bool_decide_eq_false_2 by by intros [].
  cbn. by rewrite Z.eqb_refl, (in_stage_true transact_Reading) by done.
Qed.

Lemma set_list_builders_same (s : state) : set_list_builders (list_builders s) s = s.
Proof. by destruct s. Qed.

(** The objects of [ids] after pulling them forward *)
Definition pulled_objects (ids : list nat) (s : state) (sources : list (Z * info)) (o : gmap nat AsyncNotifier) : Prop :=
  (forall id, id ∉ ids -> o !! id = objects s !! id) /\
  forall id, id ∈ ids -> exists n k, objects s !! id = Some n /\ o !! id = Some (attached n advancer k) /\
    placed sources id (attached n advancer k).

(** One of them *)
Lemma pull_one id n (s : state) vs l cur v sg inc : pulled vs l cur v sg inc ->
  objects s !! id = Some n -> handed_over n -> n_version n = v ->
  exists inc' o, (s1 ← update_notifier id (attach_to advancer sg) s; require add_required inc s1 id) = Some (inc', set_objects o s) /\
    pulled vs l (add_required id cur) v sg inc' /\ inc_capacity inc' = inc_capacity inc /\
    pulled_objects [id] s (vs ++ [(v, add_required id cur)]) o.
Proof.
  intros Hp Eid Hn Ev. pose proof (pu_sg _ _ _ _ _ _ Hp) as Esg.
  rewrite (update_notifier_spec s id _ n (attached n advancer (n_info n))); [|done|by apply attach_spec; rewrite ?Esg].
  cbn [mbind option_bind]. unfold require. destruct (pulled_current _ _ _ _ _ _ Hp) as (-> & -> & Hset). cbn [mbind option_bind].
  set (s1 := set_objects _ s). rewrite (update_notifier_spec s1 id _ (attached n advancer (n_info n)) (attached n advancer (length l)));
    [|by cbn; rewrite lookup_insert_eq|done]. cbn [mbind option_bind].
  destruct (pu_fresh _ _ _ _ _ _ Hp) as (Hg & Ht & Hl). destruct (fo_required Hfo id cur Hg) as (Hg' & El & Et & Hw).
  eexists _, (<[id := attached n advancer (length l)]> (<[id := attached n advancer (n_info n)]> (objects s))). split; [done|].
  split; [|split; [done|split]].
  - constructor; [done|by apply Hset|apply Hp|split; [done|by rewrite Et, El]|].
    intros u j0 Hin. destruct (pu_grows _ _ _ _ _ _ Hp u j0 Hin). split; auto.
  - intros id' Hne%not_elem_of_cons. destruct Hne as [Hne _]. by rewrite !lookup_insert_ne by done.
  - intros id' ->%list_elem_of_singleton. exists n, (length l). split; [done|]. split; [by rewrite lookup_insert_eq|].
    exists (add_required id cur). cbn. split; [|intros t Ha; by apply Ha].
    rewrite lookup_app_r by (by rewrite (segments_length _ _ _ (pu_segments _ _ _ _ _ _ Hp))).
    rewrite (segments_length _ _ _ (pu_segments _ _ _ _ _ _ Hp)), Nat.sub_diag. cbn. by rewrite Ev.
Qed.

Lemma count_versions_pos l : (1 <= count_versions l)%nat.
Proof. induction l as [|v [|w l] IH]; cbn in *; lia. Qed.

Lemma version_of_spec (s : state) id n : objects s !! id = Some n -> version_of s id = n_version n.
Proof. unfold version_of. by intros ->. Qed.

Lemma pulled_objects_cons id ids (s : state) mid sources o1 o2 : pulled_objects [id] s mid o1 -> extends mid sources -> id ∉ ids ->
  pulled_objects ids (set_objects o1 s) sources o2 -> pulled_objects (id :: ids) s sources o2.
Proof.
  intros [Hother1 Hin1] Hext Hid [Hother2 Hin2]. split.
  - intros id' [Hne Hni]%not_elem_of_cons. rewrite Hother2 by done. cbn. apply Hother1. by rewrite list_elem_of_singleton.
  - intros id' [->|Hin]%elem_of_cons.
    + destruct (Hin1 id) as (n & k & En & Eo & Hp); [by left|]. exists n, k. split; [done|]. split; [by rewrite Hother2|].
      by eapply placed_extends.
    + destruct (Hin2 id' Hin) as (n & k & En & Eo & Hp). cbn in En. rewrite Hother1 in En; [by exists n, k|].
      intros ->%list_elem_of_singleton. done.
Qed.

Lemma pull_forward_spec ids (s : state) vs l cur v sg inc : pulled vs l cur v sg inc -> NoDup ids ->
  Sorted.StronglySorted Z.le (v :: (version_of s <$> ids)) -> v <= newest ->
  (forall id, id ∈ ids -> exists n, objects s !! id = Some n /\ handed_over n /\ n_version n <= newest) ->
  inc_capacity inc = (length l + count_versions (v :: (version_of s <$> ids)))%nat ->
  exists vs' l' cur' v' sg' inc' o, pull_forward log_between add_required ids sg inc s = Some (sg', inc', set_objects o s) /\
    pulled vs' l' cur' v' sg' inc' /\ v' <= newest /\ extends (vs ++ [(v, cur)]) (vs' ++ [(v', cur')]) /\
    pulled_objects ids s (vs' ++ [(v', cur')]) o.
Proof.
  revert s vs l cur v sg inc. induction ids as [|id ids IH]; intros s vs l cur v sg inc Hp Hnd Hsort Hv Hids Hcap.
  - exists vs, l, cur, v, sg, inc, (objects s). split; [by destruct s|]. split; [done|]. split; [done|]. split; [by apply extends_last|].
    split; [done|]. by intros id ?%elem_of_nil.
  - apply NoDup_cons in Hnd as [Hid Hnd]. destruct (Hids id) as (n & En & Hh & Hnew); [by left|].
    pose proof (version_of_spec s id n En) as Ev. rewrite fmap_cons, Ev in Hsort, Hcap.
    apply Sorted.StronglySorted_inv in Hsort as [Hsort Hle]. apply Forall_cons in Hle as [Hle _].
    pose proof (count_versions_pos (n_version n :: (version_of s <$> ids))) as Hpos.
    destruct (advance_incremental_spec vs l cur v sg inc (list_builders s) (n_version n) Hp) as (vs1 & l1 & cur1 & sg1 & inc1 & E1 & Hp1 & Hext1 & Hcap1 & Hl1); [lia| |].
    { intros Hlt. rewrite Hcap, (pu_infos _ _ _ _ _ _ Hp), length_app. cbn in *. rewrite (proj2 (Z.ltb_lt _ _) Hlt). lia. }
    cbn [pull_forward]. rewrite Ev, E1. cbn [mbind option_bind]. rewrite set_list_builders_same.
    destruct (pull_one id n s vs1 l1 cur1 (n_version n) sg1 inc1 Hp1 En Hh eq_refl) as (inc2 & o1 & E2 & Hp2 & Hcap2 & Ho1).
    destruct (update_notifier id (attach_to advancer sg1) s) as [s1|]; [|done]. cbn [mbind option_bind] in E2 |- *. rewrite E2. cbn [mbind option_bind].
    assert (forall id', id' ∈ ids -> objects (set_objects o1 s) !! id' = objects s !! id') as Hsame.
    { intros id' Hin. apply (proj1 Ho1). intros ->%list_elem_of_singleton. done. }
    assert (version_of (set_objects o1 s) <$> ids = version_of s <$> ids) as Evs.
    { apply list_fmap_ext. intros k x Ek. unfold version_of. rewrite Hsame; [done|by apply list_elem_of_lookup_2 in Ek]. }
    destruct (IH (set_objects o1 s) vs1 l1 _ (n_version n) sg1 inc2 Hp2 Hnd) as (vs3 & l3 & cur3 & v3 & sg3 & inc3 & o3 & E3 & Hp3 & Hv3 & Hext3 & Ho3).
    + by rewrite Evs.
    + done.
    + intros id' Hin. rewrite Hsame by done. apply Hids. by right.
    + rewrite Evs, Hcap2, Hcap1, Hcap, Hl1. cbn. lia.
    + exists vs3, l3, cur3, v3, sg3, inc3, o3. split; [exact E3|]. split; [done|]. split; [done|]. split.
      * eapply extends_trans; [exact Hext1|]. eapply extends_trans; [|exact Hext3]. apply extends_last.
        intros t Hw. destruct (fo_required Hfo id cur1) as (_ & _ & _ & Hmono); [|by apply Hmono]. by apply (pu_fresh _ _ _ _ _ _ Hp1).
      * by eapply pulled_objects_cons.
Qed.

(** ** The last step: the infos are complete *)
Definition informs (id : nat) v w i : Prop := forall t p, asks id t -> valid w t p -> tracks (table_at i t) p = moved v w t p.

Lemma advance_to_final_spec vs l cur v sg inc bs w : pulled vs l cur v sg inc -> v <= w <= newest ->
  exists l', advance_to_final log_between w sg inc bs = Some (mkHelper transact_Reading w, mkIncremental l' (inc_capacity inc), bs) /\
    forall id n, placed (vs ++ [(v, cur)]) id n -> exists i, l' !! n_info n = Some i /\ informs id (n_version n) w i.
Proof.
  intros Hp Hw. unfold advance_to_final. destruct (pulled_current _ _ _ _ _ _ Hp) as (-> & _ & Hset).
  destruct (advance_info_spec w sg cur bs) as (i & -> & Hi); [by rewrite (pu_sg _ _ _ _ _ _ Hp)|by rewrite (pu_sg _ _ _ _ _ _ Hp)|apply Hp|].
  cbn [mbind option_bind]. rewrite Hset. rewrite (pu_sg _ _ _ _ _ _ Hp) in Hi. cbn [h_version] in Hi.
  assert (segments (vs ++ [(v, cur)]) (l ++ [i]) w) as Hs.
  { apply segments_snoc; [apply Hp|lia|done|]. apply (pu_grows _ _ _ _ _ _ Hp). }
  destruct (combine_spec _ (segments_mergeable _ _ _ Hs)) as (l' & -> & _ & Hl'). cbn [mbind option_bind].
  rewrite (fs_lists _ _ _ _ Hi). exists l'. split; [done|]. intros id n (i0 & E & Hwant).
  destruct (lookup_lt_is_Some_2 (l ++ [i]) (n_info n)) as [ik Ek].
  { rewrite <- (segments_length _ _ _ Hs). by eapply lookup_lt_Some. }
  destruct (Hl' _ _ Ek) as (i' & Ei' & _ & _ & Htr). exists i'. split; [done|]. intros t p Hasks Hvalid.
  rewrite Htr by (by eapply fo_valid). by eapply segments_through; [done|lia|done|apply Hwant|].
Qed.

(** Updating several notifiers *)
Definition updated (g : AsyncNotifier -> AsyncNotifier) (ids : list nat) (o : gmap nat AsyncNotifier) : gmap nat AsyncNotifier :=
  foldl (fun o id => alter g id o) o ids.

Lemma updated_lookup g ids o x : NoDup ids -> updated g ids o !! x = if decide (x ∈ ids) then g <$> o !! x else o !! x.
Proof.
  revert o. induction ids as [|id ids IH]; intros o Hnd; [by rewrite decide_False by apply not_elem_of_nil|].
  apply NoDup_cons in Hnd as [Hid Hnd]. change (updated g (id :: ids) o) with (updated g ids (alter g id o)). rewrite IH by done. destruct (decide (x = id)) as [->|Hne].
  - rewrite decide_False, decide_True by (done || by left). by rewrite lookup_alter_eq.
  - rewrite lookup_alter_ne by done. destruct (decide (x ∈ ids)); [rewrite decide_True by by right|rewrite decide_False]; [done|done|].
    by intros [|]%elem_of_cons.
Qed.

Lemma insert_as_alter (g : AsyncNotifier -> AsyncNotifier) (o : gmap nat AsyncNotifier) id n : o !! id = Some n ->
  <[id := g n]> o = alter g id o.
Proof.
  intros En. apply map_eq. intros x. destruct (decide (x = id)) as [->|]; [rewrite lookup_insert_eq, lookup_alter_eq; by rewrite En|].
  by rewrite lookup_insert_ne, lookup_alter_ne by done.
Qed.

Lemma for_all_update f g ids (s : state) : NoDup ids ->
  (forall id, id ∈ ids -> exists n, objects s !! id = Some n /\ f n = Some (g n)) ->
  for_all (fun s id => update_notifier id f s) ids s = Some (set_objects (updated g ids (objects s)) s).
Proof.
  revert s. induction ids as [|id ids IH]; intros s Hnd Hids; [by destruct s|]. apply NoDup_cons in Hnd as [Hid Hnd].
  destruct (Hids id) as (n & En & Ef); [by left|]. unfold for_all in *. cbn [fold_option].
  rewrite (update_notifier_spec s id f n (g n)) by done. cbn [mbind option_bind]. rewrite insert_as_alter by done.
  rewrite IH; [done|done|]. intros x Hx. destruct (Hids x) as (m & Em & Efm); [by right|]. exists m. split; [|done].
  cbn. rewrite lookup_alter_ne; [done|]. by intros ->.
Qed.
End following.

Lemma following_le `{IndexSetLaws IS} `{BuildMode} `{StdSort} `{LogView IS} log_between newest newest' add_required :
  newest <= newest' -> following log_between newest' add_required -> following log_between newest add_required.
Proof.
  intros Hle [Hvalid Hsame Hcomp Hempty Hreq Hnext Htrack Hparse]. constructor; try done.
  - intros u v w t p Huv Hw. apply Hcomp; [done|lia].
  - intros v w i bs Hg Ht Hl Hvw. apply Hparse; [done|done|done|lia].
Qed.
