(* ===== verification/WorkerTheorems.v ===== *)
(** * The notifier worker: the theorems

    What [run_async_notifiers] does to the notifiers of a file, as long as the
    file can be opened, and what happens after it could not. *)
From stdpp Require Import gmap.
From S2P Require Import Prelude.
From S2P Require Import IndexSetInterface.
From S2P Require Import ChangeBuilder.
From S2P Require Import ChangeBuilderFacts.
From S2P Require Import ChangeMerge.
From S2P Require Import TransactLog.
From S2P Require Import Realms.
From S2P Require Import NotifierWorker.
From S2P Require Import WorkerFacts.
Import LogObserver.

#[local] Open Scope realm_scope.

Section steps.
Context `{IndexSetLaws IS} `{BuildMode} `{StdSort} `{LogView IS}.
Abbreviation info := (TransactionChangeInfo IS).
Abbreviation state := (Notifiers IS).
Implicit Types (s : state) (n : AsyncNotifier) (ids : list nat).
Context (log_between : Z -> Z -> list Instruction) (newest : Z) (add_required : nat -> info -> info).
Hypothesis Hfo : following log_between newest add_required.
Abbreviation informs := (informs add_required).

(** ** The new notifiers *)
Definition detached (w : Z) n : AsyncNotifier := mkAsync (is_alive n) (n_version n) None (Some w) (n_has_run n) (n_info n).

Lemma fresh_empty : fresh empty_info.
Proof. split; [apply Hfo|done]. Qed.

Lemma pulled_start v versions : versions <> [] ->
  pulled [] [] empty_info v (mkHelper transact_Reading v) (incremental versions).
Proof.
  intros Hne. constructor; try done.
  - unfold incremental. by rewrite bool_decide_eq_false_2.
  - constructor.
  - apply fresh_empty.
  - by intros u j0 ?%elem_of_nil.
Qed.

Lemma advance_new_spec new s sg : m_advancer_sg s = Some sg -> NoDup new -> Sorted.StronglySorted (by_version s) new ->
  h_version sg <= newest -> h_stage sg = (if bool_decide (new = []) then transact_Ready else transact_Reading) ->
  (forall id, id ∈ new -> exists n, objects s !! id = Some n /\ handed_over n /\ h_version sg <= n_version n <= newest) ->
  exists infos o, advance_new_notifiers log_between newest add_required new s =
      Some (infos, newest, set_advancer (Some (mkHelper transact_Ready newest)) (set_objects o s)) /\
    (forall id, id ∉ new -> o !! id = objects s !! id) /\
    forall id, id ∈ new -> exists n k, objects s !! id = Some n /\
      o !! id = Some (mkAsync (is_alive n) (n_version n) None (Some newest) (n_has_run n) k) /\
      exists i, infos !! k = Some i /\ informs id (n_version n) newest i.
Proof.
  intros Esg Hnd Hsort Hv Hstage Hnew. unfold advance_new_notifiers. rewrite Esg. cbn [mbind option_bind].
  destruct new as [|first new].
  - exists [], (objects s). unfold begin_read. rewrite (in_stage_true transact_Ready) by done. cbn.
    split; [by destruct s|]. split; [done|]. by intros id ?%elem_of_nil.
  - destruct (Hnew first) as (n & En & Hh & Hvn); [by left|]. pose proof (version_of_spec s first n En) as Ev.
    rewrite bool_decide_eq_false_2 in Hstage by done. rewrite (in_stage_true transact_Reading), (realm_assert_true true) by done. cbn [mbind option_bind].
    rewrite Ev, realm_assert_true by (apply Z.leb_le; lia). cbn [mbind option_bind].
    rewrite advance_read_spec by (done || lia). cbn [mbind option_bind].
    set (versions := version_of s <$> first :: new).
    assert (Sorted.StronglySorted Z.le versions) as Hsv.
    { unfold versions. clear -Hsort. induction Hsort as [|x l _ IH Hall]; [constructor|]. cbn. constructor; [done|].
      apply Forall_fmap. eapply Forall_impl; [exact Hall|]. done. }
    destruct (pull_forward_spec log_between newest add_required Hfo (first :: new) s [] [] empty_info (n_version n)
      (mkHelper transact_Reading (n_version n)) (incremental versions)) as (vs & l & cur & v & sg' & inc & o & -> & Hp & Hv' & _ & Ho & Hin).
    + by apply pulled_start.
    + done.
    + fold versions. constructor; [done|]. unfold versions in *. rewrite fmap_cons, Ev in *. apply Sorted.StronglySorted_inv in Hsv as [_ Hle]. by constructor.
    + lia.
    + intros id Hid. destruct (Hnew id Hid) as (m & Em & Hm & Hvm). exists m. split; [done|]. split; [done|lia].
    + fold versions. unfold versions. rewrite fmap_cons, Ev. cbn. by rewrite Z.ltb_irrefl.
    + cbn [mbind option_bind]. pose proof (pu_sg _ _ _ _ _ _ Hp) as Esg'.
      destruct (advance_to_final_spec log_between newest add_required Hfo vs l cur v sg' inc (list_builders s) newest Hp) as (infos & E & Hinfos); [lia|].
      change (list_builders (set_objects o s)) with (list_builders s). rewrite E. cbn [mbind option_bind]. clear E.
      change (set_list_builders (list_builders s) (set_objects o s)) with (set_objects o (set_list_builders (list_builders s) s)).
      rewrite set_list_builders_same, (for_all_update _ (detached newest)); [|done|].
      2: { intros id Hid. destruct (Hin id Hid) as (m & k & _ & Em & _). exists (attached m advancer k). split; [done|]. unfold detach. by rewrite bool_decide_eq_true_2. }
      cbn [mbind option_bind]. exists infos, (updated (detached newest) (first :: new) o). split; [done|]. split.
      * intros id Hid. rewrite updated_lookup, decide_False by done. by apply Ho.
      * intros id Hid. destruct (Hin id Hid) as (m & k & Em & Eo & Hplaced). exists m, k. split; [done|].
        rewrite updated_lookup, decide_True, Eo by done. split; [done|]. by apply (Hinfos id (attached m advancer k)).
Qed.

(** ** The other notifiers *)
Definition pointed (position : nat) n : AsyncNotifier :=
  mkAsync (is_alive n) (n_version n) (n_sg n) (n_handover n) (n_has_run n) position.

Lemma updated_set g ids s x : NoDup ids -> x ∈ ids -> objects (set_objects (updated g ids (objects s)) s) !! x = g <$> objects s !! x.
Proof. intros Hnd Hx. cbn. by rewrite updated_lookup, decide_True. Qed.

Lemma require_all_spec ids cur v sg inc s : pulled [] [] cur v sg inc -> NoDup ids ->
  (forall id, id ∈ ids -> is_Some (objects s !! id)) ->
  exists cur' inc', require_all add_required ids inc s = Some (inc', set_objects (updated (pointed 0) ids (objects s)) s) /\
    pulled [] [] cur' v sg inc' /\ (forall t, wants cur t -> wants cur' t) /\ forall id t, id ∈ ids -> asks add_required id t -> wants cur' t.
Proof.
  revert cur inc s. induction ids as [|id ids IH]; intros cur inc s Hp Hnd Hids.
  - exists cur, inc. split; [by destruct s|]. split; [done|]. split; [done|]. by intros id t ?%elem_of_nil.
  - apply NoDup_cons in Hnd as [Hid Hnd]. destruct (Hids id) as [n En]; [by left|]. cbn [require_all].
    unfold require. destruct (pulled_current _ _ _ _ _ _ Hp) as (-> & -> & Hset). cbn [mbind option_bind length].
    rewrite (update_notifier_spec s id _ n (pointed 0 n)) by done. cbn [mbind option_bind].
    destruct (pu_fresh _ _ _ _ _ _ Hp) as (Hg & Ht & Hl). destruct (fo_required _ _ _ Hfo id cur Hg) as (Hg' & El & Et & Hw).
    assert (pulled [] [] (add_required id cur) v sg (set_current (add_required id cur) inc)) as Hp'.
    { constructor; [apply Hp|by apply Hset|apply Hp|split; [done|by rewrite Et, El]|by intros u j0 ?%elem_of_nil]. }
    rewrite insert_as_alter by done.
    destruct (IH _ _ (set_objects (alter (pointed 0) id (objects s)) s) Hp' Hnd) as (cur' & inc' & E & Hp2 & Hmono & Hasks).
    { intros x Hx. cbn. rewrite lookup_alter_ne by (by intros ->). apply Hids. by right. }
    rewrite E. exists cur', inc'. split; [done|]. split; [done|]. split; [auto|]. intros x t [->|Hx]%elem_of_cons Ha; [|by eapply Hasks].
    apply Hmono, Ha, Hg.
Qed.

Lemma advance_notifiers_spec w ids s v : m_notifier_sg s = Some (mkHelper transact_Reading v) -> v <= w <= newest -> NoDup ids ->
  (forall id, id ∈ ids -> exists n, objects s !! id = Some n /\ n_version n = v) ->
  exists infos, advance_notifiers log_between add_required w ids s =
      Some (infos, set_main (Some (mkHelper transact_Reading w)) (set_objects (updated (pointed 0) ids (objects s)) s)) /\
    forall id, id ∈ ids -> exists i, infos !! O = Some i /\ informs id v w i.
Proof.
  intros Esg Hw Hnd Hids. unfold advance_notifiers. rewrite Esg. cbn [mbind option_bind]. destruct ids as [|id ids].
  - cbn. rewrite advance_read_spec by (done || (cbn; lia)). cbn. exists []. split; [by destruct s|]. by intros id ?%elem_of_nil.
  - destruct (require_all_spec (id :: ids) empty_info v (mkHelper transact_Reading v) (incremental (version_of s <$> id :: ids)) s)
      as (cur & inc & -> & Hp & _ & Hasks); [by apply pulled_start|done|intros x Hx; by destruct (Hids x Hx) as (n & -> & _)|].
    cbn [mbind option_bind].
    destruct (advance_to_final_spec log_between newest add_required Hfo [] [] cur v _ inc (list_builders s) w Hp Hw) as (infos & E & Hinfos).
    change (list_builders (set_objects _ s)) with (list_builders s). rewrite E. cbn [mbind option_bind].
    exists infos. split; [by destruct s|]. intros x Hx.
    destruct (Hinfos x (mkAsync true v None None true 0)) as (i & Ei & Hi); [|by exists i]. exists cur. split; [done|]. intros t. by apply Hasks.
Qed.

(** ** Running and handing over *)
Definition add_runs (l : list (nat * info)) s : state :=
  mkNotifiers (objects s) (m_new_notifiers s) (m_notifiers s) (m_notifier_skip_version s) (m_advancer_sg s)
    (m_notifier_sg s) (m_async_error s) (list_builders s) (runs s ++ l).

Lemma run_one infos s id n i : objects s !! id = Some n -> infos !! n_info n = Some i ->
  run_notifier infos s id = Some (add_runs [(id, i)] s).
Proof. intros En Ei. unfold run_notifier. rewrite En. cbn. by rewrite Ei. Qed.

Lemma add_runs_app l l' s : add_runs l' (add_runs l s) = add_runs (l ++ l') s.
Proof. unfold add_runs. cbn. by rewrite <- app_assoc. Qed.
Lemma add_runs_nil s : add_runs [] s = s.
Proof. unfold add_runs. rewrite app_nil_r. by destruct s. Qed.

Lemma run_all_spec infos ids s : (forall id, id ∈ ids -> exists n i, objects s !! id = Some n /\ infos !! n_info n = Some i) ->
  exists l, for_all (run_notifier infos) ids s = Some (add_runs l s) /\ l.*1 = ids /\
    forall id i, (id, i) ∈ l -> exists n, objects s !! id = Some n /\ infos !! n_info n = Some i.
Proof.
  revert s. induction ids as [|id ids IH]; intros s Hids.
  - exists []. split; [by rewrite add_runs_nil|]. split; [done|]. by intros id i ?%elem_of_nil.
  - destruct (Hids id) as (n & i & En & Ei); [by left|]. unfold for_all in *. cbn [fold_option]. rewrite (run_one infos s id n i En Ei). cbn [mbind option_bind].
    destruct (IH (add_runs [(id, i)] s)) as (l & -> & El & Hl); [intros x Hx; apply Hids; by right|].
    rewrite add_runs_app. exists ((id, i) :: l). split; [done|].
    cbn. rewrite El. split; [done|]. intros x j [[= -> ->]|Hin]%elem_of_cons; [by exists n|by apply Hl].
Qed.

Definition stamped (w : Z) n : AsyncNotifier := mkAsync (is_alive n) w (n_sg n) (n_handover n) true (n_info n).

Lemma hand_over_spec ids s w : m_notifier_sg s = Some (mkHelper transact_Reading w) -> NoDup ids ->
  (forall id, id ∈ ids -> exists n, objects s !! id = Some n /\ n_sg n = Some main) ->
  hand_over ids s = Some (set_objects (updated (stamped w) ids (objects s)) s).
Proof.
  intros Esg Hnd Hids. unfold hand_over. rewrite Esg. cbn [mbind option_bind]. apply for_all_update; [done|].
  intros id Hid. destruct (Hids id Hid) as (n & En & Es). exists n. split; [done|]. unfold prepare_handover, stamped. by rewrite Es, bool_decide_eq_true_2.
Qed.

(** The new notifiers are attached to the main group and run. *)
Definition attached_to_main n : AsyncNotifier := attached n main (n_info n).

Lemma attach_run_spec infos ids s sg : NoDup ids -> h_stage sg = transact_Reading ->
  (forall id, id ∈ ids -> exists n i, objects s !! id = Some n /\ n_sg n = None /\ n_handover n = Some (h_version sg) /\ infos !! n_info n = Some i) ->
  exists l, for_all (fun s id => s ← update_notifier id (attach_to main sg) s; run_notifier infos s id) ids s =
      Some (add_runs l (set_objects (updated attached_to_main ids (objects s)) s)) /\ l.*1 = ids /\
    forall id i, (id, i) ∈ l -> exists n, objects s !! id = Some n /\ infos !! n_info n = Some i.
Proof.
  intros Hnd Hstage. revert s. induction ids as [|id ids IH]; intros s Hids.
  - exists []. split; [rewrite add_runs_nil; by destruct s|]. split; [done|]. by intros id i ?%elem_of_nil.
  - apply NoDup_cons in Hnd as [Hid Hnd]. destruct (Hids id) as (n & i & En & Es & Eh & Ei); [by left|].
    unfold for_all in *. cbn [fold_option].
    assert (attach_to main sg n = Some (attached_to_main n)) as Ea.
    { unfold attach_to. rewrite Es, Eh, bool_decide_eq_false_2 by by intros []. cbn. by rewrite Z.eqb_refl, (in_stage_true transact_Reading). }
    rewrite (update_notifier_spec s id _ n _ En Ea). cbn [mbind option_bind]. rewrite insert_as_alter by done.
    set (s1 := set_objects (alter attached_to_main id (objects s)) s).
    assert (objects s1 !! id = Some (attached_to_main n)) as E1 by (cbn; rewrite lookup_alter_eq; by rewrite En).
    rewrite (run_one infos s1 id _ i E1 Ei). cbn [mbind option_bind].
    destruct (IH Hnd (add_runs [(id, i)] s1)) as (l & E & El & Hl).
    { intros x Hx. cbn. rewrite lookup_alter_ne by (by intros ->). apply Hids. by right. }
    rewrite E. exists ((id, i) :: l). split; [unfold add_runs; cbn; by rewrite <- app_assoc|].
    cbn. rewrite El. split; [done|]. intros x j [[= -> ->]|Hin]%elem_of_cons; [by exists n|].
    destruct (Hl x j Hin) as (m & Em & Ej). cbn in Em. assert (x ∈ ids) as Hx by (rewrite <- El; apply list_elem_of_fmap; by exists (x, j)).
    rewrite lookup_alter_ne in Em by (by intros ->). by exists m.
Qed.
End steps.

(** ** The invariant of the coordinator's queues

    As the comments at [m_notifier_sg] and [m_advancer_sg] say: each has a read
    transaction exactly if its queue is not empty. *)
Section invariant.
Context `{IndexSetLaws IS}.
Abbreviation state := (Notifiers IS).
Implicit Types (s : state) (n : AsyncNotifier) (ids : list nat).

Definition stage_for (ids : list nat) : TransactStage := if bool_decide (ids = []) then transact_Ready else transact_Reading.

Record worker_ok (newest : Z) s : Prop := {
  wo_nodup : NoDup (m_new_notifiers s ++ m_notifiers s);
  wo_new id : id ∈ m_new_notifiers s -> exists n sg, objects s !! id = Some n /\ m_advancer_sg s = Some sg /\
    handed_over n /\ h_version sg <= n_version n <= newest;
  wo_old id : id ∈ m_notifiers s -> exists n sg, objects s !! id = Some n /\ m_notifier_sg s = Some sg /\
    n_sg n = Some main /\ n_has_run n = true /\ n_version n = h_version sg;
  wo_advancer sg : m_advancer_sg s = Some sg -> h_stage sg = stage_for (m_new_notifiers s) /\ h_version sg <= newest;
  wo_main sg : m_notifier_sg s = Some sg -> h_stage sg = stage_for (m_notifiers s) /\ h_version sg <= newest;
  wo_opened : m_notifiers s <> [] -> is_Some (m_advancer_sg s);
  wo_skip : m_notifier_skip_version s = 0 \/
    m_notifiers s <> [] /\ exists sg, m_notifier_sg s = Some sg /\ h_version sg <= m_notifier_skip_version s <= newest;
  wo_no_error : m_async_error s = false
}.

Lemma has_dead_filter alive ids kept : has_dead alive ids = false -> kept ≡ₚ List.filter alive ids -> kept ≡ₚ ids.
Proof.
  intros Hd ->. unfold has_dead in Hd. induction ids as [|id ids IH]; [done|]. cbn in *.
  destruct (alive id); [|done]. by rewrite IH.
Qed.

Lemma stage_for_perm ids ids' : ids ≡ₚ ids' -> stage_for ids = stage_for ids'.
Proof.
  intros Hp. destruct ids as [|id ids], ids' as [|id' ids']; try done; [by apply Permutation_nil_cons in Hp|].
  symmetry in Hp. by apply Permutation_nil_cons in Hp.
Qed.

Lemma has_dead_nonempty alive ids : has_dead alive ids = true -> stage_for ids = transact_Reading.
Proof. by destruct ids. Qed.

(** The helper group of a queue after the dead notifiers left it *)
Definition released (ids : list nat) (sg : option HelperGroup) : option HelperGroup :=
  (fun sg => mkHelper (stage_for ids) (h_version sg)) <$> sg.

Lemma released_spec alive ids kept sg : h_stage sg = stage_for ids -> kept ≡ₚ List.filter alive ids ->
  (if has_dead alive ids && bool_decide (kept = []) then end_read sg else sg) = mkHelper (stage_for kept) (h_version sg).
Proof.
  intros Hst Hk. destruct (has_dead alive ids) eqn:Hd; cbn [andb].
  - apply has_dead_nonempty in Hd. rewrite Hd in Hst. destruct kept; [done|]. destruct sg; cbn in *. by subst.
  - apply has_dead_filter in Hk; [|done]. apply stage_for_perm in Hk. rewrite <- Hk in Hst. destruct sg; cbn in *. by subst.
Qed.

Lemma clean_up_queues newest s : worker_ok newest s -> exists new old skip, clean_up_dead_notifiers s =
    Some (mkNotifiers (objects s) new old skip (released new (m_advancer_sg s)) (released old (m_notifier_sg s)) false
      (list_builders s) (runs s)) /\
  new ≡ₚ List.filter (alive_in s) (m_new_notifiers s) /\ old ≡ₚ List.filter (alive_in s) (m_notifiers s) /\
  (skip = 0 \/ skip = m_notifier_skip_version s /\ (old = [] -> m_notifiers s = [])).
Proof.
  intros Hs. unfold clean_up_dead_notifiers.
  destruct (swap_remove_spec (alive_in s) (m_notifiers s)) as (old & -> & Hold). cbn [mbind option_bind].
  destruct (swap_remove_spec (alive_in s) (m_new_notifiers s)) as (new & Enew & Hnew).
  pose proof (wo_no_error _ _ Hs) as Herr.
  set (s1 := set_queues (m_new_notifiers s) old s).
  assert (exists skip, (match m_notifier_sg s1 with
     | Some sg => if has_dead (alive_in s) (m_notifiers s) && bool_decide (old = []) then
         assert! in_stage transact_Reading sg; Some (set_skip_version 0 (set_main (Some (end_read sg)) s1)) else Some s1
     | None => Some s1 end) = Some (set_skip_version skip (set_main (released old (m_notifier_sg s)) s1)) /\
     (skip = 0 \/ skip = m_notifier_skip_version s /\ (old = [] -> m_notifiers s = []))) as (skip & -> & Hskip).
  { subst s1. cbn. destruct (m_notifier_sg s) as [sg|] eqn:Esg.
    - destruct (wo_main _ _ Hs sg Esg) as [Hst _]. pose proof (released_spec _ _ _ _ Hst Hold) as Hr. cbn. rewrite <- Hr. clear Hr.
      destruct (has_dead (alive_in s) (m_notifiers s)) eqn:Hd; cbn [andb].
      + apply has_dead_nonempty in Hd as Hr. rewrite Hr in Hst. rewrite (in_stage_true _ _ Hst).
        destruct (bool_decide_reflect (old = [])) as [->|Hne]; [exists 0; by split; [|left]|].
        exists (m_notifier_skip_version s). split; [by destruct s; cbn in *; subst|]. by right.
      + exists (m_notifier_skip_version s). split; [by destruct s; cbn in *; subst|]. right. split; [done|]. intros ->.
        apply has_dead_filter in Hold; [|done]. by apply Permutation_nil in Hold.
    - exists (m_notifier_skip_version s). split; [by destruct s; cbn in *; subst|]. right. split; [done|]. intros _.
      destruct (m_notifiers s) as [|id ids] eqn:E; [done|]. destruct (wo_old _ _ Hs id) as (n & sg & _ & Hsg & _); [rewrite E; by left|].
      congruence. }
  cbn [mbind option_bind]. change (alive_in (set_skip_version _ _)) with (alive_in s). cbn [m_new_notifiers set_skip_version set_main].
  change (m_new_notifiers s1) with (m_new_notifiers s). rewrite Enew. cbn [mbind option_bind].
  exists new, old, skip. split; [|done]. subst s1. unfold set_advancer, set_queues, set_skip_version, set_main. cbn.
  destruct (m_advancer_sg s) as [sg|] eqn:Esg; [|cbn; by rewrite Herr].
  destruct (wo_advancer _ _ Hs sg Esg) as [Hst _]. pose proof (released_spec _ _ _ _ Hst Hnew) as Hr. cbn. rewrite <- Hr. clear Hr.
  destruct (has_dead (alive_in s) (m_new_notifiers s)) eqn:Hd; cbn [andb]; [|by rewrite Herr].
  apply has_dead_nonempty in Hd. rewrite Hd in Hst. rewrite (in_stage_true _ _ Hst). cbn.
  destruct (bool_decide_reflect (new = [])); by rewrite ?Esg, Herr.
Qed.

Lemma filter_true_NoDup (alive : nat -> bool) ids : NoDup ids -> NoDup (List.filter alive ids).
Proof.
  induction 1 as [|id ids Hid Hnd IH]; cbn; [constructor|]. destruct (alive id); [|done]. constructor; [|done].
  rewrite list_elem_of_In, List.filter_In, <- list_elem_of_In. by intros [? _].
Qed.

Lemma elem_of_kept (alive : nat -> bool) ids kept id : kept ≡ₚ List.filter alive ids -> id ∈ kept <-> id ∈ ids /\ alive id = true.
Proof. intros ->. by rewrite list_elem_of_In, List.filter_In, <- list_elem_of_In. Qed.

Lemma released_Some ids sg sg' : released ids sg = Some sg' -> exists sg0, sg = Some sg0 /\ sg' = mkHelper (stage_for ids) (h_version sg0).
Proof. destruct sg; [|done]. intros [= <-]. by eexists. Qed.

(** The queues keep their invariant when the dead notifiers leave. *)
Lemma clean_up_ok newest s : worker_ok newest s -> exists s', clean_up_dead_notifiers s = Some s' /\ worker_ok newest s' /\
  objects s' = objects s /\ runs s' = runs s /\ m_new_notifiers s' ≡ₚ List.filter (alive_in s) (m_new_notifiers s) /\
  m_notifiers s' ≡ₚ List.filter (alive_in s) (m_notifiers s).
Proof.
  intros Hs. destruct (clean_up_queues newest s Hs) as (new & old & skip & -> & Hnew & Hold & Hskip).
  pose proof (fun id => elem_of_kept _ _ _ id Hnew) as En. pose proof (fun id => elem_of_kept _ _ _ id Hold) as Eo.
  eexists. split; [done|]. split; [|done]. constructor; cbn.
  - rewrite Hnew, Hold, <- List.filter_app. by apply filter_true_NoDup, Hs.
  - intros id [Hid _]%En. destruct (wo_new _ _ Hs id Hid) as (n & sg & ? & -> & ?). by exists n, (mkHelper (stage_for new) (h_version sg)).
  - intros id [Hid _]%Eo. destruct (wo_old _ _ Hs id Hid) as (n & sg & ? & -> & ?). by exists n, (mkHelper (stage_for old) (h_version sg)).
  - intros sg (sg0 & E & ->)%released_Some. split; [done|]. by apply (wo_advancer _ _ Hs sg0).
  - intros sg (sg0 & E & ->)%released_Some. split; [done|]. by apply (wo_main _ _ Hs sg0).
  - intros Hne. assert (m_notifiers s <> []) as [sg ->]%(wo_opened _ _ Hs) by (intros E; rewrite E in Hold; by apply Permutation_nil_r in Hold). done.
  - destruct Hskip as [->|[-> Hne]]; [by left|]. destruct (wo_skip _ _ Hs) as [?|[Hids (sg & -> & Hsg)]]; [by left|].
    right. split; [by intros ?%Hne|]. by eexists.
  - done.
Qed.
End invariant.

(** ** The runs of one notifier *)
Section passes.
Context `{IndexSetLaws IS} `{BuildMode} `{StdSort} `{LogView IS}.
Abbreviation info := (TransactionChangeInfo IS).
Abbreviation state := (Notifiers IS).
Implicit Types (s : state) (n : AsyncNotifier) (ids : list nat) (l : list (nat * info)).
Context (log_between : Z -> Z -> list Instruction) (newest : Z) (add_required : nat -> info -> info).
Abbreviation informs := (informs add_required).

(** Infos that together lead from one version to another *)
Inductive reported (id : nat) : Z -> Z -> list info -> Prop :=
| reported_last v w i : informs id v w i -> reported id v w [i]
| reported_before u v w i r : informs id u v i -> reported id v w r -> reported id u w (i :: r).

(** The infos a notifier was run with *)
Definition runs_of (id : nat) l : list info := (filter (fun x => x.1 = id) l).*2.

Lemma runs_of_app id l l' : runs_of id (l ++ l') = runs_of id l ++ runs_of id l'.
Proof. unfold runs_of. by rewrite filter_app, fmap_app. Qed.

Lemma runs_of_none id l : id ∉ l.*1 -> runs_of id l = [].
Proof.
  unfold runs_of. induction l as [|[x i] l IH]; [done|]. intros [Hne Hni]%not_elem_of_cons. rewrite filter_cons_False by (by cbn in *; congruence). by apply IH.
Qed.

Lemma runs_of_one id i l : NoDup l.*1 -> (id, i) ∈ l -> runs_of id l = [i].
Proof.
  unfold runs_of. induction l as [|[x j] l IH]; [by intros _ ?%elem_of_nil|]. intros [Hx Hnd]%NoDup_cons [[= <- <-]|Hin]%elem_of_cons.
  - rewrite filter_cons_True by done. cbn. f_equal. by apply runs_of_none.
  - rewrite filter_cons_False; [by apply IH|]. cbn. intros ->. apply Hx. apply list_elem_of_fmap. by exists (id, i).
Qed.

(** Every notifier of the list was run with an info of its own. *)
Lemma runs_of_batch (infos : list info) ids l (o : gmap nat AsyncNotifier) id n i : NoDup ids -> l.*1 = ids ->
  (forall id i, (id, i) ∈ l -> exists n, o !! id = Some n /\ infos !! n_info n = Some i) ->
  id ∈ ids -> o !! id = Some n -> infos !! n_info n = Some i -> runs_of id l = [i].
Proof.
  intros Hnd El Hl Hid En Ei. rewrite <- El in Hid. apply list_elem_of_fmap in Hid as ([x j] & -> & Hin). cbn in *.
  destruct (Hl x j Hin) as (m & Em & Ej). assert (j = i) as -> by congruence. apply runs_of_one; [by rewrite El|done].
Qed.
Hypothesis Hfo : following log_between newest add_required.

(** Notifiers attached to the main group at a version *)
Definition serving (v : Z) ids s : Prop := m_notifier_sg s = Some (mkHelper transact_Reading v) /\
  forall id, id ∈ ids -> exists n, objects s !! id = Some n /\ n_version n = v /\ n_sg n = Some main.

Lemma sort_by_version_perm s ids : sort_by_version s ids ≡ₚ ids.
Proof. apply std_sort_perm. Qed.

Lemma sort_by_version_sorted s ids : Sorted.StronglySorted (by_version s) (sort_by_version s ids).
Proof.
  assert (Total (by_version s)) as Ht by (intros a b; unfold by_version; lia).
  apply Sorted.Sorted_StronglySorted; [intros a b c; unfold by_version; lia|]. by apply std_sort_sorted.
Qed.

(** A run of every notifier of the list with the info of the version they share *)
Lemma run_shared_spec v w (infos : list info) ids s : NoDup ids -> (forall id, id ∈ ids -> exists i, infos !! O = Some i /\ informs id v w i) ->
  (forall id, id ∈ ids -> exists n, objects s !! id = Some n /\ n_info n = O) ->
  exists l, for_all (run_notifier infos) ids s = Some (add_runs l s) /\ l.*1 = ids /\
    forall id, id ∈ ids -> exists i, runs_of id l = [i] /\ informs id v w i.
Proof.
  intros Hnd Hinf Hids. destruct (run_all_spec infos ids s) as (l & -> & El & Hl).
  - intros id Hid. destruct (Hids id Hid) as (n & En & E0), (Hinf id Hid) as (i & Ei & _). exists n, i. by rewrite E0.
  - exists l. split; [done|]. split; [done|]. intros id Hid. destruct (Hids id Hid) as (n & En & E0), (Hinf id Hid) as (i & Ei & Hi).
    exists i. split; [|done]. rewrite <- E0 in Ei. by eapply runs_of_batch.
Qed.

Lemma skip_to_spec skip v ids s : serving v ids s -> v <= newest -> NoDup ids ->
  skip = 0 \/ ids <> [] /\ v <= skip <= newest ->
  exists ids' w o l, skip_to log_between add_required skip newest ids s =
      Some (ids', add_runs l (set_main (Some (mkHelper transact_Reading w)) (set_objects o s))) /\
    ids' ≡ₚ ids /\ v <= w <= newest /\ (forall id, id ∉ ids -> o !! id = objects s !! id /\ runs_of id l = []) /\
    forall id n, id ∈ ids -> objects s !! id = Some n ->
      (exists n', o !! id = Some n' /\ is_alive n' = is_alive n /\ n_version n' = w /\ n_sg n' = Some main) /\
      forall r, reported id w newest r -> reported id v newest (runs_of id l ++ r).
Proof.
  intros Hserv Hv Hnd Hskip. unfold skip_to. destruct (Z.eqb_spec skip 0) as [->|Hne].
  - exists ids, v, (objects s), []. destruct Hserv as [Esg Hids]. split; [rewrite add_runs_nil; destruct s; cbn in *; by subst|].
    split; [done|]. split; [lia|]. split; [done|]. intros id n Hid En. split; [|done]. exists n. destruct (Hids id Hid) as (m & Em & ? & ?).
    by simplify_eq.
  - destruct Hskip as [|[Hids Hskip]]; [done|]. rewrite (realm_assert_true (negb _)) by (by rewrite bool_decide_eq_false_2). cbn [mbind option_bind].
    rewrite (realm_assert_true (skip <=? newest)) by (apply Z.leb_le; lia). cbn [mbind option_bind].
    pose proof (sort_by_version_perm s ids) as Hperm. set (ids' := sort_by_version s ids) in *. clearbody ids'.
    assert (NoDup ids') as Hnd' by (by rewrite Hperm). destruct Hserv as [Esg Hserv].
    assert (forall id, id ∈ ids' -> exists n, objects s !! id = Some n /\ n_version n = v /\ n_sg n = Some main) as Hserv'
      by (intros id; rewrite Hperm; apply Hserv).
    destruct (advance_notifiers_spec log_between newest add_required Hfo skip ids' s v Esg Hskip Hnd') as (infos & -> & Hinf).
    { intros id Hid. destruct (Hserv' id Hid) as (n & En & Ev & _). by exists n. }
    cbn [mbind option_bind]. set (s1 := set_main _ _).
    destruct (run_shared_spec v skip infos ids' s1 Hnd' Hinf) as (l & -> & El & Hl).
    { intros id Hid. destruct (Hserv' id Hid) as (n & En & _). exists (pointed 0 n). split; [|done]. cbn. rewrite updated_lookup, decide_True by done. by rewrite En. }
    cbn [mbind option_bind]. rewrite (hand_over_spec ids' _ skip); [|done|done|].
    2: { intros id Hid. destruct (Hserv' id Hid) as (n & En & _ & Es). exists (pointed 0 n). split; [|done]. cbn. rewrite updated_lookup, decide_True by done. by rewrite En. }
    cbn [mbind option_bind]. exists ids', skip, (updated (stamped skip) ids' (updated (pointed 0) ids' (objects s))), l.
    split; [done|]. split; [done|]. split; [lia|]. split.
    + intros id Hid. rewrite <- Hperm in Hid. rewrite !updated_lookup, !decide_False by done. split; [done|]. apply runs_of_none. by rewrite El.
    + intros id n Hid En. rewrite <- Hperm in Hid. rewrite !updated_lookup, !decide_True, En by done. split.
      * eexists. split; [done|]. destruct (Hserv' id Hid) as (m & Em & _ & Es). by simplify_eq.
      * intros r Hr. destruct (Hl id Hid) as (i & -> & Hi). by eapply reported_before.
Qed.

(** Detached at the newest version, with the info of its changes *)
Definition waiting (infos : list info) (id : nat) n v i : Prop :=
  n_sg n = None /\ n_handover n = Some newest /\ infos !! n_info n = Some i /\ informs id v newest i.

(** The objects afterwards *)
Definition run_objects (new ids : list nat) (o : gmap nat AsyncNotifier) : gmap nat AsyncNotifier :=
  updated (stamped newest) ids (updated (stamped newest) new (updated attached_to_main new (updated (pointed 0) ids o))).

Lemma run_objects_spec new ids o : NoDup (new ++ ids) ->
  (forall id, id ∉ new ++ ids -> run_objects new ids o !! id = o !! id) /\
  (forall id, id ∈ new -> run_objects new ids o !! id = stamped newest ∘ attached_to_main <$> o !! id) /\
  (forall id, id ∈ ids -> run_objects new ids o !! id = stamped newest ∘ pointed 0 <$> o !! id).
Proof.
  intros (Hnew & Hdis & Hids)%NoDup_app. unfold run_objects. split; [|split]; intros id Hid; rewrite !updated_lookup by done.
  - apply not_elem_of_app in Hid as [??]. by rewrite !decide_False by done.
  - rewrite !(decide_False (P:=id ∈ ids)), !(decide_True (P:=id ∈ new)) by (try apply Hdis; done). by destruct (o !! id).
  - rewrite !(decide_True (P:=id ∈ ids)), !(decide_False (P:=id ∈ new)); [by destruct (o !! id)|by intros ?%Hdis..|done|done].
Qed.

Lemma advance_and_run_spec infos w new ids s : serving w ids s -> w <= newest -> NoDup (new ++ ids) ->
  (forall id, id ∈ new -> exists n v i, objects s !! id = Some n /\ waiting infos id n v i) ->
  exists ids' l, ids' ≡ₚ ids /\ advance_and_run log_between add_required infos newest new ids s =
      Some (add_runs l (set_main (Some (mkHelper transact_Reading newest)) (set_objects (run_objects new ids' (objects s)) s))) /\
    (forall id, id ∉ new ++ ids -> runs_of id l = []) /\
    (forall id n v i, id ∈ new -> objects s !! id = Some n -> waiting infos id n v i -> reported id v newest (runs_of id l)) /\
    forall id, id ∈ ids -> reported id w newest (runs_of id l).
Proof.
  intros [Esg Hserv] Hw Hnd Hnew. unfold advance_and_run.
  pose proof (sort_by_version_perm s ids) as Hperm. set (ids' := sort_by_version s ids) in *. clearbody ids'. exists ids'.
  rewrite <- Hperm in Hnd. setoid_rewrite <- Hperm. setoid_rewrite <- Hperm in Hserv. clear ids Hperm.
  apply NoDup_app in Hnd as (Hndn & Hdis & Hnd').
  destruct (advance_notifiers_spec log_between newest add_required Hfo newest ids' s w Esg) as (infos' & -> & Hinf); [lia|done| |].
  { intros id Hid. destruct (Hserv id Hid) as (n & En & Ev & _). by exists n. }
  cbn [mbind option_bind]. set (s1 := set_main _ _). change (m_notifier_sg s1) with (Some (mkHelper transact_Reading newest)). cbn [mbind option_bind].
  assert (forall id, id ∈ new -> objects s1 !! id = objects s !! id) as Hs1.
  { intros id Hid. cbn. rewrite updated_lookup, decide_False by (done || by apply Hdis). done. }
  destruct (attach_run_spec infos new s1 (mkHelper transact_Reading newest) Hndn eq_refl) as (l1 & -> & El1 & Hl1).
  { intros id Hid. destruct (Hnew id Hid) as (n & v & i & En & Esn & Eh & Ei & _). exists n, i. by rewrite Hs1. }
  cbn [mbind option_bind].
  destruct (run_shared_spec w newest infos' ids' (add_runs l1 (set_objects (updated attached_to_main new (objects s1)) s1)) Hnd' Hinf) as (l2 & -> & El2 & Hl2).
  { intros id Hid. destruct (Hserv id Hid) as (n & En & _). exists (pointed 0 n). split; [|done]. cbn.
    rewrite !updated_lookup, decide_False, decide_True, En by (done || by intros ?%Hdis). done. }
  cbn [mbind option_bind]. rewrite (hand_over_spec new _ newest); [|done|done|].
  2: { intros id Hid. destruct (Hnew id Hid) as (n & v & i & En & _). exists (attached_to_main n). split; [|done]. cbn -[s1].
    rewrite updated_lookup, decide_True, Hs1, En by done. done. }
  cbn [mbind option_bind]. rewrite (hand_over_spec ids' _ newest); [|done|done|].
  2: { intros id Hid. destruct (Hserv id Hid) as (n & En & _ & Es). exists (pointed 0 n). split; [|done]. cbn.
    rewrite !updated_lookup, !(decide_False (P:=id ∈ new)), !decide_True, En by (done || by intros ?%Hdis). done. }
  exists (l1 ++ l2). split; [done|]. split; [unfold add_runs; cbn; by rewrite <- app_assoc|].
  assert (forall id, id ∉ new -> runs_of id l1 = []) as Hnone1 by (intros id Hid; apply runs_of_none; by rewrite El1).
  assert (forall id, id ∉ ids' -> runs_of id l2 = []) as Hnone2 by (intros id Hid; apply runs_of_none; by rewrite El2).
  split; [|split].
  - intros id [??]%not_elem_of_app. by rewrite runs_of_app, Hnone1, Hnone2.
  - intros id n v i Hid En (_ & _ & Ei & Hi). rewrite runs_of_app, (Hnone2 id), app_nil_r by by apply Hdis.
    rewrite <- Hs1 in En by done. rewrite (runs_of_batch infos new l1 (objects s1) id n i) by done. by apply reported_last.
  - intros id Hid. destruct (Hl2 id Hid) as (i & Ei & Hi). rewrite runs_of_app, Hnone1, Ei by (by intros ?%Hdis). by apply reported_last.
Qed.
End passes.

(** ** A run of the worker *)
Section run.
Context `{IndexSetLaws IS} `{BuildMode} `{StdSort} `{LogView IS}.
Abbreviation info := (TransactionChangeInfo IS).
Abbreviation state := (Notifiers IS).
Implicit Types (s : state) (n : AsyncNotifier) (ids : list nat) (l : list (nat * info)).
Context (log_between : Z -> Z -> list Instruction) (newest : Z) (add_required : nat -> info -> info).
Hypothesis Hfo : following log_between newest add_required.

Lemma open_spec s : worker_ok newest s -> exists v, open_helper_shared_group newest true s = Some (set_main (Some (mkHelper transact_Reading v)) s) /\
  v <= newest /\ serving v (m_notifiers s) (set_main (Some (mkHelper transact_Reading v)) s) /\
  (m_notifier_skip_version s = 0 \/ m_notifiers s <> [] /\ v <= m_notifier_skip_version s <= newest).
Proof.
  intros Hs. unfold open_helper_shared_group. destruct (m_notifier_sg s) as [[stage v]|] eqn:Esg.
  - destruct (wo_main _ _ Hs _ Esg) as [Hst Hv]. cbn in Hst, Hv. subst stage. destruct (bool_decide_reflect (m_notifiers s = [])) as [E|Hne].
    + exists newest. rewrite E. unfold begin_read. rewrite in_stage_true by done. split; [done|]. split; [done|].
      split; [split; [done|by intros id ?%elem_of_nil]|]. left. by destruct (wo_skip _ _ Hs) as [|[]].
    + exists v. assert (stage_for (m_notifiers s) = transact_Reading) as Est by (by destruct (m_notifiers s)). rewrite Est in Esg.
      split; [destruct s; cbn in *; by rewrite Esg|]. split; [done|]. split; [split; [done|]|].
      * intros id Hid. destruct (wo_old _ _ Hs id Hid) as (n & sg & En & Esg' & Hm & _ & Ev). exists n. by simplify_eq.
      * destruct (wo_skip _ _ Hs) as [|[_ (sg & Esg' & Hsk)]]; [by left|]. right. by simplify_eq.
  - assert (m_notifiers s = []) as E.
    { destruct (m_notifiers s) as [|id ids] eqn:E; [done|]. destruct (wo_old _ _ Hs id) as (n & sg & _ & Hsg & _); [rewrite E; by left|]. congruence. }
    exists newest. rewrite E. split; [done|]. split; [done|]. split; [split; [done|by intros id ?%elem_of_nil]|].
    left. by destruct (wo_skip _ _ Hs) as [|[]].
Qed.

(** What one run of the worker tells the notifiers that are alive *)
Definition ran s s' : Prop := exists l, runs s' = runs s ++ l /\ m_new_notifiers s' = [] /\
  m_notifiers s' ≡ₚ List.filter (alive_in s) (m_new_notifiers s ++ m_notifiers s) /\
  (forall id, id ∉ m_notifiers s' -> runs_of id l = []) /\
  forall id, id ∈ m_notifiers s' -> exists n n', objects s !! id = Some n /\ objects s' !! id = Some n' /\ n_version n' = newest /\
    reported add_required id (n_version n) newest (runs_of id l).

(** The queues after the notifiers were run *)
Lemma joined_ok new ids o rs bs e : NoDup (new ++ ids) -> new ++ ids <> [] -> e = false ->
  (forall id, id ∈ new ++ ids -> exists n, o !! id = Some n /\ n_version n = newest /\ n_sg n = Some main /\ n_has_run n = true) ->
  worker_ok (IS:=IS) newest (mkNotifiers o [] (ids ++ new) 0 (Some (mkHelper transact_Ready newest))
    (Some (mkHelper transact_Reading newest)) e bs rs).
Proof.
  intros Hnd Hne -> Ho. rewrite Permutation_app_comm in Hnd. constructor; cbn; try done.
  - by intros id ?%elem_of_nil.
  - intros id Hid. rewrite Permutation_app_comm in Hid. destruct (Ho id Hid) as (n & En & Ev & Es & Er).
    by exists n, (mkHelper transact_Reading newest).
  - intros sg [= <-]. done.
  - intros sg [= <-]. split; [|done]. destruct ids; [|done]. by destruct new.
  - by left.
Qed.

(** The part of the run between the two clean-ups *)
Abbreviation pulled_and_run := (pulled_and_run log_between newest add_required).

Definition served s s' : Prop := exists l, runs s' = runs s ++ l /\ m_new_notifiers s' = [] /\
  m_notifiers s' ≡ₚ m_new_notifiers s ++ m_notifiers s /\
  (forall id, id ∉ m_notifiers s' -> runs_of id l = []) /\
  forall id, id ∈ m_notifiers s' -> exists n n', objects s !! id = Some n /\ objects s' !! id = Some n' /\ is_alive n' = is_alive n /\
    n_version n' = newest /\ reported add_required id (n_version n) newest (runs_of id l).

(** What the invariant says of the queues, whatever the stage of the main group *)
Record queues_ok s : Prop := {
  qu_nodup : NoDup (m_new_notifiers s ++ m_notifiers s);
  qu_some : m_new_notifiers s ++ m_notifiers s <> [];
  qu_new id : id ∈ m_new_notifiers s -> exists n sg, objects s !! id = Some n /\ m_advancer_sg s = Some sg /\
    handed_over n /\ h_version sg <= n_version n <= newest;
  qu_advancer : exists sg, m_advancer_sg s = Some sg /\ h_stage sg = stage_for (m_new_notifiers s) /\ h_version sg <= newest;
  qu_error : m_async_error s = false
}.

Lemma opened_queues s0 sg : worker_ok newest s0 -> m_new_notifiers s0 ++ m_notifiers s0 <> [] -> queues_ok (set_main sg s0).
Proof.
  intros Hs Hne. constructor; [apply Hs|done|apply Hs| |apply Hs]. cbn [m_advancer_sg set_main m_new_notifiers].
  assert (is_Some (m_advancer_sg s0)) as [sg' E].
  { destruct (m_new_notifiers s0) as [|id ids] eqn:En; [by apply (wo_opened _ _ Hs)|].
    destruct (wo_new _ _ Hs id) as (n & sg' & _ & -> & _); [rewrite En; by left|done]. }
  exists sg'. split; [done|]. by apply (wo_advancer _ _ Hs).
Qed.

(** The new notifiers, once they are detached *)
Definition detached_new (infos : list info) s (o : gmap nat AsyncNotifier) (id : nat) : Prop := exists n k i, objects s !! id = Some n /\
  o !! id = Some (mkAsync (is_alive n) (n_version n) None (Some newest) (n_has_run n) k) /\
  waiting newest add_required infos id (mkAsync (is_alive n) (n_version n) None (Some newest) (n_has_run n) k) (n_version n) i.

Lemma new_pulled s : queues_ok s -> let new := sort_by_version s (m_new_notifiers s) in exists infos o,
  advance_new_notifiers log_between newest add_required new (set_queues [] (m_notifiers s) s) =
    Some (infos, newest, set_advancer (Some (mkHelper transact_Ready newest)) (set_objects o (set_queues [] (m_notifiers s) s))) /\
  (forall id, id ∉ new -> o !! id = objects s !! id) /\ forall id, id ∈ new -> detached_new infos s o id.
Proof.
  intros Hs new. pose proof (sort_by_version_perm s (m_new_notifiers s)) as Hperm. fold new in Hperm.
  destruct (qu_advancer _ Hs) as (sg & Eadv & Hstage & Hvsg). rewrite <- (stage_for_perm _ _ Hperm) in Hstage.
  pose proof (qu_nodup _ Hs) as Hnd. rewrite <- Hperm in Hnd. apply NoDup_app in Hnd as (Hnd & _).
  destruct (advance_new_spec log_between newest add_required Hfo new (set_queues [] (m_notifiers s) s) sg Eadv Hnd
    (sort_by_version_sorted s _) Hvsg Hstage) as (infos & o & E & Hother & Hnew).
  - intros id Hid. rewrite Hperm in Hid. destruct (qu_new _ Hs id Hid) as (n & sg' & En & Esg' & Hh & Hle). simplify_eq. by exists n.
  - exists infos, o. split; [done|]. split; [done|]. intros id Hid. destruct (Hnew id Hid) as (n & k & En & Eo & i & Ei & Hi). by exists n, k, i.
Qed.

(** The other ones, at the version the skipped commit left them, with what they
    were told of it in [l] *)
Definition caught_up (v w : Z) l s (o : gmap nat AsyncNotifier) (id : nat) : Prop := exists n n', objects s !! id = Some n /\ n_version n = v /\
  o !! id = Some n' /\ is_alive n' = is_alive n /\ n_version n' = w /\ n_sg n' = Some main /\
  forall r, reported add_required id w newest r -> reported add_required id v newest (runs_of id l ++ r).

(** All notifiers are run, and the queues joined. *)
Lemma all_served v w infos new ids l s0 s : queues_ok s0 -> new ≡ₚ m_new_notifiers s0 -> ids ≡ₚ m_notifiers s0 -> w <= newest ->
  m_notifier_sg s = Some (mkHelper transact_Reading w) -> m_new_notifiers s = [] -> m_notifiers s = m_notifiers s0 ++ new ->
  m_notifier_skip_version s = 0 -> m_advancer_sg s = Some (mkHelper transact_Ready newest) -> m_async_error s = false ->
  runs s = runs s0 ++ l -> (forall id, id ∉ ids -> runs_of id l = []) ->
  (forall id, id ∈ new -> detached_new infos s0 (objects s) id) -> (forall id, id ∈ ids -> caught_up v w l s0 (objects s) id) ->
  exists s', advance_and_run log_between add_required infos newest new ids s = Some s' /\ worker_ok newest s' /\ served s0 s'.
Proof.
  intros Hs0 Hnew Hids Hw Emain Enq Eold Eskip Eadv Eerr Eruns Hnone0 Hnew0 Hold0.
  assert (NoDup (new ++ ids)) as Hnd by (rewrite Hnew, Hids; apply Hs0). apply NoDup_app in Hnd as Hdis. destruct Hdis as (_ & Hdis & _).
  destruct (advance_and_run_spec log_between newest add_required Hfo infos w new ids s) as (ids' & l2 & Hids' & -> & Hnone & Hrun_new & Hrun_old);
    [|done|done| |].
  { split; [done|]. intros id Hid. destruct (Hold0 id Hid) as (n & n' & _ & _ & E & _ & ? & ? & _). by exists n'. }
  { intros id Hid. destruct (Hnew0 id Hid) as (n & k & i & _ & E & Hi). eauto. }
  assert (NoDup (new ++ ids')) as Hnd' by (by rewrite Hids').
  destruct (run_objects_spec newest new ids' (objects s) Hnd') as (_ & Eobj_new & Eobj_old).
  set (o := run_objects newest new ids' (objects s)) in *. clearbody o. setoid_rewrite Hids' in Eobj_old. clear ids' Hids' Hnd'.
  assert (forall id, id ∈ new ++ ids -> exists n n', objects s0 !! id = Some n /\ o !! id = Some n' /\ is_alive n' = is_alive n /\
    n_version n' = newest /\ n_sg n' = Some main /\ n_has_run n' = true /\ reported add_required id (n_version n) newest (runs_of id (l ++ l2))) as Hall.
  { intros id [Hid|Hid]%elem_of_app; rewrite runs_of_app.
    - destruct (Hnew0 id Hid) as (n & k & i & En & E & Hi). exists n. eexists. split; [done|]. rewrite Eobj_new, E by done. do 5 (split; [done|]).
      rewrite Hnone0 by by apply Hdis. by eapply Hrun_new.
    - destruct (Hold0 id Hid) as (n & n' & En & Ev & E & Ea & _ & Em & Hr). exists n. eexists. split; [done|]. rewrite Eobj_old, E by done.
      do 5 (split; [done|]). rewrite Ev. by apply Hr, Hrun_old. }
  eexists. split; [done|]. split.
  - pose proof (joined_ok new (m_notifiers s0) o (runs s ++ l2) (list_builders s) (m_async_error s)) as Hok.
    unfold add_runs, set_main, set_objects. cbn. rewrite Enq, Eold, Eskip, Eadv. apply Hok; [by rewrite <- Hids| |done|].
    + intros E. apply (qu_some _ Hs0). apply app_eq_nil in E as [E1 ->]. rewrite E1 in Hnew. by apply Permutation_nil in Hnew as ->.
    + intros id Hid. rewrite <- Hids in Hid. destruct (Hall id Hid) as (n & n' & _ & ? & _ & ? & ? & ? & _). by exists n'.
  - exists (l ++ l2). split; [cbn; by rewrite Eruns, app_assoc|]. split; [done|]. cbn [m_notifiers add_runs set_main set_objects]. rewrite Eold.
    split; [by rewrite <- Hnew, Permutation_app_comm|].
    assert (forall id, id ∈ m_notifiers s0 ++ new <-> id ∈ new ++ ids) as Hin by (intros id; by rewrite <- Hids, Permutation_app_comm). split.
    + intros id Hid. rewrite Hin in Hid. rewrite runs_of_app, Hnone by done. apply not_elem_of_app in Hid as [_ Hid]. by rewrite Hnone0.
    + intros id Hid. rewrite Hin in Hid. destruct (Hall id Hid) as (n & n' & ? & ? & ? & ? & _ & _ & ?). by exists n, n'.
Qed.

Lemma pulled_and_run_spec v s : queues_ok s -> v <= newest -> serving v (m_notifiers s) s ->
  m_notifier_skip_version s = 0 \/ m_notifiers s <> [] /\ v <= m_notifier_skip_version s <= newest ->
  exists s', pulled_and_run s = Some s' /\ worker_ok newest s' /\ served s s'.
Proof.
  intros Hs Hv [Esg Hserv] Hskip. unfold NotifierWorker.pulled_and_run.
  destruct (new_pulled s Hs) as (infos & o & -> & Hother & Hnew).
  pose proof (sort_by_version_perm s (m_new_notifiers s)) as Hperm. set (new := sort_by_version s (m_new_notifiers s)) in *. clearbody new.
  pose proof (qu_nodup _ Hs) as Hnd. rewrite <- Hperm in Hnd. apply NoDup_app in Hnd as (_ & Hdis & Hndo).
  cbn [mbind option_bind m_advancer_sg set_advancer]. rewrite in_stage_true, (realm_assert_true true) by done. cbn [mbind option_bind].
  set (s3 := set_queues [] (_ ++ _) _).
  assert (forall id, id ∈ m_notifiers s -> o !! id = objects s !! id) as Hold by (intros id Hid; apply Hother; by intros ?%Hdis).
  destruct (skip_to_spec log_between newest add_required Hfo (m_notifier_skip_version s) v (m_notifiers s) s3) as (ids & w & o' & l & E & Hids & Hw & Hsame & Hpass).
  { split; [done|]. intros id Hid. destruct (Hserv id Hid) as (n & En & ?). exists n. split; [|done]. cbn. by rewrite Hold. }
  1-3: done.
  cbn [m_notifier_skip_version m_notifiers set_advancer set_objects set_queues]. rewrite E. cbn [mbind option_bind]. clear E.
  apply (all_served v w infos new ids l); try done; [lia|apply Hs| | |].
  - intros id Hid. rewrite Hids in Hid. by apply Hsame.
  - intros id Hid. destruct (Hnew id Hid) as (n & k & i & En & Eo & Hi). exists n, k, i. split; [done|]. split; [|done].
    etrans; [apply (Hsame id (Hdis id Hid))|exact Eo].
  - intros id Hid. rewrite Hids in Hid. destruct (Hserv id Hid) as (n & En & Ev & _).
    destruct (Hpass id n Hid) as [(n' & ? & ? & ? & ?) Hr]; [cbn; by rewrite Hold|]. by exists n, n'.
Qed.

Lemma served_ran s s1 s' : objects s1 = objects s -> runs s1 = runs s ->
  m_new_notifiers s1 ≡ₚ List.filter (alive_in s) (m_new_notifiers s) -> m_notifiers s1 ≡ₚ List.filter (alive_in s) (m_notifiers s) ->
  served s1 s' -> ran s s' /\ Forall (fun id => alive_in s' id = true) (m_notifiers s').
Proof.
  intros Eo Er Hn Hm (l & El & Enew & Hids & Hnone & Hl).
  assert (m_notifiers s' ≡ₚ List.filter (alive_in s) (m_new_notifiers s ++ m_notifiers s)) as Hids' by (by rewrite Hids, Hn, Hm, List.filter_app).
  split.
  - exists l. rewrite <- Er. split; [done|]. split; [done|]. split; [done|]. split; [done|]. intros id Hid.
    destruct (Hl id Hid) as (n & n' & En & En' & _ & Ev & Hr). rewrite Eo in En. by exists n, n'.
  - apply Forall_forall. intros id Hid. destruct (Hl id Hid) as (n & n' & En & En' & Ea & _). rewrite Eo in En.
    apply (elem_of_kept _ _ _ id Hids') in Hid as [_ Hid]. revert Hid. unfold alive_in. by rewrite En, En', Ea.
Qed.

Lemma run_async_spec s : worker_ok newest s ->
  exists s', run_async_notifiers log_between newest true add_required s = Some s' /\ worker_ok newest s' /\ ran s s'.
Proof.
  intros Hs. destruct (clean_up_ok newest s Hs) as (s1 & Ec & Hs1 & Eo1 & Er1 & Hn1 & Hm1). unfold run_async_notifiers. rewrite Ec. cbn [mbind option_bind].
  destruct (bool_decide (m_notifiers s1 = []) && bool_decide (m_new_notifiers s1 = [])) eqn:Eb.
  { apply andb_prop in Eb as [Eo%bool_decide_eq_true Enew%bool_decide_eq_true]. exists s1. split; [done|]. split; [done|].
    exists []. rewrite Er1, app_nil_r, Eo. split; [done|]. split; [done|]. split; [by rewrite List.filter_app, <- Hn1, <- Hm1, Enew, Eo|].
    split; [done|]. by intros id ?%elem_of_nil. }
  assert (m_new_notifiers s1 ++ m_notifiers s1 <> []) as Hne by (intros [En Eo]%app_eq_nil; by rewrite En, Eo in Eb).
  rewrite (wo_no_error _ _ Hs1). destruct (open_spec s1 Hs1) as (v & -> & Hv & Hserv & Hskip). cbn [mbind option_bind].
  set (s2 := set_main _ s1) in *. change (m_async_error s2) with (m_async_error s1). rewrite (wo_no_error _ _ Hs1).
  destruct (pulled_and_run_spec v s2 (opened_queues s1 _ Hs1 Hne) Hv Hserv Hskip) as (s3 & -> & Hs3 & Hserved). cbn [mbind option_bind].
  destruct (served_ran s s2 s3 Eo1 Er1 Hn1 Hm1 Hserved) as [(l & El & Enew & Hids & Hnone & Hl) Halive].
  destruct (clean_up_ok newest s3 Hs3) as (s4 & -> & Hs4 & Eo4 & Er4 & Hn4 & Hm4). exists s4. split; [done|]. split; [done|].
  assert (m_notifiers s4 ≡ₚ m_notifiers s3) as Hm.
  { rewrite Hm4. clear -Halive. induction Halive as [|id ids E _ IH]; [done|]. cbn. by rewrite E, IH. }
  exists l. rewrite Er4, Eo4. setoid_rewrite Hm. split; [done|]. split; [by rewrite Enew in Hn4; apply Permutation_nil_r in Hn4|]. done.
Qed.
End run.
