(* ===== verification/WorkerSafety.v ===== *)
(** * The notifier worker: every sequence of its operations

    The queues keep their invariant when notifiers are registered and
    unregistered, when realms commit, and when the worker runs, so no assertion
    of theirs fails; and what happens once the file could not be opened. *)
From stdpp Require Import gmap.
From S2P Require Import Prelude.
From S2P Require Import IndexSetInterface.
From S2P Require Import ChangeBuilder.
From S2P Require Import ChangeBuilderFacts.
From S2P Require Import TransactLog.
From S2P Require Import Realms.
From S2P Require Import NotifierWorker.
From S2P Require Import WorkerFacts.
From S2P Require Import WorkerTheorems.
Import LogObserver.

#[local] Open Scope realm_scope.

(** ** The operations, on the newest version of the file and the queues *)
Section operations.
Context `{IndexSetLaws IS} `{BuildMode} `{StdSort}.
Abbreviation info := (TransactionChangeInfo IS).
Abbreviation state := (Notifiers IS).
Implicit Types (s : state) (n : AsyncNotifier) (id : nat).
Context (log_between : Z -> Z -> list Instruction) (opens : bool) (add_required : nat -> info -> info).
(** The last version considered *)
Context (limit : Z).

Inductive Event :=
| register (id : nat) (version : Z)
| unregistered (id : nat)
| commit (is_for_realm : nat -> bool) (version : Z)
| run_worker.

Definition perform (x : Z * state) (e : Event) : option (Z * state) :=
  let (newest, s) := x in
  match e with
  | register id version => s ← register_notifier opens id (set_objects (<[id := new_notifier version]> (objects s)) s); Some (newest, s)
  | unregistered id => s ← update_notifier id unregister s; Some (newest, s)
  | commit is_for_realm version => Some (version, commit_skip is_for_realm version s)
  | run_worker => s ← run_async_notifiers log_between newest opens add_required s; Some (newest, s)
  end.

(** A notifier is registered once, at a version of the file; versions grow. *)
Definition allowed (x : Z * state) (e : Event) : Prop :=
  match e with
  | register id version => objects x.2 !! id = None /\ version <= x.1
  | unregistered id => is_Some (objects x.2 !! id)
  | commit _ version => x.1 <= version <= limit
  | run_worker => True
  end.

(** What the events so far lead to *)
Inductive reachable : Z * state -> Prop :=
| reachable_start newest : newest <= limit -> reachable (newest, mkNotifiers ∅ [] [] 0 None None false [] [])
| reachable_step x e x' : reachable x -> allowed x e -> perform x e = Some x' -> reachable x'.

Lemma start_ok newest : worker_ok newest (mkNotifiers (IS:=IS) ∅ [] [] 0 None None false [] []).
Proof. constructor; cbn; try done; [constructor|by intros id ?%elem_of_nil|by intros id ?%elem_of_nil|by left]. Qed.

(** Only whether a notifier is alive changes. *)
Lemma unregister_ok newest id s : worker_ok newest s -> is_Some (objects s !! id) ->
  exists s', update_notifier id unregister s = Some s' /\ worker_ok newest s'.
Proof.
  intros Hs [n En]. set (g n := mkAsync false (n_version n) (n_sg n) (n_handover n) (n_has_run n) (n_info n)).
  rewrite (update_notifier_spec s id unregister n (g n) En eq_refl), insert_as_alter by done. eexists. split; [done|].
  assert (forall x m, objects s !! x = Some m -> exists m', alter g id (objects s) !! x = Some m' /\ n_version m' = n_version m /\
    n_sg m' = n_sg m /\ n_handover m' = n_handover m /\ n_has_run m' = n_has_run m) as Hobj.
  { intros x m Em. destruct (decide (x = id)) as [->|Hne]; [rewrite lookup_alter_eq, Em; by eexists|].
    rewrite lookup_alter_ne by done. by exists m. }
  destruct Hs as [Hnd Hnew Hold Hadv Hmain Hop Hskip Herr]. constructor; try done.
  - intros x Hx. destruct (Hnew x Hx) as (m & sg & Em & ? & [??] & ?). destruct (Hobj x m Em) as (m' & Em' & Ev & Es & Eh & _).
    exists m', sg. unfold handed_over. rewrite Ev, Es, Eh. done.
  - intros x Hx. destruct (Hold x Hx) as (m & sg & Em & ? & ?). destruct (Hobj x m Em) as (m' & Em' & Ev & Es & Eh & Er).
    exists m', sg. by rewrite Ev, Es, Er.
Qed.

Lemma commit_ok newest version is_for_realm s : worker_ok newest s -> newest <= version -> worker_ok version (commit_skip is_for_realm version s).
Proof.
  intros [Hnd Hnew Hold Hadv Hmain Hop Hskip Herr] Hle. unfold commit_skip.
  assert (m_notifier_skip_version s = 0 \/ m_notifiers s <> [] /\ exists sg, m_notifier_sg s = Some sg /\ h_version sg <= m_notifier_skip_version s <= version) as Hskip'.
  { destruct Hskip as [|[? (sg & ? & ?)]]; [by left|]. right. split; [done|]. exists sg. split; [done|lia]. }
  destruct (existsb is_for_realm (m_notifiers s)) eqn:Ef; constructor; cbn; try done.
  all: try (intros id Hid; destruct (Hnew id Hid) as (n & sg & En & Esg & Hh & Hnv); exists n, sg; split; [exact En|split; [exact Esg|split; [exact Hh|lia]]]).
  all: try (intros sg Esg; destruct (Hadv sg Esg) as [? ?]; split; [done|lia]).
  all: try (intros sg Esg; destruct (Hmain sg Esg) as [? ?]; split; [done|lia]).
  right. destruct (m_notifiers s) as [|id ids]; [done|]. split; [done|]. destruct (Hold id) as (n & sg & _ & Esg & _); [by left|].
  exists sg. split; [done|]. destruct (Hmain sg Esg). lia.
Qed.

Lemma pin_ok newest version s : worker_ok newest s -> version <= newest ->
  exists sg, pin_version true version s = Some (set_advancer (Some sg) s) /\ h_stage sg = transact_Reading /\ h_version sg <= version /\
    forall sg', m_advancer_sg s = Some sg' -> m_new_notifiers s <> [] -> h_version sg <= h_version sg'.
Proof.
  intros Hs Hv. unfold pin_version. rewrite (wo_no_error _ _ Hs). destruct (m_advancer_sg s) as [[stage v]|] eqn:Esg.
  - destruct (wo_advancer _ _ Hs _ Esg) as [Hst _]. cbn in Hst. subst stage. destruct (m_new_notifiers s) as [|id ids] eqn:En.
    + exists (mkHelper transact_Reading version). unfold begin_read. rewrite in_stage_true by done. by split.
    + rewrite bool_decide_eq_false_2, in_stage_true by done. cbn [realm_assert mbind option_bind h_version].
      destruct (Z.ltb_spec version v).
      * exists (mkHelper transact_Reading version). unfold begin_read, end_read. rewrite in_stage_true by done. split; [done|]. split; [done|].
        split; [done|]. intros ? [= <-] _. cbn. lia.
      * exists (mkHelper transact_Reading v). split; [destruct s; cbn in *; by rewrite Esg|]. split; [done|]. split; [done|]. by intros ? [= <-].
  - exists (mkHelper transact_Reading version). by split.
Qed.

Lemma register_ok newest id version s : worker_ok newest s -> objects s !! id = None -> version <= newest ->
  exists s', register_notifier true id (set_objects (<[id := new_notifier version]> (objects s)) s) = Some s' /\ worker_ok newest s'.
Proof.
  intros Hs Eid Hv. set (s0 := set_objects _ s). assert (worker_ok newest s0) as Hs0.
  { assert (forall x m, objects s !! x = Some m -> objects s0 !! x = Some m) as Hobj.
    { intros x m Em. cbn. rewrite lookup_insert_ne; [done|]. by intros ->; rewrite Eid in Em. }
    destruct Hs as [Hnd Hnew Hold Hadv Hmain Hop Hskip Herr]. constructor; try done.
    - intros x Hx. destruct (Hnew x Hx) as (m & sg & Em & ?). exists m, sg. by rewrite (Hobj x m Em).
    - intros x Hx. destruct (Hold x Hx) as (m & sg & Em & ?). exists m, sg. by rewrite (Hobj x m Em). }
  unfold register_notifier. assert (objects s0 !! id = Some (new_notifier version)) as En by (cbn; by rewrite lookup_insert_eq).
  rewrite En. cbn [mbind option_bind n_version new_notifier].
  destruct (pin_ok newest version s0 Hs0 Hv) as (sg & -> & Hst & Hle & Hless). cbn [mbind option_bind]. eexists. split; [done|].
  assert (id ∉ m_new_notifiers s ++ m_notifiers s) as Hid.
  { intros [Hid|Hid]%elem_of_app; [destruct (wo_new _ _ Hs id Hid) as (m & ? & Em & _)|destruct (wo_old _ _ Hs id Hid) as (m & ? & Em & _)];
      by rewrite Eid in Em. }
  clear Hs. destruct Hs0 as [Hnd Hnew Hold Hadv Hmain Hop Hskip Herr].
  constructor; cbn; try done.
  - rewrite <- app_assoc. cbn. rewrite <- Permutation_middle. by constructor.
  - intros x [Hx| ->%list_elem_of_singleton]%elem_of_app.
    + destruct (Hnew x Hx) as (m & sg' & Em & Esg & Hh & Hmv). exists m, sg. split; [done|]. split; [done|]. split; [done|].
        assert (m_new_notifiers s <> []) as Hne by (intros E; rewrite E in Hx; by apply elem_of_nil in Hx).
      specialize (Hless sg' Esg Hne). lia.
    + by exists (new_notifier version), sg.
  - intros sg' [= <-]. split; [|lia]. rewrite Hst. by destruct (m_new_notifiers s).
Qed.

(** Several events *)
Fixpoint allowed_all (es : list Event) (x : Z * state) : Prop :=
  match es with
  | [] => True
  | e :: es => allowed x e /\ match perform x e with Some y => allowed_all es y | None => False end
  end.

Lemma reachable_all es x y : reachable x -> allowed_all es x -> fold_option perform es x = Some y -> reachable y.
Proof.
  revert x. induction es as [|e es IH]; intros x Hx; [by intros _ [= <-]|]. cbn [allowed_all fold_option]. intros [Ha Hes].
  destruct (perform x e) as [z|] eqn:E; [|done]. cbn [mbind option_bind]. apply IH; [|done]. by eapply reachable_step.
Qed.

Section opened.
Context `{LogView IS}.
Hypothesis (Hopens : opens = true) (Hfo : following log_between limit add_required).

Lemma perform_ok newest s e : worker_ok newest s -> newest <= limit -> allowed (newest, s) e ->
  exists x', perform (newest, s) e = Some x' /\ worker_ok x'.1 x'.2 /\ x'.1 <= limit.
Proof.
  intros Hs Hlim Ha. destruct e as [id version|id|is_for_realm version|]; cbn in Ha; unfold perform; rewrite ?Hopens.
  - destruct Ha as [Hid Hv]. destruct (register_ok newest id version s Hs Hid Hv) as (s' & -> & Hs'). exists (newest, s'); split; [done|by split].
  - destruct (unregister_ok newest id s Hs Ha) as (s' & -> & Hs'). exists (newest, s'); split; [done|by split].
  - eexists. split; [done|]. split; [apply (commit_ok newest); [done|apply Ha]|apply Ha].
  - destruct (run_async_spec log_between newest add_required (following_le _ _ _ _ Hlim Hfo) s Hs) as (s' & -> & Hs' & _). exists (newest, s'); split; [done|by split].
Qed.

Lemma reachable_ok x : reachable x -> worker_ok x.1 x.2 /\ x.1 <= limit.
Proof.
  induction 1 as [newest Hlim|[newest s] e x' _ [IH Hlim] Ha E]; [split; [apply start_ok|done]|].
  destruct (perform_ok newest s e IH Hlim Ha) as (y & Ey & Hy). by simplify_eq.
Qed.
End opened.

(** C5: while the worker's shared group can be opened ([opens]), however notifiers
    are registered and unregistered, realms commit and the worker runs, none of
    these operations fails an assertion ([failed_open_breaks_clean_up] is what
    happens when it cannot be opened). It is assumed of the logs that a parsed
    info says where the rows of the tables it asks for were, that no notifier asks
    for lists, and that no two adjacent rows are deleted between two versions
    ([following], which holds of every history of row instructions:
    [following_rows]). The queues keep their invariant: each of the two helper groups reads exactly while its queue
    holds a notifier, at a version no notifier of it is behind. *)
Theorem worker_safe `{LogView IS} x e : opens = true -> following log_between limit add_required ->
  reachable x -> allowed x e -> exists x', perform x e = Some x' /\ worker_ok x'.1 x'.2.
Proof.
  intros Hopens Hfo Hx Ha. destruct x, (reachable_ok Hopens Hfo _ Hx) as [Hok Hlim].
  destruct (perform_ok Hopens Hfo _ _ _ Hok Hlim Ha) as (x' & E & Hx' & _). by exists x'.
Qed.

(** C4: under the assumptions of [worker_safe] - the shared group can be opened,
    each single parsed info follows the rows of its tables, no notifier asks for
    lists, no two adjacent rows are deleted between versions - a run of the worker
    leaves every notifier that is still alive, and no other, in the main queue at
    the newest version, after running it with infos that together follow each row
    of the tables it asked for, with their moves, from the newest version back to
    the version it was last at, however many source versions there are. *)
Theorem worker_reports `{LogView IS} newest s : opens = true -> following log_between limit add_required ->
  reachable (newest, s) -> exists s', perform (newest, s) run_worker = Some (newest, s') /\ ran newest add_required s s'.
Proof.
  intros Hopens Hfo [Hok Hlim]%(reachable_ok Hopens Hfo). unfold perform. rewrite Hopens.
  destruct (run_async_spec log_between newest add_required (following_le _ _ _ _ Hlim Hfo) s Hok) as (s' & -> & _ & Hran). by exists s'.
Qed.
End operations.

(** ** After the file could not be opened *)
Section failed.
Context `{IndexSetLaws IS} `{BuildMode} `{StdSort}.
Abbreviation info := (TransactionChangeInfo IS).
Abbreviation state := (Notifiers IS).
Implicit Types (s : state) (n : AsyncNotifier) (id : nat).
Context (log_between : Z -> Z -> list Instruction) (add_required : nat -> info -> info).
Abbreviation perform := (perform log_between false add_required).

(** The worker's group could not be opened while the other one was reading. *)
Record failed (sg : HelperGroup) s : Prop := {
  fa_error : m_async_error s = true;
  fa_new : m_new_notifiers s = [];
  fa_advancer : m_advancer_sg s = Some sg;
  fa_main : m_notifier_sg s = None
}.

(** A notifier that is registered and unregistered again *)
Definition come_and_gone id version s : state :=
  set_queues [id] (m_notifiers s)
    (set_objects (<[id := mkAsync false version None (Some version) false 0]> (<[id := new_notifier version]> (objects s))) s).

Lemma come_and_go newest id version s sg : failed sg s ->
  fold_option perform [register id version; unregistered id] (newest, s) = Some (newest, come_and_gone id version s).
Proof.
  intros [He Hn Ha Hm]. cbn [fold_option]. set (s1 := set_objects (<[id := new_notifier version]> (objects s)) s).
  assert (perform (newest, s) (register id version) = Some (newest, set_queues [id] (m_notifiers s) s1)) as ->.
  { unfold WorkerSafety.perform, register_notifier, pin_version. fold s1. change (m_async_error s1) with (m_async_error s).
    change (objects s1) with (<[id := new_notifier version]> (objects s)). rewrite lookup_insert_eq, He. cbn [mbind option_bind].
    change (m_new_notifiers s1) with (m_new_notifiers s). by rewrite Hn. }
  cbn [mbind option_bind]. unfold WorkerSafety.perform, update_notifier. cbn [objects set_queues s1 set_objects]. by rewrite lookup_insert_eq.
Qed.

(** Its removal ends the read transaction of the advancer, which no queue asks for. *)
Lemma clean_up_failed id version s sg : failed sg s ->
  clean_up_dead_notifiers (come_and_gone id version s) =
    (if in_stage transact_Reading sg then
       Some (set_queues [] (default [] (fst <$> swap_remove (alive_in (come_and_gone id version s)) (m_notifiers s)))
         (set_advancer (Some (end_read sg)) (come_and_gone id version s)))
     else None).
Proof.
  intros [He Hn Ha Hm]. unfold clean_up_dead_notifiers. set (s1 := come_and_gone id version s).
  change (m_notifiers s1) with (m_notifiers s). destruct (swap_remove_spec (alive_in s1) (m_notifiers s)) as (old & -> & _).
  cbn [mbind option_bind fmap option_fmap option_map fst default from_option]. change (m_notifier_sg (set_queues _ _ _)) with (m_notifier_sg s). rewrite Hm.
  cbn [mbind option_bind m_new_notifiers set_queues].
  change (m_new_notifiers s1) with [id]. change (alive_in (set_queues [id] old s1)) with (alive_in s1).
  assert (alive_in s1 id = false) as Hid by (unfold alive_in; cbn; by rewrite lookup_insert_eq).
  assert (swap_remove (alive_in s1) [id] = Some ([], true)) as ->.
  { unfold swap_remove. cbn. by rewrite Hid. }
  cbn [mbind option_bind]. change (m_advancer_sg _) with (m_advancer_sg s). rewrite Ha. by destruct (in_stage transact_Reading sg).
Qed.

Lemma run_failed newest id version s sg : failed sg s -> h_stage sg = transact_Reading ->
  exists s', perform (newest, come_and_gone id version s) run_worker = Some (newest, s') /\ failed (end_read sg) s'.
Proof.
  intros Hs Hsg. unfold WorkerSafety.perform, run_async_notifiers. rewrite (clean_up_failed id version s sg Hs), in_stage_true by done.
  set (s1 := set_queues [] _ _). assert (failed (end_read sg) s1) as Hs1 by (destruct Hs; by constructor).
  cbn [mbind option_bind]. destruct (_ && _); [by exists s1|]. rewrite (fa_error _ _ Hs1). cbn [mbind option_bind]. rewrite (fa_error _ _ Hs1).
  eexists. split; [done|]. destruct Hs1. by constructor.
Qed.

Lemma first_failure newest s : worker_ok newest s -> m_notifier_sg s = None -> List.filter (alive_in s) (m_new_notifiers s) <> [] ->
  exists sg s', perform (newest, s) run_worker = Some (newest, s') /\ failed sg s' /\ h_stage sg = transact_Reading.
Proof.
  intros Hs Hm Hne. unfold WorkerSafety.perform, run_async_notifiers.
  destruct (clean_up_queues newest s Hs) as (new & old & skip & -> & Hnew & _). rewrite Hm. cbn [mbind option_bind m_notifiers m_new_notifiers m_async_error].
  assert (new <> []) as Hnew' by (intros ->; by apply Permutation_nil in Hnew). rewrite (bool_decide_eq_false_2 (new = [])), andb_false_r by done.
  cbn [open_helper_shared_group m_notifier_sg released fmap option_fmap option_map mbind option_bind m_async_error set_async_error].
  assert (exists sg, m_advancer_sg s = Some sg) as [sg Esg].
  { destruct (List.filter _ _) as [|id ids] eqn:E; [done|]. destruct (wo_new _ _ Hs id) as (n & sg & _ & ? & _); [|by exists sg].
    assert (id ∈ List.filter (alive_in s) (m_new_notifiers s)) as Hid by (rewrite E; by left).
    rewrite list_elem_of_In, List.filter_In, <- list_elem_of_In in Hid. apply Hid. }
  rewrite Esg. exists (mkHelper (stage_for new) (h_version sg)). eexists. split; [done|]. split; [by constructor|]. by destruct new.
Qed.

(** C8: when the worker's group cannot be opened while a notifier waits to join,
    the error empties the queue of new notifiers but leaves their read
    transaction open. Registering and unregistering a notifier then ends that
    transaction, and doing it once more makes the worker's assertion on the
    transaction's stage fail. *)
Theorem failed_open_breaks_clean_up newest s a b va vb : worker_ok newest s -> m_notifier_sg s = None ->
  List.filter (alive_in s) (m_new_notifiers s) <> [] ->
  exists y, fold_option perform [run_worker; register a va; unregistered a; run_worker; register b vb; unregistered b] (newest, s) = Some y /\
    perform y run_worker = None.
Proof.
  intros Hs Hm Hne. destruct (first_failure newest s Hs Hm Hne) as (sg & s1 & E1 & Hs1 & Hsg).
  destruct (run_failed newest a va s1 sg Hs1 Hsg) as (s2 & E2 & Hs2). exists (newest, come_and_gone b vb s2). split.
  - change (fold_option perform ([run_worker] ++ [register a va; unregistered a] ++ [run_worker] ++ [register b vb; unregistered b]) (newest, s) =
      Some (newest, come_and_gone b vb s2)).
    assert (forall x y, perform x run_worker = Some y -> fold_option perform [run_worker] x = Some y) as Hone by (intros x y E; cbn [fold_option]; by rewrite E).
    rewrite fold_option_app, (Hone _ _ E1). cbn [mbind option_bind]. rewrite fold_option_app, (come_and_go newest a va s1 sg Hs1).
    cbn [mbind option_bind]. rewrite fold_option_app, (Hone _ _ E2). cbn [mbind option_bind]. by rewrite (come_and_go newest b vb s2 _ Hs2).
  - unfold WorkerSafety.perform, run_async_notifiers. by rewrite (clean_up_failed b vb s2 _ Hs2).
Qed.
End failed.

(** Removing the dead notifiers of a queue ends, keeps every notifier that is
    alive and no other, whatever was swapped into the freed places, and says
    whether any was removed. *)
Theorem swap_remove_total {A} (alive : A -> bool) (l : list A) : exists kept removed, swap_remove alive l = Some (kept, removed) /\
  kept ≡ₚ List.filter alive l /\ (removed = true <-> exists x, x ∈ l /\ alive x = false).
Proof.
  destruct (swap_remove_spec alive l) as (kept & E & Hk). exists kept, (has_dead alive l). split; [done|]. split; [done|].
  unfold has_dead. rewrite existsb_exists. setoid_rewrite list_elem_of_In. by setoid_rewrite negb_true_iff.
Qed.
