(* ===== verification/WorkerLogs.v ===== *)
(** * The worker on logs of row instructions

    What the worker relies on ([following]) holds of every history of versions
    whose logs are row instructions of top-level tables: where a row comes from
    is what the rows of [LogRows] say, across any number of versions. *)
From stdpp Require Import gmap sorting.
From S2P Require Import Prelude.
From S2P Require Import ChunkedVector.
From S2P Require Import IndexSets.
From S2P Require Import IndexSetInterface.
From S2P Require Import ChangeBuilder.
From S2P Require Import ChangeBuilderFacts.
From S2P Require Import TransactLog.
From S2P Require Import TableRows.
From S2P Require Import LogRows.
From S2P Require Import TransactTheorems.
From S2P Require Import NotifierWorker.
From S2P Require Import WorkerFacts.
From S2P Require Import WorkerTheorems.
From S2P Require Import WorkerSafety.
Import LogObserver.

#[local] Open Scope realm_scope.

(** ** Row instructions do not look at the rows *)
Section natural.
Context (F : row -> row).
Hypothesis (F_new : F new_row = new_row) (F_touch : forall r, F (touch r) = touch (F r)).

Lemma rows_move_over_natural i rows : rows_move_over i (F <$> rows) = F <$> rows_move_over i rows.
Proof.
  unfold rows_move_over. rewrite fmap_last. destruct (last rows); [|done]. cbn.
  by rewrite length_fmap, fmap_take, list_fmap_insert.
Qed.

Lemma rows_swap_natural i j rows : rows_swap i j (F <$> rows) = F <$> rows_swap i j rows.
Proof.
  unfold rows_swap. rewrite !list_lookup_fmap. destruct (rows !! i), (rows !! j); cbn; [|done..]. by rewrite !list_fmap_insert.
Qed.

Lemma row_step_natural (rows : list row) i : row_step (fmap (M:=list) F rows) i = (fmap (M:=list) F) <$> row_step rows i.
Proof.
  destruct i; cbn; try done; rewrite ?length_fmap.
  - case_decide; [|done]. case_match; [|done]. cbn. f_equal. symmetry. apply list_fmap_alter, Forall_forall; by intros ? _.
  - case_match; [|done]. cbn. f_equal. symmetry. apply list_fmap_alter, Forall_forall; by intros ? _.
  - case_match; [|done]. cbn. by rewrite fmap_app, fmap_replicate, F_new.
  - case_match; [|done]. cbn -[replicate]. by rewrite fmap_app, fmap_replicate, F_new.
  - destruct unordered; [|done]. case_match; [|done]. cbn. by rewrite rows_move_over_natural.
  - case_match; [|done]. cbn. by rewrite rows_swap_natural.
Qed.
End natural.

(** ** A log that starts where another one ended *)

(** What a row was before the first log, from what it was before the second *)
Definition relabel_row (before : list row) (r : row) : row :=
  match row_old r ≫= (fun k => if 0 <=? k then before !! Z.to_nat k else None) with
  | Some r0 => mkRow (row_old r0) (row_modified r0 || row_modified r)
  | None => r
  end.

Definition relabel (before : list (list row)) (after : list (list row)) : list (list row) :=
  imap (fun t rows => relabel_row (default [] (before !! t)) <$> rows) after.

Definition relabel_group before (g : group) : group := mkGroup (g_current g) (relabel before (g_tables g)).

Lemma relabel_row_new before : relabel_row before new_row = new_row.
Proof. done. Qed.
Lemma relabel_row_touch before r : relabel_row before (touch r) = touch (relabel_row before r).
Proof. unfold relabel_row. cbn. destruct (row_old r ≫= _); [cbn; by rewrite orb_true_r|done]. Qed.

Lemma relabel_lookup before after t : relabel before after !! t = fmap (M:=list) (relabel_row (default [] (before !! t))) <$> after !! t.
Proof. unfold relabel. by rewrite list_lookup_imap. Qed.

Lemma relabel_insert before after t rows : relabel before (<[t := rows]> after) =
  <[t := relabel_row (default [] (before !! t)) <$> rows]> (relabel before after).
Proof.
  apply list_eq. intros x. rewrite relabel_lookup. destruct (decide (x = t)) as [->|Hne].
  - destruct (decide (t < length after)%nat) as [Hlt|Hge].
    + rewrite !list_lookup_insert_eq; [done|unfold relabel; by rewrite length_imap|done].
    + rewrite !list_insert_ge by (unfold relabel; rewrite ?length_imap; lia). by rewrite relabel_lookup.
  - by rewrite !list_lookup_insert_ne, relabel_lookup by done.
Qed.

Lemma group_step_natural before g i : group_step (relabel_group before g) i = relabel_group before <$> group_step g i.
Proof.
  assert (forall i, (t ← g_current g; rows ← relabel before (g_tables g) !! t; rows ← row_step rows i;
      Some (mkGroup (Some t) (<[t := rows]> (relabel before (g_tables g))))) =
    relabel_group before <$> (t ← g_current g; rows ← g_tables g !! t; rows ← row_step rows i; Some (mkGroup (Some t) (<[t := rows]> (g_tables g))))) as Hrow.
  { clear i. intros i. destruct (g_current g) as [t|]; [|done]. cbn [mbind option_bind]. rewrite relabel_lookup. destruct (g_tables g !! t) as [rows|]; [|done].
    cbn [mbind option_bind fmap option_fmap option_map]. rewrite row_step_natural by (apply relabel_row_new || apply relabel_row_touch).
    destruct (row_step rows i); [|done]. cbn [mbind option_bind fmap option_fmap option_map]. unfold relabel_group. cbn [g_current g_tables].
    by rewrite relabel_insert. }
  destruct i; try apply Hrow. destruct len; [|apply Hrow]. cbn. unfold relabel. rewrite length_imap. by case_match.
Qed.

Lemma log_natural before log g : fold_option group_step log (relabel_group before g) = relabel_group before <$> fold_option group_step log g.
Proof.
  revert g. induction log as [|i log IH]; intros g; [done|]. cbn [fold_option]. rewrite group_step_natural.
  destruct (group_step g i); [|done]. cbn [mbind option_bind fmap option_fmap option_map]. apply IH.
Qed.

(** Before a table is selected no rows can change. *)
Lemma log_selects log c tbls g : fold_option group_step log (mkGroup None tbls) = Some g ->
  exists g', fold_option group_step log (mkGroup c tbls) = Some g' /\ g_tables g' = g_tables g.
Proof.
  destruct log as [|i log]; [intros [= <-]; by eexists|]. cbn [fold_option]. destruct i; try done. destruct len; [|done]. cbn.
  case_match; [|done]. cbn [mbind option_bind]. eauto.
Qed.

Lemma relabel_old (rows : list row) : relabel_row rows <$> old_rows (length rows) = rows.
Proof.
  apply list_eq. intros i. unfold old_rows. rewrite !list_lookup_fmap. destruct (decide (i < length rows)%nat) as [Hi|Hi].
  - rewrite lookup_seq_lt by done. destruct (lookup_lt_is_Some_2 _ _ Hi) as [r Er]. cbn. unfold relabel_row. cbn.
    rewrite (proj2 (Z.leb_le 0 (Z.of_nat i))) by lia. rewrite Nat2Z.id, Er. destruct r as [o m]. cbn. by rewrite orb_false_r.
  - rewrite lookup_seq_ge by lia. cbn. symmetry. apply lookup_ge_None. lia.
Qed.

Lemma relabel_old_group before : relabel_group before (old_group (length <$> before)) = mkGroup None before.
Proof.
  unfold relabel_group, old_group. cbn [g_current g_tables]. f_equal. apply list_eq. intros t. rewrite relabel_lookup, !list_lookup_fmap.
  destruct (before !! t) as [rows|] eqn:E; [|done]. cbn. by rewrite relabel_old.
Qed.

(** The second log, run from where the first one ended *)
Lemma log_from log before c g : fold_option group_step log (old_group (length <$> before)) = Some g ->
  exists g', fold_option group_step log (mkGroup c before) = Some g' /\ g_tables g' = relabel before (g_tables g).
Proof.
  intros E. apply (log_selects log c before (relabel_group before g)). by rewrite <- relabel_old_group, log_natural, E.
Qed.

(** ** Where rows can come from *)
Section origins.
Context (P : row -> Prop).
Hypothesis (P_new : P new_row) (P_touch : forall r, P r -> P (touch r)).

Lemma row_step_forall rows rows' i : Forall P rows -> row_step rows i = Some rows' -> Forall P rows'.
Proof.
  intros Hrows E. destruct i; cbn in E; try done; repeat case_match; simplify_eq; try done.
  all: try (apply Forall_alter; [done|]; intros; by apply P_touch).
  - apply Forall_app. split; [done|]. by apply Forall_replicate.
  - apply Forall_app. split; [done|]. repeat constructor. done.
  - unfold rows_move_over. destruct (last rows) as [r|] eqn:El; [|done]. apply Forall_take, Forall_insert; [done|].
    apply last_Some in El as (l & ->). apply Forall_app in Hrows as [_ Hr]. by apply Forall_cons in Hr as [? _].
  - unfold rows_swap. destruct (rows !! _) eqn:E1, (rows !! Z.to_nat row_ndx_2) eqn:E2; try done.
    rewrite Forall_lookup in Hrows. apply Forall_insert; [apply Forall_insert; [by apply Forall_lookup|by eapply Hrows]|by eapply Hrows].
Qed.
End origins.

Definition within (n : nat) (r : row) : Prop := forall k, row_old r = Some k -> 0 <= k < Z.of_nat n.

Definition origins_within (ns : list nat) (g : group) : Prop :=
  length (g_tables g) = length ns /\ forall t n rows, ns !! t = Some n -> g_tables g !! t = Some rows -> Forall (within n) rows.

Lemma old_origins_within ns : origins_within ns (old_group ns).
Proof.
  split; [cbn; by rewrite length_fmap|]. intros t n rows Hn. cbn. rewrite list_lookup_fmap, Hn. intros [= <-].
  unfold old_rows. apply Forall_fmap, Forall_forall. intros k Hk%elem_of_seq j [= <-]. lia.
Qed.

Lemma group_step_within ns g g' i : origins_within ns g -> group_step g i = Some g' -> origins_within ns g'.
Proof.
  intros [Hlen Hg] E.
  assert ((t ← g_current g; rows ← g_tables g !! t; rows ← row_step rows i; Some (mkGroup (Some t) (<[t := rows]> (g_tables g)))) = Some g' ->
    origins_within ns g') as Hrow.
  { destruct (g_current g) as [t|]; [|done]. cbn [mbind option_bind]. destruct (g_tables g !! t) as [rows|] eqn:Er; [|done]. cbn [mbind option_bind].
    destruct (row_step rows i) as [rows'|] eqn:Es; [|done]. cbn [mbind option_bind]. intros [= <-]. split; [cbn; by rewrite length_insert|].
    intros t' n rows2 Hn. cbn. intros [(-> & <- & _)|[_ E2]]%list_lookup_insert_Some; [|by eapply Hg].
    eapply (row_step_forall (within n)); [done|done|by eapply Hg|done]. }
  destruct i; try by apply Hrow. destruct len; [|by apply Hrow]. cbn in E. case_match; [|done]. by injection E as <-.
Qed.

Lemma log_within ns log g g' : origins_within ns g -> fold_option group_step log g = Some g' -> origins_within ns g'.
Proof.
  revert g. induction log as [|i log IH]; intros g Hg; [by intros [= <-]|]. cbn [fold_option].
  destruct (group_step g i) as [g1|] eqn:E1; [|done]. cbn [mbind option_bind]. by eapply IH, group_step_within.
Qed.

(** ** The info of a parse without lists *)
Section frame.
Context `{IndexSetLaws IS} `{BuildMode}.
Implicit Types (o : TransactLogObserver IS) (i : TransactionChangeInfo IS).

(** No list is observed, and no list or field of the info but the tables changes. *)
Record unlisted (i : TransactionChangeInfo IS) (bs : list (CollectionChangeBuilder IS)) o : Prop := {
  un_lists : lists (TransactLog.m_info o) = [];
  un_builders : m_builders o = bs;
  un_mods : table_modifications_needed (TransactLog.m_info o) = table_modifications_needed i;
  un_moves : table_moves_needed (TransactLog.m_info o) = table_moves_needed i;
  un_active : forall loc, m_active_table o <> Some (InList loc)
}.

Lemma if_active_unlisted i bs f o o' : unlisted i bs o -> if_active (m_active_table o) f o = Some o' -> unlisted i bs o'.
Proof.
  intros [Hl Hb Hm Hv Ha]. destruct (m_active_table o) as [[e t|loc]|] eqn:Et; cbn; [|by destruct (Ha loc)|].
  - destruct (realm_assert _) as [[]|]; [|done]. cbn [mbind option_bind]. destruct (tables _ !! t) as [b|]; [|done]. cbn [mbind option_bind].
    destruct (f b); [|done]. cbn [mbind option_bind]. intros [= <-]. constructor; cbn; try done. by rewrite Et.
  - intros [= <-]. constructor; try done. by rewrite Et.
Qed.

Lemma map_rows_unlisted i bs f o : unlisted i bs o -> unlisted i bs (map_rows f o).
Proof.
  intros Ho. unfold map_rows. destruct (m_is_top_level_table o); [|done]. destruct Ho as [Hl ? ? ? ?]. constructor; cbn; try done. by rewrite Hl.
Qed.

Lemma select_unlisted i bs t path o o' : unlisted i bs o -> on_select_table t 0 path o = Some o' -> unlisted i bs o'.
Proof.
  intros [Hl Hb Hm Hv Ha]. unfold on_select_table, ensure_table. cbn. repeat case_match; intros [= <-]; by constructor.
Qed.

Lemma bind_if_active_unlisted i bs f o o' (k : TransactLogObserver IS -> option (TransactLogObserver IS)) : unlisted i bs o ->
  (forall o1 o2, unlisted i bs o1 -> k o1 = Some o2 -> unlisted i bs o2) ->
  (o ← if_active (m_active_table o) f o; k o) = Some o' -> unlisted i bs o'.
Proof.
  intros Ho Hk. destruct (if_active _ f o) as [o1|] eqn:E; [|done]. cbn [mbind option_bind]. apply Hk. by eapply if_active_unlisted.
Qed.

Lemma without_lists_unlisted i bs l o : unlisted i bs o -> l = [] -> unlisted i bs (set_info (set_lists l (TransactLog.m_info o)) o).
Proof. intros [? ? ? ? ?] ->. by constructor. Qed.

Lemma row_unlisted i bs ins rows rows' o o' : unlisted i bs o -> row_step rows ins = Some rows' -> handle o ins = Handled o' -> unlisted i bs o'.
Proof.
  intros Ho Eg Eh. assert (forall r, handled r = Handled o' -> r = Some o') as Hinv by (intros [r|]; [by intros [= ->]|done]).
  assert (forall row col o1, mark_dirty row col o = Some o1 -> unlisted i bs o1) as Hdirty by (intros row col o1; by apply if_active_unlisted).
  assert (forall row n o1, on_insert_empty_rows row n o = Some o1 -> unlisted i bs o1) as Hinsert.
  { intros row n o1. apply bind_if_active_unlisted; [done|]. intros o2 o3 Ho2 [= <-]. by apply map_rows_unlisted. }
  destruct ins; try done; unfold handle in Eh; cbn [observer_handle mixin_handle] in Eh; apply Hinv in Eh.
  - unfold mark_dirty_instr in Eh. case_decide; [by eapply Hdirty|by simplify_eq].
  - unfold mark_dirty_instr in Eh. rewrite decide_True in Eh by done. by eapply Hdirty.
  - by simplify_eq.
  - by simplify_eq.
  - by eapply Hinsert.
  - by eapply Hinsert.
  - destruct unordered; [|done]. revert Eh. apply bind_if_active_unlisted; [done|]. intros o1 o2 Ho1. destruct (negb _); intros [= <-]; [done|].
    apply without_lists_unlisted; [done|]. by rewrite (un_lists _ _ _ Ho1).
  - unfold on_swap_rows in Eh. destruct (realm_assert _) as [[]|]; [|done]. cbn [mbind option_bind] in Eh.
    destruct (negb _); revert Eh; (apply bind_if_active_unlisted; [done|]); intros o1 o2 Ho1.
    + case_match; [by intros [= <-]|]. by apply if_active_unlisted.
    + intros [= <-]. by apply map_rows_unlisted.
  - revert Eh. apply bind_if_active_unlisted; [done|]. intros o1 o2 Ho1. destruct (negb _); intros [= <-]; [done|].
    apply without_lists_unlisted; [done|]. by rewrite (un_lists _ _ _ Ho1).
Qed.

Lemma log_unlisted i bs log g g' o o' : unlisted i bs o -> fold_option group_step log g = Some g' -> handle_all handle log o = Handled o' ->
  unlisted i bs o'.
Proof.
  revert g o. induction log as [|ins log IH]; intros g o Ho; [by intros _ [= <-]|]. cbn [fold_option handle_all].
  destruct (group_step g ins) as [g1|] eqn:E1; [|done]. cbn [mbind option_bind]. intros E.
  destruct (handle o ins) as [o1| |] eqn:Eh; [|done..]. cbn [outcome_bind]. apply (IH g1); [|done].
  assert (forall A (m : option A) (k : A -> option group), (x ← m; k x) = Some g1 -> exists x, m = Some x /\ k x = Some g1) as Hbind by (intros A [x|] k Ek; [by exists x|done]).
  assert ((t ← g_current g; rows ← g_tables g !! t; rows ← row_step rows ins; Some (mkGroup (Some t) (<[t := rows]> (g_tables g)))) = Some g1 ->
    unlisted i bs o1) as Hrow.
  { intros (t & _ & (rows & _ & (rows' & Es & _)%Hbind)%Hbind)%Hbind. by eapply row_unlisted. }
  destruct ins; try by apply Hrow. destruct len; [|by apply Hrow]. unfold handle in Eh. cbn [observer_handle] in Eh.
  destruct (on_select_table _ _ _ _) as [o2|] eqn:Es; [|done]. injection Eh as <-. by eapply select_unlisted.
Qed.

(** A whole parse *)
Lemma run_unlisted info bs ns log g :
  (forall n, n ∈ ns -> Z.of_nat n <= npos) ->
  tables info = [] -> lists info = [] -> fold_option group_step log (old_group ns) = Some g ->
  exists o, run log (observe info bs) = Handled o /\ unlisted info bs o /\ Forall ok (tables (TransactLog.m_info o)) /\
    forall t n rows, ns !! t = Some n -> g_tables g !! t = Some rows -> watched info t = true -> moves_watched info t = true ->
      completed (Z.of_nat n) rows (table_at (TransactLog.m_info o) t).
Proof.
  intros Hns Ht Hl E.
  destruct (run_refines info ns bs log g Hns Ht) as (o & Er & Hco); [by rewrite Hl|done|].
  exists o. split; [done|]. assert (Hstart : refines info ns (old_group ns) (observe info bs)) by (apply refines_start; [done|done|by rewrite Hl]).
  destruct (log_handled info ns _ _ (observe info bs) log Hns Hstart E) as (o1 & Eh & Hre).
  assert (unlisted info bs o1) as Ho1 by (eapply log_unlisted; [|exact E|exact Eh]; by constructor).
  unfold run in Er. rewrite Eh in Er. cbn [outcome_bind] in Er. unfold parse_complete in Er.
  destruct (complete_tables_spec _ (re_all _ _ _ _ Hre)) as (l & Ec & Hl'). rewrite Ec in Er. cbn [mbind option_bind] in Er.
  change (lists (TransactLog.m_info (set_info (set_tables l (TransactLog.m_info o1)) o1))) with (lists (TransactLog.m_info o1)) in Er.
  rewrite (un_lists _ _ _ Ho1) in Er. injection Er as <-. split; [by destruct Ho1|]. split; [|intros t n rows Hn Hr Hw Hm; by apply Hco]. cbn.
  clear -Hl' Hre. pose proof (re_all _ _ _ _ Hre) as Hall. induction Hl' as [|b b' l1 l2 Eb Hl IH]; [constructor|].
  apply Forall_cons in Hall as [(N & track_moves & rows & Hb) Hall]. constructor; [|by apply IH].
  destruct (recorded_complete N track_moves rows b Hb) as (b2 & Eb2 & Hb2 & _). by assert (b' = b2) as -> by congruence.
Qed.
End frame.

(** ** Histories of row instructions *)
Section history.
Context `{IndexSetLaws IS} `{BuildMode} `{StdSort}.
Abbreviation info := (TransactionChangeInfo IS).
(** The log of each version, the sizes of the tables at it, and the infos the
    notifiers build *)
Context (log : Z -> list Instruction) (sizes : Z -> list nat) (newest : Z) (built : info -> Prop).

Definition log_between (v w : Z) : list Instruction := concat (log <$> seqZ v (w - v)).

Definition rows_between (v w : Z) : option (list (list row)) :=
  g_tables <$> fold_option group_step (log_between v w) (old_group (sizes v)).

(** The row at a position of a table *)
Definition row_at (tbls : list (list row)) (t : nat) (p : Z) : option row :=
  rows ← tbls !! t; if 0 <=? p then rows !! Z.to_nat p else None.

#[local] Instance row_view : LogView IS := {
  good i := built i /\ track_all i = false;
  wants i t := flag (table_modifications_needed i) t = true /\ flag (table_moves_needed i) t = true;
  valid w t p := exists n, sizes w !! t = Some n /\ 0 <= p < Z.of_nat n;
  moved v w t p := tbls ← rows_between v w; r ← row_at tbls t p; row_old r
}.

(** Each log is one of row instructions that leads to the next version's sizes;
    what is deleted between versions are single rows, as the merge of change sets
    asks. *)
Record history : Prop := {
  hi_log v : v < newest -> exists g, fold_option group_step (log v) (old_group (sizes v)) = Some g /\ length <$> g_tables g = sizes (v + 1);
  hi_size v n : n ∈ sizes v -> Z.of_nat n <= npos;
  hi_short v w i bs o : good i -> tables i = [] -> lists i = [] -> v < w <= newest ->
    run (log_between v w) (observe i bs) = Handled o -> Forall (fun b => ix_short (deletions b)) (tables (TransactLog.m_info o))
}.
Hypothesis Hhi : history.

Lemma relabel_sizes before after : length <$> relabel before after = length <$> after.
Proof.
  apply list_eq. intros t. rewrite !list_lookup_fmap, relabel_lookup. destruct (after !! t); [|done]. cbn. by rewrite length_fmap.
Qed.

Lemma log_between_app u v w : u <= v <= w -> log_between u w = log_between u v ++ log_between v w.
Proof.
  intros Hv. unfold log_between. rewrite <- concat_app, <- fmap_app. do 2 f_equal.
  replace (w - u) with ((v - u) + (w - v)) by lia. rewrite seqZ_app by lia. do 2 f_equal. lia.
Qed.

Lemma rows_compose u v w before after : u <= v <= w -> rows_between u v = Some before -> length <$> before = sizes v ->
  rows_between v w = Some after -> rows_between u w = Some (relabel before after).
Proof.
  unfold rows_between. intros Hv Eb Hsz Ea. rewrite (log_between_app u v w) by done. rewrite fold_option_app.
  destruct (fold_option group_step (log_between u v) _) as [[c tbls]|]; [|done]. injection Eb as ->. cbn [mbind option_bind].
  destruct (fold_option group_step (log_between v w) (old_group (sizes v))) as [g|] eqn:Eg; [|done]. injection Ea as <-.
  rewrite <- Hsz in Eg. destruct (log_from _ before c g Eg) as (g' & -> & <-). done.
Qed.

(** The log between any two versions is one of row instructions. *)
Lemma rows_between_some v w : v <= w <= newest -> exists tbls, rows_between v w = Some tbls /\ length <$> tbls = sizes w.
Proof.
  intros [Hle Hw]. revert w Hle Hw. refine (Zlt_lower_bound_ind _ v _). intros w IH Hle Hw. destruct (decide (w = v)) as [->|Hne].
  - exists (old_rows <$> sizes v). unfold rows_between, log_between. rewrite Z.sub_diag. split; [done|].
    rewrite <- list_fmap_compose. rewrite <- (list_fmap_id (sizes v)) at 2. apply list_fmap_ext. intros i n _. cbn. unfold old_rows. by rewrite length_fmap, length_seq.
  - destruct (IH (w - 1)) as (before & Eb & Hsz); [lia..|]. destruct (hi_log Hhi (w - 1)) as (g & Eg & Hg); [lia|].
    assert (rows_between (w - 1) w = Some (g_tables g)) as Ea.
    { unfold rows_between, log_between. replace (w - (w - 1)) with 1 by lia. rewrite (seqZ_cons _ 1) by lia.
      change (seqZ _ (Z.pred 1)) with (@nil Z). cbn [fmap list_fmap map concat]. by rewrite app_nil_r, Eg. }
    exists (relabel before (g_tables g)). split; [by apply (rows_compose v (w - 1) w); [lia|..]|].
    rewrite relabel_sizes, Hg. f_equal. lia.
Qed.

Lemma valid_row w t p tbls : length <$> tbls = sizes w -> valid w t p -> exists rows r, tbls !! t = Some rows /\
  row_at tbls t p = Some r /\ rows !! Z.to_nat p = Some r.
Proof.
  intros Hsz (n & En & Hp). rewrite <- Hsz, list_lookup_fmap in En. unfold row_at. destruct (tbls !! t) as [rows|]; [|done]. injection En as <-.
  exists rows. cbn [mbind option_bind]. rewrite (proj2 (Z.leb_le 0 p)) by lia. destruct (lookup_lt_is_Some_2 rows (Z.to_nat p)) as [r Er]; [lia|]. by exists r.
Qed.

Lemma row_at_relabel before after t p r : row_at after t p = Some r -> row_at (relabel before after) t p = Some (relabel_row (default [] (before !! t)) r).
Proof.
  unfold row_at. rewrite relabel_lookup. destruct (after !! t) as [rows|]; [|done]. cbn [mbind option_bind fmap option_fmap option_map].
  destruct (0 <=? p); [|done]. rewrite list_lookup_fmap. by intros ->.
Qed.

(** Where a row was at the start of both logs *)
Lemma moved_compose u v w t p : u <= v <= w -> w <= newest -> valid w t p ->
  moved u w t p = (moved v w t p ≫= moved u v t) /\ (forall q, moved v w t p = Some q -> valid v t q).
Proof.
  intros Hv Hw Hp. cbn [moved row_view]. destruct (rows_between_some u v) as (before & Eb & Hb); [lia|]. destruct (rows_between_some v w) as (after & Ea & Ha); [lia|].
  rewrite (rows_compose u v w before after Hv Eb Hb Ea), Eb, Ea. cbn [mbind option_bind].
  destruct (valid_row w t p after Ha Hp) as (rows & r & Et & Er & Ei). rewrite (row_at_relabel before after t p r Er), Er. cbn [mbind option_bind].
  assert (forall q, row_old r = Some q -> valid v t q) as Hwithin.
  { intros q Eq. unfold rows_between in Ea. destruct (fold_option _ _ _) as [g|] eqn:Eg; [|done]. injection Ea as Eg'. subst after.
    destruct (log_within _ _ _ g (old_origins_within (sizes v)) Eg) as [Hlen Hin].
    destruct (lookup_lt_is_Some_2 (sizes v) t) as [n En]; [rewrite <- Hlen; by eapply lookup_lt_Some|]. exists n. split; [done|].
    specialize (Hin t n rows En Et). rewrite Forall_lookup in Hin. by eapply Hin. }
  split; [|done]. unfold relabel_row. destruct (row_old r) as [q|] eqn:Eq; [|cbn; by rewrite Eq]. destruct (Hwithin q eq_refl) as (n & En & Hq).
  destruct (valid_row v t q before Hb) as (rows' & r' & Et' & Er' & Ei'); [by exists n|]. cbn [mbind option_bind]. rewrite Et', Er'. cbn [default from_option].
  rewrite (proj2 (Z.leb_le 0 q)) by lia. change (id rows') with rows'. by rewrite Ei'.
Qed.

Lemma parse_follows v w i bs : good i -> tables i = [] -> lists i = [] -> v < w <= newest -> exists o,
    run (log_between v w) (observe i bs) = Handled o /\ m_builders o = bs /\ lists (TransactLog.m_info o) = [] /\
    table_modifications_needed (TransactLog.m_info o) = table_modifications_needed i /\
    table_moves_needed (TransactLog.m_info o) = table_moves_needed i /\
    Forall mergeable (tables (TransactLog.m_info o)) /\
    forall t p, wants i t -> valid w t p -> tracks (table_at (TransactLog.m_info o) t) p = moved v w t p.
Proof.
  intros Hg Ht Hl Hw. destruct (rows_between_some v w) as (after & Ea & Ha); [lia|]. cbn [moved row_view]. rewrite Ea.
  unfold rows_between in Ea. destruct (fold_option _ _ _) as [g|] eqn:Eg; [|done]. injection Ea as Ea. subst after.
  destruct (run_unlisted i bs (sizes v) (log_between v w) g) as (o & Er & [Hol Hob Hom Hov _] & Hok & Hco);
    [apply (hi_size Hhi)|done|done|done|].
  exists o. repeat (split; [done|]). split.
  - pose proof (hi_short Hhi v w i bs o Hg Ht Hl Hw Er) as Hs. clear -Hok Hs. induction Hok; [constructor|]. apply Forall_cons in Hs as [? ?]. constructor; [done|auto].
  - intros t p Hwant Hp. destruct (valid_row w t p _ Ha Hp) as (rows & r & Et & Er' & Ei). cbn [mbind option_bind]. rewrite Er'. cbn [mbind option_bind].
    destruct (lookup_lt_is_Some_2 (sizes v) t) as [n En].
    { destruct (log_within _ _ _ g (old_origins_within (sizes v)) Eg) as [<- _]. by eapply lookup_lt_Some. }
    cbn in Hwant. destruct Hwant as [Hmods Hmoves].
    destruct (Hco t n rows En Et) as [_ _ _ Hrows _]; [unfold watched; by rewrite Hmods, orb_true_r|unfold moves_watched; by rewrite Hmoves, orb_true_r|].
    destruct Hp as (m & _ & Hp). destruct (Hrows _ _ Ei) as [E _]. by rewrite Z2Nat.id in E by lia.
Qed.

(** What the worker asks of the logs holds of such a history. *)
Lemma following_rows add_required :
  good empty_info ->
  (forall id i, good i -> good (add_required id i) /\ lists (add_required id i) = lists i /\ tables (add_required id i) = tables i /\
     forall t, wants i t -> wants (add_required id i) t) ->
  (forall i i', good i -> table_modifications_needed i' = table_modifications_needed i -> table_moves_needed i' = table_moves_needed i ->
     lists i' = lists i -> built (next_info i')) ->
  following log_between newest add_required.
Proof.
  intros Hempty Hreq Hnext. constructor.
  - intros v t p (n & _ & Hp). lia.
  - intros v t p (n & En & Hp). cbn [moved row_view]. unfold rows_between, log_between. rewrite Z.sub_diag.
    cbn [fmap list_fmap map concat fold_option option_fmap option_map old_group g_tables mbind option_bind]. unfold row_at.
    change (seqZ v 0) with (@nil Z). cbn. rewrite list_lookup_fmap, En. cbn. rewrite (proj2 (Z.leb_le 0 p)) by lia. unfold old_rows.
    rewrite list_lookup_fmap, lookup_seq_lt by lia. cbn. f_equal. lia.
  - intros u v w t p. apply moved_compose.
  - done.
  - done.
  - intros i i' Hi Em Ev El. split.
    + split; [by eapply Hnext|done].
    + intros t. cbn. by rewrite Em, Ev.
  - intros i t Hi [Hw _]. destruct (table_modifications_needed i); [done|]. by rewrite bool_decide_eq_false_2, andb_false_r by done.
  - intros v w i bs. apply parse_follows.
Qed.
End history.

(** ** A history of two commits: a row is inserted, then another one, and the
    first one is erased. *)
Section example.
#[local] Existing Instance debug_chunk_size.
#[local] Instance debug_build_worker : BuildMode := {| realm_debug := true |}.
Abbreviation info := (TransactionChangeInfo crv).

Definition sample_log (v : Z) : list Instruction :=
  if v =? 0 then [select_table 0 0 []; insert_empty_rows 0 1 0 false]
  else if v =? 1 then [select_table 0 0 []; insert_empty_rows 1 1 1 false; erase_rows 0 1 2 true]
  else [].
Definition sample_sizes (v : Z) : list nat := [if v <? 1 then 0%nat else 1%nat].

(** Every notifier follows the table. *)
Definition require_table (_ : nat) (i : info) : info := set_needed [true] [true] i.
Definition wish : info := require_table 0 empty_info.
Definition sample_built (i : info) : Prop := i = empty_info \/ i = wish.

#[local] Instance sample_view : LogView crv := row_view sample_log sample_sizes sample_built.
Abbreviation sample_between := (log_between sample_log).

Lemma sample_quiet v w : w <= 0 -> sample_between v w = [].
Proof.
  intros Hw. unfold log_between. apply concat_nil_Forall, Forall_fmap, Forall_forall. intros u Hu%elem_of_seqZ. cbn. unfold sample_log.
  rewrite (proj2 (Z.eqb_neq u 0)), (proj2 (Z.eqb_neq u 1)) by lia. done.
Qed.

Lemma sample_between_cases v w : v < w <= 2 ->
  sample_between v w ∈ [[]; sample_log 0; sample_log 1; sample_log 0 ++ sample_log 1].
Proof.
  intros Hw. destruct (decide (w <= 0)); [rewrite sample_quiet by done; by left|].
  assert (sample_between v w = sample_between (Z.max v 0) w) as ->.
  { destruct (decide (v < 0)); [|by replace (Z.max v 0) with v by lia]. rewrite (log_between_app _ v 0 w), sample_quiet by lia. by replace (Z.max v 0) with 0 by lia. }
  assert (w = 1 \/ w = 2) as [->| ->] by lia; [replace (Z.max v 0) with 0 by lia; by right; left|].
  assert (Z.max v 0 = 0 \/ Z.max v 0 = 1) as [->| ->] by lia; [by do 3 right; left|by do 2 right; left].
Qed.

Lemma sample_history : history sample_log sample_sizes 2 sample_built.
Proof.
  constructor.
  - intros v Hv. destruct (decide (v < 0)).
    + exists (old_group [0%nat]). unfold sample_log, sample_sizes. rewrite (proj2 (Z.eqb_neq v 0)), (proj2 (Z.eqb_neq v 1)), !(proj2 (Z.ltb_lt _ 1)) by lia. done.
    + assert (v = 0 \/ v = 1) as [->| ->] by lia; by eexists.
  - intros v n ->%list_elem_of_singleton. unfold npos. by case_match.
  - intros v w i bs o (Hi & _) _ _ Hw E. pose proof (sample_between_cases v w Hw) as Hcases. revert E.
    set (log := sample_between v w) in *. clearbody log. clear v w Hw.
    destruct Hi as [->| ->]; repeat (apply elem_of_cons in Hcases as [->|Hcases]; [vm_compute; intros [= <-]; vm_compute; repeat constructor|]);
      by apply elem_of_nil in Hcases.
Qed.

Lemma sample_following : following sample_between 2 require_table.
Proof.
  apply following_rows.
  - exact sample_history.
  - split; [by left|done].
  - intros id i (Hi & Ht). split; [|split; [done|split; [done|]]].
    + split; [|done]. right. by destruct Hi as [->| ->].
    + intros t Hw. cbn in Hw |- *. destruct Hi as [->| ->]; [by destruct t|done].
  - intros i i' (Hi & _) Em Ev El. unfold sample_built, wish, require_table, set_needed, next_info. rewrite Em, Ev, El.
    destruct Hi as [->| ->]; [by left|by right].
Qed.

(** The first notifier comes with the empty table and is run once, then the
    second one comes with the first row; both commits are still to be reported. *)
Definition sample_events : list Event :=
  [register 1 0; run_worker; commit (fun _ => false) 1; register 2 1; commit (fun _ => false) 2].
Definition sample_start : Z * Notifiers crv := (0, mkNotifiers ∅ [] [] 0 None None false [] []).
Definition sample_state : Z * Notifiers crv :=
  default sample_start (fold_option (perform sample_between true require_table) sample_events sample_start).

Lemma sample_reachable : reachable sample_between true require_table 2 (2, sample_state.2).
Proof.
  apply (reachable_all _ _ _ _ sample_events sample_start); [by constructor| |by vm_compute].
  vm_compute. repeat split; discriminate.
Qed.

Lemma worker_safe_witness : exists x', perform sample_between true require_table (2, sample_state.2) (register 3 2) = Some x' /\ worker_ok x'.1 x'.2.
Proof. apply (worker_safe sample_between true require_table 2); [done|exact sample_following|exact sample_reachable|by vm_compute]. Defined.

Lemma worker_reports_witness : exists s', perform sample_between true require_table (2, sample_state.2) run_worker = Some (2, s') /\
  ran 2 require_table sample_state.2 s'.
Proof. apply (worker_reports sample_between true require_table 2); [done|exact sample_following|exact sample_reachable]. Defined.

(** What the infos of that run say: the first row of the table is the row
    inserted by the second commit, and the erased row is reported to the notifier
    that knew it. *)
Lemma sample_run : (fun x => (x.1, (fun b => (ranges (deletions b), ranges (insertions b))) <$> tables x.2)) <$>
  runs (default sample_start (perform sample_between true require_table (2, sample_state.2) run_worker)).2 =
  [(1%nat, []); (2%nat, [([(0, 1)], [(0, 1)])]); (1%nat, [([], [(0, 1)])])].
Proof. by vm_compute. Qed.

Lemma failed_open_breaks_clean_up_witness : let s := (default sample_start (perform sample_between true require_table sample_start (register 1 0))).2 in
  exists y, fold_option (perform sample_between false require_table)
      [run_worker; register 5 0; unregistered 5; run_worker; register 6 0; unregistered 6] (0, s) = Some y /\
    perform sample_between false require_table y run_worker = None.
Proof.
  apply (failed_open_breaks_clean_up sample_between require_table).
  - assert (reachable sample_between true require_table 2 (0, (default sample_start (perform sample_between true require_table sample_start (register 1 0))).2)) as Hx.
    { apply (reachable_all _ _ _ _ [register 1 0] sample_start); [by constructor|by vm_compute|by vm_compute]. }
    by apply (reachable_ok _ _ _ _ eq_refl sample_following _ Hx).
  - by vm_compute.
  - by vm_compute.
Defined.
End example.
