(* ===== verification/SyncFiles.v ===== *)
(** * The files of synchronized Realms

    [sync/impl/sync_file.cpp]: percent-encoded names, how paths are put together,
    and [SyncFileManager], which knows where the Realms of the users are. The
    file system is what [util/file.hpp] documents, on a disk whose state is a
    parameter; a [std::string] is a sequence of [char]s. *)
From Stdlib Require Import Ascii.
From stdpp Require Import strings.
From S2P Require Import Prelude.
From S2P Require Import ChangeBuilder.
From S2P Require Import Effects.

#[local] Open Scope string_scope.
#[local] Open Scope Z_scope.

(** What is thrown: [std::invalid_argument], and the exceptions of [util::File] *)
Inductive FileError := invalid_argument | AccessError | PermissionDenied | NotFound | Exists | other_exception.

#[global] Instance FileError_eq_dec : EqDecision FileError.
Proof. solve_decision. Defined.

(** The exceptions derived from [File::AccessError] *)
Definition is_access_error (e : FileError) : bool :=
  match e with AccessError | PermissionDenied | NotFound | Exists => true | _ => false end.

(** ** Characters *)
Definition char_code (c : Ascii.ascii) : Z := Z.of_N (Ascii.N_of_ascii c).
Definition char_of_code (n : Z) : Ascii.ascii := Ascii.ascii_of_N (Z.to_N n).

Definition between (lo hi c : Ascii.ascii) : bool := (char_code lo <=? char_code c) && (char_code c <=? char_code hi).

Definition value_of_hex_digit (hex_digit : Ascii.ascii) : option Z :=
  if between "0" "9" hex_digit then Some (char_code hex_digit - char_code "0")
  else if between "A" "F" hex_digit then Some (10 + char_code hex_digit - char_code "A")
  else if between "a" "f" hex_digit then Some (10 + char_code hex_digit - char_code "a")
  else None.

Definition filename_is_reserved (filename : string) : bool :=
  bool_decide (filename = ".") || bool_decide (filename = "..").

Definition character_is_unreserved (character : Ascii.ascii) : bool :=
  between "A" "Z" character || between "a" "z" character || between "0" "9" character ||
  (bool_decide (character = "-"%char) || bool_decide (character = "_"%char) || bool_decide (character = "."%char)).

(** ** Percent encoding *)

(** A hexadecimal digit of [printf]'s [X] *)
Definition hex_digit (n : Z) : Ascii.ascii :=
  if n <? 10 then char_of_code (char_code "0" + n) else char_of_code (char_code "A" + (n - 10)).

(** [sprintf(..., "%%%2X", character)]: two places, filled with a space *)
Definition percent_2X (character : Ascii.ascii) : string :=
  let n := char_code character in
  String "%" (String (if n <? 16 then " "%char else hex_digit (n / 16)) (String (hex_digit (n mod 16)) EmptyString)).

Fixpoint make_percent_encoded_string (raw_string : string) : string :=
  match raw_string with
  | EmptyString => EmptyString
  | String character rest =>
    (if character_is_unreserved character then String character EmptyString else percent_2X character) +:+
    make_percent_encoded_string rest
  end.

(** The character after a percent sign; [None] is [std::invalid_argument]. *)
Definition decoded_char_for (first second : Ascii.ascii) : option Ascii.ascii :=
  x ← value_of_hex_digit first;
  y ← value_of_hex_digit second;
  Some (char_of_code ((16 * x + y) mod 256)).

(** [None] is [std::invalid_argument]. *)
Fixpoint make_raw_string (percent_encoded_string : string) : option string :=
  match percent_encoded_string with
  | EmptyString => Some EmptyString
  | String current rest =>
    if bool_decide (current = "%"%char) then
      match rest with
      | String first (String second rest) =>
        c ← decoded_char_for first second; buffer ← make_raw_string rest; Some (String c buffer)
      | _ => None
      end
    else if negb (character_is_unreserved current) then None
    else buffer ← make_raw_string rest; Some (String current buffer)
  end.

(** ** Paths *)
Inductive FilePathType := File | Directory.

(** [s[s.length() - 1]]: there is none in an empty string. *)
Definition last_char (s : string) : option Ascii.ascii := String.get (String.length s - 1) s.
(** [s[0]]: the terminating zero, if the string is empty *)
Definition first_char (s : string) : Ascii.ascii := default Ascii.zero (String.get 0 s).
(** [s.substr(1)] *)
Definition substr_1 (s : string) : string := match s with EmptyString => EmptyString | String _ s => s end.

(** [None] is an access outside a string. *)
Definition file_path_by_appending_component (path component : string) (path_type : FilePathType) : option string :=
  terminal ← match path_type with
             | Directory => c ← last_char component; Some (if bool_decide (c = "/"%char) then EmptyString else "/")
             | File => Some EmptyString
             end;
  path_last ← last_char path;
  let component_first := first_char component in
  Some (path +:+
    (if bool_decide (path_last = "/"%char) && bool_decide (component_first = "/"%char) then substr_1 component +:+ terminal
     else if bool_decide (path_last = "/"%char) || bool_decide (component_first = "/"%char) then component +:+ terminal
     else "/" +:+ component +:+ terminal)).

Definition file_path_by_appending_extension (path extension : string) : option string :=
  path_last ← last_char path;
  let extension_first := first_char extension in
  Some (path +:+
    (if bool_decide (path_last = "."%char) && bool_decide (extension_first = "."%char) then substr_1 extension
     else if bool_decide (path_last = "."%char) || bool_decide (extension_first = "."%char) then extension
     else "." +:+ extension)).

(** [local_time] is the formatted time. *)
Definition create_timestamped_template (local_time prefix : string) (wildcard_count : Z) : string :=
  let WILDCARD_MAX := 20 in
  let WILDCARD_MIN := 6 in
  let wildcard_count := Z.min WILDCARD_MAX (Z.max WILDCARD_MIN wildcard_count) in
  prefix +:+ "-" +:+ local_time +:+ "-" +:+ foldr String EmptyString (replicate (Z.to_nat wildcard_count) "X"%char).

(** ** The file system *)
Class Disk (D : Type) := {
  try_make_dir : string -> Prog D FileError bool;
  try_remove : string -> Prog D FileError bool;
  try_remove_dir_recursive : string -> Prog D FileError bool;
  exists_ : string -> Prog D FileError bool;
  copy : string -> string -> Prog D FileError ();
  move : string -> string -> Prog D FileError ()
}.

(** ** [SyncFileManager] *)
Section manager.
Context `{Disk D} `{BuildMode}.
Abbreviation P := (Prog D FileError).
(** [m_base_path] *)
Context (base_path : string).

Definition c_sync_directory : string := "realm-object-server".
Definition c_utility_directory : string := "io.realm.object-server-utility".
Definition c_recovery_directory : string := "io.realm.object-server-recovered-realms".
Definition c_metadata_directory : string := "metadata".
Definition c_metadata_realm : string := "sync_metadata.realm".

(** An access outside a string crashes. *)
Definition or_crash {A} (x : option A) : P A := match x with Some a => mret a | None => fails end.
Definition appending (path component : string) (path_type : FilePathType) : P string :=
  or_crash (file_path_by_appending_component path component path_type).

Definition get_base_sync_directory : P string :=
  sync_path ← appending base_path c_sync_directory Directory;
  _ ← try_make_dir sync_path;
  mret sync_path.

Definition get_special_directory (directory_name : string) : P string :=
  dir ← get_base_sync_directory;
  dir_path ← appending dir directory_name Directory;
  _ ← try_make_dir dir_path;
  mret dir_path.

Definition get_utility_directory : P string := get_special_directory c_utility_directory.
Definition recovery_directory_path : P string := get_special_directory c_recovery_directory.

Definition nonempty (s : string) : bool := negb (bool_decide (s = EmptyString)).

(** Where a user's directory is *)
Definition user_path (local_identity : string) : P string :=
  _ ← assert (nonempty local_identity);
  let escaped := make_percent_encoded_string local_identity in
  if filename_is_reserved escaped then raise invalid_argument
  else dir ← get_base_sync_directory; appending dir escaped Directory.

Definition user_directory (local_identity : string) : P string :=
  user_path ← user_path local_identity;
  _ ← try_make_dir user_path;
  mret user_path.

Definition remove_user_directory (local_identity : string) : P () :=
  user_path ← user_path local_identity;
  _ ← try_remove_dir_recursive user_path;
  mret ().

Definition try_rename_user_directory (old_name new_name : string) : P bool :=
  _ ← assert (negb realm_debug || nonempty old_name && nonempty new_name);
  let old_name_escaped := make_percent_encoded_string old_name in
  let new_name_escaped := make_percent_encoded_string new_name in
  base ← get_base_sync_directory;
  if filename_is_reserved old_name_escaped || filename_is_reserved new_name_escaped then raise invalid_argument
  else
    old_path ← appending base old_name_escaped Directory;
    new_path ← appending base new_name_escaped Directory;
    catch (_ ← move old_path new_path; mret true) (fun e => if bool_decide (e = NotFound) then Some (mret false) else None).

(** [remove_realm(absolute_path)] *)
Definition remove_realm_at (absolute_path : string) : P bool :=
  _ ← assert (nonempty absolute_path);
  _ ← try_remove absolute_path;
  lock_path ← or_crash (file_path_by_appending_extension absolute_path "lock");
  success ← try_remove lock_path;
  management_path ← or_crash (file_path_by_appending_extension absolute_path "management");
  catch (_ ← try_remove_dir_recursive management_path; mret success)
    (fun e => if is_access_error e then Some (mret false) else None).

Definition copy_realm_file (old_path new_path : string) : P bool :=
  _ ← assert (nonempty old_path);
  catch (found ← exists_ new_path; if (found : bool) then mret false else _ ← copy old_path new_path; mret true)
    (fun e => if is_access_error e then Some (mret false) else None).

(** Where a user's Realm is *)
Definition path (local_identity raw_realm_path : string) : P string :=
  _ ← assert (nonempty local_identity);
  _ ← assert (nonempty raw_realm_path);
  if filename_is_reserved local_identity || filename_is_reserved raw_realm_path then raise invalid_argument
  else
    let escaped := make_percent_encoded_string raw_realm_path in
    dir ← user_directory local_identity;
    appending dir escaped File.

(** [remove_realm(local_identity, raw_realm_path)] *)
Definition remove_realm (local_identity raw_realm_path : string) : P bool :=
  realm_path ← path local_identity raw_realm_path;
  remove_realm_at realm_path.

Definition metadata_path : P string :=
  dir ← get_utility_directory;
  dir_path ← appending dir c_metadata_directory Directory;
  _ ← try_make_dir dir_path;
  appending dir_path c_metadata_realm File.

Definition remove_metadata_realm : P bool :=
  dir ← get_utility_directory;
  dir_path ← appending dir c_metadata_directory Directory;
  catch (_ ← try_remove_dir_recursive dir_path; mret true) (fun e => if is_access_error e then Some (mret false) else None).
End manager.

(** ** The files of synchronized Realms: the theorems

    Percent encoding gives different names to different strings, and is undone
    except for the characters it pads with a space; users and Realms never share
    a path; what the results of the file operations mean. *)
#[local] Open Scope string_scope.
#[local] Open Scope Z_scope.

(** ** Characters, one by one *)
Definition all_chars : list ascii := char_of_code <$> seqZ 0 256.

Lemma char_code_range c : 0 <= char_code c < 256.
Proof. unfold char_code. pose proof (N_ascii_bounded c). lia. Qed.

Lemma char_of_char_code c : char_of_code (char_code c) = c.
Proof. unfold char_of_code, char_code. rewrite N2Z.id. apply ascii_N_embedding. Qed.

(** What holds of every character is checked by looking at all of them. *)
Lemma all_chars_forall (f : ascii -> bool) : forallb f all_chars = true -> forall c, f c = true.
Proof.
  intros Hf c. rewrite forallb_forall in Hf. apply Hf. unfold all_chars. apply list_elem_of_In, list_elem_of_fmap.
  exists (char_code c). split; [by rewrite char_of_char_code|]. apply elem_of_seqZ. pose proof (char_code_range c). lia.
Qed.

Ltac check_char c :=
  match goal with
  | |- ?g = true =>
    let f := eval pattern c in g in
    match f with ?h c => apply (all_chars_forall h); by vm_compute end
  end.

(** A character that is encoded and decoded *)
Definition round_trips (c : ascii) : bool := character_is_unreserved c || (16 <=? char_code c).

Definition encoded_char (c : ascii) : string := if character_is_unreserved c then String c EmptyString else percent_2X c.

Lemma unreserved_not_percent c : character_is_unreserved c = true -> c <> "%"%char.
Proof. intros Hc ->. done. Qed.

(** The characters of an encoded string: none is a slash *)
Definition name_char (c : ascii) : bool := character_is_unreserved c || bool_decide (c = "%"%char) || bool_decide (c = " "%char).

Fixpoint forall_chars (f : ascii -> bool) (s : string) : bool :=
  match s with EmptyString => true | String c s => f c && forall_chars f s end.

Lemma forall_chars_app f s t : forall_chars f (s +:+ t) = forall_chars f s && forall_chars f t.
Proof. induction s as [|c s IH]; [done|]. change (String c s +:+ t) with (String c (s +:+ t)). cbn [forall_chars]. by rewrite IH, andb_assoc. Qed.

Lemma encoded_char_names c : forall_chars name_char (encoded_char c) = true.
Proof. check_char c. Qed.

Lemma encoded_names s : forall_chars name_char (make_percent_encoded_string s) = true.
Proof. induction s as [|c s IH]; [done|]. cbn [make_percent_encoded_string]. rewrite forall_chars_app, IH, andb_true_r. apply encoded_char_names. Qed.

(** The two characters after a percent sign *)
Definition digits_of (c : ascii) : ascii * ascii :=
  (if char_code c <? 16 then " "%char else hex_digit (char_code c / 16), hex_digit (char_code c mod 16)).

Lemma percent_2X_digits c : percent_2X c = String "%" (String (digits_of c).1 (String (digits_of c).2 EmptyString)).
Proof. done. Qed.

Lemma decode_digits c : decoded_char_for (digits_of c).1 (digits_of c).2 = if 16 <=? char_code c then Some c else None.
Proof.
  apply (proj1 (bool_decide_eq_true _)). check_char c.
Qed.

(** The decoder undoes one encoded character. *)
Lemma make_raw_encoded c rest : make_raw_string (encoded_char c +:+ rest) =
  if round_trips c then String c <$> make_raw_string rest else None.
Proof.
  unfold encoded_char, round_trips. destruct (character_is_unreserved c) eqn:Ec; cbn [orb].
  - change (String c EmptyString +:+ rest) with (String c rest). cbn [make_raw_string]. rewrite bool_decide_eq_false_2, Ec by (by apply unreserved_not_percent). cbn [negb].
    by destruct (make_raw_string rest).
  - rewrite percent_2X_digits. match goal with |- context [String ?a (String ?b (String ?d EmptyString)) +:+ rest] =>
      change (String a (String b (String d EmptyString)) +:+ rest) with (String a (String b (String d rest))) end.
    cbn [make_raw_string]. rewrite bool_decide_eq_true_2, decode_digits by done.
    destruct (16 <=? char_code c); [|done]. cbn [mbind option_bind]. by destruct (make_raw_string rest).
Qed.

Lemma encode_cons c s : make_percent_encoded_string (String c s) = encoded_char c +:+ make_percent_encoded_string s.
Proof. done. Qed.

(** Decoding an encoded string gives the string back, or throws if it holds
    one of the sixteen characters that [sprintf] pads with a space. *)
Theorem percent_round_trip s : make_raw_string (make_percent_encoded_string s) = if forall_chars round_trips s then Some s else None.
Proof.
  induction s as [|c s IH]; [done|]. rewrite encode_cons, make_raw_encoded, IH. cbn [forall_chars].
  destruct (round_trips c); cbn [andb]; [|done]. by destruct (forall_chars round_trips s).
Qed.

(** ** Different strings have different names *)
Lemma encoded_char_inj c d s t : encoded_char c +:+ s = encoded_char d +:+ t -> c = d /\ s = t.
Proof.
  assert (forall c s, encoded_char c +:+ s = if character_is_unreserved c then String c s
    else String "%" (String (digits_of c).1 (String (digits_of c).2 s))) as E by (intros x y; unfold encoded_char; by destruct (character_is_unreserved x)).
  assert (forall c, (if character_is_unreserved c then true else
    bool_decide (Forall (fun d => digits_of d = digits_of c -> d = c) all_chars)) = true) as Hdigits by (intros x; check_char x).
  rewrite !E. specialize (Hdigits c). destruct (character_is_unreserved c) eqn:Ec, (character_is_unreserved d) eqn:Ed.
  - by intros [= -> ->].
  - intros [= -> _]. by apply unreserved_not_percent in Ec.
  - intros [= <- _]. by apply unreserved_not_percent in Ed.
  - intros [= E1 E2 ->]. split; [|done]. apply bool_decide_eq_true in Hdigits. rewrite Forall_forall in Hdigits. symmetry. apply Hdigits.
    + apply list_elem_of_fmap. exists (char_code d). split; [by rewrite char_of_char_code|]. apply elem_of_seqZ. pose proof (char_code_range d). lia.
    + unfold digits_of in *. cbn in *. by f_equal.
Qed.

Lemma percent_encoding_inj s t : make_percent_encoded_string s = make_percent_encoded_string t -> s = t.
Proof.
  revert t. induction s as [|c s IH]; intros [|d t]; rewrite ?encode_cons; [done| | |].
  - cbn [make_percent_encoded_string]. unfold encoded_char. by destruct (character_is_unreserved d).
  - cbn [make_percent_encoded_string]. unfold encoded_char. by destruct (character_is_unreserved c).
  - intros [-> E]%encoded_char_inj. f_equal. by apply IH.
Qed.

(** ** Ends of strings *)
Lemma append_cons c s t : String c s +:+ t = String c (s +:+ t).
Proof. done. Qed.
Lemma append_assoc (s t u : string) : s +:+ (t +:+ u) = (s +:+ t) +:+ u.
Proof. induction s as [|c s IH]; [done|]. by rewrite !append_cons, IH. Qed.

Lemma append_nil s : s +:+ EmptyString = s.
Proof. induction s as [|c s IH]; [done|]. by rewrite append_cons, IH. Qed.

Lemma get_append s c t : String.get (String.length s) (s +:+ String c t) = Some c.
Proof. induction s as [|d s IH]; [done|]. by rewrite append_cons. Qed.

Lemma length_snoc s c : String.length (s +:+ String c EmptyString) = S (String.length s).
Proof. induction s as [|d s IH]; [done|]. rewrite append_cons. cbn [String.length]. by rewrite IH. Qed.

Lemma last_char_snoc s c : last_char (s +:+ String c EmptyString) = Some c.
Proof. unfold last_char. rewrite length_snoc. cbn [Nat.sub]. rewrite Nat.sub_0_r. apply get_append. Qed.

Lemma string_snoc s : s <> EmptyString -> exists t c, s = t +:+ String c EmptyString.
Proof.
  induction s as [|c s IH]; [done|]. intros _. destruct s as [|d s]; [by exists EmptyString, c|].
  destruct IH as (t & e & ->); [done|]. by exists (String c t), e.
Qed.

(** Names that can be a component of a path: no slash in them *)
Definition is_name (s : string) : Prop := s <> EmptyString /\ forall_chars name_char s = true.

Lemma name_char_no_slash c : name_char c = true -> c <> "/"%char.
Proof. by intros Hc ->. Qed.

Lemma name_ends s : is_name s -> first_char s <> "/"%char /\ exists c, last_char s = Some c /\ c <> "/"%char.
Proof.
  intros [Hne Hs]. split.
  - destruct s as [|c s]; [done|]. cbn in Hs. apply andb_prop in Hs as [Hc _]. by apply name_char_no_slash.
  - destruct (string_snoc s Hne) as (t & c & ->). exists c. split; [apply last_char_snoc|].
    rewrite forall_chars_app in Hs. apply andb_prop in Hs as [_ Hs]. cbn in Hs. rewrite andb_true_r in Hs. by apply name_char_no_slash.
Qed.

Lemma encoded_is_name s : nonempty s = true -> is_name (make_percent_encoded_string s).
Proof.
  intros Hs. split; [|apply encoded_names]. destruct s as [|c s]; [done|]. rewrite encode_cons. unfold encoded_char.
  by destruct (character_is_unreserved c).
Qed.

(** Appending a name to a directory *)
Lemma append_name dir name ty : last_char dir = Some "/"%char -> is_name name ->
  file_path_by_appending_component dir name ty = Some (match ty with Directory => dir +:+ name +:+ "/" | File => dir +:+ name end).
Proof.
  intros Hdir Hname. destruct (name_ends name Hname) as [Hf (c & Hl & Hc)]. unfold file_path_by_appending_component. rewrite Hl, Hdir.
  cbn [mbind option_bind]. rewrite (bool_decide_eq_false_2 (c = _)), (bool_decide_eq_false_2 (first_char name = _)) by done.
  change (bool_decide ("/"%char = "/"%char)) with true. cbn [andb orb]. destruct ty; cbn [mbind option_bind]; [by rewrite append_nil|done].
Qed.

(** The directory of all synchronized Realms *)
Definition sync_dir (base : string) : option string := file_path_by_appending_component base c_sync_directory Directory.

Lemma sync_dir_last base dir : sync_dir base = Some dir -> last_char dir = Some "/"%char.
Proof.
  unfold sync_dir, file_path_by_appending_component. destruct (last_char base) as [c|]; [|done].
  change (last_char c_sync_directory) with (Some "r"%char). cbn [mbind option_bind].
  change (bool_decide ("r"%char = "/"%char)) with false. change (bool_decide (first_char c_sync_directory = "/"%char)) with false.
  rewrite andb_false_r, orb_false_r. intros [= <-].
  destruct (bool_decide (c = "/"%char)); [rewrite append_assoc; apply last_char_snoc|]. rewrite !append_assoc. apply last_char_snoc.
Qed.

(** ** Where users and Realms are *)
Section paths.
Context `{Disk D} `{BuildMode} (base : string).

Definition user_dir (dir local_identity : string) : string := dir +:+ make_percent_encoded_string local_identity +:+ "/".

Lemma appending_returns p c ty d q e : appending (D:=D) p c ty d = returns q e -> file_path_by_appending_component p c ty = Some q /\ e = d.
Proof. unfold appending, or_crash. destruct (file_path_by_appending_component p c ty); [|done]. by intros [= -> ->]. Qed.

Lemma bind_returns {A B} (m : Prog D FileError A) (f : A -> Prog D FileError B) d b e : (m ≫= f) d = returns b e ->
  exists a d', m d = returns a d' /\ f a d' = returns b e.
Proof. unfold mbind, Prog_bind. destruct (m d) as [a d'| |]; [|done..]. by exists a, d'. Qed.

Lemma assert_returns b d u e : assert (S:=D) (E:=FileError) b d = returns u e -> b = true /\ e = d.
Proof. destruct b; [|done]. by intros [= <- ->]. Qed.

Lemma base_returns d p e : get_base_sync_directory base d = returns p e -> sync_dir base = Some p.
Proof.
  intros (q & d1 & [Eq ->]%appending_returns & E)%bind_returns. apply bind_returns in E as (u & d2 & _ & E). by injection E as -> ->.
Qed.

Lemma user_path_returns l d p e : user_path base l d = returns p e -> exists dir, sync_dir base = Some dir /\ is_name (make_percent_encoded_string l) /\
  p = user_dir dir l.
Proof.
  intros (u & d1 & [Hl ->]%assert_returns & E)%bind_returns. cbv zeta in E. destruct (filename_is_reserved (make_percent_encoded_string l)); [done|].
  apply bind_returns in E as (dir & d2 & Edir%base_returns & [E _]%appending_returns). pose proof (encoded_is_name l Hl) as Hname.
  rewrite append_name in E; [|by eapply sync_dir_last|done]. injection E as <-. by exists dir.
Qed.

Lemma user_directory_returns l d p e : user_directory base l d = returns p e -> exists dir, sync_dir base = Some dir /\
  is_name (make_percent_encoded_string l) /\ p = user_dir dir l.
Proof. intros (q & d1 & E & E2)%bind_returns. apply bind_returns in E2 as (u & d2 & _ & E2). injection E2 as -> ->. by eapply user_path_returns. Qed.

Lemma path_returns l r d p e : path base l r d = returns p e -> exists dir, sync_dir base = Some dir /\
  p = user_dir dir l +:+ make_percent_encoded_string r.
Proof.
  intros (u & d1 & [Hl ->]%assert_returns & E)%bind_returns. apply bind_returns in E as (u' & d2 & [Hr ->]%assert_returns & E).
  cbv zeta in E. destruct (filename_is_reserved l || filename_is_reserved r); [done|]. apply bind_returns in E as (q & d3 & (dir & Edir & _ & ->)%user_directory_returns & [E _]%appending_returns).
  rewrite append_name in E; [|unfold user_dir; rewrite append_assoc; apply last_char_snoc|by apply encoded_is_name]. injection E as <-.
  by exists dir.
Qed.

Lemma name_split s t u v : forall_chars name_char s = true -> forall_chars name_char t = true ->
  s +:+ String "/" u = t +:+ String "/" v -> s = t /\ u = v.
Proof.
  revert t. induction s as [|c s IH]; intros [|d t] Hs Ht E.
  - by injection E as ->.
  - injection E as <- _. cbn in Ht. by apply andb_prop in Ht as [?%name_char_no_slash _].
  - injection E as -> _. cbn in Hs. by apply andb_prop in Hs as [?%name_char_no_slash _].
  - cbn [forall_chars] in Hs, Ht. apply andb_prop in Hs as [_ Hs], Ht as [_ Ht]. injection E as -> E. destruct (IH t Hs Ht E) as [-> ->]. done.
Qed.

Lemma user_dir_inj dir l r l' r' : user_dir dir l +:+ r = user_dir dir l' +:+ r' -> l = l' /\ r = r'.
Proof.
  unfold user_dir. rewrite <- !append_assoc. intros E%(inj (String.append dir)).
  apply name_split in E as [E ->]; [|apply encoded_names..]. by apply percent_encoding_inj in E as ->.
Qed.

(** No two Realms share a path, whatever the identities of the users and the
    URLs of the Realms are made of. *)
Theorem realm_paths_distinct l r l' r' d d' p e e' : path base l r d = returns p e -> path base l' r' d' = returns p e' -> l = l' /\ r = r'.
Proof.
  intros (dir & Edir & ->)%path_returns (dir' & Edir' & E)%path_returns. assert (dir' = dir) as -> by congruence.
  apply user_dir_inj in E as [-> E]. by apply percent_encoding_inj in E.
Qed.

Lemma special_directory_returns n d p e : is_name n -> get_special_directory base n d = returns p e ->
  exists dir, sync_dir base = Some dir /\ p = dir +:+ n +:+ "/".
Proof.
  intros Hn (dir & d1 & Edir%base_returns & E)%bind_returns. apply bind_returns in E as (q & d2 & [Eq _]%appending_returns & E).
  apply bind_returns in E as (u & d3 & _ & E). injection E as -> ->. rewrite append_name in Eq; [|by eapply sync_dir_last|done]. injection Eq as <-.
  by exists dir.
Qed.

(** a user's directory is one of the directories for the metadata and the
    recovered Realms exactly if the identity is that directory's name: such an
    identity is not refused. *)
Theorem user_directory_special l n d d' p p' e e' : n = c_utility_directory \/ n = c_recovery_directory ->
  user_directory base l d = returns p e -> get_special_directory base n d' = returns p' e' -> p = p' <-> l = n.
Proof.
  intros Hn (dir & Edir & _ & ->)%user_directory_returns E. assert (is_name n) as Hname by (by destruct Hn as [->| ->]).
  destruct (special_directory_returns n d' p' e' Hname E) as (dir' & Edir' & ->). assert (dir' = dir) as -> by congruence.
  assert (make_percent_encoded_string n = n) as En by (by destruct Hn as [->| ->]). unfold user_dir. split; [|intros ->; by rewrite En].
  intros E2%(inj (String.append dir)). apply (name_split _ _ EmptyString EmptyString) in E2 as [E2 _]; [|apply encoded_names|apply Hname].
  rewrite <- En in E2 at 1. by apply percent_encoding_inj.
Qed.
End paths.

(** ** Removing a Realm *)
Section remove.
Context `{Disk D} (base : string).

(** The result says whether the lock file was there and the management
    directory could be removed, whether or not there was a Realm file. *)
Theorem remove_realm_result p lock management d b d1 l d2 : nonempty p = true ->
  file_path_by_appending_extension p "lock" = Some lock -> file_path_by_appending_extension p "management" = Some management ->
  try_remove p d = returns b d1 -> try_remove lock d1 = returns l d2 ->
  remove_realm_at p d = match try_remove_dir_recursive management d2 with
    | returns _ d3 => returns l d3
    | throws e d3 => if is_access_error e then returns false d3 else throws e d3
    | crashes => crashes
    end.
Proof.
  intros Hp El Em E1 E2. unfold remove_realm_at. rewrite Hp, El, Em. unfold assert, or_crash, catch, mbind, Prog_bind, mret, Prog_ret. rewrite E1, E2.
  destruct (try_remove_dir_recursive management d2) as [u d3|e d3|]; [done| |done]. by destruct (is_access_error e).
Qed.
End remove.

(** ** What the file system promises *)
(** [contents] is what a regular file holds, and [within dir] the files in a
    directory. *)
Class DiskLaws (D A : Type) `{Disk D} := {
  contents : D -> string -> option A;
  within : string -> string -> Prop;
  try_remove_law p d : wp (try_remove p) d
    (fun _ d' => contents d' p = None /\ forall q, q <> p -> contents d' q = contents d q) (fun _ d' => forall q, contents d' q = contents d q);
  try_remove_dir_law p d : wp (try_remove_dir_recursive p) d
    (fun _ d' => forall q, ~ within p q -> contents d' q = contents d q) (fun _ d' => forall q, ~ within p q -> contents d' q = contents d q);
  exists_law p d : wp (exists_ p) d
    (fun b d' => (forall q, contents d' q = contents d q) /\ (contents d p <> None -> b = true)) (fun _ d' => forall q, contents d' q = contents d q);
  copy_law p q d : p <> q -> wp (copy p q) d
    (fun _ d' => contents d' q = contents d p /\ forall r, r <> q -> contents d' r = contents d r) (fun _ d' => forall r, r <> q -> contents d' r = contents d r)
}.

Section disk_laws.
Context `{HD : Disk D} {A : Type} `{HL : !DiskLaws D A}.

Lemma copy_realm_file_spec p q d c : nonempty p = true -> q <> p -> contents d p = Some c ->
  wp (copy_realm_file p q) d (fun copied d' => if copied : bool then contents d' p = Some c /\ contents d' q = Some c else contents d' p = Some c)
    (fun _ d' => contents d' p = Some c).
Proof.
  intros Hp Hpq Hc. unfold copy_realm_file. rewrite Hp. apply ends_bind. apply ends_ret. apply ends_catch.
  assert (forall (e : FileError) d', contents d' p = Some c -> match (if is_access_error e then Some (mret (M:=Prog D FileError) false) else None) with
    | Some h => wp h d' (fun copied d' => if copied : bool then contents d' p = Some c /\ contents d' q = Some c else contents d' p = Some c) (fun _ d' => contents d' p = Some c)
    | None => contents d' p = Some c end) as Hcatch.
  { intros e d' Hd. by destruct (is_access_error e). }
  eapply ends_then; [eapply ends_mono; [apply exists_law|intros b d' [Hd _]; exact (Hd p)|]|].
  - intros e d' Hd. apply Hcatch. by rewrite Hd.
  - intros found d1 Hd1. cbv beta in Hd1. destruct found; [apply ends_ret; congruence|].
    eapply ends_then; [eapply ends_mono; [apply (copy_law p q d1); done|intros u d' Hd; exact Hd|]|].
    + intros e d' Hd. apply Hcatch. rewrite Hd; congruence.
    + intros u d2 [Hq Hd]. apply ends_ret. rewrite Hd by done. split; congruence.
Qed.

Lemma remove_realm_at_spec p lock management d : nonempty p = true ->
  file_path_by_appending_extension p "lock" = Some lock -> file_path_by_appending_extension p "management" = Some management -> lock <> p -> ~ within management p ->
  wp (remove_realm_at p) d (fun _ d' => contents d' p = None /\ forall q, q <> p -> q <> lock -> ~ within management q -> contents d' q = contents d q)
    (fun _ d' => forall q, q <> p -> q <> lock -> ~ within management q -> contents d' q = contents d q).
Proof.
  intros Hp El Em Hl Hm. unfold remove_realm_at. rewrite Hp, El, Em. apply ends_bind, ends_ret.
  eapply ends_then; [eapply ends_mono; [apply try_remove_law|intros b d' Hd; exact Hd|]|].
  { intros e d' Hd q _ _ _. apply Hd. }
  intros b d1 [Hp1 H1]. apply ends_bind, ends_ret. eapply ends_then; [eapply ends_mono; [apply try_remove_law|intros b' d' [_ Hd]; exact Hd|]|].
  { intros e d' Hd q Hq _ _. by rewrite Hd, H1. }
  intros success d2 H2. cbv beta in H2. apply ends_bind, ends_ret, ends_catch.
  assert (forall d3, (forall q, ~ within management q -> contents d3 q = contents d2 q) ->
    contents d3 p = None /\ forall q, q <> p -> q <> lock -> ~ within management q -> contents d3 q = contents d q) as Hend.
  { intros d3 H3. split; [rewrite H3, H2 by congruence; done|]. intros q Hq Hql Hqm. by rewrite H3, H2, H1. }
  eapply ends_then; [eapply ends_mono; [apply try_remove_dir_law|intros b' d' Hd; exact (Hend d' Hd)|]|].
  - intros e d3 H3. destruct (is_access_error e); [by apply ends_ret, Hend|]. by apply Hend.
  - intros b' d3 H3. by apply ends_ret.
Qed.
End disk_laws.

(** ** A disk *)
Section plain_disk.
(** The files with their contents, and the directories *)
Record PlainDisk := mkDisk { d_files : list (string * nat); d_dirs : list string }.

Definition in_dir (dir p : string) : bool := String.prefix dir p.

Definition find_file (p : string) (d : PlainDisk) : option nat := snd <$> find (fun x => bool_decide (x.1 = p)) (d_files d).

#[export] Instance plain_disk : Disk PlainDisk := {
  try_make_dir p d := if bool_decide (p ∈ d_dirs d) then returns false d else returns true (mkDisk (d_files d) (p :: d_dirs d));
  try_remove p d := match find_file p d with
    | Some _ => returns true (mkDisk (filter (fun x => x.1 <> p) (d_files d)) (d_dirs d))
    | None => returns false d
    end;
  try_remove_dir_recursive p d := if bool_decide (p ∈ d_dirs d)
    then returns true (mkDisk (filter (fun x => in_dir p x.1 = false) (d_files d)) (filter (fun x => in_dir p x = false) (d_dirs d)))
    else returns false d;
  exists_ p d := returns (bool_decide (is_Some (find_file p d) \/ p ∈ d_dirs d)) d;
  copy p q d := match find_file p d with Some x => returns () (mkDisk ((q, x) :: d_files d) (d_dirs d)) | None => throws NotFound d end;
  move p q d := match find_file p d with
    | Some x => returns () (mkDisk ((q, x) :: filter (fun x => x.1 <> p) (d_files d)) (d_dirs d))
    | None => throws NotFound d
    end
}.
End plain_disk.

(** Removing an entry from a list of files *)
Lemma find_file_filter (f : string -> Prop) `{forall q, Decision (f q)} q l ds :
  find_file q (mkDisk (filter (fun x => f x.1) l) ds) = if decide (f q) then find_file q (mkDisk l ds) else None.
Proof.
  unfold find_file. cbn [d_files]. induction l as [|[k x] l IH]; [by destruct (decide (f q))|]. rewrite filter_cons. cbn [fst].
  destruct (decide (f k)) as [Hk|Hk]; cbn [find fst].
  - destruct (bool_decide_reflect (k = q)) as [->|]; [by rewrite decide_True|exact IH].
  - rewrite IH. destruct (decide (f q)) as [Hq|Hq]; [|done]. destruct (bool_decide_reflect (k = q)) as [->|]; [done|done].
Qed.

#[export] Program Instance plain_disk_laws : DiskLaws PlainDisk nat := {
  contents d p := find_file p d;
  within dir p := in_dir dir p = true
}.
Next Obligation.
  intros p d. unfold ends. cbn. destruct (find_file p d) eqn:E; [|done]. split.
  - etrans; [exact (find_file_filter (fun k => k <> p) p (d_files d) (d_dirs d))|]. by rewrite decide_False by (by intros []).
  - intros q Hq. etrans; [exact (find_file_filter (fun k => k <> p) q (d_files d) (d_dirs d))|]. by rewrite decide_True.
Qed.
Next Obligation.
  intros p d. unfold ends. cbn. destruct (bool_decide _); [|done]. intros q Hq. etrans; [exact (find_file_filter (fun k => in_dir p k = false) q (d_files d) _)|].
  rewrite decide_True; [done|]. by apply not_true_is_false.
Qed.
Next Obligation.
  intros p d. unfold ends. cbn. split; [done|]. intros Hp. apply bool_decide_eq_true_2. left. destruct (find_file p d); [by eexists|done].
Qed.
Next Obligation.
  intros p q d Hpq. unfold ends. cbn. destruct (find_file p d) eqn:E; [|done]. unfold find_file. cbn [d_files find fst].
  rewrite bool_decide_eq_true_2 by done. split; [done|]. intros r Hr. by rewrite bool_decide_eq_false_2 by (by intros ->).
Qed.

Section witnesses.
#[local] Instance debug_build_files : BuildMode := {| realm_debug := true |}.
Definition empty_disk : PlainDisk := mkDisk [] ["/app/"].

Definition state_of {A} (o : Outcome PlainDisk FileError A) : PlainDisk := match o with returns _ d | throws _ d => d | crashes => empty_disk end.

(** A user whose identity holds a space, and one with an encoded space *)
Lemma realm_paths_distinct_witness : let p := path (D:=PlainDisk) "/app" "a b" "realms://x/~/y" empty_disk in
  p = returns "/app/realm-object-server/a%20b/realms%3A%2F%2Fx%2F%7E%2Fy" (state_of p) /\ ("a b" = "a b" /\ "realms://x/~/y" = "realms://x/~/y").
Proof. intros p. split; [by vm_compute|]. eapply (realm_paths_distinct "/app" _ _ _ _ empty_disk empty_disk); by vm_compute. Defined.

Lemma user_directory_special_witness :
  "/app/realm-object-server/io.realm.object-server-utility/" = "/app/realm-object-server/io.realm.object-server-utility/" <->
  "io.realm.object-server-utility" = c_utility_directory.
Proof. eapply (user_directory_special "/app" _ _ empty_disk empty_disk); [by left|by vm_compute|by vm_compute]. Defined.

(** There is a lock file but no Realm. *)
Definition lock_only : PlainDisk := mkDisk [("/r.realm.lock", 0%nat)] [].
Lemma remove_realm_result_witness : remove_realm_at "/r.realm" lock_only =
  match try_remove_dir_recursive "/r.realm.management" (mkDisk [] []) with
    | returns _ d3 => returns true d3
    | throws e d3 => if is_access_error e then returns false d3 else throws e d3
    | crashes => crashes
    end.
Proof. by eapply (remove_realm_result "/r.realm" "/r.realm.lock" "/r.realm.management" lock_only false lock_only true (mkDisk [] [])). Defined.
End witnesses.
