(* ===== verification/SyncMetadata.v ===== *)
(** * The metadata Realm of synchronized users

    [sync/impl/sync_metadata.cpp]: the users that were logged in, the pending
    file actions, and the client's identifier. A row is known by the number its
    accessors follow; the order of the rows is that of the table. Other processes
    may commit before a write transaction of this one begins: [others] is what
    they commit. [None] is a failed assertion, or the use of a detached row or of an empty
    option. *)
From stdpp Require Import strings.
From S2P Require Import Prelude.
From S2P Require Import ChangeBuilder.

#[local] Open Scope realm_scope.

(** ** The tables *)

(** [UserMetadata] *)
Record UserRow := mkUserRow {
  identity : string;
  local_uuid : string;
  marked_for_removal : bool;
  user_token : option string;
  auth_server_url : string;
  user_is_admin : bool
}.

(** [SyncFileActionMetadata::Action] *)
Inductive Action := DeleteRealm | BackUpThenDeleteRealm.

(** [FileActionMetadata] *)
Record FileActionRow := mkActionRow {
  original_name : string;
  new_name : option string;
  action : Action;
  url : string;
  user_local_uuid : string
}.

Section tables.
Context {A : Type}.
Implicit Types (t : list (nat * A)) (key : nat).

(** The row an accessor is attached to *)
Definition row_of key t : option A := snd <$> find (fun x => (x.1 =? key)%nat) t.

(** The first row that a query finds *)
Definition first_row (f : A -> bool) t : option nat := fst <$> find (fun x => f x.2) t.

Definition set_row key (f : A -> A) t : option (list (nat * A)) :=
  _ ← row_of key t; Some ((fun x => if (x.1 =? key)%nat then (x.1, f x.2) else x) <$> t).

(** [move_last_over] the row of an accessor *)
Definition move_last_over key t : option (list (nat * A)) :=
  i ← fst <$> list_find (fun x => x.1 = key) t;
  x ← last t;
  Some (take (length t - 1) (<[i := x]> t)).
End tables.

Record MetadataRealm := mkMetadata {
  user_rows : list (nat * UserRow);
  action_rows : list (nat * FileActionRow);
  client_rows : list string;
  (** Accessors and identifiers made so far *)
  next_key : nat;
  made_uuids : nat
}.

Definition set_user_rows x m := mkMetadata x (action_rows m) (client_rows m) (next_key m) (made_uuids m).
Definition set_action_rows x m := mkMetadata (user_rows m) x (client_rows m) (next_key m) (made_uuids m).

(** ** [SyncMetadataManager] *)
Section manager.
Context `{BuildMode}.
Implicit Types (m : MetadataRealm).

(** [util::uuid_string], and the commits of other processes *)
Context (uuid_string : nat -> string) (others : MetadataRealm -> MetadataRealm).

(** A new row *)
Definition add_user_row (r : UserRow) m : nat * MetadataRealm :=
  (next_key m, mkMetadata (user_rows m ++ [(next_key m, r)]) (action_rows m) (client_rows m) (S (next_key m)) (made_uuids m)).
Definition add_action_row (r : FileActionRow) m : nat * MetadataRealm :=
  (next_key m, mkMetadata (user_rows m) (action_rows m ++ [(next_key m, r)]) (client_rows m) (S (next_key m)) (made_uuids m)).
Definition take_uuid m : string * MetadataRealm :=
  (uuid_string (made_uuids m), mkMetadata (user_rows m) (action_rows m) (client_rows m) (next_key m) (S (made_uuids m))).

(** [m_client_uuid] *)
Definition client_uuid m : string * MetadataRealm :=
  match client_rows m with
  | uuid :: _ => (uuid, m)
  | [] =>
    let m := others m in
    match client_rows m with
    | uuid :: _ => (uuid, m)
    | [] => let '(uuid, m) := take_uuid m in
            (uuid, mkMetadata (user_rows m) (action_rows m) [uuid] (next_key m) (made_uuids m))
    end
  end.

Definition get_users (marked : bool) m : list nat :=
  fst <$> filter (fun x => marked_for_removal x.2 = marked) (user_rows m).
Definition all_unmarked_users := get_users false.
Definition all_users_marked_for_removal := get_users true.
Definition all_pending_actions m : list nat := fst <$> action_rows m.

Definition is_user (identity_ url_ : string) (r : UserRow) : bool :=
  bool_decide (identity r = identity_) && bool_decide (auth_server_url r = url_).
Definition set_marked (marked : bool) (r : UserRow) : UserRow :=
  mkUserRow (identity r) (local_uuid r) marked (user_token r) (auth_server_url r) (user_is_admin r).

Definition update_user (key : nat) (f : UserRow -> UserRow) m : option MetadataRealm :=
  rows ← set_row key f (user_rows m); Some (set_user_rows rows m).

Definition get_or_make_user_metadata (identity_ url_ : string) (make_if_absent : bool) m : option (option nat * MetadataRealm) :=
  assert! negb realm_debug || (length (filter (fun x => is_user identity_ url_ x.2 = true) (user_rows m)) <? 2)%nat;
  match first_row (is_user identity_ url_) (user_rows m) with
  | None =>
    if negb make_if_absent then Some (None, m)
    else
      let m := others m in
      match first_row (is_user identity_ url_) (user_rows m) with
      | None =>
        let '(uuid, m) := take_uuid m in
        let '(key, m) := add_user_row (mkUserRow identity_ uuid false None url_ false) m in
        Some (Some key, m)
      | Some key =>
        row ← row_of key (user_rows m);
        if marked_for_removal row then
          if make_if_absent then m ← update_user key (set_marked false) m; Some (Some key, m)
          else Some (None, m)
        else Some (Some key, m)
      end
  | Some key =>
    row ← row_of key (user_rows m);
    if marked_for_removal row then
      if make_if_absent then m ← update_user key (set_marked false) (others m); Some (Some key, m)
      else Some (None, m)
    else Some (Some key, m)
  end.

(** *** [SyncUserMetadata] *)
(** The row it is attached to, and whether it was removed *)
Record SyncUserMetadata := mkUserMetadata { m_invalid : bool; m_row : nat }.
Definition user_metadata (key : nat) : SyncUserMetadata := mkUserMetadata false key.

(** A user is given a token: an empty option is not read. *)
Definition set_user_token (md : SyncUserMetadata) (token : option string) m : option MetadataRealm :=
  if m_invalid md then Some m
  else token ← token; update_user (m_row md) (fun r => mkUserRow (identity r) (local_uuid r) (marked_for_removal r) (Some token) (auth_server_url r) (user_is_admin r)) (others m).
Definition set_is_admin (md : SyncUserMetadata) (is_admin : bool) m : option MetadataRealm :=
  if m_invalid md then Some m
  else update_user (m_row md) (fun r => mkUserRow (identity r) (local_uuid r) (marked_for_removal r) (user_token r) (auth_server_url r) is_admin) (others m).
Definition mark_for_removal (md : SyncUserMetadata) m : option MetadataRealm :=
  if m_invalid md then Some m else update_user (m_row md) (set_marked true) (others m).
Definition remove_user (md : SyncUserMetadata) m : option (SyncUserMetadata * MetadataRealm) :=
  let m := others m in
  rows ← move_last_over (m_row md) (user_rows m); Some (mkUserMetadata true (m_row md), set_user_rows rows m).

(** *** File actions *)
Definition is_action (name : string) (r : FileActionRow) : bool := bool_decide (original_name r = name).

Definition get_file_action_metadata (name : string) m : option nat := first_row (is_action name) (action_rows m).

Definition make_file_action_metadata (name url_ uuid : string) (action_ : Action) (new_name_ : option string) m :
    option (nat * MetadataRealm) :=
  let m := others m in
  let '(key, m) := match first_row (is_action name) (action_rows m) with
                   | Some key => (key, m)
                   | None => add_action_row (mkActionRow name None DeleteRealm EmptyString EmptyString) m
                   end in
  rows ← set_row key (fun r => mkActionRow (original_name r) new_name_ action_ url_ uuid) (action_rows m);
  Some (key, set_action_rows rows m).

Definition remove_action (key : nat) m : option MetadataRealm :=
  let m := others m in
  rows ← move_last_over key (action_rows m); Some (set_action_rows rows m).

Definition delete_metadata_action (name : string) m : option (bool * MetadataRealm) :=
  let m := others m in
  match first_row (is_action name) (action_rows m) with
  | None => Some (false, m)
  | Some key => rows ← move_last_over key (action_rows m); Some (true, set_action_rows rows m)
  end.
End manager.

(** ** Tables whose rows are known by different numbers *)
Section table_facts.
Context {A : Type}.
Implicit Types (t : list (nat * A)) (key : nat) (r : A).

Lemma row_of_elem key r t : row_of key t = Some r -> (key, r) ∈ t.
Proof.
  unfold row_of. induction t as [|[k x] t IH]; [done|]. cbn. destruct (Nat.eqb_spec k key) as [->|]; [intros [= ->]; by left|]. intros E. right. by apply IH.
Qed.

Lemma elem_row_of key r t : NoDup t.*1 -> (key, r) ∈ t -> row_of key t = Some r.
Proof.
  unfold row_of. induction t as [|[k x] t IH]; [by intros _ ?%elem_of_nil|]. intros [Hk Hnd]%NoDup_cons. cbn.
  intros [[= -> ->]|Hin]%elem_of_cons; [by rewrite Nat.eqb_refl|]. destruct (Nat.eqb_spec k key) as [->|]; [|by apply IH].
  destruct Hk. apply list_elem_of_fmap. by exists (key, r).
Qed.

Lemma first_row_some f key t : NoDup t.*1 -> first_row f t = Some key -> exists r, row_of key t = Some r /\ f r = true.
Proof.
  unfold first_row. intros Hnd. destruct (find _ t) as [[k r]|] eqn:E; [|done]. intros [= <-]. apply find_some in E as [Hin Hf].
  exists r. split; [|done]. apply elem_row_of; [done|]. by apply list_elem_of_In.
Qed.

Lemma first_row_none f key r t : first_row f t = None -> row_of key t = Some r -> f r = false.
Proof.
  unfold first_row. destruct (find _ t) as [[]|] eqn:E; [done|]. intros _ Hin%row_of_elem%list_elem_of_In. by apply (find_none _ _ E) in Hin.
Qed.

Lemma set_row_spec key f t r : row_of key t = Some r -> exists t', set_row key f t = Some t' /\ t'.*1 = t.*1 /\
  forall k, row_of k t' = (if (k =? key)%nat then f else id) <$> row_of k t.
Proof.
  intros E. unfold set_row. rewrite E. eexists. split; [done|]. split.
  - rewrite <- list_fmap_compose. apply list_fmap_ext. intros i [k x] _. cbn. by destruct (k =? key)%nat.
  - intros k. unfold row_of. clear E r. induction t as [|[k' x] t IH]; [done|]. cbn. destruct (Nat.eqb_spec k' key) as [->|Hne]; cbn.
    + destruct (Nat.eqb_spec key k) as [->|]; [by rewrite Nat.eqb_refl|done].
    + destruct (Nat.eqb_spec k' k) as [->|]; [|done]. cbn. destruct (Nat.eqb_spec k key); [done|done].
Qed.

Lemma row_of_snoc key k r t : row_of key (t ++ [(k, r)]) = match row_of key t with Some x => Some x | None => if (k =? key)%nat then Some r else None end.
Proof.
  unfold row_of. induction t as [|[k' x] t IH]; cbn; [by destruct (k =? key)%nat|]. by destruct (k' =? key)%nat.
Qed.
End table_facts.

(** ** The rows of users *)
Section users.
Context `{BuildMode}.
Context (uuid_string : nat -> string) (others : MetadataRealm -> MetadataRealm).
Implicit Types (m : MetadataRealm).

(** A user has one row. *)
Record metadata_ok m : Prop := {
  md_keys : NoDup (user_rows m).*1;
  md_next key : key ∈ (user_rows m).*1 -> (key < next_key m)%nat;
  md_users k k' r r' : row_of k (user_rows m) = Some r -> row_of k' (user_rows m) = Some r' ->
    identity r = identity r' -> auth_server_url r = auth_server_url r' -> k = k'
}.

(** What is never changed in a row *)
Definition same_user (r r' : UserRow) : Prop :=
  identity r' = identity r /\ auth_server_url r' = auth_server_url r /\ local_uuid r' = local_uuid r.

(** The other processes go by the same rules, and remove no user meanwhile. *)
Definition polite : Prop := forall m, metadata_ok m -> metadata_ok (others m) /\
  forall k r, row_of k (user_rows m) = Some r -> exists r', row_of k (user_rows (others m)) = Some r' /\ same_user r r'.

Lemma update_user_ok key f m r : (forall r, same_user r (f r)) -> metadata_ok m -> row_of key (user_rows m) = Some r ->
  exists m', update_user key f m = Some m' /\ metadata_ok m' /\
    forall k, row_of k (user_rows m') = (if (k =? key)%nat then f else id) <$> row_of k (user_rows m).
Proof.
  intros Hf Hm E. unfold update_user. destruct (set_row_spec key f _ r E) as (t & -> & Ek & Hrow). cbn [mbind option_bind]. eexists. split; [done|].
  split; [|done]. destruct Hm as [Hnd Hnext Hu]. assert (forall k x, row_of k t = Some x -> exists y, row_of k (user_rows m) = Some y /\ same_user y x) as Hsame.
  { intros k x. rewrite Hrow. destruct (row_of k (user_rows m)) as [y|]; [|done]. intros [= <-]. exists y. split; [done|]. destruct (k =? key)%nat; [apply Hf|done]. }
  constructor; cbn; [by rewrite Ek|by rewrite Ek|]. intros k k' x x' Ex Ex' Ei Eu.
  destruct (Hsame k x Ex) as (y & Ey & Ii & Iu & _), (Hsame k' x' Ex') as (y' & Ey' & Ii' & Iu' & _). apply (Hu k k' y y'); congruence.
Qed.

Lemma is_user_spec i u r : is_user i u r = true <-> identity r = i /\ auth_server_url r = u.
Proof. unfold is_user. rewrite andb_true_iff. by rewrite !bool_decide_eq_true. Qed.

Lemma one_user i u m : metadata_ok m -> (length (filter (fun x => is_user i u x.2 = true) (user_rows m)) <? 2)%nat = true.
Proof.
  intros [Hnd _ Hu]. apply Nat.ltb_lt. destruct (filter _ _) as [|[k r] [|[k' r'] l]] eqn:E; cbn; [lia|lia|].
  pose proof (NoDup_filter (fun x => is_user i u x.2 = true) _ (NoDup_fmap_1 _ _ Hnd)) as Hnd'. rewrite E in Hnd'. apply NoDup_cons in Hnd' as [Hne _].
  assert (forall x, x ∈ (k, r) :: (k', r') :: l -> is_user i u x.2 = true /\ row_of x.1 (user_rows m) = Some x.2) as Hin.
  { intros [kx x]. rewrite <- E. intros [Hx Hi]%list_elem_of_filter. split; [done|]. by apply elem_row_of. }
  destruct (Hin (k, r)) as [[Ei Eu]%is_user_spec Er]; [by left|].
  destruct (Hin (k', r')) as [[Ei' Eu']%is_user_spec Er']; [by right; left|].
  cbn in *. assert (k' = k) as -> by (eapply Hu; [done|done|congruence|congruence]). assert (r' = r) as -> by congruence. destruct Hne. by left.
Qed.

(** The row a user had before *)
Definition known i u m r : Prop := exists k, row_of k (user_rows m) = Some r /\ identity r = i /\ auth_server_url r = u.

Lemma revived_spec key m r : metadata_ok m -> row_of key (user_rows m) = Some r ->
  exists m', (if marked_for_removal r then m ← update_user key (set_marked false) m; Some (Some key, m) else Some (Some key, m)) = Some (Some key, m') /\
    metadata_ok m' /\ exists r', row_of key (user_rows m') = Some r' /\ same_user r r' /\ marked_for_removal r' = false.
Proof.
  intros Hm E. destruct (marked_for_removal r) eqn:Em; [|exists m; split; [done|]; split; [done|]; by exists r].
  destruct (update_user_ok key (set_marked false) m r) as (m' & -> & Hm' & Hrow); [by intros []|done|done|].
  exists m'. split; [done|]. split; [done|]. exists (set_marked false r). rewrite Hrow, Nat.eqb_refl, E. done.
Qed.

(** Adding a user that has no row *)
Lemma add_user_ok i u uuid m : metadata_ok m -> first_row (is_user i u) (user_rows m) = None ->
  let '(key, m') := add_user_row (mkUserRow i uuid false None u false) m in
  metadata_ok m' /\ row_of key (user_rows m') = Some (mkUserRow i uuid false None u false).
Proof.
  intros [Hnd Hnext Hu] Enone. unfold add_user_row. cbn [user_rows]. assert (row_of (next_key m) (user_rows m) = None) as Efresh.
  { destruct (row_of _ _) as [r|] eqn:E; [|done]. apply row_of_elem in E. assert (next_key m ∈ (user_rows m).*1) as Hk%Hnext; [|lia].
    apply list_elem_of_fmap. by exists (next_key m, r). }
  assert (forall k r, row_of k (user_rows m ++ [(next_key m, mkUserRow i uuid false None u false)]) = Some r ->
    row_of k (user_rows m) = Some r \/ k = next_key m /\ r = mkUserRow i uuid false None u false) as Hcases.
  { intros k r. rewrite row_of_snoc. destruct (row_of k (user_rows m)); [by left|]. destruct (Nat.eqb_spec (next_key m) k); [|done]. intros [= <-]. by right. }
  split; [|by rewrite row_of_snoc, Efresh, Nat.eqb_refl]. constructor; cbn [user_rows next_key].
  - rewrite fmap_app. cbn. rewrite Permutation_app_comm. cbn. constructor; [|done]. intros Hk%Hnext. lia.
  - intros key. rewrite fmap_app. intros [Hk%Hnext|Hk%list_elem_of_singleton]%elem_of_app; cbn in *; lia.
  - assert (forall k r, row_of k (user_rows m) = Some r -> ~ (identity r = i /\ auth_server_url r = u)) as Hother.
    { intros k r Er. rewrite <- is_user_spec. by rewrite (first_row_none _ k r _ Enone Er). }
    intros k k' r r' [Er|[-> ->]]%Hcases [Er'|[-> ->]]%Hcases Ei Eu; [by eapply Hu| | |done].
    + by destruct (Hother k r Er).
    + destruct (Hother k' r' Er'). by cbn in *.
Qed.

(** Asking for a user that may be made *)
Lemma get_or_make_spec i u m : polite -> metadata_ok m ->
  exists key m' r, get_or_make_user_metadata uuid_string others i u true m = Some (Some key, m') /\ metadata_ok m' /\
    row_of key (user_rows m') = Some r /\ is_user i u r = true /\ marked_for_removal r = false /\
    forall r0, known i u m r0 -> local_uuid r = local_uuid r0.
Proof.
  intros Hpolite Hm. unfold get_or_make_user_metadata. rewrite one_user, orb_true_r by done. cbn [realm_assert mbind option_bind negb].
  assert (forall key r0 r, row_of key (user_rows m) = Some r0 -> is_user i u r0 = true -> same_user r0 r ->
    is_user i u r = true /\ forall r1, known i u m r1 -> local_uuid r = local_uuid r1) as Hknown.
  { intros key r0 r E0 [Ei Eu]%is_user_spec (Si & Su & Sl). rewrite is_user_spec. split; [split; congruence|]. intros r1 (k & E1 & Ei1 & Eu1).
    assert (k = key) as -> by (eapply (md_users m Hm); [done|done|congruence|congruence]). congruence. }
  destruct (Hpolite m Hm) as [Hom Hkeep]. destruct (first_row (is_user i u) (user_rows m)) as [key|] eqn:Ef.
  - apply first_row_some in Ef as (r & Er & Hr); [|apply Hm]. rewrite Er. cbn [mbind option_bind].
    destruct (marked_for_removal r) eqn:Emark; [|exists key, m, r; destruct (Hknown key r r Er Hr); [by split_and!|by split_and!]].
    destruct (Hkeep key r Er) as (r1 & Er1 & Hs1).
    destruct (update_user_ok key (set_marked false) (others m) r1) as (m' & -> & Hm' & Hrow); [by intros []|done|done|].
    assert (same_user r (set_marked false r1)) as Hs by (destruct r1; exact Hs1).
    exists key, m', (set_marked false r1). rewrite Hrow, Nat.eqb_refl, Er1. destruct (Hknown key r (set_marked false r1) Er Hr Hs). by destruct r1.
  - assert (forall r0, ~ known i u m r0) as Hunknown.
    { intros r0 (k & E0 & Hi). pose proof (first_row_none _ _ _ _ Ef E0) as Hn. apply is_user_spec in Hi. congruence. }
    destruct (first_row (is_user i u) (user_rows (others m))) as [key|] eqn:Ef'.
    + apply first_row_some in Ef' as (r & Er & Hr); [|apply Hom]. rewrite Er. cbn [mbind option_bind].
      destruct (revived_spec key (others m) r Hom Er) as (m' & -> & Hm' & r' & Er' & (Si & Su & Sl) & Em).
      exists key, m', r'. apply is_user_spec in Hr as [Ei Eu]. do 3 (split; [done|]). split; [apply is_user_spec; split; congruence|]. split; [done|]. intros r0 H0. by destruct (Hunknown r0).
    + set (m1 := (take_uuid uuid_string (others m)).2). assert (metadata_ok m1) as Hm1 by (destruct Hom; by constructor).
      destruct (add_user_ok i u (uuid_string (made_uuids (others m))) m1 Hm1 Ef') as [Hm2 Erow].
      eexists _, _, _. split; [done|]. split; [exact Hm2|]. split; [exact Erow|]. rewrite is_user_spec. split; [done|]. split; [done|].
      intros r0 H0. by destruct (Hunknown r0).
Qed.

(** Asking for a user that is known only *)
Lemma get_only_spec i u m : metadata_ok m ->
  exists key, get_or_make_user_metadata uuid_string others i u false m = Some (key, m) /\
    match key with
    | Some key => exists r, row_of key (user_rows m) = Some r /\ is_user i u r = true /\ marked_for_removal r = false
    | None => forall k r, row_of k (user_rows m) = Some r -> is_user i u r = true -> marked_for_removal r = true
    end.
Proof.
  intros Hm. unfold get_or_make_user_metadata. rewrite one_user, orb_true_r by done. cbn [realm_assert mbind option_bind negb].
  destruct (first_row (is_user i u) (user_rows m)) as [key|] eqn:Ef.
  - apply first_row_some in Ef as (r & Er & Hr); [|apply Hm]. rewrite Er. cbn [mbind option_bind].
    destruct (marked_for_removal r) eqn:Emark; [|by exists (Some key); eauto].
    exists None. split; [done|]. intros k r' Er' Hr'. apply is_user_spec in Hr as [Ei Eu], Hr' as [Ei' Eu'].
    assert (k = key) as -> by (eapply (md_users m Hm); [done|done|congruence|congruence]). congruence.
  - exists None. split; [done|]. intros k r Er Hr. by rewrite (first_row_none _ _ _ _ Ef Er) in Hr.
Qed.

(** Asking for a user gives its row, unmarked, whatever other processes commit
    while this one waits to write: a user that was known keeps its local
    identifier, and so its directory; there is still one row for each user. *)
Theorem user_metadata_found i u m : polite -> metadata_ok m ->
  exists key m' r, get_or_make_user_metadata uuid_string others i u true m = Some (Some key, m') /\ metadata_ok m' /\
    row_of key (user_rows m') = Some r /\ is_user i u r = true /\ marked_for_removal r = false /\
    forall r0, known i u m r0 -> local_uuid r = local_uuid r0.
Proof. apply get_or_make_spec. Qed.
End users.

Lemma user_metadata_found_witness :
  exists key m' r,
    @get_or_make_user_metadata {| realm_debug := true |} (fun n => "uuid") id "alice" "realm://a" true
      (mkMetadata [(1%nat, mkUserRow "bob" "b1" false None "realm://a" false); (2%nat, mkUserRow "alice" "a1" true (Some "t") "realm://a" false)] [] [] 3 2)
      = Some (Some key, m') /\ metadata_ok m' /\
    row_of key (user_rows m') = Some r /\ is_user "alice" "realm://a" r = true /\ marked_for_removal r = false /\
    forall r0, known "alice" "realm://a" (mkMetadata [(1%nat, mkUserRow "bob" "b1" false None "realm://a" false); (2%nat, mkUserRow "alice" "a1" true (Some "t") "realm://a" false)] [] [] 3 2) r0 ->
      local_uuid r = local_uuid r0.
Proof.
  apply (@user_metadata_found {| realm_debug := true |} (fun n => "uuid") id).
  - intros m Hm. split; [done|]. intros k r E. by exists r.
  - constructor.
    + vm_compute. repeat constructor; rewrite ?list_elem_of_In; cbn; lia.
    + intros key. cbn. rewrite !elem_of_cons, elem_of_nil. lia.
    + intros k k' r r' E E'. apply row_of_elem in E, E'. cbn [user_rows] in E, E'. rewrite !elem_of_cons, elem_of_nil in E, E'.
      destruct E as [[= -> ->]|[[= -> ->]|[]]], E' as [[= -> ->]|[[= -> ->]|[]]]; cbn; congruence.
Defined.
