(* ===== verification/SyncUsers.v ===== *)
(** * Synchronized users and their manager

    [sync/sync_user.cpp], [sync/sync_manager.cpp] and the part of
    [sync/sync_session.cpp] that calls them: the users, the sessions they are told
    about, which users and sessions the manager keeps, and what it persists. A
    session is the state machine of [SyncSession]; the events it leaves in its
    trace that are calls of the manager or of its user are made here. *)
From Stdlib Require Import Ascii.
From stdpp Require Import gmap strings.
From S2P Require Import Prelude.
From S2P Require Import ChangeBuilder.
From S2P Require Import SyncSession.
From S2P Require Import Effects.
From S2P Require Import SyncFiles.
From S2P Require Import SyncMetadata.

#[local] Open Scope string_scope.
#[local] Open Scope Z_scope.
#[local] Open Scope realm_scope.

(** ** The objects *)
Inductive UserError := file_error (e : FileError) | RealmFileException | logic_error.
#[global] Instance UserError_eq_dec : EqDecision UserError.
Proof. solve_decision. Defined.

Inductive TokenType := Normal | Admin.
#[global] Instance TokenType_eq_dec : EqDecision TokenType.
Proof. solve_decision. Defined.

(** [SyncUser::State] *)
Inductive State := LoggedOut | Active | Error.
#[global] Instance UserState_eq_dec : EqDecision State.
Proof. solve_decision. Defined.

(** [MetadataMode] *)
Inductive MetadataMode := NoEncryption | Encryption | NoMetadata.

(** A session is known by a number, which a [weak_ptr] keeps; [m_is_admin] has no
    value before it is set. *)
Record SyncUser := mkUser {
  m_state : State;
  m_local_identity : string;
  m_management_session : option nat;
  m_permission_session : option nat;
  m_server_url : string;
  m_token_type : TokenType;
  m_is_admin : option bool;
  m_refresh_token : string;
  m_identity : string;
  m_sessions : gmap string nat;
  m_waiting_sessions : gmap string nat
}.

(** The part of [SyncConfig] that is used here *)
Record SyncConfig := mkConfig {
  stop_policy : SyncSessionStopPolicy;
  has_error_handler : bool;
  config_user : nat;
  realm_url : string
}.

(** A session that is alive: its path, its configuration and its state *)
Record Held := mkHeld { session_path : string; m_config : SyncConfig; session_state : SyncSession }.

(** [SyncUserIdentifier]: the identity and the URL of the server *)
Abbreviation SyncUserIdentifier := (string * string)%type.

(** The objects that are alive, the members of [SyncManager], the metadata Realm
    and the file system. [held_outside] are the sessions of which code outside the
    object store keeps a [shared_ptr] that is no external reference: it was handed to
    the binding's [bind_session_handler] or [error_handler], or returned by a user. *)
Record World (D : Type) := mkWorld {
  held_outside : gset nat;
  sessions : gmap nat Held;
  users : gmap nat SyncUser;
  next_object : nat;
  m_users : gmap SyncUserIdentifier nat;
  m_admin_token_users : gmap string nat;
  manager_sessions : gmap string nat;
  m_file_manager : option string;
  m_metadata_manager : bool;
  m_client_uuid : option string;
  metadata : MetadataRealm;
  disk : D
}.
Arguments mkWorld {D}. Arguments held_outside {D}.
Arguments sessions {D}. Arguments users {D}. Arguments next_object {D}. Arguments m_users {D}.
Arguments m_admin_token_users {D}. Arguments manager_sessions {D}. Arguments m_file_manager {D}.
Arguments m_metadata_manager {D}. Arguments m_client_uuid {D}. Arguments metadata {D}. Arguments disk {D}.

Section setters.
Context {D : Type}.
Implicit Types (w : World D).
Definition set_held x w := mkWorld x (sessions w) (users w) (next_object w) (m_users w) (m_admin_token_users w) (manager_sessions w) (m_file_manager w) (m_metadata_manager w) (m_client_uuid w) (metadata w) (disk w).
Definition hold (n : nat) w := set_held ({[n]} ∪ held_outside w) w.
Definition set_sessions x w := mkWorld (held_outside w) x (users w) (next_object w) (m_users w) (m_admin_token_users w) (manager_sessions w) (m_file_manager w) (m_metadata_manager w) (m_client_uuid w) (metadata w) (disk w).
Definition set_users x w := mkWorld (held_outside w) (sessions w) x (next_object w) (m_users w) (m_admin_token_users w) (manager_sessions w) (m_file_manager w) (m_metadata_manager w) (m_client_uuid w) (metadata w) (disk w).
Definition set_next x w := mkWorld (held_outside w) (sessions w) (users w) x (m_users w) (m_admin_token_users w) (manager_sessions w) (m_file_manager w) (m_metadata_manager w) (m_client_uuid w) (metadata w) (disk w).
Definition set_m_users x y w := mkWorld (held_outside w) (sessions w) (users w) (next_object w) x y (manager_sessions w) (m_file_manager w) (m_metadata_manager w) (m_client_uuid w) (metadata w) (disk w).
Definition set_manager_sessions x w := mkWorld (held_outside w) (sessions w) (users w) (next_object w) (m_users w) (m_admin_token_users w) x (m_file_manager w) (m_metadata_manager w) (m_client_uuid w) (metadata w) (disk w).
Definition set_managers file metadata_ uuid w := mkWorld (held_outside w) (sessions w) (users w) (next_object w) (m_users w) (m_admin_token_users w) (manager_sessions w) file metadata_ uuid (metadata w) (disk w).
Definition set_metadata x w := mkWorld (held_outside w) (sessions w) (users w) (next_object w) (m_users w) (m_admin_token_users w) (manager_sessions w) (m_file_manager w) (m_metadata_manager w) (m_client_uuid w) x (disk w).
Definition set_disk (x : D) w := mkWorld (held_outside w) (sessions w) (users w) (next_object w) (m_users w) (m_admin_token_users w) (manager_sessions w) (m_file_manager w) (m_metadata_manager w) (m_client_uuid w) (metadata w) x.
End setters.

Definition set_state x u := mkUser x (m_local_identity u) (m_management_session u) (m_permission_session u) (m_server_url u) (m_token_type u) (m_is_admin u) (m_refresh_token u) (m_identity u) (m_sessions u) (m_waiting_sessions u).
Definition set_refresh_token x u := mkUser (m_state u) (m_local_identity u) (m_management_session u) (m_permission_session u) (m_server_url u) (m_token_type u) (m_is_admin u) x (m_identity u) (m_sessions u) (m_waiting_sessions u).
Definition set_user_sessions x y u := mkUser (m_state u) (m_local_identity u) (m_management_session u) (m_permission_session u) (m_server_url u) (m_token_type u) (m_is_admin u) (m_refresh_token u) (m_identity u) x y.
Definition set_special_sessions x y u := mkUser (m_state u) (m_local_identity u) x y (m_server_url u) (m_token_type u) (m_is_admin u) (m_refresh_token u) (m_identity u) (m_sessions u) (m_waiting_sessions u).
Definition set_admin x u := mkUser (m_state u) (m_local_identity u) (m_management_session u) (m_permission_session u) (m_server_url u) (m_token_type u) x (m_refresh_token u) (m_identity u) (m_sessions u) (m_waiting_sessions u).

Section manager.
Context `{Disk D} `{BuildMode}.
Abbreviation P := (Prog (World D) UserError).

(** [util::uuid_string], what other processes commit, [mkstemp] followed by the
    removal of the file, the time, and whether the metadata Realm can be opened *)
Context (uuid_string : nat -> string) (others : MetadataRealm -> MetadataRealm).
Context (unique_file_name : string -> Prog D FileError string) (local_time : string).
Context (can_open : D -> bool -> option string -> bool).

Abbreviation get_or_make := (get_or_make_user_metadata uuid_string others).

Definition or_fail {A} (x : option A) : P A := match x with Some a => mret a | None => fails end.
Definition on_disk {A} (m : Prog D FileError A) : P A := fun w =>
  match m (disk w) with
  | returns a d => returns a (set_disk d w)
  | throws e d => throws (file_error e) (set_disk d w)
  | crashes => crashes
  end.

Fixpoint for_each {A} (l : list A) (f : A -> P ()) : P () :=
  match l with [] => mret () | a :: l => _ ← f a; for_each l f end.

(** [m_file_manager] is used: it has a base path. *)
Definition on_files {A} (f : string -> Prog D FileError A) : P A :=
  base ← asks m_file_manager; base ← or_fail base; on_disk (f base).

(** [m_state] and the other members of a user *)
Definition user (n : nat) : P SyncUser := u ← asks (fun w => users w !! n); or_fail u.
Definition update (n : nat) (f : SyncUser -> SyncUser) : P () := modify (fun w => set_users (alter f n (users w)) w).

(** [perform_metadata_update]: what the function returns, when it is run *)
Definition perform_metadata_update {A} (update_function : MetadataRealm -> option (A * MetadataRealm)) : P (option A) :=
  has ← asks m_metadata_manager;
  if has : bool then
    m ← asks metadata;
    r ← or_fail (update_function m);
    _ ← modify (set_metadata r.2);
    mret (Some r.1)
  else mret None.

(** ** Sessions that others keep alive *)
(** An operation of a session *)
Definition run_session {A} (n : nat) (m : M A) : P A :=
  h ← asks (fun w => sessions w !! n);
  h ← or_fail h;
  r ← or_fail (m (session_state h));
  _ ← modify (fun w => set_sessions (<[n := mkHeld (session_path h) (m_config h) r.2]> (sessions w)) w);
  mret r.1.

(** A [shared_ptr] goes. The session is freed with the last one: the manager may
    have one, the external reference has one, and code outside the object store may
    keep one. *)
Definition collect (n : nat) : P () := modify (fun w =>
  match sessions w !! n with
  | Some h => if (m_external_reference (session_state h) =? 0)%nat && bool_decide (manager_sessions w !! session_path h <> Some n)
                 && bool_decide (n ∉ held_outside w)
              then set_sessions (delete n (sessions w)) w else w
  | None => w
  end).

(** [unregister_session]: the session that is found under the path is forgotten,
    whether or not it is the one that calls. [caller] is held by the code that called
    it, another one may go with the manager's [shared_ptr]. *)
Definition unregister_session (caller : nat) (path : string) : P () :=
  it ← asks (fun w => manager_sessions w !! path);
  n ← or_fail it;
  existing ← run_session n Session.existing_external_reference;
  if existing : bool then run_session n Session.drop_external_reference
  else
    _ ← modify (fun w => set_manager_sessions (delete path (manager_sessions w)) w);
    if bool_decide (n = caller) then mret () else collect n.

(** [SyncUser::invalidate] *)
Definition invalidate (n : nat) : P () := update n (set_state Error).

(** What an event of a session calls here; the others are calls of the sync
    client, and the file action is in [session_handle_error]. The handlers of the
    binding are given [shared_from_this()], which they may keep. *)
Definition deliver (n : nat) (e : event) : P () :=
  match e with
  | ev_unregister_session => h ← asks (fun w => sessions w !! n); h ← or_fail h; unregister_session n (session_path h)
  | ev_bind_session_handler | ev_error_handler _ => modify (hold n)
  | ev_invalidate_user => h ← asks (fun w => sessions w !! n); h ← or_fail h; invalidate (config_user (m_config h))
  | _ => mret ()
  end.

Definition call_session {A} (n : nat) (m : M A) : P A :=
  h ← asks (fun w => sessions w !! n);
  h ← or_fail h;
  a ← run_session n m;
  h' ← asks (fun w => sessions w !! n);
  h' ← or_fail h';
  _ ← for_each (drop (length (m_trace (session_state h))) (m_trace (session_state h'))) (deliver n);
  mret a.

(** [update_error_and_mark_file_for_deletion] *)
Definition update_error_and_mark_file_for_deletion (n : nat) (should_backup : ShouldBackup) : P () :=
  h ← asks (fun w => sessions w !! n);
  h ← or_fail h;
  recovery_path ← match should_backup with
    | backup_yes =>
      dir ← on_files recovery_directory_path;
      path ← or_fail (file_path_by_appending_component dir (create_timestamped_template local_time "recovered_realm" 8) File);
      on_disk (unique_file_name path)
    | backup_no => mret EmptyString
    end;
  u ← user (config_user (m_config h));
  _ ← perform_metadata_update (fun m =>
    make_file_action_metadata others (session_path h) (realm_url (m_config h)) (m_identity u)
      match should_backup with backup_yes => BackUpThenDeleteRealm | backup_no => DeleteRealm end (Some recovery_path) m);
  mret ().

(** [handle_error]: the file action comes before the session changes. *)
Definition session_handle_error (n : nat) (e : SyncError) : P () :=
  h ← asks (fun w => sessions w !! n);
  h ← or_fail h;
  _ ← match Session.disposition (error_code e) with
      | Session.delete_file b =>
        if bool_decide (SyncSession.m_state (session_state h) = dying) then mret ()
        else update_error_and_mark_file_for_deletion n b
      | _ => mret ()
      end;
  call_session n (Session.handle_error e).

(** [if (auto session = weak.lock()) ...] *)
Definition alive (n : nat) : P bool := asks (fun w => bool_decide (is_Some (sessions w !! n))).
Definition with_session (n : nat) (body : P ()) : P () :=
  locked ← alive n;
  if locked : bool then scope_exit body (collect n) else mret ().
Definition with_weak (weak : option nat) (body : nat -> P ()) : P () :=
  match weak with Some n => with_session n (body n) | None => mret () end.

(** What a user returns is kept by the caller; a [shared_ptr] outside the object
    store, the binding's or the caller's, goes. *)
Definition hold_all (l : list nat) : P () := for_each l (fun n => modify (hold n)).
Definition let_go (n : nat) : P () :=
  _ ← modify (fun w => set_held (held_outside w ∖ {[n]}) w);
  collect n.

(** ** [SyncUser] *)
Definition new_object : P nat := n ← asks next_object; _ ← modify (set_next (S n)); mret n.

(** [SyncUser::SyncUser] *)
Definition make_user (refresh_token identity_ : string) (server_url local_identity : option string) (token_type : TokenType) : P nat :=
  let url := default EmptyString server_url in
  local ← match token_type with
    | Normal =>
      _ ← assert (nonempty url);
      updated ← perform_metadata_update (fun m =>
        '(md, m) ← get_or_make identity_ url true m;
        md ← md;
        m ← set_user_token others (user_metadata md) (Some refresh_token) m;
        row ← row_of md (user_rows m);
        Some ((Some (user_is_admin row), local_uuid row), m));
      mret (default (None, identity_) updated)
    | Admin => id ← or_fail local_identity; mret (None, id)
    end;
  n ← new_object;
  _ ← modify (fun w => set_users (<[n := mkUser Active local.2 None None url token_type local.1 refresh_token identity_ ∅ ∅]> (users w)) w);
  mret n.

Definition all_sessions (n : nat) : P (list nat) :=
  u ← user n;
  if bool_decide (m_state u = Error) then mret []
  else
    live ← asks (fun w => filter (fun x : string * nat => is_Some (sessions w !! x.2)) (m_sessions u));
    _ ← update n (fun u => set_user_sessions live (m_waiting_sessions u) u);
    mret (snd <$> map_to_list live).

Definition session_for_on_disk_path (n : nat) (path : string) : P (option nat) :=
  u ← user n;
  if bool_decide (m_state u = Error) then mret None
  else
    match m_sessions u !! path with
    | None => mret None
    | Some s =>
      locked ← alive s;
      if locked : bool then mret (Some s)
      else _ ← update n (fun u => set_user_sessions (delete path (m_sessions u)) (m_waiting_sessions u) u); mret None
    end.

(** The sessions of a list of weak pointers that are alive *)
Definition lock_all (l : list nat) : P (list nat) :=
  asks (fun w => filter (fun n => is_Some (sessions w !! n)) l).

(** Moving the sessions that wait; the map and the sessions that were moved *)
Definition locked_waiting (u : SyncUser) : P (gmap string nat) :=
  asks (fun w => filter (fun x : string * nat => is_Some (sessions w !! x.2)) (m_waiting_sessions u)).

(** The updates of the metadata for a token, and for a user that logs out *)
Definition store_token (identity_ url_ token : string) (m : MetadataRealm) : option (() * MetadataRealm) :=
  '(md, m) ← get_or_make identity_ url_ true m;
  md ← md;
  m ← set_user_token others (user_metadata md) (Some token) m;
  Some ((), m).
Definition mark_user (identity_ url_ : string) (m : MetadataRealm) : option (() * MetadataRealm) :=
  '(md, m) ← get_or_make identity_ url_ false m;
  match md with
  | Some md => m ← mark_for_removal others (user_metadata md) m; Some ((), m)
  | None => Some ((), m)
  end.

Definition update_refresh_token (n : nat) (token : string) : P () :=
  u ← user n;
  special ← lock_all (option_list (m_management_session u) ++ option_list (m_permission_session u));
  let update_metadata : P () :=
    if bool_decide (m_token_type u = Admin) then mret ()
    else _ ← perform_metadata_update (store_token (m_identity u) (m_server_url u) token); mret () in
  match m_state u with
  | Error => mret ()
  | Active =>
    _ ← update n (set_refresh_token token);
    _ ← update_metadata;
    for_each special (fun s => call_session s Session.revive_if_needed)
  | LoggedOut =>
    _ ← update n (fun u => set_state Active (set_refresh_token token u));
    locked ← locked_waiting u;
    _ ← update n (fun u => set_user_sessions (locked ∪ m_sessions u) ∅ u);
    _ ← update_metadata;
    for_each (special ++ (snd <$> map_to_list locked)) (fun s => call_session s Session.revive_if_needed)
  end.

(** One session of a user that logs out *)
Definition log_out_session (n : nat) (x : string * nat) : P () :=
  with_session x.2 (
    _ ← call_session x.2 Session.log_out;
    update n (fun u => set_user_sessions (m_sessions u) (<[x.1 := x.2]> (m_waiting_sessions u)) u)).

Definition log_out (n : nat) : P () :=
  u ← user n;
  if bool_decide (m_token_type u = Admin) then mret ()
  else if bool_decide (m_state u = LoggedOut) then mret ()
  else
    _ ← update n (set_state LoggedOut);
    _ ← for_each (map_to_list (m_sessions u)) (log_out_session n);
    _ ← update n (fun u => set_user_sessions ∅ (m_waiting_sessions u) u);
    _ ← with_weak (m_management_session u) (fun s => call_session s Session.log_out);
    _ ← with_weak (m_permission_session u) (fun s => call_session s Session.log_out);
    _ ← perform_metadata_update (mark_user (m_identity u) (m_server_url u));
    mret ().

Definition set_user_is_admin (n : nat) (is_admin : bool) : P () :=
  u ← user n;
  if bool_decide (m_token_type u = Admin) then mret ()
  else
    _ ← update n (set_admin (Some is_admin));
    _ ← perform_metadata_update (fun m =>
      '(md, m) ← get_or_make (m_identity u) (m_server_url u) true m;
      md ← md;
      m ← set_is_admin others (user_metadata md) is_admin m;
      Some ((), m));
    mret ().

Definition register_session (n s : nat) : P () :=
  h ← asks (fun w => sessions w !! s);
  h ← or_fail h;
  let path := session_path h in
  u ← user n;
  match m_state u with
  | Active =>
    _ ← update n (fun u => set_user_sessions (<[path := s]> (m_sessions u)) (m_waiting_sessions u) u);
    call_session s Session.revive_if_needed
  | LoggedOut => update n (fun u => set_user_sessions (m_sessions u) (<[path := s]> (m_waiting_sessions u)) u)
  | Error => mret ()
  end.

(** [get_existing_session]: with an external reference *)
Definition get_existing_session (path : string) : P (option nat) :=
  it ← asks (fun w => manager_sessions w !! path);
  match it with
  | None => mret None
  | Some s => _ ← run_session s Session.external_reference; mret (Some s)
  end.

(** An external reference goes: its last copy tells the session. *)
Definition release_session (s : nat) : P () :=
  _ ← run_session s Session.drop_external_reference;
  h ← asks (fun w => sessions w !! s);
  h ← or_fail h;
  _ ← when (m_external_reference (session_state h) =? 0)%nat (call_session s Session.did_drop_external_reference);
  collect s.

(** [register_management_session], [register_permission_session]: what
    [get_existing_session] returns is kept weakly. *)
Definition register_special_session (get : SyncUser -> option nat) (set : option nat -> SyncUser -> SyncUser) (n : nat) (path : string) : P () :=
  u ← user n;
  held ← match get u with Some s => alive s | None => mret false end;
  if (held : bool) || bool_decide (m_state u = Error) then mret ()
  else
    s ← get_existing_session path;
    _ ← update n (set s);
    match s with Some s => release_session s | None => mret () end.

Definition register_management_session : nat -> string -> P () :=
  register_special_session m_management_session (fun x u => set_special_sessions x (m_permission_session u) u).
Definition register_permission_session : nat -> string -> P () :=
  register_special_session m_permission_session (fun x u => set_special_sessions (m_management_session u) x u).

(** ** [SyncManager] *)
(** [run_file_action]: whether the action can be removed *)
Definition run_file_action (md : FileActionRow) : P bool :=
  match action md with
  | DeleteRealm => _ ← on_disk (remove_realm_at (original_name md)); mret true
  | BackUpThenDeleteRealm =>
    found ← on_disk (exists_ (original_name md));
    if negb found then mret true
    else
      match new_name md with
      | None => mret false
      | Some new_name =>
        taken ← on_disk (exists_ new_name);
        if taken : bool then mret false
        else
          copied ← on_disk (copy_realm_file (original_name md) new_name);
          if copied : bool then _ ← on_disk (remove_realm_at (original_name md)); mret true
          else mret false
      end
  end.

Definition metadata_step {A} (f : MetadataRealm -> option (A * MetadataRealm)) : P A :=
  m ← asks metadata; r ← or_fail (f m); _ ← modify (set_metadata r.2); mret r.1.

Definition action_of (key : nat) : P FileActionRow := m ← asks metadata; or_fail (row_of key (action_rows m)).
Definition user_of (key : nat) : P UserRow := m ← asks metadata; or_fail (row_of key (user_rows m)).
Definition remove_file_action (key : nat) : P () := metadata_step (fun m => m ← remove_action others key m; Some ((), m)).

Definition immediately_run_file_actions (realm_path : string) : P bool :=
  has ← asks m_metadata_manager;
  if negb has then mret false
  else
    m ← asks metadata;
    match get_file_action_metadata realm_path m with
    | None => mret false
    | Some key =>
      md ← action_of key;
      done ← run_file_action md;
      if done : bool then _ ← remove_file_action key; mret true else mret false
    end.

(** The elements of a list for which [f] returns true *)
Fixpoint filter_each (l : list nat) (f : nat -> P bool) : P (list nat) :=
  match l with
  | [] => mret []
  | x :: l => b ← f x; l ← filter_each l f; mret (if b : bool then x :: l else l)
  end.

(** The parts of [configure] *)
Definition run_pending_actions : P () :=
  file_actions ← asks (fun w => all_pending_actions (metadata w));
  completed_actions ← filter_each file_actions (fun key => md ← action_of key; run_file_action md);
  for_each completed_actions remove_file_action.

(** [UserCreationData] *)
Record UserCreationData := mkCreation { data_identity : string; data_token : string; data_url : string; data_admin : bool }.

Definition load_users : P (list UserCreationData) :=
  m ← asks metadata;
  rows ← or_fail (mapM (fun key => row_of key (user_rows m)) (all_unmarked_users m));
  mret (omap (fun r => (fun token => mkCreation (identity r) token (auth_server_url r) (user_is_admin r)) <$> user_token r) rows).

Definition delete_marked_users : P () :=
  users_to_remove ← asks (fun w => all_users_marked_for_removal (metadata w));
  dead_users ← filter_each users_to_remove (fun key =>
    row ← user_of key;
    catch (_ ← on_files (fun base => remove_user_directory base (local_uuid row)); mret true)
      (fun e => match e with file_error e => if is_access_error e then Some (mret false) else None | _ => None end));
  for_each dead_users (fun key => metadata_step (fun m => remove_user others (user_metadata key) m ≫= fun r => Some ((), r.2))).

Definition add_user (d : UserCreationData) : P () :=
  n ← make_user (data_token d) (data_identity d) (Some (data_url d)) None Normal;
  _ ← set_user_is_admin n (data_admin d);
  modify (fun w => match m_users w !! (data_identity d, data_url d) with
                   | Some _ => w
                   | None => set_m_users (<[(data_identity d, data_url d) := n]> (m_users w)) (m_admin_token_users w) w
                   end).

(** [SyncMetadataManager]'s constructor, and the client's identifier *)
Definition open_metadata (should_encrypt : bool) (key : option string) : P () :=
  _ ← on_files metadata_path;
  d ← asks disk;
  if can_open d should_encrypt key then
    w ← get;
    let '(uuid, m) := client_uuid uuid_string others (metadata w) in
    _ ← modify (set_metadata m);
    modify (set_managers (m_file_manager w) true (Some uuid))
  else raise RealmFileException.

(** The metadata Realm of a directory that was removed *)
Definition forget_metadata : P () := modify (fun w => set_metadata (mkMetadata [] [] [] (next_key (metadata w)) (made_uuids (metadata w))) w).

Definition open_encrypted (key : option string) (reset_metadata_on_error : bool) : P () :=
  catch (open_metadata true key) (fun e =>
    if bool_decide (e = RealmFileException) then Some (
      removed ← (if reset_metadata_on_error then on_files remove_metadata_realm else mret false);
      if removed : bool then _ ← forget_metadata; open_metadata true key else raise RealmFileException)
    else None).

Definition initialize : P (list UserCreationData) :=
  _ ← run_pending_actions;
  users_to_add ← load_users;
  _ ← delete_marked_users;
  mret users_to_add.

Definition configure (base_file_path : string) (metadata_mode : MetadataMode) (key : option string) (reset_metadata_on_error : bool) : P () :=
  w ← get;
  _ ← match m_file_manager w with
      | Some base => assert (bool_decide (base = base_file_path))
      | None => modify (set_managers (Some base_file_path) (m_metadata_manager w) (m_client_uuid w))
      end;
  if m_metadata_manager w then mret ()
  else
    match metadata_mode with
    | NoMetadata => mret ()
    | NoEncryption => _ ← open_metadata false None; users_to_add ← initialize; for_each users_to_add add_user
    | Encryption => _ ← open_encrypted key reset_metadata_on_error; users_to_add ← initialize; for_each users_to_add add_user
    end.

Definition get_user (identifier : SyncUserIdentifier) (refresh_token : string) : P (option nat) :=
  it ← asks (fun w => m_users w !! identifier);
  match it with
  | None =>
    n ← make_user refresh_token identifier.1 (Some identifier.2) None Normal;
    _ ← modify (fun w => set_m_users (<[identifier := n]> (m_users w)) (m_admin_token_users w) w);
    mret (Some n)
  | Some n =>
    u ← user n;
    if bool_decide (m_state u = Error) then mret None
    else _ ← update_refresh_token n refresh_token; mret (Some n)
  end.

Definition c_admin_identity : string := "__auth".

Definition add_admin (key : string) (token : string) (server_url : option string) (local_identity : string) : P nat :=
  n ← make_user token c_admin_identity server_url (Some local_identity) Admin;
  _ ← modify (fun w => set_m_users (m_users w) (<[key := n]> (m_admin_token_users w)) w);
  mret n.

Definition get_admin_token_user (server_url token : string) (old_identity : option string) : P nat :=
  it ← asks (fun w => m_admin_token_users w !! server_url);
  match it with
  | Some n => mret n
  | None =>
    n ← add_admin server_url token (Some server_url) (c_admin_identity +:+ server_url);
    _ ← match old_identity with
        | Some old =>
          base ← asks m_file_manager;
          match base with
          | Some base => _ ← on_disk (try_rename_user_directory base old (c_admin_identity +:+ server_url)); mret ()
          | None => mret ()
          end
        | None => mret ()
        end;
    mret n
  end.

Definition get_admin_token_user_from_identity (identity_ : string) (server_url : option string) (token : string) : P nat :=
  match server_url with
  | Some url => get_admin_token_user url token (Some identity_)
  | None =>
    it ← asks (fun w => m_admin_token_users w !! identity_);
    match it with
    | Some n => mret n
    | None => add_admin identity_ token None identity_
    end
  end.

(** The users of [m_users] that are active *)
Definition active_users : P (list nat) :=
  asks (fun w => filter (fun n => m_state <$> users w !! n = Some Active) (snd <$> map_to_list (m_users w))).

Definition all_logged_in_users : P (list nat) :=
  active ← active_users; admins ← asks (fun w => snd <$> map_to_list (m_admin_token_users w)); mret (active ++ admins)%list.

Definition get_current_user : P (option nat) :=
  active ← active_users;
  match active with [] => mret None | [n] => mret (Some n) | _ => raise logic_error end.

Definition get_existing_logged_in_user (identifier : SyncUserIdentifier) : P (option nat) :=
  it ← asks (fun w => m_users w !! identifier);
  match it with
  | None => mret None
  | Some n => u ← user n; mret (if bool_decide (m_state u = Active) then Some n else None)
  end.

Definition path_for_realm (n : nat) (raw_realm_url : string) : P string :=
  u ← user n; on_files (fun base => path base (m_local_identity u) raw_realm_url).
Definition manager_recovery_directory_path : P string := on_files recovery_directory_path.
Definition manager_client_uuid : P string := uuid ← asks m_client_uuid; or_fail uuid.

Definition get_existing_active_session (path : string) : P (option nat) :=
  it ← asks (fun w => manager_sessions w !! path);
  match it with
  | None => mret None
  | Some s => existing ← run_session s Session.existing_external_reference; mret (if existing : bool then Some s else None)
  end.

Definition get_session (path : string) (sync_config : SyncConfig) : P nat :=
  it ← asks (fun w => manager_sessions w !! path);
  match it with
  | Some s =>
    _ ← register_session (config_user sync_config) s;
    _ ← run_session s Session.external_reference;
    mret s
  | None =>
    s ← new_object;
    _ ← modify (fun w => set_sessions (<[s := mkHeld path sync_config (Session.create (stop_policy sync_config) (has_error_handler sync_config) true)]> (sessions w)) w);
    _ ← modify (fun w => set_manager_sessions (<[path := s]> (manager_sessions w)) w);
    _ ← run_session s Session.external_reference;
    _ ← register_session (config_user sync_config) s;
    mret s
  end.

Definition reconnect : P () :=
  l ← asks (fun w => snd <$> map_to_list (manager_sessions w));
  for_each l (fun s => call_session s Session.handle_reconnect).

(** [reset_for_testing]: the sessions that have no external reference go. *)
Definition reset_for_testing : P () :=
  _ ← modify (set_managers None false None);
  _ ← modify (set_m_users ∅ ∅);
  l ← asks (fun w => snd <$> map_to_list (manager_sessions w));
  external ← asks (fun w => filter (fun s => default 0%nat ((fun h => m_external_reference (session_state h)) <$> sessions w !! s) <> 0%nat) l);
  _ ← assert (bool_decide (external = []));
  _ ← modify (set_manager_sessions ∅);
  for_each l collect.
End manager.
