(* ===== verification/SyncUserFacts.v ===== *)
(** * What a user does to its sessions

    The outcomes of the session's operations as the manager sees them, the
    sessions that the manager keeps, and the rules for the programs of
    [SyncUsers]. *)
From stdpp Require Import gmap strings.
From S2P Require Import Prelude.
From S2P Require Import ChangeBuilder.
From S2P Require Import SyncSession.
From S2P Require Import SyncSessionFacts.
From S2P Require Import Effects.
From S2P Require Import SyncFiles.
From S2P Require Import SyncMetadata.
From S2P Require Import SyncUsers.

#[local] Open Scope realm_scope.

(** ** Operations of a session *)
(** Events that are no calls of the manager, of the user or of the binding's
    handlers, and those that are at most calls of these handlers *)
Definition silent (e : event) : bool :=
  match e with ev_unregister_session | ev_invalidate_user | ev_bind_session_handler | ev_error_handler _ => false | _ => true end.
Definition harmless (e : event) : bool :=
  match e with ev_unregister_session | ev_invalidate_user => false | _ => true end.

Section session_facts.
Implicit Types (s : SyncSession).

(** What an operation leaves of a session, and the events it adds *)
Record told s s' (es : list event) : Prop := {
  told_ok : ok s';
  told_trace : m_trace s' = m_trace s ++ es;
  told_external : m_external_reference s' = m_external_reference s
}.

Lemma silent_aborted (l : list CompletionWaitPackage) : forallb silent ((fun p => ev_aborted p.2) <$> l) = true.
Proof. by induction l. Qed.

Lemma ok_unlock s : ok s -> Session.set_lock false (Session.set_lock true s) = s.
Proof. intros [Hl _ _ _]. destruct s. cbn in *. by subst. Qed.

Lemma log_out_told s : ok s -> exists s' es, Session.log_out s = Some (tt, s') /\ told s s' es /\ SyncSession.m_state s' = inactive /\
  ((SyncSession.m_state s = inactive /\ es = []) \/ (SyncSession.m_state s <> inactive /\ exists es', es = ev_unregister_session :: es' /\ forallb silent es' = true)).
Proof.
  intros Hs. pose proof (log_out_outcome s Hs) as Ho. unfold outcome in Ho. cbn [perform] in Ho. destruct (Session.log_out s) as [[[] s']|] eqn:E;
    [|destruct Ho as (_ & ? & ? & _); done]. destruct Ho as [_ Ho]. exists s'.
  assert (SyncSession.m_state s = inactive /\ s' = s \/ SyncSession.m_state s <> inactive /\ s' = deactivated (Session.set_lock true s)) as [[Hi ->]|[Hi ->]].
  { revert E. unfold Session.log_out, Session.with_lock, Session.state_log_out. destruct Hs as [Hl _ _ _]. destruct s as [pol eh us st lk conn dc pk ov se bd dcom dcl url ext tr].
    cbn in Hl. subst lk. cbv beta iota zeta delta [mbind M_bind mret M_ret SyncSession.get put Session.set_lock SyncSession.m_state].
    destruct st; [| | |by intros [= <-]; left]; rewrite advance_inactive_eq by done; intros [= <-]; right; done. }
  - exists []. split; [done|]. split; [constructor; [done|by rewrite app_nil_r|done]|]. split; [done|]. by left.
  - eexists. split; [done|]. split; [constructor; [apply Ho|reflexivity|reflexivity]|]. split; [done|]. right. split; [done|].
    eexists. split; [reflexivity|]. rewrite forallb_app. cbn. rewrite silent_aborted. by destruct (bool_decide _).
Qed.

(** The state after [revive_if_needed] *)
Definition revived (st : SyncSession.State) : SyncSession.State :=
  match st with inactive => waiting_for_access_token | dying => active | st => st end.

Ltac told_step :=
  split; [constructor; [split; cbn; try done; by intros [?|?]|cbn; rewrite ?app_nil_r; try (rewrite <- app_assoc); reflexivity|reflexivity]|split; [done|reflexivity]].

Lemma revive_told s : ok s -> exists s' es, Session.revive_if_needed s = Some (tt, s') /\ told s s' es /\ forallb harmless es = true /\
  SyncSession.m_state s' = revived (SyncSession.m_state s).
Proof.
  intros Hs. unfold Session.revive_if_needed. open_session s Hs.
  destruct st; try (destruct (Hcon (or_introl eq_refl)) as (-> & -> & -> & ->)); try (destruct (Hcon (or_intror eq_refl)) as (-> & -> & -> & ->)); drive; eexists.
  - exists []. split; [done|]. told_step.
  - exists []. split; [done|]. told_step.
  - exists []. split; [done|]. told_step.
  - exists [ev_bind_session_handler]. split; [done|]. told_step.
Qed.

Lemma reconnect_told s : ok s -> exists s' es, Session.handle_reconnect s = Some (tt, s') /\ told s s' es /\ forallb harmless es = true /\
  SyncSession.m_state s' = SyncSession.m_state s.
Proof.
  intros Hs. unfold Session.handle_reconnect. open_session s Hs.
  destruct st; try (destruct (Hcon (or_introl eq_refl)) as (-> & -> & -> & ->)); try (destruct (Hcon (or_intror eq_refl)) as (-> & -> & -> & ->)); drive; eexists.
  - exists [ev_bind_session_handler]. split; [done|]. told_step.
  - exists [ev_cancel_reconnect_delay]. split; [done|]. told_step.
  - exists []. split; [done|]. told_step.
  - exists []. split; [done|]. told_step.
Qed.

End session_facts.

(** ** Operations that leave the external reference alone *)
Section keeps_reference.
Definition same_reference {A} (m : M A) : Prop := forall s a s', m s = Some (a, s') -> m_external_reference s' = m_external_reference s.

Lemma same_reference_bind {A B} (m : M A) (f : A -> M B) : same_reference m -> (forall a, same_reference (f a)) -> same_reference (m ≫= f).
Proof. intros Hm Hf s b s' E. unfold mbind, M_bind in E. destruct (m s) as [[a s1]|] eqn:E1; [|done]. rewrite (Hf _ _ _ _ E). by eapply Hm. Qed.
Lemma same_reference_ret {A} (a : A) : same_reference (mret a).
Proof. by intros s a' s' [= <- <-]. Qed.
Lemma same_reference_get : same_reference SyncSession.get.
Proof. by intros s a s' [= <- <-]. Qed.
Lemma same_reference_fail {A} : same_reference (@SyncSession.fail A).
Proof. done. Qed.
Lemma same_reference_put f : (forall s, m_external_reference (f s) = m_external_reference s) -> same_reference (put f).
Proof. by intros Hf s a s' [= <- <-]. Qed.
Lemma same_reference_assert b : same_reference (SyncSession.realm_assert b).
Proof. destruct b; [apply same_reference_ret|done]. Qed.
Lemma same_reference_emit_all es : same_reference (Session.emit_all es).
Proof. intros s a s'. rewrite emit_all_eq. by intros [= <- <-]. Qed.
End keeps_reference.

Ltac head_of x := match x with ?f _ => head_of f | _ => x end.

Ltac same_reference_step :=
  match goal with
  | |- same_reference (_ ≫= _) => apply same_reference_bind; [|intros ?]
  | |- same_reference (match ?x with _ => _ end) => destruct x
  | |- same_reference (mret _) => apply same_reference_ret
  | |- same_reference SyncSession.get => apply same_reference_get
  | |- same_reference SyncSession.fail => apply same_reference_fail
  | |- same_reference (put _) => apply same_reference_put; by intros []
  | |- same_reference (SyncSession.realm_assert _) => apply same_reference_assert
  | |- same_reference (Session.emit_all _) => apply same_reference_emit_all
  | |- same_reference (let _ := _ in _) => cbv zeta
  | |- same_reference ?m => let h := head_of m in unfold h
  end.

(** Everything that happens to a session, except that its reference is counted *)
Definition reference_call (c : call) : bool :=
  match c with
  | call_external_reference | call_existing_external_reference | call_drop_external_reference => true
  | _ => false
  end.

Lemma perform_same_reference c : reference_call c = false -> same_reference (perform c).
Proof. intros Hc. destruct c; try discriminate; cbn [perform]; repeat same_reference_step. Qed.

Section reference_facts.
Implicit Types (s : SyncSession).

(** Looking whether there is an external reference *)
Lemma existing_eq s : ok s -> Session.existing_external_reference s =
  Some ((0 <? m_external_reference s)%nat, if (0 <? m_external_reference s)%nat then Session.set_external (S (m_external_reference s)) s else s).
Proof.
  intros [Hl _ _ _]. destruct s as [pol eh us st lk conn dc pk ov se bd dcom dcl url ext tr]. cbn in Hl. subst lk.
  by destruct ext.
Qed.
Lemma drop_eq s : Session.drop_external_reference s = Some (tt, Session.set_external (m_external_reference s - 1) s).
Proof. done. Qed.
Lemma external_eq s : ok s -> Session.external_reference s = Some (tt, Session.set_external (S (m_external_reference s)) s).
Proof. intros [Hl _ _ _]. destruct s as [pol eh us st lk conn dc pk ov se bd dcom dcl url ext tr]. cbn in Hl. by subst lk. Qed.
Lemma external_ok x s : ok s -> ok (Session.set_external x s).
Proof. intros [H1 H2 H3 H4]. destruct s. by constructor. Qed.
End reference_facts.

(** ** The sessions that the manager keeps *)
Section registry.
Context `{HD : Disk D}.
Implicit Types (w : World D) (h : Held).
Abbreviation P := (Prog (World D) UserError).

(** A session has a new state. *)
Definition store (n : nat) h (s : SyncSession) w : World D :=
  set_sessions (<[n := mkHeld (session_path h) (m_config h) s]> (sessions w)) w.

Lemma store_same n h w : sessions w !! n = Some h -> store n h (session_state h) w = w.
Proof. intros E. destruct w, h. unfold store, set_sessions. cbn in *. by rewrite insert_id. Qed.

Lemma run_session_eq {A} n (m : M A) w h a s' : sessions w !! n = Some h -> m (session_state h) = Some (a, s') ->
  run_session n m w = returns a (store n h s' w).
Proof. intros E Em. unfold run_session, mbind, Prog_bind, asks, or_fail. rewrite E. cbn. by rewrite Em. Qed.

Lemma call_session_eq {A} n (m : M A) w h a s' es : sessions w !! n = Some h -> m (session_state h) = Some (a, s') ->
  m_trace s' = m_trace (session_state h) ++ es ->
  call_session n m w = (_ ← for_each es (deliver n); mret a) (store n h s' w).
Proof.
  intros E Em Et. unfold call_session at 1. unfold mbind, Prog_bind, asks, or_fail. rewrite E. cbn -[run_session for_each].
  rewrite (run_session_eq _ _ _ _ _ _ E Em). cbn -[for_each]. rewrite lookup_insert_eq. cbn -[for_each].
  rewrite Et, drop_app_length. reflexivity.
Qed.

Lemma for_each_silent n es w : forallb silent es = true -> for_each es (deliver n) w = returns () w.
Proof.
  induction es as [|e es IH]; [done|]. cbn [forallb for_each]. rewrite andb_true_iff. intros [He Hes].
  unfold mbind, Prog_bind. assert (deliver n e w = returns () w) as -> by by destruct e. by apply IH.
Qed.

Lemma hold_twice n w : hold n (hold n w) = hold n w.
Proof. unfold hold, set_held. cbn. by rewrite (assoc_L (∪)), (idemp_L (∪)). Qed.

Lemma for_each_harmless n es w : forallb harmless es = true -> exists w', for_each es (deliver n) w = returns () w' /\ (w' = w \/ w' = hold n w).
Proof.
  revert w. induction es as [|e es IH]; intros w; [intros _; exists w; auto|]. cbn [forallb for_each]. rewrite andb_true_iff. intros [He Hes].
  unfold mbind, Prog_bind. assert (exists w1, deliver n e w = returns () w1 /\ (w1 = w \/ w1 = hold n w)) as (w1 & -> & Hw1) by (destruct e; first [done|eexists; split; [reflexivity|auto]]).
  destruct (IH w1 Hes) as (w' & -> & Hw'). exists w'. split; [done|]. destruct Hw1 as [->| ->], Hw' as [->| ->]; rewrite ?hold_twice; auto.
Qed.

(** The handler of the binding may have been given the session. *)
Lemma call_harmless {A} n (m : M A) w h a s' es : sessions w !! n = Some h -> m (session_state h) = Some (a, s') ->
  m_trace s' = m_trace (session_state h) ++ es -> forallb harmless es = true ->
  exists w', call_session n m w = returns a w' /\ (w' = store n h s' w \/ w' = hold n (store n h s' w)).
Proof.
  intros E Em Et Hs. rewrite (call_session_eq _ _ _ _ _ _ _ E Em Et). unfold mbind, Prog_bind.
  destruct (for_each_harmless n es (store n h s' w) Hs) as (w' & -> & Hw'). by exists w'.
Qed.

(** A session that is not referenced is forgotten. *)
Definition unregistered (path : string) (s : SyncSession) w : World D :=
  if (0 <? m_external_reference s)%nat then w else set_manager_sessions (delete path (manager_sessions w)) w.

(** The session that the manager let go, if it is not the one that calls *)
Definition evicted (caller n : nat) (s : SyncSession) : Prog (World D) UserError () :=
  if (0 <? m_external_reference s)%nat then mret () else if bool_decide (n = caller) then mret () else collect n.

Lemma unregister_eq caller path n h w : manager_sessions w !! path = Some n -> sessions w !! n = Some h -> ok (session_state h) ->
  unregister_session caller path w = evicted caller n (session_state h) (unregistered path (session_state h) w).
Proof.
  intros Em E Hs. unfold unregister_session, unregistered, evicted. unfold mbind at 1, Prog_bind at 1, asks. rewrite Em. cbn [or_fail].
  unfold mbind at 1, Prog_bind at 1, mret, Prog_ret. unfold mbind, Prog_bind. rewrite (run_session_eq _ _ _ _ _ _ E (existing_eq _ Hs)).
  destruct (Nat.ltb_spec 0 (m_external_reference (session_state h))) as [Hlt|Hle]; cbn [fst snd].
  - assert (sessions (store n h (Session.set_external (S (m_external_reference (session_state h))) (session_state h)) w) !! n =
      Some (mkHeld (session_path h) (m_config h) (Session.set_external (S (m_external_reference (session_state h))) (session_state h)))) as E' by (cbn; by rewrite lookup_insert_eq).
    rewrite (run_session_eq _ _ _ _ _ _ E' (drop_eq _)). f_equal. transitivity (store n h (session_state h) w); [|by apply store_same].
    unfold store, set_sessions. cbn [session_state session_path m_config held_outside sessions users next_object m_users m_admin_token_users manager_sessions m_file_manager m_metadata_manager m_client_uuid metadata disk].
    rewrite insert_insert_eq. f_equal. f_equal. f_equal. destruct (session_state h) as [? ? ? ? ? ? ? ? ? ? ? ? ? ? ext ?]. cbn in *. unfold Session.set_external. cbn. f_equal. lia.
  - by rewrite store_same.
Qed.

End registry.

(** ** The invariant of the manager *)
Definition user_ok (u : SyncUser) : Prop :=
  (m_state u = Active -> m_waiting_sessions u = ∅) /\ (m_state u = LoggedOut -> m_sessions u = ∅).

(** Whose user it is *)
Definition same_identity (u u' : SyncUser) : Prop :=
  m_identity u' = m_identity u /\ m_server_url u' = m_server_url u /\ m_token_type u' = m_token_type u.

(** The manager keeps the sessions that are alive, each under its path; those that it
    let go have no external reference and are kept outside. [x] are the sessions that
    the running code holds, [y] a user that is being logged out. *)
Record inv {D} (x : nat -> Prop) (y : option nat) (w : World D) : Prop := {
  inv_registered s h : sessions w !! s = Some h -> manager_sessions w !! session_path h = Some s \/
    (m_external_reference (session_state h) = 0%nat /\ (s ∈ held_outside w \/ x s));
  inv_alive p s : manager_sessions w !! p = Some s -> exists h, sessions w !! s = Some h /\ session_path h = p;
  inv_sessions s h : sessions w !! s = Some h -> ok (session_state h) /\ (s < next_object w)%nat;
  inv_users n u : users w !! n = Some u ->
    (if decide (y = Some n) then m_state u <> Active else user_ok u) /\ (n < next_object w)%nat;
  inv_identities id n : m_users w !! id = Some n ->
    exists u, users w !! n = Some u /\ (m_identity u, m_server_url u) = id /\ m_token_type u = Normal;
  inv_admins id n : m_admin_token_users w !! id = Some n -> exists u, users w !! n = Some u /\ m_token_type u = Admin
}.

(** No session is held by the code that runs. *)
Definition nobody (s : nat) : Prop := False.

Section invariant.
Context `{HD : Disk D} `{HB : BuildMode}.
Implicit Types (w : World D) (h : Held) (x : nat -> Prop) (y : option nat) (R : World D -> Prop).
Abbreviation P := (Prog (World D) UserError).

Lemma inv_weaken x x' y w : (forall s, x s -> x' s) -> inv x y w -> inv x' y w.
Proof. intros Hx [H1 H2 H3 H4 H5 H6]. constructor; [|done..]. intros s h E. destruct (H1 s h E) as [|(? & [?|?])]; eauto. Qed.

Lemma inv_nobody x y w : inv nobody y w -> inv x y w.
Proof. apply inv_weaken. by intros s []. Qed.

(** Somebody outside keeps a session. *)
Lemma inv_hold x y n w : inv x y w -> inv x y (hold n w).
Proof.
  intros [H1 H2 H3 H4 H5 H6]. constructor; cbn; [|done..]. intros s h E. destruct (H1 s h E) as [|(? & [?|?])]; [auto| |auto].
  right. split; [done|]. left. by apply elem_of_union_r.
Qed.

(** The state of a session changes. *)
Lemma inv_store x y n h s w : inv x y w -> sessions w !! n = Some h -> ok s ->
  manager_sessions w !! session_path h = Some n \/ (m_external_reference (session_state h) = 0%nat -> m_external_reference s = 0%nat) ->
  inv x y (store n h s w).
Proof.
  intros [H1 H2 H3 H4 H5 H6] E Hs Hext. constructor; cbn; [| | |done..].
  - intros k g [[<- <-]|[Hne Ek]]%lookup_insert_Some; cbn; [|by apply H1]. destruct Hext as [|Hext]; [by left|].
    destruct (H1 n h E) as [|(He & Hx)]; [by left|]. right. auto.
  - intros p k (g & Eg & Ep)%H2. destruct (decide (n = k)) as [<-|Hne]; [|exists g; by rewrite lookup_insert_ne].
    rewrite lookup_insert_eq. assert (g = h) as -> by congruence. by eexists.
  - intros k g [[<- <-]|[Hne Ek]]%lookup_insert_Some; [|by apply H3]. split; [done|]. by destruct (H3 n h E).
Qed.

(** The manager lets a session go. *)
Lemma inv_unregister x y n h w : inv x y w -> sessions w !! n = Some h -> manager_sessions w !! session_path h = Some n ->
  inv (fun s => s = n \/ x s) y (unregistered (session_path h) (session_state h) w).
Proof.
  intros Hw E Em. unfold unregistered. destruct (Nat.ltb_spec 0 (m_external_reference (session_state h))); [by apply (inv_weaken x); [intros s ?; right|]|].
  destruct Hw as [H1 H2 H3 H4 H5 H6]. constructor; cbn; [| |done..].
  - intros k g Ek. destruct (decide (k = n)) as [->|Hne].
    + right. assert (g = h) as -> by congruence. split; [lia|auto].
    + destruct (H1 k g Ek) as [Ek'|(He & [?|?])]; [|auto..]. left. rewrite lookup_delete_ne; [done|]. intros Ep. congruence.
  - intros p k [Hp Ek]%lookup_delete_Some. by apply H2.
Qed.

(** The code lets go of the session [n]. *)
Lemma inv_collect x x' y n w : (forall s, x s -> s = n \/ x' s) -> inv x y w -> wlp (collect n) w (fun _ => inv x' y) (fun _ _ => False).
Proof.
  intros Hx [H1 H2 H3 H4 H5 H6]. unfold collect. apply ends_modify.
  assert (forall s g, sessions w !! s = Some g -> s <> n -> manager_sessions w !! session_path g = Some s \/
    (m_external_reference (session_state g) = 0%nat /\ (s ∈ held_outside w \/ x' s))) as Hother.
  { intros s g Es Hne. destruct (H1 s g Es) as [|(He & [?|[?|?]%Hx])]; tauto. }
  destruct (sessions w !! n) as [h|] eqn:E; [|constructor; [|done..]; intros s g Es; apply Hother; congruence].
  destruct (_ && _ && _) eqn:Eb.
  - apply andb_prop in Eb as [[_ Em%bool_decide_eq_true]%andb_prop _]. constructor; cbn; [| | |done..].
    + intros s g [Hne Es]%lookup_delete_Some. by apply Hother.
    + intros p s Ep. destruct (H2 p s Ep) as (g & Es & <-). exists g. split; [|done]. rewrite lookup_delete_ne; [done|]. intros ->.
      assert (g = h) as -> by congruence. done.
    + intros s g [Hne Es]%lookup_delete_Some. by apply H3.
  - constructor; [|done..]. intros s g Es. destruct (decide (s = n)) as [->|Hne]; [|by apply Hother]. assert (g = h) as -> by congruence.
    destruct (H1 n h E) as [|(He & Hn)]; [by left|]. rewrite He in Eb. cbn in Eb. apply andb_false_iff in Eb as [Eb|Eb]; apply bool_decide_eq_false, dec_stable in Eb; auto.
Qed.
(** *** Rules *)
Context (uuid_string : nat -> string) (others : MetadataRealm -> MetadataRealm).

Lemma wlp_user {A} n w (f : SyncUser -> P A) (Q : A -> World D -> Prop) (R' : UserError -> World D -> Prop) :
  (forall u, users w !! n = Some u -> wlp (f u) w Q R') -> wlp (user n ≫= f) w Q R'.
Proof. intros HQ. unfold user, or_fail, ends, mbind, Prog_bind, asks. destruct (users w !! n) as [u|]; [by apply HQ|done]. Qed.

Lemma wlp_held {A} n w (f : Held -> P A) (Q : A -> World D -> Prop) (R' : UserError -> World D -> Prop) :
  (forall h, sessions w !! n = Some h -> wlp (f h) w Q R') -> wlp (h ← asks (fun w => sessions w !! n); h ← or_fail h; f h) w Q R'.
Proof. intros HQ. unfold or_fail, ends, mbind, Prog_bind, asks. destruct (sessions w !! n) as [h|]; [by apply HQ|done]. Qed.

Lemma keeps_for_each (I R : World D -> Prop) {A} (l : list A) f : (forall a, a ∈ l -> keeps I R (f a)) -> keeps I R (for_each l f).
Proof.
  induction l as [|a l IH]; intros Hf; cbn [for_each]; [apply keeps_ret|].
  apply keeps_bind; [apply Hf; by left|]. intros []. apply IH. intros b Hb. apply Hf. by right.
Qed.

Lemma keeps_or_fail (I R : World D -> Prop) {A} (a : option A) : keeps I R (or_fail a).
Proof. destruct a; [apply keeps_ret|apply keeps_fails]. Qed.

Lemma keeps_user (I R : World D -> Prop) n : keeps I R (user n).
Proof. apply keeps_bind; [apply keeps_asks|]. intros u. apply keeps_or_fail. Qed.

Lemma inv_alter x y y' n f w : inv x y w ->
  (forall u, users w !! n = Some u -> same_identity u (f u) /\ if decide (y' = Some n) then m_state (f u) <> Active else user_ok (f u)) ->
  (forall k u, k <> n -> (if decide (y = Some k) then m_state u <> Active else user_ok u) -> if decide (y' = Some k) then m_state u <> Active else user_ok u) ->
  inv x y' (set_users (alter f n (users w)) w).
Proof.
  intros [H1 H2 H3 H4 H5 H6] Hf Hy.
  assert (forall k u, users w !! k = Some u -> exists u', alter f n (users w) !! k = Some u' /\ same_identity u u') as Hsame.
  { intros k u E. destruct (decide (k = n)) as [->|Hne].
    - exists (f u). rewrite lookup_alter_eq, E. split; [done|]. by apply Hf.
    - exists u. rewrite lookup_alter_ne by done. by split. }
  constructor; cbn; [done|done|done| | |].
  - intros k u' [(<- & u & E & ->)|[Hne E]]%lookup_alter_Some.
    + destruct (H4 n u E) as [_ Hlt]. split; [|done]. by apply Hf.
    + destruct (H4 k u' E) as [Hu Hlt]. split; [|done]. by apply (Hy k u').
  - intros id k (u & E & Eid & Et)%H5. destruct (Hsame k u E) as (u' & E' & Ei & Eu & Ek). exists u'. split; [done|]. split; congruence.
  - intros id k (u & E & Et)%H6. destruct (Hsame k u E) as (u' & E' & Ei & Eu & Ek). exists u'. split; [done|]. congruence.
Qed.
(** A change of a user that the invariant allows *)
Definition allowed_change y n (f : SyncUser -> SyncUser) : Prop :=
  forall u, same_identity u (f u) /\ if decide (y = Some n) then m_state u <> Active -> m_state (f u) <> Active else user_ok u -> user_ok (f u).

Lemma keeps_user_update x y n f R : allowed_change y n f -> keeps (inv x y) R (update n f).
Proof.
  intros Hf. apply keeps_modify. intros w Hw. apply (inv_alter x y y); [done| |done].
  intros u E. destruct (Hf u) as [Hs Hu]. split; [done|]. destruct (inv_users x y w Hw n u E) as [Hold _]. by destruct (decide _); apply Hu.
Qed.

Lemma keeps_metadata x y R {A} (f : MetadataRealm -> option (A * MetadataRealm)) : keeps (inv x y) R (perform_metadata_update f).
Proof.
  unfold perform_metadata_update. apply keeps_bind; [apply keeps_asks|]. intros [].
  - apply keeps_bind; [apply keeps_asks|]. intros m. apply keeps_bind; [apply keeps_or_fail|]. intros r. apply keeps_bind; [|intros ?; apply keeps_ret].
    apply keeps_modify. by intros w [H1 H2 H3 H4 H5 H6].
  - apply keeps_ret.
Qed.

Lemma keeps_invalidate x y n R : keeps (inv x y) R (invalidate n).
Proof. apply keeps_user_update. intros u. split; [done|]. by destruct (decide _). Qed.

Lemma keeps_session_deliver y n e R : keeps (inv (eq n) y) R (deliver n e).
Proof.
  destruct e; cbn [deliver]; try apply keeps_ret; intros w Hw; [by apply ends_modify, inv_hold| | |by apply ends_modify, inv_hold]; apply wlp_held; intros h E; [|by apply keeps_invalidate].
  destruct (manager_sessions w !! session_path h) as [m|] eqn:Em; [|unfold unregister_session, ends, mbind, Prog_bind, asks; by rewrite Em].
  destruct (inv_alive _ _ w Hw _ _ Em) as (g & Eg & Ep). rewrite <- Ep in Em |- *.
  unfold ends. rewrite (unregister_eq n _ m g) by (try done; by eapply inv_sessions).
  pose proof (inv_unregister _ _ _ _ _ Hw Eg Em) as H1. unfold evicted. destruct (_ <? _)%nat eqn:Ex.
  - unfold unregistered. by rewrite Ex.
  - destruct (bool_decide_reflect (m = n)) as [->|Hne]; [by apply (inv_weaken (fun s => s = n \/ n = s)); [intros s [?|?]|]|].
    eapply ends_mono; [exact (inv_collect _ (eq n) y m _ (fun s Hs => Hs) H1)|done|done].
Qed.

(** Operations of sessions that keep them in order *)
Definition orderly {A} (m : M A) : Prop := same_reference m /\ forall s a s', ok s -> m s = Some (a, s') -> ok s'.

Lemma perform_orderly c : reference_call c = false -> orderly (perform c).
Proof.
  intros Hc. split; [by apply perform_same_reference|]. intros s a s' Hs E. pose proof (perform_outcome c s Hs) as Ho. unfold outcome in Ho.
  rewrite E in Ho. by destruct Ho as [_ [Hok _]].
Qed.

Lemma keeps_session_call y n {A} (m : M A) R : orderly m -> keeps (inv (eq n) y) R (call_session n m).
Proof.
  intros [Hr Hm] w Hw. unfold call_session. apply wlp_held. intros h E. destruct (m (session_state h)) as [[a s']|] eqn:Em.
  - apply ends_bind. unfold ends at 1. rewrite (run_session_eq _ _ _ _ _ _ E Em).
    assert (inv (eq n) y (store n h s' w)) as Hs.
    { apply inv_store; [done|done|eapply Hm; [by eapply inv_sessions|done]|right; intros He; by rewrite (Hr _ _ _ Em)]. }
    apply wlp_held. intros h' _. eapply ends_keeps_then; [apply keeps_for_each; intros ? _; apply keeps_session_deliver|done|done|]. intros [] w' Hw'. by apply ends_ret.
  - unfold run_session, ends, mbind, Prog_bind, asks, or_fail. rewrite E. cbn. by rewrite Em.
Qed.

Lemma inv_let_go y n w : inv (eq n) y w -> wlp (collect n) w (fun _ => inv nobody y) (fun _ _ => False).
Proof. apply inv_collect. intros s <-. by left. Qed.

Lemma keeps_with_session y n (body : P ()) R : keeps (inv (eq n) y) (fun _ => False) body -> keeps (inv nobody y) R (with_session n body).
Proof.
  intros Hb. unfold with_session. apply keeps_bind; [apply keeps_asks|]. intros []; [|apply keeps_ret]. intros w Hw. apply ends_scope_exit.
  eapply ends_mono; [apply Hb; by apply inv_nobody| |done]. intros ? w' Hw'. eapply ends_mono; [exact (inv_let_go y n w' Hw')|done|done].
Qed.

Lemma keeps_with_weak y weak (body : nat -> P ()) R : (forall n, keeps (inv (eq n) y) (fun _ => False) (body n)) -> keeps (inv nobody y) R (with_weak weak body).
Proof. intros Hb. destruct weak; [by apply keeps_with_session|apply keeps_ret]. Qed.

(** Operations that tell the manager nothing *)
Definition tells_nothing {A} (m : M A) : Prop :=
  forall s, ok s -> exists a s' es, m s = Some (a, s') /\ told s s' es /\ forallb harmless es = true.

(** They leave the manager's sessions what they are. *)
Lemma harmless_call x y n {A} (m : M A) w (R : UserError -> World D -> Prop) : tells_nothing m -> inv x y w ->
  wlp (call_session n m) w (fun _ w' => inv x y w' /\ manager_sessions w' = manager_sessions w) R.
Proof.
  intros Hm Hw. destruct (sessions w !! n) as [h|] eqn:E.
  - destruct (Hm (session_state h)) as (a & s' & es & Em & [Hok Ht He] & Hs); [by eapply inv_sessions|].
    destruct (call_harmless n m w h a s' es E Em Ht Hs) as (w' & Ec & Hw'). unfold ends. rewrite Ec.
    assert (inv x y (store n h s' w)) as H1 by (apply inv_store; [done..|]; right; by rewrite He).
    destruct Hw' as [->| ->]; split; [done..|by apply inv_hold|done].
  - unfold call_session, ends, mbind, Prog_bind, asks. by rewrite E.
Qed.

Lemma keeps_silent x y n {A} (m : M A) R : tells_nothing m -> keeps (inv x y) R (call_session n m).
Proof. intros Hm w Hw. eapply ends_mono; [by apply (harmless_call x y n m w (fun _ => R))|by intros ? w' []|done]. Qed.

Lemma revive_silent : tells_nothing Session.revive_if_needed.
Proof. intros s (s' & es & E & Ht & Hs & _)%revive_told. by exists tt, s', es. Qed.
Lemma reconnect_silent : tells_nothing Session.handle_reconnect.
Proof. intros s (s' & es & E & Ht & Hs & _)%reconnect_told. by exists tt, s', es. Qed.
Lemma log_out_orderly : orderly Session.log_out.
Proof. apply (perform_orderly call_log_out). done. Qed.
(** *** The operations keep the invariant *)
Lemma keeps_log_out_session n (x : string * nat) R : keeps (inv nobody (Some n)) R (log_out_session n x).
Proof.
  apply keeps_with_session. apply keeps_bind; [apply keeps_session_call, log_out_orderly|]. intros [].
  apply keeps_user_update. intros u. split; [done|]. by rewrite decide_True.
Qed.

Lemma keeps_log_out n R : keeps (inv nobody None) R (log_out uuid_string others n).
Proof.
  intros w Hw. unfold log_out. apply wlp_user. intros u Eu. destruct (bool_decide _); [done|]. destruct (bool_decide _); [done|].
  apply ends_bind, ends_modify. assert (inv nobody (Some n) (set_users (alter (set_state LoggedOut) n (users w)) w)) as H1.
  { apply (inv_alter nobody None); [done|intros u' _; split; [done|by rewrite decide_True]|].
    intros k u' Hk Hu. by rewrite decide_False by congruence. }
  eapply ends_keeps_then; [apply keeps_for_each; intros x _; apply keeps_log_out_session|done|by intros|]. intros [] w2 H2. cbv beta in H2.
  apply ends_bind, ends_modify. assert (inv nobody None (set_users (alter (fun u => set_user_sessions ∅ (m_waiting_sessions u) u) n (users w2)) w2)) as H3.
  { apply (inv_alter nobody (Some n)); [done| |].
    - intros u' E. split; [done|]. rewrite decide_False by done. destruct (inv_users _ _ _ H2 n u' E) as [Ha _]. rewrite decide_True in Ha by done. by split.
    - intros k u' Hk. by rewrite decide_False, decide_False by congruence. }
  revert H3. apply (keeps_bind _ R); [apply keeps_with_weak; intros k; apply keeps_session_call, log_out_orderly|]. intros [].
  apply keeps_bind; [apply keeps_with_weak; intros k; apply keeps_session_call, log_out_orderly|]. intros [].
  apply keeps_bind; [apply keeps_metadata|]. intros ?. apply keeps_ret.
Qed.

Lemma keeps_update_metadata x y R b {A} (f : MetadataRealm -> option (A * MetadataRealm)) :
  keeps (inv x y) R (if b : bool then mret () else _ ← perform_metadata_update f; mret ()).
Proof. destruct b; [apply keeps_ret|]. apply keeps_bind; [apply keeps_metadata|]. intros ?. apply keeps_ret. Qed.

Lemma keeps_revive_all l R : keeps (inv nobody None) R (for_each l (fun s => call_session s Session.revive_if_needed)).
Proof. apply keeps_for_each. intros s _. apply keeps_silent, revive_silent. Qed.

Lemma keeps_update_refresh_token n token R : keeps (inv nobody None) R (update_refresh_token uuid_string others n token).
Proof.
  intros w Hw. unfold update_refresh_token. apply wlp_user. intros u Eu. apply ends_bind, ends_asks. cbv zeta. destruct (m_state u) eqn:Est.
  - apply ends_bind, ends_modify, ends_bind, ends_asks, ends_bind, ends_modify. cbn [users sessions set_users]. rewrite alter_alter_eq.
    assert (forall locked, inv nobody None (set_users (alter ((fun u => set_user_sessions (locked ∪ m_sessions u) ∅ u) ∘ (fun u => set_state Active (set_refresh_token token u))) n (users w)) w)) as H1.
    { intros locked. apply (inv_alter nobody None); [done|intros u' _; by repeat split|done]. }
    eapply ends_keeps_then; [apply keeps_update_metadata|apply H1|by intros|]. intros [] w' Hw'. by apply keeps_revive_all.
  - revert Hw. apply (keeps_bind _ R); [apply keeps_user_update; intros u'; split; [done|by destruct (decide _)]|]. intros [].
    apply keeps_bind; [apply keeps_update_metadata|]. intros []. apply keeps_revive_all.
  - by apply ends_ret.
Qed.
Lemma keeps_set_is_admin n b R : keeps (inv nobody None) R (set_user_is_admin uuid_string others n b).
Proof.
  apply keeps_bind; [apply keeps_user|]. intros u. destruct (bool_decide _); [apply keeps_ret|].
  apply keeps_bind; [apply keeps_user_update; intros u'; split; [done|by destruct (decide _)]|]. intros [].
  apply keeps_bind; [apply keeps_metadata|]. intros ?. apply keeps_ret.
Qed.

Lemma register_session_inv n s w (R : UserError -> World D -> Prop) : inv nobody None w ->
  wlp (register_session n s) w (fun _ w' => inv nobody None w' /\ manager_sessions w' = manager_sessions w) R.
Proof.
  intros Hw. unfold register_session. apply wlp_held. intros h Eh. apply wlp_user. intros u Eu. destruct (m_state u) eqn:Est; [| |by apply ends_ret].
  - apply ends_modify. split; [|done]. apply (inv_alter nobody None); [done| |done]. intros u' E. assert (u' = u) as -> by congruence. split; [done|]. split; [cbn; congruence|].
    destruct (inv_users _ _ _ Hw n u E) as [[_ Hout] _]. exact Hout.
  - apply ends_bind, ends_modify. set (w1 := set_users _ w). apply (harmless_call nobody None s _ w1); [apply revive_silent|].
    apply (inv_alter nobody None); [done| |done]. intros u' E. assert (u' = u) as -> by congruence.
    split; [done|]. destruct (inv_users _ _ _ Hw n u E) as [[Hin _] _]. split; [exact Hin|cbn; congruence].
Qed.

Lemma keeps_register_session n s R : keeps (inv nobody None) R (register_session n s).
Proof. intros w Hw. eapply ends_mono; [by apply (register_session_inv n s w (fun _ => R))|by intros ? w' []|done]. Qed.

(** A new number *)
Lemma inv_next x y w : inv x y w -> inv x y (set_next (S (next_object w)) w).
Proof.
  intros [H1 H2 H3 H4 H5 H6]. constructor; cbn; [done|done| | |done|done].
  - intros s h E. destruct (H3 s h E). split; [done|lia].
  - intros n u E. destruct (H4 n u E). split; [done|lia].
Qed.

Lemma inv_new_user u w : inv nobody None w -> m_sessions u = ∅ -> m_waiting_sessions u = ∅ ->
  inv nobody None (set_users (<[next_object w := u]> (users w)) (set_next (S (next_object w)) w)).
Proof.
  intros Hw Hs Hq. pose proof (inv_next _ _ _ Hw) as [H1 H2 H3 H4 H5 H6]. assert (users w !! next_object w = None) as Hnew.
  { destruct (users w !! next_object w) as [v|] eqn:E; [|done]. destruct (inv_users _ _ _ Hw _ _ E). lia. }
  constructor; cbn; [done|done|done| | |].
  - intros n v [[<- <-]|[Hne E]]%lookup_insert_Some; [|by apply H4]. split; [|lia]. done.
  - intros id n (v & E & Hv)%H5. exists v. split; [|done]. rewrite lookup_insert_ne; [done|]. intros <-. cbn in E. congruence.
  - intros id n (v & E & Hv)%H6. exists v. split; [|done]. rewrite lookup_insert_ne; [done|]. intros <-. cbn in E. congruence.
Qed.

(** A new user, with its identity *)
Lemma make_user_inv token i url local ty w R : inv nobody None w ->
  wlp (make_user uuid_string others token i url local ty) w (fun n w' => inv nobody None w' /\
    exists u, users w' !! n = Some u /\ (m_identity u, m_server_url u) = (i, default EmptyString url) /\ m_token_type u = ty) (fun _ => R).
Proof.
  intros Hw. unfold make_user. cbv zeta. eapply (ends_keeps_then (inv nobody None) R); [|done|by intros|].
  - destruct ty.
    + apply keeps_bind; [apply keeps_assert|]. intros ?. apply keeps_bind; [apply keeps_metadata|]. intros ?. apply keeps_ret.
    + apply keeps_bind; [apply keeps_or_fail|]. intros ?. apply keeps_ret.
  - intros local' w' Hw'. unfold new_object. apply ends_bind, ends_bind, ends_asks, ends_bind, ends_modify, ends_ret, ends_bind, ends_modify, ends_ret.
    split; [refine (inv_new_user _ w' Hw' _ _); reflexivity|]. eexists. split; [cbn; apply lookup_insert_eq|]. done.
Qed.

Lemma inv_add_user id n w : inv nobody None w -> (exists u, users w !! n = Some u /\ (m_identity u, m_server_url u) = id /\ m_token_type u = Normal) ->
  inv nobody None (set_m_users (<[id := n]> (m_users w)) (m_admin_token_users w) w).
Proof.
  intros [H1 H2 H3 H4 H5 H6] Hn. constructor; cbn; [done..| |done]. intros id' n' [[<- <-]|[_ E]]%lookup_insert_Some; [done|by apply H5].
Qed.

Lemma keeps_get_user id token R : keeps (inv nobody None) R (get_user uuid_string others id token).
Proof.
  intros w Hw. unfold get_user. apply ends_bind, ends_asks. destruct (m_users w !! id) as [n|] eqn:E.
  - apply wlp_user. intros u Eu. destruct (bool_decide _); [by apply ends_ret|]. revert Hw. apply (keeps_bind _ R); [apply keeps_update_refresh_token|].
    intros []. apply keeps_ret.
  - eapply ends_then; [by apply make_user_inv|]. intros n w' (Hw' & u & Eu & Hid & Ht). apply ends_bind, ends_modify, ends_ret.
    apply inv_add_user; [done|]. exists u. by destruct id.
Qed.
End invariant.
