(* ===== verification/SyncUserTheorems.v ===== *)
(** * Correctness of synchronized users

    What the manager keeps, whatever its operations and the sessions do; logging
    a user out and in; the file actions. *)
From stdpp Require Import gmap strings.
From S2P Require Import Prelude.
From S2P Require Import ChangeBuilder.
From S2P Require Import SyncSession.
From S2P Require Import SyncSessionFacts.
From S2P Require Import Effects.
From S2P Require Import SyncFiles.
From S2P Require Import SyncMetadata.
From S2P Require Import SyncUsers.
From S2P Require Import SyncUserFacts.

#[local] Open Scope realm_scope.

(** ** The invariant of the manager *)
Section operations.
Context `{HD : Disk D} `{HB : BuildMode}.
Implicit Types (w : World D) (h : Held) (R : World D -> Prop).
Context (uuid_string : nat -> string) (others : MetadataRealm -> MetadataRealm).
Context (unique_file_name : string -> Prog D FileError string) (local_time : string).
Context (can_open : D -> bool -> option string -> bool).
Abbreviation P := (Prog (World D) UserError).
Abbreviation Inv := (inv (D:=D) nobody None).
(** The invariant holds however an operation ends. *)
Abbreviation safe m := (keeps (E:=UserError) Inv Inv m).

Lemma safe_set_metadata f : safe (modify (fun w => set_metadata (f w) w)).
Proof. apply keeps_modify. by intros w [H1 H2 H3 H4 H5 H6]. Qed.
Lemma safe_set_managers f g k : safe (modify (fun w => set_managers (f w) (g w) (k w) w)).
Proof. apply keeps_modify. by intros w [H1 H2 H3 H4 H5 H6]. Qed.

Lemma safe_on_disk {A} (m : Prog D FileError A) : safe (on_disk m).
Proof. intros w [H1 H2 H3 H4 H5 H6]. unfold on_disk, ends. by destruct (m (disk w)). Qed.

Lemma safe_on_files {A} (f : string -> Prog D FileError A) : safe (on_files f).
Proof. apply keeps_bind; [apply keeps_asks|]. intros b. apply keeps_bind; [apply keeps_or_fail|]. intros b'. apply safe_on_disk. Qed.

Lemma safe_metadata_step {A} (f : MetadataRealm -> option (A * MetadataRealm)) : safe (metadata_step f).
Proof.
  apply keeps_bind; [apply keeps_asks|]. intros m. apply keeps_bind; [apply keeps_or_fail|]. intros r.
  apply keeps_bind; [exact (safe_set_metadata (fun _ => r.2))|]. intros []. apply keeps_ret.
Qed.

Lemma safe_filter_each l f : (forall x, safe (f x)) -> safe (filter_each (D:=D) l f).
Proof.
  intros Hf. induction l as [|x l IH]; cbn [filter_each]; [apply keeps_ret|]. apply keeps_bind; [apply Hf|]. intros b.
  apply keeps_bind; [apply IH|]. intros l'. apply keeps_ret.
Qed.

Lemma safe_for_each {A} (l : list A) f : (forall a, safe (f a)) -> safe (for_each l f).
Proof. intros Hf. apply keeps_for_each. intros a _. apply Hf. Qed.

Hint Resolve safe_on_disk safe_on_files safe_metadata_step safe_filter_each safe_for_each keeps_or_fail keeps_user : keeps.
Hint Resolve safe_set_metadata safe_set_managers : keeps.

(** *** Sessions *)
Lemma run_inv n {A} (m : M A) w (R : UserError -> World D -> Prop) : Inv w ->
  (forall h a s', sessions w !! n = Some h -> ok (session_state h) -> m (session_state h) = Some (a, s') ->
    ok s' /\ (manager_sessions w !! session_path h = Some n \/ (m_external_reference (session_state h) = 0%nat -> m_external_reference s' = 0%nat))) ->
  wlp (run_session n m) w (fun _ => Inv) R.
Proof.
  intros Hw Hm. unfold run_session. apply wlp_held. intros h E. destruct (m (session_state h)) as [[a s']|] eqn:Em; [|done].
  destruct (Hm h a s' E) as [Hok Hr]; [by eapply inv_sessions|done|]. unfold or_fail. apply ends_bind, ends_ret, ends_bind, ends_modify, ends_ret.
  exact (inv_store nobody None n h s' w Hw E Hok Hr).
Qed.

(** An external reference to a session that the manager has *)
Lemma external_inv n p w (R : UserError -> World D -> Prop) : Inv w -> manager_sessions w !! p = Some n ->
  wlp (run_session n Session.external_reference) w (fun _ => Inv) R.
Proof.
  intros Hw Ep. apply run_inv; [done|]. intros h a s' E Hs. rewrite external_eq by done. intros [= _ <-]. split; [by apply external_ok|].
  left. destruct (inv_alive _ _ w Hw p n Ep) as (g & Eg & <-). by assert (g = h) as -> by congruence.
Qed.

Lemma safe_drop n : safe (run_session n Session.drop_external_reference).
Proof.
  intros w Hw. apply run_inv; [done|]. intros h a s' E Hs. rewrite drop_eq. intros [= _ <-]. split; [by apply external_ok|]. right. cbn. lia.
Qed.

Lemma safe_event n c : reference_call c = false -> safe (with_session n (call_session n (perform c))).
Proof. intros Hc. by apply keeps_with_session, keeps_session_call, perform_orderly. Qed.

Lemma safe_release n : safe (release_session n).
Proof.
  apply keeps_bind; [apply safe_drop|]. intros []. intros w Hw. apply wlp_held. intros h E.
  eapply (ends_keeps_then (inv (eq n) None) (fun _ => False)); [|by apply inv_nobody|done|].
  - apply keeps_when, keeps_session_call. by apply (perform_orderly call_did_drop_external_reference).
  - intros [] w' Hw'. eapply ends_mono; [exact (inv_let_go None n w' Hw')|done|done].
Qed.

Lemma safe_let_go n : safe (let_go n).
Proof.
  intros w Hw. unfold let_go. apply ends_bind, ends_modify. eapply ends_mono; [apply (inv_let_go None n)| |done]; [|done].
  destruct Hw as [H1 H2 H3 H4 H5 H6]. constructor; cbn; [|done..]. intros s h E. destruct (H1 s h E) as [|(He & [Hh|[]])]; [by left|].
  right. split; [done|]. destruct (decide (n = s)) as [->|Hne]; [by right|]. left. apply elem_of_difference. split; [done|]. by intros ?%elem_of_singleton.
Qed.

Lemma safe_hold_all l : safe (hold_all l).
Proof. apply safe_for_each. intros n. apply keeps_modify. intros w. apply inv_hold. Qed.

Lemma safe_get_existing_session path : safe (get_existing_session path).
Proof.
  intros w Hw. unfold get_existing_session. apply ends_bind, ends_asks. destruct (manager_sessions w !! path) as [s|] eqn:E; [|by apply ends_ret].
  eapply ends_then; [by apply (external_inv s path)|]. intros [] w' Hw'. by apply ends_ret.
Qed.

Lemma safe_get_existing_active_session path : safe (get_existing_active_session path).
Proof.
  intros w Hw. unfold get_existing_active_session. apply ends_bind, ends_asks. destruct (manager_sessions w !! path) as [s|] eqn:E; [|by apply ends_ret].
  eapply ends_then; [apply (run_inv s _ w (fun _ => Inv) Hw)|intros b w' Hw'; by apply ends_ret].
  intros h a s' Es Hs. rewrite existing_eq by done. intros [= _ <-]. split; [destruct (_ <? _)%nat; [by apply external_ok|done]|].
  left. destruct (inv_alive _ _ w Hw path s E) as (g & Eg & <-). by assert (g = h) as -> by congruence.
Qed.

Lemma safe_register_special get set n path : (forall x u, same_identity u (set x u) /\ (user_ok u -> user_ok (set x u))) ->
  safe (register_special_session get set n path).
Proof.
  intros Hset. apply keeps_bind; [apply keeps_user|]. intros u. apply keeps_bind; [destruct (get u); [apply keeps_asks|apply keeps_ret]|]. intros b.
  destruct (_ || _); [apply keeps_ret|]. apply keeps_bind; [apply safe_get_existing_session|]. intros s.
  apply keeps_bind; [apply keeps_user_update; intros u'; destruct (Hset s u'); split; [done|by rewrite decide_False]|]. intros [].
  destruct s; [apply safe_release|apply keeps_ret].
Qed.

Lemma safe_reconnect : safe reconnect.
Proof. apply keeps_bind; [apply keeps_asks|]. intros l. apply keeps_for_each. intros s _. apply keeps_silent, reconnect_silent. Qed.

(** A session is made for a path that has none. *)
Lemma inv_new_session path cfg s w : Inv w -> manager_sessions w !! path = None -> ok s ->
  Inv (set_manager_sessions (<[path := next_object w]> (manager_sessions w)) (set_sessions (<[next_object w := mkHeld path cfg s]> (sessions w)) (set_next (S (next_object w)) w))).
Proof.
  intros Hw Hp Hs. pose proof (inv_next _ _ _ Hw) as [H1 H2 H3 H4 H5 H6]. constructor; cbn in *; [| | |done..].
  - intros k h [[<- <-]|[Hne E]]%lookup_insert_Some; cbn; [left; apply lookup_insert_eq|].
    destruct (H1 k h E) as [Ek|[He [Hx|[]]]]; [left|by right; auto].
    rewrite lookup_insert_ne; [done|]. intros Ep. congruence.
  - intros p k [[<- <-]|[Hne E]]%lookup_insert_Some; [rewrite lookup_insert_eq; by eexists|].
    destruct (H2 p k E) as (h & Eh & Ep). exists h. split; [|done]. rewrite lookup_insert_ne; [done|]. intros <-.
    destruct (inv_sessions _ _ _ Hw _ _ Eh). lia.
  - intros k h [[<- <-]|[Hne E]]%lookup_insert_Some; cbn; [split; [done|lia]|by apply H3].
Qed.

Lemma safe_get_session path cfg : safe (get_session path cfg).
Proof.
  intros w Hw. unfold get_session. apply ends_bind, ends_asks. destruct (manager_sessions w !! path) as [s|] eqn:E.
  - eapply ends_then; [by apply register_session_inv|]. intros [] w' [Hw' Ew']. rewrite <- Ew' in E.
    eapply ends_then; [by apply (external_inv s path)|]. intros [] w2 Hw2. by apply ends_ret.
  - unfold new_object. apply ends_bind, ends_bind, ends_asks, ends_bind, ends_modify, ends_ret, ends_bind, ends_modify, ends_bind, ends_modify.
    assert (Hs := inv_new_session path cfg _ w Hw E (create_ok (stop_policy cfg) (has_error_handler cfg) true)).
    eapply ends_then; [apply (external_inv (next_object w) path); [exact Hs|apply lookup_insert_eq]|]. intros [] w' Hw'. revert Hw'.
    apply keeps_bind; [apply keeps_register_session|]. intros []. apply keeps_ret.
Qed.
(** *** Users *)
Lemma safe_all_sessions n : safe (all_sessions n).
Proof.
  intros w Hw. unfold all_sessions. apply wlp_user. intros u Eu. destruct (bool_decide _); [by apply ends_ret|].
  apply ends_bind, ends_asks, ends_bind, ends_modify, ends_ret. apply (inv_alter nobody None); [done| |done]. intros u' E.
  assert (u' = u) as -> by congruence. split; [done|]. destruct (inv_users _ _ _ Hw n u E) as [[Hin Hout] _].
  split; [exact Hin|]. cbn. intros Hl. by rewrite (Hout Hl), map_filter_empty.
Qed.

Lemma safe_session_for_on_disk_path n path : safe (session_for_on_disk_path n path).
Proof.
  apply keeps_bind; [apply keeps_user|]. intros u. destruct (bool_decide _); [apply keeps_ret|]. destruct (m_sessions u !! path); [|apply keeps_ret].
  apply keeps_bind; [apply keeps_asks|]. intros []; [apply keeps_ret|]. apply keeps_bind; [|intros []; apply keeps_ret].
  apply keeps_user_update. intros u'. split; [done|]. rewrite decide_False by done. intros [Hin Hout]. split; [exact Hin|]. cbn.
  intros Hl. by rewrite (Hout Hl), delete_empty.
Qed.

Lemma safe_make_user token i url local ty : safe (make_user uuid_string others token i url local ty).
Proof. intros w Hw. eapply ends_mono; [by apply (make_user_inv uuid_string others token i url local ty w Inv)|by intros n w' []|done]. Qed.

Lemma safe_add_admin key token url local : safe (add_admin uuid_string others key token url local).
Proof.
  intros w Hw. eapply ends_then; [by apply (make_user_inv uuid_string others token c_admin_identity url (Some local) Admin w Inv)|].
  intros n w' (Hw' & u & Eu & _ & Ht). apply ends_bind, ends_modify, ends_ret. destruct Hw' as [H1 H2 H3 H4 H5 H6].
  constructor; cbn; [done..|]. intros id' n' [[<- <-]|[_ E]]%lookup_insert_Some; [by exists u|by eapply H6].
Qed.

Lemma safe_get_admin_token_user url token old : safe (get_admin_token_user uuid_string others url token old).
Proof.
  apply keeps_bind; [apply keeps_asks|]. intros []; [apply keeps_ret|]. apply keeps_bind; [apply safe_add_admin|]. intros n.
  apply keeps_bind; [|intros []; apply keeps_ret]. destruct old; [|apply keeps_ret]. apply keeps_bind; [apply keeps_asks|].
  intros []; [|apply keeps_ret]. apply keeps_bind; [apply safe_on_disk|]. intros ?. apply keeps_ret.
Qed.

Lemma safe_get_admin_from_identity i url token : safe (get_admin_token_user_from_identity uuid_string others i url token).
Proof.
  destruct url; [apply safe_get_admin_token_user|]. apply keeps_bind; [apply keeps_asks|]. intros []; [apply keeps_ret|apply safe_add_admin].
Qed.

(** *** File actions and the start *)
Lemma safe_run_file_action md : safe (run_file_action md).
Proof. unfold run_file_action. keeps_steps. Qed.

Lemma safe_remove_file_action key : safe (remove_file_action others key).
Proof. apply safe_metadata_step. Qed.

Lemma safe_immediately path : safe (immediately_run_file_actions others path).
Proof.
  unfold immediately_run_file_actions, action_of. keeps_steps; first [apply safe_run_file_action|apply safe_remove_file_action].
Qed.

Lemma safe_run_pending : safe (run_pending_actions others).
Proof.
  apply keeps_bind; [apply keeps_asks|]. intros l. apply keeps_bind; [apply safe_filter_each; intros key; unfold action_of; keeps_steps; apply safe_run_file_action|].
  intros l'. apply safe_for_each. intros key. apply safe_metadata_step.
Qed.

Lemma safe_load_users : safe load_users.
Proof. unfold load_users. keeps_steps. Qed.

Lemma safe_delete_marked : safe (delete_marked_users others).
Proof.
  apply keeps_bind; [apply keeps_asks|]. intros l. apply keeps_bind; [|intros l'; apply safe_for_each; intros key; apply safe_metadata_step].
  apply safe_filter_each. intros key. apply keeps_bind; [unfold user_of; keeps_steps|]. intros row. apply keeps_catch; [done| |].
  - apply keeps_bind; [apply safe_on_files|]. intros ?. apply keeps_ret.
  - intros e h Eh. destruct e as [e| |]; [|done..]. destruct (is_access_error e); [|done]. injection Eh as <-. apply keeps_ret.
Qed.

(** Updates of the metadata change nothing else. *)
Lemma metadata_frame (I R : World D -> Prop) {A} (f : MetadataRealm -> option (A * MetadataRealm)) :
  (forall m w, I w -> I (set_metadata m w)) -> keeps I R (perform_metadata_update f).
Proof.
  intros HI. unfold perform_metadata_update. apply keeps_bind; [apply keeps_asks|]. intros []; [|apply keeps_ret].
  apply keeps_bind; [apply keeps_asks|]. intros m. apply keeps_bind; [apply keeps_or_fail|]. intros r. apply keeps_bind; [|intros ?; apply keeps_ret].
  apply keeps_modify. intros w. apply HI.
Qed.

Definition owned_by n id w : Prop := exists u, users w !! n = Some u /\ (m_identity u, m_server_url u) = id /\ m_token_type u = Normal.

Lemma set_is_admin_owned n id b : keeps (E:=UserError) (fun w => Inv w /\ owned_by n id w) Inv (set_user_is_admin uuid_string others n b).
Proof.
  apply keeps_bind; [apply keeps_user|]. intros u. destruct (bool_decide _); [apply keeps_ret|]. apply keeps_bind.
  - apply keeps_modify. intros w [Hw (v & Ev & Hid & Ht)]. split.
    + apply (inv_alter nobody None); [done| |done]. intros v' E'. split; [done|]. destruct (inv_users _ _ _ Hw n v' E') as [Hv _]. exact Hv.
    + exists (set_admin (Some b) v). cbn. by rewrite lookup_alter_eq, Ev.
  - intros []. apply keeps_bind; [|intros ?; apply keeps_ret]. apply metadata_frame. intros m w [[H1 H2 H3 H4 H5 H6] Ho]. split; [by constructor|exact Ho].
Qed.

Lemma safe_add_user d : safe (add_user uuid_string others d).
Proof.
  intros w Hw. unfold add_user. eapply ends_then; [by apply (make_user_inv uuid_string others (data_token d) (data_identity d) (Some (data_url d)) None Normal w Inv)|].
  intros n w' [Hw' Hu]. eapply ends_keeps_then; [apply (set_is_admin_owned n)|split; [done|exact Hu]|done|]. intros [] w2 [Hw2 Hu2]. apply ends_modify.
  destruct (m_users w2 !! _); [done|]. by apply inv_add_user.
Qed.

Lemma safe_open_metadata b key : safe (open_metadata uuid_string others can_open b key).
Proof.
  apply keeps_bind; [apply safe_on_files|]. intros ?. apply keeps_bind; [apply keeps_asks|]. intros d. destruct (can_open d b key); [|by apply keeps_raise].
  apply keeps_bind; [apply keeps_get|]. intros w. destruct (client_uuid _ _ _) as [uuid m].
  apply keeps_bind; [exact (safe_set_metadata (fun _ => m))|]. intros []. exact (safe_set_managers (fun _ => m_file_manager w) (fun _ => true) (fun _ => Some uuid)).
Qed.

Lemma safe_open_encrypted key b : safe (open_encrypted uuid_string others can_open key b).
Proof.
  apply keeps_catch; [done|apply safe_open_metadata|]. intros e h Eh. destruct (bool_decide _); [|done]. injection Eh as <-.
  apply keeps_bind; [destruct b; [apply safe_on_files|apply keeps_ret]|]. intros []; [|by apply keeps_raise].
  apply keeps_bind; [apply safe_set_metadata|]. intros []. apply safe_open_metadata.
Qed.

Lemma safe_configure base mode key reset : safe (configure uuid_string others can_open base mode key reset).
Proof.
  assert (safe (initialize others)) as Hinit.
  { apply keeps_bind; [apply safe_run_pending|]. intros []. apply keeps_bind; [apply safe_load_users|]. intros l.
    apply keeps_bind; [apply safe_delete_marked|]. intros []. apply keeps_ret. }
  apply keeps_bind; [apply keeps_get|]. intros w. apply keeps_bind.
  - destruct (m_file_manager w); [apply keeps_assert|]. exact (safe_set_managers (fun _ => Some base) (fun _ => m_metadata_manager w) (fun _ => m_client_uuid w)).
  - intros []. destruct (m_metadata_manager w); [apply keeps_ret|]. destruct mode; [| |apply keeps_ret].
    + apply keeps_bind; [apply safe_open_metadata|]. intros []. apply keeps_bind; [exact Hinit|]. intros l. apply safe_for_each, safe_add_user.
    + apply keeps_bind; [apply safe_open_encrypted|]. intros []. apply keeps_bind; [exact Hinit|]. intros l. apply safe_for_each, safe_add_user.
Qed.

(** *** Errors of a session *)
Lemma mark_for_deletion_frame (I : World D -> Prop) n b : (forall m w, I w -> I (set_metadata m w)) -> (forall d w, I w -> I (set_disk d w)) ->
  keeps I I (update_error_and_mark_file_for_deletion others unique_file_name local_time n b).
Proof.
  intros Hm Hd. assert (forall A (p : Prog D FileError A), keeps I I (on_disk p)) as Hdisk.
  { intros A p w Hw. unfold on_disk, ends. destruct (p (disk w)); by try apply Hd. }
  intros w Hw. apply wlp_held. intros h _. revert Hw. apply keeps_bind.
  - destruct b; [|apply keeps_ret]. apply keeps_bind; [unfold on_files; keeps_steps; apply Hdisk|]. intros dir.
    apply keeps_bind; [apply keeps_or_fail|]. intros path. apply Hdisk.
  - intros path. apply keeps_bind; [apply keeps_user|]. intros u. apply keeps_bind; [by apply metadata_frame|]. intros ?. apply keeps_ret.
Qed.

Lemma safe_handle_error n e : safe (with_session n (session_handle_error others unique_file_name local_time n e)).
Proof.
  apply keeps_bind; [apply keeps_asks|]. intros []; [|apply keeps_ret].
  assert (keeps (E:=UserError) (inv (eq n) None) (inv (eq n) None) (session_handle_error others unique_file_name local_time n e)) as He.
  { intros w Hw. apply wlp_held. intros h _. revert Hw. apply keeps_bind.
    - destruct (Session.disposition _); [apply keeps_ret..| |apply keeps_ret]. destruct (bool_decide _); [apply keeps_ret|].
      apply mark_for_deletion_frame; by intros ? w' [H1 H2 H3 H4 H5 H6].
    - intros []. apply keeps_session_call. by apply (perform_orderly (call_handle_error e)). }
  intros w Hw. apply ends_scope_exit. eapply ends_mono; [by apply He, inv_nobody| |]; intros ? w' Hw'; (eapply ends_mono; [exact (inv_let_go None n w' Hw')|done|done]).
Qed.

(** *** Everything that can happen to the manager
    The operations of the manager and of its users, and what the binding and the
    sync client do to the sessions that are alive. *)
Definition ignore {A} (m : P A) : P () := _ ← m; mret ().

Inductive operation : P () -> Prop :=
| op_configure base mode key reset : operation (configure uuid_string others can_open base mode key reset)
| op_run_file_actions path : operation (ignore (immediately_run_file_actions others path))
| op_get_user id token : operation (ignore (get_user uuid_string others id token))
| op_get_admin url token old : operation (ignore (get_admin_token_user uuid_string others url token old))
| op_get_admin_from_identity i url token : operation (ignore (get_admin_token_user_from_identity uuid_string others i url token))
| op_log_out n : operation (log_out uuid_string others n)
| op_update_refresh_token n token : operation (update_refresh_token uuid_string others n token)
| op_set_is_admin n b : operation (set_user_is_admin uuid_string others n b)
| op_all_sessions n : operation (l ← all_sessions n; hold_all l)
| op_session_for_path n path : operation (s ← session_for_on_disk_path n path; hold_all (option_list s))
| op_let_go n : operation (let_go n)
| op_register_management n path : operation (register_management_session n path)
| op_register_permission n path : operation (register_permission_session n path)
| op_path_for_realm n url : operation (ignore (path_for_realm n url))
| op_recovery_directory : operation (ignore manager_recovery_directory_path)
| op_get_session path cfg : operation (ignore (get_session path cfg))
| op_get_existing_session path : operation (ignore (get_existing_session path))
| op_get_existing_active_session path : operation (ignore (get_existing_active_session path))
| op_reconnect : operation reconnect
| op_release_session n : operation (release_session n)
| op_session_call n c : reference_call c = false -> operation (with_session n (call_session n (perform c)))
| op_session_error n e : operation (with_session n (session_handle_error others unique_file_name local_time n e)).

(** The start of the application: the metadata and the files are those of
    earlier runs. *)
Definition start (m : MetadataRealm) (d : D) : World D := mkWorld ∅ ∅ ∅ 0 ∅ ∅ ∅ None false None m d.

Inductive reachable : World D -> Prop :=
| reach_start m d : reachable (start m d)
| reach_returns w w' o u : reachable w -> operation o -> o w = returns u w' -> reachable w'
| reach_throws w w' o e : reachable w -> operation o -> o w = throws e w' -> reachable w'.

Lemma safe_ignore {A} (m : P A) : safe m -> safe (ignore m).
Proof. intros Hm. apply keeps_bind; [exact Hm|]. intros ?. apply keeps_ret. Qed.

Lemma operation_safe o : operation o -> safe o.
Proof.
  intros []; try apply safe_ignore.
  - apply safe_configure.
  - apply safe_immediately.
  - apply keeps_get_user.
  - apply safe_get_admin_token_user.
  - apply safe_get_admin_from_identity.
  - apply keeps_log_out.
  - apply keeps_update_refresh_token.
  - apply keeps_set_is_admin.
  - apply keeps_bind; [apply safe_all_sessions|]. intros l. apply safe_hold_all.
  - apply keeps_bind; [apply safe_session_for_on_disk_path|]. intros s. apply safe_hold_all.
  - apply safe_let_go.
  - by apply safe_register_special.
  - by apply safe_register_special.
  - apply keeps_bind; [apply keeps_user|]. intros u. apply safe_on_files.
  - apply safe_on_files.
  - apply safe_get_session.
  - apply safe_get_existing_session.
  - apply safe_get_existing_active_session.
  - apply safe_reconnect.
  - apply safe_release.
  - by apply safe_event.
  - apply safe_handle_error.
Qed.

Lemma users_reachable_inv w : reachable w -> Inv w.
Proof.
  induction 1 as [m d|w w' o u _ Hw Ho E|w w' o e _ Hw Ho E].
  - by constructor; cbn.
  - pose proof (operation_safe o Ho w Hw) as Hs. unfold ends in Hs. by rewrite E in Hs.
  - pose proof (operation_safe o Ho w Hw) as Hs. unfold ends in Hs. by rewrite E in Hs.
Qed.

(** C34: whatever the application, the binding, the sync client and errors did, the
    sessions that the manager keeps are alive, each under its own path. Every other
    session that is alive has no external reference, so that no open Realm uses it,
    and is alive because code outside keeps the [shared_ptr] that it was handed (a
    path can then have a second session). All of them are in a consistent state. An
    active user has no session waiting for it to log in, and a logged out user no
    other; a user is found under its own identity and server. *)
Theorem manager_registry w : reachable w ->
  (forall p s, manager_sessions w !! p = Some s -> exists h, sessions w !! s = Some h /\ session_path h = p) /\
  (forall s h, sessions w !! s = Some h -> manager_sessions w !! session_path h = Some s \/
    (m_external_reference (session_state h) = 0%nat /\ s ∈ held_outside w)) /\
  (forall s h, sessions w !! s = Some h -> ok (session_state h)) /\
  (forall n u, users w !! n = Some u -> (m_state u = Active -> m_waiting_sessions u = ∅) /\ (m_state u = LoggedOut -> m_sessions u = ∅)) /\
  (forall id n, m_users w !! id = Some n -> exists u, users w !! n = Some u /\ (m_identity u, m_server_url u) = id).
Proof.
  intros [H1 H2 H3 H4 H5 H6]%users_reachable_inv. split; [exact H2|]. split; [|split; [|split]].
  - intros s h E. destruct (H1 s h E) as [|[He [Hx|[]]]]; auto.
  - intros s h E. by apply (H3 s).
  - intros n u E. apply (H4 n u E).
  - intros id n (u & E & Hid & _)%H5. by exists u.
Qed.
End operations.

(** ** Logging out *)
Section log_out.
Context `{HD : Disk D} `{HB : BuildMode}.
Implicit Types (w : World D) (h : Held) (y : option nat).
Context (uuid_string : nat -> string) (others : MetadataRealm -> MetadataRealm).

(** What a user and its sessions leave alone *)
Definition rest w := (next_object w, m_users w, m_admin_token_users w, m_file_manager w, m_metadata_manager w, m_client_uuid w, disk w).

(** A session that is not inactive is the one that the manager has for its path:
    otherwise unregistering it fails, or takes the session that the manager has. *)
Definition in_order w (s : nat) : Prop := forall h, sessions w !! s = Some h ->
  SyncSession.m_state (session_state h) = inactive \/ manager_sessions w !! session_path h = Some s.

(** The same session, inactive *)
Definition deactivation_of h h' : Prop :=
  session_path h' = session_path h /\ m_config h' = m_config h /\
  m_external_reference (session_state h') = m_external_reference (session_state h) /\
  SyncSession.m_state (session_state h') = inactive.

(** What keeps a session that is logged out: it was inactive already, it is
    referenced, or code outside has it. *)
Definition kept w (s : nat) h : Prop :=
  SyncSession.m_state (session_state h) = inactive \/ (0 < m_external_reference (session_state h))%nat \/ s ∈ held_outside w.

(** The manager does not forget a session that is inactive or referenced. *)
Definition not_forgotten w (s : nat) : Prop := forall h, sessions w !! s = Some h ->
  SyncSession.m_state (session_state h) = inactive \/ (0 < m_external_reference (session_state h))%nat.

(** The sessions [l] are inactive, or gone if nothing keeps them, and the manager
    forgets those that are not referenced; the others are what they were. *)
Record quieted (l : list nat) w w' : Prop := {
  q_none s : sessions w !! s = None -> sessions w' !! s = None;
  q_other s : s ∉ l -> sessions w' !! s = sessions w !! s;
  q_in s h : s ∈ l -> sessions w !! s = Some h ->
    match sessions w' !! s with
    | Some h' => deactivation_of h h' /\ kept w s h
    | None => ~ kept w s h
    end;
  q_held : held_outside w' = held_outside w;
  q_manager p s : manager_sessions w' !! p = Some s <-> manager_sessions w !! p = Some s /\ (s ∈ l -> not_forgotten w s);
  q_order s : in_order w s -> in_order w' s
}.

Lemma quieted_refl w l : (forall s h, s ∈ l -> sessions w !! s = Some h -> SyncSession.m_state (session_state h) = inactive) -> quieted l w w.
Proof.
  intros Hl. constructor; [done|done| |done| |done].
  - intros s h Hs E. rewrite E. repeat split; [by eapply Hl|left; by eapply Hl].
  - intros p s. split; [|by intros []]. intros Ep. split; [done|]. intros Hs h E. left. by eapply Hl.
Qed.

Lemma deactivation_trans h h1 h2 : deactivation_of h h1 -> deactivation_of h1 h2 -> deactivation_of h h2.
Proof. intros (P1 & C1 & E1 & S1) (P2 & C2 & E2 & S2). repeat split; congruence. Qed.

Lemma quieted_trans l k w w1 w2 : quieted l w w1 -> quieted k w1 w2 -> quieted (l ++ k) w w2.
Proof.
  intros [N1 O1 I1 H1 G1 R1] [N2 O2 I2 H2 G2 R2]. constructor; [| | |congruence| |auto].
  - intros s E. auto.
  - intros s Hs. rewrite elem_of_app in Hs. rewrite O2, O1; tauto.
  - intros s h Hs E. destruct (decide (s ∈ l)) as [Hl|Hl].
    + pose proof (I1 s h Hl E) as K1. destruct (sessions w1 !! s) as [h1|] eqn:E1; [|by rewrite (N2 s E1)]. destruct K1 as [D1 K1].
      destruct (decide (s ∈ k)) as [Hk|Hk]; [|by rewrite (O2 s Hk), E1].
      pose proof (I2 s h1 Hk E1) as K2. destruct (sessions w2 !! s) as [h2|]; [destruct K2; split; [by eapply deactivation_trans|done]|].
      destruct K2. left. apply D1.
    + assert (s ∈ k) as Hk by (apply elem_of_app in Hs; tauto). rewrite <- (O1 s Hl) in E. pose proof (I2 s h Hk E) as K2.
      unfold kept in *. by rewrite H1 in K2.
  - intros p s. rewrite G2, G1, elem_of_app. unfold not_forgotten. split.
    + intros [[Ep Hl] Hk]. split; [done|]. intros Hs. destruct (decide (s ∈ l)) as [Hin|Hin]; [auto|]. rewrite <- (O1 s Hin). tauto.
    + intros [Ep Hs]. split; [auto|]. intros Hk h1 E1. destruct (sessions w !! s) as [h|] eqn:E; [|by rewrite (N1 s E) in E1].
      destruct (decide (s ∈ l)) as [Hin|Hin]; [|rewrite (O1 s Hin), E in E1; injection E1 as <-; auto].
      pose proof (I1 s h Hin E) as K1. rewrite E1 in K1. left. apply K1.
Qed.

(** The manager's sessions after a session is logged out *)
Definition manager_after h w : gmap string nat :=
  if decide (SyncSession.m_state (session_state h) = inactive \/ (0 < m_external_reference (session_state h))%nat)
  then manager_sessions w else delete (session_path h) (manager_sessions w).

Lemma kept_spec y s h w : inv nobody y w -> sessions w !! s = Some h ->
  kept w s h <-> ~ (m_external_reference (session_state h) = 0%nat /\ manager_after h w !! session_path h <> Some s /\ s ∉ held_outside w).
Proof.
  intros Hw E. unfold kept, manager_after. destruct (decide _) as [Hd|Hd].
  - destruct (inv_registered _ _ _ Hw s h E) as [|[X0 [|[]]]]; (split; [tauto|]); [|tauto].
    intros _. destruct Hd; tauto.
  - rewrite lookup_delete_eq. split; [intros [?|[?|?]]; tauto|]. intros Hn. right. right. apply dec_stable. intros Hh. destruct Hn.
    split; [|done]. destruct (m_external_reference (session_state h)) eqn:Ex; [done|]. destruct Hd. right. lia.
Qed.

Lemma log_out_order s h h' w v : sessions w !! s = Some h -> in_order w s -> SyncSession.m_state (session_state h') = inactive ->
  sessions v = delete s (sessions w) \/ sessions v = <[s := h']> (sessions w) -> manager_sessions v = manager_after h w ->
  forall k, in_order w k -> in_order v k.
Proof.
  intros E Ho S1 Hv Hmv k Hk g Eg. destruct (decide (k = s)) as [->|Hne].
  - destruct Hv as [Hv|Hv]; rewrite Hv in Eg; [by rewrite lookup_delete_eq in Eg|]. rewrite lookup_insert_eq in Eg. left. by injection Eg as <-.
  - assert (sessions w !! k = Some g) as Ek by (destruct Hv as [Hv|Hv]; rewrite Hv in Eg; by rewrite ?lookup_delete_ne, ?lookup_insert_ne in Eg).
    destruct (Hk g Ek) as [|Em]; [by left|]. right. rewrite Hmv. unfold manager_after. destruct (decide _) as [|Hd]; [done|].
    rewrite lookup_delete_ne; [done|]. intros Ep. destruct (Ho h E) as [?|Es]; [tauto|]. congruence.
Qed.

Lemma manager_after_spec y s h w (v : World D) : inv nobody y w -> sessions w !! s = Some h -> in_order w s -> manager_sessions v = manager_after h w ->
  forall p k, manager_sessions v !! p = Some k <-> manager_sessions w !! p = Some k /\ (k ∈ [s] -> not_forgotten w k).
Proof.
  intros Hw E Ho Hv p k. rewrite Hv, list_elem_of_singleton. unfold manager_after, not_forgotten. destruct (decide _) as [Hd|Hd].
  - split; [|by intros []]. intros Ep. split; [done|]. intros -> g Eg. by assert (g = h) as -> by congruence.
  - destruct (Ho h E) as [|Em]; [tauto|]. rewrite lookup_delete_Some. split.
    + intros [Hne Ep]. split; [done|]. intros ->. destruct (inv_alive _ _ _ Hw p s Ep) as (g & Eg & <-). congruence.
    + intros [Ep Hk]. split; [|done]. intros <-. assert (k = s) as -> by congruence. destruct Hd. by apply Hk.
Qed.

(** Logging one session out, as long as somebody holds it *)
Lemma log_out_one y s h w : inv nobody y w -> sessions w !! s = Some h -> in_order w s ->
  exists w' h', call_session s Session.log_out w = returns () w' /\ inv (eq s) y w' /\ rest w' = rest w /\ users w' = users w /\ metadata w' = metadata w /\
    sessions w' = <[s := h']> (sessions w) /\ held_outside w' = held_outside w /\ deactivation_of h h' /\
    manager_sessions w' = manager_after h w.
Proof.
  intros Hw E Ho. unfold manager_after. destruct (log_out_told (session_state h)) as (s' & es & Es & [Hok Ht He] & Hst & Hes); [by eapply inv_sessions|].
  assert (inv (eq s) y (store s h s' w)) as Hs1.
  { apply inv_nobody, inv_store; [done..|]. right. by rewrite He. }
  assert (sessions (store s h s' w) !! s = Some (mkHeld (session_path h) (m_config h) s')) as E1 by apply lookup_insert_eq.
  rewrite (call_session_eq _ _ _ _ _ _ _ E Es Ht). destruct Hes as [[Hi ->]|[Hi (es' & -> & Hq)]].
  - exists (store s h s' w), (mkHeld (session_path h) (m_config h) s'). rewrite decide_True by auto. repeat (split; [done|]). done.
  - destruct (Ho h E) as [|Em]; [done|].
    exists (unregistered (session_path h) s' (store s h s' w)), (mkHeld (session_path h) (m_config h) s'). split.
    { cbn [for_each deliver]. unfold mbind, Prog_bind, asks, or_fail. rewrite E1. cbn [mret Prog_ret session_path].
      rewrite (unregister_eq s _ s _ (store s h s' w) Em E1 Hok). cbn [session_state]. unfold evicted.
      rewrite (bool_decide_eq_true_2 (s = s)) by done. destruct (_ <? _)%nat; cbn [mret Prog_ret]; by rewrite for_each_silent. }
    split; [apply (inv_weaken (fun k => k = s \/ s = k)); [intros k [?|?]; congruence|exact (inv_unregister _ y s _ _ Hs1 E1 Em)]|].
    unfold unregistered, deactivation_of. cbn [session_state session_path m_config]. rewrite He.
    destruct (Nat.ltb_spec 0 (m_external_reference (session_state h))) as [Hlt|Hle]; [rewrite decide_True by auto|rewrite decide_False by (intros [?|?]; [done|lia])]; repeat (split; [done|]); done.
Qed.

(** Logging a session out while it is held; [g] is what happens to the users. *)
Lemma quiet_one y s (body : Prog (World D) UserError ()) (g : gmap nat SyncUser -> gmap nat SyncUser) w :
  (forall w w1, call_session s Session.log_out w = returns () w1 -> body w = returns () (set_users (g (users w1)) w1)) ->
  (forall w1, inv (eq s) y w1 -> inv (eq s) y (set_users (g (users w1)) w1)) -> inv nobody y w -> in_order w s ->
  exists w', with_session s body w = returns () w' /\ inv nobody y w' /\ rest w' = rest w /\ metadata w' = metadata w /\ quieted [s] w w' /\
    users w' = if decide (is_Some (sessions w !! s)) then g (users w) else users w.
Proof.
  intros Hbody Hg Hw Ho. unfold with_session, alive. unfold mbind, Prog_bind, asks. destruct (sessions w !! s) as [h|] eqn:E.
  2:{ rewrite decide_False, bool_decide_eq_false_2 by (by intros []). exists w. repeat (split; [done|]). split; [|done]. apply quieted_refl.
      intros k h ->%list_elem_of_singleton E'. congruence. }
  rewrite decide_True, bool_decide_eq_true_2 by done.
  destruct (log_out_one y s h w Hw E Ho) as (w1 & h' & Ecall & Hw1 & Hr1 & Hu1 & Hm1 & Hs1 & Hh1 & (P1 & C1 & X1 & S1) & Ma).
  unfold scope_exit. rewrite (Hbody _ _ Ecall). set (w2 := set_users (g (users w1)) w1). assert (inv (eq s) y w2) as Hw2 by by apply Hg.
  assert (sessions w2 !! s = Some h') as E2 by (cbn; rewrite Hs1; apply lookup_insert_eq).
  pose proof (inv_let_go y s w2 Hw2) as Hc. unfold ends in Hc. destruct (collect s w2) as [[] w'|e w'|] eqn:Ec; [|done|done]. exists w'. split; [done|]. split; [done|].
  unfold collect, modify in Ec. rewrite E2, X1, P1 in Ec. change (manager_sessions w2) with (manager_sessions w1) in Ec.
  change (held_outside w2) with (held_outside w1) in Ec. rewrite Hh1 in Ec.
  destruct (_ && _ && _) eqn:Eb; injection Ec as <-; (split; [done|]); (split; [done|]); (split; [|cbn; by rewrite Hu1]).
  - apply andb_prop in Eb as [[Ex%Nat.eqb_eq Em%bool_decide_eq_true]%andb_prop Eh%bool_decide_eq_true]. constructor; cbn; rewrite ?Hs1.
    + intros k Ek. rewrite lookup_delete_None. destruct (decide (s = k)); [by left|]. right. by rewrite lookup_insert_ne.
    + intros k Hk. rewrite list_elem_of_singleton in Hk. by rewrite lookup_delete_ne, lookup_insert_ne by done.
    + intros k h0 ->%list_elem_of_singleton E0. rewrite lookup_delete_eq. assert (h0 = h) as -> by congruence. rewrite (kept_spec y), <- Ma by done. tauto.
    + done.
    + by apply (manager_after_spec y s h).
    + apply (log_out_order s h h'); [done..| |done]. left. apply delete_insert_eq.
  - constructor; change (sessions w2) with (sessions w1); rewrite ?Hs1.
    + intros k Ek. rewrite lookup_insert_ne; [done|]. intros ->. congruence.
    + intros k Hk. rewrite list_elem_of_singleton in Hk. by rewrite lookup_insert_ne.
    + intros k h0 ->%list_elem_of_singleton E0. rewrite lookup_insert_eq. assert (h0 = h) as -> by congruence. split; [done|].
      rewrite (kept_spec y), <- Ma by done. intros (X0 & Nm & Nh). rewrite X0, !bool_decide_eq_true_2 in Eb by done. done.
    + done.
    + by apply (manager_after_spec y s h).
    + apply (log_out_order s h h'); [done..| |done]. right. exact Hs1.
Qed.
Lemma set_user_sessions_same u : set_user_sessions (m_sessions u) (m_waiting_sessions u) u = u.
Proof. by destruct u. Qed.

(** A session moves to the ones that wait, if it is alive. *)
Lemma log_out_session_spec n x w u : inv nobody (Some n) w -> users w !! n = Some u -> in_order w x.2 ->
  exists w' W, log_out_session n x w = returns () w' /\ inv nobody (Some n) w' /\ rest w' = rest w /\ metadata w' = metadata w /\ quieted [x.2] w w' /\
    users w' = <[n := set_user_sessions (m_sessions u) W u]> (users w) /\
    (is_Some (sessions w !! x.2) -> W !! x.1 = Some x.2) /\ (forall p, p <> x.1 -> W !! p = m_waiting_sessions u !! p).
Proof.
  intros Hw Eu Ho. set (f := fun u => set_user_sessions (m_sessions u) (<[x.1 := x.2]> (m_waiting_sessions u)) u).
  destruct (quiet_one (Some n) x.2 (_ ← call_session x.2 Session.log_out; update n f) (alter f n) w) as (w' & E & Hw' & Hr & Hm & Hq & Hu); [| |done..|].
  - intros v v1 Ev. unfold mbind, Prog_bind. by rewrite Ev.
  - intros v Hv. apply (inv_alter (eq x.2) (Some n)); [done| |done]. intros u' Eu'. split; [done|]. destruct (inv_users _ _ _ Hv n u' Eu') as [Ha _].
    by rewrite decide_True in Ha |- * by done.
  - exists w'. destruct (decide (is_Some (sessions w !! x.2))) as [Hs|Hs].
    + exists (<[x.1 := x.2]> (m_waiting_sessions u)). do 5 (split; [done|]). split; [|split; [intros _; apply lookup_insert_eq|intros p Hp; by rewrite lookup_insert_ne]].
      rewrite Hu. apply map_eq. intros k. destruct (decide (k = n)) as [->|Hk]; [by rewrite lookup_alter_eq, Eu, lookup_insert_eq|].
      by rewrite lookup_alter_ne, lookup_insert_ne.
    + exists (m_waiting_sessions u). do 5 (split; [done|]). rewrite set_user_sessions_same, insert_id by done. by split.
Qed.

Lemma log_out_sessions n l w u : inv nobody (Some n) w -> users w !! n = Some u -> NoDup l.*1 -> (forall s, s ∈ l.*2 -> in_order w s) ->
  exists w' W, for_each l (log_out_session n) w = returns () w' /\ inv nobody (Some n) w' /\ rest w' = rest w /\ metadata w' = metadata w /\ quieted l.*2 w w' /\
    users w' = <[n := set_user_sessions (m_sessions u) W u]> (users w) /\
    (forall p s, (p, s) ∈ l -> is_Some (sessions w' !! s) -> W !! p = Some s) /\ (forall p, p ∉ l.*1 -> W !! p = m_waiting_sessions u !! p).
Proof.
  revert w u. induction l as [|x l IH]; intros w u Hw Eu Hnd Ho.
  - exists w, (m_waiting_sessions u). rewrite set_user_sessions_same, insert_id by done. repeat (split; [done|]).
    split; [by apply quieted_refl; intros s h ?%elem_of_nil|]. split; [done|]. split; [by intros p s ?%elem_of_nil|done].
  - apply NoDup_cons in Hnd as [Hx Hnd]. destruct (log_out_session_spec n x w u Hw Eu) as (w1 & W1 & E1 & Hw1 & Hr1 & Hm1 & Hq1 & Hu1 & Hin1 & Hout1); [apply Ho; by left|].
    set (u1 := set_user_sessions (m_sessions u) W1 u). assert (users w1 !! n = Some u1) as Eu1 by (rewrite Hu1; apply lookup_insert_eq).
    destruct (IH w1 u1 Hw1 Eu1 Hnd) as (w2 & W2 & E2 & Hw2 & Hr2 & Hm2 & Hq2 & Hu2 & Hin2 & Hout2); [intros s Hs; apply (q_order _ _ _ Hq1), Ho; by right|]. exists w2, W2.
    cbn [for_each]. unfold mbind, Prog_bind. rewrite E1. split; [done|]. split; [done|]. split; [congruence|]. split; [congruence|].
    split; [exact (quieted_trans [x.2] _ w w1 w2 Hq1 Hq2)|]. split; [by rewrite Hu2, Hu1, insert_insert_eq|]. split.
    + intros p s [<-|Hps]%elem_of_cons Hs; [|by apply Hin2]. cbn in *. rewrite Hout2 by done. apply Hin1.
      destruct (sessions w !! s) eqn:Es; [done|]. destruct Hs as [h Hs]. by rewrite (q_none _ _ _ Hq2 s) in Hs by (by apply (q_none _ _ _ Hq1)).
    + intros p Hp. rewrite fmap_cons, not_elem_of_cons in Hp. destruct Hp as [Hp1 Hp2]. rewrite Hout2 by done. by apply Hout1.
Qed.
(** *** What is persisted *)
(** The other processes do not log users in or out. *)
Definition keeps_marks : Prop := forall m k r r', row_of k (user_rows m) = Some r -> row_of k (user_rows (others m)) = Some r' ->
  marked_for_removal r' = marked_for_removal r.

(** The rows of [m], those of the user marked for removal *)
Definition marks_user (i url : string) (m m' : MetadataRealm) : Prop :=
  (forall k, row_of k (user_rows m') = (fun r => if is_user i url r then set_marked true r else r) <$> row_of k (user_rows m)) /\
  action_rows m' = action_rows m /\ client_rows m' = client_rows m.

Lemma update_user_frame key f m m' : update_user key f m = Some m' -> action_rows m' = action_rows m /\ client_rows m' = client_rows m.
Proof. unfold update_user. destruct (set_row _ _ _); [|done]. by intros [= <-]. Qed.

(** The rows are those that another process left if the user's row is changed. *)
Lemma mark_user_spec i url m : polite others -> metadata_ok m -> exists m', mark_user uuid_string others i url m = Some (tt, m') /\ metadata_ok m' /\
  (marks_user i url m m' \/ marks_user i url (others m) m').
Proof.
  intros Hp Hm. unfold mark_user. destruct (get_only_spec uuid_string others i url m Hm) as (key & -> & Hkey). cbn [mbind option_bind].
  destruct key as [key|].
  - destruct Hkey as (r & Er & [Ei Eu]%is_user_spec & _). destruct (Hp m Hm) as [Hom Hkeep].
    destruct (Hkeep key r Er) as (r1 & Er1 & Si & Su & _). unfold mark_for_removal. cbn [m_invalid user_metadata m_row].
    destruct (update_user_ok key (set_marked true) (others m) r1) as (m' & Em' & Hm' & Hrow); [by intros []|done|done|]. rewrite Em'. exists m'.
    do 2 (split; [done|]). right. split; [|by eapply update_user_frame].
    intros k. rewrite Hrow. destruct (row_of k (user_rows (others m))) as [x|] eqn:Ek; [|done]. cbn. f_equal. destruct (Nat.eqb_spec k key) as [->|Hne].
    + assert (x = r1) as -> by congruence. assert (is_user i url r1 = true) as -> by (apply is_user_spec; split; congruence). done.
    + destruct (is_user i url x) eqn:Ex; [|done]. apply is_user_spec in Ex as [Ix Ux]. destruct Hne. apply (md_users _ Hom k key x r1); congruence.
  - exists m. do 2 (split; [done|]). left. split; [|done]. intros k. destruct (row_of k (user_rows m)) as [x|] eqn:Ek; [|done]. cbn. f_equal.
    destruct (is_user i url x) eqn:Ex; [|done]. specialize (Hkey k x Ek Ex). destruct x. cbn in *. by subst.
Qed.

Lemma store_token_spec i url token m : polite others -> keeps_marks -> metadata_ok m ->
  exists m' key r, store_token uuid_string others i url token m = Some (tt, m') /\ metadata_ok m' /\
    row_of key (user_rows m') = Some r /\ is_user i url r = true /\ marked_for_removal r = false /\ user_token r = Some token /\
    forall r0, known i url m r0 -> local_uuid r = local_uuid r0.
Proof.
  intros Hp Hk Hm. destruct (get_or_make_spec uuid_string others i url m Hp Hm) as (key & m1 & r & E & Hm1 & Er & [Ei Eu]%is_user_spec & Emark & Hknown).
  unfold store_token. rewrite E. cbn [mbind option_bind]. destruct (Hp m1 Hm1) as [Hom Hkeep]. destruct (Hkeep key r Er) as (r1 & Er1 & Si & Su & Sl).
  pose proof (Hk m1 key r r1 Er Er1) as Em1. unfold set_user_token. cbn [m_invalid user_metadata m_row mbind option_bind].
  destruct (update_user_ok key (fun r => mkUserRow (identity r) (local_uuid r) (marked_for_removal r) (Some token) (auth_server_url r) (user_is_admin r)) (others m1) r1)
    as (m' & -> & Hm' & Hrow); [by intros []|done|done|]. eexists m', key, _. split; [done|]. split; [done|]. rewrite Hrow, Nat.eqb_refl, Er1. split; [done|].
  cbn [marked_for_removal user_token local_uuid]. split; [apply is_user_spec; cbn [identity auth_server_url]; split; congruence|]. split; [congruence|]. split; [done|].
  intros r0 Hr0. rewrite Sl. by apply Hknown.
Qed.

(** *** The whole of [log_out] *)
Lemma elem_of_option_list (o : option nat) s : s ∈ option_list o <-> o = Some s.
Proof. destruct o; cbn; [rewrite list_elem_of_singleton|rewrite elem_of_nil]; (split; [intros E|intros [= E]]); congruence || done. Qed.

(** The sessions that a user logs out *)
Definition sessions_of (u : SyncUser) : list nat :=
  (map_to_list (m_sessions u)).*2 ++ option_list (m_management_session u) ++ option_list (m_permission_session u).

Lemma with_weak_spec weak w : inv nobody None w -> (forall s, weak = Some s -> in_order w s) -> exists w', with_weak weak (fun s => call_session s Session.log_out) w = returns () w' /\
  inv nobody None w' /\ rest w' = rest w /\ metadata w' = metadata w /\ quieted (option_list weak) w w' /\ users w' = users w.
Proof.
  intros Hw Ho. destruct weak as [s|].
  - destruct (quiet_one None s (call_session s Session.log_out) id w) as (w' & E & Hw' & Hr & Hm & Hq & Hu); [|by intros []|done|by apply Ho|].
    + intros v v1 ->. by destruct v1.
    + exists w'. repeat (split; [done|]). rewrite Hu. by destruct (decide _).
  - exists w. repeat (split; [done|]). split; [|done]. apply quieted_refl. by intros s h ?%elem_of_nil.
Qed.

Lemma perform_metadata_eq (f : MetadataRealm -> option (() * MetadataRealm)) w m' : f (metadata w) = Some (tt, m') ->
  (_ ← perform_metadata_update f; mret ()) w = returns () (if m_metadata_manager w then set_metadata m' w else w).
Proof. intros E. unfold perform_metadata_update, mbind, Prog_bind, asks, or_fail. destruct (m_metadata_manager w); [by rewrite E|done]. Qed.

(** What logging out does: to the user, to its sessions, to what is persisted *)
Record logged_out n u w w' : Prop := {
  lo_inv : inv nobody None w';
  lo_user : exists u', users w' !! n = Some u' /\ same_identity u u' /\ m_state u' = LoggedOut /\ m_sessions u' = ∅ /\
    m_management_session u' = m_management_session u /\ m_permission_session u' = m_permission_session u /\
    forall p s, m_sessions u !! p = Some s -> is_Some (sessions w' !! s) -> m_waiting_sessions u' !! p = Some s;
  lo_users k : k <> n -> users w' !! k = users w !! k;
  lo_sessions : quieted (sessions_of u) w w';
  lo_rest : rest w' = rest w;
  lo_metadata : metadata_ok (metadata w');
  lo_marked : if m_metadata_manager w then exists m, (m = metadata w \/ m = others (metadata w)) /\ marks_user (m_identity u) (m_server_url u) m (metadata w')
              else metadata w' = metadata w
}.
Lemma inv_metadata x y m w : inv x y w -> inv x y (set_metadata m w).
Proof. by intros [H1 H2 H3 H4 H5 H6]. Qed.

Lemma quieted_metadata l w w' m : quieted l w w' -> quieted l w (set_metadata m w').
Proof. by intros [H1 H2 H3]. Qed.

Lemma user_eq n u w : users w !! n = Some u -> user n w = returns u w.
Proof. intros E. unfold user, or_fail, mbind, Prog_bind, asks. by rewrite E. Qed.

Lemma log_out_spec n u w : inv nobody None w -> users w !! n = Some u -> m_token_type u = Normal -> m_state u <> LoggedOut ->
  (forall s, s ∈ sessions_of u -> in_order w s) -> polite others -> metadata_ok (metadata w) ->
  exists w', log_out uuid_string others n w = returns () w' /\ logged_out n u w w'.
Proof.
  intros Hw Eu Ht Hst Ho Hp Hm. set (w0 := set_users (alter (set_state LoggedOut) n (users w)) w).
  assert (inv nobody (Some n) w0) as H0.
  { apply (inv_alter nobody None); [done|intros u' _; split; [done|by rewrite decide_True]|]. intros k u' Hk Hu. by rewrite decide_False by congruence. }
  assert (users w0 !! n = Some (set_state LoggedOut u)) as E0 by (cbn; by rewrite lookup_alter_eq, Eu).
  destruct (log_out_sessions n (map_to_list (m_sessions u)) w0 _ H0 E0) as (w1 & W & E1 & H1 & R1 & M1 & Q1 & U1 & In1 & _); [apply NoDup_fst_map_to_list|intros s Hs; apply Ho, elem_of_app; by left|].
  set (u2 := set_user_sessions ∅ W (set_state LoggedOut u)).
  set (w2 := set_users (alter (fun u => set_user_sessions ∅ (m_waiting_sessions u) u) n (users w1)) w1).
  assert (users w2 = <[n := u2]> (users w)) as U2.
  { cbn. rewrite U1. change (users w0) with (alter (set_state LoggedOut) n (users w)). apply map_eq. intros k. destruct (decide (k = n)) as [->|Hk]; [by rewrite lookup_alter_eq, !lookup_insert_eq|].
    by rewrite lookup_alter_ne, !lookup_insert_ne, lookup_alter_ne by done. }
  assert (inv nobody None w2) as H2.
  { apply (inv_alter nobody (Some n)); [done| |].
    - intros u' E'. split; [done|]. rewrite decide_False by done. destruct (inv_users _ _ _ H1 n u' E') as [Ha _]. rewrite decide_True in Ha by done. by split.
    - intros k u' Hk. by rewrite decide_False, decide_False by congruence. }
  destruct (with_weak_spec (m_management_session u) w2 H2) as (w3 & E3 & H3 & R3 & M3 & Q3 & U3).
  { intros s Hs. apply (q_order _ _ _ Q1), Ho, elem_of_app. right. apply elem_of_app. left. by apply elem_of_option_list. }
  destruct (with_weak_spec (m_permission_session u) w3 H3) as (w4 & E4 & H4 & R4 & M4 & Q4 & U4).
  { intros s Hs. apply (q_order _ _ _ Q3), (q_order _ _ _ Q1), Ho, elem_of_app. right. apply elem_of_app. right. by apply elem_of_option_list. }
  assert (metadata w4 = metadata w) as Em by (rewrite M4, M3; exact M1).
  destruct (mark_user_spec (m_identity u) (m_server_url u) (metadata w4)) as (m' & Emark & Hm' & Hmarked); [done|by rewrite Em|].
  exists (if m_metadata_manager w4 then set_metadata m' w4 else w4). split.
  - unfold log_out. unfold mbind at 1, Prog_bind at 1. rewrite (user_eq n u w Eu).
    rewrite (bool_decide_eq_false_2 (m_token_type u = Admin)), (bool_decide_eq_false_2 (m_state u = LoggedOut)) by congruence. unfold mbind at 1, Prog_bind at 1. change (update n (set_state LoggedOut) w) with (returns (E:=UserError) () w0). cbv iota.
    unfold mbind at 1, Prog_bind at 1. rewrite E1. unfold mbind at 1, Prog_bind at 1. change (update n _ w1) with (returns (E:=UserError) () w2). cbv iota.
    unfold mbind at 1, Prog_bind at 1. rewrite E3. unfold mbind at 1, Prog_bind at 1. rewrite E4. by apply perform_metadata_eq.
  - assert (quieted (sessions_of u) w w4) as Q.
    { apply (quieted_trans _ _ w w1 w4); [by destruct Q1|]. apply (quieted_trans _ _ w1 w3 w4); [by destruct Q3|done]. }
    assert (forall s, is_Some (sessions w4 !! s) -> is_Some (sessions w1 !! s)) as Hback.
    { intros s [h Es]. destruct (sessions w1 !! s) eqn:E; [done|]. by rewrite (q_none _ _ _ Q4 s) in Es by (by apply (q_none _ _ _ Q3)). }
    assert (m_metadata_manager w4 = m_metadata_manager w /\ rest w4 = rest w) as [Emm Er].
    { assert (rest w4 = rest w) as Er by (rewrite R4, R3; exact R1). split; [by injection Er|done]. }
    constructor.
    + destruct (m_metadata_manager w4); [by apply inv_metadata|done].
    + exists u2. split; [destruct (m_metadata_manager w4); cbn; rewrite U4, U3, U2; apply lookup_insert_eq|]. do 5 (split; [done|]).
      intros p s Ep Hs. apply (In1 p s); [by apply elem_of_map_to_list|]. apply Hback. by destruct (m_metadata_manager w4).
    + intros k Hk. destruct (m_metadata_manager w4); cbn; by rewrite U4, U3, U2, lookup_insert_ne.
    + destruct (m_metadata_manager w4); [by apply quieted_metadata|done].
    + by destruct (m_metadata_manager w4).
    + destruct (m_metadata_manager w4); [done|by rewrite Em].
    + rewrite <- Emm. destruct (m_metadata_manager w4); [|done]. rewrite Em in Hmarked. destruct Hmarked; eauto.
Qed.

(** Sessions that code outside does not keep are in order. *)
Lemma unheld_in_order y w s : inv nobody y w -> s ∉ held_outside w -> in_order w s.
Proof. intros Hw Hs h E. right. by destruct (inv_registered _ _ _ Hw s h E) as [|[_ [|[]]]]. Qed.

End log_out.

(** ** Logging in again *)
Section log_in.
Context `{HD : Disk D} `{HB : BuildMode}.
Implicit Types (w : World D) (h : Held).
Context (uuid_string : nat -> string) (others : MetadataRealm -> MetadataRealm).

(** The same session with another state *)
Definition same_session h h' : Prop :=
  session_path h' = session_path h /\ m_config h' = m_config h /\ m_external_reference (session_state h') = m_external_reference (session_state h).

(** The sessions [l] are asked to come online; no session is lost. *)
Definition woken (l : list nat) w w' : Prop := forall s, match sessions w !! s with
  | None => sessions w' !! s = None
  | Some h => exists h', sessions w' !! s = Some h' /\ same_session h h' /\
      (s ∈ l -> SyncSession.m_state (session_state h') = revived (SyncSession.m_state (session_state h))) /\ (s ∉ l -> h' = h)
  end.

Lemma revived_twice st : revived (revived st) = revived st.
Proof. by destruct st. Qed.

Lemma revive_one s h w : inv nobody None w -> sessions w !! s = Some h -> exists w', call_session s Session.revive_if_needed w = returns () w' /\
  inv nobody None w' /\ rest w' = rest w /\ metadata w' = metadata w /\ users w' = users w /\ woken [s] w w'.
Proof.
  intros Hw E. destruct (revive_told (session_state h)) as (s' & es & Es & [Hok Ht He] & Hq & Hst); [by eapply inv_sessions|].
  destruct (call_harmless s _ w h _ s' es E Es Ht Hq) as (w' & Ec & Hw'). exists w'.
  assert (inv nobody None (store s h s' w)) as H1 by (apply inv_store; [done..|]; right; by rewrite He).
  assert (inv nobody None w' /\ rest w' = rest w /\ metadata w' = metadata w /\ users w' = users w /\ sessions w' = <[s := mkHeld (session_path h) (m_config h) s']> (sessions w))
    as (Hi & Hr & Hm & Hu & Hss) by (destruct Hw' as [->| ->]; split_and!; by try apply inv_hold).
  do 5 (split; [done|]). intros k. rewrite Hss. destruct (decide (k = s)) as [->|Hk].
  - rewrite E, lookup_insert_eq. eexists. split; [done|]. split; [done|]. split; [done|]. intros Hn. destruct Hn. by apply list_elem_of_singleton.
  - rewrite lookup_insert_ne by done. destruct (sessions w !! k) as [g|]; [|done]. exists g. do 2 (split; [done|]). split; [by intros ?%list_elem_of_singleton|done].
Qed.

Lemma woken_trans l k w w1 w2 : woken l w w1 -> woken k w1 w2 -> woken (l ++ k) w w2.
Proof.
  intros H1 H2 s. pose proof (H1 s) as E1. pose proof (H2 s) as E2. destruct (sessions w !! s) as [h|]; [|by rewrite E1 in E2].
  destruct E1 as (h1 & E1 & (P1 & C1 & X1) & In1 & Out1). rewrite E1 in E2. destruct E2 as (h2 & E2 & (P2 & C2 & X2) & In2 & Out2).
  exists h2. split; [done|]. split; [split; [congruence|split; congruence]|]. rewrite elem_of_app. split.
  - intros Hs. destruct (decide (s ∈ l)) as [Hl|Hl], (decide (s ∈ k)) as [Hk|Hk].
    + by rewrite (In2 Hk), (In1 Hl), revived_twice.
    + by rewrite (Out2 Hk), (In1 Hl).
    + by rewrite (In2 Hk), (Out1 Hl).
    + tauto.
  - intros Hs. rewrite Out2, Out1; tauto.
Qed.

Lemma woken_nil w : woken [] w w.
Proof. intros s. destruct (sessions w !! s) as [h|]; [|done]. exists h. do 2 (split; [done|]). split; [by intros ?%elem_of_nil|done]. Qed.

Lemma revive_all l w : inv nobody None w -> (forall s, s ∈ l -> is_Some (sessions w !! s)) -> exists w',
  for_each l (fun s => call_session s Session.revive_if_needed) w = returns () w' /\
  inv nobody None w' /\ rest w' = rest w /\ metadata w' = metadata w /\ users w' = users w /\ woken l w w'.
Proof.
  revert w. induction l as [|s l IH]; intros w Hw Hl.
  - exists w. repeat (split; [done|]). apply woken_nil.
  - destruct (Hl s) as [h Es]; [by left|]. destruct (revive_one s h w Hw Es) as (w1 & E1 & H1 & R1 & M1 & U1 & K1).
    destruct (IH w1 H1) as (w2 & E2 & H2 & R2 & M2 & U2 & K2).
    { intros k Hk. destruct (Hl k) as [g Ek]; [by right|]. specialize (K1 k). rewrite Ek in K1. destruct K1 as (g' & -> & _). by eexists. }
    exists w2. cbn [for_each]. unfold mbind, Prog_bind. rewrite E1. split; [done|]. split; [done|]. do 3 (split; [congruence|]).
    exact (woken_trans [s] l w w1 w2 K1 K2).
Qed.

(** What logging in does: to the user, to its sessions, to what is persisted *)
Record logged_in n u token w w' : Prop := {
  li_user : exists u', users w' !! n = Some u' /\ same_identity u u' /\ m_state u' = Active /\ m_refresh_token u' = token /\ m_waiting_sessions u' = ∅ /\
    forall p s, m_sessions u' !! p = Some s <-> m_waiting_sessions u !! p = Some s /\ is_Some (sessions w !! s);
  li_users k : k <> n -> users w' !! k = users w !! k;
  li_sessions : exists l, woken l w w' /\ forall s, s ∈ l <-> is_Some (sessions w !! s) /\
    (m_management_session u = Some s \/ m_permission_session u = Some s \/ exists p, m_waiting_sessions u !! p = Some s);
  li_rest : rest w' = rest w;
  li_token : m_metadata_manager w = true -> exists key r, row_of key (user_rows (metadata w')) = Some r /\
    is_user (m_identity u) (m_server_url u) r = true /\ marked_for_removal r = false /\ user_token r = Some token /\
    forall r0, known (m_identity u) (m_server_url u) (metadata w) r0 -> local_uuid r = local_uuid r0
}.
(** The sessions that are asked to come online *)
Definition live_waiting u w : gmap string nat := filter (fun x : string * nat => is_Some (sessions w !! x.2)) (m_waiting_sessions u).
Definition revived_sessions u w : list nat :=
  filter (fun s => is_Some (sessions w !! s)) (option_list (m_management_session u) ++ option_list (m_permission_session u)) ++ (map_to_list (live_waiting u w)).*2.

Lemma live_waiting_spec u w p s : live_waiting u w !! p = Some s <-> m_waiting_sessions u !! p = Some s /\ is_Some (sessions w !! s).
Proof. unfold live_waiting. by rewrite map_lookup_filter_Some. Qed.

Lemma revived_sessions_spec u w s : s ∈ revived_sessions u w <-> is_Some (sessions w !! s) /\
  (m_management_session u = Some s \/ m_permission_session u = Some s \/ exists p, m_waiting_sessions u !! p = Some s).
Proof.
  unfold revived_sessions. rewrite elem_of_app, list_elem_of_filter, elem_of_app, !elem_of_option_list, list_elem_of_fmap. split.
  - intros [[Hs Hm]|([p k] & -> & Hp)]; [tauto|]. apply elem_of_map_to_list, live_waiting_spec in Hp as [Hp Hs]. eauto.
  - intros [Hs [Hm|[Hm|[p Hp]]]]; [tauto|tauto|]. right. exists (p, s). split; [done|]. by apply elem_of_map_to_list, live_waiting_spec.
Qed.

(** The update of the user *)
Definition active_again token u w : SyncUser :=
  set_user_sessions (live_waiting u w ∪ m_sessions u) ∅ (set_state Active (set_refresh_token token u)).

Lemma log_in_steps n u token w : users w !! n = Some u -> m_token_type u = Normal -> m_state u = LoggedOut ->
  update_refresh_token uuid_string others n token w =
  (_ ← (_ ← perform_metadata_update (store_token uuid_string others (m_identity u) (m_server_url u) token); mret ());
   for_each (revived_sessions u w) (fun s => call_session s Session.revive_if_needed)) (set_users (<[n := active_again token u w]> (users w)) w).
Proof.
  intros Eu Ht Hst. unfold update_refresh_token. unfold mbind at 1, Prog_bind at 1. rewrite (user_eq n u w Eu). unfold mbind at 1, Prog_bind at 1, lock_all, asks at 1.
  cbv zeta. rewrite Hst, (bool_decide_eq_false_2 (m_token_type u = Admin)) by congruence.
  unfold mbind at 1, Prog_bind at 1. unfold update at 1, modify at 1. unfold mbind at 1, Prog_bind at 1, locked_waiting, asks at 1. cbn [sessions set_users].
  unfold mbind at 1, Prog_bind at 1. unfold update at 1, modify at 1. cbn [users set_users]. rewrite alter_alter_eq.
  fold (live_waiting u w). fold (revived_sessions u w).
  match goal with |- context [alter ?f n (users w)] => assert (alter f n (users w) = <[n := active_again token u w]> (users w)) as -> end; [|done].
  apply map_eq. intros k. destruct (decide (k = n)) as [->|Hk]; [by rewrite lookup_alter_eq, Eu, lookup_insert_eq|by rewrite lookup_alter_ne, lookup_insert_ne].
Qed.

Lemma log_in_spec n u token w : inv nobody None w -> users w !! n = Some u -> m_token_type u = Normal -> m_state u = LoggedOut ->
  polite others -> keeps_marks others -> metadata_ok (metadata w) ->
  exists w', update_refresh_token uuid_string others n token w = returns () w' /\ logged_in n u token w w'.
Proof.
  intros Hw Eu Ht Hst Hp Hk Hm. rewrite (log_in_steps n u token w Eu Ht Hst). set (w1 := set_users (<[n := active_again token u w]> (users w)) w).
  destruct (inv_users _ _ _ Hw n u Eu) as [[_ Hout] _].
  assert (inv nobody None w1) as H1.
  { destruct (inv_alter nobody None None n (fun u => active_again token u w) w Hw) as [A1 A2 A3 A4 A5 A6]; [|done|].
    - intros u' E. assert (u' = u) as -> by congruence. split; [done|]. rewrite decide_False by done. by split.
    - assert (users w1 = alter (fun u => active_again token u w) n (users w)) as Eal.
      { apply map_eq. intros k. cbn. destruct (decide (k = n)) as [->|Hkn]; [by rewrite lookup_alter_eq, Eu, lookup_insert_eq|by rewrite lookup_alter_ne, lookup_insert_ne]. }
      constructor; rewrite ?Eal; done. }
  destruct (store_token_spec uuid_string others (m_identity u) (m_server_url u) token (metadata w1) Hp Hk Hm) as (m' & key & r & Es & Hm' & Er & Hr & Hmark & Htok & Hknown).
  unfold mbind at 1, Prog_bind at 1. rewrite (perform_metadata_eq _ w1 m' Es). set (w2 := if m_metadata_manager w1 then set_metadata m' w1 else w1).
  assert (inv nobody None w2) as H2 by (unfold w2; destruct (m_metadata_manager w1); [by apply inv_metadata|done]).
  assert (sessions w2 = sessions w /\ users w2 = users w1 /\ rest w2 = rest w) as (S2 & U2 & R2) by (unfold w2; by destruct (m_metadata_manager w1)).
  destruct (revive_all (revived_sessions u w) w2 H2) as (w3 & E3 & H3 & R3 & M3 & U3 & K3).
  { intros s Hs. rewrite S2. by apply revived_sessions_spec in Hs as [Hs _]. }
  exists w3. split; [done|]. constructor.
  - exists (active_again token u w). rewrite U3, U2. split; [apply lookup_insert_eq|]. do 4 (split; [done|]). intros p s. cbn.
    rewrite (Hout Hst), (right_id ∅ (∪)). apply live_waiting_spec.
  - intros k Hk'. by rewrite U3, U2; cbn; rewrite lookup_insert_ne.
  - exists (revived_sessions u w). split; [|apply revived_sessions_spec]. intros s. pose proof (K3 s) as Hs. by rewrite S2 in Hs.
  - by rewrite R3, R2.
  - intros Hmm. rewrite M3. assert (metadata w2 = m') as -> by (unfold w2; cbn; by rewrite Hmm). by exists key, r.
Qed.
(** C36: a user that logs out and in again has its sessions back: each session that
    something references is inactive in between, and afterwards waits for an
    access token under its old path, with the new refresh token to ask for one. Its
    sessions that are not inactive are those that the manager has for their paths
    (always so unless code outside keeps a session), and the other processes neither
    remove the users' rows nor mark them. *)
Theorem log_out_log_in (unique_file_name : string -> Prog D FileError string) (local_time : string) (can_open : D -> bool -> option string -> bool) n u token w :
  reachable uuid_string others unique_file_name local_time can_open w ->
  users w !! n = Some u -> m_token_type u = Normal -> m_state u = Active ->
  (forall s, s ∈ sessions_of u -> in_order w s) -> polite others -> keeps_marks others -> metadata_ok (metadata w) ->
  exists w1 w2 u2, log_out uuid_string others n w = returns () w1 /\ update_refresh_token uuid_string others n token w1 = returns () w2 /\
    users w2 !! n = Some u2 /\ m_state u2 = Active /\ m_refresh_token u2 = token /\
    forall p s h, m_sessions u !! p = Some s -> sessions w !! s = Some h -> (0 < m_external_reference (session_state h))%nat ->
      (exists h1, sessions w1 !! s = Some h1 /\ SyncSession.m_state (session_state h1) = inactive) /\
      m_sessions u2 !! p = Some s /\
      exists h2, sessions w2 !! s = Some h2 /\ same_session h h2 /\ SyncSession.m_state (session_state h2) = waiting_for_access_token.
Proof.
  intros Hw%users_reachable_inv Eu Ht Hst Ho Hp Hk Hm. destruct (log_out_spec uuid_string others n u w Hw Eu Ht) as (w1 & E1 & [H1 (u1 & Eu1 & Hid & Hs1 & _ & _ & _ & Hwait) _ [_ _ Q1 _ _ _] _ Hm1 _]); [congruence|done|done|done|].
  destruct (log_in_spec n u1 token w1 H1 Eu1) as (w2 & E2 & [(u2 & Eu2 & _ & Hs2 & Ht2 & _ & Hses) _ (l & K2 & Hl) _ _]); [destruct Hid as (_ & _ & ->); done|done..|].
  exists w1, w2, u2. do 5 (split; [done|]). intros p s h Ep Es Hext.
  assert (s ∈ sessions_of u) as Hin by (apply elem_of_app; left; apply list_elem_of_fmap; exists (p, s); by rewrite elem_of_map_to_list).
  pose proof (Q1 s h Hin Es) as Hq. destruct (sessions w1 !! s) as [h1|] eqn:Es1; [|unfold kept in Hq; tauto]. destruct Hq as [(P1 & C1 & X1 & S1) _].
  assert (m_waiting_sessions u1 !! p = Some s) as Hw1 by (apply Hwait; [done|by rewrite Es1; eexists]).
  split; [by exists h1|]. split; [apply Hses; split; [done|by rewrite Es1; eexists]|].
  pose proof (K2 s) as Hk2. rewrite Es1 in Hk2. destruct Hk2 as (h2 & Es2 & (P2 & C2 & X2) & In2 & _). exists h2. split; [done|].
  split; [split; [congruence|split; congruence]|]. rewrite In2, S1; [done|]. apply Hl. rewrite Es1. split; [by eexists|]. eauto.
Qed.
End log_in.

(** ** File actions *)
Section file_actions.
Context `{HD : Disk D} {A : Type} `{HL : !DiskLaws D A}.
Implicit Types (w : World D).

Lemma on_disk_ends C {B} (m : Prog D FileError B) w (Q : B -> World D -> Prop) (R : UserError -> World D -> Prop) :
  ends C m (disk w) (fun b d => Q b (set_disk d w)) (fun e d => R (file_error e) (set_disk d w)) -> ends C (on_disk m) w Q R.
Proof. unfold ends, on_disk. by destruct (m (disk w)). Qed.

(** C37: however backing up and deleting a Realm ends, its contents are not lost: if
    it succeeds they are in the backup, if it does not they are still in place, and
    if an exception leaves it they are in one of the two. *)
Theorem file_action_keeps_data md w new_name_ lock management c :
  action md = BackUpThenDeleteRealm -> new_name md = Some new_name_ -> nonempty (original_name md) = true -> new_name_ <> original_name md ->
  file_path_by_appending_extension (original_name md) "lock" = Some lock -> lock <> original_name md -> lock <> new_name_ ->
  file_path_by_appending_extension (original_name md) "management" = Some management ->
  ~ within management (original_name md) -> ~ within management new_name_ -> contents (disk w) (original_name md) = Some c ->
  wp (run_file_action md) w
    (fun deleted w' => if deleted : bool then contents (disk w') new_name_ = Some c /\ contents (disk w') (original_name md) = None
                       else contents (disk w') (original_name md) = Some c)
    (fun _ w' => contents (disk w') (original_name md) = Some c \/ contents (disk w') new_name_ = Some c).
Proof.
  intros Ha Hnew Hne Hpq El Hlp Hlq Em Hmp Hmq Hc. unfold run_file_action. rewrite Ha, Hnew.
  set (p := original_name md) in *.
  apply (ends_then _ _ _ _ (fun found w1 => contents (disk w1) p = Some c /\ found = true)).
  { apply on_disk_ends. eapply ends_mono; [apply exists_law| |].
    - intros b d [Hd Hb]. cbn. rewrite Hd. split; [done|]. apply Hb. by rewrite Hc.
    - intros e d Hd. left. cbn. by rewrite Hd. }
  intros found w1 [Hc1 ->]. cbn [negb]. apply (ends_then _ _ _ _ (fun _ w2 => contents (disk w2) p = Some c)).
  { apply on_disk_ends. eapply ends_mono; [apply exists_law| |].
    - intros b d [Hd _]. cbn. by rewrite Hd.
    - intros e d Hd. left. cbn. by rewrite Hd. }
  intros taken w2 Hc2. destruct taken; [by apply ends_ret|].
  apply (ends_then _ _ _ _ (fun (copied : bool) w3 => if copied then contents (disk w3) p = Some c /\ contents (disk w3) new_name_ = Some c else contents (disk w3) p = Some c)).
  { apply on_disk_ends. eapply ends_mono; [by apply (copy_realm_file_spec p new_name_ (disk w2) c)| |].
    - intros b d Hd. exact Hd.
    - intros e d Hd. by left. }
  intros copied w3 H3. destruct copied; [|by apply ends_ret]. destruct H3 as [Hp3 Hq3].
  apply ends_bind, on_disk_ends. eapply ends_mono; [by apply (remove_realm_at_spec p lock management (disk w3))| |].
  - intros b d [Hp4 Hd4]. apply ends_ret. cbn. split; [rewrite Hd4; done|done].
  - intros e d Hd4. right. cbn. rewrite Hd4; done.
Qed.
End file_actions.

(** ** An application with one user *)
Section witnesses.
#[local] Instance debug_build_users : BuildMode := {| realm_debug := true |}.
#[local] Open Scope string_scope.

Definition uuids (n : nat) : string := match n with O => "u0" | S O => "u1" | _ => "u2" end.
Definition no_file (p : string) : Prog PlainDisk FileError string := mret p.
Definition opens (d : PlainDisk) (b : bool) (key : option string) : bool := true.

Definition after {A} (m : Prog (World PlainDisk) UserError A) (w : World PlainDisk) : World PlainDisk := match m w with returns _ w' => w' | _ => w end.
Definition returned {A} (m : Prog (World PlainDisk) UserError A) (w : World PlainDisk) : bool := match m w with returns _ _ => true | _ => false end.

Abbreviation reached := (reachable (D:=PlainDisk) uuids id no_file "now" opens).
Abbreviation step := (operation (D:=PlainDisk) uuids id no_file "now" opens).

Lemma reach_after (o : Prog (World PlainDisk) UserError ()) w : reached w -> step o -> returned o w = true -> reached (after o w).
Proof. unfold returned, after. intros Hw Ho E. destruct (o w) as [u w'| |] eqn:Eo; [|done..]. by eapply reach_returns. Qed.

Definition first_start : World PlainDisk := start (mkMetadata [] [] [] 0 0) (mkDisk [("/p.realm", 7%nat)] ["/app/"]).
Definition configured : World PlainDisk := after (configure uuids id opens "/app" NoEncryption None false) first_start.
Definition with_user : World PlainDisk := after (ignore (get_user uuids id ("alice", "realm://a") "token")) configured.
Definition with_session : World PlainDisk := after (ignore (get_session "/p.realm" (mkConfig AfterChangesUploaded true 0 "realm://a/p"))) with_user.

Lemma with_session_reached : reached with_session.
Proof.
  apply reach_after; [|constructor|by vm_compute]. apply reach_after; [|constructor|by vm_compute]. apply reach_after; [|constructor|by vm_compute].
  constructor.
Defined.

(** The user, and its row *)
Definition alice : SyncUser := mkUser Active "u1" None None "realm://a" Normal (Some false) "token" "alice" {["/p.realm" := 1%nat]} ∅.

Lemma alice_there : users with_session !! 0%nat = Some alice.
Proof. by vm_compute. Qed.

Lemma with_session_metadata : metadata with_session = mkMetadata [(0%nat, mkUserRow "alice" "u1" false (Some "token") "realm://a" false)] [] ["u0"] 1 2.
Proof. by vm_compute. Qed.

Lemma polite_id : polite id.
Proof. intros m Hm. split; [done|]. intros k r E. by exists r. Qed.

Lemma metadata_ok_one r c n k : metadata_ok (mkMetadata [(0%nat, r)] [] c (S n) k).
Proof.
  constructor; cbn [user_rows next_key].
  - apply NoDup_singleton.
  - intros key. cbn. intros ->%list_elem_of_singleton. cbn. lia.
  - intros k1 k2 r1 r2 [= -> <-]%row_of_elem%list_elem_of_singleton [= -> <-]%row_of_elem%list_elem_of_singleton. done.
Qed.

Lemma alice_in_order s : s ∈ sessions_of alice -> in_order with_session s.
Proof.
  assert (sessions_of alice = [1%nat]) as -> by by vm_compute. intros ->%list_elem_of_singleton h E. right.
  assert (session_path <$> sessions with_session !! 1%nat = Some "/p.realm") as Ep by by vm_compute. rewrite E in Ep. cbn in Ep. injection Ep as ->. by vm_compute.
Qed.

Lemma manager_registry_witness :
  (forall p s, manager_sessions with_session !! p = Some s -> exists h, sessions with_session !! s = Some h /\ session_path h = p) /\
  (forall s h, sessions with_session !! s = Some h -> manager_sessions with_session !! session_path h = Some s \/
    (m_external_reference (session_state h) = 0%nat /\ s ∈ held_outside with_session)) /\
  (forall s h, sessions with_session !! s = Some h -> ok (session_state h)) /\
  (forall n u, users with_session !! n = Some u -> (m_state u = Active -> m_waiting_sessions u = ∅) /\ (m_state u = LoggedOut -> m_sessions u = ∅)) /\
  (forall id n, m_users with_session !! id = Some n -> exists u, users with_session !! n = Some u /\ (m_identity u, m_server_url u) = id).
Proof. apply (manager_registry uuids id no_file "now" opens). apply with_session_reached. Defined.


Lemma log_out_log_in_witness :
  exists w1 w2 u2, log_out uuids id 0 with_session = returns () w1 /\ update_refresh_token uuids id 0 "new" w1 = returns () w2 /\
    users w2 !! 0%nat = Some u2 /\ m_state u2 = Active /\ m_refresh_token u2 = "new" /\
    forall p s h, m_sessions alice !! p = Some s -> sessions with_session !! s = Some h -> (0 < m_external_reference (session_state h))%nat ->
      (exists h1, sessions w1 !! s = Some h1 /\ SyncSession.m_state (session_state h1) = inactive) /\
      m_sessions u2 !! p = Some s /\
      exists h2, sessions w2 !! s = Some h2 /\ same_session h h2 /\ SyncSession.m_state (session_state h2) = waiting_for_access_token.
Proof.
  apply (log_out_log_in uuids id no_file "now" opens); [apply with_session_reached|apply alice_there|done|done|apply alice_in_order|apply polite_id| |].
  - intros m k r r' E E'. unfold id in E'. congruence.
  - rewrite with_session_metadata. apply metadata_ok_one.
Defined.

(** *** A session that the binding keeps
    Nothing references the session any more, but the binding keeps what its handler
    was given: the session survives the log out, unregistered, and the log in revives
    it so. *)
Definition unreferenced : World PlainDisk := after (release_session 1) with_session.
Definition logged_back_in : World PlainDisk := after (update_refresh_token uuids id 0 "new") (after (log_out uuids id 0) unreferenced).

Lemma logged_back_in_reached : reached logged_back_in.
Proof.
  apply reach_after; [|constructor|by vm_compute]. apply reach_after; [|constructor|by vm_compute]. apply reach_after; [|constructor|by vm_compute].
  apply with_session_reached.
Qed.

(** Logging out once more fails an assertion, since the manager has no session for
    the path. *)
Lemma kept_session_breaks_log_out : log_out uuids id 0 logged_back_in = crashes.
Proof. by vm_compute. Qed.

(** Opening the Realm makes a second session for the path. When the binding logs the
    first one out, as it does when it gets no token, the manager forgets the second
    one, even though that is waiting to go online. *)
Definition reopened : World PlainDisk := after (ignore (get_session "/p.realm" (mkConfig AfterChangesUploaded true 0 "realm://a/p"))) logged_back_in.
Definition states_of (w : World PlainDisk) : list (option (string * SyncSession.State)) :=
  (fun s => (fun h => (session_path h, SyncSession.m_state (session_state h))) <$> sessions w !! s) <$> [1%nat; 2%nat].

Lemma two_sessions_for_path :
  states_of reopened = [Some ("/p.realm", waiting_for_access_token); Some ("/p.realm", waiting_for_access_token)] /\
  manager_sessions (after (SyncUsers.with_session 1 (call_session 1 Session.log_out)) (after (release_session 2) reopened)) !! "/p.realm" = None.
Proof. by vm_compute. Qed.

(** A Realm that is to be backed up *)
Definition back_up : FileActionRow := mkActionRow "/p.realm" (Some "/backup") BackUpThenDeleteRealm "realm://a/p" "alice".

Lemma file_action_keeps_data_witness : wp (run_file_action back_up) first_start
  (fun deleted w' => if deleted : bool then contents (disk w') "/backup" = Some 7%nat /\ contents (disk w') (original_name back_up) = None
                     else contents (disk w') (original_name back_up) = Some 7%nat)
  (fun _ w' => contents (disk w') (original_name back_up) = Some 7%nat \/ contents (disk w') "/backup" = Some 7%nat).
Proof. by apply (file_action_keeps_data back_up first_start "/backup" "/p.realm.lock" "/p.realm.management" 7%nat). Defined.
End witnesses.
