(* ===== verification/Results.v ===== *)
(** * [Results]: collections that are evaluated when they are used

    [results.cpp]: a [Results] is backed by nothing, a table, a list of links, a
    query or a view, and turns into a view when it has to be evaluated. Core's
    tables, link lists, queries, views and orderings are a class of operations.
    A row is its index in the table, at the version that is read. The cached
    object schema and the arguments of messages are left out. *)
From S2P Require Import Prelude.
From S2P Require Import CallbackLoop.
From S2P Require Import IndexSets.
From S2P Require Import SchemaTypes.
From S2P Require Import Schemas.
From S2P Require Import Effects.

(** ** Core *)
Inductive Descriptor (So Di : Type) :=
| SortDescriptor (s : So)
| DistinctDescriptor (u : Di)
| LimitDescriptor (n : Z).
Arguments SortDescriptor {So Di} s.
Arguments DistinctDescriptor {So Di} u.
Arguments LimitDescriptor {So Di} n.

Inductive ColumnType := type_Timestamp | type_Double | type_Float | type_Int | type_Other.
Inductive Aggregate := Max | Min | Sum | Average.

(** [core_group] is what a transaction reads. The result of an aggregate comes
    with the row it was found in, or the number of values it is of. *)
Class Core := {
  core_group : Type;
  core_query : Type;
  core_view : Type;
  core_links : Type;
  core_ordering : Type;
  core_sort : Type;
  core_distinct : Type;
  core_value : Type;
  core_mixed : Type;
  table_size : core_group -> Z;
  table_find_first : core_group -> core_value -> Z;
  table_clear : core_group -> core_group;
  table_aggregate : core_group -> Aggregate -> Z -> core_mixed * Z;
  column_count : core_group -> Z;
  column_type : core_group -> Z -> option ColumnType;
  link_rows : core_group -> core_links -> list Z;
  link_find : core_group -> core_links -> Z -> Z;
  remove_all_target_rows : core_group -> core_links -> core_group;
  no_query : core_query;
  query_has_table : core_query -> bool;
  where_table : core_query;
  where_links : core_links -> core_query;
  where_view : core_view -> core_query;
  and_query : core_query -> core_query -> core_query;
  sync_view_if_needed : core_group -> core_query -> core_query;
  find_all : core_group -> core_query -> core_ordering -> core_view;
  query_count : core_group -> core_query -> core_ordering -> Z;
  query_find : core_group -> core_query -> Z;
  query_in_table_order : core_query -> bool;
  no_view : core_view;
  view_rows : core_group -> core_view -> list (option Z);
  view_get_query : core_view -> core_query;
  sync_if_needed : core_group -> core_view -> core_view;
  view_is_in_sync : core_group -> core_view -> bool;
  view_is_attached : core_view -> bool;
  view_find_by_source_ndx : core_group -> core_view -> Z -> Z;
  view_find_first : core_group -> core_view -> core_value -> Z;
  view_aggregate : core_group -> core_view -> Aggregate -> Z -> core_mixed * Z;
  view_clear : core_group -> core_view -> core_group * core_view;
  view_in_table_order : core_view -> bool;
  no_ordering : core_ordering;
  descriptors : core_ordering -> list (Descriptor core_sort core_distinct);
  will_apply_sort : core_ordering -> bool;
  will_apply_distinct : core_ordering -> bool;
  will_apply_limit : core_ordering -> bool;
  append_sort : core_ordering -> core_sort -> core_ordering;
  append_distinct : core_ordering -> core_distinct -> core_ordering;
  append_limit : core_ordering -> Z -> core_ordering;
  sort_descriptor : list (list Z) -> list bool -> core_sort;
  distinct_descriptor : list (list Z) -> core_distinct
}.

Definition ordering_is_empty `{Core} (o : core_ordering) : bool := match descriptors o with [] => true | _ => false end.

(** ** The members *)
Inductive Mode := Empty | Table | Query | LinkView | TableView.
#[global] Instance Mode_eq_dec : EqDecision Mode.
Proof. solve_decision. Defined.

Inductive UpdatePolicy := Auto | Never.
#[global] Instance UpdatePolicy_eq_dec : EqDecision UpdatePolicy.
Proof. solve_decision. Defined.

Inductive ResultsError :=
| InvalidatedException
| OutOfBoundsIndexException (requested valid_count : Z)
| DetatchedAccessorException
| IncorrectTableException
| UnsupportedColumnTypeException (column : Z)
| InvalidTransactionException
| UnimplementedOperationException
| invalid_key_path (keypath : string) (reason : SchemaError)
| invalid_argument (reason : SchemaError)
| snapshot_logic_error.

(** The Realm at the time of a call: what it reads, its state, and what it says of
    the table: whether it is attached, in the group or a list of values of
    [element_type], and the object type its name stands for. *)
Record Env `{Core} := mkEnv {
  group : core_group;
  table_attached : bool;
  is_in_transaction : bool;
  immutable : bool;
  is_partial : bool;
  can_deliver_notifications : bool;
  in_group : bool;
  element_type : PropertyType;
  table_object_type : string;
  realm_schema : Schema
}.
Arguments mkEnv {_}. Arguments group {_}. Arguments table_attached {_}. Arguments is_in_transaction {_}. Arguments immutable {_}.
Arguments is_partial {_}. Arguments can_deliver_notifications {_}. Arguments in_group {_}. Arguments element_type {_}.
Arguments table_object_type {_}. Arguments realm_schema {_}.

(** A row accessor: its row, if it is attached, and whether it is of the table *)
Record RowExpr := mkRow { row_index : option Z; of_this_table : bool }.

(** [m_realm], [m_table] and [m_notifier] say whether there is one. *)
Record Results `{Core} := mkResults {
  m_realm : bool;
  m_query : core_query;
  m_table_view : core_view;
  m_link_view : option core_links;
  m_table : bool;
  m_descriptor_ordering : core_ordering;
  m_notifier : bool;
  m_mode : Mode;
  m_update_policy : UpdatePolicy;
  m_has_used_table_view : bool;
  m_wants_background_updates : bool
}.
Arguments mkResults {_}. Arguments m_realm {_}. Arguments m_query {_}. Arguments m_table_view {_}. Arguments m_link_view {_}.
Arguments m_table {_}. Arguments m_descriptor_ordering {_}. Arguments m_notifier {_}. Arguments m_mode {_}.
Arguments m_update_policy {_}. Arguments m_has_used_table_view {_}. Arguments m_wants_background_updates {_}.

(** ** Key paths *)
Section keypaths.
Context `{CharSign}.
Local Open Scope string_scope.

(** [std::find(begin, end, '.')]: the key, and what follows the separator if there
    is one. *)
Fixpoint next_key (s : string) : string * option string :=
  match s with
  | EmptyString => (EmptyString, None)
  | String c s =>
    if Ascii.eqb c "." then (EmptyString, Some s)
    else let '(key, rest) := next_key s in (String c key, rest)
  end.

Definition is_sortable_type (t : PropertyType) : bool :=
  negb (is_array t) && negb (pt_eqb t PT_LinkingObjects) && negb (pt_eqb t PT_Data).

(** How a key path is read: the columns, an exception or, where the schema does not
    know a link's target, undefined behaviour. *)
Inductive Parsed :=
| columns (l : list Z)
| rejected (reason : SchemaError)
| undefined.

Definition is_link (p : Property) : bool := pt_eqb (prop_type p) PT_Object.

(** The checks of one property; [more] says whether the path goes on. *)
Definition check_property (o : ObjectSchema) (key : string) (prop : option Property) (more : bool) : option SchemaError :=
  match prop with
  | None => Some (mkSchemaError "property '%1.%2' does not exist" [os_name o; key])
  | Some p =>
    if negb (is_sortable_type (prop_type p)) then
      Some (mkSchemaError "property '%1.%2' is of unsupported type '%3'" [os_name o; key; string_for_property_type (prop_type p)])
    else if is_link p && negb more then
      Some (mkSchemaError "property '%1.%2' of type 'object' cannot be the final property in the key path" [os_name o; key])
    else if negb (is_link p) && more then
      Some (mkSchemaError "property '%1.%2' of type '%3' may only be the final property in the key path" [os_name o; key; type_string p])
    else None
  end.

Definition missing_name : SchemaError := mkSchemaError "missing property name" [].

(** One turn of the loop: the property, and what is left of the path *)
Definition parse_step (s : string) (o : ObjectSchema) : SchemaError + (Property * string) :=
  let '(key, rest) := next_key s in
  if empty key || match rest with Some t => empty t | None => false end then inl missing_name
  else
    let left_over := match rest with Some t => t | None => EmptyString end in
    let prop := property_for_name o key in
    match check_property o key prop (negb (empty left_over)), prop with
    | Some e, _ => inl e
    | None, Some p => inr (p, left_over)
    | None, None => inl missing_name
    end.

(** The loop: every turn reads at least a character. *)
Fixpoint parse_loop (fuel : nat) (schema : Schema) (s : string) (o : ObjectSchema) (indices : list Z) : Parsed :=
  match fuel with
  | O => undefined
  | S fuel =>
    if empty s then columns indices
    else
      match parse_step s o with
      | inl e => rejected e
      | inr (p, left_over) =>
        let indices := (indices ++ [table_column p])%list in
        if is_link p then
          match find_object schema (object_type p) with
          | Some o => parse_loop fuel schema left_over o indices
          | None => undefined
          end
        else parse_loop fuel schema left_over o indices
      end
  end.

Definition parse_keypath (keypath : string) (schema : Schema) (o : ObjectSchema) : Parsed :=
  if empty keypath then rejected missing_name
  else parse_loop (S (String.length keypath)) schema keypath o [].
End keypaths.

Section results.
Context `{HC : Core} `{CharSign}.
Abbreviation P := (Prog Results ResultsError).
Implicit Types (r : Results) (env : Env).
Local Open Scope Z_scope.

Definition set_query x r : Results := mkResults (m_realm r) x (m_table_view r) (m_link_view r) (m_table r) (m_descriptor_ordering r) (m_notifier r) (m_mode r) (m_update_policy r) (m_has_used_table_view r) (m_wants_background_updates r).
Definition set_view x r : Results := mkResults (m_realm r) (m_query r) x (m_link_view r) (m_table r) (m_descriptor_ordering r) (m_notifier r) (m_mode r) (m_update_policy r) (m_has_used_table_view r) (m_wants_background_updates r).
Definition set_mode x r : Results := mkResults (m_realm r) (m_query r) (m_table_view r) (m_link_view r) (m_table r) (m_descriptor_ordering r) (m_notifier r) x (m_update_policy r) (m_has_used_table_view r) (m_wants_background_updates r).
Definition set_notifier x r : Results := mkResults (m_realm r) (m_query r) (m_table_view r) (m_link_view r) (m_table r) (m_descriptor_ordering r) x (m_mode r) (m_update_policy r) (m_has_used_table_view r) (m_wants_background_updates r).
Definition set_policy x r : Results := mkResults (m_realm r) (m_query r) (m_table_view r) (m_link_view r) (m_table r) (m_descriptor_ordering r) (m_notifier r) (m_mode r) x (m_has_used_table_view r) (m_wants_background_updates r).
Definition set_used x r : Results := mkResults (m_realm r) (m_query r) (m_table_view r) (m_link_view r) (m_table r) (m_descriptor_ordering r) (m_notifier r) (m_mode r) (m_update_policy r) x (m_wants_background_updates r).
Definition set_wants x r : Results := mkResults (m_realm r) (m_query r) (m_table_view r) (m_link_view r) (m_table r) (m_descriptor_ordering r) (m_notifier r) (m_mode r) (m_update_policy r) (m_has_used_table_view r) x.

(** ** Constructors *)
Definition of_nothing : Results :=
  mkResults false no_query no_view None false no_ordering false Empty Auto false true.
Definition of_query (realm : bool) (q : core_query) (o : core_ordering) : Results :=
  mkResults realm q no_view None (query_has_table q) o false Query Auto false true.
Definition of_table (realm : bool) : Results :=
  mkResults realm no_query no_view None true no_ordering false Table Auto false true.
(** [s] is [None] for the default argument, an invalid descriptor that is not
    appended. *)
Definition of_link_view (realm : bool) (lv : core_links) (q : option core_query) (s : option core_sort) : Results :=
  mkResults realm (default no_query q) no_view (Some lv) true
    (match s with Some s => append_sort no_ordering s | None => no_ordering end) false
    (match q with Some _ => Query | None => LinkView end) Auto false true.
Definition of_table_view (realm : bool) (tv : core_view) (o : core_ordering) : Results :=
  mkResults realm no_query tv None true o false TableView Auto false true.
(** A copy does not share the notifier. *)
Definition copy_of r : Results := set_notifier false r.

(** ** Validity *)
(** Using a null pointer *)
Definition deref {A} (x : option A) : P A := match x with Some a => mret a | None => fails end.

Definition is_valid env r : bool := negb (m_table r && negb (table_attached env)).

Definition validate_read env : P () :=
  r ← get; if is_valid env r then mret () else raise InvalidatedException.

Definition validate_write env : P () :=
  validate_read env;; r ← get;
  if negb (m_realm r) || negb (is_in_transaction env) then raise InvalidTransactionException else mret ().

(** ** Evaluation *)
(** Whether there is nothing a background run would compute *)
Definition nothing_to_run r : bool := negb (query_has_table (m_query r)) && ordering_is_empty (m_descriptor_ordering r).

Definition prepare_async env (force : bool) : P () :=
  r ← get;
  if m_notifier r then mret ()
  else
    assert (m_realm r);;
    if immutable env then (if force then raise InvalidTransactionException else mret ())
    else if is_in_transaction env then (if force then raise InvalidTransactionException else mret ())
    else if bool_decide (m_update_policy r = Never) then (if force then raise snapshot_logic_error else mret ())
    else if negb force && negb (can_deliver_notifications env) then mret ()
    else if negb force && nothing_to_run r then mret ()
    else modify (set_wants true);; modify (set_notifier true).

(** The part for a Results that is, or has become, backed by a view *)
Definition refresh_view env (wants_notifications : bool) : P () :=
  when wants_notifications (prepare_async env false);;
  modify (set_used true);;
  modify (fun r => set_view (sync_if_needed (group env) (m_table_view r)) r).

Definition sync_query env : P () :=
  modify (fun r => set_query (sync_view_if_needed (group env) (m_query r)) r).

Definition run_query env : P () :=
  sync_query env;;
  modify (fun r => set_view (find_all (group env) (m_query r) (m_descriptor_ordering r)) r);;
  modify (set_mode TableView).

Definition evaluate_query_if_needed env (wants_notifications : bool) : P () :=
  r ← get;
  if bool_decide (m_update_policy r = Never) then assert (bool_decide (m_mode r = TableView))
  else
    match m_mode r with
    | Empty | Table | LinkView => mret ()
    | Query => run_query env;; refresh_view env wants_notifications
    | TableView => refresh_view env wants_notifications
    end.

Definition get_query env : P core_query :=
  validate_read env;; r ← get;
  match m_mode r with
  | Empty | Query => mret (m_query r)
  | TableView =>
    let query := view_get_query (m_table_view r) in
    if query_has_table query then mret query
    else
      when (bool_decide (m_update_policy r = Auto))
        (modify (fun r => set_view (sync_if_needed (group env) (m_table_view r)) r));;
      asks (fun r => where_view (m_table_view r))
  | LinkView => lv ← deref (m_link_view r); mret (where_links lv)
  | Table => mret where_table
  end.

(** The query mode, for a use that a list of links has no operation for *)
Definition to_query env : P () :=
  query ← get_query env; modify (set_query query);; modify (set_mode Query).

Definition update_linkview env : P bool :=
  r ← get;
  assert (bool_decide (m_update_policy r = Auto));;
  if negb (ordering_is_empty (m_descriptor_ordering r)) then
    to_query env;; evaluate_query_if_needed env true;; mret false
  else mret true.

(** ** Reading *)
Definition view_size env r : Z := Z.of_nat (length (view_rows (group env) (m_table_view r))).

Definition evaluated_size env : P Z := evaluate_query_if_needed env true;; asks (view_size env).

Definition size env : P Z :=
  validate_read env;; r ← get;
  match m_mode r with
  | Empty => mret 0
  | Table => mret (table_size (group env))
  | LinkView => lv ← deref (m_link_view r); mret (Z.of_nat (length (link_rows (group env) lv)))
  | Query =>
    sync_query env;;
    if negb (will_apply_distinct (m_descriptor_ordering r)) then
      asks (fun r => query_count (group env) (m_query r) (m_descriptor_ordering r))
    else evaluated_size env
  | TableView => evaluated_size env
  end.

(** [realm::get<T>(table, row)] is [read], and [T{}] is [blank]. *)
Section try_get.
Context {T : Type} (read : core_group -> Z -> T) (blank : T).

(** [view.get(i)] of a row that is gone is undefined. *)
Definition get_from_view env (row_ndx : Z) : P (option T) :=
  evaluate_query_if_needed env true;; r ← get;
  if view_size env r <=? row_ndx then mret None
  else
    match view_rows (group env) (m_table_view r) !! Z.to_nat row_ndx with
    | Some (Some row) => mret (Some (read (group env) row))
    | _ => if bool_decide (m_update_policy r = Never) then mret (Some blank) else fails
    end.

Definition try_get env (row_ndx : Z) : P (option T) :=
  validate_read env;; r ← get;
  match m_mode r with
  | Empty => mret None
  | Table => mret (if row_ndx <? table_size (group env) then Some (read (group env) row_ndx) else None)
  | LinkView =>
    direct ← update_linkview env;
    if direct : bool then
      lv ← deref (m_link_view r);
      mret (read (group env) <$> link_rows (group env) lv !! Z.to_nat row_ndx)
    else get_from_view env row_ndx
  | Query | TableView => get_from_view env row_ndx
  end.

Definition get_at env (row_ndx : Z) : P T :=
  row ← try_get env row_ndx;
  match row with
  | Some row => mret row
  | None => size env ≫= fun n => raise (OutOfBoundsIndexException row_ndx n)
  end.

Definition first env : P (option T) := try_get env 0.

Definition last env : P (option T) :=
  validate_read env;; r ← get;
  when (bool_decide (m_mode r = Query)) (evaluate_query_if_needed env true);;
  n ← size env; try_get env (wrap (n - 1)).
End try_get.

(** [index_of] of a row *)
Definition index_of_row env (row : RowExpr) : P Z :=
  validate_read env;;
  ndx ← (match row_index row with Some ndx => mret ndx | None => raise DetatchedAccessorException end);
  r ← get;
  if m_table r && negb (of_this_table row) then raise IncorrectTableException
  else
    let in_view : P Z :=
      evaluate_query_if_needed env true;;
      asks (fun r => view_find_by_source_ndx (group env) (m_table_view r) ndx) in
    match m_mode r with
    | Empty => mret npos
    | Table => mret ndx
    | LinkView =>
      direct ← update_linkview env;
      if direct : bool then lv ← deref (m_link_view r); mret (link_find (group env) lv ndx) else in_view
    | Query | TableView => in_view
    end.

(** [index_of] of a value *)
Definition index_of_value env (value : core_value) : P Z :=
  validate_read env;; r ← get;
  match m_mode r with
  | Empty => mret npos
  | Table => mret (table_find_first (group env) value)
  | LinkView => fails
  | Query | TableView =>
    evaluate_query_if_needed env true;;
    asks (fun r => view_find_first (group env) (m_table_view r) value)
  end.

(** ** Deriving *)
Definition filter env (q : core_query) : P Results :=
  r ← get;
  if will_apply_limit (m_descriptor_ordering r) then raise UnimplementedOperationException
  else query ← get_query env; mret (of_query (m_realm r) (and_query query q) (m_descriptor_ordering r)).

(** A call on another [Results] *)
Definition on_other {A} (other : Results) (m : P A) : P A :=
  fun r =>
    match m other with
    | returns a _ => returns a r
    | throws e _ => throws e r
    | crashes => crashes
    end.

(** [Row] accessors, as [get<RowExpr>] makes them *)
Definition read_row (g : core_group) (row : Z) : RowExpr := mkRow (Some row) true.
Definition blank_row : RowExpr := mkRow None false.

(** [index_of] of the first row matching a query *)
Definition index_of_query env (q : core_query) : P Z :=
  r ← get;
  if will_apply_sort (m_descriptor_ordering r) then
    filtered ← filter env q;
    row ← on_other filtered (first read_row blank_row env);
    match row with Some row => index_of_row env row | None => mret npos end
  else
    query ← get_query env;
    let query := sync_view_if_needed (group env) (and_query query q) in
    let row := query_find (group env) query in
    if negb (row =? npos) then index_of_row env (mkRow (Some row) true) else mret row.

Definition get_type env : P PropertyType :=
  validate_read env;; r ← get;
  match m_mode r with
  | Empty | LinkView => mret PT_Object
  | Query | TableView | Table => mret (if in_group env then PT_Object else element_type env)
  end.

(** The schema is searched on every call; the code keeps what it found. *)
Definition get_object_schema env : P ObjectSchema :=
  validate_read env;; r ← get;
  assert (m_realm r);;
  deref (find_object (realm_schema env) (if m_table r then table_object_type env else EmptyString)).

Definition columns_of env (keypath : string) : P (list Z) :=
  o ← get_object_schema env;
  match parse_keypath keypath (realm_schema env) o with
  | columns l => mret l
  | rejected reason => raise (invalid_key_path keypath reason)
  | undefined => fails
  end.

Fixpoint mapM_prog {A B} (f : A -> P B) (l : list A) : P (list B) :=
  match l with
  | [] => mret []
  | x :: l => y ← f x; ys ← mapM_prog f l; mret (y :: ys)
  end.

Definition sort_by_descriptor env (s : core_sort) : P Results :=
  r ← get;
  match m_mode r with
  | LinkView => lv ← deref (m_link_view r); mret (of_link_view (m_realm r) lv None (Some s))
  | _ =>
    let new_order := append_sort (m_descriptor_ordering r) s in
    query ← get_query env; mret (of_query (m_realm r) query new_order)
  end.

Definition distinct_by_descriptor env (u : core_distinct) : P Results :=
  r ← get;
  let new_order := append_distinct (m_descriptor_ordering r) u in
  query ← get_query env; mret (of_query (m_realm r) query new_order).

Definition not_object_error (t : PropertyType) (keypaths : list string) : option SchemaError :=
  match keypaths with
  | [k] =>
    if string_eqb k "self" then None
    else Some (mkSchemaError "Cannot sort on key path '%1': arrays of '%2' can only be sorted on 'self'" [k; string_for_property_type t])
  | _ => Some (mkSchemaError "Cannot sort array of '%1' on more than one key path" [string_for_property_type t])
  end.

(** What [sort] and [distinct] on key paths share: the columns, or the one column of
    a list of values *)
Definition keypath_columns env (keypaths : list string) : P (list (list Z)) :=
  t ← get_type env;
  if negb (pt_eqb t PT_Object) then
    match not_object_error t keypaths with
    | Some e => raise (invalid_argument e)
    | None => mret [[0]]
    end
  else mapM_prog (columns_of env) keypaths.

Definition sort env (keypaths : list (string * bool)) : P Results :=
  match keypaths with
  | [] => asks copy_of
  | _ =>
    indices ← keypath_columns env (fst <$> keypaths);
    sort_by_descriptor env (sort_descriptor indices (snd <$> keypaths))
  end.

Definition distinct env (keypaths : list string) : P Results :=
  match keypaths with
  | [] => asks copy_of
  | _ =>
    indices ← keypath_columns env keypaths;
    distinct_by_descriptor env (distinct_descriptor indices)
  end.

Definition limit env (max_count : Z) : P Results :=
  r ← get;
  let new_order := append_limit (m_descriptor_ordering r) max_count in
  query ← get_query env; mret (of_query (m_realm r) query new_order).

Definition append (o : core_ordering) (d : Descriptor core_sort core_distinct) : core_ordering :=
  match d with
  | SortDescriptor s => append_sort o s
  | DistinctDescriptor u => append_distinct o u
  | LimitDescriptor n => append_limit o n
  end.

Definition apply_ordering env (ordering : core_ordering) : P Results :=
  r ← get;
  let new_order := foldl append (m_descriptor_ordering r) (descriptors ordering) in
  query ← get_query env; mret (of_query (m_realm r) query new_order).

(** [snapshot() &&]: the object that is left behind, and [snapshot() const &] on a
    copy *)
Definition snapshot_moved env : P Results :=
  validate_read env;; r ← get;
  match m_mode r with
  | Empty => mret of_nothing
  | m =>
    when (bool_decide (m = Table) || bool_decide (m = LinkView)) (to_query env);;
    evaluate_query_if_needed env false;;
    modify (set_notifier false);;
    modify (set_policy Never);;
    get
  end.

Definition snapshot env : P Results :=
  validate_read env;; r ← get; on_other (copy_of r) (snapshot_moved env).

Definition get_tableview env : P core_view :=
  validate_read env;; r ← get;
  let evaluated : P core_view := evaluate_query_if_needed env true;; asks m_table_view in
  match m_mode r with
  | Empty => mret no_view
  | LinkView =>
    direct ← update_linkview env;
    if direct : bool then lv ← deref (m_link_view r); mret (find_all (group env) (where_links lv) no_ordering)
    else evaluated
  | Query | TableView => evaluated
  | Table => mret (find_all (group env) where_table no_ordering)
  end.

(** ** Aggregates *)
Definition type_is_aggregable (t : ColumnType) : bool := match t with type_Other => false | _ => true end.

(** The type of a column that does not exist is undefined. *)
Definition get_column_type env (column : Z) : P ColumnType := deref (column_type (group env) column).

Definition prepare_for_aggregate env (column : Z) : P () :=
  (if column_count (group env) <? column
   then raise (OutOfBoundsIndexException column (column_count (group env))) else mret ());;
  r ← get;
  (match m_mode r with
   | Empty | Table => mret ()
   | LinkView => to_query env;; evaluate_query_if_needed env true
   | Query | TableView => evaluate_query_if_needed env true
   end);;
  t ← get_column_type env column;
  if type_is_aggregable t then mret () else raise (UnsupportedColumnTypeException column).

Definition has_timestamps (f : Aggregate) : bool := match f with Max | Min => true | Sum | Average => false end.

Definition aggregate env (f : Aggregate) (column : Z) : P (option (core_mixed * Z)) :=
  validate_read env;; r ← get;
  if negb (m_table r) then mret None
  else
    prepare_for_aggregate env column;;
    t ← get_column_type env column;
    match t with
    | type_Timestamp => if has_timestamps f then mret () else raise (UnsupportedColumnTypeException column)
    | type_Other => fails
    | _ => mret ()
    end;;
    asks (fun r =>
      Some (match m_mode r with
            | Table => table_aggregate (group env) f column
            | _ => view_aggregate (group env) (m_table_view r) f column
            end)).

(** [max] and [min] have no result without a row, [average] none without a value. *)
Definition aggregated (f : Aggregate) (x : core_mixed * Z) : option core_mixed :=
  match f with
  | Max | Min => if x.2 =? npos then None else Some x.1
  | Sum => Some x.1
  | Average => if x.2 =? 0 then None else Some x.1
  end.

Definition max env (column : Z) : P (option core_mixed) := x ← aggregate env Max column; mret (x ≫= aggregated Max).
Definition min env (column : Z) : P (option core_mixed) := x ← aggregate env Min column; mret (x ≫= aggregated Min).
Definition sum env (column : Z) : P (option core_mixed) := x ← aggregate env Sum column; mret (x ≫= aggregated Sum).
Definition average env (column : Z) : P (option core_mixed) := x ← aggregate env Average column; mret (x ≫= aggregated Average).

(** ** Clearing: the result is what the transaction reads afterwards. *)
Definition clear_view env : P core_group :=
  validate_write env;;
  evaluate_query_if_needed env true;;
  r ← get;
  let '(g, v) := view_clear (group env) (m_table_view r) in
  match m_update_policy r with
  | Auto => modify (set_view v);; mret g
  | Never => mret g
  end.

Definition clear env : P core_group :=
  r ← get;
  match m_mode r with
  | Empty => mret (group env)
  | Table =>
    validate_write env;;
    if is_partial env then on_other (of_query (m_realm r) where_table no_ordering) (clear_view env)
    else mret (table_clear (group env))
  | Query | TableView => clear_view env
  | LinkView => validate_write env;; lv ← deref (m_link_view r); mret (remove_all_target_rows (group env) lv)
  end.

(** ** Notifications *)
(** The callback itself is the notifier's. *)
Definition add_notification_callback env : P () := prepare_async env true.

Definition is_in_table_order r : bool :=
  match m_mode r with
  | Empty | Table => true
  | LinkView => false
  | Query => query_in_table_order (m_query r) && negb (will_apply_sort (m_descriptor_ordering r))
  | TableView => view_in_table_order (m_table_view r)
  end.

(** [Internal::set_table_view], which the notifier calls *)
Definition set_table_view env (tv : core_view) : P () :=
  r ← get;
  assert (negb (bool_decide (m_update_policy r = Never)));;
  when (bool_decide (m_mode r = TableView)) (modify (set_wants (m_has_used_table_view r)));;
  modify (set_view tv);;
  modify (set_mode TableView);;
  modify (set_used false);;
  assert (view_is_in_sync (group env) tv);;
  assert (view_is_attached tv).
End results.
