(* ===== verification/ResultsFacts.v ===== *)
(** * What a [Results] denotes

    The laws of core's queries and views, the rows a [Results] stands for, and
    what evaluating and reading it gives: its rows, and a state that denotes the
    same at every version. *)
From S2P Require Import Prelude.
From S2P Require Import CallbackLoop.
From S2P Require Import IndexSets.
From S2P Require Import SchemaTypes.
From S2P Require Import Schemas.
From S2P Require Import Effects.
From S2P Require Import Results.

(** ** Positions *)
Definition position {A} `{EqDecision A} (x : A) (l : list A) : Z :=
  let i := find_if (fun y => bool_decide (y = x)) l in
  if (i =? length l)%nat then npos else Z.of_nat i.

(** The objects of some rows, some of them gone *)
Definition objects_at (objs : list Z) (rows : list (option Z)) : list Z :=
  omap (fun row => row ≫= fun i => objs !! Z.to_nat i) rows.

(** ** The laws of core *)
Definition is_sort {So Di} (d : Descriptor So Di) : bool := match d with SortDescriptor _ => true | _ => false end.
Definition is_distinct {So Di} (d : Descriptor So Di) : bool := match d with DistinctDescriptor _ => true | _ => false end.
Definition is_limit {So Di} (d : Descriptor So Di) : bool := match d with LimitDescriptor _ => true | _ => false end.

(** [matching] is what a query finds in the order it finds it, [satisfies] whether a
    row meets a query's conditions, [objects] the identities of the rows. *)
Class CoreLaws `{HC : Core} := {
  matching : core_group -> core_query -> list Z;
  satisfies : core_group -> core_query -> Z -> bool;
  sort_rows : core_group -> core_sort -> list Z -> list Z;
  distinct_rows : core_group -> core_distinct -> list Z -> list Z;
  aggregate_of : core_group -> Aggregate -> Z -> list (option Z) -> core_mixed * Z;
  objects : core_group -> list Z;
  apply_descriptor (g : core_group) (rows : list Z) (d : Descriptor core_sort core_distinct) : list Z :=
    match d with
    | SortDescriptor s => sort_rows g s rows
    | DistinctDescriptor u => distinct_rows g u rows
    | LimitDescriptor n => take (Z.to_nat n) rows
    end;
  arrange (g : core_group) (o : core_ordering) (rows : list Z) : list Z :=
    foldl (apply_descriptor g) rows (descriptors o);
  view_steady g g' v : length (view_rows g' v) = length (view_rows g v);
  objects_size g : Z.of_nat (length (objects g)) = table_size g;
  matching_table g : matching g where_table = seqZ 0 (table_size g);
  matching_links g l : matching g (where_links l) = link_rows g l;
  matching_view g v : view_rows g (sync_if_needed g v) = Some <$> matching g (where_view v);
  matching_and g q p : matching g (and_query q p) = List.filter (satisfies g p) (matching g q);
  matching_sync g g' q : matching g (sync_view_if_needed g' q) = matching g q;
  table_synced g : sync_view_if_needed g where_table = where_table;
  links_synced g l : sync_view_if_needed g (where_links l) = where_links l;
  none_has_table : query_has_table no_query = false;
  table_has_table : query_has_table where_table = true;
  links_have_table l : query_has_table (where_links l) = true;
  view_has_table v : query_has_table (where_view v) = true;
  and_has_table q p : query_has_table (and_query q p) = query_has_table q;
  sync_has_table g q : query_has_table (sync_view_if_needed g q) = query_has_table q;
  find_first_match g q : query_find g (sync_view_if_needed g q) = hd npos (matching g q);
  count_matches g q o : will_apply_distinct o = false ->
    query_count g (sync_view_if_needed g q) o = Z.of_nat (length (arrange g o (matching g q)));
  found g q o : view_rows g (find_all g (sync_view_if_needed g q) o) = Some <$> arrange g o (matching g q);
  found_synced g g' q o :
    view_rows g' (sync_if_needed g' (find_all g (sync_view_if_needed g q) o)) = Some <$> arrange g' o (matching g' q);
  found_query g g' q o : matching g' (view_get_query (find_all g q o)) = matching g' q;
  found_has_table g q o : query_has_table (view_get_query (find_all g q o)) = query_has_table q;
  sync_again g g' v : view_rows g' (sync_if_needed g' (sync_if_needed g v)) = view_rows g' (sync_if_needed g' v);
  sync_query_same g g' v : matching g' (view_get_query (sync_if_needed g v)) = matching g' (view_get_query v);
  sync_query_has_table g v : query_has_table (view_get_query (sync_if_needed g v)) = query_has_table (view_get_query v);
  view_position g v i : view_find_by_source_ndx g v i = position (Some i) (view_rows g v);
  link_position g l i : link_find g l i = position i (link_rows g l);
  aggregates_view g v f c : view_aggregate g v f c = aggregate_of g f c (view_rows g v);
  aggregates_table g f c : table_aggregate g f c = aggregate_of g f c (Some <$> seqZ 0 (table_size g));
  applies_sort o : will_apply_sort o = existsb is_sort (descriptors o);
  applies_distinct o : will_apply_distinct o = existsb is_distinct (descriptors o);
  applies_limit o : will_apply_limit o = existsb is_limit (descriptors o);
  nothing_ordered : descriptors no_ordering = [];
  arrange_sort g o s rows : arrange g (append_sort o s) rows = sort_rows g s (arrange g o rows);
  arrange_distinct g o u rows : arrange g (append_distinct o u) rows = distinct_rows g u (arrange g o rows);
  arrange_limit g o n rows : arrange g (append_limit o n) rows = take (Z.to_nat n) (arrange g o rows);
  sort_not_distinct o s : will_apply_distinct (append_sort o s) = will_apply_distinct o;
  sort_not_limit o s : will_apply_limit (append_sort o s) = will_apply_limit o;
  sort_perm g s rows : sort_rows g s rows ≡ₚ rows;
  sort_filter g s f rows : sort_rows g s (List.filter f rows) = List.filter f (sort_rows g s rows);
  distinct_sublist g u rows : distinct_rows g u rows `sublist_of` rows;
  cleared_table g : objects (table_clear g) = [];
  cleared_view g v : objects (view_clear g v).1 ≡ₚ
    base.filter (fun x => x ∉ objects_at (objects g) (view_rows g v)) (objects g);
  cleared_empty g v : view_rows (view_clear g v).1 (view_clear g v).2 = [];
  cleared_links g l : objects (remove_all_target_rows g l) ≡ₚ
    base.filter (fun x => x ∉ objects_at (objects g) (Some <$> link_rows g l)) (objects g)
}.

Section results.
Context `{HC : Core} {HL : CoreLaws} `{CharSign}.
Implicit Types (r : Results) (env : Env).

Lemma prog_returns {A B} (m : Prog Results ResultsError A) (f : A -> Prog Results ResultsError B) r a r' :
  m r = returns a r' -> (m ≫= f) r = f a r'.
Proof. intros E. unfold mbind, Prog_bind. by rewrite E. Qed.

Lemma table_size_nonneg g : 0 <= table_size g.
Proof. rewrite <- objects_size. lia. Qed.

(** ** What a [Results] denotes *)
(** The query that finds the rows of a view again *)
Definition view_query (v : core_view) : core_query :=
  if query_has_table (view_get_query v) then view_get_query v else where_view v.

(** A view that is, whenever it is synchronised, the ordered matches of its query *)
Definition backed (v : core_view) (o : core_ordering) : Prop :=
  forall g, view_rows g (sync_if_needed g v) = Some <$> arrange g o (matching g (view_query v)).

Definition denotes (g : core_group) (r : Results) : list (option Z) :=
  match m_update_policy r, m_mode r with
  | Never, _ => view_rows g (m_table_view r)
  | Auto, Empty => []
  | Auto, Table => Some <$> seqZ 0 (table_size g)
  | Auto, LinkView =>
    Some <$> arrange g (m_descriptor_ordering r) (match m_link_view r with Some l => link_rows g l | None => [] end)
  | Auto, Query => Some <$> arrange g (m_descriptor_ordering r) (matching g (m_query r))
  | Auto, TableView => Some <$> arrange g (m_descriptor_ordering r) (matching g (view_query (m_table_view r)))
  end.

(** The members fit the mode. *)
Definition ok (r : Results) : Prop :=
  (m_mode r <> Empty -> m_realm r = true) /\
  m_table r = negb (bool_decide (m_mode r = Empty)) /\
  (m_update_policy r = Never -> m_mode r = TableView) /\
  match m_mode r with
  | Empty => True
  | Table => descriptors (m_descriptor_ordering r) = []
  | LinkView => is_Some (m_link_view r) /\ will_apply_distinct (m_descriptor_ordering r) = false /\
  will_apply_limit (m_descriptor_ordering r) = false
  | Query => query_has_table (m_query r) = true
  | TableView => m_update_policy r = Auto -> backed (m_table_view r) (m_descriptor_ordering r)
  end.

(** Two states of a [Results] that cannot be told apart by reading *)
Definition same (r r' : Results) : Prop :=
  (forall g, denotes g r' = denotes g r) /\ m_table r' = m_table r /\ m_update_policy r' = m_update_policy r /\
  m_descriptor_ordering r' = m_descriptor_ordering r.

Lemma same_refl r : same r r.
Proof. by repeat split. Qed.
Lemma same_trans r r' r'' : same r r' -> same r' r'' -> same r r''.
Proof.
  intros (D & T & U & O) (D' & T' & U' & O'). repeat split; [|congruence..]. intros g. by rewrite D', D.
Qed.

Lemma view_query_sync g g' v : matching g' (view_query (sync_if_needed g v)) = matching g' (view_query v).
Proof.
  unfold view_query. rewrite sync_query_has_table. destruct (query_has_table (view_get_query v)).
  - apply sync_query_same.
  - apply (inj (fmap Some)). rewrite <- !matching_view. apply sync_again.
Qed.

Lemma backed_sync g v o : backed v o -> backed (sync_if_needed g v) o.
Proof. intros Hb g'. by rewrite sync_again, view_query_sync. Qed.

Lemma found_view_query g g' q o : query_has_table q = true -> matching g' (view_query (find_all g q o)) = matching g' q.
Proof. intros Hq. unfold view_query. rewrite found_has_table, Hq. apply found_query. Qed.

Lemma found_backed g q o : query_has_table q = true -> backed (find_all g (sync_view_if_needed g q) o) o.
Proof.
  intros Hq g'. rewrite found_synced, found_view_query by by rewrite sync_has_table. by rewrite matching_sync.
Qed.

(** ** Evaluation *)
Lemma prepare_async_quiet env r : m_realm r = true ->
  exists n w, prepare_async env false r = returns () (set_wants w (set_notifier n r)).
Proof.
  intros Hr. assert (set_wants (m_wants_background_updates r) (set_notifier (m_notifier r) r) = r) as E by by destruct r.
  assert (exists n w, returns (E:=ResultsError) () r = returns () (set_wants w (set_notifier n r))) as Hsame.
  { exists (m_notifier r), (m_wants_background_updates r). by rewrite E. }
  unfold prepare_async, mbind, Prog_bind. cbn. destruct (m_notifier r) eqn:En; [exact Hsame|].
  rewrite Hr. cbn. destruct (immutable env); [exact Hsame|]. destruct (is_in_transaction env); [exact Hsame|].
  destruct (bool_decide _); [exact Hsame|]. destruct (can_deliver_notifications env); [|exact Hsame].
  cbn. destruct (nothing_to_run r); [exact Hsame|]. cbn. by exists true, true.
Qed.

Lemma refresh_view_spec env w r : ok r -> m_mode r = TableView -> m_update_policy r = Auto ->
  exists r', refresh_view env w r = returns () r' /\ ok r' /\ same r r' /\ m_mode r' = TableView /\
  view_rows (group env) (m_table_view r') = denotes (group env) r.
Proof.
  intros (Hr & Ht & Hn & Hm) Em Ep. rewrite Em in Hm. specialize (Hm Ep).
  assert (exists n k, when w (prepare_async env false) r = returns () (set_wants k (set_notifier n r))) as (n & k & E).
  { destruct w; [apply prepare_async_quiet, Hr; congruence|].
    exists (m_notifier r), (m_wants_background_updates r). by destruct r. }
  eexists. unfold refresh_view. rewrite (prog_returns _ _ _ _ _ E). split; [reflexivity|].
  unfold denotes. cbn. rewrite Em, Ep. split; [|split].
  - unfold ok. cbn. rewrite Em, Ep. split; [intros _; apply Hr; congruence|]. split; [by rewrite Ht, Em|].
    split; [done|]. intros _. by apply backed_sync.
  - unfold same, denotes. cbn. rewrite Em, Ep. repeat split. intros g. by rewrite view_query_sync.
  - split; [done|]. apply Hm.
Qed.

Lemma run_query_spec env r : ok r -> m_mode r = Query ->
  exists r', run_query env r = returns () r' /\ ok r' /\ same r r' /\ m_mode r' = TableView.
Proof.
  intros (Hr & Ht & Hn & Hm) Em. rewrite Em in Hm.
  assert (m_update_policy r = Auto) as Ep by (destruct (m_update_policy r); [done|]; specialize (Hn eq_refl); congruence).
  eexists. split; [reflexivity|]. cbn. split; [|split; [|done]].
  - unfold ok. cbn. rewrite Ep. split; [intros _; apply Hr; congruence|]. split; [by rewrite Ht, Em|].
    split; [done|]. intros _. by apply found_backed.
  - unfold same, denotes. cbn. rewrite Em, Ep. repeat split. intros g.
    by rewrite found_view_query, matching_sync by by rewrite sync_has_table.
Qed.

Lemma auto_of r : ok r -> m_mode r <> TableView -> m_update_policy r = Auto.
Proof. intros (_ & _ & Hn & _) Hm. destruct (m_update_policy r); [done|]. by destruct Hm; apply Hn. Qed.

(** A snapshot is never evaluated again. *)
Lemma evaluate_never env w r : ok r -> m_update_policy r = Never -> evaluate_query_if_needed env w r = returns () r.
Proof.
  intros (_ & _ & Hn & _) Ep. unfold evaluate_query_if_needed, mbind, Prog_bind. cbn [get].
  rewrite (bool_decide_eq_true_2 _ Ep). by rewrite bool_decide_eq_true_2 by by apply Hn.
Qed.

(** Afterwards a [Results] that can be evaluated is a view of its rows. *)
Lemma evaluate_spec env w r : ok r ->
  exists r', evaluate_query_if_needed env w r = returns () r' /\ ok r' /\ same r r' /\
    (m_mode r = Query \/ m_mode r = TableView ->
     m_mode r' = TableView /\ view_rows (group env) (m_table_view r') = denotes (group env) r).
Proof.
  intros Hok. destruct (m_update_policy r) eqn:Ea.
  2: { exists r. rewrite evaluate_never by done. split; [done|]. split; [done|]. split; [apply same_refl|]. intros _.
    split; [by apply Hok|]. unfold denotes. by rewrite Ea. }
  unfold evaluate_query_if_needed, mbind at 1, Prog_bind at 1. cbn [get]. rewrite Ea, bool_decide_eq_false_2 by done.
  destruct (m_mode r) eqn:Em.
  1, 2, 4: exists r; split; [done|]; split; [done|]; split; [apply same_refl|]; by intros [|].
  - destruct (run_query_spec env r Hok Em) as (r1 & E1 & Hok1 & S1 & Em1). rewrite (prog_returns _ _ _ _ _ E1).
      pose proof S1 as (D1 & _ & U1 & _).
      destruct (refresh_view_spec env w r1 Hok1 Em1 (eq_trans U1 Ea)) as (r2 & E2 & Hok2 & S2 & Em2 & V2).
      exists r2. rewrite E2. split; [done|]. split; [done|]. split; [by eapply same_trans|]. intros _. split; [done|].
      by rewrite V2, D1.
  - destruct (refresh_view_spec env w r Hok Em Ea) as (r2 & E2 & Hok2 & S2 & Em2 & V2). exists r2. by rewrite E2.
Qed.

Definition readable env r : Prop := m_table r = true -> table_attached env = true.

Lemma validated env r : readable env r -> validate_read env r = returns () r.
Proof.
  intros Hr. unfold validate_read, mbind, Prog_bind. cbn. unfold is_valid.
  destruct (m_table r) eqn:E; cbn; [|done]. by rewrite Hr.
Qed.

Lemma same_readable env r r' : same r r' -> readable env r -> readable env r'.
Proof. intros (_ & T & _) Hr. unfold readable. by rewrite T. Qed.

(** [get_query] finds the rows, before they are ordered. *)
Lemma get_query_spec env r : ok r -> readable env r ->
  exists q r', get_query env r = returns q r' /\ ok r' /\ same r r' /\ m_mode r' = m_mode r /\
    (m_mode r <> Empty -> query_has_table q = true) /\
    (m_mode r <> Empty -> m_update_policy r = Auto ->
     forall g, denotes g r = Some <$> arrange g (m_descriptor_ordering r) (matching g q)).
Proof.
  intros Hok Hread. unfold get_query. rewrite (prog_returns _ _ _ _ _ (validated env r Hread)). unfold mbind at 1, Prog_bind at 1. cbn.
  pose proof Hok as (Hr & Ht & Hn & Hm). unfold denotes.
  destruct (m_mode r) eqn:Em.
  - exists (m_query r), r. split; [done|]. split; [done|]. split; [apply same_refl|]. by rewrite Em.
  - exists where_table, r. split; [done|]. do 2 (split; [done || apply same_refl|]). split; [done|].
    split; [intros _; apply table_has_table|]. intros _ -> g. unfold arrange. rewrite Hm, matching_table. done.
  - exists (m_query r), r. split; [done|]. do 2 (split; [done || apply same_refl|]). split; [done|]. split; [done|].
    by intros _ ->.
  - destruct Hm as ([l El] & _). rewrite El. exists (where_links l), r. split; [done|].
    do 2 (split; [done || apply same_refl|]). split; [done|]. split; [intros _; apply links_have_table|].
    intros _ -> g. by rewrite matching_links.
  - unfold view_query. destruct (query_has_table (view_get_query (m_table_view r))) eqn:Eq.
    + exists (view_get_query (m_table_view r)), r. split; [done|]. do 2 (split; [done || apply same_refl|]).
      split; [done|]. split; [done|]. by intros _ ->.
    + destruct (bool_decide (m_update_policy r = Auto)) eqn:Ep.
      * apply bool_decide_eq_true in Ep. eexists _, _. split; [reflexivity|]. cbn. specialize (Hm Ep).
        assert (same r (set_view (sync_if_needed (group env) (m_table_view r)) r)) as Hs.
        { unfold same, denotes. cbn. rewrite Em, Ep. repeat split. intros g. by rewrite view_query_sync. }
        split; [|split; [exact Hs|]; split; [done|]; split; [intros _; apply view_has_table|]].
        { unfold ok. cbn. rewrite Em. split; [done|]. split; [by rewrite Ht|]. split; [done|]. intros _. by apply backed_sync. }
        intros _ _ g. rewrite Ep. do 2 f_equal. apply (inj (fmap Some)). by rewrite <- !matching_view, sync_again.
      * apply bool_decide_eq_false in Ep. eexists _, r. split; [reflexivity|]. split; [done|]. split; [apply same_refl|].
        split; [done|]. split; [intros _; apply view_has_table|]. done.
Qed.
Lemma to_query_spec env r : ok r -> readable env r -> m_mode r <> Empty -> m_update_policy r = Auto ->
  exists r', to_query env r = returns () r' /\ ok r' /\ same r r' /\ m_mode r' = Query.
Proof.
  intros Hok Hread Hm Ep. destruct (get_query_spec env r Hok Hread) as (q & r1 & E & Hok1 & S & Em & Hq & Hd).
  pose proof S as (D & T & U & O). destruct Hok1 as (Hr & Ht & _ & _).
  eexists. unfold to_query. rewrite (prog_returns _ _ _ _ _ E). split; [reflexivity|]. split; [|split; [|done]].
  - unfold ok. cbn. rewrite U, Ep. rewrite Em in Hr, Ht. split; [intros _; by apply Hr|].
    split; [by rewrite Ht, bool_decide_eq_false_2|]. split; [done|]. by apply Hq.
  - split; [|done]. intros g. unfold denotes at 1. cbn. rewrite U, Ep, O. symmetry. by apply Hd.
Qed.

(** A list of links that is not ordered is read directly. *)
Lemma update_linkview_spec env r : ok r -> readable env r -> m_mode r = LinkView ->
  exists b r', update_linkview env r = returns b r' /\ ok r' /\ same r r' /\
    (if b : bool then r' = r /\ descriptors (m_descriptor_ordering r) = [] else m_mode r' = TableView).
Proof.
  intros Hok Hread Em. assert (m_update_policy r = Auto) as Ep by (apply auto_of; [done|congruence]).
  unfold update_linkview, mbind at 1, Prog_bind at 1. cbn. rewrite bool_decide_eq_true_2 by done.
  unfold mbind at 1, Prog_bind at 1. cbn. unfold ordering_is_empty. destruct (descriptors _) eqn:Eo; cbn.
  { exists true, r. by do 3 (split; [done || apply same_refl|]). }
  destruct (to_query_spec env r Hok Hread) as (r1 & E1 & Hok1 & S1 & Em1); [congruence|done|].
  destruct (evaluate_spec env true r1 Hok1) as (r2 & E2 & Hok2 & S2 & V).
  rewrite (prog_returns _ _ _ _ _ E1), (prog_returns _ _ _ _ _ E2). exists false, r2. split; [done|]. split; [done|].
  split; [by eapply same_trans|]. apply V. by left.
Qed.

Lemma denotes_attached g r : m_update_policy r = Auto -> None ∉ denotes g r.
Proof.
  intros Ep. unfold denotes. rewrite Ep. destruct (m_mode r); try (intros (? & [=] & _)%list_elem_of_fmap). by intros ?%elem_of_nil.
Qed.

(** The rows of a list of links that is not ordered *)
Lemma denotes_links g r lv : m_update_policy r = Auto -> m_mode r = LinkView -> m_link_view r = Some lv ->
  descriptors (m_descriptor_ordering r) = [] -> denotes g r = Some <$> link_rows g lv.
Proof. intros Ep Em El Eo. unfold denotes, arrange. by rewrite Ep, Em, El, Eo. Qed.

(** ** Reading *)
Section try_get.
Context {T : Type} (read : core_group -> Z -> T) (blank : T).

Definition entry (g : core_group) (rows : list (option Z)) (i : Z) : option T :=
  (fun row => match row with Some x => read g x | None => blank end) <$> rows !! Z.to_nat i.

Lemma get_from_view_spec env i r : 0 <= i -> ok r -> m_mode r = Query \/ m_mode r = TableView ->
  exists r', get_from_view read blank env i r = returns (entry (group env) (denotes (group env) r) i) r' /\ ok r' /\ same r r'.
Proof.
  intros Hi Hok Hm. destruct (evaluate_spec env true r Hok) as (r' & E & Hok' & S & V). destruct (V Hm) as [Em Hv].
  exists r'. unfold get_from_view. rewrite (prog_returns _ _ _ _ _ E). split; [|done].
  unfold mbind, Prog_bind, get. unfold view_size, entry. rewrite Hv. pose proof S as (_ & _ & U & _).
  destruct (Z.leb_spec (Z.of_nat (length (denotes (group env) r))) i).
  - rewrite lookup_ge_None_2 by lia. done.
  - destruct (lookup_lt_is_Some_2 (denotes (group env) r) (Z.to_nat i)) as [row Erow]; [lia|].
    rewrite Erow. destruct row as [row|]; [done|]. rewrite bool_decide_eq_true_2; [done|].
    rewrite U. destruct (m_update_policy r) eqn:Ep; [|done].
    destruct (denotes_attached (group env) r Ep). by eapply list_elem_of_lookup_2.
Qed.

Lemma try_get_spec env i r : 0 <= i -> ok r -> readable env r ->
  exists r', try_get read blank env i r = returns (entry (group env) (denotes (group env) r) i) r' /\ ok r' /\ same r r'.
Proof.
  intros Hi Hok Hread. unfold try_get. rewrite (prog_returns _ _ _ _ _ (validated env r Hread)).
  unfold mbind at 1, Prog_bind at 1. cbn. destruct (m_mode r) eqn:Em.
  - exists r. split; [|by split; [|apply same_refl]]. unfold denotes. rewrite auto_of, Em by (done || congruence). done.
  - exists r. split; [|by split; [|apply same_refl]]. unfold denotes, entry. rewrite auto_of, Em by (done || congruence).
    rewrite list_lookup_fmap. destruct (Z.ltb_spec i (table_size (group env))).
    + rewrite lookup_seqZ_lt by lia. cbn. do 3 f_equal. lia.
    + by rewrite lookup_seqZ_ge by lia.
  - apply get_from_view_spec; auto.
  - destruct (update_linkview_spec env r Hok Hread Em) as (b & r1 & E & Hok1 & S & Hb).
    rewrite (prog_returns _ _ _ _ _ E). destruct b.
    + destruct Hb as [-> Eo]. pose proof Hok as (_ & _ & _ & Hl). rewrite Em in Hl. destruct Hl as ([lv El] & _).
      exists r. split; [|done]. rewrite (denotes_links _ _ lv) by (done || (apply auto_of; [done|congruence])).
      unfold mbind, Prog_bind. cbn. rewrite El. cbn. unfold entry. rewrite list_lookup_fmap. by destruct (_ !! _).
    + pose proof S as (D & _). rewrite <- D. destruct (get_from_view_spec env i r1 Hi Hok1 (or_intror Hb)) as (r2 & E2 & Hok2 & S2).
      exists r2. split; [done|]. split; [done|]. by eapply same_trans.
  - apply get_from_view_spec; auto.
Qed.
End try_get.
Definition count_of env r : Z := Z.of_nat (length (denotes (group env) r)).

Lemma evaluated_size_spec env r : ok r -> m_mode r = Query \/ m_mode r = TableView ->
  exists r', evaluated_size env r = returns (count_of env r) r' /\ ok r' /\ same r r'.
Proof.
  intros Hok Hm. destruct (evaluate_spec env true r Hok) as (r' & E & Hok' & S & V). destruct (V Hm) as [_ Hv].
  exists r'. unfold evaluated_size. rewrite (prog_returns _ _ _ _ _ E). unfold asks, view_size. by rewrite Hv.
Qed.

Lemma sync_query_spec env r : ok r -> m_mode r = Query ->
  exists r', sync_query env r = returns () r' /\ ok r' /\ same r r' /\ m_mode r' = Query /\
    m_query r' = sync_view_if_needed (group env) (m_query r).
Proof.
  intros Hok Em. assert (m_update_policy r = Auto) as Ep by (apply auto_of; [done|congruence]).
  destruct Hok as (Hr & Ht & Hn & Hm). rewrite Em in Hm. eexists. split; [reflexivity|]. unfold ok, same, denotes. cbn.
  rewrite Em, Ep in *. rewrite sync_has_table. repeat split; auto. intros g. by rewrite matching_sync.
Qed.

Lemma query_size_spec env r : ok r -> m_mode r = Query -> will_apply_distinct (m_descriptor_ordering r) = false ->
  query_count (group env) (sync_view_if_needed (group env) (m_query r)) (m_descriptor_ordering r) = count_of env r.
Proof.
  intros Hok Em Hd. unfold count_of, denotes. rewrite auto_of, Em by (done || congruence).
  by rewrite length_fmap, count_matches.
Qed.

(** Sorting keeps the rows. *)
Lemma arrange_sorts g o rows : will_apply_distinct o = false -> will_apply_limit o = false -> arrange g o rows ≡ₚ rows.
Proof.
  rewrite applies_distinct, applies_limit. unfold arrange. revert rows.
  induction (descriptors o) as [|d ds IH]; intros rows Hd Hl; [done|]. cbn in *. destruct d; [|done|done]. cbn in *.
  by rewrite IH, sort_perm.
Qed.

Lemma links_size env r lv : ok r -> m_mode r = LinkView -> m_link_view r = Some lv ->
  Z.of_nat (length (link_rows (group env) lv)) = count_of env r.
Proof.
  intros Hok Em El. unfold count_of, denotes. rewrite auto_of, Em, El, length_fmap by (done || congruence).
  destruct Hok as (_ & _ & _ & Hm). rewrite Em in Hm. destruct Hm as (_ & Hd & Hl).
  by rewrite arrange_sorts.
Qed.

Lemma size_spec env r : ok r -> readable env r ->
  exists r', size env r = returns (count_of env r) r' /\ ok r' /\ same r r'.
Proof.
  intros Hok Hread. unfold size. rewrite (prog_returns _ _ _ _ _ (validated env r Hread)).
  unfold mbind at 1, Prog_bind at 1. cbn. destruct (m_mode r) eqn:Em.
  - exists r. split; [|by split; [|apply same_refl]]. unfold count_of, denotes. by rewrite auto_of, Em by (done || congruence).
  - exists r. split; [|by split; [|apply same_refl]]. unfold count_of, denotes.
    rewrite auto_of, Em, length_fmap, length_seqZ by (done || congruence). rewrite Z2Nat.id; [done|]. apply table_size_nonneg.
  - destruct (sync_query_spec env r Hok Em) as (r1 & E & Hok1 & S & Em1 & Eq). rewrite (prog_returns _ _ _ _ _ E).
    destruct (negb _) eqn:Ed.
    + apply negb_true_iff in Ed. exists r1. split; [|done]. unfold asks. rewrite Eq. pose proof S as (_ & _ & _ & ->).
      by rewrite query_size_spec.
    + destruct (evaluated_size_spec env r1 Hok1 (or_introl Em1)) as (r2 & E2 & Hok2 & S2). exists r2. rewrite E2.
      pose proof S as (D & _). unfold count_of. rewrite D. split; [done|]. split; [done|]. by eapply same_trans.
  - pose proof Hok as (_ & _ & _ & Hl). rewrite Em in Hl. destruct Hl as ([lv El] & _). rewrite El.
    exists r. split; [|by split; [|apply same_refl]]. unfold mbind, Prog_bind. cbn. by rewrite (links_size env r lv).
  - apply evaluated_size_spec; auto.
Qed.

Section elements.
Context {T : Type} (read : core_group -> Z -> T) (blank : T).

Lemma get_at_spec env i r : 0 <= i -> ok r -> readable env r ->
  exists r', get_at read blank env i r =
      match entry read blank (group env) (denotes (group env) r) i with
      | Some x => returns x r'
      | None => throws (OutOfBoundsIndexException i (count_of env r)) r'
      end /\ ok r' /\ same r r'.
Proof.
  intros Hi Hok Hread. destruct (try_get_spec read blank env i r Hi Hok Hread) as (r1 & E & Hok1 & S1).
  unfold get_at. rewrite (prog_returns _ _ _ _ _ E). destruct (entry _ _ _ _ _); [by exists r1|].
  destruct (size_spec env r1 Hok1 (same_readable _ _ _ S1 Hread)) as (r2 & E2 & Hok2 & S2). exists r2.
  rewrite (prog_returns _ _ _ _ _ E2). pose proof S1 as (D & _). unfold count_of. rewrite D. split; [done|].
  split; [done|]. by eapply same_trans.
Qed.

(** The last row: the index of an empty [Results] wraps and is out of range. *)
Lemma last_entry g (rows : list (option Z)) : Z.of_nat (length rows) < 2 ^ 64 ->
  entry read blank g rows (wrap (Z.of_nat (length rows) - 1)) =
  (fun row => match row with Some x => read g x | None => blank end) <$> list.last rows.
Proof.
  intros Hfit. unfold entry. destruct rows as [|row rows] using rev_ind.
  - by rewrite lookup_nil.
  - rewrite length_app in *. cbn in *. rewrite wrap_small by lia.
    rewrite list_lookup_middle by lia. by rewrite last_snoc.
Qed.

Lemma last_spec env r : ok r -> readable env r -> count_of env r < 2 ^ 64 ->
  exists r', last read blank env r =
      returns ((fun row => match row with Some x => read (group env) x | None => blank end) <$> list.last (denotes (group env) r)) r' /\
    ok r' /\ same r r'.
Proof.
  intros Hok Hread Hfit. unfold last. rewrite (prog_returns _ _ _ _ _ (validated env r Hread)).
  assert (exists r1, when (bool_decide (m_mode r = Query)) (evaluate_query_if_needed env true) r = returns () r1 /\ ok r1 /\ same r r1)
    as (r1 & E1 & Hok1 & S1).
  { destruct (bool_decide _); [|exists r; by split; [|split; [|apply same_refl]]].
    destruct (evaluate_spec env true r Hok) as (r1 & E1 & Hok1 & S1 & _). by exists r1. }
  unfold mbind at 1, Prog_bind at 1. cbn [get]. rewrite (prog_returns _ _ _ _ _ E1).
  destruct (size_spec env r1 Hok1 (same_readable _ _ _ S1 Hread)) as (r2 & E2 & Hok2 & S2).
  rewrite (prog_returns _ _ _ _ _ E2). pose proof (same_trans _ _ _ S1 S2) as S12.
  destruct (try_get_spec read blank env (wrap (count_of env r1 - 1)) r2) as (r3 & E3 & Hok3 & S3);
    [unfold wrap; apply Z.mod_pos_bound; lia|done|by eapply same_readable|].
  exists r3. rewrite E3. pose proof S1 as (D1 & _). pose proof S12 as (D2 & _). unfold count_of in *. rewrite D1, D2.
  rewrite last_entry by done. split; [done|]. split; [done|]. by eapply same_trans.
Qed.
End elements.
Lemma position_fmap x (l : list Z) : position (Some x) (Some <$> l) = position x l.
Proof.
  unfold position. rewrite length_fmap.
  assert (find_if (fun y => bool_decide (y = Some x)) (Some <$> l) = find_if (fun y => bool_decide (y = x)) l) as ->; [|done].
  induction l as [|y l IH]; [done|]. cbn. rewrite IH. destruct (decide (y = x)) as [->|Hy].
  - by rewrite !bool_decide_eq_true_2.
  - rewrite !bool_decide_eq_false_2 by congruence. done.
Qed.

Lemma position_seqZ x m n : m <= x < m + n -> position x (seqZ m n) = x - m.
Proof.
  intros Hx. unfold position. rewrite length_seqZ.
  destruct (find_if_split (fun y => bool_decide (y = x)) (seqZ m n)) as (l1 & l2 & E & -> & H1 & H2).
  assert (length l1 + length l2 = Z.to_nat n)%nat as Hlen by by rewrite <- length_app, <- E, length_seqZ.
  destruct (decide (length l1 < Z.to_nat n)%nat) as [Hlt|Hge].
  - rewrite (proj2 (Nat.eqb_neq _ _)) by lia. destruct l2 as [|y l2]; [cbn in *; lia|]. apply bool_decide_eq_true in H2 as ->.
    assert (seqZ m n !! length l1 = Some x) as Hx1 by (rewrite E; by apply list_lookup_middle).
    apply lookup_seqZ in Hx1. lia.
  - destruct l2; [|cbn in *; lia]. rewrite app_nil_r in E. exfalso.
    assert (x ∈ l1) as Hin by (rewrite <- E; by apply elem_of_seqZ).
    rewrite Forall_forall in H1. specialize (H1 x Hin). cbn in H1. by rewrite bool_decide_eq_true_2 in H1.
Qed.

Definition row_ok env (x : Z) : Prop := 0 <= x < table_size (group env).

Lemma index_of_row_spec env row r : ok r -> readable env r -> (forall x, row_index row = Some x -> m_mode r = Table -> row_ok env x) ->
  exists r', index_of_row env row r =
      match row_index row with
      | None => throws DetatchedAccessorException r'
      | Some x =>
        if m_table r && negb (of_this_table row) then throws IncorrectTableException r'
        else returns (position (Some x) (denotes (group env) r)) r'
      end /\ ok r' /\ same r r'.
Proof.
  intros Hok Hread Hrow. unfold index_of_row. rewrite (prog_returns _ _ _ _ _ (validated env r Hread)).
  destruct (row_index row) as [x|]; [|by exists r; split; [|split; [|apply same_refl]]].
  unfold mbind, Prog_bind at 1 2. cbn [mret Prog_ret get].
  destruct (m_table r && _) eqn:Et; [by exists r; split; [|split; [|apply same_refl]]|].
  destruct (m_mode r) eqn:Em.
  - exists r. split; [|by split; [|apply same_refl]]. unfold denotes. by rewrite auto_of, Em by (done || congruence).
  - exists r. split; [|by split; [|apply same_refl]]. unfold denotes. rewrite auto_of, Em by (done || congruence).
    rewrite position_fmap, position_seqZ by (by apply Hrow). cbn. f_equal. lia.
  - destruct (evaluate_spec env true r Hok) as (r1 & E & Hok1 & S1 & V). destruct (V (or_introl Em)) as [_ Hv].
    exists r1. unfold Prog_bind. rewrite E. unfold asks. by rewrite view_position, Hv.
  - destruct (update_linkview_spec env r Hok Hread Em) as (b & r1 & E & Hok1 & S & Hb).
    unfold Prog_bind at 1. rewrite E. destruct b.
    + destruct Hb as [-> Eo]. pose proof Hok as (_ & _ & _ & Hl). rewrite Em in Hl. destruct Hl as ([lv El] & _).
      exists r. split; [|done]. rewrite (denotes_links _ _ lv) by (done || (apply auto_of; [done|congruence])).
      unfold Prog_bind. rewrite El. cbn. by rewrite position_fmap, link_position.
    + destruct (evaluate_spec env true r1 Hok1) as (r2 & E2 & Hok2 & S2 & V2). destruct (V2 (or_intror Hb)) as [_ Hv].
      exists r2. unfold Prog_bind. rewrite E2. unfold asks. pose proof S as (D & _). rewrite view_position, Hv, D.
      split; [done|]. split; [done|]. by eapply same_trans.
  - destruct (evaluate_spec env true r Hok) as (r1 & E & Hok1 & S1 & V). destruct (V (or_intror Em)) as [_ Hv].
    exists r1. unfold Prog_bind. rewrite E. unfold asks. by rewrite view_position, Hv.
Qed.

Lemma get_tableview_spec env r : ok r -> readable env r -> m_mode r <> Empty ->
  exists v r', get_tableview env r = returns v r' /\ ok r' /\ same r r' /\ view_rows (group env) v = denotes (group env) r.
Proof.
  intros Hok Hread Hne. unfold get_tableview. rewrite (prog_returns _ _ _ _ _ (validated env r Hread)).
  unfold mbind at 1, Prog_bind at 1. cbn [get]. destruct (m_mode r) eqn:Em; [done| | | |].
  - exists (find_all (group env) where_table no_ordering), r. split; [done|]. split; [done|]. split; [apply same_refl|].
    unfold denotes. rewrite auto_of, Em by (done || congruence). rewrite <- (table_synced (group env)), found.
    unfold arrange. by rewrite nothing_ordered, matching_table.
  - destruct (evaluate_spec env true r Hok) as (r1 & E & Hok1 & S1 & V). destruct (V (or_introl Em)) as [_ Hv].
    exists (m_table_view r1), r1. by rewrite (prog_returns _ _ _ _ _ E).
  - destruct (update_linkview_spec env r Hok Hread Em) as (b & r1 & E & Hok1 & S & Hb).
    rewrite (prog_returns _ _ _ _ _ E). destruct b.
    + destruct Hb as [-> Eo]. pose proof Hok as (_ & _ & _ & Hl). rewrite Em in Hl. destruct Hl as ([lv El] & _).
      exists (find_all (group env) (where_links lv) no_ordering), r. unfold mbind, Prog_bind. rewrite El. cbn.
      split; [done|]. split; [done|]. split; [apply same_refl|].
      rewrite (denotes_links _ _ lv) by (done || (apply auto_of; [done|congruence])).
      rewrite <- (links_synced (group env)), found. unfold arrange. by rewrite nothing_ordered, matching_links.
    + destruct (evaluate_spec env true r1 Hok1) as (r2 & E2 & Hok2 & S2 & V2). destruct (V2 (or_intror Hb)) as [_ Hv].
      exists (m_table_view r2), r2. rewrite (prog_returns _ _ _ _ _ E2). pose proof S as (D & _).
      rewrite Hv, D. split; [done|]. split; [done|]. split; [|done]. by eapply same_trans.
  - destruct (evaluate_spec env true r Hok) as (r1 & E & Hok1 & S1 & V). destruct (V (or_intror Em)) as [_ Hv].
    exists (m_table_view r1), r1. by rewrite (prog_returns _ _ _ _ _ E).
Qed.
End results.
