(* ===== verification/ResultsTheorems.v ===== *)
(** * The theorems about [Results]

    Evaluation and background deliveries cannot be observed, a snapshot keeps its
    rows, derived [Results] are derived from the rows, aggregates are those of the
    rows, and clearing removes their objects. The witnesses run on a core of one
    table whose objects have a number each. *)
From S2P Require Import Prelude.
From S2P Require Import CallbackLoop.
From S2P Require Import IndexSets.
From S2P Require Import SchemaTypes.
From S2P Require Import Schemas.
From S2P Require Import Effects.
From S2P Require Import Results.
From S2P Require Import ResultsFacts.

Section results.
Context `{HC : Core} {HL : CoreLaws} `{CharSign}.
Implicit Types (r : Results) (env : Env).

(** ** Reading and delivering *)
(** What the user of a [Results] reads, and the view its notifier hands over *)
Inductive Use :=
| use_size
| use_get (i : Z)
| use_first
| use_last
| use_index_of (row : RowExpr)
| use_delivery (tv : core_view).

Inductive Answer :=
| a_number (n : Z)
| a_row (row : option RowExpr)
| a_delivery
| an_error (e : ResultsError).

Definition use env (u : Use) : Prog Results ResultsError Answer :=
  match u with
  | use_size => n ← size env; mret (a_number n)
  | use_get i => row ← get_at read_row blank_row env i; mret (a_row (Some row))
  | use_first => row ← first read_row blank_row env; mret (a_row row)
  | use_last => row ← last read_row blank_row env; mret (a_row row)
  | use_index_of row => n ← index_of_row env row; mret (a_number n)
  | use_delivery tv => set_table_view env tv;; mret a_delivery
  end.

Fixpoint run_uses (us : list (Env * Use)) r : option (list Answer * Results) :=
  match us with
  | [] => Some ([], r)
  | (env, u) :: us =>
    match use env u r with
    | returns a r => prod_map (cons a) id <$> run_uses us r
    | throws e r => prod_map (cons (an_error e)) id <$> run_uses us r
    | crashes => None
    end
  end.

(** The answers of a list of rows *)
Definition row_of (row : option Z) : RowExpr := match row with Some x => mkRow (Some x) true | None => blank_row end.

Definition answer (has_table : bool) (rows : list (option Z)) (u : Use) : Answer :=
  match u with
  | use_size => a_number (Z.of_nat (length rows))
  | use_get i =>
    match rows !! Z.to_nat i with
    | Some row => a_row (Some (row_of row))
    | None => an_error (OutOfBoundsIndexException i (Z.of_nat (length rows)))
    end
  | use_first => a_row (row_of <$> head rows)
  | use_last => a_row (row_of <$> list.last rows)
  | use_index_of row =>
    match row_index row with
    | None => an_error DetatchedAccessorException
    | Some x => if has_table && negb (of_this_table row) then an_error IncorrectTableException else a_number (position (Some x) rows)
    end
  | use_delivery _ => a_delivery
  end.

Definition expected r (eu : Env * Use) : Answer :=
  match eu.2 with
  | use_delivery _ => a_delivery
  | u =>
    if m_table r && negb (table_attached eu.1) then an_error InvalidatedException
    else answer (m_table r) (denotes (group eu.1) r) u
  end.

(** Indices and sizes are [size_t], rows are rows of the table, and the notifier
    hands over views of the rows the [Results] denotes. *)
Definition legal r (eu : Env * Use) : Prop :=
  Z.of_nat (length (denotes (group eu.1) r)) < 2 ^ 64 /\
  match eu.2 with
  | use_get i => 0 <= i
  | use_index_of row => forall x, row_index row = Some x -> row_ok eu.1 x
  | use_delivery tv =>
    m_table r = true /\ m_update_policy r = Auto /\ view_is_in_sync (group eu.1) tv = true /\ view_is_attached tv = true /\
    backed tv (m_descriptor_ordering r) /\ forall g, view_rows g (sync_if_needed g tv) = denotes g r
  | _ => True
  end.

Lemma entry_row g rows i : entry read_row blank_row g rows i = row_of <$> rows !! Z.to_nat i.
Proof. unfold entry. by destruct (_ !! _) as [[]|]. Qed.

Lemma use_delivery_spec env tv r : ok r -> legal r (env, use_delivery tv) ->
  exists r', set_table_view env tv r = returns () r' /\ ok r' /\ same r r'.
Proof.
  intros (Hr & Ht & Hn & _) (_ & Hm & Ep & Hsync & Hatt & Hb & Hd). cbn in *.
  assert (m_realm r = true) as Hrealm by (apply Hr; intros Em; rewrite Hm, Em in Ht; done).
  exists (set_used false (set_mode TableView (set_view tv (if bool_decide (m_mode r = TableView) then set_wants (m_has_used_table_view r) r else r)))).
  unfold set_table_view, mbind, Prog_bind. cbn. rewrite Ep. cbn.
  assert (forall r0, m_realm r0 = true -> m_table r0 = true -> m_update_policy r0 = Auto ->
    m_descriptor_ordering r0 = m_descriptor_ordering r -> ok (set_used false (set_mode TableView (set_view tv r0))) /\
    forall g, denotes g (set_used false (set_mode TableView (set_view tv r0))) = denotes g r) as Hgo.
  { intros r0 Hr0 Ht0 Ep0 Eo0. split.
    - unfold ok. cbn. rewrite Eo0, Hr0, Ht0. done.
    - intros g. rewrite <- Hd. unfold denotes. cbn. by rewrite Ep0, Eo0. }
  destruct (bool_decide (m_mode r = TableView)); cbn; rewrite Hsync, Hatt; cbn;
    (edestruct Hgo as [Hok Hden]; [..|split; [done|split; [exact Hok|split; [exact Hden|]]]]; cbn; auto).
Qed.

Lemma use_spec env u r : ok r -> legal r (env, u) ->
  exists r', ok r' /\ same r r' /\
    (use env u r = returns (expected r (env, u)) r' \/
     exists e, expected r (env, u) = an_error e /\ use env u r = throws e r').
Proof.
  intros Hok Hleg. unfold expected. cbn [fst snd].
  destruct (m_table r && negb (table_attached env)) eqn:Ev.
  - destruct u; [..|]; try (exists r; split; [done|]; split; [apply same_refl|]; right; exists InvalidatedException; split; [done|];
      unfold use, size, get_at, first, last, index_of_row, try_get, validate_read, mbind, Prog_bind, get, is_valid; by rewrite Ev).
    destruct (use_delivery_spec env tv r Hok Hleg) as (r' & E & Hok' & S). exists r'. split; [done|]. split; [done|]. left.
    cbn. by rewrite (prog_returns _ _ _ _ _ E).
  - assert (readable env r) as Hread.
    { intros Ht. rewrite Ht in Ev. by destruct (table_attached env). }
    destruct Hleg as [Hfit Hleg]. cbn [fst snd] in *. destruct u; cbn [use answer].
    + destruct (size_spec env r Hok Hread) as (r' & E & Hok' & S). exists r'. rewrite (prog_returns _ _ _ _ _ E). by auto.
    + destruct (get_at_spec read_row blank_row env i r Hleg Hok Hread) as (r' & E & Hok' & S). exists r'.
      rewrite entry_row in E. unfold mbind, Prog_bind. rewrite E.
      destruct (denotes (group env) r !! Z.to_nat i) as [row|]; cbn; split; [done| |done|]; split; eauto.
    + destruct (try_get_spec read_row blank_row env 0 r) as (r' & E & Hok' & S); [done..|]. exists r'.
      unfold first. rewrite entry_row in E. rewrite (prog_returns _ _ _ _ _ E). split; [done|]. split; [done|]. left.
      by destruct (denotes _ _).
    + destruct (last_spec read_row blank_row env r Hok Hread Hfit) as (r' & E & Hok' & S). exists r'.
      rewrite (prog_returns _ _ _ _ _ E). split; [done|]. split; [done|]. by left.
    + destruct (index_of_row_spec env row r Hok Hread) as (r' & E & Hok' & S); [by eauto|]. exists r'.
      unfold mbind, Prog_bind. rewrite E. split; [done|]. split; [done|].
      destruct (row_index row); [destruct (m_table r && negb (of_this_table row))|]; first [by left|right; by eexists].
    + destruct (use_delivery_spec env tv r Hok (conj Hfit Hleg)) as (r' & E & Hok' & S). exists r'. split; [done|]. split; [done|]. left.
      by rewrite (prog_returns _ _ _ _ _ E).
Qed.

Lemma same_legal r r' eu : same r r' -> legal r eu -> legal r' eu.
Proof.
  intros (D & T & U & O) [Hfit Hleg]. unfold legal. rewrite D. split; [done|]. destruct eu.2; auto.
  rewrite T, U, O. destruct Hleg as (? & ? & ? & ? & ? & Hd). repeat split; auto. intros g. by rewrite D, Hd.
Qed.
Lemma same_expected r r' eu : same r r' -> expected r' eu = expected r eu.
Proof. intros (D & T & _). unfold expected. by rewrite T, D. Qed.

(** C28: a [Results] answers every sequence of reads, whatever was evaluated,
    synchronised or handed over by its notifier in between and whatever the
    versions, transactions and notification state at the calls: the answers are
    those of the rows it denotes at the version of each call, invalidated tables,
    bad indices, detached and foreign rows included, and its rows stay what they
    were. *)
Theorem lazy_evaluation_unobservable r us : ok r -> Forall (legal r) us ->
  exists r', run_uses us r = Some (expected r <$> us, r') /\ ok r' /\ same r r'.
Proof.
  revert r. induction us as [|[env u] us IH]; intros r Hok Hleg.
  { exists r. by split; [|split; [|apply same_refl]]. }
  apply Forall_cons in Hleg as [Hu Hus]. destruct (use_spec env u r Hok Hu) as (r1 & Hok1 & S1 & Hres).
  destruct (IH r1 Hok1) as (r2 & E2 & Hok2 & S2).
  { eapply Forall_impl; [exact Hus|]. intros eu. by apply same_legal. }
  assert (expected r1 <$> us = expected r <$> us) as Eeq by (apply list_fmap_ext; intros ? eu _; by apply same_expected).
  exists r2. cbn [run_uses]. rewrite Eeq in E2. split; [|split; [done|by eapply same_trans]].
  destruct Hres as [-> | (e & Ee & ->)]; rewrite E2; cbn; [done|]. by rewrite Ee.
Qed.
(** ** Snapshots *)
(** What a Results becomes before it is frozen *)
Lemma frozen_ok r : ok r -> m_mode r = TableView -> ok (set_policy Never (set_notifier false r)).
Proof.
  intros (Hr & Ht & Hn & Hm) Em. unfold ok. cbn. rewrite Em in *. repeat split; auto. done.
Qed.

Lemma snapshot_moved_spec env r : ok r -> readable env r -> m_mode r <> Empty ->
  exists s, snapshot_moved env r = returns s s /\ ok s /\ m_update_policy s = Never /\ m_notifier s = false /\
    view_rows (group env) (m_table_view s) = denotes (group env) r.
Proof.
  intros Hok Hread Hne. unfold snapshot_moved. rewrite (prog_returns _ _ _ _ _ (validated env r Hread)).
  unfold mbind at 1, Prog_bind at 1. cbn [get].
  assert (exists r1, when (bool_decide (m_mode r = Table) || bool_decide (m_mode r = LinkView)) (to_query env) r = returns () r1 /\
    ok r1 /\ same r r1 /\ (m_mode r1 = Query \/ m_mode r1 = TableView)) as (r1 & E1 & Hok1 & S1 & Hm1).
  { destruct (bool_decide (m_mode r = Table) || bool_decide (m_mode r = LinkView)) eqn:Eb.
    - apply orb_true_iff in Eb. rewrite !bool_decide_eq_true in Eb.
      destruct (to_query_spec env r Hok Hread Hne) as (r1 & E1 & Hok1 & S1 & Em1).
      { apply auto_of; [done|]. destruct Eb; congruence. }
      exists r1. auto.
    - apply orb_false_iff in Eb. rewrite !bool_decide_eq_false in Eb. exists r. split; [done|]. split; [done|].
      split; [apply same_refl|]. destruct (m_mode r); tauto. }
  destruct (evaluate_spec env false r1 Hok1) as (r2 & E2 & Hok2 & S2 & V). destruct (V Hm1) as [Em2 Hv].
  exists (set_policy Never (set_notifier false r2)). pose proof S1 as (D & _). split; [|split; [by apply frozen_ok|]].
  - destruct (m_mode r); [done|..]; rewrite (prog_returns _ _ _ _ _ E1), (prog_returns _ _ _ _ _ E2); done.
  - split; [done|]. split; [done|]. cbn. by rewrite Hv, D.
Qed.

(** C29: [snapshot() const &] leaves the [Results] alone and gives one without a
    notifier that denotes the same rows at the version it was taken, and whose size
    is the same at every later version, transaction and delivery state. *)
Theorem snapshot_frozen env r : ok r -> readable env r ->
  exists s, snapshot env r = returns s r /\ ok s /\ m_notifier s = false /\
    denotes (group env) s = denotes (group env) r /\
    forall env', readable env' s ->
      exists s', size env' s = returns (Z.of_nat (length (denotes (group env) r))) s' /\ ok s' /\ same s s'.
Proof.
  intros Hok Hread. unfold snapshot. rewrite (prog_returns _ _ _ _ _ (validated env r Hread)).
  unfold mbind at 1, Prog_bind at 1. cbn [get]. unfold on_other.
  destruct (decide (m_mode r = Empty)) as [Em|Hne].
  - exists of_nothing. unfold snapshot_moved. rewrite (prog_returns _ _ _ _ _ (validated env (copy_of r) Hread)).
    unfold mbind at 1, Prog_bind at 1. cbn. rewrite Em. split; [done|]. split; [by repeat split|]. split; [done|].
    assert (denotes (group env) r = []) as -> by (unfold denotes; by rewrite auto_of, Em by (done || congruence)).
    split; [done|]. intros env' Hread'. destruct (size_spec env' of_nothing) as (s' & E & Hs); [by repeat split|done|].
    exists s'. by rewrite E.
  - destruct (snapshot_moved_spec env (copy_of r) Hok Hread Hne) as (s & E & Hoks & Ep & En & Hv).
    exists s. rewrite E. split; [done|]. split; [done|]. split; [done|].
    assert (forall g, denotes g s = view_rows g (m_table_view s)) as Hd by (intros g; unfold denotes; by rewrite Ep).
    split; [by rewrite Hd, Hv|]. intros env' Hread'. destruct (size_spec env' s Hoks Hread') as (s' & E' & Hs).
    exists s'. rewrite E'. unfold count_of. rewrite Hd, (view_steady (group env)). by rewrite Hv.
Qed.

(** ** Deriving *)
Definition rows_of (g : core_group) r : list Z := omap id (denotes g r).

Lemma rows_of_some g r l : denotes g r = Some <$> l -> rows_of g r = l.
Proof. unfold rows_of. intros ->. induction l as [|x l IH]; [done|]. cbn. by f_equal. Qed.

Lemma of_query_ok q o : query_has_table q = true -> ok (of_query true q o).
Proof. intros Hq. unfold ok. cbn. repeat split; auto. done. Qed.

(** A Results derived by a query and an ordering *)
Lemma derived env r (f : core_query -> core_query) (new : core_ordering) : ok r -> readable env r -> m_mode r <> Empty ->
  m_update_policy r = Auto -> (forall q, query_has_table (f q) = query_has_table q) ->
  exists q r', (query ← get_query env; mret (of_query (m_realm r) (f query) new)) r = returns (of_query true (f q) new) r' /\
    ok r' /\ same r r' /\ ok (of_query true (f q) new) /\
    forall g, rows_of g r = arrange g (m_descriptor_ordering r) (matching g q) /\
      denotes g (of_query true (f q) new) = Some <$> arrange g new (matching g (f q)).
Proof.
  intros Hok Hread Hne Ep Hf. destruct (get_query_spec env r Hok Hread) as (q & r' & E & Hok' & S & Em & Hq & Hd).
  exists q, r'. rewrite (prog_returns _ _ _ _ _ E). assert (m_realm r = true) as -> by (by apply Hok).
  split; [done|]. split; [done|]. split; [done|]. split; [apply of_query_ok; by rewrite Hf, Hq|].
  intros g. split; [|done]. apply rows_of_some. by apply Hd.
Qed.

Lemma arrange_filter g o f rows : will_apply_distinct o = false -> will_apply_limit o = false ->
  arrange g o (List.filter f rows) = List.filter f (arrange g o rows).
Proof.
  rewrite applies_distinct, applies_limit. unfold arrange. revert rows.
  induction (descriptors o) as [|d ds IH]; intros rows Hd Hl; [done|]. cbn in *. destruct d; [|done|done]. cbn in *.
  by rewrite sort_filter, IH.
Qed.

(** [filter] on a [Results] without a [distinct] gives the rows that meet the
    query, in the order they were in and at every version, and refuses one with a
    [limit]; the [Results] it is called on keeps its rows. *)
Theorem filter_rows env q r : ok r -> readable env r -> m_mode r <> Empty -> m_update_policy r = Auto ->
  will_apply_distinct (m_descriptor_ordering r) = false ->
  exists r', ok r' /\ same r r' /\
    if will_apply_limit (m_descriptor_ordering r) then filter env q r = throws UnimplementedOperationException r'
    else exists f, filter env q r = returns f r' /\ ok f /\
      forall g, denotes g f = Some <$> List.filter (satisfies g q) (rows_of g r).
Proof.
  intros Hok Hread Hne Ep Hd.
  destruct (will_apply_limit (m_descriptor_ordering r)) eqn:El.
  { exists r. split; [done|]. split; [apply same_refl|]. unfold filter, mbind, Prog_bind. cbn. by rewrite El. }
  destruct (derived env r (fun query => and_query query q) (m_descriptor_ordering r) Hok Hread Hne Ep) as (q0 & r' & E & Hok' & S & Hokf & Hf).
  { intros. apply and_has_table. }
  exists r'. split; [done|]. split; [done|]. eexists. split.
  { unfold filter. rewrite (prog_returns _ _ r r r) by done. rewrite El. exact E. }
  split; [done|]. intros g. destruct (Hf g) as [-> ->]. rewrite matching_and. by rewrite arrange_filter.
Qed.

(** What the descriptor of a derived Results does to the rows *)
Definition derive env (d : Descriptor core_sort core_distinct) : Prog Results ResultsError Results :=
  match d with
  | SortDescriptor s => sort_by_descriptor env s
  | DistinctDescriptor u => distinct_by_descriptor env u
  | LimitDescriptor n => limit env n
  end.

Lemma arrange_append g o d rows : arrange g (append o d) rows = apply_descriptor g (arrange g o rows) d.
Proof. destruct d; [apply arrange_sort|apply arrange_distinct|apply arrange_limit]. Qed.

(** [sort], [distinct] and [limit] give, at every version, the rows of the
    [Results] sorted stably, without the later ones of equal rows, or the first of
    them; they apply to the rows in the order they are in, so that descriptors
    compose. A sort of a list of links that is sorted already is excluded. *)
Theorem derived_rows env d r : ok r -> readable env r -> m_mode r <> Empty -> m_update_policy r = Auto ->
  (m_mode r = LinkView -> is_sort d = true -> descriptors (m_descriptor_ordering r) = []) ->
  exists f r', derive env d r = returns f r' /\ ok r' /\ same r r' /\ ok f /\
    forall g, denotes g f = Some <$> apply_descriptor g (rows_of g r) d.
Proof.
  intros Hok Hread Hne Ep Hlink.
  destruct (derived env r id (append (m_descriptor_ordering r) d) Hok Hread Hne Ep) as (q & r' & E & Hok' & S & Hokf & Hf); [done|].
  assert (exists f r', (query ← get_query env; mret (of_query (m_realm r) query (append (m_descriptor_ordering r) d))) r = returns f r' /\
    ok r' /\ same r r' /\ ok f /\ forall g, denotes g f = Some <$> apply_descriptor g (rows_of g r) d) as Hgo.
  { eexists _, r'. split; [exact E|]. split; [done|]. split; [done|]. split; [done|]. intros g. destruct (Hf g) as [-> ->].
    by rewrite arrange_append. }
  destruct d as [s|u|n]; cbn [derive]; [|exact Hgo|exact Hgo].
  unfold sort_by_descriptor, mbind at 1, Prog_bind at 1. cbn [get]. destruct (m_mode r) eqn:Em; [done|exact Hgo|exact Hgo| |exact Hgo].
  pose proof Hok as (Hr & _ & _ & Hm). rewrite Em in Hr, Hm. destruct Hm as ([lv El] & _). rewrite El, Hr by done.
  eexists _, r. split; [reflexivity|]. split; [done|]. split; [apply same_refl|]. split.
  - unfold ok. cbn. split; [done|]. split; [done|]. split; [done|]. split; [by eexists|].
    rewrite sort_not_distinct, sort_not_limit. rewrite applies_distinct, applies_limit. by rewrite nothing_ordered.
  - intros g. rewrite (rows_of_some g r (link_rows g lv)) by (apply denotes_links; auto).
    unfold denotes. cbn. rewrite arrange_sort. unfold arrange. by rewrite nothing_ordered.
Qed.
(** ** Searching *)
Lemma find_filter (f : Z -> bool) l : List.find f l = head (List.filter f l).
Proof. induction l as [|x l IH]; [done|]. cbn. by destruct (f x). Qed.

Lemma arrange_nothing g o rows : will_apply_distinct o = false -> will_apply_limit o = false -> will_apply_sort o = false ->
  arrange g o rows = rows.
Proof.
  rewrite applies_distinct, applies_limit, applies_sort. unfold arrange. by destruct (descriptors o) as [|[]].
Qed.

(** Without a [distinct] or a [limit], [index_of] of a query is the position of
    the first row that meets it, and [not_found] if there is none, whether it
    searches the source or filters and sorts. *)
Theorem index_of_first_match env q r : ok r -> readable env r -> m_mode r <> Empty -> m_update_policy r = Auto ->
  will_apply_distinct (m_descriptor_ordering r) = false -> will_apply_limit (m_descriptor_ordering r) = false ->
  Forall (row_ok env) (rows_of (group env) r) -> table_size (group env) <= npos ->
  exists r', ok r' /\ same r r' /\ index_of_query env q r =
    returns (match List.find (satisfies (group env) q) (rows_of (group env) r) with
             | Some x => position (Some x) (denotes (group env) r)
             | None => npos
             end) r'.
Proof.
  intros Hok Hread Hne Ep Hd Hl Hrows Hnpos. unfold index_of_query, mbind at 1, Prog_bind at 1. cbn [get].
  rewrite find_filter.
  assert (forall x, head (List.filter (satisfies (group env) q) (rows_of (group env) r)) = Some x -> row_ok env x) as Hrow.
  { intros x Hx. rewrite Forall_forall in Hrows. apply Hrows. apply head_Some_elem_of, list_elem_of_In, filter_In in Hx as [Hx _].
    by apply list_elem_of_In. }
  destruct (will_apply_sort _) eqn:Es.
  - destruct (filter_rows env q r Hok Hread Hne Ep Hd) as (r1 & Hok1 & S1 & Hf). rewrite Hl in Hf.
    destruct Hf as (f & E & Hokf & Hden). rewrite (prog_returns _ _ _ _ _ E).
    destruct (try_get_spec read_row blank_row env 0 f) as (f' & E' & _); [done|done| |].
    { intros _. apply Hread. destruct Hok as (_ & -> & _). by rewrite bool_decide_eq_false_2. }
    unfold mbind, Prog_bind, on_other, first. rewrite E', Hden. unfold entry.
    rewrite list_lookup_fmap. change (Z.to_nat 0) with 0%nat. rewrite <- head_lookup.
    destruct (head _) as [x|]; cbn; [|by exists r1].
    destruct (index_of_row_spec env (mkRow (Some x) true) r1 Hok1 (same_readable _ _ _ S1 Hread)) as (r2 & E2 & Hok2 & S2).
    { intros ? [= <-] _. by apply Hrow. }
    exists r2. split; [done|]. split; [by eapply same_trans|]. unfold read_row. rewrite E2. cbn. rewrite andb_false_r.
    pose proof S1 as (D & _). by rewrite D.
  - destruct (get_query_spec env r Hok Hread) as (q0 & r1 & E & Hok1 & S1 & _ & _ & Hq). rewrite (prog_returns _ _ _ _ _ E).
    rewrite find_first_match, matching_and.
    rewrite (rows_of_some _ _ _ (Hq Hne Ep (group env))), (arrange_nothing _ _ _ Hd Hl Es) in *.
    destruct (List.filter _ _) as [|x rows]; [by exists r1|]. cbn [hd head].
    specialize (Hrow x eq_refl). rewrite (proj2 (Z.eqb_neq _ _)) by (unfold row_ok, npos in *; lia). cbn [negb].
    destruct (index_of_row_spec env (mkRow (Some x) true) r1 Hok1 (same_readable _ _ _ S1 Hread)) as (r2 & E2 & Hok2 & S2).
    { by intros ? [= <-] _. }
    exists r2. split; [done|]. split; [by eapply same_trans|]. rewrite E2. cbn. rewrite andb_false_r.
    pose proof S1 as (D & _). by rewrite D.
Qed.
(** ** Aggregates *)
Definition aggregable (f : Aggregate) (t : ColumnType) : bool :=
  match t with
  | type_Other => false
  | type_Timestamp => has_timestamps f
  | _ => true
  end.

Lemma prepare_spec env column r : ok r -> readable env r -> m_table r = true -> column <= column_count (group env) ->
  exists r', ok r' /\ same r r' /\
    (m_mode r' = Table /\ r' = r \/ m_mode r' = TableView /\ view_rows (group env) (m_table_view r') = denotes (group env) r) /\
    prepare_for_aggregate env column r =
      match column_type (group env) column with
      | None => crashes
      | Some t => if type_is_aggregable t then returns () r' else throws (UnsupportedColumnTypeException column) r'
      end.
Proof.
  intros Hok Hread Ht Hc. unfold prepare_for_aggregate. rewrite (proj2 (Z.ltb_ge _ _)) by done.
  unfold mbind at 1, Prog_bind at 1. cbn [mret Prog_ret]. unfold mbind at 1, Prog_bind at 1. cbn [get].
  assert (exists r', ok r' /\ same r r' /\
    (m_mode r' = Table /\ r' = r \/ m_mode r' = TableView /\ view_rows (group env) (m_table_view r') = denotes (group env) r) /\
    match m_mode r with
    | Empty | Table => mret ()
    | LinkView => to_query env;; evaluate_query_if_needed env true
    | Query | TableView => evaluate_query_if_needed env true
    end r = returns (E:=ResultsError) () r') as (r' & Hok' & S & Hcase & E).
  { pose proof Hok as (_ & Hm & _). rewrite Ht in Hm. destruct (m_mode r) eqn:Em; [done| | | |].
    - exists r. split; [done|]. split; [apply same_refl|]. split; [by left|done].
    - destruct (evaluate_spec env true r Hok) as (r' & E & Hok' & S & V). exists r'. split; [done|]. split; [done|].
      split; [|done]. right. apply V. by left.
    - destruct (to_query_spec env r Hok Hread) as (r1 & E1 & Hok1 & S1 & Em1); [congruence|apply auto_of; [done|congruence]|].
      destruct (evaluate_spec env true r1 Hok1) as (r2 & E2 & Hok2 & S2 & V). destruct (V (or_introl Em1)) as [Em2 Hv].
      exists r2. rewrite (prog_returns _ _ _ _ _ E1). pose proof S1 as (D & _). split; [done|].
      split; [by eapply same_trans|]. split; [|done]. right. by rewrite Hv, D.
    - destruct (evaluate_spec env true r Hok) as (r' & E & Hok' & S & V). exists r'. split; [done|]. split; [done|].
      split; [|done]. right. apply V. by right. }
  exists r'. split; [done|]. split; [done|]. split; [done|]. rewrite (prog_returns _ _ _ _ _ E).
  unfold get_column_type, mbind, Prog_bind. destruct (column_type (group env) column) as [t|]; [|done]. cbn. by destruct (type_is_aggregable t).
Qed.

(** An aggregate of a column that exists is the aggregate of the rows the
    [Results] denotes, however it is backed, and a column of another type is refused;
    without a table there is no result. A column past the last one is refused, but
    the index one past the last is not, and its type is undefined. *)
Theorem aggregates_of_rows env f column r : ok r -> readable env r ->
  if m_table r then
    if column_count (group env) <? column
    then aggregate env f column r = throws (OutOfBoundsIndexException column (column_count (group env))) r
    else exists r', ok r' /\ same r r' /\ aggregate env f column r =
      match column_type (group env) column with
      | None => crashes
      | Some t =>
        if aggregable f t then returns (Some (aggregate_of (group env) f column (denotes (group env) r))) r'
        else throws (UnsupportedColumnTypeException column) r'
      end
  else aggregate env f column r = returns None r.
Proof.
  intros Hok Hread.
  assert (aggregate env f column r = (if negb (m_table r) then mret None else
    prepare_for_aggregate env column;;
    t ← get_column_type env column;
    match t with
    | type_Timestamp => if has_timestamps f then mret () else raise (UnsupportedColumnTypeException column)
    | type_Other => fails
    | _ => mret ()
    end;;
    asks (fun r => Some (match m_mode r with
                         | Table => table_aggregate (group env) f column
                         | _ => view_aggregate (group env) (m_table_view r) f column
                         end))) r) as ->.
  { unfold aggregate. by rewrite (prog_returns _ _ _ _ _ (validated env r Hread)). }
  destruct (m_table r) eqn:Ht; [|done]. cbn [negb].
  destruct (Z.ltb_spec (column_count (group env)) column) as [Hc|Hc].
  { unfold prepare_for_aggregate, mbind, Prog_bind. by rewrite (proj2 (Z.ltb_lt _ _)) by done. }
  destruct (prepare_spec env column r Hok Hread Ht Hc) as (r' & Hok' & S & Hcase & E). exists r'. split; [done|]. split; [done|].
  unfold mbind, Prog_bind. rewrite E. unfold get_column_type. destruct (column_type _ _) as [t|]; [|done].
  assert ((match m_mode r' with Table => table_aggregate (group env) f column | _ => view_aggregate (group env) (m_table_view r') f column end)
    = aggregate_of (group env) f column (denotes (group env) r)) as Hagg.
  { destruct Hcase as [[Em ->]|[Em Hv]]; rewrite Em.
    - rewrite aggregates_table. unfold denotes. by rewrite auto_of, Em by (done || congruence).
    - by rewrite aggregates_view, Hv. }
  unfold asks. destruct t, f; cbn; by rewrite ?Hagg.
Qed.

(** ** Clearing *)
Lemma objects_at_perm objs rows rows' : rows ≡ₚ rows' -> objects_at objs rows ≡ₚ objects_at objs rows'.
Proof. unfold objects_at. by intros ->. Qed.

Lemma filter_missing (l l' : list Z) (objs : list Z) : l ≡ₚ l' ->
  base.filter (fun x => x ∉ l) objs = base.filter (fun x => x ∉ l') objs.
Proof. intros Hp. apply list_filter_iff. intros x. by rewrite Hp. Qed.

Lemma all_objects g : base.filter (fun x => x ∉ objects_at (objects g) (Some <$> seqZ 0 (table_size g))) (objects g) = [].
Proof.
  apply elem_of_nil_inv. intros x [Hx Hin]%list_elem_of_filter. destruct Hx.
  apply list_elem_of_lookup in Hin as [i Hi]. apply list_elem_of_omap. exists (Some (Z.of_nat i)).
  cbn. rewrite Nat2Z.id. split; [|done]. apply list_elem_of_fmap_2, elem_of_seqZ. rewrite <- objects_size.
  apply lookup_lt_Some in Hi. lia.
Qed.

(** What is left when the objects of some rows are removed *)
Definition removed (g g' : core_group) (rows : list (option Z)) : Prop :=
  objects g' ≡ₚ base.filter (fun x => x ∉ objects_at (objects g) rows) (objects g).

Lemma validate_write_spec env r : readable env r -> m_realm r = true ->
  validate_write env r = if is_in_transaction env then returns () r else throws InvalidTransactionException r.
Proof.
  intros Hread Hr. unfold validate_write. rewrite (prog_returns _ _ _ _ _ (validated env r Hread)).
  unfold mbind, Prog_bind. cbn. rewrite Hr. by destruct (is_in_transaction env).
Qed.

Lemma clear_view_spec env r : ok r -> readable env r -> is_in_transaction env = true -> m_mode r = Query \/ m_mode r = TableView ->
  exists g' r', clear_view env r = returns g' r' /\ removed (group env) g' (denotes (group env) r) /\
    (m_update_policy r = Never -> r' = r) /\ (m_update_policy r = Auto -> view_rows g' (m_table_view r') = []).
Proof.
  intros Hok Hread Ht Hm. unfold clear_view. assert (m_realm r = true) as Hr by (apply Hok; destruct Hm as [-> | ->]; done).
  rewrite (prog_returns _ _ r () r) by (by rewrite validate_write_spec, Ht).
  destruct (evaluate_spec env true r Hok) as (r1 & E & Hok1 & S1 & V). destruct (V Hm) as [_ Hv].
  rewrite (prog_returns _ _ _ _ _ E). unfold mbind at 1, Prog_bind at 1. cbn [get].
  pose proof (cleared_view (group env) (m_table_view r1)) as Hc. pose proof (cleared_empty (group env) (m_table_view r1)) as He.
  rewrite Hv in Hc. destruct (view_clear _ _) as [g' v]. cbn in Hc, He. pose proof S1 as (_ & _ & U & _). rewrite U.
  destruct (m_update_policy r) eqn:Ep.
  - eexists g', _. split; [reflexivity|]. split; [done|]. by split.
  - exists g', r1. split; [done|]. split; [done|]. split; [|done]. intros _.
    rewrite evaluate_never in E by done. by injection E as <-.
Qed.

(** C30: in a write transaction [clear] removes exactly the objects whose rows the
    [Results] denotes, by the table, by a view for a partial Realm, by the view or by
    the list of links; a view is empty afterwards, a snapshot is not changed. Outside
    a write transaction it is refused and nothing changes. *)
Theorem clear_removes_rows env r : ok r -> readable env r -> m_mode r <> Empty ->
  if is_in_transaction env then
    exists g' r', clear env r = returns g' r' /\ removed (group env) g' (denotes (group env) r) /\
      (m_update_policy r = Never -> r' = r) /\
      (m_update_policy r = Auto -> m_mode r = Query \/ m_mode r = TableView -> view_rows g' (m_table_view r') = [])
  else clear env r = throws InvalidTransactionException r.
Proof.
  intros Hok Hread Hne. pose proof Hok as (Hr & Htab & Hn & Hm). specialize (Hr Hne).
  pose proof (validate_write_spec env r Hread Hr) as Hw.
  unfold clear. rewrite (prog_returns _ _ r r r) by done.
  destruct (is_in_transaction env) eqn:Et.
  2: { unfold clear_view, mbind, Prog_bind. destruct (m_mode r); [done|by rewrite Hw..]. }
  assert (m_mode r <> TableView -> m_update_policy r = Auto) as Ha by (by apply auto_of).
  destruct (m_mode r) eqn:Em; [done| | | |].
  - rewrite (prog_returns _ _ _ _ _ Hw). assert (denotes (group env) r = Some <$> seqZ 0 (table_size (group env))) as Hd
      by (unfold denotes; by rewrite Ha, Em).
    destruct (is_partial env).
    + destruct (clear_view_spec env (of_query (m_realm r) where_table no_ordering)) as (g' & r' & E & Hrem & _).
      { rewrite Hr. apply of_query_ok, table_has_table. } { intros _. by apply Hread; rewrite Htab. } { done. } { by left. }
      exists g', r. unfold on_other. rewrite E. split; [done|]. split; [|split; [done|by intros _ [|]]].
      rewrite Hd. revert Hrem. unfold denotes at 1, arrange. cbn. by rewrite nothing_ordered, matching_table.
    + exists (table_clear (group env)), r. split; [done|]. split; [|split; [done|by intros _ [|]]].
      unfold removed. by rewrite cleared_table, Hd, all_objects.
  - destruct (clear_view_spec env r Hok Hread Et (or_introl Em)) as (g' & r' & E & Hrem & Hnev & Hauto).
    exists g', r'. auto.
  - rewrite (prog_returns _ _ _ _ _ Hw). destruct Hm as ([lv El] & Hd & Hl). rewrite El.
    exists (remove_all_target_rows (group env) lv), r. split; [done|]. split; [|split; [done|by intros _ [|]]].
    unfold removed, denotes. rewrite Ha, Em, El, cleared_links by done. erewrite filter_missing; [done|].
    apply objects_at_perm. by rewrite arrange_sorts.
  - destruct (clear_view_spec env r Hok Hread Et (or_intror Em)) as (g' & r' & E & Hrem & Hnev & Hauto).
    exists g', r'. auto.
Qed.
End results.

(** ** Key paths *)
Section keypaths.
Context `{CharSign}.
Local Open Scope string_scope.

(** The parts of a key path between its dots *)
Fixpoint split_keys (s : string) : list string :=
  match s with
  | EmptyString => [EmptyString]
  | String c s =>
    if Ascii.eqb c "." then EmptyString :: split_keys s
    else match split_keys s with k :: ks => String c k :: ks | [] => [String c EmptyString] end
  end.

(** [keys] name a path of links from an object type to a property that can be
    sorted on, in the given columns. *)
Inductive names_columns (schema : Schema) : ObjectSchema -> list string -> list Z -> Prop :=
| names_last o k p :
    k <> EmptyString -> property_for_name o k = Some p -> is_sortable_type (prop_type p) = true -> is_link p = false ->
    names_columns schema o [k] [table_column p]
| names_link o k p o' ks cols :
    k <> EmptyString -> property_for_name o k = Some p -> is_sortable_type (prop_type p) = true -> is_link p = true ->
    find_object schema (object_type p) = Some o' -> names_columns schema o' ks cols ->
    names_columns schema o (k :: ks) (table_column p :: cols).

Lemma empty_is s : empty s = true <-> s = EmptyString.
Proof. by destruct s. Qed.

Lemma next_key_spec s : let '(k, rest) := next_key s in
  split_keys s = k :: match rest with Some t => split_keys t | None => [] end /\
  match rest with Some t => (String.length t < String.length s)%nat | None => True end.
Proof.
  induction s as [|c s IH]; [done|]. cbn. destruct (Ascii.eqb c "."); [cbn; split; [done|lia]|].
  destruct (next_key s) as [k rest]. destruct IH as [-> Hlen]. split; [done|]. destruct rest; [cbn; lia|done].
Qed.

Lemma names_head schema o k ks cols : names_columns schema o (k :: ks) cols ->
  k <> EmptyString /\ exists p, property_for_name o k = Some p /\ is_sortable_type (prop_type p) = true /\
    (if is_link p then exists o' cols', find_object schema (object_type p) = Some o' /\ names_columns schema o' ks cols' /\
       cols = table_column p :: cols'
     else ks = [] /\ cols = [table_column p]).
Proof.
  intros Hn. inversion Hn as [? ? p Hk Hp Hs El|? ? p o' ? cols' Hk Hp Hs El Hf Hn']; subst;
    (split; [done|]; exists p; split; [done|]; split; [done|]; rewrite El); [done|by exists o', cols'].
Qed.

Lemma not_named_empty schema o cols : ~ names_columns schema o (split_keys EmptyString) cols.
Proof. intros [Hk _]%names_head. done. Qed.

(** One turn reads the first key. *)
Lemma parse_step_spec schema s o : s <> EmptyString ->
  match parse_step s o with
  | inl _ => forall cols, ~ names_columns schema o (split_keys s) cols
  | inr (p, t) =>
    exists k, k <> EmptyString /\ property_for_name o k = Some p /\ is_sortable_type (prop_type p) = true /\
      (String.length t < String.length s)%nat /\
      (if is_link p then t <> EmptyString /\ split_keys s = k :: split_keys t else t = EmptyString /\ split_keys s = [k])
  end.
Proof.
  intros Hs. unfold parse_step. pose proof (next_key_spec s) as Hsp. destruct (next_key s) as [k rest].
  destruct Hsp as [Esp Hlen]. rewrite Esp. destruct (empty k) eqn:Ek.
  { apply empty_is in Ek as ->. intros cols [Hk _]%names_head. done. }
  assert (k <> EmptyString) as Hk by (intros ->; done). cbn [orb].
  assert (rest = Some EmptyString \/ rest <> Some EmptyString /\ (match rest with Some t => empty t | None => false end) = false) as [->|[Hr Er]].
  { destruct rest as [[]|]; auto. }
  { intros cols (_ & p & _ & _ & Hc)%names_head. destruct (is_link p); [|by destruct Hc].
    destruct Hc as (? & ? & _ & Hn & _). by eapply not_named_empty. }
  rewrite Er. unfold check_property. destruct (property_for_name o k) as [p|] eqn:Ep.
  2: { intros cols (_ & ? & ? & _)%names_head. congruence. }
  destruct (is_sortable_type (prop_type p)) eqn:Et; cbn [negb].
  2: { intros cols (_ & p' & Ep' & Hp & _)%names_head. congruence. }
  destruct (is_link p) eqn:El; cbn [negb andb].
  - destruct rest as [t|].
    + destruct t as [|c t]; [done|]. cbn [empty negb]. exists k. by rewrite El.
    + cbn. intros cols (_ & p' & Ep' & _ & Hc)%names_head. assert (p' = p) as -> by congruence. rewrite El in Hc. destruct Hc as (? & ? & _ & Hn & _). inversion Hn.
  - destruct rest as [t|].
    + destruct t as [|c t]; [done|]. cbn [empty negb]. intros cols (_ & p' & Ep' & _ & Hc)%names_head. assert (p' = p) as -> by congruence. rewrite El in Hc.
      destruct Hc as [E _]. cbn in E. destruct (Ascii.eqb c "."); [done|by destruct (split_keys t)].
    + cbn. exists k. rewrite El. repeat split; auto. destruct s; [done|cbn; lia].
Qed.

Lemma parse_loop_spec schema l : forall fuel s o acc, s <> EmptyString -> (String.length s < fuel)%nat ->
  parse_loop fuel schema s o acc = columns l <-> exists cols, l = (acc ++ cols)%list /\ names_columns schema o (split_keys s) cols.
Proof.
  induction fuel as [|fuel IH]; intros s o acc Hs Hlen; [lia|]. cbn [parse_loop].
  assert (empty s = false) as -> by by destruct s. pose proof (parse_step_spec schema s o Hs) as Hstep.
  destruct (parse_step s o) as [e|[p t]].
  { split; [done|]. intros (cols & _ & Hn). by destruct (Hstep cols). }
  destruct Hstep as (k & Hk & Hp & Hso & Ht & Hcase). destruct (is_link p) eqn:El.
  - destruct Hcase as [Hne ->]. destruct (find_object schema (object_type p)) as [o'|] eqn:Ef.
    + rewrite IH by (done || lia). split.
      * intros (cols & -> & Hn). exists (table_column p :: cols). rewrite <- app_assoc. split; [done|]. by eapply names_link.
      * intros (cols & -> & (_ & p' & Hp' & _ & Hc)%names_head). assert (p' = p) as -> by congruence. rewrite El in Hc.
        destruct Hc as (o2 & cols' & Ef' & Hn & ->). assert (o2 = o') as -> by congruence. exists cols'. by rewrite <- app_assoc.
    + split; [done|]. intros (cols & -> & (_ & p' & Hp' & _ & Hc)%names_head). assert (p' = p) as -> by congruence. rewrite El in Hc.
      destruct Hc as (o2 & cols' & Ef' & _). congruence.
  - destruct Hcase as [-> ->]. destruct fuel as [|fuel]; [cbn in *; lia|]. cbn. split.
    + intros [= <-]. exists [table_column p]. split; [done|]. by apply names_last.
    + intros (cols & -> & (_ & p' & Hp' & _ & Hc)%names_head). assert (p' = p) as -> by congruence. rewrite El in Hc.
      by destruct Hc as [_ ->].
Qed.

(** The links of the object types lead to object types of the schema. *)
Definition links_known (schema : Schema) (o : ObjectSchema) : Prop :=
  forall o' k p, o' = o \/ o' ∈ schema -> property_for_name o' k = Some p -> is_link p = true ->
  is_Some (find_object schema (object_type p)).

Lemma parse_loop_defined schema : forall fuel s o acc, (String.length s < fuel)%nat -> links_known schema o ->
  parse_loop fuel schema s o acc <> undefined.
Proof.
  induction fuel as [|fuel IH]; intros s o acc Hlen Hk; [lia|]. cbn [parse_loop].
  destruct (empty s) eqn:Es; [done|]. assert (s <> EmptyString) as Hs by (intros ->; done).
  pose proof (parse_step_spec schema s o Hs) as Hstep. destruct (parse_step s o) as [e|[p t]]; [done|].
  destruct Hstep as (k & _ & Hp & _ & Ht & _). destruct (is_link p) eqn:El; [|by apply IH; [lia|]].
  destruct (Hk o k p (or_introl eq_refl) Hp El) as [o' Eo]. rewrite Eo. apply IH; [lia|].
  intros o2 k2 p2 Ho2. apply (Hk o2). right. destruct Ho2 as [->|]; [|done]. by eapply list_elem_of_lookup_2.
Qed.

(** C31: [parse_keypath] accepts a key path exactly when its parts name links that
    lead to a property that can be sorted on, and gives their columns; every other
    path is rejected, and no path is followed out of a schema whose links are known. *)
Theorem parse_keypath_correct schema o s cols :
  (parse_keypath s schema o = columns cols <-> names_columns schema o (split_keys s) cols) /\
  (links_known schema o -> parse_keypath s schema o <> undefined).
Proof.
  unfold parse_keypath. destruct (empty s) eqn:Es.
  { apply empty_is in Es as ->. split; [|done]. split; [done|]. intros Hn. by destruct (not_named_empty schema o cols). }
  split; [|intros Hk; apply parse_loop_defined; [lia|done]].
  rewrite parse_loop_spec by (lia || (intros ->; done)). split; [by intros (? & -> & ?)|]. intros Hn. by exists cols.
Qed.
End keypaths.
