(* ===== verification/PlainResults.v ===== *)
(** * A core of one table for [Results]

    The objects have a number, in column 0, and an identity, in column 1. A query is
    a source and lower bounds for columns, sorts and distincts are on a column; views
    know the objects they hold. The laws that the theorems about [Results] assume hold here, and the
    theorems are run on it. *)
From S2P Require Import Prelude.
From S2P Require Import IndexSets.
From S2P Require Import SchemaTypes.
From S2P Require Import Schemas.
From S2P Require Import Effects.
From S2P Require Import Results.
From S2P Require Import ResultsFacts.
From S2P Require Import ResultsTheorems.

(** A column, and whether it is ascending; a column *)
Abbreviation PDescriptor := (Descriptor (Z * bool) Z).

Inductive PQuery :=
| q_none
| q_table
| q_links
| q_objects (ids : list Z)
| q_and (q : PQuery) (bounds : list (Z * Z))
| q_arranged (q : PQuery) (o : list PDescriptor).

(** A view that no query found is of the objects of [pv_source]. *)
Record PView := mkPView { pv_ids : list Z; pv_query : PQuery; pv_order : list PDescriptor; pv_source : list Z }.

(** ** Objects and rows *)
(** The objects with their numbers, the objects that are in the list of links, the list
    of values, and tables whose rows are the cells that were set, by their columns *)
Record PGroup := mkPGroup {
  pg_objects : list (Z * Z);
  pg_links : list Z;
  pg_values : list Z;
  pg_tables : list (string * list (list (Z * Z)))
}.

Definition plain_objects (g : PGroup) : list Z := remove_dups (fst <$> pg_objects g).
Definition plain_size (g : PGroup) : Z := Z.of_nat (length (plain_objects g)).
Definition object_value (g : PGroup) (id : Z) : Z :=
  match List.find (fun x => fst x =? id) (pg_objects g) with Some x => x.2 | None => 0 end.
Definition row_value (g : PGroup) (column row : Z) : Z :=
  from_option (fun id => if column =? 0 then object_value g id else id) 0 (plain_objects g !! Z.to_nat row).

Definition row_of_object (g : PGroup) (id : Z) : option Z :=
  let i := find_if (fun x => x =? id) (plain_objects g) in
  if (i =? length (plain_objects g))%nat then None else Some (Z.of_nat i).
Definition objects_of_rows (g : PGroup) (rows : list Z) : list Z := omap (fun i => plain_objects g !! Z.to_nat i) rows.

(** ** Ordering *)
Definition value_le (g : PGroup) (s : Z * bool) (x y : Z) : bool :=
  if s.2 then row_value g s.1 x <=? row_value g s.1 y else row_value g s.1 y <=? row_value g s.1 x.

Fixpoint insert_row (g : PGroup) (s : Z * bool) (x : Z) (l : list Z) : list Z :=
  match l with
  | [] => [x]
  | y :: l => if value_le g s x y then x :: y :: l else y :: insert_row g s x l
  end.
Definition plain_sort (g : PGroup) (s : Z * bool) (l : list Z) : list Z := foldr (insert_row g s) [] l.

Fixpoint distinct_from (g : PGroup) (column : Z) (seen : list Z) (l : list Z) : list Z :=
  match l with
  | [] => []
  | x :: l =>
    if bool_decide (row_value g column x ∈ seen) then distinct_from g column seen l
    else x :: distinct_from g column (row_value g column x :: seen) l
  end.

Definition plain_apply (g : PGroup) (rows : list Z) (d : PDescriptor) : list Z :=
  match d with
  | SortDescriptor s => plain_sort g s rows
  | DistinctDescriptor column => distinct_from g column [] rows
  | LimitDescriptor n => take (Z.to_nat n) rows
  end.
Definition plain_arrange (g : PGroup) (o : list PDescriptor) (rows : list Z) : list Z := foldl (plain_apply g) rows o.

(** ** Queries and views *)
Fixpoint bounds_of (q : PQuery) : list (Z * Z) := match q with q_and q bounds => bounds_of q ++ bounds | _ => [] end.
Definition meets (g : PGroup) (bounds : list (Z * Z)) (row : Z) : bool := forallb (fun b => b.2 <=? row_value g b.1 row) bounds.

(** The rows of the list of links: an object that is gone is not in it. *)
Definition plain_links (g : PGroup) : list Z := omap (row_of_object g) (pg_links g).

Fixpoint plain_matching (g : PGroup) (q : PQuery) : list Z :=
  match q with
  | q_none => []
  | q_table => seqZ 0 (plain_size g)
  | q_links => plain_links g
  | q_objects ids => omap (row_of_object g) ids
  | q_and q bounds => List.filter (meets g bounds) (plain_matching g q)
  | q_arranged q o => plain_arrange g o (plain_matching g q)
  end.

Fixpoint plain_has_table (q : PQuery) : bool :=
  match q with q_none => false | q_and q _ => plain_has_table q | _ => true end.

Definition plain_find_all (g : PGroup) (q : PQuery) (o : list PDescriptor) : PView :=
  mkPView (objects_of_rows g (plain_arrange g o (plain_matching g q))) q o [].
Definition plain_view_rows (g : PGroup) (v : PView) : list (option Z) := row_of_object g <$> pv_ids v.
Definition plain_sync (g : PGroup) (v : PView) : PView :=
  if plain_has_table (pv_query v) then plain_find_all g (pv_query v) (pv_order v)
  else mkPView (base.filter (fun id => id ∈ plain_objects g) (pv_source v)) (pv_query v) (pv_order v) (pv_source v).
Definition plain_where_view (v : PView) : PQuery :=
  if plain_has_table (pv_query v) then q_arranged (pv_query v) (pv_order v) else q_objects (pv_source v).
Definition without (g : PGroup) (ids : list Z) : PGroup :=
  mkPGroup (base.filter (fun x => x.1 ∉ ids) (pg_objects g)) (pg_links g) (pg_values g) (pg_tables g).

(** ** Aggregates: of the values of the rows that are there *)
Definition plain_aggregate (g : PGroup) (f : Aggregate) (column : Z) (rows : list (option Z)) : Z * Z :=
  let values := omap (fun row : option Z => row_value g column <$> row) rows in
  let count := Z.of_nat (length values) in
  let total := foldr Z.add 0 values in
  match f, values with
  | Sum, _ => (total, count)
  | Average, _ => (total / count, count)
  | (Max | Min), [] => (0, npos)
  | Max, v :: values => (foldr Z.max v values, 0)
  | Min, v :: values => (foldr Z.min v values, 0)
  end.

Definition table_values (g : PGroup) : list Z := row_value g 0 <$> seqZ 0 (plain_size g).
Definition view_values (g : PGroup) (v : PView) : list (option Z) := (fun row : option Z => row_value g 0 <$> row) <$> plain_view_rows g v.
Definition table_rows (g : PGroup) : list (option Z) := Some <$> seqZ 0 (plain_size g).

#[global] Instance PlainCore : Core := {|
  core_group := PGroup;
  core_query := PQuery;
  core_view := PView;
  core_links := ();
  core_ordering := list PDescriptor;
  core_sort := Z * bool;
  core_distinct := Z;
  core_value := Z;
  core_mixed := Z;
  table_size := plain_size;
  table_find_first g v := position v (table_values g);
  table_clear g := mkPGroup [] (pg_links g) (pg_values g) (pg_tables g);
  table_aggregate g f c := plain_aggregate g f c (table_rows g);
  column_count _ := 2;
  column_type _ c := if (0 <=? c) && (c <? 2) then Some type_Int else None;
  link_rows g _ := plain_links g;
  link_find g _ i := position i (plain_links g);
  remove_all_target_rows g _ := without g (pg_links g);
  no_query := q_none;
  query_has_table := plain_has_table;
  where_table := q_table;
  where_links _ := q_links;
  where_view := plain_where_view;
  and_query q p := q_and q (bounds_of p);
  sync_view_if_needed _ q := q;
  find_all := plain_find_all;
  query_count g q o := Z.of_nat (length (plain_arrange g o (plain_matching g q)));
  query_find g q := hd npos (plain_matching g q);
  query_in_table_order q := match q with q_table => true | _ => false end;
  no_view := mkPView [] q_none [] [];
  view_rows := plain_view_rows;
  view_get_query := pv_query;
  sync_if_needed := plain_sync;
  view_is_in_sync g v := bool_decide (pv_ids (plain_sync g v) = pv_ids v);
  view_is_attached _ := true;
  view_find_by_source_ndx g v i := position (Some i) (plain_view_rows g v);
  view_find_first g v x := position (Some x) (view_values g v);
  view_aggregate g v f c := plain_aggregate g f c (plain_view_rows g v);
  view_clear g v := (without g (pv_ids v), mkPView [] (pv_query v) (pv_order v) (pv_source v));
  view_in_table_order _ := false;
  no_ordering := [];
  descriptors o := o;
  will_apply_sort o := existsb is_sort o;
  will_apply_distinct o := existsb is_distinct o;
  will_apply_limit o := existsb is_limit o;
  append_sort o s := o ++ [SortDescriptor s];
  append_distinct o u := o ++ [DistinctDescriptor u];
  append_limit o n := o ++ [LimitDescriptor n];
  sort_descriptor columns ascending := (hd 0 (hd [] columns), hd true ascending);
  distinct_descriptor columns := hd 0 (hd [] columns)
|}.

(** ** The laws *)
Definition in_range (g : PGroup) (row : Z) : Prop := 0 <= row < plain_size g.

Lemma objects_NoDup g : NoDup (plain_objects g).
Proof. apply NoDup_remove_dups. Qed.

Lemma row_of_object_at g i id : plain_objects g !! i = Some id -> row_of_object g id = Some (Z.of_nat i).
Proof.
  intros Hi. unfold row_of_object.
  destruct (find_if_split (fun x => x =? id) (plain_objects g)) as (l1 & l2 & E & -> & H1 & H2). rewrite E, length_app.
  assert (length l1 = i) as Hl.
  { destruct (decide (i < length l1)%nat) as [Hlt|Hge].
    - rewrite E, lookup_app_l in Hi by done. rewrite Forall_lookup in H1. specialize (H1 _ _ Hi). cbn in H1. lia.
    - destruct l2 as [|x l2]; [rewrite E, app_nil_r in Hi; apply lookup_lt_Some in Hi; lia|].
      assert (x = id) as -> by lia. eapply NoDup_lookup; [apply (objects_NoDup g)| |exact Hi].
      rewrite E. by apply list_lookup_middle. }
  assert (l2 <> []) as Hl2 by (intros ->; rewrite E, app_nil_r in Hi; apply lookup_lt_Some in Hi; lia).
  rewrite (proj2 (Nat.eqb_neq _ _)); [by rewrite Hl|]. destruct l2; [done|cbn; lia].
Qed.

Lemma row_of_object_none g id : id ∉ plain_objects g -> row_of_object g id = None.
Proof.
  intros Hid. unfold row_of_object.
  destruct (find_if_split (fun x => x =? id) (plain_objects g)) as (l1 & l2 & E & -> & H1 & H2).
  destruct l2 as [|x l2]; [by rewrite E, app_nil_r, Nat.eqb_refl|]. exfalso. apply Hid. rewrite E.
  assert (x = id) as -> by lia. apply elem_of_app. right. by left.
Qed.

Lemma row_of_object_range g id row : row_of_object g id = Some row -> in_range g row /\ plain_objects g !! Z.to_nat row = Some id.
Proof.
  intros E. destruct (decide (id ∈ plain_objects g)) as [Hin|Hout]; [|by rewrite row_of_object_none in E].
  apply list_elem_of_lookup in Hin as [i Hi]. rewrite (row_of_object_at _ _ _ Hi) in E. injection E as <-.
  rewrite Nat2Z.id. split; [|done]. apply lookup_lt_Some in Hi. unfold in_range, plain_size. lia.
Qed.

(** Rows of the table, their objects, and the rows again *)
Lemma rows_of_objects g rows : Forall (in_range g) rows -> row_of_object g <$> objects_of_rows g rows = Some <$> rows.
Proof.
  unfold in_range, plain_size. induction 1 as [|row rows Hr _ IH]; [done|]. cbn.
  destruct (lookup_lt_is_Some_2 (plain_objects g) (Z.to_nat row)) as [id E]; [lia|]. rewrite E. cbn.
  rewrite (row_of_object_at _ _ _ E). change (omap _ rows) with (objects_of_rows g rows). rewrite IH. do 2 f_equal. lia.
Qed.

Lemma insert_row_perm g s x l : insert_row g s x l ≡ₚ x :: l.
Proof.
  induction l as [|y l IH]; [done|]. cbn. destruct (value_le g s x y); [done|]. rewrite IH. apply Permutation_swap.
Qed.
Lemma plain_sort_perm g s l : plain_sort g s l ≡ₚ l.
Proof. induction l as [|x l IH]; [done|]. cbn. change (foldr _ _ l) with (plain_sort g s l). by rewrite insert_row_perm, IH. Qed.

Lemma distinct_from_sublist g u seen l : distinct_from g u seen l `sublist_of` l.
Proof. revert seen. induction l as [|x l IH]; intros seen; [done|]. cbn. destruct (bool_decide _); by constructor. Qed.

Lemma arrange_range g o rows : Forall (in_range g) rows -> Forall (in_range g) (plain_arrange g o rows).
Proof.
  unfold plain_arrange. revert rows. induction o as [|d o IH]; intros rows Hr; [done|]. cbn. apply IH.
  destruct d as [s|u|n]; cbn.
  - by rewrite plain_sort_perm.
  - rewrite Forall_forall in *. intros x Hx. apply Hr. eapply elem_of_sublist; [exact Hx|apply distinct_from_sublist].
  - by apply Forall_take.
Qed.

Lemma matching_range g q : Forall (in_range g) (plain_matching g q).
Proof.
  induction q as [| | |ids|q IH bounds|q IH o]; cbn; [done| | | | |by apply arrange_range].
  - apply Forall_forall. intros x Hx%elem_of_seqZ. unfold in_range. lia.
  - apply Forall_forall. intros x (id & _ & Hx)%list_elem_of_omap. by apply row_of_object_range in Hx as [? _].
  - apply Forall_forall. intros x (id & _ & Hx)%list_elem_of_omap. by apply row_of_object_range in Hx as [? _].
  - rewrite Forall_forall in *. intros x [Hx _]%list_elem_of_In%filter_In. by apply IH, list_elem_of_In.
Qed.

Lemma plain_found g q o : plain_view_rows g (plain_find_all g q o) = Some <$> plain_arrange g o (plain_matching g q).
Proof. apply rows_of_objects, arrange_range, matching_range. Qed.

Lemma kept_rows g (ids : list Z) : row_of_object g <$> base.filter (fun id => id ∈ plain_objects g) ids = Some <$> omap (row_of_object g) ids.
Proof.
  induction ids as [|id ids IH]; [done|]. rewrite filter_cons. destruct (decide (id ∈ plain_objects g)) as [Hin|Hout]; cbn.
  - apply list_elem_of_lookup in Hin as [i Hi]. rewrite (row_of_object_at _ _ _ Hi). cbn. by rewrite IH.
  - by rewrite row_of_object_none.
Qed.

(** Sorting is stable: it can be done before or after taking some of the rows. *)
Definition le_rel (g : PGroup) (s : Z * bool) (x y : Z) : Prop := value_le g s x y = true.

Lemma value_le_total g s x y : value_le g s x y = false -> value_le g s y x = true.
Proof. unfold value_le. destruct s as [c []]; cbn; lia. Qed.
Lemma value_le_trans g s x y z : value_le g s x y = true -> value_le g s y z = true -> value_le g s x z = true.
Proof. unfold value_le. destruct s as [c []]; cbn; lia. Qed.

Lemma insert_row_sorted g s x l : Sorted.StronglySorted (le_rel g s) l -> Sorted.StronglySorted (le_rel g s) (insert_row g s x l).
Proof.
  induction 1 as [|y l Hs IH Hy]; [by repeat constructor|]. cbn. destruct (value_le g s x y) eqn:E.
  - constructor; [by constructor|]. constructor; [done|]. eapply Forall_impl; [exact Hy|]. intros z Hz. by eapply value_le_trans.
  - constructor; [done|]. rewrite insert_row_perm. constructor; [by apply value_le_total|done].
Qed.
Lemma plain_sort_sorted g s l : Sorted.StronglySorted (le_rel g s) (plain_sort g s l).
Proof. induction l as [|x l IH]; [constructor|]. by apply insert_row_sorted. Qed.

Lemma insert_row_first g s x l : Forall (le_rel g s x) l -> insert_row g s x l = x :: l.
Proof. destruct l as [|y l]; [done|]. intros [Hy _]%Forall_cons. cbn. by rewrite Hy. Qed.

Lemma filter_insert g s (f : Z -> bool) x l : Sorted.StronglySorted (le_rel g s) l ->
  List.filter f (insert_row g s x l) = if f x then insert_row g s x (List.filter f l) else List.filter f l.
Proof.
  induction 1 as [|y l Hs IH Hy]; [cbn; by destruct (f x)|]. cbn [insert_row].
  destruct (value_le g s x y) eqn:E.
  - cbn [List.filter]. destruct (f x); [|done]. symmetry. apply insert_row_first.
    assert (Forall (le_rel g s x) (y :: l)) as Hall.
    { constructor; [done|]. eapply Forall_impl; [exact Hy|]. intros z Hz. by eapply value_le_trans. }
    rewrite Forall_forall in *. intros z [Hz _]%list_elem_of_In%(filter_In f (z) (y :: l)). by apply Hall, list_elem_of_In.
  - cbn [List.filter]. rewrite IH. destruct (f y), (f x); cbn; by rewrite ?E.
Qed.

Lemma plain_sort_filter g s f l : plain_sort g s (List.filter f l) = List.filter f (plain_sort g s l).
Proof.
  induction l as [|x l IH]; [done|]. cbn. change (foldr _ _ l) with (plain_sort g s l).
  rewrite filter_insert by apply plain_sort_sorted. rewrite <- IH. by destruct (f x).
Qed.

(** What is left without some objects *)
Lemma objects_at_ids g (ids : list Z) x :
  x ∈ objects_at (plain_objects g) (row_of_object g <$> ids) <-> x ∈ ids /\ x ∈ plain_objects g.
Proof.
  unfold objects_at. rewrite list_elem_of_omap. split.
  - intros (row & (id & -> & Hid)%list_elem_of_fmap & Hrow). destruct (row_of_object g id) as [row|] eqn:E; [|done].
    apply row_of_object_range in E as [_ E]. cbn in Hrow. rewrite E in Hrow. injection Hrow as <-. split; [done|].
    by eapply list_elem_of_lookup_2.
  - intros [Hx Hin]. apply list_elem_of_lookup in Hin as [i Hi]. exists (Some (Z.of_nat i)). cbn. rewrite Nat2Z.id.
    split; [|done]. rewrite <- (row_of_object_at _ _ _ Hi). by apply list_elem_of_fmap_2.
Qed.

Lemma objects_at_live g (ids : list Z) :
  objects_at (plain_objects g) (Some <$> omap (row_of_object g) ids) = objects_at (plain_objects g) (row_of_object g <$> ids).
Proof. unfold objects_at. induction ids as [|id ids IH]; [done|]. cbn. destruct (row_of_object g id); cbn; by rewrite IH. Qed.

Lemma without_objects g ids : plain_objects (without g ids) ≡ₚ
  base.filter (fun x => x ∉ objects_at (plain_objects g) (row_of_object g <$> ids)) (plain_objects g).
Proof.
  apply NoDup_Permutation; [apply objects_NoDup|apply NoDup_filter, objects_NoDup|]. intros x.
  rewrite list_elem_of_filter, objects_at_ids. unfold plain_objects, without. rewrite !elem_of_remove_dups, !list_elem_of_fmap.
  setoid_rewrite list_elem_of_filter. split.
  - intros (y & -> & Hy & Hin). split; [by intros [? _]|]. by exists y.
  - intros [Hx (y & -> & Hy)]. exists y. split; [done|]. split; [|done]. intros Hin. apply Hx. split; [done|]. by exists y.
Qed.

Lemma arrange_nil g o : plain_arrange g o [] = [].
Proof. unfold plain_arrange. induction o as [|[] o IH]; [done|..]; cbn; rewrite ?take_nil; apply IH. Qed.

Lemma no_table_no_rows g q : plain_has_table q = false -> plain_matching g q = [].
Proof. induction q as [| | |ids|q IH bounds|q IH o]; try done. cbn. intros Hq. by rewrite IH. Qed.

Lemma plain_synced g v : plain_view_rows g (plain_sync g v) = Some <$> plain_matching g (plain_where_view v).
Proof.
  unfold plain_sync, plain_where_view. destruct (plain_has_table (pv_query v)); [apply plain_found|apply kept_rows].
Qed.

Lemma plain_found_synced g g' q o :
  plain_view_rows g' (plain_sync g' (plain_find_all g q o)) = Some <$> plain_arrange g' o (plain_matching g' q).
Proof.
  rewrite plain_synced. unfold plain_where_view. cbn. destruct (plain_has_table q) eqn:E; [done|].
  by rewrite (no_table_no_rows g' q E), arrange_nil.
Qed.

Lemma plain_sync_again g g' v : plain_sync g' (plain_sync g v) = plain_sync g' v.
Proof. unfold plain_sync at 2 3. destruct (plain_has_table (pv_query v)) eqn:E; unfold plain_sync; cbn; by rewrite E. Qed.

Lemma plain_sync_query g v : pv_query (plain_sync g v) = pv_query v.
Proof. unfold plain_sync. by destruct (plain_has_table (pv_query v)). Qed.

#[global] Instance PlainLaws : CoreLaws.
Proof.
  refine {|
    matching := plain_matching : core_group -> core_query -> list Z;
    satisfies := (fun g q => meets g (bounds_of q)) : core_group -> core_query -> Z -> bool;
    sort_rows := plain_sort : core_group -> core_sort -> list Z -> list Z;
    distinct_rows := (fun g u => distinct_from g u []) : core_group -> core_distinct -> list Z -> list Z;
    aggregate_of := plain_aggregate : core_group -> Aggregate -> Z -> list (option Z) -> core_mixed * Z;
    objects := plain_objects : core_group -> list Z |}; try done.
  all: try (intros; cbn; unfold plain_arrange; by rewrite foldl_app).
  all: try (intros; cbn; rewrite existsb_app; cbn; by rewrite !orb_false_r).
  - intros g g' v. cbn. unfold plain_view_rows. by rewrite !length_fmap.
  - intros g v. apply plain_synced.
  - intros v. cbn. unfold plain_where_view. by destruct (plain_has_table (pv_query v)).
  - intros g q o. apply plain_found.
  - intros g g' q o. apply plain_found_synced.
  - intros g g' v. cbn. by rewrite plain_sync_again.
  - intros g g' v. cbn. by rewrite plain_sync_query.
  - intros g v. cbn. by rewrite plain_sync_query.
  - intros g s rows. apply plain_sort_perm.
  - intros g s f rows. apply plain_sort_filter.
  - intros g u rows. apply distinct_from_sublist.
  - intros g v. apply without_objects.
  - intros g l. pose proof (without_objects g (pg_links g)) as Hw. by rewrite <- objects_at_live in Hw.
Defined.

(** ** Examples *)
Section examples.
#[local] Instance signed_chars : CharSign := true.
Local Open Scope string_scope.
Local Open Scope Z_scope.

Definition pets : @core_group PlainCore := mkPGroup [(10, 1); (11, 1); (12, 2); (13, 5)] [12; 10; 11] [7; 8] [].
Definition more_pets : @core_group PlainCore := mkPGroup [(13, 4); (11, 1); (14, 0)] [] [] [].

Definition env_at (g : @core_group PlainCore) (writing : bool) : Env :=
  @mkEnv PlainCore g true writing false false true true PT_Int "Pet" [].

(** The pets with a number from 1 on, largest first *)
Definition sorted_pets : Results := of_query true (q_and q_table [(0, 1)]) [@SortDescriptor (Z * bool) Z (0, false)].
Definition from_eleven : @core_query PlainCore := q_and q_table [(1, 11)].
Definition distinct_pets : Results := of_query true q_table [@DistinctDescriptor (Z * bool) Z 0].
Definition linked_pets : Results := of_link_view true tt None (Some (1, false)).
Definition by_number : @core_sort PlainCore := (0, true).

Lemma sorted_pets_ok : ok sorted_pets.
Proof. by apply of_query_ok. Qed.
Lemma distinct_pets_ok : ok distinct_pets.
Proof. by apply of_query_ok. Qed.

(** The view its notifier would hand over *)
Definition delivered : core_view := plain_find_all more_pets (q_and q_table [(0, 1)]) [SortDescriptor (0, false)].

Lemma delivered_backed : backed delivered (m_descriptor_ordering sorted_pets).
Proof. exact (found_backed more_pets (q_and q_table [(0, 1)]) [SortDescriptor (0, false)] eq_refl). Qed.
Lemma delivered_rows g : view_rows g (sync_if_needed g delivered) = denotes g sorted_pets.
Proof. exact (found_synced more_pets g (q_and q_table [(0, 1)]) [SortDescriptor (0, false)]). Qed.

Definition sample_uses : list (Env * Use) :=
  [(env_at pets false, use_size); (env_at pets false, use_get 1); (env_at more_pets false, use_delivery delivered);
   (env_at more_pets true, use_last); (env_at pets true, use_index_of (mkRow (Some 2) true)); (env_at more_pets false, use_get 2)].

Example lazy_evaluation_unobservable_witness :
  exists r', run_uses sample_uses sorted_pets =
    Some ([a_number 4; a_row (Some (mkRow (Some 2) true)); a_delivery; a_row (Some (mkRow (Some 1) true)); a_number 1;
           an_error (OutOfBoundsIndexException 2 2)], r').
Proof.
  destruct (lazy_evaluation_unobservable sorted_pets sample_uses) as (r' & E & _); [apply sorted_pets_ok| |].
  - repeat (apply Forall_cons; split; [split; [reflexivity|]|]); [done|done| |done| |done|done].
    + do 4 (split; [done|]). split; [apply delivered_backed|apply delivered_rows].
    + intros x [= <-]. split; [done|reflexivity].
  - exists r'. rewrite E. reflexivity.
Defined.

Example snapshot_frozen_witness :
  exists s, snapshot (env_at pets false) sorted_pets = returns s sorted_pets /\
    denotes pets s = [Some 3; Some 2; Some 0; Some 1] /\
    exists s', size (env_at more_pets false) s = returns 4 s'.
Proof.
  destruct (snapshot_frozen (env_at pets false) sorted_pets sorted_pets_ok) as (s & E & _ & _ & Hd & Hs); [done|].
  exists s. split; [done|]. split; [etransitivity; [exact Hd|reflexivity]|]. destruct (Hs (env_at more_pets false)) as (s' & E' & _); [done|].
  by exists s'.
Defined.

Example filter_rows_witness :
  exists f r', filter (env_at pets false) from_eleven sorted_pets = returns f r' /\
    denotes pets f = [Some 3; Some 2; Some 1] /\ denotes more_pets f = [Some 0; Some 1].
Proof.
  destruct (filter_rows (env_at pets false) from_eleven sorted_pets) as (r' & _ & _ & f & E & _ & Hf); [apply sorted_pets_ok|done..|].
  exists f, r'. split; [exact E|]. by rewrite !Hf.
Defined.

Example derived_rows_witness :
  exists f r', derive (env_at pets false) (LimitDescriptor 2) sorted_pets = returns f r' /\ denotes pets f = [Some 3; Some 2].
Proof.
  destruct (derived_rows (env_at pets false) (LimitDescriptor 2) sorted_pets) as (f & r' & E & _ & _ & _ & Hf); [apply sorted_pets_ok|done..|].
  exists f, r'. split; [exact E|]. by rewrite Hf.
Defined.

Example index_of_first_match_witness :
  exists r', index_of_query (env_at pets false) from_eleven sorted_pets = returns 0 r'.
Proof.
  destruct (index_of_first_match (env_at pets false) from_eleven sorted_pets) as (r' & _ & _ & E);
    [apply sorted_pets_ok|done|done|done|done|done| |done|].
  - repeat (apply Forall_cons; split; [by split|]). done.
  - exists r'. rewrite E. done.
Defined.

Example aggregates_of_rows_witness :
  exists r', aggregate (env_at more_pets false) Sum 0 sorted_pets = returns (Some (5, 2)) r'.
Proof.
  pose proof (aggregates_of_rows (env_at more_pets false) Sum 0 sorted_pets sorted_pets_ok) as Ha.
  destruct Ha as (r' & _ & _ & E); [done|]. exists r'. rewrite E. reflexivity.
Defined.

Example clear_removes_rows_witness :
  exists g' r', clear (env_at more_pets true) sorted_pets = returns g' r' /\ plain_objects g' ≡ₚ [14].
Proof.
  pose proof (clear_removes_rows (env_at more_pets true) sorted_pets sorted_pets_ok) as Hc.
  destruct Hc as (g' & r' & E & Hrem & _); [done..|]. exists g', r'. split; [exact E|]. exact Hrem.
Defined.

(** An object type and the type it links to *)
Definition owner : ObjectSchema :=
  mkObjectSchema "Owner" [Property_value "name" PT_String false false; set_table_column 3 (Property_link "pet" (pt_or PT_Object PT_Nullable) "Pet" EmptyString)] [] EmptyString.
Definition pet : ObjectSchema := mkObjectSchema "Pet" [set_table_column 5 (Property_value "age" PT_Int false false)] [] EmptyString.

Example parse_keypath_correct_witness : parse_keypath "pet.age" [owner; pet] owner = columns [3; 5].
Proof.
  apply (parse_keypath_correct [owner; pet] owner "pet.age"). apply (names_link _ owner "pet" (set_table_column 3 (Property_link "pet" (pt_or PT_Object PT_Nullable) "Pet" EmptyString)) pet ["age"]);
    [done..| |]. { done. } by apply (names_last _ pet "age" (set_table_column 5 (Property_value "age" PT_Int false false))).
Defined.

(** The first object that meets the query is dropped by [distinct], and one that is
    kept is not found. *)
Definition searched (r : Results) : option Z :=
  match index_of_query (env_at pets false) from_eleven r with returns n _ => Some n | _ => None end.

Example index_of_distinct_misses :
  searched distinct_pets = Some npos /\ rows_of pets distinct_pets = [0; 2; 3] /\ satisfies pets from_eleven 2 = true.
Proof. by repeat split. Qed.

(** Sorting a sorted list of links: the earlier order decides between equal rows only
    if the list was evaluated before. *)
Definition sorted_again (r : Results) : option (list (option Z)) :=
  match sort_by_descriptor (env_at pets false) by_number r with returns f _ => Some (denotes pets f) | _ => None end.
Definition sorted_after_reading (r : Results) : option (list (option Z)) :=
  match first read_row blank_row (env_at pets false) r with returns _ r => sorted_again r | _ => None end.

Example sort_of_links_depends :
  sorted_again linked_pets = Some [Some 0; Some 1; Some 2] /\
  sorted_after_reading linked_pets = Some [Some 1; Some 0; Some 2].
Proof. by split. Qed.
End examples.
