(* ===== verification/Lists.v ===== *)
(** * [List]: editing a list property

    [list.cpp] and the templates of [list.hpp]: a [List] wraps a list of links or, for
    a list of values, a table with one column. Its operations check the list, the
    transaction and the indices before they call core, whose own operations fail an
    assertion on a bad index. Boxing what is read is left out; a boxed element that is
    written is the program that unboxes it. *)
From S2P Require Import Prelude.
From S2P Require Import IndexSets.
From S2P Require Import SchemaTypes.
From S2P Require Import Schemas.
From S2P Require Import Effects.
From S2P Require Import Results.
From S2P Require Import ResultsFacts.
From S2P Require Import ResultsTheorems.
From S2P Require Import PlainResults.

(** ** Core: link lists and the table of a list of values. [None] is a failed
    assertion. *)
Class ListCore `{HC : Core} := {
  links_attached : core_group -> core_links -> bool;
  links_insert : core_group -> core_links -> Z -> Z -> option core_group;
  links_add : core_group -> core_links -> Z -> option core_group;
  links_set : core_group -> core_links -> Z -> Z -> option core_group;
  links_move : core_group -> core_links -> Z -> Z -> option core_group;
  links_swap : core_group -> core_links -> Z -> Z -> option core_group;
  links_remove : core_group -> core_links -> Z -> option core_group;
  links_clear : core_group -> core_links -> core_group;
  remove_target_row : core_group -> core_links -> Z -> option core_group;
  core_rows : Type;
  values : core_group -> core_rows -> list core_value;
  values_attached : core_group -> core_rows -> bool;
  add_empty_row : core_group -> core_rows -> core_group;
  insert_empty_row : core_group -> core_rows -> Z -> option core_group;
  set_value : core_group -> core_rows -> Z -> core_value -> option core_group;
  move_row : core_group -> core_rows -> Z -> Z -> option core_group;
  swap_rows : core_group -> core_rows -> Z -> Z -> option core_group;
  remove_row : core_group -> core_rows -> Z -> option core_group;
  clear_rows : core_group -> core_rows -> core_group;
  values_find_first : core_group -> core_rows -> core_value -> Z;
  same_value : core_value -> core_value -> bool;
  row_value_type : core_group -> core_rows -> PropertyType
}.

(** What accessing an object throws *)
Inductive ObjectError :=
| InvalidatedObjectException (object_type : string)
| InvalidPropertyException (object_type property_name : string)
| MissingPropertyValueException (object_type property_name : string)
| MissingPrimaryKeyException (object_type : string)
| ReadOnlyPropertyException (object_type property_name : string)
| ModifyPrimaryKeyException (object_type property_name : string)
| ExistingPrimaryKeyException (object_type : string)
| InvalidNullKeyException
| bad_any_cast
| not_supported
| LogicError.

(** What a list throws, or the unboxing of an element that creates an object *)
Inductive ListError :=
| object_error (e : ObjectError)
| ListInvalidatedException
| ListOutOfBoundsIndexException (requested valid_count : Z)
| ListInvalidTransactionException
| object_deleted
| object_of_wrong_type.

(** The members: whether there is a Realm, the list of links, and the table of a list
    of values. *)
Record ObjectList `{ListCore} := mkList { list_realm : bool; list_links : option core_links; list_table : option core_rows }.
Arguments mkList {_ _}. Arguments list_realm {_ _}. Arguments list_links {_ _}. Arguments list_table {_ _}.

Section lists.
Context `{HC : Core} {HLC : ListCore}.
Abbreviation P := (Prog core_group ListError).
Implicit Types (l : ObjectList) (g : core_group).

Definition List_links (lv : core_links) : ObjectList := mkList true (Some lv) None.
Definition List_values (rows : core_rows) : ObjectList := mkList true None (Some rows).

(** What a core operation leaves, or its failed assertion *)
Definition store (x : option core_group) : P () := match x with Some g => modify (fun _ => g) | None => fails end.

Definition is_valid l g : bool :=
  list_realm l && match list_links l with
                  | Some lv => links_attached g lv
                  | None => match list_table l with Some rows => values_attached g rows | None => false end
                  end.

Definition verify_attached l : P () := g ← get; if is_valid l g then mret () else raise ListInvalidatedException.

Definition verify_in_transaction (writing : bool) l : P () :=
  verify_attached l;; if writing then mret () else raise ListInvalidTransactionException.

(** Using a null table *)
Definition null_rows {A} l (f : core_rows -> P A) : P A := match list_table l with Some rows => f rows | None => fails end.

Definition size l : P Z :=
  verify_attached l;;
  match list_links l with
  | Some lv => asks (fun g => Z.of_nat (length (link_rows g lv)))
  | None => null_rows l (fun rows => asks (fun g => Z.of_nat (length (values g rows))))
  end.

Definition verify_valid_row l (row_ndx : Z) (insertion : bool) : P () :=
  s ← size l;
  if (s <? row_ndx) || negb insertion && (row_ndx =? s)
  then raise (ListOutOfBoundsIndexException row_ndx (s + Z.b2z insertion)) else mret ().

Definition null_links {A} l (f : core_links -> P A) : P A := match list_links l with Some lv => f lv | None => fails end.

(** [validate] uses the list of links before it is checked. *)
Definition validate l (row : RowExpr) : P Z :=
  match row_index row with
  | None => raise object_deleted
  | Some ndx => null_links l (fun _ => if of_this_table row then mret ndx else raise object_of_wrong_type)
  end.

Definition get_type l : P PropertyType :=
  verify_attached l;;
  match list_links l with Some _ => mret PT_Object | None => null_rows l (fun rows => asks (fun g => row_value_type g rows)) end.

Definition get_query l : P core_query :=
  verify_attached l;; mret (match list_links l with Some lv => where_links lv | None => where_table end).

(** ** Reading *)
Definition to_table_ndx l g (row : Z) : option Z :=
  match list_links l with Some lv => link_rows g lv !! Z.to_nat row | None => Some row end.

(** [get] of a row, and of a value *)
Definition get_link l (row_ndx : Z) : P Z :=
  verify_valid_row l row_ndx false;; g ← get; match to_table_ndx l g row_ndx with Some row => mret row | None => fails end.
Definition get_value l (row_ndx : Z) : P core_value :=
  verify_valid_row l row_ndx false;; g ← get;
  null_rows l (fun rows =>
    match to_table_ndx l g row_ndx ≫= fun row => values g rows !! Z.to_nat row with Some v => mret v | None => fails end).

Definition find_value l (v : core_value) : P Z :=
  verify_attached l;; null_rows l (fun rows => asks (fun g => values_find_first g rows v)).

Definition find_row l (row : RowExpr) : P Z :=
  verify_attached l;;
  match row_index row with
  | None => mret npos
  | Some _ =>
    ndx ← validate l row;
    asks (fun g => match list_links l with Some lv => link_find g lv ndx | None => ndx end)
  end.

Definition find_query l (q : core_query) : P Z :=
  verify_attached l;;
  match list_links l with
  | Some lv =>
    query ← get_query l; g ← get;
    let index := query_find g (and_query query q) in
    mret (if index =? npos then index else link_find g lv index)
  | None => asks (fun g => query_find g q)
  end.

(** ** Editing *)
Definition add_value (writing : bool) l (v : core_value) : P () :=
  verify_in_transaction writing l;; null_rows l (fun rows =>
    g ← get; modify (fun g => add_empty_row g rows);; g' ← get;
    store (set_value g' rows (Z.of_nat (length (values g rows))) v)).
Definition add_index (writing : bool) l (target_row_ndx : Z) : P () :=
  verify_in_transaction writing l;; g ← get; null_links l (fun lv => store (links_add g lv target_row_ndx)).
Definition add_row (writing : bool) l (row : RowExpr) : P () := ndx ← validate l row; add_index writing l ndx.

Definition insert_value (writing : bool) l (row_ndx : Z) (v : core_value) : P () :=
  verify_in_transaction writing l;; verify_valid_row l row_ndx true;; null_rows l (fun rows =>
    g ← get; store (insert_empty_row g rows row_ndx);; g ← get; store (set_value g rows row_ndx v)).
Definition insert_index (writing : bool) l (row_ndx target_row_ndx : Z) : P () :=
  verify_in_transaction writing l;; verify_valid_row l row_ndx true;; g ← get;
  null_links l (fun lv => store (links_insert g lv row_ndx target_row_ndx)).
Definition insert_row (writing : bool) l (row_ndx : Z) (row : RowExpr) : P () :=
  ndx ← validate l row; insert_index writing l row_ndx ndx.

Definition set_value_at (writing : bool) l (row_ndx : Z) (v : core_value) : P () :=
  verify_in_transaction writing l;; verify_valid_row l row_ndx false;; null_rows l (fun rows =>
    g ← get; store (set_value g rows row_ndx v)).
Definition set_index (writing : bool) l (row_ndx target_row_ndx : Z) : P () :=
  verify_in_transaction writing l;; verify_valid_row l row_ndx false;; g ← get;
  null_links l (fun lv => store (links_set g lv row_ndx target_row_ndx)).
Definition set_row (writing : bool) l (row_ndx : Z) (row : RowExpr) : P () :=
  ndx ← validate l row; set_index writing l row_ndx ndx.

(** The operation of the list of links, or the one of the table *)
Definition on_backing l (links : core_group -> core_links -> option core_group) (rows : core_group -> core_rows -> option core_group) : P () :=
  match list_links l with
  | Some lv => g ← get; store (links g lv)
  | None => null_rows l (fun t => g ← get; store (rows g t))
  end.

Definition move (writing : bool) l (source_ndx dest_ndx : Z) : P () :=
  verify_in_transaction writing l;; verify_valid_row l source_ndx false;; verify_valid_row l dest_ndx false;;
  if source_ndx =? dest_ndx then mret ()
  else on_backing l (fun g lv => links_move g lv source_ndx dest_ndx) (fun g rows => move_row g rows source_ndx dest_ndx).

Definition remove (writing : bool) l (row_ndx : Z) : P () :=
  verify_in_transaction writing l;; verify_valid_row l row_ndx false;;
  on_backing l (fun g lv => links_remove g lv row_ndx) (fun g rows => remove_row g rows row_ndx).

Definition remove_all (writing : bool) l : P () :=
  verify_in_transaction writing l;; on_backing l (fun g lv => Some (links_clear g lv)) (fun g rows => Some (clear_rows g rows)).

Definition swap (writing : bool) l (ndx1 ndx2 : Z) : P () :=
  verify_in_transaction writing l;; verify_valid_row l ndx1 false;; verify_valid_row l ndx2 false;;
  on_backing l (fun g lv => links_swap g lv ndx1 ndx2) (fun g rows => swap_rows g rows ndx1 ndx2).

Definition delete_at (writing : bool) l (row_ndx : Z) : P () :=
  verify_in_transaction writing l;; verify_valid_row l row_ndx false;;
  on_backing l (fun g lv => remove_target_row g lv row_ndx) (fun g rows => remove_row g rows row_ndx).

Definition delete_all (writing : bool) l : P () :=
  verify_in_transaction writing l;;
  on_backing l (fun g lv => Some (remove_all_target_rows g lv)) (fun g rows => Some (clear_rows g rows)).

(** ** Elements of either kind *)
Inductive Element := a_link (row : RowExpr) | a_value (v : core_value).

Definition add (writing : bool) l (x : Element) : P () :=
  match x with a_link row => add_row writing l row | a_value v => add_value writing l v end.
Definition insert (writing : bool) l (i : Z) (x : Element) : P () :=
  match x with a_link row => insert_row writing l i row | a_value v => insert_value writing l i v end.
Definition set (writing : bool) l (i : Z) (x : Element) : P () :=
  match x with a_link row => set_row writing l i row | a_value v => set_value_at writing l i v end.

(** A boxed element: unboxing it for the type of the list may create objects. The argument is the row it would
    update, [npos] for a value; [None] when it is not compared. *)
Definition Source : Type := option Z -> P Element.

Definition add_boxed (writing : bool) l (x : Source) : P () := get_type l;; e ← x None; add writing l e.

Definition set_if_different (writing : bool) l (i : Z) (x : Source) : P () :=
  get_type l;;
  match list_links l with
  | Some _ =>
    old ← get_link l i;
    e ← x (Some old);
    match e with
    | a_link row =>
      if negb (of_this_table row) || negb (bool_decide (row_index row = Some old)) then set_row writing l i row else mret ()
    | a_value _ => raise (object_error bad_any_cast)
    end
  | None =>
    old ← get_value l i;
    e ← x (Some npos);
    match e with
    | a_value v => if same_value old v then mret () else set_value_at writing l i v
    | a_link _ => raise (object_error bad_any_cast)
    end
  end.

Fixpoint add_each (writing : bool) l (xs : list Source) : P () :=
  match xs with [] => mret () | x :: xs => add_boxed writing l x;; add_each writing l xs end.

(** The loop over the new elements, [index] counting them *)
Fixpoint update_each (writing : bool) l (sz index : Z) (xs : list Source) : P Z :=
  match xs with
  | [] => mret index
  | x :: xs =>
    (if index <? sz then set_if_different writing l index x else add_boxed writing l x);;
    update_each writing l sz (index + 1) xs
  end.

(** [while (index < sz) { remove(index); sz--; }], [n] turns *)
Fixpoint remove_rest (writing : bool) l (index : Z) (n : nat) : P () :=
  match n with O => mret () | S n => remove writing l index;; remove_rest writing l index n end.

(** [None] is null, and [same_list] that the values are this list. *)
Definition assign (writing : bool) l (same_list : bool) (xs : option (list Source)) (update_only_diff : bool) : P () :=
  if same_list then mret ()
  else
    match xs with
    | None => remove_all writing l
    | Some xs =>
      if update_only_diff then
        sz ← size l;
        index ← update_each writing l sz 0 xs;
        remove_rest writing l index (Z.to_nat (sz - index))
      else remove_all writing l;; add_each writing l xs
    end.

(** ** [Results] of the list *)
Definition sort l (order : core_sort) : P Results :=
  verify_attached l;;
  match list_links l with
  | Some lv => mret (of_link_view (list_realm l) lv None (Some order))
  | None => query ← get_query l; mret (of_query (list_realm l) query (append_sort no_ordering order))
  end.

Definition filter l (q : core_query) : P Results :=
  verify_attached l;; query ← get_query l;
  mret (match list_links l with
        | Some lv => of_link_view (list_realm l) lv (Some (and_query query q)) None
        | None => of_query (list_realm l) (and_query query q) no_ordering
        end).

Definition as_results l : P Results :=
  verify_attached l;;
  mret (match list_links l with Some lv => of_link_view (list_realm l) lv None None | None => of_table (list_realm l) end).
End lists.

(** ** What core promises *)
(** The reference operations on a sequence *)
Definition insert_at {A} (i : Z) (x : A) (c : list A) : list A := take (Z.to_nat i) c ++ x :: drop (Z.to_nat i) c.
Definition move_to {A} (i j : Z) (c : list A) : list A :=
  match c !! Z.to_nat i with Some x => insert_at j x (delete (Z.to_nat i) c) | None => c end.
Definition swap_at {A} (i j : Z) (c : list A) : list A :=
  match c !! Z.to_nat i, c !! Z.to_nat j with Some x, Some y => <[Z.to_nat i := y]> (<[Z.to_nat j := x]> c) | _, _ => c end.

(** An operation that succeeds and gives the list [c], without changing the table's
    size or what is attached *)
Definition gives_links `{ListCore} (g : core_group) (lv : core_links) (x : option core_group) (c : list Z) : Prop :=
  exists g', x = Some g' /\ link_rows g' lv = c /\ links_attached g' lv = links_attached g lv /\ table_size g' = table_size g.
Definition gives_values `{ListCore} (g : core_group) (rows : core_rows) (x : option core_group) (c : list core_value) : Prop :=
  exists g', x = Some g' /\ values g' rows = c /\ values_attached g' rows = values_attached g rows.

Definition in_list {A} (i : Z) (c : list A) : Prop := 0 <= i < Z.of_nat (length c).

Class ListLaws `{HC : Core} {HLC : ListCore} := {
  inserted_links g lv i x : 0 <= i <= Z.of_nat (length (link_rows g lv)) -> 0 <= x < table_size g ->
    gives_links g lv (links_insert g lv i x) (insert_at i x (link_rows g lv));
  added_links g lv x : 0 <= x < table_size g -> gives_links g lv (links_add g lv x) (link_rows g lv ++ [x]);
  set_links g lv i x : in_list i (link_rows g lv) -> 0 <= x < table_size g ->
    gives_links g lv (links_set g lv i x) (<[Z.to_nat i := x]> (link_rows g lv));
  moved_links g lv i j : in_list i (link_rows g lv) -> in_list j (link_rows g lv) ->
    gives_links g lv (links_move g lv i j) (move_to i j (link_rows g lv));
  swapped_links g lv i j : in_list i (link_rows g lv) -> in_list j (link_rows g lv) ->
    gives_links g lv (links_swap g lv i j) (swap_at i j (link_rows g lv));
  removed_links g lv i : in_list i (link_rows g lv) ->
    gives_links g lv (links_remove g lv i) (delete (Z.to_nat i) (link_rows g lv));
  links_cleared g lv : gives_links g lv (Some (links_clear g lv)) [];
  inserted_row g t i : 0 <= i <= Z.of_nat (length (values g t)) ->
    exists v, gives_values g t (insert_empty_row g t i) (insert_at i v (values g t));
  added_row g t : exists v, gives_values g t (Some (add_empty_row g t)) (values g t ++ [v]);
  set_row_value g t i v : in_list i (values g t) -> gives_values g t (set_value g t i v) (<[Z.to_nat i := v]> (values g t));
  moved_row g t i j : in_list i (values g t) -> in_list j (values g t) ->
    gives_values g t (move_row g t i j) (move_to i j (values g t));
  swapped_row g t i j : in_list i (values g t) -> in_list j (values g t) ->
    gives_values g t (swap_rows g t i j) (swap_at i j (values g t));
  removed_row g t i : in_list i (values g t) -> gives_values g t (remove_row g t i) (delete (Z.to_nat i) (values g t));
  rows_cleared g t : gives_values g t (Some (clear_rows g t)) [];
  same_value_eq v w : same_value v w = true <-> v = w
}.

(** ** Editing refines the reference *)
Section edits.
Context `{HC : Core} {HLC : ListCore} {HLL : ListLaws}.
Implicit Types (l : ObjectList) (g : core_group).

(** What a list holds *)
Definition contents l g : list (Z + core_value) :=
  match list_links l, list_table l with
  | Some lv, _ => inl <$> link_rows g lv
  | None, Some t => inr <$> values g t
  | None, None => []
  end.

Inductive Edit :=
| e_add (x : Element)
| e_insert (i : Z) (x : Element)
| e_set (i : Z) (x : Element)
| e_move (i j : Z)
| e_swap (i j : Z)
| e_remove (i : Z)
| e_remove_all.

Definition edit (writing : bool) l (e : Edit) : Prog core_group ListError () :=
  match e with
  | e_add x => add writing l x
  | e_insert i x => insert writing l i x
  | e_set i x => set writing l i x
  | e_move i j => move writing l i j
  | e_swap i j => swap writing l i j
  | e_remove i => remove writing l i
  | e_remove_all => remove_all writing l
  end.

(** An element of the kind of the list, and what it adds to the contents *)
Definition element_of l (x : Element) : option (Z + core_value) :=
  match list_links l, x with
  | Some _, a_link row => if of_this_table row then inl <$> row_index row else None
  | None, a_value v => Some (inr v)
  | _, _ => None
  end.

Definition element_error (x : Element) : option ListError :=
  match x with
  | a_link row => match row_index row with None => Some object_deleted | Some _ => if of_this_table row then None else Some object_of_wrong_type end
  | a_value _ => None
  end.

Definition element_in (e : Edit) : option Element := match e with e_add x | e_insert _ x | e_set _ x => Some x | _ => None end.

(** The element is of the kind of the list, its row is one of the table, and indices
    are not negative. *)
Definition fits_list l g (x : Element) : Prop :=
  match list_links l, x with
  | Some _, a_link row => forall i, row_index row = Some i -> 0 <= i < table_size g
  | None, a_value _ => True
  | _, _ => False
  end.
Definition fits l g (e : Edit) : Prop :=
  match e with
  | e_add x => fits_list l g x
  | e_insert i x | e_set i x => fits_list l g x /\ 0 <= i
  | e_move i j | e_swap i j => 0 <= i /\ 0 <= j
  | e_remove i => 0 <= i
  | e_remove_all => True
  end.

(** The reference: the error of an index, or the new contents *)
Definition check_index {A} (insertion : bool) (i : Z) (c : list A) (k : ListError + list A) : ListError + list A :=
  let s := Z.of_nat (length c) in
  if (s <? i) || negb insertion && (i =? s) then inl (ListOutOfBoundsIndexException i (s + Z.b2z insertion)) else k.

Definition with_element {A} (x : option A) (f : A -> list A) (c : list A) : list A := match x with Some x => f x | None => c end.

Definition reference l (e : Edit) (c : list (Z + core_value)) : ListError + list (Z + core_value) :=
  match e with
  | e_add x => inr (with_element (element_of l x) (fun x => c ++ [x]) c)
  | e_insert i x => check_index true i c (inr (with_element (element_of l x) (fun x => insert_at i x c) c))
  | e_set i x => check_index false i c (inr (with_element (element_of l x) (fun x => <[Z.to_nat i := x]> c) c))
  | e_move i j => check_index false i c (check_index false j c (inr (if i =? j then c else move_to i j c)))
  | e_swap i j => check_index false i c (check_index false j c (inr (swap_at i j c)))
  | e_remove i => check_index false i c (inr (delete (Z.to_nat i) c))
  | e_remove_all => inr []
  end.

Definition expected_edit (writing : bool) l g (e : Edit) : ListError + list (Z + core_value) :=
  match element_in e ≫= element_error with
  | Some err => inl err
  | None =>
    if negb (is_valid l g) then inl ListInvalidatedException
    else if negb writing then inl ListInvalidTransactionException
    else reference l e (contents l g)
  end.

(** A program that leaves the store as it is when it throws, and otherwise gives the
    expected contents *)
Definition meets_edit l g (m : Prog core_group ListError ()) (x : ListError + list (Z + core_value)) : Prop :=
  match x with
  | inl err => m g = throws err g
  | inr c => exists g', m g = returns () g' /\ contents l g' = c /\ is_valid l g' = is_valid l g /\
      (list_links l <> None -> table_size g' = table_size g)
  end.

Lemma list_returns {A B} (m : Prog core_group ListError A) (f : A -> Prog core_group ListError B) g a g' :
  m g = returns a g' -> (m ≫= f) g = f a g'.
Proof. intros E. unfold mbind, Prog_bind. by rewrite E. Qed.

Lemma attached_spec l g : verify_attached l g = if is_valid l g then returns () g else throws ListInvalidatedException g.
Proof. unfold verify_attached, mbind, Prog_bind. cbn. by destruct (is_valid l g). Qed.

Lemma transaction_spec writing l g : verify_in_transaction writing l g =
  if negb (is_valid l g) then throws ListInvalidatedException g
  else if negb writing then throws ListInvalidTransactionException g else returns () g.
Proof.
  unfold verify_in_transaction, mbind, Prog_bind. rewrite attached_spec. destruct (is_valid l g); [|done]. by destruct writing.
Qed.

Lemma null_links_some {A} l lv (f : core_links -> Prog core_group ListError A) : list_links l = Some lv -> null_links l f = f lv.
Proof. intros El. unfold null_links. by rewrite El. Qed.
Lemma null_rows_some {A} l rows (f : core_rows -> Prog core_group ListError A) : list_table l = Some rows -> null_rows l f = f rows.
Proof. intros El. unfold null_rows. by rewrite El. Qed.

(** What a list is backed by *)
Definition on_values l (rows : core_rows) : Prop := list_links l = None /\ list_table l = Some rows.

Lemma valid_backing l g : is_valid l g = true -> list_links l = None -> exists rows, on_values l rows.
Proof.
  intros Hv El. unfold is_valid, on_values in *. rewrite El in *. destruct (list_table l) as [rows|]; [by exists rows|].
  by rewrite andb_false_r in Hv.
Qed.

Lemma contents_links l g lv : list_links l = Some lv -> contents l g = inl <$> link_rows g lv.
Proof. intros El. unfold contents. by rewrite El. Qed.
Lemma contents_values l g rows : on_values l rows -> contents l g = inr <$> values g rows.
Proof. intros [El Et]. unfold contents. by rewrite El, Et. Qed.

Lemma size_contents l g : is_valid l g = true -> size l g = returns (Z.of_nat (length (contents l g))) g.
Proof.
  intros Hv. unfold size, mbind, Prog_bind. rewrite attached_spec, Hv. destruct (list_links l) as [lv|] eqn:El.
  - by rewrite (contents_links _ _ lv), length_fmap.
  - destruct (valid_backing l g Hv El) as [rows Hr]. destruct Hr as [_ Et].
    rewrite (null_rows_some _ rows), (contents_values _ _ rows), length_fmap by done. done.
Qed.

(** The index checks, before what follows them *)
Lemma valid_row_spec {A} l g i insertion (f : () -> Prog core_group ListError A) : is_valid l g = true ->
  (verify_valid_row l i insertion ≫= f) g =
    match check_index insertion i (contents l g) (inr []) with inl err => throws err g | inr _ => f () g end.
Proof.
  intros Hv. unfold verify_valid_row, mbind, Prog_bind. rewrite size_contents by done. unfold check_index.
  by destruct ((_ <? i) || _).
Qed.

Lemma meets_checked l g i insertion (f : () -> Prog core_group ListError ()) k : is_valid l g = true ->
  (~ (Z.of_nat (length (contents l g)) < i) -> (insertion = false -> i <> Z.of_nat (length (contents l g))) -> meets_edit l g (f ()) k) ->
  meets_edit l g (verify_valid_row l i insertion ≫= f) (check_index insertion i (contents l g) k).
Proof.
  intros Hv Hf. pose proof (valid_row_spec l g i insertion f Hv) as E. unfold check_index in *.
  destruct ((_ <? i) || _) eqn:Eb; [exact E|]. apply orb_false_iff in Eb as [E1 E2].
  assert (meets_edit l g (f ()) k) as Hm.
  { apply Hf; [lia|]. intros ->. cbn in E2. lia. }
  unfold meets_edit in *. destruct k; by rewrite E.
Qed.
Lemma fmap_inserted {A B} (f : A -> B) i x c : f <$> insert_at i x c = insert_at i (f x) (f <$> c).
Proof. unfold insert_at. by rewrite fmap_app, fmap_cons, fmap_take, fmap_drop. Qed.
Lemma fmap_delete_at {A B} (f : A -> B) i (c : list A) : f <$> delete i c = delete i (f <$> c).
Proof. revert i. induction c as [|x c IH]; intros [|i]; cbn; [done..|]. f_equal. apply IH. Qed.
Lemma fmap_move_to {A B} (f : A -> B) i j c : f <$> move_to i j c = move_to i j (f <$> c).
Proof.
  unfold move_to. rewrite list_lookup_fmap. destruct (c !! Z.to_nat i); [|done]. cbn. by rewrite fmap_inserted, fmap_delete_at.
Qed.
Lemma fmap_swap_at {A B} (f : A -> B) i j c : f <$> swap_at i j c = swap_at i j (f <$> c).
Proof.
  unfold swap_at. rewrite !list_lookup_fmap. destruct (c !! Z.to_nat i), (c !! Z.to_nat j); [|done..]. cbn.
  by rewrite !list_fmap_insert.
Qed.

(** Core's operations under a list *)
Lemma meets_links l g lv x c : list_links l = Some lv -> gives_links g lv x c -> meets_edit l g (store x) (inr (inl <$> c)).
Proof.
  intros El (g' & -> & <- & Ha & Hs). exists g'. split; [done|]. unfold contents, is_valid. rewrite El, Ha. by split.
Qed.
Lemma meets_values l g rows x c : on_values l rows -> gives_values g rows x c -> meets_edit l g (store x) (inr (inr <$> c)).
Proof.
  intros Hr (g' & -> & <- & Ha). exists g'. split; [done|]. rewrite (contents_values _ _ rows) by done. split; [done|].
  destruct Hr as [El Et]. unfold is_valid. by rewrite El, Et, Ha.
Qed.

Lemma meets_backing l g links rows (f : forall A, list A -> list A) : is_valid l g = true ->
  (forall A B (h : A -> B) c, h <$> f A c = f B (h <$> c)) ->
  (forall lv, list_links l = Some lv -> gives_links g lv (links g lv) (f Z (link_rows g lv))) ->
  (forall t, on_values l t -> gives_values g t (rows g t) (f core_value (values g t))) ->
  meets_edit l g (on_backing l links rows) (inr (f (Z + core_value)%type (contents l g))).
Proof.
  intros Hv Hnat Hl Hr. destruct (list_links l) as [lv|] eqn:El.
  - rewrite (contents_links _ _ lv), <- Hnat by done. pose proof (meets_links l g lv _ _ El (Hl lv eq_refl)) as (g' & E & Hg').
    exists g'. split; [|done]. unfold on_backing. by rewrite El.
  - destruct (valid_backing l g Hv El) as [t Ht]. rewrite (contents_values _ _ t), <- Hnat by done.
    pose proof (meets_values l g t _ _ Ht (Hr t Ht)) as (g' & E & Hg').
    exists g'. split; [|done]. unfold on_backing. destruct Ht as [_ Et]. by rewrite El, (null_rows_some _ t).
Qed.

(** Two core operations on the table of a list of values *)
Lemma meets_then l g rows x c (m : core_group -> Prog core_group ListError ()) c' : on_values l rows -> gives_values g rows x c ->
  (forall g', values g' rows = c -> values_attached g' rows = values_attached g rows -> meets_edit l g' (m g') (inr (inr <$> c'))) ->
  meets_edit l g (store x;; g' ← get; m g') (inr (inr <$> c')).
Proof.
  intros [El Et] (g' & -> & Hc & Ha) Hm. destruct (Hm g' Hc Ha) as (g2 & E & Hc2 & Hv2 & _). exists g2. split; [exact E|].
  split; [done|]. split; [|done]. rewrite Hv2. unfold is_valid. by rewrite El, Et, Ha.
Qed.

(** Checks first, then the edit *)
Lemma meets_transaction writing l g (f : () -> Prog core_group ListError ()) k :
  (is_valid l g = true -> writing = true -> meets_edit l g (f ()) k) ->
  meets_edit l g (verify_in_transaction writing l ≫= f)
    (if negb (is_valid l g) then inl ListInvalidatedException else if negb writing then inl ListInvalidTransactionException else k).
Proof.
  intros Hf. pose proof (transaction_spec writing l g) as E.
  destruct (is_valid l g); [destruct writing|]; cbn in *; [|by unfold mbind, Prog_bind; rewrite E..].
  specialize (Hf eq_refl eq_refl). unfold meets_edit in *. destruct k; by rewrite (list_returns _ _ _ _ _ E).
Qed.

Lemma add_value_spec l g rows v : on_values l rows ->
  meets_edit l g (modify (fun g => add_empty_row g rows);; g' ← get; store (set_value g' rows (Z.of_nat (length (values g rows))) v))
    (inr (inr <$> (values g rows ++ [v]))).
Proof.
  intros Hr. destruct (added_row g rows) as [v0 Hg].
  apply (meets_then l g rows (Some (add_empty_row g rows)) _ (fun g' => store (set_value g' rows (Z.of_nat (length (values g rows))) v)) _ Hr Hg).
  intros g' Hc Ha. apply (meets_values l g' rows); [done|].
  replace (values g rows ++ [v]) with (<[Z.to_nat (Z.of_nat (length (values g rows))) := v]> (values g' rows)).
  - apply set_row_value. unfold in_list. rewrite Hc, length_app. cbn. lia.
  - rewrite Nat2Z.id, Hc. apply insert_middle.
Qed.

Lemma insert_value_spec l g rows i v : on_values l rows -> 0 <= i <= Z.of_nat (length (values g rows)) ->
  meets_edit l g (store (insert_empty_row g rows i);; g' ← get; store (set_value g' rows i v)) (inr (inr <$> insert_at i v (values g rows))).
Proof.
  intros Hr Hi. destruct (inserted_row g rows i Hi) as [v0 Hg].
  apply (meets_then l g rows _ _ (fun g' => store (set_value g' rows i v)) _ Hr Hg).
  intros g' Hc Ha. apply (meets_values l g' rows); [done|].
  assert (length (take (Z.to_nat i) (values g rows)) = Z.to_nat i) as Hlen by (rewrite length_take; lia).
  replace (insert_at i v (values g rows)) with (<[Z.to_nat i := v]> (values g' rows)).
  - apply set_row_value. unfold in_list. rewrite Hc. unfold insert_at. rewrite length_app. cbn. lia.
  - rewrite Hc. unfold insert_at. rewrite <- Hlen at 1. apply insert_middle.
Qed.

(** A link is validated before everything else. *)
Lemma meets_element l g x (fl : Z -> Prog core_group ListError ()) (fv : core_value -> Prog core_group ListError ()) k : fits_list l g x ->
  (forall lv row ndx, list_links l = Some lv -> x = a_link row -> element_of l x = Some (inl ndx) -> 0 <= ndx < table_size g -> meets_edit l g (fl ndx) k) ->
  (forall v, list_links l = None -> x = a_value v -> element_of l x = Some (inr v) -> meets_edit l g (fv v) k) ->
  meets_edit l g (match x with a_link row => validate l row ≫= fl | a_value v => fv v end)
    (match element_error x with Some err => inl err | None => k end).
Proof.
  unfold fits_list, element_of, element_error. intros Hfit Hl Hv. destruct (list_links l) as [lv|] eqn:El, x as [row|v]; [|done|done|].
  - unfold validate, null_links, mbind, Prog_bind. destruct (row_index row) as [ndx|] eqn:Er; [|done]. rewrite El.
    destruct (of_this_table row) eqn:Et; [|done]. cbn. apply (Hl lv row ndx); [done|done|by rewrite ?Et, ?Er|by apply Hfit].
  - by apply Hv.
Qed.

Lemma meets_get l g (f : core_group -> Prog core_group ListError ()) k : meets_edit l g (f g) k -> meets_edit l g (g ← get; f g) k.
Proof. done. Qed.

Lemma add_spec writing l g x : fits_list l g x -> meets_edit l g (add writing l x) (expected_edit writing l g (e_add x)).
Proof.
  intros Hfit. unfold expected_edit, add. cbn [element_in mbind option_bind].
  apply (meets_element l g x (add_index writing l) (add_value writing l)); [done| |].
  - intros lv row ndx El -> Ee Hndx. unfold add_index. apply meets_transaction. intros _ _. apply meets_get. cbn [reference].
    rewrite Ee. cbn [with_element]. rewrite (null_links_some _ lv) by done. rewrite (contents_links _ _ lv El).
    change [inl ndx] with (inl (B:=core_value) <$> [ndx]). rewrite <- fmap_app.
    apply (meets_links l g lv); [done|]. by apply added_links.
  - intros v El -> Ee. unfold add_value. apply meets_transaction. intros Hv _. destruct (valid_backing l g Hv El) as [rows Hr].
    rewrite (null_rows_some _ rows) by apply Hr. apply meets_get. cbn [reference]. rewrite Ee. cbn [with_element].
    rewrite (contents_values _ _ rows) by done. change [inr v] with (inr (A:=Z) <$> [v]). rewrite <- fmap_app. by apply add_value_spec.
Qed.

Lemma list_insert_spec writing l g i x : fits_list l g x -> 0 <= i -> meets_edit l g (insert writing l i x) (expected_edit writing l g (e_insert i x)).
Proof.
  intros Hfit Hi. unfold expected_edit, insert. cbn [element_in mbind option_bind].
  apply (meets_element l g x (insert_index writing l i) (insert_value writing l i)); [done| |].
  - intros lv row ndx El -> Ee Hndx. unfold insert_index. apply meets_transaction. intros Hv _. cbn [reference].
    rewrite Ee. apply meets_checked; [done|]. intros Hlen _. apply meets_get. cbn [with_element]. rewrite (null_links_some _ lv) by done.
    rewrite (contents_links _ _ lv El) in *. rewrite length_fmap in Hlen. rewrite <- fmap_inserted.
    apply (meets_links l g lv); [done|]. apply inserted_links; [lia|done].
  - intros v El -> Ee. unfold insert_value. apply meets_transaction. intros Hv _. cbn [reference].
    destruct (valid_backing l g Hv El) as [rows Hr]. rewrite (null_rows_some _ rows) by apply Hr.
    rewrite Ee. apply meets_checked; [done|]. intros Hlen _. apply meets_get. cbn [with_element].
    rewrite (contents_values _ _ rows Hr) in *. rewrite length_fmap in Hlen. rewrite <- fmap_inserted. apply insert_value_spec; [done|lia].
Qed.

Lemma set_spec writing l g i x : fits_list l g x -> 0 <= i -> meets_edit l g (set writing l i x) (expected_edit writing l g (e_set i x)).
Proof.
  intros Hfit Hi. unfold expected_edit, set. cbn [element_in mbind option_bind].
  apply (meets_element l g x (set_index writing l i) (set_value_at writing l i)); [done| |].
  - intros lv row ndx El -> Ee Hndx. unfold set_index. apply meets_transaction. intros Hv _. cbn [reference].
    rewrite Ee. apply meets_checked; [done|]. intros Hlen Hne. specialize (Hne eq_refl). apply meets_get. cbn [with_element]. rewrite (null_links_some _ lv) by done.
    rewrite (contents_links _ _ lv El) in *. rewrite length_fmap in *. rewrite <- list_fmap_insert.
    apply (meets_links l g lv); [done|]. apply set_links; [unfold in_list; lia|done].
  - intros v El -> Ee. unfold set_value_at. apply meets_transaction. intros Hv _. cbn [reference].
    destruct (valid_backing l g Hv El) as [rows Hr]. rewrite (null_rows_some _ rows) by apply Hr.
    rewrite Ee. apply meets_checked; [done|]. intros Hlen Hne. specialize (Hne eq_refl). apply meets_get. cbn [with_element].
    rewrite (contents_values _ _ rows Hr) in *. rewrite length_fmap in *. rewrite <- list_fmap_insert.
    apply (meets_values l g rows); [done|]. apply set_row_value. unfold in_list. lia.
Qed.

Lemma in_contents l g i : 0 <= i -> ~ (Z.of_nat (length (contents l g)) < i) -> i <> Z.of_nat (length (contents l g)) ->
  (forall lv, list_links l = Some lv -> in_list i (link_rows g lv)) /\ (forall t, on_values l t -> in_list i (values g t)).
Proof.
  intros H0 H1 H2. unfold in_list. split.
  - intros lv El. rewrite (contents_links _ _ lv El), length_fmap in *. lia.
  - intros t Ht. rewrite (contents_values _ _ t Ht), length_fmap in *. lia.
Qed.

Lemma meets_same l g : meets_edit l g (mret ()) (inr (contents l g)).
Proof. by exists g. Qed.

Lemma remove_spec writing l g i : 0 <= i -> meets_edit l g (remove writing l i) (expected_edit writing l g (e_remove i)).
Proof.
  intros Hi. unfold expected_edit, remove. cbn [element_in mbind option_bind]. apply meets_transaction. intros Hv _.
  apply meets_checked; [done|]. intros Hi1 Hi2. destruct (in_contents l g i Hi Hi1 (Hi2 eq_refl)).
  apply meets_backing with (f := fun A => @list_delete A (Z.to_nat i)); [done|..]; intros.
  - apply fmap_delete_at.
  - apply removed_links; auto.
  - apply removed_row; auto.
Qed.

Lemma remove_all_spec writing l g : meets_edit l g (remove_all writing l) (expected_edit writing l g e_remove_all).
Proof.
  unfold expected_edit, remove_all. cbn [element_in mbind option_bind]. apply meets_transaction. intros Hv _.
  apply meets_backing with (f := fun (A : Type) (c : list A) => []); [done|..]; intros; [done|apply links_cleared|apply rows_cleared].
Qed.

(** C32: an edit of a list of links or of values refines the same edit of a sequence:
    the errors of a deleted or foreign object, an invalidated list, a missing write
    transaction and an index out of range come in this order and leave the store as
    it was, no edit fails an assertion of core, and otherwise the list holds what
    the reference operation gives. *)
Theorem list_edit_refines writing l g e : fits l g e -> meets_edit l g (edit writing l e) (expected_edit writing l g e).
Proof.
  intros Hfit. destruct e as [x|i x|i x|i j|i j|i|].
  - by apply add_spec.
  - destruct Hfit. by apply list_insert_spec.
  - destruct Hfit. by apply set_spec.
  - destruct Hfit as [Hi Hj]. unfold expected_edit. cbn. unfold move. apply meets_transaction. intros Hv _.
    apply meets_checked; [done|]. intros Hi1 Hi2. apply meets_checked; [done|]. intros Hj1 Hj2.
    destruct (in_contents l g i Hi Hi1 (Hi2 eq_refl)), (in_contents l g j Hj Hj1 (Hj2 eq_refl)).
    destruct (i =? j); [apply meets_same|]. apply meets_backing with (f := fun A => move_to i j); [done|..]; intros.
    + apply fmap_move_to.
    + apply moved_links; auto.
    + apply moved_row; auto.
  - destruct Hfit as [Hi Hj]. unfold expected_edit. cbn. unfold swap. apply meets_transaction. intros Hv _.
    apply meets_checked; [done|]. intros Hi1 Hi2. apply meets_checked; [done|]. intros Hj1 Hj2.
    destruct (in_contents l g i Hi Hi1 (Hi2 eq_refl)), (in_contents l g j Hj Hj1 (Hj2 eq_refl)).
    apply meets_backing with (f := fun A => swap_at i j); [done|..]; intros.
    + apply fmap_swap_at.
    + apply swapped_links; auto.
    + apply swapped_row; auto.
  - apply remove_spec, Hfit.
  - apply remove_all_spec.
Qed.

(** ** Assigning *)
(** An element that can be put in the list *)
Definition ready l g (x : Element) : Prop := fits_list l g x /\ element_error x = None.

Lemma ready_element l g x : ready l g x -> exists e, element_of l x = Some e.
Proof.
  intros [Hfit Herr]. unfold fits_list, element_error, element_of in *. destruct (list_links l), x as [row|v]; [|done|done|by eexists].
  destruct (row_index row); [|done]. destruct (of_this_table row); [by eexists|done].
Qed.

(** What follows can rely on the same, and rows are only added to the table. *)
Definition usable l g g' : Prop := is_valid l g' = is_valid l g /\ (list_links l <> None -> table_size g <= table_size g').

Lemma usable_ready l g g' x : usable l g g' -> ready l g x -> ready l g' x.
Proof.
  intros [_ Hs] [Hfit Herr]. split; [|done]. unfold fits_list in *. destruct (list_links l), x as [row|]; try done.
  intros i Hi. specialize (Hfit i Hi). specialize (Hs ltac:(done)). lia.
Qed.
Lemma usable_trans l g g' g'' : usable l g g' -> usable l g' g'' -> usable l g g''.
Proof. intros [V S] [V' S']. split; [congruence|]. intros Hl. specialize (S Hl). specialize (S' Hl). lia. Qed.
Lemma usable_refl l g : usable l g g.
Proof. by split. Qed.
Lemma usable_valid l g g' : usable l g g' -> is_valid l g = true -> is_valid l g' = true.
Proof. intros [-> _]. done. Qed.

Lemma edited_usable l g g' : is_valid l g' = is_valid l g /\ (list_links l <> None -> table_size g' = table_size g) -> usable l g g'.
Proof. intros [V S]. split; [done|]. intros Hl. by rewrite S. Qed.

Lemma add_ready l g x e : is_valid l g = true -> ready l g x -> element_of l x = Some e ->
  exists g', add true l x g = returns () g' /\ contents l g' = contents l g ++ [e] /\ usable l g g'.
Proof.
  intros Hv [Hfit Herr] Ee. pose proof (add_spec true l g x Hfit) as Hm. unfold expected_edit in Hm. cbn in Hm.
  rewrite Herr, Hv, Ee in Hm. destruct Hm as (g' & E & Hc & Hu). exists g'. split; [done|]. split; [done|]. by apply edited_usable.
Qed.

Lemma set_ready l g i x e : is_valid l g = true -> ready l g x -> element_of l x = Some e -> in_list i (contents l g) ->
  exists g', set true l i x g = returns () g' /\ contents l g' = <[Z.to_nat i := e]> (contents l g) /\ usable l g g'.
Proof.
  intros Hv [Hfit Herr] Ee [Hi0 Hi]. pose proof (set_spec true l g i x Hfit Hi0) as Hm. unfold expected_edit in Hm. cbn [element_in mbind option_bind] in Hm.
  rewrite Herr, Hv in Hm. cbn [negb reference] in Hm. rewrite Ee in Hm. unfold check_index in Hm.
  rewrite (proj2 (Z.ltb_ge _ _)), (proj2 (Z.eqb_neq _ _)) in Hm by lia.
  destruct Hm as (g' & E & Hc & Hu). exists g'. split; [done|]. split; [done|]. by apply edited_usable.
Qed.

Lemma valid_row_in {A} l g i (f : () -> Prog core_group ListError A) : is_valid l g = true -> in_list i (contents l g) ->
  (verify_valid_row l i false ≫= f) g = f () g.
Proof.
  intros Hv [Hi0 Hi]. rewrite valid_row_spec by done. unfold check_index.
  by rewrite (proj2 (Z.ltb_ge _ _)), (proj2 (Z.eqb_neq _ _)) by lia.
Qed.

(** A source of an element: whenever it is unboxed it gives an element for the list and
    leaves the list alone. It may create objects, so what it gives may depend on the
    state, but rows are only added. *)
Definition unboxes l g (x : Source) : Prop :=
  forall cur g1, is_valid l g1 = true -> usable l g g1 ->
  exists e g2, x cur g1 = returns e g2 /\ contents l g2 = contents l g1 /\ usable l g1 g2 /\ ready l g2 e.

(** The element is what the source gave when it was asked for one, to compare it with
    the row [cur] or not at all. *)
Definition given_by l g (cur : option Z) (x : Source) (e : Element) : Prop :=
  exists g1 g2, usable l g g1 /\ x cur g1 = returns e g2.

Lemma unboxes_later l g g' x : usable l g g' -> unboxes l g x -> unboxes l g' x.
Proof. intros Hu Hx cur g1 Hv Hu1. apply Hx; [done|]. by eapply usable_trans. Qed.
Lemma given_later l g g' cur x e : usable l g g' -> given_by l g' cur x e -> given_by l g cur x e.
Proof. intros Hu (g1 & g2 & Hu1 & E). exists g1, g2. split; [by eapply usable_trans|done]. Qed.

Lemma typed_returns {A} l g (m : Prog core_group ListError A) : is_valid l g = true -> (get_type l;; m) g = m g.
Proof.
  intros Hv. unfold get_type, mbind, Prog_bind. rewrite attached_spec, Hv. destruct (list_links l) eqn:El; [done|].
  destruct (valid_backing l g Hv El) as [rows [_ Et]]. by rewrite (null_rows_some _ rows).
Qed.

Lemma add_boxed_spec l g x : is_valid l g = true -> unboxes l g x ->
  exists g' y e, add_boxed true l x g = returns () g' /\ given_by l g None x y /\ element_of l y = Some e /\
    contents l g' = contents l g ++ [e] /\ usable l g g'.
Proof.
  intros Hv Hx. destruct (Hx None g Hv (usable_refl l g)) as (y & g1 & E1 & Hc1 & Hu1 & Hr).
  destruct (ready_element _ _ _ Hr) as [e Ee]. destruct (add_ready l g1 y e (usable_valid _ _ _ Hu1 Hv) Hr Ee) as (g2 & E2 & Hc2 & Hu2).
  exists g2, y, e. unfold add_boxed. rewrite typed_returns, (list_returns _ _ _ _ _ E1), E2 by done. split; [done|].
  split; [exists g, g1; split; [apply usable_refl|done]|]. split; [done|]. split; [by rewrite Hc2, Hc1|]. by eapply usable_trans.
Qed.

(** The element at an index, of either kind *)
Lemma get_link_spec l g lv i : is_valid l g = true -> list_links l = Some lv -> in_list i (contents l g) ->
  exists old, get_link l i g = returns old g /\ contents l g !! Z.to_nat i = Some (inl old).
Proof.
  intros Hv El Hi. pose proof Hi as [? Hlen]. rewrite (contents_links _ _ lv El), length_fmap in Hlen.
  destruct (lookup_lt_is_Some_2 (link_rows g lv) (Z.to_nat i)) as [old Eo]; [lia|]. exists old. split.
  - unfold get_link. rewrite valid_row_in by done. unfold mbind, Prog_bind. cbn. unfold to_table_ndx. by rewrite El, Eo.
  - by rewrite (contents_links _ _ lv El), list_lookup_fmap, Eo.
Qed.
Lemma get_value_spec l g rows i : is_valid l g = true -> on_values l rows -> in_list i (contents l g) ->
  exists old, get_value l i g = returns old g /\ contents l g !! Z.to_nat i = Some (inr old).
Proof.
  intros Hv Hr Hi. pose proof Hi as [? Hlen]. rewrite (contents_values _ _ rows Hr), length_fmap in Hlen.
  destruct (lookup_lt_is_Some_2 (values g rows) (Z.to_nat i)) as [old Eo]; [lia|]. exists old. split.
  - unfold get_value. rewrite valid_row_in by done. destruct Hr as [El Et]. unfold mbind, Prog_bind. cbn [get].
    rewrite (null_rows_some _ rows) by done. unfold to_table_ndx. rewrite El. cbn. by rewrite Eo.
  - by rewrite (contents_values _ _ rows Hr), list_lookup_fmap, Eo.
Qed.

(** The row an element is compared with, and whether it is there already *)
Definition compared_row (old : Z + core_value) : Z := match old with inl row => row | inr _ => npos end.
Definition same_element (old : Z + core_value) (x : Element) : bool :=
  match old, x with
  | inl i, a_link row => of_this_table row && bool_decide (row_index row = Some i)
  | inr v, a_value w => same_value v w
  | _, _ => false
  end.

Lemma same_element_of l old x e : same_element old x = true -> element_of l x = Some e -> e = old.
Proof.
  unfold same_element, element_of. destruct old as [i|v], x as [row|w], (list_links l); try done.
  - intros [-> ->%bool_decide_eq_true]%andb_true_iff. by intros [= <-].
  - intros ->%same_value_eq. by intros [= <-].
Qed.

(** What is unboxed for an index is compared with what is there, and set if it differs. *)
Lemma set_if_different_unfold l g i x old y g1 : is_valid l g = true -> contents l g !! Z.to_nat i = Some old -> 0 <= i ->
  x (Some (compared_row old)) g = returns y g1 -> ready l g1 y ->
  set_if_different true l i x g = (if same_element old y then mret () else set true l i y) g1.
Proof.
  intros Hv Eo Hi0 E1 [Hfit Herr].
  assert (in_list i (contents l g)) as Hi by (split; [done|]; apply lookup_lt_Some in Eo; lia).
  unfold set_if_different. rewrite typed_returns by done. unfold fits_list in Hfit. destruct (list_links l) as [lv|] eqn:El.
  - destruct (get_link_spec l g lv i Hv El Hi) as (row & Eg & Er). rewrite (list_returns _ _ _ _ _ Eg).
    rewrite Eo in Er. injection Er as ->. cbn [compared_row] in E1. rewrite (list_returns _ _ _ _ _ E1).
    destruct y as [r|]; [|done]. cbn. by destruct (of_this_table r), (bool_decide _).
  - destruct (valid_backing l g Hv El) as [rows Hr]. destruct (get_value_spec l g rows i Hv Hr Hi) as (v & Eg & Ev).
    rewrite (list_returns _ _ _ _ _ Eg). rewrite Eo in Ev. injection Ev as ->. cbn [compared_row] in E1.
    rewrite (list_returns _ _ _ _ _ E1). by destruct y.
Qed.

Lemma set_if_different_spec l g i x old : is_valid l g = true -> unboxes l g x -> contents l g !! Z.to_nat i = Some old -> 0 <= i ->
  exists g' y e, set_if_different true l i x g = returns () g' /\ given_by l g (Some (compared_row old)) x y /\
    element_of l y = Some e /\ contents l g' = <[Z.to_nat i := e]> (contents l g) /\ usable l g g'.
Proof.
  intros Hv Hx Eo Hi. destruct (Hx (Some (compared_row old)) g Hv (usable_refl l g)) as (y & g1 & E1 & Hc1 & Hu1 & Hr).
  destruct (ready_element _ _ _ Hr) as [e Ee]. rewrite (set_if_different_unfold l g i x old y g1) by done.
  assert (given_by l g (Some (compared_row old)) x y) as Hgiven by (exists g, g1; split; [apply usable_refl|done]).
  destruct (same_element old y) eqn:Es.
  - pose proof (same_element_of l old y e Es Ee) as ->. exists g1, y, old. do 3 (split; [done|]). split; [|done].
    by rewrite Hc1, list_insert_id.
  - destruct (set_ready l g1 i y e (usable_valid _ _ _ Hu1 Hv) Hr Ee) as (g2 & E2 & Hc2 & Hu2).
    { rewrite Hc1. split; [done|]. apply lookup_lt_Some in Eo. lia. }
    exists g2, y, e. do 3 (split; [done|]). split; [by rewrite Hc2, Hc1|]. by eapply usable_trans.
Qed.

Definition new_contents l (xs : list Element) : list (Z + core_value) := omap (element_of l) xs.

Lemma new_contents_cons l y ys e : element_of l y = Some e -> new_contents l (y :: ys) = e :: new_contents l ys.
Proof. intros E. unfold new_contents. cbn. by rewrite E. Qed.

Lemma later_boxes l g g' xs : usable l g g' -> Forall (unboxes l g) xs -> Forall (unboxes l g') xs.
Proof. intros Hu Hall. eapply Forall_impl; [exact Hall|]. intros x. by apply unboxes_later. Qed.

(** What the sources give in their order: the first ones are compared with what the
    list holds. *)
Inductive all_given l g : list (Z + core_value) -> list Source -> list Element -> Prop :=
| given_none old : all_given l g old [] []
| given_old o old x xs y ys : given_by l g (Some (compared_row o)) x y -> all_given l g old xs ys -> all_given l g (o :: old) (x :: xs) (y :: ys)
| given_new x xs y ys : given_by l g None x y -> all_given l g [] xs ys -> all_given l g [] (x :: xs) (y :: ys).

Lemma all_given_later l g g' old xs ys : usable l g g' -> all_given l g' old xs ys -> all_given l g old xs ys.
Proof. intros Hu. induction 1; constructor; try done; by eapply given_later. Qed.

Lemma add_each_spec l xs : forall g, is_valid l g = true -> Forall (unboxes l g) xs ->
  exists g' ys, add_each true l xs g = returns () g' /\ all_given l g [] xs ys /\ length (new_contents l ys) = length xs /\
    contents l g' = contents l g ++ new_contents l ys /\ usable l g g'.
Proof.
  induction xs as [|x xs IH]; intros g Hv Hall.
  { exists g, []. split; [done|]. split; [constructor|]. split; [done|]. split; [by rewrite app_nil_r|apply usable_refl]. }
  apply Forall_cons in Hall as [Hx Hxs].
  destruct (add_boxed_spec l g x Hv Hx) as (g1 & y & e & E1 & Hy & Ee & Hc1 & Hu1).
  destruct (IH g1 (usable_valid _ _ _ Hu1 Hv) (later_boxes _ _ _ _ Hu1 Hxs)) as (g2 & ys & E2 & Hys & Hlen & Hc2 & Hu2).
  exists g2, (y :: ys). cbn [add_each]. rewrite (list_returns _ _ _ _ _ E1). split; [done|].
  split; [constructor; [done|by eapply all_given_later]|]. rewrite (new_contents_cons _ _ _ _ Ee). split; [cbn; by f_equal|].
  split; [|by eapply usable_trans]. by rewrite Hc2, Hc1, <- app_assoc.
Qed.

(** The loop: [before] has been written, [rest] is what the list held behind it, and the
    size at the beginning tells them apart. *)
Definition old_size (sz : Z) {A} (before rest : list A) : Prop :=
  (rest = [] /\ sz <= Z.of_nat (length before)) \/ sz = Z.of_nat (length before + length rest).

Lemma old_size_snoc sz {A} (before rest : list A) x : old_size sz before rest -> old_size sz (before ++ [x]) (drop 1 rest).
Proof.
  unfold old_size. rewrite length_app. cbn [length]. destruct rest as [|y rest]; cbn [drop length]; intros [[? ?]|?]; try done.
  - left. split; [done|lia].
  - left. split; [done|lia].
  - right. change (drop 0 rest) with rest. lia.
Qed.

(** One turn of the loop *)
Definition update_one l sz (before : list (Z + core_value)) (x : Source) : Prog core_group ListError () :=
  if Z.of_nat (length before) <? sz then set_if_different true l (Z.of_nat (length before)) x else add_boxed true l x.

Lemma update_one_spec l sz x g before rest : is_valid l g = true -> unboxes l g x -> contents l g = before ++ rest -> old_size sz before rest ->
  exists g' y e, update_one l sz before x g = returns () g' /\ given_by l g (compared_row <$> head rest) x y /\ element_of l y = Some e /\
    contents l g' = (before ++ [e]) ++ drop 1 rest /\ usable l g g'.
Proof.
  intros Hv Hx Hc Hsz. unfold update_one, old_size in *. destruct rest as [|o rest].
  - rewrite (proj2 (Z.ltb_ge _ _)) by (destruct Hsz as [[_ ?]| ->]; cbn; lia).
    destruct (add_boxed_spec l g x Hv Hx) as (g1 & y & e & E1 & Hy & Ee & Hc1 & Hu1). exists g1, y, e. do 3 (split; [done|]).
    split; [|done]. rewrite Hc1, Hc. by rewrite !app_nil_r.
  - destruct Hsz as [[? _]| ->]; [done|]. cbn [length]. rewrite (proj2 (Z.ltb_lt _ _)) by lia.
    destruct (set_if_different_spec l g (Z.of_nat (length before)) x o Hv Hx) as (g1 & y & e & E1 & Hy & Ee & Hc1 & Hu1);
      [rewrite Hc, Nat2Z.id; by apply list_lookup_middle|lia|].
    exists g1, y, e. do 3 (split; [done|]). split; [|done]. by rewrite Hc1, Hc, Nat2Z.id, insert_middle, <- app_assoc.
Qed.

Lemma update_each_spec l sz xs : forall g before rest, is_valid l g = true -> Forall (unboxes l g) xs ->
  contents l g = before ++ rest -> old_size sz before rest ->
  exists g' ys, update_each true l sz (Z.of_nat (length before)) xs g = returns (Z.of_nat (length before + length xs)) g' /\
    all_given l g rest xs ys /\ length (new_contents l ys) = length xs /\
    contents l g' = before ++ new_contents l ys ++ drop (length xs) rest /\ usable l g g'.
Proof.
  induction xs as [|x xs IH]; intros g before rest Hv Hall Hc Hsz.
  { exists g, []. cbn. rewrite Nat.add_0_r, Hc. split; [done|]. split; [constructor|]. split; [done|]. split; [done|apply usable_refl]. }
  apply Forall_cons in Hall as [Hx Hxs].
  destruct (update_one_spec l sz x g before rest Hv Hx Hc Hsz) as (g1 & y & e & E1 & Hy & Ee & Hc1 & Hu1).
  destruct (IH g1 (before ++ [e]) (drop 1 rest)) as (g2 & ys & E2 & Hys & Hlen & Hc2 & Hu2);
    [by eapply usable_valid|by eapply later_boxes|done|by apply old_size_snoc|].
  exists g2, (y :: ys). cbn [update_each]. fold (update_one l sz before x). rewrite (list_returns _ _ _ _ _ E1).
  rewrite length_app in E2. cbn [length] in *. replace (Z.of_nat (length before) + 1) with (Z.of_nat (length before + 1)) by lia.
  rewrite E2. split; [f_equal; lia|]. rewrite (new_contents_cons _ _ _ _ Ee). split; [|split; [cbn; by f_equal|split; [|by eapply usable_trans]]].
  - apply (all_given_later _ _ _ _ _ _ Hu1) in Hys. destruct rest; by constructor.
  - rewrite Hc2, drop_drop, <- app_assoc. done.
Qed.

Lemma remove_ready l g i : is_valid l g = true -> in_list i (contents l g) ->
  exists g', remove true l i g = returns () g' /\ contents l g' = delete (Z.to_nat i) (contents l g) /\ usable l g g'.
Proof.
  intros Hv [Hi0 Hi]. pose proof (remove_spec true l g i Hi0) as Hm. unfold expected_edit in Hm.
  cbn [element_in mbind option_bind] in Hm. rewrite Hv in Hm. cbn [negb reference] in Hm.
  unfold check_index in Hm. rewrite (proj2 (Z.ltb_ge _ _)), (proj2 (Z.eqb_neq _ _)) in Hm by lia.
  destruct Hm as (g' & E & Hc & Hu). exists g'. split; [done|]. split; [done|]. by apply edited_usable.
Qed.

Lemma remove_rest_spec l before : forall rest g, is_valid l g = true -> contents l g = before ++ rest ->
  exists g', remove_rest true l (Z.of_nat (length before)) (length rest) g = returns () g' /\ contents l g' = before /\ usable l g g'.
Proof.
  induction rest as [|y rest IH]; intros g Hv Hc.
  { exists g. split; [done|]. split; [by rewrite Hc, app_nil_r|apply usable_refl]. }
  destruct (remove_ready l g (Z.of_nat (length before)) Hv) as (g1 & E1 & Hc1 & Hu1).
  { unfold in_list. rewrite Hc, length_app. cbn. lia. }
  destruct (IH g1) as (g2 & E2 & Hc2 & Hu2). { destruct Hu1. congruence. } { rewrite Hc1, Hc, Nat2Z.id. apply delete_at_middle. }
  exists g2. cbn [remove_rest length]. rewrite (list_returns _ _ _ _ _ E1). split; [done|]. split; [done|]. by eapply usable_trans.
Qed.

(** *** Writing only what differs *)
(** The edits that turn what a list holds from an index on into the new elements: an
    element that is there already is not written, one that differs is set, further
    ones are added, and what is left over is removed. *)
Fixpoint differences (i : Z) (old : list (Z + core_value)) (new : list Element) : list Edit :=
  match old, new with
  | o :: old, y :: new => (if same_element o y then [] else [e_set i y]) ++ differences (i + 1) old new
  | [], y :: new => e_add y :: differences (i + 1) [] new
  | old, [] => replicate (length old) (e_remove i)
  end.

Fixpoint edits l (es : list Edit) : Prog core_group ListError () :=
  match es with [] => mret () | e :: es => edit true l e;; edits l es end.

(** A source that creates nothing *)
Definition constant (x : Source) (y : Element) : Prop := forall cur g, x cur g = returns y g.

Lemma edits_app l es fs g : edits l (es ++ fs) g = (edits l es;; edits l fs) g.
Proof.
  revert g. induction es as [|e es IH]; intros g; [done|]. cbn. unfold mbind, Prog_bind in *.
  destruct (edit true l e g); [apply IH|done|done].
Qed.

Lemma remove_rest_edits l i n g : remove_rest true l i n g = edits l (replicate n (e_remove i)) g.
Proof.
  revert g. induction n as [|n IH]; intros g; [done|]. cbn. unfold mbind, Prog_bind. destruct (remove true l i g); [apply IH|done|done].
Qed.

Lemma update_one_edits l sz x y g before rest : is_valid l g = true -> unboxes l g x -> constant x y -> contents l g = before ++ rest ->
  old_size sz before rest ->
  update_one l sz before x g =
    edits l (match rest with o :: _ => if same_element o y then [] else [e_set (Z.of_nat (length before)) y] | [] => [e_add y] end) g.
Proof.
  intros Hv Hx Hxy Hc Hsz.
  assert (forall e g, edits l [e] g = edit true l e g) as Hone.
  { intros e g1. cbn. unfold mbind, Prog_bind. by destruct (edit true l e g1) as [[]| |]. }
  assert (ready l g y) as Hr.
  { destruct (Hx None g Hv (usable_refl l g)) as (y' & g1 & E & _ & _ & Hr). rewrite Hxy in E. by injection E as -> ->. }
  unfold update_one, old_size in *. destruct rest as [|o rest].
  - rewrite (proj2 (Z.ltb_ge _ _)) by (destruct Hsz as [[_ ?]| ->]; cbn; lia).
    unfold add_boxed. rewrite typed_returns, (list_returns _ _ _ _ _ (Hxy None g)), Hone by done. done.
  - destruct Hsz as [[? _]| ->]; [done|]. cbn [length]. rewrite (proj2 (Z.ltb_lt _ _)) by lia.
    rewrite (set_if_different_unfold l g _ x o y g); [|done|rewrite Hc, Nat2Z.id; by apply list_lookup_middle|lia|apply Hxy|done].
    destruct (same_element o y); [done|]. by rewrite Hone.
Qed.

(** The loop and the removal of the rest are those edits. *)
Lemma assign_edits l sz xs : forall ys g before rest, is_valid l g = true -> Forall (unboxes l g) xs -> Forall2 constant xs ys ->
  contents l g = before ++ rest -> old_size sz before rest ->
  (index ← update_each true l sz (Z.of_nat (length before)) xs; remove_rest true l index (Z.to_nat (sz - index))) g =
    edits l (differences (Z.of_nat (length before)) rest ys) g.
Proof.
  induction xs as [|x xs IH]; intros ys g before rest Hv Hall Hcon Hc Hsz.
  { apply Forall2_nil_inv_l in Hcon as ->. unfold mbind, Prog_bind. cbn [update_each mret Prog_ret]. rewrite remove_rest_edits.
    replace (Z.to_nat (sz - Z.of_nat (length before))) with (length rest); [by destruct rest|].
    destruct Hsz as [[-> ?]| ->]; cbn; lia. }
  apply Forall2_cons_inv_l in Hcon as (y & ys' & Hxy & Hcon & ->). apply Forall_cons in Hall as [Hx Hxs].
  destruct (update_one_spec l sz x g before rest Hv Hx Hc Hsz) as (g1 & y' & e & E1 & (g2 & g3 & _ & Ey) & Ee & Hc1 & Hu1).
  rewrite Hxy in Ey. injection Ey as <- _.
  assert (edits l (differences (Z.of_nat (length before)) rest (y :: ys')) g =
    edits l (differences (Z.of_nat (length before) + 1) (drop 1 rest) ys') g1) as ->.
  { rewrite (update_one_edits l sz x y g before rest) in E1 by done.
    destruct rest as [|o rest]; cbn [differences drop].
    - change (e_add y :: ?es) with ([e_add y] ++ es). rewrite edits_app. by rewrite (list_returns _ _ _ _ _ E1).
    - rewrite edits_app. by rewrite (list_returns _ _ _ _ _ E1). }
  unfold mbind at 1, Prog_bind at 1. cbn [update_each]. fold (update_one l sz before x).
  rewrite (list_returns _ _ _ _ _ E1). replace (Z.of_nat (length before) + 1) with (Z.of_nat (length (before ++ [e]))) by (rewrite length_app; cbn; lia).
  apply IH; [by eapply usable_valid|by eapply later_boxes|done|done|by apply old_size_snoc].
Qed.

(** C33: in a write transaction [assign] leaves the list holding exactly the elements its
    sources give, in their order, also when unboxing them creates objects. When only
    differences are written the sources of the first elements are asked to update the
    rows the list holds, and, if nothing is created, the whole is just the edits
    that are needed: equal elements are not written, others set, further ones added
    and the rest removed. Null empties the list, and assigning it to itself does
    nothing. *)
Theorem list_assign l g same_list xs update_only_diff : is_valid l g = true -> Forall (unboxes l g) (default [] xs) ->
  exists g' ys, assign true l same_list xs update_only_diff g = returns () g' /\ is_valid l g' = true /\
    (if same_list then g' = g
     else contents l g' = new_contents l ys /\ length (contents l g') = length (default [] xs) /\
       all_given l g (if update_only_diff then contents l g else []) (default [] xs) ys) /\
    forall zs, same_list = false -> update_only_diff = true -> xs <> None -> Forall2 constant (default [] xs) zs ->
      edits l (differences 0 (contents l g) zs) g = returns () g'.
Proof.
  intros Hv Hall. unfold assign. destruct same_list; [by exists g, []|].
  assert (exists g', remove_all true l g = returns () g' /\ contents l g' = [] /\ usable l g g') as (g0 & E0 & Hc0 & Hu0).
  { pose proof (remove_all_spec true l g) as Hm. unfold expected_edit in Hm. cbn [element_in mbind option_bind] in Hm.
    rewrite Hv in Hm. destruct Hm as (g' & E & Hc & Hu). exists g'. split; [done|]. split; [done|]. by apply edited_usable. }
  destruct xs as [xs|]; cbn [default from_option] in *.
  2: { exists g0, []. split; [done|]. split; [by eapply usable_valid|]. split; [|done]. rewrite Hc0. do 2 (split; [done|]). constructor. }
  destruct update_only_diff.
  - rewrite (list_returns _ _ _ _ _ (size_contents l g Hv)).
    assert (old_size (Z.of_nat (length (contents l g))) [] (contents l g)) as Hsz by (by right).
    pose proof (assign_edits l (Z.of_nat (length (contents l g))) xs) as Hedits.
    destruct (update_each_spec l (Z.of_nat (length (contents l g))) xs g [] (contents l g) Hv Hall) as (g1 & ys & E1 & Hys & Hlen & Hc1 & Hu1); [done|done|].
    cbn [app length] in *.
    destruct (remove_rest_spec l (new_contents l ys) (drop (length xs) (contents l g)) g1) as (g2 & E2 & Hc2 & Hu2);
      [by eapply usable_valid|done|].
    rewrite Hlen, length_drop in E2.
    assert ((index ← update_each true l (Z.of_nat (length (contents l g))) 0 xs;
      remove_rest true l index (Z.to_nat (Z.of_nat (length (contents l g)) - index))) g = returns () g2) as E.
    { rewrite (list_returns _ _ _ _ _ E1). rewrite <- E2. f_equal. lia. }
    exists g2, ys. split; [exact E|]. split; [eapply usable_valid; [exact Hu2|]; by eapply usable_valid|]. split; [by rewrite Hc2|].
    intros zs _ _ _ Hcon. pose proof (Hedits zs g [] (contents l g) Hv Hall Hcon eq_refl Hsz) as Hsame. cbn [length] in Hsame.
    change (Z.of_nat 0) with 0 in Hsame. rewrite <- Hsame. exact E.
  - rewrite (list_returns _ _ _ _ _ E0).
    destruct (add_each_spec l xs g0 (usable_valid _ _ _ Hu0 Hv) (later_boxes _ _ _ _ Hu0 Hall)) as (g1 & ys & E1 & Hys & Hlen & Hc1 & Hu1).
    exists g1, ys. split; [done|]. split; [eapply usable_valid; [exact Hu1|]; by eapply usable_valid|]. split; [|done].
    rewrite Hc1, Hc0. split; [done|]. split; [done|]. by eapply all_given_later.
Qed.
End edits.

(** ** [Results] of a list *)
Section list_results.
Context `{HC : Core} {HLC : ListCore} {HL : CoreLaws}.
Implicit Types (g : core_group).

Lemma list_valid_returns {A} (l : ObjectList) g (f : () -> Prog core_group ListError A) : is_valid l g = true ->
  (verify_attached l ≫= f) g = f () g.
Proof. intros Hv. unfold mbind, Prog_bind. by rewrite attached_spec, Hv. Qed.

Lemma of_link_view_ok lv s : ok (of_link_view true lv None s).
Proof.
  unfold ok. cbn. split; [done|]. split; [done|]. split; [done|]. split; [by eexists|].
  destruct s as [s|]; rewrite ?sort_not_distinct, ?sort_not_limit; rewrite applies_distinct, applies_limit; by rewrite nothing_ordered.
Qed.

(** The [Results] of a list of links denote, at every version, the rows of the list
    in its order, sorted stably, or those that meet a query; and [delete_all] removes
    from the Realm exactly the objects the list denotes when it is called. *)
Theorem list_results g lv s q : links_attached g lv = true ->
  (exists r, as_results (List_links lv) g = returns r g /\ ok r /\ forall g', denotes g' r = Some <$> link_rows g' lv) /\
  (exists r, sort (List_links lv) s g = returns r g /\ ok r /\ forall g', denotes g' r = Some <$> sort_rows g' s (link_rows g' lv)) /\
  (exists r, filter (List_links lv) q g = returns r g /\ ok r /\
     forall g', denotes g' r = Some <$> List.filter (satisfies g' q) (link_rows g' lv)) /\
  (exists g', delete_all true (List_links lv) g = returns () g' /\ removed g g' (Some <$> link_rows g lv)).
Proof.
  intros Ha. assert (is_valid (List_links lv) g = true) as Hv by (unfold is_valid; cbn; by rewrite Ha).
  unfold as_results, sort, filter. rewrite !list_valid_returns by done. unfold get_query. cbn [list_links List_links list_realm].
  split; [|split; [|split]].
  - eexists. split; [reflexivity|]. split; [apply of_link_view_ok|]. intros g'. unfold denotes. cbn. unfold arrange. by rewrite nothing_ordered.
  - eexists. split; [reflexivity|]. split; [apply of_link_view_ok|]. intros g'. unfold denotes. cbn. rewrite arrange_sort. unfold arrange.
    by rewrite nothing_ordered.
  - unfold mbind, Prog_bind. rewrite attached_spec, Hv. eexists. split; [reflexivity|]. split.
    + unfold ok. cbn. split; [done|]. split; [done|]. split; [done|]. by rewrite and_has_table, links_have_table.
    + intros g'. unfold denotes. cbn. unfold arrange. by rewrite nothing_ordered, matching_and, matching_links.
  - exists (remove_all_target_rows g lv). split; [|apply cleared_links].
    unfold delete_all. rewrite (list_returns _ _ g () g) by (by rewrite transaction_spec, Hv). done.
Qed.
End list_results.

(** ** A core with a list of links and a list of values *)
Definition in_range_b (i : Z) (n : nat) : bool := (0 <=? i) && (i <? Z.of_nat n).
Definition guarded {A} (b : bool) (x : A) : option A := if b then Some x else None.

Definition live_links (g : PGroup) : list Z := base.filter (fun id => id ∈ plain_objects g) (pg_links g).
Definition with_links (g : PGroup) (ids : list Z) : PGroup := mkPGroup (pg_objects g) ids (pg_values g) (pg_tables g).
Definition with_values (g : PGroup) (vs : list Z) : PGroup := mkPGroup (pg_objects g) (pg_links g) vs (pg_tables g).
Definition object_of_row (g : PGroup) (row : Z) : option Z := if 0 <=? row then plain_objects g !! Z.to_nat row else None.

Definition plain_links_insert (g : PGroup) (i row : Z) : option PGroup :=
  id ← object_of_row g row;
  guarded ((0 <=? i) && (i <=? Z.of_nat (length (live_links g)))) (with_links g (insert_at i id (live_links g))).
Definition plain_links_set (g : PGroup) (i row : Z) : option PGroup :=
  id ← object_of_row g row;
  guarded (in_range_b i (length (live_links g))) (with_links g (<[Z.to_nat i := id]> (live_links g))).
Definition change_links (g : PGroup) (i j : Z) (f : list Z -> list Z) : option PGroup :=
  guarded (in_range_b i (length (live_links g)) && in_range_b j (length (live_links g))) (with_links g (f (live_links g))).
Definition change_values (g : PGroup) (i j : Z) (f : list Z -> list Z) : option PGroup :=
  guarded (in_range_b i (length (pg_values g)) && in_range_b j (length (pg_values g))) (with_values g (f (pg_values g))).

#[global] Instance PlainLists : ListCore := {|
  links_attached _ _ := true;
  links_insert g _ := plain_links_insert g;
  links_add g _ := plain_links_insert g (Z.of_nat (length (live_links g)));
  links_set g _ := plain_links_set g;
  links_move g _ i j := change_links g i j (move_to i j);
  links_swap g _ i j := change_links g i j (swap_at i j);
  links_remove g _ i := change_links g i i (delete (Z.to_nat i));
  links_clear g _ := with_links g [];
  remove_target_row g _ i := (fun id => without g [id]) <$> live_links g !! Z.to_nat i;
  core_rows := ();
  values g _ := pg_values g;
  values_attached _ _ := true;
  add_empty_row g _ := with_values g (pg_values g ++ [0]);
  insert_empty_row g _ i := guarded ((0 <=? i) && (i <=? Z.of_nat (length (pg_values g)))) (with_values g (insert_at i 0 (pg_values g)));
  set_value g _ i v := change_values g i i (<[Z.to_nat i := v]>);
  move_row g _ i j := change_values g i j (move_to i j);
  swap_rows g _ i j := change_values g i j (swap_at i j);
  remove_row g _ i := change_values g i i (delete (Z.to_nat i));
  clear_rows g _ := with_values g [];
  values_find_first g _ v := position v (pg_values g);
  same_value := Z.eqb;
  row_value_type _ _ := PT_Int
|}.

Lemma live_rows g : row_of_object g <$> live_links g = Some <$> plain_links g.
Proof. apply kept_rows. Qed.
Lemma live_length g : length (live_links g) = length (plain_links g).
Proof. rewrite <- (length_fmap (row_of_object g)), live_rows. apply length_fmap. Qed.

(** New links that are objects of the table *)
Lemma plain_gives g lv ids rows : row_of_object g <$> ids = Some <$> rows -> gives_links g lv (Some (with_links g ids)) rows.
Proof.
  intros E. exists (with_links g ids). split; [done|]. split; [|done]. cbn. unfold plain_links. cbn.
  change (row_of_object (with_links g ids)) with (row_of_object g). revert rows E.
  induction ids as [|id ids IH]; intros [|row rows] E; [done..|]. injection E as E1 E2. cbn. rewrite E1. f_equal. by apply IH.
Qed.

Lemma object_of_row_some g row : 0 <= row < plain_size g -> exists id, object_of_row g row = Some id /\ row_of_object g id = Some row.
Proof.
  intros Hr. unfold plain_size in Hr. destruct (lookup_lt_is_Some_2 (plain_objects g) (Z.to_nat row)) as [id E]; [lia|].
  exists id. unfold object_of_row. rewrite (proj2 (Z.leb_le _ _)) by lia. split; [done|]. rewrite (row_of_object_at _ _ _ E). f_equal. lia.
Qed.

Lemma in_range_true {A} i (c : list A) : in_list i c -> in_range_b i (length c) = true.
Proof. unfold in_list, in_range_b. lia. Qed.

Lemma plain_inserted g lv i row : 0 <= i <= Z.of_nat (length (plain_links g)) -> 0 <= row < plain_size g ->
  gives_links g lv (plain_links_insert g i row) (insert_at i row (plain_links g)).
Proof.
  intros Hi Hrow. destruct (object_of_row_some g row Hrow) as (id & E & Er). unfold plain_links_insert. rewrite E. cbn [mbind option_bind].
  rewrite live_length, (proj2 (Z.leb_le 0 i)), (proj2 (Z.leb_le i _)) by lia. apply plain_gives. by rewrite !fmap_inserted, live_rows, Er.
Qed.

Lemma plain_changed g lv i j (f : forall A, list A -> list A) : (forall A B (h : A -> B) c, h <$> f A c = f B (h <$> c)) ->
  in_list i (plain_links g) -> in_list j (plain_links g) -> gives_links g lv (change_links g i j (f Z)) (f Z (plain_links g)).
Proof.
  intros Hf Hi Hj. unfold change_links. rewrite live_length, !in_range_true by done. apply plain_gives. by rewrite !Hf, live_rows.
Qed.

Lemma plain_changed_values g t i j f : in_list i (pg_values g) -> in_list j (pg_values g) ->
  gives_values g t (change_values g i j f) (f (pg_values g)).
Proof.
  intros Hi Hj. unfold change_values. rewrite !in_range_true by done. by eexists.
Qed.

#[global] Instance PlainListLaws : ListLaws.
Proof.
  split.
  - intros g lv i x. apply plain_inserted.
  - intros g lv x Hx. pose proof (plain_inserted g lv (Z.of_nat (length (live_links g))) x) as Hi. cbn. revert Hi. rewrite live_length.
    unfold insert_at. rewrite Nat2Z.id, firstn_all, skipn_all. intros Hi. apply Hi; [lia|done].
  - intros g lv i x Hi Hx. cbn in *. destruct (object_of_row_some g x Hx) as (id & E & Er). unfold plain_links_set. rewrite E. cbn [mbind option_bind].
    rewrite live_length, in_range_true by done. apply plain_gives. by rewrite !list_fmap_insert, live_rows, Er.
  - intros g lv i j Hi Hj. by apply (plain_changed g lv i j (fun A => move_to i j)); [intros; apply fmap_move_to|..].
  - intros g lv i j Hi Hj. by apply (plain_changed g lv i j (fun A => swap_at i j)); [intros; apply fmap_swap_at|..].
  - intros g lv i Hi. by apply (plain_changed g lv i i (fun A => @list_delete A (Z.to_nat i))); [intros; apply fmap_delete_at|..].
  - intros g lv. by apply (plain_gives g lv [] []).
  - intros g t i Hi. exists 0. cbn in *. rewrite (proj2 (Z.leb_le 0 i)), (proj2 (Z.leb_le i _)) by lia. by eexists.
  - intros g t. exists 0. by eexists.
  - intros g t i v Hi. by apply plain_changed_values.
  - intros g t i j Hi Hj. by apply plain_changed_values.
  - intros g t i j Hi Hj. by apply plain_changed_values.
  - intros g t i Hi. by apply plain_changed_values.
  - intros g t. by eexists.
  - intros v w. apply Z.eqb_eq.
Qed.

(** ** Examples *)
Definition pet_list : @ObjectList PlainCore PlainLists := @List_links PlainCore PlainLists tt.
Definition pet_row (i : Z) : @Element PlainCore := a_link (mkRow (Some i) true).

Example list_edit_refines_witness :
  (exists g', edit true pet_list (e_insert 1 (pet_row 3)) pets = returns () g' /\
     contents pet_list g' = [inl 2; inl 3; inl 0; inl 1]) /\
  edit true pet_list (e_move 0 3) pets = throws (ListOutOfBoundsIndexException 3 3) pets.
Proof.
  split.
  - destruct (list_edit_refines true pet_list pets (e_insert 1 (pet_row 3))) as (g' & E & Hc & _).
    { split; [|done]. by intros i [= <-]. }
    exists g'. split; [exact E|]. rewrite Hc. reflexivity.
  - exact (list_edit_refines true pet_list pets (e_move 0 3) ltac:(done)).
Defined.

(** An element that is there already *)
Definition boxed (i : Z) : @Source PlainCore := fun _ => mret (pet_row i).

Lemma boxed_ready i : 0 <= i < 4 -> unboxes pet_list pets (boxed i).
Proof.
  intros Hi cur g1 Hv [_ Hs]. exists (pet_row i), g1. split; [done|]. split; [done|]. split; [apply usable_refl|]. split; [|done].
  intros k [= <-]. specialize (Hs ltac:(done)). change (table_size pets) with 4 in Hs. lia.
Qed.

Lemma boxed_given o old i xs ys : all_given pet_list pets (o :: old) (boxed i :: xs) ys ->
  exists ys', ys = pet_row i :: ys' /\ all_given pet_list pets old xs ys'.
Proof. inversion 1 as [| ? ? ? ? y ys' Hy Hys'|]; subst. destruct Hy as (g1 & g2 & _ & E). injection E as <- _. by exists ys'. Qed.

(** The list holds rows 2, 0 and 1; row 2 is not written, row 3 is set, and the last
    element removed. *)
Example list_assign_witness :
  exists g', assign true pet_list false (Some [boxed 2; boxed 3]) true pets = returns () g' /\ contents pet_list g' = [inl 2; inl 3] /\
    edits pet_list [e_set 1 (pet_row 3); e_remove 2] pets = returns () g'.
Proof.
  destruct (list_assign pet_list pets false (Some [boxed 2; boxed 3]) true) as (g' & ys & E & _ & (Hc & _ & Hys) & He); [done| |].
  - repeat (constructor; [apply boxed_ready; lia|]). constructor.
  - exists g'. split; [exact E|]. split; [|by apply (He [pet_row 2; pet_row 3]); [..|repeat constructor]].
    rewrite Hc. change (contents pet_list pets) with ([inl 2; inl 0; inl 1] : list (Z + @core_value PlainCore)) in Hys.
    apply boxed_given in Hys as (ys1 & -> & Hys). apply boxed_given in Hys as (ys2 & -> & Hys). by inversion Hys.
Defined.

Example list_results_witness :
  exists r, filter pet_list from_eleven pets = returns r pets /\ denotes pets r = [Some 2; Some 1].
Proof.
  destruct (list_results pets tt by_number from_eleven) as (_ & _ & (r & E & _ & Hd) & _); [done|].
  exists r. split; [exact E|]. rewrite (Hd pets). reflexivity.
Defined.
