(* ===== verification/Objects.v ===== *)
(** * [Object]: creating, finding and changing objects

    [object_accessor.hpp] and [object.cpp], with the accessor context of
    [impl/object_accessor_impl.hpp]: what the binding hands over is a boxed value,
    [Any], and the defaults and the leniency of other contexts are parameters. Core's
    tables are a class of operations on cells; lists are those of [Lists]. The hooks
    for observers, boxing of results and the roles of users are left out. The laws of
    core are at the end. *)
From S2P Require Import Prelude.
From S2P Require Import IndexSets.
From S2P Require Import SchemaTypes.
From S2P Require Import Schemas.
From S2P Require Import Effects.
From S2P Require Import Results.
From S2P Require Import Lists.

(** ** Core *)
(** Cells of a table, by the name of its object type, column and row; [None] when core
    refuses a value, such as null in a column that is not nullable, and when there is
    no room for a row. [cell] tells null from other values, [cell_or_default] is what
    [Table::get] of a type that has no null reads. *)
Class ObjectCore `{HC : Core} {HLC : ListCore} := {
  has_table : core_group -> string -> bool;
  type_rows : core_group -> string -> Z;
  column_nullable : core_group -> string -> Z -> bool;
  column_target : core_group -> string -> Z -> string;
  cell : core_group -> string -> Z -> Z -> core_value;
  cell_is_null : core_group -> string -> Z -> Z -> bool;
  cell_or_default : core_group -> string -> Z -> Z -> core_value;
  link_cell : core_group -> string -> Z -> Z -> Z;
  find_first : core_group -> string -> Z -> core_value -> Z;
  add_empty_object : core_group -> string -> option core_group;
  create_object_with_primary_key : core_group -> string -> Z -> core_value -> option core_group;
  set_cell : core_group -> string -> Z -> Z -> core_value -> bool -> option core_group;
  set_null_cell : core_group -> string -> Z -> Z -> bool -> option core_group;
  set_link_cell : core_group -> string -> Z -> Z -> Z -> bool -> option core_group;
  nullify_link_cell : core_group -> string -> Z -> Z -> core_group;
  links_at : string -> Z -> Z -> core_links;
  values_at : string -> Z -> Z -> core_rows;
  null_value : core_value;
  value_fits : PropertyType -> core_value -> bool
}.

Scheme All for list.
Scheme All for prod.

(** [util::Any]: nothing, a value, an object (detached without a row), the list of a
    property, a dictionary or a vector *)
Inductive Any `{ObjectCore} :=
| any_null
| any_value (v : core_value)
| any_row (type : string) (row : option Z)
| any_list (type : string) (column row : Z)
| any_dict (fields : list (string * Any))
| any_vector (elements : list Any).

(** The Realm, what the accessor context adds to the values it is given, and the index
    that the row of an object that was deleted happens to report *)
Record AccessEnv `{ObjectCore} := mkAccess {
  access_writing : bool;
  in_migration : bool;
  access_schema : Schema;
  default_value_for_property : ObjectSchema -> Property -> option Any;
  allow_missing : Any -> bool;
  detached_index : Z
}.
Arguments mkAccess {_ _ _}. Arguments access_writing {_ _ _}. Arguments in_migration {_ _ _}. Arguments access_schema {_ _ _}.
Arguments default_value_for_property {_ _ _}. Arguments allow_missing {_ _ _}. Arguments detached_index {_ _ _}.

Section objects.
Context `{HC : Core} {HLC : ListCore} {HOC : ObjectCore} `{CharSign}.
Abbreviation P := (Prog core_group ListError).
Implicit Types (env : AccessEnv) (o : ObjectSchema) (p : Property) (v value : Any).

Definition throw {A} (e : ObjectError) : P A := raise (object_error e).

(** What core's operation leaves, or its [LogicError] *)
Definition put (x : option core_group) : P () := match x with Some g => modify (fun _ => g) | None => throw LogicError end.

Definition verify_in_write env : P () := if access_writing env then mret () else raise ListInvalidTransactionException.

Definition is_null v : bool := match v with any_null => true | _ => false end.

(** ** The context *)
(** [value_for_property]: the input must be a dictionary. *)
Definition value_for_property value p : P (option Any) :=
  match value with
  | any_dict fields => mret (snd <$> List.find (fun x => string_eqb (fst x) (prop_name p)) fields)
  | _ => throw bad_any_cast
  end.

(** [unbox] of a value of the property's type: an absent string or binary is null. *)
Definition unbox (t : PropertyType) v : P core_value :=
  match v with
  | any_value x => if value_fits (pt_base t) x then mret x else throw bad_any_cast
  | any_null => if pt_eqb t PT_String || pt_eqb t PT_Data then mret null_value else throw bad_any_cast
  | _ => throw bad_any_cast
  end.

(** [unbox<util::Optional<int64_t>>] *)
Definition unbox_optional v : P core_value :=
  match v with any_null => mret null_value | _ => unbox PT_Int v end.

(** How a nested object is created: its type, the value, [try_update],
    [update_only_diff] and the current row *)
Definition Creator : Type := ObjectSchema -> Any -> bool -> bool -> Z -> P Z.

(** [unbox<RowExpr>] with [create] in the context of a property that links to [target] *)
Definition unbox_row env (create : Creator) (target : string) v (try_update update_only_diff : bool) (current_row : Z) : P RowExpr :=
  match v with
  | any_row type row => mret (mkRow row (string_eqb type target))
  | _ =>
    match find_object (access_schema env) target with
    | Some o => row ← create o v try_update update_only_diff current_row; mret (mkRow (Some row) true)
    | None => fails
    end
  end.

(** ** Setting a property *)
Definition do_update_value (n : string) (t : PropertyType) v (col row : Z) (update_only_diff is_default : bool) : P () :=
  new_val ← unbox t v;
  g ← get;
  when (negb update_only_diff || negb (same_value (cell_or_default g n col row) new_val))
    (put (set_cell g n col row new_val is_default)).

(** An element of a list of values: of an optional type where the list is nullable *)
Definition unbox_element (t : PropertyType) v : P core_value :=
  match v with any_null => if is_nullable t then mret null_value else unbox t v | _ => unbox t v end.

(** The elements of the list of a property. A vector that is none throws when it is
    enumerated, which is when the first element would be unboxed. *)
Definition element_source env (create : Creator) p (try_update : bool) (x : Any) : Source :=
  fun current =>
    if pt_eqb (prop_type p) PT_Object then
      row ← unbox_row env create (object_type p) x try_update
              (match current with Some _ => true | None => false end) (default npos current);
      mret (a_link row)
    else y ← unbox_element (prop_type p) x; mret (a_value y).

Definition element_sources env (create : Creator) p (try_update : bool) v : option (list Source) :=
  match v with
  | any_null => None
  | any_vector xs => Some (element_source env create p try_update <$> xs)
  | _ => Some [fun _ => throw bad_any_cast]
  end.

Definition is_same_list (n : string) (col row : Z) v : bool :=
  match v with any_list n' col' row' => string_eqb n n' && (col =? col') && (row =? row') | _ => false end.

Definition list_of (n : string) p (row : Z) : ObjectList :=
  if pt_eqb (prop_type p) PT_Object then List_links (links_at n (table_column p) row) else List_values (values_at n (table_column p) row).

Definition set_link_value env (create : Creator) o (row : Z) p value (try_update update_only_diff is_default : bool) : P () :=
  g ← get;
  let curr_link := link_cell g (os_name o) (table_column p) row in
  link ← unbox_row env create (object_type p) value try_update update_only_diff curr_link;
  let ndx := default (detached_index env) (row_index link) in
  g ← get;
  when (negb update_only_diff || negb (curr_link =? ndx))
    (put (set_link_cell g (os_name o) (table_column p) row ndx is_default)).

Definition set_null_value o (row : Z) p (update_only_diff is_default : bool) : P () :=
  g ← get;
  when (negb update_only_diff || negb (cell_is_null g (os_name o) (table_column p) row))
    (if pt_eqb (prop_type p) PT_Object then
       when (negb is_default) (modify (fun g => nullify_link_cell g (os_name o) (table_column p) row))
     else put (set_null_cell g (os_name o) (table_column p) row is_default)).

Definition set_property_value_impl env (create : Creator) o (row : Z) p value (try_update update_only_diff is_default : bool) : P () :=
  if is_nullable (prop_type p) && is_null value then set_null_value o row p update_only_diff is_default
  else if is_array (prop_type p) then
    if pt_eqb (prop_type p) PT_LinkingObjects then throw (ReadOnlyPropertyException (os_name o) (prop_name p))
    else
      assign (access_writing env) (list_of (os_name o) p row) (is_same_list (os_name o) (table_column p) row value)
        (element_sources env create p try_update value) update_only_diff
  else if pt_eqb (prop_type p) PT_Object then set_link_value env create o row p value try_update update_only_diff is_default
  else if pt_eqb (prop_type p) PT_Any then throw not_supported
  else if pt_eqb (prop_type p) PT_LinkingObjects then fails
  else do_update_value (os_name o) (prop_type p) value (table_column p) row update_only_diff is_default.

(** ** Primary keys *)
(** What is searched for, and the search *)
Definition search_key (primary_prop : Property) v : P core_value :=
  if is_null v && negb (is_nullable (prop_type primary_prop)) then throw InvalidNullKeyException
  else if pt_eqb (prop_type primary_prop) PT_String then unbox PT_String v
  else if is_nullable (prop_type primary_prop) then unbox_optional v else unbox PT_Int v.
Definition get_for_primary_key_impl (n : string) (primary_prop : Property) v : P Z :=
  key ← search_key primary_prop v;
  asks (fun g => find_first g n (table_column primary_prop) key).

(** A row: [None] for a [Row] that is not attached *)
Definition get_for_primary_key o v : P (option Z) :=
  match primary_key_property o with
  | None => throw (MissingPrimaryKeyException (os_name o))
  | Some p =>
    g ← get;
    if negb (has_table g (os_name o)) then mret None
    else row ← get_for_primary_key_impl (os_name o) p v; mret (if row =? npos then None else Some row)
  end.

(** ** Creating *)
(** A new row at the end, and its index *)
Definition new_row (n : string) (make : core_group -> option core_group) : P Z := g ← get; store (make g);; mret (type_rows g n).

(** The key of a new object: the value given, the default, or null *)
Definition primary_value env o p value : P Any :=
  given ← value_for_property value p;
  match given with
  | Some v => mret v
  | None =>
    match default_value_for_property env o p with
    | Some v => mret v
    | None => if is_nullable (prop_type p) then mret any_null else throw (MissingPropertyValueException (os_name o) (prop_name p))
    end
  end.

Definition key_of p v : P core_value :=
  if pt_eqb (prop_type p) PT_Int then unbox_optional v
  else if pt_eqb (prop_type p) PT_String then unbox PT_String v else fails.

Definition create_with_key o p v : P Z :=
  key ← key_of p v;
  new_row (os_name o) (fun g => create_object_with_primary_key g (os_name o) (table_column p) key).

(** The row to fill, whether it is new, and whether its key is there already *)
Record Target := mkTarget { target_row : Z; created : bool; skip_primary : bool }.

Definition find_or_create env o value (try_update update_only_diff : bool) (current_row : Z) : P Target :=
  match primary_key_property o with
  | Some p =>
    key ← primary_value env o p value;
    row ← get_for_primary_key_impl (os_name o) p key;
    if row =? npos then row ← create_with_key o p key; mret (mkTarget row true true)
    else if negb try_update then
      if in_migration env then row ← new_row (os_name o) (fun g => add_empty_object g (os_name o)); mret (mkTarget row true false)
      else throw (ExistingPrimaryKeyException (os_name o))
    else mret (mkTarget row false true)
  | None =>
    if update_only_diff && negb (current_row =? npos) then mret (mkTarget current_row false true)
    else row ← new_row (os_name o) (fun g => add_empty_object g (os_name o)); mret (mkTarget row true true)
  end.

(** The loop's body for one property *)
Definition populate_property env (create : Creator) o value (t : Target) (try_update update_only_diff : bool) p : P () :=
  if skip_primary t && is_primary p then mret ()
  else
    given ← value_for_property value p;
    if negb (created t) && match given with None => true | Some _ => false end then mret ()
    else
      let v := match given with Some v => Some v | None => default_value_for_property env o p end in
      let is_default := match given with Some _ => false | None => true end in
      (if match v with None => true | Some v => is_null v end && negb (is_nullable (prop_type p)) && negb (is_array (prop_type p))
          && (is_primary p || negb (allow_missing env value))
       then throw (MissingPropertyValueException (os_name o) (prop_name p)) else mret ());;
      match v with
      | Some v => set_property_value_impl env create o (target_row t) p v try_update update_only_diff is_default
      | None => mret ()
      end.

Fixpoint populate env (create : Creator) o value (t : Target) (try_update update_only_diff : bool) (ps : list Property) : P () :=
  match ps with
  | [] => mret ()
  | p :: ps =>
    populate_property env create o value t try_update update_only_diff p;;
    populate env create o value t try_update update_only_diff ps
  end.

Definition create_object env (create : Creator) : Creator := fun o value try_update update_only_diff current_row =>
  verify_in_write env;;
  t ← find_or_create env o value try_update update_only_diff current_row;
  populate env create o value t try_update update_only_diff (persisted_properties o);;
  mret (target_row t).

(** Nested objects: the fuel bounds the depth of the value. *)
Fixpoint create (fuel : nat) env : Creator :=
  match fuel with
  | O => fun _ _ _ _ _ => fails
  | S fuel => create_object env (create fuel env)
  end.

(** The overloads for the name of an object type, which must be in the schema *)
Definition create_named (fuel : nat) env (n : string) value (try_update update_only_diff : bool) (current_row : Z) : P Z :=
  match find_object (access_schema env) n with Some o => create fuel env o value try_update update_only_diff current_row | None => fails end.
Definition get_named_for_primary_key env (n : string) v : P (option Z) :=
  match find_object (access_schema env) n with Some o => get_for_primary_key o v | None => fails end.

(** ** Accessing *)
Definition verify_row o (row : Z) : P () :=
  g ← get; if (0 <=? row) && (row <? type_rows g (os_name o)) then mret () else throw (InvalidatedObjectException (os_name o)).

Definition named_property o (name : string) : P Property :=
  match property_for_name o name with Some p => mret p | None => throw (InvalidPropertyException (os_name o) name) end.

Definition set_property_value (fuel : nat) env o (row : Z) (name : string) value (try_update : bool) : P () :=
  verify_row o row;;
  verify_in_write env;;
  p ← named_property o name;
  if is_primary p && negb (in_migration env) then throw (ModifyPrimaryKeyException (os_name o) (prop_name p))
  else set_property_value_impl env (create fuel env) o row p value try_update false false.

(** What is read: a boxed value, or the objects that link here by a property of their
    type *)
Inductive Read := read_any (v : Any) | read_backlinks (type : string) (column : Z).

Definition get_property_value env o (row : Z) (name : string) : P Read :=
  p ← named_property o name;
  verify_row o row;;
  g ← get;
  let n := os_name o in let col := table_column p in
  if is_nullable (prop_type p) && cell_is_null g n col row then mret (read_any any_null)
  else if is_array (prop_type p) && negb (pt_eqb (prop_type p) PT_LinkingObjects) then mret (read_any (any_list n col row))
  else if pt_eqb (prop_type p) PT_Object then mret (read_any (any_row (object_type p) (Some (link_cell g n col row))))
  else if pt_eqb (prop_type p) PT_LinkingObjects then
    match find_object (access_schema env) (object_type p) with
    | Some target =>
      match property_for_name target (link_origin_property_name p) with
      | Some origin => mret (read_backlinks (object_type p) (table_column origin))
      | None => fails
      end
    | None => fails
    end
  else mret (read_any (any_value (cell_or_default g n col row))).
End objects.

(** ** What core promises *)
Section laws.
Context `{HOC : ObjectCore}.
Implicit Types (g : core_group) (n : string).

(** Everything a cell stores, and the rows of a table *)
Definition stored g n (c r : Z) : core_value * core_value * bool * Z :=
  (cell g n c r, cell_or_default g n c r, cell_is_null g n c r, link_cell g n c r).
Definition in_type g n (r : Z) : Prop := 0 <= r < type_rows g n.

Definition same_types g g' : Prop :=
  forall n, has_table g' n = has_table g n /\ forall c, column_nullable g' n c = column_nullable g n c /\ column_target g' n c = column_target g n c.

(** At most one cell changes; a row is added; nothing changes but lists. *)
Definition changes g g' n (c r : Z) : Prop :=
  same_types g g' /\ (forall n', type_rows g' n' = type_rows g n') /\
  forall n' c' r', (n', c', r') <> (n, c, r) -> stored g' n' c' r' = stored g n' c' r'.
Definition adds g g' n : Prop :=
  same_types g g' /\ type_rows g' n = type_rows g n + 1 /\ (forall n', n' <> n -> type_rows g' n' = type_rows g n') /\
  forall n' c r, in_type g n' r -> stored g' n' c r = stored g n' c r.
Definition same_cells g g' : Prop :=
  same_types g g' /\ (forall n, type_rows g' n = type_rows g n) /\ forall n c r, stored g' n c r = stored g n c r.

(** A row with the value, [npos] when there is none *)
Definition finds g n (c : Z) (v : core_value) (row : Z) : Prop :=
  (row = npos /\ forall i, in_type g n i -> cell g n c i <> v) \/
  (in_type g n row /\ cell g n c row = v).
End laws.

Class ObjectLaws `{HC : Core} {HLC : ListCore} {HOC : ObjectCore} := {
  rows_bound g n : 0 <= type_rows g n < npos;
  found_first g n c v : has_table g n = true -> finds g n c v (find_first g n c v);
  can_add g n : has_table g n = true -> type_rows g n + 1 < npos -> exists g', add_empty_object g n = Some g';
  added_object g n g' : add_empty_object g n = Some g' -> adds g g' n;
  can_create g n c key : has_table g n = true -> type_rows g n + 1 < npos -> exists g', create_object_with_primary_key g n c key = Some g';
  created_object g n c key g' : create_object_with_primary_key g n c key = Some g' -> adds g g' n /\ cell g' n c (type_rows g n) = key;
  can_set g n c r v d : in_type g n r -> (v = null_value -> column_nullable g n c = true) -> exists g', set_cell g n c r v d = Some g';
  cell_set g n c r v d g' : set_cell g n c r v d = Some g' ->
    changes g g' n c r /\ cell g' n c r = v;
  null_cell g n c r : cell_is_null g n c r = true <-> cell g n c r = null_value;
  read_cell g n c r : cell_is_null g n c r = false -> cell_or_default g n c r = cell g n c r;
  can_set_null g n c r d : in_type g n r -> column_nullable g n c = true -> exists g', set_null_cell g n c r d = Some g';
  null_set g n c r d g' : set_null_cell g n c r d = Some g' -> changes g g' n c r /\ cell_is_null g' n c r = true;
  can_link g n c r i d : in_type g n r -> in_type g (column_target g n c) i -> exists g', set_link_cell g n c r i d = Some g';
  link_set g n c r i d g' : set_link_cell g n c r i d = Some g' ->
    changes g g' n c r /\ (in_type g (column_target g n c) i -> link_cell g' n c r = i /\ cell_is_null g' n c r = false);
  link_nullified g n c r : changes g (nullify_link_cell g n c r) n c r /\ (in_type g n r -> cell_is_null (nullify_link_cell g n c r) n c r = true);
  links_added g lv i g' : links_add g lv i = Some g' -> same_cells g g';
  links_set_cells g lv i x g' : links_set g lv i x = Some g' -> same_cells g g';
  links_removed g lv i g' : links_remove g lv i = Some g' -> same_cells g g';
  links_cleared_cells g lv : same_cells g (links_clear g lv);
  value_row_added g t : same_cells g (add_empty_row g t);
  value_set g t i v g' : set_value g t i v = Some g' -> same_cells g g';
  value_removed g t i g' : remove_row g t i = Some g' -> same_cells g g';
  values_cleared g t : same_cells g (clear_rows g t)
}.
