(* ===== verification/ObjectTheorems.v ===== *)
(** * [Object]: what creating and changing objects guarantees

    Primary keys stay unique and never change, a created object is found by its key,
    what is written is what is read, and the value of a property is written where the
    schema says. *)
From S2P Require Import Prelude.
From S2P Require Import IndexSets.
From S2P Require Import SchemaTypes.
From S2P Require Import Schemas.
From S2P Require Import Effects.
From S2P Require Import Results.
From S2P Require Import PlainResults.
From S2P Require Import Lists.
From S2P Require Import Objects.

(** ** Cells *)
Section cells.
Context `{HC : Core} {HLC : ListCore} {HOC : ObjectCore}.
Implicit Types (g : core_group) (n : string).

Lemma same_types_refl g : same_types g g.
Proof. by intros n. Qed.
Lemma same_types_trans g g' g'' : same_types g g' -> same_types g' g'' -> same_types g g''.
Proof. intros H1 H2 n. destruct (H1 n) as [Ht Hc], (H2 n) as [-> Hc']. split; [done|]. intros c. destruct (Hc' c) as [-> ->]. apply Hc. Qed.

Lemma stored_cell g g' n c r : stored g' n c r = stored g n c r -> cell g' n c r = cell g n c r.
Proof. by intros [=]. Qed.

Lemma changes_same g n c r : changes g g n c r.
Proof. split; [apply same_types_refl|done]. Qed.
Lemma same_cells_changes g g' n c r : same_cells g g' -> changes g g' n c r.
Proof. intros (Ht & Hr & Hs). split; [done|]. split; [done|]. auto. Qed.
Lemma changes_trans g g' g'' n c r : changes g g' n c r -> changes g' g'' n c r -> changes g g'' n c r.
Proof.
  intros (Ht & Hr & Hs) (Ht' & Hr' & Hs'). split; [by eapply same_types_trans|]. split; [intros n'; by rewrite Hr', Hr|].
  intros n' c' r' Hne. by rewrite Hs', Hs.
Qed.
End cells.

(** ** Primary keys *)
(** The object type is one of the schema and has this primary key. *)
Definition keyed `{ObjectCore} (env : AccessEnv) (o : ObjectSchema) (p : Property) : Prop :=
  o ∈ access_schema env /\ primary_key_property o = Some p.

(** What a schema that was validated and read from a file satisfies: types have
    different names, the primary property is marked, and no other property is in its
    column. *)
Record SchemaOk `{ObjectCore} (env : AccessEnv) : Prop := {
  named_once : forall o o', o ∈ access_schema env -> o' ∈ access_schema env -> os_name o = os_name o' -> o = o';
  own_column : forall o p q, keyed env o p -> q ∈ persisted_properties o ++ computed_properties o -> is_primary q = false ->
    table_column q <> table_column p
}.

Section keys.
Context `{HC : Core} {HLC : ListCore} {HOC : ObjectCore} `{CharSign}.
Implicit Types (g : core_group) (o : ObjectSchema) (p : Property) (env : AccessEnv).

Definition tables_exist env g : Prop := forall o, o ∈ access_schema env -> has_table g (os_name o) = true.

(** No two rows of a type have the same key. *)
Definition distinct_keys env g : Prop := forall o p, keyed env o p -> forall i j, in_type g (os_name o) i -> in_type g (os_name o) j ->
  cell g (os_name o) (table_column p) i = cell g (os_name o) (table_column p) j -> i = j.

(** Rows are only added, and those that were there have their keys. *)
Definition keys_extended env g0 g : Prop :=
  (forall n, type_rows g0 n <= type_rows g n) /\
  forall o p, keyed env o p -> forall i, in_type g0 (os_name o) i ->
    cell g (os_name o) (table_column p) i = cell g0 (os_name o) (table_column p) i.

Definition keys_kept env g0 g : Prop := tables_exist env g /\ distinct_keys env g /\ keys_extended env g0 g.

Context (env : AccessEnv) (HS : SchemaOk env).
Abbreviation kept := (keys_kept env).

Lemma kept_refl g : tables_exist env g -> distinct_keys env g -> kept g g.
Proof. intros Ht Hd. split; [done|]. split; [done|]. by split. Qed.

Lemma tables_same g g' : same_types g g' -> tables_exist env g -> tables_exist env g'.
Proof. intros Hs Ht o Ho. destruct (Hs (os_name o)) as [-> _]. by apply Ht. Qed.

(** Every key of every row is the same, and there are no new rows. *)
Lemma kept_if_same g0 g g' : same_types g g' -> (forall n, type_rows g' n = type_rows g n) ->
  (forall o p, keyed env o p -> forall i, cell g' (os_name o) (table_column p) i = cell g (os_name o) (table_column p) i) ->
  kept g0 g -> kept g0 g'.
Proof.
  intros Hs Hr Hc (Ht & Hd & He & Hk). split; [by eapply tables_same|]. split; [|split].
  - intros o p Hp i j Hi Hj. unfold in_type in *. rewrite !(Hc o p Hp), Hr in *. by apply (Hd o p).
  - intros n. rewrite Hr. apply He.
  - intros o p Hp i Hi. rewrite (Hc o p Hp). by apply Hk.
Qed.

Lemma kept_same_cells g0 g g' : same_cells g g' -> kept g0 g -> kept g0 g'.
Proof. intros (Hs & Hr & Hc). apply kept_if_same; [done|done|]. intros o p _ i. by apply stored_cell. Qed.

(** A change of a cell that is in no key *)
Lemma kept_change g0 g g' o c r : o ∈ access_schema env -> (forall p, primary_key_property o = Some p -> c <> table_column p) ->
  changes g g' (os_name o) c r -> kept g0 g -> kept g0 g'.
Proof.
  intros Ho Hne (Hs & Hr & Hc). apply kept_if_same; [done|done|]. intros o' p Hp i. apply stored_cell, Hc.
  intros [= Hn Hcol _]. assert (o' = o) as -> by (apply (named_once env HS); [apply Hp|done|done]). by apply (Hne p); [apply Hp|].
Qed.

(** A new row with a key that no other row has *)
Lemma kept_add g0 g g' o : o ∈ access_schema env -> adds g g' (os_name o) ->
  (forall p, primary_key_property o = Some p -> forall i, in_type g (os_name o) i ->
    cell g (os_name o) (table_column p) i <> cell g' (os_name o) (table_column p) (type_rows g (os_name o))) ->
  kept g0 g -> kept g0 g'.
Proof.
  intros Ho (Hs & Hn & Hr & Hc) Hnew (Ht & Hd & He & Hk).
  assert (forall o' p i, keyed env o' p -> in_type g (os_name o') i ->
    cell g' (os_name o') (table_column p) i = cell g (os_name o') (table_column p) i) as Hold.
  { intros o' p i _ Hi. by apply stored_cell, Hc. }
  split; [by eapply tables_same|]. split; [|split].
  - intros o' p Hp i j Hi Hj E. destruct (decide (os_name o' = os_name o)) as [En|En].
    + assert (o' = o) as -> by (apply (named_once env HS); [apply Hp|done|done]).
      assert (forall k, in_type g' (os_name o) k -> in_type g (os_name o) k \/ k = type_rows g (os_name o)) as Hcase
        by (intros k; unfold in_type; rewrite Hn; lia).
      destruct (Hcase i Hi) as [Hi'| ->], (Hcase j Hj) as [Hj'| ->]; [| | |done].
      * rewrite !Hold in E by done. by apply (Hd o p).
      * rewrite (Hold o p i) in E by done. by destruct (Hnew p (proj2 Hp) i Hi').
      * rewrite (Hold o p j) in E by done. symmetry in E. by destruct (Hnew p (proj2 Hp) j Hj').
    + unfold in_type in *. rewrite Hr in * by done. rewrite !Hold in E by done. by apply (Hd o' p).
  - intros n. specialize (He n). destruct (decide (n = os_name o)) as [->|]; [lia|by rewrite Hr].
  - intros o' p Hp i Hi. rewrite Hold; [by apply Hk|done|]. specialize (He (os_name o')). unfold in_type in *. lia.
Qed.
End keys.

(** ** Programs that only compute *)
Section pure.
Context `{HC : Core} {HLC : ListCore} {HOC : ObjectCore} `{CharSign}.
Abbreviation P := (Prog core_group ListError).

(** It leaves the store alone, and returns the same whatever it holds. *)
Definition pure {A} (m : P A) : Prop := forall g g',
  (forall a s, m g = returns a s -> s = g /\ m g' = returns a g') /\ (forall e s, m g = throws e s -> s = g).

Lemma pure_ret {A} (a : A) : pure (mret a).
Proof. intros g g'. split; [by intros ? ? [= <- <-]|done]. Qed.
Lemma pure_throw {A} e : pure (A:=A) (throw e).
Proof. intros g g'. split; [done|]. by intros ? ? [= _ <-]. Qed.
Lemma pure_fails {A} : pure (A:=A) fails.
Proof. by intros g g'. Qed.
Lemma pure_bind {A B} (m : P A) (f : A -> P B) : pure m -> (forall a, pure (f a)) -> pure (m ≫= f).
Proof.
  intros Hm Hf g g'. unfold mbind, Prog_bind. destruct (m g) as [a s|e s|] eqn:E; [| |by split].
  - destruct (proj1 (Hm g g') a s E) as [-> ->]. apply Hf.
  - split; [done|]. intros e' s' [= <- <-]. by eapply Hm.
Qed.

Lemma pure_again {A} (m : P A) g a s g' : pure m -> m g = returns a s -> m g' = returns a g'.
Proof. intros Hm E. by destruct (proj1 (Hm g g') a s E). Qed.

Ltac pure_steps :=
  repeat first [ apply pure_ret | apply pure_throw | apply pure_fails | assumption
               | apply pure_bind; [|intros ?] | progress case_match ].

Lemma unbox_pure t v : pure (unbox t v).
Proof. unfold unbox. pure_steps. Qed.
Lemma unbox_optional_pure v : pure (unbox_optional v).
Proof. unfold unbox_optional. pose proof (unbox_pure PT_Int v). pure_steps. Qed.
Lemma value_for_property_pure v p : pure (value_for_property v p).
Proof. unfold value_for_property. pure_steps. Qed.
Lemma primary_value_pure env o p v : pure (primary_value env o p v).
Proof. unfold primary_value. apply pure_bind; [apply value_for_property_pure|]. intros. pure_steps. Qed.
Lemma search_key_pure p v : pure (search_key p v).
Proof.
  unfold search_key. pose proof (unbox_pure PT_Int v). pose proof (unbox_pure PT_String v). pose proof (unbox_optional_pure v). pure_steps.
Qed.
Lemma key_of_pure p v : pure (key_of p v).
Proof. unfold key_of. pose proof (unbox_pure PT_String v). pose proof (unbox_optional_pure v). pure_steps. Qed.

Lemma pure_keeps {A} (I : core_group -> Prop) (m : P A) : pure m -> keeps I I m.
Proof.
  intros Hm g Hg. unfold ends. destruct (m g) as [a s|e s|] eqn:E; [| |done].
  - by destruct (proj1 (Hm g g) a s E) as [-> _].
  - by rewrite (proj2 (Hm g g) e s E).
Qed.

Lemma pure_ends {A B} (m : P A) (f : A -> P B) g (Q : B -> core_group -> Prop) R : pure m -> (forall e, R e g) ->
  (forall a, m g = returns a g -> ends True (f a) g Q R) -> ends True (m ≫= f) g Q R.
Proof.
  intros Hm HR Hf. unfold ends, mbind, Prog_bind in *. destruct (m g) as [a s|e s|] eqn:E; [| |done].
  - destruct (proj1 (Hm g g) a s E) as [-> _]. by apply Hf.
  - by rewrite (proj2 (Hm g g) e s E).
Qed.

(** A key that is searched for is the key that is stored. *)
Lemma key_searched p v g key : search_key p v g = returns key g -> key_of p v g = returns key g \/ key_of p v g = crashes.
Proof.
  unfold search_key, key_of. destruct (pt_eqb (prop_type p) PT_Int) eqn:EI, (pt_eqb (prop_type p) PT_String) eqn:ES;
    [unfold pt_eqb in *; change (pt_base PT_Int) with 0 in EI; change (pt_base PT_String) with 2 in ES; lia| | |by right].
  - destruct (is_nullable (prop_type p)), v; cbn; by left || auto.
  - destruct (is_null v && _); [done|]. by left.
Qed.
End pure.

(** ** Programs that keep the keys *)
Section keeping.
Context `{HC : Core} {HLC : ListCore} {HOC : ObjectCore} `{CharSign}.
Context (env : AccessEnv) (HS : SchemaOk env) {HL : ObjectLaws} (g0 : core_group).
Abbreviation I := (keys_kept env g0).
Abbreviation P := (Prog core_group ListError).
Abbreviation kept := (keeps I I).

Lemma keeps_get_then {B} (f : core_group -> P B) :
  (forall g, I g -> ends True (f g) g (fun _ => I) (fun _ => I)) -> kept (get ≫= f).
Proof. intros Hf g Hg. by apply Hf. Qed.

Lemma ends_store x g : (forall g', x = Some g' -> I g') -> ends (E:=ListError) True (store x) g (fun _ => I) (fun _ => I).
Proof. intros Hx. destruct x; [by apply Hx|done]. Qed.
Lemma ends_put x g : I g -> (forall g', x = Some g' -> I g') -> ends True (put x) g (fun _ => I) (fun _ => I).
Proof. intros Hg Hx. destruct x; [by apply Hx|done]. Qed.

(** *** Lists *)
Lemma keeps_attached l : kept (verify_attached l).
Proof. unfold verify_attached. keeps_steps. Qed.
Lemma keeps_transaction w l : kept (verify_in_transaction w l).
Proof. unfold verify_in_transaction. keeps_steps. apply keeps_attached. Qed.
Lemma keeps_size l : kept (size l).
Proof. unfold size, null_rows. keeps_steps. apply keeps_attached. Qed.
Lemma keeps_valid_row l i b : kept (verify_valid_row l i b).
Proof. unfold verify_valid_row. keeps_steps. apply keeps_size. Qed.
Lemma keeps_validate l row : kept (validate l row).
Proof. unfold validate, null_links. keeps_steps. Qed.
Lemma keeps_get_type l : kept (get_type l).
Proof. unfold get_type, null_rows. keeps_steps. apply keeps_attached. Qed.
Lemma keeps_get_link l i : kept (get_link l i).
Proof. unfold get_link. keeps_steps. apply keeps_valid_row. Qed.
Lemma keeps_get_value l i : kept (get_value l i).
Proof. unfold get_value, null_rows. keeps_steps. apply keeps_valid_row. Qed.
#[local] Hint Resolve keeps_attached keeps_transaction keeps_size keeps_valid_row keeps_validate keeps_get_type keeps_get_link keeps_get_value : keeps.

(** What stores the result of a core operation that changes no cell *)
Lemma keeps_get_store (x : core_group -> option core_group) : (forall g g', x g = Some g' -> same_cells g g') ->
  kept (g ← get; store (x g)).
Proof. intros Hx. apply keeps_get_then. intros g Hg. apply ends_store. intros g' E. eapply kept_same_cells; [by eapply Hx|done]. Qed.

Lemma keeps_add w l x : kept (add w l x).
Proof.
  destruct x as [row|v]; cbn.
  - unfold add_row, add_index. do 2 (apply keeps_bind; [auto with keeps|intros ?]). apply keeps_get_then. intros g Hg. unfold null_links.
    destruct (list_links l); [|done]. apply ends_store. intros g' E. eapply kept_same_cells; [by eapply links_added|done].
  - unfold add_value, null_rows. apply keeps_bind; [auto with keeps|]. intros _. destruct (list_table l) as [t|]; [|keeps_steps].
    apply keeps_bind; [keeps_steps|]. intros g. apply keeps_bind.
    { apply keeps_modify. intros s. apply kept_same_cells, value_row_added. }
    intros _. apply keeps_get_store. intros g1 g2. apply value_set.
Qed.

Lemma keeps_set w l i x : kept (set w l i x).
Proof.
  destruct x as [row|v]; cbn.
  - unfold set_row, set_index. do 3 (apply keeps_bind; [auto with keeps|intros ?]). apply keeps_get_then. intros g Hg. unfold null_links.
    destruct (list_links l); [|done]. apply ends_store. intros g' E. eapply kept_same_cells; [by eapply links_set_cells|done].
  - unfold set_value_at, null_rows. do 2 (apply keeps_bind; [auto with keeps|intros _]). destruct (list_table l) as [t|]; [|keeps_steps].
    apply keeps_get_store. intros g1 g2. apply value_set.
Qed.

Lemma keeps_backing l links rows : (forall lv g g', links g lv = Some g' -> same_cells g g') ->
  (forall t g g', rows g t = Some g' -> same_cells g g') -> kept (on_backing l links rows).
Proof.
  intros Hl Hr. unfold on_backing, null_rows. destruct (list_links l) as [lv|]; [apply keeps_get_store; eauto|].
  destruct (list_table l) as [t|]; [apply keeps_get_store; eauto|]. apply keeps_fails.
Qed.

Lemma keeps_remove w l i : kept (remove w l i).
Proof.
  unfold remove. do 2 (apply keeps_bind; [auto with keeps|intros _]). apply keeps_backing; intros; [by eapply links_removed|by eapply value_removed].
Qed.
Lemma keeps_remove_all w l : kept (remove_all w l).
Proof.
  unfold remove_all. apply keeps_bind; [auto with keeps|intros _].
  apply keeps_backing; intros ? g g' [= <-]; [apply links_cleared_cells|apply values_cleared].
Qed.
#[local] Hint Resolve keeps_add keeps_set keeps_remove keeps_remove_all : keeps.

Lemma keeps_add_boxed w l x : (forall c, kept (x c)) -> kept (add_boxed w l x).
Proof. intros Hx. unfold add_boxed. keeps_steps. Qed.
Lemma keeps_set_if_different w l i x : (forall c, kept (x c)) -> kept (set_if_different w l i x).
Proof.
  intros Hx. unfold set_if_different. keeps_steps.
  - apply (keeps_set w l i (a_link _)).
  - apply (keeps_set w l i (a_value _)).
Qed.
#[local] Hint Resolve keeps_add_boxed keeps_set_if_different : keeps.

Lemma keeps_assign w l same xs diff : (forall x c, x ∈ default [] xs -> kept (x c)) -> kept (assign w l same xs diff).
Proof.
  intros Hx. unfold assign. destruct same; [apply keeps_ret|]. destruct xs as [xs|]; [|auto with keeps]. cbn in Hx.
  assert (forall n i, kept (remove_rest w l i n)) as Hrest.
  { induction n as [|n IH]; intros i; cbn; keeps_steps. }
  destruct diff.
  - apply keeps_bind; [auto with keeps|]. intros sz. apply keeps_bind; [|intros index; apply Hrest]. generalize 0.
    induction xs as [|x xs IH]; intros i; cbn; [apply keeps_ret|]. apply keeps_bind; [|intros _; apply IH; intros y c Hy; apply Hx; by right].
    assert (forall c, kept (x c)) by (intros c; apply Hx; by left). destruct (i <? sz); auto with keeps.
  - apply keeps_bind; [auto with keeps|]. intros _. induction xs as [|x xs IH]; cbn; [apply keeps_ret|].
    apply keeps_bind; [|intros _; apply IH; intros y c Hy; apply Hx; by right].
    apply keeps_add_boxed. intros c. apply Hx. by left.
Qed.

(** *** Objects *)
(** What a creator must keep *)
Definition keeping (create : Creator) : Prop := forall o v a b c, o ∈ access_schema env -> kept (create o v a b c).

Lemma find_object_in n o : find_object (access_schema env) n = Some o -> o ∈ access_schema env.
Proof. apply list_elem_of_lookup_2. Qed.

Lemma keeps_unbox_row create target v a b c : keeping create -> kept (unbox_row env create target v a b c).
Proof.
  intros Hc. unfold unbox_row. destruct v; try apply keeps_ret.
  all: destruct (find_object _ _) as [o|] eqn:E; [|apply keeps_fails]; keeps_steps; apply Hc; by eapply find_object_in.
Qed.
Lemma keeps_sources create p a v x c : keeping create -> x ∈ default [] (element_sources env create p a v) -> kept (x c).
Proof.
  intros Hc. unfold element_sources. destruct v; cbn; rewrite ?list_elem_of_singleton, ?elem_of_nil; try (by intros []); try (intros ->; by apply pure_keeps, pure_throw).
  intros (y & -> & _)%list_elem_of_fmap. unfold element_source. destruct (pt_eqb _ _).
  - keeps_steps. by apply keeps_unbox_row.
  - keeps_steps. unfold unbox_element. destruct y; try destruct (is_nullable _); try apply keeps_ret; apply pure_keeps, unbox_pure.
Qed.

Context (o : ObjectSchema) (Ho : o ∈ access_schema env).
Definition other_column (c : Z) : Prop := forall p, primary_key_property o = Some p -> c <> table_column p.

(** A program that changes a cell of this type that is in no key *)
Lemma keeps_put (x : core_group -> option core_group) c r : other_column c ->
  (forall g g', x g = Some g' -> changes g g' (os_name o) c r) -> kept (g ← get; put (x g)).
Proof. intros Hc Hx. apply keeps_get_then. intros g Hg. apply ends_put; [done|]. intros g' E. by eapply kept_change; [..|by eapply Hx|]. Qed.

Lemma keeps_write create row p v a b d : keeping create -> other_column (table_column p) ->
  kept (set_property_value_impl env create o row p v a b d).
Proof.
  intros Hc Hp. unfold set_property_value_impl. destruct (is_nullable _ && is_null v).
  { unfold set_null_value. apply keeps_get_then. intros g Hg. destruct (negb b || _); [|done]. cbn [when]. destruct (pt_eqb _ _).
    - destruct (negb d); [|done]. cbn. eapply kept_change; [done|done|done|apply link_nullified|done].
    - apply ends_put; [done|]. intros g' E. by eapply kept_change; [..|by eapply null_set|]. }
  destruct (is_array _).
  { destruct (pt_eqb _ _); [by apply pure_keeps, pure_throw|]. apply keeps_assign. intros x c Hx. by eapply keeps_sources. }
  destruct (pt_eqb (prop_type p) PT_Object).
  { unfold set_link_value. apply keeps_bind; [apply keeps_get|]. intros g1. apply keeps_bind; [by apply keeps_unbox_row|]. intros link.
    apply keeps_get_then. intros g Hg. destruct (negb b || _); [|done]. cbn [when]. apply ends_put; [done|]. intros g' E.
    by eapply kept_change; [..|by eapply link_set|]. }
  destruct (pt_eqb _ _); [by apply pure_keeps, pure_throw|]. destruct (pt_eqb _ _); [apply keeps_fails|].
  unfold do_update_value. apply keeps_bind; [apply pure_keeps, unbox_pure|]. intros x. apply keeps_get_then. intros g Hg.
  destruct (negb b || _); [|done]. cbn [when]. apply ends_put; [done|]. intros g' E. by eapply kept_change; [..|by eapply cell_set|].
Qed.

(** The row an object type's key leads to *)
Definition keyed_row value row g : Prop := forall p, primary_key_property o = Some p ->
  in_type g (os_name o) row /\
  exists v key, primary_value env o p value g = returns v g /\ search_key p v g = returns key g /\
    cell g (os_name o) (table_column p) row = key.

Lemma ends_new_row make g (Q : Z -> core_group -> Prop) R : (forall g', make g = Some g' -> Q (type_rows g (os_name o)) g') ->
  ends (E:=ListError) True (new_row (os_name o) make) g Q R.
Proof. intros Hm. unfold ends, new_row, mbind, Prog_bind. cbn [get]. destruct (make g) as [g'|]; [by apply Hm|done]. Qed.

Lemma find_or_create_kept value a b c g : in_migration env = false -> I g ->
  ends True (find_or_create env o value a b c) g (fun t g' => I g' /\ skip_primary t = true /\ keyed_row value (target_row t) g') (fun _ => I).
Proof.
  intros Hm Hg. pose proof (proj1 Hg o Ho) as Hht. unfold find_or_create. destruct (primary_key_property o) as [p|] eqn:Ep.
  - apply pure_ends; [apply primary_value_pure|done|]. intros v Ev. unfold get_for_primary_key_impl.
    apply ends_bind. apply pure_ends; [apply search_key_pure|done|]. intros key Ek. apply ends_asks.
    pose proof (found_first g (os_name o) (table_column p) key Hht) as Hf.
    assert (forall g', primary_value env o p value g' = returns v g' /\ search_key p v g' = returns key g') as Hkey.
    { intros g'. split; [by eapply pure_again, Ev; apply primary_value_pure|by eapply pure_again, Ek; apply search_key_pure]. }
    destruct (_ =? npos) eqn:En; [|destruct (negb a) eqn:Ea; [rewrite Hm; by apply ends_raise|]].
    + apply Z.eqb_eq in En. destruct Hf as [[_ Hf]|[Hr _]]; [|pose proof (rows_bound g (os_name o)); rewrite En in Hr; unfold in_type in Hr; lia].
      unfold create_with_key. apply ends_bind. destruct (key_searched p v g key Ek) as [Ek'|Ek'].
      2: { apply ends_bind. unfold ends. by rewrite Ek'. }
      apply ends_bind. unfold ends at 1. rewrite Ek'. apply ends_new_row. intros g' E.
      apply created_object in E as [Ha Hc]. apply ends_ret. split; [|split; [done|]].
      * eapply kept_add; [done|done|done| |done]. intros p'. rewrite Ep. intros [= <-] i Hi. rewrite Hc. by apply Hf.
      * intros p'. rewrite Ep. intros [= <-]. split; [|by exists v, key; destruct (Hkey g')].
        destruct Ha as (_ & Hn & _). pose proof (rows_bound g (os_name o)). unfold in_type. cbn. lia.
    + apply ends_ret. split; [done|]. split; [done|]. intros p'. rewrite Ep. intros [= <-]. cbn.
      apply Z.eqb_neq in En. destruct Hf as [[? _]|[Hr Hc]]; [done|]. split; [done|]. exists v, key. by destruct (Hkey g).
  - destruct (b && negb (c =? npos)).
    + apply ends_ret. split; [done|]. split; [done|]. intros p. by rewrite Ep.
    + apply ends_bind, ends_new_row. intros g' E. apply ends_ret. split; [|split; [done|intros p; by rewrite Ep]].
      eapply kept_add; [done|done|by apply added_object| |done]. intros p. by rewrite Ep.
Qed.

Lemma keeps_populate create v t a b ps : keeping create -> skip_primary t = true -> ps ⊆ persisted_properties o ->
  kept (populate env create o v t a b ps).
Proof.
  intros Hc Ht. induction ps as [|p ps IH]; intros Hps; cbn [populate]; [apply keeps_ret|].
  apply keeps_bind; [|intros _; apply IH; intros q Hq; apply Hps; by right].
  unfold populate_property. rewrite Ht. cbn. destruct (is_primary p) eqn:Ep; [apply keeps_ret|].
  apply keeps_bind; [apply pure_keeps, value_for_property_pure|]. intros given. destruct (negb _ && _); [apply keeps_ret|].
  apply keeps_bind; [destruct (_ && _); [by apply pure_keeps, pure_throw|apply keeps_ret]|]. intros _.
  destruct given; [|destruct (default_value_for_property _ _ _); [|apply keeps_ret]]; (apply keeps_write; [done|]).
  all: intros q Hq; apply (own_column env HS o q p); [by split|apply elem_of_app; left; apply Hps; by left|done].
Qed.
End keeping.

(** ** Primary keys: the theorems *)
Section primary_keys.
Context `{HC : Core} {HLC : ListCore} {HOC : ObjectCore} `{CharSign} {HL : ObjectLaws}.
Implicit Types (g : core_group) (o : ObjectSchema) (p : Property) (env : AccessEnv).

Lemma keeps_verify_in_write env (I : core_group -> Prop) : keeps I I (verify_in_write env).
Proof. unfold verify_in_write. destruct (access_writing env); [apply keeps_ret|by apply keeps_raise]. Qed.

Lemma keyed_row_kept env g g' o value row : o ∈ access_schema env -> keys_extended env g g' ->
  keyed_row env o value row g -> keyed_row env o value row g'.
Proof.
  intros Ho [He Hk] Hrow p Hp. destruct (Hrow p Hp) as (Hr & v & key & Ev & Ek & Hc). split.
  - specialize (He (os_name o)). unfold in_type in *. lia.
  - exists v, key. split; [by eapply pure_again, Ev; apply primary_value_pure|]. split; [by eapply pure_again, Ek; apply search_key_pure|].
    rewrite Hk; [done|by split|done].
Qed.

Lemma create_object_kept env create g0 g o value a b c : SchemaOk env -> in_migration env = false -> o ∈ access_schema env ->
  (forall g1, keeping env g1 create) -> keys_kept env g0 g ->
  ends True (create_object env create o value a b c) g (fun row g' => keys_kept env g0 g' /\ keyed_row env o value row g') (fun _ => keys_kept env g0).
Proof.
  intros HS Hm Ho Hc Hg. unfold create_object. apply ends_bind. eapply ends_mono; [by apply keeps_verify_in_write| |done]. intros [] g1 Hg1.
  apply ends_bind. eapply ends_mono; [by apply find_or_create_kept| |done]. intros t g2 (Hg2 & Ht & Hrow). apply ends_bind.
  assert (keys_kept env g2 g2) as H2 by (apply kept_refl; apply Hg2).
  pose proof (keeps_populate env HS g0 o Ho create value t a b (persisted_properties o) (Hc g0) Ht (reflexivity _) g2 Hg2) as K0.
  pose proof (keeps_populate env HS g2 o Ho create value t a b (persisted_properties o) (Hc g2) Ht (reflexivity _) g2 H2) as K2.
  eapply ends_mono; [exact (ends_and _ _ _ _ _ _ _ K0 K2)| |by intros e g' [K _]]. intros [] g' [K (_ & _ & He)]. apply ends_ret.
  split; [done|]. by eapply keyed_row_kept.
Qed.

Lemma create_kept env fuel g0 : SchemaOk env -> in_migration env = false -> keeping env g0 (create fuel env).
Proof.
  intros HS Hm. revert g0. induction fuel as [|fuel IH]; intros g0 o v a b c Ho g Hg; [done|]. cbn [create].
  eapply ends_mono; [by apply (create_object_kept env (create fuel env) g0 g)| |done]. by intros row g' [K _].
Qed.

Lemma named_property_in o n p g g' : named_property o n g = returns p g' -> p ∈ persisted_properties o ++ computed_properties o /\ g' = g.
Proof.
  unfold named_property, property_for_name. intros E. destruct (List.find _ (persisted_properties o)) as [q|] eqn:E1.
  - injection E as -> <-. apply find_some in E1 as [E1 _]. split; [|done]. apply elem_of_app. left. by apply list_elem_of_In.
  - destruct (List.find _ (computed_properties o)) as [q|] eqn:E2; [|done].
    injection E as -> <-. apply find_some in E2 as [E2 _]. split; [|done]. apply elem_of_app. right. by apply list_elem_of_In.
Qed.

(** What a binding does to objects *)
Inductive Access :=
| do_create (o : ObjectSchema) (value : Any) (try_update update_only_diff : bool) (current_row : Z)
| do_set (o : ObjectSchema) (row : Z) (name : string) (value : Any) (try_update : bool).

Definition access (fuel : nat) env (x : Access) : Prog core_group ListError () :=
  match x with
  | do_create o v a b c => create fuel env o v a b c;; mret ()
  | do_set o row n v a => set_property_value fuel env o row n v a
  end.
Definition accessed_type (x : Access) : ObjectSchema := match x with do_create o _ _ _ _ | do_set o _ _ _ _ => o end.

(** C9: outside a migration primary keys stay unique in every object type and no object
    that exists loses or changes its key, whatever values, nested objects, lists and
    updates an object is created or a property set from, also when the
    access throws half-way and leaves part of it in the transaction. *)
Theorem primary_keys_kept env fuel g x : SchemaOk env -> in_migration env = false -> accessed_type x ∈ access_schema env ->
  tables_exist env g -> distinct_keys env g ->
  ends True (access fuel env x) g (fun _ => keys_kept env g) (fun _ => keys_kept env g).
Proof.
  intros HS Hm Ho Ht Hd. pose proof (kept_refl env g Ht Hd) as Hg. destruct x as [o v a b c|o row n v a]; cbn in *.
  - apply ends_bind. eapply ends_mono; [by apply create_kept|done|done].
  - unfold set_property_value. assert (keeps (keys_kept env g) (keys_kept env g) (verify_row o row)) as Hv.
    { unfold verify_row. apply keeps_get_then. intros g1 Hg1. by destruct (_ && _). }
    apply ends_bind. eapply ends_mono; [by apply Hv| |done]. intros [] g1 Hg1.
    apply ends_bind. eapply ends_mono; [by apply keeps_verify_in_write| |done]. intros [] g2 Hg2.
    unfold ends, mbind, Prog_bind. destruct (named_property o n g2) as [p g3|e g3|] eqn:E; [| |done].
    2: { unfold named_property in E. destruct (property_for_name o n); [done|]. by injection E as _ <-. }
    apply named_property_in in E as [Hp ->]. rewrite Hm. cbn. destruct (is_primary p) eqn:Epr; [done|]. cbn.
    apply (keeps_write env HS g o Ho (create fuel env) row p v a false false); [by apply create_kept| |done].
    intros q Hq. apply (own_column env HS o q p); [by split|done|done].
Qed.

(** C11: the object that [create] returns is the one that [get_for_primary_key] finds by
    the key that it was given or got by default, whether it was new or updated. *)
Theorem created_object_found env fuel o p value a b c g row g' v : SchemaOk env -> in_migration env = false -> keyed env o p ->
  tables_exist env g -> distinct_keys env g -> create fuel env o value a b c g = returns row g' ->
  primary_value env o p value g = returns v g -> get_for_primary_key o v g' = returns (Some row) g'.
Proof.
  intros HS Hm [Ho Hp] Ht Hd E Ev. destruct fuel as [|fuel]; [done|]. cbn [create] in E.
  pose proof (create_object_kept env (create fuel env) g g o value a b c HS Hm Ho (fun g1 => create_kept env fuel g1 HS Hm) (kept_refl env g Ht Hd)) as K.
  unfold ends in K. rewrite E in K. destruct K as [(Ht' & Hd' & _) Hrow]. destruct (Hrow p Hp) as (Hr & v' & key & Ev' & Ek & Hc).
  apply (pure_again _ g' _ _ g) in Ev'; [|apply primary_value_pure]. rewrite Ev in Ev'. injection Ev' as <-.
  unfold get_for_primary_key, get_for_primary_key_impl, mbind, Prog_bind. rewrite Hp. cbn [get]. rewrite (Ht' o Ho). cbn [negb].
  rewrite Ek. cbn [asks].
  destruct (found_first g' (os_name o) (table_column p) key (Ht' o Ho)) as [[_ Hnone]|[Hin Hfc]].
  - by destruct (Hnone row Hr).
  - assert (find_first g' (os_name o) (table_column p) key = row) as ->.
    { apply (Hd' o p); [by split|done|done|]. by rewrite Hfc, Hc. }
    pose proof (rows_bound g' (os_name o)). rewrite (proj2 (Z.eqb_neq _ _)); [done|]. unfold in_type in Hr. lia.
Qed.
End primary_keys.

(** ** What is written *)
Section writing.
Context `{HC : Core} {HLC : ListCore} {HOC : ObjectCore} `{CharSign} {HL : ObjectLaws} {HLL : ListLaws}.
Implicit Types (g : core_group) (o : ObjectSchema) (p : Property) (env : AccessEnv) (v : Any).

(** The bases of the types that are stored as values *)
Definition is_value_type (t : PropertyType) : bool :=
  negb (is_array t || pt_eqb t PT_Object || pt_eqb t PT_Any || pt_eqb t PT_LinkingObjects).

(** A value that a property accepts and that needs no new object: null where it is
    allowed, a value of its type, an object of the target. A link that is null by
    default is left as it is. *)
Definition storable g o p v (is_default : bool) : Prop :=
  match v with
  | any_null => is_nullable (prop_type p) = true /\
      if pt_eqb (prop_type p) PT_Object then is_default = false else column_nullable g (os_name o) (table_column p) = true
  | any_value x => is_value_type (prop_type p) = true /\ value_fits (pt_base (prop_type p)) x = true /\ x <> null_value
  | any_row _ (Some i) => is_array (prop_type p) = false /\ pt_eqb (prop_type p) PT_Object = true /\
      in_type g (column_target g (os_name o) (table_column p)) i
  | _ => False
  end.

(** The property of a row holds the value. When only differences are written, a null
    that reads as the value is left, since it is compared as [Table::get] reads it. *)
Definition holds g o p (row : Z) v (diff : bool) : Prop :=
  match v with
  | any_null => cell_is_null g (os_name o) (table_column p) row = true
  | any_value x => cell g (os_name o) (table_column p) row = x \/
      (diff = true /\ cell_is_null g (os_name o) (table_column p) row = true /\ cell_or_default g (os_name o) (table_column p) row = x)
  | any_row _ i => Some (link_cell g (os_name o) (table_column p) row) = i
  | _ => False
  end.

Lemma storable_same g g' o p v d : same_types g g' -> (forall n, type_rows g n <= type_rows g' n) -> storable g o p v d -> storable g' o p v d.
Proof.
  intros Hs Hr. destruct v as [|x|t [i|]|? ? ?|?|?]; try done; cbn; destruct (Hs (os_name o)) as [_ Hc], (Hc (table_column p)) as [En Et].
  - by rewrite En.
  - rewrite Et. specialize (Hr (column_target g (os_name o) (table_column p))). unfold in_type. intros (? & ? & ?). split; [done|]. split; [done|lia].
Qed.

Lemma holds_same g g' o p row v diff : stored g' (os_name o) (table_column p) row = stored g (os_name o) (table_column p) row ->
  holds g o p row v diff -> holds g' o p row v diff.
Proof. intros [= E1 E2 E3 E4]. destruct v; cbn; try done; by rewrite ?E1, ?E2, ?E3, ?E4. Qed.

(** The result of a write, and that what is not null does not read as null *)
Definition wrote g g' o p (row : Z) v (diff : bool) : Prop :=
  changes g g' (os_name o) (table_column p) row /\ holds g' o p row v diff /\
  (diff = false -> is_null v = false -> cell_is_null g' (os_name o) (table_column p) row = false).

Lemma wrote_null o row p b d g : in_type g (os_name o) row -> storable g o p any_null d ->
  exists g', set_null_value o row p b d g = returns () g' /\ wrote g g' o p row any_null b.
Proof.
  intros Hr [_ Hs]. unfold set_null_value, mbind, Prog_bind. cbn [get].
  destruct (negb b || _) eqn:Ew; cbn [when].
  2: { exists g. split; [done|]. split; [apply changes_same|]. split; [|done]. apply orb_false_iff in Ew as [_ Ew].
       by apply negb_false_iff in Ew. }
  destruct (pt_eqb (prop_type p) PT_Object).
  - rewrite Hs. cbn. destruct (link_nullified g (os_name o) (table_column p) row) as [Hc Hn]. eexists. split; [done|]. split; [done|]. split; [by apply Hn|done].
  - destruct (can_set_null g _ _ row d Hr Hs) as [g' E]. rewrite E. exists g'. split; [done|]. apply null_set in E as [Hc Hn]. by repeat split; try apply Hc.
Qed.

Lemma wrote_value n t x col row b d g : in_type g n row -> value_fits (pt_base t) x = true -> x <> null_value ->
  exists g', do_update_value n t (any_value x) col row b d g = returns () g' /\ changes g g' n col row /\
    (cell g' n col row = x \/ (b = true /\ cell_is_null g' n col row = true /\ cell_or_default g' n col row = x)) /\
    (b = false -> cell_is_null g' n col row = false).
Proof.
  intros Hr Hf Hx. unfold do_update_value, unbox, mbind, Prog_bind. rewrite Hf. cbn [mret Prog_ret get].
  destruct (negb b || _) eqn:Ew; cbn [when].
  - destruct (can_set g n col row x d Hr) as [g' E]; [done|]. rewrite E. exists g'. split; [done|]. apply cell_set in E as [Hc Hv].
    split; [done|]. split; [by left|]. intros _. destruct (cell_is_null g' n col row) eqn:En; [|done].
    apply null_cell in En. congruence.
  - exists g. split; [done|]. split; [apply changes_same|]. apply orb_false_iff in Ew as [Eb Ew]. apply negb_false_iff in Eb as ->.
    apply negb_false_iff, same_value_eq in Ew. split; [|done]. destruct (cell_is_null g n col row) eqn:En; [by right|left].
    by rewrite <- read_cell.
Qed.

Lemma wrote_link env create o row p t i a b d g : in_type g (os_name o) row ->
  in_type g (column_target g (os_name o) (table_column p)) i ->
  exists g', set_link_value env create o row p (any_row t (Some i)) a b d g = returns () g' /\ wrote g g' o p row (any_row t (Some i)) b.
Proof.
  intros Hr Hi. unfold set_link_value, mbind, Prog_bind. cbn [get unbox_row mret Prog_ret row_index default from_option].
  destruct (negb b || _) eqn:Ew; cbn [when].
  - destruct (can_link g _ (table_column p) row i d Hr Hi) as [g' E]. unfold id. rewrite E. exists g'. split; [done|].
    apply link_set in E as [Hc Hl]. destruct (Hl Hi) as [El En]. split; [done|]. split; [cbn; by rewrite El|done].
  - exists g. split; [done|]. split; [apply changes_same|]. apply orb_false_iff in Ew as [Eb Ew]. apply negb_false_iff in Ew.
    split; [cbn; f_equal; unfold id in *; lia|]. by destruct b.
Qed.

Lemma write_spec env create o row p v a b d g : in_type g (os_name o) row -> storable g o p v d ->
  exists g', set_property_value_impl env create o row p v a b d g = returns () g' /\ wrote g g' o p row v b.
Proof.
  intros Hr Hs. unfold set_property_value_impl. destruct v as [|x|t [i|]|? ? ?|?|?]; try done; cbn [is_null]; rewrite ?andb_false_r.
  - rewrite (proj1 Hs). by apply wrote_null.
  - destruct Hs as (Ht & Hf & Hx). unfold is_value_type in Ht. apply negb_true_iff in Ht.
    apply orb_false_iff in Ht as [Ht ->]. apply orb_false_iff in Ht as [Ht ->]. apply orb_false_iff in Ht as [-> ->].
    destruct (wrote_value (os_name o) (prop_type p) x (table_column p) row b d g Hr Hf Hx) as (g' & E & Hc & Hv & Hn).
    exists g'. split; [done|]. split; [done|]. split; [done|]. auto.
  - destruct Hs as (-> & -> & Hi). by apply wrote_link.
Qed.

Lemma return_then {A B} (m : Prog core_group ListError A) (f : A -> Prog core_group ListError B) g a g' :
  m g = returns a g' -> (m ≫= f) g = f a g'.
Proof. apply list_returns. Qed.

Lemma in_type_verified o row g : in_type g (os_name o) row -> verify_row o row g = returns () g.
Proof.
  intros [H0 H1]. unfold verify_row, mbind, Prog_bind. cbn [get]. by rewrite (proj2 (Z.leb_le _ _)), (proj2 (Z.ltb_lt _ _)) by done.
Qed.

Lemma changes_in_type g g' n c r n' r' : changes g g' n c r -> in_type g n' r' -> in_type g' n' r'.
Proof. intros (_ & Hr & _). unfold in_type. by rewrite Hr. Qed.

(** A link is to an object of the type the property links to. *)
Definition links_target p v : Prop := match v with any_row type _ => type = object_type p | _ => True end.

Lemma holds_read env o row name p v g g' : property_for_name o name = Some p -> in_type g (os_name o) row -> storable g o p v false ->
  links_target p v -> wrote g g' o p row v false -> get_property_value env o row name g' = returns (read_any v) g'.
Proof.
  intros Hp Hr Hs Hlt (Hc & Hh & Hn). unfold get_property_value. rewrite (return_then _ _ g' p g') by (unfold named_property; by rewrite Hp).
  rewrite (return_then _ _ g' () g') by (eapply in_type_verified, changes_in_type; eauto).
  unfold mbind, Prog_bind. cbn [get]. destruct v as [|x|t [i|]|? ? ?|?|?]; try done; cbn in Hh.
  - by rewrite (proj1 Hs), Hh.
  - rewrite Hn by done. rewrite andb_false_r. destruct Hs as (Ht & _ & _). unfold is_value_type in Ht. apply negb_true_iff in Ht.
    apply orb_false_iff in Ht as [Ht ->]. apply orb_false_iff in Ht as [Ht _]. apply orb_false_iff in Ht as [-> ->]. cbn.
    rewrite read_cell by (by apply Hn). by destruct Hh as [->|[? _]].
  - rewrite Hn by done. rewrite andb_false_r. destruct Hs as (-> & -> & _). cbn in *. by rewrite Hh, Hlt.
Qed.

(** C12: a property that is set to null, a value of its type or an object of the type it
    links to reads as just that afterwards, and no other cell of the Realm has
    changed. Lists and dictionaries are not such values ([storable]); a row of
    another type would be read as the object of the linked type with its index
    ([other_type_linked]). *)
Theorem property_round_trip env fuel o row name p v a g : access_writing env = true -> property_for_name o name = Some p ->
  is_primary p = false \/ in_migration env = true -> in_type g (os_name o) row -> storable g o p v false -> links_target p v ->
  exists g', set_property_value fuel env o row name v a g = returns () g' /\
    get_property_value env o row name g' = returns (read_any v) g' /\ changes g g' (os_name o) (table_column p) row.
Proof.
  intros Hw Hp Hpr Hr Hs Hlt. destruct (write_spec env (create fuel env) o row p v a false false g Hr Hs) as (g' & E & Hwr).
  exists g'. split; [|split; [by eapply holds_read|apply Hwr]]. unfold set_property_value.
  rewrite (return_then _ _ g () g) by (by apply in_type_verified).
  rewrite (return_then _ _ g () g) by (unfold verify_in_write; by rewrite Hw).
  rewrite (return_then _ _ g p g) by (unfold named_property; by rewrite Hp).
  by destruct Hpr as [-> | ->]; rewrite ?andb_false_r.
Qed.

(** ** Creating from a dictionary *)
Definition given (fields : list (string * Any)) p : option Any :=
  snd <$> List.find (fun x => string_eqb (fst x) (prop_name p)) fields.

(** Every property that is written has a storable value, and a new object lacks none. *)
Definition ready_for env g o fields (is_new : bool) p : Prop :=
  match given fields p with
  | Some v => storable g o p v false
  | None =>
    is_new = true ->
    match default_value_for_property env o p with
    | Some v => storable g o p v true
    | None => is_nullable (prop_type p) || is_array (prop_type p) || allow_missing env (any_dict fields) = true
    end
  end.

(** What a property holds afterwards: what was given, for a new object the default, for
    an old one what it held *)
Definition populated env g g' o fields (diff is_new : bool) (row : Z) p : Prop :=
  match given fields p, default_value_for_property env o p, is_new with
  | Some v, _, _ | None, Some v, true => holds g' o p row v diff
  | None, None, true => True
  | None, _, false => stored g' (os_name o) (table_column p) row = stored g (os_name o) (table_column p) row
  end.

(** Only these cells of the row change. *)
Definition row_changes g g' n row (columns : list Z) : Prop :=
  same_types g g' /\ (forall n', type_rows g' n' = type_rows g n') /\
  forall n' c r, ~ (n' = n /\ r = row /\ c ∈ columns) -> stored g' n' c r = stored g n' c r.

Lemma row_changes_refl g n row cs : row_changes g g n row cs.
Proof. split; [apply same_types_refl|done]. Qed.
Lemma row_changes_cons g g' g'' n row c cs : changes g g' n c row -> row_changes g' g'' n row cs -> row_changes g g'' n row (c :: cs).
Proof.
  intros (Ht & Hr & Hs) (Ht' & Hr' & Hs'). split; [by eapply same_types_trans|]. split; [intros n'; by rewrite Hr', Hr|].
  intros n' c' r' Hne. rewrite Hs', Hs; [done| |].
  - intros [= -> -> ->]. apply Hne. split; [done|]. split; [done|]. by left.
  - intros (-> & -> & Hc). apply Hne. split; [done|]. split; [done|]. by right.
Qed.
Lemma row_changes_more g g' n row cs cs' : (forall c, c ∈ cs -> c ∈ cs') -> row_changes g g' n row cs -> row_changes g g' n row cs'.
Proof. intros Hcs (Ht & Hr & Hs). split; [done|]. split; [done|]. intros n' c r Hne. apply Hs. intros (-> & -> & Hc). auto. Qed.

Lemma ready_same env g g' o fields is_new p : same_types g g' -> (forall n, type_rows g n <= type_rows g' n) ->
  ready_for env g o fields is_new p -> ready_for env g' o fields is_new p.
Proof.
  intros Hs Hr. unfold ready_for. destruct (given fields p); [by apply storable_same|].
  destruct (default_value_for_property env o p); [|done]. intros Hd Hn. eapply storable_same; eauto.
Qed.

Lemma populate_property_spec env create o fields t a b p g : is_primary p = false -> in_type g (os_name o) (target_row t) ->
  ready_for env g o fields (created t) p ->
  exists g', populate_property env create o (any_dict fields) t a b p g = returns () g' /\
    changes g g' (os_name o) (table_column p) (target_row t) /\ populated env g g' o fields b (created t) (target_row t) p.
Proof.
  intros Hp Hr Hready. unfold populate_property. rewrite Hp, andb_false_r. unfold ready_for, populated in *.
  rewrite (return_then _ _ g (given fields p) g) by done.
  assert (forall v d, storable g o p v d -> is_null v && negb (is_nullable (prop_type p)) = false) as Hnull.
  { intros [] d Hs; cbn; try done. by rewrite (proj1 Hs). }
  destruct (given fields p) as [v|].
  - rewrite andb_false_r, (Hnull v false Hready). cbn [andb]. destruct (write_spec env create o _ p v a b false g Hr Hready) as (g' & E & Hc & Hh & _).
    exists g'. by rewrite (return_then _ _ g () g).
  - destruct (created t) eqn:Et; cbn [negb andb].
    2: { exists g. split; [done|]. split; [apply changes_same|]. by destruct (default_value_for_property env o p). }
    specialize (Hready eq_refl). destruct (default_value_for_property env o p) as [v|].
    + rewrite (Hnull v true Hready). cbn [andb].
      destruct (write_spec env create o _ p v a b true g Hr Hready) as (g' & E & Hc & Hh & _). exists g'. by rewrite (return_then _ _ g () g).
    + exists g. split; [|split; [apply changes_same|done]].
      by destruct (is_nullable _), (is_array _), (allow_missing _ _).
Qed.

Definition written_columns (ps : list Property) : list Z := table_column <$> List.filter (fun p => negb (is_primary p)) ps.

Lemma populate_spec env create o fields t a b ps : forall g, skip_primary t = true -> in_type g (os_name o) (target_row t) ->
  NoDup (table_column <$> ps) -> (forall p, p ∈ ps -> is_primary p = false -> ready_for env g o fields (created t) p) ->
  exists g', populate env create o (any_dict fields) t a b ps g = returns () g' /\
    row_changes g g' (os_name o) (target_row t) (written_columns ps) /\
    forall p, p ∈ ps -> is_primary p = false -> populated env g g' o fields b (created t) (target_row t) p.
Proof.
  induction ps as [|p ps IH]; intros g Ht Hr Hnd Hready.
  { exists g. split; [done|]. split; [apply row_changes_refl|]. by intros p Hp%elem_of_nil. }
  cbn in Hnd. apply NoDup_cons in Hnd as [Hp Hnd]. cbn [populate]. destruct (is_primary p) eqn:Epr.
  { unfold populate_property. rewrite Ht, Epr. cbn [andb]. rewrite (return_then _ _ g () g) by done.
    destruct (IH g Ht Hr Hnd) as (g' & E & Hc & Hh). { intros q Hq. apply Hready. by right. }
    exists g'. split; [done|]. split; [by unfold written_columns; cbn; rewrite Epr|].
    intros q [->|Hq]%elem_of_cons Hqp; [congruence|]. by apply Hh. }
  destruct (populate_property_spec env create o fields t a b p g) as (g1 & E1 & Hc1 & Hh1); [done|done|by apply Hready; [left|]|].
  rewrite (return_then _ _ _ _ _ E1).
  destruct (IH g1 Ht) as (g' & E & Hc & Hh); [by eapply changes_in_type|done| |].
  { intros q Hq Hqp. eapply ready_same; [apply Hc1|intros n; by rewrite (proj1 (proj2 Hc1))|]. apply Hready; [by right|done]. }
  assert (forall q, q ∈ p :: ps -> table_column q ∉ written_columns ps -> populated env g g1 o fields b (created t) (target_row t) q ->
    populated env g g' o fields b (created t) (target_row t) q) as Hlater.
  { intros q _ Hq. assert (stored g' (os_name o) (table_column q) (target_row t) = stored g1 (os_name o) (table_column q) (target_row t)) as Es
      by (apply Hc; by intros (_ & _ & ?)).
    unfold populated. destruct (given fields q), (default_value_for_property env o q), (created t); try (by apply holds_same); try done; by rewrite Es. }
  exists g'. split; [done|]. split.
  - unfold written_columns. cbn. rewrite Epr. cbn. by eapply row_changes_cons.
  - intros q [->|Hq]%elem_of_cons Hqp.
    + apply Hlater; [by left| |done]. unfold written_columns. intros (q' & Eq & Hq')%list_elem_of_fmap.
      apply list_elem_of_In, filter_In in Hq' as [Hq' _]. apply Hp. rewrite Eq. apply list_elem_of_fmap_2. by apply list_elem_of_In.
    + specialize (Hh q Hq Hqp). assert (stored g1 (os_name o) (table_column q) (target_row t) = stored g (os_name o) (table_column q) (target_row t)) as Es.
      { apply Hc1. intros [= Eq]. apply Hp. rewrite <- Eq. by apply list_elem_of_fmap_2. }
      unfold populated in *. destruct (given fields q), (default_value_for_property env o q), (created t); try done; by rewrite <- Es.
Qed.

(** The object that is updated: the one with the key, or the current one *)
Definition existing_row env g o fields (update_only_diff : bool) (current_row : Z) : option Z :=
  match primary_key_property o with
  | Some p =>
    match (key ← primary_value env o p (any_dict fields); get_for_primary_key_impl (os_name o) p key) g with
    | returns row _ => if row =? npos then None else Some row
    | _ => None
    end
  | None => if update_only_diff && negb (current_row =? npos) then Some current_row else None
  end.
Abbreviation is_new env g o fields b c := (bool_decide (existing_row env g o fields b c = None)).

(** A key of a type that a primary key can have, which may be there already when objects
    are updated *)
Definition key_ready env g o fields (try_update : bool) : Prop :=
  forall p, primary_key_property o = Some p -> exists v key,
    primary_value env o p (any_dict fields) g = returns v g /\ search_key p v g = returns key g /\
    pt_eqb (prop_type p) PT_Int || pt_eqb (prop_type p) PT_String = true /\
    (find_first g (os_name o) (table_column p) key = npos \/ try_update = true).

Lemma key_of_returns p v g key : search_key p v g = returns key g -> pt_eqb (prop_type p) PT_Int || pt_eqb (prop_type p) PT_String = true ->
  key_of p v g = returns key g.
Proof.
  intros Ek Ht. destruct (key_searched p v g key Ek) as [E|E]; [done|]. exfalso. unfold key_of in E.
  destruct (pt_eqb _ PT_Int).
  - destruct v; cbn in E; try done. unfold unbox in E. by destruct (value_fits _ _).
  - cbn in Ht. rewrite Ht in E. destruct v; cbn in E; try done. by destruct (value_fits _ _).
Qed.

(** The row to fill, in the state it is in then *)
Lemma target_spec env g o fields a b c : has_table g (os_name o) = true -> type_rows g (os_name o) + 1 < npos -> key_ready env g o fields a ->
  exists t g1, find_or_create env o (any_dict fields) a b c g = returns t g1 /\ skip_primary t = true /\
    created t = is_new env g o fields b c /\ target_row t = default (type_rows g (os_name o)) (existing_row env g o fields b c) /\
    if created t then adds g g1 (os_name o) else g1 = g.
Proof.
  intros Ht Hroom Hk. unfold find_or_create, existing_row, key_ready in *. destruct (primary_key_property o) as [p|] eqn:Ep.
  - destruct (Hk p eq_refl) as (v & key & Ev & Ek & Htype & Hfind). unfold get_for_primary_key_impl.
    rewrite !(return_then _ _ _ _ _ Ev). unfold mbind, Prog_bind. rewrite Ek. cbn [asks].
    destruct (_ =? npos) eqn:En; cbn.
    + destruct (can_create g (os_name o) (table_column p) key Ht Hroom) as [g1 E1].
      unfold create_with_key, new_row, mbind, Prog_bind. rewrite (key_of_returns p v g key Ek Htype). cbn [get]. rewrite E1. cbn.
      eexists _, _. split; [done|]. do 3 (split; [done|]). cbn. by apply (created_object g _ (table_column p) key).
    + destruct Hfind as [Hf| ->]; [rewrite Hf in En; done|]. cbn. by eexists _, _.
  - destruct (b && negb (c =? npos)); cbn.
    + by eexists _, _.
    + destruct (can_add g (os_name o) Ht Hroom) as [g1 E1]. unfold new_row, mbind, Prog_bind. cbn [get]. rewrite E1. cbn.
      eexists _, _. split; [done|]. do 3 (split; [done|]). cbn. by apply added_object.
Qed.

Lemma existing_in_type env g o fields a b c r : has_table g (os_name o) = true -> key_ready env g o fields a ->
  (primary_key_property o = None -> b = true -> c <> npos -> in_type g (os_name o) c) ->
  existing_row env g o fields b c = Some r -> in_type g (os_name o) r.
Proof.
  intros Ht Hk Hcur. unfold existing_row, key_ready in *. destruct (primary_key_property o) as [p|].
  - destruct (Hk p eq_refl) as (v & key & Ev & Ek & _). rewrite (return_then _ _ _ _ _ Ev). unfold get_for_primary_key_impl.
    rewrite (return_then _ _ _ _ _ Ek). cbn. destruct (_ =? npos) eqn:En; [done|]. intros [= <-]. apply Z.eqb_neq in En.
    by destruct (found_first g (os_name o) (table_column p) key Ht) as [[? _]|[? _]].
  - destruct (b && _) eqn:Eb; [|done]. intros [= <-]. apply andb_true_iff in Eb as [-> Ec]. apply Hcur; [done|done|]. by intros ->.
Qed.

(** C10: creating an object from a dictionary of nulls, plain values and existing objects
    (no nested dictionaries or lists, [storable]) returns the row of the object that has the key
    (or the current one when only differences are written), and a new row at the
    end of its table when there is none; every property then holds what was given,
    else a new object the default and an old one what it held; and nothing else in
    the Realm changes. When only differences are written, a null that reads as the
    given value counts as holding it ([holds]; [null_is_left]). *)
Theorem create_writes env fuel o fields a b c g : access_writing env = true -> has_table g (os_name o) = true ->
  type_rows g (os_name o) + 1 < npos -> NoDup (table_column <$> persisted_properties o) -> key_ready env g o fields a ->
  (primary_key_property o = None -> b = true -> c <> npos -> in_type g (os_name o) c) ->
  (forall p, p ∈ persisted_properties o -> is_primary p = false -> ready_for env g o fields (is_new env g o fields b c) p) ->
  let row := default (type_rows g (os_name o)) (existing_row env g o fields b c) in
  exists g', create (S fuel) env o (any_dict fields) a b c g = returns row g' /\
    (forall p, p ∈ persisted_properties o -> is_primary p = false -> populated env g g' o fields b (is_new env g o fields b c) row p) /\
    (forall n, type_rows g' n = type_rows g n + Z.b2z (is_new env g o fields b c && bool_decide (n = os_name o))) /\
    (forall n col r, in_type g n r -> ~ (n = os_name o /\ r = row /\ col ∈ written_columns (persisted_properties o)) ->
       stored g' n col r = stored g n col r).
Proof.
  intros Hw Ht Hroom Hnd Hk Hcur Hready row. destruct (target_spec env g o fields a b c Ht Hroom Hk) as (t & g1 & E1 & Hs & Hnew & Hrow & Hg1).
  fold row in Hrow. rewrite <- Hnew in *.
  assert (same_types g g1 /\ (forall n, type_rows g1 n = type_rows g n + Z.b2z (created t && bool_decide (n = os_name o))) /\
    forall n col r, in_type g n r -> stored g1 n col r = stored g n col r) as (Hty & Hrows & Hold).
  { destruct (created t); [|subst g1; split; [apply same_types_refl|]; split; [intros n; cbn; lia|done]].
    destruct Hg1 as (Hty & Hn & Hn' & Hst). split; [done|]. split; [|done]. intros n.
    destruct (decide (n = os_name o)) as [->|Hne]; [by rewrite bool_decide_true|]. rewrite bool_decide_false, Hn' by done. cbn. lia. }
  assert (in_type g1 (os_name o) (target_row t)) as Hin.
  { pose proof (rows_bound g (os_name o)). pose proof (Hrows (os_name o)) as Hr. rewrite bool_decide_true, andb_true_r in Hr by done.
    unfold in_type. rewrite Hr, Hrow. unfold row. destruct (existing_row env g o fields b c) as [r|] eqn:Eo; cbn.
    - rewrite Hnew. cbn. pose proof (existing_in_type env g o fields a b c r Ht Hk Hcur Eo). unfold in_type in *. lia.
    - rewrite Hnew. cbn. lia. }
  destruct (populate_spec env (create fuel env) o fields t a b (persisted_properties o) g1 Hs Hin Hnd) as (g' & E & (Hty' & Hr' & Hst') & Hpop).
  { intros p Hp Hpp. eapply ready_same; [done| |by apply Hready]. intros n. rewrite Hrows. destruct (_ && _); cbn; lia. }
  exists g'. split; [|split; [|split]].
  - cbn [create]. unfold create_object. rewrite (return_then _ _ g () g) by (unfold verify_in_write; by rewrite Hw).
    rewrite (return_then _ _ _ _ _ E1), (return_then _ _ _ _ _ E). by rewrite <- Hrow.
  - intros p Hp Hpp. specialize (Hpop p Hp Hpp). rewrite Hrow in Hpop. unfold populated in *.
    destruct (given fields p); [done|]. destruct (created t) eqn:Et; [done|]. subst g1. done.
  - intros n. by rewrite Hr', Hrows.
  - intros n col r Hr Hne. rewrite Hst', Hold; [done|done|]. by rewrite Hrow.
Qed.
End writing.

(** ** The fuel of nested objects *)
Section fuel.
Context `{HC : Core} {HLC : ListCore} {HOC : ObjectCore} `{CharSign}.
Implicit Types (g : core_group) (o : ObjectSchema) (p : Property) (env : AccessEnv) (v : Any).
Abbreviation P := (Prog core_group ListError).

(** How many dictionaries are nested in a value *)
Fixpoint nesting v : nat :=
  match v with
  | any_dict fields => S (foldr (fun x n => Nat.max (nesting (snd x)) n) 0 fields)%nat
  | any_vector xs => foldr (fun x n => Nat.max (nesting x) n) 0%nat xs
  | _ => 0%nat
  end.

Lemma nesting_field fields n v : (n, v) ∈ fields -> (nesting v < nesting (any_dict fields))%nat.
Proof.
  cbn [nesting]. induction fields as [|x fields IH]; intros Hin; [by apply elem_of_nil in Hin|]. cbn.
  apply elem_of_cons in Hin as [<-|Hin]; [cbn; lia|]. specialize (IH Hin). lia.
Qed.
Lemma nesting_element xs v : v ∈ xs -> (nesting v <= nesting (any_vector xs))%nat.
Proof.
  cbn [nesting]. induction xs as [|x xs IH]; intros Hin; [by apply elem_of_nil in Hin|]. cbn.
  apply elem_of_cons in Hin as [<-|Hin]; [lia|]. specialize (IH Hin). lia.
Qed.

Definition same {A} (m m' : P A) : Prop := forall g, m g = m' g.
Lemma same_bind {A B} (m m' : P A) (f f' : A -> P B) : same m m' -> (forall a, same (f a) (f' a)) -> same (m ≫= f) (m' ≫= f').
Proof. intros Hm Hf g. unfold mbind, Prog_bind. rewrite Hm. destruct (m' g); [apply Hf|done|done]. Qed.

(** Sources that do the same give the same list. *)
Definition same_sources (xs ys : list Source) : Prop := Forall2 (fun x y : Source => forall c, same (x c) (y c)) xs ys.

Lemma same_add_boxed w l (x y : Source) : (forall c, same (x c) (y c)) -> same (add_boxed w l x) (add_boxed w l y).
Proof. intros Hx. apply same_bind; [done|]. intros _. by apply same_bind. Qed.
Lemma same_set_if_different w l i (x y : Source) : (forall c, same (x c) (y c)) -> same (set_if_different w l i x) (set_if_different w l i y).
Proof.
  intros Hx. apply same_bind; [done|]. intros _. destruct (list_links l); (apply same_bind; [done|]; intros old; by apply same_bind).
Qed.

Lemma same_assign w l eq xs ys diff : option_relation same_sources (fun _ => False) (fun _ => False) xs ys ->
  same (assign w l eq xs diff) (assign w l eq ys diff).
Proof.
  unfold assign. destruct eq; [done|]. destruct xs as [xs|], ys as [ys|]; cbn; [|done|done|done]. intros Hall. destruct diff.
  - apply same_bind; [done|]. intros sz. apply same_bind; [|done]. generalize 0.
    induction Hall as [|x y xs ys Hx _ IH]; intros i; [done|]. cbn. apply same_bind; [|intros _; apply IH].
    destruct (i <? sz); [by apply same_set_if_different|by apply same_add_boxed].
  - apply same_bind; [done|]. intros _. induction Hall as [|x y xs ys Hx _ IH]; [done|]. cbn.
    apply same_bind; [by apply same_add_boxed|done].
Qed.

(** Two creators that do the same for values that are nested less than [k] deep *)
Definition agree (k : nat) (c c' : Creator) : Prop := forall o v a b row, (nesting v < k)%nat -> same (c o v a b row) (c' o v a b row).

Lemma agree_unbox env k c c' target v a b row : agree k c c' -> (nesting v < k)%nat ->
  same (unbox_row env c target v a b row) (unbox_row env c' target v a b row).
Proof.
  intros Hc Hv. unfold unbox_row. destruct v; try done; (destruct (find_object _ _); [|done]; apply same_bind; [by apply Hc|done]).
Qed.

Lemma agree_write env k c c' o row p v a b d : agree k c c' -> (nesting v < k)%nat ->
  same (set_property_value_impl env c o row p v a b d) (set_property_value_impl env c' o row p v a b d).
Proof.
  intros Hc Hv. unfold set_property_value_impl. destruct (is_nullable _ && _); [done|]. destruct (is_array _).
  - destruct (pt_eqb _ _); [done|]. apply same_assign. destruct v as [| | | | |xs]; cbn -[nesting]; try done; try (by repeat constructor).
    apply Forall2_fmap, Forall_Forall2_diag, Forall_forall. intros x Hx cur. unfold element_source.
    destruct (pt_eqb _ _); [|done]. apply same_bind; [|done]. apply (agree_unbox env k); [done|]. pose proof (nesting_element xs x Hx). lia.
  - destruct (pt_eqb _ _); [|done]. apply same_bind; [done|]. intros g. apply same_bind; [by apply (agree_unbox env k)|done].
Qed.

(** Only dictionaries have properties. *)
Lemma agree_populate env k c c' o v t a b ps : agree k c c' -> (nesting v <= k)%nat ->
  (forall o p d, default_value_for_property env o p = Some d -> nesting d = 0%nat) ->
  same (populate env c o v t a b ps) (populate env c' o v t a b ps).
Proof.
  intros Hc Hv Hdef. induction ps as [|p ps IH]; [done|]. cbn [populate]. apply same_bind; [|done].
  unfold populate_property. destruct (_ && is_primary p); [done|]. destruct v as [| | | |fields|]; try done. cbn [value_for_property].
  intros g. unfold mbind at 1 3, Prog_bind. cbn [mret Prog_ret].
  destruct (List.find _ fields) as [[n v]|] eqn:Ef; cbn [fmap option_fmap option_map snd].
  - revert g. destruct (negb _ && _); [done|]. apply same_bind; [done|]. intros _. apply (agree_write env k); [done|].
    apply find_some in Ef as [Ef _]. apply list_elem_of_In, nesting_field in Ef. lia.
  - revert g. destruct (negb _ && _); [done|]. apply same_bind; [done|]. intros _.
    destruct (default_value_for_property env o p) as [d|] eqn:Ed; [|done]. apply (agree_write env k); [done|].
    rewrite (Hdef _ _ _ Ed). cbn [nesting] in Hv. lia.
Qed.

(** [n] levels of creation, below which nested objects are created by [below] *)
Fixpoint create_above (below : Creator) (n : nat) env : Creator :=
  match n with O => below | S n => create_object env (create_above below n env) end.

(** C13: creating nested objects ends: where defaults are no dictionaries, no more levels
    of creation are entered than dictionaries are nested and one. Whatever would
    happen below that many levels (an exception, a result, running out of fuel) is never
    reached: it can be replaced by any program, and more fuel changes nothing. *)
Theorem create_fuel_enough env o v below n m a b c g : (forall o p d, default_value_for_property env o p = Some d -> nesting d = 0%nat) ->
  (nesting v < n)%nat -> (nesting v < m)%nat -> create_above below n env o v a b c g = create m env o v a b c g.
Proof.
  intros Hdef. assert (forall k n m, (k <= n)%nat -> (k <= m)%nat -> agree k (create_above below n env) (create m env)) as Hagree.
  { induction k as [|k IH]; intros n' m' Hn' Hm' o' v' a' b' c' Hv'; [lia|]. destruct n' as [|n'], m' as [|m']; [lia..|].
    cbn [create create_above]. apply same_bind; [done|]. intros _. apply same_bind; [done|]. intros t. apply same_bind; [|done].
    apply (agree_populate env k); [apply IH; lia|lia|done]. }
  intros Hn Hm. apply (Hagree (S (nesting v))); lia.
Qed.
End fuel.

(** ** A core with tables of cells
    Tables have the cells that were set; [-1] is null and reads as [0], column [0] is
    not nullable, and links are to the same table. *)
Section plain.
Implicit Types (g : PGroup) (n : string).

Definition is_table n (x : string * list (list (Z * Z))) : bool := string_eqb (fst x) n.
Definition rows_of g n : list (list (Z * Z)) := match List.find (is_table n) (pg_tables g) with Some x => x.2 | None => [] end.
Definition plain_has g n : bool := existsb (is_table n) (pg_tables g).
Definition with_rows g n rows : PGroup :=
  mkPGroup (pg_objects g) (pg_links g) (pg_values g) (map (fun x => if is_table n x then (x.1, rows) else x) (pg_tables g)).

Definition row_cell (row : list (Z * Z)) (c : Z) : Z := match List.find (fun x => x.1 =? c) row with Some x => x.2 | None => -1 end.
Definition plain_cell g n (c r : Z) : Z :=
  if r <? 0 then -1 else match rows_of g n !! Z.to_nat r with Some row => row_cell row c | None => -1 end.
Definition plain_count g n : Z := Z.min (Z.of_nat (length (rows_of g n))) (npos - 1).
Definition plain_in g n (r : Z) : bool := (0 <=? r) && (r <? plain_count g n).

Definition plain_write g n (c r v : Z) (allowed : bool) : option PGroup :=
  guarded (plain_in g n r && allowed) (with_rows g n (alter (cons (c, v)) (Z.to_nat r) (rows_of g n))).
Definition plain_add g n (row : list (Z * Z)) : option PGroup :=
  guarded (plain_has g n && (Z.of_nat (length (rows_of g n)) + 1 <? npos)) (with_rows g n (rows_of g n ++ [row])).
Definition plain_find g n (c v : Z) : Z :=
  match List.find (fun r => plain_cell g n c r =? v) (seqZ 0 (plain_count g n)) with Some r => r | None => npos end.
End plain.

#[global] Instance PlainObjects : @ObjectCore PlainCore PlainLists := {|
  has_table := plain_has : @core_group PlainCore -> _;
  type_rows := plain_count : @core_group PlainCore -> _;
  column_nullable _ _ c := 0 <? c;
  column_target _ n _ := n;
  cell := plain_cell : @core_group PlainCore -> _ -> _ -> _ -> @core_value PlainCore;
  cell_is_null (g : @core_group PlainCore) n c r := plain_cell g n c r =? -1;
  cell_or_default (g : @core_group PlainCore) n c r := (if plain_cell g n c r =? -1 then 0 else plain_cell g n c r) : @core_value PlainCore;
  link_cell (g : @core_group PlainCore) n c r := if plain_cell g n c r =? -1 then npos else plain_cell g n c r;
  find_first := plain_find : @core_group PlainCore -> _ -> _ -> @core_value PlainCore -> _;
  add_empty_object (g : @core_group PlainCore) n := plain_add g n [];
  create_object_with_primary_key (g : @core_group PlainCore) n c (key : @core_value PlainCore) := plain_add g n [(c, key)];
  set_cell (g : @core_group PlainCore) n c r (v : @core_value PlainCore) _ := plain_write g n c r v (negb (v =? -1) || (0 <? c));
  set_null_cell (g : @core_group PlainCore) n c r _ := plain_write g n c r (-1) (0 <? c);
  set_link_cell (g : @core_group PlainCore) n c r i _ := plain_write g n c r i (plain_in g n i);
  nullify_link_cell (g : @core_group PlainCore) n c r := default g (plain_write g n c r (-1) true);
  links_at _ _ _ := tt : @core_links PlainCore;
  values_at _ _ _ := tt : @core_rows PlainCore PlainLists;
  null_value := -1 : @core_value PlainCore;
  value_fits _ (v : @core_value PlainCore) := 0 <=? v
|}.

Section plain_laws.
Implicit Types (g : PGroup) (n : string).

Lemma rows_with g n n' rows : plain_has g n = true ->
  rows_of (with_rows g n rows) n' = if bool_decide (n' = n) then rows else rows_of g n'.
Proof.
  unfold plain_has, rows_of, with_rows. cbn. induction (pg_tables g) as [|[m rs] ts IH]; [done|]. cbn -[bool_decide].
  unfold is_table, string_eqb in *. cbn -[bool_decide] in *. intros Hh.
  destruct (decide (m = n)) as [->|Hmn].
  - rewrite (bool_decide_true (n = n)) by done. cbn -[bool_decide]. destruct (decide (n' = n)) as [->|Hn'].
    + by rewrite !bool_decide_true.
    + rewrite !(bool_decide_false (n = n')), (bool_decide_false (n' = n)) by congruence. clear IH Hh.
      induction ts as [|[m' rs'] ts IH]; [done|]. cbn -[bool_decide]. destruct (decide (m' = n)) as [->|].
      * rewrite (bool_decide_true (n = n)) by done. cbn -[bool_decide]. by rewrite (bool_decide_false (n = n')) by congruence.
      * rewrite (bool_decide_false (m' = n)) by done. cbn -[bool_decide]. by destruct (bool_decide (m' = n')).
  - rewrite (bool_decide_false (m = n)) in * by done. cbn -[bool_decide] in *. destruct (decide (m = n')) as [->|Hmn'].
    + rewrite (bool_decide_true (n' = n')), (bool_decide_false (n' = n)) by done. done.
    + rewrite (bool_decide_false (m = n')) by done. by apply IH.
Qed.

Lemma has_with g n n' rows : plain_has (with_rows g n rows) n' = plain_has g n'.
Proof.
  unfold plain_has, with_rows. cbn. induction (pg_tables g) as [|x ts IH]; [done|]. cbn. rewrite IH. f_equal. by destruct (is_table n x).
Qed.

Lemma in_has g n r : plain_in g n r = true -> plain_has g n = true /\ (Z.to_nat r < length (rows_of g n))%nat /\ 0 <= r.
Proof.
  unfold plain_in, plain_count. intros Hr. assert (Z.to_nat r < length (rows_of g n))%nat as Hlt by lia. split; [|lia].
  unfold plain_has, rows_of in *. destruct (List.find _ _) as [x|] eqn:E; [|cbn in Hlt; lia].
  apply find_some in E as [Hin Hx]. apply existsb_exists. by exists x.
Qed.
Lemma in_type_plain g n r : in_type g n r <-> plain_in g n r = true.
Proof. unfold in_type, plain_in. cbn. lia. Qed.

Lemma stored_plain g g' n c r : plain_cell g' n c r = plain_cell g n c r -> stored g' n c r = stored g n c r.
Proof. intros E. unfold stored. cbn. by rewrite E. Qed.

Lemma plain_written g n c r v a g' : plain_write g n c r v a = Some g' -> changes g g' n c r /\ plain_cell g' n c r = v.
Proof.
  unfold plain_write, guarded. destruct (plain_in g n r) eqn:Hin; [|done]. destruct a; [|done]. intros [= <-].
  destruct (in_has g n r Hin) as (Hh & Hlt & H0).
  split; [split; [|split]|].
  - intros n'. split; [apply has_with|done].
  - intros n'. cbn. unfold plain_count. rewrite rows_with by done. case_bool_decide; [|done]. subst. by rewrite length_alter.
  - intros n' c' r' Hne. apply stored_plain. unfold plain_cell. rewrite rows_with by done. destruct (r' <? 0) eqn:Hr'; [done|].
    case_bool_decide; [|done]. subst. rewrite list_lookup_alter. destruct (decide _) as [Er|]; [|done].
    assert (r' = r) as -> by lia. destruct (rows_of g n !! Z.to_nat r); [|done]. cbn. unfold row_cell. cbn.
    rewrite (proj2 (Z.eqb_neq c c')); [done|]. intros ->. by apply Hne.
  - unfold plain_cell. rewrite rows_with, bool_decide_true, (proj2 (Z.ltb_ge r 0)), list_lookup_alter_eq by done.
    destruct (lookup_lt_is_Some_2 _ _ Hlt) as [row ->]. cbn. unfold row_cell. cbn. by rewrite Z.eqb_refl.
Qed.

Lemma plain_added g n row g' : plain_add g n row = Some g' -> adds g g' n /\ forall c, plain_cell g' n c (plain_count g n) = row_cell row c.
Proof.
  unfold plain_add, guarded. destruct (plain_has g n) eqn:Hh; [|done]. destruct (_ <? npos) eqn:Hroom; [|done]. intros [= <-].
  apply Z.ltb_lt in Hroom. split; [split; [|split; [|split]]|].
  - intros n'. split; [apply has_with|done].
  - cbn. unfold plain_count. rewrite rows_with, bool_decide_true, length_app by done. cbn. lia.
  - intros n' Hn. cbn. unfold plain_count. by rewrite rows_with, bool_decide_false.
  - intros n' c r Hr. apply stored_plain. unfold plain_cell. rewrite rows_with by done. destruct (r <? 0) eqn:Hr0; [done|].
    case_bool_decide; [|done]. subst. apply in_type_plain, in_has in Hr as (_ & Hr & _). by rewrite lookup_app_l.
  - intros c. unfold plain_cell. rewrite rows_with, bool_decide_true by done. unfold plain_count.
    rewrite Z.min_l, (proj2 (Z.ltb_ge _ 0)), Nat2Z.id, list_lookup_middle by lia. done.
Qed.

Lemma plain_finds g n c v : finds g n c v (plain_find g n c v).
Proof.
  unfold plain_find, finds. destruct (List.find _ _) as [r|] eqn:E.
  - right. apply find_some in E as [Hin Hr]. apply list_elem_of_In, elem_of_seqZ in Hin. cbn. unfold in_type. cbn. lia.
  - left. split; [done|]. intros i Hi Hc. unfold in_type in Hi. cbn in Hi, Hc.
    assert (i ∈ seqZ 0 (plain_count g n)) as Hin by (apply elem_of_seqZ; lia).
    apply list_elem_of_In in Hin. apply (find_none _ _ E) in Hin. cbn in Hin. lia.
Qed.

Lemma plain_lists_same g links values : same_cells g (mkPGroup (pg_objects g) links values (pg_tables g)).
Proof. split; [by intros n|]. by split; [intros n|intros n c r; apply stored_plain]. Qed.

Lemma plain_can_write g n c r v (a : bool) : in_type g n r -> a = true -> exists g', plain_write g n c r v a = Some g'.
Proof. intros Hr%in_type_plain ->. unfold plain_write. rewrite Hr. by eexists. Qed.

Lemma plain_can_add g n row : plain_has g n = true -> plain_count g n + 1 < npos -> exists g', plain_add g n row = Some g'.
Proof.
  intros Hh Hr. unfold plain_add, guarded. rewrite Hh. destruct (Z.ltb_spec (Z.of_nat (length (rows_of g n)) + 1) npos) as [|Hge]; [by eexists|].
  unfold plain_count in Hr. lia.
Qed.

#[global] Instance PlainObjectLaws : ObjectLaws.
Proof.
  split.
  - intros g n. cbn. unfold plain_count. change npos with 18446744073709551615. lia.
  - intros g n c v _. apply plain_finds.
  - intros g n Hh Hr. by apply plain_can_add.
  - intros g n g' E. by apply plain_added in E as [? _].
  - intros g n c key Hh Hr. by apply plain_can_add.
  - intros g n c key g' E. apply plain_added in E as [Ha Hc]. split; [done|]. cbn. rewrite Hc. unfold row_cell. cbn. by rewrite Z.eqb_refl.
  - intros g n c r v d Hr Hv. apply plain_can_write; [done|]. cbn in *. destruct (v =? -1) eqn:E; [|done]. cbn. apply Hv. lia.
  - intros g n c r v d g' E. by apply plain_written in E.
  - intros g n c r. apply Z.eqb_eq.
  - intros g n c r E. cbn in *. by rewrite E.
  - intros g n c r d Hr Hn. by apply plain_can_write.
  - intros g n c r d g' E. apply plain_written in E as [Hc Hv]. split; [done|]. cbn. by rewrite Hv.
  - intros g n c r i d Hr Hi%in_type_plain. by apply plain_can_write.
  - intros g n c r i d g' E. apply plain_written in E as [Hc Hv]. split; [done|]. cbn. intros Hi%in_type_plain%in_has.
    rewrite Hv, (proj2 (Z.eqb_neq i (-1))) by lia. done.
  - intros g n c r. cbn. destruct (plain_write g n c r (-1) true) as [g'|] eqn:E; cbn.
    + apply plain_written in E as [Hc Hv]. split; [done|]. by rewrite Hv.
    + split; [apply changes_same|]. intros Hr. destruct (plain_can_write g n c r (-1) true Hr eq_refl) as [g' E']. congruence.
  - intros g lv i g' E. cbn in E. unfold plain_links_insert, guarded in E. destruct (object_of_row g i); [|done]. cbn in E.
    destruct (_ && _) in E; [|done]. injection E as <-. apply plain_lists_same.
  - intros g lv i x g' E. cbn in E. unfold plain_links_set, guarded in E. destruct (object_of_row g x); [|done]. cbn in E.
    destruct (in_range_b _ _); [|done]. injection E as <-. apply plain_lists_same.
  - intros g lv i g' E. cbn in E. unfold change_links, guarded in E. destruct (_ && _); [|done]. injection E as <-. apply plain_lists_same.
  - intros g lv. apply plain_lists_same.
  - intros g t. apply plain_lists_same.
  - intros g t i v g' E. cbn in E. unfold change_values, guarded in E. destruct (_ && _); [|done]. injection E as <-. apply plain_lists_same.
  - intros g t i g' E. cbn in E. unfold change_values, guarded in E. destruct (_ && _); [|done]. injection E as <-. apply plain_lists_same.
  - intros g t. apply plain_lists_same.
Qed.
End plain_laws.

(** ** Examples: people with a number, a name and a friend *)
#[local] Instance people_chars : CharSign := true.

Definition number_property : Property := mkProperty "number" PT_Int EmptyString EmptyString true false 0.
Definition name_property : Property := mkProperty "name" (pt_or PT_String PT_Nullable) EmptyString EmptyString false false 1.
Definition friend_property : Property := mkProperty "friend" (pt_or PT_Object PT_Nullable) "person" EmptyString false false 2.
Definition person : ObjectSchema := ObjectSchema_make "person" [number_property; name_property; friend_property] [].

Definition people : @core_group PlainCore := mkPGroup [] [] [] [("person"%string, [[(0, 5); (1, 50)]])].
Definition people_env : @AccessEnv PlainCore PlainLists PlainObjects := mkAccess true false [person] (fun _ _ => None) (fun _ => false) 0.

Definition value (v : Z) : @Any PlainCore PlainLists PlainObjects := any_value (v : @core_value PlainCore).

(** A new person whose friend is the person who is there, with a new name *)
Definition old_friend : @Any PlainCore PlainLists PlainObjects :=
  any_dict [("number"%string, value 5); ("name"%string, value 51); ("friend"%string, any_null)].
Definition new_person : list (string * @Any PlainCore PlainLists PlainObjects) :=
  [("number"%string, value 7); ("name"%string, any_null); ("friend"%string, old_friend)].

Lemma people_schema : SchemaOk people_env.
Proof.
  split.
  - intros o o' ->%list_elem_of_singleton ->%list_elem_of_singleton. done.
  - intros o p q [->%list_elem_of_singleton [= <-]]. cbn. rewrite !elem_of_cons, elem_of_nil. by intros [->|[->|[->|[]]]].
Qed.
Lemma people_tables : tables_exist people_env people.
Proof. intros o ->%list_elem_of_singleton. reflexivity. Qed.
Lemma people_row i : in_type people "person" i <-> 0 <= i < 1.
Proof. done. Qed.
Lemma people_keys : distinct_keys people_env people.
Proof. intros o p [->%list_elem_of_singleton [= <-]] i j. rewrite !people_row. lia. Qed.

Example primary_keys_kept_witness :
  exists g', access 2 people_env (do_create person (any_dict new_person) true false npos) people = returns () g' /\
    keys_kept people_env people g' /\ rows_of g' "person" = [[(2, -1); (1, 51); (0, 5); (1, 50)]; [(2, 0); (1, -1); (0, 7)]].
Proof.
  eexists. split; [reflexivity|]. split; [|reflexivity].
  exact (primary_keys_kept people_env 2 people (do_create person (any_dict new_person) true false npos)
    people_schema eq_refl (list_elem_of_here person []) people_tables people_keys).
Defined.

Example created_object_found_witness :
  exists row g', create 2 people_env person (any_dict new_person) true false npos people = returns row g' /\
    get_for_primary_key person (value 7) g' = returns (Some row) g'.
Proof.
  eexists _, _. split; [reflexivity|].
  apply (created_object_found people_env 2 person number_property (any_dict new_person) true false npos people _ _ (value 7)); try reflexivity.
  - apply people_schema.
  - by split; [apply list_elem_of_singleton|].
  - apply people_tables.
  - apply people_keys.
Defined.

Example property_round_trip_witness :
  exists g', set_property_value 1 people_env person 0 "friend" (any_row "person" (Some 0)) false people = returns () g' /\
    get_property_value people_env person 0 "friend" g' = returns (read_any (any_row "person" (Some 0))) g'.
Proof.
  destruct (property_round_trip people_env 1 person 0 "friend" friend_property (any_row "person" (Some 0)) false people)
    as (g' & E & Er & _); [reflexivity|reflexivity|by left| | |reflexivity|by exists g'].
  - apply people_row; lia.
  - split; [reflexivity|]. split; [reflexivity|]. apply people_row; lia.
Defined.

Definition named_person : list (string * @Any PlainCore PlainLists PlainObjects) :=
  [("number"%string, value 7); ("name"%string, value 70); ("friend"%string, any_row "person" (Some 0))].

Example create_writes_witness :
  exists g', create 1 people_env person (any_dict named_person) false false npos people = returns 1 g' /\
    cell g' "person" 1 1 = 70 /\ link_cell g' "person" 2 1 = 0.
Proof.
  destruct (create_writes people_env 0 person named_person false false npos people) as (g' & E & Hp & _); try reflexivity.
  - by repeat constructor; rewrite ?elem_of_cons, ?elem_of_nil; intros ?; repeat destruct_or?.
  - intros p [= <-]. exists (value 7), 7. split; [reflexivity|]. split; [reflexivity|]. split; [reflexivity|]. left. reflexivity.
  - done.
  - intros p. cbn. rewrite !elem_of_cons, elem_of_nil. intros [->|[->|[->|[]]]]; [done| |]; intros _.
    + split; [reflexivity|]. by split.
    + split; [reflexivity|]. split; [reflexivity|]. apply people_row; lia.
  - exists g'. split; [exact E|]. split.
    + destruct (Hp name_property) as [Hn|[Hn _]]; [by right; left|done|exact Hn|done].
    + pose proof (Hp friend_property) as Hf. cbn in Hf. assert (Some (link_cell g' "person" 2 1) = Some 0) as [=]; [|done].
      apply Hf; [|done]. by right; right; left.
Defined.

(** A null is not overwritten by the value it reads as, [0], when only differences are
    written. *)
Definition nameless : @core_group PlainCore := mkPGroup [] [] [] [("person"%string, [[(0, 5)]])].
Definition named_zero : @Any PlainCore PlainLists PlainObjects := any_dict [("number"%string, value 5); ("name"%string, value 0)].

Lemma null_is_left :
  create 1 people_env person named_zero true true npos nameless = returns 0 nameless /\
  cell_is_null nameless "person" 1 0 = true /\
  exists g', create 1 people_env person named_zero true false npos nameless = returns 0 g' /\ cell_is_null g' "person" 1 0 = false.
Proof. split; [reflexivity|]. split; [reflexivity|]. eexists. split; reflexivity. Qed.

(** An object of another type links to the person with its index. *)
Lemma other_type_linked :
  exists g', set_property_value 1 people_env person 0 "friend" (any_row "dog" (Some 0)) false people = returns () g' /\
    get_property_value people_env person 0 "friend" g' = returns (read_any (any_row "person" (Some 0))) g'.
Proof. exists (with_rows people "person" [[(2, 0); (0, 5); (1, 50)]]). split; reflexivity. Qed.

Example create_fuel_enough_witness :
  create_above (fun _ _ _ _ _ => mret 99) 3 people_env person (any_dict new_person) true false npos people =
    create 9 people_env person (any_dict new_person) true false npos people.
Proof. apply (create_fuel_enough people_env person (any_dict new_person) (fun _ _ _ _ _ => mret 99) 3 9 true false npos people); [done|vm_compute; lia..]. Defined.
